(* ===== verification/_CoqProject ===== *)
-Q . S2P
Prelude.v
Json.v
Glob.v
Pyfmt.v
Lifecycle.v
Names.v
Durations.v
Pool.v
Mail.v
Authority.v
Routing.v
Agents.v
Hostexec.v
Schema.v
Policy.v
Zones.v
Eval.v
HostTypes.v
Totp.v
Output.v
TotpCode.v
TotpStore.v
CanonicalJson.v
F64.v
Transcript.v
Envelope.v
Hello.v
P256.v
Jwt.v
SampleCrypto.v
JwtFacts.v
ChannelRuns.v
Admission.v
Hostd.v
HostdRuns.v
HostdOnce.v
HostdLock.v
Sandbox.v
SandboxStore.v
Sandboxd.v
SandboxdRuns.v
SandboxdFacts.v
Store.v
Requests.v
Grants.v
Threads.v
ServiceRouting.v
PoolLeases.v
PoolFacts.v
Provision.v
Create.v
Decide.v
Review.v
Contain.v
Pairing.v
SecretBox.v
DaemonHub.v
Accounts.v
OAuth.v
SecurityLog.v
McpTools.v
RemoteMcp.v
SignIn.v
McpRuns.v
Callers.v
Panel.v
Samples.v
HubRuns.v
OAuthRuns.v
CallerFacts.v
PanelFacts.v
TxLogic.v
ServiceMono.v
ServiceInv.v
ServiceWf.v
ServiceRuns.v
ServiceFacts.v
DecideFacts.v
ThreadRuns.v
