(* ===== verification/Prelude.v ===== *)
(** * agent-auth: the broker's decisions and the host's, verified

    agent-auth gives AI agents access to platforms: an agent asks a broker
    for a grant, the broker's policy, a reviewing model or a person decides,
    the platform's provisioner gives what was decided, and the grant ends at
    its time or when its agent is contained. On each machine a daemon admits
    the broker's jobs by rules of its own. The Rust workspace is
    [src/rust/crates]; paths below are relative to it.

    ** The program's parts and the files that model them

    The core ([core/src], pure code):
    - [Prelude]: text, lists, options and results, and the automation every
      file uses. Text is the list of its Unicode scalar values.
    - [Json]: serde_json's values and maps (sorted by key); [CanonicalJson]:
      [canonical_json.rs], both writers, with Python's float text.
    - [Glob] ([glob.rs]), [Pyfmt] ([pyfmt.rs], [prompt.rs]), [Names]
      (with [ids.rs]), [Durations], [Pool]: the small languages.
    - [Lifecycle] ([platform.rs], [lifecycle.rs]): the two state machines;
      the trait [CanMoveTo] is a class, runs are [history].
    - [Authority], [Mail], [Hostexec]: what a grant allows, how one authority
      covers another, and their wire and stored forms.
    - [Agents] ([policy/agents.rs], [containment.rs]): patterns, delegation,
      placeholders, containment matches.
    - [Schema], [Policy] ([policy/]): the policy file, checked and loaded.
    - [Zones], [Routing], [Eval] ([zones.rs], [routing.rs], [shell_mode.rs],
      [policy/eval.rs]): the decision, the gates, the route.
    - [HostTypes], [Totp], [Output] (with [display.rs]), [Admission]
      ([hostd/]): what the host daemon decides.
    - [Sandbox] ([sandbox.rs], with [sandboxd/src/names.rs]): the names and
      the holds of agent VMs.

    The host daemon:
    - [TotpCode] ([crypto/src/totp.rs]), [TotpStore]
      ([hostd/src/totp_store.rs]): codes and the state that makes them
      single-use.
    - [Hostd] ([hostd/src/daemon.rs], [ctl.rs]): the state and every handler
      as the sections it runs under the state's lock. [HostdRuns] lets the
      sections of all handlers interleave, with a journal of what they did;
      [HostdOnce] and [HostdLock] are about those runs.

    The channel between them ([crypto/src/daemon], [broker/src/daemons]):
    - [F64], [Transcript], [Hello], [Envelope] ([mod.rs], [keys.rs],
      [hello.rs], [envelope.rs]): signed transcripts, the two hellos and the
      session they agree on, and the sealed messages of a connection.
      [ChannelRuns] composes them; [SampleCrypto] is the witnesses' crypto.
    - [Pairing] ([crypto/src/daemon/pairing.rs], [store/src/daemons.rs],
      [broker/src/daemons/pairing.rs], [daemon/src/pair.rs]): one-time codes
      and the tables behind them. [DaemonHub] ([broker/src/daemons/mod.rs],
      [channel.rs]): the live connections. [HubRuns] interleaves the hub's
      steps with the pairing transactions.

    The sandbox daemon of an agent VM ([sandboxd/src]):
    - [SandboxStore] ([store.rs], [daemon/slots.rs]): its documents, each
      changed on disk first, and the process slots. [Sandboxd]
      ([daemon/mod.rs], [conversations.rs], [routing.rs], [runtime/mod.rs],
      [api.rs]): holds, keys, conversations with their process and terminal,
      deliveries, the routing and reading of threads; each definition is what
      runs between two waits, and what disk, host and broker answer are
      arguments. [SandboxdRuns] lets them interleave ([step]; [gap] is the
      four sections a hold does not reach, of one conversation each; both are
      [run_step]); [SandboxdFacts] is about the runs and about the texts.

    The broker ([broker/src], [store/src]):
    - [Store] ([store/src/tx.rs], [error.rs], [values.rs], [agents.rs],
      [lockdown.rs], [rules.rs]): the database as a record of tables, a
      transaction as a function of it that returns a result and the new
      database, or the error that drops it ([tx], with [let!] and [;!]).
    - [Requests], [Grants], [Threads] ([requests.rs], [grants.rs], [a2a.rs]
      with the CHECKs and triggers of [store/migrations]): one definition
      per query. [Request S] is the typed handle; [transition] takes the
      [CanMoveTo] instance its Rust type demands.
    - [ServiceRouting], [Create], [Decide], [Review], [Provision]
      ([broker/src/service/], [a2a/delegation.rs]): the transactions of a
      request's life; [Contain] ([containment.rs], [scheduler.rs],
      [store/src/sandboxes.rs]): containment, disabling and the sweeps.
      Where the code opens several transactions the definition runs them one
      after the other on the database; what the clock reads at each is an
      argument.
    - [Accounts] ([crypto/src/api_key.rs], [store/src/agents.rs],
      [sessions.rs]) and [OAuth] ([store/src/oauth.rs],
      [broker/src/oauth/], [wire/src/oauth.rs]): keys, sessions, and the
      authorization server of web connectors, over the four tables beside
      [Store]'s ([Accounts], with [let$] and [;$]). [OAuthRuns] is the step
      relation of registrations, approvals, exchanges and revocations.
    - [Callers] ([broker/src/auth/]): who a request is from; [SecurityLog]
      ([security_log.rs]): what is recorded of refusals. [McpTools]
      ([wire/src/mcp_tools.rs]) and [RemoteMcp] ([broker/src/remote_mcp/]):
      the tools a web chat calls, each a [task]: the calls it makes on the
      agent API over a clock and the minted sessions, with everything else
      that runs an argument ([Outside]). [McpRuns] and [CallerFacts] are
      about them.
    - [P256], [Jwt] ([crypto/src/jwt.rs], [oidc.rs], [pem.rs]): the limbs of
      the constant-time scalar and of low-[s] signatures, the tokens the
      broker mints and checks, its assertions to GitHub and Google, ID
      tokens. [SecretBox] ([secretbox.rs], [webhook.rs],
      [broker/src/webui/cookies.rs]): encryption at rest, sealed cookies,
      webhook signatures. [JwtFacts] is about the tokens.
    - [SignIn], [Panel] ([broker/src/webui/], [store/src/flags.rs]): signing
      in at the OpenID provider, the panel's sessions and the sign-outs kept
      in the broker's flags, and the calls a session may make. [PanelFacts]
      is about them.
    - [Samples]: the worlds of the witnesses of the four groups above.
    - [PoolLeases] ([store/src/pool.rs] with its table's constraints,
      [broker/src/provisioners/pool.rs]): the leases of a pool's items and
      the platform that takes them, each statement of another transaction
      that may commit in between an argument. [PoolFacts] is about them.
    - [TxLogic]: how transactions are reasoned about: inversion of a
      successful one ([tx_ok]), orders of databases that every write but an
      activation respects ([StepOrder]), [mono] and its hints.
      [ServiceMono] proves every operation along any such order once;
      [ServiceInv] and [ServiceWf] state the tables' invariant and that
      every operation keeps it ([keeps]). [ServiceRuns] is the step relation
      of everything the service commits; [ThreadRuns] that of the threads.
      [SampleService], in [ServiceMono], is the concrete broker of the
      witnesses.

    ** What the theorems show

    - Decisions ([Eval], [Routing], [Zones], [Authority]): what an
      automatic approval needs, that a sensitive request needs a pinned rule,
      a delegated one a rule that names its delegator, that the newest rule
      decides, gates only downgrade, what a rule covers reaches no further
      than the rule, and zones refuse exactly what reaches into them.
    - The lifecycle ([ServiceRuns], [DecideFacts]): in every interleaving of
      the service's transactions the tables stay well-formed, requests and
      grants move only along their state machines (a refinement), a request
      is decided once, a grant begins within what was approved and what backs
      it, and the database's guards are the code's tables.
    - Grants ([ServiceFacts]): one becomes active only when its finish finds
      its agent not held; a credential is issued for exactly the live grants;
      containment ends every grant of what it holds for good; the scheduler
      ends every grant past its end.
    - Threads ([ThreadRuns]): messages are numbered without a gap between
      the two parties; a closed thread is final.
    - Hosts ([Admission], [HostdRuns], [HostdOnce], [HostdLock], [Totp],
      [TotpStore]): nothing runs without a ground the host itself has, an
      approval is spent once, codes are single-use and guesses bounded, a
      lockdown stops everything and what runs ends.
    - Channels ([ChannelRuns]): two hellos that verify agree on daemon,
      nonces and keys; on a connection the receiver gets exactly messages the
      sender sealed, each once and in order, whatever is replayed or
      reordered in between; what is sealed opens.
    - Pairing and the hub ([HubRuns]): a code pairs one key, after bounded
      tries; once a kick is carried out no connection with a replaced key is
      left registered; a call is answered once, by its callee.
    - Connectors ([OAuthRuns]): every token descends from a person's approval
      of its client and from a code whose verifier was shown; a browser is
      sent only to a configured redirect, and a code only to its approval's;
      codes and refresh tokens are exchanged once, and one shown again by its
      own client before it expires ends the whole authorization (shown
      otherwise, it changes nothing); registrations stay bounded.
    - Callers ([CallerFacts], [McpRuns], [SecurityLog]): a request is an
      agent's only with its secret or its connector's live token; a
      long-lived request's check agrees with authenticating again; a
      connector's token reaches only the routes of the tools served to it;
      every tool ends after a bounded number of calls, all on those routes
      but where an id it was given, or got, is empty; the log stays bounded
      and its noisiest agent pays.
    - Tokens ([P256], [JwtFacts]): the scalar's limb arithmetic is the
      reduction of the key material; what the broker mints is accepted for its
      audience in its window and no longer; what is accepted was signed, and
      has one spelling.
    - The panel ([PanelFacts]): who signs in is an admin by an ID token for
      this client and nonce, signed with a key from where the provider's
      discovery document says; a sign-out that is in the copy sessions are
      checked with voids the sessions it meant, across restarts (one overtaken
      by another may be missing from it, [sign_outs_overtake]); a session
      reaches only the routes listed for it, none of which decides.
    - Pools ([PoolFacts]): however provisions and other transactions
      interleave, an item is held within its capacity, an agent within its
      maximum and a grant once; a lease is of an item the file has, open to
      the agent, a sensitive one by its name only, and by "previous" the one
      held last; the first free item is leased, unless its secret is too
      large, which fails the provision.
    - Agent VMs ([Sandbox], [SandboxdFacts]): an agent is held by the last
      lockdown or the last held list, and lifting one never thaws what the
      other holds; in every run of the daemon's sections, once no hold is on
      its way and nobody is at a conversation, no process of a held agent
      runs unfrozen, but in a conversation one of [gap]'s four sections was
      of, each shown needed by a run; an accepted text is never lost or
      overtaken, and a thread is read in order with none of its messages
      skipped, each once unless its cursor cannot be written; a mint's name
      reads back.
    - Languages ([Glob], [Pyfmt], [CanonicalJson], [Durations], [Hostexec],
      [Policy], [Output]): matching decides its specification and
      ends, texts read back, canonical text determines the value, bounds hold
      at machine width, and a loaded policy or a validated job is valid.

    ** Bounds and fuel

    Recursion is structural but for: the glob matcher, whose fuel is the
    measure of the greedy loop ([match_fuel]) and is proved enough; the
    agents' chain, cut at [MAX_CHAIN] as in the code, with one level more
    than that of fuel; the disabled tree, as many rounds as agents; float
    digits, up to the seventeen that always read back. [u64], [i64], [u32]
    and [i32] are numbers with their bounds written where the code checks
    them; instants are nanoseconds up to the last one [OffsetDateTime] has.

    ** What is a parameter

    Code outside the repository is a class whose laws are the documented
    ones: Unicode lower case, regular expressions, calendar dates, float and
    debug text, YAML, UUIDs, base64, hexadecimal, ed25519, SHA-256, the
    HMACs, serde_json's reader, [ring]'s P-256, RSA, HKDF and
    ChaCha20-Poly1305, URL and form parsing, the provider's answers over HTTP
    and the readers serde derives for them, the files of a pool's secrets. So are the platforms'
    provisioners ([Registry]): they may change their own grant's state but
    neither a request nor a status ([RegistryLaws]); the reviewing model's
    verdict and a platform's approval gate are arguments.

    ** What is not modelled, and why

    - Transactions run one at a time: the code's row and advisory locks make
      them serial where it matters, and the model has no isolation anomalies.
    - Foreign keys to sessions, deliveries of keys to agent VMs, and the
      case of a provisioner that reports success in a transaction it broke.
    - Notifications, logs, metrics and the wire's JSON around the handlers.
    - The HTTP and websocket servers, the provisioners but the pool's, mail,
      MCP and model gateways and the Discord interface of [broker], and how
      it reads its configuration; of [sandboxd] what starts processes, their
      contexts, users and files, tmux, the one-shot processes that triage a
      thread and its prompt, sharing between projects; the websocket loop of [daemon], [mail],
      [client], [cli], [mcp], [wire], [e2e]: I/O and derived serialisation
      around what is modelled.
    - Poisoned locks: no modelled section panics while it holds one.
    - [core/src/proofs*.rs] (Kani harnesses), [spec/] and the Python program
      this one replaces. *)

From Stdlib Require Import Ascii String.
From stdpp Require Export base option list list_numbers gmap strings.
From stdpp Require Import options.
From Stdlib Require Export Lia ZArith.
From stdpp Require Export base option list gmap.

(** ** Characters and text

    A Rust [char] is its Unicode scalar value and a [str] the list of its
    characters; [String::len] (bytes of UTF-8) is [str_len]. *)

Abbreviation char := N (only parsing).
Abbreviation str := (list N) (only parsing).

(** The character of a one-character ASCII literal, evaluated when it is
    written: [ch "a"] is [97]. *)
Definition first_char (s : string) : char :=
  match s with String a _ => N_of_ascii a | EmptyString => 0%N end.
Abbreviation ch s :=
  (ltac:(let v := eval vm_compute in (first_char s%string) in exact v))
  (only parsing).

Module Utf8.
Local Open Scope N_scope.

Definition cont (b : N) : N := N.land b 63.

(** Decode well-formed UTF-8 (the literals of this development). *)
Fixpoint decode (bs : list N) : str :=
  match bs with
  | [] => []
  | b :: bs1 =>
    if b <? 128 then b :: decode bs1
    else if b <? 224 then
      match bs1 with
      | b1 :: bs2 => (N.land b 31 * 64 + cont b1) :: decode bs2
      | [] => []
      end
    else if b <? 240 then
      match bs1 with
      | b1 :: b2 :: bs3 =>
          (N.land b 15 * 4096 + cont b1 * 64 + cont b2) :: decode bs3
      | _ => []
      end
    else
      match bs1 with
      | b1 :: b2 :: b3 :: bs4 =>
          (N.land b 7 * 262144 + cont b1 * 4096 + cont b2 * 64 + cont b3)
            :: decode bs4
      | _ => []
      end
  end.

(** [char::len_utf8]. *)
Definition len_utf8 (c : char) : nat :=
  if c <? 128 then 1 else if c <? 2048 then 2 else if c <? 65536 then 3 else 4.
End Utf8.

(** The text of a string literal. *)
Definition lit (s : string) : str :=
  Utf8.decode (map N_of_ascii (list_ascii_of_string s)).
Arguments lit _%_string.

(** The same, with each backtick standing for a double quote. *)
Definition qlit (s : string) : str :=
  map (fun c => if N.eqb c 96 then 34%N else c) (lit s).
Arguments qlit _%_string.

(** [str::len]: bytes of UTF-8. *)
Fixpoint str_len (s : str) : nat :=
  match s with [] => 0 | c :: s' => Utf8.len_utf8 c + str_len s' end.

(** A Unicode scalar value (what a Rust [char] may be). *)
Definition is_scalar (c : char) : bool :=
  ((c <? 0xD800) || ((0xE000 <=? c) && (c <? 0x110000)))%N.

(** What a Rust [str] may be. *)
Definition valid_str (s : str) : Prop := Forall (fun c => is_scalar c = true) s.

Section ascii_classes.
Local Open Scope N_scope.
Implicit Types c : char.
Definition in_range (lo hi c : char) : bool := (lo <=? c) && (c <=? hi).
Definition is_ascii c : bool := c <? 128.
Definition is_ascii_lowercase c : bool := in_range (ch "a") (ch "z") c.
Definition is_ascii_uppercase c : bool := in_range (ch "A") (ch "Z") c.
Definition is_ascii_digit c : bool := in_range (ch "0") (ch "9") c.
Definition is_ascii_alphabetic c : bool :=
  is_ascii_lowercase c || is_ascii_uppercase c.
Definition is_ascii_alphanumeric c : bool :=
  is_ascii_alphabetic c || is_ascii_digit c.
Definition ascii_lower c : char :=
  if is_ascii_uppercase c then c + 32 else c.
(** [char::is_control]: general category Cc. *)
Definition is_control c : bool := (c <? 32) || in_range 127 159 c.
(** [char::is_whitespace]: the White_Space property. *)
Definition is_whitespace c : bool :=
  in_range 9 13 c || (c =? 32) || (c =? 0x85) || (c =? 0xA0) || (c =? 0x1680)
  || in_range 0x2000 0x200A c || (c =? 0x2028) || (c =? 0x2029)
  || (c =? 0x202F) || (c =? 0x205F) || (c =? 0x3000).
End ascii_classes.

(** [str::contains], [str::starts_with] ... on characters. *)
Definition elem_b (c : char) (s : str) : bool := existsb (N.eqb c) s.

(** [str::trim]. *)
Fixpoint trim_start (s : str) : str :=
  match s with
  | [] => []
  | c :: s' => if is_whitespace c then trim_start s' else s
  end.
Definition trim_end (s : str) : str := rev (trim_start (rev s)).
Definition trim (s : str) : str := trim_end (trim_start s).
(** [trim_start_matches], [trim_end_matches] and [trim_matches] of a character. *)
Fixpoint trim_start_char (c : char) (s : str) : str :=
  match s with [] => [] | x :: s' => if N.eqb x c then trim_start_char c s' else s end.
Definition trim_end_char (c : char) (s : str) : str := rev (trim_start_char c (rev s)).
Definition trim_char (c : char) (s : str) : str := trim_end_char c (trim_start_char c s).

(** An [i64] that saturates. *)
Definition sat_i64 (z : Z) : Z := Z.max (- 2 ^ 63) (Z.min (2 ^ 63 - 1) z).

(** [strip_prefix]. *)
Fixpoint strip_prefix (p s : str) : option str :=
  match p, s with
  | [], _ => Some s
  | a :: p', b :: s' => if N.eqb a b then strip_prefix p' s' else None
  | _ :: _, [] => None
  end.

(** [strip_suffix]. *)
Definition strip_suffix (p s : str) : option str :=
  match strip_prefix (rev p) (rev s) with Some r => Some (rev r) | None => None end.

(** [split_once(c)] and [rsplit_once(c)]. *)
Fixpoint split_once (c : char) (s : str) : option (str * str) :=
  match s with
  | [] => None
  | x :: s' =>
      if N.eqb x c then Some ([], s')
      else match split_once c s' with
           | Some (a, b) => Some (x :: a, b)
           | None => None
           end
  end.
Definition rsplit_once (c : char) (s : str) : option (str * str) :=
  match split_once c (rev s) with
  | Some (a, b) => Some (rev b, rev a)
  | None => None
  end.

(** [split(c)]: one more part than separators. *)
Fixpoint split (c : char) (s : str) : list str :=
  match s with
  | [] => [[]]
  | x :: s' =>
      if N.eqb x c then [] :: split c s'
      else match split c s' with
           | p :: ps => (x :: p) :: ps
           | [] => [[x]]
           end
  end.

(** [str::lines]: a carriage return before the line feed goes with it. *)
Definition lines (s : str) : list str :=
  let ended (l : str) := match rev l with c :: r => if N.eqb c 13 then rev r else l | [] => l end in
  match rev (split 10 s) with
  | [] => []
  | last :: r => map ended (rev r) ++ match last with [] => [] | _ => [last] end
  end.

(** [split_whitespace]: the non-empty runs; [word] is the current one,
    reversed. *)
Fixpoint split_ws_go (word : str) (s : str) : list str :=
  match s with
  | [] => match word with [] => [] | _ => [rev word] end
  | x :: s' =>
      if is_whitespace x then
        match word with
        | [] => split_ws_go [] s'
        | _ => rev word :: split_ws_go [] s'
        end
      else split_ws_go (x :: word) s'
  end.
Definition split_whitespace (s : str) : list str := split_ws_go [] s.

(** [take_while] on characters. *)
Fixpoint take_while (f : char -> bool) (s : str) : str :=
  match s with
  | [] => []
  | c :: s' => if f c then c :: take_while f s' else []
  end.

(** Text equality as the code tests it. *)
Definition str_eqb (a b : str) : bool := bool_decide (a = b).

(** [slice::join]. *)
Fixpoint join (sep : str) (parts : list str) : str :=
  match parts with
  | [] => []
  | [p] => p
  | p :: ps => p ++ sep ++ join sep ps
  end.

(** Decimal digits of a number, as [Display] writes it. *)
Fixpoint show_go (fuel : nat) (n : N) : str :=
  match fuel with
  | O => []
  | S f => (if (n <? 10)%N then [] else show_go f (n / 10)%N) ++ [(ch "0" + n mod 10)%N]
  end.
Definition show_N (n : N) : str := show_go (S (N.to_nat (N.log2 n))) n.
Definition show_Z (z : Z) : str :=
  if (z <? 0)%Z then ch "-" :: show_N (Z.to_N (- z)) else show_N (Z.to_N z).

(** The number a run of ASCII digits writes. *)
Definition digits_value (s : str) : N :=
  fold_left (fun acc c => (acc * 10 + (c - ch "0"))%N) s 0%N.

(** Byte order of UTF-8 text is the order of its scalar values. *)
Fixpoint str_compare (a b : str) : comparison :=
  match a, b with
  | [], [] => Eq
  | [], _ :: _ => Lt
  | _ :: _, [] => Gt
  | x :: a', y :: b' =>
      match N.compare x y with Eq => str_compare a' b' | o => o end
  end.
Definition str_ltb (a b : str) : bool :=
  match str_compare a b with Lt => true | _ => false end.
Definition str_lt (a b : str) : Prop := str_compare a b = Lt.

(** Full Unicode lowercasing is a table of the language's library: an
    interface, with the law the code relies on (ASCII text is lowercased
    character by character). *)
Class UnicodeLower := {
  to_lowercase : str -> str;
  to_lowercase_ascii s :
    Forall (fun c => is_ascii c = true) s -> to_lowercase s = map ascii_lower s;
}.

(** ** Results *)

Inductive result (E A : Type) :=
| Ok (a : A)
| Err (e : E).
Arguments Ok {E A} _.
Arguments Err {E A} _.

#[export] Instance result_ret {E} : MRet (result E) := fun A a => Ok a.
#[export] Instance result_bind {E} : MBind (result E) := fun A B f r =>
  match r with Ok a => f a | Err e => Err e end.
#[export] Instance result_fmap {E} : FMap (result E) := fun A B f r =>
  match r with Ok a => Ok (f a) | Err e => Err e end.

#[export] Instance result_eq_dec {E A} `{EqDecision E, EqDecision A} :
  EqDecision (result E A).
Proof. solve_decision. Defined.

Definition ok_or {E A} (o : option A) (e : E) : result E A :=
  match o with Some a => Ok a | None => Err e end.
Definition to_option {E A} (r : result E A) : option A :=
  match r with Ok a => Some a | Err _ => None end.
Definition is_ok {E A} (r : result E A) : bool :=
  match r with Ok _ => true | Err _ => false end.
Definition map_err {E F A} (f : E -> F) (r : result E A) : result F A :=
  match r with Ok a => Ok a | Err e => Err (f e) end.

(** [Option::is_none], [Option::is_none_or]. *)
Definition is_none {A} (o : option A) : bool := match o with None => true | Some _ => false end.
Definition is_none_or {A} (f : A -> bool) (o : option A) : bool :=
  match o with None => true | Some a => f a end.

(** [iter().map(f).collect::<Result<Vec<_>, _>>()]: the first error wins. *)
Fixpoint collect {E A B} (f : A -> result E B) (l : list A) : result E (list B) :=
  match l with
  | [] => Ok []
  | a :: l' => b ← f a; bs ← collect f l'; Ok (b :: bs)
  end.

(** ** Equality as a type implements it

    Rust's [Eq]: a boolean equivalence that may be coarser than the
    structural one ([0.0 == -0.0]; a [Glob] is compared by its source). *)

Class RustEq (A : Type) := {
  req : A -> A -> bool;
  req_refl a : req a a = true;
  req_sym a b : req a b = true -> req b a = true;
  req_trans a b c : req a b = true -> req b c = true -> req a c = true;
}.
Infix "==?" := req (at level 70) : stdpp_scope.

Definition RustEq_of_dec {A} `{EqDecision A} : RustEq A.
Proof.
  refine {| req a b := bool_decide (a = b) |}.
  - intros a. by apply bool_decide_eq_true.
  - intros a b. rewrite !bool_decide_eq_true. done.
  - intros a b c. rewrite !bool_decide_eq_true. congruence.
Defined.

#[export] Instance str_RustEq : RustEq str := RustEq_of_dec.

Definition option_req {A} `{RustEq A} (a b : option A) : bool :=
  match a, b with
  | Some x, Some y => x ==? y
  | None, None => true
  | _, _ => false
  end.

#[export] Instance option_RustEq {A} `{RustEq A} : RustEq (option A).
Proof.
  refine {| req := option_req |}.
  - intros [a|]; [apply req_refl|done].
  - intros [a|] [b|]; cbn; try done. apply req_sym.
  - intros [a|] [b|] [c|]; cbn; try done. apply req_trans.
Defined.

Fixpoint list_req {A} `{RustEq A} (a b : list A) : bool :=
  match a, b with
  | [], [] => true
  | x :: a', y :: b' => (x ==? y) && list_req a' b'
  | _, _ => false
  end.

#[export] Instance list_RustEq {A} `{RustEq A} : RustEq (list A).
Proof.
  refine {| req := list_req |}.
  - intros a; induction a; cbn; [done|]. by rewrite req_refl.
  - intros a; induction a as [|x a IH]; intros [|y b]; cbn; try done.
    intros [Hx Ha]%andb_true_iff. by rewrite req_sym, IH.
  - intros a; induction a as [|x a IH]; intros [|y b] [|z c]; cbn; try done.
    intros [Hx Ha]%andb_true_iff [Hy Hb]%andb_true_iff.
    by rewrite (req_trans _ _ _ Hx Hy), (IH _ _ Ha Hb).
Defined.

#[export] Instance prod_RustEq {A B} `{RustEq A, RustEq B} : RustEq (A * B).
Proof.
  refine {| req p q := (p.1 ==? q.1) && (p.2 ==? q.2) |}.
  - intros [a b]; cbn. by rewrite !req_refl.
  - intros [a b] [c d]; cbn. intros [H1 H2]%andb_true_iff. by rewrite !req_sym.
  - intros [a b] [c d] [e f]; cbn. intros [H1 H2]%andb_true_iff [H3 H4]%andb_true_iff.
    by rewrite (req_trans _ _ _ H1 H3), (req_trans _ _ _ H2 H4).
Defined.

#[export] Instance req_Equivalence {A} `{RustEq A} : Equivalence (fun a b : A => a ==? b = true).
Proof. split; [intros a; apply req_refl|intros a b; apply req_sym|intros a b c; apply req_trans]. Qed.

#[export] Hint Resolve req_refl : core.

Lemma str_req_true (a b : str) : a ==? b = true <-> a = b.
Proof. apply bool_decide_eq_true. Qed.

(** ** Tactics *)

(** Invert the binds and lifts of a successful computation. *)
Ltac inv_ok1 :=
  match goal with
  | H : Ok _ = Ok _ |- _ => injection H as H; try subst
  | H : Err _ = Err _ |- _ => injection H as H; try subst
  | H : Ok _ = Err _ |- _ => discriminate H
  | H : Err _ = Ok _ |- _ => discriminate H
  | H : Some _ = Some _ |- _ => injection H as H; try subst
  | H : None = Some _ |- _ => discriminate H
  | H : Some _ = None |- _ => discriminate H
  | H : mbind _ ?r = Ok _ |- _ =>
      let E := fresh "E" in destruct r eqn:E; [cbn in H | discriminate H]
  | H : ok_or ?o _ = Ok _ |- _ =>
      let E := fresh "E" in destruct o eqn:E; [cbn in H | discriminate H]
  | H : map_err _ ?r = Ok _ |- _ =>
      let E := fresh "E" in destruct r eqn:E; [cbn in H | discriminate H]
  end.
Ltac inv_ok := repeat inv_ok1.

(** Boolean connectives to propositions, in every hypothesis. *)
Ltac bools1 :=
  match goal with
  | H : andb _ _ = true |- _ => apply andb_true_iff in H; destruct H
  | H : orb _ _ = false |- _ => apply orb_false_iff in H; destruct H
  | H : negb _ = true |- _ => apply negb_true_iff in H
  | H : negb _ = false |- _ => apply negb_false_iff in H
  | H : bool_decide _ = true |- _ => apply bool_decide_eq_true in H
  | H : bool_decide _ = false |- _ => apply bool_decide_eq_false in H
  | H : N.eqb _ _ = true |- _ => apply N.eqb_eq in H
  | H : N.eqb _ _ = false |- _ => apply N.eqb_neq in H
  end.
Ltac bools := repeat bools1; try subst.

(** Case analysis on every match of the goal, closing what computes. *)
Ltac cases := repeat (case_match; try done; try congruence).

Create HintDb agentauth.

(** ** Shared lemmas *)

Lemma bind_ok {E A B} (f : A -> result E B) r b :
  mbind f r = Ok b <-> exists a, r = Ok a /\ f a = Ok b.
Proof.
  destruct r as [a|e]; cbn; split; [eauto| |done|].
  - intros (a' & [= ->] & ?); done.
  - by intros (? & ? & ?).
Qed.

Lemma bind_intro {E A B} (f : A -> result E B) r a b :
  r = Ok a -> f a = Ok b -> mbind f r = Ok b.
Proof. by intros ->. Qed.

Lemma collect_ok {E A B} (f : A -> result E B) l bs :
  collect f l = Ok bs <-> Forall2 (fun a b => f a = Ok b) l bs.
Proof.
  revert bs; induction l as [|a l IH]; intros bs; cbn.
  - split; [intros; inv_ok; constructor | inversion 1; done].
  - split.
    + intros H; inv_ok. constructor; [done|]. by apply IH.
    + inversion 1; subst. rewrite H2; cbn.
      match goal with K : Forall2 _ _ _ |- _ => apply IH in K; rewrite K end. done.
Qed.

Lemma collect_map {E A B} (f : A -> result E B) (g : A -> B) l :
  (forall a, a ∈ l -> f a = Ok (g a)) -> collect f l = Ok (map g l).
Proof.
  intros H. apply collect_ok.
  induction l as [|a l IH]; constructor; [apply H; left|].
  apply IH. intros; apply H; by right.
Qed.

Lemma collect_fmap {E A B C} (f : B -> result E C) (g : A -> B) l :
  collect f (map g l) = collect (fun a => f (g a)) l.
Proof. induction l as [|a l IH]; [done|]. cbn [map collect]. by rewrite IH. Qed.

Lemma existsb_elem {A} (f : A -> bool) l :
  existsb f l = true <-> exists x, x ∈ l /\ f x = true.
Proof.
  rewrite existsb_exists. split; intros (x & ? & ?); exists x;
    (split; [by apply list_elem_of_In|done]).
Qed.

Lemma filter_nil {A} (f : A -> bool) l : List.filter f l = [] <-> Forall (fun x => f x = false) l.
Proof.
  induction l as [|x l IH]; cbn; [done|]. rewrite Forall_cons.
  destruct (f x) eqn:E; [naive_solver|]. naive_solver.
Qed.

Lemma existsb_false {A} (f : A -> bool) l : existsb f l = false <-> Forall (fun x => f x = false) l.
Proof.
  induction l as [|x l IH]; cbn; [done|]. rewrite Forall_cons, orb_false_iff, IH. done.
Qed.

Lemma forallb_zip {A B} (f : A -> B -> bool) (l : list A) (k : list B) :
  length l = length k ->
  forallb (fun ab : A * B => f ab.1 ab.2) (zip l k) = true <-> Forall2 (fun a b => f a b = true) l k.
Proof.
  revert k. induction l as [|a l IH]; intros [|b k] Hl; try done.
  cbn. rewrite andb_true_iff, Forall2_cons, IH by (injection Hl; done). done.
Qed.

Lemma zip_take_r {A B} (l : list A) (k : list B) : zip l k = zip l (take (length l) k).
Proof. revert k. induction l as [|a l IH]; intros [|b k]; cbn; [done..|]. by rewrite IH. Qed.

Lemma forallb_elem {A} (f : A -> bool) l :
  forallb f l = true <-> forall x, x ∈ l -> f x = true.
Proof.
  rewrite forallb_forall. split; intros H x ?; apply H; by apply list_elem_of_In.
Qed.

Lemma forallb_false {A} (f : A -> bool) l :
  forallb f l = false -> exists x, x ∈ l /\ f x = false.
Proof.
  induction l as [|a l IH]; cbn; [done|]. destruct (f a) eqn:E; cbn.
  - intros (x & ? & ?)%IH. exists x. by split; [right|].
  - intros _. exists a. by split; [left|].
Qed.

Lemma elem_b_true c s : elem_b c s = true <-> c ∈ s.
Proof.
  unfold elem_b. rewrite existsb_elem. split.
  - intros (x & ? & <-%N.eqb_eq). done.
  - intros H. exists c. split; [done | apply N.eqb_refl].
Qed.

Lemma if_false_true (b x : bool) : (if b then false else x) = true <-> b = false /\ x = true.
Proof. destruct b; cbn; intuition congruence. Qed.

Lemma str_eqb_true a b : str_eqb a b = true <-> a = b.
Proof. apply bool_decide_eq_true. Qed.

Lemma strip_prefix_app p s : strip_prefix p (p ++ s) = Some s.
Proof. induction p; cbn; [done|]. by rewrite N.eqb_refl. Qed.

Lemma strip_prefix_some p s r : strip_prefix p s = Some r -> s = p ++ r.
Proof.
  revert s; induction p as [|a p IH]; intros s H; cbn in *; [congruence|].
  destruct s as [|b s]; [done|]. destruct (N.eqb_spec a b); [|done]. subst.
  f_equal; auto.
Qed.

Lemma split_once_some c s a b : split_once c s = Some (a, b) -> s = a ++ c :: b /\ c ∉ a.
Proof.
  revert a b; induction s as [|x s IH]; intros a b H; cbn in H; [done|].
  destruct (N.eqb_spec x c) as [->|Hx].
  - injection H as <- <-. split; [done|apply not_elem_of_nil].
  - destruct (split_once c s) as [[a' b']|]; [|done]. injection H as <- <-.
    destruct (IH a' b' eq_refl) as [-> Ha]. split; [done|].
    apply not_elem_of_cons. by split.
Qed.

Lemma split_once_app c a b : c ∉ a -> split_once c (a ++ c :: b) = Some (a, b).
Proof.
  induction a as [|x a IH]; intros Ha; cbn; [by rewrite N.eqb_refl|].
  apply not_elem_of_cons in Ha as [Hx Ha].
  destruct (N.eqb_spec x c); [done|]. by rewrite IH.
Qed.

Lemma rsplit_once_app c a b : c ∉ b -> rsplit_once c (a ++ c :: b) = Some (a, b).
Proof.
  intros Hb. unfold rsplit_once. rewrite rev_app_distr. cbn [rev].
  rewrite <- app_assoc. cbn [app]. rewrite split_once_app; [by rewrite !rev_involutive|].
  by rewrite list_elem_of_In, <- in_rev, <- list_elem_of_In.
Qed.

Lemma take_while_app f a b :
  Forall (fun c => f c = true) a -> match b with c :: _ => f c = false | [] => True end ->
  take_while f (a ++ b) = a.
Proof.
  intros Ha Hb. induction Ha as [|c a Hc _ IH]; cbn.
  - destruct b as [|c b]; [done|]. cbn. by rewrite Hb.
  - by rewrite Hc, IH.
Qed.

Lemma drop_app_exact {A} (a b : list A) n : n = length a -> drop n (a ++ b) = b.
Proof. intros ->. by rewrite drop_app_length. Qed.

Lemma str_compare_refl a : str_compare a a = Eq.
Proof. induction a; cbn; [done|]. by rewrite N.compare_refl. Qed.

Lemma str_compare_eq a b : str_compare a b = Eq -> a = b.
Proof.
  revert b; induction a as [|x a IH]; intros [|y b]; cbn; try done.
  destruct (N.compare_spec x y); try done. subst. intros; f_equal; auto.
Qed.

Lemma str_compare_antisym a b : str_compare b a = CompOpp (str_compare a b).
Proof.
  revert b; induction a as [|x a IH]; intros [|y b]; cbn; try done.
  rewrite (N.compare_antisym x y).
  destruct (N.compare x y); cbn; auto.
Qed.

Lemma str_lt_trans a b c : str_lt a b -> str_lt b c -> str_lt a c.
Proof.
  unfold str_lt. revert b c; induction a as [|x a IH]; intros [|y b] [|z c]; cbn; try done.
  destruct (N.compare_spec x y), (N.compare_spec y z), (N.compare_spec x z);
    try done; subst; try lia; eauto.
Qed.

Lemma str_lt_irrefl a : ~ str_lt a a.
Proof. unfold str_lt. by rewrite str_compare_refl. Qed.

Lemma str_lt_total a b : str_lt a b \/ a = b \/ str_lt b a.
Proof.
  unfold str_lt. rewrite (str_compare_antisym a b).
  destruct (str_compare a b) eqn:E; cbn; auto using str_compare_eq.
Qed.

#[export] Instance str_lt_strict : StrictOrder str_lt.
Proof. split; [intros a; apply str_lt_irrefl | intros a b c; apply str_lt_trans]. Qed.

Lemma is_scalar_bound c : is_scalar c = true -> (c < 0x110000)%N.
Proof. unfold is_scalar. rewrite orb_true_iff, andb_true_iff, !N.ltb_lt, N.leb_le. lia. Qed.

(** ASCII text measures the same in characters and bytes. *)
Lemma str_len_ascii s :
  Forall (fun c => is_ascii c = true) s -> str_len s = length s.
Proof.
  induction 1 as [|c s Hc _ IH]; cbn; [done|].
  unfold Utf8.len_utf8. unfold is_ascii in Hc. by rewrite Hc, IH.
Qed.

Lemma str_len_ge s : length s <= str_len s.
Proof.
  induction s as [|c s IH]; cbn; [done|].
  unfold Utf8.len_utf8. cases; lia.
Qed.

(** *** Decimal *)

(** Both bounds of a remainder ([lia] reads [mod] on [N] as [Z.rem]). *)
Lemma N_mod_bounds n k : k <> 0%N -> (0 <= n mod k /\ n mod k < k)%N.
Proof. intros. split; [apply N.le_0_l|by apply N.mod_lt]. Qed.

Lemma digits_value_app a b :
  digits_value (a ++ b) = (digits_value a * 10 ^ N.of_nat (length b) + digits_value b)%N.
Proof.
  unfold digits_value. rewrite fold_left_app. generalize (fold_left
    (fun acc c => (acc * 10 + (c - ch "0"))%N) a 0%N) as x.
  assert (H : forall b x, fold_left (fun acc c => (acc * 10 + (c - ch "0"))%N) b x =
    (x * 10 ^ N.of_nat (length b) + fold_left (fun acc c => (acc * 10 + (c - ch "0"))%N) b 0)%N).
  { clear. induction b as [|c b IH]; intros x; cbn [fold_left length]; [cbn; lia|].
    rewrite (IH (x * 10 + _)%N), (IH (0 * 10 + _)%N), Nat2N.inj_succ, N.pow_succ_r'. lia. }
  intros x. apply H.
Qed.

Lemma show_go_digits fuel n : Forall (fun c => is_ascii_digit c = true) (show_go fuel n).
Proof.
  revert n; induction fuel as [|fuel IH]; intros n; cbn [show_go]; [constructor|].
  apply Forall_app; split; [case_match; [constructor|apply IH]|].
  constructor; [|constructor]. pose proof (N_mod_bounds n 10 ltac:(done)).
  unfold is_ascii_digit, in_range. apply andb_true_iff. rewrite !N.leb_le. lia.
Qed.

Lemma show_go_value fuel n :
  (n < 2 ^ N.of_nat fuel)%N -> digits_value (show_go fuel n) = n.
Proof.
  revert n; induction fuel as [|fuel IH]; intros n Hn; [cbn in *; lia|].
  rewrite Nat2N.inj_succ, N.pow_succ_r' in Hn. cbn [show_go]. rewrite digits_value_app.
  pose proof (N.div_mod n 10). pose proof (N_mod_bounds n 10 ltac:(done)).
  assert (Hd : digits_value [(ch "0" + n mod 10)%N] = (n mod 10)%N)
    by (unfold digits_value; cbn [fold_left]; lia).
  rewrite Hd. cbn [length N.of_nat]. destruct (N.ltb_spec n 10).
  - rewrite (N.mod_small n 10) by lia. cbn. done.
  - rewrite IH by (apply N.Div0.div_lt_upper_bound; lia). cbn. lia.
Qed.

Lemma show_go_head fuel n :
  n <> 0%N -> (n < 2 ^ N.of_nat fuel)%N -> exists c cs, show_go fuel n = c :: cs /\ c <> ch "0".
Proof.
  revert n; induction fuel as [|fuel IH]; intros n H0 Hn; [cbn in *; lia|].
  rewrite Nat2N.inj_succ, N.pow_succ_r' in Hn. cbn [show_go].
  destruct (N.ltb_spec n 10).
  - eexists _, []. split; [done|]. rewrite N.mod_small by lia. lia.
  - destruct (IH (n / 10)%N) as (c & cs & -> & Hc).
    + pose proof (N.div_str_pos n 10). lia.
    + apply N.Div0.div_lt_upper_bound; lia.
    + by exists c, (cs ++ [(ch "0" + n mod 10)%N]).
Qed.

Lemma show_go_length k fuel n :
  (n < 10 ^ N.of_nat k)%N -> length (show_go fuel n) <= Nat.max 1 k.
Proof.
  revert k n; induction fuel as [|fuel IH]; intros k n Hn; cbn [show_go length]; [lia|].
  rewrite length_app. cbn [length]. destruct (N.ltb_spec n 10); [cbn; lia|].
  destruct k as [|[|k]]; [cbn in *; lia|cbn in *; lia|].
  rewrite Nat2N.inj_succ, N.pow_succ_r' in Hn.
  specialize (IH (S k) (n / 10)%N). rewrite Nat.max_r in * by lia.
  enough (length (show_go fuel (n / 10)) <= S k) by lia.
  apply IH. apply N.Div0.div_lt_upper_bound; lia.
Qed.

Lemma show_N_bound n : (n < 2 ^ N.of_nat (S (N.to_nat (N.log2 n))))%N.
Proof.
  rewrite Nat2N.inj_succ, N2Nat.id. destruct (N.eq_dec n 0%N) as [->|]; [done|].
  apply N.log2_spec. lia.
Qed.

Lemma show_N_digits n : Forall (fun c => is_ascii_digit c = true) (show_N n).
Proof. apply show_go_digits. Qed.
Lemma show_N_value n : digits_value (show_N n) = n.
Proof. apply show_go_value, show_N_bound. Qed.
Lemma show_N_head n : n <> 0%N -> exists c cs, show_N n = c :: cs /\ c <> ch "0".
Proof. intros. by apply show_go_head, show_N_bound. Qed.
Lemma show_N_length k n : (n < 10 ^ N.of_nat k)%N -> length (show_N n) <= Nat.max 1 k.
Proof. apply show_go_length. Qed.
Lemma show_N_inj n m : show_N n = show_N m -> n = m.
Proof. intros H. by rewrite <- (show_N_value n), H, show_N_value. Qed.

Lemma is_ascii_digit_true c : is_ascii_digit c = true <-> (48 <= c /\ c <= 57)%N.
Proof. unfold is_ascii_digit, in_range. by rewrite andb_true_iff, !N.leb_le. Qed.

Lemma ascii_lower_not_upper c : is_ascii_uppercase c = false -> ascii_lower c = c.
Proof. unfold ascii_lower. by intros ->. Qed.

Lemma trim_start_id c s : is_whitespace c = false -> trim_start (c :: s) = c :: s.
Proof. cbn. by intros ->. Qed.

Lemma trim_no_ws s : Forall (fun c => is_whitespace c = false) s -> trim s = s.
Proof.
  intros H. unfold trim, trim_end.
  assert (Hs : forall s, Forall (fun c => is_whitespace c = false) s -> trim_start s = s).
  { clear. intros s [|c s' Hc]; [done|]. by apply trim_start_id. }
  rewrite (Hs s) by done. rewrite Hs by (by apply Forall_rev). apply rev_involutive.
Qed.

(** *** Parts and their separator *)

Lemma split_nonempty c s : split c s <> [].
Proof. destruct s as [|x s]; cbn; [done|]. destruct (N.eqb x c); [done|]. by destruct (split c s). Qed.

Lemma split_parts c s : Forall (fun p => c ∉ p) (split c s).
Proof.
  induction s as [|x s IH]; cbn; [repeat constructor; apply not_elem_of_nil|].
  destruct (N.eqb_spec x c).
  - constructor; [apply not_elem_of_nil|done].
  - destruct (split c s) as [|p ps]; [constructor; [|constructor]|inversion IH; constructor; [|done]];
      (apply not_elem_of_cons; split; [done|]); [apply not_elem_of_nil|done].
Qed.

Lemma split_solid c p : c ∉ p -> split c p = [p].
Proof.
  induction p as [|x p IH]; [done|]. intros [Hx Hp]%not_elem_of_cons. cbn.
  rewrite (proj2 (N.eqb_neq x c)) by done. by rewrite IH.
Qed.

Lemma split_app c p s : c ∉ p -> split c (p ++ c :: s) = p :: split c s.
Proof.
  induction p as [|x p IH]; cbn; [by rewrite N.eqb_refl|]. intros [Hx Hp]%not_elem_of_cons.
  rewrite (proj2 (N.eqb_neq x c)) by done. by rewrite IH.
Qed.

Lemma split_join c ps : ps <> [] -> Forall (fun p => c ∉ p) ps -> split c (join [c] ps) = ps.
Proof.
  intros Hne Hps. induction Hps as [|p ps Hp Hps IH]; [done|].
  destruct ps as [|q ps]; [by apply split_solid|].
  change (join [c] (p :: q :: ps)) with (p ++ c :: join [c] (q :: ps)).
  rewrite split_app by done. by rewrite IH.
Qed.

Lemma join_length c ps :
  length (join [c] ps) = sum_list (map length ps) + (length ps - 1).
Proof.
  induction ps as [|p ps IH]; [done|]. destruct ps as [|q ps]; [cbn; lia|].
  change (join [c] (p :: q :: ps)) with (p ++ c :: join [c] (q :: ps)).
  rewrite length_app. cbn [length]. rewrite IH. cbn [map sum_list_with length]. unfold id. lia.
Qed.

Lemma join_split c s : join [c] (split c s) = s.
Proof.
  induction s as [|x s IH]; [done|]. cbn [split]. destruct (N.eqb_spec x c) as [->|].
  - destruct (split c s) as [|p ps] eqn:E; [by apply split_nonempty in E|].
    change (join [c] ([] :: p :: ps)) with (c :: join [c] (p :: ps)). by rewrite IH.
  - destruct (split c s) as [|p ps] eqn:E; [by apply split_nonempty in E|].
    destruct ps as [|q ps]; cbn in *; by rewrite <- IH.
Qed.

(** *** White space and words *)

Definition blank (s : str) : Prop := Forall (fun c => is_whitespace c = true) s.
Definition solid (s : str) : Prop := Forall (fun c => is_whitespace c = false) s.

Lemma trim_start_nil s : trim_start s = [] <-> blank s.
Proof.
  induction s as [|c s IH]; cbn; [split; [constructor|done]|].
  destruct (is_whitespace c) eqn:E.
  - rewrite IH. split; [by constructor|by inversion 1].
  - split; [done|]. inversion 1. congruence.
Qed.

Lemma trim_nil s : trim s = [] <-> blank s.
Proof.
  unfold trim, trim_end. rewrite <- (trim_start_nil s). split; [|by intros ->].
  intros H. apply (f_equal (@rev char)) in H. rewrite rev_involutive in H.
  apply trim_start_nil, Forall_rev in H. rewrite rev_involutive in H.
  destruct (trim_start s) as [|c s'] eqn:E; [done|]. exfalso. inversion H as [|? ? Hc _]; subst.
  clear H. revert E. induction s as [|x s IH]; cbn; [done|].
  destruct (is_whitespace x) eqn:Ex; [auto|]. intros [= -> ->]. congruence.
Qed.

Definition words (l : list str) : Prop := Forall (fun w => w <> [] /\ solid w) l.

Lemma split_ws_go_words word s : solid word -> words (split_ws_go word s).
Proof.
  assert (Hr : forall c w, solid (c :: w) -> rev (c :: w) <> [] /\ solid (rev (c :: w))).
  { intros c w Hw. split; [|by apply Forall_rev]. cbn. by destruct (rev w). }
  revert word; induction s as [|x s IH]; intros word Hw; cbn [split_ws_go].
  - destruct word; [constructor|]. constructor; [by apply Hr|constructor].
  - destruct (is_whitespace x) eqn:E; [|by apply IH; constructor].
    destruct word as [|c word]; [by apply IH|].
    constructor; [by apply Hr|apply IH; constructor].
Qed.

Lemma split_ws_go_nil word s : split_ws_go word s = [] -> word = [] /\ blank s.
Proof.
  revert word; induction s as [|x s IH]; intros word; cbn [split_ws_go].
  - destruct word; [by split; [|constructor]|done].
  - destruct (is_whitespace x) eqn:E.
    + destruct word; [|done]. intros [_ H]%IH. split; [done|by constructor].
    + by intros [? _]%IH.
Qed.

Lemma split_ws_go_solid w word rest :
  solid w -> split_ws_go word (w ++ rest) = split_ws_go (rev w ++ word) rest.
Proof.
  intros Hw. revert word; induction Hw as [|c w Hc _ IH]; intros word; [done|].
  cbn [app split_ws_go rev]. by rewrite Hc, IH, <- app_assoc.
Qed.

Lemma split_whitespace_join l : words l -> split_whitespace (join [ch " "] l) = l.
Proof.
  unfold split_whitespace. induction 1 as [|w l [Hw Hs] Hl IH]; [done|].
  destruct l as [|w' l].
  - cbn [join]. rewrite <- (app_nil_r w) at 1. rewrite split_ws_go_solid, app_nil_r by done.
    cbn. destruct (rev w) as [|c r] eqn:E; [|by rewrite <- E, rev_involutive].
    destruct Hw. by rewrite <- (rev_involutive w), E.
  - change (join [ch " "] (w :: w' :: l)) with (w ++ [ch " "] ++ join [ch " "] (w' :: l)).
    rewrite split_ws_go_solid, app_nil_r by done.
    change ([ch " "] ++ join [ch " "] (w' :: l)) with (ch " " :: join [ch " "] (w' :: l)).
    cbn [split_ws_go]. change (is_whitespace 32) with true. cbn iota. rewrite IH.
    destruct (rev w) as [|c r] eqn:E; [|by rewrite <- E, rev_involutive].
    destruct Hw. by rewrite <- (rev_involutive w), E.
Qed.

Lemma split_ws_go_length word s :
  length (join [ch " "] (split_ws_go word s)) <= length word + length s.
Proof.
  assert (Hj : forall w l, length (join [ch " "] (w :: l)) <=
    length w + match l with [] => 0 | _ => S (length (join [ch " "] l)) end).
  { intros w [|w' l]; [cbn [join]; lia|].
    change (join [ch " "] (w :: w' :: l)) with (w ++ [ch " "] ++ join [ch " "] (w' :: l)).
    rewrite !length_app. cbn [length]. lia. }
  revert word; induction s as [|x s IH]; intros word; cbn [split_ws_go].
  - destruct word as [|c word]; [cbn; lia|]. cbn [join]. rewrite length_rev. lia.
  - destruct (is_whitespace x); [|specialize (IH (x :: word)); cbn [length] in *; lia].
    specialize (IH []). cbn [length] in *. destruct word as [|c word]; [lia|].
    etransitivity; [apply Hj|]. rewrite length_rev. destruct (split_ws_go [] s); cbn [length]; lia.
Qed.

Lemma join_not_blank w l : w <> [] -> solid w -> ~ blank (join [ch " "] (w :: l)).
Proof.
  intros Hw Hs Hb. destruct w as [|c w]; [done|]. inversion Hs as [|? ? Hc _]; subst.
  assert (exists r, join [ch " "] ((c :: w) :: l) = c :: r) as [r E]
    by (destruct l; by eexists).
  rewrite E in Hb. inversion Hb. congruence.
Qed.


#[export] Hint Resolve show_N_digits : agentauth.

(** ** Lists of rows *)

Lemma NoDup_map_inj {A B} (f : A -> B) l x y : NoDup (map f l) -> x ∈ l -> y ∈ l -> f x = f y -> x = y.
Proof.
  induction l as [|z l IH]; cbn; [by intros _ ?%not_elem_of_nil|]. intros [Hz Hl]%NoDup_cons.
  intros [->|Hx]%elem_of_cons [->|Hy]%elem_of_cons E; [done| | |auto];
  (exfalso; apply Hz; rewrite E || rewrite <- E; by apply list_elem_of_fmap_2).
Qed.
Lemma filter_one {A} (p : A -> bool) l : length (List.filter p l) = 1 -> exists x, x ∈ l /\ p x = true.
Proof.
  intros Hl. destruct (List.filter p l) as [|x l'] eqn:E; [done|]. exists x.
  assert (Hin : In x (List.filter p l)) by (rewrite E; by left). apply filter_In in Hin as [Hin Hp].
  split; [by apply list_elem_of_In|done].
Qed.

#[export] Hint Resolve str_compare_refl strip_prefix_app : agentauth.

(** Lowercasing by ASCII alone: an instance of the interface, exact on
    ASCII text. *)
Definition ascii_only_lower : UnicodeLower.
Proof. refine {| to_lowercase := map ascii_lower |}. done. Defined.
