(* ===== verification/Json.v ===== *)
(** Ordered maps ([BTreeMap<String, _>], [serde_json::Map] without
    [preserve_order]) and JSON values ([serde_json::Value]) as the crates
    use them. A map is its list of entries in key order; the library's
    operations are written out, and the ones the proofs need are shown to
    keep the order. *)

From S2P Require Import Prelude.
From stdpp Require Import options.

(** ** Maps with text keys, in key order *)

Section maps.
Context {V : Type}.
Implicit Types (m : list (str * V)) (k : str) (v : V).

Fixpoint map_get k m : option V :=
  match m with
  | [] => None
  | (k', v) :: m' => if str_eqb k k' then Some v else map_get k m'
  end.

Fixpoint map_insert k v m : list (str * V) :=
  match m with
  | [] => [(k, v)]
  | (k', v') :: m' =>
    match str_compare k k' with
    | Lt => (k, v) :: m
    | Eq => (k, v) :: m'
    | Gt => (k', v') :: map_insert k v m'
    end
  end.

(** [iter().collect::<BTreeMap<_, _>>()]: later entries win. *)
Definition map_of_list (l : list (str * V)) : list (str * V) :=
  fold_left (fun m kv => map_insert kv.1 kv.2 m) l [].

Definition map_keys m : list str := map fst m.

(** The keys below a bound come first: the order of a [BTreeMap]. *)
Definition keys_above k m : Prop := Forall (fun kv => str_lt k kv.1) m.
Fixpoint map_sorted m : Prop :=
  match m with
  | [] => True
  | (k, _) :: m' => keys_above k m' /\ map_sorted m'
  end.

Lemma keys_above_trans k k' m : str_lt k k' -> keys_above k' m -> keys_above k m.
Proof.
  intros Hk Hm. eapply Forall_impl; [exact Hm|]. cbn.
  intros [x y] Hx. by eapply str_lt_trans.
Qed.

Lemma map_get_above k k' m : keys_above k' m -> str_lt k k' \/ k = k' -> map_get k m = None.
Proof.
  intros Hm Hk. induction Hm as [|[x v] m Hx _ IH]; cbn in *; [done|].
  unfold str_eqb. rewrite bool_decide_false; [done|]. intros ->.
  destruct Hk as [Hk| ->]; [|by apply str_lt_irrefl in Hx].
  by apply (str_lt_irrefl k'), (str_lt_trans _ x).
Qed.

Lemma map_insert_keys_above k k' v m :
  str_lt k' k -> keys_above k' m -> keys_above k' (map_insert k v m).
Proof.
  intros Hk Hm. induction Hm as [|[x w] m Hx Hm IH]; cbn in *.
  - by repeat constructor.
  - destruct (str_compare k x); constructor; try done. by constructor.
Qed.

Lemma map_insert_sorted k v m : map_sorted m -> map_sorted (map_insert k v m).
Proof.
  induction m as [|[x w] m IH]; cbn; [by intros _; split; [constructor|]|]. intros [Hx Hm].
  destruct (str_compare k x) eqn:E; cbn.
  - apply str_compare_eq in E as ->. done.
  - split; [|done]. constructor; [done|]. by eapply keys_above_trans.
  - split; [|auto]. apply map_insert_keys_above; [|done].
  unfold str_lt. rewrite str_compare_antisym, E. done.
Qed.

Lemma map_of_list_sorted l : map_sorted (map_of_list l).
Proof.
  unfold map_of_list. assert (H : map_sorted (@nil (str * V))) by done.
  revert H. generalize (@nil (str * V)). induction l as [|[k v] l IH]; cbn; [done|].
  intros m Hm. by apply IH, map_insert_sorted.
Qed.

Lemma map_get_insert k k' v m :
  map_sorted m -> map_get k' (map_insert k v m) = if str_eqb k' k then Some v else map_get k' m.
Proof.
  induction m as [|[x w] m IH]; cbn; [done|]. intros [Hx Hm].
  destruct (str_compare k x) eqn:E; cbn.
  - apply str_compare_eq in E as ->. by destruct (str_eqb k' x).
  - done.
  - rewrite IH by done. unfold str_eqb. repeat case_bool_decide; subst; try done.
  by rewrite str_compare_refl in E.
Qed.

(** Appending a larger key is inserting it. *)
Lemma map_insert_last k v m :
  Forall (fun kv => str_lt kv.1 k) m -> map_insert k v m = m ++ [(k, v)].
Proof.
  induction 1 as [|[x w] m Hx _ IH]; cbn in *; [done|].
  unfold str_lt in Hx. rewrite str_compare_antisym, Hx. cbn. by rewrite IH.
Qed.

Lemma fold_insert_sorted m l :
  map_sorted (m ++ l) -> fold_left (fun m kv => map_insert kv.1 kv.2 m) l m = m ++ l.
Proof.
  revert m; induction l as [|[k v] l IH]; intros m Hs; cbn; [by rewrite app_nil_r|].
  rewrite map_insert_last; cycle 1.
  { clear IH. induction m as [|[x w] m IHm]; [constructor|]. cbn in Hs.
  destruct Hs as [Hx Hs]. constructor; [|auto].
  apply Forall_app in Hx as [_ Hx]. by inversion Hx. }
  rewrite IH; by rewrite <- app_assoc.
Qed.

(** A map rebuilt from its own entries is itself. *)
Lemma map_of_list_id m : map_sorted m -> map_of_list m = m.
Proof. intros. unfold map_of_list. by rewrite fold_insert_sorted. Qed.

Lemma map_get_elem k v m : map_get k m = Some v -> (k, v) ∈ m.
Proof.
  induction m as [|[x w] m IH]; cbn; [done|].
  destruct (str_eqb k x) eqn:E.
  - apply str_eqb_true in E as ->. intros [= ->]. left.
  - right; auto.
Qed.

Lemma map_get_sorted k v m : map_sorted m -> (k, v) ∈ m -> map_get k m = Some v.
Proof.
  induction m as [|[x w] m IH]; cbn; [by intros _ ?%not_elem_of_nil|].
  intros [Hx Hm] [[= -> ->]|Hin]%elem_of_cons.
  - by rewrite (proj2 (str_eqb_true x x)).
  - unfold str_eqb. rewrite bool_decide_false; [auto|]. intros ->.
  apply (proj1 (Forall_forall _ _) Hx) in Hin. by apply str_lt_irrefl in Hin.
Qed.
End maps.

(** [iter().map(...).collect()] on the values of a map. *)
Definition map_values {V W} (f : V -> W) (m : list (str * V)) : list (str * W) :=
  map (fun kv => (kv.1, f kv.2)) m.

Lemma keys_above_values {V W} (f : V -> W) k m :
  keys_above k (map_values f m) <-> keys_above k m.
Proof. unfold keys_above, map_values. rewrite Forall_map. done. Qed.

Lemma map_values_sorted {V W} (f : V -> W) m :
  map_sorted (map_values f m) <-> map_sorted m.
Proof.
  induction m as [|[k v] m IH]; cbn; [done|].
  by rewrite <- (keys_above_values f k m), <- IH.
Qed.

Lemma map_of_list_elem {V} kv (l : list (str * V)) : kv ∈ map_of_list l -> kv ∈ l.
Proof.
  unfold map_of_list.
  enough (forall m, kv ∈ fold_left (fun m kv => map_insert kv.1 kv.2 m) l m -> kv ∈ m \/ kv ∈ l)
    as He by (intros [?%not_elem_of_nil|?]%He; done).
  assert (Hi : forall k (v : V) m, kv ∈ map_insert k v m -> kv = (k, v) \/ kv ∈ m).
  { intros k v m. induction m as [|[x w] m IH]; cbn; [set_solver|].
    destruct (str_compare k x); set_solver. }
  induction l as [|[k v] l IH]; cbn; [by left|]. intros m [Hm|?]%IH; [|right; by right].
  apply Hi in Hm as [->|?]; [right; by left|by left].
Qed.

Lemma map_of_list_length {V} (l : list (str * V)) : length (map_of_list l) <= length l.
Proof.
  unfold map_of_list.
  enough (forall m, length (fold_left (fun m kv => map_insert kv.1 kv.2 m) l m)
    <= length m + length l) as He by apply (He []).
  assert (Hi : forall k (v : V) m, length (map_insert k v m) <= S (length m)).
  { intros k v m. induction m as [|[x w] m IH]; cbn; [lia|].
    destruct (str_compare k x); cbn; lia. }
  induction l as [|[k v] l IH]; cbn; intros m; [lia|].
  etransitivity; [apply IH|]. specialize (Hi k v m). lia.
Qed.

(** ** Sets of text ([BTreeSet<String>]) *)

Fixpoint set_insert (x : str) (s : list str) : list str :=
  match s with
  | [] => [x]
  | y :: s' =>
      match str_compare x y with
      | Lt => x :: s
      | Eq => s
      | Gt => y :: set_insert x s'
      end
  end.
Definition set_of_list (l : list str) : list str :=
  fold_left (fun s x => set_insert x s) l [].
Definition set_contains (x : str) (s : list str) : bool := existsb (str_eqb x) s.
Definition set_is_subset (a b : list str) : bool := forallb (fun x => set_contains x b) a.

Fixpoint set_sorted (s : list str) : Prop :=
  match s with
  | [] => True
  | x :: s' => Forall (str_lt x) s' /\ set_sorted s'
  end.

Lemma set_contains_true x s : set_contains x s = true <-> x ∈ s.
Proof.
  unfold set_contains. rewrite existsb_elem. split.
  - intros (y & ? & ->%str_eqb_true). done.
  - intros. exists x. by rewrite str_eqb_true.
Qed.

Lemma set_is_subset_true a b : set_is_subset a b = true <-> a ⊆ b.
Proof.
  unfold set_is_subset. rewrite forallb_elem. setoid_rewrite set_contains_true. done.
Qed.

Lemma set_insert_elem x y s : y ∈ set_insert x s <-> y = x \/ y ∈ s.
Proof.
  induction s as [|z s IH]; cbn; [set_solver|].
  destruct (str_compare x z) eqn:E; [|set_solver|rewrite elem_of_cons, IH; set_solver].
  apply str_compare_eq in E as ->. set_solver.
Qed.

Lemma set_insert_sorted x s : set_sorted s -> set_sorted (set_insert x s).
Proof.
  induction s as [|y s IH]; cbn; [by repeat constructor|]. intros [Hy Hs].
  destruct (str_compare x y) eqn:E; cbn.
  - done.
  - split; [|done]. constructor; [done|]. eapply Forall_impl; [exact Hy|].
    cbn. intros z. by apply str_lt_trans.
  - split; [|auto]. apply Forall_forall. intros z [->|Hz]%set_insert_elem.
    + unfold str_lt. by rewrite str_compare_antisym, E.
    + by apply (proj1 (Forall_forall _ _) Hy).
Qed.

Lemma set_of_list_sorted l : set_sorted (set_of_list l).
Proof.
  unfold set_of_list. assert (H : set_sorted []) by done. revert H.
  generalize (@nil str). induction l as [|x l IH]; cbn; [done|].
  intros s Hs. by apply IH, set_insert_sorted.
Qed.

Lemma set_of_list_elem y l : y ∈ set_of_list l <-> y ∈ l.
Proof.
  unfold set_of_list.
  enough (H : forall s, y ∈ fold_left (fun s x => set_insert x s) l s <-> y ∈ s \/ y ∈ l)
    by (rewrite H; set_solver).
  induction l as [|x l IH]; intros s; cbn; [set_solver|].
  rewrite IH, set_insert_elem. set_solver.
Qed.

Lemma set_of_list_id s : set_sorted s -> set_of_list s = s.
Proof.
  unfold set_of_list.
  enough (H : forall a b, set_sorted (a ++ b) ->
    fold_left (fun s x => set_insert x s) b a = a ++ b) by (intros; by rewrite H).
  intros a b; revert a; induction b as [|x b IH]; intros a Hs; cbn; [by rewrite app_nil_r|].
  assert (Hx : set_insert x a = a ++ [x]).
  { clear IH. induction a as [|y a IHa]; [done|]. cbn in *. destruct Hs as [Hy Hs].
    apply Forall_app in Hy as [_ Hy]. inversion Hy; subst.
    unfold str_lt in *. rewrite str_compare_antisym. rewrite H1. cbn. by rewrite IHa. }
  rewrite Hx, IH; by rewrite <- app_assoc.
Qed.

(** ** JSON *)

(** [serde_json::Number]. A float is its 64 bits (always finite). *)
Inductive Number :=
| PosInt (u : N)
| NegInt (i : Z)
| Float (bits : N).

Definition float_is_zero (bits : N) : bool := N.eqb (bits mod 2 ^ 63)%N 0.
Definition float_eqb (a b : N) : bool :=
  N.eqb a b || (float_is_zero a && float_is_zero b).

Definition Number_eqb (a b : Number) : bool :=
  match a, b with
  | PosInt x, PosInt y => N.eqb x y
  | NegInt x, NegInt y => Z.eqb x y
  | Float x, Float y => float_eqb x y
  | _, _ => false
  end.

#[export] Instance Number_RustEq : RustEq Number.
Proof.
  refine {| req := Number_eqb |}.
  - intros [u|i|f]; cbn; [apply N.eqb_refl|apply Z.eqb_refl|].
    unfold float_eqb. by rewrite N.eqb_refl.
  - intros [u|i|f] [u'|i'|f']; cbn; try done.
    + by rewrite N.eqb_sym.
    + by rewrite Z.eqb_sym.
    + unfold float_eqb. by rewrite N.eqb_sym, andb_comm.
  - intros [u|i|f] [u'|i'|f'] [u''|i''|f'']; cbn; try done.
    + rewrite !N.eqb_eq. congruence.
    + rewrite !Z.eqb_eq. congruence.
    + unfold float_eqb. destruct (N.eqb_spec f f') as [->|], (N.eqb_spec f' f'') as [->|];
        cbn; try done.
      * intros [-> ->]%andb_true_iff _. by rewrite orb_true_r.
      * intros [-> _]%andb_true_iff [_ ->]%andb_true_iff. by rewrite orb_true_r.
Defined.

#[export] Instance Number_eq_dec : EqDecision Number.
Proof. solve_decision. Defined.

Inductive Value :=
| VNull
| VBool (b : bool)
| VNumber (n : Number)
| VString (s : str)
| VArray (items : list Value)
| VObject (map : list (str * Value)).

(** Induction through arrays and objects. *)
Section Value_ind.
Variable P : Value -> Prop.
Hypothesis Hnull : P VNull.
Hypothesis Hbool : forall b, P (VBool b).
Hypothesis Hnum : forall n, P (VNumber n).
Hypothesis Hstr : forall s, P (VString s).
Hypothesis Harr : forall l, Forall P l -> P (VArray l).
Hypothesis Hobj : forall m, Forall (fun kv => P kv.2) m -> P (VObject m).

Fixpoint Value_rect' (v : Value) : P v :=
  match v with
  | VNull => Hnull
  | VBool b => Hbool b
  | VNumber n => Hnum n
  | VString s => Hstr s
  | VArray l => Harr l ((fix go l : Forall P l :=
    match l with
    | [] => List.Forall_nil _
    | x :: l' => List.Forall_cons _ x l' (Value_rect' x) (go l')
    end) l)
  | VObject m => Hobj m ((fix go m : Forall (fun kv => P kv.2) m :=
    match m with
    | [] => List.Forall_nil _
    | kv :: m' => List.Forall_cons _ kv m' (Value_rect' kv.2) (go m')
    end) m)
  end.
End Value_ind.

(** [PartialEq for Value]. *)
Fixpoint Value_eqb (a b : Value) : bool :=
  match a, b with
  | VNull, VNull => true
  | VBool x, VBool y => Bool.eqb x y
  | VNumber x, VNumber y => x ==? y
  | VString x, VString y => str_eqb x y
  | VArray x, VArray y =>
      (fix go (x y : list Value) :=
        match x, y with
        | [], [] => true
        | v :: x', w :: y' => Value_eqb v w && go x' y'
        | _, _ => false
        end) x y
  | VObject x, VObject y =>
      (fix go (x y : list (str * Value)) :=
        match x, y with
        | [], [] => true
        | (k, v) :: x', (l, w) :: y' => str_eqb k l && Value_eqb v w && go x' y'
        | _, _ => false
        end) x y
  | _, _ => false
  end.

Lemma Value_eqb_refl a : Value_eqb a a = true.
Proof.
  induction a using Value_rect'; cbn.
  - done.
  - apply Bool.eqb_reflx.
  - exact (req_refl n).
  - by apply str_eqb_true.
  - induction H as [|x l Hx _ IH]; [done|]. by rewrite Hx, IH.
  - induction H as [|[k x] l Hx _ IH]; cbn in *; [done|].
    by rewrite (proj2 (str_eqb_true k k)), Hx, IH.
Qed.

Lemma Value_eqb_sym a b : Value_eqb a b = true -> Value_eqb b a = true.
Proof.
  revert b; induction a using Value_rect'; intros [] Hab; try discriminate Hab; try done.
  - cbn in *. by rewrite Bool.eqb_true_iff in *.
  - exact (req_sym n n0 Hab).
  - cbn in *. apply str_eqb_true in Hab as ->. by apply str_eqb_true.
  - revert items Hab. induction H as [|x l Hx _ IH]; intros [|y r]; try done.
    cbn. intros [? ?]%andb_true_iff. rewrite Hx by done. by apply (IH r).
  - revert map Hab. induction H as [|[k x] l Hx _ IH]; intros [|[k' y] r]; try done.
    cbn. intros [[->%str_eqb_true ?]%andb_true_iff ?]%andb_true_iff.
    rewrite Hx, (proj2 (str_eqb_true k' k')) by done. by apply (IH r).
Qed.

Lemma Value_eqb_trans a b c : Value_eqb a b = true -> Value_eqb b c = true -> Value_eqb a c = true.
Proof.
  revert b c; induction a using Value_rect'; intros [] [] Hab Hbc;
    try discriminate Hab; try discriminate Hbc; try done.
  - cbn in *. rewrite Bool.eqb_true_iff in *. congruence.
  - exact (req_trans n n0 n1 Hab Hbc).
  - cbn in *. rewrite str_eqb_true in *. congruence.
  - revert items items0 Hab Hbc.
    induction H as [|x l Hx _ IH]; intros [|y r] [|z q]; try done.
    cbn. intros [? ?]%andb_true_iff [? ?]%andb_true_iff.
    rewrite (Hx y z) by done. by apply (IH r q).
  - revert map map0 Hab Hbc.
    induction H as [|[k x] l Hx _ IH]; intros [|[k' y] r] [|[k'' z] q]; try done.
    cbn. intros [[->%str_eqb_true ?]%andb_true_iff ?]%andb_true_iff
      [[->%str_eqb_true ?]%andb_true_iff ?]%andb_true_iff.
    cbn in Hx. rewrite (Hx y z), (proj2 (str_eqb_true k'' k'')) by done. by apply (IH r q).
Qed.

#[export] Instance Value_RustEq : RustEq Value := {|
  req := Value_eqb;
  req_refl := Value_eqb_refl;
  req_sym := Value_eqb_sym;
  req_trans := Value_eqb_trans;
|}.

(** Accessors. *)
Definition as_str (v : Value) : option str :=
  match v with VString s => Some s | _ => None end.
Definition as_bool (v : Value) : option bool :=
  match v with VBool b => Some b | _ => None end.
Definition Number_as_u64 (n : Number) : option N :=
  match n with PosInt u => Some u | _ => None end.
Definition as_u64 (v : Value) : option N :=
  match v with VNumber n => Number_as_u64 n | _ => None end.
Definition Number_as_i64 (n : Number) : option Z :=
  match n with
  | PosInt u => if N.ltb u (2 ^ 63) then Some (Z.of_N u) else None
  | NegInt i => Some i
  | Float _ => None
  end.

Definition as_i64 (v : Value) : option Z :=
  match v with VNumber n => Number_as_i64 n | _ => None end.
Definition as_array (v : Value) : option (list Value) :=
  match v with VArray l => Some l | _ => None end.
Definition as_object (v : Value) : option (list (str * Value)) :=
  match v with VObject m => Some m | _ => None end.
Definition is_null (v : Value) : bool := match v with VNull => true | _ => false end.

(** [json!({...})] and text in JSON. *)
Definition json_obj (entries : list (str * Value)) : Value := VObject (map_of_list entries).
(** An integer as a [Value]. *)
Definition json_int (i : Z) : Value := VNumber (if Z.ltb i 0 then NegInt i else PosInt (Z.to_N i)).
Definition json_strs (l : list str) : Value := VArray (map VString l).
Definition json_opt_str (o : option str) : Value :=
  match o with Some s => VString s | None => VNull end.
Definition json_str_object (m : list (str * str)) : Value := VObject (map_values VString m).
