(* ===== verification/Glob.v ===== *)
(** Shell-style globs ([crates/core/src/glob.rs]): compilation of a pattern
    to tokens, the greedy matcher with one backtrack point, [escape] and
    [literal_text]. The matcher is proved to terminate within its fuel and to
    decide the declarative relation [tok_match].

    A cursor [i] into a slice is the suffix [slice[i..]]. *)

From S2P Require Import Prelude.
From stdpp Require Import options.

(** ** Data *)

Inductive ClassItem :=
| Char (x : char)
| Range (lo hi : char).

Inductive Token :=
| Literal (x : char)
| AnyOne
| Star
| Class (negated : bool) (items : list ClassItem).

#[export] Instance ClassItem_eq_dec : EqDecision ClassItem.
Proof. solve_decision. Defined.
#[export] Instance Token_eq_dec : EqDecision Token.
Proof. solve_decision. Defined.

Definition item_contains (item : ClassItem) (c : char) : bool :=
  match item with
  | Char x => N.eqb x c
  | Range lo hi => N.leb lo c && N.leb c hi
  end.

Record Glob := mkGlob { glob_source : str; glob_tokens : list Token }.

#[export] Instance Glob_struct_eq_dec : EqDecision Glob.
Proof. solve_decision. Defined.

(** ** Compilation *)

(** [while chars.get(j).is_some_and(|&c| c != ']') { j += 1 }]: the
    characters passed and what is left. *)
Fixpoint span_to_bracket (cs : str) : str * str :=
  match cs with
  | [] => ([], [])
  | c :: cs' =>
      if N.eqb c (ch "]") then ([], cs)
      else let '(body, rest) := span_to_bracket cs' in (c :: body, rest)
  end.

(** The items of a set's body: [lo-hi], unless the [-] is last. *)
Fixpoint class_items (body : str) : list ClassItem :=
  match body with
  | [] => []
  | lo :: k1 =>
      match k1 with
      | d :: hi :: k3 =>
          if N.eqb d (ch "-") then Range lo hi :: class_items k3
          else Char lo :: class_items k1
      | _ => Char lo :: class_items k1
      end
  end.

(** [parse_class(chars, start)], [cs] being [chars[start..]]. *)
Definition parse_class (cs : str) : option (Token * str) :=
  let '(negated, j) :=
    match cs with
    | c :: cs' => if N.eqb c (ch "!") then (true, cs') else (false, cs)
    | [] => (false, cs)
    end in
  let '(first, j') :=
    match j with
    | c :: cs' => if N.eqb c (ch "]") then ([c], cs') else ([], j)
    | [] => ([], j)
    end in
  let '(body, rest) := span_to_bracket j' in
  match rest with
  | [] => None
  | _ :: next => Some (Class negated (class_items (first ++ body)), next)
  end.

#[global] Arguments parse_class : simpl never.

(** The loop of [compile]; [tokens] is the vector pushed so far, newest
    first. The fuel is the number of characters left. *)
Fixpoint compile_loop (fuel : nat) (cs : str) (tokens : list Token) : list Token :=
  match fuel, cs with
  | S fuel', c :: rest =>
      if N.eqb c (ch "*") then
        compile_loop fuel' rest
          (if bool_decide (head tokens = Some Star) then tokens else Star :: tokens)
      else if N.eqb c (ch "?") then compile_loop fuel' rest (AnyOne :: tokens)
      else if N.eqb c (ch "[") then
        match parse_class rest with
        | Some (token, next) => compile_loop fuel' next (token :: tokens)
        | None => compile_loop fuel' rest (Literal (ch "[") :: tokens)
        end
      else compile_loop fuel' rest (Literal c :: tokens)
  | _, _ => rev tokens
  end.

Definition compile (pattern : str) : list Token :=
  compile_loop (length pattern) pattern [].

Definition Glob_new (pattern : str) : Glob := mkGlob pattern (compile pattern).
Definition Glob_any : Glob := Glob_new (lit "*").
(** [PartialEq for Glob]: the source text alone. *)
Definition Glob_eqb (a b : Glob) : bool := str_eqb (glob_source a) (glob_source b).

(** ** Matching *)

Definition token_matches_one (token : Token) (c : char) : bool :=
  match token with
  | Literal x => N.eqb x c
  | AnyOne => true
  | Class negated items =>
      negb (Bool.eqb (existsb (fun item => item_contains item c) items) negated)
  | Star => false
  end.

(** One turn of [match_tokens]' loop. [ts], [cs] are the cursors [t], [s];
    [backtrack] the pair (token after the star, text position). *)
Inductive turn :=
| Continue (ts : list Token) (cs : str) (backtrack : option (list Token * str))
| Return (b : bool).

Definition go_back (backtrack : option (list Token * str)) : turn :=
  match backtrack with
  | Some (bt, _ :: bs) => Continue bt bs (Some (bt, bs))
  | _ => Return false
  end.

Definition match_turn (ts : list Token) (cs : str)
    (backtrack : option (list Token * str)) : turn :=
  match ts, cs with
  | Star :: ts', _ => Continue ts' cs (Some (ts', cs))
  | token :: ts', c :: cs' =>
      if token_matches_one token c then Continue ts' cs' backtrack
      else go_back backtrack
  | [], [] => Return true
  | _, _ => go_back backtrack
  end.

Fixpoint match_loop (fuel : nat) (ts : list Token) (cs : str)
    (backtrack : option (list Token * str)) : option bool :=
  match fuel with
  | 0 => None
  | S fuel' =>
      match match_turn ts cs backtrack with
      | Return b => Some b
      | Continue ts' cs' backtrack' => match_loop fuel' ts' cs' backtrack'
      end
  end.

(** Enough turns for every run: see [match_loop_terminates]. *)
Definition match_fuel (tokens : list Token) (text : str) : nat :=
  S ((length text + 1) * (length tokens + 1) + length tokens).

Definition match_tokens (tokens : list Token) (text : str) : bool :=
  match match_loop (match_fuel tokens text) tokens text None with
  | Some b => b
  | None => false
  end.

Definition glob_matches (g : Glob) (text : str) : bool :=
  match_tokens (glob_tokens g) text.

Definition fnmatch (text pattern : str) : bool :=
  glob_matches (Glob_new pattern) text.

(** ** Literal patterns *)

Definition is_literal (g : Glob) : bool :=
  forallb (fun t => match t with Literal _ => true | _ => false end) (glob_tokens g).

Definition token_literal (t : Token) : option char :=
  match t with
  | Literal c => Some c
  | Class false [Char c] => Some c
  | Class false [Range lo hi] => if N.eqb lo hi then Some lo else None
  | _ => None
  end.

Definition literal_text (g : Glob) : option str := mapM token_literal (glob_tokens g).

Definition escape_char (c : char) : str :=
  if N.eqb c (ch "*") || N.eqb c (ch "?") || N.eqb c (ch "[")
  then [ch "["; c; ch "]"] else [c].

Definition escape (text : str) : str := flat_map escape_char text.

(** [matches_every_nonempty_over]: the two counters of its loop, or [None]
    for its early [return false]. *)
Fixpoint count_tokens (alphabet : list char) (tokens : list Token)
    (stars singles : nat) : option (nat * nat) :=
  match tokens with
  | [] => Some (stars, singles)
  | Star :: ts => count_tokens alphabet ts (S stars) singles
  | token :: ts =>
      if forallb (token_matches_one token) alphabet
      then count_tokens alphabet ts stars (S singles)
      else None
  end.

Definition matches_every_nonempty_over (g : Glob) (alphabet : list char) : bool :=
  match alphabet with
  | [] => false
  | _ =>
      match count_tokens alphabet (glob_tokens g) 0 0 with
      | Some (stars, singles) => Nat.ltb 0 stars && Nat.leb singles 1
      | None => false
      end
  end.

(** ** The declarative meaning of a token list *)

Inductive tok_match : list Token -> str -> Prop :=
| tm_nil : tok_match [] []
| tm_one t ts c cs :
    token_matches_one t c = true -> tok_match ts cs -> tok_match (t :: ts) (c :: cs)
| tm_skip ts cs : tok_match ts cs -> tok_match (Star :: ts) cs
| tm_eat ts c cs : tok_match (Star :: ts) cs -> tok_match (Star :: ts) (c :: cs).
#[export] Hint Constructors tok_match : agentauth.

Lemma tok_match_star ts cs :
  tok_match (Star :: ts) cs <-> exists pre suf, cs = pre ++ suf /\ tok_match ts suf.
Proof.
  split.
  - intros H. remember (Star :: ts) as l eqn:El. induction H; simplify_eq/=.
    + by exists [], cs.
    + destruct IHtok_match as (pre & suf & -> & ?); [done|]. by exists (c :: pre), suf.
  - intros (pre & suf & -> & H). induction pre; cbn; auto with agentauth.
Qed.

Lemma tok_match_single t ts cs :
  t <> Star ->
  tok_match (t :: ts) cs <->
  exists c cs', cs = c :: cs' /\ token_matches_one t c = true /\ tok_match ts cs'.
Proof.
  intros Ht. split.
  - inversion 1; simplify_eq. eauto.
  - intros (c & cs' & -> & ? & ?). by constructor.
Qed.

(** A run of one-character tokens consumes exactly its length. *)
Lemma tok_match_singles pre ts cs :
  Forall (fun t => t <> Star) pre -> tok_match (pre ++ ts) cs ->
  tok_match ts (drop (length pre) cs) /\ length pre <= length cs.
Proof.
  intros Hp. revert cs; induction Hp as [|t pre Ht _ IH]; intros cs H; cbn in *.
  - split; [done|lia].
  - apply tok_match_single in H as (c & cs' & -> & _ & H); [|done].
    apply IH in H as (? & ?). split; [done|cbn; lia].
Qed.

(** ** The matcher *)

(** What the loop still decides: the tokens at the cursor match the text at
    the cursor, or the tokens after the last star match some strictly later
    suffix of its text. *)
Definition pending (ts : list Token) (cs : str)
    (backtrack : option (list Token * str)) : Prop :=
  tok_match ts cs \/
  match backtrack with
  | Some (bt, bs) => exists k, 0 < k <= length bs /\ tok_match bt (drop k bs)
  | None => False
  end.

(** The cursor is ahead of the backtrack point by one-character tokens. *)
Definition in_step (ts : list Token) (cs : str)
    (backtrack : option (list Token * str)) : Prop :=
  match backtrack with
  | Some (bt, bs) =>
      exists pre, bt = pre ++ ts /\ Forall (fun t => t <> Star) pre /\
        cs = drop (length pre) bs /\ length pre <= length bs
  | None => True
  end.

Lemma pending_go_back ts cs backtrack :
  ~ tok_match ts cs ->
  match go_back backtrack with
  | Continue ts' cs' b' => in_step ts' cs' b' /\
      (pending ts cs backtrack <-> pending ts' cs' b')
  | Return b => pending ts cs backtrack <-> b = true
  end.
Proof.
  intros Hno. unfold go_back, pending, in_step.
  destruct backtrack as [[bt [|b bs]]|].
  - split; [intros [?|(k & ? & _)]; [done|cbn in *; lia] | done].
  - split; [exists []; cbn; split_and!; [done|constructor|done|lia] |]. split.
    + intros [?|([|k] & Hk & Hm)]; [done|lia|].
      cbn in Hk, Hm. destruct k as [|k]; [by left|right].
      exists (S k). split; [lia|done].
    + intros [Hm|(k & Hk & Hm)]; right.
      * exists 1. split; [cbn; lia|done].
      * exists (S k). split; [cbn; lia|done].
  - split; [by intros [?|?] | done].
Qed.

Lemma match_turn_single t ts cs backtrack :
  t <> Star ->
  match_turn (t :: ts) cs backtrack =
  match cs with
  | c :: cs' => if token_matches_one t c then Continue ts cs' backtrack
                else go_back backtrack
  | [] => go_back backtrack
  end.
Proof. by destruct t, cs. Qed.

Lemma pending_step ts cs backtrack :
  in_step ts cs backtrack ->
  match match_turn ts cs backtrack with
  | Continue ts' cs' b' => in_step ts' cs' b' /\
      (pending ts cs backtrack <-> pending ts' cs' b')
  | Return b => pending ts cs backtrack <-> b = true
  end.
Proof.
  intros Hin. destruct ts as [|t ts].
  { cbn. destruct cs as [|c cs]; [split; [done|intros _; left; constructor]|].
    apply pending_go_back. inversion 1. }
  destruct (decide (t = Star)) as [->|Ht].
  - (* a star: it becomes the backtrack point *)
    cbn [match_turn]. split; [exists []; cbn; split_and!; [done|constructor|by rewrite drop_0|lia]|].
    unfold pending. split.
    + intros [H|H].
      * apply tok_match_star in H as (pre & suf & -> & H).
        destruct pre as [|p pre]; [by left|right].
        exists (S (length pre)). rewrite length_app. split; [cbn; lia|].
        cbn. by rewrite drop_app_length.
      * destruct backtrack as [[bt bs]|]; [|done].
        destruct Hin as (pre & -> & Hp & -> & Hl), H as (k & Hk & Hm).
        apply tok_match_singles in Hm as (Hm & Hl'); [|done].
        rewrite drop_drop in Hm. rewrite length_drop in Hl'.
        apply tok_match_star in Hm as (p1 & s1 & Heq & Hm). right.
        exists (k + length p1).
        assert (Hlen := f_equal length Heq).
        rewrite length_drop, length_app in Hlen. rewrite length_drop.
        split; [lia|]. rewrite !drop_drop.
        replace (length pre + (k + length p1)) with (k + length pre + length p1) by lia.
        rewrite <- drop_drop, Heq, drop_app_length. done.
    + intros [H|(k & Hk & H)]; left; apply tok_match_star.
      * by exists [], cs.
      * exists (take k cs), (drop k cs). by rewrite take_drop.
  - rewrite match_turn_single by done.
    destruct cs as [|c cs]; [apply pending_go_back; inversion 1; simplify_eq|].
    destruct (token_matches_one t c) eqn:Hc; cycle 1.
    { apply pending_go_back. rewrite tok_match_single by done.
      intros (? & ? & [= <- <-] & ? & _). congruence. }
    split.
    + destruct backtrack as [[bt bs]|]; [|done].
      destruct Hin as (pre & -> & Hp & Heq & Hl).
      assert (Hlen := f_equal length Heq). rewrite length_drop in Hlen. cbn in Hlen.
      exists (pre ++ [t]). rewrite <- app_assoc, length_app; cbn. split_and!.
      * done.
      * apply Forall_app; split; [done|by constructor].
      * by rewrite <- drop_drop, <- Heq.
      * lia.
    + unfold pending. rewrite tok_match_single by done.
      split; (intros [H|H]; [left|by right]); [|eauto].
      by destruct H as (? & ? & [= <- <-] & _ & ?).
Qed.

(** Termination: every turn lowers [weight]. *)
Definition weight (m n : nat) (ts : list Token) (backtrack : option (list Token * str)) : nat :=
  match backtrack with
  | Some (_, bs) => length bs
  | None => n + 1
  end * (m + 1) + length ts.

Definition within (m n : nat) (ts : list Token) (cs : str)
    (backtrack : option (list Token * str)) : Prop :=
  length ts <= m /\ length cs <= n /\
  match backtrack with
  | Some (bt, bs) => length bt <= m /\ length ts <= length bt /\ length cs <= length bs /\ length bs <= n
  | None => True
  end.

Lemma match_turn_decreases m n ts cs backtrack :
  within m n ts cs backtrack ->
  match match_turn ts cs backtrack with
  | Continue ts' cs' b' =>
      within m n ts' cs' b' /\ weight m n ts' b' < weight m n ts backtrack
  | Return _ => True
  end.
Proof.
  assert (Hgo : within m n ts cs backtrack ->
    match go_back backtrack with
    | Continue ts' cs' b' =>
        within m n ts' cs' b' /\ weight m n ts' b' < weight m n ts backtrack
    | Return _ => True
    end).
  { unfold within, weight, go_back. destruct backtrack as [[bt [|b bs]]|]; cbn; try done.
    intros (? & ? & ? & ? & ?). split; [lia|nia]. }
  intros Hw. destruct ts as [|t ts].
  { cbn. destruct cs; [done|by apply Hgo]. }
  destruct (decide (t = Star)) as [->|Ht].
  - unfold within, weight in *. cbn in *. destruct backtrack as [[bt bs]|]; split; [lia|nia|lia|nia].
  - rewrite match_turn_single by done. destruct cs as [|c cs]; [by apply Hgo|].
    destruct (token_matches_one t c); [|by apply Hgo].
    unfold within, weight in *. cbn in *. destruct backtrack as [[bt bs]|]; split; lia.
Qed.

(** With more fuel than the weight, the loop returns the pending answer. *)
Lemma match_loop_decides m n fuel ts cs backtrack :
  within m n ts cs backtrack -> in_step ts cs backtrack ->
  weight m n ts backtrack < fuel ->
  exists b, match_loop fuel ts cs backtrack = Some b /\
    (b = true <-> pending ts cs backtrack).
Proof.
  revert ts cs backtrack. induction fuel as [|fuel IH]; intros ts cs backtrack Hw Hin Hf; [lia|].
  cbn. pose proof (match_turn_decreases _ _ _ _ _ Hw) as Hd.
  pose proof (pending_step _ _ _ Hin) as Hp.
  destruct (match_turn ts cs backtrack) as [ts' cs' b'|b].
  - destruct Hd as [Hw' Hlt], Hp as [Hin' Hp].
    destruct (IH ts' cs' b') as (b & Hb & Hiff); [done|done|lia|].
    exists b. split; [done|]. by rewrite Hp.
  - exists b. by rewrite Hp.
Qed.

Lemma match_loop_fuel tokens text :
  exists b, match_loop (match_fuel tokens text) tokens text None = Some b /\
    (b = true <-> tok_match tokens text).
Proof.
  destruct (match_loop_decides (length tokens) (length text)
    (match_fuel tokens text) tokens text None) as (b & Hb & Hiff).
  - repeat split; lia.
  - done.
  - unfold weight, match_fuel. lia.
  - exists b. split; [done|]. rewrite Hiff. unfold pending. tauto.
Qed.

Lemma match_tokens_iff tokens text :
  match_tokens tokens text = true <-> tok_match tokens text.
Proof.
  unfold match_tokens. by destruct (match_loop_fuel tokens text) as (b & -> & ?).
Qed.

(** ** Literal patterns match one text *)

Lemma token_literal_matches t x :
  token_literal t = Some x -> t <> Star /\ forall c, token_matches_one t c = true <-> c = x.
Proof.
  destruct t as [y| | |[] [|[y|lo hi] [|]]]; cbn; try done.
  - intros [= ->]. split; [done|]. intros c. rewrite N.eqb_eq. split; congruence.
  - intros [= ->]. split; [done|]. intros c. rewrite orb_false_r.
    destruct (N.eqb_spec x c); cbn; split; congruence.
  - destruct (N.eqb_spec lo hi) as [->|]; [|done]. intros [= ->]. split; [done|].
    intros c. rewrite orb_false_r.
    destruct (N.leb_spec x c), (N.leb_spec c x); cbn; split; try lia; congruence.
Qed.

Lemma tok_match_literals tokens s text :
  mapM token_literal tokens = Some s -> tok_match tokens text <-> text = s.
Proof.
  rewrite mapM_Some. intros Hs. revert text.
  induction Hs as [|t x ts xs Ht _ IH]; intros text.
  - split; [by inversion 1 | intros ->; constructor].
  - apply token_literal_matches in Ht as [Hne Hc]. rewrite tok_match_single by done. split.
    + intros (c & cs & -> & ->%Hc & ->%IH). done.
    + intros ->. exists x, xs. rewrite Hc, IH. done.
Qed.

(** A literal pattern matches one text. *)
Lemma is_literal_matches g :
  is_literal g = true -> exists s, forall t, glob_matches g t = true <-> t = s.
Proof.
  intros Hl. unfold is_literal in Hl.
  assert (exists s, mapM token_literal (glob_tokens g) = Some s) as [s Hs].
  { induction (glob_tokens g) as [|[x| | |] ts IH]; [by exists []|..]; try done.
    cbn [forallb] in Hl. apply IH in Hl as [s Hs]. exists (x :: s). cbn. by rewrite Hs. }
  exists s. intros t. unfold glob_matches. rewrite match_tokens_iff. by apply tok_match_literals.
Qed.

(** ** Escaping *)

Definition escape_token (c : char) : Token :=
  if N.eqb c (ch "*") || N.eqb c (ch "?") || N.eqb c (ch "[")
  then Class false [Char c] else Literal c.

Lemma compile_loop_escape text fuel acc :
  length (escape text) <= fuel ->
  compile_loop fuel (escape text) acc = rev acc ++ map escape_token text.
Proof.
  revert fuel acc; induction text as [|c text IH]; intros fuel acc Hf.
  - cbn. rewrite app_nil_r. by destruct fuel.
  - change (escape (c :: text)) with (escape_char c ++ escape text) in *.
    rewrite length_app in Hf. cbn [map].
    destruct (N.eqb c 42 || N.eqb c 63 || N.eqb c 91) eqn:Hc.
    + assert (escape_char c = [91%N; c; 93%N]) as Hec by (unfold escape_char; by rewrite Hc).
      assert (escape_token c = Class false [Char c]) as -> by (unfold escape_token; by rewrite Hc).
      rewrite Hec in *. cbn in Hf.
      destruct fuel as [|fuel]; [lia|]. cbn.
      assert (parse_class (c :: 93%N :: escape text)
                   = Some (Class false [Char c], escape text)) as ->.
      { apply orb_true_iff in Hc as [[Hc|Hc]%orb_true_iff|Hc];
          apply N.eqb_eq in Hc as ->; done. }
      rewrite IH by lia. cbn. by rewrite <- app_assoc.
    + assert (escape_char c = [c]) as Hec by (unfold escape_char; by rewrite Hc).
      assert (escape_token c = Literal c) as -> by (unfold escape_token; by rewrite Hc).
      rewrite Hec in *. cbn in Hf. destruct fuel as [|fuel]; [lia|].
      apply orb_false_iff in Hc as [[H1 H2]%orb_false_iff H3].
      cbn. rewrite H1, H2, H3. rewrite IH by lia. cbn. by rewrite <- app_assoc.
Qed.

Lemma compile_escape text : compile (escape text) = map escape_token text.
Proof. unfold compile. by rewrite compile_loop_escape. Qed.

Lemma literal_text_escape text : literal_text (Glob_new (escape text)) = Some text.
Proof.
  unfold literal_text, Glob_new; cbn. rewrite compile_escape. apply mapM_Some.
  induction text as [|c text IH]; cbn; constructor; [|done].
  unfold escape_token. case_match; done.
Qed.

Lemma fnmatch_escape_iff text t : fnmatch t (escape text) = true <-> t = text.
Proof.
  unfold fnmatch, glob_matches. rewrite match_tokens_iff.
  apply tok_match_literals, literal_text_escape.
Qed.

Lemma glob_any_matches text : glob_matches Glob_any text = true.
Proof.
  unfold glob_matches. apply match_tokens_iff. change (glob_tokens Glob_any) with [Star].
  apply tok_match_star. exists text, []. rewrite app_nil_r. split; constructor.
Qed.
#[export] Hint Resolve glob_any_matches literal_text_escape : agentauth.

(** Fuel: the compiler's result does not depend on it past the length. *)
Lemma span_to_bracket_length cs body rest :
  span_to_bracket cs = (body, rest) -> cs = body ++ rest.
Proof.
  revert body rest; induction cs as [|c cs IH]; cbn; intros body rest H; [by inversion H|].
  destruct (N.eqb c 93); [by inversion H|].
  destruct (span_to_bracket cs) as [b r] eqn:E. inversion H; subst.
  cbn. f_equal. by apply IH.
Qed.

Lemma parse_class_shorter cs token next :
  parse_class cs = Some (token, next) -> length next < length cs.
Proof.
  unfold parse_class. intros H.
  set (n := match cs with c :: cs' => if N.eqb c 33 then (true, cs') else (false, cs)
                        | [] => (false, cs) end) in H.
  assert (Hn : length n.2 <= length cs)
    by (subst n; destruct cs as [|c cs]; [done|destruct (N.eqb c 33); cbn; lia]).
  destruct n as [neg j]; cbn in Hn.
  set (f := match j with c :: cs' => if N.eqb c 93 then ([c], cs') else ([], j)
                       | [] => ([], j) end) in H.
  assert (Hf : length f.2 <= length j)
    by (subst f; destruct j as [|c j]; [done|destruct (N.eqb c 93); cbn; lia]).
  destruct f as [first j']; cbn in Hf.
  destruct (span_to_bracket j') as [body rest] eqn:E.
  apply span_to_bracket_length in E.
  destruct rest as [|b rest]; [done|]. inversion H; subst.
  rewrite length_app in Hf. cbn in Hf. lia.
Qed.

Lemma compile_loop_fuel fuel cs acc :
  length cs <= fuel -> compile_loop fuel cs acc = compile_loop (length cs) cs acc.
Proof.
  revert cs acc. induction fuel as [fuel IH] using lt_wf_ind. intros cs acc Hf.
  destruct cs as [|c cs]; [by destruct fuel|].
  destruct fuel as [|fuel]; cbn in *; [lia|].
  destruct (N.eqb c 42); [apply IH; lia|].
  destruct (N.eqb c 63); [apply IH; lia|].
  destruct (N.eqb c 91); [|apply IH; lia].
  destruct (parse_class cs) as [[token next]|] eqn:E; [|apply IH; lia].
  apply parse_class_shorter in E.
  rewrite IH by lia. symmetry. apply IH; lia.
Qed.

(** ** Patterns that match every non-empty text over an alphabet *)

Section every_nonempty.
Variable alphabet : list char.
Implicit Types (ts : list Token) (s : str).

Definition covers (t : Token) : Prop :=
  forall c, c ∈ alphabet -> token_matches_one t c = true.

Definition over (s : str) : Prop := Forall (fun c => c ∈ alphabet) s.

(** What [count_tokens] counts. *)
Inductive counted : list Token -> nat -> nat -> Prop :=
| counted_nil : counted [] 0 0
| counted_star ts a b : counted ts a b -> counted (Star :: ts) (S a) b
| counted_single t ts a b :
t <> Star -> covers t -> counted ts a b -> counted (t :: ts) a (S b).

Lemma count_tokens_star ts a b :
  count_tokens alphabet (Star :: ts) a b = count_tokens alphabet ts (S a) b.
Proof. done. Qed.

Lemma count_tokens_single t ts a b :
  t <> Star ->
  count_tokens alphabet (t :: ts) a b =
  if forallb (token_matches_one t) alphabet
  then count_tokens alphabet ts a (S b) else None.
Proof. by destruct t. Qed.

Lemma covers_forallb t : forallb (token_matches_one t) alphabet = true <-> covers t.
Proof. apply forallb_elem. Qed.

Lemma count_tokens_some ts a b a' b' :
  count_tokens alphabet ts a b = Some (a', b') ->
  exists i j, counted ts i j /\ a' = a + i /\ b' = b + j.
Proof.
  revert a b; induction ts as [|t ts IH]; intros a b H.
  - inversion H; subst. exists 0, 0. split; [constructor|lia].
  - destruct (decide (t = Star)) as [->|Ht].
  + rewrite count_tokens_star in H. apply IH in H as (i & j & ? & -> & ->).
    exists (S i), j. split; [by constructor|lia].
  + rewrite count_tokens_single in H by done.
    destruct (forallb _ _) eqn:E; [|done]. apply covers_forallb in E.
    apply IH in H as (i & j & ? & -> & ->).
    exists i, (S j). split; [by constructor|lia].
Qed.

Lemma count_tokens_none ts a b :
  count_tokens alphabet ts a b = None ->
  exists t d, t ∈ ts /\ t <> Star /\ d ∈ alphabet /\ token_matches_one t d = false.
Proof.
  revert a b; induction ts as [|t ts IH]; intros a b H; [done|].
  destruct (decide (t = Star)) as [->|Ht].
  - rewrite count_tokens_star in H. apply IH in H as (t & d & ? & ?). exists t, d. by split; [right|].
  - rewrite count_tokens_single in H by done.
  destruct (forallb _ _) eqn:E.
  + apply IH in H as (t' & d & ? & ?). exists t', d. by split; [right|].
  + apply forallb_false in E as (d & ? & ?). exists t, d. by split; [left|].
Qed.

(** Covering tokens match exactly the lengths the counts allow. *)
Lemma counted_matches ts a b s :
  counted ts a b -> over s -> b <= length s -> (0 < a \/ length s = b) -> tok_match ts s.
Proof.
  intros Hc. revert s; induction Hc as [|ts a b Hc IH|t ts a b Ht Hcov Hc IH];
  intros s Hs Hl Hd.
  - destruct s; [constructor|cbn in *; lia].
  - apply tok_match_star. exists (take (length s - b) s), (drop (length s - b) s).
  rewrite take_drop. split; [done|]. apply IH.
  + by apply Forall_drop.
  + rewrite length_drop. lia.
  + right. rewrite length_drop. lia.
  - destruct s as [|c s]; cbn in *; [lia|]. inversion Hs; subst.
  constructor; [by apply Hcov|]. apply IH; [done|lia|lia].
Qed.

Lemma counted_length ts a b s :
  counted ts a b -> tok_match ts s -> b <= length s /\ (a = 0 -> length s = b).
Proof.
  intros Hc. revert s; induction Hc as [|ts a b Hc IH|t ts a b Ht Hcov Hc IH]; intros s Hm.
  - inversion Hm. done.
  - apply tok_match_star in Hm as (p & q & -> & Hm%IH). rewrite length_app. lia.
  - apply tok_match_single in Hm as (c & cs & -> & _ & Hm%IH); [|done]. cbn. lia.
Qed.

Lemma uncovered_no_match ts t d n :
  t ∈ ts -> t <> Star -> token_matches_one t d = false -> ~ tok_match ts (replicate n d).
Proof.
  intros Hin Ht Hd Hm. remember (replicate n d) as s eqn:Es.
  assert (Hs : Forall (fun c => c = d) s) by (subst; by apply Forall_replicate).
  clear Es. induction Hm as [|t' ts c cs Hc Hm IH|ts cs Hm IH|ts c cs Hm IH].
  - by apply not_elem_of_nil in Hin.
  - inversion Hs; subst. apply elem_of_cons in Hin as [<-|Hin]; [congruence|auto].
  - apply elem_of_cons in Hin as [?|Hin]; [done|auto].
  - inversion Hs; subst. auto.
Qed.
End every_nonempty.

Lemma every_nonempty_sound g alphabet :
  matches_every_nonempty_over g alphabet = true ->
  forall s, s <> [] -> over alphabet s -> glob_matches g s = true.
Proof.
  unfold matches_every_nonempty_over, glob_matches. setoid_rewrite match_tokens_iff.
  destruct alphabet as [|d al] eqn:Eal; [done|]. rewrite <- Eal in *.
  destruct (count_tokens alphabet (glob_tokens g) 0 0) as [[a b]|] eqn:E; [|done].
  apply count_tokens_some in E as (i & j & Hc & -> & ->).
  rewrite andb_true_iff, Nat.ltb_lt, Nat.leb_le. intros [Hi Hj] s Hs Ho.
  eapply counted_matches; eauto. destruct s; [done|cbn; lia].
Qed.

(** Two characters are enough to tell. *)
Lemma every_nonempty_complete g alphabet :
  alphabet <> [] ->
  (forall s, s <> [] -> over alphabet s -> length s <= 2 -> glob_matches g s = true) ->
  matches_every_nonempty_over g alphabet = true.
Proof.
  intros Ha. unfold matches_every_nonempty_over, glob_matches.
  setoid_rewrite match_tokens_iff.
  destruct alphabet as [|d al] eqn:Eal; [done|]. rewrite <- Eal in *. clear Ha.
  assert (Hd : d ∈ alphabet) by (subst; left).
  destruct (count_tokens alphabet (glob_tokens g) 0 0) as [[a b]|] eqn:E.
  - apply count_tokens_some in E as (i & j & Hc & -> & ->).
    rewrite andb_true_iff, Nat.ltb_lt, Nat.leb_le. intros H.
    assert (Hrep : forall n, 0 < n <= 2 -> j <= n /\ (i = 0 -> n = j)).
    { intros n Hn. rewrite <- (length_replicate n d) at 1 2.
      eapply counted_length; [done|]. apply H; [destruct n; [lia|done]| |].
      - by apply Forall_replicate.
      - rewrite length_replicate. lia. }
    destruct (Hrep 1), (Hrep 2); lia.
  - intros H. apply count_tokens_none in E as (t & c & Hin & Ht & Hc & Hf).
    destruct (uncovered_no_match (glob_tokens g) t c 1 Hin Ht Hf).
    apply H; [done| |cbn; lia]. by apply Forall_replicate.
Qed.

Lemma every_nonempty_iff g alphabet :
  alphabet <> [] ->
  matches_every_nonempty_over g alphabet = true <->
  (forall s, s <> [] -> over alphabet s -> glob_matches g s = true).
Proof.
  intros Ha. split; [apply every_nonempty_sound|]. intros H.
  apply every_nonempty_complete; auto.
Qed.

(** ** A literal end of a pattern *)

(** A set closes at a bracket of the pattern. *)
Lemma parse_class_bracket cs token next :
  parse_class cs = Some (token, next) -> exists pre, cs = pre ++ ch "]" :: next.
Proof.
  unfold parse_class. intros H.
  set (n := match cs with c :: cs' => if N.eqb c 33 then (true, cs') else (false, cs)
                        | [] => (false, cs) end) in H.
  assert (Hn : exists p, cs = p ++ n.2).
  { subst n; destruct cs as [|c cs]; [by exists []|].
    destruct (N.eqb c 33); [by exists [c]|by exists []]. }
  destruct n as [neg j], Hn as [p ->]. cbn [snd] in *.
  set (f := match j with c :: cs' => if N.eqb c 93 then ([c], cs') else ([], j)
                       | [] => ([], j) end) in H.
  assert (Hf : exists q, j = q ++ f.2).
  { subst f; destruct j as [|c j]; [by exists []|].
    destruct (N.eqb c 93); [by exists [c]|by exists []]. }
  destruct f as [first j'], Hf as [q ->]. cbn [snd] in *.
  destruct (span_to_bracket j') as [body rest] eqn:E.
  destruct rest as [|b rest]; [done|]. injection H as _ <-.
  assert (b = ch "]") as ->.
  { clear p q. revert body E. induction j' as [|c j' IH]; intros body E; [done|]. cbn in E.
    destruct (N.eqb_spec c 93) as [->|]; [by injection E|].
    destruct (span_to_bracket j') as [b' r'] eqn:E'. injection E as <- ->. by apply (IH b'). }
  apply span_to_bracket_length in E as ->.
  exists (p ++ q ++ body). by rewrite <- !app_assoc.
Qed.

(** Characters a pattern takes literally, wherever they stand at its end. *)
Definition glob_plain (c : char) : Prop :=
  c <> ch "*" /\ c <> ch "?" /\ c <> ch "[" /\ c <> ch "]".

Lemma compile_loop_plain w fuel acc :
  Forall glob_plain w -> length w <= fuel ->
  compile_loop fuel w acc = rev acc ++ map Literal w.
Proof.
  intros Hw. revert fuel acc; induction Hw as [|c w (H1 & H2 & H3 & _) _ IH];
    intros fuel acc Hf; destruct fuel as [|fuel]; cbn in Hf; try lia;
    try (by cbn; rewrite app_nil_r).
  cbn [compile_loop]. rewrite !(proj2 (N.eqb_neq _ _)) by done.
  rewrite IH by lia. cbn. by rewrite <- app_assoc.
Qed.

Lemma compile_loop_suffix w fuel l acc :
  Forall glob_plain w -> length (l ++ w) <= fuel ->
  exists ts, compile_loop fuel (l ++ w) acc = ts ++ map Literal w.
Proof.
  intros Hw. revert fuel acc. remember (length l) as n eqn:Hn.
  revert l Hn. induction n as [n IH] using lt_wf_ind. intros l -> fuel acc Hf.
  destruct l as [|c l].
  { exists (rev acc). by apply compile_loop_plain. }
  destruct fuel as [|fuel]; cbn in Hf; [lia|]. cbn [app compile_loop].
  destruct (N.eqb c 42); [apply (IH (length l)); cbn; auto with lia|].
  destruct (N.eqb c 63); [apply (IH (length l)); cbn; auto with lia|].
  destruct (N.eqb c 91); [|apply (IH (length l)); cbn; auto with lia].
  destruct (parse_class (l ++ w)) as [[token next]|] eqn:E;
    [|apply (IH (length l)); cbn; auto with lia].
  apply parse_class_bracket in E as [pre E].
  assert (exists l', l = pre ++ ch "]" :: l' /\ next = l' ++ w) as (l' & -> & ->).
  { apply app_eq_app in E as [k [[-> E]|[-> E]]].
    - destruct k as [|b k].
      + cbn in E. subst w. inversion Hw as [|? ? (_ & _ & _ & Hb)]; subst. by destruct Hb.
      + injection E as -> ->. by exists k.
    - exfalso. subst w. rewrite Forall_app in Hw. destruct Hw as [_ Hw].
      inversion Hw as [|? ? (_ & _ & _ & Hb)]; subst. by destruct Hb. }
  rewrite !length_app in Hf. cbn in Hf.
  apply (IH (length l')); [cbn; rewrite length_app; cbn; lia|done|rewrite length_app; lia].
Qed.

Lemma tok_match_app ts us text :
  tok_match (ts ++ us) text ->
  exists a b, text = a ++ b /\ tok_match us b.
Proof.
  intros H. remember (ts ++ us) as l eqn:El. revert ts El.
  induction H as [|t ts0 c cs Ht H IH|ts0 cs H IH|ts0 c cs H IH]; intros ts El.
  - symmetry in El. apply app_eq_nil in El as [-> ->]. exists [], []. by split; [|constructor].
  - destruct ts as [|t' ts]; cbn in El.
    + exists [], (c :: cs). rewrite <- El. by split; [|constructor].
    + injection El as <- ->. destruct (IH _ eq_refl) as (a & b & -> & ?).
      by exists (c :: a), b.
  - destruct ts as [|t' ts]; cbn in El.
    + exists [], cs. rewrite <- El. by split; [|constructor].
    + injection El as <- ->. by apply (IH ts).
  - destruct ts as [|t' ts]; cbn in El.
    + exists [], (c :: cs). rewrite <- El. by split; [|apply tm_eat].
    + destruct (IH (t' :: ts) El) as (a & b & -> & ?). by exists (c :: a), b.
Qed.

(** Text that matches a pattern ending in plain characters ends in them. *)
Lemma fnmatch_plain_suffix text l w :
  Forall glob_plain w -> fnmatch text (l ++ w) = true -> exists p, text = p ++ w.
Proof.
  intros Hw H. unfold fnmatch, glob_matches in H. apply match_tokens_iff in H.
  unfold Glob_new, compile in H. cbn [glob_tokens] in H.
  destruct (compile_loop_suffix w (length (l ++ w)) l [] Hw) as [ts Hts]; [done|].
  rewrite Hts in H. apply tok_match_app in H as (a & b & -> & H).
  apply (tok_match_literals _ w) in H as ->; [by exists a|].
  clear. induction w as [|c w IH]; cbn; [done|]. by rewrite IH.
Qed.

(** ** Properties *)

(** The greedy matcher always returns within its fuel, and what it
    returns is whether the text belongs to the pattern's language. *)
Theorem match_tokens_decides tokens text :
  match_loop (match_fuel tokens text) tokens text None = Some (match_tokens tokens text) /\
  (match_tokens tokens text = true <-> tok_match tokens text).
Proof.
  unfold match_tokens. destruct (match_loop_fuel tokens text) as (b & -> & ?). done.
Qed.

(** The pattern [escape text] matches [text] and nothing else, and
    [literal_text] recovers [text] from it. *)
Theorem escape_exact text t :
  (fnmatch t (escape text) = true <-> t = text) /\
  literal_text (Glob_new (escape text)) = Some text.
Proof. split; [apply fnmatch_escape_iff|auto with agentauth]. Qed.

(** When [literal_text] gives a text, it is the one the pattern matches. *)
Theorem literal_text_only g s t :
  literal_text g = Some s -> (glob_matches g t = true <-> t = s).
Proof.
  intros H. unfold glob_matches. rewrite match_tokens_iff. by apply tok_match_literals.
Qed.

Lemma literal_text_only_witness :
  literal_text (Glob_new (lit "a[*]b")) = Some (lit "a*b") /\
  (glob_matches (Glob_new (lit "a[*]b")) (lit "a*b") = true <-> lit "a*b" = lit "a*b").
Proof.
  split; [vm_compute; reflexivity|].
  apply literal_text_only. vm_compute. reflexivity.
Defined.

(** [matches_every_nonempty_over] is exact: it holds just when the
    alphabet is not empty and the glob matches every non-empty text over it. *)
Theorem matches_every_nonempty_over_exact g alphabet :
  matches_every_nonempty_over g alphabet = true <->
  alphabet <> [] /\ forall s, s <> [] -> over alphabet s -> glob_matches g s = true.
Proof.
  destruct alphabet as [|c al]; [split; [done|by intros []]|].
  rewrite every_nonempty_iff by done. naive_solver.
Qed.
