(* ===== verification/Pyfmt.v ===== *)
(** Python's text renderings ([crates/core/src/pyfmt.rs]): [repr],
    [json.dumps] of a string, [shlex.quote], all display-safe; and the two
    renderings of untrusted text inside a model's prompt
    ([crates/core/src/prompt.rs]). A small shell-word reader and a reader of
    Python's escapes are the references the quoting functions are inverse to. *)

From S2P Require Import Prelude.
From stdpp Require Import options.
Local Open Scope N_scope.

(** ** Hexadecimal *)

Definition hex_digit (d : N) : char := if d <? 10 then ch "0" + d else ch "a" + (d - 10).

(** [{:0kx}] of a number below [16^k]: exactly [k] lowercase digits. *)
Fixpoint hex_fixed (k : nat) (n : N) : str :=
  match k with
  | O => []
  | S k' => hex_fixed k' (n / 16) ++ [hex_digit (n mod 16)]
  end.

Definition hex_value (c : char) : option N :=
  if in_range (ch "0") (ch "9") c then Some (c - ch "0")
  else if in_range (ch "a") (ch "f") c then Some (c - ch "a" + 10)
  else None.

(** ** What may be shown *)

Definition is_format_char (n : char) : bool :=
  (n =? 0xad) || in_range 0x600 0x605 n || (n =? 0x61c) || (n =? 0x6dd)
  || (n =? 0x70f) || (n =? 0x180e) || in_range 0x200b 0x200f n
  || in_range 0x202a 0x202e n || in_range 0x2060 0x206f n || (n =? 0xfeff)
  || in_range 0xfff9 0xfffb n || (n =? 0xe0001) || in_range 0xe0020 0xe007f n
  || (n =? 0x34f) || (n =? 0x115f) || (n =? 0x1160) || (n =? 0x3164)
  || (n =? 0xffa0).

Definition is_private_use (n : char) : bool :=
  in_range 0xe000 0xf8ff n || in_range 0xf0000 0x10ffff n.

Definition is_printable (c : char) : bool :=
  negb (is_control c || (is_whitespace c && negb (c =? ch " "))
        || is_format_char c || is_private_use c).

Definition is_display_safe (c : char) : bool :=
  if is_ascii c then in_range (ch " ") (ch "~") c else is_printable c.

(** ** Escapes *)

Definition backslash : char := 92.
Definition dquote : char := 34.
Definition squote : char := 39.

Definition push_python_escape (c : char) : str :=
  if c <=? 0xff then [backslash; ch "x"] ++ hex_fixed 2 c
  else if c <=? 0xffff then [backslash; ch "u"] ++ hex_fixed 4 c
  else [backslash; ch "U"] ++ hex_fixed 8 c.

Definition repr_quote (s : str) : char :=
  if elem_b squote s && negb (elem_b dquote s) then dquote else squote.

Definition repr_char (quote c : char) : str :=
  if c =? backslash then [backslash; backslash]
  else if c =? 9 then [backslash; ch "t"]
  else if c =? 10 then [backslash; ch "n"]
  else if c =? 13 then [backslash; ch "r"]
  else if c =? quote then [backslash; c]
  else if (c <? ch " ") || (c =? 0x7f) then [backslash; ch "x"] ++ hex_fixed 2 c
  else if is_ascii c then [c]
  else if is_printable c then [c]
  else push_python_escape c.

Definition repr (s : str) : str :=
  let quote := repr_quote s in
  [quote] ++ flat_map (repr_char quote) s ++ [quote].

Definition escape_unprintable_char (c : char) : str :=
  if c =? backslash then [backslash; backslash]
  else if c =? 9 then [backslash; ch "t"]
  else if c =? 10 then [backslash; ch "n"]
  else if c =? 13 then [backslash; ch "r"]
  else if is_display_safe c then [c]
  else push_python_escape c.

Definition escape_unprintable (s : str) : str :=
  if forallb (fun c => is_display_safe c && negb (c =? backslash)) s then s
  else flat_map escape_unprintable_char s.

(** [char::encode_utf16]. *)
Definition encode_utf16 (c : char) : list N :=
  if c <? 0x10000 then [c]
  else [0xD800 + (c - 0x10000) / 0x400; 0xDC00 + (c - 0x10000) mod 0x400].

Definition json_char (c : char) : str :=
  if c =? dquote then [backslash; dquote]
  else if c =? backslash then [backslash; backslash]
  else if c =? 10 then [backslash; ch "n"]
  else if c =? 13 then [backslash; ch "r"]
  else if c =? 9 then [backslash; ch "t"]
  else if c =? 8 then [backslash; ch "b"]
  else if c =? 12 then [backslash; ch "f"]
  else if in_range (ch " ") (ch "~") c then [c]
  else flat_map (fun unit => [backslash; ch "u"] ++ hex_fixed 4 unit) (encode_utf16 c).

Definition push_json_str (s : str) : str := [dquote] ++ flat_map json_char s ++ [dquote].
Definition json_str (s : str) : str := push_json_str s.

Fixpoint json_entries (first : bool) (entries : list (str * str)) : str :=
  match entries with
  | [] => []
  | (k, v) :: es =>
      (if first then [] else lit ", ") ++ push_json_str k ++ lit ": "
        ++ push_json_str v ++ json_entries false es
  end.
Definition json_str_map (entries : list (str * str)) : str :=
  lit "{" ++ json_entries true entries ++ lit "}".

(** ** Shell quoting *)

Definition ansi_c_char (c : char) : str :=
  if c =? backslash then [backslash; backslash]
  else if c =? squote then [backslash; squote]
  else if c =? 9 then [backslash; ch "t"]
  else if c =? 10 then [backslash; ch "n"]
  else if c =? 13 then [backslash; ch "r"]
  else if is_display_safe c then [c]
  else if is_ascii c then [backslash; ch "x"] ++ hex_fixed 2 c
  else if c <=? 0xffff then [backslash; ch "u"] ++ hex_fixed 4 c
  else [backslash; ch "U"] ++ hex_fixed 8 c.

Definition ansi_c_quote (s : str) : str :=
  [ch "$"; squote] ++ flat_map ansi_c_char s ++ [squote].

Definition shlex_safe (c : char) : bool :=
  is_ascii_alphanumeric c || elem_b c (lit "_@%+=:,./-").

(** [s.replace('\'', "'\"'\"'")], one character. *)
Definition squote_char (c : char) : str :=
  if c =? squote then [squote; dquote; squote; dquote; squote] else [c].

Definition shlex_quote (s : str) : str :=
  match s with
  | [] => [squote; squote]
  | _ =>
      if negb (forallb is_display_safe s) then ansi_c_quote s
      else if forallb shlex_safe s then s
      else [squote] ++ flat_map squote_char s ++ [squote]
  end.

Definition shlex_join (args : list str) : str := join [ch " "] (map shlex_quote args).

(** ** Untrusted text in a prompt ([prompt.rs]) *)

Definition ANGLES : list char :=
  [ch "<"; ch ">"; 0xFF1C; 0xFF1E; 0xFE64; 0xFE65; 0x2039; 0x203A; 0x3008;
   0x3009; 0x27E8; 0x27E9; 0x2329; 0x232A; 0x276C; 0x276D; 0x29FC;
   0x29FD; 0x02C2; 0x02C3; 0x1438; 0x1433].

Definition angle (c : char) : bool := elem_b c ANGLES.

Definition hex_upper_digit (d : N) : char := if d <? 10 then ch "0" + d else ch "A" + (d - 10).

(** [{:X}]: no leading zero; five digits hold every character. *)
Fixpoint hex_upper (fuel : nat) (n : N) : str :=
  match fuel with
  | O => []
  | S f => (if n <? 16 then [] else hex_upper f (n / 16)) ++ [hex_upper_digit (n mod 16)]
  end.

Definition inert_text_char (c : char) : str :=
  if c =? ch "&" then lit "&amp;"
  else if c =? ch "<" then lit "&lt;"
  else if c =? ch ">" then lit "&gt;"
  else if angle c then lit "&#x" ++ hex_upper 6 c ++ lit ";"
  else [c].
Definition inert_text (text : str) : str := flat_map inert_text_char text.

Definition inert_json_char (c : char) : str :=
  if angle c then [backslash; ch "u"] ++ hex_fixed 4 c else [c].
Definition inert_json (json : str) : str := flat_map inert_json_char json.

(** ** References: what a shell and a Python reader make of the text *)

Fixpoint take_hex (k : nat) (s : str) (acc : N) : option (N * str) :=
  match k with
  | O => Some (acc, s)
  | S k' =>
      match s with
      | [] => None
      | c :: s' => d ← hex_value c; take_hex k' s' (acc * 16 + d)
      end
  end.

(** One escape after its backslash, as bash's [$'...'] and Python read it. *)
Definition read_escape (s : str) : option (char * str) :=
  match s with
  | [] => None
  | e :: rest =>
      if (e =? backslash) || (e =? squote) || (e =? dquote) then Some (e, rest)
      else if e =? ch "t" then Some (9, rest)
      else if e =? ch "n" then Some (10, rest)
      else if e =? ch "r" then Some (13, rest)
      else if e =? ch "x" then take_hex 2 rest 0
      else if e =? ch "u" then take_hex 4 rest 0
      else if e =? ch "U" then take_hex 8 rest 0
      else None
  end.

(** Text with backslash escapes up to [close] (its end when [None]): the
    characters read and what follows the closing quote. *)
Fixpoint read_escaped (fuel : nat) (close : option char) (s : str) : option (str * str) :=
  match fuel with
  | O => None
  | S f =>
      match s with
      | [] => match close with None => Some ([], []) | Some _ => None end
      | c :: rest =>
          if bool_decide (close = Some c) then Some ([], rest)
          else if c =? backslash then
            '(x, rest') ← read_escape rest;
            '(xs, r) ← read_escaped f close rest';
            Some (x :: xs, r)
          else
            '(xs, r) ← read_escaped f close rest;
            Some (c :: xs, r)
      end
  end.

(** Everything up to a quote, taken literally. *)
Fixpoint read_until (q : char) (s : str) : option (str * str) :=
  match s with
  | [] => None
  | c :: rest =>
      if c =? q then Some ([], rest)
      else '(xs, r) ← read_until q rest; Some (c :: xs, r)
  end.

(** A shell word: unquoted safe characters, ['...'], ["..."] without
    expansions, [$'...'], concatenated. *)
Fixpoint sh_word (fuel : nat) (s : str) : option str :=
  match fuel with
  | O => None
  | S f =>
      match s with
      | [] => Some []
      | c :: rest =>
          if c =? squote then
            '(a, r) ← read_until squote rest; b ← sh_word f r; Some (a ++ b)
          else if c =? dquote then
            '(a, r) ← read_until dquote rest;
            if existsb (fun x => (x =? backslash) || (x =? ch "$") || (x =? 96)) a
            then None else b ← sh_word f r; Some (a ++ b)
          else if (c =? ch "$") then
            match rest with
            | q :: rest' =>
                if q =? squote then
                  '(a, r) ← read_escaped f (Some squote) rest'; b ← sh_word f r; Some (a ++ b)
                else None
            | [] => None
            end
          else if shlex_safe c then b ← sh_word f rest; Some (c :: b)
          else None
      end
  end.

(** ** Hexadecimal, written and read *)

Lemma hex_digit_value d : d < 16 -> hex_value (hex_digit d) = Some d.
Proof.
  intros Hd. unfold hex_value, hex_digit, in_range.
  destruct (N.ltb_spec d 10).
  - replace (48 <=? 48 + d) with true by (symmetry; apply N.leb_le; lia).
    replace (48 + d <=? 57) with true by (symmetry; apply N.leb_le; lia).
    cbn [andb]. f_equal. lia.
  - replace (97 + (d - 10) <=? 57) with false by (symmetry; apply N.leb_gt; lia).
    rewrite andb_false_r.
    replace (97 <=? 97 + (d - 10)) with true by (symmetry; apply N.leb_le; lia).
    replace (97 + (d - 10) <=? 102) with true by (symmetry; apply N.leb_le; lia).
    cbn [andb]. f_equal. lia.
Qed.

Lemma take_hex_snoc k s acc :
  take_hex (S k) s acc = '(a, r) ← take_hex k s acc; take_hex 1 r a.
Proof.
  revert s acc; induction k as [|k IH]; intros s acc; [done|].
  destruct s as [|c s]; [done|].
  change (take_hex (S (S k)) (c :: s) acc)
with (d ← hex_value c; take_hex (S k) s (acc * 16 + d)).
change (take_hex (S k) (c :: s) acc)
with (d ← hex_value c; take_hex k s (acc * 16 + d)).
destruct (hex_value c) as [d|]; [|done]. cbn [mbind option_bind]. apply IH.
Qed.

Lemma take_hex_fixed k n s acc :
  n < 16 ^ N.of_nat k ->
  take_hex k (hex_fixed k n ++ s) acc = Some (acc * 16 ^ N.of_nat k + n, s).
Proof.
  revert n s acc; induction k as [|k IH]; intros n s acc Hn.
  - cbn in *. do 2 f_equal. lia.
  - rewrite take_hex_snoc. cbn [hex_fixed]. rewrite <- app_assoc.
    rewrite Nat2N.inj_succ, N.pow_succ_r' in *.
    rewrite IH by (apply N.Div0.div_lt_upper_bound; lia). cbn [mbind option_bind].
    cbn [app take_hex]. pose proof (N.mod_lt n 16).
    rewrite hex_digit_value by lia. cbn [mbind option_bind].
    do 2 f_equal. pose proof (N.div_mod n 16). lia.
Qed.

(** Characters of a rendering, by class. *)
Definition hex_char (c : char) : bool :=
  in_range (ch "0") (ch "9") c || in_range (ch "a") (ch "f") c.

Lemma hex_digit_char d : d < 16 -> hex_char (hex_digit d) = true.
Proof.
  intros Hd. pose proof (hex_digit_value d Hd) as H. unfold hex_value in H.
  unfold hex_char. destruct (in_range 48 57 _); [done|].
  by destruct (in_range 97 102 _).
Qed.

Lemma hex_fixed_chars k n : Forall (fun c => hex_char c = true) (hex_fixed k n).
Proof.
  revert n; induction k as [|k IH]; intros n; cbn; [done|].
  apply Forall_app; split; [done|]. constructor; [|done].
  apply hex_digit_char, N.mod_lt. lia.
Qed.

Lemma in_range_true lo hi c : in_range lo hi c = true <-> lo <= c /\ c <= hi.
Proof. unfold in_range. rewrite andb_true_iff, !N.leb_le. done. Qed.

Lemma hex_char_ascii_printable c : hex_char c = true -> 33 <= c /\ c <= 126 /\ c <> 92 /\ c <> 39 /\ c <> 34.
Proof. unfold hex_char. rewrite orb_true_iff, !in_range_true. lia. Qed.

Lemma ascii_safe c : 32 <= c -> c <= 126 -> is_display_safe c = true.
Proof.
  intros. unfold is_display_safe, is_ascii.
  replace (c <? 128) with true by (symmetry; apply N.ltb_lt; lia).
  apply in_range_true. lia.
Qed.

Definition all_safe (s : str) : Prop := Forall (fun c => is_display_safe c = true) s.

Lemma all_safe_hex k n : all_safe (hex_fixed k n).
Proof.
  eapply Forall_impl; [apply hex_fixed_chars|]. cbn.
  intros c Hc%hex_char_ascii_printable. apply ascii_safe; lia.
Qed.

Lemma all_safe_app a b : all_safe (a ++ b) <-> all_safe a /\ all_safe b.
Proof. apply Forall_app. Qed.

Lemma all_safe_cons c s : is_display_safe c = true -> all_safe s -> all_safe (c :: s).
Proof. by constructor. Qed.

Lemma all_safe_nil : all_safe [].
Proof. constructor. Qed.

Lemma all_safe_flat_map {A} (f : A -> str) (s : list A) :
  (forall c, all_safe (f c)) -> all_safe (flat_map f s).
Proof. intros H. induction s; cbn; [constructor|]. by apply all_safe_app. Qed.

#[export] Hint Resolve all_safe_hex all_safe_nil : agentauth.

(** Close [all_safe] of a list of printable literals and hex digits. *)
Ltac safe_text :=
  repeat first
    [ done | apply all_safe_hex | apply all_safe_nil
    | apply all_safe_app; split
    | apply all_safe_cons; [first [done | assumption]|] ].

Lemma push_python_escape_safe c : all_safe (push_python_escape c).
Proof. unfold push_python_escape. repeat case_match; safe_text. Qed.
#[export] Hint Resolve push_python_escape_safe : agentauth.

Lemma repr_char_safe q c : is_display_safe q = true -> all_safe (repr_char q c).
Proof.
  intros Hq. unfold repr_char.
  destruct (N.eqb_spec c backslash); [safe_text|].
  destruct (N.eqb_spec c 9); [safe_text|]. destruct (N.eqb_spec c 10); [safe_text|].
  destruct (N.eqb_spec c 13); [safe_text|]. destruct (N.eqb_spec c q); [subst; safe_text|].
  destruct ((c <? 32) || (c =? 127)) eqn:E; [safe_text|].
  apply orb_false_iff in E as [E1%N.ltb_ge E2%N.eqb_neq].
  destruct (is_ascii c) eqn:E3.
  - apply N.ltb_lt in E3. apply all_safe_cons; [apply ascii_safe; lia|constructor].
  - destruct (is_printable c) eqn:E4; [|auto with agentauth].
    apply all_safe_cons; [unfold is_display_safe; by rewrite E3|constructor].
Qed.

Lemma ansi_c_char_safe c : all_safe (ansi_c_char c).
Proof. unfold ansi_c_char. repeat case_match; safe_text. Qed.

Lemma escape_unprintable_char_safe c : all_safe (escape_unprintable_char c).
Proof. unfold escape_unprintable_char. repeat case_match; safe_text; auto with agentauth. Qed.

Lemma json_char_safe c : all_safe (json_char c).
Proof.
  unfold json_char. do 7 (case_match; [safe_text|]).
  destruct (in_range 32 126 c) eqn:E.
  - apply in_range_true in E as []. apply all_safe_cons; [by apply ascii_safe|constructor].
  - apply all_safe_flat_map. intros u. safe_text.
Qed.

Lemma push_json_str_safe s : all_safe (push_json_str s).
Proof.
  unfold push_json_str. safe_text. apply all_safe_flat_map, json_char_safe.
Qed.
#[export] Hint Resolve ansi_c_char_safe json_char_safe escape_unprintable_char_safe
  push_json_str_safe : agentauth.

Lemma repr_safe s : all_safe (repr s).
Proof.
  assert (is_display_safe (repr_quote s) = true) by (unfold repr_quote; by case_match).
  unfold repr. safe_text. apply all_safe_flat_map. intros. by apply repr_char_safe.
Qed.

Lemma shlex_quote_safe s : all_safe (shlex_quote s).
Proof.
  unfold shlex_quote. destruct s as [|c s]; [safe_text|].
  set (w := c :: s). clearbody w. destruct (forallb is_display_safe w) eqn:E; cbn [negb].
  - assert (all_safe w) as Hw.
    { apply Forall_forall. intros x Hx. by apply (proj1 (forallb_elem _ _) E). }
    destruct (forallb shlex_safe w); [done|]. safe_text. clear E.
    induction Hw as [|x w' Hx _ IH]; cbn; [constructor|].
    apply all_safe_app; split; [|done]. unfold squote_char. case_match; safe_text.
  - unfold ansi_c_quote. safe_text. apply all_safe_flat_map, ansi_c_char_safe.
Qed.

Lemma shlex_join_safe args : all_safe (shlex_join args).
Proof.
  unfold shlex_join. induction args as [|a args IH]; cbn; [constructor|].
  destruct args as [|b args]; [apply shlex_quote_safe|].
  cbn in *. apply all_safe_app; split; [apply shlex_quote_safe|].
  apply all_safe_cons; [done|exact IH].
Qed.

(** ** Reading a rendering back *)

(** A character's rendering is itself (and then not an escape, nor the
    closing quote), or a backslash and an escape that reads as it. *)
Definition reads_as (close : option char) (f : char -> str) (c : char) : Prop :=
  (f c = [c] /\ c <> backslash /\ close <> Some c) \/
  exists e, f c = backslash :: e /\ forall s, read_escape (e ++ s) = Some (c, s).

Lemma read_escaped_map close f s tail r fuel :
  close <> Some backslash ->
  Forall (reads_as close f) s ->
  match close with Some q => tail = q :: r | None => tail = [] /\ r = [] end ->
  (length (flat_map f s) < fuel)%nat ->
  read_escaped fuel close (flat_map f s ++ tail) = Some (s, r).
Proof.
  intros Hcl Hs Ht. revert fuel; induction Hs as [|c s Hc _ IH]; intros fuel Hf.
  - destruct fuel as [|fuel]; [lia|]. cbn [flat_map app].
    destruct close as [q|]; [subst|destruct Ht as [-> ->]; done].
    cbn. by rewrite bool_decide_true.
  - cbn [flat_map] in *. rewrite length_app in Hf.
    destruct fuel as [|fuel]; [lia|].
    destruct Hc as [(Hfc & Hb & Hq)|(e & Hfc & He)]; rewrite Hfc in *; cbn in Hf |- *.
    + rewrite bool_decide_false by done. destruct (N.eqb_spec c backslash); [done|].
      rewrite IH by lia. done.
    + rewrite bool_decide_false by done. rewrite <- app_assoc, He. cbn.
      rewrite IH by lia. done.
Qed.

Lemma reads_hex close f c e k :
  f c = [backslash; e] ++ hex_fixed k c ->
  (forall s, read_escape (e :: s) = take_hex k s 0) ->
  c < 16 ^ N.of_nat k -> reads_as close f c.
Proof.
  intros Hf He Hc. right. exists (e :: hex_fixed k c). split; [done|].
  intros s. cbn [app]. rewrite He, take_hex_fixed by done. done.
Qed.

Ltac reads_simple :=
  right; eexists [_]; split; [reflexivity | done].

Lemma ansi_c_reads c : is_scalar c = true -> reads_as (Some squote) ansi_c_char c.
Proof.
  intros Hc%is_scalar_bound. unfold reads_as, ansi_c_char.
  destruct (N.eqb_spec c backslash) as [->|]; [reads_simple|].
  destruct (N.eqb_spec c squote) as [->|]; [reads_simple|].
  destruct (N.eqb_spec c 9) as [->|]; [reads_simple|].
  destruct (N.eqb_spec c 10) as [->|]; [reads_simple|].
  destruct (N.eqb_spec c 13) as [->|]; [reads_simple|].
  destruct (is_display_safe c); [left; split_and!; congruence|].
  destruct (is_ascii c) eqn:Ea; [|destruct (N.leb_spec c 0xffff)].
  - apply N.ltb_lt in Ea.
    eapply (reads_hex _ (fun c => _) c (ch "x") 2); [done|done|cbn; lia].
  - eapply (reads_hex _ (fun c => _) c (ch "u") 4); [done|done|cbn; lia].
  - eapply (reads_hex _ (fun c => _) c (ch "U") 8); [done|done|cbn; lia].
Qed.

Lemma push_python_escape_reads close c :
  c < 0x110000 -> reads_as close push_python_escape c.
Proof.
  intros Hc. unfold reads_as, push_python_escape.
  destruct (N.leb_spec c 0xff); [|destruct (N.leb_spec c 0xffff)].
  - eapply (reads_hex _ (fun c => _) c (ch "x") 2); [done|done|cbn; lia].
  - eapply (reads_hex _ (fun c => _) c (ch "u") 4); [done|done|cbn; lia].
  - eapply (reads_hex _ (fun c => _) c (ch "U") 8); [done|done|cbn; lia].
Qed.

Lemma repr_reads q c :
  q = squote \/ q = dquote -> is_scalar c = true -> reads_as (Some q) (repr_char q) c.
Proof.
  intros Hq Hc%is_scalar_bound. unfold reads_as, repr_char.
  destruct (N.eqb_spec c backslash) as [->|]; [reads_simple|].
  destruct (N.eqb_spec c 9) as [->|]; [reads_simple|].
  destruct (N.eqb_spec c 10) as [->|]; [reads_simple|].
  destruct (N.eqb_spec c 13) as [->|]; [reads_simple|].
  destruct (N.eqb_spec c q) as [->|]; [destruct Hq; subst; reads_simple|].
  destruct ((c <? 32) || (c =? 127)) eqn:E.
  - eapply (reads_hex _ (fun c => _) c (ch "x") 2); [done|done|].
    apply orb_true_iff in E as [E%N.ltb_lt|E%N.eqb_eq]; cbn; lia.
  - destruct (is_ascii c); [left; split_and!; congruence|].
    destruct (is_printable c); [left; split_and!; congruence|].
    by apply push_python_escape_reads.
Qed.

Lemma escape_unprintable_reads c :
  is_scalar c = true -> reads_as None escape_unprintable_char c.
Proof.
  intros Hc%is_scalar_bound. unfold reads_as, escape_unprintable_char.
  destruct (N.eqb_spec c backslash) as [->|]; [reads_simple|].
  destruct (N.eqb_spec c 9) as [->|]; [reads_simple|].
  destruct (N.eqb_spec c 10) as [->|]; [reads_simple|].
  destruct (N.eqb_spec c 13) as [->|]; [reads_simple|].
  destruct (is_display_safe c); [left; split_and!; congruence|].
  by apply push_python_escape_reads.
Qed.

Lemma repr_read_back s :
  valid_str s ->
  exists q body, repr s = q :: body /\
    read_escaped (S (length body)) (Some q) body = Some (s, []).
Proof.
  intros Hs.
  assert (Hq : repr_quote s = squote \/ repr_quote s = dquote)
    by (unfold repr_quote; case_match; auto).
  exists (repr_quote s), (flat_map (repr_char (repr_quote s)) s ++ [repr_quote s]).
  split; [done|]. apply read_escaped_map.
  - destruct Hq as [-> | ->]; done.
  - eapply Forall_impl; [exact Hs|]. intros c Hc. by apply repr_reads.
  - done.
  - rewrite length_app. cbn. lia.
Qed.

Lemma flat_map_singles (f : char -> str) s :
  Forall (fun c => f c = [c]) s -> flat_map f s = s.
Proof. induction 1 as [|c s Hc _ IH]; cbn; [done|]. by rewrite Hc, IH. Qed.

Lemma escape_unprintable_read_back s :
  valid_str s ->
  read_escaped (S (length (escape_unprintable s))) None (escape_unprintable s) = Some (s, []).
Proof.
  intros Hs.
  assert (Heq : escape_unprintable s = flat_map escape_unprintable_char s).
  { unfold escape_unprintable. case_match eqn:E; [|done].
    symmetry. apply flat_map_singles, Forall_forall. intros c Hc.
    apply (proj1 (forallb_elem _ _) E) in Hc.
    apply andb_true_iff in Hc as [Hc1 Hc2%negb_true_iff].
    unfold escape_unprintable_char. rewrite Hc1, Hc2.
    unfold is_display_safe, is_ascii in Hc1. destruct (N.ltb_spec c 128); cbn in Hc1.
    - apply in_range_true in Hc1.
      replace (c =? 9) with false by (symmetry; apply N.eqb_neq; lia).
      replace (c =? 10) with false by (symmetry; apply N.eqb_neq; lia).
      replace (c =? 13) with false by (symmetry; apply N.eqb_neq; lia). done.
    - replace (c =? 9) with false by (symmetry; apply N.eqb_neq; lia).
      replace (c =? 10) with false by (symmetry; apply N.eqb_neq; lia).
      replace (c =? 13) with false by (symmetry; apply N.eqb_neq; lia). done. }
  rewrite Heq. rewrite <- (app_nil_r (flat_map _ _)) at 2.
  apply read_escaped_map; [done| |done|lia].
  eapply Forall_impl; [exact Hs|]. apply escape_unprintable_reads.
Qed.

(** *** Shell words *)

Lemma sh_word_safe s fuel :
  Forall (fun c => shlex_safe c = true) s -> (length s < fuel)%nat -> sh_word fuel s = Some s.
Proof.
  intros Hs. revert fuel; induction Hs as [|c s Hc _ IH]; intros [|fuel] Hf;
    cbn [length] in *; [lia|done|lia|].
  cbn [sh_word].
  assert (Hne : c <> squote /\ c <> dquote /\ c <> 36).
  { split_and!; intros ->; vm_compute in Hc; done. }
  destruct (N.eqb_spec c squote), (N.eqb_spec c dquote), (N.eqb_spec c 36); try tauto.
  rewrite Hc, IH by lia. done.
Qed.

Lemma sh_word_squote fuel rest :
  sh_word (S fuel) (squote :: rest) =
  '(a, r) ← read_until squote rest; b ← sh_word fuel r; Some (a ++ b).
Proof. reflexivity. Qed.

Lemma sh_word_quoted_quote fuel rest :
  sh_word (S fuel) (dquote :: squote :: dquote :: rest) =
  b ← sh_word fuel rest; Some (squote :: b).
Proof. reflexivity. Qed.

Lemma sh_word_ansi fuel rest :
  sh_word (S fuel) (ch "$" :: squote :: rest) =
  '(a, r) ← read_escaped fuel (Some squote) rest; b ← sh_word fuel r; Some (a ++ b).
Proof. reflexivity. Qed.

Lemma sh_word_single_quoted s :
  exists a b r, read_until squote (flat_map squote_char s ++ [squote]) = Some (a, r) /\
    s = a ++ b /\
    forall fuel, (length (flat_map squote_char s) < fuel)%nat -> sh_word fuel r = Some b.
Proof.
  induction s as [|c s (a & b & r & Hr & -> & Hb)].
  - exists [], [], []. split_and!; [done..|]. intros [|fuel]; [lia|done].
  - cbn [flat_map]. unfold squote_char at 1. destruct (N.eqb_spec c squote) as [->|Hc].
    + exists [], (squote :: a ++ b),
        (dquote :: squote :: dquote :: squote :: flat_map squote_char (a ++ b) ++ [squote]).
      split_and!; [done..|]. intros fuel Hf. unfold squote_char at 1 in Hf. cbn in Hf.
      destruct fuel as [|[|fuel]]; [lia..|].
      rewrite sh_word_quoted_quote, sh_word_squote.
      rewrite Hr. cbn [mbind option_bind]. rewrite Hb by lia. done.
    + exists (c :: a), b, r. split_and!; [|done|].
      * cbn. destruct (N.eqb_spec c squote); [done|]. cbn in Hr. by rewrite Hr.
      * intros fuel Hf. apply Hb. unfold squote_char at 1 in Hf.
        destruct (N.eqb_spec c squote); [done|]. cbn in Hf. lia.
Qed.

Lemma shlex_quote_word s :
  valid_str s -> sh_word (S (length (shlex_quote s))) (shlex_quote s) = Some s.
Proof.
  intros Hv. unfold shlex_quote. destruct s as [|c s]; [done|].
  set (w := c :: s) in *. clearbody w.
  destruct (forallb is_display_safe w); cbn [negb].
  - destruct (forallb shlex_safe w) eqn:E.
    + apply sh_word_safe; [|lia]. apply Forall_forall. by apply forallb_elem.
    + destruct (sh_word_single_quoted w) as (a & b & r & Hr & Hw & Hb).
      cbn [app sh_word]. rewrite N.eqb_refl. rewrite Hr. cbn [mbind option_bind].
      rewrite Hb; [by rewrite Hw|]. cbn. rewrite length_app. cbn. lia.
  - unfold ansi_c_quote.
    cbn [app]. rewrite sh_word_ansi.
    rewrite (read_escaped_map _ _ w [squote] []); [cbn; by rewrite app_nil_r|done| |done|].
    + eapply Forall_impl; [exact Hv|]. apply ansi_c_reads.
    + cbn. rewrite length_app. lia.
Qed.

(** ** Prompts *)

Definition no_angle (s : str) : Prop := Forall (fun c => angle c = false) s.

Lemma hex_upper_digit_range d : d < 16 -> 48 <= hex_upper_digit d <= 70 /\ hex_upper_digit d <> 60 /\ hex_upper_digit d <> 62.
Proof. intros. unfold hex_upper_digit. destruct (N.ltb_spec d 10); lia. Qed.

Lemma no_angle_ascii c : c < 128 -> c <> 60 -> c <> 62 -> angle c = false.
Proof.
  intros. unfold angle, elem_b, ANGLES. cbn [existsb].
  repeat match goal with
  | |- context [N.eqb c ?k] =>
      let H := fresh in assert (H : N.eqb c k = false) by (apply N.eqb_neq; lia);
      rewrite H; clear H
  end. done.
Qed.

Lemma hex_upper_no_angle fuel n : no_angle (hex_upper fuel n).
Proof.
  revert n; induction fuel as [|fuel IH]; intros n; cbn; [constructor|].
  apply Forall_app; split; [case_match; [constructor|apply IH]|].
  constructor; [|constructor]. pose proof (N.mod_lt n 16).
  destruct (hex_upper_digit_range (n mod 16)) as ([] & ? & ?); [lia|].
  apply no_angle_ascii; lia.
Qed.

Lemma hex_fixed_no_angle k n : no_angle (hex_fixed k n).
Proof.
  eapply Forall_impl; [apply hex_fixed_chars|]. cbn. unfold hex_char.
  intros c. rewrite orb_true_iff, !in_range_true. intros. apply no_angle_ascii; lia.
Qed.

Lemma inert_text_no_angle text : no_angle (inert_text text).
Proof.
  unfold inert_text. induction text as [|c text IH]; cbn; [constructor|].
  apply Forall_app; split; [|done]. unfold inert_text_char.
  do 3 (case_match; [by repeat constructor|]).
  case_match; [|by repeat constructor].
  apply Forall_app; split; [by repeat constructor|].
  apply Forall_app; split; [apply hex_upper_no_angle|by repeat constructor].
Qed.

Lemma inert_json_no_angle json : no_angle (inert_json json).
Proof.
  unfold inert_json. induction json as [|c json IH]; cbn; [constructor|].
  apply Forall_app; split; [|done]. unfold inert_json_char.
  case_match; [|by repeat constructor].
  apply Forall_app; split; [by repeat constructor|apply hex_fixed_no_angle].
Qed.

(** ** Properties *)

(** Every rendering an approver reads is display-safe: no control,
    bidirectional or invisible character survives in [repr], [json_str],
    [escape_unprintable], [shlex_quote] or [shlex_join]. *)
Theorem renderings_display_safe s args :
  all_safe (repr s) /\ all_safe (json_str s) /\ all_safe (escape_unprintable s) /\
  all_safe (shlex_quote s) /\ all_safe (shlex_join args).
Proof.
  split_and!; [apply repr_safe|apply push_json_str_safe| |apply shlex_quote_safe
    |apply shlex_join_safe].
  unfold escape_unprintable. destruct (forallb _ s) eqn:E.
  - apply Forall_forall. intros c Hc. apply (proj1 (forallb_elem _ _) E) in Hc. by bools.
  - apply all_safe_flat_map, escape_unprintable_char_safe.
Qed.

(** The word a shell reads from [shlex_quote s] is [s]: the command an
    approver is shown is the command that runs. *)
Theorem shlex_quote_reads_back s :
  valid_str s -> sh_word (S (length (shlex_quote s))) (shlex_quote s) = Some s.
Proof. apply shlex_quote_word. Qed.

Lemma shlex_quote_reads_back_witness :
  valid_str (lit "it's" ++ [10%N]) /\
  sh_word (S (length (shlex_quote (lit "it's" ++ [10%N])))) (shlex_quote (lit "it's" ++ [10%N]))
  = Some (lit "it's" ++ [10%N]).
Proof.
  assert (H : valid_str (lit "it's" ++ [10%N])) by (repeat constructor).
  split; [exact H | exact (shlex_quote_reads_back _ H)].
Defined.

(** [repr] and [escape_unprintable] lose nothing: reading their escapes
    gives the text back. *)
Theorem renderings_read_back s :
  valid_str s ->
  (exists q body, repr s = q :: body /\
    read_escaped (S (length body)) (Some q) body = Some (s, [])) /\
  read_escaped (S (length (escape_unprintable s))) None (escape_unprintable s) = Some (s, []).
Proof. intros Hs. split; [by apply repr_read_back|by apply escape_unprintable_read_back]. Qed.

Lemma renderings_read_back_witness :
  valid_str [0x202e; 92; 39] /\
  read_escaped (S (length (escape_unprintable [0x202e; 92; 39]))) None
    (escape_unprintable [0x202e; 92; 39]) = Some ([0x202e; 92; 39], []).
Proof.
  assert (H : valid_str [0x202e; 92; 39]) by (repeat constructor).
  split; [exact H | exact (proj2 (renderings_read_back _ H))].
Defined.

(** Nothing an agent writes keeps an angle bracket, nor a look-alike of
    one, inside a prompt's tags. *)
Theorem prompt_text_inert text :
  no_angle (inert_text text) /\ no_angle (inert_json text).
Proof. split; [apply inert_text_no_angle|apply inert_json_no_angle]. Qed.
