(* ===== verification/Lifecycle.v ===== *)
(** Platforms and the two state machines ([crates/core/src/platform.rs],
    [lifecycle.rs]): statuses, the transition tables, the compile-time
    [CanMoveTo] relation, and runs of a request and of a grant. *)

From S2P Require Import Prelude.
From stdpp Require Import options.

(** ** Platforms *)

Inductive Platform :=
| Github | Homelab | Kubernetes | A2a | Google | Agents | Sandbox | Hostexec
| Mcp | Models | Pool | Mail.

#[export] Instance Platform_eq_dec : EqDecision Platform.
Proof. solve_decision. Defined.

Definition Platform_ALL : list Platform :=
  [Github; Homelab; Kubernetes; A2a; Google; Agents; Sandbox; Hostexec; Mcp;
   Models; Pool; Mail].

Definition Platform_as_str (p : Platform) : str :=
  match p with
  | Github => lit "github"
  | Homelab => lit "homelab"
  | Kubernetes => lit "kubernetes"
  | A2a => lit "a2a"
  | Google => lit "google"
  | Agents => lit "agents"
  | Sandbox => lit "sandbox"
  | Hostexec => lit "hostexec"
  | Mcp => lit "mcp"
  | Models => lit "models"
  | Pool => lit "pool"
  | Mail => lit "mail"
  end.

Definition Platform_parse (s : str) : option Platform :=
  find (fun p => str_eqb (Platform_as_str p) s) Platform_ALL.

(** ** Requests *)

Inductive RequestStatus :=
| Pending | LlmEvaluating | LlmDenied | AwaitingHuman | Approved
| Provisioning | Granted | ProvisionFailed | Denied.

#[export] Instance RequestStatus_eq_dec : EqDecision RequestStatus.
Proof. solve_decision. Defined.

Definition RequestStatus_ALL : list RequestStatus :=
  [Pending; LlmEvaluating; LlmDenied; AwaitingHuman; Approved; Provisioning;
   Granted; ProvisionFailed; Denied].

Definition RequestStatus_as_str (s : RequestStatus) : str :=
  match s with
  | Pending => lit "pending"
  | LlmEvaluating => lit "llm_evaluating"
  | LlmDenied => lit "llm_denied"
  | AwaitingHuman => lit "awaiting_human"
  | Approved => lit "approved"
  | Provisioning => lit "provisioning"
  | Granted => lit "granted"
  | ProvisionFailed => lit "provision_failed"
  | Denied => lit "denied"
  end.

(** [match s { "pending" => Some(Pending), ..., _ => None }]. *)
Definition RequestStatus_parse (s : str) : option RequestStatus :=
  if str_eqb s (lit "pending") then Some Pending
  else if str_eqb s (lit "llm_evaluating") then Some LlmEvaluating
  else if str_eqb s (lit "llm_denied") then Some LlmDenied
  else if str_eqb s (lit "awaiting_human") then Some AwaitingHuman
  else if str_eqb s (lit "approved") then Some Approved
  else if str_eqb s (lit "provisioning") then Some Provisioning
  else if str_eqb s (lit "granted") then Some Granted
  else if str_eqb s (lit "provision_failed") then Some ProvisionFailed
  else if str_eqb s (lit "denied") then Some Denied
  else None.

Definition successors (s : RequestStatus) : list RequestStatus :=
  match s with
  | Pending => [Denied; Approved; LlmEvaluating; AwaitingHuman]
  | LlmEvaluating => [Approved; LlmDenied; AwaitingHuman]
  | LlmDenied => [LlmEvaluating; AwaitingHuman]
  | AwaitingHuman => [Approved; Denied]
  | Approved => [Provisioning]
  | Provisioning => [Granted; ProvisionFailed]
  | Granted => []
  | ProvisionFailed => []
  | Denied => []
  end.

(** The trait [CanMoveTo<To>]: one impl per allowed edge. *)
Class CanMoveTo (from to : RequestStatus) : Prop := can_move_to : to ∈ successors from.

#[export] Hint Extern 1 (CanMoveTo _ _) =>
  unfold CanMoveTo; cbn; repeat (first [left | right]) : typeclass_instances.

Definition can_transition (s to : RequestStatus) : bool :=
  existsb (fun x => bool_decide (x = to)) (successors s).

Definition is_terminal (s : RequestStatus) : bool :=
  match successors s with [] => true | _ => false end.

Definition is_waiting (s : RequestStatus) : bool :=
  match s with
  | Pending | LlmEvaluating | AwaitingHuman | Approved | Provisioning => true
  | _ => false
  end.

Definition is_human_decidable (s : RequestStatus) : bool :=
  match s with AwaitingHuman | LlmDenied | LlmEvaluating => true | _ => false end.

(** ** Grants *)

Inductive GrantStatus := GProvisioning | GActive | GExpired | GRevoked | GProvisionFailed.

#[export] Instance GrantStatus_eq_dec : EqDecision GrantStatus.
Proof. solve_decision. Defined.

Definition GrantStatus_ALL : list GrantStatus :=
  [GProvisioning; GActive; GExpired; GRevoked; GProvisionFailed].

Definition GrantStatus_as_str (g : GrantStatus) : str :=
  match g with
  | GProvisioning => lit "provisioning"
  | GActive => lit "active"
  | GExpired => lit "expired"
  | GRevoked => lit "revoked"
  | GProvisionFailed => lit "provision_failed"
  end.

Definition GrantStatus_parse (s : str) : option GrantStatus :=
  find (fun g => str_eqb (GrantStatus_as_str g) s) GrantStatus_ALL.

Definition grant_can_transition (g to : GrantStatus) : bool :=
  match g, to with
  | GProvisioning, GActive | GProvisioning, GProvisionFailed => true
  | GActive, GExpired | GActive, GRevoked => true
  | _, _ => false
  end.

(** ** Who decided *)

Inductive DecisionSource := ByPolicy | ByRule | ByLlm | ByHuman.

#[export] Instance DecisionSource_eq_dec : EqDecision DecisionSource.
Proof. solve_decision. Defined.

Definition DecisionSource_as_str (d : DecisionSource) : str :=
  match d with
  | ByPolicy => lit "policy"
  | ByRule => lit "rule"
  | ByLlm => lit "llm"
  | ByHuman => lit "human"
  end.

Definition DecisionSource_parse (s : str) : option DecisionSource :=
  find (fun d => str_eqb (DecisionSource_as_str d) s) [ByPolicy; ByRule; ByLlm; ByHuman].

(** ** Runs *)

(** A request's history from a status: every step an allowed transition. *)
Inductive history : RequestStatus -> list RequestStatus -> RequestStatus -> Prop :=
| history_here s : history s [] s
| history_step s t u path :
    can_transition s t = true -> history t path u -> history s (t :: path) u.

Inductive grant_history : GrantStatus -> list GrantStatus -> GrantStatus -> Prop :=
| gh_here g : grant_history g [] g
| gh_step g t u path :
    grant_can_transition g t = true -> grant_history t path u ->
    grant_history g (t :: path) u.

Lemma can_transition_iff s t : can_transition s t = true <-> CanMoveTo s t.
Proof.
  unfold can_transition, CanMoveTo. rewrite existsb_elem. split.
  - intros (x & Hx & ->%bool_decide_eq_true). done.
  - intros H. exists t. by rewrite bool_decide_true.
Qed.

Lemma terminal_stays s path u :
  is_terminal s = true -> history s path u -> path = [] /\ u = s.
Proof. intros Ht. inversion 1; subst; [done|]. by destruct s. Qed.

(** Along any history, what leads to [Granted] went through
    [Approved] then [Provisioning], unless it started past them. *)
Lemma history_to_granted s path :
  history s path Granted ->
  match s with
  | Granted => path = []
  | Provisioning => path = [Granted]
  | Approved => path = [Provisioning; Granted]
  | ProvisionFailed | Denied => False
  | _ => exists pre, path = pre ++ [Approved; Provisioning; Granted]
  end.
Proof.
  intros H. remember Granted as u eqn:Eu. induction H as [s|s t u path Hst _ IH]; subst; [done|].
  specialize (IH eq_refl).
  destruct s, t; try discriminate Hst; try done; try (by subst).
  all: try (subst; exists []; done).
  all: destruct IH as [pre ->].
  all: match goal with |- exists _, ?x :: _ = _ => by exists (x :: pre) end.
Qed.

(** The only cycle is LLM review: a history that avoids [LlmDenied] is short. *)
Definition rank (s : RequestStatus) : nat :=
  match s with
  | Pending => 5 | LlmEvaluating => 4 | AwaitingHuman => 3 | Approved => 2
  | Provisioning => 1 | _ => 0
  end.

Lemma history_rank s path u :
  history s path u -> LlmDenied ∉ path -> s <> LlmDenied -> length path + rank u <= rank s.
Proof.
  induction 1 as [s|s t u path Hst H IH]; intros Hn Hs; cbn; [lia|].
  rewrite not_elem_of_cons in Hn. destruct Hn as [Ht Hn].
  specialize (IH Hn (fun e => Ht (eq_sym e))).
  enough (rank t < rank s) by lia.
  by destruct s, t; try discriminate Hst; cbn; try lia.
Qed.

(** Each further review round costs a visit to [LlmDenied]. *)
Lemma history_bounded s path u :
  history s path u ->
  length path + rank u <= rank s + 5 * length (filter (fun x => x = LlmDenied) path)
    + (if decide (s = LlmDenied) then 5 else 0).
Proof.
  induction 1 as [s|s t u path Hst H IH]; [cbn; lia|].
  rewrite filter_cons. destruct (decide (t = LlmDenied)) as [->|Ht].
  - destruct s; try discriminate Hst.
    repeat case_decide; try done; cbn [rank length] in *; lia.
  - destruct s, t; try discriminate Hst; try done;
      repeat case_decide; try done; cbn [rank length] in *; lia.
Qed.

Lemma grant_history_cases g path u :
  grant_history g path u ->
  match g with
  | GProvisioning => path ∈ [[]; [GActive]; [GProvisionFailed]; [GActive; GExpired]; [GActive; GRevoked]]
  | GActive => path ∈ [[]; [GExpired]; [GRevoked]]
  | _ => path = []
  end.
Proof.
  induction 1 as [g|g t u path Hgt H IH].
  - destruct g; set_solver.
  - destruct g, t; try discriminate Hgt; set_solver.
Qed.

(** ** Properties *)

(** A request reaches [Granted] from [Pending] only through [Approved] and
    then [Provisioning], and a request that is denied or whose provisioning
    failed never moves again. *)
Theorem granted_only_through_approved path u :
  (history Pending path Granted ->
     exists pre, path = pre ++ [Approved; Provisioning; Granted]) /\
  (history Denied path u -> path = [] /\ u = Denied) /\
  (history ProvisionFailed path u -> path = [] /\ u = ProvisionFailed) /\
  (history Granted path u -> path = [] /\ u = Granted).
Proof.
  split; [apply history_to_granted|].
  split_and!; apply terminal_stays; done.
Qed.

Lemma granted_only_through_approved_witness :
  exists pre, [AwaitingHuman; Approved; Provisioning; Granted]
    = pre ++ [Approved; Provisioning; Granted].
Proof.
  apply (proj1 (granted_only_through_approved
    [AwaitingHuman; Approved; Provisioning; Granted] Granted)).
  repeat (apply history_step; [vm_compute; reflexivity|]). apply history_here.
Defined.

(** A request's history terminates: outside LLM denials it has at most
    five steps, and each denial by the reviewer adds at most five more. *)
Theorem history_terminates path u :
  history Pending path u ->
  length path <= 5 + 5 * length (filter (fun x => x = LlmDenied) path).
Proof. intros H%history_bounded. cbn [rank] in H. case_decide; [done|lia]. Qed.

Lemma history_terminates_witness :
  length [LlmEvaluating; LlmDenied; AwaitingHuman; Denied] <=
  5 + 5 * length (filter (fun x => x = LlmDenied) [LlmEvaluating; LlmDenied; AwaitingHuman; Denied]).
Proof.
  apply (history_terminates _ Denied).
  repeat (apply history_step; [vm_compute; reflexivity|]). apply history_here.
Defined.

(** A grant is active only right after provisioning, makes at most two
    moves, and never becomes active again once it left that status. *)
Theorem grant_history_shape path u :
  grant_history GProvisioning path u ->
  length path <= 2 /\
  (GActive ∈ path -> exists rest, path = GActive :: rest /\ GActive ∉ rest).
Proof.
  intros H%grant_history_cases.
  repeat (apply elem_of_cons in H as [-> | H]); [..|by apply not_elem_of_nil in H].
  all: split; [cbn; lia|]; intros Hin; try (by exfalso; set_solver).
  all: eexists; split; [reflexivity|set_solver].
Qed.

Lemma grant_history_shape_witness :
  length [GActive; GRevoked] <= 2 /\
  (GActive ∈ [GActive; GRevoked] ->
     exists rest, [GActive; GRevoked] = GActive :: rest /\ GActive ∉ rest).
Proof.
  apply (grant_history_shape _ GRevoked).
  repeat (apply gh_step; [vm_compute; reflexivity|]). apply gh_here.
Defined.

(** The typed transitions are exactly the table's edges, the stored names
    of statuses, grants and platforms parse back, and no terminal status is
    one an agent waits in or a human may decide. *)
Theorem status_tables_agree s t (g : GrantStatus) (p : Platform) :
  (CanMoveTo s t <-> can_transition s t = true) /\
  RequestStatus_parse (RequestStatus_as_str s) = Some s /\
  GrantStatus_parse (GrantStatus_as_str g) = Some g /\
  Platform_parse (Platform_as_str p) = Some p /\
  (is_terminal s && (is_waiting s || is_human_decidable s) = false).
Proof.
  split; [by rewrite can_transition_iff|].
  by split_and!; [destruct s|destruct g|destruct p|destruct s].
Qed.
