(* ===== verification/Names.v ===== *)
(** Validated names ([crates/core/src/names.rs]): each name type's check with
    its error text. A value of a name type is the text its [parse] accepted. *)

From S2P Require Import Prelude Pyfmt.
From stdpp Require Import options.

(** The loop of [shaped] over the characters after the first. *)
Fixpoint shaped_rest (rest : char -> bool) (max_rest n : nat) (cs : str) : bool :=
  match cs with
  | [] => true
  | c :: cs' =>
      if negb (rest c) then false
      else if Nat.ltb max_rest (S n) then false
      else shaped_rest rest max_rest (S n) cs'
  end.

Definition shaped (s : str) (first rest : char -> bool) (max_rest : nat) : bool :=
  match s with
  | c :: cs => if first c then shaped_rest rest max_rest 0 cs else false
  | [] => false
  end.

Definition lower_digit (c : char) : bool := is_ascii_lowercase c || is_ascii_digit c.
Definition lower_digit_dash (c : char) : bool := lower_digit c || N.eqb c (ch "-").
Definition lower_digit_dot_dash_underscore (c : char) : bool :=
  lower_digit c || (N.eqb c (ch ".") || N.eqb c (ch "_") || N.eqb c (ch "-")).
Definition agent_name_char (c : char) : bool :=
  is_ascii_alphanumeric c || (N.eqb c (ch ".") || N.eqb c (ch "_") || N.eqb c (ch "-")).

(** [name_type!]: [parse] checks, then wraps the text. *)
Definition name_parse (check : str -> result str unit) (s : str) : result str str :=
  check s ;; Ok s.

Definition AGENT_NAME_ALPHABET : str :=
  lit "abcdefghijklmnopqrstuvwxyzABCDEFGHIJKLMNOPQRSTUVWXYZ0123456789._-".
Definition AGENT_NAME_MAX : nat := 128.

Definition AgentName_parse : str -> result str str := name_parse (fun s =>
  if shaped s agent_name_char agent_name_char (AGENT_NAME_MAX - 1) then Ok tt
  else Err (lit "name: letters, digits, '.', '_' and '-', 1 to 128 characters")).

Definition RUNTIME_MAX : nat := 16.

Definition AttrValue_parse : str -> result str str := name_parse (fun s =>
  if shaped s lower_digit lower_digit_dot_dash_underscore 63 then Ok tt
  else Err (repr s ++ lit ": lowercase letters, digits, dots, dashes and underscores")).

Definition DaemonName_parse : str -> result str str := name_parse (fun s =>
  if shaped s lower_digit lower_digit_dash 62 then Ok tt
  else Err (lit "name must be a lowercase hostname label ([a-z0-9-], ≤63)")).

Definition TemplateName_parse : str -> result str str := name_parse (fun s =>
  if shaped s lower_digit lower_digit_dot_dash_underscore 62 then Ok tt
  else Err (lit "invalid template name")).

Definition ends_with_dash (s : str) : bool :=
  match last s with Some c => N.eqb c (ch "-") | None => false end.

Definition SandboxProject_parse : str -> result str str := name_parse (fun s =>
  if shaped s lower_digit lower_digit_dash 29 && negb (ends_with_dash s) then Ok tt
  else Err (lit "project names: lowercase letters, digits and '-', at most 30")).

Definition McpServerName_parse : str -> result str str := name_parse (fun s =>
  if shaped s lower_digit lower_digit_dash 62 then Ok tt
  else Err (lit "mcp server name " ++ repr s ++ lit ": lowercase letters, digits and dashes")).

Definition WebConnectorLabel_parse : str -> result str str := name_parse (fun s =>
  if shaped s lower_digit lower_digit_dash 40 then Ok tt
  else Err (lit "name: lowercase letters, digits and '-'")).

(** [WebConnectorLabel::agent_name]: built without a check. *)
Definition agent_name (label : str) : str := lit "web-" ++ label.

Definition env_key_first (c : char) : bool := is_ascii_alphabetic c || N.eqb c (ch "_").
Definition env_key_rest (c : char) : bool := is_ascii_alphanumeric c || N.eqb c (ch "_").
Definition EnvKey_parse : str -> result str str := name_parse (fun s =>
  if shaped s env_key_first env_key_rest 63 then Ok tt
  else Err (lit "invalid environment variable name " ++ repr s)).

(** ** The language a shape describes: [[first][rest]{0,max_rest}] *)

Definition shape (first rest : char -> bool) (max_rest : nat) (s : str) : Prop :=
  exists c cs, s = c :: cs /\ first c = true /\
    Forall (fun x => rest x = true) cs /\ length cs <= max_rest.

Lemma shaped_rest_iff rest m n cs :
  shaped_rest rest m n cs = true <->
  Forall (fun x => rest x = true) cs /\ (cs = [] \/ n + length cs <= m).
Proof.
  revert n; induction cs as [|c cs IH]; intros n; cbn [shaped_rest length].
  - split; [split; [constructor|by left]|done].
  - destruct (rest c) eqn:Hc; cbn [negb]; cycle 1.
    { split; [done|]. intros [H _]. inversion H; congruence. }
    destruct (Nat.ltb_spec m (S n)).
    + split; [done|]. intros [_ [?|?]]; [done|lia].
    + rewrite IH, Forall_cons. destruct cs; cbn; intuition (try done; try lia).
Qed.

Lemma shaped_iff s first rest m :
  shaped s first rest m = true <-> shape first rest m s.
Proof.
  unfold shaped, shape. destruct s as [|c cs].
  - split; [done|]. by intros (? & ? & ? & _).
  - destruct (first c) eqn:Hf.
    + rewrite shaped_rest_iff. split.
      * intros [? Hl]. exists c, cs. split_and!; [done..|]. destruct Hl; subst; cbn; lia.
      * intros (? & ? & [= <- <-] & _ & ? & ?). split; [done|right; lia].
    + split; [done|]. intros (? & ? & [= <- <-] & ? & _). congruence.
Qed.

Lemma name_parse_ok check s n :
  name_parse check s = Ok n <-> n = s /\ check s = Ok tt.
Proof.
  unfold name_parse. destruct (check s) as [[]|e]; cbn; split.
  - by intros [= ->].
  - by intros [-> _].
  - done.
  - by intros [_ ?].
Qed.

(** A name type accepts exactly its language, and returns the text itself. *)
Lemma shaped_parse_ok first rest m e s n :
  name_parse (fun s => if shaped s first rest m then Ok tt else Err (e s)) s = Ok n <->
  n = s /\ shape first rest m s.
Proof.
  rewrite name_parse_ok, <- shaped_iff. destruct (shaped s first rest m); naive_solver.
Qed.

Lemma shape_weaken (f1 f2 r1 r2 : char -> bool) m1 m2 s :
  (forall c, f1 c = true -> f2 c = true) -> (forall c, r1 c = true -> r2 c = true) ->
  m1 <= m2 -> shape f1 r1 m1 s -> shape f2 r2 m2 s.
Proof.
  intros Hf Hr Hm (c & cs & -> & Hc & Hcs & Hl). exists c, cs.
  split_and!; [done|auto| |lia]. eapply Forall_impl; [exact Hcs|]. auto.
Qed.

Lemma lower_digit_agent c : lower_digit c = true -> agent_name_char c = true.
Proof.
  unfold lower_digit, agent_name_char, is_ascii_alphanumeric, is_ascii_alphabetic.
  intros [-> | ->]%orb_true_iff; [done|]. by rewrite !orb_true_r.
Qed.

Lemma lower_digit_dash_agent c : lower_digit_dash c = true -> agent_name_char c = true.
Proof.
  intros [H| ->%N.eqb_eq]%orb_true_iff; [by apply lower_digit_agent|done].
Qed.
#[export] Hint Resolve lower_digit_agent lower_digit_dash_agent : agentauth.

Lemma shape_chars first rest m s :
  (forall c, first c = true -> rest c = true) ->
  shape first rest m s -> Forall (fun x => rest x = true) s /\ 1 <= length s <= S m.
Proof.
  intros Hf (c & cs & -> & Hc & Hcs & Hl). cbn. split; [constructor; auto|lia].
Qed.

Lemma agent_name_shape label :
  shape lower_digit lower_digit_dash 40 label ->
  shape agent_name_char agent_name_char 127 (agent_name label).
Proof.
  intros (c & cs & -> & Hc & Hcs & Hl).
  exists (ch "w"), (lit "eb-" ++ c :: cs). split_and!; [done|done| |].
  - apply Forall_app; split; [by repeat constructor|]. constructor; [auto with agentauth|].
    eapply Forall_impl; [exact Hcs|]. cbn. auto with agentauth.
  - change (S (S (S (S (length cs)))) <= 127). lia.
Qed.

(** ** Properties *)

(** Each name type's [parse] accepts exactly its pattern and returns the
    text it was given. *)
Theorem name_types_accept s n :
  (AgentName_parse s = Ok n <-> n = s /\ shape agent_name_char agent_name_char 127 s) /\
  (AttrValue_parse s = Ok n <->
     n = s /\ shape lower_digit lower_digit_dot_dash_underscore 63 s) /\
  (DaemonName_parse s = Ok n <-> n = s /\ shape lower_digit lower_digit_dash 62 s) /\
  (TemplateName_parse s = Ok n <->
     n = s /\ shape lower_digit lower_digit_dot_dash_underscore 62 s) /\
  (WebConnectorLabel_parse s = Ok n <-> n = s /\ shape lower_digit lower_digit_dash 40 s) /\
  (EnvKey_parse s = Ok n <-> n = s /\ shape env_key_first env_key_rest 63 s).
Proof.
  split_and!.
  - apply (shaped_parse_ok _ _ _ (fun _ => _)).
  - apply (shaped_parse_ok _ _ _ (fun s => _)).
  - apply (shaped_parse_ok _ _ _ (fun _ => _)).
  - apply (shaped_parse_ok _ _ _ (fun _ => _)).
  - apply (shaped_parse_ok _ _ _ (fun _ => _)).
  - apply (shaped_parse_ok _ _ _ (fun s => _)).
Qed.

(** A web connector's agent name, built without a check, is always a valid
    agent name. *)
Theorem connector_agent_name_valid s label :
  WebConnectorLabel_parse s = Ok label ->
  AgentName_parse (agent_name label) = Ok (agent_name label).
Proof.
  intros [-> Hs]%(shaped_parse_ok _ _ _ (fun _ => _)).
  apply (shaped_parse_ok _ _ _ (fun _ => _)). split; [done|by apply agent_name_shape].
Qed.

Lemma connector_agent_name_valid_witness :
  AgentName_parse (agent_name (lit "laptop-1")) = Ok (agent_name (lit "laptop-1")).
Proof. apply (connector_agent_name_valid (lit "laptop-1")). vm_compute. reflexivity. Defined.

(** ** Typed identifiers ([crates/core/src/ids.rs]): each id is a UUID, a
    128-bit number, with exactly one spelling *)

(** The [uuid] crate: [Uuid::try_parse] takes every spelling it knows
    (braces, URNs, upper case); [hyphenated] writes one of them. *)
Class UuidLib := { try_parse : str -> option N; hyphenated : N -> str }.

Section ids.
Context `{UuidLib}.

Definition id_display (id : N) : str := hyphenated id.

(** [parse_canonical]: the spelling an id is written with, and no other. *)
Definition parse_canonical (s : str) : option N :=
  match try_parse s with
  | Some id => if str_eqb (hyphenated id) s then Some id else None
  | None => None
  end.

(** [parse_canonical] reads what an id is written as. *)
Lemma parse_canonical_some s id : parse_canonical s = Some id -> s = id_display id.
Proof.
  unfold parse_canonical. destruct (try_parse s) as [n|]; [|done].
  destruct (str_eqb (hyphenated n) s) eqn:E; [|done]. intros [= ->].
  symmetry. by apply str_eqb_true.
Qed.
End ids.
