(* ===== verification/Durations.v ===== *)
(** Durations ([crates/core/src/durations.rs]): parsing, printing and the
    bounds of a [DurationSecs], and hostd's own duration syntax. A machine
    integer is a [Z] (or [N] when unsigned) with its range checks written
    out. *)

From S2P Require Import Prelude Pyfmt.
From stdpp Require Import options.
Local Open Scope Z_scope.

Definition I64_MAX : Z := 2 ^ 63 - 1.
Definition U64_MAX : Z := 2 ^ 64 - 1.

(** [checked_mul] on [i64] and [u64]. *)
Definition i64_checked_mul (a b : Z) : option Z :=
  if (- 2 ^ 63 <=? a * b) && (a * b <=? I64_MAX) then Some (a * b) else None.
Definition u64_checked_mul (a b : Z) : option Z :=
  if (0 <=? a * b) && (a * b <=? U64_MAX) then Some (a * b) else None.

Definition MAX_DURATION_SECS : Z := 365 * 86400.

Definition too_long : str := lit "duration must be at most 365 days".

(** [DurationSecs::from_secs(i64)]; the number of seconds stands for the
    [DurationSecs] that wraps it. *)
Definition from_secs (secs : Z) : result str Z :=
  if secs <=? 0 then Err (lit "duration must be positive")
  else if (secs <=? 2 ^ 32 - 1) && (secs <=? MAX_DURATION_SECS) then Ok secs
  else Err too_long.

Fixpoint trim_start_zeros (s : str) : str :=
  match s with
  | c :: s' => if N.eqb c (ch "0") then trim_start_zeros s' else s
  | [] => []
  end.

(** [parse_digits]: called on ASCII digits only, where [str::parse::<i64>]
    of at most 18 of them succeeds. *)
Definition parse_digits (digits : str) : option Z :=
  let trimmed := trim_start_zeros digits in
  if Nat.ltb 18 (length trimmed) then None
  else match trimmed with
  | [] => Some 0
  | _ => Some (Z.of_N (digits_value trimmed))
  end.

Definition all_digits (s : str) : bool := forallb is_ascii_digit s.

Definition unit_multiplier (c : char) : option Z :=
  if N.eqb c (ch "s") then Some 1
  else if N.eqb c (ch "m") then Some 60
  else if N.eqb c (ch "h") then Some 3600
  else if N.eqb c (ch "d") then Some 86400
  else if N.eqb c (ch "w") then Some 604800
  else None.

Section durations.
Context `{UnicodeLower}.

(** [DurationSecs::parse]. *)
Definition duration_parse (text : str) : result str Z :=
  let value := to_lowercase (trim text) in
  let invalid := lit "invalid duration " ++ repr value
  ++ lit ": use e.g. '30m', '8h', '2d', or seconds" in
  if negb (bool_decide (value = [])) && all_digits value then
  n ← ok_or (parse_digits value) too_long; from_secs n
  else
  match last value with
  | None => Err invalid
  | Some unit =>
      match unit_multiplier unit with
      | None => Err invalid
      | Some multiplier =>
          let digits := removelast value in
          if bool_decide (digits = []) || negb (all_digits digits) then Err invalid
          else
            n ← ok_or (parse_digits digits) too_long;
            secs ← ok_or (i64_checked_mul n multiplier) too_long;
            from_secs secs
      end
  end.

Definition MAX_HOST_DURATION_SECS : Z := 365 * 86400.
Definition host_too_long : str := lit "duration must be at most 365 days".

(** [host_duration_secs]. *)
Definition host_duration_secs (text : str) : result str Z :=
  let value := to_lowercase (trim text) in
  let invalid := lit "invalid duration " ++ repr text
  ++ lit ": use e.g. 30m, 8h, or seconds" in
  let '(digits, multiplier) :=
  match last value with
  | Some u =>
      match unit_multiplier u with
      | Some m => (removelast value, m)
      | None => (value, 1)
      end
  | None => (value, 1)
  end in
  if bool_decide (digits = []) || negb (all_digits digits) then Err invalid
  else
  match parse_digits digits with
  | None => Err host_too_long
  | Some n =>
      if n <=? 0 then Err invalid
      else
        match u64_checked_mul n multiplier with
        | Some s => if s <=? MAX_HOST_DURATION_SECS then Ok s else Err host_too_long
        | None => Err host_too_long
        end
  end.

(** [host_duration_from_int(i64)]. *)
Definition host_duration_from_int (secs : Z) : result str Z :=
  if negb (0 <? secs) then Err (lit "duration must be positive")
  else if MAX_HOST_DURATION_SECS <? secs then Err host_too_long
  else Ok secs.
End durations.

(** [format_duration(u64)]: the largest unit that divides it exactly. *)
Fixpoint format_units (units : list (str * N)) (secs : N) : str :=
  match units with
  | [] => show_N secs ++ lit "s"
  | (unit, div) :: us =>
      if (N.leb div secs && N.eqb (secs mod div) 0)%N then show_N (secs / div) ++ unit
      else format_units us secs
  end.
Definition format_duration (secs : N) : str :=
  format_units [(lit "w", 604800%N); (lit "d", 86400%N); (lit "h", 3600%N); (lit "m", 60%N)] secs.

(** What JSON gives the deserializer ([serde::de::Visitor]). *)
Inductive json_duration :=
| VisitI64 (v : Z)
| VisitU64 (v : Z)
| VisitStr (v : str)
| VisitBool (b : bool)
| VisitF64.

Definition NOT_A_DURATION : str :=
  lit "duration must be a string or a whole number of seconds".

Definition duration_deserialize `{UnicodeLower} (v : json_duration) : result str Z :=
  match v with
  | VisitI64 v => from_secs v
  | VisitU64 v => if v <=? I64_MAX then from_secs v else Err too_long
  | VisitStr v => duration_parse v
  | VisitBool _ => Err NOT_A_DURATION
  | VisitF64 => Err NOT_A_DURATION
  end.

(** ** Bounds *)

Lemma from_secs_ok secs d :
  from_secs secs = Ok d <-> d = secs /\ 1 <= secs <= MAX_DURATION_SECS.
Proof.
  unfold from_secs, MAX_DURATION_SECS.
  destruct (Z.leb_spec secs 0); [split; [done|lia]|].
  destruct (Z.leb_spec secs (2 ^ 32 - 1)), (Z.leb_spec secs (365 * 86400)); cbn [andb];
    (split; [intros [= <-] || done|intros [-> ?]]; try done; try (f_equal; lia); lia).
Qed.

Lemma unit_multiplier_pos u m : unit_multiplier u = Some m -> 1 <= m.
Proof.
  unfold unit_multiplier. intros H.
  repeat match type of H with (if ?b then _ else _) = _ => destruct b end;
    simplify_eq; lia.
Qed.

Lemma duration_parse_bounds `{UnicodeLower} text d :
  duration_parse text = Ok d -> 1 <= d <= MAX_DURATION_SECS.
Proof.
  unfold duration_parse. set (value := to_lowercase (trim text)). clearbody value.
  destruct (_ && _).
  - intros (n & _ & Hn)%bind_ok. apply from_secs_ok in Hn. lia.
  - destruct (last value) as [u|]; [|intros; inv_ok].
    destruct (unit_multiplier u); [|intros; inv_ok].
    destruct (_ || _); [intros; inv_ok|].
    intros (n & _ & (secs & _ & Hs)%bind_ok)%bind_ok. apply from_secs_ok in Hs. lia.
Qed.

Lemma host_duration_bounds `{UnicodeLower} text d :
  host_duration_secs text = Ok d -> 1 <= d <= MAX_HOST_DURATION_SECS.
Proof.
  unfold host_duration_secs. set (value := to_lowercase (trim text)). clearbody value.
  destruct (match last value with Some u => _ | None => _ end) as [digits m] eqn:E.
  assert (Hm : 1 <= m).
  { destruct (last value) as [u|]; [|simplify_eq; lia].
    destruct (unit_multiplier u) as [k|] eqn:Hk; simplify_eq; [|lia].
    by apply unit_multiplier_pos in Hk. }
  destruct (_ || _); [intros; inv_ok|].
  destruct (parse_digits digits) as [n|]; [|intros; inv_ok].
  destruct (Z.leb_spec n 0); [intros; inv_ok|].
  unfold u64_checked_mul. destruct (_ && _); [|intros; inv_ok].
  destruct (Z.leb_spec (n * m) MAX_HOST_DURATION_SECS); [|intros; inv_ok].
  intros; inv_ok. split; [nia|done].
Qed.

(** ** Reading back what [format_duration] writes *)

Section roundtrip.
Context `{UnicodeLower}.

Lemma digit_not_ws c : is_ascii_digit c = true -> is_whitespace c = false.
Proof.
  intros Hc%is_ascii_digit_true.
  unfold is_whitespace, in_range.
  repeat match goal with
  | |- context [N.eqb c ?k] =>
    let E := fresh in assert (E : N.eqb c k = false) by (apply N.eqb_neq; lia); rewrite E; clear E
  | |- context [N.leb c ?k] =>
    let E := fresh in assert (E : N.leb c k = false) by (apply N.leb_gt; lia); rewrite E; clear E
  | |- context [N.leb ?k c] =>
    let E := fresh in assert (E : N.leb k c = false) by (apply N.leb_gt; lia); rewrite E; clear E
  end.
  rewrite ?andb_false_r. done.
Qed.

Lemma digit_ascii c : is_ascii_digit c = true -> is_ascii c = true /\ ascii_lower c = c.
Proof.
  intros Hc%is_ascii_digit_true. split; [apply N.ltb_lt; lia|].
  apply ascii_lower_not_upper. unfold is_ascii_uppercase, in_range.
  apply andb_false_iff. left. apply N.leb_gt. lia.
Qed.

(** Lowercased ASCII without blanks is its own normal form. *)
Lemma normal_form s :
  Forall (fun c => is_ascii c = true /\ ascii_lower c = c /\ is_whitespace c = false) s ->
  to_lowercase (trim s) = s.
Proof.
  intros Hs. rewrite trim_no_ws; [|eapply Forall_impl; [exact Hs|]; cbn; tauto].
  rewrite to_lowercase_ascii; [|eapply Forall_impl; [exact Hs|]; cbn; tauto].
  induction Hs as [|c s (? & ? & ?) _ IH]; cbn; [done|]. by f_equal.
Qed.

Lemma trim_start_zeros_value s : digits_value (trim_start_zeros s) = digits_value s.
Proof.
  induction s as [|c s IH]; cbn [trim_start_zeros]; [done|].
  destruct (N.eqb_spec c 48) as [->|]; [|done].
  rewrite IH. change (48%N :: s) with ([48%N] ++ s). rewrite digits_value_app. cbn. done.
Qed.

Lemma trim_start_zeros_length s : (length (trim_start_zeros s) <= length s)%nat.
Proof. induction s; cbn; [lia|]. case_match; cbn; lia. Qed.

Lemma parse_digits_short s :
  (length s <= 18)%nat -> parse_digits s = Some (Z.of_N (digits_value s)).
Proof.
  intros Hl. unfold parse_digits. pose proof (trim_start_zeros_length s).
  replace (Nat.ltb 18 _) with false by (symmetry; apply Nat.ltb_ge; lia).
  rewrite <- (trim_start_zeros_value s). by destruct (trim_start_zeros s).
Qed.

Lemma show_N_shape n : exists c cs, show_N n = c :: cs.
Proof.
  unfold show_N. cbn [show_go].
  destruct ((if (n <? 10)%N then _ else _) ++ _) as [|c cs] eqn:E; [|by exists c, cs].
  by apply app_nil in E as [_ ?].
Qed.

Lemma parse_with_unit n u m :
  (n < 10 ^ 18)%N -> unit_multiplier u = Some m ->
  is_ascii u = true -> ascii_lower u = u -> is_whitespace u = false ->
  is_ascii_digit u = false ->
  duration_parse (show_N n ++ [u]) =
  secs ← ok_or (i64_checked_mul (Z.of_N n) m) too_long; from_secs secs.
Proof.
  intros Hn Hu Ha Hlow Hw Hd.
  pose proof (show_N_digits n) as Hds.
  unfold duration_parse. rewrite normal_form; cycle 1.
  { apply Forall_app; split; [|by repeat constructor].
  eapply Forall_impl; [exact Hds|]. cbn. intros c Hc.
  destruct (digit_ascii c Hc). auto using digit_not_ws. }
  assert (all_digits (show_N n ++ [u]) = false) as ->.
  { unfold all_digits. rewrite forallb_app. cbn. rewrite Hd. by rewrite andb_false_r. }
  rewrite andb_false_r, last_snoc, Hu, removelast_last.
  destruct (show_N_shape n) as (c & cs & Hc).
  assert (all_digits (show_N n) = true) as ->.
  { unfold all_digits. apply forallb_elem. rewrite Forall_forall in Hds. apply Hds. }
  rewrite bool_decide_false by (rewrite Hc; done). cbn [orb negb].
  rewrite parse_digits_short by (apply (show_N_length 18); done).
  by rewrite show_N_value.
Qed.
End roundtrip.

(** A duration printed in one of the five units. *)
Lemma format_duration_shape n :
  exists k u m, format_duration n = show_N k ++ [u] /\ unit_multiplier u = Some m /\
    is_ascii u = true /\ ascii_lower u = u /\ is_whitespace u = false /\
    is_ascii_digit u = false /\ Z.of_N k * m = Z.of_N n.
Proof.
  assert (Hdiv : forall d, d <> 0%N -> (n mod d = 0)%N -> (n / d * d = n)%N).
  { intros d Hd Hm. pose proof (N.div_mod n d Hd). lia. }
  unfold format_duration. cbn [format_units].
  repeat match goal with
  | |- context [if (N.leb ?d n && N.eqb (n mod ?d) 0)%N then _ else _] =>
      let E := fresh in destruct (N.leb d n && N.eqb (n mod d) 0)%N eqn:E;
      [apply andb_true_iff in E as [_ E%N.eqb_eq]; apply Hdiv in E; [|done];
       eexists _, _, _; split_and!; [reflexivity|reflexivity|reflexivity..|lia]|]
  end.
  eexists _, _, _. split_and!; [reflexivity|reflexivity|reflexivity..|lia].
Qed.

Lemma parse_format `{UnicodeLower} n :
  1 <= Z.of_N n <= MAX_DURATION_SECS -> duration_parse (format_duration n) = Ok (Z.of_N n).
Proof.
  intros Hn. unfold MAX_DURATION_SECS in Hn.
  destruct (format_duration_shape n) as (k & u & m & -> & Hu & ? & ? & ? & ? & Hk).
  pose proof (unit_multiplier_pos _ _ Hu).
  rewrite (parse_with_unit k u m) by (done || nia).
  unfold i64_checked_mul, I64_MAX. rewrite Hk.
  replace (_ && _) with true by (symmetry; apply andb_true_iff; rewrite !Z.leb_le; lia).
  cbn [ok_or mbind result_bind]. by apply from_secs_ok.
Qed.

(** ** Properties *)

(** Whatever text, number or JSON value it comes from, a duration is
    between one second and 365 days; so is a host's. *)
Theorem durations_bounded `{UnicodeLower} text v secs d :
  (duration_parse text = Ok d -> 1 <= d <= MAX_DURATION_SECS) /\
  (duration_deserialize v = Ok d -> 1 <= d <= MAX_DURATION_SECS) /\
  (host_duration_secs text = Ok d -> 1 <= d <= MAX_HOST_DURATION_SECS) /\
  (host_duration_from_int secs = Ok d -> 1 <= d <= MAX_HOST_DURATION_SECS).
Proof.
  split_and!; [apply duration_parse_bounds| |apply host_duration_bounds|].
  - destruct v as [v|v|v|b|]; cbn [duration_deserialize]; [intros [-> ?]%from_secs_ok; lia| |
      apply duration_parse_bounds|done|done].
    destruct (v <=? I64_MAX); [intros [-> ?]%from_secs_ok; lia|done].
  - unfold host_duration_from_int.
    destruct (Z.ltb_spec 0 secs); cbn [negb]; [|done].
    destruct (Z.ltb_spec MAX_HOST_DURATION_SECS secs); [done|]. intros [= <-]. lia.
Qed.

Lemma durations_bounded_witness : 1 <= 5400 <= MAX_DURATION_SECS.
Proof.
  apply (proj1 (@durations_bounded ascii_only_lower (lit " 90M ") (VisitI64 1) 1 5400)).
  vm_compute. reflexivity.
Defined.

(** Printing a duration and parsing the text gives it back. *)
Theorem format_duration_roundtrip `{UnicodeLower} n :
  1 <= Z.of_N n <= MAX_DURATION_SECS -> duration_parse (format_duration n) = Ok (Z.of_N n).
Proof. apply parse_format. Qed.

Lemma format_duration_roundtrip_witness :
  @duration_parse ascii_only_lower (format_duration 90000) = Ok 90000.
Proof.
  apply (@format_duration_roundtrip ascii_only_lower 90000).
  unfold MAX_DURATION_SECS. lia.
Defined.
