(* ===== verification/Pool.v ===== *)
(** Pool leases ([crates/core/src/pool.rs]): property values, the choice a
    lease makes, and how an item's properties are matched. *)

From S2P Require Import Prelude Json Pyfmt.
From stdpp Require Import options.

(** Formatting the language's library does ([Display for f64], [Debug for
    str]) and [serde_json] does ([Display for Value]); it only reaches texts
    people read. *)
Class RustFmt := {
  f64_display : N -> str;
  debug_str : str -> str;
  value_display : Value -> str;
}.

Definition MAX_MATCH_KEYS : nat := 32.
Definition MAX_PROP_CHARS : nat := 256.

Inductive PropValue :=
| PStr (s : str)
| PNum (n : Number)
| PBool (b : bool)
| PList (items : list str).

#[export] Instance PropValue_eq_dec : EqDecision PropValue.
Proof. solve_decision. Defined.

Definition PropValue_eqb (a b : PropValue) : bool :=
  match a, b with
  | PStr x, PStr y => str_eqb x y
  | PNum x, PNum y => x ==? y
  | PBool x, PBool y => Bool.eqb x y
  | PList x, PList y => bool_decide (x = y)
  | _, _ => false
  end.

#[export] Instance PropValue_RustEq : RustEq PropValue.
Proof.
  refine {| req := PropValue_eqb |}.
  - intros []; cbn [PropValue_eqb]; [by apply str_eqb_true|apply req_refl
      |apply Bool.eqb_reflx|by apply bool_decide_eq_true].
  - intros [] []; cbn [PropValue_eqb]; try done; rewrite ?str_eqb_true, ?bool_decide_eq_true,
      ?Bool.eqb_true_iff; try done. apply req_sym.
  - intros [] [] []; cbn [PropValue_eqb]; try done; rewrite ?str_eqb_true, ?bool_decide_eq_true,
      ?Bool.eqb_true_iff; try congruence. apply req_trans.
Defined.

Definition bounded_string (v : Value) : option str :=
  match v with
  | VString s => if Nat.leb (length s) MAX_PROP_CHARS then Some s else None
  | _ => None
  end.

Definition PropValue_from_json (value : Value) : option PropValue :=
  match value with
  | VString s => if Nat.leb (length s) MAX_PROP_CHARS then Some (PStr s) else None
  | VNumber n => Some (PNum n)
  | VBool b => Some (PBool b)
  | VArray items =>
      if Nat.leb (length items) MAX_MATCH_KEYS then PList <$> mapM bounded_string items
      else None
  | _ => None
  end.

Definition PropValue_to_json (p : PropValue) : Value :=
  match p with
  | PStr s => VString s
  | PNum n => VNumber n
  | PBool b => VBool b
  | PList items => VArray (map VString items)
  end.

(** ** [str(value)] *)

(** The magnitude of a finite [f64] when it has no fraction. *)
Definition f64_integral (bits : N) : option N :=
  (let ex := (bits / 2 ^ 52) mod 2 ^ 11 in
   let fr := bits mod 2 ^ 52 in
   let '(m, e) := if ex =? 0 then (fr, (-1074)%Z) else (fr + 2 ^ 52, (Z.of_N ex - 1075)%Z) in
   if (0 <=? e)%Z then Some (m * 2 ^ Z.to_N e)
   else let d := 2 ^ Z.to_N (- e) in
        if m mod d =? 0 then Some (m / d) else None)%N.

Definition f64_negative (bits : N) : bool := (2 ^ 63 <=? bits)%N.

Section display.
Context `{RustFmt}.

Definition py_number (n : Number) : str :=
  match n with
  | PosInt u => show_N u
  | NegInt i => show_Z i
  | Float bits =>
    match f64_integral bits with
    | Some m =>
        if (m <? 10 ^ 16)%N
        then (if f64_negative bits then lit "-" else []) ++ show_N m ++ lit ".0"
        else f64_display bits
    | None => f64_display bits
    end
  end.

Definition py_str (p : PropValue) : str :=
  match p with
  | PStr s => s
  | PNum n => py_number n
  | PBool true => lit "True"
  | PBool false => lit "False"
  | PList items => lit "[" ++ join (lit ", ") (map repr items) ++ lit "]"
  end.

(** ** Matching *)

Definition prop_matches (want have : PropValue) : bool :=
  match want, have with
  | PList want, PList have => forallb (fun w => existsb (fun h => str_eqb h w) have) want
  | PList _, _ => false
  | want, PList have => existsb (str_eqb (py_str want)) have
  | want, have => (want ==? have) || str_eqb (py_str want) (py_str have)
  end.

Definition pool_matches (properties wanted : list (str * PropValue)) : bool :=
  forallb (fun kv =>
  match map_get kv.1 properties with
  | None => false
  | Some have => prop_matches kv.2 have
  end) wanted.
End display.

(** A rule's [match] covers a request's. *)
Definition match_covers (rule wanted : list (str * PropValue)) : bool :=
  forallb (fun kv => map_get kv.1 wanted ==? Some kv.2) rule.

Inductive PoolChoice :=
| Any (m : list (str * PropValue))
| Previous
| Item (name : str).

Definition PoolChoice_eqb (a b : PoolChoice) : bool :=
  match a, b with
  | Any x, Any y => x ==? y
  | Previous, Previous => true
  | Item x, Item y => str_eqb x y
  | _, _ => false
  end.

#[export] Instance PoolChoice_RustEq : RustEq PoolChoice.
Proof.
  refine {| req := PoolChoice_eqb |}.
  - intros []; cbn [PoolChoice_eqb]; [apply req_refl|done|by apply str_eqb_true].
  - intros [] []; cbn [PoolChoice_eqb]; try done; rewrite ?str_eqb_true; try done. apply req_sym.
  - intros [] [] []; cbn [PoolChoice_eqb]; try done; rewrite ?str_eqb_true; try congruence.
    apply req_trans.
Defined.

Definition item_name_ok (name : str) : bool :=
  match name with
  | [] => false
  | c :: rest =>
      is_ascii_alphanumeric c && Nat.leb (str_len name) 128
      && forallb (fun c => is_ascii_alphanumeric c ||
           (N.eqb c (ch ".") || N.eqb c (ch "_") || N.eqb c (ch "-"))) rest
  end.

(** ** Lemmas *)

Lemma map_get_req (m m' : list (str * PropValue)) k :
  m ==? m' = true -> map_get k m ==? map_get k m' = true.
Proof.
  revert m'; induction m as [|[x v] m IH]; intros [|[y w] m']; cbn; try done.
  intros [[Hx Hv]%andb_true_iff Hm]%andb_true_iff. apply bool_decide_eq_true in Hx as ->.
  case_match; [done|]. by apply IH.
Qed.

Lemma match_covers_true rule wanted :
  match_covers rule wanted = true <->
  forall k v, (k, v) ∈ rule -> map_get k wanted ==? Some v = true.
Proof.
  unfold match_covers. rewrite forallb_elem. split.
  - intros H k v Hin. apply (H _ Hin).
  - intros H [k v] Hin. by apply H.
Qed.

Lemma match_covers_req_r rule w w' :
  w ==? w' = true -> match_covers rule w = true -> match_covers rule w' = true.
Proof.
  rewrite !match_covers_true. intros Hw H k v Hin. specialize (H k v Hin).
  eapply req_trans; [|exact H]. apply req_sym. by apply map_get_req.
Qed.

Lemma map_get_some_req (m : list (str * PropValue)) k v :
  map_get k m ==? Some v = true -> exists v', map_get k m = Some v' /\ v' ==? v = true.
Proof. destruct (map_get k m) as [v'|]; [|done]. intros. by exists v'. Qed.

Lemma match_covers_refl m : map_sorted m -> match_covers m m = true.
Proof.
  intros Hm. apply match_covers_true. intros k v Hin.
  rewrite (map_get_sorted k v m) by done. apply req_refl.
Qed.

Lemma match_covers_trans a b c :
  match_covers a b = true -> match_covers b c = true -> match_covers a c = true.
Proof.
  rewrite !match_covers_true. intros Hab Hbc k v Hin.
  apply Hab, map_get_some_req in Hin as (v' & Hv' & Heq).
  apply map_get_elem, Hbc, map_get_some_req in Hv' as (v'' & Hv'' & Heq').
  rewrite Hv''. exact (req_trans v'' v' v Heq' Heq).
Qed.

(** The request's values for the keys the rule asks for. They are equal to
    the rule's (as the language compares numbers: a zero's sign aside). *)
Definition asked_values (rule wanted : list (str * PropValue)) : list (str * PropValue) :=
  map (fun kv => (kv.1, default kv.2 (map_get kv.1 wanted))) rule.

Lemma asked_values_equal rule wanted :
  match_covers rule wanted = true -> asked_values rule wanted ==? rule = true.
Proof.
  unfold match_covers, asked_values. induction rule as [|[k v] rule IH]; [done|].
  cbn [forallb map fst snd]. intros [Hk Hr]%andb_true_iff.
  apply map_get_some_req in Hk as (v' & Hv' & Heq). rewrite Hv'.
  apply andb_true_iff. split; [|by apply IH]. apply andb_true_iff. split; [apply req_refl|exact Heq].
Qed.

(** A covered request selects only items the rule's match selects. *)
Lemma match_covers_selects `{RustFmt} rule wanted properties :
  match_covers rule wanted = true -> pool_matches properties wanted = true ->
  pool_matches properties (asked_values rule wanted) = true.
Proof.
  rewrite match_covers_true. unfold pool_matches. rewrite !forallb_forall. intros Hc Hw [k w] Hin.
  apply in_map_iff in Hin as ([k' v] & [= -> <-] & Hin).
  apply list_elem_of_In, Hc, map_get_some_req in Hin as (v' & Hv' & _). cbn [fst snd] in *.
  rewrite Hv'. apply map_get_elem, list_elem_of_In, Hw in Hv'. exact Hv'.
Qed.

Lemma match_covers_nil_r a : match_covers a [] = true -> a = [].
Proof. by destruct a as [|[k v] a]. Qed.

Lemma map_req_nil (m m' : list (str * PropValue)) : m ==? m' = true -> m = [] -> m' = [].
Proof. by destruct m, m'. Qed.

(** Text values survive the trip through JSON. *)
Definition prop_bounded (p : PropValue) : Prop :=
  match p with
  | PStr s => length s <= MAX_PROP_CHARS
  | PList items => length items <= MAX_MATCH_KEYS /\
      Forall (fun s => length s <= MAX_PROP_CHARS) items
  | _ => True
  end.

Lemma PropValue_json_roundtrip p :
  prop_bounded p -> PropValue_from_json (PropValue_to_json p) = Some p.
Proof.
  destruct p as [s|n|b|items]; cbn [prop_bounded]; intros Hb; try done.
  - cbn. by rewrite (proj2 (Nat.leb_le _ _) Hb).
  - destruct Hb as [Hl Hi]. unfold PropValue_to_json, PropValue_from_json.
    rewrite length_map, (proj2 (Nat.leb_le _ _) Hl).
    replace (mapM bounded_string (map VString items)) with (Some items); [done|].
    symmetry. apply mapM_Some. induction Hi as [|x items Hx _ IH]; constructor.
    + cbn. by rewrite (proj2 (Nat.leb_le _ _) Hx).
    + apply IH. cbn in Hl. lia.
Qed.

Lemma PropValue_from_json_bounded v p : PropValue_from_json v = Some p -> prop_bounded p.
Proof.
  destruct v as [|b|n|s|items|m]; try done; unfold PropValue_from_json.
  - by intros [= <-].
  - by intros [= <-].
  - destruct (Nat.leb_spec (length s) MAX_PROP_CHARS); [|done]. by intros [= <-].
  - destruct (Nat.leb_spec (length items) MAX_MATCH_KEYS); [|done].
    intros (xs & Hxs%mapM_Some & ->)%fmap_Some. cbn. split.
    + by rewrite <- (Forall2_length _ _ _ Hxs).
    + clear H. induction Hxs as [|v x items xs Hv _ IH]; constructor; [|done].
      destruct v; try done. unfold bounded_string in Hv.
      destruct (Nat.leb_spec (length s) MAX_PROP_CHARS); [|done]. by injection Hv as ->.
Qed.
#[export] Hint Resolve PropValue_from_json_bounded : agentauth.
