(* ===== verification/Mail.v ===== *)
(** Platform "mail" ([crates/core/src/mail.rs]): the privilege of a mail
    grant, its wire and stored forms, which rule covers which request, and the
    address checks. *)

From S2P Require Import Prelude Json Glob Pyfmt Pool.
From stdpp Require Import options.

(** The calendar of the [time] crate: [Date::parse] and [Date::format] with
    the format [[year]-[month]-[day]], and the order of days. *)
Class DateLib := {
  Date : Type;
  #[global] Date_eq_dec :: EqDecision Date;
  Date_parse : str -> option Date;
  Date_format : Date -> str;
  Date_ltb : Date -> Date -> bool;
  (** A ten-character text of digits and dashes that parses is the one the
      date is written as. *)
  Date_parse_format s d :
    length s = 10 -> forallb (fun c => is_ascii_digit c || N.eqb c (ch "-")) s = true ->
    Date_parse s = Some d -> Date_format d = s;
  Date_ltb_irrefl a : Date_ltb a a = false;
  Date_ltb_trans a b c : Date_ltb a b = true -> Date_ltb b c = true -> Date_ltb a c = true;
  Date_ltb_total a b : a = b \/ Date_ltb a b = true \/ Date_ltb b a = true;
}.

Definition MAX_TOPIC : nat := 1000.
Definition MAX_CORRESPONDENTS : nat := 32.
Definition MAX_GLOB_LEN : nat := 320.

Inductive MailAction := MRead | MSend | MReadSend | MCreate.

#[export] Instance MailAction_eq_dec : EqDecision MailAction.
Proof. solve_decision. Defined.

Definition MailAction_ALL : list MailAction := [MRead; MSend; MReadSend; MCreate].

Definition MailAction_as_str (a : MailAction) : str :=
  match a with
  | MRead => lit "read"
  | MSend => lit "send"
  | MReadSend => lit "read+send"
  | MCreate => lit "create"
  end.

Definition MailAction_parse (s : str) : option MailAction :=
  find (fun a => str_eqb (MailAction_as_str a) s) MailAction_ALL.

Definition reads (a : MailAction) : bool := match a with MSend => false | _ => true end.
Definition sends (a : MailAction) : bool := match a with MRead => false | _ => true end.

Record Ops := mkOps { op_read : bool; op_send : bool }.
Definition ops (a : MailAction) : Ops := mkOps (reads a) (sends a).
Definition Ops_is_subset (x other : Ops) : bool :=
  (negb (op_read x) || op_read other) && (negb (op_send x) || op_send other).
Definition Ops_intersect (x y : Ops) : Ops :=
  mkOps (op_read x && op_read y) (op_send x && op_send y).
Definition Ops_union (x y : Ops) : Ops :=
  mkOps (op_read x || op_read y) (op_send x || op_send y).

(** ** Addresses *)

Definition local_char (c : char) : bool :=
  is_ascii_lowercase c || is_ascii_digit c || elem_b c (lit "!#$%&'*+/=?^_`{|}~.-").

Definition lower_alnum (c : char) : bool := is_ascii_lowercase c || is_ascii_digit c.

Definition label_ok (l : str) : bool :=
  negb (bool_decide (l = []))
  && match head l with Some c => lower_alnum c | None => false end
  && match last l with Some c => lower_alnum c | None => false end
  && forallb (fun c => lower_alnum c || N.eqb c (ch "-")) l.

Definition is_address (s : str) : bool :=
  if Nat.ltb MAX_GLOB_LEN (str_len s) then false
  else match split_once (ch "@") s with
  | None => false
  | Some (local, domain) =>
      if bool_decide (local = []) || negb (forallb local_char local) then false
      else
        let labels := split (ch ".") domain in
        Nat.leb 2 (length labels) && forallb label_ok labels
  end.

Definition is_glob (s : str) : bool :=
  if Nat.ltb MAX_GLOB_LEN (str_len s) then false
  else match split_once (ch "@") s with
  | None => false
  | Some (local, domain) =>
      negb (bool_decide (local = []))
      && forallb (fun c => local_char c || N.eqb c (ch "[") || N.eqb c (ch "]")) local
      && negb (bool_decide (domain = []))
      && forallb (fun c => lower_alnum c || elem_b c (lit "*?.[]-")) domain
  end.

Definition glob_special (c : char) : bool := elem_b c (lit "*?[]").

Definition pins_domain (glob : str) : bool :=
  match split_once (ch "@") glob with
  | None => false
  | Some (local, domain) =>
      negb (bool_decide (local = [])) && negb (bool_decide (domain = []))
      && negb (existsb (fun c => N.eqb c (ch "@") || glob_special c) domain)
  end.

Definition is_prefix (s : str) : bool :=
  Nat.leb 1 (str_len s) && Nat.leb (str_len s) 40
  && match head s with Some c => lower_alnum c | None => false end
  && forallb (fun c => lower_alnum c || elem_b c (lit "._-")) s.

Section addresses.
Context `{UnicodeLower}.

Definition server_term (glob : str) : option str :=
  let glob := to_lowercase (trim glob) in
  '(local, domain) ← rsplit_once (ch "@") glob;
  let domain := default domain (strip_prefix (lit "*.") domain) in
  let wild := existsb glob_special in
  if wild domain || negb (elem_b (ch ".") domain) then None
  else Some (if wild local then domain else glob).

Definition matches_any (address : str) (globs : list str) : bool :=
  let address := to_lowercase address in
  existsb (fun g => fnmatch address (to_lowercase g)) globs.

Definition domain_of (address : str) : option str :=
  '(_, d) ← rsplit_once (ch "@") address; Some (to_lowercase d).
End addresses.

(** [repr_list]: a Python list of strings. *)
Definition repr_list (items : list str) : str :=
  lit "[" ++ join (lit ", ") (map repr items) ++ lit "]".

(** ** The privilege of a mail grant *)

Section mail.
Context `{DateLib}.

Record MailAuthority := mkMail {
  m_action : MailAction;
  m_topic : option str;
  m_correspondents : list str;
  m_since : option Date;
  m_prefix : option str;
}.

#[export] Instance MailAuthority_eq_dec : EqDecision MailAuthority.
Proof. solve_decision. Defined.

Definition parse_date (s : str) : option Date :=
  if negb (Nat.eqb (str_len s) 10)
   || negb (forallb (fun c => is_ascii_digit c || N.eqb c (ch "-")) s)
  then None else Date_parse s.

(** [from_wire]'s sorted-out correspondents: those that are globs and those
    that are not. *)
Fixpoint sort_correspondents `{UnicodeLower, RustFmt} (items : list Value)
  (norm bad : list str) : list str * list str :=
  match items with
  | [] => (norm, bad)
  | item :: items' =>
    match item with
    | VString s =>
        let text := to_lowercase (trim s) in
        if is_glob text then sort_correspondents items' (set_insert text norm) bad
        else sort_correspondents items' norm (set_insert text bad)
    | other => sort_correspondents items' norm (set_insert (value_display other) bad)
    end
  end.

(** [MailAuthority::from_wire]. *)
Definition mail_from_wire `{UnicodeLower, RustFmt} (capability : str)
  (scope : list (str * Value)) : result str MailAuthority :=
  match MailAction_parse capability with
  | None => Err (lit "mail capability is one of read, send, read+send, create")
  | Some action =>
    let allowed :=
      if bool_decide (action = MCreate)
      then [lit "correspondents"; lit "prefix"; lit "since"; lit "topic"]
      else [lit "correspondents"; lit "since"; lit "topic"] in
    let extra := List.filter (fun k => negb (set_contains k allowed)) (map_keys scope) in
    if negb (bool_decide (extra = [])) then
      Err (lit "unknown mail scope key(s) " ++ repr_list extra
           ++ lit "; a mail scope has " ++ repr_list allowed)
    else
      topic ← match map_get (lit "topic") scope with
        | None | Some VNull => Ok None
        | Some (VString t) =>
            if negb (bool_decide (trim t = [])) && Nat.leb (length t) MAX_TOPIC
            then Ok (Some (join [ch " "] (split_whitespace t)))
            else Err (lit "topic is a sentence of at most 1000 characters")
        | Some _ => Err (lit "topic is a sentence of at most 1000 characters")
        end;
      correspondents ← match map_get (lit "correspondents") scope with
        | None | Some VNull => Ok []
        | Some (VArray items) =>
            if negb (bool_decide (items = [])) && Nat.leb (length items) MAX_CORRESPONDENTS
            then
              let '(norm, bad) := sort_correspondents items [] [] in
              if negb (bool_decide (bad = [])) then
                Err (lit "not an address or address glob (like *@example.com): "
                     ++ repr_list bad)
              else Ok norm
            else Err (lit "correspondents is a list of 1 to 32 address globs")
        | Some _ => Err (lit "correspondents is a list of 1 to 32 address globs")
        end;
      since ← match map_get (lit "since") scope with
        | None | Some VNull => Ok None
        | Some (VString s) =>
            match parse_date s with
            | Some d => Ok (Some d)
            | None => Err (lit "since is a date, YYYY-MM-DD")
            end
        | Some _ => Err (lit "since is a date, YYYY-MM-DD")
        end;
      prefix ← match map_get (lit "prefix") scope with
        | None | Some VNull => Ok None
        | Some (VString p) =>
            if is_prefix (to_lowercase p) then Ok (Some (to_lowercase p))
            else Err (lit "prefix: 1-40 lowercase letters, digits, . _ - (starting with a letter or digit)")
        | Some _ =>
            Err (lit "prefix: 1-40 lowercase letters, digits, . _ - (starting with a letter or digit)")
        end;
      Ok (mkMail action topic correspondents since prefix)
  end.

Definition map_insert_opt (k : str) (o : option Value) (m : list (str * Value)) :=
  match o with Some v => map_insert k v m | None => m end.

(** [MailAuthority::scope]. *)
Definition mail_scope (m : MailAuthority) : list (str * Value) :=
  let out := map_insert_opt (lit "topic") (VString <$> m_topic m) [] in
  let out := if bool_decide (m_correspondents m = []) then out
           else map_insert (lit "correspondents") (json_strs (m_correspondents m)) out in
  let out := map_insert_opt (lit "since") ((fun d => VString (Date_format d)) <$> m_since m) out in
  map_insert_opt (lit "prefix") (VString <$> m_prefix m) out.

(** [MailAuthority::to_json]. *)
Definition mail_to_json (m : MailAuthority) : Value :=
  let out := map_insert (lit "action") (VString (MailAction_as_str (m_action m))) [] in
  let out := map_insert (lit "topic") (json_opt_str (m_topic m)) out in
  let out := map_insert (lit "correspondents") (json_strs (m_correspondents m)) out in
  let out := map_insert (lit "since") (json_opt_str (Date_format <$> m_since m)) out in
  let out := if bool_decide (m_action m = MCreate)
           then map_insert (lit "prefix") (json_opt_str (m_prefix m)) out else out in
  VObject out.

(** [MailAuthority::from_json]. *)
Definition mail_text (map : list (str * Value)) (key : str) : result str (option str) :=
  match map_get key map with
  | None | Some VNull => Ok None
  | Some (VString s) => Ok (Some s)
  | Some _ => Err (lit "stored mail " ++ key)
  end.

Definition mail_from_json (map : list (str * Value)) : result str MailAuthority :=
  action ← ok_or (v ← map_get (lit "action") map; s ← as_str v; MailAction_parse s)
           (lit "stored mail action");
  correspondents ← match map_get (lit "correspondents") map with
  | Some (VArray items) =>
      set_of_list <$> collect (fun v => ok_or (as_str v) (lit "stored mail correspondents")) items
  | _ => Err (lit "stored mail correspondents")
  end;
  since_text ← mail_text map (lit "since");
  since ← match since_text with
  | None => Ok None
  | Some s => Some <$> ok_or (parse_date s) (lit "stored mail since")
  end;
  topic ← mail_text map (lit "topic");
  prefix ← mail_text map (lit "prefix");
  Ok (mkMail action topic correspondents since prefix).

(** [MailAuthority::label]. *)
Definition mail_label (m : MailAuthority) : str :=
  join (lit ":")
  ([MailAction_as_str (m_action m)]
   ++ (if bool_decide (m_correspondents m = []) then []
       else [lit "with " ++ join (lit ",") (m_correspondents m)])
   ++ (match m_topic m with Some _ => [lit "topic"] | None => [] end)).

(** [pinned_by]: at least one, and all. *)
Definition pinned_by (pins : list bool) : bool :=
  forallb id pins && negb (bool_decide (pins = [])).

Definition unconstrained_by (sends topic : bool) (pins : list bool) : bool :=
  sends && negb topic && negb (pinned_by pins).

Definition sends_unconstrained (m : MailAuthority) : bool :=
  unconstrained_by (sends (m_action m))
  (match m_topic m with Some _ => true | None => false end)
  (map pins_domain (m_correspondents m)).

(** What coverage compares, and the comparison. *)
Record Covering := mkCovering {
  c_action : MailAction;
  c_prefix : option str;
  c_topic : option str;
  c_correspondents : bool;
  c_since : option Date;
}.

Definition view (m : MailAuthority) : Covering :=
  mkCovering (m_action m) (m_prefix m) (m_topic m)
  (negb (bool_decide (m_correspondents m = []))) (m_since m).

Definition covers_by (rule request : Covering) (nonempty_subset : bool) : bool :=
  let rule_creates := bool_decide (c_action rule = MCreate) in
  if negb (Bool.eqb rule_creates (bool_decide (c_action request = MCreate))) then false
  else if (if rule_creates then negb (bool_decide (c_prefix rule = c_prefix request))
         else negb (Ops_is_subset (ops (c_action request)) (ops (c_action rule))))
  then false
  else if match c_topic rule with
        | Some topic => negb (bool_decide (c_topic request = Some topic))
        | None => false
        end then false
  else if c_correspondents rule && negb nonempty_subset then false
  else if match c_since rule with
        | Some since =>
            match c_since request with None => true | Some s => Date_ltb s since end
        | None => false
        end then false
  else true.

Definition mail_covers (rule request : MailAuthority) : bool :=
  covers_by (view rule) (view request)
  (negb (bool_decide (m_correspondents request = []))
   && set_is_subset (m_correspondents request) (m_correspondents rule)).
End mail.

(** ** Lemmas *)

Lemma is_address_parts a :
  is_address a = true ->
  exists l d, split_once (ch "@") a = Some (l, d) /\ a = l ++ ch "@" :: d /\
    l <> [] /\ forallb local_char l = true /\
    Forall (fun c => lower_alnum c = true \/ c = ch "-" \/ c = ch ".") d.
Proof.
  unfold is_address. destruct (Nat.ltb _ _); [done|].
  destruct (split_once _ a) as [[l d]|] eqn:E; [|done].
  destruct (bool_decide_reflect (l = [])) as [|Hl]; [done|]. cbn [orb].
  destruct (forallb local_char l) eqn:Hloc; [|done]. cbn [negb].
  intros [_ Hd]%andb_true_iff. exists l, d. split_and!; try done; [by apply split_once_some in E as []|].
  clear E. apply Forall_forall. intros c Hc.
  assert (Hs : forall d, c ∈ d -> c = ch "." \/ exists p, p ∈ split (ch ".") d /\ c ∈ p).
  { clear. induction d as [|x d IH]; [by intros ?%not_elem_of_nil|].
    intros [->|Hd]%elem_of_cons; cbn [split].
    - destruct (N.eqb_spec x 46); [by left|]. right.
      destruct (split 46 d) as [|p ps]; eexists; (split; [left|left]).
    - destruct (IH Hd) as [?|(p & Hp & Hcp)]; [by left|right].
      destruct (N.eqb_spec x 46).
      + exists p. by split; [right|].
      + destruct (split 46 d) as [|q qs]; [by apply not_elem_of_nil in Hp|].
        apply elem_of_cons in Hp as [->|Hp].
        * exists (x :: q). by split; [left|right].
        * exists p. by split; [right|]. }
  apply Hs in Hc as [->|(p & Hp & Hcp)]; [auto|].
  rewrite forallb_elem in Hd. apply Hd in Hp. unfold label_ok in Hp. bools.
  match goal with H : forallb _ p = true |- _ =>
    rewrite forallb_elem in H; apply H in Hcp end.
  apply orb_true_iff in Hcp as [?|?%N.eqb_eq]; auto.
Qed.

(** Visible characters lowercasing leaves alone. *)
Definition lower_plain (c : char) : bool := in_range 33 126 c && negb (is_ascii_uppercase c).
Definition plain (s : str) : Prop := Forall (fun c => lower_plain c = true) s.

Lemma lower_plain_true c :
  lower_plain c = true ->
  is_ascii c = true /\ is_ascii_uppercase c = false /\ is_whitespace c = false.
Proof.
  unfold lower_plain, in_range. rewrite !andb_true_iff, !N.leb_le, negb_true_iff.
  intros [[H1 H2] ->]. split_and!; [apply N.ltb_lt; lia|done|].
  unfold is_whitespace, in_range. rewrite !orb_false_iff, !andb_false_iff, !N.leb_gt, !N.eqb_neq. lia.
Qed.

Lemma to_lowercase_plain `{UnicodeLower} s : plain s -> to_lowercase s = s.
Proof.
  intros Hs. rewrite to_lowercase_ascii.
  - induction Hs as [|c s Hc _ IH]; cbn; [done|]. apply lower_plain_true in Hc as (_ & ? & _).
    by rewrite ascii_lower_not_upper, IH.
  - eapply Forall_impl; [exact Hs|]. intros c Hc. by apply lower_plain_true in Hc as [].
Qed.

Lemma trim_plain s : plain s -> trim s = s.
Proof.
  intros Hs. apply trim_no_ws. eapply Forall_impl; [exact Hs|].
  intros c Hc. by apply lower_plain_true in Hc as (_ & _ & ?).
Qed.

Lemma lower_alnum_plain c : lower_alnum c = true -> lower_plain c = true.
Proof.
  unfold lower_alnum, is_ascii_lowercase, is_ascii_digit, lower_plain, is_ascii_uppercase, in_range.
  rewrite orb_true_iff, !andb_true_iff, !N.leb_le, negb_true_iff, andb_false_iff, !N.leb_gt. lia.
Qed.

Lemma elem_b_plain (set : str) c :
  forallb lower_plain set = true -> elem_b c set = true -> lower_plain c = true.
Proof. rewrite elem_b_true, forallb_elem. auto. Qed.

Lemma local_char_plain c : local_char c = true -> lower_plain c = true.
Proof.
  unfold local_char. intros [H|H]%orb_true_iff.
  - by apply lower_alnum_plain.
  - by eapply elem_b_plain; [|exact H].
Qed.

Lemma is_address_plain a :
  is_address a = true -> plain a.
Proof.
  intros (l & d & _ & -> & _ & Hl & Hd)%is_address_parts. apply Forall_app. split.
  - apply Forall_forall. rewrite forallb_elem in Hl. intros c Hc. by apply local_char_plain, Hl.
  - constructor; [done|]. eapply Forall_impl; [exact Hd|].
    intros c [?|[->| ->]]; [by apply lower_alnum_plain|done|done].
Qed.

Lemma is_glob_parts g :
  is_glob g = true ->
  exists l d, split_once (ch "@") g = Some (l, d) /\ g = l ++ ch "@" :: d /\ l <> [] /\ d <> [] /\
    forallb (fun c => local_char c || N.eqb c (ch "[") || N.eqb c (ch "]")) l = true /\
    forallb (fun c => lower_alnum c || elem_b c (lit "*?.[]-")) d = true.
Proof.
  unfold is_glob. destruct (Nat.ltb _ _); [done|].
  destruct (split_once _ g) as [[l d]|] eqn:E; [|done]. intros H. bools.
  exists l, d. split_and!; try done. by apply split_once_some in E as [].
Qed.

Lemma is_glob_plain g : is_glob g = true -> plain g.
Proof.
  intros (l & d & _ & -> & _ & _ & Hl & Hd)%is_glob_parts.
  rewrite forallb_elem in Hl. rewrite forallb_elem in Hd. apply Forall_app. split.
  - apply Forall_forall. intros c Hc. apply Hl in Hc.
    apply orb_true_iff in Hc as [[?| ->%N.eqb_eq]%orb_true_iff| ->%N.eqb_eq]; [|done|done].
    by apply local_char_plain.
  - constructor; [done|]. apply Forall_forall. intros c Hc.
    apply Hd, orb_true_iff in Hc as [?|Hc]; [by apply lower_alnum_plain|].
    by eapply elem_b_plain; [|exact Hc].
Qed.

Lemma pins_domain_parts g :
  pins_domain g = true ->
  exists l d, split_once (ch "@") g = Some (l, d) /\ g = l ++ ch "@" :: d /\
    d <> [] /\ Forall glob_plain d /\ ch "@" ∉ d.
Proof.
  unfold pins_domain. destruct (split_once _ g) as [[l d]|] eqn:E; [|done]. intros H. bools.
  exists l, d. split_and!; try done; [by apply split_once_some in E as []| |].
  - apply Forall_forall. intros c Hc. repeat split; intros ->;
      match goal with H : existsb _ _ = false |- _ => apply not_true_iff_false in H; apply H end;
      apply existsb_elem; by eexists.
  - intros Hin. match goal with H : existsb _ _ = false |- _ =>
      apply not_true_iff_false in H; apply H end.
    apply existsb_elem. by eexists.
Qed.

(** An address is at exactly the domain of a pinning glob it matches. *)
Lemma pinned_match_domain `{UnicodeLower} a g l d :
  is_address a = true -> is_glob g = true -> pins_domain g = true ->
  split_once (ch "@") g = Some (l, d) ->
  fnmatch (to_lowercase a) (to_lowercase g) = true ->
  domain_of a = Some d.
Proof.
  intros Ha Hg Hp Hs Hm. rewrite (to_lowercase_plain a), (to_lowercase_plain g) in Hm
    by (apply is_address_plain, Ha || apply is_glob_plain, Hg).
  pose proof (is_address_plain a Ha) as Hplain.
  apply is_address_parts in Ha as (al & ad & Has & -> & _ & Hal & Had).
  apply pins_domain_parts in Hp as (l' & d' & Hs' & -> & Hd' & Hplaind & Hnat).
  rewrite Hs in Hs'. injection Hs' as <- <-.
  apply (fnmatch_plain_suffix _ _ (ch "@" :: d)) in Hm as [p Hp];
    [|by constructor].
  assert (Hnota : ch "@" ∉ ad).
  { intros Hin. rewrite Forall_forall in Had. apply Had in Hin as [H1|[H1|H1]]; try done. }
  unfold domain_of. rewrite rsplit_once_app by done. cbn. f_equal.
  assert (d = ad) as ->.
  { apply (f_equal (rsplit_once (ch "@"))) in Hp. rewrite !rsplit_once_app in Hp by done.
    congruence. }
  apply to_lowercase_plain. apply Forall_app in Hplain as [_ Hplain]. by inversion Hplain.
Qed.

Lemma matches_any_true `{UnicodeLower} a globs :
  matches_any a globs = true <->
  exists g, g ∈ globs /\ fnmatch (to_lowercase a) (to_lowercase g) = true.
Proof. unfold matches_any. by rewrite existsb_elem. Qed.

Lemma pinned_by_true pins :
  pinned_by pins = true <-> pins <> [] /\ Forall (fun b => b = true) pins.
Proof.
  unfold pinned_by. rewrite andb_true_iff, negb_true_iff, bool_decide_eq_false, forallb_elem,
    Forall_forall. tauto.
Qed.

Lemma Ops_is_subset_true x y :
  Ops_is_subset x y = true <->
  (op_read x = true -> op_read y = true) /\ (op_send x = true -> op_send y = true).
Proof.
  unfold Ops_is_subset. destruct (op_read x), (op_read y), (op_send x), (op_send y); cbn; tauto.
Qed.

Section mail_lemmas.
Context `{DateLib}.
Implicit Types (m rule request : MailAuthority).

(** Coverage, part by part. *)
Definition covers_parts rule request : Prop :=
  (m_action rule = MCreate <-> m_action request = MCreate) /\
  (m_action rule = MCreate -> m_prefix rule = m_prefix request) /\
  Ops_is_subset (ops (m_action request)) (ops (m_action rule)) = true /\
  (m_topic rule = None \/ m_topic request = m_topic rule) /\
  (m_correspondents rule = [] \/
  m_correspondents request <> [] /\ m_correspondents request ⊆ m_correspondents rule) /\
  (forall since, m_since rule = Some since ->
  exists s, m_since request = Some s /\ Date_ltb s since = false).

Lemma covers_topic (r q : option str) :
  match r with Some t => negb (bool_decide (q = Some t)) | None => false end = false <->
  r = None \/ q = r.
Proof.
  destruct r as [t|]; [|intuition].
  rewrite negb_false_iff, bool_decide_eq_true. split; [auto|intros [?|?]; done].
Qed.

Lemma covers_correspondents (rc qc : list str) :
  negb (bool_decide (rc = [])) && negb (negb (bool_decide (qc = [])) && set_is_subset qc rc) = false
  <-> rc = [] \/ qc <> [] /\ qc ⊆ rc.
Proof.
  rewrite <- set_is_subset_true. destruct (bool_decide_reflect (rc = [])) as [->|];
  cbn [negb andb]; [intuition|].
  rewrite negb_false_iff, andb_true_iff, negb_true_iff, bool_decide_eq_false. intuition.
Qed.

Lemma covers_since (r q : option Date) :
  match r with
  | Some since => match q with None => true | Some s => Date_ltb s since end
  | None => false
  end = false <-> forall since, r = Some since -> exists s, q = Some s /\ Date_ltb s since = false.
Proof.
  destruct r as [d|]; [|done]. destruct q as [s|].
  - split; [intros ? ? [= <-]; eauto|]. intros Hr. by destruct (Hr d eq_refl) as (? & [= <-] & ?).
  - split; [done|]. intros Hr. by destruct (Hr d eq_refl) as (? & ? & ?).
Qed.

Lemma covers_action (r q : MailAction) (rp qp : option str) :
  negb (Bool.eqb (bool_decide (r = MCreate)) (bool_decide (q = MCreate))) = false /\
  (if bool_decide (r = MCreate) then negb (bool_decide (rp = qp))
  else negb (Ops_is_subset (ops q) (ops r))) = false <->
  (r = MCreate <-> q = MCreate) /\ (r = MCreate -> rp = qp) /\
  Ops_is_subset (ops q) (ops r) = true.
Proof.
  rewrite negb_false_iff, Bool.eqb_true_iff.
  destruct (bool_decide_reflect (r = MCreate)) as [->|Hr],
  (bool_decide_reflect (q = MCreate)) as [->|Hq]; rewrite ?negb_false_iff, ?bool_decide_eq_true;
  intuition congruence.
Qed.

Lemma mail_covers_true rule request :
  mail_covers rule request = true <-> covers_parts rule request.
Proof.
  unfold mail_covers, covers_by, covers_parts, view.
  cbn [c_action c_prefix c_topic c_correspondents c_since].
  rewrite !if_false_true, covers_topic, covers_correspondents, covers_since.
  pose proof (covers_action (m_action rule) (m_action request) (m_prefix rule) (m_prefix request)).
  tauto.
Qed.

Lemma ops_create a : Ops_is_subset (ops a) (ops MCreate) = true.
Proof. by destruct a. Qed.

Lemma mail_covers_refl m : mail_covers m m = true.
Proof.
  apply mail_covers_true. unfold covers_parts. split_and!; try done; [|by right| |].
  - by destruct (m_action m).
  - destruct (m_correspondents m); [by left|right]. split; [done|set_solver].
  - intros s Hs. exists s. split; [done|apply Date_ltb_irrefl].
Qed.

Lemma Date_ltb_false_trans a b c :
  Date_ltb b a = false -> Date_ltb c b = false -> Date_ltb c a = false.
Proof.
  intros Hab Hbc. apply not_true_iff_false. intros Hca.
  destruct (Date_ltb_total a b) as [->|[Hl|Hl]]; [congruence| |congruence].
  rewrite (Date_ltb_trans c a b) in Hbc; done.
Qed.

Lemma mail_covers_trans a b c :
  mail_covers a b = true -> mail_covers b c = true -> mail_covers a c = true.
Proof.
  rewrite !mail_covers_true. unfold covers_parts.
  intros (Ha & Hp & Ho & Ht & Hc & Hs) (Ha' & Hp' & Ho' & Ht' & Hc' & Hs'). split_and!.
  - by rewrite Ha.
  - intros E. rewrite Hp by done. apply Hp'. by apply Ha.
  - rewrite Ops_is_subset_true in *. intuition.
  - destruct Ht as [?|Ht]; [by left|]. destruct Ht' as [Ht'|Ht']; [left|right]; congruence.
  - destruct Hc as [?|[Hb Hc]]; [by left|right].
  destruct Hc' as [?|[Hb' Hc']]; [done|]. split; [done|set_solver].
  - intros s Hs0. destruct (Hs s Hs0) as (s1 & Hs1 & Hl).
  destruct (Hs' s1 Hs1) as (s2 & Hs2 & Hl'). exists s2. split; [done|].
  by eapply Date_ltb_false_trans.
Qed.

(** What a mail grant lets its holder do: to read (or to send), with whom,
    and of which day. No correspondents means anyone. *)
Definition mail_reaches `{UnicodeLower} (m : MailAuthority) (read : bool) (address : str)
  (day : Date) : Prop :=
  (if read then reads else sends) (m_action m) = true /\
  (m_correspondents m = [] \/ matches_any address (m_correspondents m) = true) /\
  (forall since, m_since m = Some since -> Date_ltb day since = false).

Lemma matches_any_subset `{UnicodeLower} address globs globs' :
  globs ⊆ globs' -> matches_any address globs = true -> matches_any address globs' = true.
Proof.
  unfold matches_any. cbv zeta. intros Hsub. rewrite !existsb_exists.
  intros (g & Hg & Hm). exists g. split; [|done].
  apply list_elem_of_In, Hsub, list_elem_of_In, Hg.
Qed.

(** A covered request reaches no further than the rule. *)
Lemma mail_covers_reaches `{UnicodeLower} rule request read address day :
  mail_covers rule request = true ->
  mail_reaches request read address day -> mail_reaches rule read address day.
Proof.
  rewrite mail_covers_true. intros (_ & _ & Ho & _ & Hc & Hs) (Ha & Hq & Hd). split_and!.
  - apply Ops_is_subset_true in Ho as [Hr Hsd]. destruct read; [by apply Hr|by apply Hsd].
  - destruct Hc as [?|[Hne Hsub]]; [by left|]. right. destruct Hq as [?|Hq]; [done|].
    by eapply matches_any_subset.
  - intros since Hsince. destruct (Hs since Hsince) as (s & Hs' & Hl).
    eapply Date_ltb_false_trans; [exact Hl|by apply Hd].
Qed.

(** A rule that keeps sending in covers only requests that do. *)
Lemma mail_covers_constrained rule request :
  mail_covers rule request = true ->
  sends_unconstrained request = true -> sends_unconstrained rule = true.
Proof.
  rewrite mail_covers_true. intros (_ & _ & Ho & Ht & Hc & _).
  unfold sends_unconstrained, unconstrained_by.
  rewrite !andb_true_iff, !negb_true_iff, <- !not_true_iff_false, !pinned_by_true.
  intros [[Hsend Htopic] Hpins]. apply Ops_is_subset_true in Ho as [_ Ho]. split_and!.
  - by apply Ho.
  - destruct Ht as [->| <-]; [done|]. done.
  - intros [Hne Hall]. destruct Hc as [Hc|[Hq Hc]]; [by rewrite Hc in Hne|].
  apply Hpins. split.
  + by destruct (m_correspondents request).
  + rewrite Forall_map in Hall |- *. apply Forall_forall. intros x Hx.
    rewrite Forall_forall in Hall. by apply Hall, Hc.
Qed.
End mail_lemmas.

(** ** The normal form of a mail authority *)

Section mail_roundtrip.
Context `{DateLib}.
Implicit Types m : MailAuthority.

Definition date_normal (d : Date) : Prop := parse_date (Date_format d) = Some d.

(** What the stored form needs to be read back ... *)
Record mail_stored m : Prop := {
  ms_correspondents : set_sorted (m_correspondents m);
  ms_prefix : m_action m <> MCreate -> m_prefix m = None;
  ms_since : forall d, m_since m = Some d -> date_normal d;
}.

Definition topic_normal (t : str) : Prop :=
  exists ws, ws <> [] /\ words ws /\ t = join [ch " "] ws /\ length t <= MAX_TOPIC.

(** ... and what the wire form does. *)
Record mail_normal m : Prop := {
  mn_stored : mail_stored m;
  mn_topic : forall t, m_topic m = Some t -> topic_normal t;
  mn_globs : Forall (fun g => is_glob g = true) (m_correspondents m);
  mn_count : length (m_correspondents m) <= MAX_CORRESPONDENTS;
  mn_prefix : forall p, m_prefix m = Some p -> is_prefix p = true;
}.

Lemma parse_date_normal s d : parse_date s = Some d -> date_normal d.
Proof.
  unfold parse_date. intros Hp.
  destruct (Nat.eqb_spec (str_len s) 10) as [Hl|]; [|done].
  destruct (forallb _ s) eqn:Hs; [|done]. cbn in Hp.
  assert (Hlen : length s = 10).
  { rewrite <- Hl. symmetry. apply str_len_ascii. apply Forall_forall. intros c Hc.
  rewrite forallb_elem in Hs. apply Hs, orb_true_iff in Hc as [Hc| ->%N.eqb_eq]; [|done].
  apply is_ascii_digit_true in Hc. apply N.ltb_lt. lia. }
  unfold date_normal. rewrite (Date_parse_format s d) by done.
  unfold parse_date. by rewrite (proj2 (Nat.eqb_eq _ _) Hl), Hs.
Qed.

Lemma mail_text_opt entries key o :
  map_get key entries = Some (json_opt_str o) -> mail_text entries key = Ok o.
Proof. unfold mail_text. intros ->. by destruct o. Qed.

Definition mail_json_map m : list (str * Value) :=
  [(lit "action", VString (MailAction_as_str (m_action m)));
  (lit "correspondents", json_strs (m_correspondents m))]
  ++ (if bool_decide (m_action m = MCreate)
    then [(lit "prefix", json_opt_str (m_prefix m))] else [])
  ++ [(lit "since", json_opt_str (Date_format <$> m_since m));
    (lit "topic", json_opt_str (m_topic m))].

Lemma mail_to_json_map m : mail_to_json m = VObject (mail_json_map m).
Proof. destruct m as [[] t c s p]; reflexivity. Qed.

Lemma MailAction_parse_as_str a : MailAction_parse (MailAction_as_str a) = Some a.
Proof. by destruct a. Qed.

Lemma collect_strs (e : str) l :
  collect (fun v => ok_or (as_str v) e) (map VString l) = Ok l.
Proof. induction l as [|x l IH]; cbn; [done|]. by rewrite IH. Qed.

Lemma mail_json_roundtrip m :
  mail_stored m -> mail_from_json (mail_json_map m) = Ok m.
Proof.
  intros [Hc Hp Hs]. destruct m as [a t c s p]. cbn [m_correspondents m_action m_prefix m_since] in *.
  unfold mail_from_json. set (j := mail_json_map _).
  assert (Ha : map_get (lit "action") j = Some (VString (MailAction_as_str a))) by (by destruct a).
  assert (Hj : map_get (lit "correspondents") j = Some (json_strs c)) by (by destruct a).
  assert (Ht : mail_text j (lit "topic") = Ok t)
  by (apply mail_text_opt; by destruct a).
  assert (Hd : mail_text j (lit "since") = Ok (Date_format <$> s))
  by (apply mail_text_opt; by destruct a).
  assert (Hpr : mail_text j (lit "prefix") = Ok p).
  { destruct (decide (a = MCreate)) as [->|Ha']; [by apply mail_text_opt|].
  rewrite Hp by done. by destruct a. }
  clearbody j. rewrite Ha. cbn [mbind option_bind as_str]. rewrite MailAction_parse_as_str.
  cbn [ok_or mbind result_bind]. rewrite Hj. unfold json_strs. rewrite collect_strs.
  cbn [fmap result_fmap mbind result_bind]. rewrite Hd, set_of_list_id by done.
  cbn [mbind result_bind]. destruct s as [d|]; cbn [fmap option_fmap option_map].
  - rewrite (Hs d) by done. cbn [ok_or fmap result_fmap mbind result_bind].
  by rewrite Ht, Hpr.
  - by rewrite Ht, Hpr.
Qed.

(** *** The wire *)

Context `{UnicodeLower, RustFmt}.

Lemma sort_correspondents_bad items norm bad l b x :
  sort_correspondents items norm bad = (l, b) -> x ∈ bad -> x ∈ b.
Proof.
  revert norm bad; induction items as [|item items IH]; intros norm bad; cbn [sort_correspondents].
  - by intros [= _ ->].
  - destruct item; intros E Hx; try (eapply IH; [exact E|apply set_insert_elem; by right]).
  destruct (is_glob _); (eapply IH; [exact E|]); [done|apply set_insert_elem; by right].
Qed.

Lemma set_insert_length x s : length (set_insert x s) <= S (length s).
Proof. induction s as [|y s IH]; cbn; [lia|]. destruct (str_compare x y); cbn; lia. Qed.

Lemma sort_correspondents_norm items norm bad l :
  sort_correspondents items norm bad = (l, []) ->
  set_sorted norm -> Forall (fun g => is_glob g = true) norm ->
  set_sorted l /\ Forall (fun g => is_glob g = true) l /\
  length l <= length norm + length items.
Proof.
  revert norm bad; induction items as [|item items IH]; intros norm bad E Hs Hg;
  cbn [sort_correspondents] in E.
  { injection E as -> ->. split_and!; [done|done|cbn; lia]. }
  assert (Hbad : forall v norm bad, sort_correspondents items norm (set_insert v bad) <> (l, [])).
  { intros v n b Hb. eapply (sort_correspondents_bad _ _ _ _ _ v) in Hb.
  - by apply not_elem_of_nil in Hb.
  - apply set_insert_elem. by left. }
  destruct item as [| | |s| |]; try (by apply Hbad in E).
  destruct (is_glob (to_lowercase (trim s))) eqn:Eg; [|by apply Hbad in E].
  apply IH in E as (? & ? & ?).
  - split_and!; [done|done|].
  pose proof (set_insert_length (to_lowercase (trim s)) norm). cbn. lia.
  - by apply set_insert_sorted.
  - apply Forall_forall. intros g [->|Hin]%set_insert_elem; [done|].
  by rewrite Forall_forall in Hg; apply Hg.
Qed.

Lemma sort_correspondents_globs l norm bad :
  Forall (fun g => is_glob g = true) l ->
  sort_correspondents (map VString l) norm bad =
  (fold_left (fun s x => set_insert x s) l norm, bad).
Proof.
  intros Hl. revert norm. induction Hl as [|g l Hg _ IH]; intros norm; cbn; [done|].
  pose proof (is_glob_plain g Hg) as Hp.
  by rewrite trim_plain, to_lowercase_plain, Hg by done.
Qed.

Lemma is_prefix_plain p : is_prefix p = true -> plain p.
Proof.
  unfold is_prefix. intros Hp. bools. apply Forall_forall. intros c Hc.
  match goal with H : forallb _ p = true |- _ => rewrite forallb_elem in H; apply H in Hc end.
  apply orb_true_iff in Hc as [?|?]; [by apply lower_alnum_plain|].
  by eapply elem_b_plain; [|done].
Qed.

Lemma topic_from_wire t :
  trim t <> [] -> length t <= MAX_TOPIC ->
  topic_normal (join [ch " "] (split_whitespace t)).
Proof.
  intros Ht Hl. exists (split_whitespace t). unfold split_whitespace. split_and!; try done.
  - intros E. apply split_ws_go_nil in E as [_ Hb]. by apply Ht, trim_nil.
  - apply split_ws_go_words. constructor.
  - pose proof (split_ws_go_length [] t). cbn in *. lia.
Qed.

Lemma topic_normal_wire t :
  topic_normal t ->
  negb (bool_decide (trim t = [])) && Nat.leb (length t) MAX_TOPIC = true /\
  join [ch " "] (split_whitespace t) = t.
Proof.
  intros (ws & Hne & Hw & -> & Hl). split.
  - apply andb_true_iff. split; [|by apply Nat.leb_le].
  apply negb_true_iff, bool_decide_eq_false. rewrite trim_nil.
  destruct ws as [|w ws]; [done|]. inversion Hw as [|? ? [? ?] _]; subst.
  by apply join_not_blank.
  - by rewrite split_whitespace_join.
Qed.

(** Everything the wire parser accepts is in normal form ... *)
Lemma mail_from_wire_normal capability scope m :
  mail_from_wire capability scope = Ok m ->
  mail_normal m /\ capability = MailAction_as_str (m_action m).
Proof.
  unfold mail_from_wire.
  destruct (MailAction_parse capability) as [action|] eqn:Ha; [|done].
  assert (capability = MailAction_as_str action) as ->.
  { apply find_some in Ha as [_ Ha]. by apply str_eqb_true in Ha. }
  clear Ha. set (allowed := if bool_decide (action = MCreate) then _ else _).
  destruct (bool_decide_reflect (List.filter (fun k => negb (set_contains k allowed)) (map_keys scope) = []))
  as [Hextra|]; [|done]. cbn [negb]. intros Hok.
  apply bind_ok in Hok as (topic & Ht & Hok).
  apply bind_ok in Hok as (correspondents & Hc & Hok).
  apply bind_ok in Hok as (since & Hs & Hok).
  apply bind_ok in Hok as (prefix & Hp & Hok). injection Hok as <-.
  split; [|done]. 
  assert (HT : forall t, topic = Some t -> topic_normal t).
  { destruct (map_get (lit "topic") scope) as [[| | |t| |]|]; try done; try (by injection Ht as <-).
  destruct (bool_decide_reflect (trim t = [])); [done|]. cbn [negb andb] in Ht.
  destruct (Nat.leb_spec (length t) MAX_TOPIC); [|done]. injection Ht as <-.
  intros ? [= <-]. by apply topic_from_wire. }
  assert (HC : set_sorted correspondents /\ Forall (fun g => is_glob g = true) correspondents
  /\ length correspondents <= MAX_CORRESPONDENTS).
  { assert (set_sorted [] /\ Forall (fun g => is_glob g = true) []
    /\ length (@nil str) <= MAX_CORRESPONDENTS) as Hnil
    by (split_and!; [done|constructor|cbn; unfold MAX_CORRESPONDENTS; lia]).
  destruct (map_get (lit "correspondents") scope) as [[| | | |items|]|]; try done;
    try (by injection Hc as <-).
  destruct (bool_decide_reflect (items = [])); [done|]. cbn [negb andb] in Hc.
  destruct (Nat.leb_spec (length items) MAX_CORRESPONDENTS) as [Hi|]; [|done].
  destruct (sort_correspondents items [] []) as [norm bad] eqn:E.
  destruct (bool_decide_reflect (bad = [])) as [->|]; [|done]. injection Hc as <-.
  apply sort_correspondents_norm in E as (? & ? & Hlen); [|exact I|constructor].
  split_and!; [assumption|assumption|]. etransitivity; [exact Hlen|exact Hi]. }
  assert (HS : forall d, since = Some d -> date_normal d).
  { destruct (map_get (lit "since") scope) as [[| | |s| |]|]; try done; try (by injection Hs as <-).
  destruct (parse_date s) eqn:E; [|done]. injection Hs as <-. intros ? [= <-].
  by apply parse_date_normal in E. }
  assert (HP : (forall p, prefix = Some p -> is_prefix p = true) /\
  (action <> MCreate -> prefix = None)).
  { split.
  - destruct (map_get (lit "prefix") scope) as [[| | |p| |]|]; try done; try (by injection Hp as <-).
    destruct (is_prefix (to_lowercase p)) eqn:E; [|done]. injection Hp as <-. by intros ? [= <-].
  - intros Hna. destruct (map_get (lit "prefix") scope) as [v|] eqn:E; [|by injection Hp as <-].
    exfalso. apply map_get_elem in E.
    assert (Hin : lit "prefix" ∈ map_keys scope) by (by apply (list_elem_of_fmap_2 fst) in E).
    assert (Hf : lit "prefix" ∈ List.filter (fun k => negb (set_contains k allowed)) (map_keys scope)).
    { apply list_elem_of_In, filter_In. split; [by apply list_elem_of_In|].
      subst allowed. rewrite bool_decide_false by done. reflexivity. }
    rewrite Hextra in Hf. by apply not_elem_of_nil in Hf. }
  destruct HC as (? & ? & ?), HP as [? ?]. repeat split; done.
Qed.

(** ... and the normal form's own scope is read back as it. *)
Lemma mail_scope_roundtrip m :
  mail_normal m -> mail_from_wire (MailAction_as_str (m_action m)) (mail_scope m) = Ok m.
Proof.
  intros [[Hc Hp Hs] Ht Hg Hn Hpre]. destruct m as [a t c s p].
  cbn [m_correspondents m_action m_prefix m_since m_topic] in *.
  unfold mail_from_wire. rewrite MailAction_parse_as_str.
  set (sc := mail_scope _). set (allowed := if bool_decide _ then _ else _).
  assert (E : List.filter (fun k => negb (set_contains k allowed)) (map_keys sc) = []).
  { subst allowed sc. destruct a, t, c, s, p; try reflexivity; (by rewrite Hp). }
  rewrite (bool_decide_true _ E). cbn [negb]. clear E.
  assert (Et : map_get (lit "topic") sc = VString <$> t) by (destruct t, c, s, p; reflexivity).
  assert (Ec : map_get (lit "correspondents") sc =
  match c with [] => None | _ => Some (json_strs c) end) by (destruct t, c, s, p; reflexivity).
  assert (Es : map_get (lit "since") sc = (fun d => VString (Date_format d)) <$> s)
  by (destruct t, c, s, p; reflexivity).
  assert (Ep : map_get (lit "prefix") sc = VString <$> p) by (destruct t, c, s, p; reflexivity).
  clearbody sc. rewrite Et, Ec, Es, Ep. clear Et Ec Es Ep.
  apply (bind_intro _ _ t).
  { destruct t as [t|]; [|done]. cbn [fmap option_fmap option_map].
  destruct (topic_normal_wire t (Ht t eq_refl)) as [-> ->]. done. }
  apply (bind_intro _ _ c).
  { destruct c as [|g c]; [done|]. unfold json_strs.
  rewrite length_map, (proj2 (Nat.leb_le _ _) Hn).
  rewrite (sort_correspondents_globs (g :: c)) by done.
  change (fold_left _ (g :: c) []) with (set_of_list (g :: c)).
  by rewrite set_of_list_id. }
  apply (bind_intro _ _ s).
  { destruct s as [d|]; [|done]. cbn [fmap option_fmap option_map].
  by rewrite (Hs d eq_refl). }
  apply (bind_intro _ _ p); [|done].
  destruct p as [p|]; [|done]. cbn [fmap option_fmap option_map].
  pose proof (Hpre p eq_refl) as Hpp. by rewrite to_lowercase_plain, Hpp by by apply is_prefix_plain.
Qed.
End mail_roundtrip.

(** A calendar for examples: a day is its text, of digits and dashes in the
    form [YYYY-MM-DD]; days are ordered as text is. *)
Module TextCalendar.
Definition day_text (s : str) : bool :=
  match split (ch "-") s with
  | [y; m; d] =>
    Nat.eqb (length y) 4 && Nat.eqb (length m) 2 && Nat.eqb (length d) 2
    && forallb is_ascii_digit (y ++ m ++ d)
    && N.leb 1 (digits_value m) && N.leb (digits_value m) 12
    && N.leb 1 (digits_value d) && N.leb (digits_value d) 31
  | _ => false
  end.

Definition calendar : DateLib.
Proof.
  refine {|
  Date := str;
  Date_parse s := if day_text s then Some s else None;
  Date_format s := s;
  Date_ltb := str_ltb;
  |}.
  - intros s d _ _. destruct (day_text s); congruence.
  - intros a. unfold str_ltb. by rewrite str_compare_refl.
  - intros a b c. unfold str_ltb.
  destruct (str_compare a b) eqn:E1, (str_compare b c) eqn:E2; try done.
  by rewrite (str_lt_trans a b c E1 E2).
  - intros a b. unfold str_ltb. destruct (str_lt_total a b) as [E|[E|E]];
    [right; left|by left|right; right]; unfold str_lt in E; by rewrite E.
Defined.
End TextCalendar.

(** ** Properties *)

(** Coverage of mail authorities is a preorder, and a rule never widens
    what may be sent: when it covers a request that sends to anyone about
    anything, it says so itself; and it covers only operations it has. *)
Theorem mail_covers_narrows `{DateLib} (a b c : MailAuthority) :
  mail_covers a a = true /\
  (mail_covers a b = true -> mail_covers b c = true -> mail_covers a c = true) /\
  (mail_covers a b = true ->
    (sends_unconstrained b = true -> sends_unconstrained a = true) /\
    (reads (m_action b) = true -> reads (m_action a) = true) /\
    (sends (m_action b) = true -> sends (m_action a) = true)).
Proof.
  split_and!; [apply mail_covers_refl|apply mail_covers_trans|]. intros Hc. split.
  - by apply mail_covers_constrained.
  - apply mail_covers_true in Hc as (_ & _ & Ho & _). by apply Ops_is_subset_true in Ho.
Qed.

(** When every correspondent glob of an authority pins its domain, an
    address one of them matches is at exactly the domain after the glob's
    [@]. *)
Theorem pinned_correspondents_domain `{UnicodeLower} address globs :
  is_address address = true ->
  Forall (fun g => is_glob g = true /\ pins_domain g = true) globs ->
  matches_any address globs = true ->
  exists g local domain, g ∈ globs /\ split_once (ch "@") g = Some (local, domain) /\
    domain_of address = Some domain.
Proof.
  intros Ha Hg (g & Hin & Hm)%matches_any_true.
  rewrite Forall_forall in Hg. destruct (Hg g Hin) as [Hgl Hp].
  destruct (pins_domain_parts g Hp) as (l & d & Hs & _).
  exists g, l, d. split_and!; [done|done|]. by eapply pinned_match_domain.
Qed.

Lemma pinned_correspondents_domain_witness :
  exists g local domain, g ∈ [lit "*@example.com"; lit "jo[a-n]@x.org"] /\
    split_once (ch "@") g = Some (local, domain) /\
    @domain_of ascii_only_lower (lit "john.doe@example.com") = Some domain.
Proof.
  apply (@pinned_correspondents_domain ascii_only_lower (lit "john.doe@example.com")
    [lit "*@example.com"; lit "jo[a-n]@x.org"]).
  - vm_compute. reflexivity.
  - repeat constructor; vm_compute; reflexivity.
  - vm_compute. reflexivity.
Defined.

(** What the wire parser accepts is in normal form: its own capability
    and scope are parsed back to it, and its stored form is read back as it. *)
Theorem mail_roundtrips `{DateLib, UnicodeLower, RustFmt} capability scope m :
  mail_from_wire capability scope = Ok m ->
  mail_from_wire (MailAction_as_str (m_action m)) (mail_scope m) = Ok m /\
  capability = MailAction_as_str (m_action m) /\
  exists entries, mail_to_json m = VObject entries /\ mail_from_json entries = Ok m.
Proof.
  intros Hm. apply mail_from_wire_normal in Hm as [Hn Hcap]. split_and!; [|done|].
  - by apply mail_scope_roundtrip.
  - exists (mail_json_map m). split; [apply mail_to_json_map|].
    apply mail_json_roundtrip, Hn.
Qed.

Lemma mail_roundtrips_witness :
  let fmt := Build_RustFmt (fun _ => []) id (fun _ => []) in
  let scope := [(lit "correspondents", VArray [VString (lit " *@Example.com")]);
                (lit "since", VString (lit "2026-01-31"));
                (lit "topic", VString (lit " the   flat "))] in
  let m := @mkMail TextCalendar.calendar MReadSend (Some (lit "the flat"))
             [lit "*@example.com"] (Some (lit "2026-01-31")) None in
  @mail_from_wire TextCalendar.calendar ascii_only_lower fmt
    (lit "read+send") (@mail_scope TextCalendar.calendar m) = Ok m.
Proof.
  intros fmt scope m.
  exact (proj1 (@mail_roundtrips TextCalendar.calendar ascii_only_lower fmt
    (lit "read+send") scope m ltac:(vm_compute; reflexivity))).
Defined.
