(* ===== verification/Authority.v ===== *)
(** The privilege a grant conveys ([crates/core/src/authority.rs]): its types,
    the wire form ([from_wire], [capability], [scope]), the stored form
    ([to_json], [from_json]), what makes it sensitive, and which rule covers
    which request ([rule_covers]). *)

From S2P Require Import Prelude Json Glob Pyfmt Lifecycle Pool Mail.
From stdpp Require Import options.

(** ** Data *)

Inductive GithubAccess := ARead | AWrite | AAdmin.
Inductive Visibility := Private | Public.

#[export] Instance GithubAccess_eq_dec : EqDecision GithubAccess.
Proof. solve_decision. Defined.
#[export] Instance Visibility_eq_dec : EqDecision Visibility.
Proof. solve_decision. Defined.

Definition GithubAccess_as_str (a : GithubAccess) : str :=
  match a with ARead => lit "read" | AWrite => lit "write" | AAdmin => lit "admin" end.
Definition GithubAccess_parse (s : str) : option GithubAccess :=
  if str_eqb s (lit "read") then Some ARead
  else if str_eqb s (lit "write") then Some AWrite
  else if str_eqb s (lit "admin") then Some AAdmin
  else None.
Definition Visibility_as_str (v : Visibility) : str :=
  match v with Private => lit "private" | Public => lit "public" end.

(** Keyed by permission name, in key order. *)
Definition GithubPermissions := list (str * GithubAccess).

Inductive GithubAuthority :=
| Repo (permissions : GithubPermissions)
| Create (visibility : Visibility).

Record KubernetesAuthority := mkKubernetes { role : str; cluster : bool }.

Inductive ProjectAccess := ProjectRead | ProjectWrite.
Definition ProjectAccess_capability (a : ProjectAccess) : str :=
  match a with ProjectRead => lit "project.read" | ProjectWrite => lit "project.write" end.

Inductive Tier := User | Root.
#[export] Instance Tier_eq_dec : EqDecision Tier.
Proof. solve_decision. Defined.
Definition Tier_as_str (t : Tier) : str :=
  match t with User => lit "user" | Root => lit "root" end.
Definition Tier_parse (s : str) : option Tier :=
  if str_eqb s (lit "user") then Some User
  else if str_eqb s (lit "root") then Some Root
  else None.

Inductive ShellMode := Watched | General | Guarded | Umbrella.
#[export] Instance ShellMode_eq_dec : EqDecision ShellMode.
Proof. solve_decision. Defined.
Definition ShellMode_ALL : list ShellMode := [Watched; General; Guarded; Umbrella].
Definition ShellMode_as_str (m : ShellMode) : str :=
  match m with
  | Watched => lit "watched"
  | General => lit "general"
  | Guarded => lit "guarded"
  | Umbrella => lit "umbrella"
  end.
Definition ShellMode_parse (s : str) : option ShellMode :=
  find (fun m => str_eqb (ShellMode_as_str m) s) ShellMode_ALL.
(** A model must clear each command before it runs. *)
Definition guarded (m : ShellMode) : bool :=
  match m with Guarded | Umbrella => true | _ => false end.

Record CommandOptions := mkOptions {
  o_tier : Tier;
  o_cwd : option str;
  o_env : list (str * str);
  o_timeout : option N;
  o_stdin : option str;
}.

Inductive HostexecAuthority :=
| Run (argv : list str) (options : CommandOptions)
| Template (template : str) (params : list (str * str)) (options : CommandOptions)
| Shell (tier : Tier) (mode : ShellMode)
| Window (tier : Tier).

Definition tier (h : HostexecAuthority) : Tier :=
  match h with
  | Run _ options | Template _ _ options => o_tier options
  | Shell t _ | Window t => t
  end.

Inductive ToolSet :=
| AllTools
| SomeTools (tools : list str).

Definition ToolSet_covers (x wanted : ToolSet) : bool :=
  match x, wanted with
  | AllTools, _ => true
  | SomeTools _, AllTools => false
  | SomeTools allowed, SomeTools wanted => set_is_subset wanted allowed
  end.

#[export] Instance GithubAuthority_eq_dec : EqDecision GithubAuthority.
Proof. solve_decision. Defined.
#[export] Instance KubernetesAuthority_eq_dec : EqDecision KubernetesAuthority.
Proof. solve_decision. Defined.
#[export] Instance ProjectAccess_eq_dec : EqDecision ProjectAccess.
Proof. solve_decision. Defined.
#[export] Instance CommandOptions_eq_dec : EqDecision CommandOptions.
Proof. solve_decision. Defined.
#[export] Instance HostexecAuthority_eq_dec : EqDecision HostexecAuthority.
Proof. solve_decision. Defined.
#[export] Instance ToolSet_eq_dec : EqDecision ToolSet.
Proof. solve_decision. Defined.

#[export] Instance Glob_RustEq : RustEq Glob.
Proof.
  refine {| req := Glob_eqb |}; unfold Glob_eqb.
  - intros a. by apply str_eqb_true.
  - intros a b. by rewrite !str_eqb_true.
  - intros a b c. rewrite !str_eqb_true. congruence.
Defined.

Section authority.
Context `{DateLib}.

Inductive Authority :=
| AGithub (g : GithubAuthority)
| AHomelab
| AKubernetes (k : KubernetesAuthority)
| AA2a (topic : option Glob)
| AGoogle (action : str)
| AAgents (action : str) (runtime : option str)
| ASandbox (access : ProjectAccess)
| AHostexec (h : HostexecAuthority)
| AMcp (tools : ToolSet)
| AModels
| APool (choice : PoolChoice)
| AMail (m : MailAuthority).

(** [PartialEq for Authority]. *)
Definition Authority_eqb (a b : Authority) : bool :=
  match a, b with
  | AGithub x, AGithub y => bool_decide (x = y)
  | AHomelab, AHomelab => true
  | AKubernetes x, AKubernetes y => bool_decide (x = y)
  | AA2a x, AA2a y => x ==? y
  | AGoogle x, AGoogle y => str_eqb x y
  | AAgents x r, AAgents y s => str_eqb x y && bool_decide (r = s)
  | ASandbox x, ASandbox y => bool_decide (x = y)
  | AHostexec x, AHostexec y => bool_decide (x = y)
  | AMcp x, AMcp y => bool_decide (x = y)
  | AModels, AModels => true
  | APool x, APool y => x ==? y
  | AMail x, AMail y => bool_decide (x = y)
  | _, _ => false
  end.

#[export] Instance Authority_RustEq : RustEq Authority.
Proof.
  refine {| req := Authority_eqb |}.
  - intros []; cbn [Authority_eqb]; rewrite ?andb_true_iff, ?str_eqb_true, ?bool_decide_eq_true;
    auto using req_refl.
  - intros [] []; cbn [Authority_eqb]; try done;
    rewrite ?andb_true_iff, ?str_eqb_true, ?bool_decide_eq_true;
    try (intuition congruence); apply req_sym.
  - intros [] [] []; cbn [Authority_eqb]; try done;
    rewrite ?andb_true_iff, ?str_eqb_true, ?bool_decide_eq_true;
    try (intuition congruence); apply req_trans.
Defined.

Record SensitivityConfig := mkSensitivity {
  github_sensitive_permissions : list str;
  kubernetes_sensitive_roles : list str;
  kubernetes_sensitive_namespaces : list Glob;
  kubernetes_cluster_grant_namespace : str;
  pool_sensitive_items : list (str * list str);
  mail_mailboxes : list str;
}.

Definition SensitivityConfig_default : SensitivityConfig :=
  mkSensitivity
  (set_of_list [lit "secrets"; lit "administration"])
  (set_of_list [lit "edit"; lit "admin"])
  (map Glob_new [lit "kube-system"; lit "kube-public"; lit "kube-node-lease"; lit "flux-system"])
  (lit "default") [] [].

Definition namespace_is_sensitive (cfg : SensitivityConfig) (namespace : str) : bool :=
  str_eqb namespace (kubernetes_cluster_grant_namespace cfg)
  || existsb (fun g => glob_matches g namespace) (kubernetes_sensitive_namespaces cfg).

(** ** What kind of privilege it is *)

Definition platform (a : Authority) : Platform :=
  match a with
  | AGithub _ => Github
  | AHomelab => Homelab
  | AKubernetes _ => Kubernetes
  | AA2a _ => A2a
  | AGoogle _ => Google
  | AAgents _ _ => Agents
  | ASandbox _ => Sandbox
  | AHostexec _ => Hostexec
  | AMcp _ => Mcp
  | AModels => Models
  | APool _ => Pool
  | AMail _ => Mail
  end.

Definition needs_explicit_rule (a : Authority) : bool :=
  match a with
  | AGithub (Create _) | AAgents _ _ | AHostexec _ | AMcp _ | AModels
  | APool _ | AGoogle _ | AMail _ => true
  | _ => false
  end.

Definition human_only (a : Authority) : bool :=
  match a with AHostexec (Shell _ _) => true | _ => false end.

Section sensitivity.
Context `{UnicodeLower}.

Definition sensitive_at (cfg : SensitivityConfig) (resource : option str)
  (a : Authority) : bool :=
  let is_some_and (f : str -> bool) := match resource with Some r => f r | None => false end in
  match a with
  | AGithub (Create visibility) => negb (bool_decide (visibility = Private))
  | AGithub (Repo permissions) =>
  existsb (fun p => set_contains p (github_sensitive_permissions cfg)) (map_keys permissions)
  | AKubernetes k =>
  cluster k
  || is_some_and (namespace_is_sensitive cfg)
  || set_contains (role k) (kubernetes_sensitive_roles cfg)
  | APool (Item item) =>
  is_some_and (fun pool =>
  match map_get pool (pool_sensitive_items cfg) with
  | Some items => set_contains item items
  | None => false
  end)
  | AMail m =>
  is_some_and (fun r => set_contains (to_lowercase r) (mail_mailboxes cfg))
  || sends_unconstrained m
  | AGoogle action =>
  str_eqb action (lit "calendar.write") || str_eqb action (lit "drive.read")
  | ASandbox access => bool_decide (access = ProjectWrite)
  | AHostexec h =>
  bool_decide (tier h = Root) || match h with Shell _ _ => true | _ => false end
  | _ => false
  end.

Definition is_sensitive (cfg : SensitivityConfig) (resource : str) (a : Authority) : bool :=
  sensitive_at cfg (Some resource) a.

Definition sensitive_by_resource (cfg : SensitivityConfig) (resource : str)
  (a : Authority) : bool :=
  sensitive_at cfg (Some resource) a && negb (sensitive_at cfg None a).
End sensitivity.

(** ** The wire form of an authority *)

Definition permissions_json (permissions : GithubPermissions) : Value :=
  VObject (map_values (fun v => VString (GithubAccess_as_str v)) permissions).

Definition tools_json (tools : ToolSet) : Value :=
  match tools with
  | AllTools => json_strs [lit "*"]
  | SomeTools set => json_strs set
  end.

Definition match_json (m : list (str * PropValue)) : Value :=
  VObject (map_values PropValue_to_json m).

Definition capability (a : Authority) : str :=
  match a with
  | AGithub (Create _) => lit "create"
  | AGithub (Repo _) => lit "repo"
  | AHomelab => lit "group"
  | AKubernetes k => role k
  | AA2a _ => lit "talk"
  | AGoogle action | AAgents action _ => action
  | ASandbox access => ProjectAccess_capability access
  | AHostexec (Shell _ _) => lit "shell"
  | AHostexec (Template template _ _) => lit "tpl." ++ template
  | AHostexec (Run _ _) | AHostexec (Window _) => lit "run"
  | AMcp _ | AModels => lit "use"
  | APool _ => lit "lease"
  | AMail m => MailAction_as_str (m_action m)
  end.

Definition options_scope (options : CommandOptions) : list (str * Value) :=
  let map := map_insert (lit "tier") (VString (Tier_as_str (o_tier options))) [] in
  let map := match o_cwd options with
           | Some cwd => map_insert (lit "cwd") (VString cwd) map | None => map end in
  let map := if bool_decide (o_env options = []) then map
           else map_insert (lit "env") (json_str_object (o_env options)) map in
  let map := match o_timeout options with
           | Some t => map_insert (lit "timeout") (VNumber (PosInt t)) map | None => map end in
  match o_stdin options with
  | Some stdin => if bool_decide (stdin = []) then map
                else map_insert (lit "stdin") (VString stdin) map
  | None => map
  end.

Definition scope (a : Authority) : list (str * Value) :=
  match a with
  | AGithub (Create visibility) =>
    map_of_list [(lit "visibility", VString (Visibility_as_str visibility))]
  | AGithub (Repo permissions) =>
    map_of_list [(lit "permissions", permissions_json permissions)]
  | AKubernetes k => if cluster k then map_of_list [(lit "cluster", VBool true)] else []
  | AA2a (Some t) => map_of_list [(lit "topic", VString (glob_source t))]
  | AAgents _ runtime => map_of_list [(lit "runtime", json_opt_str runtime)]
  | AHostexec (Shell tier mode) =>
    if bool_decide (mode = Watched) then
      map_of_list [(lit "tier", VString (Tier_as_str tier))]
    else map_of_list [(lit "tier", VString (Tier_as_str tier));
                      (lit "mode", VString (ShellMode_as_str mode))]
  | AHostexec (Window tier) => map_of_list [(lit "tier", VString (Tier_as_str tier))]
  | AHostexec (Run argv options) =>
    map_insert (lit "argv") (json_strs argv) (options_scope options)
  | AHostexec (Template _ params options) =>
    map_insert (lit "params") (json_str_object params) (options_scope options)
  | AMcp tools => map_of_list [(lit "tools", tools_json tools)]
  | APool (Item item) => map_of_list [(lit "item", VString item)]
  | APool Previous => map_of_list [(lit "previous", VBool true)]
  | APool (Any m) =>
    if bool_decide (m = []) then [] else map_of_list [(lit "match", match_json m)]
  | AMail m => mail_scope m
  | _ => []
  end.

Definition label `{RustFmt} (a : Authority) : str :=
  match a with
  | AGithub (Create visibility) => lit "create:" ++ Visibility_as_str visibility
  | AGithub (Repo permissions) =>
    let joined := map (fun kv => kv.1 ++ lit ":" ++ GithubAccess_as_str kv.2) permissions in
    if bool_decide (joined = []) then lit "repo" else join (lit "+") joined
  | AKubernetes k =>
    let role := if bool_decide (role k = []) then lit "*" else role k in
    if cluster k then role ++ lit " (cluster-wide)" else role
  | AAgents _ runtime => lit "mint:" ++ default (lit "?") runtime
  | AMcp AllTools => lit "all tools"
  | AMcp (SomeTools tools) => join (lit ",") tools
  | AHostexec (Window tier) => lit "approve-all:" ++ Tier_as_str tier
  | AHostexec (Template template _ options) =>
    lit "tpl." ++ template ++ lit ":" ++ Tier_as_str (o_tier options)
  | AHostexec (Run _ options) => lit "run:" ++ Tier_as_str (o_tier options)
  | AHostexec (Shell tier mode) =>
    if bool_decide (mode = Watched) then lit "shell:" ++ Tier_as_str tier
    else lit "shell:" ++ Tier_as_str tier ++ lit ":" ++ ShellMode_as_str mode
  | AMail m => mail_label m
  | APool (Item item) => lit "lease:" ++ item
  | APool Previous => lit "lease:previous"
  | APool (Any m) =>
    if bool_decide (m = []) then lit "lease:any"
    else lit "lease:" ++ join (lit ",") (map (fun kv => kv.1 ++ lit "=" ++ py_str kv.2) m)
  | other =>
    let cap := capability other in
    if bool_decide (cap = []) then lit "*" else cap
  end.

(** ** Parsing *)

Definition MAX_MCP_TOOLS : nat := 64.

Definition only_keys (scope : list (str * Value)) (allowed : list str) (message : str)
  : result str unit :=
  let unknown := List.filter (fun k => negb (set_contains k allowed)) (map_keys scope) in
  if bool_decide (unknown = []) then Ok tt
  else Err (message ++ lit " (unknown scope keys: " ++ join (lit ", ") unknown ++ lit ")").

Definition bad_match : str := lit "match maps a property to a value (or a list of strings)".

Definition match_entry (kv : str * Value) : result str (str * PropValue) :=
  let '(k, v) := kv in
  if bool_decide (k = []) || Nat.ltb MAX_PROP_CHARS (length k) then Err bad_match
  else (fun v => (k, v)) <$> ok_or (PropValue_from_json v) bad_match.

Definition match_from_json (value : option Value) : result str (list (str * PropValue)) :=
  match value with
  | None | Some VNull => Ok []
  | Some (VObject map) =>
    if Nat.leb (length map) MAX_MATCH_KEYS then map_of_list <$> collect match_entry map
    else Err bad_match
  | Some _ => Err bad_match
  end.

Definition string_list (value : option Value) : result str (list str) :=
  match value with
  | None | Some VNull => Ok []
  | Some (VArray items) => collect (fun v => ok_or (as_str v) (lit "expected strings")) items
  | Some _ => Err (lit "expected a list of strings")
  end.

Definition string_map (value : option Value) : result str (list (str * str)) :=
  match value with
  | None | Some VNull => Ok []
  | Some (VObject map) =>
    map_of_list <$> collect (fun kv =>
      ok_or ((fun v => (kv.1, v)) <$> as_str kv.2) (lit "expected an object of strings")) map
  | Some _ => Err (lit "expected an object of strings")
  end.

Definition u32_try_from (n : N) : option N := if N.ltb n (2 ^ 32) then Some n else None.

Definition pool_from_wire (capability : str) (scope : list (str * Value))
  : result str Authority :=
  if negb (str_eqb capability (lit "lease")) then Err (qlit "pool capability is `lease`")
  else
  let extra := List.filter (fun k =>
    negb (set_contains k [lit "item"; lit "previous"; lit "match"])) (map_keys scope) in
  if negb (bool_decide (extra = [])) then
    Err (qlit "a pool scope has `item`, `previous` or `match`; not ["
         ++ join (lit ", ") (map repr extra) ++ lit "]")
  else
    item ← match map_get (lit "item") scope with
      | None | Some VNull => Ok None
      | Some (VString i) =>
          if bool_decide (i = []) then Ok None
          else if Nat.leb (length i) 128 then Ok (Some i)
          else Err (lit "item is an item's name")
      | Some _ => Err (lit "item is an item's name")
      end;
    previous ← match map_get (lit "previous") scope with
      | None | Some VNull | Some (VBool false) => Ok false
      | Some (VBool true) => Ok true
      | Some _ => Err (qlit "`previous` must be true or false")
      end;
    m ← match_from_json (map_get (lit "match") scope);
    choice ← match item, previous with
      | None, false => Ok (Any m)
      | Some i, false =>
          if bool_decide (m = []) then Ok (Item i)
          else Err (qlit "ask for one of: an `item` by name, the `previous` one, or any (with `match`)")
      | None, true =>
          if bool_decide (m = []) then Ok Previous
          else Err (qlit "ask for one of: an `item` by name, the `previous` one, or any (with `match`)")
      | _, _ =>
          Err (qlit "ask for one of: an `item` by name, the `previous` one, or any (with `match`)")
      end;
    Ok (APool choice).

Definition permission_name_ok (name : str) : bool :=
  negb (bool_decide (name = [])) && Nat.leb (str_len name) 64
  && forallb (fun b => is_ascii_lowercase b || N.eqb b (ch "_")) name.

(** The loop over the permissions asked for. *)
Fixpoint read_permissions `{RustFmt} (perms : list (str * Value)) (permissions : GithubPermissions)
  : result str GithubPermissions :=
  match perms with
  | [] => Ok permissions
  | (name, level) :: perms' =>
    if negb (permission_name_ok name) then
      Err (lit "unknown GitHub permission " ++ debug_str name)
    else
      match (s ← as_str level; GithubAccess_parse s) with
      | None => Err (lit "permission " ++ debug_str name
                     ++ qlit " must be `read`, `write` or `admin`")
      | Some access => read_permissions perms' (map_insert name access permissions)
      end
  end.

Definition github_from_wire `{RustFmt} (capability : str) (scope : list (str * Value))
  : result str Authority :=
  if str_eqb capability (lit "create") then
  only_keys scope [lit "visibility"]
    (qlit "a github create scope is {`visibility`: `private`|`public`}");;
  match map_get (lit "visibility") scope with
  | None | Some VNull => Ok (AGithub (Create Private))
  | Some (VString v) =>
      if str_eqb v (lit "private") then Ok (AGithub (Create Private))
      else if str_eqb v (lit "public") then Ok (AGithub (Create Public))
      else Err (qlit "visibility must be `private` or `public`")
  | Some _ => Err (qlit "visibility must be `private` or `public`")
  end
  else if negb (str_eqb capability (lit "repo")) then
  Err (qlit "github capability is `repo` or `create`")
  else
  only_keys scope [lit "permissions"] (qlit "a github scope is {`permissions`: {...}}");;
  match map_get (lit "permissions") scope with
  | None | Some VNull => Ok (AGithub (Repo []))
  | Some (VObject perms) =>
      if Nat.ltb 64 (length perms) then Err (lit "too many permissions")
      else permissions ← read_permissions perms []; Ok (AGithub (Repo permissions))
  | Some _ => Err (qlit "`permissions` must be an object")
  end.

(** [options] of [hostexec_from_wire]. *)
Definition wire_options (tier : Tier) (scope : list (str * Value)) : result str CommandOptions :=
  cwd ← match map_get (lit "cwd") scope with
  | None | Some VNull => Ok None
  | Some (VString c) => if bool_decide (c = []) then Ok None else Ok (Some c)
  | Some _ => Err (lit "cwd must be an absolute path")
  end;
  env ← match map_get (lit "env") scope with
  | None | Some VNull => Ok []
  | Some v => map_err (fun _ => lit "env must be an object of strings") (string_map (Some v))
  end;
  timeout ← match map_get (lit "timeout") scope with
  | None | Some VNull => Ok None
  | Some (VNumber n) =>
      match (n ← Number_as_u64 n; u32_try_from n) with
      | Some t => Ok (Some t)
      | None => Err (lit "timeout must be a number of seconds between 1 and 86400")
      end
  | Some _ => Err (lit "timeout must be a number of seconds between 1 and 86400")
  end;
  stdin ← match map_get (lit "stdin") scope with
  | None | Some VNull => Ok None
  | Some (VString s) => Ok (Some s)
  | Some _ => Err (lit "stdin must be text")
  end;
  Ok (mkOptions tier cwd env timeout stdin).

Definition hostexec_from_wire (capability : str) (scope : list (str * Value))
  : result str Authority :=
  match (v ← map_get (lit "tier") scope; s ← as_str v; Tier_parse s) with
  | None => Err (qlit "tier must be `user` or `root`")
  | Some tier =>
    if str_eqb capability (lit "shell") then
      only_keys scope [lit "tier"; lit "mode"]
        (qlit "a shell's scope is {`tier`: `user`|`root`, `mode`?: `watched`|`general`|`guarded`|`umbrella`}");;
      mode ← match map_get (lit "mode") scope with
        | None | Some VNull => Ok Watched
        | Some v => ok_or (s ← as_str v; ShellMode_parse s)
            (qlit "mode must be `watched`, `general`, `guarded` or `umbrella`")
        end;
      Ok (AHostexec (Shell tier mode))
    else
      match strip_prefix (lit "tpl.") capability with
      | Some template =>
          only_keys scope
            [lit "tier"; lit "cwd"; lit "env"; lit "timeout"; lit "stdin"; lit "params"]
            (lit "a template's scope");;
          params ← match map_get (lit "params") scope with
            | None | Some VNull => Ok []
            | Some v => map_err (fun _ => lit "template params must be an object of strings")
                (string_map (Some v))
            end;
          options ← wire_options tier scope;
          Ok (AHostexec (Template template params options))
      | None =>
          if str_eqb capability (lit "run") then
            only_keys scope
              [lit "tier"; lit "cwd"; lit "env"; lit "timeout"; lit "stdin"; lit "argv"]
              (lit "a command's scope");;
            argv ← map_err (fun _ => lit "argv must be a non-empty list of strings")
              (string_list (map_get (lit "argv") scope));
            options ← wire_options tier scope;
            Ok (AHostexec (Run argv options))
          else Err (qlit "hostexec capability is `run`, `tpl.<name>` or `shell`")
      end
  end.

(** The [tools] of an mcp scope, one by one. *)
Definition read_tools (items : list Value) : result str ToolSet :=
  names ← collect (fun item => ok_or (as_str item) (lit "malformed tool name")) items;
  let set := set_of_list names in
  if set_contains (lit "*") set then Ok AllTools else Ok (SomeTools set).

Definition from_wire `{UnicodeLower, RustFmt} (p : Platform) (capability : str)
  (scope : list (str * Value)) : result str Authority :=
  match p with
  | Github => github_from_wire capability scope
  | Homelab =>
    only_keys scope [] (lit "a homelab grant takes no scope");;
    if negb (bool_decide (capability = [])) && negb (str_eqb capability (lit "group"))
    then Err (qlit "homelab capability is `group`")
    else Ok AHomelab
  | Kubernetes =>
    only_keys scope [lit "cluster"] (qlit "a kubernetes scope is {`cluster`: true} or empty");;
    cluster ← match map_get (lit "cluster") scope with
      | None | Some VNull | Some (VBool false) => Ok false
      | Some (VBool true) => Ok true
      | Some _ => Err (qlit "`cluster` must be true or false")
      end;
    if bool_decide (capability = []) then Err (lit "kubernetes capability is the role name")
    else Ok (AKubernetes (mkKubernetes capability cluster))
  | A2a =>
    if negb (str_eqb capability (lit "talk")) then Err (lit "a2a capability must be 'talk'")
    else
      only_keys scope [lit "topic"] (qlit "an a2a scope is {`topic`: `<glob>`} or empty");;
      topic ← match map_get (lit "topic") scope with
        | None | Some VNull => Ok None
        | Some (VString t) =>
            if str_eqb t (lit "*") then Ok None
            else if negb (bool_decide (t = [])) && Nat.leb (str_len t) 256
            then Ok (Some (Glob_new t))
            else Err (qlit "`topic` must be a glob of 1 to 256 characters")
        | Some _ => Err (qlit "`topic` must be a glob of 1 to 256 characters")
        end;
      Ok (AA2a topic)
  | Google =>
    only_keys scope [] (lit "no scope for google grants: the capability is the scope");;
    Ok (AGoogle capability)
  | Agents =>
    only_keys scope [lit "runtime"] (qlit "an agents scope is {`runtime`: `<runtime>`}");;
    runtime ← match map_get (lit "runtime") scope with
      | None | Some VNull => Ok None
      | Some (VString r) => Ok (Some r)
      | Some _ => Err (qlit "`runtime` must be a string")
      end;
    Ok (AAgents capability runtime)
  | Sandbox =>
    only_keys scope [] (lit "a sandbox grant takes no scope");;
    if str_eqb capability (lit "project.read") then Ok (ASandbox ProjectRead)
    else if str_eqb capability (lit "project.write") then Ok (ASandbox ProjectWrite)
    else Err (qlit "sandbox capability is `project.read` or `project.write`")
  | Hostexec => hostexec_from_wire capability scope
  | Mcp =>
    if negb (str_eqb capability (lit "use")) then Err (qlit "mcp capability is `use`")
    else
      only_keys scope [lit "tools"]
        (qlit "an mcp scope is {`tools`: [...]} (omit it for every tool)");;
      tools ← match map_get (lit "tools") scope with
        | None | Some VNull => Ok AllTools
        | Some (VArray items) =>
            if negb (bool_decide (items = [])) && Nat.leb (length items) MAX_MCP_TOOLS
            then read_tools items
            else Err (qlit "`tools` is a list of 1 to 64 tool names, or [`*`]")
        | Some _ => Err (qlit "`tools` is a list of 1 to 64 tool names, or [`*`]")
        end;
      Ok (AMcp tools)
  | Models =>
    if negb (str_eqb capability (lit "use")) then Err (qlit "models capability is `use`")
    else only_keys scope [] (lit "a models grant takes no scope");; Ok AModels
  | Pool => pool_from_wire capability scope
  | Mail => AMail <$> mail_from_wire capability scope
  end.

(** ** The stored form *)

Definition options_json (options : CommandOptions) : list (str * Value) :=
  map_of_list
  [(lit "tier", VString (Tier_as_str (o_tier options)));
   (lit "cwd", json_opt_str (o_cwd options));
   (lit "env", json_str_object (o_env options));
   (lit "timeout", match o_timeout options with
                   | Some t => VNumber (PosInt t) | None => VNull end);
   (lit "stdin", json_opt_str (o_stdin options))].

Definition to_json (a : Authority) : Value :=
  match a with
  | AGithub (Create visibility) =>
    json_obj [(lit "action", VString (lit "create"));
              (lit "visibility", VString (Visibility_as_str visibility))]
  | AGithub (Repo permissions) => json_obj [(lit "permissions", permissions_json permissions)]
  | AHomelab => json_obj []
  | AKubernetes k =>
    if cluster k then json_obj [(lit "role", VString (role k)); (lit "cluster", VBool true)]
    else json_obj [(lit "role", VString (role k))]
  | AA2a (Some t) => json_obj [(lit "topic", VString (glob_source t))]
  | AA2a None => json_obj []
  | AGoogle action => json_obj [(lit "action", VString action)]
  | AAgents action runtime =>
    json_obj [(lit "action", VString action); (lit "runtime", json_opt_str runtime)]
  | ASandbox access => json_obj [(lit "access", VString (ProjectAccess_capability access))]
  | AHostexec (Shell tier mode) =>
    if bool_decide (mode = Watched) then
      json_obj [(lit "action", VString (lit "shell")); (lit "tier", VString (Tier_as_str tier))]
    else
      json_obj [(lit "action", VString (lit "shell")); (lit "tier", VString (Tier_as_str tier));
                (lit "mode", VString (ShellMode_as_str mode))]
  | AHostexec (Window tier) =>
    json_obj [(lit "action", VString (lit "window")); (lit "tier", VString (Tier_as_str tier))]
  | AHostexec (Run argv options) =>
    VObject (map_insert (lit "argv") (json_strs argv)
      (map_insert (lit "action") (VString (lit "run")) (options_json options)))
  | AHostexec (Template template params options) =>
    VObject (map_insert (lit "params") (json_str_object params)
      (map_insert (lit "template") (VString template)
        (map_insert (lit "action") (VString (lit "tpl")) (options_json options))))
  | AMcp tools => json_obj [(lit "tools", tools_json tools)]
  | AModels => json_obj [(lit "action", VString (lit "use"))]
  | APool choice =>
    let '(item, previous, m) :=
      match choice with
      | Item i => (Some i, false, None)
      | Previous => (None, true, None)
      | Any m => (None, false, Some m)
      end in
    json_obj [(lit "action", VString (lit "lease"));
              (lit "item", json_opt_str item);
              (lit "previous", VBool previous);
              (lit "match", match m with Some m => match_json m | None => json_obj [] end)]
  | AMail m => mail_to_json m
  end.

Definition options_from_json (map : list (str * Value)) (tier : Tier)
  : result str CommandOptions :=
  env ← string_map (map_get (lit "env") map);
  timeout ← match (v ← map_get (lit "timeout") map; as_u64 v) with
  | None => Ok None
  | Some t => Some <$> ok_or (u32_try_from t) (lit "stored timeout")
  end;
  Ok (mkOptions tier (v ← map_get (lit "cwd") map; as_str v) env timeout
      (v ← map_get (lit "stdin") map; as_str v)).

Definition stored_permissions (map : list (str * Value)) : result str GithubPermissions :=
  match map_get (lit "permissions") map with
  | Some (VObject perms) =>
    map_of_list <$> collect (fun kv =>
      ok_or ((fun a => (kv.1, a)) <$> (s ← as_str kv.2; GithubAccess_parse s))
        (lit "stored github permission")) perms
  | _ => Ok []
  end.

(** [from_json] before its check that the row is canonical. *)
Definition parse_stored (p : Platform) (map : list (str * Value)) : result str Authority :=
  let s key := v ← map_get key map; as_str v in
  match p with
  | Github =>
    if bool_decide (s (lit "action") = Some (lit "create")) then
      if bool_decide (s (lit "visibility") = Some (lit "private")) then
        Ok (AGithub (Create Private))
      else if bool_decide (s (lit "visibility") = Some (lit "public")) then
        Ok (AGithub (Create Public))
      else Err (lit "stored github visibility")
    else permissions ← stored_permissions map; Ok (AGithub (Repo permissions))
  | Homelab => Ok AHomelab
  | Kubernetes =>
    role ← ok_or (s (lit "role")) (lit "stored kubernetes role");
    Ok (AKubernetes (mkKubernetes role
          (default false (v ← map_get (lit "cluster") map; as_bool v))))
  | A2a => Ok (AA2a (Glob_new <$> s (lit "topic")))
  | Google => Ok (AGoogle (default [] (s (lit "action"))))
  | Agents => Ok (AAgents (default (lit "mint") (s (lit "action"))) (s (lit "runtime")))
  | Sandbox =>
    if bool_decide (s (lit "access") = Some (lit "project.read")) then Ok (ASandbox ProjectRead)
    else if bool_decide (s (lit "access") = Some (lit "project.write")) then
      Ok (ASandbox ProjectWrite)
    else Err (lit "stored sandbox access")
  | Hostexec =>
    tier ← ok_or (t ← s (lit "tier"); Tier_parse t) (lit "stored hostexec tier");
    if bool_decide (s (lit "action") = Some (lit "shell")) then
      mode ← match s (lit "mode") with
        | None => Ok Watched
        | Some m => ok_or (ShellMode_parse m) (lit "stored shell mode")
        end;
      Ok (AHostexec (Shell tier mode))
    else if bool_decide (s (lit "action") = Some (lit "window")) then
      Ok (AHostexec (Window tier))
    else if bool_decide (s (lit "action") = Some (lit "run")) then
      argv ← string_list (map_get (lit "argv") map);
      options ← options_from_json map tier;
      Ok (AHostexec (Run argv options))
    else if bool_decide (s (lit "action") = Some (lit "tpl")) then
      template ← ok_or (s (lit "template")) (lit "stored template");
      params ← string_map (map_get (lit "params") map);
      options ← options_from_json map tier;
      Ok (AHostexec (Template template params options))
    else Err (lit "stored hostexec action")
  | Mcp =>
    tools ← string_list (map_get (lit "tools") map);
    if bool_decide (tools = []) || existsb (fun t => str_eqb t (lit "*")) tools
    then Ok (AMcp AllTools)
    else Ok (AMcp (SomeTools (set_of_list tools)))
  | Models => Ok AModels
  | Pool =>
    item ← match map_get (lit "item") map with
      | None | Some VNull => Ok None
      | Some (VString i) => Ok (Some i)
      | Some _ => Err (lit "stored pool item")
      end;
    let previous := bool_decide ((v ← map_get (lit "previous") map; as_bool v) = Some true) in
    m ← map_err (fun _ => lit "stored pool match") (match_from_json (map_get (lit "match") map));
    choice ← match item, previous with
      | Some i, false =>
          if bool_decide (m = []) then Ok (Item i) else Err (lit "stored pool choice")
      | None, true =>
          if bool_decide (m = []) then Ok Previous else Err (lit "stored pool choice")
      | None, false => Ok (Any m)
      | _, _ => Err (lit "stored pool choice")
      end;
    Ok (APool choice)
  | Mail => AMail <$> mail_from_json map
  end.

Definition from_json (p : Platform) (value : Value) : result str Authority :=
  match value with
  | VObject map =>
    parsed ← parse_stored p map;
    if negb (to_json parsed ==? value) then
      Err (lit "stored " ++ Platform_as_str p ++ lit " authority is not canonical")
    else Ok parsed
  | _ => Err (lit "stored authority is not an object")
  end.

(** ** Which rule covers which request *)

Definition rule_covers (rule : option Authority) (request : Authority) : bool :=
  match rule with
  | None => true
  | Some rule =>
    if rule ==? request then true
    else match rule, request with
    | AHostexec (Window t), AHostexec ((Run _ _ | Template _ _ _) as h) =>
        bool_decide (tier h = t)
    | AMcp allowed, AMcp wanted => ToolSet_covers allowed wanted
    | APool (Any have), APool (Any want) => match_covers have want
    | APool (Any have), APool Previous => match_covers have []
    | AMail rule, AMail wanted => mail_covers rule wanted
    | AHostexec (Shell a _), AHostexec (Shell b _) => bool_decide (a = b)
    | _, _ => false
    end
  end.
End authority.

(** ** Canonical authorities: the ones a stored row can hold *)

Lemma GithubAccess_parse_as_str a : GithubAccess_parse (GithubAccess_as_str a) = Some a.
Proof. by destruct a. Qed.
Lemma Tier_parse_as_str t : Tier_parse (Tier_as_str t) = Some t.
Proof. by destruct t. Qed.
Lemma ShellMode_parse_as_str m : ShellMode_parse (ShellMode_as_str m) = Some m.
Proof. by destruct m. Qed.

Lemma string_list_strs l : string_list (Some (json_strs l)) = Ok l.
Proof. unfold string_list, json_strs. apply collect_strs. Qed.

(** Maps of values that can be read back one by one. *)
Lemma collect_map_values {E V} (f : str * Value -> result E (str * V)) (g : V -> Value) m :
  (forall k v, (k, v) ∈ m -> f (k, g v) = Ok (k, v)) ->
  collect f (map_values g m) = Ok m.
Proof.
  intros Hf. unfold map_values. rewrite collect_fmap.
  rewrite (collect_map _ id); [by rewrite map_id|]. intros [k v]. apply Hf.
Qed.

Lemma string_map_object m : map_sorted m -> string_map (Some (json_str_object m)) = Ok m.
Proof.
  intros Hm. unfold string_map, json_str_object.
  rewrite collect_map_values by done. cbn. by rewrite map_of_list_id.
Qed.

Definition match_ok (m : list (str * PropValue)) : Prop :=
  map_sorted m /\ length m <= MAX_MATCH_KEYS /\
  Forall (fun kv => kv.1 <> [] /\ length kv.1 <= MAX_PROP_CHARS /\ prop_bounded kv.2) m.

Lemma match_from_json_object m : match_ok m -> match_from_json (Some (match_json m)) = Ok m.
Proof.
  intros (Hs & Hl & Hb). unfold match_from_json, match_json, map_values.
  rewrite length_map, (proj2 (Nat.leb_le _ _) Hl).
  change (map (fun kv : str * PropValue => (kv.1, PropValue_to_json kv.2)) m)
with (map_values PropValue_to_json m).
rewrite collect_map_values.
- cbn. by rewrite map_of_list_id.
- intros k v Hin. rewrite Forall_forall in Hb. destruct (Hb _ Hin) as (Hk & Hkl & Hv). cbn [fst snd] in *.
unfold match_entry. rewrite bool_decide_false by done.
rewrite (proj2 (Nat.ltb_ge _ _)) by done. cbn [orb].
by rewrite PropValue_json_roundtrip.
Qed.

Definition options_ok (o : CommandOptions) : Prop :=
  map_sorted (o_env o) /\ forall t, o_timeout o = Some t -> (t < 2 ^ 32)%N.

Section canonical.
Context `{DateLib}.

Definition canonical (a : Authority) : Prop :=
  match a with
  | AGithub (Repo permissions) => map_sorted permissions
  | AA2a (Some g) => g = Glob_new (glob_source g)
  | AHostexec (Run _ o) => options_ok o
  | AHostexec (Template _ params o) => map_sorted params /\ options_ok o
  | AMcp (SomeTools tools) => set_sorted tools /\ tools <> [] /\ lit "*" ∉ tools
  | APool (Any m) => match_ok m
  | AMail m => mail_stored m
  | _ => True
  end.

Lemma options_from_json_canonical o map :
  options_ok o ->
  map_get (lit "env") map = Some (json_str_object (o_env o)) ->
  map_get (lit "cwd") map = Some (json_opt_str (o_cwd o)) ->
  map_get (lit "stdin") map = Some (json_opt_str (o_stdin o)) ->
  map_get (lit "timeout") map = Some (match o_timeout o with
  | Some t => VNumber (PosInt t) | None => VNull end) ->
  options_from_json map (o_tier o) = Ok o.
Proof.
  intros [He Ht] Eenv Ecwd Estdin Et. unfold options_from_json.
  rewrite Eenv, Ecwd, Estdin, Et, string_map_object by done.
  destruct o as [t cwd env timeout stdin]. cbn [o_tier o_env o_cwd o_stdin o_timeout] in *.
  cbn [mbind result_bind option_bind].
  assert (Hj : forall o, as_str (json_opt_str o) = o) by by intros [].
  rewrite !Hj. destruct timeout as [n|]; [|done].
  cbn [as_u64 Number_as_u64]. unfold u32_try_from.
  rewrite (proj2 (N.ltb_lt _ _)) by by apply Ht. done.
Qed.

Lemma stored_text map key (s : str) :
  map_get key map = Some (VString s) -> (v ← map_get key map; as_str v) = Some s.
Proof. by intros ->. Qed.

Lemma parse_stored_run map argv o :
  options_ok o ->
  map_get (lit "tier") map = Some (VString (Tier_as_str (o_tier o))) ->
  map_get (lit "action") map = Some (VString (lit "run")) ->
  map_get (lit "argv") map = Some (json_strs argv) ->
  options_from_json map (o_tier o) = Ok o ->
  parse_stored Hostexec map = Ok (AHostexec (Run argv o)).
Proof.
  intros Ho Ht%stored_text Ha%stored_text Hargv Hopt. unfold parse_stored.
  rewrite Ht. cbn [mbind option_bind]. rewrite Tier_parse_as_str. cbn [ok_or mbind result_bind].
  rewrite Ha, !(bool_decide_false (Some (lit "run") = _)), bool_decide_true by done.
  by rewrite Hargv, string_list_strs, Hopt.
Qed.

Lemma parse_stored_template map tpl params o :
  map_sorted params -> options_ok o ->
  map_get (lit "tier") map = Some (VString (Tier_as_str (o_tier o))) ->
  map_get (lit "action") map = Some (VString (lit "tpl")) ->
  map_get (lit "template") map = Some (VString tpl) ->
  map_get (lit "params") map = Some (json_str_object params) ->
  options_from_json map (o_tier o) = Ok o ->
  parse_stored Hostexec map = Ok (AHostexec (Template tpl params o)).
Proof.
  intros Hp Ho Ht%stored_text Ha%stored_text Htpl%stored_text Hpar Hopt. unfold parse_stored.
  rewrite Ht. cbn [mbind option_bind]. rewrite Tier_parse_as_str. cbn [ok_or mbind result_bind].
  rewrite Ha, !(bool_decide_false (Some (lit "tpl") = _)), bool_decide_true by done.
  by rewrite Htpl, Hpar, string_map_object, Hopt.
Qed.

Lemma parse_stored_canonical a entries :
  canonical a -> to_json a = VObject entries -> parse_stored (platform a) entries = Ok a.
Proof.
  intros Hc Hj.
  destruct a as [[perms|[]]| |[r []]|[g|]|act|act rt|[]|[argv o|tpl params o|[] mode|[]]|[|tools]| |[m| |i]|m];
  cbn [canonical platform] in *; try (by injection Hj as <-).
  - injection Hj as <-. unfold parse_stored, stored_permissions.
  rewrite !(bool_decide_false (_ = Some (lit "create"))) by done.
  change (map_get (lit "permissions") _) with (Some (permissions_json perms)).
  unfold permissions_json. cbn iota. rewrite collect_map_values.
  + cbn. by rewrite map_of_list_id.
  + intros k v _. cbn [fst snd as_str]. cbn [mbind option_bind].
    by rewrite GithubAccess_parse_as_str.
  - injection Hj as <-. exact (f_equal (fun g => Ok (AA2a (Some g))) (eq_sym Hc)).
  - injection Hj as <-. by destruct rt.
  - apply parse_stored_run; [done| | | |apply options_from_json_canonical; [done| | | |]];
    by injection Hj as <-.
  - destruct Hc. apply parse_stored_template;
    [done|done| | | | |apply options_from_json_canonical; [done| | | |]]; by injection Hj as <-.
  - by destruct mode; injection Hj as <-.
  - by destruct mode; injection Hj as <-.
  - injection Hj as <-. destruct Hc as (Hs & Hne & Hstar). unfold parse_stored.
  change (map_get (lit "tools") _) with (Some (json_strs tools)).
  rewrite string_list_strs. cbn [mbind result_bind].
  rewrite (bool_decide_false (tools = [])), set_of_list_id by done.
  destruct (existsb _ tools) eqn:E; [|done]. apply existsb_elem in E as (x & Hx & ->%str_eqb_true).
  done.
  - injection Hj as <-. unfold parse_stored.
  change (map_get (lit "match") _) with (Some (match_json m)).
  rewrite match_from_json_object by done. done.
  - cbn [to_json] in Hj. rewrite mail_to_json_map in Hj. injection Hj as <-.
  unfold parse_stored. by rewrite mail_json_roundtrip.
Qed.

Lemma to_json_object a : exists entries, to_json a = VObject entries.
Proof.
  destruct a as [[perms|[]]| |[r []]|[g|]|act|act rt|[]|[argv o|tpl params o|[] []|[]]|[|tools]| |[m| |i]|m];
  by eexists.
Qed.

Lemma from_json_canonical a : canonical a -> from_json (platform a) (to_json a) = Ok a.
Proof.
  intros Hc. destruct (to_json_object a) as [entries E]. rewrite E. unfold from_json.
  rewrite (parse_stored_canonical a entries) by done. cbn [mbind result_bind].
  rewrite E. by rewrite (req_refl (VObject entries)).
Qed.

Lemma parse_stored_platform p map a : parse_stored p map = Ok a -> platform a = p.
Proof.
  unfold parse_stored. destruct p; intros Hp;
  repeat match type of Hp with
    | (if ?b then _ else _) = _ => destruct b
    | mbind _ _ = Ok _ => apply bind_ok in Hp as (? & _ & Hp)
    end; try (by injection Hp as <-); try done.
  destruct (mail_from_json map); [by injection Hp as <-|done].
Qed.

Lemma from_json_sound p v a :
  from_json p v = Ok a -> platform a = p /\ to_json a ==? v = true.
Proof.
  unfold from_json. destruct v as [| | | | |map]; try done.
  intros (b & Hb & Ha)%bind_ok. apply parse_stored_platform in Hb.
  destruct (to_json b ==? VObject map) eqn:E; [|done]. by injection Ha as <-.
Qed.

(** *** The wire parser yields canonical authorities of its platform *)

Context `{UnicodeLower, RustFmt}.

Lemma read_permissions_sorted perms acc out :
  read_permissions perms acc = Ok out -> map_sorted acc -> map_sorted out.
Proof.
  revert acc; induction perms as [|[name level] perms IH]; intros acc; cbn [read_permissions].
  - by intros [= ->].
  - destruct (permission_name_ok name); [|done]. cbn [negb].
  destruct (s ← as_str level; GithubAccess_parse s); [|done].
  intros Hr Hs. by eapply IH, map_insert_sorted.
Qed.

Lemma string_map_sorted v m : string_map v = Ok m -> map_sorted m.
Proof.
  unfold string_map. destruct v as [[]|]; try done; try (by intros [= <-]).
  destruct (collect _ map); [|done]. intros [= <-]. apply map_of_list_sorted.
Qed.

Lemma match_from_json_ok v m : match_from_json v = Ok m -> match_ok m.
Proof.
  assert (Hnil : match_ok []) by (split_and!; [done|cbn; lia|constructor]).
  unfold match_from_json. destruct v as [[| | | | |map]|]; try done; try (by intros [= <-]).
  destruct (Nat.leb_spec (length map) MAX_MATCH_KEYS) as [Hl|]; [|done].
  destruct (collect match_entry map) as [entries|] eqn:E; [|done]. intros [= <-].
  apply collect_ok in E. split_and!; [apply map_of_list_sorted| |].
  - etransitivity; [apply map_of_list_length|]. by rewrite <- (Forall2_length _ _ _ E).
  - apply Forall_forall. intros kv Hin%map_of_list_elem.
  apply (list_elem_of_lookup_1 entries) in Hin as [i Hi].
  destruct (Forall2_lookup_r _ _ _ _ _ E Hi) as ([k v] & _ & Hkv).
  unfold match_entry in Hkv.
  destruct (bool_decide_reflect (k = [])); [done|]. cbn [orb] in Hkv.
  destruct (Nat.ltb_spec MAX_PROP_CHARS (length k)); [done|].
  destruct (PropValue_from_json v) as [p|] eqn:Ep; [|done]. injection Hkv as <-.
  split_and!; [done|done|]. by apply PropValue_from_json_bounded in Ep.
Qed.

Lemma wire_options_ok t scope o : wire_options t scope = Ok o -> options_ok o /\ o_tier o = t.
Proof.
  unfold wire_options. intros (cwd & _ & Ho)%bind_ok.
  apply bind_ok in Ho as (env & He & Ho). apply bind_ok in Ho as (timeout & Ht & Ho).
  apply bind_ok in Ho as (stdin & _ & Ho). injection Ho as <-. split; [split|done].
  - cbn [o_env]. destruct (map_get _ scope) as [[]|]; try (by injection He as <-);
    (destruct (string_map _) eqn:E; [|done]); injection He as <-; by eapply string_map_sorted.
  - cbn [o_timeout]. intros n ->. destruct (map_get (lit "timeout") scope) as [[]|]; try done.
  destruct (n0 ← Number_as_u64 n0; u32_try_from n0) as [u|] eqn:E; [|done]. injection Ht as ->.
  destruct (Number_as_u64 n0) as [x|]; [|done]. cbn [mbind option_bind] in E.
  unfold u32_try_from in E. destruct (N.ltb_spec x (2 ^ 32)); [|done]. by injection E as <-.
Qed.

Lemma github_from_wire_canonical c s a :
  github_from_wire c s = Ok a -> platform a = Github /\ canonical a.
Proof.
  unfold github_from_wire. intros Hw. destruct (str_eqb c _).
  - apply bind_ok in Hw as (_ & _ & Hw).
  destruct (map_get _ s) as [[| | |v| |]|]; try done; try (by injection Hw as <-).
  destruct (str_eqb v _); [by injection Hw as <-|].
  destruct (str_eqb v _); [by injection Hw as <-|done].
  - destruct (str_eqb c _); [|done]. cbn [negb] in Hw.
  apply bind_ok in Hw as (_ & _ & Hw).
  destruct (map_get _ s) as [[| | | | |perms]|]; try done; try (by injection Hw as <-).
  destruct (Nat.ltb 64 _); [done|]. apply bind_ok in Hw as (ps & Hps & Hw).
  injection Hw as <-. split; [done|]. by eapply read_permissions_sorted.
Qed.

Lemma hostexec_from_wire_canonical c s a :
  hostexec_from_wire c s = Ok a -> platform a = Hostexec /\ canonical a.
Proof.
  unfold hostexec_from_wire. intros Hw.
  destruct (v ← map_get (lit "tier") s; s0 ← as_str v; Tier_parse s0) as [t|]; [|done].
  destruct (str_eqb c _).
  { apply bind_ok in Hw as (_ & _ & Hw). apply bind_ok in Hw as (mode & _ & Hw).
  by injection Hw as <-. }
  destruct (strip_prefix _ c) as [tpl|].
  - apply bind_ok in Hw as (_ & _ & Hw). apply bind_ok in Hw as (params & Hp & Hw).
  apply bind_ok in Hw as (o & Ho & Hw). injection Hw as <-. split; [done|].
  apply wire_options_ok in Ho as [Ho _]. split; [|done].
  destruct (map_get _ s) as [[]|]; try (by injection Hp as <-);
    (destruct (string_map _) eqn:E; [|done]); injection Hp as <-; by eapply string_map_sorted.
  - destruct (str_eqb c _); [|done]. apply bind_ok in Hw as (_ & _ & Hw).
  apply bind_ok in Hw as (argv & _ & Hw). apply bind_ok in Hw as (o & Ho & Hw).
  injection Hw as <-. apply wire_options_ok in Ho as [Ho _]. by split.
Qed.

Lemma pool_from_wire_canonical c s a :
  pool_from_wire c s = Ok a -> platform a = Pool /\ canonical a.
Proof.
  unfold pool_from_wire. intros Hw. destruct (str_eqb c _); [|done]. cbn [negb] in Hw.
  destruct (bool_decide _); [|done]. cbn [negb] in Hw.
  apply bind_ok in Hw as (item & _ & Hw). apply bind_ok in Hw as (prev & _ & Hw).
  apply bind_ok in Hw as (m & Hm%match_from_json_ok & Hw). apply bind_ok in Hw as (ch & Hc & Hw).
  injection Hw as <-. split; [done|].
  destruct item, prev; try done; try (destruct (bool_decide _); [|done]); by injection Hc as <-.
Qed.

Lemma read_tools_canonical items t :
  items <> [] -> read_tools items = Ok t -> canonical (AMcp t).
Proof.
  intros Hne. unfold read_tools. intros (names & Hn & Ht)%bind_ok.
  destruct (set_contains (lit "*") (set_of_list names)) eqn:E; injection Ht as <-; [done|].
  split_and!.
  - apply set_of_list_sorted.
  - apply collect_ok, Forall2_length in Hn. intros Hnil.
  destruct items as [|i items], names as [|n names]; try done.
  assert (n ∈ set_of_list (n :: names)) as Hin by (apply set_of_list_elem; left).
  rewrite Hnil in Hin. by apply not_elem_of_nil in Hin.
  - intros Hin. apply set_contains_true in Hin. by rewrite Hin in E.
Qed.

Lemma from_wire_canonical p c s a :
  from_wire p c s = Ok a -> platform a = p /\ canonical a.
Proof.
  unfold from_wire. intros Hw.
  destruct p; try (apply bind_ok in Hw as (_ & _ & Hw)).
  - by eapply github_from_wire_canonical.
  - destruct (_ && _); [done|]. by injection Hw as <-.
  - apply bind_ok in Hw as (cl & _ & Hw). destruct (bool_decide _); [done|]. by injection Hw as <-.
  - destruct (str_eqb c _); [|done]. cbn [negb] in Hw.
  apply bind_ok in Hw as (_ & _ & Hw). apply bind_ok in Hw as (topic & Ht & Hw).
  injection Hw as <-. split; [done|].
  destruct (map_get _ s) as [[| | |t| |]|]; try done; try (by injection Ht as <-).
  destruct (str_eqb t _); [by injection Ht as <-|]. destruct (_ && _); [|done].
  by injection Ht as <-.
  - by injection Hw as <-.
  - apply bind_ok in Hw as (rt & _ & Hw). by injection Hw as <-.
  - destruct (str_eqb c _); [by injection Hw as <-|].
  destruct (str_eqb c _); [by injection Hw as <-|done].
  - by eapply hostexec_from_wire_canonical.
  - destruct (str_eqb c _); [|done]. cbn [negb] in Hw.
  apply bind_ok in Hw as (_ & _ & Hw). apply bind_ok in Hw as (tools & Ht & Hw).
  injection Hw as <-. split; [done|].
  destruct (map_get _ s) as [[| | | |items|]|]; try done; try (by injection Ht as <-).
  destruct (bool_decide_reflect (items = [])); [done|]. destruct (_ && _); [|done].
  by eapply read_tools_canonical.
  - destruct (str_eqb c _); [|done]. cbn [negb] in Hw.
  apply bind_ok in Hw as (_ & _ & Hw). by injection Hw as <-.
  - by eapply pool_from_wire_canonical.
  - destruct (mail_from_wire c s) as [m|] eqn:E; [|done]. injection Hw as <-.
  split; [done|]. by apply mail_from_wire_normal in E as [[? _ _ _ _] _].
Qed.
End canonical.

(** ** Coverage *)

Lemma ToolSet_covers_refl t : ToolSet_covers t t = true.
Proof. destruct t; [done|]. by apply set_is_subset_true. Qed.

Lemma ToolSet_covers_trans a b c :
  ToolSet_covers a b = true -> ToolSet_covers b c = true -> ToolSet_covers a c = true.
Proof.
  destruct a, b, c; cbn; try done. rewrite !set_is_subset_true. set_solver.
Qed.

Section coverage.
Context `{DateLib}.
Implicit Types rule request a b c : Authority.

(** What a pinned rule covers, as a relation. *)
Inductive covers : Authority -> Authority -> Prop :=
| cov_equal a b : a ==? b = true -> covers a b
| cov_window t h : (forall t' m, h <> Shell t' m) -> (forall t', h <> Window t') ->
tier h = t -> covers (AHostexec (Window t)) (AHostexec h)
| cov_tools x y : ToolSet_covers x y = true -> covers (AMcp x) (AMcp y)
| cov_pool x y : match_covers x y = true -> covers (APool (Any x)) (APool (Any y))
| cov_previous x : x = [] -> covers (APool (Any x)) (APool Previous)
| cov_mail x y : mail_covers x y = true -> covers (AMail x) (AMail y)
| cov_shell t m m' : covers (AHostexec (Shell t m)) (AHostexec (Shell t m')).

Lemma rule_covers_iff rule request :
  rule_covers (Some rule) request = true <-> covers rule request.
Proof.
  unfold rule_covers. split.
  - destruct (rule ==? request) eqn:E; [intros _; by apply cov_equal|].
  destruct rule as [| | | | | | |[| |ts ms|tw]| | |[x| |]|], request as [| | | | | | |[| | |]| | |[| |]|];
    try done; try (intros Ht%bool_decide_eq_true).
  + subst. apply cov_shell.
  + by apply cov_window.
  + by apply cov_window.
  + apply cov_tools.
  + apply cov_pool.
  + intros. apply cov_previous. by apply match_covers_nil_r.
  + apply cov_mail.
  - intros Hc. destruct (rule ==? request) eqn:E; [done|].
  destruct Hc as [a b Heq|t h Hs Hw Ht|x y Hxy|x y Hxy|x Hx|x y Hxy|t m m']; try done.
  + by rewrite Heq in E.
  + destruct h as [| |t' m|t']; cbn in Ht; subst; try (by apply bool_decide_eq_true);
      [by destruct (Hs t m)|by destruct (Hw t)].
  + by subst.
  + by apply bool_decide_eq_true.
Qed.

Lemma match_covers_req_l x y z :
  x ==? y = true -> match_covers y z = true -> match_covers x z = true.
Proof.
  intros Hxy Hyz. revert Hyz. unfold match_covers. revert y Hxy.
  induction x as [|[k v] x IH]; intros [|[l w] y]; try done.
  intros [Hk Hxy]%andb_true_iff. apply andb_true_iff in Hk as [Hk Hv]. cbn [fst snd] in Hk, Hv.
  apply str_req_true in Hk as ->. cbn [forallb fst snd].
  intros [Hw Hy]%andb_true_iff. apply andb_true_iff. split; [|by eapply IH].
  exact (req_trans (map_get l z) (Some w) (Some v) Hw (req_sym v w Hv)).
Qed.

(** Authorities the code takes for equal are covered by the same rules,
    and cover the same requests. *)
Lemma covers_equal_l a b c : a ==? b = true -> covers b c -> covers a c.
Proof.
  intros Heq Hc.
  destruct Hc as [b c Hbc|t h Hs Hw Ht|x y Hxy|x y Hxy|x Hx|x y Hxy|t m m'];
  destruct a; try done.
  all: try (apply cov_equal; exact (req_trans _ _ _ Heq Hbc)).
  - apply bool_decide_eq_true in Heq as ->. by apply cov_window.
  - apply bool_decide_eq_true in Heq as ->. by apply cov_tools.
  - destruct choice; try done. apply cov_pool. eapply match_covers_req_l; [exact Heq|exact Hxy].
  - destruct choice; try done. apply cov_previous. subst. by destruct m.
  - apply bool_decide_eq_true in Heq as ->. by apply cov_mail.
  - apply bool_decide_eq_true in Heq as ->. apply cov_shell.
Qed.

Lemma covers_equal_r a b c : covers a b -> b ==? c = true -> covers a c.
Proof.
  intros Hc Heq.
  destruct Hc as [a b Hab|t h Hs Hw Ht|x y Hxy|x y Hxy|x Hx|x y Hxy|t m m'];
  destruct c; try done.
  all: try (apply cov_equal; exact (req_trans _ _ _ Hab Heq)).
  - apply bool_decide_eq_true in Heq as <-. by apply cov_window.
  - apply bool_decide_eq_true in Heq as <-. by apply cov_tools.
  - destruct choice; try done. apply cov_pool. eapply match_covers_req_r; [exact Heq|exact Hxy].
  - destruct choice; try done. by apply cov_previous.
  - apply bool_decide_eq_true in Heq as <-. by apply cov_mail.
  - apply bool_decide_eq_true in Heq as <-. apply cov_shell.
Qed.

Lemma covers_trans a b c : covers a b -> covers b c -> covers a c.
Proof.
  intros Hab Hbc. inversion Hbc as [? ? Heq|t h Hs Hw Ht|x y Hxy|x y Hxy|x Hx|x y Hxy|t m m']; subst.
  - by eapply covers_equal_r.
  - inversion Hab as [? ? Heq|? h' Hs' Hw'| | | | |]; subst.
  + by eapply covers_equal_l.
  + by destruct (Hw' (tier h)).
  - inversion Hab as [? ? Heq| | | | | |]; subst; [by eapply covers_equal_l|].
  apply cov_tools. by eapply ToolSet_covers_trans.
  - inversion Hab as [? ? Heq| | | | | |]; subst; [by eapply covers_equal_l|].
  apply cov_pool. by eapply match_covers_trans.
  - inversion Hab as [? ? Heq| | | | | |]; subst; [by eapply covers_equal_l|].
  apply cov_previous. by apply match_covers_nil_r.
  - inversion Hab as [? ? Heq| | | | | |]; subst; [by eapply covers_equal_l|].
  apply cov_mail. by eapply mail_covers_trans.
  - inversion Hab as [? ? Heq|? h' Hs' Hw'| | | | |]; subst.
  + by eapply covers_equal_l, cov_shell.
  + by destruct (Hs' t m).
  + apply cov_shell.
Qed.

(** What coverage keeps. *)
Lemma covers_platform a b : covers a b -> platform a = platform b.
Proof. intros [x y Heq| | | | | |]; try done. by destruct x, y. Qed.

Context `{UnicodeLower}.

(** Equal privileges are equally sensitive. *)
Lemma sensitive_at_equal cfg r a b : a ==? b = true -> sensitive_at cfg r a = sensitive_at cfg r b.
Proof.
  destruct a, b; try done; intros Heq; cbn in Heq;
  try (apply bool_decide_eq_true in Heq as ->; done).
  destruct choice, choice0; try done. by apply str_eqb_true in Heq as ->.
Qed.

Lemma sensitive_at_none_some cfg r a :
  sensitive_at cfg None a = true -> sensitive_at cfg (Some r) a = true.
Proof.
  destruct a as [| |k| | | | | | | |[]|]; try done; cbn.
  - destruct (cluster k); [done|]. cbn. intros ->. by rewrite orb_true_r.
  - intros ->. by rewrite orb_true_r.
Qed.

Lemma covers_human_only a b : covers a b -> human_only b = human_only a.
Proof.
  intros [x y Heq|t h Hs Hw| | | | |]; try done.
  - destruct x, y; try done. by apply bool_decide_eq_true in Heq as ->.
  - destruct h as [| |t' m|]; try done. by destruct (Hs t' m).
Qed.

Lemma covers_explicit a b : covers a b -> needs_explicit_rule b = needs_explicit_rule a.
Proof.
  intros [x y Heq| | | | | |]; try done.
  destruct x, y; try done. by apply bool_decide_eq_true in Heq as ->.
Qed.

(** A rule about a request that is sensitive in itself is about a
    sensitive privilege in itself. *)
Lemma covers_sensitive cfg a b :
  covers a b -> sensitive_at cfg None b = true -> sensitive_at cfg None a = true.
Proof.
  intros [x y Heq|t h Hs Hw Ht| | | |x y Hxy|]; try done.
  - by rewrite (sensitive_at_equal cfg None x y Heq).
  - cbn. destruct h as [| |t' m|]; cbn in *; subst; rewrite ?orb_false_r;
    [done|done|by destruct (Hs t m)|done].
  - by apply mail_covers_constrained.
Qed.

(** *** How far a rule reaches *)

Context `{RustFmt}.

(** The tools a request may call. *)
Definition offers (tools : ToolSet) (tool : str) : Prop :=
  match tools with AllTools => True | SomeTools l => tool ∈ l end.

(** What the request lets its holder do, the rule's privilege lets him do. *)
Definition within (rule request : Authority) : Prop :=
  match rule, request with
  | AHostexec (Window t), AHostexec (Run _ options | Template _ _ options) => o_tier options = t
  | AHostexec (Shell t _), AHostexec (Shell t' _) => t' = t
  | AMcp x, AMcp y => forall tool, offers y tool -> offers x tool
  | APool (Any x), APool (Any y) =>
    exists x', x' ==? x = true /\
      forall properties, pool_matches properties y = true -> pool_matches properties x' = true
  | APool (Any x), APool Previous => x = []
  | AMail x, AMail y =>
    (m_action x = MCreate <-> m_action y = MCreate) /\
    (m_action x = MCreate -> m_prefix x = m_prefix y) /\
    (m_topic x = None \/ m_topic y = m_topic x) /\
    forall read address day, mail_reaches y read address day -> mail_reaches x read address day
  | _, _ => rule ==? request = true
  end.

Lemma ToolSet_covers_offers x y tool :
  ToolSet_covers x y = true -> offers y tool -> offers x tool.
Proof.
  destruct x, y; try done. cbn. intros Hs%set_is_subset_true. apply Hs.
Qed.

Lemma mail_covers_within x y : mail_covers x y = true -> within (AMail x) (AMail y).
Proof.
  intros Hc. pose proof Hc as (? & ? & _ & ? & _)%mail_covers_true. split_and!; try done.
  intros read address day. by apply mail_covers_reaches.
Qed.

Lemma equal_within a b : a ==? b = true -> within a b.
Proof.
  intros Heq. destruct a as [| | | | | | |[]| | |[]|], b as [| | | | | | |[]| | |[]|]; try done;
    pose proof Heq as Heq'; cbn in Heq'.
  - apply bool_decide_eq_true in Heq' as [= -> _]. reflexivity.
  - apply bool_decide_eq_true in Heq' as ->. intros tool. exact id.
  - exists m0. split; [by apply (req_sym m m0)|done].
  - apply bool_decide_eq_true in Heq' as ->. apply mail_covers_within, mail_covers_refl.
Qed.

Lemma covers_within a b : covers a b -> within a b.
Proof.
  intros [x y Heq|t h Hs Hw Ht|x y Hxy|x y Hxy|x Hx|x y Hxy|t m m']; try done.
  - by apply equal_within.
  - destruct h as [| |t' m|t']; try done; [by destruct (Hs t' m)|by destruct (Hw t')].
  - intros tool. by apply ToolSet_covers_offers.
  - exists (asked_values x y). split; [by apply asked_values_equal|].
    intros properties. by apply match_covers_selects.
  - by apply mail_covers_within.
Qed.
End coverage.

(** ** Properties *)

(** Coverage by a pinned rule is a preorder on authorities, and an
    unpinned rule covers everything. *)
Theorem rule_covers_preorder `{DateLib} (a b c : Authority) :
  rule_covers None a = true /\
  rule_covers (Some a) a = true /\
  (rule_covers (Some a) b = true -> rule_covers (Some b) c = true ->
    rule_covers (Some a) c = true).
Proof.
  split_and!; [done|apply rule_covers_iff, cov_equal, req_refl|].
  rewrite !rule_covers_iff. apply covers_trans.
Qed.

(** C36: a pinned rule never reaches past its own privilege. What it covers
    is of its platform, is human-only exactly when it is, needs an explicit
    rule exactly when it does, and is sensitive in itself only if the rule's
    own authority is. And it is [within] the rule: a window rule covers
    commands of its tier and no shell; a rule for some tools, requests for no
    other tool; a pool rule, requests whose match selects only items its own
    match selects (its values taken up to a zero's sign, as the language
    compares them), and the previous item only when it asks for nothing; a
    mail rule, requests that let nothing be read or sent, with nobody and of
    no day, that it does not, on its own topic and prefix; a shell rule, shells
    of its tier; and any other rule, only requests equal to it. *)
Theorem rule_covers_narrows `{DateLib, UnicodeLower, RustFmt} cfg rule request :
  rule_covers (Some rule) request = true ->
  platform rule = platform request /\
  human_only request = human_only rule /\
  needs_explicit_rule request = needs_explicit_rule rule /\
  (sensitive_at cfg None request = true -> sensitive_at cfg None rule = true) /\
  within rule request.
Proof.
  rewrite rule_covers_iff. intros Hc. split_and!.
  - by apply covers_platform.
  - by apply covers_human_only.
  - by apply covers_explicit.
  - by apply covers_sensitive.
  - by apply covers_within.
Qed.

Lemma rule_covers_narrows_witness :
  let fmt := Build_RustFmt (fun _ => []) id (fun _ => []) in
  let rule := AHostexec (Window Root) in
  let request := AHostexec (Run [lit "ls"] (mkOptions Root None [] None None)) in
  let some_tools := AMcp (SomeTools [lit "read"; lit "write"]) in
  let fewer := AMcp (SomeTools [lit "read"]) in
  @platform TextCalendar.calendar rule = Hostexec /\
  @sensitive_at TextCalendar.calendar ascii_only_lower SensitivityConfig_default None request = true /\
  @within TextCalendar.calendar ascii_only_lower fmt some_tools fewer.
Proof.
  intros fmt rule request some_tools fewer.
  destruct (@rule_covers_narrows TextCalendar.calendar ascii_only_lower fmt
    SensitivityConfig_default rule request ltac:(vm_compute; reflexivity)) as (Hp & _).
  destruct (@rule_covers_narrows TextCalendar.calendar ascii_only_lower fmt
    SensitivityConfig_default some_tools fewer ltac:(vm_compute; reflexivity))
    as (_ & _ & _ & _ & Hw).
  split; [exact Hp|split; [vm_compute; reflexivity|exact Hw]].
Defined.

(** An authority read from the wire is of the platform asked for, and its
    stored form is read back as exactly it. *)
Theorem wire_authority_stored `{DateLib, UnicodeLower, RustFmt} p capability scope a :
  from_wire p capability scope = Ok a ->
  platform a = p /\ from_json p (to_json a) = Ok a.
Proof.
  intros [<- Hc]%from_wire_canonical. split; [done|by apply from_json_canonical].
Qed.

Lemma wire_authority_stored_witness :
  let fmt := Build_RustFmt (fun _ => []) id (fun _ => []) in
  let scope := [(lit "match", VObject [(lit "size", VNumber (PosInt 3))])] in
  let a := @APool TextCalendar.calendar (Any [(lit "size", PNum (PosInt 3))]) in
  platform a = Pool /\ from_json Pool (to_json a) = Ok a.
Proof.
  intros fmt scope a.
  exact (@wire_authority_stored TextCalendar.calendar ascii_only_lower fmt Pool (lit "lease")
    scope a ltac:(vm_compute; reflexivity)).
Defined.

(** C40: reading a stored row is strict: a row that is read is an object,
    yields an authority of the row's platform, and is what this authority is
    stored as; so rows read to equal authorities are equal. *)
Theorem from_json_strict `{DateLib} p v w a :
  (from_json p v = Ok a -> platform a = p /\ to_json a ==? v = true) /\
  (from_json p v = Ok a -> from_json p w = Ok a -> v ==? w = true).
Proof.
  split; [apply from_json_sound|].
  intros [_ Hv]%from_json_sound [_ Hw]%from_json_sound.
  exact (req_trans v (to_json a) w (req_sym _ _ Hv) Hw).
Qed.

Lemma from_json_strict_witness :
  let v := VObject [(lit "role", VString (lit "view"))] in
  let a := @AKubernetes TextCalendar.calendar (mkKubernetes (lit "view") false) in
  platform a = Kubernetes /\ to_json a ==? v = true.
Proof.
  intros v a.
  exact (proj1 (@from_json_strict TextCalendar.calendar Kubernetes v v a)
    ltac:(vm_compute; reflexivity)).
Defined.
