(* ===== verification/Routing.v ===== *)
(** The gates between a policy decision and what happens to a request
    ([crates/core/src/routing.rs]), and the two steps a shell command passes
    before it is sent ([shell_mode.rs]). *)

From S2P Require Import Prelude Json Glob Pyfmt Lifecycle Pool Mail Authority.
From stdpp Require Import options.

(** An id is its UUID, a 128-bit number. *)
Abbreviation RequestId := N (only parsing).

Inductive PolicyAction := Deny | Approve | Llm | Surface.
#[export] Instance PolicyAction_eq_dec : EqDecision PolicyAction.
Proof. solve_decision. Defined.

Definition PolicyAction_ALL : list PolicyAction := [Deny; Approve; Llm; Surface].
Definition PolicyAction_as_str (a : PolicyAction) : str :=
  match a with
  | Deny => lit "deny" | Approve => lit "approve" | Llm => lit "llm" | Surface => lit "surface"
  end.
Definition PolicyAction_parse (s : str) : option PolicyAction :=
  find (fun a => str_eqb (PolicyAction_as_str a) s) PolicyAction_ALL.
(** Would this clear the request without a human? *)
Definition is_auto (a : PolicyAction) : bool :=
  match a with Approve | Llm => true | _ => false end.

Record GateFacts := mkFacts {
  zone_requires_human : bool;
  gf_human_only : bool;
  web_connector : bool;
  sensitive : bool;
  gf_sensitive_by_resource : bool;
  gf_needs_explicit_rule : bool;
}.

Record RuleStrength := mkStrength { pinned : bool; explicit : bool; names_resource : bool }.
Definition NO_STRENGTH : RuleStrength := mkStrength false false false.

Definition clears_sensitive (s : RuleStrength) (facts : GateFacts) : bool :=
  pinned s && (names_resource s || negb (gf_sensitive_by_resource facts)).

Inductive Downgrade := ZoneGate | HumanOnlyGate | WebConnectorGate | SensitiveGate | NotNamedGate.
#[export] Instance Downgrade_eq_dec : EqDecision Downgrade.
Proof. solve_decision. Defined.

Record Gated := mkGated { g_action : PolicyAction; downgrades : list Downgrade }.

(** What the gates carry along: the action, the rule's strength and the
    downgrades so far. *)
Record gate_state := mkGateState {
  gs_action : PolicyAction;
  gs_strength : RuleStrength;
  gs_downgrades : list Downgrade;
}.

(** The closure [gate]: fires only while the action is still automatic. *)
Definition gate_step (fires : bool) (why : Downgrade) (strip : bool) (s : gate_state)
    : gate_state :=
  if is_auto (gs_action s) && fires
  then mkGateState Surface (if strip then NO_STRENGTH else gs_strength s)
         (gs_downgrades s ++ [why])
  else s.

Definition gate (proposed : PolicyAction) (strength : RuleStrength) (facts : GateFacts) : Gated :=
  let s := mkGateState proposed strength [] in
  let s := gate_step (zone_requires_human facts) ZoneGate true s in
  let s := gate_step (gf_human_only facts) HumanOnlyGate true s in
  let s := gate_step (web_connector facts) WebConnectorGate true s in
  let sensitive_blocks := sensitive facts && negb (clears_sensitive (gs_strength s) facts) in
  let s := gate_step sensitive_blocks SensitiveGate false s in
  let unnamed_blocks := gf_needs_explicit_rule facts && negb (explicit (gs_strength s)) in
  let s := gate_step unnamed_blocks NotNamedGate false s in
  mkGated (gs_action s) (gs_downgrades s).

Definition may_auto_clear (strength : RuleStrength) (facts : GateFacts) : bool :=
  negb (zone_requires_human facts)
  && negb (gf_human_only facts)
  && negb (web_connector facts)
  && (negb (sensitive facts)
      || (pinned strength && (names_resource strength || negb (gf_sensitive_by_resource facts))))
  && (negb (gf_needs_explicit_rule facts) || explicit strength).

Section route.
Context `{DateLib}.

Record AutoClearance := mkAuto {
  ac_request : RequestId; ac_authority : Authority; ac_source : DecisionSource
}.
Record LlmClearance := mkLlm { lc_request : RequestId; lc_authority : Authority }.

Inductive Route :=
| RDeny
| RSurface
| RApprove (c : AutoClearance)
| RLlm (c : LlmClearance).

Definition Route_action (r : Route) : PolicyAction :=
  match r with RDeny => Deny | RSurface => Surface | RApprove _ => Approve | RLlm _ => Llm end.

Definition route (action : PolicyAction) (request : RequestId) (authority : Authority)
  (source : DecisionSource) : Route :=
  match action with
  | Deny => RDeny
  | Surface => RSurface
  | Approve => RApprove (mkAuto request authority source)
  | Llm => RLlm (mkLlm request authority)
  end.

(** A route is only as automatic as the action it was made for. *)
Lemma route_action action request authority source :
  Route_action (route action request authority source) = action.
Proof. by destruct action. Qed.
End route.

(** ** Shell commands *)

Inductive GuardOutcome := NotAsked | Allow | Refuse (alarming : bool) | Unavailable.
Inductive ShellRefusal :=
| NeedsScope | NoScopes | Guard (alarming : bool) | GuardUnavailable | GuardNotAsked.

Definition scope_rule (mode : ShellMode) (scoped : bool) : result ShellRefusal unit :=
  match mode, scoped with
  | Umbrella, false => Err NeedsScope
  | Umbrella, true => Ok tt
  | _, true => Err NoScopes
  | _, false => Ok tt
  end.

Definition after_guard (mode : ShellMode) (guard : GuardOutcome) : result ShellRefusal unit :=
  if negb (guarded mode) then Ok tt
  else match guard with
  | Allow => Ok tt
  | Refuse alarming => Err (Guard alarming)
  | Unavailable => Err GuardUnavailable
  | NotAsked => Err GuardNotAsked
  end.

(** ** Lemmas *)

(** A proposal that is not automatic passes untouched. *)
Lemma gate_not_auto proposed strength facts :
  is_auto proposed = false -> gate proposed strength facts = mkGated proposed [].
Proof.
  intros Ha. unfold gate, gate_step. cbn [gs_action gs_strength gs_downgrades].
  repeat (rewrite Ha; cbn [andb gs_action gs_strength gs_downgrades]). done.
Qed.

(** The first gate that fires decides; no later one does. *)
Lemma gate_auto proposed strength facts :
  is_auto proposed = true ->
  gate proposed strength facts =
    if zone_requires_human facts then mkGated Surface [ZoneGate]
    else if gf_human_only facts then mkGated Surface [HumanOnlyGate]
    else if web_connector facts then mkGated Surface [WebConnectorGate]
    else if sensitive facts && negb (clears_sensitive strength facts)
    then mkGated Surface [SensitiveGate]
    else if gf_needs_explicit_rule facts && negb (explicit strength)
    then mkGated Surface [NotNamedGate]
    else mkGated proposed [].
Proof.
  intros Ha. unfold gate, gate_step. cbn [gs_action gs_strength gs_downgrades].
  rewrite Ha. cbn [andb].
  destruct (zone_requires_human facts); [done|]. cbn [gs_action gs_strength gs_downgrades].
  rewrite Ha. cbn [andb].
  destruct (gf_human_only facts); [done|]. cbn [gs_action gs_strength gs_downgrades].
  rewrite Ha. cbn [andb].
  destruct (web_connector facts); [done|]. cbn [gs_action gs_strength gs_downgrades].
  rewrite Ha. cbn [andb].
  destruct (sensitive facts && _); [done|]. cbn [gs_action gs_strength gs_downgrades].
  rewrite Ha. cbn [andb].
  by destruct (gf_needs_explicit_rule facts && _).
Qed.

Lemma gate_keeps_iff proposed strength facts :
  is_auto proposed = true ->
  g_action (gate proposed strength facts) = proposed <-> may_auto_clear strength facts = true.
Proof.
  intros Ha. rewrite gate_auto by done. unfold may_auto_clear, clears_sensitive.
  assert (Surface <> proposed) by by destruct proposed.
  destruct (zone_requires_human facts), (gf_human_only facts), (web_connector facts),
    (sensitive facts), (gf_needs_explicit_rule facts), (pinned strength && _), (explicit strength);
    cbn; intuition congruence.
Qed.

Lemma gate_auto_iff proposed strength facts :
  is_auto (g_action (gate proposed strength facts)) = true <->
  is_auto proposed = true /\ may_auto_clear strength facts = true.
Proof.
  destruct (is_auto proposed) eqn:Ha.
  - rewrite <- (gate_keeps_iff proposed strength facts Ha). split.
    + intros Hg. split; [done|]. rewrite gate_auto in * by done. by repeat case_match.
    + by intros [_ ->].
  - rewrite gate_not_auto by done. cbn. rewrite Ha. split; [done|by intros []].
Qed.

(** What an automatic action that passed the gates went with. *)
Lemma gate_auto_needs proposed strength facts :
  is_auto (g_action (gate proposed strength facts)) = true ->
  zone_requires_human facts = false /\ gf_human_only facts = false /\
  web_connector facts = false /\
  (sensitive facts = true -> pinned strength = true /\
    (gf_sensitive_by_resource facts = true -> names_resource strength = true)) /\
  (gf_needs_explicit_rule facts = true -> explicit strength = true).
Proof.
  intros [_ Hm]%gate_auto_iff. unfold may_auto_clear in Hm.
  destruct (zone_requires_human facts), (gf_human_only facts), (web_connector facts),
    (sensitive facts), (gf_sensitive_by_resource facts), (gf_needs_explicit_rule facts),
    (pinned strength), (names_resource strength), (explicit strength); cbn in Hm; done.
Qed.

(** ** Properties *)

(** The gates only ever downgrade: their action is the proposal or
    [surface]; a proposal is kept with no downgrade, or replaced by exactly
    the first gate that applies; a denial and a surface stay themselves. An
    automatic action survives exactly when the independently written
    predicate [may_auto_clear] allows it. *)
Theorem gate_downgrades_only proposed strength facts :
  let g := gate proposed strength facts in
  (g_action g = proposed /\ downgrades g = [] \/
   is_auto proposed = true /\ g_action g = Surface /\ length (downgrades g) = 1) /\
  (is_auto (g_action g) = true <->
   is_auto proposed = true /\ may_auto_clear strength facts = true).
Proof.
  intros g. subst g. split; [|apply gate_auto_iff]. destruct (is_auto proposed) eqn:Ha.
  - rewrite gate_auto by done. repeat case_match; auto.
  - rewrite gate_not_auto by done. by left.
Qed.

(** A shell command that passes both steps was scoped exactly when its
    shell is an umbrella, and was explicitly allowed by the guard in every
    guarded mode; a guard that could not be asked refuses it. *)
Theorem shell_command_sent mode scoped guard :
  (scope_rule mode scoped = Ok tt /\ after_guard mode guard = Ok tt) <->
  (scoped = true <-> mode = Umbrella) /\
  (mode = Guarded \/ mode = Umbrella -> guard = Allow).
Proof.
  destruct mode, scoped, guard; cbn; split; try done; try tauto;
    try (intros [? ?]; done); try (intros [[] ?]; naive_solver);
    try (intros [[? Hs] Hg]; naive_solver); naive_solver.
Qed.
