(* ===== verification/Agents.v ===== *)
(** What an agent is and the patterns that pick agents
    ([crates/core/src/policy/agents.rs]), the placeholders of a rule's
    resource, and which agents a containment entry holds
    ([crates/core/src/containment.rs]).

    Positions in a resource are counted in characters (the code counts bytes;
    they only cut the same text). *)

From S2P Require Import Prelude Json Glob Pyfmt Names Pool.
From stdpp Require Import options.

(** ** Agents *)

Inductive Placement := Host | InSandbox.
Inductive AgentKind := Service | Ephemeral | Operator.
#[export] Instance Placement_eq_dec : EqDecision Placement.
Proof. solve_decision. Defined.
#[export] Instance AgentKind_eq_dec : EqDecision AgentKind.
Proof. solve_decision. Defined.

Definition Placement_ALL : list Placement := [Host; InSandbox].
Definition Placement_as_str (p : Placement) : str :=
  match p with Host => lit "host" | InSandbox => lit "sandbox" end.
Definition Placement_parse (s : str) : option Placement :=
  find (fun p => str_eqb (Placement_as_str p) s) Placement_ALL.

Definition AgentKind_ALL : list AgentKind := [Service; Ephemeral; Operator].
Definition AgentKind_as_str (k : AgentKind) : str :=
  match k with
  | Service => lit "service" | Ephemeral => lit "ephemeral" | Operator => lit "operator"
  end.
Definition AgentKind_parse (s : str) : option AgentKind :=
  find (fun k => str_eqb (AgentKind_as_str k) s) AgentKind_ALL.

Definition MATCHABLE_KINDS : list AgentKind := [Service; Ephemeral].
Definition WEB_RUNTIME : str := lit "web".

Record AgentRef := mkAgent {
  a_name : str;
  a_runtime : option str;
  a_project : option str;
  a_host : option str;
  a_placement : Placement;
  a_kind : AgentKind;
}.

Definition AgentRef_named (name : str) : AgentRef := mkAgent name None None None Host Service.
Definition is_web (a : AgentRef) : bool := bool_decide (a_runtime a = Some WEB_RUNTIME).
Definition is_operator (a : AgentRef) : bool := bool_decide (a_kind a = Operator).

Definition describe (agent : AgentRef) : str :=
  let vm := if bool_decide (a_placement agent = InSandbox) then Some (lit "VM") else None in
  join (lit " · ")
    (List.filter (fun p => negb (bool_decide (p = [])))
      (omap id [a_runtime agent; a_project agent; a_host agent; vm])).

(** ** Patterns *)

Record AgentMatch := mkMatch {
  am_name : Glob;
  am_runtime : option (list str);
  am_project : option (list str);
  am_host : option (list str);
  am_placement : option (list Placement);
  am_kind : option (list AgentKind);
}.

Definition MATCH_FIELDS : list str :=
  [lit "name"; lit "runtime"; lit "project"; lit "host"; lit "placement"; lit "kind"].

Definition AgentMatch_default : AgentMatch := mkMatch Glob_any None None None None None.

Definition one_or_many (field : str) (v : Value) : result str (option (list str)) :=
  let bad := field ++ lit ": a string or a list of strings" in
  match v with
  | VNull => Ok None
  | VString s => Ok (Some [s])
  | VArray items => Some <$> collect (fun i => ok_or (as_str i) bad) items
  | _ => Err bad
  end.

Definition attr_values (field : str) (v : Value) : result str (option (list str)) :=
  items ← one_or_many field v;
  match items with
  | None => Ok None
  | Some items =>
      values ← collect (fun s => map_err (fun e => field ++ lit ": " ++ e) (AttrValue_parse s)) items;
      if bool_decide (values = []) then
        Err (field ++ lit ": an empty list matches no agent; leave the field out for any")
      else Ok (Some values)
  end.

Definition enum_values {T} (field : str) (v : Value) (parse : str -> option T) (allowed : str)
    : result str (option (list T)) :=
  items ← one_or_many field v;
  match items with
  | None => Ok None
  | Some items =>
      Some <$> collect (fun s => ok_or (parse s)
        (field ++ lit ": " ++ repr s ++ lit " is not one of " ++ allowed)) items
  end.

Definition matchable_kind (s : str) : option AgentKind :=
  find (fun k => str_eqb (AgentKind_as_str k) s) MATCHABLE_KINDS.

(** One turn of [AgentMatch::from_value]'s loop. *)
Definition match_field (out : AgentMatch) (key : str) (v : Value) : result str AgentMatch :=
  if str_eqb key (lit "name") then
    match v with
    | VString s => Ok (mkMatch (Glob_new s) (am_runtime out) (am_project out) (am_host out)
                         (am_placement out) (am_kind out))
    | _ => Err (lit "name: a glob (a string)")
    end
  else if str_eqb key (lit "runtime") then
    x ← attr_values (lit "runtime") v;
    Ok (mkMatch (am_name out) x (am_project out) (am_host out) (am_placement out) (am_kind out))
  else if str_eqb key (lit "project") then
    x ← attr_values (lit "project") v;
    Ok (mkMatch (am_name out) (am_runtime out) x (am_host out) (am_placement out) (am_kind out))
  else if str_eqb key (lit "host") then
    x ← attr_values (lit "host") v;
    Ok (mkMatch (am_name out) (am_runtime out) (am_project out) x (am_placement out) (am_kind out))
  else if str_eqb key (lit "placement") then
    x ← enum_values (lit "placement") v Placement_parse (lit "host, sandbox");
    Ok (mkMatch (am_name out) (am_runtime out) (am_project out) (am_host out) x (am_kind out))
  else if str_eqb key (lit "kind") then
    x ← enum_values (lit "kind") v matchable_kind (lit "service, ephemeral");
    Ok (mkMatch (am_name out) (am_runtime out) (am_project out) (am_host out) (am_placement out) x)
  else Err (lit "unknown field `" ++ key ++ lit "` (an agent match takes "
            ++ join (lit ", ") MATCH_FIELDS ++ lit ")").

Fixpoint match_fields (out : AgentMatch) (map : list (str * Value)) : result str AgentMatch :=
  match map with
  | [] => Ok out
  | (key, v) :: map' => out ← match_field out key v; match_fields out map'
  end.

Definition AgentMatch_from_value (value : Value) : result str AgentMatch :=
  match value with
  | VObject map => match_fields AgentMatch_default map
  | _ => Err (lit "an agent match is a mapping of name, runtime, project, host, placement, kind")
  end.

Definition listed (m : AgentMatch) : list (str * list str) :=
  let field (key : str) (o : option (list str)) :=
    match o with Some v => [(key, v)] | None => [] end in
  field (lit "runtime") (am_runtime m) ++ field (lit "project") (am_project m)
  ++ field (lit "host") (am_host m)
  ++ field (lit "placement") (map Placement_as_str <$> am_placement m)
  ++ field (lit "kind") (map AgentKind_as_str <$> am_kind m).

Definition AgentMatch_to_value (m : AgentMatch) : Value :=
  let map := if str_eqb (glob_source (am_name m)) (lit "*") then []
             else map_insert (lit "name") (VString (glob_source (am_name m))) [] in
  VObject (fold_left (fun map kv => map_insert kv.1 (json_strs kv.2) map) (listed m) map).

Definition AgentMatch_projects (m : AgentMatch) : list str := default [] (am_project m).

(** [has] of [matches]. *)
Definition has_attr (wanted : option (list str)) (actual : option str) : bool :=
  match wanted with
  | None => true
  | Some list => match actual with Some a => existsb (fun w => str_eqb w a) list | None => false end
  end.

Definition AgentMatch_matches (m : AgentMatch) (agent : AgentRef) : bool :=
  has_attr (am_runtime m) (a_runtime agent)
  && has_attr (am_project m) (a_project agent)
  && has_attr (am_host m) (a_host agent)
  && is_none_or (fun p => existsb (fun x => bool_decide (x = a_placement agent)) p) (am_placement m)
  && is_none_or (fun k => existsb (fun x => bool_decide (x = a_kind agent)) k) (am_kind m)
  && glob_matches (am_name m) (a_name agent).

Definition name_glob_matches_everyone (g : Glob) : bool :=
  matches_every_nonempty_over g AGENT_NAME_ALPHABET.

Definition AgentMatch_matches_everyone (m : AgentMatch) : bool :=
  name_glob_matches_everyone (am_name m)
  && is_none (am_runtime m) && is_none (am_project m) && is_none (am_host m)
  && is_none_or (fun p => forallb (fun x => existsb (fun y => bool_decide (y = x)) p) Placement_ALL)
       (am_placement m)
  && is_none_or (fun k => forallb (fun x => existsb (fun y => bool_decide (y = x)) k) MATCHABLE_KINDS)
       (am_kind m).

Definition AgentMatch_text (m : AgentMatch) : str :=
  let name := if str_eqb (glob_source (am_name m)) (lit "*") then []
              else [lit "name: " ++ escape_unprintable (glob_source (am_name m))] in
  lit "{" ++ join (lit ", ")
    (name ++ map (fun kv => kv.1 ++ lit ": " ++ join (lit "|") kv.2) (listed m)) ++ lit "}".

Inductive AgentPattern := PName (g : Glob) | PFields (m : AgentMatch).

Definition AgentPattern_default : AgentPattern := PName Glob_any.

Definition AgentPattern_from_value (value : Value) : result str AgentPattern :=
  match value with
  | VString s => Ok (PName (Glob_new s))
  | VObject _ => PFields <$> AgentMatch_from_value value
  | _ => Err (lit "an agent pattern is a name glob or a mapping of fields")
  end.

Definition AgentPattern_to_value (p : AgentPattern) : Value :=
  match p with PName g => VString (glob_source g) | PFields m => AgentMatch_to_value m end.

Definition pattern_matches (p : AgentPattern) (agent : AgentRef) : bool :=
  match p with PName g => glob_matches g (a_name agent) | PFields m => AgentMatch_matches m agent end.

Definition matches_everyone (p : AgentPattern) : bool :=
  match p with
  | PName g => name_glob_matches_everyone g
  | PFields m => AgentMatch_matches_everyone m
  end.

Definition pattern_projects (p : AgentPattern) : list str :=
  match p with PName _ => [] | PFields m => AgentMatch_projects m end.

Definition pattern_text (p : AgentPattern) : str :=
  match p with PName g => escape_unprintable (glob_source g) | PFields m => AgentMatch_text m end.

(** ** Delegation *)

Inductive Delegation := NotDelegated | ByAgent (a : AgentRef) | Gone.

Definition is_delegated (d : Delegation) : bool :=
  match d with NotDelegated => false | _ => true end.
Definition delegation_is_web (d : Delegation) : bool :=
  match d with ByAgent a => is_web a | _ => false end.

Definition delegator_axis (rule_names_delegator delegator_fits delegated grants_access : bool)
    : bool :=
  if rule_names_delegator then delegated && delegator_fits
  else negb delegated || negb grants_access.

Definition delegator_matches (pattern : option AgentPattern) (delegation : Delegation)
    (grants_access : bool) : bool :=
  let fits := match pattern, delegation with
              | Some p, ByAgent d => pattern_matches p d
              | _, _ => false
              end in
  delegator_axis (negb (is_none pattern)) fits (is_delegated delegation) grants_access.

(** ** Placeholders of a rule's resource *)

Record Project := mkProject { description : str; repos : list str }.

Definition PLACEHOLDERS : list str :=
  [lit "runtime"; lit "project"; lit "host"; lit "repos"].

(** [str::find]: where [p] first occurs. *)
Fixpoint find_sub (p s : str) : option nat :=
  match strip_prefix p s with
  | Some _ => Some 0
  | None => match s with [] => None | _ :: s' => S <$> find_sub p s' end
  end.

Definition OPEN : str := lit "{agent.".

(** The loop of [placeholders]; [rest] is [resource[i..]]. *)
Fixpoint placeholders_from (fuel i : nat) (rest : str) : list (nat * nat * str) :=
  match fuel with
  | O => []
  | S fuel =>
      match find_sub OPEN rest with
      | None => []
      | Some found =>
          let after := drop (found + length OPEN) rest in
          let name := take_while is_ascii_lowercase after in
          let name_len := length name in
          if Nat.ltb 0 name_len && bool_decide (head (drop name_len after) = Some (ch "}"))
          then
            let end_ := i + found + length OPEN + name_len + 1 in
            (i + found, end_, name)
              :: placeholders_from fuel end_ (drop (name_len + 1) after)
          else placeholders_from fuel (i + found + 1) (drop (found + 1) rest)
      end
  end.

Definition placeholders (resource : str) : list (nat * nat * str) :=
  placeholders_from (S (length resource)) 0 resource.

Definition slice (s : str) (from to : nat) : str := take (to - from) (drop from s).

(** [stripped]: the text between the placeholders. *)
Fixpoint strip_ranges (resource : str) (found : list (nat * nat * str)) (last : nat) : str :=
  match found with
  | [] => drop last resource
  | (start, end_, _) :: found' => slice resource last start ++ strip_ranges resource found' end_
  end.

Definition braced (name : str) : str := lit "{agent." ++ name ++ lit "}".

Definition check_resource (resource : str) : result str unit :=
  let found := placeholders resource in
  match find (fun f : nat * nat * str => negb (set_contains f.2 PLACEHOLDERS)) found with
  | Some (_, _, name) =>
      Err (lit "resource " ++ repr resource ++ lit ": unknown placeholder " ++ braced name
           ++ lit " (there are: " ++ join (lit ", ") (map braced PLACEHOLDERS) ++ lit ")")
  | None =>
      if elem_b (ch "{") (strip_ranges resource found 0) then
        Err (lit "resource " ++ repr resource
             ++ lit ": a brace that is not an {agent.…} placeholder")
      else Ok tt
  end.

(** [str::replace]. *)
Fixpoint replace_from (fuel : nat) (needle value s : str) : str :=
  match fuel with
  | O => s
  | S fuel =>
      match find_sub needle s with
      | None => s
      | Some k => take k s ++ value ++ replace_from fuel needle value (drop (k + length needle) s)
      end
  end.
Definition replace (needle value s : str) : str := replace_from (S (length s)) needle value s.

Definition glob_literal (value : str) : str := escape value.

Definition some_nonempty (o : option str) : list str :=
  match o with Some v => if bool_decide (v = []) then [] else [v] | None => [] end.

Definition placeholder_values (agent : AgentRef) (projects : list (str * Project)) (name : str)
    : list str :=
  let declared := p ← (match a_project agent with
                       | Some p => if bool_decide (p = []) then None else Some p
                       | None => None end);
                  map_get p projects in
  if str_eqb name (lit "repos") then
    match declared with Some p => repos p | None => [] end
  else if str_eqb name (lit "project") then
    match declared with Some _ => some_nonempty (a_project agent) | None => [] end
  else if str_eqb name (lit "runtime") then some_nonempty (a_runtime agent)
  else if str_eqb name (lit "host") then some_nonempty (a_host agent)
  else [].

Definition fill (name : str) (values : list str) (out : list str) : list str :=
  flat_map (fun r => map (fun v => replace (braced name) (glob_literal v) r) values) out.

Definition resources_for (resource : str) (agent : AgentRef) (projects : list (str * Project))
    : list str :=
  let names := set_of_list (map snd (placeholders resource)) in
  fold_left (fun out name => fill name (placeholder_values agent projects name) out)
    names [resource].

(** ** Containment *)

Module Containment.
(** An agent with the agents that minted it, nearest first. *)
Inductive AgentFacts := mkFacts {
f_agent : AgentRef;
ancestors : list AgentFacts;
}.

Definition FIELDS : list str :=
  [lit "name"; lit "runtime"; lit "project"; lit "host"; lit "placement"; lit "kind"].

Section parse.
Context `{RustFmt}.

Definition valid_attr (s : str) : bool :=
  match s with
  | [] => false
  | first :: chars =>
  (is_ascii_lowercase first || is_ascii_digit first)
  && Nat.leb (str_len s) 64
  && forallb (fun c => is_ascii_lowercase c || is_ascii_digit c
     || (N.eqb c (ch ".") || N.eqb c (ch "_") || N.eqb c (ch "-"))) chars
  end.

Definition attr_list (field : str) (value : Value) : result str (option (list str)) :=
  list ← one_or_many field value;
  match list with
  | None => Ok None
  | Some items =>
  if bool_decide (items = []) then
  Err (field ++ lit ": an empty list matches no agent; leave the field out for any")
  else match find (fun i => negb (valid_attr i)) items with
  | Some bad => Err (field ++ lit ": " ++ debug_str bad
                   ++ lit ": lowercase letters, digits, dots, dashes and underscores")
  | None => Ok (Some items)
  end
  end.

Definition enum_list {T} (field : str) (value : Value) (parse : str -> option T)
  : result str (option (list T)) :=
  list ← one_or_many field value;
  match list with
  | None => Ok None
  | Some items =>
  Some <$> collect (fun i => ok_or (parse i)
  (field ++ lit ": " ++ debug_str i ++ lit " is not allowed")) items
  end.

Definition parse_map (map : list (str * Value)) : result str AgentMatch :=
  match find (fun k => negb (set_contains k FIELDS)) (map_keys map) with
  | Some extra => Err (extra ++ lit ": extra inputs are not permitted")
  | None =>
  let get k := default VNull (map_get k map) in
  name ← match map_get (lit "name") map with
  | None => Ok Glob_any
  | Some (VString s) => Ok (Glob_new s)
  | Some _ => Err (lit "name: a string")
  end;
  runtime ← attr_list (lit "runtime") (get (lit "runtime"));
  project ← attr_list (lit "project") (get (lit "project"));
  host ← attr_list (lit "host") (get (lit "host"));
  placement ← enum_list (lit "placement") (get (lit "placement")) Placement_parse;
  kind ← enum_list (lit "kind") (get (lit "kind")) matchable_kind;
  Ok (mkMatch name runtime project host placement kind)
  end.

Definition parse (value : Value) : result str AgentMatch :=
  match value with
  | VObject map => parse_map map
  | _ => Err (lit "a match is an object")
  end.

(** Python truthiness, negated. *)
Definition is_falsy (value : Value) : bool :=
  match value with
  | VNull => true
  | VBool b => negb b
  | VNumber (PosInt u) => N.eqb u 0
  | VNumber (NegInt i) => Z.eqb i 0
  | VNumber (Float bits) => float_is_zero bits
  | VString s => bool_decide (s = [])
  | VArray a => match a with [] => true | _ => false end
  | VObject o => match o with [] => true | _ => false end
  end.

Definition matches (m : AgentMatch) (agent : AgentFacts) : bool :=
  AgentMatch_matches m (f_agent agent).

Definition holds (entry_match : Value) (agent : AgentFacts) : bool :=
  if bool_decide (a_kind (f_agent agent) = Operator) then false
  else if is_falsy entry_match then true
  else match parse entry_match with
  | Ok m => matches m agent
      || existsb (fun a => negb (bool_decide (a_kind (f_agent a) = Operator)) && matches m a)
           (ancestors agent)
  | Err _ => true
  end.

Definition first_holding {E} (entries : list E) (match_of : E -> Value) (agent : AgentFacts)
  : option E :=
  find (fun e => holds (match_of e) agent) entries.
End parse.

Definition pattern_text (m : AgentMatch) : str :=
  let name := if str_eqb (glob_source (am_name m)) (lit "*") then []
            else [lit "name: " ++ glob_source (am_name m)] in
  lit "{" ++ join (lit ", ")
  (name ++ map (fun kv => kv.1 ++ lit ": " ++ join (lit "|") kv.2) (listed m)) ++ lit "}".
End Containment.

(** ** Lemmas *)

Lemma alphabet_iff c : c ∈ AGENT_NAME_ALPHABET <-> agent_name_char c = true.
Proof.
  rewrite <- elem_b_true. split.
  - intros Hc%elem_b_true.
    assert (Hall : forallb agent_name_char AGENT_NAME_ALPHABET = true) by (by vm_compute).
    rewrite forallb_elem in Hall. by apply Hall.
  - intros Hc. assert (Hlt : (c < 128)%N).
    { unfold agent_name_char, is_ascii_alphanumeric, is_ascii_alphabetic, is_ascii_lowercase,
        is_ascii_uppercase, is_ascii_digit, in_range in Hc.
      rewrite !orb_true_iff, !andb_true_iff, !N.leb_le, !N.eqb_eq in Hc. lia. }
    assert (Hs : N.to_nat c ∈ seq 0 128) by (apply elem_of_seq; lia). clear Hlt.
    assert (Hall : forallb (fun n => implb (agent_name_char (N.of_nat n))
      (elem_b (N.of_nat n) AGENT_NAME_ALPHABET)) (seq 0 128) = true) by (by vm_compute).
    rewrite forallb_elem in Hall. specialize (Hall _ Hs). cbv beta in Hall. rewrite N2Nat.id in Hall.
    exact (proj1 (Bool.implb_true_iff _ _) Hall Hc).
Qed.

Lemma agent_name_valid s :
  AgentName_parse s = Ok s <-> s <> [] /\ over AGENT_NAME_ALPHABET s /\ length s <= 128.
Proof.
  unfold AgentName_parse. rewrite (shaped_parse_ok _ _ _ (fun _ => _)).
  assert (Hov : over AGENT_NAME_ALPHABET s <-> Forall (fun c => agent_name_char c = true) s)
    by (unfold over; split; intros Hs; (eapply Forall_impl; [exact Hs|]); intros c; apply alphabet_iff).
  rewrite Hov. unfold shape, AGENT_NAME_MAX. split.
  - intros [_ (c & cs & -> & Hc & Hcs & Hl)]. split_and!; [done|by constructor|cbn; lia].
  - intros (Hne & Hall & Hl). split; [done|]. destruct s as [|c cs]; [done|].
    inversion Hall; subst. exists c, cs. split_and!; try done. cbn in Hl. lia.
Qed.

Lemma has_attr_none_iff w : has_attr w None = true <-> w = None.
Proof. by destruct w. Qed.

Lemma existsb_in {A} `{EqDecision A} (x : A) l :
  existsb (fun y => bool_decide (y = x)) l = true <-> x ∈ l.
Proof.
  rewrite existsb_elem. split.
  - by intros (y & ? & ->%bool_decide_eq_true).
  - intros. exists x. by rewrite bool_decide_eq_true.
Qed.

Lemma AgentMatch_matches_true m a :
  AgentMatch_matches m a = true <->
  has_attr (am_runtime m) (a_runtime a) = true /\ has_attr (am_project m) (a_project a) = true /\
  has_attr (am_host m) (a_host a) = true /\
  (forall l, am_placement m = Some l -> a_placement a ∈ l) /\
  (forall l, am_kind m = Some l -> a_kind a ∈ l) /\
  glob_matches (am_name m) (a_name a) = true.
Proof.
  unfold AgentMatch_matches. rewrite !andb_true_iff.
  assert (Hn : forall A (d : EqDecision A) (x : A) o,
    is_none_or (fun p => existsb (fun y => bool_decide (y = x)) p) o = true <->
    forall l, o = Some l -> x ∈ l).
  { intros A d x [l|]; cbn [is_none_or]; [|done]. rewrite existsb_in. naive_solver. }
  rewrite !Hn. tauto.
Qed.

Lemma AgentMatch_everyone_iff m :
  AgentMatch_matches_everyone m = true <->
  forall a, AgentName_parse (a_name a) = Ok (a_name a) -> a_kind a <> Operator ->
    AgentMatch_matches m a = true.
Proof.
  unfold AgentMatch_matches_everyone. split.
  - intros Hm. bools. intros a (Hne & Hov & _)%agent_name_valid Hk.
    apply AgentMatch_matches_true.
    assert (Hnone : forall A (o : option A), is_none o = true -> o = None) by by intros A [].
    split_and!; try (by match goal with H : is_none ?o = true |- has_attr ?o _ = true =>
      rewrite (Hnone _ _ H) end).
    + intros l El. match goal with H : is_none_or _ (am_placement m) = true |- _ =>
        rewrite El in H; cbn in H end. bools.
      rewrite !existsb_in in *. by destruct (a_placement a).
    + intros l El. match goal with H : is_none_or _ (am_kind m) = true |- _ =>
        rewrite El in H; cbn in H end. bools.
      rewrite !existsb_in in *. by destruct (a_kind a).
    + by apply (every_nonempty_sound _ AGENT_NAME_ALPHABET).
  - intros Hm.
    assert (Hname : forall s, s <> [] -> over AGENT_NAME_ALPHABET s -> length s <= 2 ->
      forall p k, k <> Operator ->
      AgentMatch_matches m (mkAgent s None None None p k) = true).
    { intros s Hs Ho Hl p k Hk. apply Hm; [|done]. apply agent_name_valid. split_and!; [done|done|].
      cbn. lia. }
    assert (Ha : over AGENT_NAME_ALPHABET [ch "a"])
      by (constructor; [apply alphabet_iff; by vm_compute|constructor]).
    assert (Hne : [ch "a"] <> []) by done. assert (Hl : length [ch "a"] <= 2) by (cbn; lia).
    pose proof (fun p k (Hk : k <> Operator) => proj1 (AgentMatch_matches_true m _)
      (Hname [ch "a"] Hne Ha Hl p k Hk)) as Hmin.
    cbn [a_runtime a_project a_host a_placement a_kind] in Hmin.
    destruct (Hmin Host Service) as (Hr & Hp & Hh & _); [done|].
    rewrite has_attr_none_iff in Hr, Hp, Hh. rewrite Hr, Hp, Hh. cbn [is_none].
    rewrite !andb_true_iff. split_and!; try done.
    + apply every_nonempty_complete; [done|]. intros s Hs Ho Hl2.
      specialize (Hname s Hs Ho Hl2 Host Service). apply AgentMatch_matches_true in Hname; [|done].
      by destruct Hname as (_ & _ & _ & _ & _ & ?).
    + destruct (am_placement m) as [l|] eqn:El; [|done]. cbn. rewrite !andb_true_iff, !existsb_in.
      destruct (Hmin Host Service) as (_ & _ & _ & H1 & _); [done|].
      destruct (Hmin InSandbox Service) as (_ & _ & _ & H2 & _); [done|].
      split_and!; [by apply H1|by apply H2|done].
    + destruct (am_kind m) as [l|] eqn:El; [|done]. cbn. rewrite !andb_true_iff, !existsb_in.
      destruct (Hmin Host Service) as (_ & _ & _ & _ & H1 & _); [done|].
      destruct (Hmin Host Ephemeral) as (_ & _ & _ & _ & H2 & _); [done|].
      split_and!; [by apply H1|by apply H2|done].
Qed.

(** *** Placeholders *)

Lemma find_sub_none a p s : a ∉ s -> find_sub (a :: p) s = None.
Proof.
  induction s as [|c s IH]; intros Hs; [done|]. apply not_elem_of_cons in Hs as [Hc Hs].
  cbn [find_sub strip_prefix]. rewrite (proj2 (N.eqb_neq a c)) by done. by rewrite IH.
Qed.

Lemma find_sub_first a p pre x :
  a ∉ pre -> find_sub (a :: p) (pre ++ (a :: p) ++ x) = Some (length pre).
Proof.
  induction pre as [|c pre IH]; intros Hs.
  - cbn [app length]. change (a :: p ++ x) with ((a :: p) ++ x).
    assert (H : forall s, strip_prefix (a :: p) s = Some x -> find_sub (a :: p) s = Some 0)
      by (intros [|y s]; cbn [find_sub]; by intros ->).
    apply H, strip_prefix_app.
  - apply not_elem_of_cons in Hs as [Hc Hs].
    cbn [app find_sub strip_prefix length]. rewrite (proj2 (N.eqb_neq a c)) by done.
    change (find_sub (a :: p) (pre ++ a :: p ++ x)) with (find_sub (a :: p) (pre ++ (a :: p) ++ x)).
    by rewrite IH.
Qed.

Lemma OPEN_eq : OPEN = ch "{" :: lit "agent.".
Proof. by vm_compute. Qed.

Lemma braced_eq name : braced name = ch "{" :: (lit "agent." ++ name ++ lit "}").
Proof. done. Qed.

Lemma find_OPEN_none s : ch "{" ∉ s -> find_sub OPEN s = None.
Proof. rewrite OPEN_eq. apply find_sub_none. Qed.

Lemma find_OPEN_first pre x : ch "{" ∉ pre -> find_sub OPEN (pre ++ OPEN ++ x) = Some (length pre).
Proof. rewrite OPEN_eq. apply find_sub_first. Qed.

Lemma placeholders_from_none fuel i s : ch "{" ∉ s -> placeholders_from fuel i s = [].
Proof.
  intros Hs. destruct fuel; [done|]. cbn [placeholders_from]. by rewrite find_OPEN_none.
Qed.

Lemma placeholders_one pre name post :
  ch "{" ∉ pre -> ch "{" ∉ post -> name <> [] ->
  Forall (fun c => is_ascii_lowercase c = true) name ->
  map snd (placeholders (pre ++ braced name ++ post)) = [name].
Proof.
  intros Hpre Hpost Hne Hn. unfold placeholders. set (fuel := length _).
  assert (Hbr : pre ++ braced name ++ post = pre ++ OPEN ++ (name ++ ch "}" :: post)).
  { unfold braced, OPEN. by rewrite <- !app_assoc. }
  rewrite Hbr. cbn [placeholders_from]. rewrite find_OPEN_first by done.
  rewrite (app_assoc pre OPEN), drop_app_exact by (by rewrite length_app).
  rewrite take_while_app by done. rewrite !drop_app_length. cbn [head].
  rewrite bool_decide_true by done.
  assert (Hl : Nat.ltb 0 (length name) = true) by (destruct name; done).
  rewrite Hl. cbn [andb map snd]. f_equal.
  change (name ++ ch "}" :: post) with (name ++ [ch "}"] ++ post).
  rewrite app_assoc, drop_app_exact by (by rewrite length_app).
  by rewrite placeholders_from_none.
Qed.

Lemma replace_none needle v s a p :
  needle = a :: p -> a ∉ s -> replace needle v s = s.
Proof. intros -> Hs. unfold replace. cbn [replace_from]. by rewrite find_sub_none. Qed.

Lemma replace_one needle v pre post a p :
  needle = a :: p -> a ∉ pre -> a ∉ post -> replace needle v (pre ++ needle ++ post) = pre ++ v ++ post.
Proof.
  intros -> Hpre Hpost. unfold replace. cbn [replace_from].
  rewrite find_sub_first by done. rewrite take_app_length. do 2 f_equal.
  rewrite (app_assoc pre), drop_app_exact by (by rewrite length_app).
  destruct (length _); [done|]. cbn [replace_from]. by rewrite find_sub_none.
Qed.

Lemma resources_for_plain r agent projects :
  ch "{" ∉ r -> resources_for r agent projects = [r].
Proof.
  intros Hr. unfold resources_for, placeholders. by rewrite placeholders_from_none.
Qed.

Lemma PLACEHOLDERS_lower name :
  name ∈ PLACEHOLDERS -> name <> [] /\ Forall (fun c => is_ascii_lowercase c = true) name.
Proof.
  assert (Hall : forallb (fun n => negb (bool_decide (n = [])) && forallb is_ascii_lowercase n)
    PLACEHOLDERS = true) by (by vm_compute).
  rewrite forallb_elem in Hall. intros Hn%Hall. bools. split; [done|].
  apply Forall_forall. by apply forallb_elem.
Qed.

Lemma resources_for_one pre name post agent projects :
  ch "{" ∉ pre -> ch "{" ∉ post -> name ∈ PLACEHOLDERS ->
  resources_for (pre ++ braced name ++ post) agent projects =
    map (fun v => pre ++ glob_literal v ++ post) (placeholder_values agent projects name).
Proof.
  intros Hpre Hpost [Hne Hl]%PLACEHOLDERS_lower. unfold resources_for.
  rewrite placeholders_one by done. cbn [fold_left set_of_list set_insert].
  unfold fill. cbn [flat_map]. rewrite app_nil_r. apply map_ext. intros v.
  by apply (replace_one (braced name) _ _ _ _ _ (braced_eq name)).
Qed.

(** *** A pattern's mapping form *)

(** What [from_value] yields. *)
Record match_normal (m : AgentMatch) : Prop := {
  mm_name : am_name m = Glob_new (glob_source (am_name m));
  mm_runtime : forall l, am_runtime m = Some l -> l <> [] /\ Forall (fun s => AttrValue_parse s = Ok s) l;
  mm_project : forall l, am_project m = Some l -> l <> [] /\ Forall (fun s => AttrValue_parse s = Ok s) l;
  mm_host : forall l, am_host m = Some l -> l <> [] /\ Forall (fun s => AttrValue_parse s = Ok s) l;
  mm_kind : forall l, am_kind m = Some l -> Forall (fun k => k ∈ MATCHABLE_KINDS) l;
}.

Lemma attr_values_normal field v l :
  attr_values field v = Ok (Some l) -> l <> [] /\ Forall (fun s => AttrValue_parse s = Ok s) l.
Proof.
  unfold attr_values. intros (items & _ & Hv)%bind_ok. destruct items as [items|]; [|done].
  apply bind_ok in Hv as (values & Hc%collect_ok & Hv).
  destruct (bool_decide_reflect (values = [])); [done|]. injection Hv as <-. split; [done|].
  apply Forall_forall. intros s Hs. apply (list_elem_of_lookup_1 values) in Hs as [i Hi].
  destruct (Forall2_lookup_r _ _ _ _ _ Hc Hi) as (x & _ & Hx).
  destruct (AttrValue_parse x) as [y|] eqn:E; [|done]. injection Hx as ->.
  pose proof E as E'. unfold AttrValue_parse in E'.
  apply (shaped_parse_ok _ _ _ (fun s => _)) in E' as [-> _]. done.
Qed.

Lemma match_field_normal out key v out' :
  match_normal out -> match_field out key v = Ok out' -> match_normal out'.
Proof.
  intros [H1 H2 H3 H4 H5] Hf. unfold match_field in Hf.
  destruct (str_eqb key _).
  { destruct v; try done. injection Hf as <-. by split. }
  destruct (str_eqb key _).
  { apply bind_ok in Hf as (x & Hx & Hf). injection Hf as <-. split; try done.
    intros l El; cbn in El; subst x. by eapply attr_values_normal. }
  destruct (str_eqb key _).
  { apply bind_ok in Hf as (x & Hx & Hf). injection Hf as <-. split; try done.
    intros l El; cbn in El; subst x. by eapply attr_values_normal. }
  destruct (str_eqb key _).
  { apply bind_ok in Hf as (x & Hx & Hf). injection Hf as <-. split; try done.
    intros l El; cbn in El; subst x. by eapply attr_values_normal. }
  destruct (str_eqb key _).
  { apply bind_ok in Hf as (x & Hx & Hf). injection Hf as <-. by split. }
  destruct (str_eqb key _); [|done].
  apply bind_ok in Hf as (x & Hx & Hf). injection Hf as <-. split; try done.
  intros l El; cbn in El; subst x. unfold enum_values in Hx. apply bind_ok in Hx as (items & _ & Hx).
  destruct items as [items|]; [|done].
  destruct (collect _ items) as [ks|] eqn:Hc; [|done]. injection Hx as ->.
  apply collect_ok in Hc. apply Forall_forall. intros k Hk.
  apply (list_elem_of_lookup_1 l) in Hk as [i Hi].
  destruct (Forall2_lookup_r _ _ _ _ _ Hc Hi) as (s & _ & Hs).
  destruct (matchable_kind s) as [k'|] eqn:E; [|done]. injection Hs as ->.
  apply find_some in E as [E _]. by apply list_elem_of_In.
Qed.

Lemma AgentMatch_from_value_normal v m : AgentMatch_from_value v = Ok m -> match_normal m.
Proof.
  destruct v as [| | | | |map]; try done. cbn [AgentMatch_from_value].
  assert (H0 : match_normal AgentMatch_default) by (by split).
  revert H0. generalize AgentMatch_default. induction map as [|[k v] map IH]; intros out Ho.
  - by intros [= ->].
  - cbn [match_fields]. intros (out' & Hf & Hm)%bind_ok. eapply IH; [|exact Hm].
    by eapply match_field_normal.
Qed.

Lemma attr_values_strs field l :
  l <> [] -> Forall (fun s => AttrValue_parse s = Ok s) l ->
  attr_values field (json_strs l) = Ok (Some l).
Proof.
  intros Hne Hl. unfold attr_values, one_or_many, json_strs.
  rewrite collect_fmap. rewrite (collect_map _ id) by done. rewrite map_id.
  cbn [fmap result_fmap mbind result_bind].
  rewrite (collect_map _ id), map_id.
  - cbn [mbind result_bind]. by rewrite bool_decide_false.
  - intros s Hs. rewrite Forall_forall in Hl. by rewrite (Hl s Hs).
Qed.

Lemma enum_values_strs {T} field (l : list T) (f : T -> str) parse allowed :
  (forall x, x ∈ l -> parse (f x) = Some x) ->
  enum_values field (json_strs (map f l)) parse allowed = Ok (Some l).
Proof.
  intros Hl. unfold enum_values, one_or_many, json_strs.
  rewrite collect_fmap. rewrite (collect_map _ id) by done. rewrite map_id.
  cbn [fmap result_fmap mbind result_bind]. rewrite collect_fmap.
  rewrite (collect_map _ id), map_id; [done|].
  intros x Hx. by rewrite Hl.
Qed.

(** The mapping written, in key order. *)
Definition match_entries (m : AgentMatch) : list (str * Value) :=
  let field (key : str) (o : option (list str)) :=
    match o with Some v => [(key, json_strs v)] | None => [] end in
  field (lit "host") (am_host m)
  ++ field (lit "kind") (map AgentKind_as_str <$> am_kind m)
  ++ (if str_eqb (glob_source (am_name m)) (lit "*") then []
      else [(lit "name", VString (glob_source (am_name m)))])
  ++ field (lit "placement") (map Placement_as_str <$> am_placement m)
  ++ field (lit "project") (am_project m) ++ field (lit "runtime") (am_runtime m).

Lemma AgentMatch_to_value_entries m : AgentMatch_to_value m = VObject (match_entries m).
Proof.
  unfold AgentMatch_to_value, match_entries. destruct m as [g r p h pl k].
  cbn [am_name am_runtime am_project am_host am_placement am_kind].
  destruct (str_eqb (glob_source g) (lit "*")), r, p, h, pl, k; reflexivity.
Qed.

Lemma match_fields_app out a b :
  match_fields out (a ++ b) = (out' ← match_fields out a; match_fields out' b).
Proof.
  revert out; induction a as [|[k v] a IH]; intros out; [done|].
  cbn [app match_fields]. destruct (match_field out k v); [|done]. apply IH.
Qed.

Lemma match_field_host out v :
  match_field out (lit "host") v = (x ← attr_values (lit "host") v;
    Ok (mkMatch (am_name out) (am_runtime out) (am_project out) x (am_placement out) (am_kind out))).
Proof. reflexivity. Qed.
Lemma match_field_project out v :
  match_field out (lit "project") v = (x ← attr_values (lit "project") v;
    Ok (mkMatch (am_name out) (am_runtime out) x (am_host out) (am_placement out) (am_kind out))).
Proof. reflexivity. Qed.
Lemma match_field_runtime out v :
  match_field out (lit "runtime") v = (x ← attr_values (lit "runtime") v;
    Ok (mkMatch (am_name out) x (am_project out) (am_host out) (am_placement out) (am_kind out))).
Proof. reflexivity. Qed.
Lemma match_field_placement out v :
  match_field out (lit "placement") v =
    (x ← enum_values (lit "placement") v Placement_parse (lit "host, sandbox");
     Ok (mkMatch (am_name out) (am_runtime out) (am_project out) (am_host out) x (am_kind out))).
Proof. reflexivity. Qed.
Lemma match_field_kind out v :
  match_field out (lit "kind") v =
    (x ← enum_values (lit "kind") v matchable_kind (lit "service, ephemeral");
     Ok (mkMatch (am_name out) (am_runtime out) (am_project out) (am_host out) (am_placement out) x)).
Proof. reflexivity. Qed.

Lemma AgentMatch_roundtrip m :
  match_normal m -> AgentMatch_from_value (AgentMatch_to_value m) = Ok m.
Proof.
  intros [H1 H2 H3 H4 H5]. rewrite AgentMatch_to_value_entries. unfold match_entries.
  cbn [AgentMatch_from_value]. destruct m as [g r p h pl k].
  cbn [am_name am_runtime am_project am_host am_placement am_kind] in *.
  rewrite match_fields_app. apply (bind_intro _ _ (mkMatch Glob_any None None h None None)).
  { destruct h as [h|]; [|done]. destruct (H4 h eq_refl). cbn [match_fields].
    by rewrite match_field_host, attr_values_strs. }
  rewrite match_fields_app. apply (bind_intro _ _ (mkMatch Glob_any None None h None k)).
  { destruct k as [k|]; [|done]. cbn [fmap option_fmap option_map match_fields].
    rewrite match_field_kind, (enum_values_strs _ _ AgentKind_as_str); [done|].
    intros x Hx. specialize (H5 k eq_refl). rewrite Forall_forall in H5. apply H5 in Hx.
    destruct x; [done|done|]. by apply elem_of_cons in Hx as [?|[?|?%not_elem_of_nil]%elem_of_cons]. }
  rewrite match_fields_app. apply (bind_intro _ _ (mkMatch g None None h None k)).
  { destruct (str_eqb (glob_source g) (lit "*")) eqn:E.
    - apply str_eqb_true in E. rewrite E in H1. by rewrite H1.
    - by rewrite H1 at 2. }
  rewrite match_fields_app. apply (bind_intro _ _ (mkMatch g None None h pl k)).
  { destruct pl as [pl|]; [|done]. cbn [fmap option_fmap option_map match_fields].
    rewrite match_field_placement, (enum_values_strs _ _ Placement_as_str); [done|].
    by intros []. }
  rewrite match_fields_app. apply (bind_intro _ _ (mkMatch g None p h pl k)).
  { destruct p as [p|]; [|done]. destruct (H3 p eq_refl). cbn [match_fields].
    by rewrite match_field_project, attr_values_strs. }
  destruct r as [r|]; [|done]. destruct (H2 r eq_refl). cbn [match_fields].
  by rewrite match_field_runtime, attr_values_strs.
Qed.

(** *** Containment *)

Section containment.
Import Containment.
Context `{RustFmt}.

Lemma holds_parsed entry m agent :
  a_kind (f_agent agent) <> Operator -> is_falsy entry = false -> parse entry = Ok m ->
  holds entry agent = true <->
  matches m agent = true \/
  exists a, a ∈ ancestors agent /\ a_kind (f_agent a) <> Operator /\ matches m a = true.
Proof.
  intros Hk Hf Hp. unfold holds. rewrite bool_decide_false, Hf, Hp by done.
  rewrite orb_true_iff, existsb_elem.
  split; (intros [?|(a & Ha & Hb)]; [by left|right; exists a]).
  - bools. by split_and!.
  - destruct Hb as [Hb Hm]. split; [done|]. rewrite Hm, andb_true_r.
  by apply negb_true_iff, bool_decide_eq_false.
Qed.
End containment.

(** ** Properties *)

(** A pattern is told to hold every agent ([matches_everyone], what
    [allow_all] guards) exactly when it matches every agent with a valid
    name that is not the operator. *)
Theorem matches_everyone_exact p :
  matches_everyone p = true <->
  forall a, AgentName_parse (a_name a) = Ok (a_name a) -> a_kind a <> Operator ->
    pattern_matches p a = true.
Proof.
  destruct p as [g|m]; [|apply AgentMatch_everyone_iff].
  cbn [matches_everyone pattern_matches]. unfold name_glob_matches_everyone. split.
  - intros Hg a (Hne & Ho & _)%agent_name_valid _. by apply (every_nonempty_sound _ AGENT_NAME_ALPHABET).
  - intros Hg. apply every_nonempty_complete; [done|]. intros s Hne Ho Hl.
    apply (Hg (AgentRef_named s)); [|done]. apply agent_name_valid. split_and!; [done|done|cbn; lia].
Qed.

(** A rule that names a delegator matches only requests made on behalf
    of a living agent its pattern matches; one that names none matches
    every request made for the agent itself, and a delegated one only when
    it does not grant access. *)
Theorem delegation_exact pattern delegation grants_access :
  delegator_matches pattern delegation grants_access = true <->
  match pattern with
  | Some p => exists a, delegation = ByAgent a /\ pattern_matches p a = true
  | None => delegation = NotDelegated \/ grants_access = false
  end.
Proof.
  unfold delegator_matches, delegator_axis.
  destruct pattern as [p|], delegation as [|a|], grants_access; cbn; naive_solver.
Qed.

(** A placeholder in a rule's resource stands for the requesting
    agent's own value and nothing else: with one placeholder the candidates
    are the text around it with that value taken literally, one per value;
    a resource that is only the placeholder reaches exactly those values. *)
Theorem placeholder_own_value pre name post agent projects :
  ch "{" ∉ pre -> ch "{" ∉ post -> name ∈ PLACEHOLDERS ->
  resources_for (pre ++ braced name ++ post) agent projects =
    map (fun v => pre ++ glob_literal v ++ post) (placeholder_values agent projects name) /\
  (forall resource,
    existsb (fun r => fnmatch resource r) (resources_for (braced name) agent projects) = true <->
    resource ∈ placeholder_values agent projects name).
Proof.
  intros Hpre Hpost Hn. split; [by apply resources_for_one|]. intros resource.
  assert (E : resources_for (braced name) agent projects =
    map glob_literal (placeholder_values agent projects name)).
  { pose proof (resources_for_one [] name [] agent projects) as E.
    rewrite !app_nil_l, !app_nil_r in E. rewrite E; [|apply not_elem_of_nil..|done].
    apply map_ext. intros v. apply app_nil_r. }
  rewrite E, existsb_elem. split.
  - intros (r & Hr & Hm). apply list_elem_of_fmap in Hr as (v & -> & Hv).
    by apply fnmatch_escape_iff in Hm as ->.
  - intros Hv. exists (glob_literal resource). split; [by apply list_elem_of_fmap_2|].
    by apply fnmatch_escape_iff.
Qed.

Lemma placeholder_own_value_witness :
  let agent := mkAgent (lit "a") None (Some (lit "app")) None Host Service in
  let projects := [(lit "app", mkProject [] [lit "jrt/app*"; lit "jrt/lib"])] in
  resources_for (braced (lit "repos")) agent projects = [lit "jrt/app[*]"; lit "jrt/lib"].
Proof.
  intros agent projects.
  exact (proj1 (placeholder_own_value [] (lit "repos") [] agent projects
    ltac:(apply not_elem_of_nil) ltac:(apply not_elem_of_nil)
    ltac:(apply set_contains_true; vm_compute; reflexivity))).
Defined.

(** A pattern read from the policy is written back to a value that is
    read as the same pattern. *)
Theorem agent_pattern_roundtrip v p :
  AgentPattern_from_value v = Ok p -> AgentPattern_from_value (AgentPattern_to_value p) = Ok p.
Proof.
  destruct v as [| | |s| |map]; try done.
  - by intros [= <-].
  - cbn [AgentPattern_from_value]. destruct (AgentMatch_from_value (VObject map)) as [m|] eqn:E; [|done].
    intros [= <-]. apply AgentMatch_from_value_normal, AgentMatch_roundtrip in E.
    cbn [AgentPattern_to_value]. rewrite AgentMatch_to_value_entries in *.
    unfold AgentPattern_from_value. by rewrite E.
Qed.

Lemma agent_pattern_roundtrip_witness :
  let p := PFields (mkMatch Glob_any None (Some [lit "app"]) None (Some [InSandbox]) None) in
  AgentPattern_from_value (AgentPattern_to_value p) = Ok p.
Proof.
  intros p. apply (agent_pattern_roundtrip
    (VObject [(lit "placement", VString (lit "sandbox")); (lit "project", VString (lit "app"))])).
  vm_compute. reflexivity.
Defined.

(** Containment: the operator is never held (INV-C-1); an entry that is
    empty or does not parse holds every other agent (INV-C-2); one that
    parses holds exactly the agents it describes and those minted, however
    far up, by a non-operator agent it describes (INV-C-3); so an agent is
    held with the agent that minted it. *)
Theorem containment_invariants `{RustFmt} entry (agent parent : Containment.AgentFacts) :
  (a_kind (Containment.f_agent agent) = Operator -> Containment.holds entry agent = false) /\
  (a_kind (Containment.f_agent agent) <> Operator ->
    (Containment.is_falsy entry = true -> Containment.holds entry agent = true) /\
    (is_ok (Containment.parse entry) = false -> Containment.holds entry agent = true) /\
    (forall m, Containment.is_falsy entry = false -> Containment.parse entry = Ok m ->
      Containment.holds entry agent = true <->
      Containment.matches m agent = true \/
      exists a, a ∈ Containment.ancestors agent /\
        a_kind (Containment.f_agent a) <> Operator /\ Containment.matches m a = true) /\
    (parent ∈ Containment.ancestors agent ->
     Containment.ancestors parent ⊆ Containment.ancestors agent ->
     Containment.holds entry parent = true -> Containment.holds entry agent = true)).
Proof.
  split; [intros Hk; unfold Containment.holds; by rewrite bool_decide_true|].
  intros Hk. split_and!.
  - intros Hf. unfold Containment.holds. by rewrite bool_decide_false, Hf.
  - intros Hp. unfold Containment.holds. rewrite bool_decide_false by done.
    destruct (Containment.is_falsy entry); [done|].
    by destruct (Containment.parse entry).
  - intros m Hf Hp. by apply holds_parsed.
  - intros Hin Hsub Hheld. unfold Containment.holds in Hheld.
    destruct (bool_decide_reflect (a_kind (Containment.f_agent parent) = Operator)) as [|Hpk]; [done|].
    destruct (Containment.is_falsy entry) eqn:Hf;
      [unfold Containment.holds; by rewrite bool_decide_false, Hf|].
    destruct (Containment.parse entry) as [m|] eqn:Hp;
      [|unfold Containment.holds; by rewrite bool_decide_false, Hf, Hp].
    apply (holds_parsed entry m agent Hk Hf Hp). right.
    apply orb_true_iff in Hheld as [Hm|Ha]; [by exists parent|].
    apply existsb_elem in Ha as (a & Hain & Ha). bools. exists a. split_and!; [set_solver|done|done].
Qed.

Lemma containment_invariants_witness :
  let fmt := Build_RustFmt (fun _ => []) id (fun _ => []) in
  let orchestrator := Containment.mkFacts
    (mkAgent (lit "orch") (Some (lit "orchestrator")) None None InSandbox Service) [] in
  let child := Containment.mkFacts
    (mkAgent (lit "kid") (Some (lit "claude")) None None InSandbox Ephemeral) [orchestrator] in
  @Containment.holds fmt (VObject [(lit "runtime", VString (lit "orchestrator"))]) child = true.
Proof.
  intros fmt orchestrator child.
  destruct (@containment_invariants fmt (VObject [(lit "runtime", VString (lit "orchestrator"))])
    child orchestrator) as [_ H].
  destruct H as (_ & _ & _ & H); [discriminate|].
  apply H; [left|intros x Hx; inversion Hx|vm_compute; reflexivity].
Defined.
