(* ===== verification/Hostexec.v ===== *)
(** What a host job is ([crates/core/src/hostexec.rs]): the validators of its
    parts, the validated specs and their JSON, templates and argv patterns. *)

From S2P Require Import Prelude Json Glob Pyfmt Names Pool Mail Authority.
From stdpp Require Import options.

Definition MAX_ARGS : nat := 256.
Definition MAX_ARG_BYTES : nat := 16 * 1024.
Definition MAX_ARGV_BYTES : nat := 64 * 1024.
Definition MAX_STDIN_BYTES : nat := 64 * 1024.
Definition MAX_ENV_VARS : nat := 32.
Definition DEFAULT_TIMEOUT_SECS : N := 600.
Definition MAX_TIMEOUT_SECS : N := 24 * 3600.
Definition MAX_VALUE_CHARS : nat := 4096.
Definition MAX_PATTERN_CHARS : nat := 4096.
#[global] Opaque MAX_ARG_BYTES MAX_ARGV_BYTES MAX_STDIN_BYTES MAX_VALUE_CHARS MAX_PATTERN_CHARS.

Definition NUL : char := 0%N.
Definition NEWLINE : char := 10%N.

(** ** Specs *)

Inductive Command :=
| CRun (argv : list str)
| CTemplate (template : str) (params : list (str * str)).

Record CommandSpec := mkSpec {
  s_host : str;
  s_tier : Tier;
  s_command : Command;
  s_cwd : option str;
  s_env : list (str * str);
  s_timeout : N;
  s_stdin : option str;
}.

Record ShellSpec := mkShell { sh_host : str; sh_tier : Tier; sh_duration : N }.

Inductive JobSpec := JCommand (c : CommandSpec) | JShell (s : ShellSpec).

#[export] Instance Command_eq_dec : EqDecision Command.
Proof. solve_decision. Defined.
#[export] Instance CommandSpec_eq_dec : EqDecision CommandSpec.
Proof. solve_decision. Defined.
#[export] Instance ShellSpec_eq_dec : EqDecision ShellSpec.
Proof. solve_decision. Defined.
#[export] Instance JobSpec_eq_dec : EqDecision JobSpec.
Proof. solve_decision. Defined.

Record SpecFields := mkFields {
  sf_kind : str;
  sf_host : str;
  sf_tier : option Value;
  sf_argv : option Value;
  sf_template : option Value;
  sf_params : option Value;
  sf_cwd : option Value;
  sf_env : option Value;
  sf_timeout : option Value;
  sf_stdin : option Value;
}.

(** ** Validators *)

(** Absent and [null] are the same. *)
Definition present (v : option Value) : option Value :=
  match v with Some VNull => None | _ => v end.

Definition spec_tier (v : option Value) : result str Tier :=
  ok_or (v ← present v; s ← as_str v; Tier_parse s) (qlit "tier must be `user` or `root`").

Definition has_nul (s : str) : bool := elem_b NUL s.

Definition NOT_AN_ARG : str := lit "argv must be a list of strings without NUL bytes".

(** The loop of [validate_argv]: the arguments and their bytes. *)
Fixpoint read_args (items : list Value) : result str (list str) :=
  match items with
  | [] => Ok []
  | item :: items' =>
      match as_str item with
      | None => Err NOT_AN_ARG
      | Some arg =>
          if has_nul arg then Err NOT_AN_ARG
          else if Nat.ltb MAX_ARG_BYTES (str_len arg) then Err (lit "an argument is too long")
          else out ← read_args items'; Ok (arg :: out)
      end
  end.

Definition total_bytes (args : list str) : nat := sum_list (map str_len args).

Definition validate_argv (argv : option Value) : result str (list str) :=
  match present argv with
  | Some (VArray items) =>
      if bool_decide (items = []) then Err (lit "argv must be a non-empty list of strings")
      else if Nat.ltb MAX_ARGS (length items) then Err (lit "argv has more than 256 arguments")
      else
        out ← read_args items;
        if Nat.ltb MAX_ARGV_BYTES (total_bytes out) then Err (lit "argv is too long")
        else match out with
        | [] | [] :: _ => Err (lit "argv[0] is empty")
        | _ => Ok out
        end
  | _ => Err (lit "argv must be a non-empty list of strings")
  end.

(** The loop of [posix_normpath]; [comps] is the vector, last first. *)
Fixpoint norm_comps (initial : nat) (parts comps : list str) : list str :=
  match parts with
  | [] => rev comps
  | comp :: parts' =>
      if bool_decide (comp = []) || str_eqb comp (lit ".") then norm_comps initial parts' comps
      else
        let keep := negb (str_eqb comp (lit ".."))
                    || (Nat.eqb initial 0 && bool_decide (comps = []))
                    || bool_decide (head comps = Some (lit "..")) in
        if keep then norm_comps initial parts' (comp :: comps)
        else norm_comps initial parts' (match comps with [] => [] | _ :: comps' => comps' end)
  end.

Definition initial_slashes (path : str) : nat :=
  if negb (is_none (strip_prefix (lit "//") path)) && is_none (strip_prefix (lit "///") path) then 2
  else if negb (is_none (strip_prefix (lit "/") path)) then 1
  else 0.

Definition posix_normpath (path : str) : str :=
  match path with
  | [] => lit "."
  | _ =>
      let initial := initial_slashes path in
      let joined := join [ch "/"] (norm_comps initial (split (ch "/") path) []) in
      let out := replicate initial (ch "/") ++ joined in
      match out with [] => lit "." | _ => out end
  end.

Definition validate_cwd (cwd : option Value) : result str (option str) :=
  match present cwd with
  | None => Ok None
  | Some (VString s) =>
      if bool_decide (s = []) then Ok None
      else if bool_decide (head s = Some (ch "/")) && negb (has_nul s)
              && Nat.leb (length s) MAX_VALUE_CHARS
      then Ok (Some (posix_normpath s))
      else Err (lit "cwd must be an absolute path")
  | Some _ => Err (lit "cwd must be an absolute path")
  end.

Definition env_value_ok (v : str) : bool :=
  negb (has_nul v) && negb (elem_b NEWLINE v)
  && Nat.leb (length v) MAX_VALUE_CHARS.

Definition env_entry (kv : str * Value) : result str (str * str) :=
  let '(key, value) := kv in
  key ← EnvKey_parse key;
  match as_str value with
  | Some v => if env_value_ok v then Ok (key, v)
              else Err (lit "invalid value for environment variable " ++ key)
  | None => Err (lit "invalid value for environment variable " ++ key)
  end.

Definition BAD_ENV : str := lit "env must be an object of at most 32 variables".

Definition validate_env (env : option Value) : result str (list (str * str)) :=
  match present env with
  | None => Ok []
  | Some (VObject map) =>
      if Nat.ltb MAX_ENV_VARS (length map) then Err BAD_ENV
      else map_of_list <$> collect env_entry map
  | Some _ => Err BAD_ENV
  end.

Definition validate_timeout (timeout : option Value) (default : N) : result str N :=
  match present timeout with
  | None => Ok default
  | Some timeout =>
      ok_or (t ← as_u64 timeout; t ← u32_try_from t;
             if N.leb 1 t && N.leb t MAX_TIMEOUT_SECS then Some t else None)
        (lit "timeout must be a number of seconds between 1 and 86400")
  end.

Definition validate_stdin (stdin : option Value) : result str (option str) :=
  match present stdin with
  | None => Ok None
  | Some (VString s) =>
      if Nat.leb (str_len s) MAX_STDIN_BYTES then Ok (Some s)
      else Err (lit "stdin must be text of at most 65536 bytes")
  | Some _ => Err (lit "stdin must be text of at most 65536 bytes")
  end.

Definition param_value_ok (v : str) : bool :=
  negb (has_nul v) && Nat.leb (length v) MAX_VALUE_CHARS.

Definition BAD_PARAMS : str := lit "template params must be an object of strings".

Definition template_params (params : option Value) : result str (list (str * str)) :=
  match present params with
  | Some (VObject map) =>
      map_of_list <$> collect (fun kv =>
        ok_or (v ← as_str kv.2; if param_value_ok v then Some (kv.1, v) else None) BAD_PARAMS) map
  | _ => Err BAD_PARAMS
  end.

Definition make_spec_with_default (fields : SpecFields) (default_timeout : N)
    : result str CommandSpec :=
  if negb (str_eqb (sf_kind fields) (lit "run") || str_eqb (sf_kind fields) (lit "tpl")) then
    Err (lit "kind must be one of run, tpl, shell")
  else
    tier ← spec_tier (sf_tier fields);
    command ← (if str_eqb (sf_kind fields) (lit "tpl") then
        template ← ok_or (v ← present (sf_template fields); s ← as_str v;
                          to_option (TemplateName_parse s)) (lit "invalid template name");
        params ← template_params (sf_params fields);
        Ok (CTemplate template params)
      else CRun <$> validate_argv (sf_argv fields));
    cwd ← validate_cwd (sf_cwd fields);
    env ← validate_env (sf_env fields);
    timeout ← validate_timeout (sf_timeout fields) default_timeout;
    stdin ← validate_stdin (sf_stdin fields);
    Ok (mkSpec (sf_host fields) tier command cwd env timeout stdin).

Definition make_spec (fields : SpecFields) : result str CommandSpec :=
  make_spec_with_default fields DEFAULT_TIMEOUT_SECS.

Definition is_falsy (v : Value) : bool :=
  match v with
  | VNull => true
  | VBool b => negb b
  | VNumber n =>
      bool_decide (Number_as_u64 n = Some 0%N) || bool_decide (Number_as_i64 n = Some 0%Z)
      || match n with
         | PosInt u => N.eqb u 0 | NegInt i => Z.eqb i 0 | Float bits => float_is_zero bits
         end
  | VString s => bool_decide (s = [])
  | VArray a => match a with [] => true | _ => false end
  | VObject o => match o with [] => true | _ => false end
  end.

Definition unless_falsy (v : option Value) : option Value :=
  match v with Some x => if is_falsy x then None else v | None => None end.

Definition job_spec (capability host : str) (scope : list (str * Value)) : result str CommandSpec :=
  let common kind argv template params :=
    mkFields kind host (map_get (lit "tier") scope) argv template params
      (map_get (lit "cwd") scope) (map_get (lit "env") scope) (map_get (lit "timeout") scope)
      (map_get (lit "stdin") scope) in
  match strip_prefix (lit "tpl.") capability with
  | Some template =>
      let params := default (VObject []) (unless_falsy (map_get (lit "params") scope)) in
      make_spec (common (lit "tpl") None (Some (VString template)) (Some params))
  | None => make_spec (common (lit "run") (map_get (lit "argv") scope) None None)
  end.

Definition BAD_DURATION : str := lit "a shell needs a duration in seconds".

Definition shell_spec (host : str) (tier duration_secs : option Value) : result str ShellSpec :=
  tier ← spec_tier tier;
  duration ← ok_or (v ← present duration_secs; d ← as_u64 v;
                    if N.ltb 0 d then u32_try_from d else None) BAD_DURATION;
  Ok (mkShell host tier duration).

Definition ShellSpec_new (host : str) (tier : Tier) (duration_secs : N) : result str ShellSpec :=
  if N.eqb duration_secs 0 then Err BAD_DURATION else Ok (mkShell host tier duration_secs).

Definition ShellSpec_to_json (s : ShellSpec) : Value :=
  json_obj [(lit "kind", VString (lit "shell")); (lit "host", VString (sh_host s));
            (lit "tier", VString (Tier_as_str (sh_tier s)));
            (lit "duration", VNumber (PosInt (sh_duration s)))].

Definition opt_value {A} (f : A -> Value) (o : option A) : option Value := f <$> o.

Definition from_authority (host : str) (authority : HostexecAuthority) : result str CommandSpec :=
  let fields kind options argv template params :=
    mkFields kind host (Some (VString (Tier_as_str (o_tier options)))) argv template params
      (VString <$> o_cwd options) (Some (json_str_object (o_env options)))
      ((fun t => VNumber (PosInt t)) <$> o_timeout options) (VString <$> o_stdin options) in
  match authority with
  | Run argv options => make_spec (fields (lit "run") options (Some (json_strs argv)) None None)
  | Template template params options =>
      make_spec (fields (lit "tpl") options None (Some (VString template))
                   (Some (json_str_object params)))
  | Shell _ _ | Window _ => Err (lit "not a runnable job")
  end.

Definition spec_kind (c : CommandSpec) : str :=
  match s_command c with CRun _ => lit "run" | CTemplate _ _ => lit "tpl" end.

Definition CommandSpec_to_json (c : CommandSpec) : Value :=
  let map := map_insert (lit "kind") (VString (spec_kind c)) [] in
  let map := map_insert (lit "host") (VString (s_host c)) map in
  let map := map_insert (lit "tier") (VString (Tier_as_str (s_tier c))) map in
  let map := match s_command c with
             | CRun argv => map_insert (lit "argv") (json_strs argv) map
             | CTemplate template params =>
                 map_insert (lit "params") (json_str_object params)
                   (map_insert (lit "template") (VString template) map)
             end in
  let map := map_insert (lit "cwd") (json_opt_str (s_cwd c)) map in
  let map := map_insert (lit "env") (json_str_object (s_env c)) map in
  let map := map_insert (lit "timeout") (VNumber (PosInt (s_timeout c))) map in
  VObject (map_insert (lit "stdin") (json_opt_str (s_stdin c)) map).

(** The keys a kind of job may have. *)
Definition allowed_keys (kind : str) : option (list str) :=
  if str_eqb kind (lit "shell") then Some [lit "kind"; lit "host"; lit "tier"; lit "duration"]
  else if str_eqb kind (lit "run") then
    Some [lit "kind"; lit "host"; lit "tier"; lit "argv"; lit "cwd"; lit "env"; lit "timeout"; lit "stdin"]
  else if str_eqb kind (lit "tpl") then
    Some [lit "kind"; lit "host"; lit "tier"; lit "template"; lit "params"; lit "cwd"; lit "env";
          lit "timeout"; lit "stdin"]
  else None.

Definition JobSpec_from_json (raw : Value) (default_timeout : N) : result str JobSpec :=
  match raw with
  | VObject map =>
      let kind := default [] (v ← map_get (lit "kind") map; as_str v) in
      match allowed_keys kind with
      | None => Err (lit "kind must be one of run, tpl, shell")
      | Some allowed =>
          let unknown := set_of_list
            (List.filter (fun k => negb (set_contains k allowed)) (map_keys map)) in
          if negb (bool_decide (unknown = [])) then
            Err (lit "malformed job: unexpected keys " ++ join (lit ", ") unknown)
          else
            match (v ← map_get (lit "host") map; as_str v) with
            | None => Err (lit "malformed job: no host")
            | Some host =>
                if str_eqb kind (lit "shell") then
                  JShell <$> shell_spec host (map_get (lit "tier") map) (map_get (lit "duration") map)
                else
                  JCommand <$> make_spec_with_default
                    (mkFields kind host (map_get (lit "tier") map) (map_get (lit "argv") map)
                      (map_get (lit "template") map) (map_get (lit "params") map)
                      (map_get (lit "cwd") map) (map_get (lit "env") map)
                      (unless_falsy (map_get (lit "timeout") map)) (map_get (lit "stdin") map))
                    default_timeout
            end
      end
  | _ => Err (lit "malformed job")
  end.

Definition JobSpec_to_json (j : JobSpec) : Value :=
  match j with JCommand c => CommandSpec_to_json c | JShell s => ShellSpec_to_json s end.
Definition job_host (j : JobSpec) : str :=
  match j with JCommand c => s_host c | JShell s => sh_host s end.
Definition job_tier (j : JobSpec) : Tier :=
  match j with JCommand c => s_tier c | JShell s => sh_tier s end.

Definition describe (j : JobSpec) : str :=
  let what := match j with
    | JCommand c =>
        match s_command c with
        | CTemplate template params => lit "template " ++ template ++ lit " " ++ json_str_map params
        | CRun argv => shlex_join argv
        end
    | JShell _ => lit "shell"
    end in
  lit "[" ++ Tier_as_str (job_tier j) ++ lit "@" ++ escape_unprintable (job_host j) ++ lit "] " ++ what.

(** ** Templates *)

(** The [regex] crate: a pattern compiled (within the size limits the code
    sets), and whether it matches anywhere in a text. *)
Class RegexLib := {
  Regex : Type;
  regex_build : str -> result str Regex;
  is_match : Regex -> str -> bool;
}.

Section template.
Context `{RegexLib}.

Record ParamPattern := mkPattern { pp_source : str; pp_full : Regex }.

Definition ParamPattern_new (pattern : str) : result str ParamPattern :=
  let build p := map_err (fun e =>
  lit "invalid parameter pattern " ++ repr pattern ++ lit ": " ++ e) (regex_build p) in
  if Nat.ltb MAX_PATTERN_CHARS (length pattern) then
  Err (lit "a parameter pattern is longer than 4096 characters")
  else
  build pattern;;
  full ← build (lit "\A(?:" ++ pattern ++ lit ")\z");
  Ok (mkPattern pattern full).

Definition full_match (p : ParamPattern) (value : str) : bool := is_match (pp_full p) value.

Record Template := mkTemplate {
  t_tier : Tier;
  t_argv : list str;
  t_params : list (str * ParamPattern);
  t_description : str;
  t_cwd : option str;
  t_env : list (str * str);
  t_stdin : option str;
}.

Definition Template_new (tier : Tier) (argv : list str) (params : list (str * ParamPattern))
  (description : str) : result str Template :=
  if bool_decide (argv = []) then Err (lit "argv: a template needs at least one argument")
  else Ok (mkTemplate tier argv params description None [] None).

Definition name_byte (c : char) : bool :=
  is_ascii_lowercase c || is_ascii_digit c || N.eqb c (ch "_").

(** The loop of [fill]; the fuel is the length of [rest]. *)
Fixpoint fill_from (fuel : nat) (params : list (str * str)) (rest : str) : str :=
  match fuel with
  | O => rest
  | S fuel =>
    match split_once (ch "{") rest with
    | None => rest
    | Some (before, after) =>
        let name := take_while name_byte after in
        let name_len := length name in
        let closes := bool_decide (head (drop name_len after) = Some (ch "}")) in
        if Nat.ltb 0 name_len && closes then
          before
          ++ match map_get name params with
             | Some value => value
             | None => lit "{" ++ name ++ lit "}"
             end
          ++ fill_from fuel params (drop (name_len + 1) after)
        else before ++ lit "{" ++ fill_from fuel params after
    end
  end.
Definition fill (arg : str) (params : list (str * str)) : str :=
  fill_from (S (length arg)) params arg.

(** The loop of [expand] over the parameters given. *)
Fixpoint check_params (patterns : list (str * ParamPattern)) (params : list (str * str))
  : result str unit :=
  match params with
  | [] => Ok tt
  | (name, value) :: params' =>
    match map_get name patterns with
    | Some p =>
        if full_match p value then check_params patterns params'
        else Err (lit "parameter " ++ repr name ++ lit " does not match the template's pattern")
    | None => Err (lit "parameter " ++ repr name ++ lit " does not match the template's pattern")
    end
  end.

Definition expand (t : Template) (params : list (str * str)) : result str (list str) :=
  let given := set_of_list (map_keys params) in
  let wanted := set_of_list (map_keys (t_params t)) in
  if negb (bool_decide (given = wanted)) then
  let names := if bool_decide (wanted = []) then lit "(none)" else join (lit ", ") wanted in
  Err (lit "template takes exactly these parameters: " ++ names)
  else
  check_params (t_params t) params;;
  Ok (map (fun arg => fill arg params) (t_argv t)).

Record RawTemplate := mkRaw {
  raw_tier : str; raw_argv : list str; raw_params : list (str * ParamPattern);
  raw_description : str; raw_cwd : option str; raw_env : list (str * str); raw_stdin : option str
}.

Definition Template_deserialize (raw : RawTemplate) : result str Template :=
  tier ← ok_or (Tier_parse (raw_tier raw)) (qlit "tier must be `user` or `root`");
  cwd ← validate_cwd (VString <$> raw_cwd raw);
  env ← validate_env (Some (VObject (map_of_list (map_values VString (raw_env raw)))));
  stdin ← validate_stdin (VString <$> raw_stdin raw);
  t ← Template_new tier (raw_argv raw) (raw_params raw) (raw_description raw);
  Ok (mkTemplate (t_tier t) (t_argv t) (t_params t) (t_description t) cwd env stdin).
End template.

(** ** Argv patterns *)

Definition basename (path : str) : str := default path (last (split (ch "/") path)).

(** [all] over the zipped arguments, [i] the index. *)
Fixpoint match_args (i : nat) (loose_program : bool) (fixed argv : list str) : bool :=
  match fixed, argv with
  | glob :: fixed', arg :: argv' =>
      (fnmatch arg glob || (Nat.eqb i 0 && loose_program && fnmatch (basename arg) glob))
      && match_args (S i) loose_program fixed' argv'
  | _, _ => true
  end.

Definition match_argv (pattern argv : list str) (loose_program : bool) : bool :=
  let rest := bool_decide (last pattern = Some (lit "**")) in
  let fixed := if rest then take (length pattern - 1) pattern else pattern in
  if Nat.ltb (length argv) (length fixed)
     || (negb rest && negb (Nat.eqb (length argv) (length fixed)))
  then false
  else match_args 0 loose_program fixed argv.

(** ** Lemmas *)

(** *** Normal paths *)

Definition clean (p : str) : Prop :=
  p <> [] /\ p <> lit "." /\ p <> lit ".." /\ ch "/" ∉ p.

Lemma norm_comps_incl (P : str -> Prop) initial parts comps :
  Forall P parts -> Forall P comps -> Forall P (norm_comps initial parts comps).
Proof.
  intros Hp. revert comps. induction Hp as [|p parts Hp _ IH]; intros comps Hc; cbn [norm_comps].
  - by apply Forall_rev.
  - destruct (_ || _); [by apply IH|].
    destruct (negb _ || _ || _); apply IH; [by constructor|].
    destruct comps; [constructor|]. by inversion Hc.
Qed.

Lemma norm_comps_clean initial parts comps :
  initial <> 0 -> Forall (fun p => ch "/" ∉ p) parts -> Forall clean comps ->
  Forall clean (norm_comps initial parts comps).
Proof.
  intros Hi Hp. revert comps. induction Hp as [|p parts Hp _ IH]; intros comps Hc; cbn [norm_comps].
  - by apply Forall_rev.
  - destruct (bool_decide_reflect (p = [])); cbn [orb]; [by apply IH|].
    destruct (str_eqb p (lit ".")) eqn:E1; [by apply IH|].
    rewrite (proj2 (Nat.eqb_neq initial 0)) by done. cbn [andb]. rewrite orb_false_r.
    rewrite (bool_decide_false (head comps = _)); cycle 1.
    { destruct comps as [|q comps]; [done|]. intros [= ->].
      inversion Hc as [|? ? (_ & _ & ? & _)]; done. }
    rewrite orb_false_r. destruct (str_eqb p (lit "..")) eqn:E2; cbn [negb]; apply IH.
    + destruct comps; [constructor|]. by inversion Hc.
    + constructor; [|done]. apply bool_decide_eq_false in E1, E2. by split_and!.
Qed.

Lemma norm_comps_id initial parts comps :
  Forall clean parts -> norm_comps initial parts comps = rev comps ++ parts.
Proof.
  intros Hp. revert comps. induction Hp as [|p parts (H1 & H2 & H3 & _) _ IH]; intros comps;
    cbn [norm_comps]; [by rewrite app_nil_r|].
  rewrite (bool_decide_false (p = [])) by done. unfold str_eqb.
  rewrite !bool_decide_false by done. cbn [orb negb]. rewrite IH. cbn [rev]. by rewrite <- app_assoc.
Qed.

(** Bytes of the parts, each with a separator. *)
Fixpoint parts_weight (ps : list str) : nat :=
  match ps with [] => 0 | p :: ps' => S (length p) + parts_weight ps' end.

Lemma parts_weight_app a b : parts_weight (a ++ b) = parts_weight a + parts_weight b.
Proof. induction a as [|p a IH]; cbn; [done|]. rewrite IH. lia. Qed.

Lemma norm_comps_weight initial parts comps :
  parts_weight (norm_comps initial parts comps) <= parts_weight comps + parts_weight parts.
Proof.
  revert comps. induction parts as [|p parts IH]; intros comps; cbn [norm_comps].
  - assert (Hr : forall l, parts_weight (rev l) = parts_weight l).
    { induction l as [|x l IHl]; [done|]. cbn [rev]. rewrite parts_weight_app, IHl. cbn. lia. }
    rewrite Hr. lia.
  - destruct (_ || _); [rewrite IH; cbn; lia|].
    destruct (negb _ || _ || _); (etransitivity; [apply IH|]); [cbn; lia|].
    destruct comps; cbn; lia.
Qed.

Lemma join_weight c ps : ps <> [] -> S (length (join [c] ps)) = parts_weight ps.
Proof.
  intros Hne. rewrite join_length.
  assert (Hs : parts_weight ps = sum_list (map length ps) + length ps).
  { clear. induction ps as [|x l IH]; [done|].
    cbn [parts_weight map length sum_list_with]. unfold id in *. rewrite IH. lia. }
  rewrite Hs. destruct ps; [done|]. cbn [length]. lia.
Qed.

Lemma initial_slashes_abs s :
  head s = Some (ch "/") ->
  exists s', s = replicate (initial_slashes s) (ch "/") ++ s' /\
    (initial_slashes s = 1 \/ initial_slashes s = 2).
Proof.
  destruct s as [|c s]; [done|]. intros [= ->]. unfold initial_slashes.
  change (lit "//") with [ch "/"; ch "/"]. change (lit "///") with [ch "/"; ch "/"; ch "/"].
  change (lit "/") with [ch "/"]. cbn [strip_prefix]. rewrite ?N.eqb_refl.
  destruct s as [|d s]; cbn [is_none negb andb]; [eexists; split; [done|by left]|].
  destruct (N.eqb_spec 47 d) as [<-|]; cbn [is_none negb andb]; [|eexists; split; [done|by left]].
  destruct s as [|e s]; cbn [is_none negb andb]; [eexists; split; [done|by right]|].
  destruct (N.eqb 47 e); cbn [is_none negb andb]; eexists; (split; [done|]); auto.
Qed.

(** What [posix_normpath] makes of an absolute path. *)
Record normal_path (s : str) : Prop := {
  np_parts : exists k ps, (k = 1 \/ k = 2) /\ Forall clean ps /\
    s = replicate k (ch "/") ++ join [ch "/"] ps;
}.

Lemma normpath_parts s :
  head s = Some (ch "/") ->
  posix_normpath s = replicate (initial_slashes s) (ch "/")
    ++ join [ch "/"] (norm_comps (initial_slashes s) (split (ch "/") s) []).
Proof.
  intros Hs. destruct (initial_slashes_abs s Hs) as (s' & _ & Hi).
  unfold posix_normpath. destruct s as [|c s]; [done|]. by destruct Hi as [-> | ->].
Qed.

Lemma normpath_normal s : head s = Some (ch "/") -> normal_path (posix_normpath s).
Proof.
  intros Hs. destruct (initial_slashes_abs s Hs) as (s' & _ & Hi).
  rewrite normpath_parts by done. split. eexists _, _. split_and!; [exact Hi| |done].
  apply norm_comps_clean; [destruct Hi; lia|apply split_parts|constructor].
Qed.

Lemma clean_join_head ps : Forall clean ps -> head (join [ch "/"] ps) <> Some (ch "/").
Proof.
  intros Hp. destruct ps as [|p ps]; [done|]. inversion Hp as [|? ? (Hne & _ & _ & Hs) _]; subst.
  destruct p as [|c p]; [done|]. apply not_elem_of_cons in Hs as [Hc _].
  destruct ps; cbn; congruence.
Qed.

Lemma normpath_fixed s : normal_path s -> posix_normpath s = s.
Proof.
  intros [(k & ps & Hk & Hps & ->)]. pose proof (clean_join_head ps Hps) as Hh.
  set (j := join [ch "/"] ps) in *.
  assert (Hi : initial_slashes (replicate k (ch "/") ++ j) = k).
  { unfold initial_slashes. change (lit "//") with [ch "/"; ch "/"].
    change (lit "///") with [ch "/"; ch "/"; ch "/"]. change (lit "/") with [ch "/"].
    destruct Hk as [-> | ->]; cbn [replicate app strip_prefix]; rewrite ?N.eqb_refl;
      destruct j as [|c j]; try done; cbn [strip_prefix];
      (rewrite (proj2 (N.eqb_neq (ch "/") c)); [done|]); intros <-; by apply Hh. }
  assert (Hsplit : split (ch "/") (replicate k (ch "/") ++ j) =
    replicate k [] ++ match ps with [] => [[]] | _ => ps end).
  { assert (Hj : split (ch "/") j = match ps with [] => [[]] | _ => ps end).
    { subst j. destruct ps as [|p ps]; [done|]. apply split_join; [done|].
      eapply Forall_impl; [exact Hps|]. by intros ? (_ & _ & _ & ?). }
    destruct Hk as [-> | ->]; cbn [replicate app split]; rewrite ?N.eqb_refl, Hj; done. }
  rewrite normpath_parts by (by destruct Hk as [-> | ->]). rewrite Hi, Hsplit. f_equal.
  assert (Hc : norm_comps k (replicate k [] ++ match ps with [] => [[]] | _ => ps end) [] = ps).
  { assert (Hskip : forall n l, norm_comps k (replicate n [] ++ l) [] = norm_comps k l [])
      by (induction n as [|n IH]; intros l; [done|]; cbn; apply IH).
    rewrite Hskip. destruct ps as [|p ps]; [done|]. by rewrite norm_comps_id. }
  by rewrite Hc.
Qed.

Lemma normpath_length s : head s = Some (ch "/") -> length (posix_normpath s) <= length s.
Proof.
  intros Hs. rewrite normpath_parts by done.
  destruct (initial_slashes_abs s Hs) as (s' & Es & Hi). revert Es.
  generalize dependent (initial_slashes s). intros k Hi ->. clear Hs.
  rewrite !length_app, !length_replicate.
  assert (Hw : parts_weight (norm_comps k (split (ch "/") (replicate k (ch "/") ++ s')) [])
    <= parts_weight (split (ch "/") s')).
  { assert (Hsp : norm_comps k (split (ch "/") (replicate k (ch "/") ++ s')) [] =
      norm_comps k (split (ch "/") s') [])
      by (destruct Hi as [-> | ->]; cbn [replicate app split]; rewrite ?N.eqb_refl; done).
    rewrite Hsp. etransitivity; [apply norm_comps_weight|]. done. }
  destruct (norm_comps k _ []) as [|p ps] eqn:E; [cbn; lia|].
  pose proof (join_weight (ch "/") (p :: ps) ltac:(done)).
  pose proof (join_weight (ch "/") (split (ch "/") s') (split_nonempty _ _)) as Hj.
  rewrite join_split in Hj. lia.
Qed.

Lemma join_elem c sep ps : c ∈ join [sep] ps -> c = sep \/ exists p, p ∈ ps /\ c ∈ p.
Proof.
  induction ps as [|p ps IH]; [by intros ?%not_elem_of_nil|]. destruct ps as [|q ps].
  - intros Hc. right. exists p. by split; [left|].
  - change (join [sep] (p :: q :: ps)) with (p ++ sep :: join [sep] (q :: ps)).
    intros [Hc|[->|Hc]%elem_of_cons]%elem_of_app; [|by left|].
    + right. exists p. by split; [left|].
    + apply IH in Hc as [?|(x & ? & ?)]; [by left|]. right. exists x. by split; [right|].
Qed.

Lemma normpath_nul s : head s = Some (ch "/") -> NUL ∉ s -> NUL ∉ posix_normpath s.
Proof.
  intros Hs Hn. rewrite normpath_parts by done. intros [Hin|Hin]%elem_of_app.
  - by apply elem_of_replicate in Hin as [? _].
  - apply join_elem in Hin as [?|(p & Hp & Hin)]; [done|].
    enough (Hall : Forall (fun p => NUL ∉ p)
      (norm_comps (initial_slashes s) (split (ch "/") s) []))
      by (rewrite Forall_forall in Hall; by apply (Hall p)).
    clear p Hp Hin. apply norm_comps_incl; [|constructor]. apply Forall_forall. intros p Hp Hin. apply Hn.
    rewrite <- (join_split (ch "/") s). clear Hn Hs. induction (split (ch "/") s) as [|q ps IH];
      [by apply not_elem_of_nil in Hp|].
    destruct ps as [|r ps].
    + apply elem_of_cons in Hp as [<-|Hp]; [done|]. by apply not_elem_of_nil in Hp.
    + change (join [ch "/"] (q :: r :: ps)) with (q ++ ch "/" :: join [ch "/"] (r :: ps)).
      apply elem_of_app. apply elem_of_cons in Hp as [<-|Hp]; [by left|right; right; auto].
Qed.

(** *** Valid specs *)

Record argv_ok (argv : list str) : Prop := {
  av_first : exists a rest, argv = a :: rest /\ a <> [];
  av_count : length argv <= MAX_ARGS;
  av_args : Forall (fun a => has_nul a = false /\ str_len a <= MAX_ARG_BYTES) argv;
  av_total : total_bytes argv <= MAX_ARGV_BYTES;
}.

Definition command_ok (c : Command) : Prop :=
  match c with
  | CRun argv => argv_ok argv
  | CTemplate template params =>
      TemplateName_parse template = Ok template /\ map_sorted params /\
      Forall (fun kv => param_value_ok kv.2 = true) params
  end.

Definition cwd_ok (cwd : option str) : Prop :=
  forall p, cwd = Some p -> normal_path p /\ has_nul p = false /\ length p <= MAX_VALUE_CHARS.

Definition env_ok (env : list (str * str)) : Prop :=
  map_sorted env /\ length env <= MAX_ENV_VARS /\
  Forall (fun kv => EnvKey_parse kv.1 = Ok kv.1 /\ env_value_ok kv.2 = true) env.

Definition timeout_ok (t : N) : Prop := (1 <= t <= MAX_TIMEOUT_SECS)%N.

Record valid_spec (c : CommandSpec) : Prop := {
  vs_command : command_ok (s_command c);
  vs_cwd : cwd_ok (s_cwd c);
  vs_env : env_ok (s_env c);
  vs_timeout : timeout_ok (s_timeout c);
  vs_stdin : forall s, s_stdin c = Some s -> str_len s <= MAX_STDIN_BYTES;
}.

Lemma read_args_ok items out :
  read_args items = Ok out ->
  items = map VString out /\
  Forall (fun a => has_nul a = false /\ str_len a <= MAX_ARG_BYTES) out.
Proof.
  revert out; induction items as [|item items IH]; intros out; cbn [read_args].
  - intros [= <-]. by split; [|constructor].
  - destruct item as [| | |arg| |]; try done. cbn [as_str].
    destruct (has_nul arg) eqn:En; [done|].
    destruct (Nat.ltb_spec MAX_ARG_BYTES (str_len arg)); [done|].
    intros (out' & Ho & Hout)%bind_ok. injection Hout as <-. apply IH in Ho as [-> Hall].
    split; [done|]. by constructor.
Qed.

Lemma read_args_strs argv :
  Forall (fun a => has_nul a = false /\ str_len a <= MAX_ARG_BYTES) argv ->
  read_args (map VString argv) = Ok argv.
Proof.
  induction 1 as [|a argv [Hn Hl] _ IH]; [done|]. cbn [map read_args as_str].
  rewrite Hn, (proj2 (Nat.ltb_ge _ _) Hl), IH. done.
Qed.

Lemma validate_argv_ok v argv : validate_argv v = Ok argv -> argv_ok argv.
Proof.
  unfold validate_argv. destruct (present v) as [[| | | |items|]|]; try done.
  destruct (bool_decide_reflect (items = [])); [done|].
  destruct (Nat.ltb_spec MAX_ARGS (length items)); [done|].
  intros (out & Ho & Hv)%bind_ok. apply read_args_ok in Ho as [-> Hall].
  destruct (Nat.ltb_spec MAX_ARGV_BYTES (total_bytes out)); [done|].
  rewrite length_map in *.
  destruct out as [|[|x a] rest]; [done|done|]. injection Hv as <-.
  split; try done. by exists (x :: a), rest.
Qed.

Lemma validate_argv_strs argv : argv_ok argv -> validate_argv (Some (json_strs argv)) = Ok argv.
Proof.
  intros [(a & rest & -> & Ha) Hc Hall Ht]. unfold validate_argv, json_strs. cbn [present].
  rewrite bool_decide_false by done. rewrite length_map, (proj2 (Nat.ltb_ge _ _) Hc).
  rewrite read_args_strs by done. cbn [mbind result_bind].
  rewrite (proj2 (Nat.ltb_ge _ _) Ht). by destruct a.
Qed.

Lemma has_nul_false s : has_nul s = false <-> NUL ∉ s.
Proof. unfold has_nul. by rewrite <- not_true_iff_false, elem_b_true. Qed.

Lemma validate_cwd_ok v cwd : validate_cwd v = Ok cwd -> cwd_ok cwd.
Proof.
  unfold validate_cwd. destruct (present v) as [[| | |s| |]|]; try done; try (by intros [= <-]).
  destruct (bool_decide_reflect (s = [])); [by intros [= <-]|].
  destruct (_ && _) eqn:E; [|done]. intros [= <-] p [= <-]. bools.
  match goal with H : Nat.leb _ _ = true |- _ => apply Nat.leb_le in H end.
  split_and!; [by apply normpath_normal| |].
  - apply has_nul_false, normpath_nul; [done|by apply has_nul_false].
  - etransitivity; [by apply normpath_length|done].
Qed.

Lemma normal_path_head p : normal_path p -> head p = Some (ch "/").
Proof. by intros [(k & ps & [-> | ->] & _ & ->)]. Qed.

Lemma validate_cwd_id cwd : cwd_ok cwd -> validate_cwd (Some (json_opt_str cwd)) = Ok cwd.
Proof.
  intros Hc. destruct cwd as [p|]; [|done]. destruct (Hc p eq_refl) as (Hn & Hz & Hl).
  unfold validate_cwd. cbn [json_opt_str present].
  pose proof (normal_path_head p Hn) as Hh.
  rewrite (bool_decide_false (p = [])) by (by intros ->).
  rewrite Hh, bool_decide_true, Hz, (proj2 (Nat.leb_le _ _) Hl) by done. cbn [negb andb].
  by rewrite normpath_fixed.
Qed.

(** Reading the entries of an object one by one, then sorting them. *)
Lemma collect_entries {V} (P : str * V -> Prop) (f : str * Value -> result str (str * V)) map l :
  (forall kv kv', f kv = Ok kv' -> P kv') ->
  collect f map = Ok l -> map_sorted (map_of_list l) /\
    length (map_of_list l) <= length map /\ Forall P (map_of_list l).
Proof.
  intros Hf Hc%collect_ok. split_and!; [apply map_of_list_sorted| |].
  - etransitivity; [apply map_of_list_length|]. by rewrite (Forall2_length _ _ _ Hc).
  - apply Forall_forall. intros kv Hin%map_of_list_elem.
    apply (list_elem_of_lookup_1 l) in Hin as [i Hi].
    destruct (Forall2_lookup_r _ _ _ _ _ Hc Hi) as (x & _ & Hx). by eapply Hf.
Qed.

Lemma EnvKey_parse_id s k : EnvKey_parse s = Ok k -> k = s.
Proof. unfold EnvKey_parse. by intros [-> _]%(shaped_parse_ok _ _ _ (fun s => _)). Qed.

Lemma validate_env_ok v env : validate_env v = Ok env -> env_ok env.
Proof.
  unfold validate_env.
  assert (Hnil : env_ok []) by (split_and!; [done|cbn; lia|constructor]).
  destruct (present v) as [[| | | | |map]|]; try done; try (by intros [= <-]).
  destruct (Nat.ltb_spec MAX_ENV_VARS (length map)); [done|].
  destruct (collect env_entry map) as [l|] eqn:Hc; [|done]. intros [= <-].
  apply (collect_entries (fun kv => EnvKey_parse kv.1 = Ok kv.1 /\ env_value_ok kv.2 = true))
    in Hc as (? & ? & ?); [by split_and!; [|lia|]|].
  intros [k v'] [k' w]. unfold env_entry. intros (key & Hk & Hv)%bind_ok.
  pose proof (EnvKey_parse_id _ _ Hk) as ->.
  destruct (as_str v') as [x|]; [|done]. destruct (env_value_ok x) eqn:Ex; [|done].
  by injection Hv as <- <-.
Qed.

Lemma validate_env_id env : env_ok env -> validate_env (Some (json_str_object env)) = Ok env.
Proof.
  intros (Hs & Hl & Hall). unfold validate_env, json_str_object. cbn [present].
  unfold map_values at 1. rewrite length_map, (proj2 (Nat.ltb_ge _ _) Hl).
  rewrite collect_map_values.
  - cbn. by rewrite map_of_list_id.
  - intros k v Hin. rewrite Forall_forall in Hall. destruct (Hall _ Hin) as [Hk Hv]. cbn [fst snd] in *.
    unfold env_entry. rewrite Hk. cbn [mbind result_bind as_str]. by rewrite Hv.
Qed.

Lemma validate_timeout_ok v d t :
  timeout_ok d -> validate_timeout v d = Ok t -> timeout_ok t.
Proof.
  intros Hd. unfold validate_timeout. destruct (present v) as [x|]; [|by intros [= <-]].
  destruct (as_u64 x) as [n|]; [|done]. cbn [mbind option_bind]. unfold u32_try_from.
  destruct (N.ltb n (2 ^ 32)); [|done]. cbn [mbind option_bind].
  destruct (N.leb 1 n && N.leb n MAX_TIMEOUT_SECS) eqn:E; [|done]. intros [= <-].
  bools. rewrite !N.leb_le in *. by split.
Qed.

Lemma validate_timeout_id t d :
  timeout_ok t -> validate_timeout (Some (VNumber (PosInt t))) d = Ok t.
Proof.
  intros [H1 H2]. unfold validate_timeout. cbn [present as_u64 Number_as_u64 mbind option_bind].
  unfold u32_try_from. rewrite (proj2 (N.ltb_lt t (2 ^ 32))); cycle 1.
  { eapply N.le_lt_trans; [exact H2|]. done. }
  cbn [mbind option_bind].
  by rewrite (proj2 (N.leb_le 1 t) H1), (proj2 (N.leb_le t MAX_TIMEOUT_SECS) H2).
Qed.

Lemma validate_stdin_ok v stdin :
  validate_stdin v = Ok stdin -> forall s, stdin = Some s -> str_len s <= MAX_STDIN_BYTES.
Proof.
  unfold validate_stdin. destruct (present v) as [[| | |s| |]|]; try done; try (by intros [= <-]).
  destruct (Nat.leb_spec (str_len s) MAX_STDIN_BYTES); [|done]. by intros [= <-] ? [= <-].
Qed.

Lemma validate_stdin_id stdin :
  (forall s, stdin = Some s -> str_len s <= MAX_STDIN_BYTES) ->
  validate_stdin (Some (json_opt_str stdin)) = Ok stdin.
Proof.
  intros Hs. destruct stdin as [s|]; [|done]. unfold validate_stdin. cbn [json_opt_str present].
  by rewrite (proj2 (Nat.leb_le _ _) (Hs s eq_refl)).
Qed.

Lemma template_params_ok v params :
  template_params v = Ok params ->
  map_sorted params /\ Forall (fun kv => param_value_ok kv.2 = true) params.
Proof.
  unfold template_params. destruct (present v) as [[| | | | |map]|]; try done.
  destruct (collect _ map) as [l|] eqn:Hc; [|done]. intros [= <-].
  apply (collect_entries (fun kv => param_value_ok kv.2 = true)) in Hc as (? & _ & ?); [done|].
  intros [k x] kv'. cbn [fst snd]. destruct (as_str x) as [y|]; [|done]. cbn [mbind option_bind].
  destruct (param_value_ok y) eqn:E; [|done]. by intros [= <-].
Qed.

Lemma template_params_id params :
  map_sorted params -> Forall (fun kv => param_value_ok kv.2 = true) params ->
  template_params (Some (json_str_object params)) = Ok params.
Proof.
  intros Hs Hall. unfold template_params, json_str_object. cbn [present].
  rewrite collect_map_values; [cbn; by rewrite map_of_list_id|].
  intros k v Hin. rewrite Forall_forall in Hall. specialize (Hall _ Hin).
  cbn [fst snd as_str mbind option_bind] in *. by rewrite Hall.
Qed.

Lemma TemplateName_parse_id s t : TemplateName_parse s = Ok t -> t = s.
Proof. unfold TemplateName_parse. by intros [-> _]%(shaped_parse_ok _ _ _ (fun s => _)). Qed.

Lemma make_spec_valid fields d c :
  timeout_ok d -> make_spec_with_default fields d = Ok c -> valid_spec c.
Proof.
  intros Hd. unfold make_spec_with_default. destruct (negb _); [done|].
  intros (tier & _ & Hc)%bind_ok. apply bind_ok in Hc as (command & Hcmd & Hc).
  apply bind_ok in Hc as (cwd & Hcwd & Hc). apply bind_ok in Hc as (env & Henv & Hc).
  apply bind_ok in Hc as (timeout & Ht & Hc). apply bind_ok in Hc as (stdin & Hstdin & Hc).
  injection Hc as <-. split; cbn [s_command s_cwd s_env s_timeout s_stdin].
  - destruct (str_eqb _ _).
    + apply bind_ok in Hcmd as (tpl & Htpl & Hcmd). apply bind_ok in Hcmd as (params & Hp & Hcmd).
      injection Hcmd as <-. apply template_params_ok in Hp as [? ?]. split_and!; [|done|done].
      destruct (present (sf_template fields)) as [v|]; [|done]. cbn [mbind option_bind] in Htpl.
      destruct (as_str v) as [s|]; [|done]. cbn [mbind option_bind] in Htpl.
      destruct (TemplateName_parse s) as [x|] eqn:E; [|done]. injection Htpl as ->.
      pose proof (TemplateName_parse_id _ _ E) as ->. exact E.
    + destruct (validate_argv _) as [argv|] eqn:E; [|done]. injection Hcmd as <-.
      by eapply validate_argv_ok.
  - exact (validate_cwd_ok _ _ Hcwd).
  - exact (validate_env_ok _ _ Henv).
  - exact (validate_timeout_ok _ _ _ Hd Ht).
  - exact (validate_stdin_ok _ _ Hstdin).
Qed.

(** *** Specs and their JSON *)

Definition spec_entries (c : CommandSpec) : list (str * Value) :=
  match s_command c with
  | CRun argv => [(lit "argv", json_strs argv)]
  | CTemplate _ _ => []
  end
  ++ [(lit "cwd", json_opt_str (s_cwd c)); (lit "env", json_str_object (s_env c));
      (lit "host", VString (s_host c)); (lit "kind", VString (spec_kind c))]
  ++ match s_command c with
     | CRun _ => []
     | CTemplate _ params => [(lit "params", json_str_object params)]
     end
  ++ [(lit "stdin", json_opt_str (s_stdin c))]
  ++ match s_command c with
     | CRun _ => []
     | CTemplate template _ => [(lit "template", VString template)]
     end
  ++ [(lit "tier", VString (Tier_as_str (s_tier c)));
      (lit "timeout", VNumber (PosInt (s_timeout c)))].

Lemma CommandSpec_to_json_entries c : CommandSpec_to_json c = VObject (spec_entries c).
Proof. destruct c as [h t [argv|tpl params] cwd env timeout stdin]; reflexivity. Qed.

Lemma spec_tier_id t : spec_tier (Some (VString (Tier_as_str t))) = Ok t.
Proof. unfold spec_tier. cbn [present mbind option_bind as_str]. by rewrite Tier_parse_as_str. Qed.

Lemma timeout_not_falsy t :
  timeout_ok t -> unless_falsy (Some (VNumber (PosInt t))) = Some (VNumber (PosInt t)).
Proof.
  intros [H1 _]. unfold unless_falsy, is_falsy. cbn [Number_as_u64 Number_as_i64].
  rewrite (bool_decide_false (Some t = Some 0%N)) by (intros [= ->]; lia).
  rewrite (proj2 (N.eqb_neq t 0)) by (intros ->; lia).
  rewrite (bool_decide_false (_ = Some 0%Z)); [done|].
  destruct (N.ltb t (2 ^ 63)); [|done]. intros [= E]. lia.
Qed.

(** The parts of a valid spec are read back as they are. *)
Lemma make_spec_id c d :
  valid_spec c ->
  make_spec_with_default
    (mkFields (spec_kind c) (s_host c) (Some (VString (Tier_as_str (s_tier c))))
      match s_command c with CRun argv => Some (json_strs argv) | CTemplate _ _ => None end
      match s_command c with CRun _ => None | CTemplate t _ => Some (VString t) end
      match s_command c with CRun _ => None | CTemplate _ p => Some (json_str_object p) end
      (Some (json_opt_str (s_cwd c))) (Some (json_str_object (s_env c)))
      (Some (VNumber (PosInt (s_timeout c)))) (Some (json_opt_str (s_stdin c)))) d = Ok c.
Proof.
  intros [H1 H2 H3 H4 H5]. destruct c as [h t cmd cwd env timeout stdin].
  cbn [s_command s_cwd s_env s_timeout s_stdin s_host s_tier] in *.
  unfold make_spec_with_default.
  cbn [sf_kind sf_host sf_tier sf_argv sf_template sf_params sf_cwd sf_env sf_timeout sf_stdin].
  rewrite spec_tier_id. rewrite (validate_cwd_id cwd H2). rewrite (validate_env_id env H3).
  rewrite (validate_timeout_id timeout d H4). rewrite (validate_stdin_id stdin H5).
  destruct cmd as [argv|tpl params]; cbn [spec_kind s_command].
  - rewrite validate_argv_strs by assumption. reflexivity.
  - destruct H1 as (Ht & Hs & Hall). rewrite template_params_id by done.
    cbn [present mbind option_bind as_str]. rewrite Ht. reflexivity.
Qed.

Lemma filter_subset allowed keys :
  set_is_subset keys allowed = true ->
  List.filter (fun k => negb (set_contains k allowed)) keys = [].
Proof.
  unfold set_is_subset. induction keys as [|k keys IH]; [done|]. cbn.
  intros [Hk Hks]%andb_true_iff. rewrite Hk. cbn. auto.
Qed.

Lemma from_json_known map kind allowed host d :
  map_get (lit "kind") map = Some (VString kind) ->
  allowed_keys kind = Some allowed -> set_is_subset (map_keys map) allowed = true ->
  map_get (lit "host") map = Some (VString host) ->
  JobSpec_from_json (VObject map) d =
    if str_eqb kind (lit "shell") then
      JShell <$> shell_spec host (map_get (lit "tier") map) (map_get (lit "duration") map)
    else
      JCommand <$> make_spec_with_default
        (mkFields kind host (map_get (lit "tier") map) (map_get (lit "argv") map)
          (map_get (lit "template") map) (map_get (lit "params") map)
          (map_get (lit "cwd") map) (map_get (lit "env") map)
          (unless_falsy (map_get (lit "timeout") map)) (map_get (lit "stdin") map)) d.
Proof.
  intros Hk Ha Hs Hh. unfold JobSpec_from_json. rewrite Hk. cbn [mbind option_bind as_str default].
  unfold default, from_option, id. rewrite Ha, filter_subset by done.
  cbn [set_of_list fold_left]. rewrite bool_decide_true by done. cbn [negb].
  rewrite Hh. reflexivity.
Qed.

Lemma job_roundtrip_command c d :
  valid_spec c -> JobSpec_from_json (JobSpec_to_json (JCommand c)) d = Ok (JCommand c).
Proof.
  intros Hc. pose proof (make_spec_id c d Hc) as Hid.
  pose proof (timeout_not_falsy (s_timeout c) (vs_timeout c Hc)) as Htf.
  cbn [JobSpec_to_json]. rewrite CommandSpec_to_json_entries.
  destruct c as [h t [argv|tpl params] cwd env timeout stdin]; cbn [s_timeout] in Htf;
    cbn [spec_kind s_command s_host s_tier s_cwd s_env s_timeout s_stdin] in Hid.
  - rewrite (from_json_known _ (lit "run") [lit "kind"; lit "host"; lit "tier"; lit "argv";
      lit "cwd"; lit "env"; lit "timeout"; lit "stdin"] h); [|reflexivity..].
    change (map_get (lit "timeout") _) with (Some (VNumber (PosInt timeout))). rewrite Htf.
    exact (f_equal (fun r => JCommand <$> r) Hid).
  - rewrite (from_json_known _ (lit "tpl") [lit "kind"; lit "host"; lit "tier"; lit "template";
      lit "params"; lit "cwd"; lit "env"; lit "timeout"; lit "stdin"] h); [|reflexivity..].
    change (map_get (lit "timeout") _) with (Some (VNumber (PosInt timeout))). rewrite Htf.
    exact (f_equal (fun r => JCommand <$> r) Hid).
Qed.

Lemma job_roundtrip_shell s d :
  (0 < sh_duration s < 2 ^ 32)%N ->
  JobSpec_from_json (JobSpec_to_json (JShell s)) d = Ok (JShell s).
Proof.
  intros [H1 H2]. destruct s as [h t dur]. cbn [sh_duration] in *. cbn [JobSpec_to_json].
  change (ShellSpec_to_json _) with (VObject [(lit "duration", VNumber (PosInt dur));
    (lit "host", VString h); (lit "kind", VString (lit "shell")); (lit "tier", VString (Tier_as_str t))]).
  rewrite (from_json_known _ (lit "shell") [lit "kind"; lit "host"; lit "tier"; lit "duration"] h);
    [|reflexivity..].
  change (str_eqb (lit "shell") (lit "shell")) with true. cbn iota. unfold shell_spec.
  change (map_get (lit "tier") _) with (Some (VString (Tier_as_str t))).
  change (map_get (lit "duration") _) with (Some (VNumber (PosInt dur))).
  rewrite spec_tier_id. cbn [present mbind result_bind option_bind as_u64 Number_as_u64].
  unfold u32_try_from.
  by rewrite (proj2 (N.ltb_lt 0 dur) H1), (proj2 (N.ltb_lt dur (2 ^ 32)) H2).
Qed.

(** *** Templates *)

Section template_lemmas.
Context `{RegexLib}.

Lemma fill_from_fuel params f1 f2 rest :
  length rest < f1 -> length rest < f2 -> fill_from f1 params rest = fill_from f2 params rest.
Proof.
  revert f2 rest. induction f1 as [|f1 IH]; intros f2 rest H1 H2; [lia|].
  destruct f2 as [|f2]; [lia|]. cbn [fill_from].
  destruct (split_once (ch "{") rest) as [[before after]|] eqn:E; [|done].
  apply split_once_some in E as [-> _]. rewrite length_app in *. cbn [length] in *.
  destruct (_ && _).
  - do 2 f_equal. apply IH; rewrite length_drop; lia.
  - do 2 f_equal. apply IH; lia.
Qed.

Lemma fill_plain params arg : ch "{" ∉ arg -> fill arg params = arg.
Proof.
  intros Hn. unfold fill. cbn [fill_from].
  destruct (split_once (ch "{") arg) as [[a b]|] eqn:E; [|done].
  apply split_once_some in E as [-> _]. destruct Hn. apply elem_of_app. right. left.
Qed.

(** A placeholder is replaced, once, by its value; the rest is filled on
    its own. *)
Lemma fill_placeholder params pre name post :
  ch "{" ∉ pre -> name <> [] -> Forall (fun c => name_byte c = true) name ->
  fill (pre ++ lit "{" ++ name ++ lit "}" ++ post) params =
  pre ++ match map_get name params with
         | Some value => value | None => lit "{" ++ name ++ lit "}" end
      ++ fill post params.
Proof.
  intros Hpre Hne Hn. unfold fill at 1. cbn [fill_from].
  change (lit "{" ++ name ++ lit "}" ++ post) with (ch "{" :: (name ++ lit "}" ++ post)).
  rewrite split_once_app by done.
  rewrite take_while_app by done. rewrite drop_app_length.
  change (head (lit "}" ++ post)) with (Some (ch "}")). rewrite bool_decide_true by done.
  assert (Hl : Nat.ltb 0 (length name) = true) by (by destruct name).
  rewrite Hl. cbn [andb]. do 2 f_equal.
  change (lit "}" ++ post) with ([ch "}"] ++ post).
  rewrite (app_assoc name), drop_app_exact by (by rewrite length_app).
  unfold fill. apply fill_from_fuel; rewrite ?length_app; cbn [length]; rewrite ?length_app; cbn [length]; lia.
Qed.

Lemma check_params_ok patterns params :
  check_params patterns params = Ok tt <->
  forall name value, (name, value) ∈ params ->
  exists p, map_get name patterns = Some p /\ full_match p value = true.
Proof.
  induction params as [|[n v] params IH]; cbn [check_params].
  - split; [|done]. intros _ ? ? Hin. by apply not_elem_of_nil in Hin.
  - split.
  + intros Hc name value [[= -> ->]|Hin]%elem_of_cons.
    * destruct (map_get n patterns) as [p|]; [|done].
      destruct (full_match p v) eqn:E; [by exists p|done].
    * destruct (map_get n patterns) as [p|]; [|done].
      destruct (full_match p v); [|done]. by eapply IH.
  + intros Hall. destruct (Hall n v) as (p & -> & ->); [left|].
    apply IH. intros. apply Hall. by right.
Qed.

Lemma expand_ok t params argv :
  expand t params = Ok argv <->
  set_of_list (map_keys params) = set_of_list (map_keys (t_params t)) /\
  (forall name value, (name, value) ∈ params ->
  exists p, map_get name (t_params t) = Some p /\ full_match p value = true) /\
  argv = map (fun arg => fill arg params) (t_argv t).
Proof.
  unfold expand. destruct (bool_decide_reflect (set_of_list (map_keys params) =
  set_of_list (map_keys (t_params t)))) as [E|E]; cbn [negb]; [|naive_solver].
  rewrite <- check_params_ok. destruct (check_params _ params) as [[]|e]; cbn; naive_solver.
Qed.
End template_lemmas.

(** *** Argv patterns *)

Definition arg_fits (loose : bool) (i : nat) (glob arg : str) : Prop :=
  fnmatch arg glob = true \/ (i = 0 /\ loose = true /\ fnmatch (basename arg) glob = true).

Lemma match_args_iff i loose fixed argv :
  length fixed <= length argv ->
  match_args i loose fixed argv = true <->
  forall k g a, fixed !! k = Some g -> argv !! k = Some a -> arg_fits loose (i + k) g a.
Proof.
  revert i argv. induction fixed as [|g fixed IH]; intros i argv Hl.
  - split; [|done]. intros _ k g a Hg. by rewrite lookup_nil in Hg.
  - destruct argv as [|a argv]; cbn in Hl; [lia|]. cbn [match_args].
    rewrite andb_true_iff, (IH (S i)) by lia. unfold arg_fits. split.
    + intros [H1 H2] [|k] g' a' Hg Ha; cbn in Hg, Ha.
      * injection Hg as ->. injection Ha as ->. rewrite Nat.add_0_r.
        apply orb_true_iff in H1 as [?|H1]; [by left|right]. bools.
        match goal with H : Nat.eqb _ _ = true |- _ => apply Nat.eqb_eq in H end. done.
      * replace (i + S k) with (S i + k) by lia. eauto.
    + intros Hall. split.
      * destruct (Hall 0 g a eq_refl eq_refl) as [->|(E & -> & ->)]; [done|].
        rewrite Nat.add_0_r in E. subst. apply orb_true_r.
      * intros k g' a' Hg Ha. replace (S i + k) with (i + S k) by lia. by apply Hall.
Qed.

Lemma match_argv_iff pattern argv loose :
  match_argv pattern argv loose = true <->
  exists fixed first others,
    (pattern = fixed ++ [lit "**"] \/ last pattern <> Some (lit "**") /\ pattern = fixed /\ others = []) /\
    argv = first ++ others /\ length first = length fixed /\
    (forall k g a, fixed !! k = Some g -> first !! k = Some a -> arg_fits loose k g a).
Proof.
  unfold match_argv. destruct (bool_decide_reflect (last pattern = Some (lit "**"))) as [Hlast|Hlast].
  - apply last_Some in Hlast as [fixed ->]. rewrite length_app. cbn [length negb andb].
    rewrite Nat.add_sub, take_app_length, orb_false_r.
    destruct (Nat.ltb_spec (length argv) (length fixed)).
    + split; [done|]. intros (fx & first & others & [E|[? ?]] & -> & Hl & _).
      * apply app_inj_2 in E as [-> _]; [|done]. rewrite length_app in *. lia.
      * by rewrite last_snoc in *.
    + rewrite match_args_iff by lia. split.
      * intros Hall. exists fixed, (take (length fixed) argv), (drop (length fixed) argv).
        rewrite take_drop, length_take. split_and!; [by left|done|lia|].
        intros k g a Hg Ha. apply (Hall k g a Hg). by apply lookup_take_Some in Ha as [Ha _].
      * intros (fx & first & others & [E|[? ?]] & -> & Hl & Hall) k g a Hg Ha.
        -- apply app_inj_2 in E as [-> _]; [|done]. apply (Hall k g a Hg).
           rewrite lookup_app_l in Ha; [done|]. rewrite Hl. by apply lookup_lt_Some in Hg.
        -- by rewrite last_snoc in *.
  - cbn [negb andb]. split.
    + destruct (_ || _) eqn:E; [done|]. bools.
      match goal with H : Nat.eqb _ _ = true |- _ => apply Nat.eqb_eq in H as Hl end.
      rewrite match_args_iff by lia. intros Hall. exists pattern, argv, []. rewrite app_nil_r.
      split_and!; [by right|done|done|]. intros k g a. apply Hall.
    + intros (fx & first & others & [->|(_ & -> & ->)] & -> & Hl & Hall).
      { by rewrite last_snoc in Hlast. }
      rewrite app_nil_r. rewrite Hl, Nat.ltb_irrefl, Nat.eqb_refl. cbn [orb negb].
      apply match_args_iff; [lia|done].
Qed.

(** ** Properties *)

(** Whatever spec the constructors make is valid: at least one and at
    most 256 arguments, none with a NUL or over its size, a normal absolute
    working directory, at most 32 well-named variables, a timeout between
    one second and a day and bounded input. *)
Theorem make_spec_sound fields default_timeout c :
  (1 <= default_timeout <= MAX_TIMEOUT_SECS)%N ->
  make_spec_with_default fields default_timeout = Ok c -> valid_spec c.
Proof. apply make_spec_valid. Qed.

Lemma make_spec_sound_witness :
  valid_spec (mkSpec (lit "h") User (CRun [lit "ls"; lit "-l"]) (Some (lit "/srv/x")) [] 600 None).
Proof.
  apply (make_spec_sound
    (mkFields (lit "run") (lit "h") (Some (VString (lit "user")))
      (Some (json_strs [lit "ls"; lit "-l"])) None None (Some (VString (lit "/srv/./y/../x/"))) None
      None None) 600).
  - split; vm_compute; discriminate.
  - vm_compute. reflexivity.
Defined.

(** A valid job, sent as JSON, is read by the host as exactly that job,
    whatever the host's default timeout. *)
Theorem job_spec_roundtrip job default_timeout :
  match job with
  | JCommand c => valid_spec c
  | JShell s => (0 < sh_duration s < 2 ^ 32)%N
  end ->
  JobSpec_from_json (JobSpec_to_json job) default_timeout = Ok job.
Proof. destruct job; [apply job_roundtrip_command|apply job_roundtrip_shell]. Qed.

Lemma job_spec_roundtrip_witness :
  let job := JShell (mkShell (lit "h") Root 3600) in
  JobSpec_from_json (JobSpec_to_json job) 600 = Ok job.
Proof. intros job. apply (job_spec_roundtrip job 600). split; vm_compute; reflexivity. Defined.

(** An absolute path is normalized to an absolute path whose components
    are neither empty nor [.] nor [..], which is never longer, and which
    normalizing again leaves as it is. *)
Theorem normpath_normalizes path :
  head path = Some (ch "/") ->
  normal_path (posix_normpath path) /\ length (posix_normpath path) <= length path /\
  posix_normpath (posix_normpath path) = posix_normpath path.
Proof.
  intros Hp. pose proof (normpath_normal path Hp). split_and!; [done|by apply normpath_length|].
  by apply normpath_fixed.
Qed.

Lemma normpath_normalizes_witness :
  posix_normpath (lit "/a/b/../../../c") = lit "/c" /\ normal_path (lit "/c").
Proof.
  split; [vm_compute; reflexivity|].
  exact (proj1 (normpath_normalizes (lit "/a/b/../../../c") ltac:(vm_compute; reflexivity))).
Defined.

(** Expanding a template needs exactly its parameters, each matching its
    pattern in full, and yields as many arguments as the template has: each
    is the template's with its placeholders replaced by their values once
    (text without a brace is untouched, a value is never expanded again). *)
Theorem template_expands `{RegexLib} t params argv pre name post value :
  expand t params = Ok argv ->
  length argv = length (t_argv t) /\
  (forall n v, (n, v) ∈ params -> exists p, map_get n (t_params t) = Some p /\ full_match p v = true) /\
  (forall n, n ∈ map_keys params <-> n ∈ map_keys (t_params t)) /\
  argv = map (fun arg => fill arg params) (t_argv t) /\
  (ch "{" ∉ pre -> fill pre params = pre) /\
  (ch "{" ∉ pre -> name <> [] -> forallb name_byte name = true -> map_get name params = Some value ->
   fill (pre ++ lit "{" ++ name ++ lit "}" ++ post) params = pre ++ value ++ fill post params).
Proof.
  intros (Hk & Hp & ->)%expand_ok. split_and!; try done.
  - by rewrite length_map.
  - intros n. by rewrite <- (set_of_list_elem n), Hk, set_of_list_elem.
  - apply fill_plain.
  - intros Hpre Hne Hn Hv. rewrite fill_placeholder; [by rewrite Hv|done|done|].
    apply Forall_forall. by apply forallb_elem.
Qed.

Lemma template_expands_witness :
  let rx := Build_RegexLib unit (fun _ => Ok tt) (fun _ _ => true) in
  let t := @mkTemplate rx Root [lit "systemctl"; lit "restart"; lit "{unit}.service"]
             [(lit "unit", @mkPattern rx (lit "[a-z]+") tt)] [] None [] None in
  length [lit "systemctl"; lit "restart"; lit "{unit}.service"] = 3 /\
  @expand rx t [(lit "unit", lit "{unit}")] = Ok [lit "systemctl"; lit "restart"; lit "{unit}.service"].
Proof.
  intros rx t.
  destruct (@template_expands rx t [(lit "unit", lit "{unit}")]
    [lit "systemctl"; lit "restart"; lit "{unit}.service"] [] [] [] []
    ltac:(vm_compute; reflexivity)) as (Hl & _).
  split; [exact Hl|vm_compute; reflexivity].
Defined.

(** An argv pattern matches exactly the argument lists whose first
    arguments its elements describe one by one (the program also by its base
    name when loose), with further arguments only after a final [**]. *)
Theorem match_argv_exact pattern argv loose :
  match_argv pattern argv loose = true <->
  exists fixed first others,
    (pattern = fixed ++ [lit "**"] \/
     last pattern <> Some (lit "**") /\ pattern = fixed /\ others = []) /\
    argv = first ++ others /\ length first = length fixed /\
    (forall k g a, fixed !! k = Some g -> first !! k = Some a ->
      fnmatch a g = true \/ (k = 0 /\ loose = true /\ fnmatch (basename a) g = true)).
Proof. apply match_argv_iff. Qed.
