(* ===== verification/Schema.v ===== *)
(** The sections of the policy file ([crates/core/src/policy/schema.rs] and
    [policy/mail.rs]): their types, defaults and validators. A duration is its
    seconds. *)

From S2P Require Import Prelude Json Glob Pyfmt Lifecycle Names Durations Pool Mail Authority Routing Agents Hostexec.
From stdpp Require Import options.

(** ** Rules *)

Record Match := mkRuleMatch {
  mt_agent : AgentPattern;
  mt_platform : option Platform;
  mt_capability : Glob;
  mt_resource : str;
  mt_delegator : option AgentPattern;
}.
Definition Match_default : Match := mkRuleMatch AgentPattern_default None Glob_any (lit "*") None.

Record Constraints := mkConstraints {
  k_max_duration : option Z;
  k_llm_model : option str;
  k_retry_budget : option N;
}.
Definition Constraints_default : Constraints := mkConstraints None None None.

Record PolicyRule := mkRule {
  r_matches : Match;
  r_action : PolicyAction;
  r_constraints : Constraints;
  r_reason : str;
}.

Record Defaults := mkDefaults { d_action : PolicyAction; d_max_duration : Z }.
Record LlmConfig := mkLlmConfig { llm_model : str; llm_retry_budget : N; llm_timeout_secs : N }.
Definition LlmConfig_default : LlmConfig :=
  mkLlmConfig (lit "deepseek/deepseek-v4.1-flash-1017") 2 60.

(** ** Platforms *)

Record GithubConfig := mkGithub {
  repo_allowlist : list Glob;
  repo_denylist : list Glob;
  permission_ceiling : list (str * str);
  sensitive_permissions : list str;
  create_owners : list str;
}.
Definition GithubConfig_default : GithubConfig :=
  mkGithub [] [] [] [lit "secrets"; lit "administration"] [].

Record HomelabConfig := mkHomelab {
  allowed_groups : list str;
  group_descriptions : list (str * str);
  managed_accounts : bool;
  managed_username_prefix : str;
  managed_email_domain : str;
}.
Definition HomelabConfig_default : HomelabConfig :=
  mkHomelab [] [] true (lit "svc-") (lit "agents.invalid").

Record KubernetesConfig := mkKubernetesConfig {
  namespace_allowlist : list Glob;
  role_allowlist : list str;
  cluster_role_allowlist : list str;
  cluster_grant_namespace : str;
  role_descriptions : list (str * str);
  sensitive_roles : list str;
  sensitive_namespaces : list Glob;
  grant_namespace : str;
}.
Definition KubernetesConfig_default : KubernetesConfig :=
  mkKubernetesConfig [] [lit "view"] [] (lit "default") [] [lit "edit"; lit "admin"]
    (map Glob_new [lit "kube-system"; lit "kube-public"; lit "kube-node-lease"; lit "flux-system"])
    (lit "agent-auth-grants").

Section normalize.
Context `{UnicodeLower}.

Definition secs (text : str) : Z :=
  match duration_parse text with Ok d => d | Err _ => MAX_DURATION_SECS end.

Definition Defaults_default : Defaults := mkDefaults Surface (secs (lit "24h")).

Definition lower_glob (g : Glob) : Glob := Glob_new (to_lowercase (glob_source g)).

Definition GithubConfig_normalize (c : GithubConfig) : GithubConfig :=
  mkGithub (map lower_glob (repo_allowlist c)) (map lower_glob (repo_denylist c))
  (permission_ceiling c) (sensitive_permissions c) (create_owners c).

Definition label63 (s : str) : bool := is_ok (DaemonName_parse s).

Definition KubernetesConfig_normalize (c : KubernetesConfig) : result str KubernetesConfig :=
  let c := mkKubernetesConfig (map lower_glob (namespace_allowlist c)) (role_allowlist c)
  (cluster_role_allowlist c) (to_lowercase (cluster_grant_namespace c)) (role_descriptions c)
  (sensitive_roles c) (map lower_glob (sensitive_namespaces c))
  (to_lowercase (grant_namespace c)) in
  if negb (label63 (grant_namespace c)) then Err (lit "grant_namespace: a namespace name")
  else Ok c.

Definition config_namespace_is_sensitive (c : KubernetesConfig) (namespace : str) : bool :=
  str_eqb namespace (cluster_grant_namespace c)
  || existsb (fun g => glob_matches g namespace) (sensitive_namespaces c).
End normalize.

Definition HomelabConfig_validate (c : HomelabConfig) : result str unit :=
  if Nat.ltb 32 (length (managed_username_prefix c)) then
    Err (lit "managed_username_prefix: at most 32 characters")
  else if bool_decide (managed_email_domain c = []) then
    Err (lit "managed_email_domain: at least 1 character")
  else Ok tt.

Record AgentsConfig := mkAgentsConfig { runtimes : list str; lease : Z }.
Definition AgentsConfig_default `{UnicodeLower} : AgentsConfig :=
  mkAgentsConfig [lit "claude"; lit "codex"] (secs (lit "30d")).

Record HostexecConfig `{RegexLib} := mkHostexecConfig {
  templates : list (str * Template);
  risk_summary : bool;
  risk_model : option str;
  watch : bool;
  window_default : Z;
  window_max : Z;
}.
Definition HostexecConfig_default `{UnicodeLower, RegexLib} : HostexecConfig :=
  mkHostexecConfig _ [] true None true (secs (lit "30m")) (secs (lit "8h")).

Record McpServer := mkMcpServer {
  url : str; server_description : str; server_tools : list str; audience : option str
}.
Record McpConfig := mkMcpConfig { issuer : str; token_ttl : Z; servers : list (str * McpServer) }.
Definition McpConfig_default `{UnicodeLower} : McpConfig := mkMcpConfig [] (secs (lit "1h")) [].

(** The audience a server's tokens are checked against. *)
Definition server_audience (s : McpServer) : str :=
  match audience s with
  | Some a => if bool_decide (a = []) then url s else a
  | None => url s
  end.

(** The loop of [McpConfig::validate]; [seen] maps an audience to its server. *)
Fixpoint check_audiences (seen : list (str * str)) (servers : list (str * McpServer))
    : result str unit :=
  match servers with
  | [] => Ok tt
  | (name, server) :: servers' =>
      let aud := server_audience server in
      match map_get aud seen with
      | Some other =>
          Err (lit "platforms.mcp.servers: " ++ other ++ lit " and " ++ name
               ++ lit " have the same audience " ++ repr aud)
      | None => check_audiences (map_insert aud name seen) servers'
      end
  end.

Definition starts_with (p s : str) : bool := negb (is_none (strip_prefix p s)).

Definition McpConfig_validate (c : McpConfig) : result str unit :=
  if negb (bool_decide (servers c = [])) && negb (starts_with (lit "https://") (issuer c)) then
    Err (lit "platforms.mcp.issuer (the broker's https URL) is required when servers are listed")
  else check_audiences [] (servers c).

Record ModelsConfig := mkModels {
  models_name : str;
  models_url : str;
  admin_url : option str;
  models : list str;
  by_runtime : list (str * list str);
  max_budget : option N;
  budget_duration : str;
}.
Definition ModelsConfig_default : ModelsConfig :=
  mkModels (lit "litellm") [] None [] [] None (lit "30d").

(** [f64::is_finite], on the bits. *)
Definition f64_finite (bits : N) : bool := negb (N.eqb ((bits / 2 ^ 52) mod 2 ^ 11)%N 2047).

Definition url_space (c : char) : bool := is_whitespace c || in_range 0x1c 0x1f c.

Definition http_url (s : str) : bool :=
  let rest := match strip_prefix (lit "https://") s with
              | Some r => Some r | None => strip_prefix (lit "http://") s end in
  match rest with
  | None => false
  | Some rest =>
      let '(host, path) := match split_once (ch "/") rest with
                           | Some (h, p) => (h, ch "/" :: p) | None => (rest, []) end in
      negb (bool_decide (host = [])) && negb (existsb url_space host)
      && negb (existsb url_space path)
  end.

Definition ModelsConfig_validate (c : ModelsConfig) : result str unit :=
  match find (fun v => negb (bool_decide (v = [])) && negb (http_url v))
          (models_url c :: match admin_url c with Some u => [u] | None => [] end) with
  | Some value => Err (lit "platforms.models: " ++ repr value ++ lit " is not an http(s) URL")
  | None =>
      if negb (label63 (models_name c)) then
        Err (lit "platforms.models.name: lowercase letters, digits and dashes")
      else if match max_budget c with Some b => negb (f64_finite b) | None => false end then
        Err (lit "platforms.models.max_budget: a number")
      else Ok tt
  end.

Record GoogleAccount := mkGoogleAccount {
  ga_address : str;
  client_secret_file : str;
  refresh_token_file : str;
  service_account_file : str;
  subject : option str;
}.
Record GoogleConfig := mkGoogle { accounts : list (str * GoogleAccount) }.

Definition nonempty (s : str) : bool := negb (bool_decide (s = [])).

Definition email_address_ok (address : str) : bool :=
  match split_once (ch "@") address with
  | None => false
  | Some (local, domain) =>
      let plain s := nonempty s && negb (existsb (fun c => N.eqb c (ch "@") || is_whitespace c) s) in
      let dotted := match rsplit_once (ch ".") domain with
                    | Some (a, b) => nonempty a && nonempty b | None => false end in
      plain local && plain domain && dotted
  end.

Definition config_name_ok (name : str) : bool :=
  match name with
  | [] => false
  | c :: chars =>
      lower_digit c && Nat.leb (str_len name) 63
      && forallb (fun c => lower_digit c || (N.eqb c (ch "_") || N.eqb c (ch "-"))) chars
  end.

Section google.
Context `{UnicodeLower}.

Definition normalize_account (kv : str * GoogleAccount) : result str (str * GoogleAccount) :=
  let '(name, account) := kv in
  if negb (config_name_ok name) then
  Err (lit "google account name " ++ repr name ++ lit ": lowercase letters, digits, - and _")
  else if negb (email_address_ok (ga_address account)) then
  Err (lit "google account address " ++ repr (ga_address account) ++ lit " is not an email address")
  else
  let address := to_lowercase (ga_address account) in
  let oauth := nonempty (client_secret_file account) && nonempty (refresh_token_file account) in
  if Bool.eqb oauth (nonempty (service_account_file account)) then
    Err (lit "google account " ++ address
         ++ lit ": either client_secret_file + refresh_token_file, or service_account_file (Workspace domain-wide delegation)")
  else Ok (name, mkGoogleAccount address (client_secret_file account)
                   (refresh_token_file account) (service_account_file account) (subject account)).

Definition GoogleConfig_normalize (c : GoogleConfig) : result str GoogleConfig :=
  mkGoogle <$> collect normalize_account (accounts c).
End google.

Record PoolItem := mkPoolItem {
  item_description : str;
  properties : list (str * PropValue);
  secret_file : str;
  item_sensitive : bool;
  item_agents : list AgentPattern;
}.
Record PoolConfig := mkPool {
  pool_description : str;
  items : list (str * PoolItem);
  capacity : N;
  max_per_agent : N;
  pool_agents : list AgentPattern;
}.
Definition PoolConfig_default : PoolConfig := mkPool [] [] 1 1 [].
Definition MAX_POOL_PER_AGENT : N := 10000.

Definition PoolConfig_validate (c : PoolConfig) (name : str) : result str unit :=
  if negb (config_name_ok name) then
    Err (lit "pool name " ++ repr name ++ lit ": lowercase letters, digits, - and _")
  else match find (fun i => negb (item_name_ok i)) (map_keys (items c)) with
  | Some item => Err (lit "pool item " ++ repr item ++ lit ": letters, digits, . _ -")
  | None =>
      if negb (N.leb 1 (capacity c) && N.leb (capacity c) 100) then
        Err (lit "platforms.pools." ++ name ++ lit ".capacity: from 1 to 100")
      else if negb (N.leb 1 (max_per_agent c) && N.leb (max_per_agent c) MAX_POOL_PER_AGENT) then
        Err (lit "platforms.pools." ++ name ++ lit ".max_per_agent: from 1 to 10000")
      else Ok tt
  end.

(** ** Mail ([policy/mail.rs]) *)

Definition loose_address (s : str) : bool :=
  match split_once (ch "@") s with
  | None => false
  | Some (local, domain) =>
      let ok p := nonempty p && negb (elem_b (ch "@") p) && negb (existsb is_whitespace p) in
      (* some dot with text on both sides *)
      ok local && ok domain
      && existsb (fun i => bool_decide (domain !! i = Some (ch ".")) && Nat.ltb 0 i
           && Nat.ltb (i + 1) (length domain)) (seq 0 (length domain))
  end.

Definition is_host (s : str) : bool :=
  nonempty s && Nat.leb (str_len s) 253
  && forallb (fun b => is_ascii_alphanumeric b || elem_b b (lit ".-:[]")) s.

Inductive MailBackendKind := Gmail | Imap.
#[export] Instance MailBackendKind_eq_dec : EqDecision MailBackendKind.
Proof. solve_decision. Defined.

Record MailboxConfig := mkMailbox {
  mb_address : str;
  backend : MailBackendKind;
  google_account : option str;
  imap_host : str;
  imap_port : N;
  smtp_host : str;
  smtp_port : N;
  username : option str;
  password_file : str;
  folders : list str;
  direct : bool;
  authserv_id : option str;
  sent_folders : list str;
}.
Definition default_imap_port : N := 993.
Definition default_smtp_port : N := 465.
Definition inbox : list str := [lit "INBOX"].
Definition default_sent_folders : list str :=
  [lit "Sent"; lit "Sent Items"; lit "Sent Messages"; lit "[Gmail]/Sent Mail"].

Definition folder_bad (f : str) : bool :=
  bool_decide (f = []) || Nat.ltb 255 (length f) || existsb is_control f.
Definition username_bad (u : str) : bool :=
  bool_decide (u = []) || Nat.ltb 320 (str_len u) || existsb is_control u.

Record SimpleLoginConfig := mkSimpleLogin {
  api_url : str;
  api_key_file : str;
  sl_mailbox : str;
  aliases : list str;
  create_domains : list str;
  dkim_domains : list str;
}.
Definition SimpleLoginConfig_default : SimpleLoginConfig :=
  mkSimpleLogin (lit "https://app.simplelogin.io") [] [] [lit "*"] [] [lit "simplelogin.co"].

(** [host.split([...]).next()]: the text before the first of the characters. *)
Definition before_any (stops : str) (s : str) : str := take_while (fun c => negb (elem_b c stops)) s.

Definition api_url_ok (url : str) : bool :=
  if starts_with (lit "https://") url && Nat.ltb (length (lit "https://")) (str_len url) then true
  else match strip_prefix (lit "http://") url with
  | None => false
  | Some rest =>
      let host := before_any (lit "/?#") rest in
      let host := match rsplit_once (ch ":") host with
                  | Some (h, port) => if forallb is_ascii_digit port then h else host
                  | None => host
                  end in
      existsb (str_eqb host) [lit "127.0.0.1"; lit "localhost"; lit "[::1]"]
  end.

Record MailRestriction := mkRestriction {
  mr_address : str;
  mr_topic : option str;
  mr_correspondents : list str;
  mr_capabilities : option (list MailAction);
}.

Inductive InjectionMode := WithholdInjection | FlagInjection.
Inductive UnclearMode := HoldUnclear | WithholdUnclear.
Inductive SendReview := ReviewLlm | ReviewHuman.

Record MailConfig := mkMailConfig {
  mailboxes : list (str * MailboxConfig);
  simplelogin : option SimpleLoginConfig;
  restrictions : list MailRestriction;
  judge_model : option str;
  injection : InjectionMode;
  unclear : UnclearMode;
  send_review : SendReview;
  max_body_chars : N;
  max_attachment_bytes : N;
}.
Definition MailConfig_default : MailConfig :=
  mkMailConfig [] None [] None WithholdInjection HoldUnclear ReviewLlm 20000 (10 * 1024 * 1024).

Definition MailConfig_enabled (c : MailConfig) : bool := negb (bool_decide (map_keys (mailboxes c) = [])).

Definition mailbox_addresses (c : MailConfig) : list str :=
  set_of_list (map (fun kv => mb_address kv.2) (mailboxes c)).

Section mail_config.
Context `{UnicodeLower}.

Definition MailboxConfig_validate (b : MailboxConfig) (name : str) : result str MailboxConfig :=
  if negb (loose_address (mb_address b)) then
  Err (lit "mailbox address " ++ repr (mb_address b) ++ lit " is not an email address")
  else
  let address := to_lowercase (mb_address b) in
  match backend b with
  | Gmail =>
      if match google_account b with None => true | Some a => bool_decide (a = []) end then
        Err (lit "mailbox " ++ address ++ lit ": backend gmail needs google_account")
      else Ok tt
  | Imap =>
      if bool_decide (imap_host b = []) || bool_decide (smtp_host b = [])
         || bool_decide (password_file b = []) then
        Err (lit "mailbox " ++ address
             ++ lit ": backend imap needs imap_host, smtp_host and password_file")
      else if negb (is_host (imap_host b)) || negb (is_host (smtp_host b)) then
        Err (lit "mailbox " ++ name ++ lit ": imap_host and smtp_host are host names")
      else Ok tt
  end;;
  if bool_decide (folders b = []) || existsb folder_bad (folders b) then
    Err (lit "mailbox " ++ name
         ++ lit ": folders are 1 to 255 characters, without control characters")
  else if match username b with Some u => username_bad u | None => false end then
    Err (lit "mailbox " ++ name ++ lit ": username")
  else Ok (mkMailbox address (backend b) (google_account b) (imap_host b) (imap_port b)
             (smtp_host b) (smtp_port b) (username b) (password_file b) (folders b) (direct b)
             (authserv_id b) (sent_folders b)).

Definition authserv (b : MailboxConfig) : option str :=
  match authserv_id b with
  | Some a =>
    if nonempty (trim a) then Some (to_lowercase (trim a))
    else if bool_decide (backend b = Gmail) then Some (lit "mx.google.com") else None
  | None => if bool_decide (backend b = Gmail) then Some (lit "mx.google.com") else None
  end.

Definition login (b : MailboxConfig) : str := default (mb_address b) (username b).

Definition restrictions_for (c : MailConfig) (address : str) : list MailRestriction :=
  let address := to_lowercase address in
  List.filter (fun r => fnmatch address (mr_address r)) (restrictions c).

Definition mailbox_for (c : MailConfig) (address : str) : option (str * MailboxConfig) :=
  let address := to_lowercase address in
  find (fun kv : str * MailboxConfig => str_eqb (mb_address kv.2) address) (mailboxes c).

Definition validate_box (kv : str * MailboxConfig) : result str (str * MailboxConfig) :=
  let '(name, b) := kv in
  if negb (config_name_ok name) then
  Err (lit "mailbox name " ++ repr name ++ lit ": lowercase letters, digits, - and _")
  else (fun b => (name, b)) <$> MailboxConfig_validate b name.

Definition validate_simplelogin (boxes : list (str * MailboxConfig)) (sl : SimpleLoginConfig)
  : result str SimpleLoginConfig :=
  if is_none (map_get (sl_mailbox sl) boxes) then
  Err (lit "platforms.mail.simplelogin.mailbox " ++ repr (sl_mailbox sl)
       ++ lit " is not under platforms.mail.mailboxes")
  else if negb (api_url_ok (api_url sl)) then
  Err (lit "platforms.mail.simplelogin.api_url: an https URL (plain http only to a loopback host)")
  else
  let sl := mkSimpleLogin (api_url sl) (api_key_file sl) (sl_mailbox sl)
    (map to_lowercase (aliases sl)) (map to_lowercase (create_domains sl))
    (map to_lowercase (dkim_domains sl)) in
  match find (fun d => negb (is_address (lit "x@" ++ d))) (create_domains sl) with
  | Some bad => Err (lit "platforms.mail.simplelogin.create_domains: " ++ repr bad
                     ++ lit " is not a domain")
  | None => Ok sl
  end.

Fixpoint validate_restrictions (i : N) (rs : list MailRestriction)
  : result str (list MailRestriction) :=
  match rs with
  | [] => Ok []
  | r :: rs' =>
    let r := mkRestriction (to_lowercase (mr_address r)) (mr_topic r)
      (map to_lowercase (mr_correspondents r)) (mr_capabilities r) in
    if match mr_topic r with Some t => Nat.ltb MAX_TOPIC (length t) | None => false end then
      Err (lit "platforms.mail.restrictions[" ++ show_N i
           ++ lit "].topic: at most 1000 characters")
    else rs ← validate_restrictions (i + 1) rs'; Ok (r :: rs)
  end.

Definition MailConfig_validate (c : MailConfig) : result str MailConfig :=
  boxes ← collect validate_box (mailboxes c);
  sl ← match simplelogin c with
  | None => Ok None
  | Some sl => Some <$> validate_simplelogin boxes sl
  end;
  rs ← validate_restrictions 0 (restrictions c);
  if N.eqb (max_body_chars c) 0 then Err (lit "platforms.mail.max_body_chars: at least 1")
  else Ok (mkMailConfig boxes sl rs (judge_model c) (injection c) (unclear c) (send_review c)
           (max_body_chars c) (max_attachment_bytes c)).

Definition mem_action (a : MailAction) (l : list MailAction) : bool :=
  existsb (fun b => bool_decide (b = a)) l.

Definition refusing_restriction (c : MailConfig) (address : str) (action : MailAction)
  : option MailRestriction :=
  find (fun r => match mr_capabilities r with
               | Some caps => negb (mem_action action caps) | None => false end)
  (restrictions_for c address).

Definition Ops_NONE : Ops := mkOps false false.

Definition allowed_ops `{DateLib} (config : MailConfig) (address : str)
  (authority : MailAuthority) : Ops :=
  fold_left (fun o r =>
  match mr_capabilities r with
  | Some caps =>
      let allowed := fold_left (fun acc a => Ops_union acc (ops a)) caps Ops_NONE in
      Ops_intersect o allowed
  | None => o
  end) (restrictions_for config address) (ops (m_action authority)).
End mail_config.

(** A gmail mailbox's account must exist. *)
Definition cross_check (mail : MailConfig) (google : GoogleConfig) : result str unit :=
  match find (fun kv : str * MailboxConfig =>
      bool_decide (backend kv.2 = Gmail)
      && negb (match google_account kv.2 with
               | Some a => negb (is_none (map_get a (accounts google))) | None => false end))
    (mailboxes mail) with
  | Some (name, b) =>
      Err (lit "platforms.mail.mailboxes." ++ name ++ lit ".google_account "
           ++ repr (default [] (google_account b)) ++ lit " is not under platforms.google.accounts")
  | None => Ok tt
  end.

(** ** Everything else *)

Record PlatformsConfig `{RegexLib} := mkPlatforms {
  p_github : GithubConfig;
  p_homelab : HomelabConfig;
  p_kubernetes : KubernetesConfig;
  p_agents : AgentsConfig;
  p_hostexec : HostexecConfig;
  p_mcp : McpConfig;
  p_models : ModelsConfig;
  p_google : GoogleConfig;
  p_pools : list (str * PoolConfig);
  p_mail : MailConfig;
}.
Definition PlatformsConfig_default `{UnicodeLower, RegexLib} : PlatformsConfig :=
  mkPlatforms _ GithubConfig_default HomelabConfig_default KubernetesConfig_default
    AgentsConfig_default HostexecConfig_default McpConfig_default ModelsConfig_default
    (mkGoogle []) [] MailConfig_default.

Record DesktopConfig := mkDesktop {
  desktop_enabled : bool;
  desktop_agents : list AgentPattern;
  desktop_platforms : list Platform;
  desktop_sensitive : bool;
  desktop_timeout : Z;
  per_agent_per_hour : N;
  per_hour : N;
  deny_cooldown : Z;
  mute : Z;
}.
Record WikiConfig := mkWiki {
  wiki_repo : str; branch : str; editors : list AgentPattern; max_page_bytes : N; refresh_secs : N
}.
Definition WikiConfig_default : WikiConfig := mkWiki [] (lit "main") [] (64 * 1024) 30.

Record UiConfig := mkUi {
  ui_enabled : bool; base_url : str; ui_issuer : str; client_id : str; admin_group : str;
  session_ttl : Z
}.
Record NotifyConfig := mkNotify { auto_approvals : bool; skip_platforms : list Platform }.
Record ContainmentConfig := mkContainment { containment_agents : list AgentPattern; allow_all : bool }.
Record RestrictedZone := mkZone {
  members : list AgentPattern; z_kubernetes : list Glob; z_github : list Glob; wiki : bool
}.
Record AuditConfig := mkAudit { readers : list AgentPattern }.
Record EvalsConfig := mkEvals {
  record : bool; retention : Z; replay_concurrency : N; max_replay : N
}.
Record RemoteMcpConfig := mkRemoteMcp {
  rm_enabled : bool; rm_base_url : str; redirect_uris : list str; rm_tools : list str;
  access_ttl : Z; refresh_ttl : Z; max_clients : N
}.

Definition EvalsConfig_validate (c : EvalsConfig) : result str unit :=
  if negb (N.leb 1 (replay_concurrency c) && N.leb (replay_concurrency c) 16) then
    Err (lit "evals.replay_concurrency: 1 to 16")
  else if negb (N.leb 1 (max_replay c) && N.leb (max_replay c) 2000) then
    Err (lit "evals.max_replay: 1 to 2000")
  else Ok tt.

Definition repo_part (s : str) : bool :=
  nonempty s && forallb (fun c => is_ascii_alphanumeric c
    || (N.eqb c (ch ".") || N.eqb c (ch "_") || N.eqb c (ch "-"))) s.

Definition WikiConfig_validate (c : WikiConfig) : result str unit :=
  let ok := bool_decide (wiki_repo c = [])
    || match split_once (ch "/") (wiki_repo c) with
       | Some (owner, name) => repo_part owner && repo_part name
       | None => false
       end in
  if ok then Ok tt else Err (lit "wiki.repo " ++ repr (wiki_repo c) ++ lit ": owner/name").

Definition UiConfig_validate (c : UiConfig) : result str unit :=
  if ui_enabled c then
    match find (fun nv : str * str => negb (starts_with (lit "https://") nv.2))
            [(lit "base_url", base_url c); (lit "issuer", ui_issuer c)] with
    | Some (name, _) =>
        Err (lit "ui." ++ name ++ lit ": an https URL is required when the panel is enabled")
    | None => Ok tt
    end
  else Ok tt.

Definition RestrictedZone_normalize `{UnicodeLower} (z : RestrictedZone) : RestrictedZone :=
  mkZone (members z) (map lower_glob (z_kubernetes z)) (map lower_glob (z_github z)) (wiki z).

Definition RestrictedZone_validate (z : RestrictedZone) : result str unit :=
  if bool_decide (length (members z) = 0) then Err (lit "members: at least one agent pattern")
  else Ok tt.

Definition redirect_uri_ok (uri : str) : bool :=
  Nat.leb (str_len uri) 512
  && match strip_prefix (lit "https://") uri with
     | Some rest => nonempty rest && negb (starts_with (lit "/") rest)
     | None => false
     end
  && negb (existsb (fun c => N.eqb c (ch "#") || N.eqb c (ch "@") || N.eqb c (ch "\")) uri)
  && negb (existsb (fun c => is_whitespace c || is_control c) uri).

Definition MCP_TOOL_NAMES : list str :=
  map lit ["whoami"; "list_capabilities"; "request_access"; "wait_for_decision"; "check_status";
    "retry_request"; "escalate_request"; "list_grants"; "get_credential"; "release_grant";
    "mail_list"; "mail_read"; "mail_attachment"; "mail_send"; "create_session"; "close_session";
    "check_a2a"; "a2a_open"; "a2a_send"; "a2a_poll"; "a2a_threads"; "a2a_accept"; "a2a_reject";
    "a2a_close"; "a2a_events"; "wiki_search"; "wiki_read"; "wiki_list"; "wiki_write";
    "wiki_delete"; "notify_operator"; "host_run"; "host_job"; "host_shell_exec";
    "host_shell_close"; "host_shell_scope"]%string.

Definition REMOTE_MCP_TOOLS : list str :=
  map lit ["whoami"; "list_capabilities"; "list_grants"; "request_access"; "wait_for_decision";
    "check_status"; "retry_request"; "escalate_request"; "create_session"; "close_session";
    "check_a2a"; "a2a_open"; "a2a_send"; "a2a_poll"; "a2a_threads"; "a2a_accept"; "a2a_reject";
    "a2a_close"; "wiki_search"; "wiki_read"; "wiki_list"; "notify_operator";
    "release_grant"]%string.

Definition REMOTE_MCP_REDIRECT_URIS : list str :=
  map lit ["https://claude.ai/api/mcp/auth_callback"; "https://claude.com/api/mcp/auth_callback";
    "https://chatgpt.com/connector_platform_oauth_redirect"]%string.

Section defaults.
Context `{UnicodeLower}.

Definition DesktopConfig_default : DesktopConfig :=
  mkDesktop false [] [] false (secs (lit "90s")) 6 20 (secs (lit "10m")) (secs (lit "1h")).
Definition UiConfig_default : UiConfig :=
  mkUi false [] [] (lit "agent-auth-admin") (lit "agent-auth-admins") (secs (lit "8h")).
Definition EvalsConfig_default : EvalsConfig := mkEvals true (secs (lit "90d")) 4 500.
Definition RemoteMcpConfig_default : RemoteMcpConfig :=
  mkRemoteMcp false [] REMOTE_MCP_REDIRECT_URIS REMOTE_MCP_TOOLS (secs (lit "1h"))
  (secs (lit "30d")) 50.
End defaults.

(** ** Lemmas *)

(** The language [[^@\s]+@[^@\s]+\.[^@\s]+], whole string. *)
Definition address_char (c : char) : Prop := c <> ch "@" /\ is_whitespace c = false.
Definition address_language (s : str) : Prop :=
  exists l a b, s = l ++ ch "@" :: a ++ ch "." :: b /\
    l <> [] /\ a <> [] /\ b <> [] /\
    Forall address_char l /\ Forall address_char a /\ Forall address_char b.

Lemma nonempty_true s : nonempty s = true <-> s <> [].
Proof. unfold nonempty. by rewrite negb_true_iff, bool_decide_eq_false. Qed.

Lemma address_chars p :
  negb (elem_b (ch "@") p) && negb (existsb is_whitespace p) = true <-> Forall address_char p.
Proof.
  rewrite andb_true_iff, !negb_true_iff, <- !not_true_iff_false, elem_b_true, existsb_elem,
    Forall_forall. unfold address_char. split.
  - intros [H1 H2] c Hc. split; [by intros ->|].
    apply not_true_iff_false. intros Hw. apply H2. by exists c.
  - intros Hall. split; [by intros [? _]%Hall|]. intros (c & Hc & Hw).
    apply Hall in Hc as [_ Hc]. congruence.
Qed.

Lemma address_part p :
  nonempty p && negb (elem_b (ch "@") p) && negb (existsb is_whitespace p) = true <->
  p <> [] /\ Forall address_char p.
Proof. by rewrite <- andb_assoc, andb_true_iff, nonempty_true, address_chars. Qed.

Lemma inner_dot d :
  existsb (fun i => bool_decide (d !! i = Some (ch ".")) && Nat.ltb 0 i
    && Nat.ltb (i + 1) (length d)) (seq 0 (length d)) = true <->
  exists a b, d = a ++ ch "." :: b /\ a <> [] /\ b <> [].
Proof.
  rewrite existsb_elem. split.
  - intros (i & _ & Hi). rewrite !andb_true_iff, bool_decide_eq_true, !Nat.ltb_lt in Hi.
    destruct Hi as [[Hd H0] H1].
    exists (take i d), (drop (S i) d). split_and!; [by rewrite take_drop_middle| |].
    + intros E. apply (f_equal length) in E. rewrite length_take in E. cbn in E. lia.
    + intros E. apply (f_equal length) in E. rewrite length_drop in E. cbn in E. lia.
  - intros (a & b & -> & Ha & Hb). exists (length a). rewrite length_app. cbn [length].
    split; [apply elem_of_seq; lia|].
    rewrite (list_lookup_middle a b _ (length a)), bool_decide_true by done. cbn [andb].
    destruct a; [done|]. destruct b; [done|]. apply andb_true_iff. rewrite !Nat.ltb_lt. cbn. lia.
Qed.

Lemma loose_address_iff s : loose_address s = true <-> address_language s.
Proof.
  unfold loose_address, address_language. split.
  - destruct (split_once (ch "@") s) as [[l d]|] eqn:E; [|done].
    apply split_once_some in E as [-> _]. rewrite !andb_true_iff.
    intros [[Hl Hd] Hdot]. rewrite <- andb_true_iff, <- andb_true_iff, address_part in Hl, Hd.
    apply inner_dot in Hdot as (a & b & -> & Ha & Hb). exists l, a, b.
    destruct Hl as [? ?], Hd as [_ Hd]. apply Forall_app in Hd as [? Hd].
    inversion Hd; subst. by split_and!.
  - intros (l & a & b & -> & Hl & Ha & Hb & Hlc & Hac & Hbc).
    rewrite split_once_app; cycle 1.
    { intros Hin. rewrite Forall_forall in Hlc. by destruct (Hlc _ Hin). }
    rewrite (proj2 (address_part l)) by done.
    rewrite (proj2 (address_part (a ++ ch "." :: b))); cycle 1.
    { split; [by destruct a|]. apply Forall_app. split; [done|]. by constructor. }
    cbn [andb]. apply inner_dot. by exists a, b.
Qed.

Lemma email_address_loose s : email_address_ok s = true -> address_language s.
Proof.
  unfold email_address_ok. destruct (split_once (ch "@") s) as [[l d]|] eqn:E; [|done].
  apply split_once_some in E as [-> _]. intros H.
  assert (Hpl : forall p, nonempty p && negb (existsb (fun c => N.eqb c (ch "@") || is_whitespace c) p)
    = true -> p <> [] /\ Forall address_char p).
  { intros p [Hp%nonempty_true Hc]%andb_true_iff. split; [done|]. apply Forall_forall.
    intros c Hin. apply negb_true_iff, not_true_iff_false in Hc. split.
    - intros ->. apply Hc, existsb_elem. by eexists.
    - apply not_true_iff_false. intros Hw. apply Hc, existsb_elem. exists c.
      split; [done|]. rewrite Hw. apply orb_true_r. }
  rewrite !andb_true_iff in H. destruct H as [[Hl Hd] Hdot].
  rewrite <- andb_true_iff in Hl, Hd. apply Hpl in Hl as [? ?], Hd as [_ Hd].
  destruct (rsplit_once (ch ".") d) as [[a b]|] eqn:E; [|done].
  apply andb_true_iff in Hdot as [Ha%nonempty_true Hb%nonempty_true].
  unfold rsplit_once in E. destruct (split_once (ch ".") (rev d)) as [[x y]|] eqn:Er; [|done].
  injection E as <- <-. apply split_once_some in Er as [Er _].
  apply (f_equal (@rev char)) in Er. rewrite rev_involutive, rev_app_distr in Er. cbn in Er.
  rewrite <- app_assoc in Er. cbn in Er. subst d.
  apply Forall_app in Hd as [? Hd]. inversion Hd; subst.
  exists l, (rev y), (rev x). by split_and!.
Qed.

(** *** Audiences *)

Lemma check_audiences_ok seen servers :
  map_sorted seen -> check_audiences seen servers = Ok tt ->
  NoDup (map (fun kv => server_audience kv.2) servers) /\
  Forall (fun kv => map_get (server_audience kv.2) seen = None) servers.
Proof.
  revert seen; induction servers as [|[n s] servers IH]; intros seen Hs; cbn [check_audiences].
  - intros _. split; constructor.
  - destruct (map_get (server_audience s) seen) eqn:E; [done|]. intros Hc.
    apply IH in Hc as [Hnd Hall]; [|by apply map_insert_sorted].
    assert (Hall' : Forall (fun kv : str * McpServer => server_audience kv.2 <> server_audience s /\
      map_get (server_audience kv.2) seen = None) servers).
    { eapply Forall_impl; [exact Hall|]. intros [m x] Hx. cbn [snd] in *.
      rewrite map_get_insert in Hx by done.
      destruct (str_eqb (server_audience x) (server_audience s)) eqn:Ex; [done|].
      apply bool_decide_eq_false in Ex. done. }
    split; cbn [map snd].
    + constructor; [|done]. intros (kv & Hkv & Hin)%list_elem_of_fmap.
      rewrite Forall_forall in Hall'. destruct (Hall' _ Hin) as [Hne _]. congruence.
    + constructor; [done|]. eapply Forall_impl; [exact Hall'|]. by intros ? [_ ?].
Qed.

(** *** Restrictions only take away *)

Lemma Ops_subset_refl o : Ops_is_subset o o = true.
Proof. by apply Ops_is_subset_true. Qed.
Lemma Ops_subset_trans a b c :
  Ops_is_subset a b = true -> Ops_is_subset b c = true -> Ops_is_subset a c = true.
Proof. rewrite !Ops_is_subset_true. naive_solver. Qed.
Lemma Ops_intersect_l a b : Ops_is_subset (Ops_intersect a b) a = true.
Proof. apply Ops_is_subset_true. destruct a as [[] []], b as [[] []]; cbn; done. Qed.
Lemma Ops_intersect_r a b : Ops_is_subset (Ops_intersect a b) b = true.
Proof. apply Ops_is_subset_true. destruct a as [[] []], b as [[] []]; cbn; done. Qed.

(** What a list of actions allows between them. *)
Definition caps_ops (caps : list MailAction) : Ops :=
  fold_left (fun acc a => Ops_union acc (ops a)) caps Ops_NONE.

Definition restrict (o : Ops) (r : MailRestriction) : Ops :=
  match mr_capabilities r with
  | Some caps => Ops_intersect o (caps_ops caps)
  | None => o
  end.

Lemma restrict_fold_le rs o : Ops_is_subset (fold_left restrict rs o) o = true.
Proof.
  revert o; induction rs as [|r rs IH]; intros o; [apply Ops_subset_refl|].
  cbn [fold_left]. eapply Ops_subset_trans; [apply IH|].
  unfold restrict. destruct (mr_capabilities r); [apply Ops_intersect_l|apply Ops_subset_refl].
Qed.

Lemma restrict_fold_caps rs o r caps :
  r ∈ rs -> mr_capabilities r = Some caps ->
  Ops_is_subset (fold_left restrict rs o) (caps_ops caps) = true.
Proof.
  revert o; induction rs as [|r' rs IH]; intros o Hin Hc; [by apply not_elem_of_nil in Hin|].
  cbn [fold_left]. apply elem_of_cons in Hin as [<-|Hin]; [|by apply IH].
  eapply Ops_subset_trans; [apply restrict_fold_le|]. unfold restrict. rewrite Hc.
  apply Ops_intersect_r.
Qed.

Lemma allowed_ops_restrict `{UnicodeLower, DateLib} config address authority :
  allowed_ops config address authority =
    fold_left restrict (restrictions_for config address) (ops (m_action authority)).
Proof. done. Qed.

Lemma caps_ops_in caps :
  (op_read (caps_ops caps) = true -> exists a, a ∈ caps /\ reads a = true) /\
  (op_send (caps_ops caps) = true -> exists a, a ∈ caps /\ sends a = true).
Proof.
  unfold caps_ops.
  enough (H : forall acc,
    (op_read (fold_left (fun acc a => Ops_union acc (ops a)) caps acc) = true ->
      op_read acc = true \/ exists a, a ∈ caps /\ reads a = true) /\
    (op_send (fold_left (fun acc a => Ops_union acc (ops a)) caps acc) = true ->
      op_send acc = true \/ exists a, a ∈ caps /\ sends a = true)).
  { destruct (H Ops_NONE) as [H1 H2]. split; intros Hr; [apply H1 in Hr as [?|?]|apply H2 in Hr as [?|?]]; done. }
  induction caps as [|a caps IH]; intros acc; cbn [fold_left]; [by split; left|].
  destruct (IH (Ops_union acc (ops a))) as [H1 H2]. split.
  - intros [[Ho|Ho]%orb_true_iff|(x & ? & ?)]%H1; [by left|right|right].
    + exists a. by split; [left|].
    + exists x. by split; [right|].
  - intros [[Ho|Ho]%orb_true_iff|(x & ? & ?)]%H2; [by left|right|right].
    + exists a. by split; [left|].
    + exists x. by split; [right|].
Qed.

(** ** Properties *)

(** What an agent may do with mail on an address is never more than its
    grant's action, and under every restriction on the address that lists
    capabilities, reading needs one that reads and sending one that sends. *)
Theorem restrictions_only_narrow `{UnicodeLower, DateLib} config address authority :
  let allowed := allowed_ops config address authority in
  Ops_is_subset allowed (ops (m_action authority)) = true /\
  (forall r caps, r ∈ restrictions_for config address -> mr_capabilities r = Some caps ->
    (op_read allowed = true -> exists a, a ∈ caps /\ reads a = true) /\
    (op_send allowed = true -> exists a, a ∈ caps /\ sends a = true)).
Proof.
  cbv zeta. rewrite allowed_ops_restrict. split; [apply restrict_fold_le|].
  intros r caps Hin Hc.
  pose proof (restrict_fold_caps _ (ops (m_action authority)) r caps Hin Hc) as Hs.
  apply Ops_is_subset_true in Hs as [H1 H2]. destruct (caps_ops_in caps) as [H3 H4]. auto.
Qed.

(** The MCP servers of a configuration that validates have distinct
    audiences, so no server accepts a token made for another. *)
Theorem mcp_audiences_distinct c :
  McpConfig_validate c = Ok tt -> NoDup (map (fun kv => server_audience kv.2) (servers c)).
Proof.
  unfold McpConfig_validate. destruct (_ && _); [done|]. intros Hc.
  by apply check_audiences_ok in Hc as [? _].
Qed.

Lemma mcp_audiences_distinct_witness :
  NoDup [lit "https://a.example"; lit "b"].
Proof.
  apply (mcp_audiences_distinct (mkMcpConfig (lit "https://broker") 3600
    [(lit "a", mkMcpServer (lit "https://a.example") [] [] None);
     (lit "b", mkMcpServer (lit "https://b.example") [] [] (Some (lit "b")))])).
  vm_compute. reflexivity.
Defined.

(** The policy's address checks accept no text outside the pattern both
    document ([[^@\s]+@[^@\s]+\.[^@\s]+]): a mailbox's address is checked for
    exactly it, a Google account's for less (a domain that ends in a dot is
    refused although the pattern allows it). *)
Theorem address_checks s :
  (loose_address s = true <-> address_language s) /\
  (email_address_ok s = true -> address_language s) /\
  address_language (lit "x@a.b.") /\ email_address_ok (lit "x@a.b.") = false.
Proof.
  split_and!; [apply loose_address_iff|apply email_address_loose| |by vm_compute].
  apply loose_address_iff. by vm_compute.
Qed.
