(* ===== verification/Policy.v ===== *)
(** Loading the policy file ([crates/core/src/policy/mod.rs]): the merge of
    the overlays, the sections, and the checks across sections. The YAML
    reader and the serde-derived section parsers are parameters. *)

From S2P Require Import Prelude Json Glob Pyfmt Lifecycle Names Durations Pool Mail Authority Routing Agents Hostexec Schema.
From stdpp Require Import options.

Definition MAX_POLICY_BYTES : N := 1024 * 1024.

(** [serde_saphyr::from_str_with_options] with the options of [parse_yaml]. *)
Class YamlLib := { saphyr_from_str : str -> result str Value }.

(** The [Deserialize] implementations serde derives for the sections. *)
Class SectionSerde `{RegexLib} := {
  de_defaults : Value -> result str Defaults;
  de_llm : Value -> result str LlmConfig;
  de_desktop : Value -> result str DesktopConfig;
  de_wiki : Value -> result str WikiConfig;
  de_ui : Value -> result str UiConfig;
  de_notify : Value -> result str NotifyConfig;
  de_containment : Value -> result str ContainmentConfig;
  de_zone : Value -> result str RestrictedZone;
  de_audit : Value -> result str AuditConfig;
  de_evals : Value -> result str EvalsConfig;
  de_remote_mcp : Value -> result str RemoteMcpConfig;
  de_project : Value -> result str Project;
  de_rule : Value -> result str PolicyRule;
  de_github : Value -> result str GithubConfig;
  de_homelab : Value -> result str HomelabConfig;
  de_kubernetes : Value -> result str KubernetesConfig;
  de_agents : Value -> result str AgentsConfig;
  de_hostexec : Value -> result str HostexecConfig;
  de_mcp : Value -> result str McpConfig;
  de_models : Value -> result str ModelsConfig;
  de_google : Value -> result str GoogleConfig;
  de_pool : Value -> result str PoolConfig;
  de_mail : Value -> result str MailConfig;
}.

Record Policy `{RegexLib} := mkPolicy {
  pol_defaults : Defaults;
  pol_llm : LlmConfig;
  pol_platforms : PlatformsConfig;
  pol_desktop : DesktopConfig;
  pol_wiki : WikiConfig;
  pol_ui : UiConfig;
  pol_notify : NotifyConfig;
  pol_containment : ContainmentConfig;
  pol_restricted : list (str * RestrictedZone);
  pol_audit : AuditConfig;
  pol_evals : EvalsConfig;
  pol_remote_mcp : RemoteMcpConfig;
  pol_projects : list (str * Project);
  pol_rules : list PolicyRule;
}.

Definition Policy_default `{UnicodeLower, RegexLib} : Policy :=
  mkPolicy _ Defaults_default LlmConfig_default PlatformsConfig_default DesktopConfig_default
    WikiConfig_default UiConfig_default (mkNotify false []) (mkContainment [] false) [] (mkAudit [])
    EvalsConfig_default RemoteMcpConfig_default [] [].

Definition SECTIONS : list str :=
  map lit ["defaults"; "llm"; "platforms"; "desktop"; "wiki"; "ui"; "notify"; "containment";
    "restricted"; "audit"; "evals"; "remote_mcp"; "projects"; "rules"]%string.

Definition PLATFORM_SECTIONS : list str :=
  map lit ["github"; "homelab"; "kubernetes"; "agents"; "hostexec"; "mcp"; "models"; "google";
    "pools"; "mail"]%string.

Definition parse_yaml `{YamlLib} (text : str) : result str Value :=
  if N.ltb MAX_POLICY_BYTES (N.of_nat (str_len text)) then
    Err (lit "the policy is larger than " ++ show_N MAX_POLICY_BYTES ++ lit " bytes")
  else if bool_decide (trim text = []) then Ok (VObject [])
  else
    value ← map_err (fun e => lit "not valid YAML: " ++ e) (saphyr_from_str text);
    Ok (match value with VNull => VObject [] | _ => value end).

Fixpoint overlay (base extra : Value) {struct extra} : Value :=
  match base, extra with
  | VObject base, VObject extra =>
      VObject
        ((fix merge (base extra : list (str * Value)) : list (str * Value) :=
            match extra with
            | [] => base
            | (key, value) :: extra' =>
                let merged := match map_get key base with
                              | Some old => overlay old value
                              | None => value
                              end in
                merge (map_insert key merged base) extra'
            end) base extra)
  | VArray base, VArray extra => VArray (extra ++ base)
  | _, extra => extra
  end.

(** [parse_section]: the section's parser, its error prefixed. *)
Definition parse_section {T} (de : Value -> result str T) (where_ : str) (value : Value)
    : result str T :=
  map_err (fun e => where_ ++ lit ": " ++ e) (de value).

Definition take_object (where_ : str) (value : Value) : result str (list (str * Value)) :=
  match value with
  | VObject map => Ok map
  | _ => Err (where_ ++ lit ": a mapping")
  end.

Definition refuse_unknown (where_ : str) (m : list (str * Value)) (known : list str)
    : result str unit :=
  match find (fun k => negb (set_contains k known)) (map_keys m) with
  | None => Ok tt
  | Some key =>
      Err (where_ ++ lit "unknown field `" ++ key ++ lit "`, expected one of "
           ++ join (lit ", ") (map (fun k => lit "`" ++ k ++ lit "`") known))
  end.

(** [if let Some(v) = map.remove(key) { ... }] over a default. *)
Definition section {T} (m : list (str * Value)) (key : str) (dflt : T)
    (parse : Value -> result str T) : result str T :=
  match map_get key m with
  | Some v => parse v
  | None => Ok dflt
  end.

(** [out.insert(name, ...)] for each entry of a mapping. *)
Fixpoint insert_each {T} (parse : str -> Value -> result str T) (out : list (str * T))
    (entries : list (str * Value)) : result str (list (str * T)) :=
  match entries with
  | [] => Ok out
  | (name, v) :: entries' =>
      x ← parse name v;
      insert_each parse (map_insert name x out) entries'
  end.

Section load.
Context `{UnicodeLower, RegexLib, !SectionSerde, YamlLib}.

Definition parse_pool (name : str) (v : Value) : result str PoolConfig :=
  pool ← parse_section de_pool (lit "platforms.pools." ++ name) v;
  map_err (fun e => lit "platforms.pools: " ++ e) (PoolConfig_validate pool name);;
  Ok pool.

Definition parse_platforms (value : Value) : result str PlatformsConfig :=
  m ← take_object (lit "platforms") value;
  refuse_unknown (lit "platforms: ") m PLATFORM_SECTIONS;;
  github ← section m (lit "github") GithubConfig_default (fun v =>
  c ← parse_section de_github (lit "platforms.github") v;
  Ok (GithubConfig_normalize c));
  homelab ← section m (lit "homelab") HomelabConfig_default (fun v =>
  c ← parse_section de_homelab (lit "platforms.homelab") v;
  map_err (fun e => lit "platforms.homelab." ++ e) (HomelabConfig_validate c);;
  Ok c);
  kubernetes ← section m (lit "kubernetes") KubernetesConfig_default (fun v =>
  c ← parse_section de_kubernetes (lit "platforms.kubernetes") v;
  map_err (fun e => lit "platforms.kubernetes." ++ e) (KubernetesConfig_normalize c));
  agents ← section m (lit "agents") AgentsConfig_default
  (parse_section de_agents (lit "platforms.agents"));
  hostexec ← section m (lit "hostexec") HostexecConfig_default
  (parse_section de_hostexec (lit "platforms.hostexec"));
  mcp ← section m (lit "mcp") McpConfig_default (fun v =>
  c ← parse_section de_mcp (lit "platforms.mcp") v;
  McpConfig_validate c;;
  Ok c);
  models ← section m (lit "models") ModelsConfig_default (fun v =>
  c ← parse_section de_models (lit "platforms.models") v;
  ModelsConfig_validate c;;
  Ok c);
  google ← section m (lit "google") (mkGoogle []) (fun v =>
  c ← parse_section de_google (lit "platforms.google") v;
  map_err (fun e => lit "platforms.google: " ++ e) (GoogleConfig_normalize c));
  pools ← section m (lit "pools") [] (fun v =>
  entries ← take_object (lit "platforms.pools") v;
  insert_each parse_pool [] entries);
  mail ← section m (lit "mail") MailConfig_default (fun v =>
  c ← parse_section de_mail (lit "platforms.mail") v;
  MailConfig_validate c);
  cross_check mail google;;
  Ok (mkPlatforms _ github homelab kubernetes agents hostexec mcp models google pools mail).

Definition parse_zone (name : str) (v : Value) : result str RestrictedZone :=
  let where_ := lit "restricted." ++ name in
  zone ← parse_section de_zone where_ v;
  let zone := RestrictedZone_normalize zone in
  map_err (fun e => where_ ++ lit ": " ++ e) (RestrictedZone_validate zone);;
  Ok zone.

Definition parse_project (name : str) (v : Value) : result str Project :=
  map_err (fun e => lit "projects: " ++ e) (AttrValue_parse name);;
  parse_section de_project (lit "projects." ++ name) v.

Fixpoint parse_rules (i : N) (rules : list Value) : result str (list PolicyRule) :=
  match rules with
  | [] => Ok []
  | rule :: rules' =>
    r ← parse_section de_rule (lit "rules[" ++ show_N i ++ lit "]") rule;
    rs ← parse_rules (i + 1) rules';
    Ok (r :: rs)
  end.

Definition lower_project (p : Project) : Project :=
  mkProject (description p) (map to_lowercase (repos p)).

Definition lower_rule (r : PolicyRule) : PolicyRule :=
  let m := r_matches r in
  if bool_decide (mt_platform m = Some Github) then
  mkRule (mkRuleMatch (mt_agent m) (mt_platform m) (mt_capability m)
            (to_lowercase (mt_resource m)) (mt_delegator m))
    (r_action r) (r_constraints r) (r_reason r)
  else r.

Definition deny_wiki (wiki : str) (deny : list Glob) : list Glob :=
  if negb (bool_decide (wiki = []))
   && negb (existsb (fun g => str_eqb (glob_source g) wiki) deny)
  then deny ++ [Glob_new (escape wiki)] else deny.

Definition normalize_case (p : Policy) : Policy :=
  let w := pol_wiki p in
  let wiki := mkWiki (to_lowercase (wiki_repo w)) (branch w) (editors w) (max_page_bytes w)
              (refresh_secs w) in
  let pf := pol_platforms p in
  let gh := p_github pf in
  let github := mkGithub (repo_allowlist gh) (deny_wiki (wiki_repo wiki) (repo_denylist gh))
                (permission_ceiling gh) (sensitive_permissions gh) (create_owners gh) in
  mkPolicy _ (pol_defaults p) (pol_llm p)
  (mkPlatforms _ github (p_homelab pf) (p_kubernetes pf) (p_agents pf) (p_hostexec pf)
     (p_mcp pf) (p_models pf) (p_google pf) (p_pools pf) (p_mail pf))
  (pol_desktop p) wiki (pol_ui p) (pol_notify p) (pol_containment p) (pol_restricted p)
  (pol_audit p) (pol_evals p) (pol_remote_mcp p)
  (map_values lower_project (pol_projects p)) (map lower_rule (pol_rules p)).

(** *** [check_references] *)

Definition ORCHESTRATOR_RUNTIME : str := lit "orchestrator".

Definition indexed {A} (name : str) (l : list A) : list (str * A) :=
  imap (fun i p => (name ++ lit "[" ++ show_N (N.of_nat i) ++ lit "]", p)) l.

(** Every agent pattern of the policy, with where it stands. *)
Definition all_patterns (p : Policy) : list (str * AgentPattern) :=
  indexed (lit "rules") (map (fun r => mt_agent (r_matches r)) (pol_rules p))
  ++ omap (fun kv : str * PolicyRule =>
     (fun d => (kv.1 ++ lit " delegator", d)) <$> mt_delegator (r_matches kv.2))
     (indexed (lit "rules") (pol_rules p))
  ++ indexed (lit "desktop.agents") (desktop_agents (pol_desktop p))
  ++ indexed (lit "wiki.editors") (editors (pol_wiki p))
  ++ indexed (lit "containment.agents") (containment_agents (pol_containment p))
  ++ indexed (lit "audit.readers") (readers (pol_audit p))
  ++ flat_map (fun kv : str * PoolConfig =>
     let pre := lit "platforms.pools." ++ kv.1 in
     indexed (pre ++ lit ".agents") (pool_agents kv.2)
     ++ flat_map (fun ki : str * PoolItem =>
          indexed (pre ++ lit ".items." ++ ki.1 ++ lit ".agents") (item_agents ki.2))
          (items kv.2)) (p_pools (pol_platforms p))
  ++ flat_map (fun kv : str * RestrictedZone =>
     indexed (lit "restricted." ++ kv.1 ++ lit ".members") (members kv.2)) (pol_restricted p).

Definition runtime_bad (r : str) : bool :=
  bool_decide (r = []) || negb (forallb (fun c => is_ascii_lowercase c || is_ascii_digit c) r).

(** The first project a pattern names that is not declared. *)
Definition undeclared (projects : list (str * Project)) (patterns : list (str * AgentPattern))
  : option (str * str) :=
  find (fun wp : str * str => is_none (map_get wp.2 projects))
  (flat_map (fun wp : str * AgentPattern => map (pair wp.1) (pattern_projects wp.2)) patterns).

Definition check_remote_mcp (p : Policy) : result str unit :=
  let rm := pol_remote_mcp p in
  if negb (rm_enabled rm) then Ok tt
  else if bool_decide (ui_issuer (pol_ui p) = []) || bool_decide (client_id (pol_ui p) = [])
        || bool_decide (rm_base_url rm = []) then
  Err (lit "remote_mcp needs base_url, and ui.issuer and ui.client_id to sign in with")
  else
  let unknown := set_of_list
    (List.filter (fun t => negb (set_contains t MCP_TOOL_NAMES)) (rm_tools rm)) in
  if negb (bool_decide (unknown = [])) then
    Err (lit "remote_mcp.tools: no such tools: " ++ join (lit ", ") unknown)
  else match find (fun u => negb (redirect_uri_ok u)) (redirect_uris rm) with
  | Some bad => Err (lit "remote_mcp.redirect_uris: " ++ repr bad
                     ++ lit " is not an https URL without a fragment")
  | None => Ok tt
  end.

Fixpoint check_resources (i : N) (rules : list PolicyRule) : result str unit :=
  match rules with
  | [] => Ok tt
  | r :: rules' =>
    map_err (fun e => lit "rules[" ++ show_N i ++ lit "]: " ++ e)
      (check_resource (mt_resource (r_matches r)));;
    check_resources (i + 1) rules'
  end.

Definition check_references (p : Policy) : result str unit :=
  let runtimes := runtimes (p_agents (pol_platforms p)) in
  if set_contains ORCHESTRATOR_RUNTIME runtimes then
  Err (lit "platforms.agents.runtimes: 'orchestrator' is the agent VM's own runtime, not one to mint")
  else match find runtime_bad runtimes with
  | Some r => Err (lit "platforms.agents.runtimes: " ++ repr r
    ++ lit " must be lowercase letters and digits (no '-': <runtime>-<project>-<host>-sandbox must read one way)")
  | None =>
    match undeclared (pol_projects p) (all_patterns p) with
    | Some (where_, project) => Err (where_ ++ lit ": project " ++ repr project
        ++ lit " is not listed under `projects`")
    | None => check_remote_mcp p;; check_resources 0 (pol_rules p)
    end
  end.

Definition from_value (value : Value) : result str Policy :=
  m ← match value with
    | VNull => Ok []
    | VObject m => Ok m
    | _ => Err (lit "the policy is a mapping at the top level")
    end;
  refuse_unknown [] m SECTIONS;;
  defaults ← section m (lit "defaults") Defaults_default
  (parse_section de_defaults (lit "defaults"));
  llm ← section m (lit "llm") LlmConfig_default (parse_section de_llm (lit "llm"));
  platforms ← section m (lit "platforms") PlatformsConfig_default parse_platforms;
  desktop ← section m (lit "desktop") DesktopConfig_default
  (parse_section de_desktop (lit "desktop"));
  wiki ← section m (lit "wiki") WikiConfig_default (parse_section de_wiki (lit "wiki"));
  ui ← section m (lit "ui") UiConfig_default (parse_section de_ui (lit "ui"));
  notify ← section m (lit "notify") (pol_notify Policy_default)
  (parse_section de_notify (lit "notify"));
  containment ← section m (lit "containment") (mkContainment [] false)
  (parse_section de_containment (lit "containment"));
  restricted ← section m (lit "restricted") [] (fun v =>
  entries ← take_object (lit "restricted") v;
  insert_each parse_zone [] entries);
  audit ← section m (lit "audit") (mkAudit []) (parse_section de_audit (lit "audit"));
  evals ← section m (lit "evals") EvalsConfig_default (fun v =>
  c ← parse_section de_evals (lit "evals") v;
  EvalsConfig_validate c;;
  Ok c);
  remote_mcp ← section m (lit "remote_mcp") RemoteMcpConfig_default
  (parse_section de_remote_mcp (lit "remote_mcp"));
  projects ← section m (lit "projects") [] (fun v =>
  entries ← take_object (lit "projects") v;
  insert_each parse_project [] entries);
  rules ← section m (lit "rules") [] (fun v =>
  match v with
  | VArray rules => parse_rules 0 rules
  | _ => Err (lit "rules: a list")
  end);
  WikiConfig_validate wiki;;
  UiConfig_validate ui;;
  let policy := normalize_case (mkPolicy _ defaults llm platforms desktop wiki ui notify
  containment restricted audit evals remote_mcp projects rules) in
  check_references policy;;
  Ok policy.

Fixpoint merge_overlays (data : Value) (overlays : list (str * str)) : result str Value :=
  match overlays with
  | [] => Ok data
  | (label, text) :: overlays' =>
    extra ← map_err (fun e => label ++ lit ": " ++ e) (parse_yaml text);
    merge_overlays (overlay data extra) overlays'
  end.

Definition load (base : str) (overlays : list (str * str)) : result str Policy :=
  data ← parse_yaml base;
  data ← merge_overlays data overlays;
  from_value data.

Definition from_yaml (text : str) : result str Policy := load text [].
End load.

(** What [Authority::is_sensitive] reads of the configuration. *)
Definition sensitivity `{RegexLib} (p : Policy) : SensitivityConfig :=
  let pf := pol_platforms p in
  let k8s := p_kubernetes pf in
  mkSensitivity (set_of_list (sensitive_permissions (p_github pf)))
    (set_of_list (sensitive_roles k8s)) (sensitive_namespaces k8s) (cluster_grant_namespace k8s)
    (map_values (fun pool =>
       set_of_list (map fst (List.filter (fun kv : str * PoolItem => item_sensitive kv.2) (items pool))))
       (p_pools pf))
    (mailbox_addresses (p_mail pf)).

(** ** Lemmas *)

Lemma map_err_ok {E F A} (f : E -> F) (r : result E A) a : map_err f r = Ok a <-> r = Ok a.
Proof. destruct r; cbn; split; congruence. Qed.

Lemma find_none {A} (f : A -> bool) l x : find f l = None -> x ∈ l -> f x = false.
Proof. intros H Hin. eapply List.find_none; [exact H|]. by apply list_elem_of_In. Qed.

(** A section is the default, or what its parser made. *)
Lemma section_ok {T} m key (dflt : T) parse x :
  section m key dflt parse = Ok x -> x = dflt \/ exists v, parse v = Ok x.
Proof. unfold section. destruct (map_get key m); [eauto|]. intros [= ->]. by left. Qed.

Lemma insert_each_ok {T} parse out entries (m : list (str * T)) :
  insert_each parse out entries = Ok m ->
  forall k x, (k, x) ∈ m -> (k, x) ∈ out \/ exists v, parse k v = Ok x.
Proof.
  revert out; induction entries as [|[n v] es IH]; intros out; cbn.
  - intros [= ->]. by left.
  - intros (y & Hy & H)%bind_ok k x Hin. destruct (IH _ H k x Hin) as [H1|?]; [clear H|by right].
    assert (Hi : forall m, (k, x) ∈ map_insert n y m -> (k, x) = (n, y) \/ (k, x) ∈ m).
    { clear. intros m. induction m as [|[a w] m IH]; cbn; [set_solver|].
      destruct (str_compare n a); set_solver. }
    apply Hi in H1 as [[= -> ->]|?]; [|by left]. right. by exists v.
Qed.

(** *** Overlays *)

Definition merged (old : option Value) (v : Value) : Value :=
  match old with Some old => overlay old v | None => v end.

Lemma overlay_objects b e :
  overlay (VObject b) (VObject e) =
    VObject (fold_left (fun b kv => map_insert kv.1 (merged (map_get kv.1 b) kv.2) b) e b).
Proof.
  cbn [overlay]. f_equal. revert b. induction e as [|[k v] e IH]; intros b; [done|].
  cbn [fold_left]. rewrite <- IH. done.
Qed.

Lemma merge_fold_get e b k :
  map_sorted b -> map_sorted e ->
  map_get k (fold_left (fun b kv => map_insert kv.1 (merged (map_get kv.1 b) kv.2) b) e b) =
    match map_get k e with
    | Some v => Some (merged (map_get k b) v)
    | None => map_get k b
    end.
Proof.
  revert b; induction e as [|[n v] e IH]; intros b Hb; [done|]. intros [Hn He].
  cbn [fold_left fst snd]. rewrite IH by (done || by apply map_insert_sorted).
  rewrite map_get_insert by done. cbn [map_get].
  destruct (str_eqb k n) eqn:E; [|done]. apply str_eqb_true in E as ->.
  rewrite (map_get_above n n e Hn) by by right. done.
Qed.

Lemma merge_fold_sorted e b :
  map_sorted b ->
  map_sorted (fold_left (fun b kv => map_insert kv.1 (merged (map_get kv.1 b) kv.2) b) e b).
Proof.
  revert b; induction e as [|[n v] e IH]; intros b Hb; [done|].
  cbn [fold_left]. by apply IH, map_insert_sorted.
Qed.

(** *** The sections *)

Section load_lemmas.
Context `{UnicodeLower, RegexLib, !SectionSerde, YamlLib}.

Definition canonical_glob (g : Glob) : Prop := glob_tokens g = compile (glob_source g).

Lemma parse_platforms_deny v p :
  parse_platforms v = Ok p -> Forall canonical_glob (repo_denylist (p_github p)).
Proof.
  unfold parse_platforms. intros Hp.
  apply bind_ok in Hp as (m & _ & Hp). apply bind_ok in Hp as (_ & _ & Hp).
  apply bind_ok in Hp as (gh & Hgh & Hp).
  do 9 apply bind_ok in Hp as (? & _ & Hp). apply bind_ok in Hp as (_ & _ & Hp).
  injection Hp as <-. cbn [p_github].
  apply section_ok in Hgh as [->|[w Hw]]; [constructor|].
  apply bind_ok in Hw as (c & _ & Hw). injection Hw as <-. cbn [GithubConfig_normalize repo_denylist].
  apply Forall_map. by apply Forall_true.
Qed.

Lemma check_resources_ok i rules :
  check_resources i rules = Ok tt ->
  Forall (fun r => check_resource (mt_resource (r_matches r)) = Ok tt) rules.
Proof.
  revert i; induction rules as [|r rules IH]; intros i; cbn [check_resources]; [constructor|].
  intros ([] & Hr & Hrs)%bind_ok. apply map_err_ok in Hr. constructor; [done|]. by eapply IH.
Qed.

Lemma undeclared_none projects patterns w pat name :
  undeclared projects patterns = None -> (w, pat) ∈ patterns -> name ∈ pattern_projects pat ->
  is_none (map_get name projects) = false.
Proof.
  unfold undeclared. intros Hf Hin Hn. apply (find_none _ _ (w, name) Hf).
  apply list_elem_of_In, in_flat_map. exists (w, pat). split; [by apply list_elem_of_In|].
  apply list_elem_of_In, list_elem_of_fmap. by exists name.
Qed.

Lemma indexed_elem {A} name (l : list A) x : x ∈ l -> exists w, (w, x) ∈ indexed name l.
Proof.
  intros [i Hi]%list_elem_of_lookup_1. eexists. apply list_elem_of_lookup. exists i.
  unfold indexed. rewrite list_lookup_imap, Hi. reflexivity.
Qed.

(** Every place of the policy a pattern can stand is checked. *)
Inductive pattern_of (p : Policy) : AgentPattern -> Prop :=
| of_rule r : r ∈ pol_rules p -> pattern_of p (mt_agent (r_matches r))
| of_delegator r d : r ∈ pol_rules p -> mt_delegator (r_matches r) = Some d -> pattern_of p d
| of_desktop d : d ∈ desktop_agents (pol_desktop p) -> pattern_of p d
| of_wiki d : d ∈ editors (pol_wiki p) -> pattern_of p d
| of_containment d : d ∈ containment_agents (pol_containment p) -> pattern_of p d
| of_audit d : d ∈ readers (pol_audit p) -> pattern_of p d
| of_pool n c d : (n, c) ∈ p_pools (pol_platforms p) -> d ∈ pool_agents c -> pattern_of p d
| of_item n c i it d : (n, c) ∈ p_pools (pol_platforms p) -> (i, it) ∈ items c ->
d ∈ item_agents it -> pattern_of p d
| of_zone n z d : (n, z) ∈ pol_restricted p -> d ∈ members z -> pattern_of p d.

Lemma flat_map_elem {A B} (f : A -> list B) l x y : x ∈ l -> y ∈ f x -> y ∈ flat_map f l.
Proof.
  intros Hx Hy. apply list_elem_of_In, in_flat_map. exists x. by rewrite <- !list_elem_of_In.
Qed.

Lemma all_patterns_complete p d : pattern_of p d -> exists w, (w, d) ∈ all_patterns p.
Proof.
  unfold all_patterns. setoid_rewrite elem_of_app.
  intros [r Hr|r d' Hr Hd|d' Hd|d' Hd|d' Hd|d' Hd|n c d' Hc Hd|n c i it d' Hc Hi Hd|n z d' Hz Hd].
  - destruct (indexed_elem (lit "rules") (map (fun r => mt_agent (r_matches r)) (pol_rules p))
    (mt_agent (r_matches r))) as [w Hw]; [by apply list_elem_of_In, in_map_iff; exists r; rewrite <- list_elem_of_In|]. exists w. by left.
  - destruct (indexed_elem (lit "rules") _ r Hr) as [w Hw].
  exists (w ++ lit " delegator"). right. apply elem_of_app. left.
  apply list_elem_of_omap. exists (w, r). split; [done|]. cbn. by rewrite Hd.
  - destruct (indexed_elem (lit "desktop.agents") _ d' Hd) as [w Hw]. exists w. rewrite !elem_of_app. auto.
  - destruct (indexed_elem (lit "wiki.editors") _ d' Hd) as [w Hw]. exists w. rewrite !elem_of_app. auto.
  - destruct (indexed_elem (lit "containment.agents") _ d' Hd) as [w Hw]. exists w. rewrite !elem_of_app. auto 10.
  - destruct (indexed_elem (lit "audit.readers") _ d' Hd) as [w Hw]. exists w. rewrite !elem_of_app. auto 10.
  - destruct (indexed_elem (lit "platforms.pools." ++ n ++ lit ".agents") _ d' Hd) as [w Hw].
  exists w. rewrite !elem_of_app. do 6 right. left.
  eapply flat_map_elem; [exact Hc|]. cbn [fst snd]. apply elem_of_app. left.
  by rewrite <- app_assoc.
  - destruct (indexed_elem ((lit "platforms.pools." ++ n) ++ lit ".items." ++ i ++ lit ".agents") _ d' Hd) as [w Hw].
  exists w. rewrite !elem_of_app. do 6 right. left.
  eapply flat_map_elem; [exact Hc|]. cbn [fst snd]. apply elem_of_app. right.
  eapply flat_map_elem; [exact Hi|]. exact Hw.
  - destruct (indexed_elem (lit "restricted." ++ n ++ lit ".members") _ d' Hd) as [w Hw].
  exists w. rewrite !elem_of_app. do 7 right.
  eapply flat_map_elem; [exact Hz|]. exact Hw.
Qed.
End load_lemmas.

(** *** What a loaded policy has passed *)

Section valid.
Context `{UnicodeLower, RegexLib, !SectionSerde, YamlLib}.

Lemma parse_zone_members name v z : parse_zone name v = Ok z -> members z <> [].
Proof.
  unfold parse_zone. intros (z0 & _ & Hz)%bind_ok. apply bind_ok in Hz as ([] & Hv & Hz).
  injection Hz as <-. apply map_err_ok in Hv. unfold RestrictedZone_validate in Hv.
  intros Hm. rewrite Hm in Hv. discriminate Hv.
Qed.

(** What a loaded policy has passed, in the order it is checked. *)
Lemma from_value_ok v p :
  from_value v = Ok p ->
  exists p0, p = normalize_case p0 /\ check_references p = Ok tt /\
  WikiConfig_validate (pol_wiki p0) = Ok tt /\
  Forall canonical_glob (repo_denylist (p_github (pol_platforms p0))) /\
  Forall (fun nz => members nz.2 <> []) (pol_restricted p0).
Proof.
  unfold from_value. intros Hp.
  apply bind_ok in Hp as (m & _ & Hp). apply bind_ok in Hp as (_ & _ & Hp).
  apply bind_ok in Hp as (? & _ & Hp). apply bind_ok in Hp as (? & _ & Hp).
  apply bind_ok in Hp as (pf & Hpf & Hp). apply bind_ok in Hp as (? & _ & Hp).
  apply bind_ok in Hp as (wiki & _ & Hp). do 3 apply bind_ok in Hp as (? & _ & Hp).
  apply bind_ok in Hp as (zones & Hz & Hp). do 5 apply bind_ok in Hp as (? & _ & Hp).
  apply bind_ok in Hp as ([] & Hw & Hp). apply bind_ok in Hp as (_ & _ & Hp).
  cbv zeta in Hp. apply bind_ok in Hp as ([] & Hc & Hp). injection Hp as <-.
  eexists. split; [reflexivity|]. split; [exact Hc|]. split; [exact Hw|]. split.
  - cbn [pol_platforms]. apply section_ok in Hpf as [->|[v' Hv]]; [constructor|].
  by eapply parse_platforms_deny.
  - cbn [pol_restricted]. apply section_ok in Hz as [->|[v' Hv]]; [constructor|].
  apply bind_ok in Hv as (es & _ & Hv). apply Forall_forall. intros [n z] Hin.
  destruct (insert_each_ok _ _ _ _ Hv n z Hin) as [?%not_elem_of_nil|[w Hzn]]; [done|].
  by eapply parse_zone_members.
Qed.
End valid.

Lemma check_resource_iff r :
  check_resource r = Ok tt <->
  Forall (fun f => f.2 ∈ PLACEHOLDERS) (placeholders r) /\
  ch "{" ∉ strip_ranges r (placeholders r) 0.
Proof.
  unfold check_resource. destruct (find _ (placeholders r)) as [[[i j] name]|] eqn:E.
  - apply List.find_some in E as [Hin Hbad]. apply list_elem_of_In in Hin. split; [done|].
    intros [Hall _]. rewrite Forall_forall in Hall. apply Hall in Hin.
    apply set_contains_true in Hin. cbn [snd] in *. rewrite Hin in Hbad. discriminate Hbad.
  - assert (Hall : Forall (fun f : nat * nat * str => f.2 ∈ PLACEHOLDERS) (placeholders r)).
    { apply Forall_forall. intros f Hf. apply set_contains_true, negb_false_iff.
      exact (find_none _ _ _ E Hf). }
    rewrite <- elem_b_true. destruct (elem_b _ _); naive_solver.
Qed.

Lemma undeclared_pattern `{RegexLib} p d name :
  undeclared (pol_projects p) (all_patterns p) = None -> pattern_of p d ->
  name ∈ pattern_projects d -> exists pr, map_get name (pol_projects p) = Some pr.
Proof.
  intros Hu Hd Hn. destruct (all_patterns_complete p d Hd) as [w Hw].
  pose proof (undeclared_none _ _ _ _ _ Hu Hw Hn) as Hs.
  destruct (map_get name (pol_projects p)); [eauto|done].
Qed.

Lemma runtime_good r :
  runtime_bad r = false ->
  r <> [] /\ Forall (fun c => is_ascii_lowercase c || is_ascii_digit c = true) r.
Proof.
  unfold runtime_bad. rewrite orb_false_iff, negb_false_iff, bool_decide_eq_false, forallb_elem.
  intros [? ?]. split; [done|]. by apply Forall_forall.
Qed.

Definition remote_mcp_complete `{RegexLib} (p : Policy) : Prop :=
  let rm := pol_remote_mcp p in
  rm_tools rm ⊆ MCP_TOOL_NAMES /\ Forall (fun u => redirect_uri_ok u = true) (redirect_uris rm) /\
  ui_issuer (pol_ui p) <> [] /\ client_id (pol_ui p) <> [] /\ rm_base_url rm <> [].

Lemma check_remote_mcp_ok `{RegexLib} p :
  check_remote_mcp p = Ok tt -> rm_enabled (pol_remote_mcp p) = true -> remote_mcp_complete p.
Proof.
  unfold check_remote_mcp, remote_mcp_complete. cbv zeta. intros Hc Hon. rewrite Hon in Hc. cbn [negb] in Hc.
  destruct (_ || _ || _) eqn:E in Hc; [discriminate Hc|].
  rewrite !orb_false_iff, !bool_decide_eq_false in E. destruct E as [[? ?] ?].
  destruct (negb (bool_decide _)) eqn:Eu in Hc; [discriminate Hc|].
  apply negb_false_iff, bool_decide_eq_true in Eu.
  destruct (find _ (redirect_uris _)) eqn:Ef in Hc; [discriminate Hc|].
  split_and!; [| |done..].
  - intros t Ht. apply set_contains_true. destruct (set_contains t MCP_TOOL_NAMES) eqn:Em; [done|].
    exfalso. apply (not_elem_of_nil t). rewrite <- Eu. apply set_of_list_elem, list_elem_of_In, filter_In.
    rewrite <- list_elem_of_In. by rewrite Em.
  - apply Forall_forall. intros u Hu. apply negb_false_iff. exact (find_none _ _ _ Ef Hu).
Qed.

Lemma deny_wiki_matches wiki deny :
  wiki <> [] -> Forall glob_plain wiki -> Forall canonical_glob deny ->
  exists g, g ∈ deny_wiki wiki deny /\ glob_matches g wiki = true.
Proof.
  intros Hne Hp Hc. unfold deny_wiki. rewrite bool_decide_false by done. cbn [negb andb].
  destruct (existsb _ deny) eqn:E; cbn [negb].
  - apply existsb_elem in E as (g & Hg & Hs). apply str_eqb_true in Hs. exists g. split; [done|].
    rewrite Forall_forall in Hc. unfold glob_matches. rewrite (Hc g Hg), Hs.
    apply match_tokens_iff. unfold compile. rewrite compile_loop_plain by done.
    cbn [rev app].
    apply (tok_match_literals _ wiki); [|done].
    clear. induction wiki as [|c w IH]; cbn; [done|]. by rewrite IH.
  - eexists. split; [apply elem_of_app; right; left|]. by apply fnmatch_escape_iff.
Qed.

(** A repository's name, checked, has only ASCII and no glob syntax. *)
Definition repo_char (c : char) : Prop :=
  is_ascii_alphanumeric c = true \/ c = ch "." \/ c = ch "_" \/ c = ch "-" \/ c = ch "/".

Lemma repo_part_chars s : repo_part s = true -> Forall repo_char s.
Proof.
  unfold repo_part. intros [_ Hs]%andb_true_iff. apply Forall_forall. intros c Hc.
  rewrite forallb_elem in Hs. specialize (Hs c Hc).
  rewrite !orb_true_iff, !N.eqb_eq in Hs. unfold repo_char. tauto.
Qed.

Lemma wiki_repo_chars c : WikiConfig_validate c = Ok tt -> Forall repo_char (wiki_repo c).
Proof.
  unfold WikiConfig_validate. cbv zeta. destruct (_ || _) eqn:E; [|done]. intros _.
  apply orb_true_iff in E as [->%bool_decide_eq_true|E]; [constructor|].
  destruct (split_once _ _) as [[a b]|] eqn:Es; [|done]. apply split_once_some in Es as [-> _].
  apply andb_true_iff in E as [Ha%repo_part_chars Hb%repo_part_chars].
  apply Forall_app. split; [done|]. constructor; [|done]. right. right. right. by right.
Qed.

Lemma repo_char_lower c :
  repo_char c -> is_ascii c = true /\ glob_plain (ascii_lower c) /\ repo_char (ascii_lower c).
Proof.
  unfold repo_char, is_ascii_alphanumeric, is_ascii_alphabetic, is_ascii, ascii_lower,
    is_ascii_digit, is_ascii_uppercase, is_ascii_lowercase, in_range, glob_plain.
  intros Hc. cbn in *.
  rewrite !orb_true_iff, !andb_true_iff, !N.leb_le in Hc. rewrite N.ltb_lt.
  destruct ((65 <=? c)%N && (c <=? 90)%N) eqn:E;
    rewrite ?andb_true_iff, ?andb_false_iff, ?N.leb_le, ?N.leb_gt in E;
    rewrite ?orb_true_iff, ?andb_true_iff, ?N.leb_le; lia.
Qed.

Lemma lower_repo `{UnicodeLower} s :
  Forall repo_char s ->
  to_lowercase s = map ascii_lower s /\ Forall glob_plain (to_lowercase s) /\
  Forall repo_char (to_lowercase s).
Proof.
  intros Hs. rewrite to_lowercase_ascii by (eapply Forall_impl; [exact Hs|]; apply repo_char_lower).
  split; [done|]. rewrite !Forall_map.
  split; (eapply Forall_impl; [exact Hs|]); intros c Hc; apply (repo_char_lower c Hc).
Qed.

(** ** Properties *)

(** Merging an overlay over a file gives, key by key, the overlay's value
    merged over the file's where both have the key and the one there is
    otherwise, in key order; a list gets the overlay's items first, so the
    overlay's rules are matched before the file's. *)
Theorem overlay_merges base extra a b :
  map_sorted base -> map_sorted extra ->
  overlay (VArray a) (VArray b) = VArray (b ++ a) /\
  exists m, overlay (VObject base) (VObject extra) = VObject m /\ map_sorted m /\
    forall k, map_get k m =
      match map_get k base, map_get k extra with
      | Some old, Some v => Some (overlay old v)
      | None, v => v
      | old, None => old
      end.
Proof.
  intros Hb He. split; [done|]. eexists. split; [apply overlay_objects|].
  split; [by apply merge_fold_sorted|]. intros k. rewrite merge_fold_get by done.
  by destruct (map_get k extra), (map_get k base).
Qed.

Lemma overlay_merges_witness :
  overlay (VArray [VNull]) (VArray [VBool true]) = VArray [VBool true; VNull] /\
  map_sorted [(lit "a", VNull); (lit "b", VNull)].
Proof.
  assert (Hs : map_sorted [(lit "a", VNull); (lit "b", VNull)])
    by (cbn; repeat constructor).
  split; [|exact Hs].
  exact (proj1 (overlay_merges [(lit "a", VNull); (lit "b", VNull)] [] [VNull] [VBool true] Hs I)).
Defined.

(** A policy that loads has passed every check across its sections:
    every project an agent pattern names anywhere is declared; a mintable
    runtime is lowercase letters and digits and not the orchestrator's; every
    restricted zone has members; every rule's resource uses only the known
    placeholders and no other brace; and a remote MCP that is on is complete. *)
Theorem policy_checked `{UnicodeLower, RegexLib, !SectionSerde} v p :
  from_value v = Ok p ->
  (forall d name, pattern_of p d -> name ∈ pattern_projects d ->
     exists pr, map_get name (pol_projects p) = Some pr) /\
  (forall r, r ∈ runtimes (p_agents (pol_platforms p)) -> r <> ORCHESTRATOR_RUNTIME /\ r <> [] /\
     Forall (fun c => is_ascii_lowercase c || is_ascii_digit c = true) r) /\
  (forall n z, (n, z) ∈ pol_restricted p -> members z <> []) /\
  (forall r, r ∈ pol_rules p -> let text := mt_resource (r_matches r) in
     Forall (fun f => f.2 ∈ PLACEHOLDERS) (placeholders text) /\
     ch "{" ∉ strip_ranges text (placeholders text) 0) /\
  (rm_enabled (pol_remote_mcp p) = true -> remote_mcp_complete p).
Proof.
  intros (p0 & Ep & Hc & _ & _ & Hz)%from_value_ok.
  unfold check_references in Hc. cbv zeta in Hc.
  destruct (set_contains _ _) eqn:Eo in Hc; [discriminate Hc|].
  destruct (find _ _) eqn:Er in Hc; [discriminate Hc|].
  destruct (undeclared _ _) as [[? ?]|] eqn:Eu in Hc; [discriminate Hc|].
  apply bind_ok in Hc as ([] & Hm & Hrs). apply check_resources_ok in Hrs.
  split_and!.
  - intros d name. by apply undeclared_pattern.
  - intros r Hr. split.
    + intros ->. apply set_contains_true in Hr. congruence.
    + apply runtime_good. exact (find_none _ _ _ Er Hr).
  - intros n z Hin. subst p. cbn [normalize_case pol_restricted] in Hin.
    rewrite Forall_forall in Hz. exact (Hz (n, z) Hin).
  - intros r Hr. apply check_resource_iff. rewrite Forall_forall in Hrs. exact (Hrs r Hr).
  - by apply check_remote_mcp_ok.
Qed.

(** The wiki's repository is always on the GitHub denylist of a loaded
    policy, listed or not: some pattern of it matches the (lowercased) name. *)
Theorem wiki_repo_denied `{UnicodeLower, RegexLib, !SectionSerde} v p :
  from_value v = Ok p -> wiki_repo (pol_wiki p) <> [] ->
  exists g, g ∈ repo_denylist (p_github (pol_platforms p)) /\
    glob_matches g (wiki_repo (pol_wiki p)) = true.
Proof.
  intros (p0 & -> & _ & Hw & Hd & _)%from_value_ok Hne.
  apply wiki_repo_chars, lower_repo in Hw as (_ & Hp & _).
  by apply deny_wiki_matches.
Qed.

(** *** A policy that loads, with section parsers that give constants *)

Module SamplePolicy.
Definition regex : RegexLib := Build_RegexLib unit (fun _ => Ok tt) (fun _ _ => true).
Definition no {T} (_ : Value) : result str T := Err (lit "no").
Definition rule : PolicyRule :=
  mkRule (mkRuleMatch (PFields (mkMatch Glob_any None (Some [lit "soc"]) None None None))
          (Some Github) Glob_any (lit "{agent.repos}") None)
  Llm Constraints_default [].
Definition serde : @SectionSerde regex :=
  @Build_SectionSerde regex no no no
  (fun _ => Ok (mkWiki (lit "JRT/Wiki") (lit "main") [] 10 30)) no no no
  (fun _ => Ok (mkZone [PName (Glob_new (lit "claude-*"))] [Glob_new (lit "apps-soc")] [] false))
  no no no (fun _ => Ok (mkProject [] [lit "JRT/App"])) (fun _ => Ok rule) no no no
  (fun _ => Ok (mkAgentsConfig [lit "claude"] 3600)) no no no no no no.
Definition document : Value :=
  VObject (map_of_list [
  (lit "platforms", VObject [(lit "agents", VNull)]);
  (lit "projects", VObject [(lit "soc", VNull)]);
  (lit "restricted", VObject [(lit "soc", VNull)]);
  (lit "rules", VArray [VNull]);
  (lit "wiki", VNull)]).
Definition loaded : result str (@Policy regex) :=
  @from_value ascii_only_lower regex serde document.
Definition policy : @Policy regex :=
  match loaded with Ok p => p | Err _ => @Policy_default ascii_only_lower regex end.
Lemma loads : @from_value ascii_only_lower regex serde document = Ok policy.
Proof. vm_compute. reflexivity. Qed.
End SamplePolicy.

Lemma policy_checked_witness :
  exists pr, map_get (lit "soc") (pol_projects SamplePolicy.policy) = Some pr.
Proof.
  apply (proj1 (@policy_checked ascii_only_lower SamplePolicy.regex SamplePolicy.serde
    SamplePolicy.document SamplePolicy.policy
    SamplePolicy.loads) (mt_agent (r_matches SamplePolicy.rule))).
  - exact (of_rule SamplePolicy.policy SamplePolicy.rule (list_elem_of_here _ _)).
  - exact (list_elem_of_here (lit "soc") []).
Defined.

Lemma wiki_repo_denied_witness :
  exists g, g ∈ repo_denylist (p_github (pol_platforms SamplePolicy.policy)) /\
    glob_matches g (lit "jrt/wiki") = true.
Proof.
  apply (@wiki_repo_denied ascii_only_lower SamplePolicy.regex SamplePolicy.serde
    SamplePolicy.document SamplePolicy.policy
    SamplePolicy.loads).
  vm_compute. discriminate.
Defined.
