(* ===== verification/Zones.v ===== *)
(** Restricted zones ([crates/core/src/zones.rs]): resources only their own
    agents reach. The facts from the database come with the call. *)

From S2P Require Import Prelude Json Glob Pyfmt Lifecycle Names Durations Pool Mail Authority Routing Agents Hostexec Schema Policy.
From stdpp Require Import options.

Inductive ZoneFacts :=
| Nothing
| A2aPeer (peer : option AgentRef)
| SandboxFacts (daemon : option str) (project_agents : list AgentRef)
| AgentsFacts (daemon : option str).

Record ZonePassed := mkPassed { human_note : option str }.
Record ZoneDenied := mkDenied { denied_text : str }.

Definition request_reason (d : ZoneDenied) : str := lit "validator: " ++ denied_text d.

Definition not_brokered (platform : Platform) (resource : str) : option str :=
  let r := repr resource in
  match platform with
  | Kubernetes => Some (lit "namespace " ++ r ++ lit " is not brokered (allowlist)")
  | Github => Some (lit "repo " ++ r ++ lit " is never brokered (denylist)")
  | A2a => Some (lit "unknown target agent " ++ r)
  | Sandbox => Some (lit "no project " ++ r ++ lit " in this agent VM")
  | _ => None
  end.

Definition deny (platform : Platform) (resource : str) : ZoneDenied :=
  mkDenied (default (lit "not brokered") (not_brokered platform resource)).

(** [str::ends_with]. *)
Definition ends_with (suffix s : str) : bool := negb (is_none (strip_prefix (rev suffix) (rev s))).

(** Python's [s[start:-end_from_back]]. *)
Definition py_slice (s : str) (start end_from_back : nat) : str :=
  let end_ := length s - end_from_back in
  if Nat.leb end_ start then [] else take (end_ - start) (drop start s).

Section zones.
Context `{UnicodeLower, RegexLib, DateLib}.

Definition member_of (policy : Policy) (agent : AgentRef) : list str :=
  if is_operator agent then []
  else set_of_list (map fst
  (List.filter (fun kv : str * RestrictedZone =>
     existsb (fun p => pattern_matches p agent) (members kv.2)) (pol_restricted policy))).

Definition is_member (policy : Policy) (agent : AgentRef) : bool :=
  negb (bool_decide (member_of policy agent = [])).

Definition zone_globs (platform : Platform) (zone : RestrictedZone) : list Glob :=
  match platform with
  | Kubernetes => z_kubernetes zone
  | Github => z_github zone
  | _ => []
  end.

Definition owner (policy : Policy) (platform : Platform) (resource : str) : list str :=
  let resource := to_lowercase resource in
  set_of_list (map fst
  (List.filter (fun kv : str * RestrictedZone =>
     existsb (fun g => glob_matches (Glob_new (to_lowercase (glob_source g))) resource)
       (zone_globs platform kv.2)) (pol_restricted policy))).

Definition outside (policy : Policy) (agent : AgentRef) (platform : Platform) (resource : str)
  : bool :=
  let mine := member_of policy agent in
  existsb (fun z => negb (set_contains z mine)) (owner policy platform resource).

Definition excluded_namespaces (policy : Policy) (agent : AgentRef) : list str :=
  let mine := member_of policy agent in
  set_of_list
  (flat_map (fun kv : str * RestrictedZone => map glob_source (z_kubernetes kv.2))
    (List.filter (fun kv : str * RestrictedZone => negb (set_contains kv.1 mine))
      (pol_restricted policy))).

Definition apart (policy : Policy) (a b : AgentRef) : bool :=
  if is_operator a || is_operator b then false
  else negb (bool_decide (member_of policy a = member_of policy b)).

Definition may_write_wiki (policy : Policy) (agent : AgentRef) : bool :=
  forallb (fun name => match map_get name (pol_restricted policy) with
                     | Some z => wiki z | None => false end) (member_of policy agent).

Definition zone_runtimes (policy : Policy) : list str :=
  set_insert ORCHESTRATOR_RUNTIME (set_of_list (runtimes (p_agents (pol_platforms policy)))).

(** An agent of a VM, by the parts its name is made of. *)
Definition vm_agent (name runtime project daemon : str) : AgentRef :=
  mkAgent name (Some runtime) (Some project) (Some daemon) InSandbox Service.

Definition vm_name (runtime project daemon : str) : str :=
  runtime ++ lit "-" ++ project ++ lit "-" ++ daemon ++ lit "-sandbox".

(** [reaches_in]: does the other agent belong to a zone this one is not in? *)
Definition reaches_in (policy : Policy) (mine : list str) (other : AgentRef) : bool :=
  existsb (fun z => negb (set_contains z mine)) (member_of policy other).

Definition check (policy : Policy) (agent : AgentRef) (authority : Authority)
  (resource : str) (facts : ZoneFacts) : result ZoneDenied ZonePassed :=
  let pass := Ok (mkPassed None) in
  if bool_decide (length (pol_restricted policy) = 0) then pass
  else
  let platform := platform authority in
  match platform, facts with
  | (Kubernetes | Github), _ =>
      if outside policy agent platform resource then Err (deny platform resource) else pass
  | A2a, A2aPeer peer =>
      match peer with
      | Some peer => if apart policy agent peer then Err (deny platform resource) else pass
      | None => pass
      end
  | Sandbox, SandboxFacts daemon project_agents =>
      let mine := member_of policy agent in
      if existsb (reaches_in policy mine) project_agents then Err (deny platform resource)
      else
        match daemon with
        | Some daemon =>
            if existsb (fun runtime =>
                 reaches_in policy mine
                   (vm_agent (vm_name runtime resource daemon) runtime resource daemon))
                 (zone_runtimes policy)
            then Err (deny platform resource) else pass
        | None => pass
        end
  | Agents, AgentsFacts daemon =>
      let runtime := match authority with
                     | AAgents _ runtime => default [] runtime | _ => [] end in
      match daemon with
      | None => pass
      | Some daemon =>
          let suffix := lit "-" ++ daemon ++ lit "-sandbox" in
          if bool_decide (runtime = []) || negb (ends_with suffix resource) then pass
          else
            let project := py_slice resource (length runtime + 1) (length suffix) in
            let zones := member_of policy (vm_agent resource runtime project daemon) in
            if bool_decide (zones = []) then pass
            else Ok (mkPassed (Some (lit "mints an agent inside restricted zone "
                                     ++ join (lit ", ") zones ++ lit ": always a human")))
      end
  | (A2a | Sandbox), _ => Err (deny platform resource)
  | Agents, _ =>
      Ok (mkPassed (Some (lit "mints an agent (restricted zones not checked): always a human")))
  | _, _ => pass
  end.
End zones.

(** ** Lemmas *)

Lemma ends_with_app p s : ends_with s (p ++ s) = true.
Proof. unfold ends_with. by rewrite rev_app_distr, strip_prefix_app. Qed.

Lemma filtered_keys_elem {V} (f : str * V -> bool) m z :
  z ∈ set_of_list (map fst (List.filter f m)) <-> exists v, (z, v) ∈ m /\ f (z, v) = true.
Proof.
  rewrite set_of_list_elem. split.
  - intros ([k v] & -> & Hin)%list_elem_of_fmap.
    apply list_elem_of_In, filter_In in Hin as [Hin Hf]. exists v. by rewrite list_elem_of_In.
  - intros (v & Hin & Hf). apply list_elem_of_fmap. exists (z, v). split; [done|].
    apply list_elem_of_In, filter_In. by rewrite <- list_elem_of_In.
Qed.

Lemma not_contained z l : negb (set_contains z l) = true <-> z ∉ l.
Proof. by rewrite negb_true_iff, <- not_true_iff_false, set_contains_true. Qed.

(** The name of a VM's agent gives its project back. *)
Lemma vm_name_slice runtime project daemon :
  let suffix := lit "-" ++ daemon ++ lit "-sandbox" in
  ends_with suffix (vm_name runtime project daemon) = true /\
  py_slice (vm_name runtime project daemon) (length runtime + 1) (length suffix) = project.
Proof.
  cbv zeta. set (suffix := lit "-" ++ daemon ++ lit "-sandbox").
  assert (E : vm_name runtime project daemon = (runtime ++ lit "-") ++ project ++ suffix).
  { unfold vm_name, suffix. by rewrite <- !app_assoc. }
  assert (El : length (runtime ++ lit "-") = length runtime + 1) by (by rewrite length_app).
  rewrite E. generalize dependent suffix. intros suffix _. split.
  { rewrite app_assoc. apply ends_with_app. }
  unfold py_slice. rewrite <- El, !(length_app _ (project ++ suffix)), (length_app project).
  generalize (runtime ++ lit "-"). intros pre.
  replace (length pre + (length project + length suffix) - length suffix)
with (length pre + length project) by lia.
destruct (Nat.leb_spec (length pre + length project) (length pre)).
- destruct project; [done|cbn in *; lia].
- rewrite (drop_app_exact pre) by done.
replace (length pre + length project - length pre) with (length project) by lia.
by rewrite take_app_length.
Qed.

Section zone_lemmas.
Context `{UnicodeLower, RegexLib, DateLib}.

Lemma member_of_iff p a z :
  z ∈ member_of p a <->
  is_operator a = false /\ exists zone pat, (z, zone) ∈ pol_restricted p /\
  pat ∈ members zone /\ pattern_matches pat a = true.
Proof.
  unfold member_of. destruct (is_operator a).
  { split; [by intros ?%not_elem_of_nil|by intros [? _]]. }
  rewrite filtered_keys_elem. split.
  - intros (zone & Hin & (pat & Hp & Hm)%existsb_elem). by split; [|exists zone, pat].
  - intros (_ & zone & pat & Hin & Hp & Hm). exists zone. split; [done|].
  apply existsb_elem. by exists pat.
Qed.

(** A zone's glob takes the resource, both lowercased. *)
Definition owns (platform : Platform) (resource : str) (zone : RestrictedZone) : Prop :=
  exists g, g ∈ zone_globs platform zone /\
  fnmatch (to_lowercase resource) (to_lowercase (glob_source g)) = true.

Lemma outside_iff p a platform resource :
  outside p a platform resource = true <->
  exists z zone, (z, zone) ∈ pol_restricted p /\ owns platform resource zone /\
  z ∉ member_of p a.
Proof.
  unfold outside. cbv zeta. rewrite existsb_elem. setoid_rewrite not_contained.
  unfold owner. cbv zeta. setoid_rewrite filtered_keys_elem. split.
  - intros (z & (zone & Hin & (g & Hg & Hm)%existsb_elem) & Hz). exists z, zone.
  split_and!; [done|by exists g|done].
  - intros (z & zone & Hin & (g & Hg & Hm) & Hz). exists z. split; [|done].
  exists zone. split; [done|]. apply existsb_elem. by exists g.
Qed.

Lemma reaches_in_iff p a other :
  reaches_in p (member_of p a) other = true <->
  exists z, z ∈ member_of p other /\ z ∉ member_of p a.
Proof. unfold reaches_in. rewrite existsb_elem. by setoid_rewrite not_contained. Qed.

(** Where a request may not go, by what it asks for. *)
Inductive refused (p : Policy) (a : AgentRef) (resource : str) : Platform -> ZoneFacts -> Prop :=
| refused_resource platform facts z zone :
platform = Kubernetes \/ platform = Github ->
(z, zone) ∈ pol_restricted p -> owns platform resource zone -> z ∉ member_of p a ->
refused p a resource platform facts
| refused_peer peer :
is_operator a = false -> is_operator peer = false -> member_of p a <> member_of p peer ->
refused p a resource A2a (A2aPeer (Some peer))
| refused_project daemon agents other z :
other ∈ agents -> z ∈ member_of p other -> z ∉ member_of p a ->
refused p a resource Sandbox (SandboxFacts daemon agents)
| refused_future daemon agents runtime z :
runtime ∈ zone_runtimes p ->
z ∈ member_of p (vm_agent (vm_name runtime resource daemon) runtime resource daemon) ->
z ∉ member_of p a ->
refused p a resource Sandbox (SandboxFacts (Some daemon) agents)
| refused_no_peer facts :
(forall peer, facts <> A2aPeer peer) -> refused p a resource A2a facts
| refused_no_vm facts :
(forall daemon agents, facts <> SandboxFacts daemon agents) ->
refused p a resource Sandbox facts.

Lemma apart_iff p a b :
  apart p a b = true <->
  is_operator a = false /\ is_operator b = false /\ member_of p a <> member_of p b.
Proof.
  unfold apart. destruct (is_operator a), (is_operator b); cbn [orb];
  rewrite ?negb_true_iff, ?bool_decide_eq_false; naive_solver.
Qed.

Lemma existsb_reaches p a l :
  existsb (reaches_in p (member_of p a)) l = true <->
  exists other z, other ∈ l /\ z ∈ member_of p other /\ z ∉ member_of p a.
Proof.
  rewrite existsb_elem. split.
  - intros (o & Hin & (z & ? & ?)%reaches_in_iff). by exists o, z.
  - intros (o & z & Hin & ? & ?). exists o. split; [done|]. apply reaches_in_iff. by exists z.
Qed.

Lemma existsb_future p a resource daemon l :
  existsb (fun runtime => reaches_in p (member_of p a)
  (vm_agent (vm_name runtime resource daemon) runtime resource daemon)) l = true <->
  exists runtime z, runtime ∈ l /\
  z ∈ member_of p (vm_agent (vm_name runtime resource daemon) runtime resource daemon) /\
  z ∉ member_of p a.
Proof.
  rewrite existsb_elem. split.
  - intros (o & Hin & (z & ? & ?)%reaches_in_iff). by exists o, z.
  - intros (o & z & Hin & ? & ?). exists o. split; [done|]. apply reaches_in_iff. by exists z.
Qed.
End zone_lemmas.

(** A test that ends in a refusal or a pass. *)
Lemma refuse_or_pass {E A} (b : bool) (e : E) (x : A) :
  (exists d, (if b then Err e else Ok x) = Err d) <-> b = true.
Proof. destruct b; split; eauto; [by intros [? [=]]|done]. Qed.

(** Minting an agent that would stand inside a restricted zone (its name
    made of runtime, project and VM) always leaves a note that a human must
    decide, and so does minting without the facts; otherwise nothing does. *)
Lemma zone_mint_needs_human `{UnicodeLower, RegexLib, DateLib} p agent action runtime project
    daemon facts :
  pol_restricted p <> [] -> runtime <> [] ->
  let resource := vm_name runtime project daemon in
  let minted := vm_agent resource runtime project daemon in
  exists note, check p agent (AAgents action (Some runtime)) resource facts = Ok (mkPassed note) /\
    match facts with
    | AgentsFacts (Some d) => d = daemon -> (note = None <-> member_of p minted = [])
    | AgentsFacts None => note = None
    | _ => note <> None
    end.
Proof.
  intros Hz Hr. cbv zeta. unfold check. cbv zeta.
  rewrite bool_decide_false by (by intros ?%length_zero_iff_nil). cbn [platform default]. unfold id.
  destruct facts as [|peer|daemon' agents|[d|]];
    try (eexists; split; [reflexivity|done]).
  rewrite (bool_decide_false (runtime = [])) by done. cbn [orb].
  destruct (decide (d = daemon)) as [->|Hd].
  - destruct (vm_name_slice runtime project daemon) as [E1 E2]. rewrite E1, E2. cbn [negb].
    case_bool_decide as Hm; eexists; (split; [reflexivity|]); intros _; [done|].
    split; [done|]. by intros ?%Hm.
  - destruct (negb _); [by eexists|]. case_bool_decide; by eexists.
Qed.

(** ** Properties *)

(** The zone check refuses exactly the requests that reach into a zone
    the agent is not in (a namespace or repository such a zone owns; an agent
    on the other side of a zone's edge; a project with an agent, present or
    to be minted, inside such a zone), and those that come without the facts
    their platform needs. What it answers is the platform's own words, made
    from the platform and the resource alone. Without zones all pass. *)
Theorem zone_check_refuses `{UnicodeLower, RegexLib, DateLib} p agent authority resource facts :
  (pol_restricted p = [] -> check p agent authority resource facts = Ok (mkPassed None)) /\
  (pol_restricted p <> [] ->
    ((exists d, check p agent authority resource facts = Err d) <->
     refused p agent resource (platform authority) facts)) /\
  (forall d, check p agent authority resource facts = Err d ->
    d = deny (platform authority) resource).
Proof.
  unfold check. cbv zeta. split_and!.
  - by intros ->.
  - intros Hz. rewrite bool_decide_false by (by intros ?%length_zero_iff_nil).
    destruct (platform authority); try (split; [by intros [? [=]]|]; intros Hr; inversion Hr; naive_solver).
    + rewrite refuse_or_pass, outside_iff. split.
      * intros (z & zone & ? & ? & ?). eapply refused_resource; eauto.
      * intros Hr. inversion Hr; subst; eauto 10.
    + rewrite refuse_or_pass, outside_iff. split.
      * intros (z & zone & ? & ? & ?). eapply refused_resource; eauto.
      * intros Hr. inversion Hr; subst; eauto 10.
    + destruct facts as [|[peer|]|daemon agents|daemon];
        try (split; [|by eexists]; intros _; by apply refused_no_peer).
      * rewrite refuse_or_pass, apart_iff. split.
        -- intros (? & ? & ?). by apply refused_peer.
        -- intros Hr. inversion Hr; subst; naive_solver.
      * split; [by intros [? [=]]|]. intros Hr. inversion Hr; subst; naive_solver.
    + split; [|intros Hr; inversion Hr; naive_solver].
      intros [d Hd]. revert Hd. destruct facts as [|?|? ?|[d'|]]; try done.
      destruct (_ || _); [done|]. by case_bool_decide.
    + destruct facts as [|peer|daemon agents|daemon];
        try (split; [|by eexists]; intros _; by apply refused_no_vm).
      destruct (existsb _ agents) eqn:Ea.
      { apply existsb_reaches in Ea as (o & z & ? & ? & ?). split; [intros _|by eexists].
        by eapply refused_project. }
      apply not_true_iff_false in Ea. rewrite existsb_reaches in Ea.
      destruct daemon as [daemon|].
      * rewrite refuse_or_pass, existsb_future. split.
        -- intros (r & z & ? & ? & ?). by eapply refused_future.
        -- intros Hr. inversion Hr; subst; naive_solver.
      * split; [by intros [? [=]]|]. intros Hr. inversion Hr; subst; naive_solver.
  - intros d. destruct (bool_decide _); [done|].
    destruct (platform authority); cases; congruence.
Qed.

(** A namespace is out of an agent's reach just when some namespace glob
    that a cluster-wide grant of the agent leaves out takes it. *)
Theorem excluded_namespaces_exact `{UnicodeLower, RegexLib} p agent namespace :
  outside p agent Kubernetes namespace = true <->
  exists g, g ∈ excluded_namespaces p agent /\
    fnmatch (to_lowercase namespace) (to_lowercase g) = true.
Proof.
  rewrite outside_iff. unfold excluded_namespaces. cbv zeta. setoid_rewrite set_of_list_elem. split.
  - intros (z & zone & Hin & (g & Hg & Hm) & Hz). exists (glob_source g). split; [|done].
    apply (flat_map_elem _ _ (z, zone)); [|apply list_elem_of_In, in_map, list_elem_of_In; exact Hg].
    apply list_elem_of_In, filter_In. rewrite <- list_elem_of_In. split; [exact Hin|].
    by apply not_contained.
  - intros (g & Hg & Hm). apply list_elem_of_In, in_flat_map in Hg as ([z zone] & Hin & Hg).
    apply filter_In in Hin as [Hin Hz%not_contained].
    apply list_elem_of_In, list_elem_of_fmap in Hg as (g' & -> & Hg').
    exists z, zone. rewrite list_elem_of_In. split_and!; [done|by exists g'|done].
Qed.

Lemma zone_check_refuses_witness :
  exists d, @check ascii_only_lower SamplePolicy.regex TextCalendar.calendar SamplePolicy.policy
    (AgentRef_named (lit "x")) (AKubernetes (mkKubernetes (lit "view") false)) (lit "APPS-soc")
    Nothing = Err d.
Proof.
  apply (proj2 (proj1 (proj2 (@zone_check_refuses ascii_only_lower SamplePolicy.regex
    TextCalendar.calendar SamplePolicy.policy (AgentRef_named (lit "x"))
    (AKubernetes (mkKubernetes (lit "view") false)) (lit "APPS-soc") Nothing))
    ltac:(vm_compute; discriminate))).
  eapply refused_resource; [by left| |exists (Glob_new (lit "apps-soc"))|vm_compute; intros Hin; inversion Hin].
  - vm_compute. left.
  - split; [left|vm_compute; reflexivity].
Defined.
