(* ===== verification/Eval.v ===== *)
(** Evaluation and routing ([crates/core/src/policy/eval.rs]): saved rules
    (newest first), then the policy file's rules, then the default; then the
    gates. An instant is its nanoseconds; an id its number. *)

From S2P Require Import Prelude Json Glob Pyfmt Lifecycle Names Durations Pool Mail Authority Routing Agents Hostexec Schema Policy Zones.
From stdpp Require Import options.

Abbreviation RuleId := N (only parsing).
Abbreviation Instant := Z (only parsing).

Inductive SavedRuleAction := AutoApprove | AutoDeny.
#[export] Instance SavedRuleAction_eq_dec : EqDecision SavedRuleAction.
Proof. solve_decision. Defined.

Definition SavedRuleAction_as_str (a : SavedRuleAction) : str :=
  match a with AutoApprove => lit "auto_approve" | AutoDeny => lit "auto_deny" end.
Definition SavedRuleAction_parse (s : str) : option SavedRuleAction :=
  if str_eqb s (lit "auto_approve") then Some AutoApprove
  else if str_eqb s (lit "auto_deny") then Some AutoDeny
  else None.

(** Which layer decided. *)
Inductive Matched := SavedRuleMatch (id : RuleId) | PolicyRuleMatch (i : nat) | DefaultMatch.

Definition matched_source (m : Matched) : DecisionSource :=
  match m with SavedRuleMatch _ => ByRule | PolicyRuleMatch _ | DefaultMatch => ByPolicy end.
Definition matched_rule_id (m : Matched) : option RuleId :=
  match m with SavedRuleMatch id => Some id | _ => None end.

Definition cap_duration (requested default_max : Z) (rule_max : option Z) : Z :=
  let capped := Z.min requested default_max in
  match rule_max with Some m => Z.min capped m | None => capped end.

Definition default_action (configured : PolicyAction) (delegated : bool) : PolicyAction :=
  if delegated && is_auto configured then Surface else configured.

Section eval.
Context `{UnicodeLower, RegexLib, DateLib}.

Record SavedRule := mkSaved {
  s_id : RuleId;
  s_action : SavedRuleAction;
  agent_pattern : Glob;
  delegator_pattern : option Glob;
  s_platform : Platform;
  resource_pattern : Glob;
  s_authority : option Authority;
  s_max_duration : option Z;
  enabled : bool;
  notes : str;
  expires_at : option Instant;
  created_at : Instant;
}.

(** The sort key, newest first: [Reverse((created_at, id))]. *)
Definition not_older (a b : SavedRule) : bool :=
  Z.ltb (created_at b) (created_at a)
  || (Z.eqb (created_at b) (created_at a) && N.leb (s_id b) (s_id a)).

Fixpoint insert_rule (r : SavedRule) (rules : list SavedRule) : list SavedRule :=
  match rules with
  | [] => [r]
  | x :: rules' => if not_older r x then r :: rules else x :: insert_rule r rules'
  end.

(** A stable sort; the key is total, so any stable sort gives this. *)
Definition sort_saved_rules (rules : list SavedRule) : list SavedRule :=
  foldr insert_rule [] rules.

Record PolicyInput := mkInput {
  i_agent : AgentRef;
  i_delegation : Delegation;
  i_resource : str;
  i_authority : Authority;
}.
Definition input_platform (i : PolicyInput) : Platform := platform (i_authority i).

Record Sealed := mkSealed {
  sl_action : PolicyAction;
  sl_strength : RuleStrength;
  sl_source : DecisionSource;
  sl_authority : Authority;
  sl_resource : str;
}.

Definition Sealed_of (input : PolicyInput) (action : PolicyAction) (strength : RuleStrength)
  (matched : Matched) : Sealed :=
  mkSealed action strength (matched_source matched) (i_authority input) (i_resource input).

Record PolicyDecision := mkDecision {
  p_action : PolicyAction;
  p_reason : str;
  p_matched : Matched;
  p_max_duration : Z;
  p_llm_model : str;
  p_retry_budget : N;
  p_pinned : bool;
  p_names_resource : bool;
  p_explicit : bool;
  p_window : bool;
  p_sealed : Sealed;
}.
Definition decision_source (d : PolicyDecision) : DecisionSource := matched_source (p_matched d).
Definition decision_rule_id (d : PolicyDecision) : option RuleId := matched_rule_id (p_matched d).

Definition resource_glob (platform : Platform) (pattern : str) : Glob :=
  if bool_decide (platform = Github) then Glob_new (to_lowercase pattern) else Glob_new pattern.

Definition same_resource (platform : Platform) (pattern resource : str) : bool :=
  let literal := escape resource in
  if bool_decide (platform = Github) then str_eqb (to_lowercase pattern) literal
  else str_eqb pattern literal.

(** *** Saved rules *)

(** The condition of [match_saved]'s [find]. *)
Definition saved_fits (input : PolicyInput) (now : Instant) (rule : SavedRule) : bool :=
  let platform := input_platform input in
  let fits := match delegator_pattern rule, i_delegation input with
            | Some g, ByAgent d => glob_matches g (a_name d)
            | _, _ => false
            end in
  enabled rule
  && bool_decide (s_platform rule = platform)
  && is_none_or (fun e => Z.ltb now e) (expires_at rule)
  && glob_matches (agent_pattern rule) (a_name (i_agent input))
  && glob_matches (resource_glob platform (glob_source (resource_pattern rule))) (i_resource input)
  && delegator_axis (negb (is_none (delegator_pattern rule))) fits
     (is_delegated (i_delegation input)) (bool_decide (s_action rule = AutoApprove))
  && rule_covers (s_authority rule) (i_authority input).

Definition saved_strength (input : PolicyInput) (rule : SavedRule) : RuleStrength :=
  let pinned := negb (is_none (s_authority rule)) in
  mkStrength pinned pinned
  (pinned && same_resource (input_platform input) (glob_source (resource_pattern rule))
               (i_resource input)).

Definition is_window (a : option Authority) : bool :=
  match a with Some (AHostexec (Window _)) => true | _ => false end.

Definition saved_decision (p : Policy) (input : PolicyInput) (rule : SavedRule) : PolicyDecision :=
  let pinned := negb (is_none (s_authority rule)) in
  let strength := saved_strength input rule in
  let action := match s_action rule with AutoApprove => Approve | AutoDeny => Deny end in
  mkDecision action
  (if bool_decide (notes rule = []) then lit "matched saved rule"
   else lit "matched saved rule (" ++ notes rule ++ lit ")")
  (SavedRuleMatch (s_id rule))
  (default (d_max_duration (pol_defaults p)) (s_max_duration rule))
  (llm_model (pol_llm p)) (llm_retry_budget (pol_llm p))
  pinned (names_resource strength) pinned (is_window (s_authority rule))
  (Sealed_of input action strength (SavedRuleMatch (s_id rule))).

Definition match_saved (p : Policy) (input : PolicyInput) (saved : list SavedRule)
  (now : Instant) : option PolicyDecision :=
  saved_decision p input <$> find (saved_fits input now) saved.

(** *** The policy file's rules *)

Definition rule_fits (p : Policy) (input : PolicyInput) (rule : PolicyRule) : bool :=
  let m := r_matches rule in
  let other_platform := match mt_platform m with
                      | Some pl => negb (bool_decide (pl = input_platform input))
                      | None => false end in
  if other_platform then false
  else pattern_matches (mt_agent m) (i_agent input)
  && glob_matches (mt_capability m) (capability (i_authority input))
  && existsb (fun r => glob_matches (resource_glob (input_platform input) r) (i_resource input))
       (resources_for (mt_resource m) (i_agent input) (pol_projects p))
  && delegator_matches (mt_delegator m) (i_delegation input) (is_auto (r_action rule)).

Definition rule_explicit (input : PolicyInput) (rule : PolicyRule) : bool :=
  let m := r_matches rule in
  negb (is_none (mt_platform m)) && is_literal (mt_capability m)
  && str_eqb (glob_source (mt_capability m)) (capability (i_authority input)).

Definition rule_decision (p : Policy) (input : PolicyInput) (i : nat) (rule : PolicyRule)
  : PolicyDecision :=
  let c := r_constraints rule in
  let explicit := rule_explicit input rule in
  mkDecision (r_action rule)
  (if bool_decide (r_reason rule = []) then lit "matched policy rule" else r_reason rule)
  (PolicyRuleMatch i)
  (default (d_max_duration (pol_defaults p)) (k_max_duration c))
  (match k_llm_model c with
   | Some m => if bool_decide (m = []) then llm_model (pol_llm p) else m
   | None => llm_model (pol_llm p)
   end)
  (default (llm_retry_budget (pol_llm p)) (k_retry_budget c))
  false false explicit false
  (Sealed_of input (r_action rule) (mkStrength false explicit false) (PolicyRuleMatch i)).

Definition default_decision (p : Policy) (input : PolicyInput) : PolicyDecision :=
  let action := default_action (d_action (pol_defaults p)) (is_delegated (i_delegation input)) in
  mkDecision action (lit "no matching rule; policy default") DefaultMatch
  (d_max_duration (pol_defaults p)) (llm_model (pol_llm p)) (llm_retry_budget (pol_llm p))
  false false false false (Sealed_of input action NO_STRENGTH DefaultMatch).

(** The loop over the policy file's rules. *)
Fixpoint evaluate_rules (p : Policy) (input : PolicyInput) (i : nat) (rules : list PolicyRule)
  : PolicyDecision :=
  match rules with
  | [] => default_decision p input
  | rule :: rules' =>
    if rule_fits p input rule then rule_decision p input i rule
    else evaluate_rules p input (S i) rules'
  end.

Definition evaluate (p : Policy) (input : PolicyInput) (saved : list SavedRule) (now : Instant)
  : PolicyDecision :=
  match match_saved p input saved now with
  | Some decision => decision
  | None => evaluate_rules p input 0 (pol_rules p)
  end.

(** *** Routing *)

Definition gate_facts (p : Policy) (input : PolicyInput) (zone : ZonePassed) : GateFacts :=
  mkFacts (negb (is_none (human_note zone)))
  (human_only (i_authority input))
  (is_web (i_agent input) || delegation_is_web (i_delegation input))
  (is_sensitive (sensitivity p) (i_resource input) (i_authority input))
  (sensitive_by_resource (sensitivity p) (i_resource input) (i_authority input))
  (needs_explicit_rule (i_authority input)).

Record RoutedRequest := mkRouted {
  rr_route : Route;
  rr_downgrades : list Downgrade;
  rr_notes : list str;
}.

Definition downgrade_note (input : PolicyInput) (zone : ZonePassed) (d : Downgrade) : str :=
  match d with
  | ZoneGate => default (lit "restricted zone: always a human") (human_note zone)
  | HumanOnlyGate => lit "always decided by a human"
  | WebConnectorGate => lit "for a web UI connector: always decided by a human"
  | SensitiveGate => lit "sensitive capability — routed to human review"
  | NotNamedGate => lit "no rule names " ++ repr (capability (i_authority input))
                  ++ lit " — routed to human review"
  end.

(** What the decision proposes for this input. *)
Definition proposed (input : PolicyInput) (s : Sealed) : PolicyAction * RuleStrength :=
  if Authority_eqb (sl_authority s) (i_authority input) && str_eqb (sl_resource s) (i_resource input)
  then (sl_action s, sl_strength s)
  else if bool_decide (sl_action s = Deny) then (Deny, NO_STRENGTH)
  else (Surface, NO_STRENGTH).

Definition Policy_route (p : Policy) (request : RequestId) (input : PolicyInput)
  (decision : PolicyDecision) (zone : ZonePassed) : RoutedRequest :=
  let sealed := p_sealed decision in
  let '(proposal, strength) := proposed input sealed in
  let gated := gate proposal strength (gate_facts p input zone) in
  mkRouted (route (g_action gated) request (i_authority input) (sl_source sealed))
  (downgrades gated) (map (downgrade_note input zone) (downgrades gated)).

Definition evaluate_and_route (p : Policy) (request : RequestId) (input : PolicyInput)
  (saved : list SavedRule) (zone : ZonePassed) (now : Instant)
  : PolicyDecision * RoutedRequest :=
  let decision := evaluate p input saved now in
  (decision, Policy_route p request input decision zone).
End eval.

(** ** Lemmas *)

Lemma is_none_or_true {A} (f : A -> bool) o :
  is_none_or f o = true <-> forall x, o = Some x -> f x = true.
Proof. destruct o as [x|]; cbn; [|naive_solver]. split; [by intros ? ? [= <-]|auto]. Qed.

Lemma find_split {A} (f : A -> bool) l x :
  find f l = Some x -> exists pre post, l = pre ++ x :: post /\ f x = true /\
    Forall (fun y => f y = false) pre.
Proof.
  induction l as [|y l IH]; cbn; [done|]. destruct (f y) eqn:E.
  - intros [= ->]. exists [], l. by split_and!.
  - intros (pre & post & -> & ? & ?)%IH. exists (y :: pre), post. split_and!; [done..|].
    by constructor.
Qed.

Lemma find_filter {A} (f g : A -> bool) l :
  (forall x, f x = true -> g x = true) -> find f (List.filter g l) = find f l.
Proof.
  intros Hfg. induction l as [|x l IH]; cbn; [done|]. destruct (g x) eqn:Eg; cbn; [by rewrite IH|].
  destruct (f x) eqn:Ef; [|done]. apply Hfg in Ef. congruence.
Qed.

Section eval_lemmas.
Context `{UnicodeLower, RegexLib, DateLib}.

(** *** The order of saved rules *)

Definition sort_key_le (a b : SavedRule) : Prop :=
  (created_at b < created_at a)%Z \/ created_at b = created_at a /\ (s_id b <= s_id a)%N.

Lemma not_older_iff a b : not_older a b = true <-> sort_key_le a b.
Proof.
  unfold not_older, sort_key_le.
  by rewrite orb_true_iff, andb_true_iff, Z.ltb_lt, Z.eqb_eq, N.leb_le.
Qed.
Lemma sort_key_total a b : not_older a b = false -> sort_key_le b a.
Proof.
  intros E%not_true_iff_false. rewrite not_older_iff in E. unfold sort_key_le in *. lia.
Qed.
Lemma sort_key_trans a b c : sort_key_le a b -> sort_key_le b c -> sort_key_le a c.
Proof. unfold sort_key_le. lia. Qed.

Fixpoint newest_first (rules : list SavedRule) : Prop :=
  match rules with
  | [] => True
  | r :: rules' => Forall (sort_key_le r) rules' /\ newest_first rules'
  end.

Lemma insert_rule_perm r rules : insert_rule r rules ≡ₚ r :: rules.
Proof.
  induction rules as [|x rules IH]; cbn; [done|]. destruct (not_older r x); [done|].
  rewrite IH. apply perm_swap.
Qed.

Lemma insert_rule_newest r rules : newest_first rules -> newest_first (insert_rule r rules).
Proof.
  induction rules as [|x rules IH]; cbn; [by split|]. intros [Hx Hs].
  destruct (not_older r x) eqn:E; cbn.
  - apply not_older_iff in E. split; [|done]. constructor; [done|].
  eapply Forall_impl; [exact Hx|]. intros y. by apply sort_key_trans.
  - split; [|auto]. rewrite insert_rule_perm. constructor; [by apply sort_key_total|done].
Qed.

Lemma sort_saved_rules_perm rules : sort_saved_rules rules ≡ₚ rules.
Proof. induction rules as [|r rules IH]; [done|]. cbn. by rewrite insert_rule_perm, IH. Qed.
Lemma sort_saved_rules_newest rules : newest_first (sort_saved_rules rules).
Proof. induction rules as [|r rules IH]; [done|]. by apply insert_rule_newest. Qed.

Lemma newest_first_split pre r post :
  newest_first (pre ++ r :: post) -> Forall (sort_key_le r) post.
Proof. induction pre as [|x pre IH]; cbn; [by intros []|]. intros [_ ?]. auto. Qed.

(** *** Which rules fit *)

Lemma saved_fits_iff input now r :
  saved_fits input now r = true ->
  enabled r = true /\ s_platform r = input_platform input /\
  (forall e, expires_at r = Some e -> (now < e)%Z) /\
  glob_matches (agent_pattern r) (a_name (i_agent input)) = true /\
  rule_covers (s_authority r) (i_authority input) = true.
Proof.
  unfold saved_fits. cbv zeta. rewrite !andb_true_iff, bool_decide_eq_true, is_none_or_true.
  intros [[[[[[He Hp] Hx] Ha] _] _] Hc]. split_and!; try done.
  intros e Hxe. apply Z.ltb_lt. auto.
Qed.

(** An approving rule that fits a delegated request is written for its
    delegator. *)
Lemma saved_fits_delegated input now r :
  saved_fits input now r = true -> s_action r = AutoApprove ->
  is_delegated (i_delegation input) = true ->
  exists g d, delegator_pattern r = Some g /\ i_delegation input = ByAgent d /\
  glob_matches g (a_name d) = true.
Proof.
  unfold saved_fits. cbv zeta. rewrite !andb_true_iff. intros [[_ Hd] _] Ha Hdel.
  rewrite (bool_decide_true (s_action r = AutoApprove)) in Hd by done.
  unfold delegator_axis in Hd.
  destruct (delegator_pattern r) as [g|], (i_delegation input) as [|d|]; cbn in *; try done.
  by exists g, d.
Qed.

(** *** The loop over the policy file *)

Lemma evaluate_rules_spec p input rules i :
  (exists pre r post, rules = pre ++ r :: post /\ rule_fits p input r = true /\
   Forall (fun x => rule_fits p input x = false) pre /\
   evaluate_rules p input i rules = rule_decision p input (i + length pre) r) \/
  (Forall (fun x => rule_fits p input x = false) rules /\
   evaluate_rules p input i rules = default_decision p input).
Proof.
  revert i; induction rules as [|r rules IH]; intros i; cbn [evaluate_rules]; [right; by split|].
  destruct (rule_fits p input r) eqn:E.
  - left. exists [], r, rules. split_and!; [done..|]. cbn. by rewrite Nat.add_0_r.
  - destruct (IH (S i)) as [(pre & r' & post & -> & ? & ? & ->)|[? ->]].
  + left. exists (r :: pre), r', post. split_and!; [done..|by constructor|].
    cbn [length]. by rewrite Nat.add_succ_r.
  + right. split; [by constructor|done].
Qed.

(** What each layer seals into its decision. *)
Lemma evaluate_sealed p input saved now :
  let d := evaluate p input saved now in
  sl_authority (p_sealed d) = i_authority input /\ sl_resource (p_sealed d) = i_resource input /\
  sl_action (p_sealed d) = p_action d /\ sl_source (p_sealed d) = decision_source d.
Proof.
  cbv zeta. unfold evaluate, match_saved. destruct (find _ saved); [done|]. cbn [fmap option_fmap option_map].
  destruct (evaluate_rules_spec p input (pol_rules p) 0) as [(? & ? & ? & _ & _ & _ & ->)|[_ ->]];
  done.
Qed.

Lemma proposed_same input d :
  sl_authority (p_sealed d) = i_authority input -> sl_resource (p_sealed d) = i_resource input ->
  proposed input (p_sealed d) = (sl_action (p_sealed d), sl_strength (p_sealed d)).
Proof.
  intros Ha Hr. unfold proposed. rewrite Ha, Hr, (proj2 (str_eqb_true _ _) eq_refl).
  change (Authority_eqb (i_authority input) (i_authority input)) with
  (i_authority input ==? i_authority input).
  by rewrite req_refl.
Qed.

Lemma route_auto_inv action request authority source :
  is_auto (Route_action (route action request authority source)) = is_auto action.
Proof. by destruct action. Qed.
End eval_lemmas.

(** *** What a decision rests on *)

Section decided.
Context `{UnicodeLower, RegexLib, DateLib}.

(** What a decision may rest on: the layer, the rule it found, and that
    nothing came before it. *)
Definition decided_by (p : Policy) (input : PolicyInput) (saved : list SavedRule)
  (now : Instant) (first : SavedRule -> Prop) (d : PolicyDecision) : Prop :=
  match p_matched d with
  | SavedRuleMatch id =>
    exists r, r ∈ saved /\ s_id r = id /\ saved_fits input now r = true /\ first r /\
      d = saved_decision p input r
  | PolicyRuleMatch i =>
    Forall (fun r => saved_fits input now r = false) saved /\
    exists r, pol_rules p !! i = Some r /\ rule_fits p input r = true /\
      Forall (fun r' => rule_fits p input r' = false) (take i (pol_rules p)) /\
      d = rule_decision p input i r
  | DefaultMatch =>
    Forall (fun r => saved_fits input now r = false) saved /\
    Forall (fun r => rule_fits p input r = false) (pol_rules p) /\
    d = default_decision p input
  end.

Lemma decided_by_perm p input saved saved' now (first first' : SavedRule -> Prop) d :
  saved ≡ₚ saved' -> (forall r, first r -> first' r) ->
  decided_by p input saved now first d -> decided_by p input saved' now first' d.
Proof.
  intros Hp Hf. unfold decided_by. destruct (p_matched d) as [id|i|].
  - intros (r & Hr & ? & ? & ? & ?). exists r. rewrite <- Hp. auto 10.
  - intros [Hs Hr]. rewrite Hp in Hs. auto.
  - intros [Hs Hr]. rewrite Hp in Hs. auto.
Qed.

Definition first_fit (input : PolicyInput) (now : Instant) (saved : list SavedRule)
  (r : SavedRule) : Prop :=
  exists pre post, saved = pre ++ r :: post /\
  Forall (fun x => saved_fits input now x = false) pre.

Lemma evaluate_decided p input saved now :
  decided_by p input saved now (first_fit input now saved) (evaluate p input saved now).
Proof.
  unfold evaluate, match_saved, decided_by. destruct (find _ saved) as [r|] eqn:E.
  - apply find_split in E as (pre & post & -> & Hf & Hpre). cbn. exists r.
  split_and!; [apply elem_of_app; right; left|done|done|by exists pre, post|done].
  - assert (Hno : Forall (fun r => saved_fits input now r = false) saved).
  { apply Forall_forall. intros r. exact (find_none _ _ _ E). }
  cbn [fmap option_fmap option_map].
  destruct (evaluate_rules_spec p input (pol_rules p) 0)
    as [(pre & r & post & Ep & Hf & Hpre & ->)|[Hall ->]]; cbn [p_matched rule_decision default_decision];
    [|by split_and!].
  split; [done|]. exists r. cbn [Nat.add]. rewrite Ep. split_and!; [|done| |done].
  + by apply list_lookup_middle.
  + by rewrite take_app_length.
Qed.

(** The route is automatic only for the decision's own action, with the
    strength evaluation found. *)
Lemma route_auto p request input saved zone now :
  let '(d, r) := evaluate_and_route p request input saved zone now in
  is_auto (Route_action (rr_route r)) = true ->
  is_auto (g_action (gate (p_action d) (sl_strength (p_sealed d)) (gate_facts p input zone))) = true /\
  is_auto (p_action d) = true.
Proof.
  unfold evaluate_and_route. destruct (evaluate_sealed p input saved now) as (Ha & Hr & Hact & _).
  unfold Policy_route. rewrite proposed_same by done. rewrite Hact. cbn [rr_route].
  rewrite route_auto_inv. intros Hg. split; [done|]. by apply gate_auto_iff in Hg as [? _].
Qed.

Lemma same_resource_only pl pattern resource :
  same_resource pl pattern resource = true ->
  forall t, glob_matches (resource_glob pl pattern) t = true <-> t = resource.
Proof.
  unfold same_resource, resource_glob. cbv zeta.
  destruct (bool_decide _); intros ->%str_eqb_true t; apply fnmatch_escape_iff.
Qed.

Lemma rule_fits_delegated p input r :
  rule_fits p input r = true -> is_auto (r_action r) = true ->
  is_delegated (i_delegation input) = true ->
  exists pat d, mt_delegator (r_matches r) = Some pat /\ i_delegation input = ByAgent d /\
  pattern_matches pat d = true.
Proof.
  unfold rule_fits. cbv zeta. rewrite if_false_true, !andb_true_iff. intros (_ & _ & Hd) Ha Hdel.
  rewrite Ha in Hd. unfold delegator_matches, delegator_axis in Hd.
  destruct (mt_delegator _) as [pat|], (i_delegation input) as [|d|]; cbn in *; try done.
  by exists pat, d.
Qed.
(** A rule of the policy file that fits and is explicit names the platform
    and the capability, and matches no other capability. *)
Lemma rule_explicit_names p input r :
  rule_fits p input r = true -> rule_explicit input r = true ->
  mt_platform (r_matches r) = Some (platform (i_authority input)) /\
  glob_source (mt_capability (r_matches r)) = capability (i_authority input) /\
  forall t, glob_matches (mt_capability (r_matches r)) t = true <-> t = capability (i_authority input).
Proof.
  unfold rule_fits, rule_explicit. cbv zeta.
  rewrite if_false_true, !andb_true_iff, str_eqb_true. intros (Hp & [[_ Hm] _] & _) [[Hpl Hl] Hs].
  split_and!; [|done|].
  - destruct (mt_platform _) as [pl|]; [|done]. apply negb_false_iff, bool_decide_eq_true in Hp.
    by rewrite Hp.
  - apply is_literal_matches in Hl as [s Hl]. intros t. rewrite Hl. apply Hl in Hm. by subst s.
Qed.
End decided.

(** ** Properties *)

(** C35: evaluation is by layers and never falls through: the newest saved rule
    that fits decides (the id breaks ties, whatever the order the rules come
    in); only when none fits, the policy file's first rule that fits; only
    when none does, the default. *)
Theorem newest_rule_decides `{UnicodeLower, RegexLib, DateLib} p input saved now :
  decided_by p input saved now
    (fun r => forall r', r' ∈ saved -> saved_fits input now r' = true -> sort_key_le r r')
    (evaluate p input (sort_saved_rules saved) now).
Proof.
  pose proof (sort_saved_rules_perm saved) as Hp.
  eapply decided_by_perm; [exact Hp| |apply evaluate_decided]. cbv beta.
  intros r (pre & post & Es & Hpre) r' Hr' Hf'.
  assert (Hn : newest_first (pre ++ r :: post)) by (rewrite <- Es; apply sort_saved_rules_newest).
  apply newest_first_split in Hn. rewrite Forall_forall in Hn, Hpre.
  rewrite <- Hp, Es in Hr'. apply elem_of_app in Hr' as [Hr'|[->|Hr']%elem_of_cons].
  - apply Hpre in Hr'. congruence.
  - right. split; [done|lia].
  - auto.
Qed.

(** C4: a request for something sensitive goes anywhere but to a human only
    when a saved rule approves it that is enabled, not expired and saved for
    an authority that covers the request's; and when the resource is what
    makes it sensitive, the rule's resource is that very resource, not a
    pattern that happens to match. *)
Theorem sensitive_needs_pinned_rule `{UnicodeLower, RegexLib, DateLib} p request input saved zone now :
  let authority := i_authority input in
  is_auto (Route_action (rr_route (evaluate_and_route p request input saved zone now).2)) = true ->
  is_sensitive (sensitivity p) (i_resource input) authority = true ->
  exists r a, r ∈ saved /\ s_action r = AutoApprove /\ enabled r = true /\
    (forall e, expires_at r = Some e -> (now < e)%Z) /\
    s_platform r = platform authority /\ s_authority r = Some a /\
    rule_covers (Some a) authority = true /\
    (sensitive_by_resource (sensitivity p) (i_resource input) authority = true ->
     forall t, glob_matches (resource_glob (platform authority)
       (glob_source (resource_pattern r))) t = true <-> t = i_resource input).
Proof.
  intros authority Hauto Hs. pose proof (route_auto p request input saved zone now) as Hr.
  destruct (evaluate_and_route _ _ _ _ _ _) as [d r] eqn:Ed. cbn [snd] in Hauto.
  destruct (Hr Hauto) as [Hg Ha]. apply gate_auto_needs in Hg as (_ & _ & _ & Hsens & _).
  destruct (Hsens Hs) as [Hpin Hnames]. clear Hsens Hr.
  unfold evaluate_and_route in Ed. injection Ed as Ed _.
  pose proof (evaluate_decided p input saved now) as Hd. rewrite Ed in Hd. unfold decided_by in Hd.
  destruct (p_matched d).
  - destruct Hd as (r0 & Hin & _ & Hf & _ & ->). apply saved_fits_iff in Hf as (He & Hp & Hx & _ & Hc).
    cbn in Hpin, Ha. destruct (s_authority r0) as [a|] eqn:Ea; [|done].
    exists r0, a. split_and!; try done.
    + by destruct (s_action r0).
    + intros Hb. specialize (Hnames Hb). cbn in Hnames. rewrite Ea in Hnames.
      by apply same_resource_only.
  - destruct Hd as (_ & ? & _ & _ & _ & ->). done.
  - destruct Hd as (_ & _ & ->). done.
Qed.

(** C13: whatever the rules say, a request goes to a human (or is denied) when
    the zone check left a note, its authority is human-only, or a web
    connector is asking or delegating; what is cleared without a human, to
    mint or to review, is bound to this request and its own authority; and a
    privilege that must be named is cleared only by a rule that names it:
    either a saved rule that fits and is pinned to an authority that covers
    the request's, or a rule of the policy file that fits, is written for the
    request's platform, and whose capability pattern is the request's
    capability itself and matches nothing else. *)
Theorem auto_route_needs `{UnicodeLower, RegexLib, DateLib} p request input saved zone now :
  let authority := i_authority input in
  let '(d, r) := evaluate_and_route p request input saved zone now in
  is_auto (Route_action (rr_route r)) = true ->
  human_note zone = None /\ human_only authority = false /\
  is_web (i_agent input) = false /\ delegation_is_web (i_delegation input) = false /\
  (needs_explicit_rule authority = true ->
    (exists r a, r ∈ saved /\ saved_fits input now r = true /\ s_action r = AutoApprove /\
      s_platform r = platform authority /\ s_authority r = Some a /\
      rule_covers (Some a) authority = true) \/
    (exists r, r ∈ pol_rules p /\ rule_fits p input r = true /\
      is_auto (r_action r) = true /\ mt_platform (r_matches r) = Some (platform authority) /\
      glob_source (mt_capability (r_matches r)) = capability authority /\
      forall t, glob_matches (mt_capability (r_matches r)) t = true <-> t = capability authority)) /\
  match rr_route r with
  | RApprove c => ac_request c = request /\ ac_authority c = authority /\
      ac_source c = decision_source d
  | RLlm c => lc_request c = request /\ lc_authority c = authority
  | _ => False
  end.
Proof.
  cbv zeta. pose proof (route_auto p request input saved zone now) as Hr.
  destruct (evaluate_and_route _ _ _ _ _ _) as [d r] eqn:Ed. intros Hauto.
  destruct (Hr Hauto) as [Hg Ha]. apply gate_auto_needs in Hg as (Hz & Hh & Hw & _ & Hx).
  cbn in Hz, Hh, Hw, Hx. apply orb_false_iff in Hw as [? ?].
  destruct (human_note zone); [done|]. split_and!; try done.
  - intros Hn. specialize (Hx Hn). injection Ed as <- _.
    pose proof (evaluate_decided p input saved now) as Hd. unfold decided_by in Hd.
    destruct (p_matched _).
    + destruct Hd as (r0 & Hin & _ & Hf & _ & Ee). rewrite Ee in Hx, Ha. cbn in Hx, Ha.
      left. destruct (s_authority r0) as [a|] eqn:Eauth; [|done]. exists r0, a.
      pose proof Hf as (_ & Hp & _ & _ & Hc)%saved_fits_iff. rewrite Eauth in Hc.
      split_and!; try done. by destruct (s_action r0).
    + destruct Hd as (_ & r0 & Hr0 & Hf & _ & Ee). rewrite Ee in Hx, Ha. cbn in Hx, Ha. right.
      exists r0. destruct (rule_explicit_names _ _ _ Hf Hx) as (? & ? & ?).
      split_and!; try done. by eapply list_elem_of_lookup_2.
    + destruct Hd as (_ & _ & Ee). by rewrite Ee in Hx.
  - unfold evaluate_and_route in Ed. injection Ed as <- <-. unfold Policy_route in *.
    destruct (evaluate_sealed p input saved now) as (_ & _ & _ & Hsrc).
    destruct (proposed _ _) as [a s]. cbn [rr_route] in *. rewrite route_auto_inv in Hauto.
    by destruct (g_action _).
Qed.

(** C18: a delegated request is cleared without a human only by a rule written
    for its delegator: one whose delegator pattern matches the agent that
    delegates. A delegator that is gone clears nothing. *)
Theorem delegated_needs_delegator_rule `{UnicodeLower, RegexLib, DateLib} p request input saved
    zone now :
  is_auto (Route_action (rr_route (evaluate_and_route p request input saved zone now).2)) = true ->
  is_delegated (i_delegation input) = true ->
  exists d, i_delegation input = ByAgent d /\
    ((exists r g, r ∈ saved /\ saved_fits input now r = true /\ delegator_pattern r = Some g /\
        glob_matches g (a_name d) = true) \/
     (exists r pat, r ∈ pol_rules p /\ rule_fits p input r = true /\
        mt_delegator (r_matches r) = Some pat /\ pattern_matches pat d = true)).
Proof.
  intros Hauto Hdel. pose proof (route_auto p request input saved zone now) as Hr.
  destruct (evaluate_and_route _ _ _ _ _ _) as [d r] eqn:Ed. cbn [snd] in Hauto.
  destruct (Hr Hauto) as [_ Ha]. unfold evaluate_and_route in Ed. injection Ed as Ed _.
  pose proof (evaluate_decided p input saved now) as Hd. rewrite Ed in Hd. unfold decided_by in Hd.
  destruct (p_matched d).
  - destruct Hd as (r0 & Hin & _ & Hf & _ & ->).
    assert (Hact : s_action r0 = AutoApprove) by (cbn in Ha; by destruct (s_action r0)).
    destruct (saved_fits_delegated _ _ _ Hf Hact Hdel) as (g & d & ? & ? & ?). exists d. eauto 10.
  - destruct Hd as (_ & r0 & Hr0 & Hf & _ & ->).
    destruct (rule_fits_delegated _ _ _ Hf Ha Hdel) as (pat & d & ? & ? & ?). exists d.
    split; [done|]. right. exists r0, pat. split_and!; try done. by eapply list_elem_of_lookup_2.
  - destruct Hd as (_ & _ & ->). cbn in Ha. unfold default_action in Ha. rewrite Hdel in Ha.
    cbn [andb] in Ha.
    destruct (is_auto (d_action (pol_defaults p))) eqn:E; [done|]. by rewrite E in Ha.
Qed.

(** Routing trusts only what evaluation sealed in. A decision made for
    another authority or resource clears nothing (it surfaces, or denies if
    it denied); and no change to a decision's readable fields changes its
    route. *)
Theorem stale_decision_clears_nothing `{UnicodeLower, RegexLib, DateLib} p request input zone d :
  (Authority_eqb (sl_authority (p_sealed d)) (i_authority input) = false \/
     sl_resource (p_sealed d) <> i_resource input ->
   rr_route (Policy_route p request input d zone) =
     if bool_decide (sl_action (p_sealed d) = Deny) then RDeny else RSurface) /\
  (sl_action (p_sealed d) = Deny -> rr_route (Policy_route p request input d zone) = RDeny) /\
  (forall d', p_sealed d' = p_sealed d ->
     Policy_route p request input d' zone = Policy_route p request input d zone).
Proof.
  split_and!.
  - intros Hn. unfold Policy_route.
    assert (proposed input (p_sealed d) =
      ((if bool_decide (sl_action (p_sealed d) = Deny) then Deny else Surface), NO_STRENGTH)) as ->.
    { unfold proposed. destruct Hn as [-> | Hn]; cbn [andb].
      - by case_bool_decide.
      - unfold str_eqb. rewrite (bool_decide_false (sl_resource _ = _)) by done.
        rewrite andb_false_r. by case_bool_decide. }
    case_bool_decide; by rewrite gate_not_auto.
  - intros Hd. unfold Policy_route.
    destruct (proposed input (p_sealed d)) as [a s] eqn:E.
    assert (a = Deny) as ->.
    { unfold proposed in E. rewrite Hd in E. by destruct (_ && _); injection E as <- _. }
    by rewrite gate_not_auto.
  - intros d' Hs. unfold Policy_route. by rewrite Hs.
Qed.

(** Minting an agent that would stand inside a restricted zone is never
    cleared without a human: the zone check of such a request, then the
    policy, whatever its rules, end in a denial or in front of one. *)
Theorem mint_into_zone_surfaces `{UnicodeLower, RegexLib, DateLib} p request input saved zone now
    action runtime project daemon :
  pol_restricted p <> [] -> runtime <> [] ->
  let name := vm_name runtime project daemon in
  member_of p (vm_agent name runtime project daemon) <> [] ->
  i_authority input = AAgents action (Some runtime) -> i_resource input = name ->
  check p (i_agent input) (i_authority input) (i_resource input) (AgentsFacts (Some daemon)) = Ok zone ->
  is_auto (Route_action (rr_route (evaluate_and_route p request input saved zone now).2)) = false.
Proof.
  intros Hz Hr name Hm Ha Hres Hc. subst name. rewrite Ha, Hres in Hc.
  destruct (zone_mint_needs_human p (i_agent input) action runtime project daemon
    (AgentsFacts (Some daemon)) Hz Hr) as (note & Hc' & Hn).
  rewrite Hc' in Hc. injection Hc as <-. specialize (Hn eq_refl).
  apply not_true_iff_false. intros Hauto.
  pose proof (route_auto p request input saved (mkPassed note) now) as Hra.
  destruct (evaluate_and_route _ _ _ _ _ _) as [d r]. destruct (Hra Hauto) as [Hg _].
  apply gate_auto_needs in Hg as (Hzone & _). cbn in Hzone.
  destruct note; [done|]. by apply Hm, Hn.
Qed.

(** The length a request gets is the shortest of what it asked for, the
    default maximum and the rule's cap: never more than any, always one of
    them. *)
Theorem cap_duration_least requested default_max rule_max :
  let d := cap_duration requested default_max rule_max in
  (d <= requested)%Z /\ (d <= default_max)%Z /\ (forall m, rule_max = Some m -> (d <= m)%Z) /\
  (d = requested \/ d = default_max \/ rule_max = Some d).
Proof. unfold cap_duration. 
  destruct rule_max as [m|]; split_and!; try lia.
  - intros ? [= <-]. lia.
  - destruct (Z.min_spec (Z.min requested default_max) m) as [[_ ->]|[_ ->]]; [|by right; right].
    destruct (Z.min_spec requested default_max) as [[_ ->]|[_ ->]]; auto.
  - done.
Qed.

(** *** A sensitive namespace, its rule and its requests *)

Module SampleRequest.
#[local] Existing Instance ascii_only_lower.
#[local] Existing Instance SamplePolicy.regex.
#[local] Existing Instance TextCalendar.calendar.
Definition authority : Authority := AKubernetes (mkKubernetes (lit "view") false).
Definition requester : AgentRef := AgentRef_named (lit "claude-app").
Definition peer : AgentRef := AgentRef_named (lit "codex-app").
Definition input : PolicyInput := mkInput requester NotDelegated (lit "kube-system") authority.
Definition delegated : PolicyInput :=
  mkInput requester (ByAgent peer) (lit "kube-system") authority.
Definition rule : SavedRule :=
  mkSaved 7 AutoApprove (Glob_new (lit "claude-*")) None Kubernetes (Glob_new (lit "kube-system"))
  (Some authority) (Some 60%Z) true [] (Some 100%Z) 1.
Definition delegated_rule : SavedRule :=
  mkSaved 8 AutoApprove (Glob_new (lit "claude-*")) (Some (Glob_new (lit "codex-*"))) Kubernetes
  (Glob_new (lit "kube-system")) (Some authority) None true [] None 2.
Definition zone : ZonePassed := mkPassed None.
Definition mint : PolicyInput :=
  mkInput requester NotDelegated (lit "claude-soc-galaxy-sandbox")
  (AAgents (lit "mint") (Some (lit "claude"))).
Definition mint_zone : ZonePassed :=
  mkPassed (Some (lit "mints an agent inside restricted zone soc: always a human")).
End SampleRequest.

Lemma sensitive_needs_pinned_rule_witness :
  exists r a, r ∈ [SampleRequest.delegated_rule; SampleRequest.rule] /\ s_authority r = Some a /\
    s_action r = AutoApprove.
Proof.
  destruct (@sensitive_needs_pinned_rule ascii_only_lower SamplePolicy.regex TextCalendar.calendar
    SamplePolicy.policy 5 SampleRequest.input [SampleRequest.delegated_rule; SampleRequest.rule]
    SampleRequest.zone 50%Z) as (r & a & Hin & Hact & _ & _ & _ & Ha & _).
  - vm_compute. reflexivity.
  - vm_compute. reflexivity.
  - exists r, a. exact (conj Hin (conj Ha Hact)).
Defined.

Lemma auto_route_needs_witness :
  human_note SampleRequest.zone = None /\ human_only SampleRequest.authority = false.
Proof.
  destruct (@auto_route_needs ascii_only_lower SamplePolicy.regex TextCalendar.calendar
    SamplePolicy.policy 5 SampleRequest.input [SampleRequest.rule] SampleRequest.zone 50%Z)
    as (Hz & Hh & _).
  - vm_compute. reflexivity.
  - exact (conj Hz Hh).
Defined.

Lemma delegated_needs_delegator_rule_witness :
  exists d, i_delegation SampleRequest.delegated = ByAgent d.
Proof.
  destruct (@delegated_needs_delegator_rule ascii_only_lower SamplePolicy.regex
    TextCalendar.calendar SamplePolicy.policy 5 SampleRequest.delegated
    [SampleRequest.rule; SampleRequest.delegated_rule] SampleRequest.zone 50%Z) as (d & Hd & _).
  - vm_compute. reflexivity.
  - reflexivity.
  - exists d. exact Hd.
Defined.

Lemma stale_decision_clears_nothing_witness :
  let d := @evaluate ascii_only_lower SamplePolicy.regex TextCalendar.calendar SamplePolicy.policy
    SampleRequest.input [SampleRequest.rule] 50%Z in
  rr_route (@Policy_route ascii_only_lower SamplePolicy.regex TextCalendar.calendar
    SamplePolicy.policy 5 SampleRequest.mint d SampleRequest.zone) = RSurface.
Proof.
  cbv zeta. etransitivity.
  - apply (proj1 (@stale_decision_clears_nothing ascii_only_lower SamplePolicy.regex
      TextCalendar.calendar SamplePolicy.policy 5 SampleRequest.mint SampleRequest.zone
      (@evaluate ascii_only_lower SamplePolicy.regex TextCalendar.calendar SamplePolicy.policy
        SampleRequest.input [SampleRequest.rule] 50%Z))).
    left. vm_compute. reflexivity.
  - vm_compute. reflexivity.
Defined.

Lemma mint_into_zone_surfaces_witness :
  is_auto (Route_action (rr_route (@evaluate_and_route ascii_only_lower SamplePolicy.regex
    TextCalendar.calendar SamplePolicy.policy 5 SampleRequest.mint [] SampleRequest.mint_zone
    0%Z).2)) = false.
Proof.
  apply (@mint_into_zone_surfaces ascii_only_lower SamplePolicy.regex TextCalendar.calendar
    SamplePolicy.policy 5 SampleRequest.mint [] SampleRequest.mint_zone 0%Z (lit "mint")
    (lit "claude") (lit "soc") (lit "galaxy"));
    vm_compute; first [reflexivity | discriminate].
Defined.
