(* ===== verification/HostTypes.v ===== *)
(** The words of the host daemon's core ([crates/core/src/hostd/mod.rs]) and a
    host's own policy ([hostd/policy.rs]). A time is its milliseconds, a
    64-bit number; a digest its hexadecimal text. *)

From S2P Require Import Prelude Json Glob Pyfmt Lifecycle Names Durations Pool Mail Authority Hostexec.
From stdpp Require Import options.

(** ** 64-bit arithmetic that saturates *)

Definition MAX_U64 : N := 2 ^ 64 - 1.
Definition MAX_U32 : N := 2 ^ 32 - 1.
Definition sat_add (max a b : N) : N := N.min max (a + b).
Definition sat_mul (max a b : N) : N := N.min max (a * b).

(** ** Times, locks, ids *)

Abbreviation Refused := (list N) (only parsing).
Abbreviation UnixMillis := N (only parsing).

Definition plus_secs (t : UnixMillis) (secs : N) : UnixMillis :=
  sat_add MAX_U64 t (sat_mul MAX_U64 secs 1000).

Inductive LockState := Unlocked | HostLocked.
Definition is_locked (l : LockState) : bool :=
  match l with HostLocked => true | Unlocked => false end.

Definition hex_lower (b : char) : bool := is_ascii_digit b || in_range (ch "a") (ch "f") b.

Definition LocalId_parse (s : str) : result Refused str :=
  if Nat.leb 8 (str_len s) && Nat.leb (str_len s) 64
     && forallb (fun b => hex_lower b || N.eqb b (ch "-")) s
  then Ok s else Err (lit "malformed job id").

Definition LocalId_from_value (v : option Value) : result Refused str :=
  match v with
  | Some (VString s) => LocalId_parse s
  | _ => Err (lit "malformed job id")
  end.

Definition SpecDigest_parse (s : str) : result Refused str :=
  if Nat.eqb (str_len s) 64 && forallb hex_lower s then Ok s else Err (lit "malformed digest").

(** ** Sources and what a job is admitted on *)

Inductive Source := SHuman | SRule | SLlm | SPolicy | SDesk.
#[export] Instance Source_eq_dec : EqDecision Source.
Proof. solve_decision. Defined.

Definition Source_parse (s : str) : option Source :=
  if str_eqb s (lit "human") then Some SHuman
  else if str_eqb s (lit "rule") then Some SRule
  else if str_eqb s (lit "llm") then Some SLlm
  else if str_eqb s (lit "policy") then Some SPolicy
  else None.
Definition Source_as_str (s : Source) : str :=
  match s with
  | SHuman => lit "human" | SRule => lit "rule" | SLlm => lit "llm" | SPolicy => lit "policy"
  | SDesk => lit "desk"
  end.

Definition Source_from_evidence (source decided_by : option str) : option Source :=
  if match decided_by with
     | Some d => negb (is_none (strip_prefix (lit "desktop:") d)) | None => false end
  then Some SDesk
  else match source with Some s => Source_parse s | None => None end.

Definition Source_from_value (v : option Value) : option Source :=
  match v with
  | Some v => match as_str v with Some s => Source_parse s | None => None end
  | None => None
  end.

Inductive Via :=
| ViaTotp | ViaDesk | ViaAuto | ArmedWindow | ArmedHuman | ArmedRule | ArmedLlm | ArmedPolicy
| ViaShell.
#[export] Instance Via_eq_dec : EqDecision Via.
Proof. solve_decision. Defined.

Definition Via_as_str (v : Via) : str :=
  match v with
  | ViaTotp => lit "totp" | ViaDesk => lit "desk" | ViaAuto => lit "auto"
  | ArmedWindow => lit "armed+window" | ArmedHuman => lit "armed+human"
  | ArmedRule => lit "armed+rule" | ArmedLlm => lit "armed+llm"
  | ArmedPolicy => lit "armed+policy" | ViaShell => lit "shell"
  end.
Definition is_armed (v : Via) : bool :=
  match v with
  | ArmedWindow | ArmedHuman | ArmedRule | ArmedLlm | ArmedPolicy => true
  | _ => false
  end.

(** [repr_value]; another JSON value is written by [serde_json]. *)
Class JsonText := { json_text : Value -> str }.
Definition repr_value `{JsonText} (v : option Value) : str :=
  match v with
  | None | Some VNull => lit "None"
  | Some (VString s) => repr s
  | Some (VBool true) => lit "True"
  | Some (VBool false) => lit "False"
  | Some other => json_text other
  end.

(** ** A host's policy *)

Record TierPolicy := mkTierPolicy {
  enable : bool;
  max_arm_secs : N;
  accept_approve_all : bool;
  accept_machine_approvals : bool;
  shell_enable : bool;
  shell_max_duration_secs : N;
}.
Definition TierPolicy_default : TierPolicy := mkTierPolicy false 3600 false false false 1800.

Record HostPolicy `{RegexLib} := mkHostPolicy {
  host_name : str;
  hp_user : TierPolicy;
  hp_root : TierPolicy;
  auto_commands : list (list str);
  deny_commands : list (list str);
  host_templates : list (str * Template);
  env_allow : list str;
  default_timeout_secs : N;
  max_timeout_secs : N;
  desk_approve_user : bool;
  desk_approve_root : bool;
}.

Section policy.
Context `{RegexLib}.

Definition HostPolicy_connect_only (name : str) : HostPolicy :=
  mkHostPolicy _ name TierPolicy_default TierPolicy_default [] [] []
  (set_of_list [lit "LANG"; lit "LC_ALL"; lit "TZ"; lit "TERM"]) 600 3600 false false.

Definition tier_policy (p : HostPolicy) (t : Tier) : TierPolicy :=
  match t with User => hp_user p | Root => hp_root p end.

Definition desk_approves (p : HostPolicy) (t : Tier) : bool :=
  match t with User => desk_approve_user p | Root => desk_approve_root p end.

Definition any_tier_enabled (p : HostPolicy) : bool := enable (hp_user p) || enable (hp_root p).
End policy.

(** ** Lemmas *)

Lemma sat_add_le m a b : (sat_add m a b <= a + b)%N.
Proof. unfold sat_add. lia. Qed.
Lemma plus_secs_le t s : (plus_secs t s <= t + s * 1000)%N.
Proof. unfold plus_secs, sat_add, sat_mul. lia. Qed.
Lemma plus_secs_mono t s s' : (s <= s')%N -> (plus_secs t s <= plus_secs t s')%N.
Proof. intros. unfold plus_secs, sat_add, sat_mul. nia. Qed.
