(* ===== verification/Totp.v ===== *)
(** How a host counts TOTP codes ([crates/core/src/hostd/totp.rs]): single
    use, escalating lockouts, a hard lock. Times are Unix seconds, 64-bit
    numbers; the code itself is compared by the caller. *)

From S2P Require Import Prelude Json Glob Pyfmt Lifecycle Names Durations Pool Mail Authority Hostexec HostTypes.
From stdpp Require Import options.
From Stdlib Require Import Sorting.Sorted.

Definition MAX_FAILURES : N := 5.
Definition BASE_LOCKOUT_SECS : N := 300.
Definition MAX_LOCKOUT_SHIFT : N := 8.
Definition HARD_LOCK_FAILURES : nat := 20.
Definition FAILURE_WINDOW_SECS : N := 30 * 86400.
Definition STEP_SECS : N := 30.
Definition WINDOW_STEPS : N := 1.

(** ** The secrets *)

Inductive Purpose := PurposeArm | PurposeDirect | PurposeShell | PurposeUnlock.
#[export] Instance Purpose_eq_dec : EqDecision Purpose.
Proof. solve_decision. Defined.

Record SecretName := mkSecret { sn_tier : Tier; sn_purpose : Purpose }.
#[export] Instance SecretName_eq_dec : EqDecision SecretName.
Proof. solve_decision. Defined.

Definition SecretName_ALL : list SecretName :=
  [mkSecret User PurposeArm; mkSecret User PurposeDirect; mkSecret Root PurposeArm;
   mkSecret Root PurposeDirect].
Definition SecretName_OPTIONAL : list SecretName :=
  [mkSecret User PurposeShell; mkSecret Root PurposeShell; mkSecret Root PurposeUnlock].
Definition SecretName_every : list SecretName := SecretName_ALL ++ SecretName_OPTIONAL.

Definition SecretName_as_str (n : SecretName) : str :=
  match sn_tier n, sn_purpose n with
  | User, PurposeArm => lit "user-arm"
  | User, PurposeDirect => lit "user-direct"
  | Root, PurposeArm => lit "root-arm"
  | Root, PurposeDirect => lit "root-direct"
  | User, PurposeShell => lit "user-shell"
  | Root, PurposeShell => lit "root-shell"
  | User, PurposeUnlock => lit "user-unlock"
  | Root, PurposeUnlock => lit "root-unlock"
  end.
Definition SecretName_parse (s : str) : option SecretName :=
  find (fun n => str_eqb (SecretName_as_str n) s) SecretName_every.

(** ** The persisted state *)

Record TotpState := mkTotp {
  last_step : option N;
  failures : N;
  lockouts : N;
  locked_until : option N;
  recent_failures : list N;
  hard_locked : bool;
}.
Definition TotpState_default : TotpState := mkTotp None 0 0 None [] false.

(** A finite [f64]'s value rounded up, when it is not negative. *)
Definition f64_ceil (bits : N) : N :=
  (let ex := (bits / 2 ^ 52) mod 2 ^ 11 in
   let fr := bits mod 2 ^ 52 in
   let '(m, e) := if ex =? 0 then (fr, (-1074)%Z) else (fr + 2 ^ 52, (Z.of_N ex - 1075)%Z) in
   if (0 <=? e)%Z then m * 2 ^ Z.to_N e
   else let d := 2 ^ Z.to_N (- e) in (m + d - 1) / d)%N.

Definition float_secs (bits : N) : N :=
  let n := f64_ceil bits in
  if N.leb 18000000000000000000 n then MAX_U64 else n.

(** The closure [uint] of [from_json]: [None] is a malformed state. *)
Definition uint (map : list (str * Value)) (k : str) : option (option N) :=
  match map_get k map with
  | None | Some VNull => Some None
  | Some (VNumber n) =>
      match Number_as_u64 n with
      | Some u => Some (Some u)
      | None =>
          match Number_as_i64 n with
          | Some i => if Z.ltb i 0 then Some None else None
          | None =>
              match n with
              | Float bits =>
                  if f64_negative bits && negb (float_is_zero bits) then None
                  else Some (Some (float_secs bits))
              | _ => None
              end
          end
      end
  | Some _ => None
  end.

(** A counter's value: absent is 0, too large is the largest. *)
Definition counter (o : option N) : N :=
  match o with
  | None => 0
  | Some f => if N.leb f MAX_U32 then f else MAX_U32
  end.

Definition TotpState_from_json (v : Value) : option TotpState :=
  match v with
  | VObject map =>
      last ← uint map (lit "last_step");
      failures ← uint map (lit "failures");
      lockouts ← uint map (lit "lockouts");
      until ← uint map (lit "locked_until");
      recent ← match map_get (lit "recent_failures") map with
               | None | Some VNull => Some []
               | Some (VArray items) => mapM as_u64 (take HARD_LOCK_FAILURES items)
               | Some _ => None
               end;
      hard ← match map_get (lit "hard_locked") map with
             | None | Some VNull => Some false
             | Some (VBool b) => Some b
             | Some _ => None
             end;
      Some (mkTotp last (counter failures) (counter lockouts) until recent hard)
  | _ => None
  end.

Definition json_N (n : N) : Value := VNumber (PosInt n).
Definition json_opt_N (o : option N) : Value :=
  match o with Some n => json_N n | None => VNull end.

Definition TotpState_to_json (s : TotpState) : Value :=
  let map := map_insert (lit "last_step") (json_opt_N (last_step s)) [] in
  let map := map_insert (lit "failures") (json_N (failures s)) map in
  let map := map_insert (lit "lockouts") (json_N (lockouts s)) map in
  let map := map_insert (lit "locked_until") (json_opt_N (locked_until s)) map in
  let map := map_insert (lit "recent_failures")
               (VArray (List.map json_N (recent_failures s))) map in
  VObject (map_insert (lit "hard_locked") (VBool (hard_locked s)) map).

Definition clear_lock (s : TotpState) : TotpState := mkTotp (last_step s) 0 0 None [] false.

(** ** Verifying a code *)

Inductive TotpRefusal :=
| HardLocked (name : SecretName)
| Locked (name : SecretName) (secs : N)
| WrongCode
| AlreadyUsed.

Definition lock_reason (s : TotpState) (name : SecretName) (now_secs : N) : option TotpRefusal :=
  if hard_locked s then Some (HardLocked name)
  else match locked_until s with
  | Some until => if N.ltb now_secs until then Some (Locked name (until - now_secs)) else None
  | None => None
  end.

Record AcceptedCode := mkAccepted { code_name : SecretName; code_step : N }.
Record Attempt := mkAttempt { at_name : SecretName; at_now : N }.

Definition begin (s : TotpState) (name : SecretName) (now_secs : N) : result TotpRefusal Attempt :=
  match lock_reason s name now_secs with
  | Some refusal => Err refusal
  | None => Ok (mkAttempt name now_secs)
  end.

Definition lockout_secs (n : N) : N :=
  N.shiftl BASE_LOCKOUT_SECS (N.min (n - 1) MAX_LOCKOUT_SHIFT).

Definition window (a : Attempt) : N * N :=
  let current := (at_now a / STEP_SECS)%N in
  ((current - WINDOW_STEPS)%N, sat_add MAX_U64 current WINDOW_STEPS).

(** [now.saturating_sub(FAILURE_WINDOW_SECS)]. *)
Definition horizon (now : N) : N := now - FAILURE_WINDOW_SECS.

Definition fail (a : Attempt) (s : TotpState) : TotpState :=
  let now := at_now a in
  let recent := List.filter (fun t => N.ltb (horizon now) t) (recent_failures s) ++ [now] in
  let recent := drop (length recent - HARD_LOCK_FAILURES) recent in
  let failures := sat_add MAX_U32 (failures s) 1 in
  let hard := hard_locked s || Nat.leb HARD_LOCK_FAILURES (length recent) in
  if N.leb MAX_FAILURES failures then
    let lockouts := sat_add MAX_U32 (lockouts s) 1 in
    mkTotp (last_step s) 0 lockouts (Some (sat_add MAX_U64 now (lockout_secs lockouts))) recent hard
  else mkTotp (last_step s) failures (lockouts s) (locked_until s) recent hard.

Definition conclude (a : Attempt) (s : TotpState) (matched : option N)
    : result TotpRefusal AcceptedCode * TotpState :=
  let '(first, last) := window a in
  let matched := match matched with
                 | Some m => if N.leb first m && N.leb m last then Some m else None
                 | None => None
                 end in
  match matched with
  | None => (Err WrongCode, fail a s)
  | Some step =>
      if match last_step s with Some l => N.leb step l | None => false end
      then (Err AlreadyUsed, s)
      else (Ok (mkAccepted (at_name a) step),
            mkTotp (Some step) 0 0 None (recent_failures s) (hard_locked s))
  end.

(** ** A secret's life: codes tried, locks cleared by root *)

Inductive Event := Try (now : N) (matched : option N) | Clear.

Definition try_code (s : TotpState) (name : SecretName) (now : N) (matched : option N)
    : result TotpRefusal AcceptedCode * TotpState :=
  match begin s name now with
  | Err refusal => (Err refusal, s)
  | Ok a => conclude a s matched
  end.

Fixpoint life (name : SecretName) (s : TotpState) (events : list Event)
    : list (N * result TotpRefusal AcceptedCode) * TotpState :=
  match events with
  | [] => ([], s)
  | Clear :: events' => life name (clear_lock s) events'
  | Try now matched :: events' =>
      let '(outcome, s') := try_code s name now matched in
      let '(log, s'') := life name s' events' in
      ((now, outcome) :: log, s'')
  end.

(** The steps accepted, and the times of the wrong codes evaluated. *)
Definition accepted_steps (log : list (N * result TotpRefusal AcceptedCode)) : list N :=
  omap (fun e : N * result TotpRefusal AcceptedCode =>
          match e.2 with Ok c => Some (code_step c) | Err _ => None end) log.
Definition wrong_times (log : list (N * result TotpRefusal AcceptedCode)) : list N :=
  omap (fun e : N * result TotpRefusal AcceptedCode =>
          match e.2 with Err WrongCode => Some e.1 | _ => None end) log.

(** ** Lemmas *)

Lemma conclude_cases a s matched :
  let '(outcome, s') := conclude a s matched in
  (outcome = Err WrongCode /\ s' = fail a s) \/
  (outcome = Err AlreadyUsed /\ s' = s) \/
  (exists step, outcome = Ok (mkAccepted (at_name a) step) /\ matched = Some step /\
     (fst (window a) <= step)%N /\ (step <= snd (window a))%N /\
     (forall l, last_step s = Some l -> (l < step)%N) /\
     s' = mkTotp (Some step) 0 0 None (recent_failures s) (hard_locked s)).
Proof.
  unfold conclude. destruct (window a) as [first last] eqn:Ew. cbn [fst snd].
  destruct matched as [m|]; [|by left].
  destruct (N.leb first m && N.leb m last) eqn:E; [|by left].
  apply andb_true_iff in E as [E1%N.leb_le E2%N.leb_le].
  destruct (last_step s) as [l|] eqn:El.
  - destruct (N.leb_spec m l); [by right; left|]. right. right. exists m. split_and!; try done.
    intros ? [= <-]. done.
  - right. right. exists m. by split_and!.
Qed.

Lemma try_code_cases s name now matched :
  let '(outcome, s') := try_code s name now matched in
  (exists r, outcome = Err r /\ r <> WrongCode /\ s' = s) \/
  (outcome = Err WrongCode /\ s' = fail (mkAttempt name now) s /\ lock_reason s name now = None) \/
  (exists step, outcome = Ok (mkAccepted name step) /\
     (forall l, last_step s = Some l -> (l < step)%N) /\ lock_reason s name now = None /\
     s' = mkTotp (Some step) 0 0 None (recent_failures s) (hard_locked s)).
Proof.
  unfold try_code, begin. destruct (lock_reason s name now) as [r|] eqn:E.
  - left. exists r. split_and!; [done| |done]. unfold lock_reason in E.
    destruct (hard_locked s); [by injection E as <-|]. by cases.
  - pose proof (conclude_cases (mkAttempt name now) s matched) as Hc.
    destruct (conclude _ s matched) as [o s']. destruct Hc as [[-> ->]|[[-> ->]|(step & -> & _ & _ & _ & Hl & ->)]].
    + right. left. done.
    + left. by exists AlreadyUsed.
    + right. right. by exists step.
Qed.

Lemma fail_last a s : last_step (fail a s) = last_step s.
Proof. unfold fail. cbv zeta. by destruct (N.leb _ _). Qed.

Lemma fail_recent a s :
  recent_failures (fail a s) =
    let recent := List.filter (fun t => N.ltb (horizon (at_now a)) t) (recent_failures s) ++ [at_now a] in
    drop (length recent - HARD_LOCK_FAILURES) recent.
Proof. unfold fail. cbv zeta. by destruct (N.leb _ _). Qed.

Lemma fail_hard a s :
  hard_locked (fail a s) = hard_locked s || Nat.leb HARD_LOCK_FAILURES (length (recent_failures (fail a s))).
Proof. rewrite fail_recent. unfold fail. cbv zeta. by destruct (N.leb _ _). Qed.

(** *** Single use *)

Definition above (bound : option N) (steps : list N) : Prop :=
  match bound with
  | None => True
  | Some b => Forall (fun s => (b < s)%N) steps
  end.

Lemma above_weaken (a b : option N) steps :
  (forall x, a = Some x -> exists y, b = Some y /\ (x <= y)%N) -> above b steps -> above a steps.
Proof.
  destruct a as [x|]; [|done]. intros Hab. destruct (Hab x eq_refl) as (y & -> & Hle). cbn.
  intros Hs. eapply Forall_impl; [exact Hs|]. cbn. lia.
Qed.

Lemma life_steps name s events :
  StronglySorted N.lt (accepted_steps (life name s events).1) /\
  above (last_step s) (accepted_steps (life name s events).1).
Proof.
  revert s; induction events as [|[now matched|] events IH]; intros s; cbn [life].
  - split; [constructor|]. by destruct (last_step s); constructor.
  - pose proof (try_code_cases s name now matched) as Hc.
    destruct (try_code s name now matched) as [o s'].
    destruct (IH s') as [Hs Ha]. destruct (life name s' events) as [log s''] eqn:El. cbn [fst] in *.
    destruct Hc as [(r & -> & _ & ->)|[(-> & -> & _)|(step & -> & Hl & _ & ->)]]; cbn.
    + done.
    + by rewrite fail_last in Ha.
    + cbn in Ha. split; [by constructor|]. destruct (last_step s) as [l|]; [|done].
      specialize (Hl l eq_refl). constructor; [done|]. eapply Forall_impl; [exact Ha|]. cbn. lia.
  - destruct (IH (clear_lock s)) as [Hs Ha]. by split.
Qed.

(** *** The hard lock *)

Definition in_window (T t : N) : bool := N.ltb (horizon T) t && N.leb t T.
Definition count_in (T : N) (times : list N) : nat := length (List.filter (in_window T) times).

(** Tries one after the other, at times that do not go back. *)
Fixpoint tries_from (t0 : N) (events : list Event) : Prop :=
  match events with
  | [] => True
  | Try now _ :: events' => (t0 <= now)%N /\ tries_from now events'
  | Clear :: _ => False
  end.

(** What the state remembers of the wrong codes [ws] so far, the last of
    them no later than [t]. *)
Record remembers (s : TotpState) (ws : list N) (t : N) : Prop := {
  rm_before : Forall (fun x => (x <= t)%N) ws;
  rm_bound : forall T, count_in T ws <= HARD_LOCK_FAILURES;
  rm_recent : hard_locked s = false ->
    length (recent_failures s) < HARD_LOCK_FAILURES /\
    forall h, (horizon t <= h)%N ->
      List.filter (fun x => N.ltb h x) (recent_failures s) = List.filter (fun x => N.ltb h x) ws;
}.

Lemma horizon_mono a b : (a <= b)%N -> (horizon a <= horizon b)%N.
Proof. unfold horizon. lia. Qed.

Lemma filter_filter_lt h h' (l : list N) :
  (h <= h')%N ->
  List.filter (fun x => N.ltb h' x) (List.filter (fun x => N.ltb h x) l) =
  List.filter (fun x => N.ltb h' x) l.
Proof.
  intros Hh. induction l as [|x l IH]; cbn; [done|].
  destruct (N.ltb_spec h x), (N.ltb_spec h' x); cbn; rewrite ?IH; try done.
  - destruct (N.ltb_spec h' x); [done|lia].
  - destruct (N.ltb_spec h' x); [lia|done].
  - lia.
Qed.

Lemma count_in_app T a b : count_in T (a ++ b) = count_in T a + count_in T b.
Proof. unfold count_in. by rewrite List.filter_app, length_app. Qed.

Lemma count_in_le T ws :
  count_in T ws <= length (List.filter (fun x => N.ltb (horizon T) x) ws).
Proof.
  unfold count_in, in_window. induction ws as [|x ws IH]; cbn; [done|].
  destruct (N.ltb (horizon T) x); cbn; [destruct (N.leb x T); cbn; lia|done].
Qed.

Lemma remembers_later s ws t t' : (t <= t')%N -> remembers s ws t -> remembers s ws t'.
Proof.
  intros Ht [Hb Hc Hr]. split; [|done|].
  - eapply Forall_impl; [exact Hb|]. cbn. lia.
  - intros Hh. destruct (Hr Hh) as [Hl Hf]. split; [done|]. intros h Hhh. apply Hf.
    pose proof (horizon_mono t t' Ht). lia.
Qed.

Lemma filter_lt_length h h' (l : list N) :
  (h <= h')%N ->
  length (List.filter (fun x => N.ltb h' x) l) <= length (List.filter (fun x => N.ltb h x) l).
Proof.
  intros Hh. rewrite <- (filter_filter_lt h h') by done. apply List.filter_length_le.
Qed.

Lemma remembers_fail name s ws t now :
  hard_locked s = false -> (t <= now)%N -> remembers s ws t ->
  remembers (fail (mkAttempt name now) s) (ws ++ [now]) now.
Proof.
  intros Hh Ht Hrem. pose proof (remembers_later _ _ _ now Ht Hrem) as [Hb Hc Hr].
  destruct (Hr Hh) as [Hl Hf].
  set (kept := List.filter (fun x => N.ltb (horizon now) x) (recent_failures s)).
  assert (Hk : length kept < HARD_LOCK_FAILURES).
  { pose proof (List.filter_length_le (fun x => N.ltb (horizon now) x) (recent_failures s)).
    unfold kept. lia. }
  assert (Hrec : recent_failures (fail (mkAttempt name now) s) = kept ++ [now]).
  { rewrite fail_recent. cbn [at_now]. cbv zeta. fold kept. rewrite length_app. cbn [length].
    replace (length kept + 1 - HARD_LOCK_FAILURES) with 0 by lia. done. }
  split.
  - apply Forall_app. split; [done|]. by repeat constructor.
  - intros T. rewrite count_in_app. destruct (N.le_gt_cases now T) as [HT|HT].
    + assert (count_in T [now] <= 1) by (unfold count_in; cbn; destruct (in_window T now); cbn; lia).
      pose proof (count_in_le T ws).
      pose proof (filter_lt_length _ _ ws (horizon_mono now T HT)) as Hm.
      rewrite <- (Hf (horizon now)) in Hm by done. fold kept in Hm. lia.
    + assert (count_in T [now] = 0) as ->; [|specialize (Hc T); lia].
      unfold count_in, in_window. cbn. destruct (N.leb_spec now T); [lia|]. by rewrite andb_false_r.
  - intros Hh'. rewrite fail_hard, Hh in Hh'. cbn [orb] in Hh'. apply Nat.leb_gt in Hh'.
    split; [done|]. intros h Hhh. rewrite Hrec. unfold kept.
    rewrite !List.filter_app, filter_filter_lt by done. by rewrite Hf.
Qed.

Lemma remembers_accept s ws t step :
  remembers s ws t ->
  remembers (mkTotp (Some step) 0 0 None (recent_failures s) (hard_locked s)) ws t.
Proof. by intros [Hb Hc Hr]. Qed.

Lemma life_remembers name events s ws t :
  tries_from t events -> remembers s ws t ->
  forall T, count_in T (ws ++ wrong_times (life name s events).1) <= HARD_LOCK_FAILURES.
Proof.
  revert s ws t; induction events as [|[now matched|] events IH]; intros s ws t Ht Hrem T;
    cbn [life]; [cbn; rewrite app_nil_r; apply Hrem| |done].
  destruct Ht as [Ht Hts]. pose proof (try_code_cases s name now matched) as Hc.
  destruct (try_code s name now matched) as [o s'].
  destruct (life name s' events) as [log s''] eqn:El.
  assert (Elog : wrong_times log = wrong_times (life name s' events).1) by by rewrite El.
  clear El. cbn [fst].
  destruct Hc as [(r & -> & Hr & ->)|[(-> & -> & Hlock)|(step & -> & _ & _ & ->)]].
  - assert (wrong_times ((now, Err r) :: log) = wrong_times log) as -> by by destruct r.
    rewrite Elog. eapply IH; [exact Hts|]. by eapply remembers_later.
  - change (wrong_times ((now, Err WrongCode) :: log)) with ([now] ++ wrong_times log).
    rewrite Elog, (app_assoc ws [now]). eapply IH; [exact Hts|].
    apply (remembers_fail _ _ _ t); [|done|done].
    unfold lock_reason in Hlock. by destruct (hard_locked s).
  - change (wrong_times ((now, Ok (mkAccepted name step)) :: log)) with (wrong_times log).
    rewrite Elog. eapply IH; [exact Hts|]. apply remembers_accept. by eapply remembers_later.
Qed.

(** *** Lockouts *)

Lemma lockout_secs_pow n : lockout_secs n = (300 * 2 ^ N.min (n - 1) 8)%N.
Proof. unfold lockout_secs. by rewrite N.shiftl_mul_pow2. Qed.

Lemma lockout_secs_bounds n : (300 <= lockout_secs n /\ lockout_secs n <= 76800)%N.
Proof.
  rewrite lockout_secs_pow.
  assert (H0 : (2 ^ 0 <= 2 ^ N.min (n - 1) 8)%N) by (apply N.pow_le_mono_r; lia).
  assert (H8 : (2 ^ N.min (n - 1) 8 <= 2 ^ 8)%N) by (apply N.pow_le_mono_r; lia).
  change (2 ^ 0)%N with 1%N in H0. change (2 ^ 8)%N with 256%N in H8. lia.
Qed.

Lemma lockout_secs_double n :
  (1 <= n)%N -> lockout_secs (n + 1) = if N.ltb n 9 then (2 * lockout_secs n)%N else lockout_secs n.
Proof.
  intros Hn. rewrite !lockout_secs_pow. destruct (N.ltb_spec n 9).
  - replace (N.min (n + 1 - 1) 8) with (N.succ (N.min (n - 1) 8)) by lia.
    rewrite N.pow_succ_r'. lia.
  - by replace (N.min (n + 1 - 1) 8) with (N.min (n - 1) 8) by lia.
Qed.

(** *** The stored form *)

Lemma mapM_json_N l : mapM as_u64 (List.map json_N l) = Some l.
Proof. induction l as [|x l IH]; [done|]. cbn in *. by rewrite IH. Qed.

Lemma counter_small n : (n <= MAX_U32)%N -> counter (Some n) = n.
Proof. intros Hn. unfold counter. by rewrite (proj2 (N.leb_le _ _)). Qed.

Lemma TotpState_roundtrip s :
  (failures s <= MAX_U32)%N -> (lockouts s <= MAX_U32)%N ->
  length (recent_failures s) <= HARD_LOCK_FAILURES ->
  TotpState_from_json (TotpState_to_json s) = Some s.
Proof.
  intros Hf Hl Hr. destruct s as [last f l until recent hard]. cbn in Hf, Hl, Hr.
  unfold TotpState_from_json, TotpState_to_json. cbv zeta.
  cbn [last_step failures lockouts locked_until recent_failures hard_locked].
  set (m := map_insert _ (VBool hard) _).
  assert (E1 : uint m (lit "last_step") = Some last) by by destruct last.
  assert (E2 : uint m (lit "failures") = Some (Some f)) by done.
  assert (E3 : uint m (lit "lockouts") = Some (Some l)) by done.
  assert (E4 : uint m (lit "locked_until") = Some until) by by destruct until.
  assert (E5 : map_get (lit "recent_failures") m = Some (VArray (List.map json_N recent))) by done.
  assert (E6 : map_get (lit "hard_locked") m = Some (VBool hard)) by done.
  rewrite E1. cbn [mbind option_bind]. rewrite E2. cbn [mbind option_bind]. rewrite E3.
  cbn [mbind option_bind]. rewrite E4. cbn [mbind option_bind]. rewrite E5, E6.
  rewrite take_ge by (by rewrite length_map). rewrite mapM_json_N.
  cbn [mbind option_bind]. by rewrite !counter_small.
Qed.

(** ** Properties *)

(** A code is good once: whatever codes are tried and whenever root
    clears the locks, the steps a secret accepts only go up, from the last
    one its state remembers. *)
Theorem totp_single_use name s events :
  let steps := accepted_steps (life name s events).1 in
  StronglySorted N.lt steps /\
  (forall last, last_step s = Some last -> Forall (fun step => (last < step)%N) steps).
Proof.
  cbv zeta. destruct (life_steps name s events) as [Hs Ha]. split; [done|].
  intros last Hl. by rewrite Hl in Ha.
Qed.

(** C39: guessing is bounded: until root clears the lock, a secret evaluates
    at most twenty wrong codes in any thirty days, however the codes and the
    accepted ones between them come (on a clock that does not go back). *)
Theorem totp_guesses_bounded name events T :
  tries_from 0 events ->
  count_in T (wrong_times (life name TotpState_default events).1) <= HARD_LOCK_FAILURES.
Proof.
  intros Ht. apply (life_remembers name events TotpState_default [] 0 Ht).
  split; [constructor|intros ?; unfold HARD_LOCK_FAILURES; cbn; lia|].
  intros _. split; [unfold HARD_LOCK_FAILURES; cbn; lia|done].
Qed.

Lemma totp_guesses_bounded_witness :
  count_in 100 (wrong_times (life (mkSecret Root PurposeDirect) TotpState_default
    [Try 10 None; Try 20 (Some 3%N); Try 100 (Some 3%N)]).1) <= HARD_LOCK_FAILURES.
Proof. apply totp_guesses_bounded. cbn. lia. Defined.

(** A locked secret looks at no code and its state stays as it is; every
    fifth wrong code in a row locks it for 300 seconds at least, twice as
    long each time up to 256 times that; and a state that is written reads
    back as itself. *)
Theorem totp_lockouts name s now matched :
  (forall r, lock_reason s name now = Some r -> try_code s name now matched = (Err r, s)) /\
  ((4 <= failures s)%N -> (now + 76800 <= MAX_U64)%N ->
    exists until, locked_until (fail (mkAttempt name now) s) = Some until /\
      (now + 300 <= until)%N /\ (until <= now + 76800)%N) /\
  (forall n, (1 <= n)%N ->
    lockout_secs (n + 1) = if N.ltb n 9 then (2 * lockout_secs n)%N else lockout_secs n) /\
  ((failures s <= MAX_U32)%N -> (lockouts s <= MAX_U32)%N ->
    length (recent_failures s) <= HARD_LOCK_FAILURES ->
    TotpState_from_json (TotpState_to_json s) = Some s).
Proof.
  split_and!; [| |apply lockout_secs_double|apply TotpState_roundtrip].
  - intros r Hr. unfold try_code, begin. by rewrite Hr.
  - intros Hf Hn. unfold fail. cbv zeta. unfold sat_add at 1 2.
    rewrite (proj2 (N.leb_le MAX_FAILURES _)); cycle 1.
    { unfold MAX_FAILURES. change MAX_U32 with 4294967295%N. lia. }
    eexists. split; [reflexivity|]. cbn [at_now]. unfold sat_add.
    set (k := N.min MAX_U32 (lockouts s + 1)).
    pose proof (lockout_secs_bounds k). lia.
Qed.

Lemma totp_lockouts_witness :
  let name := mkSecret User PurposeDirect in
  exists until, locked_until (fail (mkAttempt name 1000) (mkTotp None 4 0 None [] false)) = Some until /\
    (1300 <= until)%N.
Proof.
  cbv zeta.
  destruct (proj1 (proj2 (totp_lockouts (mkSecret User PurposeDirect)
    (mkTotp None 4 0 None [] false) 1000 None))) as (until & Hu & Hb & _).
  - vm_compute. discriminate.
  - vm_compute. discriminate.
  - exists until. exact (conj Hu Hb).
Defined.
