(* ===== verification/Output.v ===== *)
(** A running job's output, capped to its end
    ([crates/core/src/hostd/output.rs]; a byte is its number), and what a
    person approving a host command is shown
    ([crates/core/src/hostd/display.rs]): arguments, the rest of the command,
    and the cut of a text that does not fit. *)

From S2P Require Import Prelude Json Glob Pyfmt Lifecycle Names Durations Pool Mail Authority Hostexec HostTypes.
From stdpp Require Import options.

Abbreviation bytes := (list N) (only parsing).

Definition blen (b : bytes) : N := N.of_nat (length b).

Record OutputTail := mkTail { cap : N; chunks : list bytes; held : N; produced : N }.
Record KeptOutput := mkKept { kept_bytes : bytes; truncated : bool; kept_produced : N }.

Definition OutputTail_new (cap : N) : OutputTail := mkTail cap [] 0 0.

(** The loop of [push]: whole chunks go while the rest still covers the cap. *)
Fixpoint drop_covered (cap held : N) (chunks : list bytes) : N * list bytes :=
  match chunks with
  | [] => (held, [])
  | first :: rest =>
      if N.leb cap (held - blen first) then drop_covered cap (held - blen first) rest
      else (held, chunks)
  end.

Definition push (t : OutputTail) (chunk : bytes) : OutputTail :=
  if bool_decide (length chunk = 0) then t
  else
    let produced := sat_add MAX_U64 (produced t) (blen chunk) in
    let '(held, chunks) :=
      drop_covered (cap t) (sat_add MAX_U64 (held t) (blen chunk)) (chunks t ++ [chunk]) in
    mkTail (cap t) chunks held produced.

(** [split_off(all.len() - cap)]: what stays after the cut. *)
Definition finish (t : OutputTail) : KeptOutput :=
  let all := concat (chunks t) in
  let bytes := drop (N.to_nat (blen all - cap t)) all in
  mkKept bytes (N.ltb (blen bytes) (produced t)) (produced t).

(** A job's output: its chunks, one after the other. *)
Definition collected (cap : N) (output : list bytes) : OutputTail :=
  fold_left push output (OutputTail_new cap).

(** ** Lemmas *)

Lemma blen_app a b : blen (a ++ b) = (blen a + blen b)%N.
Proof. unfold blen. rewrite length_app. lia. Qed.

Lemma drop_covered_spec cap chunks :
  let '(held, rest) := drop_covered cap (blen (concat chunks)) chunks in
  exists pre, concat chunks = pre ++ concat rest /\ held = blen (concat rest) /\
    (pre <> [] -> (cap <= held)%N) /\
    match rest with [] => True | first :: _ => (held - blen first < cap)%N end.
Proof.
  induction chunks as [|first rest IH]; cbn [drop_covered].
  - by exists [].
  - cbn [concat]. rewrite blen_app, N.add_comm, N.add_sub.
    destruct (N.leb_spec cap (blen (concat rest))) as [Hc|Hc].
    + destruct (drop_covered cap _ rest) as [held rest'].
      destruct IH as (pre & E & -> & Hp & Hr). exists (first ++ pre).
      split_and!; [by rewrite E, app_assoc|done| |done]. intros _.
      destruct pre as [|x pre]; [|by apply Hp]. cbn in E. by rewrite <- E.
    + exists []. split_and!; [done|cbn; rewrite blen_app; lia|done|]. by rewrite N.add_sub.
Qed.

(** What the tail holds of the output [all] so far. *)
Record tail_of (cap0 : N) (all : bytes) (t : OutputTail) : Prop := {
  to_cap : cap t = cap0;
  to_held : held t = blen (concat (chunks t));
  to_produced : produced t = blen all;
  to_suffix : exists pre, all = pre ++ concat (chunks t) /\ (pre <> [] -> (cap0 <= held t)%N);
  to_bounded : match chunks t with
               | [] => True
               | first :: _ => (held t - blen first < cap0)%N
               end;
}.

Lemma push_tail cap0 all t chunk :
  (blen (all ++ chunk) <= MAX_U64)%N -> tail_of cap0 all t -> tail_of cap0 (all ++ chunk) (push t chunk).
Proof.
  intros Hmax Ht. destruct Ht as [Hc Hh Hp (pre & Ea & Hpre) Hb]. unfold push.
  case_bool_decide as Hlen.
  { apply length_zero_iff_nil in Hlen as ->. rewrite app_nil_r. split; eauto. }
  rewrite blen_app in Hmax.
  assert (Hle : (blen (concat (chunks t)) <= blen all)%N) by (rewrite Ea, blen_app; lia).
  assert (Eh : sat_add MAX_U64 (held t) (blen chunk) = blen (concat (chunks t ++ [chunk]))).
  { unfold sat_add. rewrite concat_app, blen_app. cbn [concat]. rewrite app_nil_r, Hh. lia. }
  rewrite Eh. pose proof (drop_covered_spec (cap t) (chunks t ++ [chunk])) as Hd.
  destruct (drop_covered _ _ _) as [held' rest]. destruct Hd as (pre' & E & Eh' & Hpre' & Hr).
  rewrite concat_app in E. cbn [concat] in E. rewrite app_nil_r in E.
  split; cbn [cap chunks held produced].
  - done.
  - done.
  - unfold sat_add. rewrite Hp, blen_app. lia.
  - exists (pre ++ pre'). split; [by rewrite Ea, <- app_assoc, E, app_assoc|].
    rewrite <- Hc in *. intros Hne. destruct pre' as [|x pre']; [|by apply Hpre'].
    rewrite app_nil_r in Hne. specialize (Hpre Hne). cbn in E.
    rewrite Eh', <- E, blen_app. lia.
  - by rewrite Hc in Hr.
Qed.

Lemma collected_tail cap0 output all t :
  (blen (all ++ concat output) <= MAX_U64)%N -> tail_of cap0 all t ->
  tail_of cap0 (all ++ concat output) (fold_left push output t).
Proof.
  revert all t; induction output as [|chunk output IH]; intros all t Hm Ht; cbn [fold_left concat] in *.
  - by rewrite app_nil_r.
  - rewrite app_assoc in *. apply IH; [done|]. apply push_tail; [|done].
    rewrite blen_app in Hm. lia.
Qed.

(** ** Properties *)

(** What is kept of a job's output is exactly its last [cap] bytes (all of
    it when there are fewer), it says it is cut exactly when something was,
    it counts everything that was written, and while the job runs no more is
    held than the cap and one chunk. *)
Theorem output_tail_exact cap0 output :
  let all := concat output in
  (blen all <= MAX_U64)%N ->
  let t := collected cap0 output in
  let kept := finish t in
  kept_bytes kept = drop (N.to_nat (blen all - cap0)) all /\
  (truncated kept = true <-> (cap0 < blen all)%N) /\
  kept_produced kept = blen all /\
  match chunks t with [] => True | first :: _ => (held t - blen first < cap0)%N end.
Proof.
  cbv zeta. intros Hm.
  assert (Ht0 : tail_of cap0 [] (OutputTail_new cap0)).
  { split; try done. exists []. by split. }
  pose proof (collected_tail cap0 output [] (OutputTail_new cap0) Hm Ht0) as Ht.
  fold (collected cap0 output) in Ht. cbn [app] in Ht.
  destruct Ht as [Hc Hh Hp (pre & Ea & Hpre) Hb].
  assert (Ek : kept_bytes (finish (collected cap0 output)) =
    drop (N.to_nat (blen (concat output) - cap0)) (concat output)).
  { unfold finish. cbv zeta. cbn [kept_bytes]. rewrite Hc, Ea.
    destruct (decide (pre = [])) as [->|Hne]; [done|]. specialize (Hpre Hne). rewrite Hh in Hpre.
    rewrite blen_app, drop_app_ge by (unfold blen in *; lia).
    f_equal. unfold blen in *. lia. }
  split_and!; [done| |done|done].
  unfold finish in *. cbv zeta in *. cbn [kept_bytes truncated] in *. rewrite Ek, Hp, N.ltb_lt.
  unfold blen. rewrite length_drop. lia.
Qed.

Lemma output_tail_exact_witness :
  truncated (finish (collected 3 [[1%N; 2%N]; [3%N; 4%N]])) = true /\
  kept_bytes (finish (collected 3 [[1%N; 2%N]; [3%N; 4%N]])) = [2%N; 3%N; 4%N].
Proof.
  destruct (output_tail_exact 3 [[1%N; 2%N]; [3%N; 4%N]]) as (Hk & Ht & _).
  - vm_compute. discriminate.
  - split; [apply Ht; reflexivity|exact Hk].
Defined.

(** ** What a person is shown *)

Definition needs_escape (c : char) : bool := negb (is_display_safe c).

(** The digits [{:x}] writes, and [{:0kx}]: at least [k] of them. *)
Definition hex_digits (n : N) : nat := S (N.to_nat (N.log2 n / 4)).
Definition hex_at_least (k : nat) (n : N) : str := hex_fixed (Nat.max k (hex_digits n)) n.

Definition display_char (c : char) : str :=
  if N.eqb c 10 then [backslash; ch "n"]
  else if N.eqb c 9 then [backslash; ch "t"]
  else if N.eqb c 13 then [backslash; ch "r"]
  else if N.eqb c backslash then [backslash; backslash]
  else if N.eqb c squote then [backslash; squote]
  else if needs_escape c then
    if N.leb c 0xff then [backslash; ch "x"] ++ hex_at_least 2 c
    else [backslash; ch "u"] ++ hex_at_least 4 c
  else [c].

Definition display_arg (s : str) : str :=
  if negb (existsb needs_escape s) then shlex_quote s
  else [ch "$"; squote] ++ flat_map display_char s ++ [squote].

Definition display_argv (argv : list str) : str := join (lit " ") (map display_arg argv).

Definition command_extras (cwd : option str) (env : list (str * str)) (stdin : option str)
    : list str :=
  match cwd with Some cwd => [lit "in " ++ display_arg cwd] | None => [] end
  ++ (if bool_decide (env = []) then []
      else [lit "env " ++ join (lit " ") (map (fun kv => kv.1 ++ lit "=" ++ display_arg kv.2) env)])
  ++ match stdin with
     | Some stdin => [lit "stdin (" ++ show_N (N.of_nat (length stdin)) ++ lit " chars): "
                      ++ display_arg stdin]
     | None => []
     end.

(** The notice that a text was cut, after [shown] of its [total] characters. *)
Definition cut_notice (short : str) (total shown : nat) : str :=
  lit " … [cut: " ++ show_N (N.of_nat shown) ++ lit " of " ++ show_N (N.of_nat total)
  ++ lit " characters shown; the approval covers all of it, sha256 " ++ short ++ lit "…]".

Definition fit (text : str) (limit : nat) (digest : str) : str :=
  let total := length text in
  if Nat.leb total limit then text
  else
    let short := take 16 digest in
    let room := limit - length (cut_notice short total total) in
    let head := take room text in
    head ++ cut_notice short total (length head).

Definition one_line (text : str) (limit : nat) : str :=
  take limit (join (lit " ") (split_whitespace text)).

(** ** Lemmas *)

Lemma hex_digits_small n k : (n < 16 ^ N.of_nat k)%N -> 0 < k -> hex_digits n <= k.
Proof.
  intros Hn Hk. unfold hex_digits. destruct (N.eq_dec n 0%N) as [->|Hz]; [change (1 <= k); lia|].
  assert (Hl : (N.log2 n < 4 * N.of_nat k)%N).
  { apply N.log2_lt_pow2; [lia|]. by rewrite N.pow_mul_r. }
  assert ((N.log2 n / 4 < N.of_nat k)%N) by (apply N.Div0.div_lt_upper_bound; lia). lia.
Qed.

Lemma hex_at_least_small k n : (n < 16 ^ N.of_nat k)%N -> 0 < k -> hex_at_least k n = hex_fixed k n.
Proof.
  intros Hn Hk. unfold hex_at_least. pose proof (hex_digits_small n k Hn Hk).
  by replace (Nat.max k (hex_digits n)) with k by lia.
Qed.

Lemma display_char_safe c : all_safe (display_char c).
Proof.
  unfold display_char, hex_at_least.
  destruct (N.eqb c 10); [by repeat constructor|]. destruct (N.eqb c 9); [by repeat constructor|].
  destruct (N.eqb c 13); [by repeat constructor|].
  destruct (N.eqb c backslash); [by repeat constructor|].
  destruct (N.eqb c squote); [by repeat constructor|].
  destruct (needs_escape c) eqn:E.
  - destruct (N.leb c 0xff); apply all_safe_app; split; try apply all_safe_hex; by repeat constructor.
  - unfold needs_escape in E. apply negb_false_iff in E. by repeat constructor.
Qed.

Lemma display_arg_safe s : all_safe (display_arg s).
Proof.
  unfold display_arg. destruct (existsb needs_escape s); cbn [negb]; [|apply shlex_quote_safe].
  apply all_safe_app. split; [by repeat constructor|]. apply all_safe_app.
  split; [apply all_safe_flat_map, display_char_safe|by repeat constructor].
Qed.

(** A character an escape of four digits reaches, or that needs none. *)
Definition short_escape (c : char) : Prop := is_display_safe c = true \/ (c <= 0xffff)%N.

Lemma display_char_reads c : short_escape c -> reads_as (Some squote) display_char c.
Proof.
  intros Hc. unfold reads_as, display_char.
  destruct (N.eqb_spec c 10) as [->|]; [reads_simple|].
  destruct (N.eqb_spec c 9) as [->|]; [reads_simple|].
  destruct (N.eqb_spec c 13) as [->|]; [reads_simple|].
  destruct (N.eqb_spec c backslash) as [->|]; [reads_simple|].
  destruct (N.eqb_spec c squote) as [->|]; [reads_simple|].
  destruct (needs_escape c) eqn:E; [|left; split_and!; congruence].
  unfold needs_escape in E. apply negb_true_iff in E.
  destruct Hc as [Hc|Hc]; [congruence|]. destruct (N.leb_spec c 0xff).
  - rewrite hex_at_least_small by (cbn; lia).
    eapply (reads_hex _ (fun c => _) c (ch "x") 2); [done|done|cbn; lia].
  - rewrite hex_at_least_small by (cbn; lia).
    eapply (reads_hex _ (fun c => _) c (ch "u") 4); [done|done|cbn; lia].
Qed.

Lemma display_arg_reads s :
  valid_str s -> Forall short_escape s ->
  sh_word (S (length (display_arg s))) (display_arg s) = Some s.
Proof.
  intros Hv Hs. unfold display_arg. destruct (existsb needs_escape s); cbn [negb];
    [|by apply shlex_quote_word].
  cbn [app]. rewrite sh_word_ansi.
  rewrite (read_escaped_map _ _ s [squote] []); [cbn; by rewrite app_nil_r|done| |done|].
  - eapply Forall_impl; [exact Hs|]. apply display_char_reads.
  - cbn. rewrite length_app. lia.
Qed.

Lemma digits_value_bound s :
  Forall (fun c => is_ascii_digit c = true) s -> (digits_value s < 10 ^ N.of_nat (length s))%N.
Proof.
  induction s as [|c s IH] using rev_ind; [done|].
  intros [Hs Hc]%Forall_app. inversion Hc as [|? ? Hd _]; subst.
  apply is_ascii_digit_true in Hd. specialize (IH Hs).
  rewrite digits_value_app, length_app, Nat2N.inj_add, N.pow_add_r.
  assert (E : digits_value [c] = (c - 48)%N) by done.
  rewrite E. change (N.of_nat (length [c])) with 1%N. rewrite N.pow_1_r. nia.
Qed.

Lemma show_N_length_pos n : 1 <= length (show_N n).
Proof. unfold show_N. cbn [show_go]. rewrite length_app. cbn. lia. Qed.

Lemma show_N_length_mono a b : (a <= b)%N -> length (show_N a) <= length (show_N b).
Proof.
  intros Hab. pose proof (show_N_length_pos b).
  pose proof (digits_value_bound _ (show_N_digits b)) as Hb. rewrite show_N_value in Hb.
  pose proof (show_N_length (length (show_N b)) a). lia.
Qed.

Lemma cut_notice_length short total shown :
  length (cut_notice short total shown) =
    9 + length (show_N (N.of_nat shown)) + 4 + length (show_N (N.of_nat total)) + 57 + length short + 2.
Proof. unfold cut_notice. rewrite !length_app. change (length (lit " … [cut: ")) with 9.
  change (length (lit " of ")) with 4. change (length (lit "…]")) with 2.
  change (length (lit " characters shown; the approval covers all of it, sha256 ")) with 57. lia.
Qed.

(** ** Properties *)

(** An argument is shown in visible characters only, and what is shown is
    a shell word for exactly that argument, as long as every character that
    has to be escaped fits an escape of four digits. Past that it is not: two
    different arguments (one with U+E0001, one with U+E000 and a 1) are shown
    alike. *)
Theorem display_arg_faithful s :
  all_safe (display_arg s) /\
  (valid_str s -> Forall short_escape s ->
   sh_word (S (length (display_arg s))) (display_arg s) = Some s) /\
  (exists a b, valid_str a /\ valid_str b /\ a <> b /\ display_arg a = display_arg b).
Proof.
  split_and!; [apply display_arg_safe|apply display_arg_reads|].
  exists [0xE0001%N], [0xE000%N; ch "1"].
  split_and!; [by repeat constructor|by repeat constructor|done|by vm_compute].
Qed.

Lemma display_arg_faithful_witness :
  sh_word 14 (display_arg [ch "a"; 10%N; ch "'"; 0x202E%N]) = Some [ch "a"; 10%N; ch "'"; 0x202E%N].
Proof.
  apply (proj1 (proj2 (display_arg_faithful [ch "a"; 10%N; ch "'"; 0x202E%N]))).
  - by repeat constructor.
  - repeat (apply Forall_cons; split; [right; vm_compute; discriminate|]). apply Forall_nil. exact I.
Defined.

(** A text is shown whole when it fits; one that does not is shown as its
    first characters and a notice that says how many of how many those are,
    and the whole stays within the limit. *)
Theorem fit_within text limit digest :
  (length text <= limit -> fit text limit digest = text) /\
  (limit < length text ->
    exists shown, shown < length text /\
      fit text limit digest =
        take shown text ++ cut_notice (take 16 digest) (length text) shown) /\
  ((N.of_nat (length text) < 10 ^ 20)%N -> 160 <= limit -> length (fit text limit digest) <= limit).
Proof.
  unfold fit. cbv zeta. destruct (Nat.leb_spec (length text) limit) as [Hl|Hl].
  { split_and!; [done|lia|lia]. }
  set (total := length text) in *. set (short := take 16 digest).
  set (room := limit - length (cut_notice short total total)).
  assert (Eh : length (take room text) = room `min` total) by apply length_take.
  split_and!; [lia| |].
  - intros _. exists (length (take room text)). rewrite Eh. split; [unfold room; lia|].
    f_equal. destruct (Nat.min_spec room total) as [[_ ->]|[? ->]]; [done|].
    unfold room in *. lia.
  - intros Ht H160. rewrite length_app, cut_notice_length, Eh.
    assert (Hn : length (cut_notice short total total) <= limit).
    { rewrite cut_notice_length.
      assert (length short <= 16) by (unfold short; rewrite length_take; lia).
      pose proof (show_N_length 20 (N.of_nat total) Ht). lia. }
    pose proof (cut_notice_length short total total).
    pose proof (show_N_length_mono (N.of_nat (room `min` total)) (N.of_nat total)). lia.
Qed.

Lemma fit_within_witness :
  length (fit (repeat (ch "a") 300) 160 (repeat (ch "0") 64)) <= 160.
Proof.
  apply (proj2 (proj2 (fit_within (repeat (ch "a") 300) 160 (repeat (ch "0") 64)))).
  - vm_compute. reflexivity.
  - lia.
Defined.
