(* ===== verification/TotpCode.v ===== *)
(** TOTP codes and their secrets ([crates/crypto/src/totp.rs]): RFC 6238
    with HMAC-SHA1 as a parameter, the check of a code against its window,
    and base32. Bytes are numbers below 256. *)

From S2P Require Import Prelude Json Pyfmt Lifecycle Names Durations Pool Mail Authority Hostexec HostTypes.
From stdpp Require Import options.

Abbreviation bytes := (list N).
Definition is_byte (b : N) : Prop := (b < 256)%N.

(** [ring::hmac] with SHA-1: key, message, tag. *)
Class HmacSha1 := { hmac_sha1 : bytes -> bytes -> bytes }.

Definition STEP_SECS : N := 30.
Definition DIGITS : nat := 6.
Definition WINDOW_STEPS : N := 1.
Definition MIN_SECRET_BYTES : nat := 16.

(** ** Base32 *)

Definition B32 : str := lit "ABCDEFGHIJKLMNOPQRSTUVWXYZ234567".
Definition sym (idx : N) : char := default (ch "A") (B32 !! N.to_nat idx).

(** The inner loop of [base32_encode]: whole groups of five bits; 12 bits
    at most, so two rounds. *)
Fixpoint emit_groups (fuel : nat) (buffer bits : N) : str * N :=
  match fuel with
  | O => ([], bits)
  | S fuel =>
      if N.leb 5 bits then
        let bits := (bits - 5)%N in
        let idx := N.land (N.shiftr buffer bits) 0x1f in
        let '(out, bits) := emit_groups fuel buffer bits in
        (sym idx :: out, bits)
      else ([], bits)
  end.

Fixpoint encode_loop (data : bytes) (buffer bits : N) : str :=
  match data with
  | [] =>
      if N.ltb 0 bits then [sym (N.land (N.shiftl buffer (5 - bits)) 0x1f)] else []
  | b :: data =>
      let buffer := N.lor (N.land (N.shiftl buffer 8) MAX_U32) b in
      let '(out, bits) := emit_groups 3 buffer (bits + 8) in
      out ++ encode_loop data (N.land buffer (N.shiftl 1 bits - 1)) bits
  end.
Definition base32_encode (data : bytes) : str := encode_loop data 0 0.

Definition b32_value (c : char) : option N :=
  let c := if is_ascii_lowercase c then (c - 32)%N else c in
  if in_range (ch "A") (ch "Z") c then Some (c - ch "A")%N
  else if in_range (ch "2") (ch "7") c then Some (c - ch "2" + 26)%N
  else None.

Fixpoint decode_loop (body : str) (buffer bits : N) : option bytes :=
  match body with
  | [] => Some []
  | c :: body =>
      v ← b32_value c;
      let buffer := N.land (N.lor (N.land (N.shiftl buffer 5) MAX_U32) v) 0xffff in
      let bits := (bits + 5)%N in
      if N.leb 8 bits then
        let bits := (bits - 8)%N in
        out ← decode_loop body buffer bits;
        Some (N.land (N.shiftr buffer bits) 0xff :: out)
      else decode_loop body buffer bits
  end.

Fixpoint trim_pad_start (s : str) : str :=
  match s with
  | c :: s' => if N.eqb c (ch "=") then trim_pad_start s' else s
  | [] => []
  end.
Definition trim_end_pad (s : str) : str := rev (trim_pad_start (rev s)).

Definition base32_decode (text : str) : option bytes :=
  let body := trim_end_pad text in
  let m := (str_len body mod 8)%nat in
  if negb (Nat.eqb m 0 || Nat.eqb m 2 || Nat.eqb m 4 || Nat.eqb m 5 || Nat.eqb m 7) then None
  else if negb (Nat.eqb (str_len text mod 8) 0) && negb (Nat.eqb (str_len body) (str_len text)) then None
  else decode_loop body 0 0.

(** ** Secrets *)

Inductive TotpSecretError := NotBase32 | TooShort (n : nat).

Definition TotpSecret_from_bytes (raw : bytes) : result TotpSecretError bytes :=
  if Nat.ltb (length raw) MIN_SECRET_BYTES then Err (TooShort (length raw)) else Ok raw.
Definition TotpSecret_from_base32 (text : str) : result TotpSecretError bytes :=
  raw ← ok_or (base32_decode (trim text)) NotBase32;
  TotpSecret_from_bytes raw.

(** [ct_eq] of [crates/crypto/src/secret.rs]: equality whose time depends
    only on the lengths. *)
Definition ct_eq (a b : bytes) : bool :=
  if negb (Nat.eqb (length a) (length b)) then false
  else
    let diff := fold_left (fun acc (xy : N * N) => N.lor acc (N.lxor xy.1 xy.2)) (zip a b) 0%N in
    N.eqb diff 0.

(** ** Codes *)

Definition be_bytes (k : nat) (n : N) : bytes :=
  map (fun i => (n / 256 ^ N.of_nat (k - 1 - i)) mod 256)%N (seq 0 k).
Definition be_value (b : bytes) : N := fold_left (fun acc x => acc * 256 + x)%N b 0%N.

(** [{:06}]. *)
Definition pad6 (n : N) : str :=
  let s := show_N n in repeat (ch "0") (6 - length s) ++ s.

Definition truncate (mac : bytes) : str :=
  let offset := match last mac with Some b => N.to_nat (N.land b 0x0f) | None => 0 end in
  let word := take 4 (drop offset mac) in
  let word := if Nat.eqb (length word) 4 then word else [0; 0; 0; 0]%N in
  pad6 (N.land (be_value word) 0x7fffffff mod 1000000).

Inductive CodeError := WrongCode | AlreadyUsed.

Section codes.
Context `{HmacSha1}.

Definition code_at (secret : bytes) (step : N) : str := truncate (hmac_sha1 secret (be_bytes 8 step)).

Definition candidate_steps (now : N) : list N :=
  let current := (now / STEP_SECS)%N in
  let first := (current - WINDOW_STEPS)%N in
  let last := sat_add MAX_U64 current WINDOW_STEPS in
  map (fun i => (first + N.of_nat i)%N) (seq 0 (N.to_nat (last + 1 - first))).

Definition verify (secret : bytes) (code : str) (now : N) (last_step : option N) : result CodeError N :=
  let digits := List.filter is_ascii_digit code in
  let matched := fold_left (fun matched step =>
    if Nat.eqb (length digits) DIGITS && ct_eq (code_at secret step) digits then Some step
    else matched) (candidate_steps now) None in
  match matched with
  | None => Err WrongCode
  | Some step =>
    if match last_step with Some l => N.leb step l | None => false end then Err AlreadyUsed
    else Ok step
  end.
End codes.

(** ** Enrolment *)

(** [percent_encode], over the bytes of ASCII text. *)
Definition percent_safe (b : N) : bool :=
  is_ascii_alphanumeric b || elem_b b (lit "_.-~/").
Definition hex_byte_upper (b : N) : str := [hex_upper_digit (b / 16); hex_upper_digit (b mod 16)].
Definition percent_encode (bs : bytes) : str :=
  flat_map (fun b => if percent_safe b then [b] else lit "%" ++ hex_byte_upper b) bs.

(** ** Lemmas *)

Lemma lor_zero a b : N.lor a b = 0%N <-> a = 0%N /\ b = 0%N.
Proof. split; [apply N.lor_eq_0_iff|by intros [-> ->]]. Qed.

Lemma ct_eq_iff a b : ct_eq a b = true <-> a = b.
Proof.
  unfold ct_eq. destruct (Nat.eqb_spec (length a) (length b)) as [Hl|Hl]; cbn [negb].
  2:{ split; [done|]. by intros ->. }
  rewrite N.eqb_eq. enough (forall acc,
    fold_left (fun acc (xy : N * N) => N.lor acc (N.lxor xy.1 xy.2)) (zip a b) acc = 0%N <->
    acc = 0%N /\ a = b) as H by (rewrite H; naive_solver).
  revert b Hl. induction a as [|x a IH]; intros [|y b] Hl acc; try done; cbn [zip zip_with fold_left].
  { split; [by intros ->|by intros [-> _]]. }
  change (zip_with pair a b) with (zip a b). rewrite IH by (injection Hl; done).
  rewrite lor_zero. cbn [fst snd]. rewrite N.lxor_eq_0_iff. naive_solver.
Qed.

(** *** Base32: bits in groups of eight, then of five *)

(** The number a list of digits writes, in base [2 ^ w]. *)
Definition digits_num (w : N) (ds : list N) : N := fold_left (fun acc d => acc * 2 ^ w + d)%N ds 0%N.

Lemma digits_num_snoc w ds d : digits_num w (ds ++ [d]) = (digits_num w ds * 2 ^ w + d)%N.
Proof. unfold digits_num. by rewrite fold_left_app. Qed.

Lemma low_mod q r w : (r < 2 ^ w)%N -> ((q * 2 ^ w + r) mod 2 ^ w = r)%N.
Proof. intros Hr. by rewrite N.add_comm, N.Div0.mod_add, N.mod_small. Qed.

Lemma digits_num_inj w a b :
  length a = length b -> Forall (fun d => d < 2 ^ w)%N a -> Forall (fun d => d < 2 ^ w)%N b ->
  digits_num w a = digits_num w b -> a = b.
Proof.
  revert b. induction a as [|x a IH] using rev_ind; intros b Hl Ha Hb Heq.
  { by destruct b. }
  destruct b as [|y b _] using rev_ind; [rewrite length_app in Hl; cbn in Hl; lia|].
  rewrite !length_app in Hl. cbn in Hl. apply Forall_app in Ha as [Ha Hx], Hb as [Hb Hy].
  rewrite Forall_singleton in Hx, Hy. rewrite !digits_num_snoc in Heq.
  assert (x = y) as ->.
  { apply (f_equal (fun n => n mod 2 ^ w)%N) in Heq.
    cbv beta in Heq. rewrite (low_mod _ x w Hx), (low_mod _ y w Hy) in Heq. exact Heq. }
  f_equal. apply IH; [lia|done|done|].
  assert (2 ^ w <> 0)%N by (apply N.pow_nonzero; done). apply (N.mul_cancel_r _ _ (2 ^ w)%N); lia.
Qed.

Lemma b32_sym d : (d < 32)%N -> b32_value (sym d) = Some d /\ sym d <> ch "=" /\ is_ascii (sym d) = true.
Proof.
  intros Hd. rewrite <- (N2Nat.id d). assert (Hn : N.to_nat d < 32) by lia. revert Hn.
  generalize (N.to_nat d). intros n Hn. do 32 (destruct n as [|n]; [by repeat split|]). lia.
Qed.

Lemma land_ones_mod a k : N.land a (2 ^ k - 1) = (a mod 2 ^ k)%N.
Proof. rewrite <- N.land_ones, N.ones_equiv, N.pred_sub. done. Qed.

(** What the encoder has written, with the bits it holds back, is the
    number the bytes write. *)
Lemma emit_groups_num fuel buffer bits out bits' ds :
  emit_groups fuel buffer bits = (out, bits') -> (bits < 5 * N.of_nat fuel + 5)%N ->
  exists gs, out = map sym gs /\ Forall (fun d => d < 2 ^ 5)%N gs /\ (bits' < 5)%N /\
    (5 * N.of_nat (length gs) + bits' = bits)%N /\
    (digits_num 5 (ds ++ gs) * 2 ^ bits' + buffer mod 2 ^ bits' =
     digits_num 5 ds * 2 ^ bits + buffer mod 2 ^ bits)%N.
Proof.
  revert buffer bits out bits' ds. induction fuel as [|fuel IH]; intros buffer bits out bits' ds H Hb; cbn [emit_groups] in H.
  { injection H as <- <-. exists []. rewrite app_nil_r. split_and!; [done|constructor|lia|cbn;lia|done]. }
  destruct (N.leb_spec 5 bits).
  2:{ injection H as <- <-. exists []. rewrite app_nil_r. split_and!; [done|constructor|lia|cbn;lia|done]. }
  destruct (emit_groups fuel buffer (bits - 5)) as [o b] eqn:E. injection H as <- <-.
  set (d := N.land (N.shiftr buffer (bits - 5)) 0x1f).
  assert (d = (buffer / 2 ^ (bits - 5)) mod 2 ^ 5)%N as Hd.
  { unfold d. change 0x1f%N with (2 ^ 5 - 1)%N. by rewrite land_ones_mod, N.shiftr_div_pow2. }
  destruct (IH _ _ _ _ (ds ++ [d]) E ltac:(lia)) as (gs & -> & Hgs & Hlt & Hlen & Hnum).
  exists (d :: gs). split_and!; [done| |done|cbn [length]; lia|].
  - constructor; [|done]. rewrite Hd. by apply N.mod_lt.
  - rewrite <- app_assoc in Hnum. cbn [app] in Hnum. rewrite Hnum, digits_num_snoc, Hd.
    assert (2 ^ bits = 2 ^ 5 * 2 ^ (bits - 5))%N as Hp by (rewrite <- N.pow_add_r; f_equal; lia).
    assert (2 ^ (bits - 5) <> 0)%N as Hnz by (apply N.pow_nonzero; done).
    rewrite Hp. rewrite (N.mul_comm (2 ^ 5) (2 ^ (bits - 5))).
    rewrite (N.Div0.mod_mul_r buffer (2 ^ (bits - 5)) (2 ^ 5)). lia.
Qed.

Lemma digits_num_app w a b :
  digits_num w (a ++ b) = (digits_num w a * 2 ^ (w * N.of_nat (length b)) + digits_num w b)%N.
Proof.
  induction b as [|y b IH] using rev_ind.
  { rewrite app_nil_r. change (digits_num w []) with 0%N. cbn [length]. rewrite N.mul_0_r. cbn. lia. }
  rewrite app_assoc, !digits_num_snoc, IH, length_app. cbn [length].
  replace (w * N.of_nat (length b + 1))%N with (w * N.of_nat (length b) + w)%N by lia.
  rewrite N.pow_add_r. ring.
Qed.

Lemma digits_num_cons w d b :
  digits_num w (d :: b) = (d * 2 ^ (w * N.of_nat (length b)) + digits_num w b)%N.
Proof. apply (digits_num_app w [d] b). Qed.

Lemma shiftl_lor a b k : (b < 2 ^ k)%N -> N.lor (N.shiftl a k) b = (a * 2 ^ k + b)%N.
Proof.
  intros Hb. rewrite N.shiftl_mul_pow2.
  assert (N.land (a * 2 ^ k) b = 0)%N as Hd.
  { apply N.bits_inj. intros i. rewrite N.land_spec, N.bits_0.
    destruct (N.lt_ge_cases i k) as [Hi|Hi].
    - by rewrite N.mul_pow2_bits_low.
    - destruct (N.eq_dec b 0%N) as [->|Hnz]; [by rewrite N.bits_0, andb_false_r|].
      rewrite (N.bits_above_log2 b i), andb_false_r; [done|].
      apply N.log2_lt_pow2 in Hb; lia. }
  by rewrite <- N.lxor_lor, <- N.add_nocarry_lxor.
Qed.

Lemma shift_in a b k m :
  (b < 2 ^ k)%N -> (a < 2 ^ m)%N -> (m + k <= 32)%N ->
  N.lor (N.land (N.shiftl a k) MAX_U32) b = (a * 2 ^ k + b)%N.
Proof.
  intros Hb Ha Hm. change MAX_U32 with (2 ^ 32 - 1)%N. rewrite land_ones_mod.
  rewrite N.mod_small; [by apply shiftl_lor|]. rewrite N.shiftl_mul_pow2.
  apply N.lt_le_trans with (2 ^ m * 2 ^ k)%N.
  - apply N.mul_lt_mono_pos_r; [|done]. assert (2 ^ k <> 0)%N by (apply N.pow_nonzero; done). lia.
  - rewrite <- N.pow_add_r. by apply N.pow_le_mono_r.
Qed.

Lemma encode_loop_num data buffer bits :
  Forall is_byte data -> (bits < 5)%N -> (buffer < 2 ^ bits)%N ->
  exists gs pad, encode_loop data buffer bits = map sym gs /\ Forall (fun d => d < 2 ^ 5)%N gs /\
    (pad < 5)%N /\ (5 * N.of_nat (length gs) = bits + 8 * N.of_nat (length data) + pad)%N /\
    digits_num 5 gs = ((buffer * 2 ^ (8 * N.of_nat (length data)) + digits_num 8 data) * 2 ^ pad)%N.
Proof.
  intros Hd. revert buffer bits. induction Hd as [|b data Hb Hd IH]; intros buffer bits Hbits Hbuf; cbn [encode_loop].
  - destruct (N.ltb_spec 0 bits) as [Hp|Hz].
    + exists [N.land (N.shiftl buffer (5 - bits)) 0x1f], (5 - bits)%N.
      assert (N.land (N.shiftl buffer (5 - bits)) 0x1f = buffer * 2 ^ (5 - bits))%N as ->.
      { change 0x1f%N with (2 ^ 5 - 1)%N. rewrite land_ones_mod, N.shiftl_mul_pow2. apply N.mod_small.
        replace (2 ^ 5)%N with (2 ^ bits * 2 ^ (5 - bits))%N by (rewrite <- N.pow_add_r; f_equal; lia).
        apply N.mul_lt_mono_pos_r; [|done]. assert (2 ^ (5 - bits) <> 0)%N by (apply N.pow_nonzero; done). lia. }
      split_and!; [done| |lia|cbn [length]; lia|].
      * apply Forall_singleton.
        replace (2 ^ 5)%N with (2 ^ bits * 2 ^ (5 - bits))%N by (rewrite <- N.pow_add_r; f_equal; lia).
        apply N.mul_lt_mono_pos_r; [|done]. assert (2 ^ (5 - bits) <> 0)%N by (apply N.pow_nonzero; done). lia.
      * cbn [length N.of_nat]. unfold digits_num. cbn [fold_left]. rewrite N.mul_0_r. cbn [N.pow]. lia.
    + exists [], 0%N. assert (bits = 0)%N as -> by lia. cbn in Hbuf. split_and!; [done|constructor|lia|cbn;lia|].
      cbn. lia.
  - assert (buffer < 2 ^ 5)%N as Hbuf5 by (apply N.lt_le_trans with (2 ^ bits)%N; [done|apply N.pow_le_mono_r; lia]).
    rewrite (shift_in buffer b 8 5 Hb Hbuf5 ltac:(done)).
    destruct (emit_groups 3 _ _) as [out bits'] eqn:E.
    destruct (emit_groups_num _ _ _ _ _ [] E ltac:(lia)) as (gs & -> & Hgs & Hlt & Hlen & Hnum).
    cbn [app] in Hnum. rewrite N.shiftl_1_l, land_ones_mod.
    set (buffer1 := (buffer * 2 ^ 8 + b)%N) in *.
    destruct (IH (buffer1 mod 2 ^ bits')%N bits' Hlt) as (hs & pad & -> & Hhs & Hpad & Hlen2 & Hnum2).
    { apply N.mod_lt, N.pow_nonzero. done. }
    exists (gs ++ hs), pad. rewrite map_app. split_and!; [done|by apply Forall_app|done| |].
    + rewrite length_app. cbn [length]. lia.
    + rewrite digits_num_app, Hnum2, digits_num_cons. cbn [length].
      replace (5 * N.of_nat (length hs))%N with (bits' + 8 * N.of_nat (length data) + pad)%N by lia.
      rewrite !N.pow_add_r.
      assert (buffer1 < 2 ^ (bits + 8))%N as Hsmall.
      { unfold buffer1. rewrite N.pow_add_r. unfold is_byte in Hb. change (2 ^ 8)%N with 256%N. nia. }
      rewrite (N.mod_small buffer1 _ Hsmall) in Hnum. change (digits_num 5 []) with 0%N in Hnum.
      replace (8 * N.of_nat (S (length data)))%N with (8 + 8 * N.of_nat (length data))%N by lia.
      rewrite N.pow_add_r. rewrite N.mul_0_l, N.add_0_l in Hnum. fold buffer1 in Hnum.
      transitivity ((digits_num 5 gs * 2 ^ bits' + buffer1 mod 2 ^ bits') *
        2 ^ (8 * N.of_nat (length data)) * 2 ^ pad + digits_num 8 data * 2 ^ pad)%N; [ring|].
      rewrite Hnum. unfold buffer1. ring.
Qed.

(** What the decoder has read, with the bits it holds back, is the number
    the symbols write. *)
Lemma decode_loop_num gs buffer bits :
  Forall (fun d => d < 2 ^ 5)%N gs -> (bits < 8)%N -> (buffer < 2 ^ 16)%N ->
  exists out bits' low, decode_loop (map sym gs) buffer bits = Some out /\ Forall is_byte out /\
    (bits' < 8)%N /\ (low < 2 ^ bits')%N /\
    (8 * N.of_nat (length out) + bits' = bits + 5 * N.of_nat (length gs))%N /\
    (digits_num 8 out * 2 ^ bits' + low =
     (buffer mod 2 ^ bits) * 2 ^ (5 * N.of_nat (length gs)) + digits_num 5 gs)%N.
Proof.
  intros Hg. revert buffer bits. induction Hg as [|d gs Hd Hg IH]; intros buffer bits Hbits Hbuf; cbn [map decode_loop].
  - exists [], bits, (buffer mod 2 ^ bits)%N. split_and!; [done|constructor|done| |cbn; lia|].
    + apply N.mod_lt, N.pow_nonzero. done.
    + cbn [length N.of_nat]. rewrite N.mul_0_r. unfold digits_num. cbn [fold_left N.pow]. lia.
  - destruct (b32_sym d) as (-> & _); [done|]. cbn [mbind option_bind].
    rewrite (shift_in buffer d 5 16 Hd Hbuf ltac:(done)). change 0xffff%N with (2 ^ 16 - 1)%N.
    rewrite land_ones_mod. set (buffer1 := ((buffer * 2 ^ 5 + d) mod 2 ^ 16)%N).
    assert (buffer1 < 2 ^ 16)%N as Hb1 by (apply N.mod_lt; done).
    assert (buffer1 mod 2 ^ (bits + 5) = (buffer mod 2 ^ bits) * 2 ^ 5 + d)%N as Hlow.
    { unfold buffer1.
      replace (2 ^ 16)%N with (2 ^ (bits + 5) * 2 ^ (16 - (bits + 5)))%N by (rewrite <- N.pow_add_r; f_equal; lia).
      rewrite N.Div0.mod_mul_r, (N.mul_comm (2 ^ (bits + 5)) (_ mod _)), N.Div0.mod_add, N.Div0.mod_mod.
      replace (2 ^ (bits + 5))%N with (2 ^ 5 * 2 ^ bits)%N by (rewrite <- N.pow_add_r; f_equal; lia).
      rewrite N.Div0.mod_mul_r, N.div_add_l, (N.div_small d), N.add_0_r by done.
      rewrite (N.add_comm (buffer * 2 ^ 5)), N.Div0.mod_add, N.mod_small by done. ring. }
    destruct (N.leb_spec 8 (bits + 5)) as [Hge|Hlt].
    + destruct (IH buffer1 (bits + 5 - 8)%N ltac:(lia) Hb1) as (out & bits' & low & -> & Hout & Hb' & Hl & Hlen & Hnum).
      cbn [mbind option_bind]. set (byte := N.land (N.shiftr buffer1 (bits + 5 - 8)) 0xff).
      assert (byte = (buffer1 / 2 ^ (bits + 5 - 8)) mod 2 ^ 8)%N as Hbyte.
      { unfold byte. change 0xff%N with (2 ^ 8 - 1)%N. by rewrite land_ones_mod, N.shiftr_div_pow2. }
      exists (byte :: out), bits', low. split_and!; [done| |done|done|cbn [length] in *; lia|].
      * constructor; [|done]. rewrite Hbyte. apply N.mod_lt. done.
      * rewrite !digits_num_cons. cbn [length] in *.
        replace (5 * N.of_nat (S (length gs)))%N with (5 + 5 * N.of_nat (length gs))%N by lia.
        rewrite N.pow_add_r.
        transitivity (byte * (2 ^ (8 * N.of_nat (length out)) * 2 ^ bits') +
          (digits_num 8 out * 2 ^ bits' + low))%N; [ring|]. rewrite Hnum.
        rewrite <- N.pow_add_r, Hlen, N.pow_add_r.
        transitivity ((byte * 2 ^ (bits + 5 - 8) + buffer1 mod 2 ^ (bits + 5 - 8)) *
           2 ^ (5 * N.of_nat (length gs)) + digits_num 5 gs)%N; [ring|].
        assert (byte * 2 ^ (bits + 5 - 8) + buffer1 mod 2 ^ (bits + 5 - 8) = buffer1 mod 2 ^ (bits + 5))%N as ->.
        { replace (2 ^ (bits + 5))%N with (2 ^ (bits + 5 - 8) * 2 ^ 8)%N by (rewrite <- N.pow_add_r; f_equal; lia).
          rewrite N.Div0.mod_mul_r, Hbyte. ring. }
        rewrite Hlow. ring.
    + destruct (IH buffer1 (bits + 5)%N ltac:(lia) Hb1) as (out & bits' & low & -> & Hout & Hb' & Hl & Hlen & Hnum).
      exists out, bits', low. split_and!; [done|done|done|done|cbn [length]; lia|].
      rewrite Hnum, Hlow, digits_num_cons. cbn [length].
      replace (5 * N.of_nat (S (length gs)))%N with (5 + 5 * N.of_nat (length gs))%N by lia.
      rewrite N.pow_add_r. ring.
Qed.

Lemma trim_end_pad_none s : Forall (fun c => c <> ch "=") s -> trim_end_pad s = s.
Proof.
  intros Hs. unfold trim_end_pad. assert (trim_pad_start (rev s) = rev s) as ->; [|apply rev_involutive].
  apply Forall_rev in Hs. rewrite <- rev_alt || idtac. destruct (rev s) as [|c r] eqn:E; [done|].
  cbn [trim_pad_start]. assert (c <> ch "=") as Hc.
  { rewrite Forall_forall in Hs. apply Hs. rewrite <- ?rev_alt, ?reverse_rev, ?E. by left. }
  by rewrite (proj2 (N.eqb_neq _ _) Hc).
Qed.

Lemma sym_text gs : Forall (fun d => d < 2 ^ 5)%N gs ->
  Forall (fun c => c <> ch "=") (map sym gs) /\ str_len (map sym gs) = length gs.
Proof.
  intros Hg. split.
  - apply Forall_map. eapply Forall_impl; [exact Hg|]. intros d Hd. by apply b32_sym.
  - rewrite str_len_ascii, length_map; [done|]. apply Forall_map.
    eapply Forall_impl; [exact Hg|]. intros d Hd. by apply b32_sym.
Qed.

Lemma base32_decode_encode data : Forall is_byte data -> base32_decode (base32_encode data) = Some data.
Proof.
  intros Hd. unfold base32_encode.
  destruct (encode_loop_num data 0 0 Hd ltac:(done) ltac:(done)) as (gs & pad & -> & Hg & Hpad & Hlen & Hnum).
  destruct (sym_text gs Hg) as [Hne Hl]. unfold base32_decode. rewrite trim_end_pad_none by done.
  rewrite Hl, Nat.eqb_refl, andb_false_r.
  destruct (decode_loop_num gs 0 0 Hg ltac:(done) ltac:(done)) as (out & bits' & low & -> & Hout & Hb & Hlow & Hlen2 & Hnum2).
  assert (length out = length data /\ bits' = pad) as [Hlo ->] by lia.
  rewrite N.mul_0_l, N.add_0_l in Hnum. change (0 mod 2 ^ 0)%N with 0%N in Hnum2. rewrite N.mul_0_l, N.add_0_l, Hnum in Hnum2.
  assert (out = data) as ->.
  { apply (digits_num_inj 8); [done|done|done|].
    assert (2 ^ pad <> 0)%N as Hnz by (apply N.pow_nonzero; done).
    apply (f_equal (fun n => n / 2 ^ pad)%N) in Hnum2.
    by rewrite N.div_add_l, (N.div_small low), N.add_0_r, N.div_mul in Hnum2. }
  assert (length gs mod 8 = 0 \/ length gs mod 8 = 2 \/ length gs mod 8 = 4 \/ length gs mod 8 = 5 \/
          length gs mod 8 = 7) as Hm.
  { assert (5 * length gs = 8 * length data + N.to_nat pad) by lia. assert (N.to_nat pad < 5) by lia.
    pose proof (Nat.div_mod (length gs) 8 ltac:(lia)). pose proof (Nat.mod_upper_bound (length gs) 8 ltac:(lia)).
    remember (length gs mod 8) as r. remember (length gs / 8) as q. lia. }
  destruct Hm as [-> |[-> |[-> |[-> | ->]]]]; reflexivity.
Qed.

(** *** The check of a code *)

Definition in_window (now step : N) : Prop :=
  (now / STEP_SECS - WINDOW_STEPS <= step <= sat_add MAX_U64 (now / STEP_SECS) WINDOW_STEPS)%N.

Lemma candidate_steps_elem now step : step ∈ candidate_steps now <-> in_window now step.
Proof.
  unfold candidate_steps, in_window.
  set (first := (now / STEP_SECS - WINDOW_STEPS)%N). set (last := sat_add MAX_U64 _ _).
  rewrite list_elem_of_fmap. split.
  - intros (i & -> & Hi). apply elem_of_seq in Hi. lia.
  - intros [H1 H2]. exists (N.to_nat (step - first)). rewrite elem_of_seq. lia.
Qed.

(** The last of increasing steps that matches. *)
Lemma fold_matched (f : N -> bool) k first n :
  fold_left (fun m s => if f s then Some s else m)
    (map (fun i => (first + N.of_nat i)%N) (seq 0 n)) None = Some k <->
  (first <= k < first + N.of_nat n)%N /\ f k = true /\
  (forall s, (k < s < first + N.of_nat n)%N -> f s = false).
Proof.
  induction n as [|n IH].
  { split; [done|]. intros [? _]. lia. }
  rewrite seq_S, map_app, fold_left_app. cbn [map fold_left]. rewrite Nat.add_0_l.
  destruct (f (first + N.of_nat n)%N) eqn:E.
  - split.
    + intros [= <-]. split_and!; [lia|lia|done|]. intros s Hs. lia.
    + intros (Hk & Hf & Hall). f_equal. destruct (N.eq_dec k (first + N.of_nat n)%N) as [|Hne]; [done|].
      rewrite Hall in E; [done|]. lia.
  - rewrite IH. split.
    + intros (Hk & Hf & Hall). split_and!; [lia|lia|done|]. intros s Hs.
      destruct (N.eq_dec s (first + N.of_nat n)%N) as [->|]; [done|]. apply Hall. lia.
    + intros (Hk & Hf & Hall). assert (k <> first + N.of_nat n)%N by congruence.
      split_and!; [lia|lia|done|]. intros s Hs. apply Hall. lia.
Qed.

Lemma verify_ok `{HmacSha1} secret code now last_step step :
  verify secret code now last_step = Ok step <->
  length (List.filter is_ascii_digit code) = DIGITS /\
  in_window now step /\ code_at secret step = List.filter is_ascii_digit code /\
  (forall s, in_window now s -> code_at secret s = List.filter is_ascii_digit code -> (s <= step)%N) /\
  (forall l, last_step = Some l -> (l < step)%N).
Proof.
  unfold verify. set (digits := List.filter is_ascii_digit code).
  set (f := fun s => Nat.eqb (length digits) DIGITS && ct_eq (code_at secret s) digits).
  assert (forall s, f s = true <-> length digits = DIGITS /\ code_at secret s = digits) as Hf.
  { intros s. unfold f. by rewrite andb_true_iff, Nat.eqb_eq, ct_eq_iff. }
  unfold candidate_steps, in_window.
  set (first := (now / STEP_SECS - WINDOW_STEPS)%N). set (lst := sat_add MAX_U64 _ _).
  pose proof (fun k => fold_matched f k first (N.to_nat (lst + 1 - first))) as Hm. unfold f in Hm.
  destruct (fold_left _ _ None) as [k|].
  - destruct (proj1 (Hm k) eq_refl) as (Hk & Hfk & Hall). apply Hf in Hfk as [Hl Hc]. split.
    + intros Hok. assert (k = step /\ forall l, last_step = Some l -> (l < k)%N) as [-> Hlast].
      { destruct last_step as [l|].
        - destruct (N.leb_spec k l); [done|]. injection Hok as ->. split; [done|]. by intros ? [= <-].
        - injection Hok as ->. done. }
      split_and!; [done|lia|lia|done| |done]. intros s Hs Hcs.
      destruct (N.le_gt_cases s step) as [|Hgt]; [done|]. specialize (Hall s ltac:(lia)).
      assert (f s = true) by (by apply Hf). unfold f in *. congruence.
    + intros (_ & Hw & Hcs & Hmax & Hlast).
      assert (k = step) as ->.
      { assert (k <= step)%N by (apply Hmax; [lia|done]).
        destruct (N.eq_dec k step) as [|Hne]; [done|]. specialize (Hall step ltac:(lia)).
        assert (f step = true) by (by apply Hf). unfold f in *. congruence. }
      destruct last_step as [l|]; [|done].
      destruct (N.leb_spec step l); [|done]. specialize (Hlast l eq_refl). lia.
  - split; [done|]. intros (Hl & Hw & Hcs & Hmax & Hlast).
    assert (None = Some step) as [=]. apply Hm. split_and!; [lia|lia|by apply Hf|].
    intros s Hs. apply not_true_iff_false. intros [_ Hc]%Hf.
    assert (s <= step)%N by (apply Hmax; [lia|done]). lia.
Qed.

(** ** Properties *)

(** Base32 text of a secret is read back as that secret: the key an
    authenticator app was given is the one codes are checked with. *)
Theorem base32_roundtrip data :
  Forall is_byte data -> base32_decode (base32_encode data) = Some data.
Proof. apply base32_decode_encode. Qed.

Lemma base32_roundtrip_witness :
  base32_decode (base32_encode [0x66; 0x6f; 0x6f; 0x62; 0x61]%N) = Some [0x66; 0x6f; 0x6f; 0x62; 0x61]%N.
Proof. apply base32_roundtrip. by repeat constructor. Defined.

(** A code is accepted exactly when its six digits are the code of a
    step within one of now, for the latest such step, and that step is
    later than the last one used; the comparison of texts whose time tells
    nothing is equality. *)
Theorem verify_exact `{HmacSha1} secret code now last_step step :
  (verify secret code now last_step = Ok step <->
   length (List.filter is_ascii_digit code) = DIGITS /\
   (now / 30 - 1 <= step <= N.min MAX_U64 (now / 30 + 1))%N /\
   code_at secret step = List.filter is_ascii_digit code /\
   (forall s, (now / 30 - 1 <= s <= N.min MAX_U64 (now / 30 + 1))%N ->
      code_at secret s = List.filter is_ascii_digit code -> (s <= step)%N) /\
   (forall l, last_step = Some l -> (l < step)%N)) /\
  (forall a b, ct_eq a b = true <-> a = b).
Proof. split; [apply verify_ok|apply ct_eq_iff]. Qed.
