(* ===== verification/TotpStore.v ===== *)
(** A host's TOTP secrets and their state files
    ([crates/hostd/src/totp_store.rs]). A slot is what the files of one
    secret hold, and the flag that holds it locked in memory; whether a
    write succeeds is an argument. *)

From Stdlib Require Import Sorting.Sorted.
From S2P Require Import Prelude Json Pyfmt Lifecycle Names Durations Pool Mail Authority Hostexec HostTypes Totp TotpCode.
From stdpp Require Import options.

(** [TotpRefusal]'s text. *)
Definition TotpRefusal_text (r : TotpRefusal) : str :=
  match r with
  | HardLocked name =>
      lit "too many wrong codes; " ++ SecretName_as_str name
      ++ lit " is locked until root on the host clears it (agent-auth-hostctl totp-unlock "
      ++ SecretName_as_str name ++ lit ")"
  | Locked name secs =>
      lit "too many wrong codes; " ++ SecretName_as_str name ++ lit " is locked for "
      ++ show_N secs ++ lit "s"
  | Totp.WrongCode => lit "wrong code"
  | Totp.AlreadyUsed => lit "that code was already used; wait for the next one"
  end.

Inductive TotpError :=
| NotEnrolled (name : SecretName)
| AlreadyEnrolled (name : SecretName)
| TotpRefused (r : TotpRefusal)
| TotpIo (why : str).

Definition TotpError_text (e : TotpError) : str :=
  match e with
  | NotEnrolled name => lit "no " ++ SecretName_as_str name ++ lit " secret on this host (run totp-enroll)"
  | AlreadyEnrolled name =>
      SecretName_as_str name ++ lit " is already enrolled (rotate it to replace it)"
  | TotpRefused r => TotpRefusal_text r
  | TotpIo why => lit "TOTP store: " ++ why
  end.

(** One secret's files: the secret's bytes, if enrolled ([Err]: they cannot
    be read), its state ([None]: present but unreadable; a missing file is
    the default state), and the flag [unwritten]. *)
Record Slot := mkSlot {
  secret : option (result str bytes);
  stored : option TotpState;
  unwritten : bool;
}.
Definition Slot_empty : Slot := mkSlot None (Some TotpState_default) false.

Definition enrolled (s : Slot) : bool := negb (is_none (secret s)).

(** The generated secret is an argument. *)
Definition enroll (s : Slot) (name : SecretName) (replace : bool) (generated : bytes)
    : result TotpError bytes * Slot :=
  if enrolled s && negb replace then (Err (AlreadyEnrolled name), s)
  else (Ok generated, mkSlot (Some (Ok generated)) (Some TotpState_default) (unwritten s)).

Definition read_secret (s : Slot) (name : SecretName) : result TotpError bytes :=
  match secret s with
  | None => Err (NotEnrolled name)
  | Some r => map_err TotpIo r
  end.

(** [io]: the error of the write, if it fails. *)
Definition write_state (s : Slot) (state : TotpState) (io : option str) : result TotpError unit * Slot :=
  match io with
  | None => (Ok tt, mkSlot (secret s) (Some state) (unwritten s))
  | Some e => (Err (TotpIo e), mkSlot (secret s) (stored s) true)
  end.

Section verify.
Context `{HmacSha1}.

Definition store_verify (s : Slot) (name : SecretName) (code : str) (now : N) (io : option str)
  : result TotpError AcceptedCode * Slot :=
  match read_secret s name with
  | Err e => (Err e, s)
  | Ok secret =>
    if unwritten s then (Err (TotpRefused (HardLocked name)), s)
    else match stored s with
    | None => (Err (TotpRefused (HardLocked name)), s)
    | Some state =>
        match begin state name now with
        | Err r => (Err (TotpRefused r), s)
        | Ok attempt =>
            let matched := to_option (verify secret code now None) in
            let '(outcome, state') := conclude attempt state matched in
            match outcome with
            | Err Totp.AlreadyUsed => (Err (TotpRefused Totp.AlreadyUsed), s)
            | _ =>
                match write_state s state' io with
                | (Err e, s') => (Err e, s')
                | (Ok _, s') => (map_err TotpRefused outcome, s')
                end
            end
        end
    end
  end.
End verify.

Definition store_clear_lock (s : Slot) (now : N) (io : option str) : result TotpError unit * Slot :=
  let state := match stored s with
    | Some state => state
    | None => mkTotp (Some (sat_add MAX_U64 (now / Totp.STEP_SECS) Totp.WINDOW_STEPS)) 0 0 None [] false
    end in
  match write_state s (clear_lock state) io with
  | (Err e, s') => (Err e, s')
  | (Ok _, s') => (Ok tt, mkSlot (secret s') (stored s') false)
  end.

(** [TotpStore::locked]: does it refuse every code now? *)
Definition store_locked (s : Slot) (name : SecretName) (now : N) : bool :=
  if unwritten s then true
  else match stored s with
  | None => true
  | Some state => negb (is_none (lock_reason state name now))
  end.

(** ** A secret's life on disk *)

Section life.
Context `{HmacSha1}.

(** Codes checked, root clearing the lock (each with the error of its
    write, if any), and the state file going bad. *)
Inductive StoreEvent :=
| SVerify (now : N) (code : str) (io : option str)
| SClear (now : N) (io : option str)
| SCorrupt.

Definition store_step (s : Slot) (name : SecretName) (e : StoreEvent)
  : option AcceptedCode * Slot :=
  match e with
  | SVerify now code io =>
    let '(r, s') := store_verify s name code now io in (to_option r, s')
  | SClear now io => (None, (store_clear_lock s now io).2)
  | SCorrupt => (None, mkSlot (secret s) None (unwritten s))
  end.

(** The codes accepted, in order. *)
Fixpoint store_life (s : Slot) (name : SecretName) (events : list StoreEvent) : list AcceptedCode :=
  match events with
  | [] => []
  | e :: events =>
    let '(accepted, s') := store_step s name e in
    match accepted with Some c => [c] | None => [] end ++ store_life s' name events
  end.

Definition event_time (e : StoreEvent) : option N :=
  match e with SVerify now _ _ | SClear now _ => Some now | SCorrupt => None end.

(** Times that do not go back. *)
Fixpoint clock_from (t : N) (events : list StoreEvent) : Prop :=
  match events with
  | [] => True
  | e :: events =>
    match event_time e with
    | Some now => (t <= now)%N /\ clock_from now events
    | None => clock_from t events
    end
  end.

Definition last_window_step (t : N) : N := sat_add MAX_U64 (t / Totp.STEP_SECS) Totp.WINDOW_STEPS.

(** A step accepted so far is remembered by the state, or lies within the
    window that clearing an unreadable state rules out. *)
Definition spent_by (t : N) (s : Slot) (b : N) : Prop :=
  (b <= last_window_step t)%N /\
  forall st, stored s = Some st -> exists l, last_step st = Some l /\ (b <= l)%N.

Lemma last_window_step_mono t t' : (t <= t')%N -> (last_window_step t <= last_window_step t')%N.
Proof.
  intros Ht. unfold last_window_step, sat_add.
  pose proof (N.Div0.div_le_mono t t' Totp.STEP_SECS Ht). lia.
Qed.

Lemma spent_by_later t t' s b : (t <= t')%N -> spent_by t s b -> spent_by t' s b.
Proof. intros Ht [Hb Hs]. split; [|done]. etrans; [exact Hb|]. by apply last_window_step_mono. Qed.

Lemma store_verify_cases s name code now io :
  let '(r, s') := store_verify s name code now io in
  (exists e, r = Err e /\ forall b, spent_by now s b -> spent_by now s' b) \/
  (exists c sec st, r = Ok c /\ secret s = Some (Ok sec) /\ stored s = Some st /\ unwritten s = false /\
   verify sec code now None = Ok (code_step c) /\ code_name c = name /\
   (code_step c <= last_window_step now)%N /\
   (forall l, last_step st = Some l -> (l < code_step c)%N) /\
   exists st', s' = mkSlot (secret s) (Some st') false /\ last_step st' = Some (code_step c)).
Proof.
  unfold store_verify, read_secret. destruct (secret s) as [[sec|e]|] eqn:Esec; cbn [map_err].
  2,3: left; by eexists.
  destruct (unwritten s) eqn:Eu; [left; by eexists|].
  destruct (stored s) as [st|] eqn:Est; [|left; by eexists].
  unfold begin. destruct (lock_reason st name now) as [r|] eqn:El; [left; by eexists|].
  pose proof (conclude_cases (mkAttempt name now) st (to_option (verify sec code now None))) as Hc.
  destruct (conclude _ st _) as [o st'].
  assert (forall st', last_step st' = last_step st -> forall io e s'',
  write_state s st' io = (e, s'') -> forall b, spent_by now s b -> spent_by now s'' b) as Hkeep.
  { intros st0 H0 io0 e s'' Hw b [Hb Hs]. split; [done|]. intros st1 Hst1.
  unfold write_state in Hw. destruct io0; injection Hw as <- <-; cbn in Hst1.
  - by apply Hs.
  - injection Hst1 as <-. rewrite H0. by apply Hs. }
  destruct Hc as [[-> ->]|[[-> ->]|(step & -> & Hm & _ & Hw & Hl & ->)]].
  - destruct (write_state s (fail (mkAttempt name now) st) io) as [[u|e] s''] eqn:Ew;
    left; eexists; (split; [reflexivity|]); eapply Hkeep; try exact Ew; apply fail_last.
  - left. by eexists.
  - destruct io as [e|]; cbn [write_state map_err].
  + left. eexists. split; [done|]. intros b [Hb Hs]. split; [done|]. exact Hs.
  + right. destruct (verify sec code now None) as [k|] eqn:Ev; [|done]. injection Hm as ->.
    eexists _, sec, st. split_and!; try done. rewrite ?Eu, ?Esec. eexists. split; [reflexivity|done].
Qed.

(** A refusal never changes the last step used. *)
Lemma store_verify_refused s name code now io e s' :
  store_verify s name code now io = (Err e, s') ->
  forall st', stored s' = Some st' -> exists st, stored s = Some st /\ last_step st' = last_step st.
Proof.
  unfold store_verify. destruct (read_secret s name) as [sec|]; [|intros [= _ <-]; eauto].
  destruct (unwritten s); [intros [= _ <-]; eauto|].
  destruct (stored s) as [st|] eqn:Est; [|intros [= _ <-]; rewrite Est; eauto].
  unfold begin. destruct (lock_reason st name now) as [r|]; [intros [= _ <-]; rewrite Est; eauto|].
  pose proof (conclude_cases (mkAttempt name now) st (to_option (verify sec code now None))) as Hc.
  destruct (conclude _ st _) as [o st1]. unfold write_state.
  destruct Hc as [[-> ->]|[[-> ->]|(step & -> & _ & _ & _ & _ & ->)]].
  - destruct io; intros [= _ <-]; cbn [stored]; [rewrite Est; eauto|].
  intros st' [= <-]. exists st. split; [done|]. apply fail_last.
  - intros [= _ <-]. rewrite Est. eauto.
  - destruct io; intros Heq; [|done]. injection Heq as _ <-. cbn [stored]. rewrite Est. eauto.
Qed.

Lemma store_life_steps s name events t bound :
  clock_from t events -> (forall b, bound = Some b -> spent_by t s b) ->
  StronglySorted N.lt (map code_step (store_life s name events)) /\
  above bound (map code_step (store_life s name events)).
Proof.
  revert s t bound. induction events as [|e events IH]; intros s t bound Hc Hb; cbn [store_life].
  { split; [constructor|]. by destruct bound; constructor. }
  cbn [clock_from] in Hc. destruct e as [now code io|now io|]; cbn [event_time] in Hc; cbn [store_step].
  - destruct Hc as [Ht Hc]. pose proof (store_verify_cases s name code now io) as Hv.
  destruct (store_verify s name code now io) as [r s'].
  destruct Hv as [(e & -> & Hk)|(c & sec & st & -> & _ & Hst & _ & _ & _ & Hw & Hl & st' & -> & Hst')];
    cbn [to_option app].
  + apply (IH s' now); [done|]. intros b ->. apply Hk, (spent_by_later t); [done|by apply Hb].
  + cbn [map]. destruct (IH (mkSlot (secret s) (Some st') false) now (Some (code_step c)) Hc) as [Hs Ha].
    { intros b [= <-]. split; [done|]. intros st0 [= <-]. eauto. }
    split; [by constructor|]. destruct bound as [b|]; [|done]. constructor; [|].
    * destruct (Hb b eq_refl) as [_ Hbs]. destruct (Hbs st Hst) as (l & Hll & Hle).
      specialize (Hl l Hll). lia.
    * eapply Forall_impl; [exact Ha|]. cbn. intros x Hx.
      destruct (Hb b eq_refl) as [_ Hbs]. destruct (Hbs st Hst) as (l & Hll & Hle).
      specialize (Hl l Hll). lia.
  - destruct Hc as [Ht Hc]. cbn [app]. apply (IH _ now); [done|]. intros b ->.
  destruct (spent_by_later t now s b Ht (Hb b eq_refl)) as [Hbw Hbs]. split; [done|].
  unfold store_clear_lock, write_state. intros st0.
  destruct io as [e|]; cbn [snd stored].
  + intros Hst. by apply Hbs.
  + intros [= <-]. destruct (stored s) as [st|] eqn:Est; cbn [clear_lock last_step].
    * by apply Hbs.
    * eexists. split; [done|]. exact Hbw.
  - cbn [app]. apply (IH _ t); [done|]. intros b ->. destruct (Hb b eq_refl) as [Hbw _].
  split; [done|]. intros st [=].
Qed.
End life.

(** ** Properties *)

(** On a clock that does not go back, a code is accepted for a step at
    most once and steps only go up, whatever happens to the state file:
    writes that fail, a file that cannot be read any more, root clearing
    the lock. An unreadable state never lets a code be used again. *)
Theorem store_single_use `{HmacSha1} slot name events t :
  clock_from t events -> StronglySorted N.lt (map code_step (store_life slot name events)).
Proof. intros Hc. by apply (store_life_steps slot name events t None Hc). Qed.

Lemma store_single_use_witness :
  let h := Build_HmacSha1 (fun _ _ => repeat 0%N 20) in
  let s := mkSlot (Some (Ok (repeat 1%N 20))) (Some TotpState_default) false in
  let go := SVerify 1000 (lit "000000") None in
  map code_step (@store_life h s (mkSecret User PurposeArm)
    [go; go; SCorrupt; go; SClear 1000 None; go; SVerify 1100 (lit "000 000") None]) = [34; 37]%N /\
  StronglySorted N.lt [34; 37]%N.
Proof.
  intros h s go. split; [vm_compute; reflexivity|].
  apply (@store_single_use h s (mkSecret User PurposeArm)
    [go; go; SCorrupt; go; SClear 1000 None; go; SVerify 1100 (lit "000 000") None] 0).
  cbn. lia.
Defined.

(** A code is accepted only for the secret on this host: the code of a
    step in its window, of an enrolled secret that no lock holds, and its
    use is on disk before the caller sees it. *)
Theorem store_verify_accepts `{HmacSha1} slot name code now io accepted slot' :
  store_verify slot name code now io = (Ok accepted, slot') ->
  exists key st st', secret slot = Some (Ok key) /\ stored slot = Some st /\ unwritten slot = false /\
    verify key code now None = Ok (code_step accepted) /\ code_name accepted = name /\
    (forall l, last_step st = Some l -> (l < code_step accepted)%N) /\
    stored slot' = Some st' /\ last_step st' = Some (code_step accepted).
Proof.
  intros Hv. pose proof (store_verify_cases slot name code now io) as Hc. rewrite Hv in Hc.
  destruct Hc as [(e & [=] & _)|(c & key & st & [= <-] & Hk & Hst & Hu & Hver & Hn & _ & Hl & st' & -> & Hl')].
  by exists key, st, st'.
Qed.

Lemma store_verify_accepts_witness :
  let h := Build_HmacSha1 (fun _ _ => repeat 0%N 20) in
  exists key st st', Some (Ok (repeat 1%N 20)) = Some (@Ok str bytes key) /\
    Some TotpState_default = Some st /\ false = false /\
    @verify h key (lit "000000") 1000 None = Ok 34%N /\ mkSecret User PurposeArm = mkSecret User PurposeArm /\
    (forall l, last_step st = Some l -> (l < 34)%N) /\ Some (mkTotp (Some 34%N) 0 0 None [] false) = Some st' /\
    last_step st' = Some 34%N.
Proof.
  intros h.
  exact (@store_verify_accepts h (mkSlot (Some (Ok (repeat 1%N 20))) (Some TotpState_default) false)
    (mkSecret User PurposeArm) (lit "000000") 1000 None (mkAccepted (mkSecret User PurposeArm) 34)
    (mkSlot (Some (Ok (repeat 1%N 20))) (Some (mkTotp (Some 34%N) 0 0 None [] false)) false)
    ltac:(vm_compute; reflexivity)).
Defined.
