(* ===== verification/CanonicalJson.v ===== *)
(** JSON text as Python's [json.dumps] writes it
    ([crates/core/src/canonical_json.rs]): the canonical form that is hashed
    for digests, and the length of the default form. Text is collected in a
    sink: a string, or a count of bytes that saturates. *)

From S2P Require Import Prelude Json Pyfmt Lifecycle Names Durations Pool Mail Authority Hostexec HostTypes.
From stdpp Require Import options.

Inductive CanonicalError := NonInteger.
Inductive Style := Canonical | PythonDefault.

Definition item_sep (s : Style) : str :=
  match s with Canonical => lit "," | PythonDefault => lit ", " end.
Definition key_sep (s : Style) : str :=
  match s with Canonical => lit ":" | PythonDefault => lit ": " end.

(** ** Sinks *)

Class Sink (S : Type) := {
  push_str : S -> str -> S;
  push : S -> char -> S;
}.

#[export] Instance String_Sink : Sink str := {|
  push_str out s := out ++ s;
  push out c := out ++ [c];
|}.

(** UTF-8 length of a character, as [len_utf8]. *)
Definition len_utf8 (c : char) : N := N.of_nat (str_len [c]).

Record Counter := mkCounter { count : N }.
#[export] Instance Counter_Sink : Sink Counter := {|
  push_str out s := mkCounter (sat_add MAX_U64 (count out) (N.of_nat (str_len s)));
  push out c := mkCounter (sat_add MAX_U64 (count out) (len_utf8 c));
|}.

(** ** Floats *)

(** [{:e}] of a finite [f64]: the fewest digits between the halfway points
    to its neighbours, nearest to it. *)
Definition f64_sign (bits : N) : bool := N.testbit bits 63.
Definition f64_exp (bits : N) : N := (bits / 2 ^ 52) mod 2 ^ 11.
Definition f64_frac (bits : N) : N := bits mod 2 ^ 52.
Definition is_nan (bits : N) : bool := N.eqb (f64_exp bits) 2047 && negb (N.eqb (f64_frac bits) 0).
Definition is_infinite (bits : N) : bool := N.eqb (f64_exp bits) 2047 && N.eqb (f64_frac bits) 0.

Definition mantissa (bits : N) : N :=
  if N.eqb (f64_exp bits) 0 then f64_frac bits else 2 ^ 52 + f64_frac bits.
(** The value is [mantissa * 2 ^ (exponent2 + 2)] in quarters: four times
    the mantissa, so that the halfway points are whole. *)
Definition exponent2 (bits : N) : Z := Z.of_N (N.max (f64_exp bits) 1) - 1077.

(** [a * 2 ^ e] against [d * 10 ^ k], both made whole. *)
Definition scaled (e k : Z) (a d : N) : N * N :=
  ((a * Z.to_N (2 ^ Z.max e 0 * 10 ^ Z.max (- k) 0))%N,
   (d * Z.to_N (10 ^ Z.max k 0 * 2 ^ Z.max (- e) 0))%N).

Definition low_quarters (bits : N) : N :=
  if N.eqb (f64_frac bits) 0 && N.ltb 1 (f64_exp bits) then 4 * mantissa bits - 1
  else 4 * mantissa bits - 2.
Definition high_quarters (bits : N) : N := 4 * mantissa bits + 2.

(** Does [d * 10 ^ k] read back as this float? *)
Definition reads_back (bits : N) (k : Z) (d : N) : bool :=
  let '(low, x) := scaled (exponent2 bits) k (low_quarters bits) d in
  let '(high, y) := scaled (exponent2 bits) k (high_quarters bits) d in
  if N.even (mantissa bits) then N.leb low x && N.leb y high
  else N.ltb low x && N.ltb y high.

Definition digits_at (bits : N) (k : Z) : option N :=
  let '(v, unit) := scaled (exponent2 bits) k (4 * mantissa bits) 1 in
  let q := (v / unit)%N in
  let below := N.ltb 0 q && reads_back bits k q in
  let above := reads_back bits k (q + 1) in
  if below && above then
    let r := (v mod unit)%N in
    if N.ltb (2 * r) unit || (N.eqb (2 * r) unit && N.even q) then Some q else Some (q + 1)%N
  else if below then Some q
  else if above then Some (q + 1)%N
  else None.

Fixpoint shortest (fuel : nat) (bits : N) (k : Z) : N * Z :=
  match fuel with
  | O => (mantissa bits, 0%Z)
  | S fuel =>
      match digits_at bits k with
      | Some d => (d, k)
      | None => shortest fuel bits (k - 1)
      end
  end.

(** A power of ten above the value (whose base-2 logarithm is below [l]);
    17 digits always read back. *)
Definition first_power (bits : N) : Z :=
  let l := (exponent2 bits + 3 + Z.of_N (N.log2 (mantissa bits)))%Z in
  (l * 30103 / 100000 + 2)%Z.

(** The text of [{value:e}]. *)
Definition lower_exp (bits : N) : str :=
  (if f64_sign bits then lit "-" else [])
  ++ if N.eqb (mantissa bits) 0 then lit "0e0"
     else
       let '(d, k) := shortest 25 bits (first_power bits) in
       match show_N d with
       | [] => []
       | c :: rest =>
           c :: (if bool_decide (rest = []) then [] else ch "." :: rest)
           ++ lit "e" ++ show_Z (k + Z.of_nat (length rest))
       end.

(** [str::parse::<i64>] of such an exponent. *)
Definition parse_exponent (s : str) : Z :=
  match strip_prefix (lit "-") s with
  | Some rest => - Z.of_N (digits_value rest)
  | None => Z.of_N (digits_value s)
  end.

Definition zeros (n : nat) : str := repeat (ch "0") n.

Definition python_float_repr (bits : N) : str :=
  if is_nan bits then lit "NaN"
  else if is_infinite bits then
    if f64_sign bits then lit "-Infinity" else lit "Infinity"
  else
    let sci := lower_exp bits in
    let '(negative, unsigned) :=
      match strip_prefix (lit "-") sci with
      | Some rest => (true, rest) | None => (false, sci) end in
    let '(mantissa, exponent) := default (unsigned, lit "0") (split_once (ch "e") unsigned) in
    let digits := List.filter is_ascii_digit mantissa in
    let decpt := (parse_exponent exponent + 1)%Z in
    (if negative then lit "-" else [])
    ++ if Z.leb decpt (-4) || Z.ltb 16 decpt then
         let first := take 1 digits in
         let rest := drop 1 digits in
         let shown := (decpt - 1)%Z in
         first
         ++ (if bool_decide (rest = []) then [] else lit "." ++ rest)
         ++ lit "e" ++ (if Z.ltb shown 0 then lit "-" else lit "+")
         ++ (if Z.ltb (Z.abs shown) 10 then lit "0" else []) ++ show_N (Z.abs_N shown)
       else if Z.leb decpt 0 then
         lit "0." ++ zeros (Z.abs_nat decpt) ++ digits
       else
         let point := Z.to_nat decpt in
         if Nat.ltb point (length digits) then take point digits ++ lit "." ++ drop point digits
         else digits ++ zeros (point - length digits) ++ lit ".0".


(** ** Writing *)

(** What writes to a sink, and whether it could. *)
Section writer.
Context {S : Type} `{Sink S}.

Definition Writer : Type := S -> S * result CanonicalError unit.
Definition w_str (s : str) : Writer := fun out => (push_str out s, Ok tt).
Definition w_char (c : char) : Writer := fun out => (push out c, Ok tt).
Definition w_nothing : Writer := fun out => (out, Ok tt).
Definition w_fail (e : CanonicalError) : Writer := fun out => (out, Err e).
Definition w_then (a b : Writer) : Writer := fun out =>
  match a out with
  | (out', Ok _) => b out'
  | (out', Err e) => (out', Err e)
  end.

Definition HEX : str := lit "0123456789abcdef".
Definition push_u16_escape (unit : N) : Writer :=
  foldl (fun w shift =>
    w_then w (w_char (default (ch "0") (HEX !! N.to_nat (N.land (N.shiftr unit shift) 0xf)))))
  (w_str (lit "\u")) [12; 8; 4; 0]%N.

Definition write_char (c : char) : Writer :=
  if N.eqb c dquote then w_str (backslash :: [dquote])
  else if N.eqb c backslash then w_str [backslash; backslash]
  else if N.eqb c 10 then w_str (lit "\n")
  else if N.eqb c 13 then w_str (lit "\r")
  else if N.eqb c 9 then w_str (lit "\t")
  else if N.eqb c 8 then w_str (lit "\b")
  else if N.eqb c 12 then w_str (lit "\f")
  else if in_range (ch " ") (ch "~") c then w_char c
  else foldl (fun w unit => w_then w (push_u16_escape unit)) w_nothing (encode_utf16 c).

Definition write_string (s : str) : Writer :=
  w_then (foldl (fun w c => w_then w (write_char c)) (w_char dquote) s) (w_char dquote).

Definition write_number (n : Number) (style : Style) : Writer :=
  match Number_as_i64 n, Number_as_u64 n with
  | Some i, _ => w_str (show_Z i)
  | None, Some u => w_str (show_N u)
  | None, None =>
    match style with
    | Canonical => w_fail NonInteger
    | PythonDefault =>
        w_str (python_float_repr (match n with Float bits => bits | _ => 0 end))
    end
  end.

(** Items with their separator between them. *)
Fixpoint write_separated (sep : str) (first : bool) (items : list Writer) : Writer :=
  match items with
  | [] => w_nothing
  | w :: items =>
    w_then (if first then w_nothing else w_str sep)
      (w_then w (write_separated sep false items))
  end.

(** An object's entries are sorted by key; a map's keys are distinct, so
    inserting them in order sorts them. *)
Fixpoint write_value (value : Value) (style : Style) : Writer :=
  match value with
  | VNull => w_str (lit "null")
  | VBool true => w_str (lit "true")
  | VBool false => w_str (lit "false")
  | VNumber n => write_number n style
  | VString s => write_string s
  | VArray items =>
    w_then (w_char (ch "["))
      (w_then (write_separated (item_sep style) true (map (fun item => write_value item style) items))
        (w_char (ch "]")))
  | VObject m =>
    let entries := map_of_list (map (fun kv => (kv.1, write_value kv.2 style)) m) in
    w_then (w_char (ch "{"))
      (w_then (write_separated (item_sep style) true
                 (map (fun kw : str * Writer =>
                    w_then (write_string kw.1) (w_then (w_str (key_sep style)) kw.2)) entries))
        (w_char (ch "}")))
  end.
End writer.
Arguments Writer : clear implicits.

Definition to_canonical_string (value : Value) : result CanonicalError str :=
  match write_value value Canonical [] with
  | (out, Ok _) => Ok out
  | (_, Err e) => Err e
  end.

Definition python_dumps_len (value : Value) : N :=
  count (write_value value PythonDefault (mkCounter 0)).1.

Definition to_python_default_string (value : Value) : str :=
  (write_value value PythonDefault []).1.

(** ** The text written *)

(** What a value is written as, part by part ([None]: it has no form). *)
Definition number_text (style : Style) (n : Number) : option str :=
  match Number_as_i64 n, Number_as_u64 n with
  | Some i, _ => Some (show_Z i)
  | None, Some u => Some (show_N u)
  | None, None =>
      match style with
      | Canonical => None
      | PythonDefault =>
          Some (python_float_repr (match n with Float bits => bits | _ => 0%N end))
      end
  end.

Definition entry_text (style : Style) (kt : str * option str) : option str :=
  t ← kt.2; Some (json_str kt.1 ++ key_sep style ++ t).

Fixpoint rendered (style : Style) (v : Value) : option str :=
  match v with
  | VNull => Some (lit "null")
  | VBool true => Some (lit "true")
  | VBool false => Some (lit "false")
  | VNumber n => number_text style n
  | VString s => Some (json_str s)
  | VArray items =>
      ts ← mapM id (map (rendered style) items);
      Some (lit "[" ++ join (item_sep style) ts ++ lit "]")
  | VObject m =>
      ts ← mapM (entry_text style) (map_of_list (map (fun kv => (kv.1, rendered style kv.2)) m));
      Some (lit "{" ++ join (item_sep style) ts ++ lit "}")
  end.

(** A writer, at both sinks, writes exactly this text. *)
Definition emits (ws : Writer str) (wc : Writer Counter) (o : option str) : Prop :=
  match o with
  | Some t =>
      (forall out, ws out = (out ++ t, Ok tt)) /\
      (forall n, (count n <= MAX_U64)%N ->
        wc n = (mkCounter (N.min MAX_U64 (count n + N.of_nat (str_len t))), Ok tt))
  | None =>
      (forall out, (ws out).2 = Err NonInteger) /\ (forall n, (wc n).2 = Err NonInteger)
  end.

Lemma str_len_app a b : str_len (a ++ b) = str_len a + str_len b.
Proof. induction a as [|c a IH]; cbn [app str_len]; [done|]. rewrite IH. lia. Qed.

Lemma emits_str t : emits (w_str t) (w_str t) (Some t).
Proof. split; [done|]. intros n Hn. done. Qed.
Lemma emits_char c : emits (w_char c) (w_char c) (Some [c]).
Proof. split; [done|]. intros n Hn. done. Qed.
Lemma emits_nothing : emits w_nothing w_nothing (Some []).
Proof.
  split; [intros; by rewrite app_nil_r|]. intros [n] Hn. cbn in *.
  unfold w_nothing. do 2 f_equal. lia.
Qed.
Lemma emits_fail : emits (w_fail NonInteger) (w_fail NonInteger) None.
Proof. done. Qed.

Lemma emits_then as_ ac bs bc oa ob :
  emits as_ ac oa -> emits bs bc ob ->
  emits (w_then as_ bs) (w_then ac bc) (a ← oa; b ← ob; Some (a ++ b)).
Proof.
  unfold w_then. destruct oa as [a|]; cbn [mbind option_bind emits].
  2:{ intros [Hs Hc] _. split; [intros out; specialize (Hs out)|intros n; specialize (Hc n)].
      - by destruct (as_ out) as [? [|]].
      - by destruct (ac n) as [? [|]]. }
  intros [Hs Hc]. destruct ob as [b|]; cbn [mbind option_bind emits]; intros [Hs' Hc'].
  - split.
    + intros out. by rewrite Hs, Hs', app_assoc.
    + intros n Hn. rewrite Hc, Hc' by (cbn; lia). cbn [count]. rewrite str_len_app.
      do 2 f_equal. lia.
  - split; [intros out; rewrite Hs; apply Hs'|]. intros n. destruct (ac n) as [n' r] eqn:E.
    destruct r as [u|[]]; [apply Hc'|done].
Qed.

Lemma emits_foldl {A} (fs : A -> Writer str) (fc : A -> Writer Counter) (text : A -> str) ws wc t l :
  (forall x, x ∈ l -> emits (fs x) (fc x) (Some (text x))) -> emits ws wc (Some t) ->
  emits (foldl (fun w x => w_then w (fs x)) ws l) (foldl (fun w x => w_then w (fc x)) wc l)
    (Some (t ++ flat_map text l)).
Proof.
  revert ws wc t. induction l as [|x l IH]; intros ws wc t Hf Hw; cbn [foldl flat_map].
  { by rewrite app_nil_r. }
  rewrite app_assoc. apply IH; [intros y Hy; apply Hf; by right|].
  apply (emits_then _ _ _ _ (Some t) (Some (text x)) Hw). apply Hf. by left.
Qed.

Lemma hex_nibble d :
  (d < 16)%N -> default (ch "0") (HEX !! N.to_nat d) = hex_digit d.
Proof.
  intros Hd. rewrite <- (N2Nat.id d). assert (Hl : N.to_nat d < 16) by lia. revert Hl.
  generalize (N.to_nat d). intros n Hn. do 16 (destruct n as [|n]; [reflexivity|]). lia.
Qed.

Lemma nibble_at u k : N.land (N.shiftr u k) 0xf = ((u / 2 ^ k) mod 16)%N.
Proof.
  change 0xf%N with (N.ones 4). rewrite N.land_ones, N.shiftr_div_pow2. reflexivity.
Qed.

Lemma hex_fixed_4 u :
  hex_fixed 4 u = map (fun k => hex_digit ((u / 2 ^ k) mod 16)%N) [12; 8; 4; 0]%N.
Proof.
  cbn [hex_fixed map app]. rewrite !N.Div0.div_div. change (2 ^ 0)%N with 1%N.
  rewrite N.div_1_r. reflexivity.
Qed.

Lemma emits_u16 unit :
  emits (push_u16_escape unit) (push_u16_escape unit) (Some (lit "\u" ++ hex_fixed 4 unit)).
Proof.
  rewrite hex_fixed_4.
  replace (map _ _) with (flat_map (fun k => [hex_digit ((unit / 2 ^ k) mod 16)%N]) [12; 8; 4; 0]%N)
    by reflexivity.
  unfold push_u16_escape. apply emits_foldl; [|apply emits_str].
  intros k _. rewrite nibble_at, hex_nibble by (apply N.mod_lt; done). apply emits_char.
Qed.

Lemma emits_write_char c : emits (write_char c) (write_char c) (Some (json_char c)).
Proof.
  unfold write_char, json_char.
  repeat (match goal with |- context [if ?b then _ else _] => destruct b end;
          [first [apply emits_str|apply emits_char]|]).
  apply (emits_foldl push_u16_escape push_u16_escape (fun u => lit "\u" ++ hex_fixed 4 u) _ _ []);
    [|apply emits_nothing].
  intros u _. apply emits_u16.
Qed.

Lemma emits_string s : emits (write_string s) (write_string s) (Some (json_str s)).
Proof.
  unfold write_string, json_str, push_json_str. rewrite app_assoc.
  apply (emits_then _ _ _ _ (Some ([dquote] ++ flat_map json_char s)) (Some [dquote])).
  - apply emits_foldl; [intros c _; apply emits_write_char|apply emits_char].
  - apply emits_char.
Qed.

Lemma emits_number n style : emits (write_number n style) (write_number n style) (number_text style n).
Proof.
  unfold write_number, number_text.
  repeat case_match; try apply emits_str; apply emits_fail.
Qed.

Lemma join_cons sep t ts :
  join sep (t :: ts) = t ++ match ts with [] => [] | _ => sep ++ join sep ts end.
Proof. destruct ts; cbn [join]; [by rewrite app_nil_r|done]. Qed.

Lemma emits_separated sep first ws wc os :
  Forall3 emits ws wc os ->
  emits (write_separated sep first ws) (write_separated sep first wc)
    (ts ← mapM id os;
     Some (match ts with [] => [] | _ => (if first then [] else sep) ++ join sep ts end)).
Proof.
  intros H. revert first. induction H as [|w c o ws wc os Hw _ IH]; intros first.
  { apply emits_nothing. }
  cbn [write_separated mapM].
  assert (Hsep : emits (if first then w_nothing else w_str sep)
                       (if first then w_nothing else w_str sep)
                       (Some (if first then [] else sep))).
  { destruct first; [apply emits_nothing|apply emits_str]. }
  pose proof (emits_then _ _ _ _ _ _ Hsep (emits_then _ _ _ _ _ _ Hw (IH false))) as He.
  destruct o as [t|]; cbn [mbind option_bind id] in *; [|exact He].
  destruct (mapM id os) as [ts|]; cbn [mbind option_bind] in *; [|exact He].
  cbn [mret option_ret mbind option_bind]. rewrite join_cons. by destruct ts.
Qed.

Lemma map_insert_Forall3 {A B C} (R : A -> B -> C -> Prop) k a b c la lb lc :
  R a b c ->
  Forall3 (fun x y z => x.1 = y.1 /\ y.1 = z.1 /\ R x.2 y.2 z.2) la lb lc ->
  Forall3 (fun (x : str * A) (y : str * B) (z : str * C) => x.1 = y.1 /\ y.1 = z.1 /\ R x.2 y.2 z.2)
    (map_insert k a la) (map_insert k b lb) (map_insert k c lc).
Proof.
  intros Hr. induction 1 as [|[ka va] [kb vb] [kc vc] la lb lc (E1 & E2 & Hv) Hl IH]; cbn in *.
  { by repeat constructor. }
  subst. destruct (str_compare k kc); repeat constructor; try done.
Qed.

Lemma map_of_list_Forall3 {A B C} (R : A -> B -> C -> Prop) la lb lc :
  Forall3 (fun (x : str * A) (y : str * B) (z : str * C) => x.1 = y.1 /\ y.1 = z.1 /\ R x.2 y.2 z.2)
    la lb lc ->
  Forall3 (fun x y z => x.1 = y.1 /\ y.1 = z.1 /\ R x.2 y.2 z.2)
    (map_of_list la) (map_of_list lb) (map_of_list lc).
Proof.
  unfold map_of_list. intros H.
  assert (H0 : Forall3 (fun (x : str * A) (y : str * B) (z : str * C) =>
            x.1 = y.1 /\ y.1 = z.1 /\ R x.2 y.2 z.2) [] [] []) by constructor.
  revert H0. generalize (@nil (str * A)) (@nil (str * B)) (@nil (str * C)).
  induction H as [|[ka a] [kb b] [kc c] la lb lc (E1 & E2 & Hv) Hl IH]; cbn in *; [done|].
  subst. intros ma mb mc Hm. apply IH. by apply map_insert_Forall3.
Qed.

Lemma write_value_emits style v : emits (write_value v style) (write_value v style) (rendered style v).
Proof.
  induction v as [|[]|n|s|items IH|m IH] using Value_rect'; cbn [write_value rendered].
  - apply emits_str.
  - apply emits_str.
  - apply emits_str.
  - apply emits_number.
  - apply emits_string.
  - assert (Hs : Forall3 emits (map (fun item => write_value item style) items)
             (map (fun item => write_value item style) items) (map (rendered style) items)).
    { induction IH; cbn; constructor; done. }
    pose proof (emits_then _ _ _ _ _ _ (emits_char (ch "["))
      (emits_then _ _ _ _ _ _ (emits_separated (item_sep style) true _ _ _ Hs) (emits_char (ch "]"))))
      as He.
    destruct (mapM id _) as [ts|]; cbn [mbind option_bind] in *; [|exact He]. by destruct ts.
  - assert (Hs : Forall3 emits
       (map (fun kw : str * Writer str =>
               w_then (write_string kw.1) (w_then (w_str (key_sep style)) kw.2))
          (map_of_list (map (fun kv => (kv.1, write_value kv.2 style)) m)))
       (map (fun kw : str * Writer Counter =>
               w_then (write_string kw.1) (w_then (w_str (key_sep style)) kw.2))
          (map_of_list (map (fun kv => (kv.1, write_value kv.2 style)) m)))
       (map (entry_text style) (map_of_list (map (fun kv => (kv.1, rendered style kv.2)) m)))).
    { assert (H3 : Forall3 (fun (x : str * Writer str) (y : str * Writer Counter) z =>
               x.1 = y.1 /\ y.1 = z.1 /\ emits x.2 y.2 z.2)
         (map (fun kv => (kv.1, write_value kv.2 style)) m)
         (map (fun kv => (kv.1, write_value kv.2 style)) m)
         (map (fun kv => (kv.1, rendered style kv.2)) m)).
      { induction IH; cbn; constructor; done. }
      apply map_of_list_Forall3 in H3. induction H3 as [|x y z ? ? ? (E1 & E2 & Hw)]; cbn; constructor; [|done].
      rewrite E1, E2.
      pose proof (emits_then _ _ _ _ _ _ (emits_string z.1)
        (emits_then _ _ _ _ _ _ (emits_str (key_sep style)) Hw)) as He.
      unfold entry_text. by destruct z.2. }
    pose proof (emits_then _ _ _ _ _ _ (emits_char (ch "{"))
      (emits_then _ _ _ _ _ _ (emits_separated (item_sep style) true _ _ _ Hs) (emits_char (ch "}"))))
      as He.
    replace (mapM id (map (entry_text style) _)) with
      (mapM (entry_text style) (map_of_list (map (fun kv => (kv.1, rendered style kv.2)) m))) in He.
    2:{ generalize (map_of_list (map (fun kv => (kv.1, rendered style kv.2)) m)). intros l.
        induction l as [|x l IHl]; [done|]. cbn [map mapM]. by rewrite IHl. }
    destruct (mapM (entry_text style) _) as [ts|]; cbn [mbind option_bind] in *; [|exact He].
    by destruct ts.
Qed.

Lemma to_canonical_string_rendered v :
  to_canonical_string v = ok_or (rendered Canonical v) NonInteger.
Proof.
  unfold to_canonical_string. pose proof (write_value_emits Canonical v) as He.
  destruct (rendered Canonical v) as [t|]; destruct He as [Hs _].
  - by rewrite Hs.
  - specialize (Hs []). destruct (write_value v Canonical []) as [out [u|e]]; [done|].
    by destruct e.
Qed.

Lemma python_default_renders v : exists t, rendered PythonDefault v = Some t.
Proof.
  induction v as [|[]|n|s|items IH|m IH] using Value_rect'; cbn [rendered]; try by eauto.
  - unfold number_text. repeat case_match; eauto.
  - assert (exists ts, mapM id (map (rendered PythonDefault) items) = Some ts) as [ts ->]; [|by eauto].
    apply mapM_is_Some, Forall_map. eapply Forall_impl; [exact IH|]. intros v [t Ht]. by exists t.
  - assert (Forall (fun kt : str * option str => exists t, kt.2 = Some t)
        (map_of_list (map (fun kv => (kv.1, rendered PythonDefault kv.2)) m))) as Hf.
    { unfold map_of_list.
      assert (H0 : Forall (fun kt : str * option str => exists t, kt.2 = Some t) []) by constructor.
      revert H0. generalize (@nil (str * option str)).
      induction IH as [|[k v] m' [t Ht] _ IHm]; cbn; [done|]. intros acc Hacc. apply IHm.
      cbn in Ht. rewrite Ht. clear -Hacc. induction Hacc as [|[k' o] l Ho Hl IHl]; cbn.
      - repeat constructor. by eauto.
      - destruct (str_compare k k'); repeat constructor; cbn in *; eauto. }
    assert (exists ts, mapM (entry_text PythonDefault)
        (map_of_list (map (fun kv => (kv.1, rendered PythonDefault kv.2)) m)) = Some ts) as [ts ->]; [|by eauto].
    apply mapM_is_Some. eapply Forall_impl; [exact Hf|]. intros [k o] [t Ht]. cbn in Ht. subst o.
    by eexists.
Qed.
(** ** Canonical text determines the value *)

(** What a [Value] holds: text is UTF-8, negative numbers are negative, an
    object's keys are in order. *)
Fixpoint wf_value (v : Value) : Prop :=
  match v with
  | VNull | VBool _ => True
  | VNumber n => match n with NegInt i => (i < 0)%Z | _ => True end
  | VString s => valid_str s
  | VArray items => fold_right (fun v P => wf_value v /\ P) True items
  | VObject m =>
      map_sorted m /\ fold_right (fun kv P => (valid_str kv.1 /\ wf_value kv.2) /\ P) True m
  end.

Lemma fold_right_Forall {A} (P : A -> Prop) l :
  fold_right (fun x Q => P x /\ Q) True l <-> Forall P l.
Proof.
  induction l as [|x l IH]; cbn; [by split; intros; [constructor|]|]. by rewrite Forall_cons, IH.
Qed.

(** *** Strings *)

(** One UTF-16 unit as it is written. *)
Definition unit_text (u : N) : str :=
  if N.eqb u dquote then [backslash; dquote]
  else if N.eqb u backslash then [backslash; backslash]
  else if N.eqb u 10 then [backslash; ch "n"]
  else if N.eqb u 13 then [backslash; ch "r"]
  else if N.eqb u 9 then [backslash; ch "t"]
  else if N.eqb u 8 then [backslash; ch "b"]
  else if N.eqb u 12 then [backslash; ch "f"]
  else if in_range (ch " ") (ch "~") u then [u]
  else [backslash; ch "u"] ++ hex_fixed 4 u.

Definition read_unit (s : str) : option (N * str) :=
  match s with
  | c :: rest =>
      if N.eqb c backslash then
        match rest with
        | e :: rest =>
            if N.eqb e (ch "n") then Some (10%N, rest)
            else if N.eqb e (ch "r") then Some (13%N, rest)
            else if N.eqb e (ch "t") then Some (9%N, rest)
            else if N.eqb e (ch "b") then Some (8%N, rest)
            else if N.eqb e (ch "f") then Some (12%N, rest)
            else if N.eqb e (ch "u") then take_hex 4 rest 0
            else Some (e, rest)
        | [] => None
        end
      else Some (c, rest)
  | [] => None
  end.

Lemma read_unit_text u r : (u < 0x10000)%N -> read_unit (unit_text u ++ r) = Some (u, r).
Proof.
  intros Hu. unfold unit_text.
  repeat match goal with |- context [N.eqb u ?k] => destruct (N.eqb_spec u k) as [->|]; [reflexivity|] end.
  destruct (in_range (ch " ") (ch "~") u) eqn:E.
  - cbn [app read_unit]. by rewrite (proj2 (N.eqb_neq u backslash)).
  - rewrite <- app_assoc. cbn [app read_unit]. change (N.eqb backslash backslash) with true. cbn [N.eqb].
    change (take_hex 4 (hex_fixed 4 u ++ r) 0 = Some (u, r)).
    by rewrite take_hex_fixed by exact Hu.
Qed.

Lemma unit_text_head u : exists c t, unit_text u = c :: t /\ c <> dquote.
Proof.
  unfold unit_text.
  destruct (N.eqb_spec u dquote) as [->|Hd]; [by eexists _, _|].
  repeat (match goal with |- context [if ?b then _ else _] => destruct b end; [by eexists _, _|]).
  by eexists _, _.
Qed.

Lemma units_prefix us vs r r' :
  Forall (fun u => (u < 0x10000)%N) us -> Forall (fun u => (u < 0x10000)%N) vs ->
  flat_map unit_text us ++ dquote :: r = flat_map unit_text vs ++ dquote :: r' -> us = vs /\ r = r'.
Proof.
  intros Hu. revert vs. induction Hu as [|u us Hu Hus IH]; intros vs Hv H; destruct Hv as [|v vs Hv Hvs];
    cbn [flat_map app] in H.
  - by injection H as ->.
  - destruct (unit_text_head v) as (c & t & E & Hc). rewrite E in H. cbn in H. injection H as H _. done.
  - destruct (unit_text_head u) as (c & t & E & Hc). rewrite E in H. cbn in H. injection H as H _. done.
  - rewrite <- !app_assoc in H. apply (f_equal read_unit) in H.
    rewrite !read_unit_text in H by done. injection H as -> H.
    destruct (IH vs Hvs H) as [-> ->]. done.
Qed.

Lemma encode_utf16_units c : is_scalar c = true -> Forall (fun u => (u < 0x10000)%N) (encode_utf16 c).
Proof.
  intros Hc. unfold encode_utf16. destruct (N.ltb_spec c 0x10000); [by repeat constructor|].
  unfold is_scalar in Hc. apply orb_true_iff in Hc as [Hc|Hc]; [apply N.ltb_lt in Hc; lia|].
  apply andb_true_iff in Hc as [_ Hc%N.ltb_lt].
  assert ((c - 0x10000) / 0x400 < 0x400)%N by (apply N.Div0.div_lt_upper_bound; lia).
  assert ((c - 0x10000) mod 0x400 < 0x400)%N by (apply N.mod_lt; lia).
  repeat apply List.Forall_cons; [lia|lia|apply List.Forall_nil].
Qed.

Lemma json_char_units c : is_scalar c = true -> json_char c = flat_map unit_text (encode_utf16 c).
Proof.
  intros Hc. unfold encode_utf16. destruct (N.ltb_spec c 0x10000) as [Hlt|Hge].
  - cbn [flat_map]. rewrite app_nil_r. unfold json_char, unit_text, encode_utf16.
    rewrite (proj2 (N.ltb_lt _ _) Hlt). cbn [flat_map]. by rewrite app_nil_r.
  - unfold json_char. unfold encode_utf16. rewrite (proj2 (N.ltb_ge _ _) Hge).
    assert (forall k, (k < 0x10000)%N -> N.eqb c k = false) as Hne.
    { intros k Hk. apply N.eqb_neq. lia. }
    rewrite !Hne by done. unfold in_range at 1.
    rewrite (proj2 (N.leb_gt c (ch "~"))) by (cbn; lia). rewrite andb_false_r.
    assert (forall u, (0xD800 <= u)%N -> unit_text u = [backslash; ch "u"] ++ hex_fixed 4 u) as Hu.
    { intros u Hu. unfold unit_text.
      assert (forall k, (k < 0xD800)%N -> N.eqb u k = false) as Hn.
      { intros k Hk. apply N.eqb_neq. lia. }
      rewrite !Hn by done. unfold in_range. rewrite (proj2 (N.leb_gt u (ch "~"))) by (cbn; lia).
      by rewrite andb_false_r. }
    cbn [flat_map]. rewrite !Hu; [done|(etrans; [|apply N.le_add_r]; done)..].
Qed.

Lemma high_surrogate c :
  is_scalar c = true -> (0x10000 <= c)%N -> is_scalar (0xD800 + (c - 0x10000) / 0x400)%N = false.
Proof.
  intros Hc Hge.
  assert ((c - 0x10000) / 0x400 < 0x400)%N as Hq.
  { unfold is_scalar in Hc. apply orb_true_iff in Hc as [Hc%N.ltb_lt|Hc]; [lia|].
    apply andb_true_iff in Hc as [_ Hc%N.ltb_lt]. apply N.Div0.div_lt_upper_bound. lia. }
  pose proof (N.le_0_l ((c - 0x10000) / 0x400)) as H0. revert Hq H0.
  generalize ((c - 0x10000) / 0x400)%N. intros q Hq H0. unfold is_scalar.
  rewrite (proj2 (N.ltb_ge _ _)), (proj2 (N.leb_gt _ _)) by lia. done.
Qed.

Lemma encode_utf16_inj s t :
  valid_str s -> valid_str t -> flat_map encode_utf16 s = flat_map encode_utf16 t -> s = t.
Proof.
  intros Hs. revert t. induction Hs as [|c s Hc Hs IH]; intros t Ht H; destruct Ht as [|d t Hd Ht]; try done;
    cbn [flat_map] in H; unfold encode_utf16 in H at 1.
  - by destruct (N.ltb d _).
  - by destruct (N.ltb c _).
  - unfold encode_utf16 in H at 2.
    destruct (N.ltb_spec c 0x10000), (N.ltb_spec d 0x10000); cbn [app] in H.
    + injection H as -> H. by rewrite (IH t).
    + injection H as -> H. by rewrite high_surrogate in Hc.
    + injection H as <- H. by rewrite high_surrogate in Hd.
    + injection H as E1 E2 H. apply N.add_cancel_l in E1, E2.
      assert (c - 0x10000 = d - 0x10000)%N as E.
      { rewrite (N.Div0.div_mod (c - 0x10000) 0x400), E1, E2. symmetry. apply N.Div0.div_mod. }
      assert (c = d) as -> by lia. by rewrite (IH t).
Qed.

Lemma json_str_prefix s t r r' :
  valid_str s -> valid_str t -> json_str s ++ r = json_str t ++ r' -> s = t /\ r = r'.
Proof.
  intros Hs Ht H. unfold json_str, push_json_str in H. rewrite <- !app_assoc in H.
  injection H as H.
  assert (forall s, valid_str s -> flat_map json_char s = flat_map unit_text (flat_map encode_utf16 s)) as Hj.
  { clear. induction 1 as [|c s Hc Hs IH]; [done|]. cbn [flat_map].
    by rewrite flat_map_app, json_char_units, IH. }
  assert (forall s, valid_str s -> Forall (fun u => (u < 0x10000)%N) (flat_map encode_utf16 s)) as Hb.
  { clear. induction 1 as [|c s Hc Hs IH]; [constructor|]. cbn [flat_map].
    apply Forall_app. split; [by apply encode_utf16_units|done]. }
  rewrite !Hj in H by done. apply units_prefix in H as [H ->]; [|by apply Hb..].
  split; [by apply encode_utf16_inj|done].
Qed.

(** *** Numbers *)

Definition is_digit_start (r : str) : bool :=
  match r with c :: _ => is_ascii_digit c | [] => false end.

Lemma show_N_prefix n m r r' :
  is_digit_start r = false -> is_digit_start r' = false ->
  show_N n ++ r = show_N m ++ r' -> n = m /\ r = r'.
Proof.
  intros Hr Hr' H.
  assert (forall n r, is_digit_start r = false -> take_while is_ascii_digit (show_N n ++ r) = show_N n) as Ht.
  { clear. intros n r Hr. apply take_while_app; [apply show_N_digits|].
    by destruct r. }
  pose proof (f_equal (take_while is_ascii_digit) H) as E. rewrite !Ht in E by done.
  split; [by apply show_N_inj|]. rewrite E in H. by apply app_inv_head in H.
Qed.

Lemma show_N_nonempty n : exists c t, show_N n = c :: t /\ is_ascii_digit c = true.
Proof.
  pose proof (show_N_digits n) as Hd. destruct (show_N n) as [|c t] eqn:E.
  - exfalso. assert (Hl : show_N n = show_N n) by done. unfold show_N in E. cbn [show_go] in E.
    by destruct (if N.ltb n 10 then _ else _).
  - apply Forall_cons in Hd as [Hc _]. eauto.
Qed.

Lemma show_Z_prefix x y r r' :
  is_digit_start r = false -> is_digit_start r' = false ->
  show_Z x ++ r = show_Z y ++ r' -> x = y /\ r = r'.
Proof.
  intros Hr Hr'. unfold show_Z. destruct (Z.ltb_spec x 0), (Z.ltb_spec y 0); intros H1.
  - cbn in H1. injection H1 as H1. apply show_N_prefix in H1 as [? ->]; [|done..]. split; [lia|done].
  - destruct (show_N_nonempty (Z.to_N y)) as (c & t & E & Hc). rewrite E in H1. cbn in H1.
    injection H1 as <- _. done.
  - destruct (show_N_nonempty (Z.to_N x)) as (c & t & E & Hc). rewrite E in H1. cbn in H1.
    injection H1 as -> _. done.
  - apply show_N_prefix in H1 as [? ->]; [|done..]. split; [lia|done].
Qed.

Lemma number_text_canonical n t :
  number_text Canonical n = Some t ->
  exists z, t = show_Z z /\
    (n = PosInt (Z.to_N z) /\ (0 <= z)%Z \/ n = NegInt z).
Proof.
  unfold number_text. destruct n as [u|i|b]; cbn.
  - assert (Hu : show_Z (Z.of_N u) = show_N u).
    { unfold show_Z. rewrite (proj2 (Z.ltb_ge _ _)) by lia. by rewrite N2Z.id. }
    destruct (N.ltb u (2 ^ 63)); intros [= <-]; exists (Z.of_N u); rewrite N2Z.id;
      (split; [done|left; split; [done|lia]]).
  - intros [= <-]. eauto.
  - done.
Qed.

(** *** Values *)

(** What may follow a value: the end, or a separator or a closing bracket. *)
Definition stop (c : char) : bool := N.eqb c (ch ",") || N.eqb c (ch "]") || N.eqb c (ch "}").
Definition stops (r : str) : Prop := match r with c :: _ => stop c = true | [] => True end.

Lemma stops_digit r : stops r -> is_digit_start r = false.
Proof.
  destruct r as [|c r]; cbn; [done|]. unfold stop.
  rewrite !orb_true_iff, !N.eqb_eq. intros [[-> | ->]| ->]; done.
Qed.

(** The kind of a value by its text's first character. *)
Inductive kind := KNull | KTrue | KFalse | KNumber | KString | KArray | KObject | KOther.
Definition kind_of (v : Value) : kind :=
  match v with
  | VNull => KNull | VBool true => KTrue | VBool false => KFalse | VNumber _ => KNumber
  | VString _ => KString | VArray _ => KArray | VObject _ => KObject
  end.
Definition first_kind (c : char) : kind :=
  if N.eqb c (ch "n") then KNull else if N.eqb c (ch "t") then KTrue
  else if N.eqb c (ch "f") then KFalse
  else if is_ascii_digit c || N.eqb c (ch "-") then KNumber
  else if N.eqb c dquote then KString else if N.eqb c (ch "[") then KArray
  else if N.eqb c (ch "{") then KObject else KOther.

Lemma digit_kind c : is_ascii_digit c = true -> first_kind c = KNumber.
Proof.
  intros Hc. unfold first_kind. rewrite Hc. unfold is_ascii_digit, in_range in Hc.
  apply andb_true_iff in Hc as [H1%N.leb_le H2%N.leb_le]. cbn in H1, H2.
  rewrite !(proj2 (N.eqb_neq _ _)) by (cbn; lia). done.
Qed.

Lemma rendered_kind v t : rendered Canonical v = Some t -> exists c t', t = c :: t' /\ first_kind c = kind_of v.
Proof.
  destruct v as [|[]|n|s|items|m]; cbn [rendered].
  1-3: intros [= <-]; by eexists _, _.
  - intros (z & -> & _)%number_text_canonical. unfold show_Z. destruct (Z.ltb z 0); [by eexists _, _|].
    destruct (show_N_nonempty (Z.to_N z)) as (c & t' & -> & Hc). exists c, t'. split; [done|].
    by apply digit_kind.
  - intros [= <-]. by eexists _, _.
  - destruct (mapM _ _); [|done]. intros [= <-]. by eexists _, _.
  - destruct (mapM _ _); [|done]. intros [= <-]. by eexists _, _.
Qed.

Lemma first_kind_stop c : stop c = true -> first_kind c = KOther.
Proof. unfold stop. rewrite !orb_true_iff, !N.eqb_eq. intros [[-> | ->]| ->]; done. Qed.

(** Parts that are told apart wherever they stop, joined by commas. *)
Lemma join_prefix {A} (f : A -> option str) (ok : A -> Prop) close l k ts us r r' :
  stop close = true -> close <> ch "," ->
  Forall (fun x => forall y a b r r', ok y -> f x = Some a -> f y = Some b ->
            stops r -> stops r' -> a ++ r = b ++ r' -> x = y /\ r = r') l ->
  (forall x a, f x = Some a -> exists c a', a = c :: a' /\ stop c = false) ->
  Forall ok k -> mapM f l = Some ts -> mapM f k = Some us ->
  join (lit ",") ts ++ close :: r = join (lit ",") us ++ close :: r' -> l = k /\ r = r'.
Proof.
  intros Hclose Hcomma Hl Hf Hk Hts Hus.
  apply mapM_Some in Hts, Hus. revert k us Hk Hus.
  induction Hts as [|x a l ts Hx Hts IH]; intros k us Hk Hus Heq;
    destruct Hus as [|y b k us Hy Hus]; rewrite ?join_cons in Heq.
  - by injection Heq as ->.
  - exfalso. destruct (Hf _ _ Hy) as (c & b' & -> & Hc). cbn in Heq. injection Heq as <- _. congruence.
  - exfalso. destruct (Hf _ _ Hx) as (c & a' & -> & Hc). cbn in Heq. injection Heq as -> _. congruence.
  - apply Forall_cons in Hl as [Hxl Hl]. apply Forall_cons in Hk as [Hyk Hk].
    rewrite <- !app_assoc in Heq.
    apply (Hxl y a b) in Heq as [-> Heq]; [|done|done|done|by destruct ts|by destruct us].
    destruct ts as [|t ts], us as [|u us].
    + destruct (IH Hl k [] Hk Hus Heq) as [-> ->]. done.
    + exfalso. cbn in Heq. injection Heq as Heq _. done.
    + exfalso. cbn in Heq. injection Heq as Heq _. done.
    + rewrite <- !app_assoc in Heq. apply app_inv_head in Heq.
      destruct (IH Hl k (u :: us) Hk Hus Heq) as [-> ->]. done.
Qed.

Lemma entries_sorted style m :
  map_sorted m -> map_of_list (map (fun kv => (kv.1, rendered style kv.2)) m) =
  map (fun kv => (kv.1, rendered style kv.2)) m.
Proof.
  intros Hm. apply map_of_list_id. induction m as [|[k v] m IH]; cbn; [done|]. destruct Hm as [Ha Hm].
  split; [|by apply IH]. unfold keys_above in *. by rewrite Forall_map.
Qed.

Lemma canonical_prefix v w a b r r' :
  wf_value v -> wf_value w -> rendered Canonical v = Some a -> rendered Canonical w = Some b ->
  stops r -> stops r' -> a ++ r = b ++ r' -> v = w /\ r = r'.
Proof.
  revert w a b r r'. induction v as [|x|n|s|items IH|m IH] using Value_rect';
    intros w a b r r' Hv Hw Ha Hb Hr Hr' Heq;
    assert (Hk : kind_of w = kind_of _) by
      (destruct (rendered_kind _ _ Ha) as (c & a' & -> & <-);
       destruct (rendered_kind _ _ Hb) as (d & b' & -> & <-); cbn in Heq; by injection Heq as -> _).
  - destruct w as [|[]| | | |]; try done. injection Ha as <-. injection Hb as <-.
    by injection Heq as ->.
  - destruct x, w as [|[]| | | |]; try done; injection Ha as <-; injection Hb as <-; by injection Heq as ->.
  - destruct w as [|[]|n'| | |]; try done. cbn in Ha, Hb.
    apply number_text_canonical in Ha as (z & -> & Hz), Hb as (z' & -> & Hz').
    apply show_Z_prefix in Heq as [<- ->]; [|by apply stops_digit..]. split; [|done]. f_equal.
    destruct Hz as [[-> Hz]| ->], Hz' as [[-> Hz']| ->]; try done; cbn in Hv, Hw; lia.
  - destruct w as [|[]| |s'| |]; try done. injection Ha as <-. injection Hb as <-.
    by apply json_str_prefix in Heq as [-> ->].
  - destruct w as [|[]| | |items'|]; try done. cbn [rendered] in Ha, Hb.
    destruct (mapM id (map _ items)) as [ts|] eqn:Ets; [|done]. destruct (mapM id (map _ items')) as [us|] eqn:Eus; [|done].
    apply (inj Some) in Ha as <-. apply (inj Some) in Hb as <-. rewrite <- !app_assoc in Heq. apply app_inv_head in Heq.
    apply mapM_Some, Forall2_fmap_l, mapM_Some in Ets, Eus. cbn [wf_value] in Hv, Hw. rewrite fold_right_Forall in Hv, Hw.
    apply (join_prefix (rendered Canonical) wf_value (ch "]") items items') in Heq as [-> ->]; try done.
    + apply Forall_forall. intros v Hin y a b r0 r0' Hy. rewrite Forall_forall in IH, Hv. by apply IH; [|apply Hv|].
    + intros v a Hva. destruct (rendered_kind _ _ Hva) as (c & a' & -> & Hc). exists c, a'. split; [done|].
      apply not_true_iff_false. intros Hs%first_kind_stop. rewrite Hs in Hc. by destruct v as [|[]| | | |].
  - destruct w as [|[]| | | |m']; try done. cbn [rendered] in Ha, Hb. cbn [wf_value] in Hv, Hw.
    destruct Hv as [Hsm Hv], Hw as [Hsm' Hw]. rewrite fold_right_Forall in Hv, Hw.
    rewrite entries_sorted in Ha, Hb by done.
    destruct (mapM _ (map _ m)) as [ts|] eqn:Ets; [|done]. destruct (mapM _ (map _ m')) as [us|] eqn:Eus; [|done].
    apply (inj Some) in Ha as <-. apply (inj Some) in Hb as <-. rewrite <- !app_assoc in Heq. apply app_inv_head in Heq.
    apply mapM_Some, Forall2_fmap_l, mapM_Some in Ets, Eus.
    apply (join_prefix (fun kv => entry_text Canonical (kv.1, rendered Canonical kv.2))
      (fun kv => valid_str kv.1 /\ wf_value kv.2) (ch "}") m m') in Heq as [-> ->]; try done.
    + apply Forall_forall. intros [k v] Hin [k' v'] a b r0 r0' [Hk' Hv'] Ha Hb Hr0 Hr0' H0.
      rewrite Forall_forall in IH, Hv. destruct (Hv _ Hin) as [Hkv Hvv]. specialize (IH _ Hin).
      cbn [fst snd] in *. unfold entry_text in Ha, Hb. cbn [fst snd] in Ha, Hb.
      destruct (rendered Canonical v) as [t|] eqn:Et; [|done]. destruct (rendered Canonical v') as [t'|] eqn:Et'; [|done].
      apply (inj Some) in Ha as <-. apply (inj Some) in Hb as <-. rewrite <- !app_assoc in H0.
      apply json_str_prefix in H0 as [-> H0]; [|done..]. apply app_inv_head in H0.
      destruct (IH v' t t' r0 r0') as [-> ->]; done.
    + intros [k v] a Hva. unfold entry_text in Hva. cbn [fst snd] in Hva.
      destruct (rendered Canonical v); [|done]. injection Hva as <-. by eexists _, _.
Qed.

Lemma valid_check s : forallb is_scalar s = true -> valid_str s.
Proof. intros H. apply Forall_forall. intros c. by apply forallb_elem. Qed.

(** *** Only ASCII *)

Definition ascii_text (s : str) : Prop := Forall (fun c => is_ascii c = true) s.

Lemma ascii_check s : forallb is_ascii s = true -> ascii_text s.
Proof. intros H. apply Forall_forall. intros c Hc. revert c Hc. by apply forallb_elem. Qed.

Lemma hex_ascii k n : ascii_text (hex_fixed k n).
Proof.
  unfold ascii_text. eapply Forall_impl; [apply hex_fixed_chars|]. intros c Hc.
  apply hex_char_ascii_printable in Hc. unfold is_ascii. apply N.ltb_lt. lia.
Qed.

Lemma json_char_ascii c : ascii_text (json_char c).
Proof.
  unfold json_char, ascii_text.
  repeat match goal with |- context [if N.eqb c ?k then _ else _] => destruct (N.eqb c k); [by apply ascii_check|] end.
  destruct (in_range (ch " ") (ch "~") c) eqn:E.
  - unfold in_range in E. apply andb_true_iff in E as [_ E%N.leb_le]. cbn in E.
    apply List.Forall_cons; [unfold is_ascii; apply N.ltb_lt; lia|constructor].
  - apply Forall_forall. intros x Hx. apply list_elem_of_In, in_flat_map in Hx as (u & _ & Hx).
    apply list_elem_of_In in Hx. cbn [app] in Hx. rewrite !elem_of_cons in Hx.
    destruct Hx as [->|[->|Hx]]; [done|done|]. pose proof (hex_ascii 4 u) as Hh.
    unfold ascii_text in Hh. rewrite Forall_forall in Hh. by apply Hh.
Qed.

Lemma json_str_ascii s : ascii_text (json_str s).
Proof.
  unfold json_str, push_json_str, ascii_text. rewrite !Forall_app. split_and!; [by apply ascii_check| |by apply ascii_check].
  apply Forall_forall. intros x Hx. apply list_elem_of_In, in_flat_map in Hx as (c & _ & Hx).
  apply list_elem_of_In in Hx. pose proof (json_char_ascii c) as Hc. unfold ascii_text in Hc.
  rewrite Forall_forall in Hc. by apply Hc.
Qed.

Lemma join_ascii sep ts : ascii_text sep -> Forall ascii_text ts -> ascii_text (join sep ts).
Proof.
  intros Hs. induction 1 as [|t ts Ht Hts IH]; [constructor|]. rewrite join_cons.
  apply Forall_app. split; [done|]. destruct ts; [constructor|]. apply Forall_app. done.
Qed.

Lemma mapM_ascii {A} (f : A -> option str) l ts :
  mapM f l = Some ts -> Forall (fun x => forall t, f x = Some t -> ascii_text t) l -> Forall ascii_text ts.
Proof.
  intros H%mapM_Some. induction H as [|x t l ts Hx _ IH]; intros Hf; [constructor|].
  apply Forall_cons in Hf as [Hxt Hf]. constructor; [by apply Hxt|by apply IH].
Qed.

Lemma show_Z_ascii z : ascii_text (show_Z z).
Proof.
  assert (forall n, ascii_text (show_N n)) as Hn.
  { intros n. unfold ascii_text. eapply Forall_impl; [apply show_N_digits|]. intros c Hc.
    unfold is_ascii_digit, in_range in Hc. apply andb_true_iff in Hc as [_ Hc%N.leb_le].
    cbn in Hc. unfold is_ascii. apply N.ltb_lt. lia. }
  unfold show_Z. destruct (Z.ltb z 0); [constructor; [done|apply Hn]|apply Hn].
Qed.

Lemma map_of_list_Forall {V} (P : str * V -> Prop) l : Forall P l -> Forall P (map_of_list l).
Proof. rewrite !Forall_forall. intros Hl kv Hin%map_of_list_elem. by apply Hl. Qed.

Lemma rendered_ascii v t : rendered Canonical v = Some t -> ascii_text t.
Proof.
  revert t. induction v as [|[]|n|s|items IH|m IH] using Value_rect'; cbn [rendered]; intros t Ht.
  - injection Ht as <-. by apply ascii_check.
  - injection Ht as <-. by apply ascii_check.
  - injection Ht as <-. by apply ascii_check.
  - apply number_text_canonical in Ht as (z & -> & _). apply show_Z_ascii.
  - apply (inj Some) in Ht as <-. apply json_str_ascii.
  - destruct (mapM _ _) as [ts|] eqn:E; [|done]. apply (inj Some) in Ht as <-.
    unfold ascii_text. rewrite !Forall_app. split_and!; [by apply ascii_check| |by apply ascii_check].
    apply join_ascii; [by apply ascii_check|]. apply (mapM_ascii _ _ _ E). by rewrite Forall_map.
  - destruct (mapM _ _) as [ts|] eqn:E; [|done]. apply (inj Some) in Ht as <-.
    unfold ascii_text. rewrite !Forall_app. split_and!; [by apply ascii_check| |by apply ascii_check].
    apply join_ascii; [by apply ascii_check|]. apply (mapM_ascii _ _ _ E).
    apply map_of_list_Forall. rewrite Forall_map. eapply Forall_impl; [exact IH|].
    intros [k v] Hv t. unfold entry_text. cbn [fst snd]. destruct (rendered Canonical v) as [x|] eqn:Ex; [|done].
    intros Hk. apply (inj Some) in Hk as <-. unfold ascii_text. rewrite !Forall_app.
    split_and!; [apply json_str_ascii|by apply ascii_check|exact (Hv x Ex)].
Qed.

(** ** Properties *)

(** C38: canonical text determines the value: two values with the same
    canonical text are the same, so a digest of that text stands for one
    value. The text is ASCII. *)
Theorem canonical_injective v w text :
  wf_value v -> wf_value w ->
  to_canonical_string v = Ok text -> to_canonical_string w = Ok text ->
  v = w /\ Forall (fun c => is_ascii c = true) text.
Proof.
  intros Hv Hw. rewrite !to_canonical_string_rendered. intros Ha Hb.
  destruct (rendered Canonical v) as [a|] eqn:Ea; [|done].
  destruct (rendered Canonical w) as [b|] eqn:Eb; [|done].
  injection Ha as <-. injection Hb as ->. split; [|by apply (rendered_ascii v)].
  by destruct (canonical_prefix v w a a [] [] Hv Hw Ea Eb I I eq_refl).
Qed.

Lemma canonical_injective_witness :
  let v := VObject [(lit "a", VArray [VNumber (PosInt 1); VString [0x1F600%N]]); (lit "b", VNull)] in
  v = v /\ Forall (fun c => is_ascii c = true) (qlit "{`a`:[1,`\ud83d\ude00`],`b`:null}").
Proof.
  intros v.
  apply (canonical_injective v v (qlit "{`a`:[1,`\ud83d\ude00`],`b`:null}")).
  3,4: vm_compute; reflexivity.
  all: cbn [v wf_value fold_right map_sorted fst snd]; split_and!; try exact I;
    try (apply valid_check; reflexivity); repeat constructor.
Defined.

(** The length counted without writing is the length of what Python's
    [json.dumps] writes (at most the machine's largest number), for every
    value. *)
Theorem python_dumps_len_exact v :
  python_dumps_len v = N.min MAX_U64 (N.of_nat (str_len (to_python_default_string v))).
Proof.
  unfold python_dumps_len, to_python_default_string.
  destruct (python_default_renders v) as [t Ht].
  pose proof (write_value_emits PythonDefault v) as He. rewrite Ht in He. destruct He as [Hs Hc].
  rewrite Hs, (Hc (mkCounter 0)) by done. reflexivity.
Qed.
