(* ===== verification/F64.v ===== *)
(** [f64] arithmetic where the crates compute with it: a float is its 64
    bits, read and written as the Standard Library's [spec_float] with 53
    bits of precision, whose operations round as IEEE 754 does. *)

From Stdlib Require Import Floats.SpecFloat.
From S2P Require Import Prelude Json.
From stdpp Require Import options.

Abbreviation f64 := N (only parsing).

(** ** Bits *)

Definition f64_decode (bits : f64) : spec_float :=
  let negative := N.testbit bits 63 in
  let exponent := ((bits / 2 ^ 52) mod 2 ^ 11)%N in
  let fraction := (bits mod 2 ^ 52)%N in
  if N.eqb exponent 2047 then if N.eqb fraction 0 then S754_infinity negative else S754_nan
  else if N.eqb exponent 0 then
    match fraction with N0 => S754_zero negative | Npos m => S754_finite negative m (-1074) end
  else
    match (2 ^ 52 + fraction)%N with
    | Npos m => S754_finite negative m (Z.of_N exponent - 1075)
    | N0 => S754_zero negative
    end.

Definition sign_bit (negative : bool) : N := if negative then 2 ^ 63 else 0.
Definition f64_encode (f : spec_float) : f64 :=
  match f with
  | S754_zero s => sign_bit s
  | S754_infinity s => (sign_bit s + 2047 * 2 ^ 52)%N
  | S754_nan => (2047 * 2 ^ 52 + 2 ^ 51)%N
  | S754_finite s m e =>
      if N.ltb (Npos m) (2 ^ 52) then (sign_bit s + Npos m)%N
      else (sign_bit s + Z.to_N (e + 1075) * 2 ^ 52 + (Npos m - 2 ^ 52))%N
  end.

(** ** Operations *)

Definition f64_add (a b : f64) : f64 := f64_encode (SFadd 53 1024 (f64_decode a) (f64_decode b)).
Definition f64_sub (a b : f64) : f64 := f64_encode (SFsub 53 1024 (f64_decode a) (f64_decode b)).
Definition f64_mul (a b : f64) : f64 := f64_encode (SFmul 53 1024 (f64_decode a) (f64_decode b)).
Definition f64_div (a b : f64) : f64 := f64_encode (SFdiv 53 1024 (f64_decode a) (f64_decode b)).
Definition f64_ltb (a b : f64) : bool := SFltb (f64_decode a) (f64_decode b).
Definition f64_leb (a b : f64) : bool := SFleb (f64_decode a) (f64_decode b).
Definition f64_finite (a : f64) : bool :=
  match f64_decode a with S754_zero _ | S754_finite _ _ _ => true | _ => false end.
(** [f64::min] of numbers. *)
Definition f64_min (a b : f64) : f64 := if f64_ltb b a then b else a.

(** [f64::clamp] between bounds that are numbers. *)
Definition f64_clamp (x lo hi : f64) : f64 :=
  let x := if f64_ltb x lo then lo else x in if f64_ltb hi x then hi else x.

(** An integer as the nearest float ([as f64]). *)
Definition f64_of_Z (z : Z) : f64 := f64_encode (binary_normalize 53 1024 z 0 false).

(** ** Durations of seconds *)

Local Open Scope Z_scope.

(** A quotient, rounded to the nearest integer, ties to even. *)
Definition round_half_even (a b : Z) : Z :=
  let q := a / b in
  match Z.compare (2 * (a mod b)) b with
  | Lt => q
  | Gt => q + 1
  | Eq => if Z.even q then q else q + 1
  end.
(** [Duration::from_secs_f64] of a float that is neither negative nor
    beyond its range, in nanoseconds. *)
Definition nanos_of_f64 (x : f64) : Z :=
  match f64_decode x with
  | S754_finite false m e =>
      if Z.leb 0 e then Zpos m * 2 ^ e * 10 ^ 9 else round_half_even (Zpos m * 10 ^ 9) (2 ^ (- e))
  | _ => 0
  end.
(** [Duration::as_secs_f64] of nanoseconds. *)
Definition f64_of_nanos (d : Z) : f64 :=
  f64_add (f64_of_Z (d / 10 ^ 9)) (f64_div (f64_of_Z (d mod 10 ^ 9)) (f64_of_Z (10 ^ 9))).
(** [x.fract() == 0.0] of a finite float: the integer it is. *)
Definition f64_integer (x : f64) : option Z :=
  match f64_decode x with
  | S754_zero _ => Some 0
  | S754_finite s m e =>
      let z := if Z.leb 0 e then Some (Zpos m * 2 ^ e)
               else if Z.eqb (Zpos m mod 2 ^ (- e)) 0 then Some (Zpos m / 2 ^ (- e)) else None in
      (fun z => if s then - z else z) <$> z
  | _ => None
  end.

(** [f64::trunc]. *)
Definition f64_trunc (x : f64) : f64 :=
  match f64_decode x with
  | S754_finite s m e =>
      if Z.leb 0 e then x
      else let q := Zpos m / 2 ^ (- e) in f64_encode (binary_normalize 53 1024 (if s then - q else q) 0 s)
  | _ => x
  end.

Local Close Scope Z_scope.

(** ** Numbers of JSON *)

(** [Number::from_f64]: none for a float that is not finite. *)
Definition Number_from_f64 (f : f64) : option Number := if f64_finite f then Some (Float f) else None.
(** [Value::as_f64]. *)
Definition Number_as_f64 (n : Number) : f64 :=
  match n with PosInt u => f64_of_Z (Z.of_N u) | NegInt i => f64_of_Z i | Float bits => bits end.
Definition as_f64 (v : Value) : option f64 :=
  match v with VNumber n => Some (Number_as_f64 n) | _ => None end.

(** Sums and integers as a machine has them. *)
Example f64_samples :
  f64_add 0x3FB999999999999A 0x3FC999999999999A = 0x3FD3333333333334%N /\
  f64_of_Z 3600 = 0x40AC200000000000%N /\ f64_of_Z (-5) = 0xC014000000000000%N /\
  f64_of_Z (2 ^ 64 - 1) = 0x43F0000000000000%N /\
  f64_sub 0x3FD3333333333334 0x3FC999999999999A = 0x3FB999999999999C%N /\
  nanos_of_f64 0x4049000000000000 = 50000000000%Z /\ f64_of_nanos 49750000000%Z = 0x4048E00000000000%N /\
  nanos_of_f64 0x3FB999999999999A = 100000000%Z /\ f64_integer 0xC014000000000000 = Some (-5)%Z /\
  f64_integer 0x4048E00000000000 = None /\
  f64_trunc 0x4048E00000000000 = f64_of_Z 49 /\ f64_trunc 0xC048E00000000000 = f64_of_Z (-49) /\
  f64_trunc 0xBFE0000000000000 = (2 ^ 63)%N /\ f64_trunc 0x40AC200000000000 = f64_of_Z 3600 /\
  f64_ltb 0x7FF8000000000000 0 = false /\ f64_leb (2 ^ 63) 0 = true.
Proof. vm_compute. split_and!; reflexivity. Qed.

(** ** Integers: those of less than 53 bits are exact, and so are their
    sums, differences and comparisons *)

Section exact.
#[local] Open Scope Z_scope.

(** *** Digits and shifts *)

Lemma digits2_bounds p : 2 ^ (Zpos (digits2_pos p) - 1) <= Zpos p < 2 ^ Zpos (digits2_pos p).
Proof.
  induction p as [p IH|p IH|]; cbn [digits2_pos]; [| |done];
    rewrite Pos2Z.inj_succ; replace (Z.succ (Zpos (digits2_pos p)) - 1) with (Zpos (digits2_pos p) - 1 + 1) by lia;
    rewrite Z.pow_succ_r, Z.pow_add_r by lia; lia.
Qed.
Lemma digits2_unique p d : 2 ^ (d - 1) <= Zpos p < 2 ^ d -> 0 < d -> Zpos (digits2_pos p) = d.
Proof.
  intros [Hl Hh] Hd. pose proof (digits2_bounds p) as [Ql Qh].
  destruct (Z.lt_trichotomy (Zpos (digits2_pos p)) d) as [H|[H|H]]; [|done|]; exfalso.
  - pose proof (Z.pow_le_mono_r 2 (Zpos (digits2_pos p)) (d - 1)). lia.
  - pose proof (Z.pow_le_mono_r 2 d (Zpos (digits2_pos p) - 1)). lia.
Qed.

Lemma iter_xO p d : Zpos (Pos.iter xO p d) = Zpos p * 2 ^ Zpos d.
Proof.
  induction d as [|d IH] using Pos.peano_ind; [cbn; lia|].
  rewrite Pos.iter_succ, Pos2Z.inj_xO, IH, Pos2Z.inj_succ, Z.pow_succ_r by lia. lia.
Qed.
Lemma shl_align_ok p e e' : Zpos (fst (shl_align p e e')) = Zpos p * 2 ^ Z.max 0 (e - e') /\
  snd (shl_align p e e') = Z.min e e'.
Proof.
  unfold shl_align. destruct (e' - e) as [|d|d] eqn:E; cbn [fst snd].
  - replace (Z.max 0 (e - e')) with 0 by lia. lia.
  - replace (Z.max 0 (e - e')) with 0 by lia. lia.
  - rewrite iter_xO. replace (Z.max 0 (e - e')) with (Zpos d) by lia. lia.
Qed.

Lemma shr_1_exact m : shr_1 (Build_shr_record (2 * m) false false) = Build_shr_record m false false.
Proof. by destruct m. Qed.
Lemma iter_pos_comm {A} (f : A -> A) n x : SpecFloat.iter_pos f n (f x) = f (SpecFloat.iter_pos f n x).
Proof. revert x. induction n as [n IH|n IH|]; intros x; cbn; by rewrite ?IH. Qed.
Lemma iter_pos_succ {A} (f : A -> A) n x : SpecFloat.iter_pos f (Pos.succ n) x = SpecFloat.iter_pos f n (f x).
Proof.
  revert x. induction n as [n IH|n IH|]; intros x; cbn; [|done..].
  change (Pos.succ n~1) with ((Pos.succ n)~0)%positive. cbn. by rewrite !IH, !iter_pos_comm.
Qed.
Lemma iter_shr n m : SpecFloat.iter_pos shr_1 n (Build_shr_record (m * 2 ^ Zpos n) false false) = Build_shr_record m false false.
Proof.
  revert m. induction n as [|n IH] using Pos.peano_ind; intros m.
  - change (2 ^ 1) with 2. rewrite Z.mul_comm. apply (shr_1_exact m).
  - rewrite iter_pos_succ, Pos2Z.inj_succ, Z.pow_succ_r by lia.
    replace (m * (2 * 2 ^ Zpos n)) with (2 * (m * 2 ^ Zpos n)) by lia. rewrite shr_1_exact. apply IH.
Qed.
Lemma shr_exact m e n : 0 <= n ->
  shr (Build_shr_record (m * 2 ^ n) false false) e n = (Build_shr_record m false false, e + n).
Proof.
  intros Hn. destruct n as [|n|n]; [|by cbn; rewrite <- (iter_shr n m)|lia]. cbn. do 2 f_equal; lia.
Qed.

(** *** Rounding what needs none *)

(** The normal form of a number of at most 53 bits. *)
Definition digits (p : positive) : Z := Zpos (digits2_pos p).
Definition normal_mantissa (p : positive) : positive := Z.to_pos (Zpos p * 2 ^ (53 - digits p)).
Definition normal (s : bool) (p : positive) : spec_float := S754_finite s (normal_mantissa p) (digits p - 53).

Lemma digits_small p : Zpos p < 2 ^ 53 -> 1 <= digits p <= 53.
Proof.
  unfold digits. pose proof (digits2_bounds p) as [H _]. intros Hp. split; [lia|].
  destruct (Z.leb_spec (Zpos (digits2_pos p)) 53) as [|Hd]; [done|].
  pose proof (Z.pow_le_mono_r 2 53 (Zpos (digits2_pos p) - 1)). lia.
Qed.
Lemma normal_mantissa_ok p : Zpos p < 2 ^ 53 ->
  Zpos (normal_mantissa p) = Zpos p * 2 ^ (53 - digits p) /\ 2 ^ 52 <= Zpos (normal_mantissa p) < 2 ^ 53.
Proof.
  intros Hp. pose proof (digits_small p Hp) as Hd. unfold normal_mantissa. pose proof (digits2_bounds p) as [H1 H2].
  fold (digits p) in H1, H2. assert (0 < 2 ^ (53 - digits p)) by (apply Z.pow_pos_nonneg; lia).
  rewrite Z2Pos.id by nia. split; [done|].
  replace (2 ^ 52) with (2 ^ (digits p - 1) * 2 ^ (53 - digits p)) by (rewrite <- Z.pow_add_r by lia; f_equal; lia).
  replace (2 ^ 53) with (2 ^ digits p * 2 ^ (53 - digits p)) by (rewrite <- Z.pow_add_r by lia; f_equal; lia). nia.
Qed.
Lemma digits_scaled p k q : 0 <= k -> Zpos q = Zpos p * 2 ^ k -> digits q = digits p + k.
Proof.
  intros Hk Hq. unfold digits. pose proof (digits2_bounds p) as [H1 H2]. apply digits2_unique; [|lia].
  rewrite Hq. assert (0 < 2 ^ k) by (apply Z.pow_pos_nonneg; lia).
  replace (Zpos (digits2_pos p) + k - 1) with (Zpos (digits2_pos p) - 1 + k) by lia. rewrite !Z.pow_add_r by lia. nia.
Qed.

(** The exponent a number of [d] digits gets. *)
Lemma fexp_53 d : -1021 <= d -> fexp 53 1024 d = d - 53.
Proof. unfold fexp, emin. lia. Qed.
Lemma shr_fexp_normal m : Zpos m < 2 ^ 53 -> 2 ^ 52 <= Zpos m -> forall e, -1074 <= e ->
  shr_fexp 53 1024 (Zpos m) e loc_Exact = (Build_shr_record (Zpos m) false false, e).
Proof.
  intros Hm Hl e He. unfold shr_fexp, shr_record_of_loc. cbn [Zdigits2].
  rewrite (digits2_unique m 53) by (cbn in *; lia). rewrite fexp_53 by lia.
  replace (53 + e - 53 - e) with 0 by lia. done.
Qed.
Lemma binary_round_exact s p k q : Zpos p < 2 ^ 53 -> 0 <= k -> Zpos q = Zpos p * 2 ^ k ->
  binary_round 53 1024 s q (- k) = normal s p.
Proof.
  intros Hp Hk Hq. pose proof (digits_small p Hp) as Hd. pose proof (normal_mantissa_ok p Hp) as [Em [Hl Hh]].
  pose proof (digits_scaled p k q Hk Hq) as Hdq. unfold binary_round. unfold digits in Hdq at 1. rewrite Hdq.
  rewrite fexp_53 by lia. pose proof (shl_align_ok q (- k) (digits p + k + - k - 53)) as [E1 E2].
  destruct (shl_align q (- k) _) as [m e]. cbn [fst snd] in E1, E2. unfold binary_round_aux.
  assert (Hs : shr_fexp 53 1024 (Zpos m) e loc_Exact
               = (Build_shr_record (Zpos (normal_mantissa p)) false false, digits p - 53)).
  { set (n := digits p - 53 - e). assert (Hn : 0 <= n) by lia.
    assert (Hm : Zpos m = Zpos (normal_mantissa p) * 2 ^ n).
    { rewrite E1, Hq, Em, <- !Z.mul_assoc. f_equal. rewrite <- !Z.pow_add_r by lia. f_equal. lia. }
    unfold shr_fexp, shr_record_of_loc. cbn [Zdigits2].
    rewrite (digits2_unique m (53 + n)); [| |lia].
    - rewrite fexp_53 by lia. replace (53 + n + e - 53 - e) with n by lia. rewrite Hm, shr_exact by done. f_equal. lia.
    - rewrite Hm. replace (53 + n - 1) with (52 + n) by lia. rewrite !Z.pow_add_r by lia.
      assert (0 < 2 ^ n) by (apply Z.pow_pos_nonneg; lia). nia. }
  rewrite Hs. cbn [shr_m loc_of_shr_record round_nearest_even]. rewrite shr_fexp_normal by lia. cbn [shr_m].
  rewrite (proj2 (Z.leb_le _ _)) by lia. done.
Qed.

(** *** The bits *)

Lemma sign_testbit s n : (n < 2 ^ 63)%N -> N.testbit (sign_bit s + n) 63 = s.
Proof.
  intros Hn. rewrite N.testbit_eqb. unfold sign_bit. destruct s.
  - replace (2 ^ 63 + n)%N with (1 * 2 ^ 63 + n)%N by lia. rewrite N.div_add_l, N.div_small by done. done.
  - rewrite N.add_0_l, N.div_small by done. done.
Qed.
Lemma decode_encode_normal s p e : 2 ^ 52 <= Zpos p < 2 ^ 53 -> -1074 <= e <= 971 ->
  f64_decode (f64_encode (S754_finite s p e)) = S754_finite s p e.
Proof.
  intros [Hl Hh] He. cbn [f64_encode]. destruct (N.ltb_spec (Npos p) (2 ^ 52)) as [Hlt|_]; [lia|].
  set (x := Z.to_N (e + 1075)). set (f := (Npos p - 2 ^ 52)%N).
  assert (Hx : (1 <= x < 2047)%N) by lia. assert (Hf : (f < 2 ^ 52)%N) by (unfold f; lia).
  rewrite <- N.add_assoc. unfold f64_decode. rewrite sign_testbit by lia.
  assert (Em : ((sign_bit s + (x * 2 ^ 52 + f)) mod 2 ^ 52 = f)%N).
  { replace (sign_bit s + (x * 2 ^ 52 + f))%N with (f + ((if s then 2 ^ 11 else 0) + x) * 2 ^ 52)%N
      by (unfold sign_bit; destruct s; lia).
    rewrite N.Div0.mod_add. by apply N.mod_small. }
  assert (Ed : (((sign_bit s + (x * 2 ^ 52 + f)) / 2 ^ 52) mod 2 ^ 11 = x)%N).
  { replace (sign_bit s + (x * 2 ^ 52 + f))%N with (((if s then 2 ^ 11 else 0) + x) * 2 ^ 52 + f)%N
      by (unfold sign_bit; destruct s; lia).
    rewrite N.div_add_l, (N.div_small f), N.add_0_r by done.
    replace ((if s then 2 ^ 11 else 0) + x)%N with (x + (if s then 1 else 0) * 2 ^ 11)%N by (destruct s; lia).
    rewrite N.Div0.mod_add. apply N.mod_small. lia. }
  rewrite Em, Ed. destruct (N.eqb_spec x 2047) as [|_]; [lia|]. destruct (N.eqb_spec x 0) as [|_]; [lia|].
  replace (2 ^ 52 + f)%N with (Npos p) by (unfold f; lia). f_equal. lia.
Qed.

(** The float of an integer. *)
Definition exactly (z : Z) : Prop := - 2 ^ 53 < z < 2 ^ 53.
Definition float_of (z : Z) : spec_float :=
  match z with Z0 => S754_zero false | Zpos p => normal false p | Zneg p => normal true p end.

Lemma binary_normalize_exact z k : exactly z -> 0 <= k ->
  binary_normalize 53 1024 (z * 2 ^ k) (- k) false = float_of z.
Proof.
  intros Hz Hk. destruct z as [|p|p]; [done| |].
  - destruct (Zpos p * 2 ^ k) as [|q|q] eqn:E; [pose proof (Z.pow_pos_nonneg 2 k); lia| |
      pose proof (Z.pow_pos_nonneg 2 k); lia].
    apply binary_round_exact; [unfold exactly in Hz; lia|done|by rewrite E].
  - destruct (Zneg p * 2 ^ k) as [|q|q] eqn:E; [pose proof (Z.pow_pos_nonneg 2 k); lia|
      pose proof (Z.pow_pos_nonneg 2 k); lia|].
    apply binary_round_exact; [unfold exactly in Hz; lia|done|]. lia.
Qed.
Lemma f64_of_Z_encode z : exactly z -> f64_of_Z z = f64_encode (float_of z).
Proof.
  intros Hz. unfold f64_of_Z. f_equal. rewrite <- (binary_normalize_exact z 0) by done. f_equal. lia.
Qed.
Lemma decode_of_Z z : exactly z -> f64_decode (f64_of_Z z) = float_of z.
Proof.
  intros Hz. rewrite f64_of_Z_encode by done. destruct z as [|p|p]; [done| |];
    (assert (Hp : Zpos p < 2 ^ 53) by (unfold exactly in Hz; lia);
     pose proof (digits_small p Hp); pose proof (normal_mantissa_ok p Hp) as [_ ?];
     unfold float_of, normal; apply decode_encode_normal; [done|lia]).
Qed.

Lemma f64_finite_of_Z z : exactly z -> f64_finite (f64_of_Z z) = true.
Proof. intros Hz. unfold f64_finite. rewrite decode_of_Z by done. by destruct z. Qed.

(** *** Operations *)

(** A normal form, at a lower exponent. *)
Lemma align_normal p e : Zpos p < 2 ^ 53 -> e <= digits p - 53 ->
  Zpos (fst (shl_align (normal_mantissa p) (digits p - 53) e)) = Zpos p * 2 ^ (- e).
Proof.
  intros Hp He. rewrite (proj1 (shl_align_ok _ _ _)). pose proof (digits_small p Hp).
  rewrite (proj1 (normal_mantissa_ok p Hp)), <- Z.mul_assoc, <- Z.pow_add_r by lia. do 2 f_equal. lia.
Qed.
Lemma SFadd_exact a b : exactly a -> exactly b -> exactly (a + b) ->
  SFadd 53 1024 (float_of a) (float_of b) = float_of (a + b).
Proof.
  intros Ha Hb Hab. unfold exactly in Ha, Hb.
  destruct a as [|p|p]; [by destruct b| |]; (destruct b as [|q|q]; [by rewrite Z.add_0_r| |]);
    unfold float_of at 1 2, normal; cbn [SFadd cond_Zopp]; set (e := Z.min (digits p - 53) (digits q - 53));
    pose proof (digits_small p ltac:(lia)); pose proof (digits_small q ltac:(lia));
    rewrite !align_normal by (lia || unfold e; lia);
    (rewrite <- (binary_normalize_exact _ (- e)) by (done || unfold e; lia));
    rewrite Z.opp_involutive; f_equal; lia.
Qed.
Lemma SFsub_exact a b : exactly a -> exactly b -> exactly (a - b) -> a <> 0 -> b <> 0 ->
  SFsub 53 1024 (float_of a) (float_of b) = float_of (a - b).
Proof.
  intros Ha Hb Hab Ha0 Hb0. unfold exactly in Ha, Hb.
  destruct a as [|p|p]; [done| |]; (destruct b as [|q|q]; [done| |]);
    unfold float_of at 1 2, normal; cbn [SFsub cond_Zopp]; set (e := Z.min (digits p - 53) (digits q - 53));
    pose proof (digits_small p ltac:(lia)); pose proof (digits_small q ltac:(lia));
    rewrite !align_normal by (lia || unfold e; lia);
    (rewrite <- (binary_normalize_exact _ (- e)) by (done || unfold e; lia));
    rewrite Z.opp_involutive; f_equal; lia.
Qed.
Lemma f64_add_exact a b : exactly a -> exactly b -> exactly (a + b) ->
  f64_add (f64_of_Z a) (f64_of_Z b) = f64_of_Z (a + b).
Proof. intros Ha Hb Hab. unfold f64_add. by rewrite !decode_of_Z, SFadd_exact, f64_of_Z_encode. Qed.
Lemma f64_sub_exact a b : exactly a -> exactly b -> exactly (a - b) -> b <> 0 ->
  f64_sub (f64_of_Z a) (f64_of_Z b) = f64_of_Z (a - b).
Proof.
  intros Ha Hb Hab Hb0. unfold f64_sub. rewrite !decode_of_Z, (f64_of_Z_encode (a - b)) by done. f_equal.
  destruct (decide (a = 0)) as [->|Ha0]; [by destruct b|]. by apply SFsub_exact.
Qed.

Lemma normal_compare p q : Zpos p < 2 ^ 53 -> Zpos q < 2 ^ 53 ->
  match Z.compare (digits p - 53) (digits q - 53) with
  | Lt => Lt | Gt => Gt | Eq => Pos.compare_cont Eq (normal_mantissa p) (normal_mantissa q)
  end = Z.compare (Zpos p) (Zpos q).
Proof.
  intros Hp Hq. pose proof (digits2_bounds p) as [Pl Ph]. pose proof (digits2_bounds q) as [Ql Qh].
  fold (digits p) in Pl, Ph. fold (digits q) in Ql, Qh.
  pose proof (digits_small p Hp). pose proof (digits_small q Hq).
  destruct (Z.compare_spec (digits p - 53) (digits q - 53)) as [E|E|E]; symmetry.
  - assert (digits p = digits q) as Ed by lia.
    change (Pos.compare_cont Eq (normal_mantissa p) (normal_mantissa q))
with (Z.compare (Zpos (normal_mantissa p)) (Zpos (normal_mantissa q))).
  rewrite (proj1 (normal_mantissa_ok p Hp)), (proj1 (normal_mantissa_ok q Hq)), Ed.
  apply Zmult_compare_compat_r, Z.lt_gt, Z.pow_pos_nonneg; lia.
  - apply Z.compare_lt_iff. pose proof (Z.pow_le_mono_r 2 (digits p) (digits q - 1)). lia.
  - apply Z.compare_gt_iff. pose proof (Z.pow_le_mono_r 2 (digits q) (digits p - 1)). lia.
Qed.
Lemma SFcompare_exact a b : exactly a -> exactly b -> SFcompare (float_of a) (float_of b) = Some (Z.compare a b).
Proof.
  intros Ha Hb. unfold exactly in Ha, Hb.
  destruct a as [|p|p], b as [|q|q]; try done; unfold float_of, normal; cbn [SFcompare]; f_equal.
  - apply normal_compare; lia.
  - change (Z.compare (Zneg p) (Zneg q)) with (CompOpp (Z.compare (Zpos p) (Zpos q))).
    rewrite <- (normal_compare p q) by lia. by destruct (Z.compare (digits p - 53) (digits q - 53)).
Qed.
Lemma f64_ltb_exact a b : exactly a -> exactly b -> f64_ltb (f64_of_Z a) (f64_of_Z b) = Z.ltb a b.
Proof.
  intros Ha Hb. unfold f64_ltb, SFltb. rewrite !decode_of_Z, SFcompare_exact by done. unfold Z.ltb. by destruct (Z.compare a b).
Qed.
Lemma f64_leb_exact a b : exactly a -> exactly b -> f64_leb (f64_of_Z a) (f64_of_Z b) = Z.leb a b.
Proof.
  intros Ha Hb. unfold f64_leb, SFleb. rewrite !decode_of_Z, SFcompare_exact by done. unfold Z.leb. by destruct (Z.compare a b).
Qed.

Lemma f64_trunc_exact z : exactly z -> f64_trunc (f64_of_Z z) = f64_of_Z z.
Proof.
  intros Hz. unfold f64_trunc. rewrite decode_of_Z by done. destruct z as [|p|p]; [done| |];
    (assert (Hp : Zpos p < 2 ^ 53) by (unfold exactly in Hz; lia);
     unfold float_of, normal; destruct (Z.leb_spec 0 (digits p - 53)) as [|He]; [done|];
     rewrite (proj1 (normal_mantissa_ok p Hp)); replace (- (digits p - 53)) with (53 - digits p) by lia;
     rewrite Z.div_mul by (apply Z.pow_nonzero; lia); done).
Qed.
End exact.
