(* ===== verification/Transcript.v ===== *)
(** What the broker and its daemons sign and MAC
    ([crates/crypto/src/daemon/mod.rs], [keys.rs], [encoding.rs]): the
    length-prefixed transcripts with their context labels, the daemons'
    identities, and the keys' texts. Base64 and Ed25519 are the libraries'. *)

From S2P Require Import Prelude HostTypes TotpCode.
From stdpp Require Import options.

(** Comparisons of literals, evaluated. *)
Ltac lits :=
  repeat match goal with
  | |- context [str_eqb (lit ?a) (lit ?b)] =>
      let v := eval vm_compute in (str_eqb (lit a) (lit b)) in
      change (str_eqb (lit a) (lit b)) with v
  end; cbv iota.

(** ** UTF-8 ([str::as_bytes]) *)

Definition utf8_char (c : char) : bytes :=
  (if c <? 128 then [c]
   else if c <? 2048 then [192 + c / 64; 128 + c mod 64]
   else if c <? 65536 then [224 + c / 4096; 128 + c / 64 mod 64; 128 + c mod 64]
   else [240 + c / 262144; 128 + c / 4096 mod 64; 128 + c / 64 mod 64; 128 + c mod 64])%N.
Definition as_bytes (s : str) : bytes := concat (map utf8_char s).

Lemma land_low b m k : m = (2 ^ k - 1)%N -> N.land b m = (b mod 2 ^ k)%N.
Proof. intros ->. by rewrite <- N.pred_sub, <- N.ones_equiv, N.land_ones. Qed.

Lemma as_bytes_length s : length (as_bytes s) = str_len s.
Proof.
  unfold as_bytes. induction s as [|c s IH]; [done|]. cbn [map concat str_len]. rewrite length_app, IH. f_equal.
  unfold utf8_char, Utf8.len_utf8. by repeat case_match.
Qed.

Lemma utf8_decode_char c rest :
  is_scalar c = true -> Utf8.decode (utf8_char c ++ rest) = c :: Utf8.decode rest.
Proof.
  intros Hc%is_scalar_bound. unfold utf8_char.
  assert (Hcont : forall x, (x < 64 -> Utf8.cont (128 + x) = x)%N).
  { intros x Hx. unfold Utf8.cont. rewrite (land_low _ 63 6) by done.
    change (2 ^ 6)%N with 64%N. rewrite N.add_comm. change 128%N with (2 * 64)%N.
    by rewrite N.Div0.mod_add, N.mod_small. }
  assert (Hhead : forall a k x, (a mod 2 ^ k = 0 -> x < 2 ^ k -> N.land (a + x) (2 ^ k - 1) = x)%N).
  { intros a k x Ha Hx. rewrite (land_low _ _ k) by done.
    rewrite <- N.Div0.add_mod_idemp_l, Ha. by rewrite N.mod_small. }
  assert (Hm : forall x, (x mod 64 < 64)%N) by (intros; by apply N.mod_lt).
  destruct (N.ltb_spec c 128) as [?|?].
  { cbn. by rewrite (proj2 (N.ltb_lt _ _)). }
  destruct (N.ltb_spec c 2048) as [?|?].
  { assert (c / 64 < 32)%N by (apply N.Div0.div_lt_upper_bound; lia). pose proof (N.le_0_l (c / 64)).
    cbn -[N.add N.mul N.div N.modulo N.ltb].
    rewrite (proj2 (N.ltb_ge _ 128)), (proj2 (N.ltb_lt _ 224)) by lia.
    rewrite (Hhead 192%N 5%N), Hcont by (done || lia).
    f_equal. pose proof (N.div_mod' c 64). lia. }
  destruct (N.ltb_spec c 65536) as [?|?].
  { assert (c / 4096 < 16)%N by (apply N.Div0.div_lt_upper_bound; lia). pose proof (N.le_0_l (c / 4096)).
    cbn -[N.add N.mul N.div N.modulo N.ltb].
    rewrite (proj2 (N.ltb_ge _ 128)), (proj2 (N.ltb_ge _ 224)), (proj2 (N.ltb_lt _ 240)) by lia.
    rewrite (Hhead 224%N 4%N), !Hcont by (done || lia || apply Hm).
    f_equal. change 4096%N with (64 * 64)%N. rewrite <- N.Div0.div_div.
    pose proof (N.div_mod' c 64). pose proof (N.div_mod' (c / 64) 64). lia. }
  assert (c / 262144 < 8)%N by (apply N.Div0.div_lt_upper_bound; lia). pose proof (N.le_0_l (c / 262144)).
  cbn -[N.add N.mul N.div N.modulo N.ltb].
  rewrite (proj2 (N.ltb_ge _ 128)), (proj2 (N.ltb_ge _ 224)), (proj2 (N.ltb_ge _ 240)) by lia.
  rewrite (Hhead 240%N 3%N), !Hcont by (done || lia || apply Hm).
  f_equal. change 262144%N with (64 * 64 * 64)%N. change 4096%N with (64 * 64)%N.
  rewrite <- !N.Div0.div_div.
  pose proof (N.div_mod' c 64). pose proof (N.div_mod' (c / 64) 64).
  pose proof (N.div_mod' (c / 64 / 64) 64). lia.
Qed.

Lemma utf8_decode s : valid_str s -> Utf8.decode (as_bytes s) = s.
Proof.
  unfold as_bytes. induction 1 as [|c s Hc _ IH]; [done|].
  cbn [map concat]. by rewrite utf8_decode_char, IH.
Qed.
Lemma as_bytes_inj a b : valid_str a -> valid_str b -> as_bytes a = as_bytes b -> a = b.
Proof. intros Ha Hb E. by rewrite <- (utf8_decode a), <- (utf8_decode b), E. Qed.
Lemma as_bytes_app a b : as_bytes (a ++ b) = as_bytes a ++ as_bytes b.
Proof. unfold as_bytes. by rewrite map_app, concat_app. Qed.

(** ASCII text is its own bytes. *)
Lemma as_bytes_ascii s : Forall (fun c => is_ascii c = true) s -> as_bytes s = s.
Proof.
  unfold as_bytes. induction 1 as [|c s Hc _ IH]; [done|]. cbn [map concat]. rewrite IH.
  unfold utf8_char. unfold is_ascii in Hc. by rewrite Hc.
Qed.

(** ** Transcripts *)

(** [u32::try_from(part.len()).unwrap_or(u32::MAX)]. *)
Definition u32_len (part : bytes) : N := N.min MAX_U32 (N.of_nat (length part)).

Fixpoint transcript (parts : list bytes) : bytes :=
  match parts with
  | [] => []
  | part :: parts => be_bytes 4 (u32_len part) ++ part ++ transcript parts
  end.

(** [split]: reads a transcript back into its parts. Every turn takes at
    least the four bytes of a length. *)
Fixpoint split_go (fuel : nat) (t : bytes) : option (list bytes) :=
  match fuel, t with
  | _, [] => Some []
  | O, _ => None
  | S fuel, _ =>
      if Nat.ltb (length t) 4 then None
      else
        let len := N.to_nat (be_value (take 4 t)) in
        let rest := drop 4 t in
        if Nat.ltb (length rest) len then None
        else parts ← split_go fuel (drop len rest); Some (take len rest :: parts)
  end.
Definition split_transcript (t : bytes) : option (list bytes) := split_go (length t) t.

(** What the length prefix can express. *)
Definition part_fits (part : bytes) : Prop := (N.of_nat (length part) <= MAX_U32)%N.

Lemma be_bytes_length k n : length (be_bytes k n) = k.
Proof. unfold be_bytes. by rewrite length_map, length_seq. Qed.

Lemma be_value_4 n : (n <= MAX_U32)%N -> be_value (be_bytes 4 n) = n.
Proof.
  intros Hn. unfold be_value, be_bytes. cbn [map seq fold_left].
  change (256 ^ N.of_nat (4 - 1 - 0))%N with (256 * 256 * 256)%N.
  change (256 ^ N.of_nat (4 - 1 - 1))%N with (256 * 256)%N.
  change (256 ^ N.of_nat (4 - 1 - 2))%N with 256%N.
  change (256 ^ N.of_nat (4 - 1 - 3))%N with 1%N.
  rewrite <- !N.Div0.div_div, N.div_1_r.
  assert (n / 256 / 256 / 256 < 256)%N.
  { rewrite !N.Div0.div_div. apply N.Div0.div_lt_upper_bound.
    assert (MAX_U32 < 256 * (256 * (256 * 256)))%N by by vm_compute. lia. }
  rewrite (N.mod_small (n / 256 / 256 / 256)) by done.
  pose proof (N.div_mod' n 256). pose proof (N.div_mod' (n / 256) 256).
  pose proof (N.div_mod' (n / 256 / 256) 256). lia.
Qed.

Lemma split_go_transcript parts fuel :
  Forall part_fits parts -> length (transcript parts) <= fuel ->
  split_go fuel (transcript parts) = Some parts.
Proof.
  intros Hp; revert fuel. induction Hp as [|p ps Hp _ IH]; intros fuel Hf; [by destruct fuel|].
  cbn [transcript] in *. rewrite !length_app, be_bytes_length in Hf.
  destruct fuel as [|fuel]; [lia|].
  assert (Hu : u32_len p = N.of_nat (length p)) by (unfold u32_len; unfold part_fits in Hp; lia).
  cbn [split_go].
  destruct (be_bytes 4 (u32_len p) ++ p ++ transcript ps) eqn:E.
  { apply (f_equal length) in E. rewrite length_app, be_bytes_length in E. cbn in E. lia. }
  rewrite <- E. clear E.
  rewrite (proj2 (Nat.ltb_ge _ 4)) by (rewrite length_app, be_bytes_length; lia).
  rewrite take_app_length' by by rewrite be_bytes_length.
  rewrite drop_app_length' by by rewrite be_bytes_length.
  rewrite Hu, be_value_4, Nat2N.id by done.
  rewrite (proj2 (Nat.ltb_ge _ (length p))) by (rewrite length_app; lia).
  rewrite drop_app_length, take_app_length, IH by lia. done.
Qed.

(** A transcript reads back to exactly its parts. *)
Lemma split_transcript_ok parts : Forall part_fits parts -> split_transcript (transcript parts) = Some parts.
Proof. intros. by apply split_go_transcript. Qed.
Lemma transcript_inj a b :
  Forall part_fits a -> Forall part_fits b -> transcript a = transcript b -> a = b.
Proof.
  intros Ha Hb E. apply split_transcript_ok in Ha, Hb. rewrite E, Hb in Ha. by injection Ha.
Qed.

(** ** Labels and limits *)

Definition CTX_PAIR_KEY : bytes := lit "agent-auth/v1/pair-key".
Definition CTX_PAIR : bytes := lit "agent-auth/v1/pair".
Definition CTX_PAIR_SELECTOR : bytes := lit "agent-auth/v1/pair-selector".
Definition CTX_SESSION : bytes := lit "agent-auth/v1/session".
Definition CTX_HELLO : bytes := lit "agent-auth/v1/hello".
Definition CTX_MSG : bytes := lit "agent-auth/v1/msg".
Definition BROKER : str := lit "broker".
Definition MAX_FIELD_BYTES : N := 16 * 1024 * 1024.

(** ** Identities *)

Inductive ChannelRole := RHost | RSandbox.
#[export] Instance ChannelRole_eq_dec : EqDecision ChannelRole.
Proof. solve_decision. Defined.
Definition ChannelRole_as_str (r : ChannelRole) : str :=
  match r with RHost => lit "host" | RSandbox => lit "sandbox" end.
Definition ChannelRole_parse (s : str) : option ChannelRole :=
  if str_eqb s (lit "host") then Some RHost
  else if str_eqb s (lit "sandbox") then Some RSandbox else None.

(** [DaemonName::parse]: [[a-z0-9][a-z0-9-]{0,62}], the whole string. *)
Definition daemon_byte (b : char) : bool := is_ascii_lowercase b || is_ascii_digit b.
Definition ChannelName_parse (text : str) : option str :=
  let first_ok := match text with b :: _ => daemon_byte b | [] => false end in
  let rest_ok := forallb (fun b => daemon_byte b || N.eqb b (ch "-")) (drop 1 text) in
  if first_ok && rest_ok && Nat.leb (str_len text) 63 then Some text else None.

Record ChannelId := mkChannelId { ci_role : ChannelRole; ci_name : str }.
#[export] Instance ChannelId_eq_dec : EqDecision ChannelId.
Proof. solve_decision. Defined.
Definition principal (id : ChannelId) : str := ChannelRole_as_str (ci_role id) ++ lit ":" ++ ci_name id.

(** A daemon's name as it was parsed. *)
Definition valid_id (id : ChannelId) : Prop := ChannelName_parse (ci_name id) = Some (ci_name id).

Lemma ChannelRole_parse_as_str r : ChannelRole_parse (ChannelRole_as_str r) = Some r.
Proof. by destruct r. Qed.
Lemma ChannelRole_as_str_inj r r' : ChannelRole_as_str r = ChannelRole_as_str r' -> r = r'.
Proof. by destruct r, r'. Qed.

Lemma ChannelName_some text n : ChannelName_parse text = Some n ->
  n = text /\ str_len text <= 63 /\ Forall (fun c => daemon_byte c = true \/ c = ch "-") text.
Proof.
  unfold ChannelName_parse. intros H. case_match eqn:E; [|done]. injection H as <-.
  bools. destruct text as [|b text]; [done|]. cbn in *. split_and!; [done|by apply Nat.leb_le|].
  constructor; [by left|]. apply Forall_forall. intros c Hc.
  match goal with F : forallb _ _ = true |- _ => apply (proj1 (forallb_elem _ _) F) in Hc end.
  apply orb_true_iff in Hc as [?| ->%N.eqb_eq]; auto.
Qed.

Lemma daemon_byte_ascii c : daemon_byte c = true -> (c < 128 /\ c <> ch ":")%N.
Proof.
  unfold daemon_byte, is_ascii_lowercase, is_ascii_digit, in_range. intros H.
  apply orb_true_iff in H as [H|H]; apply andb_true_iff in H as [H1%N.leb_le H2%N.leb_le]; lia.
Qed.
Lemma ChannelName_ascii n : ChannelName_parse n = Some n -> Forall (fun c => is_ascii c = true) n.
Proof.
  intros (_ & _ & H)%ChannelName_some. eapply Forall_impl; [exact H|].
  intros c [[Hc _]%daemon_byte_ascii| ->]; [by apply N.ltb_lt|done].
Qed.

(** A principal names one daemon, and no daemon is the broker. *)
Lemma principal_inj a b : principal a = principal b -> a = b.
Proof. destruct a as [[] n], b as [[] m]; unfold principal; cbn; by intros [= ->]. Qed.
Lemma principal_not_broker id : principal id <> BROKER.
Proof. by destruct id as [[] n]. Qed.

(** ** Base64 and Ed25519 (the [base64] and [ring] crates) *)

(** [URL_SAFE_NO_PAD.encode], [URL_SAFE_NO_PAD_INDIFFERENT.decode], and
    [STANDARD_PAD_INDIFFERENT.decode]. *)
Class Base64 := {
  b64url_encode : bytes -> str;
  b64url_decode : str -> option bytes;
  b64std_decode : str -> option bytes;
}.
Definition b64_char (c : char) : bool := is_ascii_alphanumeric c || N.eqb c (ch "-") || N.eqb c (ch "_").
(** What is decoded is what was encoded; no padding is written; only the
    alphabet and padding are read, four characters for three bytes. *)
Class Base64Laws `{!Base64} : Prop := {
  b64_roundtrip b : Forall is_byte b -> b64url_decode (b64url_encode b) = Some b;
  b64_alphabet b : Forall is_byte b -> Forall (fun c => b64_char c = true) (b64url_encode b);
  b64_bytes t b : b64url_decode t = Some b -> Forall is_byte b;
  b64_text t b : b64url_decode t = Some b -> Forall (fun c => b64_char c = true \/ c = ch "=") t;
  b64_length t b : b64url_decode t = Some b -> length t <= 2 * length b + 4;
}.

(** Seed to public key; seed and message to signature; key, message and
    signature to whether it verifies. *)
Class Ed25519 := {
  ed_public : bytes -> bytes;
  ed_sign : bytes -> bytes -> bytes;
  ed_verify : bytes -> bytes -> bytes -> bool;
}.
Class Ed25519Laws `{!Ed25519} : Prop := {
  ed_sign_verifies seed m : ed_verify (ed_public seed) m (ed_sign seed m) = true;
  ed_sign_bytes seed m : Forall is_byte (ed_sign seed m);
  ed_public_bytes seed : Forall is_byte (ed_public seed) /\ length (ed_public seed) = 32;
}.

(** ** Keys *)

Inductive KeyParseError :=
| SigningKeyNotBase64 | SigningKeyLength | PublicKeyPrefix | PublicKeyNotBase64 | PublicKeyLength
| PublicKeyWeak.
Definition PUBLIC_KEY_PREFIX : str := lit "ed25519:".

Definition SMALL_ORDER : list bytes :=
  [ repeat 0%N 32;
    1%N :: repeat 0%N 31;
    [0x26; 0xe8; 0x95; 0x8f; 0xc2; 0xb2; 0x27; 0xb0; 0x45; 0xc3; 0xf4; 0x89; 0xf2; 0xef; 0x98;
     0xf0; 0xd5; 0xdf; 0xac; 0x05; 0xd3; 0xc6; 0x33; 0x39; 0xb1; 0x38; 0x02; 0x88; 0x6d; 0x53;
     0xfc; 0x05]%N;
    [0xc7; 0x17; 0x6a; 0x70; 0x3d; 0x4d; 0xd8; 0x4f; 0xba; 0x3c; 0x0b; 0x76; 0x0d; 0x10; 0x67;
     0x0f; 0x2a; 0x20; 0x53; 0xfa; 0x2c; 0x39; 0xcc; 0xc6; 0x4e; 0xc7; 0xfd; 0x77; 0x92; 0xac;
     0x03; 0x7a]%N;
    0xec%N :: repeat 0xff%N 30 ++ [0x7f%N];
    0xed%N :: repeat 0xff%N 30 ++ [0x7f%N];
    0xee%N :: repeat 0xff%N 30 ++ [0x7f%N] ].

(** The sign bit of x cleared: the top bit of the last byte. *)
Definition clear_sign (raw : bytes) : bytes :=
  match last raw with Some b => take (length raw - 1) raw ++ [N.land b 0x7f] | None => raw end.
Definition small_order (raw : bytes) : bool := bool_decide (clear_sign raw ∈ SMALL_ORDER).

Record SigningKey := mkSigningKey { sk_seed : bytes }.
Abbreviation PublicKey := (list N) (only parsing).

Section keys.
Context `{Base64, Ed25519}.

(** [from_seed]: ring takes every 32-byte seed. *)
Definition from_seed (seed : bytes) : result KeyParseError SigningKey :=
  if Nat.eqb (length seed) 32 then Ok (mkSigningKey seed) else Err SigningKeyLength.
Definition SigningKey_from_text (text : str) : result KeyParseError SigningKey :=
  raw ← ok_or (b64url_decode (trim text)) SigningKeyNotBase64;
  from_seed raw.
Definition SigningKey_to_text (k : SigningKey) : str := b64url_encode (sk_seed k).
Definition public_key (k : SigningKey) : PublicKey := ed_public (sk_seed k).
Definition sign (k : SigningKey) (message : bytes) : bytes := ed_sign (sk_seed k) message.

Definition PublicKey_parse (text : str) : result KeyParseError PublicKey :=
  body ← ok_or (strip_prefix PUBLIC_KEY_PREFIX text) PublicKeyPrefix;
  raw ← ok_or (b64url_decode body) PublicKeyNotBase64;
  if negb (Nat.eqb (length raw) 32) then Err PublicKeyLength
  else if small_order raw then Err PublicKeyWeak
  else Ok raw.
Definition PublicKey_to_text (k : PublicKey) : str := PUBLIC_KEY_PREFIX ++ b64url_encode k.
Definition key_verify (k : PublicKey) (message signature : bytes) : bool := ed_verify k message signature.

(** A key's text reads back to the key, unless it is of small order. *)
Lemma PublicKey_parse_to_text `{!Base64Laws} k :
  Forall is_byte k -> length k = 32 ->
  PublicKey_parse (PublicKey_to_text k) = if small_order k then Err PublicKeyWeak else Ok k.
Proof.
  intros Hb Hl. unfold PublicKey_parse, PublicKey_to_text. rewrite strip_prefix_app. cbn.
  rewrite b64_roundtrip by done. cbn. by rewrite Hl.
Qed.
Lemma PublicKey_to_text_inj `{!Base64Laws} a b :
  Forall is_byte a -> Forall is_byte b -> PublicKey_to_text a = PublicKey_to_text b -> a = b.
Proof.
  unfold PublicKey_to_text. intros Ha Hb E%app_inv_head.
  apply (f_equal b64url_decode) in E. rewrite !b64_roundtrip in E by done. by injection E.
Qed.
Lemma PublicKey_parse_ok `{!Base64Laws} text k : PublicKey_parse text = Ok k ->
  length k = 32 /\ Forall is_byte k /\ small_order k = false.
Proof.
  unfold PublicKey_parse. destruct (strip_prefix _ _) as [body|]; cbn; [|done].
  destruct (b64url_decode body) as [raw|] eqn:Eb; cbn; [|done].
  destruct (Nat.eqb_spec (length raw) 32); cbn; [|done].
  destruct (small_order raw) eqn:Es; [done|]. intros [= <-]. eauto using b64_bytes.
Qed.
End keys.
