(* ===== verification/Envelope.v ===== *)
(** Signed envelopes ([crates/crypto/src/daemon/envelope.rs]): every message
    on a channel after the hello. A sealer numbers one direction of one
    connection; a verifier takes each number once, in order. [serde_json]'s
    reader is a parameter; times are [F64.v]'s. *)

From S2P Require Import Prelude Json Pool HostTypes TotpCode F64 Transcript.
From stdpp Require Import options.

(** ** [serde_json]'s reader *)

Class JsonRead := { json_from_slice : bytes -> option Value }.

Definition number_valid (n : Number) : bool :=
  match n with
  | PosInt u => N.leb u MAX_U64
  | NegInt i => Z.leb (- 2 ^ 63) i && Z.ltb i 0
  | Float bits => f64_finite bits
  end.

(** What a [Value] may be: texts of scalar values, maps in key order,
    numbers of their types. *)
Fixpoint json_valid (v : Value) : Prop :=
  match v with
  | VNull | VBool _ => True
  | VNumber n => number_valid n = true
  | VString s => valid_str s
  | VArray l => fold_right (fun x acc => json_valid x /\ acc) True l
  | VObject m => map_sorted m /\ fold_right (fun kv acc => (valid_str kv.1 /\ json_valid kv.2) /\ acc) True m
  end.
Fixpoint json_depth (v : Value) : nat :=
  match v with
  | VArray l => S (fold_right (fun x acc => Nat.max (json_depth x) acc) 0 l)
  | VObject m => S (fold_right (fun kv acc => Nat.max (json_depth kv.2) acc) 0 m)
  | _ => 0
  end.

(** What [serde_json] writes it reads back (its [float_roundtrip] feature
    is on), up to its recursion limit. *)
Definition RECURSION_LIMIT : nat := 127.
Class JsonReadLaws `{!RustFmt, !JsonRead} : Prop := {
  json_text_valid v : json_valid v -> valid_str (value_display v);
  json_read_back v : json_valid v ->
    json_from_slice (as_bytes (value_display v))
    = if Nat.leb (json_depth v) RECURSION_LIMIT then Some v else None;
}.

(** [Value::get] with a key. *)
Definition value_get (v : Value) (k : str) : option Value :=
  match v with VObject m => map_get k m | _ => None end.

(** ** Errors and limits *)

Inductive EnvelopeError :=
| Malformed | BadSignature | MalformedBody | WrongChannel (iss aud : str) | Replayed | FromTheFuture
| Expired | LifetimeTooLong.
Inductive SealError :=
| ReservedKey (k : str) | BadTtl | BadTime | TooLarge | SeqExhausted | RandomFailed.

Definition RESERVED_KEYS : list str :=
  [lit "id"; lit "iss"; lit "aud"; lit "seq"; lit "iat"; lit "exp"].
(** 3600, 60 and 30 seconds. *)
Definition MAX_ENVELOPE_TTL_SECS : f64 := f64_of_Z 3600.
Definition DEFAULT_ENVELOPE_TTL_SECS : f64 := f64_of_Z 60.
Definition MAX_CLOCK_SKEW_SECS : f64 := f64_of_Z 30.

Record EnvelopeSealer := mkSealer {
  es_key : SigningKey; es_sender : str; es_audience : str; es_session : bytes; es_seq : N }.
Record EnvelopeVerifier := mkVerifier {
  ev_peer : PublicKey; ev_sender : str; ev_audience : str; ev_session : bytes; ev_last : N }.
Definition EnvelopeSealer_new (key : SigningKey) (sender audience : str) (session : bytes) :=
  mkSealer key sender audience session 0.
Definition EnvelopeVerifier_new (peer : PublicKey) (sender audience : str) (session : bytes) :=
  mkVerifier peer sender audience session 0.

Section envelope.
Context `{RustFmt, JsonRead, Base64, Ed25519}.

(** The bytes an envelope's signature covers. *)
Definition message (session p : bytes) : bytes := transcript [CTX_MSG; session; p].

(** ** Sealing *)

Definition fields_set (payload : list (str * Value)) (id sender audience : str) (seq : N)
  (iat exp : Number) : list (str * Value) :=
  map_insert (lit "exp") (VNumber exp)
  (map_insert (lit "iat") (VNumber iat)
    (map_insert (lit "seq") (VNumber (PosInt seq))
      (map_insert (lit "aud") (VString audience)
        (map_insert (lit "iss") (VString sender)
          (map_insert (lit "id") (VString id) payload))))).

(** [seal_with]; [to_vec] writes what [Display] does. *)
Definition seal_with (s : EnvelopeSealer) (payload : list (str * Value)) (id : str) (seq : N)
  (ttl now : f64) : result SealError (bytes * str) :=
  match find (fun k => negb (is_none (map_get k payload))) RESERVED_KEYS with
  | Some k => Err (ReservedKey k)
  | None =>
    if negb (f64_ltb 0 ttl && f64_leb ttl MAX_ENVELOPE_TTL_SECS) then Err BadTtl
    else
      iat ← ok_or (Number_from_f64 now) BadTime;
      exp ← ok_or (Number_from_f64 (f64_add now ttl)) BadTime;
      let body := fields_set payload id (es_sender s) (es_audience s) seq iat exp in
      let p := as_bytes (value_display (VObject body)) in
      if N.ltb MAX_FIELD_BYTES (N.of_nat (length p)) then Err TooLarge
      else
        let sig := sign (es_key s) (message (es_session s) p) in
        Ok (p, value_display (json_obj
          [(lit "p", VString (b64url_encode p)); (lit "s", VString (b64url_encode sig))]))
  end.

Definition with_seq (s : EnvelopeSealer) (seq : N) : EnvelopeSealer :=
  mkSealer (es_key s) (es_sender s) (es_audience s) (es_session s) seq.

(** [seal]; [id] is the random id, if the system gave one. The signed bytes
    stand beside the text. *)
Definition seal (s : EnvelopeSealer) (payload : list (str * Value)) (ttl now : f64) (id : option str)
  : result SealError (bytes * str) * EnvelopeSealer :=
  if N.ltb MAX_U64 (es_seq s + 1) then (Err SeqExhausted, s)
  else
  let seq := (es_seq s + 1)%N in
  match id with
  | None => (Err RandomFailed, s)
  | Some id =>
      match seal_with s payload id seq ttl now with
      | Err e => (Err e, s)
      | Ok text => (Ok text, with_seq s seq)
      end
  end.

(** ** Opening *)

Record BodyFields := mkBodyFields {
  bf_iss : option str; bf_aud : option str; bf_seq : N; bf_iat : f64; bf_exp : f64 }.

Definition number_field (body : list (str * Value)) (k : str) : option f64 :=
  v ← map_get k body;
  f ← as_f64 v;
  if f64_finite f then Some f else None.

Definition parse_seq (v : Value) : option N :=
  match v with
  | VNumber (PosInt u) => Some u
  | VNumber (NegInt _) => Some 0%N
  | _ => None
  end.

Definition parse_fields (body : list (str * Value)) : option BodyFields :=
  _ ← (map_get (lit "id") body ≫= as_str);
  iss ← map_get (lit "iss") body;
  aud ← map_get (lit "aud") body;
  seq ← (map_get (lit "seq") body ≫= parse_seq);
  iat ← number_field body (lit "iat");
  exp ← number_field body (lit "exp");
  Some (mkBodyFields (as_str iss) (as_str aud) seq iat exp).

Definition show (v : option Value) : str :=
  match v with
  | Some (VString s) => debug_str s
  | Some other => value_display other
  | None => lit "null"
  end.

Definition outer_field (outer : Value) (k : str) : option bytes :=
  v ← value_get outer k;
  t ← as_str v;
  b64url_decode t.

Definition opened (v : EnvelopeVerifier) (seq : N) : EnvelopeVerifier :=
  mkVerifier (ev_peer v) (ev_sender v) (ev_audience v) (ev_session v) seq.

(** What is checked of a body whose signature verified, in the code's
    order. *)
Definition check_body (v : EnvelopeVerifier) (body : list (str * Value)) (now : f64)
  : result EnvelopeError N :=
  f ← ok_or (parse_fields body) MalformedBody;
  if negb (bool_decide (bf_iss f = Some (ev_sender v)) && bool_decide (bf_aud f = Some (ev_audience v)))
  then Err (WrongChannel (show (map_get (lit "iss") body)) (show (map_get (lit "aud") body)))
  else if N.leb (bf_seq f) (ev_last v) then Err Replayed
  else if f64_ltb (f64_add now MAX_CLOCK_SKEW_SECS) (bf_iat f) then Err FromTheFuture
  else if f64_ltb (bf_exp f) now then Err Expired
  else if f64_ltb MAX_ENVELOPE_TTL_SECS (f64_sub (bf_exp f) (bf_iat f)) then Err LifetimeTooLong
  else Ok (bf_seq f).

(** The signed bytes and the signature of a frame. *)
Definition read_frame (raw : bytes) : result EnvelopeError (bytes * bytes) :=
  if N.ltb (MAX_FIELD_BYTES * 2) (N.of_nat (length raw)) then Err Malformed
  else
  outer ← ok_or (json_from_slice raw) Malformed;
  p ← ok_or (outer_field outer (lit "p")) Malformed;
  s ← ok_or (outer_field outer (lit "s")) Malformed;
  Ok (p, s).

Definition open_ (v : EnvelopeVerifier) (raw : bytes) (now : f64)
  : result EnvelopeError (list (str * Value)) * EnvelopeVerifier :=
  match read_frame raw with
  | Err e => (Err e, v)
  | Ok (p, s) =>
    if N.ltb MAX_FIELD_BYTES (N.of_nat (length p)) || negb (key_verify (ev_peer v) (message (ev_session v) p) s)
    then (Err BadSignature, v)
    else
      match json_from_slice p with
      | Some (VObject body) =>
          match check_body v body now with
          | Err e => (Err e, v)
          | Ok seq => (Ok body, opened v seq)
          end
      | _ => (Err MalformedBody, v)
      end
  end.

(** ** What an opened frame was *)

Lemma open_ok v raw now body v' :
  open_ v raw now = (Ok body, v') ->
  exists p s seq, read_frame raw = Ok (p, s) /\ key_verify (ev_peer v) (message (ev_session v) p) s = true /\
  json_from_slice p = Some (VObject body) /\ check_body v body now = Ok seq /\ v' = opened v seq /\
  (N.of_nat (length p) <= MAX_FIELD_BYTES)%N.
Proof.
  unfold open_. intros HO. destruct (read_frame raw) as [[p s]|?]; [|done].
  destruct (N.ltb MAX_FIELD_BYTES _ || _) eqn:Ev; [done|].
  apply orb_false_iff in Ev as [Hl%N.ltb_ge Ev%negb_false_iff].
  destruct (json_from_slice p) as [[| | | | |m]|] eqn:Ej; try done.
  destruct (check_body v m now) as [seq|?] eqn:Ec; [|done]. injection HO as <- <-. eauto 10.
Qed.
Lemma open_err v raw now e v' : open_ v raw now = (Err e, v') -> v' = v.
Proof.
  unfold open_. intros HO. repeat case_match; try (by injection HO); by inversion HO.
Qed.

Lemma check_body_ok v body now seq :
  check_body v body now = Ok seq ->
  exists f, parse_fields body = Some f /\ bf_seq f = seq /\ bf_iss f = Some (ev_sender v) /\
  bf_aud f = Some (ev_audience v) /\ (ev_last v < seq)%N.
Proof.
  unfold check_body. destruct (parse_fields body) as [f|]; cbn; [|done].
  destruct (bool_decide (bf_iss f = _)) eqn:E1; [|done]. destruct (bool_decide (bf_aud f = _)) eqn:E2; [|done].
  cbn. destruct (N.leb_spec (bf_seq f) (ev_last v)); [done|].
  apply bool_decide_eq_true in E1, E2. repeat case_match; try done. intros [= <-]. eauto 10.
Qed.

(** ** What is sealed *)

Lemma json_valid_object m :
  json_valid (VObject m) <-> map_sorted m /\ Forall (fun kv => valid_str kv.1 /\ json_valid kv.2) m.
Proof.
  cbn [json_valid]. split; intros [Hs Hm]; (split; [done|]).
  - clear Hs. induction m as [|kv m IH]; [constructor|]. destruct Hm. constructor; auto.
  - clear Hs. induction Hm; cbn; auto.
Qed.
Lemma lit_valid s : forallb is_scalar (lit s) = true -> valid_str (lit s).
Proof. intros Hx. apply Forall_forall. by apply forallb_elem. Qed.
Lemma json_int_valid z : (- 2 ^ 63 <= z < 2 ^ 63)%Z -> json_valid (json_int z).
Proof.
  intros Hz. unfold json_int. cbn [json_valid]. destruct (Z.ltb_spec z 0); cbn [number_valid].
  - apply andb_true_iff. split; [apply Z.leb_le|apply Z.ltb_lt]; lia.
  - apply N.leb_le. unfold MAX_U64. lia.
Qed.
Lemma as_i64_int z : (- 2 ^ 63 <= z < 2 ^ 63)%Z -> as_i64 (json_int z) = Some z.
Proof.
  intros Hz. unfold json_int, as_i64, Number_as_i64. destruct (Z.ltb_spec z 0); [done|].
  rewrite (proj2 (N.ltb_lt _ _)) by lia. f_equal. lia.
Qed.
Lemma json_depth_object_fresh k v m :
  map_get k m = None -> json_depth (VObject (map_insert k v m)) = S (json_depth v `max` pred (json_depth (VObject m))).
Proof.
  cbn. intros Hk. f_equal. induction m as [|[x w] m IH]; cbn in *; [done|].
  destruct (str_eqb k x) eqn:E; [done|]. destruct (str_compare k x) eqn:C; cbn.
  - apply str_compare_eq in C as ->. by rewrite (proj2 (str_eqb_true x x)) in E.
  - done.
  - rewrite IH by done. lia.
Qed.

(** The keys an envelope sets are its own. *)
Definition unreserved (payload : list (str * Value)) : Prop :=
  Forall (fun k => map_get k payload = None) RESERVED_KEYS.
Lemma unreserved_find payload :
  unreserved payload <-> find (fun k => negb (is_none (map_get k payload))) RESERVED_KEYS = None.
Proof.
  unfold unreserved. induction RESERVED_KEYS as [|k l IH]; cbn; [split; [done|constructor]|].
  rewrite Forall_cons, IH. destruct (map_get k payload); cbn; naive_solver.
Qed.

Lemma fields_set_get payload id sender aud seq iat exp k :
  map_sorted payload ->
  map_get k (fields_set payload id sender aud seq iat exp) =
  if str_eqb k (lit "exp") then Some (VNumber exp)
  else if str_eqb k (lit "iat") then Some (VNumber iat)
  else if str_eqb k (lit "seq") then Some (VNumber (PosInt seq))
  else if str_eqb k (lit "aud") then Some (VString aud)
  else if str_eqb k (lit "iss") then Some (VString sender)
  else if str_eqb k (lit "id") then Some (VString id)
  else map_get k payload.
Proof.
  intros Hs. unfold fields_set. by rewrite !map_get_insert by (repeat apply map_insert_sorted; done).
Qed.

Lemma parse_fields_set payload id sender aud seq iat exp :
  map_sorted payload -> f64_finite (Number_as_f64 iat) = true -> f64_finite (Number_as_f64 exp) = true ->
  parse_fields (fields_set payload id sender aud seq iat exp) =
  Some (mkBodyFields (Some sender) (Some aud) seq (Number_as_f64 iat) (Number_as_f64 exp)).
Proof.
  intros Hs Hi He. unfold parse_fields, number_field. rewrite !fields_set_get by done.
  lits.
  cbn -[f64_finite Number_as_f64 lit]. by rewrite Hi, He.
Qed.

Lemma map_insert_Forall {V} (P : str * V -> Prop) k v m :
  P (k, v) -> Forall P m -> Forall P (map_insert k v m).
Proof.
  intros Hk Hm. induction Hm as [|[x w] m Hx Hm IH]; cbn; [by constructor|].
  destruct (str_compare k x); repeat constructor; auto.
Qed.

Lemma fields_set_valid payload id sender aud seq iat exp :
  json_valid (VObject payload) -> valid_str id -> valid_str sender -> valid_str aud -> (seq <= MAX_U64)%N ->
  number_valid iat = true -> number_valid exp = true ->
  json_valid (VObject (fields_set payload id sender aud seq iat exp)).
Proof.
  rewrite !json_valid_object. intros [Hs Hp] Hid Hse Hau Hseq Hi He. unfold fields_set. split.
  { by repeat apply map_insert_sorted. }
  repeat apply map_insert_Forall; try done; cbn [fst snd json_valid]; (split; [by apply lit_valid|done || by apply N.leb_le]).
Qed.

Lemma fields_set_depth payload id sender aud seq iat exp :
  map_sorted payload -> unreserved payload ->
  json_depth (VObject (fields_set payload id sender aud seq iat exp)) = json_depth (VObject payload).
Proof.
  intros Hs Hu. unfold unreserved, RESERVED_KEYS in Hu.
  repeat match goal with F : Forall _ (_ :: _) |- _ => inversion_clear F end.
  unfold fields_set. rewrite !json_depth_object_fresh by
  (rewrite ?map_get_insert by (repeat apply map_insert_sorted; done); lits; done).
  cbn. done.
Qed.

Lemma as_bytes_is_byte s : valid_str s -> Forall is_byte (as_bytes s).
Proof.
  unfold as_bytes, is_byte. induction 1 as [|c s Hc%is_scalar_bound _ IH]; [constructor|].
  cbn [map concat]. apply Forall_app. split; [|done]. clear IH s. unfold utf8_char.
  assert (Hm : forall x, (x mod 64 < 64)%N) by (intros; by apply N.mod_lt).
  destruct (N.ltb_spec c 128); [constructor; [lia|constructor]|].
  destruct (N.ltb_spec c 2048).
  { assert (c / 64 < 32)%N by (apply N.Div0.div_lt_upper_bound; lia). pose proof (Hm c).
  repeat constructor; lia. }
  destruct (N.ltb_spec c 65536).
  { assert (c / 4096 < 16)%N by (apply N.Div0.div_lt_upper_bound; lia).
  pose proof (Hm c). pose proof (Hm (c / 64)%N). repeat constructor; lia. }
  assert (c / 262144 < 8)%N by (apply N.Div0.div_lt_upper_bound; lia).
  pose proof (Hm c). pose proof (Hm (c / 64)%N). pose proof (Hm (c / 4096)%N). repeat constructor; lia.
Qed.

(** ** Sealed and opened *)

Lemma seal_ok s payload ttl now id p text s' :
  seal s payload ttl now id = (Ok (p, text), s') ->
  exists i, id = Some i /\ s' = with_seq s (es_seq s + 1) /\ (es_seq s + 1 <= MAX_U64)%N /\
  unreserved payload /\ f64_finite now = true /\ f64_finite (f64_add now ttl) = true /\
  p = as_bytes (value_display (VObject
        (fields_set payload i (es_sender s) (es_audience s) (es_seq s + 1) (Float now) (Float (f64_add now ttl))))) /\
  (N.of_nat (length p) <= MAX_FIELD_BYTES)%N /\
  text = value_display (json_obj
    [(lit "p", VString (b64url_encode p));
     (lit "s", VString (b64url_encode (sign (es_key s) (message (es_session s) p))))]).
Proof.
  unfold seal. destruct (N.ltb_spec MAX_U64 (es_seq s + 1)); [done|]. destruct id as [i|]; [|done].
  unfold seal_with. destruct (find _ RESERVED_KEYS) eqn:Ef; [done|]. apply unreserved_find in Ef.
  destruct (negb _); [done|]. unfold Number_from_f64.
  destruct (f64_finite now) eqn:En; cbn [ok_or mbind result_bind]; [|done].
  destruct (f64_finite (f64_add now ttl)) eqn:Ee; cbn [ok_or mbind result_bind]; [|done].
  destruct (N.ltb_spec MAX_FIELD_BYTES (N.of_nat (length (as_bytes (value_display (VObject
  (fields_set payload i (es_sender s) (es_audience s) (es_seq s + 1) (Float now) (Float (f64_add now ttl))))))))); [done|].
  intros [= <- <- <-]. eauto 15.
Qed.

Lemma b64_char_scalar s : Forall (fun c => b64_char c = true) s -> valid_str s.
Proof.
  intros Hs. eapply Forall_impl; [exact Hs|]. intros c Hc. cbv beta in Hc. unfold b64_char, is_ascii_alphanumeric, is_ascii_alphabetic,
  is_ascii_lowercase, is_ascii_uppercase, is_ascii_digit, in_range in Hc.
  unfold is_scalar. apply orb_true_iff; left. apply N.ltb_lt.
  repeat (apply orb_true_iff in Hc as [Hc|Hc]); try (apply andb_true_iff in Hc as [_ Hc%N.leb_le]);
  try apply N.eqb_eq in Hc; lia.
Qed.

(** The frame of two byte strings reads back as them. *)
Definition frame (p sig : bytes) : str :=
  value_display (json_obj [(lit "p", VString (b64url_encode p)); (lit "s", VString (b64url_encode sig))]).

Lemma read_frame_ok `{!JsonReadLaws, !Base64Laws} p sig :
  Forall is_byte p -> Forall is_byte sig ->
  (N.of_nat (length (as_bytes (frame p sig))) <= MAX_FIELD_BYTES * 2)%N ->
  read_frame (as_bytes (frame p sig)) = Ok (p, sig).
Proof.
  intros Hp Hs Hl. unfold read_frame. rewrite (proj2 (N.ltb_ge _ _)) by done.
  unfold frame. rewrite json_read_back.
  - set (o := json_obj _).
  assert (Hp' : value_get o (lit "p") = Some (VString (b64url_encode p))) by reflexivity.
  assert (Hs' : value_get o (lit "s") = Some (VString (b64url_encode sig))) by reflexivity.
  assert (Hd : Nat.leb (json_depth o) RECURSION_LIMIT = true) by reflexivity.
  rewrite Hd. cbn [ok_or mbind result_bind]. unfold outer_field. rewrite Hp', Hs'.
  cbn [mbind option_bind as_str]. by rewrite !b64_roundtrip.
  - apply json_valid_object. split; [apply map_of_list_sorted|]. unfold map_of_list.
  cbn [fold_left fst snd].
  repeat (apply map_insert_Forall); try constructor; cbn [fst snd json_valid];
    by (apply b64_char_scalar, b64_alphabet) || (repeat constructor).
Qed.

Lemma seal_frame s payload ttl now id p text s' : seal s payload ttl now id = (Ok (p, text), s') ->
  text = frame p (sign (es_key s) (message (es_session s) p)).
Proof. intros (i & _ & _ & _ & _ & _ & _ & _ & _ & ->)%seal_ok. reflexivity. Qed.
Lemma seal_bytes `{!JsonReadLaws} s payload ttl now id p text s' :
  seal s payload ttl now (Some id) = (Ok (p, text), s') ->
  p = as_bytes (value_display (VObject
      (fields_set payload id (es_sender s) (es_audience s) (es_seq s + 1) (Float now) (Float (f64_add now ttl))))).
Proof. intros (i & [= <-] & _ & _ & _ & _ & _ & -> & _)%seal_ok. reflexivity. Qed.

(** What the clock says of an envelope. *)
Definition untimely (now iat exp : f64) : option EnvelopeError :=
  if f64_ltb (f64_add now MAX_CLOCK_SKEW_SECS) iat then Some FromTheFuture
  else if f64_ltb exp now then Some Expired
  else if f64_ltb MAX_ENVELOPE_TTL_SECS (f64_sub exp iat) then Some LifetimeTooLong
  else None.
End envelope.

Section ends.
Context `{Ed25519}.

(** The two ends of one direction. *)
Record paired_ends (s : EnvelopeSealer) (v : EnvelopeVerifier) : Prop := {
  ends_key : ev_peer v = public_key (es_key s);
  ends_sender : ev_sender v = es_sender s;
  ends_audience : ev_audience v = es_audience s;
  ends_session : ev_session v = es_session s;
  ends_sender_valid : valid_str (es_sender s);
  ends_audience_valid : valid_str (es_audience s);
}.
Lemma paired_ends_seq s v n : paired_ends s v -> paired_ends (with_seq s n) v.
Proof. intros []. constructor; assumption. Qed.
End ends.
