(* ===== verification/Hello.v ===== *)
(** The hello that authenticates each channel connection
    ([crates/crypto/src/daemon/hello.rs]): both sides sign a transcript of
    both nonces, and only a verified hello makes the connection's sealer and
    verifier. SHA-256 is [ring]'s. *)

From S2P Require Import Prelude Json Pool HostTypes TotpCode F64 Transcript Envelope.
From stdpp Require Import options.

Class Sha256 := { sha256 : bytes -> bytes }.
Class Sha256Laws `{!Sha256} : Prop := { sha256_length m : length (sha256 m) = 32 }.

Inductive Speaker := SDaemon | SBroker.
#[export] Instance Speaker_eq_dec : EqDecision Speaker.
Proof. solve_decision. Defined.
Definition Speaker_as_str (s : Speaker) : str :=
  match s with SDaemon => lit "daemon" | SBroker => BROKER end.
Definition other (s : Speaker) : Speaker :=
  match s with SDaemon => SBroker | SBroker => SDaemon end.

Inductive HelloError := BadHelloSignature | ParamsTooLong.

(** One connection's identity and nonces, before the peer is verified. *)
Record Handshake := mkHandshake { hs_id : ChannelId; hs_broker_nonce : str; hs_daemon_nonce : str }.
#[export] Instance Handshake_eq_dec : EqDecision Handshake.
Proof. solve_decision. Defined.

(** A handshake whose peer proved possession of its key. *)
Record VerifiedHello := mkVerified {
  vh_handshake : Handshake; vh_peer : PublicKey; vh_speaker : Speaker }.

Section hello.
Context `{Sha256, Base64, Ed25519}.

(** [Nonce::generate] from its 32 random bytes. *)
Definition Nonce_generate (random : bytes) : str := b64url_encode random.
Definition Nonce_parse (text : str) : option str :=
  raw ← b64url_decode text;
  if Nat.eqb (length raw) 32 && negb (bool_decide (last text = Some (ch "="))) then Some text else None.

Definition hello_transcript (h : Handshake) (speaker : Speaker) (params : str) : bytes :=
  transcript [CTX_HELLO; as_bytes (Speaker_as_str speaker); as_bytes (ChannelRole_as_str (ci_role (hs_id h)));
  as_bytes (ci_name (hs_id h)); as_bytes (hs_broker_nonce h); as_bytes (hs_daemon_nonce h);
  as_bytes params].

Definition session_transcript (h : Handshake) : bytes :=
  transcript [CTX_SESSION; as_bytes (ChannelRole_as_str (ci_role (hs_id h))); as_bytes (ci_name (hs_id h));
  as_bytes (hs_broker_nonce h); as_bytes (hs_daemon_nonce h)].
Definition session_id (h : Handshake) : bytes := sha256 (session_transcript h).

Definition too_long (params : str) : bool := N.ltb MAX_FIELD_BYTES (N.of_nat (str_len params)).

Definition hello_sign (h : Handshake) (key : SigningKey) (speaker : Speaker) (params : str)
  : result HelloError str :=
  if too_long params then Err ParamsTooLong
  else Ok (b64url_encode (sign key (hello_transcript h speaker params))).

Definition hello_verify (h : Handshake) (peer : PublicKey) (speaker : Speaker) (params signature : str)
  : result HelloError VerifiedHello :=
  if too_long params then Err ParamsTooLong
  else
  sig ← ok_or (b64url_decode signature) BadHelloSignature;
  if negb (key_verify peer (hello_transcript h speaker params) sig) then Err BadHelloSignature
  else Ok (mkVerified h peer speaker).

Definition sign_reply (v : VerifiedHello) (own : SigningKey) (params : str) : result HelloError str :=
  hello_sign (vh_handshake v) own (other (vh_speaker v)) params.

(** Ours and theirs: the principals of the two directions. *)
Definition ends_of (v : VerifiedHello) : str * str :=
  let daemon := principal (hs_id (vh_handshake v)) in
  match vh_speaker v with
  | SDaemon => (BROKER, daemon)
  | SBroker => (daemon, BROKER)
  end.

Definition into_channel (v : VerifiedHello) (own : SigningKey) : EnvelopeSealer * EnvelopeVerifier :=
  let session := session_id (vh_handshake v) in
  let '(ours, theirs) := ends_of v in
  (EnvelopeSealer_new own ours theirs session, EnvelopeVerifier_new (vh_peer v) theirs ours session).

(** ** Nonces and identities fit their transcripts *)

Definition valid_handshake (h : Handshake) : Prop :=
  valid_id (hs_id h) /\ Nonce_parse (hs_broker_nonce h) = Some (hs_broker_nonce h) /\
  Nonce_parse (hs_daemon_nonce h) = Some (hs_daemon_nonce h).

Lemma Nonce_parse_generate `{!Base64Laws} random :
  Forall is_byte random -> length random = 32 -> Nonce_parse (Nonce_generate random) = Some (Nonce_generate random).
Proof.
  intros Hb Hl. unfold Nonce_parse, Nonce_generate. rewrite b64_roundtrip by done.
  cbn [mbind option_bind]. rewrite Hl. cbn [Nat.eqb andb].
  rewrite bool_decide_false; [done|]. intros Hlast.
  apply last_Some in Hlast as [t Ht]. pose proof (b64_alphabet random Hb) as Ha. rewrite Ht in Ha.
  apply Forall_app in Ha as [_ Ha]. by inversion Ha.
Qed.

Lemma fits_short (b : bytes) : length b <= 100 -> part_fits b.
Proof. intros Hb. unfold part_fits. change MAX_U32 with 4294967295%N. lia. Qed.

Lemma Nonce_parse_some `{!Base64Laws} text n : Nonce_parse text = Some n ->
  n = text /\ Forall (fun c => is_ascii c = true) text /\ part_fits (as_bytes text).
Proof.
  unfold Nonce_parse. destruct (b64url_decode text) as [raw|] eqn:E; cbn [mbind option_bind]; [|done].
  destruct (Nat.eqb_spec (length raw) 32) as [Hl|]; [|done]. case_match; [|done]. intros [= ->].
  assert (Ha : Forall (fun c => is_ascii c = true) n).
  { eapply Forall_impl; [exact (b64_text _ _ E)|]. cbn. intros c [Hc| ->]; [|done].
  apply N.ltb_lt. unfold b64_char, is_ascii_alphanumeric, is_ascii_alphabetic, is_ascii_lowercase,
    is_ascii_uppercase, is_ascii_digit, in_range in Hc.
  repeat (apply orb_true_iff in Hc as [Hc|Hc]); try (apply andb_true_iff in Hc as [_ Hc%N.leb_le]);
    try apply N.eqb_eq in Hc; lia. }
  split_and!; [done..|]. apply fits_short. rewrite as_bytes_ascii by done.
  apply b64_length in E. rewrite Hl in E. lia.
Qed.

Lemma valid_id_fits id : valid_id id -> part_fits (as_bytes (ci_name id)).
Proof.
  intros Hv. pose proof (ChannelName_ascii _ Hv). apply ChannelName_some in Hv as (_ & Hl & _).
  apply fits_short. rewrite as_bytes_length. lia.
Qed.

Lemma ascii_valid s : Forall (fun c => is_ascii c = true) s -> valid_str s.
Proof.
  intros Hs. eapply Forall_impl; [exact Hs|]. intros c Hc%N.ltb_lt. unfold is_scalar.
  apply orb_true_iff; left. apply N.ltb_lt. lia.
Qed.

Lemma role_fits r : part_fits (as_bytes (ChannelRole_as_str r)).
Proof. destruct r; by vm_compute. Qed.

Lemma hello_fits `{!Base64Laws} h sp params : valid_handshake h -> too_long params = false ->
  Forall part_fits [CTX_HELLO; as_bytes (Speaker_as_str sp); as_bytes (ChannelRole_as_str (ci_role (hs_id h)));
  as_bytes (ci_name (hs_id h)); as_bytes (hs_broker_nonce h); as_bytes (hs_daemon_nonce h); as_bytes params].
Proof.
  intros (Hid & (_ & _ & Hb)%Nonce_parse_some & (_ & _ & Hd)%Nonce_parse_some) Hp%N.ltb_ge.
  repeat apply Forall_cons_2; try apply Forall_nil_2; try done; try (by apply valid_id_fits).
  - destruct sp; by vm_compute.
  - apply role_fits.
  - unfold part_fits. rewrite as_bytes_length. etransitivity; [exact Hp|]. by vm_compute.
Qed.

(** A hello's signature covers the speaker, the identity, both nonces and
    the parameters; none was made for another handshake or the other side. *)
Lemma hello_transcript_inj `{!Base64Laws} h sp params h' sp' params' :
  valid_handshake h -> valid_handshake h' -> too_long params = false -> too_long params' = false ->
  valid_str params -> valid_str params' ->
  hello_transcript h sp params = hello_transcript h' sp' params' -> h = h' /\ sp = sp' /\ params = params'.
Proof.
  intros Hh Hh' Ht Ht' Hv Hv' E. apply transcript_inj in E; [|by apply hello_fits..].
  destruct Hh as (Hid & (_ & Hb & _)%Nonce_parse_some & (_ & Hd & _)%Nonce_parse_some).
  destruct Hh' as (Hid' & (_ & Hb' & _)%Nonce_parse_some & (_ & Hd' & _)%Nonce_parse_some).
  apply ChannelName_ascii in Hid, Hid'. injection E as Esp Er En Ebn Edn Ep.
  rewrite !as_bytes_ascii in En, Ebn, Edn by done. apply as_bytes_inj in Ep; [|done..].
  split_and!; [|by destruct sp, sp'|done].
  destruct h as [[r n] b d], h' as [[r' n'] b' d']; cbn in *. subst. by destruct r, r'.
Qed.

(** Session ids of different handshakes are digests of different bytes. *)
Lemma session_transcript_inj `{!Base64Laws} h h' :
  valid_handshake h -> valid_handshake h' -> session_transcript h = session_transcript h' -> h = h'.
Proof.
  intros (Hid & (_ & Hb & Fb)%Nonce_parse_some & (_ & Hd & Fd)%Nonce_parse_some)
  (Hid' & (_ & Hb' & Fb')%Nonce_parse_some & (_ & Hd' & Fd')%Nonce_parse_some) E.
  pose proof (valid_id_fits _ Hid). pose proof (valid_id_fits _ Hid').
  apply transcript_inj in E; cycle 1;
  [repeat apply Forall_cons_2; try apply Forall_nil_2; try done; apply role_fits..|].
  apply ChannelName_ascii in Hid, Hid'. injection E as Er En Ebn Edn.
  rewrite !as_bytes_ascii in En, Ebn, Edn by done.
  destruct h as [[r n] b d], h' as [[r' n'] b' d']; cbn in *. subst. by destruct r, r'.
Qed.

(** Both sides of one handshake hold the two ends of each direction. *)
Lemma into_channel_paired h bk dk sb vb sd vd :
  valid_id (hs_id h) ->
  into_channel (mkVerified h (public_key dk) SDaemon) bk = (sb, vb) ->
  into_channel (mkVerified h (public_key bk) SBroker) dk = (sd, vd) ->
  paired_ends sb vd /\ paired_ends sd vb.
Proof.
  intros Hid. unfold into_channel. cbn. intros [= <- <-] [= <- <-].
  assert (Hp : valid_str (principal (hs_id h))).
  { apply ascii_valid. unfold principal. apply Forall_app; split; [by destruct (ci_role _); repeat constructor|].
  apply Forall_app; split; [by repeat constructor|]. by apply ChannelName_ascii. }
  assert (Hb : valid_str BROKER) by by repeat constructor.
  by split; constructor.
Qed.
End hello.
