(* ===== verification/P256.v ===== *)
(** The broker's P-256 token key and its signatures' canonical form
    ([crates/crypto/src/jwt.rs]): the scalar derived from 48 bytes of key
    material, reduced in constant time on 64-bit limbs, and the low half of
    [s] chosen the same way). *)

From S2P Require Import Prelude TotpCode Transcript.
From stdpp Require Import options.
#[local] Open Scope N_scope.

(** ** 64-bit limbs *)

Definition U64 : N := 2 ^ 64.
Definition b2n (b : bool) : N := if b then 1 else 0.
Definition wrapping_sub (x y : N) : N := (x + U64 - y) mod U64.
Definition overflowing_sub (x y : N) : N * bool := (wrapping_sub x y, N.ltb x y).
Definition overflowing_add (x y : N) : N * bool := ((x + y) mod U64, N.leb U64 (x + y)).
Definition shl64 (x k : N) : N := N.shiftl x k mod U64.
Definition not64 (x : N) : N := N.lnot x 64.

(** [[u64; 4]], the low limb first). *)
Record U256 := mk256 { u0 : N; u1 : N; u2 : N; u3 : N }.

Definition N_MINUS_1 : U256 :=
  mk256 0xF3B9CAC2FC632550 0xBCE6FAADA7179E84 0xFFFFFFFFFFFFFFFF 0xFFFFFFFF00000000.
Definition N_ORDER : U256 :=
  mk256 0xF3B9CAC2FC632551 0xBCE6FAADA7179E84 0xFFFFFFFFFFFFFFFF 0xFFFFFFFF00000000.
Definition N_HALF : U256 :=
  mk256 0x79DCE5617E3192A8 0xDE737D56D38BCF42 0x7FFFFFFFFFFFFFFF 0x7FFFFFFF80000000.

(** One turn of [sub_256]'s loop). *)
Definition sub_limb (x y borrow : N) : N * N :=
  let '(d1, b1) := overflowing_sub x y in
  let '(d2, b2) := overflowing_sub d1 borrow in
  (d2, b2n (b1 || b2)).
Definition sub_256 (a b : U256) : U256 * N :=
  let '(o0, c) := sub_limb (u0 a) (u0 b) 0 in
  let '(o1, c) := sub_limb (u1 a) (u1 b) c in
  let '(o2, c) := sub_limb (u2 a) (u2 b) c in
  let '(o3, c) := sub_limb (u3 a) (u3 b) c in
  (mk256 o0 o1 o2 o3, c).

(** ** The scalar *)

(** The bits of a byte, the high one first). *)
Definition byte_bits (byte : N) : list N :=
  map (fun bit => N.land (N.shiftr byte bit) 1) [7; 6; 5; 4; 3; 2; 1; 0]%N.
Definition shift_in (r : U256) (b : N) : U256 :=
  mk256 (N.lor (shl64 (u0 r) 1) b)
        (N.lor (shl64 (u1 r) 1) (N.shiftr (u0 r) 63))
        (N.lor (shl64 (u2 r) 1) (N.shiftr (u1 r) 63))
        (N.lor (shl64 (u3 r) 1) (N.shiftr (u2 r) 63)).
Definition select_limb (mask t r : N) : N := N.lor (N.land t mask) (N.land r (not64 mask)).
Definition select (mask : N) (t r : U256) : U256 :=
  mk256 (select_limb mask (u0 t) (u0 r)) (select_limb mask (u1 t) (u1 r))
        (select_limb mask (u2 t) (u2 r)) (select_limb mask (u3 t) (u3 r)).
Definition reduce_bit (r : U256) (b : N) : U256 :=
  let carry := N.shiftr (u3 r) 63 in
  let r := shift_in r b in
  let '(t, borrow) := sub_256 r N_MINUS_1 in
  let mask := wrapping_sub 0 (N.lor carry (N.lxor borrow 1)) in
  select mask t r.
Definition add_limb (x carry : N) : N * N :=
  let '(sum, c) := overflowing_add x carry in (sum, b2n c).
Definition add_one (r : U256) : U256 :=
  let '(o0, c) := add_limb (u0 r) 1 in
  let '(o1, c) := add_limb (u1 r) c in
  let '(o2, c) := add_limb (u2 r) c in
  let '(o3, _) := add_limb (u3 r) c in
  mk256 o0 o1 o2 o3.
Definition be_from_limbs (r : U256) : bytes :=
  be_bytes 8 (u3 r) ++ be_bytes 8 (u2 r) ++ be_bytes 8 (u1 r) ++ be_bytes 8 (u0 r).
Definition limbs_from_be (b : bytes) : U256 :=
  mk256 (be_value (drop 24 b)) (be_value (take 8 (drop 16 b)))
        (be_value (take 8 (drop 8 b))) (be_value (take 8 b)).
Definition p256_scalar_from_okm (okm : bytes) : bytes :=
  be_from_limbs (add_one (fold_left reduce_bit (flat_map byte_bits okm) (mk256 0 0 0 0))).

(** ** Low [s] *)

(** [sig.get(32..64)]). *)
Definition s_half (sig : bytes) : option bytes :=
  if Nat.leb 64 (length sig) then Some (take 32 (drop 32 sig)) else None.
Definition is_high_s (sig : bytes) : bool :=
  match s_half sig with
  | None => false
  | Some s => N.eqb (snd (sub_256 N_HALF (limbs_from_be s))) 1
  end.
Definition to_low_s (sig : bytes) : bytes :=
  if negb (is_high_s sig) then sig
  else match s_half sig with
       | None => sig
       | Some s => take 32 sig ++ be_from_limbs (fst (sub_256 N_ORDER (limbs_from_be s))) ++ drop 64 sig
       end.

(** ** The numbers they stand for *)

Definition val (r : U256) : N := u0 r + U64 * (u1 r + U64 * (u2 r + U64 * u3 r)).
Definition limbs_ok (r : U256) : Prop := (u0 r < U64 /\ u1 r < U64 /\ u2 r < U64 /\ u3 r < U64).
Definition ORDER : N := 0xFFFFFFFF00000000FFFFFFFFFFFFFFFFBCE6FAADA7179E84F3B9CAC2FC632551.
Definition TWO256 : N := 2 ^ 256.

Lemma sub_limb_ok x y c d c' : (x < U64 -> y < U64 -> c <= 1 -> sub_limb x y c = (d, c') ->
  d < U64 /\ c' <= 1 /\ x + c' * U64 = d + y + c).
Proof.
  unfold sub_limb, overflowing_sub, wrapping_sub. intros Hx Hy Hc [= <- <-].
  assert (HU : U64 <> 0%N) by done. pose proof (N.mod_lt (x + U64 - y) U64 HU).
  assert (E1 : (x + (if N.ltb x y then U64 else 0) = (x + U64 - y) mod U64 + y)%N).
  { destruct (N.ltb_spec x y).
    - rewrite N.mod_small by lia. lia.
    - replace (x + U64 - y)%N with (x - y + 1 * U64)%N by lia. rewrite N.Div0.mod_add, N.mod_small by lia. lia. }
  set (d1 := ((x + U64 - y) mod U64)%N) in *.
  pose proof (N.mod_lt (d1 + U64 - c) U64 HU).
  assert (E2 : (d1 + (if N.ltb d1 c then U64 else 0) = (d1 + U64 - c) mod U64 + c)%N).
  { destruct (N.ltb_spec d1 c).
    - rewrite N.mod_small by lia. lia.
    - replace (d1 + U64 - c)%N with (d1 - c + 1 * U64)%N by lia. rewrite N.Div0.mod_add, N.mod_small by lia. lia. }
  clearbody d1. set (d2 := ((d1 + U64 - c) mod U64)%N) in *. clearbody d2.
  destruct (N.ltb_spec x y), (N.ltb_spec d1 c); cbn [orb b2n]; split_and!; lia.
Qed.

Lemma sub_256_ok a b o c : limbs_ok a -> limbs_ok b -> sub_256 a b = (o, c) ->
  limbs_ok o /\ (c <= 1 /\ val a + c * TWO256 = val o + val b).
Proof.
  intros (A0 & A1 & A2 & A3) (B0 & B1 & B2 & B3). unfold sub_256.
  destruct (sub_limb (u0 a) (u0 b) 0) as [o0 c0] eqn:E0.
  destruct (sub_limb (u1 a) (u1 b) c0) as [o1 c1] eqn:E1.
  destruct (sub_limb (u2 a) (u2 b) c1) as [o2 c2] eqn:E2.
  destruct (sub_limb (u3 a) (u3 b) c2) as [o3 c3] eqn:E3. intros [= <- <-].
  apply sub_limb_ok in E0 as (? & ? & E0); [|lia..]. apply sub_limb_ok in E1 as (? & ? & E1); [|lia..].
  apply sub_limb_ok in E2 as (? & ? & E2); [|lia..]. apply sub_limb_ok in E3 as (? & ? & E3); [|lia..].
  split; [done|]. split; [done|]. unfold val. cbn [u0 u1 u2 u3].
  change TWO256 with (U64 * (U64 * (U64 * U64))). nia.
Qed.

Lemma lor_disjoint x b : (b < 2)%N -> N.lor (2 * x) b = (2 * x + b).
Proof.
  intros Hb. apply N.bits_inj. intros i. rewrite N.lor_spec.
  assert (b = 0 \/ b = 1)%N as [-> | ->] by lia.
  - by rewrite N.bits_0, orb_false_r, N.add_0_r.
  - destruct (N.zero_or_succ i) as [->|[j ->]].
    + rewrite N.testbit_even_0, N.testbit_odd_0. done.
    + rewrite N.testbit_even_succ, N.testbit_odd_succ by lia. change 1%N with (2 * 0 + 1).
      rewrite (N.testbit_odd_succ 0) by lia. by rewrite N.bits_0, orb_false_r.
Qed.
Lemma shl_bit x b : (x < U64 -> b < 2 ->
  N.lor (shl64 x 1) b < U64 /\ N.lor (shl64 x 1) b + U64 * N.shiftr x 63 = 2 * x + b /\ N.shiftr x 63 < 2).
Proof.
  intros Hx Hb. unfold shl64. rewrite N.shiftl_mul_pow2, N.shiftr_div_pow2. change (2 ^ 1)%N with 2%N.
  change U64 with (2 * 2 ^ 63)%N in *.
  assert (Hm : ((x * 2) mod (2 * 2 ^ 63) = 2 * (x mod 2 ^ 63))%N)
    by (rewrite (N.mul_comm x); apply N.Div0.mul_mod_distr_l).
  rewrite Hm, lor_disjoint by done.
  pose proof (N.div_mod' x (2 ^ 63)). pose proof (N.mod_lt x (2 ^ 63) ltac:(done)).
  assert (x / 2 ^ 63 < 2)%N by (apply N.Div0.div_lt_upper_bound; lia).
  set (q := (x / 2 ^ 63)%N) in *. set (m := (x mod 2 ^ 63)%N) in *. clearbody q m. split_and!; lia.
Qed.
Lemma shift_in_ok r b : limbs_ok r -> (b < 2)%N ->
  limbs_ok (shift_in r b) /\ (val (shift_in r b) + TWO256 * N.shiftr (u3 r) 63 = 2 * val r + b).
Proof.
  intros (R0 & R1 & R2 & R3) Hb.
  destruct (shl_bit (u0 r) b R0 Hb) as (? & E0 & ?).
  destruct (shl_bit (u1 r) (N.shiftr (u0 r) 63) R1) as (? & E1 & ?); [done|].
  destruct (shl_bit (u2 r) (N.shiftr (u1 r) 63) R2) as (? & E2 & ?); [done|].
  destruct (shl_bit (u3 r) (N.shiftr (u2 r) 63) R3) as (? & E3 & ?); [done|].
  split; [done|]. unfold val, shift_in. cbn [u0 u1 u2 u3].
  change TWO256 with (U64 * (U64 * (U64 * U64))). nia.
Qed.

(** ** The reduction *)

Lemma N_MINUS_1_ok : limbs_ok N_MINUS_1 /\ val N_MINUS_1 = ORDER - 1.
Proof. by vm_compute. Qed.
Lemma N_ORDER_ok : limbs_ok N_ORDER /\ val N_ORDER = ORDER.
Proof. by vm_compute. Qed.
Lemma N_HALF_ok : limbs_ok N_HALF /\ val N_HALF = ORDER / 2.
Proof. by vm_compute. Qed.
Lemma val_bound r : limbs_ok r -> val r < TWO256.
Proof.
  intros (H0 & H1 & H2 & H3). unfold val. change TWO256 with (U64 * (U64 * (U64 * U64))).
  assert (Hs : forall x p bound, x < U64 -> p < bound -> x + U64 * p < U64 * bound) by nia.
  by apply Hs, Hs, Hs.
Qed.
Lemma val_inj a b : limbs_ok a -> limbs_ok b -> val a = val b -> a = b.
Proof.
  destruct a as [a0 a1 a2 a3], b as [b0 b1 b2 b3]. intros (A0 & A1 & A2 & A3) (B0 & B1 & B2 & B3). unfold val.
  cbn [u0 u1 u2 u3] in *. intros E.
  assert (forall x y p q, x < U64 -> y < U64 -> x + U64 * p = y + U64 * q -> x = y /\ p = q) as Hs.
  { intros x y p q Hx Hy Hp. split.
    - apply (f_equal (fun n => n mod U64)) in Hp. revert Hp. rewrite !(N.mul_comm U64), !N.Div0.mod_add, !N.mod_small by done. done.
    - apply (f_equal (fun n => n / U64)) in Hp. revert Hp. rewrite !(N.mul_comm U64), !N.div_add, !N.div_small by done. done. }
  apply Hs in E as [-> E]; [|done..]. apply Hs in E as [-> E]; [|done..]. apply Hs in E as [-> ->]; done.
Qed.

Lemma land_full x : x < U64 -> N.land x (U64 - 1) = x.
Proof. intros Hx. rewrite (land_low x _ 64) by done. by apply N.mod_small. Qed.
Lemma select_limb_0 t r : r < U64 -> select_limb 0 t r = r.
Proof.
  intros Hr. unfold select_limb. rewrite N.land_0_r, N.lor_0_l. change (not64 0) with (U64 - 1). by apply land_full.
Qed.
Lemma select_limb_1 t r : t < U64 -> select_limb (U64 - 1) t r = t.
Proof.
  intros Ht. unfold select_limb. change (not64 (U64 - 1)) with 0. by rewrite N.land_0_r, N.lor_0_r, land_full.
Qed.
Lemma select_ok (c : bool) t r : limbs_ok t -> limbs_ok r ->
  select (wrapping_sub 0 (b2n c)) t r = if c then t else r.
Proof.
  destruct t as [t0 t1 t2 t3], r as [r0 r1 r2 r3]. intros (T0 & T1 & T2 & T3) (R0 & R1 & R2 & R3).
  cbn [u0 u1 u2 u3] in *. destruct c; unfold select; cbn [u0 u1 u2 u3].
  - change (wrapping_sub 0 (b2n true)) with (U64 - 1). by rewrite !select_limb_1.
  - change (wrapping_sub 0 (b2n false)) with 0. by rewrite !select_limb_0.
Qed.

(** One bit more, modulo the order less one. *)
Lemma reduce_bit_ok r b : limbs_ok r -> val r < ORDER - 1 -> b < 2 ->
  limbs_ok (reduce_bit r b) /\ val (reduce_bit r b) = (2 * val r + b) mod (ORDER - 1).
Proof.
  intros Hr Hv Hb. destruct (shift_in_ok r b Hr Hb) as [Hs Es]. unfold reduce_bit.
  destruct (sub_256 (shift_in r b) N_MINUS_1) as [t borrow] eqn:Et.
  destruct N_MINUS_1_ok as [Hn En]. apply sub_256_ok in Et as (Ht & Hc & Et); [|done..]. rewrite En in Et.
  assert (Hk : N.shiftr (u3 r) 63 = 0 \/ N.shiftr (u3 r) 63 = 1).
  { destruct Hr as (_ & _ & _ & H3). destruct (shl_bit (u3 r) 0 H3) as (_ & _ & ?); lia. }
  assert (Hborrow : borrow = 0 \/ borrow = 1) by lia.
  pose proof (val_bound _ Hs). pose proof (val_bound _ Ht).
  assert (Em : N.lor (N.shiftr (u3 r) 63) (N.lxor borrow 1)
               = b2n (N.eqb (N.shiftr (u3 r) 63) 1 || N.eqb borrow 0)).
  { destruct Hk as [-> | ->], Hborrow as [-> | ->]; done. }
  rewrite Em, select_ok by done. set (k := N.shiftr (u3 r) 63) in *. clearbody k.
  assert (ORDER - 1 < TWO256) by done. assert (TWO256 < 2 * (ORDER - 1)) by done.
  set (m := ORDER - 1) in *. set (w := TWO256) in *. clearbody m w.
  destruct Hk as [-> | ->], Hborrow as [-> | ->]; cbn [N.eqb Pos.eqb orb].
  - split; [done|]. apply (N.mod_unique _ _ 1); lia.
  - split; [done|]. apply (N.mod_unique _ _ 0); lia.
  - lia.
  - split; [done|]. apply (N.mod_unique _ _ 1); lia.
Qed.

Definition bits_value (v : N) (bits : list N) : N := fold_left (fun v b => 2 * v + b) bits v.
Lemma reduce_bits_ok bits r : Forall (fun b => b < 2) bits -> limbs_ok r -> val r < ORDER - 1 ->
  limbs_ok (fold_left reduce_bit bits r) /\
  val (fold_left reduce_bit bits r) = bits_value (val r) bits mod (ORDER - 1).
Proof.
  intros Hb. revert r. induction Hb as [|b bits Hb _ IH]; intros r Hr Hv; cbn [fold_left bits_value].
  - split; [done|]. by rewrite N.mod_small.
  - destruct (reduce_bit_ok r b Hr Hv Hb) as [Hok E]. destruct (IH (reduce_bit r b)) as [Hl El]; [done| |].
    { rewrite E. by apply N.mod_lt. }
    split; [done|]. rewrite El, E. unfold bits_value. cbn [fold_left]. clear.
    generalize (2 * val r + b) as v. induction bits as [|b' bits IH] using rev_ind; intros v; cbn [fold_left].
    { by rewrite N.Div0.mod_mod. }
    rewrite !fold_left_app. cbn [fold_left]. rewrite <- (N.Div0.add_mod_idemp_l (2 * _)), <- N.Div0.mul_mod_idemp_r, IH.
    by rewrite N.Div0.mul_mod_idemp_r, N.Div0.add_mod_idemp_l.
Qed.

Lemma byte_bits_ok x : is_byte x ->
  Forall (fun b => b < 2) (byte_bits x) /\ forall v, bits_value v (byte_bits x) = v * 256 + x.
Proof.
  intros Hx. assert (H : forallb (fun x => N.eqb (bits_value 0 (byte_bits x)) x && forallb (fun b => N.ltb b 2) (byte_bits x))
                          (map N.of_nat (seq 0 256)) = true) by by vm_compute.
  rewrite forallb_forall in H. specialize (H x). rewrite andb_true_iff, N.eqb_eq, forallb_forall in H.
  destruct H as [E Hb].
  { apply in_map_iff. exists (N.to_nat x). rewrite N2Nat.id. unfold is_byte in Hx.
    split; [done|]. apply in_seq. lia. }
  split.
  - apply Forall_forall. intros b Hin%list_elem_of_In%Hb. by apply N.ltb_lt.
  - intros v. unfold bits_value in *. cbn [byte_bits map fold_left] in *. lia.
Qed.
Lemma okm_bits okm v : Forall is_byte okm ->
  Forall (fun b => b < 2) (flat_map byte_bits okm) /\
  bits_value v (flat_map byte_bits okm) = fold_left (fun acc x => acc * 256 + x) okm v.
Proof.
  intros Hb. revert v. induction Hb as [|x okm Hx _ IH]; intros v; cbn [flat_map fold_left]; [done|].
  destruct (byte_bits_ok x Hx) as [H1 H2]. split.
  - apply Forall_app. split; [done|apply (IH 0)].
  - unfold bits_value in *. rewrite fold_left_app, H2. apply (IH _).
Qed.

Lemma add_limb_ok x c : x < U64 -> c <= 1 -> let '(o, c') := add_limb x c in o < U64 /\ c' <= 1 /\ o + c' * U64 = x + c.
Proof.
  intros Hx Hc. cbn. unfold b2n. pose proof (N.mod_lt (x + c) U64 ltac:(done)). destruct (N.leb_spec U64 (x + c)).
  - split_and!; [done|lia|]. replace (x + c) with (x + c - U64 + 1 * U64) at 1 by lia.
    rewrite N.Div0.mod_add, N.mod_small by lia. lia.
  - rewrite N.mod_small by lia. split_and!; lia.
Qed.
Lemma add_one_ok r : limbs_ok r -> val r + 1 < TWO256 -> limbs_ok (add_one r) /\ val (add_one r) = val r + 1.
Proof.
  intros (R0 & R1 & R2 & R3) Hv. unfold add_one.
  pose proof (add_limb_ok (u0 r) 1 R0 ltac:(done)) as A0. destruct (add_limb (u0 r) 1) as [o0 c0]. destruct A0 as (? & ? & E0).
  pose proof (add_limb_ok (u1 r) c0 R1 ltac:(lia)) as A1. destruct (add_limb (u1 r) c0) as [o1 c1]. destruct A1 as (? & ? & E1).
  pose proof (add_limb_ok (u2 r) c1 R2 ltac:(lia)) as A2. destruct (add_limb (u2 r) c1) as [o2 c2]. destruct A2 as (? & ? & E2).
  pose proof (add_limb_ok (u3 r) c2 R3 ltac:(lia)) as A3. destruct (add_limb (u3 r) c2) as [o3 c3]. destruct A3 as (? & ? & E3).
  split; [done|]. assert (E : val (mk256 o0 o1 o2 o3) + c3 * TWO256 = val r + 1).
  { unfold val. cbn [u0 u1 u2 u3]. change TWO256 with (U64 * (U64 * (U64 * U64))). clear Hv. nia. }
  assert (c3 = 0 \/ c3 = 1) as [-> | ->] by lia; lia.
Qed.

(** ** Bytes *)

Lemma be_bytes_snoc k n : be_bytes (S k) n = be_bytes k (n / 256) ++ [n mod 256].
Proof.
  unfold be_bytes. rewrite seq_S, map_app. f_equal.
  - apply map_ext_in. intros i Hi%in_seq. f_equal. rewrite N.Div0.div_div, <- N.pow_succ_r'. f_equal. f_equal. lia.
  - cbn. replace (k - 0 - k)%nat with 0%nat by lia. by rewrite N.div_1_r.
Qed.
Lemma be_bytes_app j k n : be_bytes (j + k) n = be_bytes j (n / 256 ^ N.of_nat k) ++ be_bytes k n.
Proof.
  revert n. induction k as [|k IH]; intros n.
  - rewrite Nat.add_0_r, N.div_1_r. by rewrite app_nil_r.
  - rewrite Nat.add_succ_r, !be_bytes_snoc, IH, app_assoc. f_equal. f_equal.
    rewrite N.Div0.div_div, Nat2N.inj_succ, N.pow_succ_r'. done.
Qed.
Lemma be_bytes_mod k n : be_bytes k (n mod 256 ^ N.of_nat k) = be_bytes k n.
Proof.
  revert n. induction k as [|k IH]; intros n; [done|]. rewrite !be_bytes_snoc, Nat2N.inj_succ, N.pow_succ_r'.
  assert (H : 256 ^ N.of_nat k <> 0) by (apply N.pow_nonzero; done). f_equal.
  - rewrite <- (IH (n / 256)). f_equal. rewrite N.Div0.mod_mul_r, (N.mul_comm 256), N.div_add by done.
    rewrite N.div_small by (by apply N.mod_lt). done.
  - f_equal. rewrite N.Div0.mod_mul_r, (N.mul_comm 256), N.Div0.mod_add. by rewrite N.Div0.mod_mod.
Qed.
Lemma be_value_snoc b x : be_value (b ++ [x]) = be_value b * 256 + x.
Proof. unfold be_value. by rewrite fold_left_app. Qed.
Lemma be_value_bytes k n : be_value (be_bytes k n) = n mod 256 ^ N.of_nat k.
Proof.
  revert n. induction k as [|k IH]; intros n; [by rewrite N.mod_1_r|].
  rewrite be_bytes_snoc, be_value_snoc, IH, Nat2N.inj_succ, N.pow_succ_r'.
  rewrite N.Div0.mod_mul_r. lia.
Qed.
Lemma be_bytes_value b : Forall is_byte b -> be_bytes (length b) (be_value b) = b.
Proof.
  induction b as [|x b IH] using rev_ind; intros Hb; [done|]. apply Forall_app in Hb as [Hb Hx]. inversion_clear Hx.
  rewrite length_app, Nat.add_comm. cbn [length Nat.add]. rewrite be_bytes_snoc, be_value_snoc. unfold is_byte in *.
  rewrite N.div_add_l, N.div_small, N.add_0_r, IH by done. f_equal. f_equal.
  by rewrite N.add_comm, N.Div0.mod_add, N.mod_small.
Qed.
Lemma be_value_lt b : Forall is_byte b -> be_value b < 256 ^ N.of_nat (length b).
Proof.
  induction b as [|x b IH] using rev_ind; intros Hb; [done|]. apply Forall_app in Hb as [Hb Hx]. inversion_clear Hx.
  specialize (IH Hb). rewrite length_app, Nat.add_comm. cbn [length Nat.add].
  rewrite be_value_snoc, Nat2N.inj_succ, N.pow_succ_r'. unfold is_byte in *. lia.
Qed.
Lemma be_value_app a b : be_value (a ++ b) = be_value a * 256 ^ N.of_nat (length b) + be_value b.
Proof.
  induction b as [|x b IH] using rev_ind; [rewrite app_nil_r; cbn; lia|].
  rewrite app_assoc, !be_value_snoc, IH, length_app, Nat.add_comm. cbn [length Nat.add].
  rewrite Nat2N.inj_succ, N.pow_succ_r'. lia.
Qed.

Lemma be_from_limbs_val r : limbs_ok r -> be_from_limbs r = be_bytes 32 (val r).
Proof.
  intros (R0 & R1 & R2 & R3). unfold be_from_limbs.
  change 32%nat with (8 + (8 + (8 + 8)))%nat. rewrite !be_bytes_app.
  change (256 ^ N.of_nat (8 + (8 + 8))) with (U64 * (U64 * U64)). change (256 ^ N.of_nat (8 + 8)) with (U64 * U64).
  change (256 ^ N.of_nat 8) with U64. unfold val.
  assert (HU : U64 <> 0) by done.
  assert (Ed : forall x p, x < U64 -> (x + U64 * p) / U64 = p).
  { intros x p Hx. rewrite N.add_comm, N.mul_comm, N.div_add_l, N.div_small by done. lia. }
  assert (Em : forall x p, x < U64 -> be_bytes 8 (x + U64 * p) = be_bytes 8 x).
  { intros x p Hx. rewrite <- be_bytes_mod. change (256 ^ N.of_nat 8) with U64.
    by rewrite (N.mul_comm U64), N.Div0.mod_add, N.mod_small. }
  rewrite <- !N.Div0.div_div, !Ed, !Em by done. done.
Qed.
Lemma limbs_from_be_val b : Forall is_byte b -> length b = 32%nat ->
  limbs_ok (limbs_from_be b) /\ val (limbs_from_be b) = be_value b.
Proof.
  intros Hb Hl.
  assert (Hlt : forall c, Forall is_byte c -> length c = 8%nat -> be_value c < U64).
  { intros c Hc Hlc. apply be_value_lt in Hc. by rewrite Hlc in Hc. }
  assert (Hd : forall n, Forall is_byte (drop n b)) by (intros; by apply Forall_drop).
  split.
  - split_and!; apply Hlt; auto using Forall_take; rewrite ?length_take, ?length_drop, Hl; done.
  - assert (E : b = take 8 b ++ take 8 (drop 8 b) ++ take 8 (drop 16 b) ++ drop 24 b).
    { rewrite <- (take_drop 8 b) at 1. f_equal. rewrite <- (take_drop 8 (drop 8 b)) at 1. f_equal.
      rewrite <- (take_drop 8 (drop 8 (drop 8 b))), !drop_drop. done. }
    rewrite E at 2. rewrite !be_value_app, !length_app, !length_take, !length_drop, Hl.
    change (256 ^ N.of_nat (Nat.min 8 (32 - 8) + (Nat.min 8 (32 - 16) + (32 - 24)))) with (U64 * (U64 * U64)).
    change (256 ^ N.of_nat (Nat.min 8 (32 - 16) + (32 - 24))) with (U64 * U64).
    change (256 ^ N.of_nat (32 - 24)) with U64. unfold val, limbs_from_be. cbn [u0 u1 u2 u3]. lia.
Qed.

(** ** What the routines compute *)

(** The constant-time reduction on limbs is the number the key material
    stands for, modulo the group's order less one, plus one: a scalar from
    1 to the order less one, as 32 bytes. *)
Theorem p256_scalar_reduces okm : Forall is_byte okm ->
  p256_scalar_from_okm okm = be_bytes 32 (be_value okm mod (ORDER - 1) + 1) /\
  (1 <= be_value (p256_scalar_from_okm okm) < ORDER).
Proof.
  intros Hb. unfold p256_scalar_from_okm. destruct (okm_bits okm 0 Hb) as [H1 H2].
  destruct (reduce_bits_ok _ (mk256 0 0 0 0) H1) as [Hr Ev]; [done..|].
  change (val (mk256 0 0 0 0)) with 0 in Ev. rewrite H2 in Ev. change (fold_left _ okm 0) with (be_value okm) in Ev.
  pose proof (N.mod_lt (be_value okm) (ORDER - 1) ltac:(done)) as Hlt.
  assert (ORDER - 1 + 1 < TWO256 /\ ORDER - 1 + 1 = ORDER) as [Hbig Ho] by done.
  set (m := ORDER - 1) in *. clearbody m.
  destruct (add_one_ok _ Hr) as [Ha Ea]; [rewrite Ev; lia|]. rewrite be_from_limbs_val, Ea, Ev by done.
  split; [done|]. rewrite be_value_bytes. change (256 ^ N.of_nat 32) with TWO256. rewrite N.mod_small; lia.
Qed.

(** The [s] of a signature of 64 bytes or more. *)
Definition sig_s (sig : bytes) : N := be_value (take 32 (drop 32 sig)).
Lemma s_half_some sig : (64 <= length sig)%nat -> s_half sig = Some (take 32 (drop 32 sig)).
Proof. intros H. unfold s_half. by rewrite (proj2 (Nat.leb_le _ _) H). Qed.
Lemma s_half_ok sig : Forall is_byte sig -> (64 <= length sig)%nat ->
  limbs_ok (limbs_from_be (take 32 (drop 32 sig))) /\ val (limbs_from_be (take 32 (drop 32 sig))) = sig_s sig.
Proof.
  intros Hb Hl. apply limbs_from_be_val; [by apply Forall_take, Forall_drop|].
  rewrite length_take, length_drop. lia.
Qed.
Lemma is_high_s_val sig : Forall is_byte sig -> (64 <= length sig)%nat ->
  is_high_s sig = N.ltb (ORDER / 2) (sig_s sig).
Proof.
  intros Hb Hl. unfold is_high_s. rewrite s_half_some by done. destruct (s_half_ok sig Hb Hl) as [Hs Es].
  destruct (sub_256 N_HALF _) as [o c] eqn:E. destruct N_HALF_ok as [Hh Eh].
  apply sub_256_ok in E as (Ho & Hc & E); [|done..]. rewrite Eh, Es in E. cbn [snd].
  pose proof (val_bound _ Ho). pose proof (val_bound _ Hs) as Hv. rewrite Es in Hv.
  assert (ORDER / 2 < TWO256) by done. set (h := ORDER / 2) in *. clearbody h. set (w := TWO256) in *. clearbody w.
  destruct (N.eqb_spec c 1) as [->|Hn], (N.ltb_spec h (sig_s sig)); try done; [lia|].
  assert (c = 0) as -> by lia. lia.
Qed.

Lemma to_low_s_cases sig : Forall is_byte sig -> (64 <= length sig)%nat -> sig_s sig <= ORDER ->
  to_low_s sig = sig /\ sig_s sig <= ORDER / 2 \/
  ORDER / 2 < sig_s sig /\ to_low_s sig = take 32 sig ++ be_bytes 32 (ORDER - sig_s sig) ++ drop 64 sig.
Proof.
  intros Hb Hl Ho. unfold to_low_s. rewrite is_high_s_val, s_half_some by done.
  destruct (N.ltb_spec (ORDER / 2) (sig_s sig)) as [Hh|Hh]; cbn [negb]; [right|by left]. split; [done|].
  destruct (s_half_ok sig Hb Hl) as [Hs Es]. destruct N_ORDER_ok as [Hn En].
  destruct (sub_256 N_ORDER _) as [o c] eqn:E. apply sub_256_ok in E as (Hok & Hc & E); [|done..].
  rewrite En, Es in E. cbn [fst]. rewrite be_from_limbs_val by done. do 2 f_equal. f_equal.
  pose proof (val_bound _ Hok). assert (c = 0 \/ c = 1) as [-> | ->] by lia; lia.
Qed.
(** What is signed out has a low [s], of the same signature. *)
Lemma to_low_s_low sig : Forall is_byte sig -> (64 <= length sig)%nat -> sig_s sig <= ORDER ->
  is_high_s (to_low_s sig) = false /\ length (to_low_s sig) = length sig /\ take 32 (to_low_s sig) = take 32 sig /\
  (sig_s (to_low_s sig) = sig_s sig \/ sig_s (to_low_s sig) = ORDER - sig_s sig) /\ Forall is_byte (to_low_s sig).
Proof.
  intros Hb Hl Ho. destruct (to_low_s_cases sig Hb Hl Ho) as [[-> Hs]|[Hs ->]].
  { rewrite is_high_s_val by done. split_and!; [by apply N.ltb_ge|done..|by left|done]. }
  set (z := be_bytes 32 (ORDER - sig_s sig)).
  assert (Hz : length z = 32%nat) by apply be_bytes_length.
  assert (Ht : length (take 32 sig) = 32%nat) by (rewrite length_take; lia).
  assert (Hbz : Forall is_byte z).
  { unfold z, be_bytes. apply Forall_forall. intros x (y & -> & _)%list_elem_of_fmap. by apply N.mod_lt. }
  assert (Hlen : length (take 32 sig ++ z ++ drop 64 sig) = length sig).
  { rewrite !length_app, Ht, Hz, length_drop. lia. }
  assert (Hall : Forall is_byte (take 32 sig ++ z ++ drop 64 sig)).
  { apply Forall_app; split; [by apply Forall_take|]. apply Forall_app; split; [done|by apply Forall_drop]. }
  assert (Es : sig_s (take 32 sig ++ z ++ drop 64 sig) = ORDER - sig_s sig).
  { unfold sig_s at 1. rewrite drop_app_length', take_app_length' by done.
    unfold z. rewrite be_value_bytes. apply N.mod_small. change (256 ^ N.of_nat 32) with TWO256.
    assert (ORDER < TWO256) by done. set (w := TWO256) in *. clearbody w. lia. }
  rewrite is_high_s_val, Hlen, Es by (done || lia). split_and!; [|done| |by right|done].
  - apply N.ltb_ge. assert (ORDER = 2 * (ORDER / 2) + 1) as Eo by done. set (h := ORDER / 2) in *. clearbody h. lia.
  - rewrite take_app_length' by done. done.
Qed.

Lemma p256_scalar_reduces_witness :
  Forall is_byte (repeat 255 48) /\
  p256_scalar_from_okm (repeat 255 48) =
    be_bytes 32 (be_value (repeat 255 48) mod (ORDER - 1) + 1) /\
  1 <= be_value (p256_scalar_from_okm (repeat 255 48)) < ORDER.
Proof.
  assert (Hb : Forall is_byte (repeat 255 48)).
  { apply Forall_forall. intros x ->%list_elem_of_In%repeat_spec. done. }
  split; [exact Hb|]. exact (p256_scalar_reduces _ Hb).
Defined.
