(* ===== verification/Jwt.v ===== *)
(** Signed tokens ([crates/crypto/src/jwt.rs], [oidc.rs], [pem.rs]): the
    tokens the broker mints and checks, the assertions it signs for GitHub
    and Google, and the ID tokens of the sign-in provider. The curve, RSA
    and HKDF are [ring]'s; [P256.v] has what is computed around them. *)

From S2P Require Import Prelude Json Pool HostTypes TotpCode F64 Transcript Envelope Hello CanonicalJson P256.
From stdpp Require Import options.

(** ** [ring] *)

Class Ring := {
  hkdf_sha256 : bytes -> bytes -> nat -> option bytes;
  P256Pair : Type;
  (** The pair of a scalar ([p256_key_pair]). *)
  p256_key_pair : bytes -> option P256Pair;
  p256_public : P256Pair -> bytes;
  (** [r] and [s], of the random bytes drawn. *)
  p256_sign : P256Pair -> bytes -> bytes -> option bytes;
  p256_verify : bytes -> bytes -> bytes -> bool;
  RsaPair : Type;
  rsa_from_der : bytes -> result str RsaPair;
  rsa_from_pkcs8 : bytes -> result str RsaPair;
  rsa_sign : RsaPair -> bytes -> option bytes;
  (** RSA_PKCS1_2048_8192_SHA256, of the modulus and the exponent. *)
  rsa_verify : bytes -> bytes -> bytes -> bytes -> bool;
}.
(** A signature is 64 bytes with [s] below the order, verifies under its
    pair's public key, and so does its twin with the other [s]. *)
Class RingLaws `{!Ring} : Prop := {
  p256_signed pair random m sig : p256_sign pair random m = Some sig ->
    Forall is_byte sig /\ length sig = 64 /\ (sig_s sig < ORDER)%N /\ p256_verify (p256_public pair) m sig = true;
  p256_malleable key m sig : Forall is_byte sig -> length sig = 64 -> (sig_s sig < ORDER)%N ->
    p256_verify key m sig = true -> p256_verify key m (take 32 sig ++ be_bytes 32 (ORDER - sig_s sig)) = true;
}.

(** ** PEM *)

Definition MAX_PEM_BYTES : N := 64 * 1024.
Record Pem := mkPem { pem_label : str; pem_der : bytes }.
Inductive PemError := PemTooLarge | NoBegin | NoEnd | PemHeaders | PemBase64.

Definition begin_label (l : str) : option str :=
  rest ← strip_prefix (lit "-----BEGIN ") l; strip_suffix (lit "-----") rest.
(** [find_map], and the lines after. *)
Fixpoint find_begin (ls : list str) : option (str * list str) :=
  match ls with
  | [] => None
  | l :: ls => match begin_label l with Some label => Some (label, ls) | None => find_begin ls end
  end.
Fixpoint pem_body (end_ : str) (ls : list str) : result PemError str :=
  match ls with
  | [] => Err NoEnd
  | l :: ls =>
      if str_eqb l end_ then Ok []
      else if elem_b (ch ":") l || negb (is_none (strip_prefix (lit "-----") l)) then Err PemHeaders
      else rest ← pem_body end_ ls; Ok (l ++ rest)
  end.

Section pem.
Context `{Base64}.
Definition pem_parse (text : str) : result PemError Pem :=
  if N.ltb MAX_PEM_BYTES (N.of_nat (str_len text)) then Err PemTooLarge
  else
    '(label, rest) ← ok_or (find_begin (map trim (lines text))) NoBegin;
    body ← pem_body (lit "-----END " ++ label ++ lit "-----") rest;
    der ← ok_or (b64std_decode body) PemBase64;
    Ok (mkPem label der).

(** [encoding.rs]: a 32-byte key, in either alphabet. *)
Definition decode_key32 (text : str) : option bytes :=
  let text := trim text in
  bytes ← match b64url_decode text with Some b => Some b | None => b64std_decode text end;
  if Nat.eqb (length bytes) 32 then Some bytes else None.
End pem.

(** ** Claims *)

Definition ALGORITHM : str := lit "ES256".
Definition LABEL : bytes := as_bytes (lit "agent-auth token signing key v1 (ES256)").
Definition LEEWAY_SECS : f64 := f64_of_Z 5.
Definition MAX_TOKEN_BYTES : N := 16 * 1024.

Section claims.
Context `{RustFmt}.

Definition claim_missing (claims : list (str * Value)) (k : str) : bool :=
  match map_get k claims with None => true | Some v => is_null v end.
(** A time: whole seconds of a finite number, if the claim is there. *)
Definition claim_time (claims : list (str * Value)) (k msg : str) : result str (option f64) :=
  match map_get k claims with
  | None => Ok None
  | Some v =>
      match as_f64 v with
      | Some f => if f64_finite f then Ok (Some (f64_trunc f)) else Err msg
      | None => Err msg
      end
  end.
Definition refuse_if {E} (b : bool) (e : E) : result E unit := if b then Err e else Ok tt.
Definition when_some {A} (o : option A) (p : A -> bool) : bool := match o with Some x => p x | None => false end.
Definition is_string (v : Value) : bool := negb (is_none (as_str v)).
Definition str_is (v : Value) (s : str) : bool := match as_str v with Some t => str_eqb t s | None => false end.

Definition validate_claims (claims : list (str * Value)) (audience : str) (issuers : list str) (now : f64)
  : result str unit :=
  match find (claim_missing claims) [lit "exp"; lit "iat"; lit "sub"; lit "aud"; lit "iss"] with
  | Some claim => Err (qlit "Token is missing the `" ++ claim ++ qlit "` claim")
  | None =>
      iat ← claim_time claims (lit "iat") (lit "Issued At claim (iat) must be an integer.");
      _ ← refuse_if (when_some iat (fun t => f64_ltb (f64_add now LEEWAY_SECS) t)) (lit "The token is not yet valid (iat)");
      nbf ← claim_time claims (lit "nbf") (lit "Not Before claim (nbf) must be an integer.");
      _ ← refuse_if (when_some nbf (fun t => f64_ltb (f64_add now LEEWAY_SECS) t)) (lit "The token is not yet valid (nbf)");
      exp ← claim_time claims (lit "exp") (lit "Expiration Time claim (exp) must be an integer.");
      _ ← refuse_if (when_some exp (fun t => f64_leb t (f64_sub now LEEWAY_SECS))) (lit "Signature has expired");
      _ ← refuse_if (negb (when_some (map_get (lit "iss") claims ≫= as_str) (fun iss => existsb (str_eqb iss) issuers)))
            (lit "Invalid issuer");
      auds ← (match map_get (lit "aud") claims with
              | Some (VArray items) => Ok items
              | Some (VString s) => Ok [VString s]
              | _ => Err (lit "Invalid claim format in token")
              end : result str (list Value));
      _ ← refuse_if (existsb (fun a => negb (is_string a)) auds) (lit "Invalid claim format in token");
      _ ← refuse_if (negb (existsb (fun a => str_is a audience) auds)) (lit "Audience doesn't match");
      _ ← refuse_if (negb (when_some (map_get (lit "sub") claims) is_string)) (lit "Subject must be a string");
      refuse_if (when_some (map_get (lit "jti") claims) (fun j => negb (is_string j))) (lit "JWT ID must be a string")
  end.
End claims.

(** ** The broker's tokens *)

Inductive JwtError := JDerive | JPem (e : PemError) | JRsaKey (e : str) | JSign | JRandom.

Section issuer.
Context `{RustFmt, JsonRead, Base64, Sha256, Ring}.

Record TokenIssuer := mkIssuer { ti_pair : P256Pair; ti_issuer : str; ti_kid : str; ti_jwk : list (str * Value) }.

Definition coordinates (public : bytes) : option (bytes * bytes) :=
  match public with
  | x :: rest => if N.eqb x 4 && Nat.eqb (length rest) 64 then Some (take 32 rest, drop 32 rest) else None
  | [] => None
  end.
(** Of the broker key's seed. *)
Definition TokenIssuer_new (seed : bytes) (issuer : str) : result JwtError TokenIssuer :=
  okm ← ok_or (hkdf_sha256 seed LABEL 48) JDerive;
  pair ← ok_or (p256_key_pair (p256_scalar_from_okm okm)) JDerive;
  '(x, y) ← ok_or (coordinates (p256_public pair)) JDerive;
  let jwk := map_of_list
    [(lit "crv", VString (lit "P-256")); (lit "kty", VString (lit "EC"));
     (lit "x", VString (b64url_encode x)); (lit "y", VString (b64url_encode y))] in
  thumb ← ok_or (to_option (to_canonical_string (VObject jwk))) JDerive;
  let kid := b64url_encode (sha256 (as_bytes thumb)) in
  let jwk := map_insert (lit "kid") (VString kid) jwk in
  let jwk := map_insert (lit "use") (VString (lit "sig")) jwk in
  let jwk := map_insert (lit "alg") (VString ALGORITHM) jwk in
  Ok (mkIssuer pair (trim_end_char (ch "/") issuer) kid jwk).

Definition jwks (t : TokenIssuer) : Value := json_obj [(lit "keys", VArray [VObject (ti_jwk t)])].
Definition discovery (t : TokenIssuer) : Value :=
  json_obj [(lit "issuer", VString (ti_issuer t));
    (lit "jwks_uri", VString (ti_issuer t ++ lit "/.well-known/jwks.json"));
    (lit "id_token_signing_alg_values_supported", VArray [VString ALGORITHM]);
    (lit "subject_types_supported", VArray [VString (lit "public")]);
    (lit "response_types_supported", VArray [VString (lit "token")])].

Definition signing_input (h64 p64 : str) : str := h64 ++ [ch "."] ++ p64.
Definition mint_payload (t : TokenIssuer) (subject audience : str) (claims : list (str * Value))
  (now expires : Z) (jti : str) : list (str * Value) :=
  map_insert (lit "jti") (VString jti)
  (map_insert (lit "exp") (json_int expires)
    (map_insert (lit "nbf") (json_int (sat_i64 (now - 5)))
      (map_insert (lit "iat") (json_int now)
        (map_insert (lit "aud") (VString audience)
          (map_insert (lit "sub") (VString subject)
            (map_insert (lit "iss") (VString (ti_issuer t)) claims)))))).
Definition mint_header (t : TokenIssuer) : Value :=
  json_obj [(lit "alg", VString ALGORITHM); (lit "kid", VString (ti_kid t)); (lit "typ", VString (lit "JWT"))].
(** [jti] is the random id and [random] the signature's randomness, as the
    system gave them. *)
Definition mint (t : TokenIssuer) (subject audience : str) (ttl_secs : Z) (claims : list (str * Value)) (now : Z)
  (jti : option str) (random : bytes) : result JwtError (str * Z) :=
  let expires := sat_i64 (now + Z.max ttl_secs 1) in
  jti ← ok_or jti JRandom;
  let payload := mint_payload t subject audience claims now expires jti in
  let input := signing_input (b64url_encode (as_bytes (value_display (mint_header t))))
                             (b64url_encode (as_bytes (value_display (VObject payload)))) in
  sig ← ok_or (p256_sign (ti_pair t) random (as_bytes input)) JSign;
  Ok (input ++ [ch "."] ++ b64url_encode (to_low_s sig), expires).

(** Three parts, no more. *)
Definition token_parts (token : str) : option (str * str * str) :=
  match split (ch ".") token with [h; p; s] => Some (h, p, s) | _ => None end.
Definition decode_json (part : str) : option Value := b ← b64url_decode part; json_from_slice b.
Definition decode_object (part : str) : option (list (str * Value)) := v ← decode_json part; as_object v.
Definition verification_failed : str := lit "Signature verification failed".

(** [verify]; [token.get(..n)] is the token's own first two parts. *)
Definition token_verify (t : TokenIssuer) (token audience : str) (now : f64) : result str (list (str * Value)) :=
  if N.ltb MAX_TOKEN_BYTES (N.of_nat (str_len token)) then Err (lit "Token too long")
  else
    '(h64, p64, s64) ← ok_or (token_parts token) (lit "Not enough segments");
    header ← ok_or (decode_json h64) (lit "Invalid header string");
    _ ← refuse_if (negb (when_some (value_get header (lit "alg")) (fun a => str_is a ALGORITHM)))
          (lit "The specified alg value is not allowed");
    sig ← ok_or (b64url_decode s64) (lit "Invalid crypto padding");
    _ ← refuse_if (is_high_s sig) verification_failed;
    _ ← refuse_if (negb (p256_verify (p256_public (ti_pair t)) (as_bytes (signing_input h64 p64)) sig)) verification_failed;
    claims ← ok_or (decode_object p64) (lit "Invalid payload string: must be a json object");
    _ ← validate_claims claims audience [ti_issuer t] now;
    Ok claims.
End issuer.

(** ** Assertions signed with RSA *)

Section rsa.
Context `{RustFmt, Base64, Ring}.

Definition rsa_error {A} (r : result str A) : result JwtError A := map_err JRsaKey r.
Definition unexpected_label (label : str) : str := lit "unexpected PEM label " ++ debug_str label.
(** [GitHubAppKey::from_pem] and [ServiceAccountKey::from_pem]. *)
Definition GitHubAppKey_from_pem (text : str) : result JwtError RsaPair :=
  block ← map_err JPem (pem_parse text);
  rsa_error (if str_eqb (pem_label block) (lit "RSA PRIVATE KEY") then rsa_from_der (pem_der block)
             else if str_eqb (pem_label block) (lit "PRIVATE KEY") then rsa_from_pkcs8 (pem_der block)
             else Err (unexpected_label (pem_label block))).
Definition ServiceAccountKey_from_pem (text : str) : result JwtError RsaPair :=
  block ← map_err JPem (pem_parse text);
  rsa_error (if str_eqb (pem_label block) (lit "PRIVATE KEY") then rsa_from_pkcs8 (pem_der block)
             else if str_eqb (pem_label block) (lit "RSA PRIVATE KEY") then rsa_from_der (pem_der block)
             else Err (unexpected_label (pem_label block))).

Definition rs256 (pair : RsaPair) (header payload : bytes) : result JwtError str :=
  let input := signing_input (b64url_encode header) (b64url_encode payload) in
  sig ← ok_or (rsa_sign pair (as_bytes input)) JSign;
  Ok (input ++ [ch "."] ++ b64url_encode sig).
Definition canonical_or_sign (v : Value) : result JwtError str := ok_or (to_option (to_canonical_string v)) JSign.

Definition app_jwt (pair : RsaPair) (app_id : str) (now : Z) : result JwtError str :=
  iss ← canonical_or_sign (VString app_id);
  let payload := qlit "{`iat`:" ++ show_Z (sat_i64 (now - 60)) ++ qlit ",`exp`:" ++ show_Z (sat_i64 (now + 540))
                 ++ qlit ",`iss`:" ++ iss ++ lit "}" in
  rs256 pair (as_bytes (qlit "{`alg`:`RS256`,`typ`:`JWT`}")) (as_bytes payload).

Record AssertionClaims := mkAssertion { as_iss : str; as_sub : str; as_scope : str; as_aud : str; as_iat : Z; as_exp : Z }.
Definition assertion (pair : RsaPair) (kid : option str) (c : AssertionClaims) : result JwtError str :=
  let header := map_of_list [(lit "alg", VString (lit "RS256")); (lit "typ", VString (lit "JWT"))] in
  let header := match kid with Some k => map_insert (lit "kid") (VString k) header | None => header end in
  let payload := json_obj [(lit "iss", VString (as_iss c)); (lit "sub", VString (as_sub c));
    (lit "scope", VString (as_scope c)); (lit "aud", VString (as_aud c));
    (lit "iat", json_int (as_iat c)); (lit "exp", json_int (as_exp c))] in
  header ← canonical_or_sign (VObject header);
  payload ← canonical_or_sign payload;
  rs256 pair (as_bytes header) (as_bytes payload).
End rsa.

(** ** ID tokens *)

Definition ALGORITHMS : list str := [lit "RS256"; lit "ES256"].
Inductive IdTokenError := UnknownKey | IdInvalid (text : str).

Section id_token.
Context `{RustFmt, JsonRead, Base64, Ring}.

Definition id_invalid (msg : string) : IdTokenError := IdInvalid (lit msg).
Arguments id_invalid _%_string.
Definition key_field (key : list (str * Value)) (name : str) : result IdTokenError bytes :=
  match (map_get name key ≫= as_str) ≫= b64url_decode with
  | Some (x :: v) => Ok (x :: v)
  | _ => Err (IdInvalid (lit "the key's " ++ debug_str name ++ lit " is missing or malformed"))
  end.
(** The first published key with the token's [kid], if it names one. *)
Definition published (jwks : Value) : list (list (str * Value)) :=
  omap as_object (default [] (value_get jwks (lit "keys") ≫= as_array)).
Definition fits_kid (kid : option str) (key : list (str * Value)) : bool :=
  match kid with None => true | Some k => when_some (map_get (lit "kid") key) (fun v => str_is v k) end.
(** Whether the signature is the key's: an error when the key does not fit. *)
Definition key_verifies (alg : str) (key : list (str * Value)) (input sig : bytes) : result IdTokenError bool :=
  let kty := default [] (map_get (lit "kty") key ≫= as_str) in
  if str_eqb alg (lit "RS256") && str_eqb kty (lit "RSA") then
    n ← key_field key (lit "n");
    e ← key_field key (lit "e");
    Ok (rsa_verify n e input sig)
  else if str_eqb alg (lit "ES256") && str_eqb kty (lit "EC") then
    _ ← refuse_if (negb (when_some (map_get (lit "crv") key) (fun v => str_is v (lit "P-256")))) (id_invalid "The key is not a P-256 key");
    x ← key_field key (lit "x");
    y ← key_field key (lit "y");
    _ ← refuse_if (negb (Nat.eqb (length x) 32) || negb (Nat.eqb (length y) 32)) (id_invalid "The key is not a P-256 key");
    Ok (p256_verify (4%N :: x ++ y) input sig)
  else Err (id_invalid "The key's type does not fit the token's algorithm").

Definition verify_id_token (token : str) (jwks : Value) (audience : str) (issuers : list str) (now : f64)
  : result IdTokenError (list (str * Value)) :=
  if N.ltb MAX_TOKEN_BYTES (N.of_nat (str_len token)) then Err (id_invalid "Token too long")
  else
    '(h64, p64, s64) ← ok_or (token_parts token) (id_invalid "Not enough segments");
    header ← ok_or (decode_object h64) (id_invalid "Invalid header string");
    alg ← ok_or (a ← map_get (lit "alg") header ≫= as_str; if existsb (str_eqb a) ALGORITHMS then Some a else None)
            (id_invalid "The specified alg value is not allowed");
    kid ← (match map_get (lit "kid") header with
           | None => Ok None
           | Some (VString k) => Ok (Some k)
           | Some _ => Err (id_invalid "Key ID header parameter must be a string")
           end : result IdTokenError (option str));
    key ← ok_or (find (fits_kid kid) (published jwks)) UnknownKey;
    _ ← refuse_if (when_some (map_get (lit "alg") key) (fun a => negb (str_is a alg)))
          (id_invalid "The key is not for this token's algorithm");
    sig ← ok_or (b64url_decode s64) (id_invalid "Invalid crypto padding");
    ok ← key_verifies alg key (as_bytes (signing_input h64 p64)) sig;
    _ ← refuse_if (negb ok) (id_invalid "Signature verification failed");
    claims ← ok_or (decode_object p64) (id_invalid "Invalid payload string: must be a json object");
    _ ← map_err IdInvalid (validate_claims claims audience issuers now);
    Ok claims.
End id_token.
