(* ===== verification/SampleCrypto.v ===== *)
(** Concrete stand-ins for the libraries that encode, sign and digest, which
    satisfy their laws: the witnesses' world. None of them is secure. *)

From stdpp Require Import countable.
From S2P Require Import Prelude Json Pool HostTypes TotpCode F64 Transcript Envelope Hello.
From stdpp Require Import options.

(** ** Base64: two letters for a byte *)

Definition letter (n : N) : char := (ch "A" + n)%N.
Fixpoint letters (b : bytes) : str :=
  match b with [] => [] | x :: b => letter (x / 16) :: letter (x mod 16) :: letters b end.
Definition nibble (c : char) : option N :=
  if in_range (ch "A") (ch "P") c then Some (c - ch "A")%N else None.
Fixpoint unletters (t : str) : option bytes :=
  match t with
  | [] => Some []
  | a :: b :: t => h ← nibble a; l ← nibble b; r ← unletters t; Some ((h * 16 + l)%N :: r)
  | _ => None
  end.
#[export] Instance sample_base64 : Base64 := {|
  b64url_encode := letters; b64url_decode := unletters; b64std_decode := unletters |}.

Lemma nibble_letter n : (n < 16)%N -> nibble (letter n) = Some n.
Proof.
  intros Hn. unfold nibble, letter, in_range. rewrite !(proj2 (N.leb_le _ _)) by lia. cbn. f_equal. lia.
Qed.
Lemma nibble_some c n : nibble c = Some n -> (n < 16)%N /\ b64_char c = true.
Proof.
  unfold nibble, b64_char, is_ascii_alphanumeric, is_ascii_alphabetic, is_ascii_uppercase, in_range.
  destruct (_ && _) eqn:E; [|done]. apply andb_true_iff in E as [H1%N.leb_le H2%N.leb_le]. intros [= <-].
  split; [lia|]. rewrite !orb_true_iff, !andb_true_iff, !N.leb_le. lia.
Qed.

Lemma unletters_ind (P : str -> Prop) :
  P [] -> (forall a, P [a]) -> (forall a b t, P t -> P (a :: b :: t)) -> forall t, P t.
Proof. intros H0 H1 H2. fix IH 1. intros [|a [|b t]]; [done|done|apply H2, IH]. Qed.

Lemma unletters_some t b : unletters t = Some b ->
  Forall is_byte b /\ Forall (fun c => b64_char c = true) t /\ length t = 2 * length b.
Proof.
  revert b. induction t as [|a|a b' t IH] using unletters_ind; intros b; cbn; [by intros [= <-]|done|].
  destruct (nibble a) as [h|] eqn:Ea; cbn; [|done]. destruct (nibble b') as [l|] eqn:Eb; cbn; [|done].
  destruct (unletters t) as [r|]; cbn; [|done]. intros [= <-].
  apply nibble_some in Ea as [? ?], Eb as [? ?]. destruct (IH _ eq_refl) as (? & ? & ?).
  split_and!; [constructor; [unfold is_byte; lia|done]|by repeat constructor|cbn; lia].
Qed.
#[export] Instance sample_base64_laws : Base64Laws.
Proof.
  constructor.
  - intros b Hb. cbn. induction Hb as [|x b Hx _ IH]; [done|]. cbn [letters unletters].
    unfold is_byte in Hx. pose proof (N.mod_lt x 16 ltac:(done)).
    rewrite !nibble_letter by (done || apply N.Div0.div_lt_upper_bound; lia). cbn. rewrite IH. cbn.
    do 2 f_equal. pose proof (N.div_mod' x 16). lia.
  - cbn. intros b Hb. induction Hb as [|x b Hx _ IH]; cbn [letters]; [constructor|].
    unfold is_byte in Hx. pose proof (N.mod_lt x 16 ltac:(done)).
    repeat apply Forall_cons_2; try done; eapply nibble_some, nibble_letter; [|lia].
    apply N.Div0.div_lt_upper_bound; lia.
  - intros t b H. by apply unletters_some in H as (? & _ & _).
  - intros t b (_ & H & _)%unletters_some. eapply Forall_impl; [exact H|]. by left.
  - intros t b (_ & _ & H)%unletters_some. lia.
Qed.

(** ** SHA-256: the sum of the bytes, weighted by place *)

Fixpoint weighted (k : N) (m : bytes) : N :=
  match m with [] => 0 | x :: m => k * (x + 1) + weighted (k + 1) m end%N.
#[export] Instance sample_sha256 : Sha256 := {| sha256 m := be_bytes 32 (weighted 1 m) |}.
#[export] Instance sample_sha256_laws : Sha256Laws.
Proof. constructor. intros m. apply be_bytes_length. Qed.

(** ** Signatures: the public key and the digest of the message *)

Definition sample_public (seed : bytes) : bytes :=
  take 32 (map (fun x => x mod 256)%N seed ++ repeat 9%N 32).
#[export] Instance sample_ed25519 : Ed25519 := {|
  ed_public := sample_public;
  ed_sign seed m := sample_public seed ++ sha256 m;
  ed_verify pk m s := bool_decide (s = pk ++ sha256 m) |}.

Lemma be_bytes_bytes n v : Forall is_byte (be_bytes n v).
Proof.
  unfold be_bytes. apply Forall_forall. intros x (y & -> & _)%list_elem_of_fmap. by apply N.mod_lt.
Qed.
#[export] Instance sample_ed25519_laws : Ed25519Laws.
Proof.
  assert (Hp : forall seed, Forall is_byte (sample_public seed)).
  { intros seed. apply Forall_take, Forall_app. split; [|by repeat constructor].
    apply Forall_forall. intros x (y & -> & _)%list_elem_of_fmap. by apply N.mod_lt. }
  constructor.
  - intros seed m. by apply bool_decide_eq_true.
  - intros seed m. apply Forall_app. split; [apply Hp|apply be_bytes_bytes].
  - intros seed. split; [apply Hp|]. cbn. unfold sample_public.
    rewrite length_take, length_app, repeat_length. lia.
Qed.

(** ** JSON: the bits of the value's number *)

Definition number_code (n : Number) : N + (Z + N) :=
  match n with PosInt u => inl u | NegInt i => inr (inl i) | Float b => inr (inr b) end.
Definition number_decode (c : N + (Z + N)) : Number :=
  match c with inl u => PosInt u | inr (inl i) => NegInt i | inr (inr b) => Float b end.
Abbreviation leaf := (bool + (str + (N + (Z + N))))%type.

Fixpoint value_tree (v : Value) : gen_tree leaf :=
  match v with
  | VNull => GenNode 0 []
  | VBool b => GenLeaf (inl b)
  | VNumber n => GenLeaf (inr (inr (number_code n)))
  | VString s => GenLeaf (inr (inl s))
  | VArray l => GenNode 1 (map value_tree l)
  | VObject m => GenNode 2 (map (fun kv => GenNode 3 [GenLeaf (inr (inl kv.1)); value_tree kv.2]) m)
  end.
Fixpoint tree_value (t : gen_tree leaf) : Value :=
  match t with
  | GenLeaf (inl b) => VBool b
  | GenLeaf (inr (inl s)) => VString s
  | GenLeaf (inr (inr n)) => VNumber (number_decode n)
  | GenNode 1 l => VArray (map tree_value l)
  | GenNode 2 l => VObject (map (fun e =>
      match e with
      | GenNode _ [GenLeaf (inr (inl k)); t] => (k, tree_value t)
      | _ => ([], VNull)
      end) l)
  | GenNode _ _ => VNull
  end.
Lemma tree_value_tree v : tree_value (value_tree v) = v.
Proof.
  induction v using Value_rect'; cbn; try done.
  - by destruct n.
  - f_equal. rewrite map_map. induction H as [|x l Hx _ IH]; cbn; [done|]. by rewrite Hx, IH.
  - f_equal. rewrite map_map. induction H as [|[k x] l Hx _ IH]; cbn in *; [done|]. by rewrite Hx, IH.
Qed.

Fixpoint pos_text (p : positive) : str :=
  match p with xH => [] | xO p => ch "0" :: pos_text p | xI p => ch "1" :: pos_text p end.
Fixpoint text_pos (s : str) : option positive :=
  match s with
  | [] => Some xH
  | c :: s =>
      p ← text_pos s;
      if N.eqb c (ch "0") then Some (xO p) else if N.eqb c (ch "1") then Some (xI p) else None
  end.
Lemma text_pos_text p : text_pos (pos_text p) = Some p.
Proof. induction p as [p IH|p IH|]; cbn; [by rewrite IH..|done]. Qed.

Definition sample_text (v : Value) : str := pos_text (encode (value_tree v)).
Definition sample_read (b : bytes) : option Value :=
  p ← text_pos b;
  t ← decode p;
  let v := tree_value t in
  if Nat.leb (json_depth v) RECURSION_LIMIT then Some v else None.
#[export] Instance sample_fmt : RustFmt := {|
  f64_display := fun _ => lit "0"; debug_str s := s; value_display := sample_text |}.
#[export] Instance sample_json : JsonRead := {| json_from_slice := sample_read |}.

Lemma sample_text_ascii v : Forall (fun c => is_ascii c = true) (sample_text v).
Proof. unfold sample_text. induction (encode _); cbn; by repeat constructor. Qed.
#[export] Instance sample_json_laws : JsonReadLaws.
Proof.
  constructor; intros v _; [apply ascii_valid, sample_text_ascii|].
  change (json_from_slice _) with (sample_read (as_bytes (sample_text v))).
  rewrite as_bytes_ascii by apply sample_text_ascii. unfold sample_read, sample_text.
  rewrite text_pos_text. cbn [mbind option_bind]. rewrite decode_encode. cbn [mbind option_bind].
  by rewrite tree_value_tree.
Qed.

(** ** A connection *)

Definition sample_daemon_key : SigningKey := mkSigningKey (repeat 1%N 32).
Definition sample_broker_key : SigningKey := mkSigningKey (repeat 2%N 32).
Definition sample_id : ChannelId := mkChannelId RHost (lit "excelsior").
Definition sample_handshake : Handshake :=
  mkHandshake sample_id (Nonce_generate (repeat 5%N 32)) (Nonce_generate (repeat 6%N 32)).
(** Each side, once the other's hello verified. *)
Definition sample_at_broker : VerifiedHello :=
  mkVerified sample_handshake (public_key sample_daemon_key) SDaemon.
Definition sample_at_daemon : VerifiedHello :=
  mkVerified sample_handshake (public_key sample_broker_key) SBroker.
Definition sample_sealer : EnvelopeSealer := (into_channel sample_at_broker sample_broker_key).1.
Definition sample_verifier : EnvelopeVerifier := (into_channel sample_at_daemon sample_daemon_key).2.

Lemma sample_id_valid : valid_id sample_id.
Proof. reflexivity. Qed.
Lemma sample_handshake_valid : valid_handshake sample_handshake.
Proof. split_and!; vm_compute; reflexivity. Qed.
Lemma sample_ends : paired_ends sample_sealer sample_verifier.
Proof.
  exact (proj1 (into_channel_paired sample_handshake sample_broker_key sample_daemon_key _ _ _ _
    sample_id_valid (surjective_pairing _) (surjective_pairing _))).
Qed.

(** A message, its time to live, and the time. *)
Definition sample_payload : list (str * Value) := [(lit "type", VString (lit "job.start"))].
Definition sample_now : N := f64_of_Z 1761400000.
Definition sample_ttl : N := DEFAULT_ENVELOPE_TTL_SECS.
Lemma sample_payload_valid : json_valid (VObject sample_payload).
Proof. apply json_valid_object. split; [by repeat constructor|]. by repeat constructor. Qed.

Definition sealed_text (r : result SealError (bytes * str) * EnvelopeSealer) : bytes * str :=
  match r.1 with Ok x => x | Err _ => ([], []) end.
(** The first and the second message. *)
Definition sample_first := seal sample_sealer sample_payload sample_ttl sample_now (Some (lit "0a")).
Definition sample_second := seal sample_first.2 sample_payload sample_ttl sample_now (Some (lit "0b")).
Lemma sealed_text_ok r : is_ok r.1 = true -> r = (Ok ((sealed_text r).1, (sealed_text r).2), r.2).
Proof. by destruct r as [[[]|] ?]. Qed.
Lemma sample_first_ok :
  seal sample_sealer sample_payload sample_ttl sample_now (Some (lit "0a")) = (Ok ((sealed_text sample_first).1, (sealed_text sample_first).2), sample_first.2).
Proof. apply (sealed_text_ok sample_first). vm_compute. reflexivity. Qed.
Lemma sample_second_ok :
  seal sample_first.2 sample_payload sample_ttl sample_now (Some (lit "0b")) = (Ok ((sealed_text sample_second).1, (sealed_text sample_second).2), sample_second.2).
Proof. apply (sealed_text_ok sample_second). vm_compute. reflexivity. Qed.
Lemma sample_lengths :
  N.leb (N.of_nat (length (as_bytes (sealed_text sample_first).2))) (MAX_FIELD_BYTES * 2) = true /\
  N.leb (N.of_nat (length (as_bytes (sealed_text sample_second).2))) (MAX_FIELD_BYTES * 2) = true.
Proof. vm_compute. split; reflexivity. Qed.
Lemma sample_depth : json_depth (VObject sample_payload) <= RECURSION_LIMIT.
Proof. apply Nat.leb_le. reflexivity. Qed.
Lemma sample_ids : valid_str (lit "0a") /\ valid_str (lit "0b").
Proof. split; by repeat constructor. Qed.

(** The sealer after its first message is still the other end. *)
Lemma sample_ends_again : paired_ends sample_first.2 sample_verifier.
Proof.
  destruct (seal_ok _ _ _ _ _ _ _ _ sample_first_ok) as (i & _ & Hs & _).
  rewrite Hs. apply paired_ends_seq, sample_ends.
Qed.
Lemma sample_seqs : es_seq sample_first.2 = 1%N /\ es_seq sample_second.2 = 2%N.
Proof. vm_compute. split; reflexivity. Qed.
Lemma sample_timely : untimely sample_now sample_now (f64_add sample_now sample_ttl) = None.
Proof. vm_compute. reflexivity. Qed.
