(* ===== verification/JwtFacts.v ===== *)
(** What the broker's tokens are worth: one it minted is accepted for its
    audience until it expires, one accepted was signed, and in one spelling
    only. Then the same of the sign-in provider's ID tokens. *)

From S2P Require Import Prelude Json Pool HostTypes TotpCode F64 Transcript Envelope Hello CanonicalJson P256 Jwt SampleCrypto.
From stdpp Require Import options.
#[local] Set Default Proof Using "Type*".

(** ** Results *)

Lemma refuse_if_ok {E} b (e : E) u : refuse_if b e = Ok u -> b = false.
Proof. by destruct b. Qed.
Lemma ok_or_ok {E A} (o : option A) (e : E) x : ok_or o e = Ok x -> o = Some x.
Proof. destruct o; cbn; [by intros [= ->]|done]. Qed.
Lemma refuse_bind {E A} b (e : E) (f : unit -> result E A) x :
  (u ← refuse_if b e; f u) = Ok x -> b = false /\ f tt = Ok x.
Proof. by destruct b. Qed.
Lemma ok_or_bind {E A B} (o : option A) (e : E) (f : A -> result E B) y :
  (x ← ok_or o e; f x) = Ok y -> exists x, o = Some x /\ f x = Ok y.
Proof. destruct o; cbn; [eauto|done]. Qed.
Lemma result_bind_ok {E A B} (r : result E A) (f : A -> result E B) y :
  (x ← r; f x) = Ok y -> exists x, r = Ok x /\ f x = Ok y.
Proof. destruct r; cbn; [eauto|done]. Qed.
Lemma step_ok_or {E A B} (o : option A) x (e : E) (f : A -> result E B) r :
  o = Some x -> f x = r -> (x ← ok_or o e; f x) = r.
Proof. by intros ->. Qed.
Lemma step_refuse {E A} b (e : E) (f : unit -> result E A) r : b = false -> f tt = r -> (u ← refuse_if b e; f u) = r.
Proof. by intros ->. Qed.
Lemma step_bind {E A B} (r0 : result E A) x (f : A -> result E B) r : r0 = Ok x -> f x = r -> (x ← r0; f x) = r.
Proof. by intros ->. Qed.
Lemma step_check {E A} b (e : E) (f : unit -> result E A) r :
  (b = false -> f tt = r) -> (b = true -> Err e = r) -> (u ← refuse_if b e; f u) = r.
Proof. destruct b; cbn; auto. Qed.
Lemma if_below {A} n m (x y : A) : (n <= m)%N -> (if N.ltb m n then x else y) = y.
Proof. intros H. by rewrite (proj2 (N.ltb_ge _ _) H). Qed.
(** Take a successful chain of checks apart. *)
Ltac steps H :=
  repeat first
    [ apply refuse_bind in H as [? H]
    | apply ok_or_bind in H as (? & ? & H)
    | apply result_bind_ok in H as (? & ? & H) ].

(** ** Claims *)

(** A claim that is a time, in whole seconds. *)
Definition time_claim (claims : list (str * Value)) (k : str) (t : f64) : Prop :=
  exists v f, map_get k claims = Some v /\ as_f64 v = Some f /\ f64_finite f = true /\ t = f64_trunc f.
Record claims_hold (claims : list (str * Value)) (audience : str) (issuers : list str) (now : f64) : Prop := {
  ch_iss : exists iss, map_get (lit "iss") claims = Some (VString iss) /\ iss ∈ issuers;
  ch_aud : map_get (lit "aud") claims = Some (VString audience) \/
           exists items, map_get (lit "aud") claims = Some (VArray items) /\ VString audience ∈ items;
  ch_sub : exists sub, map_get (lit "sub") claims = Some (VString sub);
  ch_iat : exists t, time_claim claims (lit "iat") t /\ f64_ltb (f64_add now LEEWAY_SECS) t = false;
  ch_exp : exists t, time_claim claims (lit "exp") t /\ f64_leb t (f64_sub now LEEWAY_SECS) = false;
  ch_nbf : map_get (lit "nbf") claims = None \/
           exists t, time_claim claims (lit "nbf") t /\ f64_ltb (f64_add now LEEWAY_SECS) t = false;
}.

Lemma claim_time_ok claims k msg o : claim_time claims k msg = Ok o ->
  match o with Some t => time_claim claims k t | None => map_get k claims = None end.
Proof.
  unfold claim_time. destruct (map_get k claims) as [v|] eqn:E; [|by intros [= <-]].
  destruct (as_f64 v) as [f|] eqn:Ef; [|done]. destruct (f64_finite f) eqn:Hf; [|done]. intros [= <-]. by exists v, f.
Qed.
Lemma str_is_true v s : str_is v s = true -> v = VString s.
Proof. unfold str_is. destruct v; cbn; try done. by intros ->%str_eqb_true. Qed.
Lemma str_is_self s : str_is (VString s) s = true.
Proof. by apply str_eqb_true. Qed.

Lemma validate_claims_ok claims audience issuers now u :
  validate_claims claims audience issuers now = Ok u -> claims_hold claims audience issuers now.
Proof.
  unfold validate_claims. destruct (find _ _) eqn:Em; [done|]. intros H.
  apply (List.find_none) with (x := lit "iat") in Em as Hi; [|cbn; auto].
  apply (List.find_none) with (x := lit "exp") in Em as He; [|cbn; auto].
  unfold claim_missing in Hi, He. clear Em. steps H. clear H.
  repeat match goal with Ht : claim_time _ _ _ = Ok _ |- _ => apply claim_time_ok in Ht end.
  repeat match goal with Hn : negb _ = false |- _ => apply negb_false_iff in Hn end.
  constructor.
  - destruct (map_get (lit "iss") claims) as [v|]; [|done]. cbn [mbind option_bind when_some] in *.
    destruct v; try done. cbn [as_str when_some] in *. eexists. split; [done|].
    match goal with Hx : existsb _ issuers = true |- _ => apply existsb_elem in Hx as (y & Hy & Ey) end.
    apply str_eqb_true in Ey as ->. done.
  - destruct (map_get (lit "aud") claims) as [[]|]; try done;
      match goal with Hr : Ok _ = Ok _ |- _ => injection Hr as <- end.
    + left. match goal with Hx : existsb (fun a => str_is a audience) _ = true |- _ => cbn in Hx; rewrite orb_false_r in Hx;
        apply str_eqb_true in Hx as -> end. done.
    + right. eexists. split; [done|].
      match goal with Hx : existsb (fun a => str_is a audience) _ = true |- _ => apply existsb_elem in Hx as (y & Hy & Ey%str_is_true) end.
      by subst y.
  - destruct (map_get (lit "sub") claims) as [[]|]; try done. eauto.
  - match goal with Ho : match ?o with _ => _ end, Hw : when_some ?o (fun t => f64_ltb _ t) = false |- _ =>
      lazymatch type of Ho with context [lit "iat"] => destruct o as [t|] end end.
    + exists t. done.
    + exfalso. match goal with Hm : map_get (lit "iat") claims = None |- _ => rewrite Hm in Hi end. done.
  - match goal with Ho : match ?o with _ => _ end, Hw : when_some ?o (fun t => f64_leb t _) = false |- _ => destruct o as [t|] end.
    + exists t. done.
    + exfalso. match goal with Hm : map_get (lit "exp") claims = None |- _ => rewrite Hm in He end. done.
  - match goal with Ho : match ?o with _ => _ end, Hw : when_some ?o (fun t => f64_ltb _ t) = false |- _ =>
      lazymatch type of Ho with context [lit "nbf"] => destruct o as [t|] end end; [right; by exists t|by left].
Qed.

(** ** The broker's tokens *)

Section tokens.
Context `{JsonReadLaws, !Base64, !Base64Laws, !Sha256, !Ring, !RingLaws}.

Definition token_text (h64 p64 s64 : str) : str := signing_input h64 p64 ++ [ch "."] ++ s64.
Lemma token_parts_some token h64 p64 s64 :
  token_parts token = Some (h64, p64, s64) <->
  token = token_text h64 p64 s64 /\ ch "." ∉ h64 /\ ch "." ∉ p64 /\ ch "." ∉ s64.
Proof.
  unfold token_parts. split.
  - intros Ht. pose proof (join_split (ch ".") token) as Hj. pose proof (split_parts (ch ".") token) as Hs.
    destruct (split (ch ".") token) as [|h [|p [|s []]]]; try done. injection Ht as -> -> ->.
    repeat match goal with F : Forall _ (_ :: _) |- _ => inversion_clear F end.
    split; [|done]. rewrite <- Hj. unfold token_text, signing_input. cbn. by rewrite <- app_assoc.
  - intros (-> & Hh & Hp & Hs). unfold token_text, signing_input. rewrite <- !app_assoc. cbn [app].
    by rewrite !split_app, split_solid by done.
Qed.
Lemma b64_dotless b : Forall is_byte b -> ch "." ∉ b64url_encode b.
Proof.
  intros Hb Hin. pose proof (b64_alphabet b Hb) as Ha. rewrite Forall_forall in Ha. by apply Ha in Hin.
Qed.

Lemma claims_read v m : json_valid v -> json_depth v <= RECURSION_LIMIT -> v = VObject m ->
  decode_json (b64url_encode (as_bytes (value_display v))) = Some v /\
  ch "." ∉ b64url_encode (as_bytes (value_display v)).
Proof.
  intros Hv Hd ->. assert (Hb : Forall is_byte (as_bytes (value_display (VObject m)))).
  { by apply as_bytes_is_byte, json_text_valid. }
  split; [|by apply b64_dotless]. unfold decode_json. rewrite b64_roundtrip by done. cbn [mbind option_bind].
  rewrite json_read_back by done. by rewrite (proj2 (Nat.leb_le _ _)).
Qed.

(** *** Minted and accepted *)

Lemma payload_get t subject audience claims now expires jti k : map_sorted claims ->
  map_get k (mint_payload t subject audience claims now expires jti) =
  if str_eqb k (lit "jti") then Some (VString jti)
  else if str_eqb k (lit "exp") then Some (json_int expires)
  else if str_eqb k (lit "nbf") then Some (json_int (sat_i64 (now - 5)))
  else if str_eqb k (lit "iat") then Some (json_int now)
  else if str_eqb k (lit "aud") then Some (VString audience)
  else if str_eqb k (lit "sub") then Some (VString subject)
  else if str_eqb k (lit "iss") then Some (VString (ti_issuer t))
  else map_get k claims.
Proof.
  intros Hs. unfold mint_payload. by rewrite !map_get_insert by (repeat apply map_insert_sorted; done).
Qed.
Lemma as_f64_int z : as_f64 (json_int z) = Some (f64_of_Z z).
Proof. unfold json_int. cbn. destruct (Z.ltb_spec z 0); cbn; [done|]. by rewrite Z2N.id. Qed.
Lemma json_depth_insert k v (m : list (str * Value)) :
  json_depth (VObject (map_insert k v m)) <= Nat.max (S (json_depth v)) (json_depth (VObject m)).
Proof.
  cbn [json_depth]. induction m as [|[x w] m IH]; cbn in *; [lia|]. destruct (str_compare k x); cbn in *; lia.
Qed.

(** Texts a token carries are texts of scalar values. *)
Record token_fits (t : TokenIssuer) (subject audience : str) (claims : list (str * Value)) (jti : str) : Prop := {
  tf_issuer : valid_str (ti_issuer t); tf_kid : valid_str (ti_kid t);
  tf_subject : valid_str subject; tf_audience : valid_str audience; tf_jti : valid_str jti;
  tf_claims : json_valid (VObject claims); tf_depth : json_depth (VObject claims) <= RECURSION_LIMIT;
}.
Lemma payload_valid t subject audience claims now expires jti : token_fits t subject audience claims jti ->
  (- 2 ^ 63 <= now < 2 ^ 63)%Z -> (- 2 ^ 63 <= expires < 2 ^ 63)%Z ->
  json_valid (VObject (mint_payload t subject audience claims now expires jti)) /\
  json_depth (VObject (mint_payload t subject audience claims now expires jti)) <= RECURSION_LIMIT.
Proof.
  intros [Hi Hk Hs Ha Hj Hc Hd] Hn He. apply json_valid_object in Hc as [Hm Hc]. split.
  - apply json_valid_object. unfold mint_payload. split; [by repeat apply map_insert_sorted|].
    repeat apply map_insert_Forall; try done; cbn [fst snd];
      (split; [by apply lit_valid|]); try done; apply json_int_valid; unfold sat_i64; lia.
  - unfold mint_payload.
    repeat (etransitivity; [apply json_depth_insert|apply Nat.max_lub; [unfold RECURSION_LIMIT; cbn; lia|]]). done.
Qed.
Lemma header_ok t : valid_str (ti_kid t) ->
  json_valid (mint_header t) /\ json_depth (mint_header t) <= RECURSION_LIMIT /\
  value_get (mint_header t) (lit "alg") = Some (VString ALGORITHM).
Proof.
  intros Hk. split_and!; [|by apply Nat.leb_le; vm_compute|done].
  unfold mint_header, json_obj. apply json_valid_object. split; [apply map_of_list_sorted|].
  unfold map_of_list. cbn [fold_left fst snd].
  repeat apply map_insert_Forall; try done; cbn [fst snd]; (split; [by apply lit_valid|]); try done; by apply lit_valid.
Qed.

(** The time an integer claim is. *)
Lemma claim_time_int claims k msg z : map_get k claims = Some (json_int z) -> exactly z ->
  claim_time claims k msg = Ok (Some (f64_of_Z z)).
Proof.
  intros E Hz. unfold claim_time. by rewrite E, as_f64_int, f64_finite_of_Z, f64_trunc_exact by done.
Qed.
(** Seconds between the years that dates have. *)
Definition clock (z : Z) : Prop := (- 2 ^ 50 < z < 2 ^ 50)%Z.
Lemma clock_exactly z : clock z -> exactly z /\ exactly (z + 5) /\ exactly (z - 5).
Proof. unfold clock, exactly. lia. Qed.

(** The window a minted token has, as the broker checks it. *)
Definition window (now expires at_ : Z) : result str unit :=
  if Z.ltb (at_ + 5) now then Err (lit "The token is not yet valid (iat)")
  else if Z.leb expires (at_ - 5) then Err (lit "Signature has expired")
  else Ok tt.
Lemma minted_claims t subject audience claims now expires jti at_ :
  map_sorted claims -> clock now -> clock expires -> clock at_ ->
  validate_claims (mint_payload t subject audience claims now expires jti) audience [ti_issuer t] (f64_of_Z at_)
  = window now expires at_.
Proof.
  intros Hm Hn He Ha. set (p := mint_payload _ _ _ _ _ _ _).
  assert (Hget : forall k, map_get k p = _) by (intros k; apply payload_get, Hm).
  destruct (clock_exactly _ Hn) as (Xn & _ & Xn5). destruct (clock_exactly _ He) as (Xe & _ & _).
  destruct (clock_exactly _ Ha) as (Xa & Xa5 & Xa5'). assert (X5 : exactly 5) by (unfold exactly; lia).
  assert (Hs : sat_i64 (now - 5) = (now - 5)%Z) by (unfold sat_i64, clock in *; lia).
  assert (G1 : map_get (lit "jti") p = Some (VString jti)) by (rewrite Hget; lits; done).
  assert (G2 : map_get (lit "exp") p = Some (json_int expires)) by (rewrite Hget; lits; done).
  assert (G3 : map_get (lit "nbf") p = Some (json_int (now - 5))) by (rewrite Hget; lits; by rewrite Hs).
  assert (G4 : map_get (lit "iat") p = Some (json_int now)) by (rewrite Hget; lits; done).
  assert (G5 : map_get (lit "aud") p = Some (VString audience)) by (rewrite Hget; lits; done).
  assert (G6 : map_get (lit "sub") p = Some (VString subject)) by (rewrite Hget; lits; done).
  assert (G7 : map_get (lit "iss") p = Some (VString (ti_issuer t))) by (rewrite Hget; lits; done).
  clearbody p. clear Hget. unfold validate_claims, window.
  assert (Ef : find (claim_missing p) [lit "exp"; lit "iat"; lit "sub"; lit "aud"; lit "iss"] = None).
  { unfold find, claim_missing. by rewrite G2, G4, G6, G5, G7. }
  rewrite Ef. clear Ef.
  assert (L1 : f64_ltb (f64_add (f64_of_Z at_) LEEWAY_SECS) (f64_of_Z now) = Z.ltb (at_ + 5) now).
  { unfold LEEWAY_SECS. by rewrite f64_add_exact, f64_ltb_exact. }
  assert (L2 : f64_ltb (f64_add (f64_of_Z at_) LEEWAY_SECS) (f64_of_Z (now - 5)) = Z.ltb (at_ + 5) (now - 5)).
  { unfold LEEWAY_SECS. by rewrite f64_add_exact, f64_ltb_exact. }
  assert (L3 : f64_leb (f64_of_Z expires) (f64_sub (f64_of_Z at_) LEEWAY_SECS) = Z.leb expires (at_ - 5)).
  { unfold LEEWAY_SECS. by rewrite f64_sub_exact, f64_leb_exact. }
  apply (step_bind _ (Some (f64_of_Z now))); [by apply claim_time_int|]. apply step_check; cbn [when_some]; rewrite L1; intros Ei;
    rewrite Ei; [|done]. apply Z.ltb_ge in Ei.
  apply (step_bind _ (Some (f64_of_Z (now - 5)))); [by apply claim_time_int|].
  apply step_refuse; [cbn [when_some]; rewrite L2; apply Z.ltb_ge; lia|].
  apply (step_bind _ (Some (f64_of_Z expires))); [by apply claim_time_int|]. apply step_check; cbn [when_some]; rewrite L3; intros Ee;
    rewrite Ee; [|done].
  apply step_refuse; [rewrite G7; cbn [mbind option_bind as_str when_some existsb]; by rewrite (proj2 (str_eqb_true _ _) eq_refl)|].
  apply (step_bind _ [VString audience]); [by rewrite G5|]. apply step_refuse; [done|].
  apply step_refuse; [cbn [existsb]; by rewrite str_is_self|]. apply step_refuse; [by rewrite G6|]. by rewrite G1.
Qed.

Lemma low_s_verifies key m sig : Forall is_byte sig -> length sig = 64 -> (sig_s sig < ORDER)%N ->
  p256_verify key m sig = true -> p256_verify key m (to_low_s sig) = true.
Proof.
  intros Hb Hl Hs Hv. destruct (to_low_s_cases sig Hb) as [[-> _]|[_ ->]]; [lia|lia|done|].
  rewrite (drop_ge sig 64), app_nil_r by lia. by apply p256_malleable.
Qed.
Lemma sig_low sig : Forall is_byte sig -> length sig = 64 -> (sig_s sig < ORDER)%N ->
  is_high_s (to_low_s sig) = false /\ Forall is_byte (to_low_s sig) /\ length (to_low_s sig) = 64.
Proof. intros Hb Hl Hs. destruct (to_low_s_low sig Hb) as (? & ? & _ & _ & ?); [lia|lia|]. rewrite <- Hl. done. Qed.

#[local] Opaque mint_header mint_payload token_text validate_claims lit is_high_s MAX_TOKEN_BYTES as_bytes str_len str_is token_parts.
Lemma mint_ok t subject audience ttl claims now jti random token expires :
  mint t subject audience ttl claims now (Some jti) random = Ok (token, expires) ->
  let h64 := b64url_encode (as_bytes (value_display (mint_header t))) in
  let p64 := b64url_encode (as_bytes (value_display (VObject (mint_payload t subject audience claims now expires jti)))) in
  exists sig, p256_sign (ti_pair t) random (as_bytes (signing_input h64 p64)) = Some sig /\
  token = token_text h64 p64 (b64url_encode (to_low_s sig)).
Proof.
  unfold mint. change (ok_or (Some jti) JRandom) with (Ok jti : result JwtError str). cbv beta zeta.
  set (e := sat_i64 _). cbn [mbind result_bind]. intros Hm. apply ok_or_bind in Hm as (sig & Hs & Hm).
  injection Hm as <- <-. exists sig. split; [exact Hs|]. reflexivity.
Qed.
(** A token that decodes and verifies is left to its claims. *)
Lemma token_verify_parts t h64 p64 s64 header claims sig audience now :
  ch "." ∉ h64 -> ch "." ∉ p64 -> ch "." ∉ s64 ->
  (N.of_nat (str_len (token_text h64 p64 s64)) <= MAX_TOKEN_BYTES)%N ->
  decode_json h64 = Some header -> value_get header (lit "alg") = Some (VString ALGORITHM) ->
  b64url_decode s64 = Some sig -> is_high_s sig = false ->
  p256_verify (p256_public (ti_pair t)) (as_bytes (signing_input h64 p64)) sig = true ->
  decode_object p64 = Some claims ->
  token_verify t (token_text h64 p64 s64) audience now
  = (_ ← validate_claims claims audience [ti_issuer t] now; Ok claims).
Proof.
  intros Dh Dp Ds Hlen Rh Gh Rs Hlow Hv Rp. unfold token_verify. etransitivity; [by apply if_below|].
  apply (step_ok_or _ (h64, p64, s64)); [by apply token_parts_some|]. cbv beta iota.
  apply (step_ok_or _ header); [done|]. apply step_refuse; [by rewrite Gh; cbn [when_some]; rewrite str_is_self|].
  apply (step_ok_or _ sig); [done|]. apply step_refuse; [done|]. apply step_refuse; [by rewrite Hv|].
  by apply (step_ok_or _ claims).
Qed.

(** A token the broker mints is accepted for its audience exactly from
    five seconds before it was issued until five seconds after it expires,
    and gives back the claims it was minted with. *)
Theorem minted_verifies t subject audience ttl claims now jti random token expires at_ :
  token_fits t subject audience claims jti -> clock now -> clock expires -> clock at_ ->
  mint t subject audience ttl claims now (Some jti) random = Ok (token, expires) ->
  (N.of_nat (str_len token) <= MAX_TOKEN_BYTES)%N ->
  token_verify t token audience (f64_of_Z at_)
  = (_ ← window now expires at_; Ok (mint_payload t subject audience claims now expires jti)).
Proof.
  intros Hf Hn He Ha (sig & Hg & ->)%mint_ok Hlen.
  destruct (p256_signed _ _ _ _ Hg) as (Hb & Hl & Hs & Hv).
  destruct (sig_low sig Hb Hl Hs) as (Hlow & Hbl & _).
  destruct (header_ok t) as (Vh & Dh & Gh); [apply Hf|].
  destruct (payload_valid t subject audience claims now expires jti Hf) as [Vp Dp]; [unfold clock in *; lia..|].
  destruct (claims_read _ _ Vh Dh eq_refl) as [Rh Th]. destruct (claims_read _ _ Vp Dp eq_refl) as [Rp Tp].
  erewrite token_verify_parts; [|exact Th|exact Tp|exact (b64_dotless _ Hbl)|exact Hlen|exact Rh|exact Gh| |exact Hlow| |].
  - rewrite minted_claims; [done| |done..]. pose proof (tf_claims _ _ _ _ _ Hf) as Hc.
    by apply json_valid_object in Hc as [? _].
  - by apply b64_roundtrip.
  - by apply low_s_verifies.
  - unfold decode_object. by rewrite Rp.
Qed.

(** What a token's acceptance rests on. *)
Record accepted_token (t : TokenIssuer) (token audience : str) (now : f64) (claims : list (str * Value))
  (h64 p64 s64 : str) (sig : bytes) : Prop := {
  at_text : token = token_text h64 p64 s64;
  at_parts : ch "." ∉ h64 /\ ch "." ∉ p64 /\ ch "." ∉ s64;
  at_alg : exists header, decode_json h64 = Some header /\ value_get header (lit "alg") = Some (VString ALGORITHM);
  at_sig : b64url_decode s64 = Some sig;
  at_signed : p256_verify (p256_public (ti_pair t)) (as_bytes (signing_input h64 p64)) sig = true;
  at_low : is_high_s sig = false;
  at_claims : decode_object p64 = Some claims;
  at_hold : claims_hold claims audience [ti_issuer t] now;
}.
Lemma token_verify_ok t token audience now claims : token_verify t token audience now = Ok claims ->
  exists h64 p64 s64 sig, accepted_token t token audience now claims h64 p64 s64 sig.
Proof.
  unfold token_verify. intros Hv. destruct (N.ltb _ _); [done|].
  destruct (token_parts token) as [[[h64 p64] s64]|] eqn:Ep; [|done]. cbn [ok_or mbind result_bind] in Hv.
  apply token_parts_some in Ep as (Et & Hd). steps Hv. injection Hv as <-.
  repeat match goal with Hn : negb _ = false |- _ => apply negb_false_iff in Hn end.
  exists h64, p64, s64, x0. constructor; try done.
  - exists x. split; [done|]. destruct (value_get x (lit "alg")) as [v|]; [|done]. f_equal. apply str_is_true.
    match goal with Hw : when_some (Some v) _ = true |- _ => exact Hw end.
  - by eapply validate_claims_ok.
Qed.

(** C29: a token is accepted only if the broker's key signed its first two
    parts, which name the algorithm and the claims given back, for this
    issuer and audience and within its time; and though the curve accepts
    the signature's twin with the other [s] too, the token spelled with it
    is refused, by everyone and at any time. *)
Theorem token_sound t token audience now claims :
  token_verify t token audience now = Ok claims ->
  exists h64 p64 s64 sig, accepted_token t token audience now claims h64 p64 s64 sig /\
  forall twin_s audience' now', b64url_decode twin_s = Some (take 32 sig ++ be_bytes 32 (ORDER - sig_s sig)) ->
    length sig = 64 -> ch "." ∉ twin_s ->
    is_ok (token_verify t (token_text h64 p64 twin_s) audience' now') = false.
Proof.
  intros (h64 & p64 & s64 & sig & Ha)%token_verify_ok. exists h64, p64, s64, sig. split; [done|].
  intros twin_s audience' now' Et Hl Hdot. destruct Ha as [_ (Dh & Dp & _) _ Es _ Hlow _ _].
  destruct (token_verify t (token_text h64 p64 twin_s) audience' now') as [claims'|] eqn:E; [|done]. exfalso.
  apply token_verify_ok in E as (h & p & s & sig' & [Et' (Dh' & Dp' & Ds') _ Es' _ Hlow' _ _]).
  assert (Some (h64, p64, twin_s) = Some (h, p, s)) as [= <- <- <-].
  { rewrite <- (proj2 (token_parts_some (token_text h64 p64 twin_s) h64 p64 twin_s)) by done.
    by apply token_parts_some. }
  rewrite Es' in Et. injection Et as ->.
  assert (Hb : Forall is_byte sig) by (by eapply b64_bytes). assert (Hb' := b64_bytes _ _ Es').
  rewrite is_high_s_val in Hlow by (done || lia).
  assert (Hlen : length (take 32 sig ++ be_bytes 32 (ORDER - sig_s sig)) = 64).
  { rewrite length_app, length_take, be_bytes_length. lia. }
  rewrite is_high_s_val in Hlow' by (done || lia). apply N.ltb_ge in Hlow, Hlow'.
  revert Hlow'. unfold sig_s at 1. rewrite drop_app_length', take_ge by (rewrite ?be_bytes_length, ?length_take; lia).
  rewrite be_value_bytes. change (256 ^ N.of_nat 32)%N with TWO256. rewrite N.mod_small.
  - assert (ORDER = 2 * (ORDER / 2) + 1)%N as Eo by done. set (half := (ORDER / 2)%N) in *. clearbody half. lia.
  - assert (ORDER < TWO256)%N by done. set (w := TWO256) in *. clearbody w. lia.
Qed.
End tokens.

(** ** A signer that is none, to mint with *)

Definition sample_sig (d m : bytes) : bytes := sha256 (4%N :: d ++ d ++ m) ++ be_bytes 32 (ORDER - 1).
#[export] Instance sample_ring : Ring := {|
  hkdf_sha256 ikm info n := Some (take n (sha256 (ikm ++ info) ++ sha256 (info ++ ikm)));
  P256Pair := bytes;
  p256_key_pair d := Some d;
  p256_public d := (4%N :: d ++ d);
  p256_sign d random m := Some (sample_sig d m);
  p256_verify key m sig := bool_decide (take 32 sig = sha256 (key ++ m));
  RsaPair := bytes;
  rsa_from_der der := Ok der;
  rsa_from_pkcs8 der := Ok der;
  rsa_sign key m := Some (sha256 (key ++ m));
  rsa_verify n e m sig := bool_decide (sig = sha256 (n ++ m));
|}.
#[export] Instance sample_ring_laws : RingLaws.
Proof.
  assert (Hl : forall m, length (sha256 m) = 32) by apply sha256_length.
  constructor.
  - intros d random m sig Hs. apply (inj Some) in Hs as <-.
    assert (Hb : Forall is_byte (sha256 (4%N :: d ++ d ++ m))) by apply be_bytes_bytes.
    split_and!.
    + apply Forall_app. split; [done|apply be_bytes_bytes].
    + unfold sample_sig. by rewrite length_app, Hl, be_bytes_length.
    + unfold sig_s, sample_sig. rewrite drop_app_length', take_ge by (rewrite ?be_bytes_length; done). by vm_compute.
    + apply bool_decide_eq_true. unfold sample_sig. rewrite take_app_length' by done. f_equal. change (p256_public d) with (4%N :: d ++ d).
      by rewrite <- app_comm_cons, <- app_assoc.
  - intros key m sig Hb H64 Hs Hv%bool_decide_eq_true. apply bool_decide_eq_true.
    rewrite take_app_length' by (rewrite length_take; lia). done.
Qed.

Definition sample_okm : bytes := Eval vm_compute in repeat 7%N 32.
Definition sample_issuer : TokenIssuer := mkIssuer sample_okm (lit "https://broker.test") (lit "k1") [].
Definition sample_claims : list (str * Value) := [(lit "grant", VString (lit "g1"))].
Definition sample_mint : result JwtError (str * Z) :=
  mint sample_issuer (lit "apollo") (lit "wiki") 600 sample_claims 1000 (Some (lit "j1")) [].
Definition sample_token : str := Eval vm_compute in match sample_mint with Ok (t, _) => t | Err _ => [] end.
Lemma sample_token_ok :
  mint sample_issuer (lit "apollo") (lit "wiki") 600 sample_claims 1000 (Some (lit "j1")) [] = Ok (sample_token, 1600%Z).
Proof. vm_compute. reflexivity. Qed.
Lemma sample_token_length : N.leb (N.of_nat (str_len sample_token)) MAX_TOKEN_BYTES = true.
Proof. vm_compute. reflexivity. Qed.
Lemma sample_token_fits : token_fits sample_issuer (lit "apollo") (lit "wiki") sample_claims (lit "j1").
Proof.
  constructor; try (by apply lit_valid).
  - apply json_valid_object. split; [by repeat constructor|]. apply Forall_cons_2; [|constructor]. split; by apply lit_valid.
  - apply Nat.leb_le. vm_compute. reflexivity.
Qed.
(** Accepted at 1100, no longer at 1605. *)
Lemma minted_verifies_witness :
  (exists claims, token_verify sample_issuer sample_token (lit "wiki") (f64_of_Z 1100) = Ok claims) /\
  token_verify sample_issuer sample_token (lit "wiki") (f64_of_Z 1605) = Err (lit "Signature has expired").
Proof.
  split.
  - eexists. rewrite (minted_verifies sample_issuer (lit "apollo") (lit "wiki") 600 sample_claims 1000 (lit "j1") [] sample_token 1600 1100 sample_token_fits ltac:(unfold clock; lia) ltac:(unfold clock; lia) ltac:(unfold clock; lia)
      sample_token_ok (proj1 (N.leb_le _ _) sample_token_length)). reflexivity.
  - rewrite (minted_verifies sample_issuer (lit "apollo") (lit "wiki") 600 sample_claims 1000 (lit "j1") [] sample_token 1600 1605 sample_token_fits ltac:(unfold clock; lia) ltac:(unfold clock; lia) ltac:(unfold clock; lia)
      sample_token_ok (proj1 (N.leb_le _ _) sample_token_length)). reflexivity.
Defined.
Definition sample_verified : list (str * Value) :=
  match token_verify sample_issuer sample_token (lit "wiki") (f64_of_Z 1100) with Ok c => c | Err _ => [] end.
Lemma token_sound_witness : exists h64 p64 s64 sig,
  accepted_token sample_issuer sample_token (lit "wiki") (f64_of_Z 1100) sample_verified h64 p64 s64 sig /\
  forall twin_s audience' now', b64url_decode twin_s = Some (take 32 sig ++ be_bytes 32 (ORDER - sig_s sig)) ->
    length sig = 64 -> ch "." ∉ twin_s ->
    is_ok (token_verify sample_issuer (token_text h64 p64 twin_s) audience' now') = false.
Proof. apply token_sound. vm_compute. reflexivity. Defined.
