(* ===== verification/ChannelRuns.v ===== *)
(** A channel between the broker and a daemon under attack: whoever holds
    the peer's key signs hellos and seals on any number of connections; the
    network carries any bytes, in any order, any number of times, and only
    cannot make a signature that was never made. What a verifier accepts is
    what was sealed for its connection, in the order it was sealed, nothing
    twice. *)

From S2P Require Import Prelude Json Pool HostTypes TotpCode F64 Transcript Envelope Hello SampleCrypto.
From stdpp Require Import options.

Section roundtrip.
#[local] Set Default Proof Using "Type*".
Context `{JsonReadLaws, Base64Laws, Ed25519Laws}.

(** A sealed envelope opens, at the other end of its connection, to exactly
    its payload and the six keys of the envelope, when its number is new and
    the clock allows it; otherwise it is refused for that reason and the
    verifier is as it was. *)
Theorem sealed_opens s v payload ttl now id p text s' now' :
  paired_ends s v -> json_valid (VObject payload) -> json_depth (VObject payload) <= RECURSION_LIMIT ->
  valid_str id -> seal s payload ttl now (Some id) = (Ok (p, text), s') ->
  (N.of_nat (length (as_bytes text)) <= MAX_FIELD_BYTES * 2)%N ->
  open_ v (as_bytes text) now' =
  if N.leb (es_seq s') (ev_last v) then (Err Replayed, v)
  else match untimely now' now (f64_add now ttl) with
       | Some e => (Err e, v)
       | None => (Ok (fields_set payload id (es_sender s) (es_audience s) (es_seq s')
                       (Float now) (Float (f64_add now ttl))), opened v (es_seq s'))
       end.
Proof.
  intros [Hk Hse Hau Hss Hsv Hav] Hp Hd Hid (i & [= <-] & -> & Hseq & Hu & Hn & He & -> & Hlen & ->)%seal_ok Hl.
  cbn [es_seq with_seq].
  set (body := fields_set _ _ _ _ _ _ _) in *. set (p := as_bytes _) in *.
  assert (Hb : json_valid (VObject body)) by (by apply fields_set_valid).
  assert (Hpb : Forall is_byte p) by (by apply as_bytes_is_byte, json_text_valid).
  unfold open_. change (value_display (json_obj _)) with (frame p (sign (es_key s) (message (es_session s) p))) in *.
  rewrite read_frame_ok by (done || apply ed_sign_bytes).
  rewrite (proj2 (N.ltb_ge _ _)) by done.
  rewrite Hk, Hss. unfold key_verify, public_key, sign at 1. rewrite ed_sign_verifies. cbn [orb negb].
  assert (Hs : map_sorted payload) by (by apply json_valid_object in Hp as [? _]).
  assert (Hpf : parse_fields body =
  Some (mkBodyFields (Some (es_sender s)) (Some (es_audience s)) (es_seq s + 1) now (f64_add now ttl)))
  by (by unfold body; rewrite parse_fields_set).
  unfold p at 1. rewrite json_read_back by done.
  replace (json_depth (VObject body)) with (json_depth (VObject payload))
  by (unfold body; by rewrite fields_set_depth).
  rewrite (proj2 (Nat.leb_le _ _)) by done. unfold check_body. rewrite Hpf.
  cbn [ok_or mbind result_bind bf_iss bf_aud bf_seq bf_iat bf_exp Number_as_f64].
  rewrite Hse, Hau, !bool_decide_true by done. cbn [andb negb].
  unfold untimely.
  by repeat match goal with |- context [if ?b then _ else _] => destruct b end.
Qed.
End roundtrip.

Section runs.
#[local] Set Default Proof Using "Type*".
Context `{JsonReadLaws, Base64Laws, Ed25519Laws, Sha256Laws}.
(** The peer's key, and the other side's verifier when its hello verified. *)
Variable key : SigningKey.
Variable receiver : EnvelopeVerifier.

Abbreviation body := (list (str * Value)).

(** The peer's sealers by session, the hellos it signed, the bodies it
    sealed with their session, in order; the receiver's verifier and the
    bodies it accepted. *)
Record World := mkWorld {
  w_sealers : gmap bytes EnvelopeSealer;
  w_hellos : list (Handshake * Speaker * str);
  w_sent : list (bytes * body);
  w_verifier : EnvelopeVerifier;
  w_accepted : list body;
}.
Definition start : World := mkWorld ∅ [] [] receiver [].

Definition body_bytes (b : body) : bytes := as_bytes (value_display (VObject b)).

(** The byte strings the peer's key has signed. *)
Definition signed (w : World) (m : bytes) : Prop :=
  (exists h sp params, (h, sp, params) ∈ w_hellos w /\ m = hello_transcript h sp params) \/
  (exists session b, (session, b) ∈ w_sent w /\ m = message session (body_bytes b)).

(** The network cannot forge: a signature that verifies is of something the
    peer signed. *)
Definition unforged (w : World) (raw : bytes) : Prop :=
  forall p s, read_frame raw = Ok (p, s) ->
  key_verify (public_key key) (message (ev_session (w_verifier w)) p) s = true ->
  signed w (message (ev_session (w_verifier w)) p).

Definition sealed_body (s : EnvelopeSealer) (payload : body) (ttl now : f64) (id : str) : body :=
  fields_set payload id (es_sender s) (es_audience s) (es_seq s + 1) (Float now) (Float (f64_add now ttl)).

Inductive channel_step (w : World) : World -> Prop :=
| signs_hello h sp params sig :
  valid_handshake h -> valid_str params -> hello_sign h key sp params = Ok sig ->
  channel_step w (mkWorld (w_sealers w) ((h, sp, params) :: w_hellos w) (w_sent w)
    (w_verifier w) (w_accepted w))
(** A verified hello makes the sealer of a new session: its own nonce is
    fresh. *)
| opens_channel vh s v :
  valid_id (hs_id (vh_handshake vh)) -> into_channel vh key = (s, v) -> w_sealers w !! es_session s = None ->
  channel_step w (mkWorld (<[es_session s := s]> (w_sealers w)) (w_hellos w) (w_sent w)
    (w_verifier w) (w_accepted w))
| seals session s payload ttl now id r s' :
  w_sealers w !! session = Some s -> json_valid (VObject payload) -> valid_str id ->
  seal s payload ttl now (Some id) = (Ok r, s') ->
  channel_step w (mkWorld (<[session := s']> (w_sealers w)) (w_hellos w)
    (w_sent w ++ [(session, sealed_body s payload ttl now id)]) (w_verifier w) (w_accepted w))
| receives raw now b v' :
  unforged w raw -> open_ (w_verifier w) raw now = (Ok b, v') ->
  channel_step w (mkWorld (w_sealers w) (w_hellos w) (w_sent w) v' (w_accepted w ++ [b]))
| refuses raw now e v' :
  unforged w raw -> open_ (w_verifier w) raw now = (Err e, v') ->
  channel_step w (mkWorld (w_sealers w) (w_hellos w) (w_sent w) v' (w_accepted w)).

Inductive channel_runs : World -> Prop :=
| runs_start : channel_runs start
| runs_step w w' : channel_runs w -> channel_step w w' -> channel_runs w'.

(** What was sealed for a session. *)
Definition sealed_on (session : bytes) (w : World) : list body :=
  map snd (List.filter (fun e => bool_decide (e.1 = session)) (w_sent w)).

(** ** The invariant *)

Record sent_ok (e : bytes * body) : Prop := {
  so_valid : json_valid (VObject e.2);
  so_fits : part_fits (body_bytes e.2);
  so_session : part_fits e.1;
}.
Definition numbered (i : nat) (b : body) : Prop :=
  exists f, parse_fields b = Some f /\ bf_seq f = N.of_nat (S i).

Record world_ok (w : World) : Prop := {
  ok_hellos : Forall (fun e => valid_handshake e.1.1 /\ valid_str e.2 /\ too_long e.2 = false) (w_hellos w);
  ok_sent : Forall sent_ok (w_sent w);
  ok_sealers session s : w_sealers w !! session = Some s ->
  es_key s = key /\ es_session s = session /\ part_fits session /\
  valid_str (es_sender s) /\ valid_str (es_audience s) /\
  es_seq s = N.of_nat (length (sealed_on session w));
  ok_unopened session : w_sealers w !! session = None -> sealed_on session w = [];
  ok_numbered session i b : sealed_on session w !! i = Some b -> numbered i b;
  ok_peer : ev_peer (w_verifier w) = public_key key;
  ok_session : ev_session (w_verifier w) = ev_session receiver;
  ok_last : N.to_nat (ev_last (w_verifier w)) <= length (sealed_on (ev_session receiver) w);
  ok_accepted : sublist (w_accepted w)
  (take (N.to_nat (ev_last (w_verifier w))) (sealed_on (ev_session receiver) w));
}.

Lemma field_fits : (MAX_FIELD_BYTES <= MAX_U32)%N.
Proof. by vm_compute. Qed.
Lemma message_hello session p h sp params :
  part_fits session -> part_fits p -> valid_handshake h -> too_long params = false ->
  message session p <> hello_transcript h sp params.
Proof.
  intros Hs Hp Hh Ht E. apply transcript_inj in E; [done| |by apply hello_fits].
  by repeat apply Forall_cons_2.
Qed.
Lemma message_inj session p session' p' :
  part_fits session -> part_fits p -> part_fits session' -> part_fits p' ->
  message session p = message session' p' -> session = session' /\ p = p'.
Proof.
  intros ? ? ? ? E. apply transcript_inj in E; [by injection E|by repeat apply Forall_cons_2..].
Qed.

Lemma sealed_on_app session w sealers hellos e v acc :
  sealed_on session (mkWorld sealers hellos (w_sent w ++ [e]) v acc)
  = sealed_on session w ++ (if bool_decide (e.1 = session) then [e.2] else []).
Proof.
  unfold sealed_on. cbn. rewrite List.filter_app, map_app. cbn. by case_bool_decide.
Qed.

(** An accepted body is one that was sealed, at the place its number says. *)
Lemma accepted_was_sealed w raw now b v' :
  world_ok w -> part_fits (ev_session receiver) -> unforged w raw -> open_ (w_verifier w) raw now = (Ok b, v') ->
  exists i, sealed_on (ev_session receiver) w !! i = Some b /\ v' = opened (w_verifier w) (N.of_nat (S i)) /\
  N.to_nat (ev_last (w_verifier w)) <= i.
Proof.
  intros Hw Hfit Hun Ho. apply open_ok in Ho as (p & s & seq & Hf & Hver & Hj & Hc & -> & Hlen).
  specialize (Hun p s Hf). rewrite (ok_session _ Hw) in *. rewrite (ok_peer _ Hw) in Hver. specialize (Hun Hver).
  assert (Hp : part_fits p) by exact (N.le_trans _ _ _ Hlen field_fits).
  destruct Hun as [(h & sp & params & Hin & Heq)|(session & b' & Hin & Heq)].
  { apply (proj1 (Forall_forall _ _) (ok_hellos _ Hw)) in Hin as (? & _ & ?); cbn [fst snd] in *.
  by apply message_hello in Heq. }
  pose proof (proj1 (Forall_forall _ _) (ok_sent _ Hw) _ Hin) as [Hv Hb Hs]; cbn [fst snd] in *.
  apply message_inj in Heq as [Heq ->]; [|done..]. subst session.
  unfold body_bytes in Hj. rewrite json_read_back in Hj by done. case_match; [|done]. injection Hj as ->.
  assert (Hm : b ∈ sealed_on (ev_session receiver) w).
  { unfold sealed_on. apply list_elem_of_fmap. exists (ev_session receiver, b). split; [done|].
  apply list_elem_of_In, filter_In. split; [by apply list_elem_of_In|]. by apply bool_decide_eq_true. }
  apply list_elem_of_lookup_1 in Hm as [i Hi]. pose proof (ok_numbered _ Hw _ _ _ Hi) as (f & Hpf & Hfs).
  apply check_body_ok in Hc as (f' & Hpf' & <- & _ & _ & Hlt). rewrite Hpf in Hpf'. injection Hpf' as <-.
  exists i. rewrite Hfs in *. split_and!; [done|done|lia].
Qed.

Lemma session_fits h : part_fits (session_id h).
Proof. apply fits_short. unfold session_id. rewrite sha256_length. lia. Qed.

Lemma sublist_take_snoc {A} (acc l : list A) n i b :
  sublist acc (take n l) -> n <= i -> l !! i = Some b -> sublist (acc ++ [b]) (take (S i) l).
Proof.
  intros Hs Hn Hi. rewrite (take_S_r _ _ b) by done. apply sublist_app; [|done].
  etransitivity; [exact Hs|]. replace (take n l) with (take n (take i l)); [apply sublist_take|].
  rewrite take_take. f_equal. lia.
Qed.

Lemma sealed_on_seals session session' s s' payload ttl now id w hellos v acc :
  sealed_on session (mkWorld (<[session' := s']> (w_sealers w)) hellos
  (w_sent w ++ [(session', sealed_body s payload ttl now id)]) v acc)
  = sealed_on session w ++ (if bool_decide (session' = session) then [sealed_body s payload ttl now id] else []).
Proof. apply sealed_on_app. Qed.

Lemma seal_sent_ok s payload ttl now id r s' :
  json_valid (VObject payload) -> valid_str id -> valid_str (es_sender s) -> valid_str (es_audience s) ->
  part_fits (es_session s) -> seal s payload ttl now (Some id) = (Ok r, s') ->
  sent_ok (es_session s, sealed_body s payload ttl now id) /\ s' = with_seq s (es_seq s + 1) /\
  exists f, parse_fields (sealed_body s payload ttl now id) = Some f /\ bf_seq f = (es_seq s + 1)%N.
Proof.
  intros Hp Hid Hse Hau Hss Hs. destruct r as [p text].
  apply seal_ok in Hs as (i & [= <-] & -> & Hseq & _ & Hn & He & Hpb & Hl & _).
  split_and!; [|done|].
  - constructor; cbn; [by apply fields_set_valid| |done]. unfold part_fits, body_bytes, sealed_body.
  rewrite <- Hpb. etransitivity; [exact Hl|apply field_fits].
  - eexists. split; [apply parse_fields_set; try done; by apply json_valid_object in Hp as [? _]|done].
Qed.

Lemma step_ok w w' : part_fits (ev_session receiver) -> world_ok w -> channel_step w w' -> world_ok w'.
Proof.
  intros Hfit Hw Hstep. pose proof Hw as [? ? ? ? ? ? ? ? ?].
  destruct Hstep as [h sp params sig Hh Hv Hs|vh s v Hid Hc Hnone|session s payload ttl now id r s' Hs Hp Hid Hr
  |raw now b v' Hun Ho|raw now e v' Hun Ho].
  - constructor; try done. constructor; [|done]. split_and!; [done..|]. unfold hello_sign in Hs. by case_match.
  - constructor; try done; cbn [w_sent w_verifier w_sealers w_hellos w_accepted].
  + intros session s' [[<- <-]|[? ?]]%lookup_insert_Some; [|eauto].
    unfold into_channel in Hc. destruct (ends_of vh) as [ours theirs] eqn:E. injection Hc as <- <-.
    assert (Hpr : valid_str (principal (hs_id (vh_handshake vh)))).
    { apply ascii_valid. unfold principal. apply Forall_app; split; [by destruct (ci_role _); repeat constructor|].
      apply Forall_app; split; [by repeat constructor|]. by apply ChannelName_ascii. }
    assert (Hbr : valid_str BROKER) by by repeat constructor.
    unfold ends_of in E. split_and!; try done.
    * apply session_fits.
    * by destruct (vh_speaker vh); injection E as <- <-.
    * by destruct (vh_speaker vh); injection E as <- <-.
    * by rewrite (ok_unopened0 _ Hnone : sealed_on _ (mkWorld _ _ (w_sent w) _ _) = []).
  + intros session [? ?]%lookup_insert_None. by apply ok_unopened0.
  - destruct (ok_sealers0 _ _ Hs) as (Hk & Hss & Hfs & Hse & Hau & Hsq). subst session.
  destruct (seal_sent_ok _ _ _ _ _ _ _ Hp Hid Hse Hau Hfs Hr) as (Hso & -> & f & Hpf & Hfseq).
  constructor; try done; cbn [w_sent w_verifier w_sealers w_hellos w_accepted].
  + apply Forall_app. split; [done|]. by constructor.
  + intros session' s'. rewrite sealed_on_seals. intros [[<- <-]|[Hne Hs']]%lookup_insert_Some.
    * rewrite bool_decide_true by done. cbn. rewrite length_app, Hsq. cbn. split_and!; try done. lia.
    * rewrite bool_decide_false, app_nil_r by done. eauto.
  + intros session' [? ?]%lookup_insert_None. rewrite sealed_on_seals, bool_decide_false, app_nil_r by done.
    by apply ok_unopened0.
  + intros session' i b. rewrite sealed_on_seals.
    intros [Hi|[Hlen Hi]]%lookup_app_Some; [eauto|]. case_bool_decide as Hb; [|done]. subst session'.
    apply list_lookup_singleton_Some in Hi as [Hi <-]. exists f. split; [done|]. rewrite Hfseq, Hsq. lia.
  + rewrite sealed_on_seals, length_app. lia.
  + rewrite sealed_on_seals, take_app_le by done. done.
  - destruct (accepted_was_sealed _ _ _ _ _ Hw Hfit Hun Ho) as (i & Hi & -> & Hlast).
  constructor; try done; cbn [w_verifier w_accepted opened ev_last ev_session].
  + rewrite Nat2N.id. change (sealed_on _ _) with (sealed_on (ev_session receiver) w).
    by apply lookup_lt_Some in Hi.
  + rewrite Nat2N.id. change (sealed_on _ (mkWorld _ _ _ _ _)) with (sealed_on (ev_session receiver) w).
    by eapply sublist_take_snoc.
  - apply open_err in Ho as ->. by destruct w.
Qed.

(** The receiver's verifier came of a hello that verified under the peer's
    key. *)
Definition verified_receiver : Prop :=
  exists h speaker own, (into_channel (mkVerified h (public_key key) speaker) own).2 = receiver.
Lemma receiver_fresh : verified_receiver ->
  ev_peer receiver = public_key key /\ ev_last receiver = 0%N /\ part_fits (ev_session receiver).
Proof.
  intros (h & [] & own & <-); (split_and!; [done..|apply session_fits]).
Qed.

Lemma runs_ok w :
  verified_receiver ->
  channel_runs w -> world_ok w.
Proof.
  intros (Hpeer & Hlast & Hfit)%receiver_fresh Hr. induction Hr as [|w w' _ IH Hs]; [|by eapply step_ok].
  constructor; cbn; try done; try constructor.
  - lia.
  - rewrite Hlast. constructor.
Qed.

(** C8: over any run of the network, what one side of a connection accepts from
    the other is a subsequence of what the other sealed for that connection:
    nothing is altered, added, taken from another connection, reordered, or
    accepted twice. *)
Theorem channel_delivers_in_order w :
  verified_receiver ->
  channel_runs w -> sublist (w_accepted w) (sealed_on (ev_session receiver) w).
Proof.
  intros Hrec Hr. pose proof (runs_ok _ Hrec Hr) as Hw.
  etransitivity; [apply (ok_accepted _ Hw)|]. apply sublist_take.
Qed.

(** C21: a hello that verifies under the peer's key was signed by the peer: as
    the same speaker, for the same identity and both nonces, over the same
    parameters; a signature it made for another connection, for the other
    direction or for an envelope does not serve. *)
Theorem hello_agreement w h speaker params sig vh :
  verified_receiver ->
  channel_runs w -> valid_handshake h -> valid_str params ->
  (forall s, key_verify (public_key key) (hello_transcript h speaker params) s = true ->
  signed w (hello_transcript h speaker params)) ->
  hello_verify h (public_key key) speaker params sig = Ok vh ->
  (h, speaker, params) ∈ w_hellos w /\ vh = mkVerified h (public_key key) speaker.
Proof.
  intros Hrec Hr Hh Hp Hun. pose proof (runs_ok _ Hrec Hr) as Hw.
  unfold hello_verify. destruct (too_long params) eqn:Ht; [done|].
  destruct (b64url_decode sig) as [s|]; cbn [ok_or mbind result_bind]; [|done].
  destruct (key_verify _ _ s) eqn:Ev; cbn [negb]; [|done]. intros [= <-]. split; [|done].
  destruct (Hun s Ev) as [(h' & sp' & params' & Hin & Heq)|(session & b & Hin & Heq)].
  - pose proof (proj1 (Forall_forall _ _) (ok_hellos _ Hw) _ Hin) as (? & ? & ?); cbn [fst snd] in *.
  by apply hello_transcript_inj in Heq as (-> & -> & ->).
  - pose proof (proj1 (Forall_forall _ _) (ok_sent _ Hw) _ Hin) as [_ Hb Hs]; cbn [fst snd] in *.
  symmetry in Heq. by apply message_hello in Heq.
Qed.
End runs.

(** ** Witnesses *)

Lemma Ok_pair {E A B} (a a' : A) (b b' : B) : Ok (E := E) (a, b) = Ok (a', b') -> a = a' /\ b = b'.
Proof. by intros [= -> ->]. Qed.

Lemma sealed_opens_witness : exists p text s' b,
  seal sample_sealer sample_payload sample_ttl sample_now (Some (lit "0a")) = (Ok (p, text), s') /\
  open_ sample_verifier (as_bytes text) sample_now = (Ok b, opened sample_verifier (es_seq s')).
Proof.
  do 4 eexists. split; [exact sample_first_ok|].
  pose proof (sealed_opens sample_sealer sample_verifier sample_payload sample_ttl sample_now (lit "0a") _ _ _
    sample_now sample_ends sample_payload_valid sample_depth (proj1 sample_ids) sample_first_ok
    (proj1 (N.leb_le _ _) (proj1 sample_lengths))) as Ho.
  rewrite sample_timely, (proj1 sample_seqs) in Ho. rewrite (proj1 sample_seqs). exact Ho.
Defined.

(** The first message sealed, then the second; the second arrives. *)
Definition sample_body (s : EnvelopeSealer) (id : str) : list (str * Value) :=
  sealed_body s sample_payload sample_ttl sample_now id.
Lemma sample_runs : exists w, channel_runs sample_broker_key sample_verifier w /\
  w_hellos w = [(sample_handshake, SBroker, lit "{}")] /\
  w_accepted w = [sample_body sample_first.2 (lit "0b")].
Proof.
  eexists. split.
  { eapply runs_step; [eapply runs_step; [eapply runs_step; [eapply runs_step; [eapply runs_step;
    [apply runs_start|]|]|]|]|].
  - eapply (signs_hello _ _ sample_handshake SBroker (lit "{}"));
      [exact sample_handshake_valid|by repeat constructor|vm_compute; reflexivity].
  - eapply (opens_channel _ _ sample_at_broker); [exact sample_id_valid|apply surjective_pairing|reflexivity].
  - eapply (seals _ _ (es_session sample_sealer) sample_sealer sample_payload sample_ttl sample_now (lit "0a")
      ((sealed_text sample_first).1, (sealed_text sample_first).2) sample_first.2);
      [apply lookup_insert_eq|exact sample_payload_valid|apply sample_ids|exact sample_first_ok].
  - eapply (seals _ _ (es_session sample_sealer) sample_first.2 sample_payload sample_ttl sample_now (lit "0b")
      ((sealed_text sample_second).1, (sealed_text sample_second).2) sample_second.2);
      [apply lookup_insert_eq|exact sample_payload_valid|apply sample_ids|exact sample_second_ok].
  - eapply (receives _ _ (as_bytes (sealed_text sample_second).2) sample_now (sample_body sample_first.2 (lit "0b"))).
    + intros p s Hf _. right. exists (es_session sample_sealer), (sample_body sample_first.2 (lit "0b")).
      split; [right; left|].
      pose proof (seal_frame _ _ _ _ _ _ _ _ sample_second_ok) as Ht.
      pose proof (seal_bytes _ _ _ _ _ _ _ _ sample_second_ok) as Hp.
      rewrite Ht in Hf. rewrite read_frame_ok in Hf.
      * apply Ok_pair in Hf as [<- _]. rewrite Hp. reflexivity.
      * rewrite Hp. apply as_bytes_is_byte, ascii_valid, sample_text_ascii.
      * apply ed_sign_bytes.
      * rewrite <- Ht. apply N.leb_le, sample_lengths.
    + pose proof (sealed_opens sample_first.2 sample_verifier sample_payload sample_ttl sample_now (lit "0b") _ _ _
        sample_now sample_ends_again sample_payload_valid sample_depth (proj2 sample_ids) sample_second_ok
        (proj1 (N.leb_le _ _) (proj2 sample_lengths))) as Ho.
      rewrite sample_timely, (proj2 sample_seqs) in Ho. unfold sample_body, sealed_body.
      rewrite (proj1 sample_seqs). exact Ho. }
  split; reflexivity.
Qed.

Lemma sample_receiver : verified_receiver sample_broker_key sample_verifier.
Proof. exists sample_handshake, SBroker, sample_daemon_key. reflexivity. Qed.

Lemma channel_delivers_in_order_witness : exists w,
  channel_runs sample_broker_key sample_verifier w /\ w_accepted w <> [] /\
  sublist (w_accepted w) (sealed_on (ev_session sample_verifier) w).
Proof.
  destruct sample_runs as (w & Hr & _ & Ha). exists w. split; [exact Hr|]. split; [rewrite Ha; discriminate|].
  exact (channel_delivers_in_order sample_broker_key sample_verifier w sample_receiver Hr).
Defined.

Lemma hello_agreement_witness : exists w sig vh,
  hello_verify sample_handshake (public_key sample_broker_key) SBroker (lit "{}") sig = Ok vh /\
  (sample_handshake, SBroker, lit "{}") ∈ w_hellos w /\
  vh = mkVerified sample_handshake (public_key sample_broker_key) SBroker.
Proof.
  destruct sample_runs as (w & Hr & Hh & _). exists w.
  exists (b64url_encode (sign sample_broker_key (hello_transcript sample_handshake SBroker (lit "{}")))).
  exists (mkVerified sample_handshake (public_key sample_broker_key) SBroker).
  assert (Hv : hello_verify sample_handshake (public_key sample_broker_key) SBroker (lit "{}")
    (b64url_encode (sign sample_broker_key (hello_transcript sample_handshake SBroker (lit "{}"))))
    = Ok (mkVerified sample_handshake (public_key sample_broker_key) SBroker)) by (vm_compute; reflexivity).
  assert (Hp : valid_str (lit "{}")) by by repeat constructor.
  split; [exact Hv|].
  refine (hello_agreement sample_broker_key sample_verifier w _ _ _ _ _ sample_receiver Hr sample_handshake_valid
    Hp _ Hv).
  intros s _. left. exists sample_handshake, SBroker, (lit "{}"). rewrite Hh. split; [left|reflexivity].
Defined.
