(* ===== verification/Admission.v ===== *)
(** The host daemon's admission core ([crates/core/src/hostd/admission.rs]):
    the re-validation of a broker's spec, the host's own approvals, arming
    and the decision; then what a job, a prompt or a shell needs. Times are
    milliseconds, approvals a finite map from job ids. *)

From stdpp Require Import gmap.
From S2P Require Import Prelude Json Glob Pyfmt Lifecycle Names Durations Pool Mail Authority Hostexec HostTypes Totp.
From stdpp Require Import options.

Definition AUTHZ_TTL_SECS : N := 300.

(** ** Tier and spec *)

Record Evidence := mkEvidence { ev_source : option Source; ev_window : bool }.

(** *** Argv patterns of a policy *)

Definition has_dotdot (arg : str) : bool := existsb (str_eqb (lit "..")) (split (ch "/") arg).

Definition segments_match (glob arg : str) : bool :=
  if negb (elem_b (ch "/") glob) then fnmatch arg glob
  else
    let globs := split (ch "/") glob in
    let args := split (ch "/") arg in
    Nat.eqb (length globs) (length args)
    && forallb (fun ga : str * str => fnmatch ga.2 ga.1) (zip globs args).

Definition shape_matches (pattern argv : list str) (one : str -> str -> bool) : bool :=
  let rest := bool_decide (last pattern = Some (lit "**")) in
  let fixed := if rest then take (length pattern - 1) pattern else pattern in
  if Nat.ltb (length argv) (length fixed)
     || (negb rest && negb (Nat.eqb (length argv) (length fixed)))
  then false
  else forallb (fun ga : str * str => one ga.1 ga.2) (zip fixed argv).

Definition auto_matches (pattern argv : list str) : bool :=
  if existsb has_dotdot argv then false else shape_matches pattern argv segments_match.

Definition deny_matches (pattern argv : list str) : bool :=
  if match_argv pattern argv true then true
  else
    let normalized :=
      map (fun a => if elem_b (ch "/") a then posix_normpath a else a) argv in
    match_argv pattern normalized true.

Section host.
Context `{RegexLib, JsonText}.

Definition tier_enabled (policy : HostPolicy) (tier : Tier) : result Refused Tier :=
  if enable (tier_policy policy tier) then Ok tier
  else Err (lit "the " ++ Tier_as_str tier ++ lit " tier is not enabled on " ++ host_name policy).

Definition check_tier (policy : HostPolicy) (tier : option Value) : result Refused Tier :=
  t ← ok_or (v ← tier; s ← as_str v; Tier_parse s) (lit "tier must be user or root");
  tier_enabled policy t.

Definition locked_refusal (policy : HostPolicy) : Refused :=
  host_name policy ++ lit " is locked down".

(** *** A spec resolved to what would run *)

Record Normalized := mkNormalized {
  n_spec : CommandSpec;
  n_argv : list str;
  n_cwd : option str;
  n_env : list (str * str);
  n_stdin : option str;
}.

Definition n_tier (n : Normalized) : Tier := s_tier (n_spec n).
Definition is_run (n : Normalized) : bool :=
  match s_command (n_spec n) with CRun _ => true | CTemplate _ _ => false end.

(** [<N chars>]. *)
Definition chars_of (text : str) : Value :=
  VString (lit "<" ++ show_N (N.of_nat (length text)) ++ lit " chars>").

Definition loggable (spec : Value) (argv : option (list str)) : Value :=
  match spec with
  | VObject map =>
    let out := match map_get (lit "stdin") map with
               | Some (VString stdin) => map_insert (lit "stdin") (chars_of stdin) map
               | _ => map
               end in
    VObject (match argv with
             | Some argv => map_insert (lit "argv") (json_strs argv) out
             | None => out
             end)
  | _ => VNull
  end.

Definition n_loggable (n : Normalized) : Value :=
  match loggable (CommandSpec_to_json (n_spec n)) (Some (n_argv n)) with
  | VObject m =>
    let m := map_insert (lit "cwd") (json_opt_str (n_cwd n)) m in
    let m := map_insert (lit "env") (json_str_object (n_env n)) m in
    VObject (match n_stdin n with
             | Some stdin => map_insert (lit "stdin") (chars_of stdin) m
             | None => m
             end)
  | v => v
  end.

Definition runnable_kind (kind : option str) : bool :=
  match kind with
  | Some k => str_eqb k (lit "run") || str_eqb k (lit "tpl")
  | None => false
  end.

(** The command of a spec, expanded from this host's own template. *)
Definition resolve (policy : HostPolicy) (spec : CommandSpec) (shell_command : bool)
  : result Refused (list str * (option str * (list (str * str) * option str))) :=
  match s_command spec with
  | CRun argv => Ok (argv, (s_cwd spec, (s_env spec, s_stdin spec)))
  | CTemplate template params =>
    if shell_command then Err (lit "templates don't run inside a shell")
    else
      let name := repr template in
      match map_get template (host_templates policy) with
      | None => Err (lit "no template " ++ name ++ lit " on " ++ host_name policy)
      | Some t =>
          if negb (bool_decide (t_tier t = s_tier spec)) then
            Err (lit "template " ++ name ++ lit " is a " ++ Tier_as_str (t_tier t)
                 ++ lit "-tier template")
          else if negb (is_none (s_cwd spec)) then
            Err (lit "template " ++ name ++ lit " takes no cwd")
          else if negb (bool_decide (s_env spec = [])) then
            Err (lit "template " ++ name ++ lit " takes no environment")
          else if negb (is_none (s_stdin spec)) then
            Err (lit "template " ++ name ++ lit " takes no stdin")
          else
            argv ← expand t params;
            Ok (argv, (t_cwd t, (t_env t, t_stdin t)))
      end
  end.

Definition normalize (policy : HostPolicy) (raw : Value) (shell_command : bool)
  : result Refused Normalized :=
  match raw with
  | VObject map =>
    if negb (bool_decide ((v ← map_get (lit "host") map; as_str v) = Some (host_name policy))) then
      Err (lit "that job is for " ++ repr_value (map_get (lit "host") map) ++ lit ", this is "
           ++ host_name policy)
    else if negb (runnable_kind (v ← map_get (lit "kind") map; as_str v)) then
      Err (lit "not a runnable job")
    else
      job ← JobSpec_from_json raw (default_timeout_secs policy);
      match job with
      | JShell _ => Err (lit "not a runnable job")
      | JCommand spec =>
          '(argv, (cwd, (env, stdin))) ← resolve policy spec shell_command;
          tier_enabled policy (s_tier spec);;
          if N.ltb (max_timeout_secs policy) (s_timeout spec) then
            Err (lit "timeout exceeds this host's maximum (" ++ show_N (max_timeout_secs policy)
                 ++ lit "s)")
          else
            let extra := List.filter (fun k => negb (set_contains k (env_allow policy)))
                           (map_keys (s_env spec)) in
            if negb (bool_decide (extra = [])) then
              Err (lit "environment variables not allowed on this host: " ++ join (lit ", ") extra)
            else if existsb (fun p => deny_matches p argv) (deny_commands policy) then
              Err (lit "that command is denied by this host's policy")
            else Ok (mkNormalized spec argv cwd env stdin)
      end
  | _ => Err (lit "malformed job")
  end.

(** ** What every decision reads *)

(** How long each tier is armed, in memory only. *)
Record ArmState := mkArm { arm_user : UnixMillis; arm_root : UnixMillis }.
Definition ArmState_default : ArmState := mkArm 0 0.

Record HostView := mkView {
  hv_policy : HostPolicy;
  hv_arm : ArmState;
  hv_lock : LockState;
  hv_now : UnixMillis;
}.

(** ** The host's approvals *)

Inductive ApprovalVia := AvTotp | AvTotpShell | AvDesk | AvDeskShell.

Record TotpApproval := mkTotpApproval { ta_tier : Tier; ta_digest : str; ta_purpose : Purpose }.

Definition TotpApproval_new (code : AcceptedCode) (digest : str) : result Refused TotpApproval :=
  let name := code_name code in
  if negb (bool_decide (sn_purpose name = PurposeDirect)) then
  Err (SecretName_as_str name ++ lit " is not a direct approval code")
  else Ok (mkTotpApproval (sn_tier name) digest PurposeDirect).

Definition TotpApproval_for_shell (code : AcceptedCode) (digest : str)
  : result Refused TotpApproval :=
  let name := code_name code in
  match sn_purpose name with
  | PurposeShell | PurposeArm => Ok (mkTotpApproval (sn_tier name) digest PurposeShell)
  | _ => Err (SecretName_as_str name ++ lit " doesn't open a shell")
  end.

Definition covers (a : TotpApproval) (tier : Tier) (digest : str) : bool :=
  bool_decide (ta_tier a = tier) && str_eqb (ta_digest a) digest.

Record DeskApproval := mkDeskApproval { da_tier : Tier; da_digest : str; da_shell : bool }.

Record DeskPrompt := mkDeskPrompt {
  dp_job : str;
  dp_digest : str;
  dp_tier : Tier;
  dp_message : str;
  dp_shell : bool;
}.

Definition needs_polkit (p : DeskPrompt) : bool :=
  bool_decide (dp_tier p = Root) || dp_shell p.

Definition desk_prompt (host : HostView) (job raw_digest : str) (normalized : Normalized)
  (message : str) : result Refused DeskPrompt :=
  let policy := hv_policy host in
  if is_locked (hv_lock host) then Err (locked_refusal policy)
  else
  let tier := n_tier normalized in
  if negb (desk_approves policy tier) then
    Err (lit "this desk doesn't approve " ++ Tier_as_str tier ++ lit " commands")
  else Ok (mkDeskPrompt job raw_digest tier message false).

(** The two checks a shell request meets everywhere. *)
Definition shells_not_enabled (policy : HostPolicy) (tier : Tier) : Refused :=
  Tier_as_str tier ++ lit " shells are not enabled on " ++ host_name policy.
Definition shell_too_long (policy : HostPolicy) (tier : Tier) : Refused :=
  lit "a " ++ Tier_as_str tier ++ lit " shell on " ++ host_name policy ++ lit " lasts at most "
  ++ show_N (shell_max_duration_secs (tier_policy policy tier)) ++ lit "s".

Definition desk_shell_prompt (host : HostView) (shell digest : str) (spec : ShellSpec)
  (message : str) : result Refused DeskPrompt :=
  let policy := hv_policy host in
  if is_locked (hv_lock host) then Err (locked_refusal policy)
  else
  let tier := sh_tier spec in
  if negb (desk_approves policy tier) then
    Err (lit "this desk doesn't approve " ++ Tier_as_str tier ++ lit " shells")
  else
    let cfg := tier_policy policy tier in
    if negb (shell_enable cfg) then Err (shells_not_enabled policy tier)
    else if N.ltb (shell_max_duration_secs cfg) (sh_duration spec) then
      Err (shell_too_long policy tier)
    else Ok (mkDeskPrompt shell digest tier message true).

(** [polkit] is whether the user's password was confirmed. *)
Definition desk_approval (prompt : DeskPrompt) (from_current_helper : bool) (lock : LockState)
  (polkit : bool) : result DeskPrompt (str * DeskApproval) :=
  let ok := negb (is_locked lock) && from_current_helper && (negb (needs_polkit prompt) || polkit) in
  if negb ok then Err prompt
  else Ok (dp_job prompt, mkDeskApproval (dp_tier prompt) (dp_digest prompt) (dp_shell prompt)).

End host.

(** *** The decision's facts about an approval *)

Record AuthzFacts := mkAuthzFacts {
  af_via : ApprovalVia;
  af_tier : Tier;
  digest_matches : bool;
  unexpired : bool;
}.

Record Authorization := mkAuthorization {
  az_digest : str;
  az_tier : Tier;
  az_via : ApprovalVia;
  expires_at : UnixMillis;
}.

Definition authz_facts (a : Authorization) (digest : str) (now : UnixMillis) : AuthzFacts :=
  mkAuthzFacts (az_via a) (az_tier a) (str_eqb (az_digest a) digest) (N.ltb now (expires_at a)).

Definition authz_admits (a : Authorization) (tier : Tier) (digest : str) (now : UnixMillis)
    : option ApprovalVia :=
  let f := authz_facts a digest now in
  if unexpired f && digest_matches f && bool_decide (af_tier f = tier) then Some (az_via a)
  else None.

(** *** The approvals that wait for their job *)

Abbreviation Authorizations := (gmap str Authorization).

Definition authz_insert (auths : Authorizations) (job : str) (a : Authorization)
    (now : UnixMillis) : Authorizations :=
  <[job := a]> (filter (fun kv : str * Authorization => (now < expires_at kv.2)%N) auths).

Definition record_totp (auths : Authorizations) (job : str) (approval : TotpApproval)
    (now : UnixMillis) : Authorizations :=
  let via := if bool_decide (ta_purpose approval = PurposeShell) then AvTotpShell else AvTotp in
  authz_insert auths job
    (mkAuthorization (ta_digest approval) (ta_tier approval) via (plus_secs now AUTHZ_TTL_SECS)) now.

Definition record_desk (auths : Authorizations) (job : str) (approval : DeskApproval)
    (now : UnixMillis) : Authorizations :=
  let via := if da_shell approval then AvDeskShell else AvDesk in
  authz_insert auths job
    (mkAuthorization (da_digest approval) (da_tier approval) via (plus_secs now AUTHZ_TTL_SECS)) now.

Definition authz_take (auths : Authorizations) (job : str)
    : option Authorization * Authorizations := (auths !! job, delete job auths).
Definition authz_peek (auths : Authorizations) (job : str) : option Authorization := auths !! job.
Definition authz_clear (auths : Authorizations) : Authorizations := ∅.

(** ** Arming *)

Section decision.
Context `{RegexLib, JsonText}.

Inductive LocalCaller := CallerRoot | CallerUser.
#[export] Instance LocalCaller_eq_dec : EqDecision LocalCaller.
Proof. solve_decision. Defined.

Inductive ArmProof := ProofTotp (code : AcceptedCode) | ProofLocal (caller : LocalCaller).

Definition armed_until (a : ArmState) (tier : Tier) : UnixMillis :=
  match tier with User => arm_user a | Root => arm_root a end.
Definition armed (a : ArmState) (tier : Tier) (now : UnixMillis) : bool :=
  N.ltb now (armed_until a tier).
Definition set_armed (a : ArmState) (tier : Tier) (until : UnixMillis) : ArmState :=
  match tier with User => mkArm until (arm_root a) | Root => mkArm (arm_user a) until end.

Definition check_can_arm (policy : HostPolicy) (tier : Tier) (lock : LockState)
  : result Refused unit :=
  tier_enabled policy tier;;
  if is_locked lock then Err (locked_refusal policy) else Ok tt.

Definition arm_proof_ok (tier : Tier) (proof : ArmProof) : result Refused unit :=
  match proof with
  | ProofTotp code =>
    if negb (bool_decide (code_name code = mkSecret tier PurposeArm)) then
      Err (lit "a " ++ SecretName_as_str (code_name code) ++ lit " code does not arm the "
           ++ Tier_as_str tier ++ lit " tier")
    else Ok tt
  | ProofLocal CallerUser =>
    if negb (bool_decide (tier = User)) then Err (lit "arm needs root") else Ok tt
  | ProofLocal CallerRoot => Ok tt
  end.

Definition arm (a : ArmState) (policy : HostPolicy) (tier : Tier) (secs : N) (proof : ArmProof)
  (lock : LockState) (now : UnixMillis) : result Refused (UnixMillis * ArmState) :=
  arm_proof_ok tier proof;;
  check_can_arm policy tier lock;;
  let secs := N.min secs (max_arm_secs (tier_policy policy tier)) in
  let until := plus_secs now secs in
  Ok (until, set_armed a tier until).

Definition disarm (a : ArmState) (tier : option Tier) : ArmState :=
  match tier with
  | Some tier => set_armed a tier 0
  | None => mkArm 0 0
  end.

Definition check_unlock (proof : ArmProof) : result Refused unit :=
  match proof with
  | ProofTotp code =>
    if bool_decide (code_name code = mkSecret Root PurposeUnlock) then Ok tt
    else Err (SecretName_as_str (code_name code) ++ lit " does not unlock; the root-unlock code does")
  | ProofLocal CallerRoot => Ok tt
  | ProofLocal CallerUser => Err (lit "unlock needs root")
  end.

(** ** The decision *)

Record AdmissionFacts := mkFacts {
  f_locked : bool;
  f_tier : Tier;
  kind_run : bool;
  authorization : option AuthzFacts;
  auto_match : bool;
  f_source : option Source;
  f_window : bool;
  f_armed : bool;
  f_accept_approve_all : bool;
  f_accept_machine_approvals : bool;
}.

Inductive RefusalKind := RLocked | NoEvidence | NoWindows | HumanOnly (source : Source) | NotArmed
| DeskClick.

(** The first of the decision's tests: this host's own approval. *)
Definition own_approval (f : AdmissionFacts) : option Via :=
  match authorization f with
  | Some a =>
    if unexpired a && digest_matches a && bool_decide (af_tier a = f_tier f) then
      match af_via a with
      | AvTotp => Some ViaTotp
      | AvDesk => Some ViaDesk
      | AvTotpShell | AvDeskShell => None
      end
    else None
  | None => None
  end.

Definition decide (f : AdmissionFacts) : result RefusalKind Via :=
  if f_locked f then Err RLocked
  else match own_approval f with
  | Some via => Ok via
  | None =>
    if kind_run f && bool_decide (f_tier f = User) && auto_match f then Ok ViaAuto
    else match f_source f with
    | None => Err NoEvidence
    | Some source =>
        if bool_decide (source = SDesk) then Err DeskClick
        else if negb (f_armed f) then Err NotArmed
        else if f_window f then
          if f_accept_approve_all f then Ok ArmedWindow else Err NoWindows
        else match source with
        | SHuman => Ok ArmedHuman
        | _ =>
            if negb (f_accept_machine_approvals f) then Err (HumanOnly source)
            else match source with
            | SRule => Ok ArmedRule
            | SLlm => Ok ArmedLlm
            | SPolicy => Ok ArmedPolicy
            | _ => Err DeskClick
            end
        end
    end
  end.

Definition refusal_text (policy : HostPolicy) (tier : Tier) (kind : RefusalKind) : Refused :=
  let name := host_name policy in
  let t := Tier_as_str tier in
  match kind with
  | RLocked => name ++ lit " is locked down"
  | NoEvidence => lit "no approval evidence"
  | NoWindows => name ++ lit " does not accept approve-all windows for the " ++ t ++ lit " tier"
  | HumanOnly source =>
    name ++ lit " only accepts a human's approval for the " ++ t
    ++ lit " tier (this one came from " ++ Source_as_str source ++ lit ")"
  | DeskClick =>
    lit "a desk answer approves only a command that desk showed and approved itself; approve the "
    ++ t ++ lit " command on Discord or with a TOTP code"
  | NotArmed =>
    lit "not_armed: the " ++ t ++ lit " tier of " ++ name ++ lit " is not armed " ++ [8212%N]
    ++ lit " arm it (/arm) or approve with a TOTP code"
  end.

Definition facts (host : HostView) (job : Normalized) (authorization : option AuthzFacts)
  (evidence : Evidence) : AdmissionFacts :=
  let policy := hv_policy host in
  let tier := n_tier job in
  let cfg := tier_policy policy tier in
  mkFacts (is_locked (hv_lock host)) tier (is_run job) authorization
  (existsb (fun p => auto_matches p (n_argv job)) (auto_commands policy))
  (ev_source evidence) (ev_window evidence) (armed (hv_arm host) tier (hv_now host))
  (accept_approve_all cfg) (accept_machine_approvals cfg).

(** ** Jobs *)

Record AdmittedJob := mkAdmitted {
  aj_id : str;
  aj_tier : Tier;
  aj_argv : list str;
  aj_cwd : option str;
  aj_env : list (str * str);
  aj_timeout : N;
  aj_stdin : option str;
  aj_via : Via;
  aj_shell : option str;
  aj_loggable : Value;
}.

Definition AdmittedJob_new (id : str) (job : Normalized) (via : Via) (shell : option str)
  : AdmittedJob :=
  mkAdmitted id (n_tier job) (n_argv job) (n_cwd job) (n_env job) (s_timeout (n_spec job))
  (n_stdin job) via shell (n_loggable job).

(** The approvals are returned: [take] spends one whatever the decision. *)
Definition admit_job (host : HostView) (job_id : str) (job : Normalized) (raw_digest : str)
  (evidence : Evidence) (auths : Authorizations)
  : result Refused AdmittedJob * Authorizations :=
  let policy := hv_policy host in
  let tier := n_tier job in
  if is_locked (hv_lock host) then (Err (refusal_text policy tier RLocked), auths)
  else
  let '(taken, auths) := authz_take auths job_id in
  let authorization := (fun a => authz_facts a raw_digest (hv_now host)) <$> taken in
  match decide (facts host job authorization evidence) with
  | Ok via => (Ok (AdmittedJob_new job_id job via None), auths)
  | Err kind => (Err (refusal_text policy tier kind), auths)
  end.

Definition precheck_job (host : HostView) (raw : Value) (raw_digest : str) (totp : bool)
  (job_id : option str) (evidence : Evidence) (auths : Authorizations) : result Refused Via :=
  let policy := hv_policy host in
  job ← normalize policy raw false;
  let tier := n_tier job in
  if totp then
  if is_locked (hv_lock host) then Err (locked_refusal policy) else Ok ViaTotp
  else
  let own :=
    id ← job_id;
    if is_locked (hv_lock host) then None
    else
      a ← authz_peek auths id;
      via ← authz_admits a tier raw_digest (hv_now host);
      match via with
      | AvTotpShell | AvDeskShell => None
      | AvDesk => Some ViaDesk
      | AvTotp => Some ViaTotp
      end in
  match own with
  | Some via => Ok via
  | None => map_err (refusal_text policy tier) (decide (facts host job None evidence))
  end.

(** ** Shells *)

Definition shell_secret (tier : Tier) (shell_enrolled : bool) : SecretName :=
  mkSecret tier (if shell_enrolled then PurposeShell else PurposeArm).

Definition precheck_shell (policy : HostPolicy) (tier duration : option Value) (lock : LockState)
  : result Refused unit :=
  tier ← check_tier policy tier;
  let cfg := tier_policy policy tier in
  if negb (shell_enable cfg) then Err (shells_not_enabled policy tier)
  else if is_locked lock then Err (locked_refusal policy)
  else match (d ← duration; as_u64 d) with
  | Some d =>
    if N.ltb (shell_max_duration_secs cfg) d then Err (shell_too_long policy tier) else Ok tt
  | None => Ok tt
  end.

Definition parse_shell_request (policy : HostPolicy) (raw : Value) : result Refused ShellSpec :=
  match raw with
  | VObject map =>
    if negb (bool_decide ((v ← map_get (lit "host") map; as_str v) = Some (host_name policy))) then
      Err (lit "malformed shell request")
    else
      spec ← shell_spec (host_name policy) (map_get (lit "tier") map) (map_get (lit "duration") map);
      tier_enabled policy (sh_tier spec);;
      Ok spec
  | _ => Err (lit "malformed shell request")
  end.

Record OpenShell := mkOpenShell { os_id : str; os_tier : Tier; os_expires_at : UnixMillis }.

Definition open_shell (policy : HostPolicy) (shell_id : str) (spec : ShellSpec) (digest : str)
  (auths : Authorizations) (lock : LockState) (now : UnixMillis) (shell_enrolled : bool)
  : result Refused OpenShell * Authorizations :=
  let tier := sh_tier spec in
  let cfg := tier_policy policy tier in
  if is_locked lock then (Err (locked_refusal policy), auths)
  else if negb (shell_enable cfg) then (Err (shells_not_enabled policy tier), auths)
  else if N.ltb (shell_max_duration_secs cfg) (sh_duration spec) then
  (Err (shell_too_long policy tier), auths)
  else
  let '(taken, auths) := authz_take auths shell_id in
  match (a ← taken; authz_admits a tier digest now) with
  | Some (AvTotpShell | AvDeskShell) =>
      (Ok (mkOpenShell shell_id tier (plus_secs now (sh_duration spec))), auths)
  | Some _ =>
      (Err (lit "a " ++ Tier_as_str tier ++ lit " shell is opened with a "
            ++ SecretName_as_str (shell_secret tier shell_enrolled)
            ++ lit " code, or at this desk with your password"), auths)
  | None => (Err (lit "a shell is opened with a TOTP code or at its own desk only"), auths)
  end.

Definition admit_shell_command (policy : HostPolicy) (shell : option OpenShell) (job_id : str)
  (raw : Value) (lock : LockState) (now : UnixMillis) : result Refused AdmittedJob :=
  if is_locked lock then Err (locked_refusal policy)
  else match shell with
  | Some s =>
    if N.ltb now (os_expires_at s) then
      job ← normalize policy raw true;
      if negb (bool_decide (n_tier job = os_tier s)) then
        Err (lit "that is a " ++ Tier_as_str (os_tier s) ++ lit " shell")
      else Ok (AdmittedJob_new job_id job ViaShell (Some (os_id s)))
    else Err (lit "no such shell on this host (expired, closed, or hostd restarted)")
  | None => Err (lit "no such shell on this host (expired, closed, or hostd restarted)")
  end.
End decision.

(** ** Specifications *)

(** What may admit a job, as rules in no order: the host's own approval of
    exactly this digest and tier, an auto pattern for a user-tier command,
    or the broker's word while the tier is armed. *)
Definition own (f : AdmissionFacts) (a : AuthzFacts) : Prop :=
  authorization f = Some a /\ unexpired a = true /\ digest_matches a = true /\ af_tier a = f_tier f.

Definition machine_via (source : Source) : option Via :=
  match source with
  | SRule => Some ArmedRule | SLlm => Some ArmedLlm | SPolicy => Some ArmedPolicy
  | SHuman | SDesk => None
  end.

Inductive may_run (f : AdmissionFacts) : Via -> Prop :=
| may_totp a : own f a -> af_via a = AvTotp -> may_run f ViaTotp
| may_desk a : own f a -> af_via a = AvDesk -> may_run f ViaDesk
| may_auto : kind_run f = true -> f_tier f = User -> auto_match f = true -> may_run f ViaAuto
| may_window source :
    f_source f = Some source -> source <> SDesk -> f_armed f = true -> f_window f = true ->
    f_accept_approve_all f = true -> may_run f ArmedWindow
| may_human :
    f_source f = Some SHuman -> f_armed f = true -> f_window f = false -> may_run f ArmedHuman
| may_machine source via :
    f_source f = Some source -> machine_via source = Some via -> f_armed f = true ->
    f_window f = false -> f_accept_machine_approvals f = true -> may_run f via.
#[export] Hint Constructors may_run : agentauth.

(** ** Lemmas *)

Lemma own_approval_iff f via :
  own_approval f = Some via <->
  exists a, own f a /\ (af_via a = AvTotp /\ via = ViaTotp \/ af_via a = AvDesk /\ via = ViaDesk).
Proof.
  unfold own_approval, own. destruct (authorization f) as [a|].
  2:{ split; [done|]. by intros (a & [? _] & _). }
  destruct (_ && _ && _) eqn:E.
  - apply andb_true_iff in E as [E ?%bool_decide_eq_true]. apply andb_true_iff in E as [? ?].
    split.
    + intros Hv. exists a. split; [done|]. destruct (af_via a); inv_ok; eauto; done.
    + intros (a' & ([= <-] & _) & [[-> ->]|[-> ->]]); done.
  - split; [done|]. intros (a' & ([= <-] & Hu & Hd & Ht) & _).
    by rewrite Hu, Hd, bool_decide_true in E.
Qed.

Lemma decide_ok_may f via : decide f = Ok via -> f_locked f = false /\ may_run f via.
Proof.
  unfold decide. destruct (f_locked f); [done|]. intros H. split; [done|]. revert H.
  destruct (own_approval f) as [v|] eqn:E.
  { apply own_approval_iff in E as (a & Ha & [[? ->]|[? ->]]); intros [= <-]; eauto with agentauth. }
  destruct (kind_run f && _ && _) eqn:Ea.
  { bools. intros [= <-]. eauto with agentauth. }
  destruct (f_source f) as [src|] eqn:Es; [|done].
  destruct (bool_decide_reflect (src = SDesk)) as [|Hs]; [done|].
  destruct (f_armed f) eqn:Har; [|done]. cbn [negb].
  destruct (f_window f) eqn:Hw.
  { destruct (f_accept_approve_all f) eqn:?; [|done]. intros [= <-]. eauto with agentauth. }
  destruct src; try done; destruct (f_accept_machine_approvals f) eqn:Hm; cbn [negb]; try done;
    intros [= <-]; eauto with agentauth.
Qed.

Lemma may_decide_ok f via :
  f_locked f = false -> may_run f via -> exists via', decide f = Ok via'.
Proof.
  intros Hl Hm. unfold decide. rewrite Hl.
  destruct (own_approval f) as [v|] eqn:E; [by eauto|].
  destruct (kind_run f && bool_decide (f_tier f = User) && auto_match f) eqn:Ea; [by eauto|].
  destruct Hm as [a Ha Hv|a Ha Hv|Hk Ht Hm|src Hs Hd Har Hw Ha|Hs Har Hw|src v Hs Hv Har Hw Ha].
  - enough (own_approval f = Some ViaTotp) by congruence. apply own_approval_iff. eauto.
  - enough (own_approval f = Some ViaDesk) by congruence. apply own_approval_iff. eauto.
  - rewrite Hk, Hm, bool_decide_true in Ea by done. done.
  - rewrite Hs, Har, Hw, Ha, bool_decide_false by done. by eauto.
  - rewrite Hs, Har, Hw. by eauto.
  - rewrite Hs, Har, Hw, Ha. destruct src; cbn in Hv |- *; try done; by eauto.
Qed.

(** *** Argv patterns *)

(** Each argument is matched by its glob; a final [**] takes the rest. *)
Definition argv_shape (one : str -> str -> Prop) (pattern argv : list str) : Prop :=
  exists fixed first others,
    (pattern = fixed ++ [lit "**"] \/
     last pattern <> Some (lit "**") /\ pattern = fixed /\ others = []) /\
    argv = first ++ others /\ Forall2 one fixed first.

#[export] Instance argv_shape_mono :
  Proper (pointwise_relation _ (pointwise_relation _ impl) ==> eq ==> eq ==> impl) argv_shape.
Proof.
  intros P Q HPQ pattern _ <- argv _ <- (fixed & first & others & Hp & Ha & Hf).
  exists fixed, first, others. split_and!; [done|done|].
  eapply Forall2_impl; [exact Hf|]. intros g a. apply HPQ.
Qed.
#[export] Instance argv_shape_proper :
  Proper (pointwise_relation _ (pointwise_relation _ iff) ==> eq ==> eq ==> iff) argv_shape.
Proof.
  intros P Q HPQ pattern _ <- argv _ <-.
  split; apply argv_shape_mono; try done; intros g a Hga; by apply (HPQ g a).
Qed.

Lemma shape_matches_iff pattern argv one :
  shape_matches pattern argv one = true <-> argv_shape (fun g a => one g a = true) pattern argv.
Proof.
  unfold shape_matches, argv_shape.
  destruct (bool_decide_reflect (last pattern = Some (lit "**"))) as [Hlast|Hlast].
  - apply last_Some in Hlast as [fixed ->]. rewrite length_app. cbn [length negb andb].
    rewrite Nat.add_sub, take_app_length, orb_false_r.
    destruct (Nat.ltb_spec (length argv) (length fixed)) as [Hlt|Hge].
    + split; [done|]. intros (fx & first & others & [E|[? ?]] & -> & Hf).
      * apply app_inj_2 in E as [-> _]; [|done]. apply Forall2_length in Hf.
        rewrite length_app in *. lia.
      * by rewrite last_snoc in *.
    + rewrite zip_take_r, forallb_zip by (rewrite length_take; lia). split.
      * intros Hf. exists fixed, (take (length fixed) argv), (drop (length fixed) argv).
        rewrite take_drop. eauto.
      * intros (fx & first & others & [E|[? ?]] & -> & Hf); [|by rewrite last_snoc in *].
        apply app_inj_2 in E as [-> _]; [|done].
        by rewrite (Forall2_length _ _ _ Hf), take_app_length.
  - cbn [negb andb]. destruct (_ || _) eqn:E.
    + split; [done|]. intros (fx & first & others & [->|(_ & -> & ->)] & -> & Hf).
      { by rewrite last_snoc in Hlast. }
      apply Forall2_length in Hf. rewrite app_nil_r in E. exfalso.
      rewrite Hf, Nat.ltb_irrefl, Nat.eqb_refl in E. done.
    + bools. match goal with H : Nat.eqb _ _ = true |- _ => apply Nat.eqb_eq in H as Hl end.
      rewrite forallb_zip by done. split.
      * intros Hf. exists pattern, argv, []. rewrite app_nil_r. split_and!; [by right|done|done].
      * intros (fx & first & others & [->|(_ & -> & ->)] & -> & Hf).
        { by rewrite last_snoc in Hlast. }
        by rewrite app_nil_r.
Qed.

(** A glob with a [/] is matched segment by segment. *)
Definition segments_fit (glob arg : str) : Prop :=
  if elem_b (ch "/") glob then
    Forall2 (fun g a => fnmatch a g = true) (split (ch "/") glob) (split (ch "/") arg)
  else fnmatch arg glob = true.

Lemma segments_match_iff glob arg : segments_match glob arg = true <-> segments_fit glob arg.
Proof.
  unfold segments_match, segments_fit. destruct (elem_b _ _); cbn [negb]; [|done].
  rewrite andb_true_iff, Nat.eqb_eq. split.
  - intros [Hl Hf]. by apply (forallb_zip (fun g a => fnmatch a g)) in Hf.
  - intros Hf. pose proof (Forall2_length _ _ _ Hf) as Hl. split; [done|].
    by apply (forallb_zip (fun g a => fnmatch a g)).
Qed.

Lemma has_dotdot_iff arg : has_dotdot arg = true <-> lit ".." ∈ split (ch "/") arg.
Proof.
  unfold has_dotdot. rewrite existsb_elem. unfold str_eqb. split.
  - intros (x & Hx & ->%bool_decide_eq_true). done.
  - intros Hx. exists (lit ".."). by rewrite bool_decide_true.
Qed.

Lemma auto_matches_iff pattern argv :
  auto_matches pattern argv = true <->
  Forall (fun a => lit ".." ∉ split (ch "/") a) argv /\ argv_shape segments_fit pattern argv.
Proof.
  unfold auto_matches. destruct (existsb has_dotdot argv) eqn:E.
  - split; [done|]. intros [Hf _]. apply existsb_elem in E as (a & Ha & Hd%has_dotdot_iff).
    rewrite Forall_forall in Hf. by apply Hf in Ha.
  - rewrite shape_matches_iff. setoid_rewrite segments_match_iff.
    split; [|by intros [_ ?]]. intros Hs. split; [|done]. apply Forall_forall. intros a Ha Hd.
    apply not_true_iff_false in E. apply E, existsb_elem. exists a.
    by rewrite has_dotdot_iff.
Qed.

(** *** Normalized specs *)

Section normalize_lemmas.
Context `{RegexLib, JsonText}.
Implicit Types (p : HostPolicy) (n : Normalized).

Record normal p (sc : bool) n : Prop := {
  nm_host : s_host (n_spec n) = host_name p;
  nm_resolved : resolve p (n_spec n) sc = Ok (n_argv n, (n_cwd n, (n_env n, n_stdin n)));
  nm_tier : enable (tier_policy p (n_tier n)) = true;
  nm_timeout : (s_timeout (n_spec n) <= max_timeout_secs p)%N;
  nm_env : Forall (fun kv => set_contains kv.1 (env_allow p) = true) (s_env (n_spec n));
  nm_deny : Forall (fun d => deny_matches d (n_argv n) = false) (deny_commands p);
}.

Lemma tier_enabled_ok p t t' : tier_enabled p t = Ok t' <-> t' = t /\ enable (tier_policy p t) = true.
Proof. unfold tier_enabled. case_match; naive_solver. Qed.

Lemma normalize_inv p raw sc n :
  normalize p raw sc = Ok n ->
  JobSpec_from_json raw (default_timeout_secs p) = Ok (JCommand (n_spec n)) /\
  (exists map, raw = VObject map /\ (v ← map_get (lit "host") map; as_str v) = Some (host_name p)) /\
  resolve p (n_spec n) sc = Ok (n_argv n, (n_cwd n, (n_env n, n_stdin n))) /\
  enable (tier_policy p (n_tier n)) = true /\
  (s_timeout (n_spec n) <= max_timeout_secs p)%N /\
  List.filter (fun k => negb (set_contains k (env_allow p))) (map_keys (s_env (n_spec n))) = [] /\
  existsb (fun d => deny_matches d (n_argv n)) (deny_commands p) = false.
Proof.
  unfold normalize. destruct raw as [| | | | |map]; try done.
  destruct (bool_decide_reflect ((v ← map_get (lit "host") map; as_str v) = Some (host_name p)))
  as [Hh|]; [|done]. cbn [negb].
  destruct (runnable_kind _); [|done]. cbn [negb]. intros H2.
  apply bind_ok in H2 as (job & Hj & H2). destruct job as [spec|]; [|done].
  apply bind_ok in H2 as ([argv [cwd [env stdin]]] & Hr & H2).
  apply bind_ok in H2 as (t & Ht & H2). apply tier_enabled_ok in Ht as [_ Ht].
  destruct (N.ltb_spec (max_timeout_secs p) (s_timeout spec)); [done|].
  destruct (bool_decide_reflect (List.filter (fun k => negb (set_contains k (env_allow p)))
  (map_keys (s_env spec)) = [])) as [He|]; [|done]. cbn [negb] in H2.
  destruct (existsb _ _) eqn:Hd; [done|]. injection H2 as <-. cbn [n_spec n_argv n_cwd n_env n_stdin]. split_and!; [done|by eauto|done..].
Qed.


Lemma from_json_command map d c :
  JobSpec_from_json (VObject map) d = Ok (JCommand c) ->
  (v ← map_get (lit "host") map; as_str v) = Some (s_host c) /\
  exists fields, make_spec_with_default fields d = Ok c.
Proof.
  unfold JobSpec_from_json. destruct (allowed_keys _) as [allowed|]; [|done].
  destruct (negb (bool_decide (set_of_list _ = []))); [done|].
  destruct (v ← map_get (lit "host") map; as_str v) as [host|]; [|done].
  destruct (str_eqb _ (lit "shell")).
  { destruct (shell_spec _ _ _); done. }
  destruct (make_spec_with_default _ d) as [c'|] eqn:E; [|done]. cbn [fmap result_fmap].
  intros [= ->]. split; [|by eauto].
  unfold make_spec_with_default in E. destruct (negb _); [done|].
  repeat (apply bind_ok in E as (? & _ & E)). injection E as <-. done.
Qed.

Lemma normalize_normal p raw sc n :
  normalize p raw sc = Ok n ->
  normal p sc n /\ exists fields, make_spec_with_default fields (default_timeout_secs p) = Ok (n_spec n).
Proof.
  intros H2. apply normalize_inv in H2 as (Hj & (map & -> & Hh) & Hr & Ht & Hm & He & Hd).
  apply from_json_command in Hj as [Hh' Hf]. split; [|done]. split; try done.
  - congruence.
  - apply filter_nil in He. unfold map_keys in He. rewrite Forall_map in He.
  eapply Forall_impl; [exact He|]. cbn. intros kv. by apply negb_false_iff.
  - by apply existsb_false.
Qed.

Lemma normal_normalize p sc n :
  valid_spec (n_spec n) -> normal p sc n ->
  normalize p (CommandSpec_to_json (n_spec n)) sc = Ok n.
Proof.
  intros Hv [Hh Hr Ht Hm He Hd]. pose proof (job_roundtrip_command _ (default_timeout_secs p) Hv) as Hj.
  cbn [JobSpec_to_json] in Hj. rewrite CommandSpec_to_json_entries in Hj |- *. unfold normalize.
  assert ((v ← map_get (lit "host") (spec_entries (n_spec n)); as_str v) = Some (host_name p)) as ->.
  { rewrite <- Hh. unfold spec_entries. by destruct (s_command (n_spec n)). }
  rewrite bool_decide_true by done. cbn [negb].
  assert (runnable_kind (v ← map_get (lit "kind") (spec_entries (n_spec n)); as_str v) = true) as ->.
  { unfold spec_entries, spec_kind. by destruct (s_command (n_spec n)). }
  cbn [negb]. rewrite Hj. cbn [mbind result_bind]. rewrite Hr. cbn [mbind result_bind].
  unfold tier_enabled. unfold n_tier in Ht. rewrite Ht. cbn [mbind result_bind].
  destruct (N.ltb_spec (max_timeout_secs p) (s_timeout (n_spec n))); [lia|].
  rewrite (proj2 (filter_nil _ _)).
  2:{ unfold map_keys. rewrite Forall_map. eapply Forall_impl; [exact He|]. cbn.
    intros kv. by apply negb_false_iff. }
  rewrite bool_decide_true by done. cbn [negb].
  rewrite (proj2 (existsb_false _ _) Hd). by destruct n.
Qed.
End normalize_lemmas.

(** *** Admission *)

Section admit_lemmas.
Context `{RegexLib, JsonText}.
Implicit Types (host : HostView) (job : Normalized) (auths : Authorizations) (p : HostPolicy).

(** An approval that does not cover the job counts for nothing. *)
Lemma own_approval_facts host job a digest ev :
  own_approval (facts host job (Some (authz_facts a digest (hv_now host))) ev) =
  via ← authz_admits a (n_tier job) digest (hv_now host);
  match via with
  | AvTotpShell | AvDeskShell => None
  | AvDesk => Some ViaDesk
  | AvTotp => Some ViaTotp
  end.
Proof.
  unfold own_approval, authz_admits, facts, authz_facts.
  cbn [authorization unexpired digest_matches af_tier f_tier af_via].
  destruct (_ && _ && _); [|done]. cbn [mbind option_bind]. by destruct (az_via a).
Qed.

Lemma decide_without_own host job a ev :
  own_approval (facts host job a ev) = None ->
  decide (facts host job a ev) = decide (facts host job None ev).
Proof. intros E. unfold decide. rewrite E. reflexivity. Qed.

Lemma admit_result host id job digest ev auths :
  (admit_job host id job digest ev auths).1 =
  (fun via => AdmittedJob_new id job via None) <$>
  map_err (refusal_text (hv_policy host) (n_tier job))
  (decide (facts host job ((fun a => authz_facts a digest (hv_now host)) <$> auths !! id) ev)).
Proof.
  unfold admit_job, authz_take. destruct (is_locked (hv_lock host)) eqn:El.
  - cbn [fst]. unfold decide, facts. cbn [f_locked]. rewrite El. reflexivity.
  - destruct (decide _); reflexivity.
Qed.

Lemma admit_spends host id job digest ev auths :
  (admit_job host id job digest ev auths).2 =
  if is_locked (hv_lock host) then auths else delete id auths.
Proof. unfold admit_job, authz_take. destruct (is_locked _); [done|]. by destruct (decide _). Qed.

Lemma precheck_is_admit host raw job id digest ev auths :
  normalize (hv_policy host) raw false = Ok job ->
  precheck_job host raw digest false (Some id) ev auths =
  aj_via <$> (admit_job host id job digest ev auths).1.
Proof.
  intros Hn. rewrite admit_result. unfold precheck_job. rewrite Hn. cbn [mbind result_bind option_bind].
  unfold authz_peek. destruct (is_locked (hv_lock host)) eqn:El.
  - cbn [mbind option_bind]. unfold decide at 1 2, facts. cbn [f_locked]. rewrite El. reflexivity.
  - destruct (auths !! id) as [a|]; cbn [fmap option_fmap option_map mbind option_bind].
  2:{ by destruct (decide _). }
  rewrite <- (own_approval_facts host job a digest ev).
  destruct (own_approval _) as [via|] eqn:Eo.
  + unfold decide. rewrite Eo. unfold facts. cbn [f_locked]. rewrite El. reflexivity.
  + rewrite (decide_without_own _ _ _ _ Eo). by destruct (decide _).
Qed.

(** *** Arming *)

Lemma arm_ok a p tier secs proof lock now until a' :
  arm a p tier secs proof lock now = Ok (until, a') ->
  (proof = ProofLocal CallerRoot \/ proof = ProofLocal CallerUser /\ tier = User \/
  exists code, proof = ProofTotp code /\ code_name code = mkSecret tier PurposeArm) /\
  enable (tier_policy p tier) = true /\ is_locked lock = false /\
  until = plus_secs now (N.min secs (max_arm_secs (tier_policy p tier))) /\
  a' = set_armed a tier until.
Proof.
  unfold arm. intros ([] & Hp & H2)%bind_ok. apply bind_ok in H2 as ([] & Hc & H2).
  injection H2 as <- <-. unfold check_can_arm in Hc. apply bind_ok in Hc as (t & Ht & Hc).
  unfold tier_enabled in Ht. destruct (enable _) eqn:He; [|done].
  destruct (is_locked lock); [done|]. split_and!; try done.
  unfold arm_proof_ok in Hp. destruct proof as [code|[]]; [|by left|].
  - destruct (bool_decide_reflect (code_name code = mkSecret tier PurposeArm)); [|done].
  right. right. eauto.
  - destruct (bool_decide_reflect (tier = User)); [|done]. right. by left.
Qed.

Lemma armed_set a tier until tier' :
  armed_until (set_armed a tier until) tier' =
  if bool_decide (tier' = tier) then until else armed_until a tier'.
Proof. by destruct tier, tier'. Qed.


(** *** Shells *)

Lemma authz_admits_some a tier digest now via :
  authz_admits a tier digest now = Some via <->
  az_via a = via /\ az_tier a = tier /\ az_digest a = digest /\ (now < expires_at a)%N.
Proof.
  unfold authz_admits, authz_facts, str_eqb. cbn [unexpired digest_matches af_tier].
  destruct (N.ltb_spec now (expires_at a)), (bool_decide_reflect (az_digest a = digest)),
  (bool_decide_reflect (az_tier a = tier)); cbn; split; intros; destruct_and?; try done; try lia;
  split_and?; congruence.
Qed.

Lemma open_shell_ok p id spec digest auths lock now enrolled shell :
  (open_shell p id spec digest auths lock now enrolled).1 = Ok shell <->
  is_locked lock = false /\ shell_enable (tier_policy p (sh_tier spec)) = true /\
  (sh_duration spec <= shell_max_duration_secs (tier_policy p (sh_tier spec)))%N /\
  shell = mkOpenShell id (sh_tier spec) (plus_secs now (sh_duration spec)) /\
  exists a, auths !! id = Some a /\ az_tier a = sh_tier spec /\ az_digest a = digest /\
  (now < expires_at a)%N /\ (az_via a = AvTotpShell \/ az_via a = AvDeskShell).
Proof.
  unfold open_shell, authz_take. destruct (is_locked lock); [naive_solver|].
  destruct (shell_enable _); [|naive_solver]. cbn [negb].
  destruct (N.ltb_spec (shell_max_duration_secs (tier_policy p (sh_tier spec))) (sh_duration spec)).
  { split; [done|]. intros (_ & _ & ? & _). lia. }
  destruct (auths !! id) as [a|] eqn:Ea; cbn [mbind option_bind].
  2:{ split; [done|]. by intros (_ & _ & _ & _ & a & [=] & _). }
  destruct (authz_admits a _ _ _) as [via|] eqn:E.
  - apply authz_admits_some in E as (<- & Ht & Hd & Hx). split.
  + intros Hok. destruct (az_via a) eqn:?; try done; injection Hok as <-; split_and!; try done;
      exists a; split_and!; eauto.
  + intros (_ & _ & _ & -> & a' & [= <-] & _ & _ & _ & [-> | ->]); reflexivity.
  - split; [done|]. intros (_ & _ & _ & _ & a' & [= <-] & Ht & Hd & Hx & _).
  assert (authz_admits a (sh_tier spec) digest now = Some (az_via a)); [|congruence].
  by apply authz_admits_some.
Qed.

Lemma open_shell_spends p id spec digest auths lock now enrolled shell :
  (open_shell p id spec digest auths lock now enrolled).1 = Ok shell ->
  (open_shell p id spec digest auths lock now enrolled).2 = delete id auths.
Proof.
  unfold open_shell, authz_take. repeat (case_match; try done).
Qed.

Lemma shell_command_ok p shell id raw lock now aj :
  admit_shell_command p shell id raw lock now = Ok aj <->
  is_locked lock = false /\ exists s job, shell = Some s /\ (now < os_expires_at s)%N /\
  normalize p raw true = Ok job /\ n_tier job = os_tier s /\
  aj = AdmittedJob_new id job ViaShell (Some (os_id s)).
Proof.
  unfold admit_shell_command. destruct (is_locked lock); [naive_solver|].
  destruct shell as [s|]; [|naive_solver]. destruct (N.ltb_spec now (os_expires_at s)).
  2:{ split; [done|]. intros (_ & s' & _ & [= <-] & ? & _). lia. }
  rewrite bind_ok. split.
  - intros (job & Hj & Hok). destruct (bool_decide_reflect (n_tier job = os_tier s)); [|done].
  injection Hok as <-. eauto 10.
  - intros (_ & s' & job & [= <-] & _ & Hj & Ht & ->). exists job. split; [done|].
  by rewrite bool_decide_true.
Qed.
End admit_lemmas.

(** ** A host to try the properties on *)

Module SampleHost.
Definition regex : RegexLib := Build_RegexLib unit (fun _ => Ok tt) (fun _ _ => true).
Definition text : JsonText := Build_JsonText (fun _ => lit "...").
Definition tier : TierPolicy := mkTierPolicy true 3600 false true true 1800.
Definition policy : @HostPolicy regex :=
  @mkHostPolicy regex (lit "desk") tier tier
  [[lit "cat"; lit "/var/log/*"]] [[lit "rm"; lit "**"]]
  [] [lit "LANG"] 600 3600 true false.
Definition view : @HostView regex := @mkView regex policy (mkArm 5000 0) Unlocked 1000.
Definition spec : CommandSpec :=
  mkSpec (lit "desk") User (CRun [lit "cat"; lit "/var/log/messages"]) None [] 600 None.
Definition job : Normalized :=
  mkNormalized spec [lit "cat"; lit "/var/log/messages"] None [] None.
Definition digest : str := lit "d1".
Definition shell : ShellSpec := mkShell (lit "desk") Root 600.
Definition auths : gmap str Authorization :=
  {[lit "job" := mkAuthorization digest User AvTotp 2000;
  lit "shell" := mkAuthorization digest Root AvTotpShell 2000]}.
End SampleHost.

(** ** Properties *)

(** The decision refines the rules: a host that is locked admits
    nothing; otherwise it admits exactly when some rule does, on the ground
    of one that does, and its own approval comes first. *)
Theorem decide_refines_rules f :
  ((exists via, decide f = Ok via) <-> f_locked f = false /\ exists via, may_run f via) /\
  (forall via, decide f = Ok via -> may_run f via) /\
  (forall a, f_locked f = false -> own f a ->
    (af_via a = AvTotp -> decide f = Ok ViaTotp) /\ (af_via a = AvDesk -> decide f = Ok ViaDesk)).
Proof.
  split; [split|split].
  - intros (via & H%decide_ok_may). destruct H. eauto.
  - intros (Hl & via & Hm). by apply (may_decide_ok f via).
  - intros via H. exact (proj2 (decide_ok_may f via H)).
  - intros a Hl Ha. unfold decide. rewrite Hl.
    split; intros Hv; [rewrite (proj2 (own_approval_iff f ViaTotp))|
                       rewrite (proj2 (own_approval_iff f ViaDesk))]; eauto.
Qed.

(** Whatever a broker sends, a spec the host resolves is one it would
    run: for this host, an enabled tier, a timeout within its maximum, only
    allowed variables, no deny pattern, and a template only its own, of its
    own tier and never in a shell; the spec itself is valid. And every valid
    spec of that kind, as JSON, is resolved. *)
Theorem normalize_exact `{RegexLib, JsonText} p raw in_shell n :
  (1 <= default_timeout_secs p <= MAX_TIMEOUT_SECS)%N ->
  (normalize p raw in_shell = Ok n -> valid_spec (n_spec n) /\ normal p in_shell n) /\
  (valid_spec (n_spec n) -> normal p in_shell n ->
   normalize p (CommandSpec_to_json (n_spec n)) in_shell = Ok n).
Proof.
  intros Hd. split; [|apply normal_normalize].
  intros [Hn [fields Hf]]%normalize_normal. split; [|done].
  by apply (make_spec_valid fields (default_timeout_secs p)).
Qed.

Lemma normalize_exact_witness :
  @normal SampleHost.regex SampleHost.policy false SampleHost.job.
Proof.
  refine (proj2 (proj1 (@normalize_exact SampleHost.regex SampleHost.text SampleHost.policy
    (CommandSpec_to_json SampleHost.spec) false SampleHost.job _) _)).
  - split; vm_compute; discriminate.
  - vm_compute. reflexivity.
Defined.

(** An auto pattern is strict: no argument has a [..] segment, each
    glob with a [/] is matched segment by segment (so [*] never crosses a
    [/]), and only a final [**] takes more arguments. *)
Theorem auto_matches_strict pattern argv :
  auto_matches pattern argv = true <->
  Forall (fun a => lit ".." ∉ split (ch "/") a) argv /\
  exists fixed first others,
    (pattern = fixed ++ [lit "**"] \/
     last pattern <> Some (lit "**") /\ pattern = fixed /\ others = []) /\
    argv = first ++ others /\
    Forall2 (fun glob arg =>
      if elem_b (ch "/") glob then
        Forall2 (fun g a => fnmatch a g = true) (split (ch "/") glob) (split (ch "/") arg)
      else fnmatch arg glob = true) fixed first.
Proof. apply auto_matches_iff. Qed.

(** A precheck says what the start will: for a spec the host resolves,
    it gives the ground on which the job would be admitted now, or the same
    refusal; and the start spends the approval it looked at, whatever it
    decides, unless the host is locked. *)
Theorem precheck_agrees `{RegexLib, JsonText} host raw job id digest evidence auths :
  normalize (hv_policy host) raw false = Ok job ->
  precheck_job host raw digest false (Some id) evidence auths =
    aj_via <$> (admit_job host id job digest evidence auths).1 /\
  (admit_job host id job digest evidence auths).2 =
    (if is_locked (hv_lock host) then auths else delete id auths).
Proof. intros Hn. split; [by apply precheck_is_admit|apply admit_spends]. Qed.

Lemma precheck_agrees_witness :
  @precheck_job SampleHost.regex SampleHost.text SampleHost.view (CommandSpec_to_json SampleHost.spec)
    SampleHost.digest false (Some (lit "job")) (mkEvidence None false) SampleHost.auths = Ok ViaTotp.
Proof.
  rewrite (proj1 (@precheck_agrees SampleHost.regex SampleHost.text SampleHost.view
    (CommandSpec_to_json SampleHost.spec) SampleHost.job (lit "job") SampleHost.digest
    (mkEvidence None false) SampleHost.auths ltac:(vm_compute; reflexivity))).
  vm_compute. reflexivity.
Defined.

(** A tier is armed only with its own arm code, or by root, or by the
    user for the user tier; only when it is enabled and the host is not
    locked; for at most the tier's limit; and the other tier stays as it
    was. *)
Theorem arm_needs_proof `{RegexLib, JsonText} a p tier secs proof lock now until a' :
  arm a p tier secs proof lock now = Ok (until, a') ->
  (proof = ProofLocal CallerRoot \/ (proof = ProofLocal CallerUser /\ tier = User) \/
   exists code, proof = ProofTotp code /\ code_name code = mkSecret tier PurposeArm) /\
  enable (tier_policy p tier) = true /\ is_locked lock = false /\
  (until <= now + max_arm_secs (tier_policy p tier) * 1000)%N /\ (until <= now + secs * 1000)%N /\
  forall t, armed_until a' t = if bool_decide (t = tier) then until else armed_until a t.
Proof.
  intros (Hp & He & Hl & -> & ->)%arm_ok. split_and!; try done.
  - etrans; [apply plus_secs_le|]. apply N.add_le_mono_l, N.mul_le_mono_r. lia.
  - etrans; [apply plus_secs_le|]. apply N.add_le_mono_l, N.mul_le_mono_r. lia.
  - intros t. apply armed_set.
Qed.

Lemma arm_needs_proof_witness :
  (plus_secs 1000 600 <= 1000 + 3600 * 1000)%N.
Proof.
  refine (proj1 (proj2 (proj2 (proj2 (@arm_needs_proof SampleHost.regex SampleHost.text (mkArm 0 0)
    SampleHost.policy Root 600 (ProofLocal CallerRoot) Unlocked 1000 (plus_secs 1000 600)
    (mkArm 0 (plus_secs 1000 600)) _))))).
  reflexivity.
Defined.

(** A shell opens exactly on this host's own approval of a shell with
    this digest and tier (a shell's code, or the desk with the password),
    while it is fresh and the host unlocked, for an enabled tier and at most
    its longest duration. The approval is spent, and the shell ends with
    its duration. *)
Theorem open_shell_exact `{RegexLib, JsonText} p id spec digest auths lock now enrolled shell :
  ((open_shell p id spec digest auths lock now enrolled).1 = Ok shell <->
   is_locked lock = false /\ shell_enable (tier_policy p (sh_tier spec)) = true /\
   (sh_duration spec <= shell_max_duration_secs (tier_policy p (sh_tier spec)))%N /\
   shell = mkOpenShell id (sh_tier spec) (plus_secs now (sh_duration spec)) /\
   exists a, auths !! id = Some a /\ az_tier a = sh_tier spec /\ az_digest a = digest /\
     (now < expires_at a)%N /\ (az_via a = AvTotpShell \/ az_via a = AvDeskShell)) /\
  ((open_shell p id spec digest auths lock now enrolled).1 = Ok shell ->
   (open_shell p id spec digest auths lock now enrolled).2 = delete id auths).
Proof. split; [apply open_shell_ok|apply open_shell_spends]. Qed.

Lemma open_shell_exact_witness :
  (@open_shell SampleHost.regex SampleHost.policy (lit "shell") SampleHost.shell
    SampleHost.digest SampleHost.auths Unlocked 1000 true).2 =
  delete (lit "shell") SampleHost.auths.
Proof.
  refine (proj2 (@open_shell_exact SampleHost.regex SampleHost.text SampleHost.policy (lit "shell")
    SampleHost.shell SampleHost.digest SampleHost.auths Unlocked 1000 true
    (mkOpenShell (lit "shell") Root 601000)) _).
  vm_compute. reflexivity.
Defined.

(** A command runs in a shell exactly when the host is unlocked, the
    shell is open and not over, and the command, resolved without templates,
    is of the shell's tier. *)
Theorem shell_command_exact `{RegexLib, JsonText} p shell id raw lock now job :
  admit_shell_command p shell id raw lock now = Ok job <->
  is_locked lock = false /\ exists s n, shell = Some s /\ (now < os_expires_at s)%N /\
    normalize p raw true = Ok n /\ n_tier n = os_tier s /\
    job = AdmittedJob_new id n ViaShell (Some (os_id s)).
Proof. apply shell_command_ok. Qed.
