(* ===== verification/Hostd.v ===== *)
(** The host daemon ([crates/hostd/src/daemon.rs], with the local API of
    [ctl.rs] and the spool's ids of [spool.rs]): its state, its handlers,
    and the sections of them that run under the state lock, between which
    other handlers run. The time, a write's outcome, a code's text, polkit's
    answer and a prompt's nonce are arguments. *)

From stdpp Require Import gmap.
From S2P Require Import Prelude Json Glob Pyfmt Lifecycle Names Durations Pool Mail Authority Hostexec HostTypes Totp Output TotpCode TotpStore CanonicalJson Admission.
From stdpp Require Import options.

Definition PROMPT_WHO_MAX : nat := 120.
Definition PROMPT_WHAT_MAX : nat := 600.
Definition PROMPT_DETAIL_MAX : nat := 800.
Definition PROMPT_IDS_KEPT : nat := 4096.

(** ** State *)

Record ShownPrompt := mkShown { sp_nonce : str; sp_conn : N; sp_desk : option DeskPrompt }.
Record RunningJob := mkRunning { rj_shell : option str; rj_killed : bool }.
Record Helper := mkHelper { h_conn : N; h_pid : Z; h_start_time : option N }.

(** The state behind the lock, the flag in memory ([locked]) and on disk
    ([flag]), the secrets' slots, and the spool ([true]: a finished job). *)
Record State := mkState {
  st_arm : ArmState;
  st_auths : gmap str Authorization;
  st_jobs : gmap str RunningJob;
  st_shells : gmap str OpenShell;
  st_prompts : gmap str ShownPrompt;
  st_prompt_ids : list str;
  st_orphans : gset str;
  st_helper : option Helper;
  st_stopping : bool;
  st_locked : bool;
  st_flag : bool;
  st_totp : SecretName -> Slot;
  st_spool : gmap str bool;
}.

Definition State_default : State :=
  mkState ArmState_default ∅ ∅ ∅ ∅ [] ∅ None false false false (fun _ => Slot_empty) ∅.

Definition with_arm (s : State) (a : ArmState) : State :=
  mkState a (st_auths s) (st_jobs s) (st_shells s) (st_prompts s) (st_prompt_ids s) (st_orphans s)
    (st_helper s) (st_stopping s) (st_locked s) (st_flag s) (st_totp s) (st_spool s).
Definition with_auths (s : State) (a : gmap str Authorization) : State :=
  mkState (st_arm s) a (st_jobs s) (st_shells s) (st_prompts s) (st_prompt_ids s) (st_orphans s)
    (st_helper s) (st_stopping s) (st_locked s) (st_flag s) (st_totp s) (st_spool s).
Definition with_jobs (s : State) (j : gmap str RunningJob) : State :=
  mkState (st_arm s) (st_auths s) j (st_shells s) (st_prompts s) (st_prompt_ids s) (st_orphans s)
    (st_helper s) (st_stopping s) (st_locked s) (st_flag s) (st_totp s) (st_spool s).
Definition with_shells (s : State) (x : gmap str OpenShell) : State :=
  mkState (st_arm s) (st_auths s) (st_jobs s) x (st_prompts s) (st_prompt_ids s) (st_orphans s)
    (st_helper s) (st_stopping s) (st_locked s) (st_flag s) (st_totp s) (st_spool s).
Definition with_prompts (s : State) (p : gmap str ShownPrompt) (ids : list str) : State :=
  mkState (st_arm s) (st_auths s) (st_jobs s) (st_shells s) p ids (st_orphans s)
    (st_helper s) (st_stopping s) (st_locked s) (st_flag s) (st_totp s) (st_spool s).
Definition with_orphans (s : State) (o : gset str) : State :=
  mkState (st_arm s) (st_auths s) (st_jobs s) (st_shells s) (st_prompts s) (st_prompt_ids s) o
    (st_helper s) (st_stopping s) (st_locked s) (st_flag s) (st_totp s) (st_spool s).
Definition with_helper (s : State) (h : option Helper) : State :=
  mkState (st_arm s) (st_auths s) (st_jobs s) (st_shells s) (st_prompts s) (st_prompt_ids s)
    (st_orphans s) h (st_stopping s) (st_locked s) (st_flag s) (st_totp s) (st_spool s).
Definition with_stopping (s : State) (b : bool) : State :=
  mkState (st_arm s) (st_auths s) (st_jobs s) (st_shells s) (st_prompts s) (st_prompt_ids s)
    (st_orphans s) (st_helper s) b (st_locked s) (st_flag s) (st_totp s) (st_spool s).
Definition with_lock (s : State) (locked flag : bool) : State :=
  mkState (st_arm s) (st_auths s) (st_jobs s) (st_shells s) (st_prompts s) (st_prompt_ids s)
    (st_orphans s) (st_helper s) (st_stopping s) locked flag (st_totp s) (st_spool s).
Definition with_slot (s : State) (name : SecretName) (slot : Slot) : State :=
  mkState (st_arm s) (st_auths s) (st_jobs s) (st_shells s) (st_prompts s) (st_prompt_ids s)
    (st_orphans s) (st_helper s) (st_stopping s) (st_locked s) (st_flag s)
    (fun n => if bool_decide (n = name) then slot else st_totp s n) (st_spool s).
Definition with_spool (s : State) (sp : gmap str bool) : State :=
  mkState (st_arm s) (st_auths s) (st_jobs s) (st_shells s) (st_prompts s) (st_prompt_ids s)
    (st_orphans s) (st_helper s) (st_stopping s) (st_locked s) (st_flag s) (st_totp s) sp.

(** ** Messages of the broker *)

Record AuthorizeMsg := mkAuthorizeMsg {
  am_job : str; am_tier : Tier; am_digest : str; am_totp : str; am_shell : bool }.
Record EvidenceMsg := mkEvidenceMsg {
  em_request : str; em_decided_by : option str; em_source : option str; em_window : bool }.
Record JobStartMsg := mkJobStartMsg {
  js_job : str; js_spec : list (str * Value); js_evidence : EvidenceMsg }.
Record ShellOpenMsg := mkShellOpenMsg { so_shell : str; so_spec : list (str * Value) }.
Record ShellExecMsg := mkShellExecMsg { sx_shell : str; sx_job : str; sx_spec : list (str * Value) }.
Record PrecheckJobMsg := mkPrecheckJobMsg {
  pj_spec : list (str * Value); pj_source : option str; pj_totp : bool; pj_job : option str;
  pj_window : bool }.

(** SHA-256 in lowercase hexadecimal, of ASCII text. *)
Class Sha256Hex := { sha256_hex : str -> str }.

(** What a handler replies: the reply's data, or the text of the refusal. *)
Abbreviation HandlerResult := (result str Value) (only parsing).

Section daemon.
Context `{RegexLib, JsonText, HmacSha1, Sha256Hex}.
Variable policy : HostPolicy.

(** [digest] of [crates/crypto/src/digest.rs]. *)
Definition digest (value : Value) : result CanonicalError str :=
  sha256_hex <$> to_canonical_string value.

Definition spec_digest (raw : Value) : result str str :=
  d ← map_err (fun _ => lit "malformed job") (digest raw);
  SpecDigest_parse d.

Definition source (s decided_by : option str) : option Source := Source_from_evidence s decided_by.

(** The lockdown file exists, or cannot be checked. *)
Definition lock_state (s : State) : LockState :=
  if st_locked s || st_flag s then HostLocked else Unlocked.

Definition view (s : State) (now : UnixMillis) : HostView :=
  mkView policy (st_arm s) (lock_state s) now.

Definition secs_of (now : UnixMillis) : N := (now / 1000)%N.

Definition locked_text : str := host_name policy ++ lit " is locked down".

(** ** Decisions *)

Definition precheck_shell_handler (s : State) (tier : Tier) (duration : N) : HandlerResult :=
  precheck_shell policy (Some (VString (Tier_as_str tier))) (Some (VNumber (PosInt duration)))
  (lock_state s);;
  Ok (json_obj [(lit "needs", VString (lit "totp"))]).

Definition precheck_job_handler (s : State) (j : PrecheckJobMsg) (now : UnixMillis) : HandlerResult :=
  let raw := VObject (pj_spec j) in
  d ← spec_digest raw;
  via ← precheck_job (view s now) raw d (pj_totp j) (pj_job j)
        (mkEvidence (source (pj_source j) None) (pj_window j)) (st_auths s);
  Ok (json_obj [(lit "via", VString (Via_as_str via))]).

(** [verify]: one secret's slot changes. *)
Definition verify_code (s : State) (name : SecretName) (code : str) (now : UnixMillis) (io : option str)
  : result str AcceptedCode * State :=
  let '(r, slot) := store_verify (st_totp s name) name code (secs_of now) io in
  (map_err TotpError_text r, with_slot s name slot).

Definition shell_enrolled (s : State) (tier : Tier) : bool :=
  enrolled (st_totp s (mkSecret tier PurposeShell)).

(** *** [authorize]: up to the code, then under the lock *)

Record Authorizing := mkAuthorizing {
  au_job : str; au_tier : Tier; au_digest : str; au_code : AcceptedCode; au_approval : TotpApproval }.

Definition authorize_code (s : State) (a : AuthorizeMsg) (now : UnixMillis) (io : option str)
  : result str Authorizing * State :=
  match
  (job ← LocalId_parse (am_job a);
   tier ← check_tier policy (Some (VString (Tier_as_str (am_tier a))));
   d ← SpecDigest_parse (am_digest a);
   if is_locked (lock_state s) then Err locked_text else Ok (job, tier, d))
with
  | Err e => (Err e, s)
  | Ok (job, tier, d) =>
    let secret := if am_shell a then shell_secret tier (shell_enrolled s tier)
                  else mkSecret tier PurposeDirect in
    let '(code, s) := verify_code s secret (am_totp a) now io in
    (code ← code;
     approval ← (if am_shell a then TotpApproval_for_shell code d else TotpApproval_new code d);
     Ok (mkAuthorizing job tier d code approval), s)
  end.

Definition authorize_record (s : State) (a : Authorizing) (now : UnixMillis) : HandlerResult * State :=
  if is_locked (lock_state s) then (Err locked_text, s)
  else (Ok (json_obj [(lit "authorized", VBool true)]),
      with_auths s (record_totp (st_auths s) (au_job a) (au_approval a) now)).

Definition authorize (s : State) (a : AuthorizeMsg) (now : UnixMillis) (io : option str)
  : HandlerResult * State :=
  match authorize_code s a now io with
  | (Err e, s) => (Err e, s)
  | (Ok p, s) => authorize_record s p now
  end.

(** *** Jobs *)

Definition spool_exists (s : State) (id : str) : bool := negb (is_none (st_spool s !! id)).

Definition already_ran (s : State) (id : str) : bool :=
  negb (is_none (st_jobs s !! id)) || bool_decide (id ∈ st_orphans s) || spool_exists s id.

(** [launch]: spool, register (the run itself is [run_job]). *)
Definition launch (s : State) (job : AdmittedJob) (io : option str) : result str unit * State :=
  match io with
  | Some e => (Err (lit "hostd error: could not spool the job: " ++ e), s)
  | None =>
    (Ok tt, with_jobs (with_spool s (<[aj_id job := false]> (st_spool s)))
              (<[aj_id job := mkRunning (aj_shell job) false]> (st_jobs s)))
  end.

(** The job admitted, whether or not it could be spooled, is the second
    result: what the journal says. *)
Definition job_start (s : State) (m : JobStartMsg) (now : UnixMillis) (io : option str)
  : HandlerResult * option AdmittedJob * State :=
  match LocalId_parse (js_job m) with
  | Err e => (Err e, None, s)
  | Ok id =>
    let raw := VObject (js_spec m) in
    if already_ran s id then (Err (lit "that job already ran here"), None, s)
    else
      match (d ← spec_digest raw; job ← normalize policy raw false; Ok (d, job)) with
      | Err why => (Err why, None, s)
      | Ok (d, job) =>
          let evidence := mkEvidence
            (source (em_source (js_evidence m)) (em_decided_by (js_evidence m)))
            (em_window (js_evidence m)) in
          let '(admitted, auths) := admit_job (view s now) id job d evidence (st_auths s) in
          let s := with_auths s auths in
          match admitted with
          | Err why => (Err why, None, s)
          | Ok job =>
              match launch s job io with
              | (Err e, s) => (Err e, Some job, s)
              | (Ok _, s) =>
                  (Ok (json_obj [(lit "started", VBool true);
                                 (lit "via", VString (Via_as_str (aj_via job)))]), Some job, s)
              end
          end
      end
  end.

(** A job's end: what its result says of errors. *)
Definition job_outcome_error (stopping killed : bool) (exit_code : option Z) (error : option str)
  : option str :=
  if stopping then Some (lit "hostd stopped while the job was running")
  else if killed && negb (is_none exit_code) then Some (lit "killed")
  else if killed && is_none error then Some (lit "killed before it started")
  else error.

(** The end of [run_job]: spooled as done, no longer running. *)
Definition job_done (s : State) (id : str) (io : option str) : State :=
  let s := match io with
         | None => with_spool s (<[id := true]> (st_spool s))
         | Some _ => s
         end in
  with_jobs s (delete id (st_jobs s)).

Definition job_ack (s : State) (id : str) : State :=
  match st_spool s !! id with
  | Some true => with_spool s (delete id (st_spool s))
  | _ => s
  end.

(** [kill]: [Some true] signals the run, [Some false] stops a unit left by
    an earlier hostd. *)
Definition kill (s : State) (id : str) : option bool * State :=
  match st_jobs s !! id with
  | Some job => (Some true, with_jobs s (<[id := mkRunning (rj_shell job) true]> (st_jobs s)))
  | None =>
    if bool_decide (id ∈ st_orphans s) then (Some false, with_orphans s (st_orphans s ∖ {[id]}))
    else (None, s)
  end.

(** ** Shells *)

Definition shell_open (s : State) (o : ShellOpenMsg) (now : UnixMillis)
  : result str OpenShell * State :=
  match
  (id ← LocalId_parse (so_shell o);
   spec ← parse_shell_request policy (VObject (so_spec o));
   d ← spec_digest (ShellSpec_to_json spec);
   Ok (id, spec, d))
with
  | Err e => (Err e, s)
  | Ok (id, spec, d) =>
    let '(opened, auths) := open_shell policy id spec d (st_auths s) (lock_state s) now
                              (shell_enrolled s (sh_tier spec)) in
    let s := with_auths s auths in
    match opened with
    | Err e => (Err e, s)
    | Ok shell => (Ok shell, with_shells s (<[id := shell]> (st_shells s)))
    end
  end.

Definition shell_exec (s : State) (x : ShellExecMsg) (now : UnixMillis) (io : option str)
  : HandlerResult * option AdmittedJob * State :=
  match (shell_id ← LocalId_parse (sx_shell x); id ← LocalId_parse (sx_job x); Ok (shell_id, id)) with
  | Err e => (Err e, None, s)
  | Ok (shell_id, id) =>
    if already_ran s id then (Err (lit "that job already ran here"), None, s)
    else
      match admit_shell_command policy (st_shells s !! shell_id) id (VObject (sx_spec x))
              (lock_state s) now with
      | Err e => (Err e, None, s)
      | Ok job =>
          match launch s job io with
          | (Err e, s) => (Err e, Some job, s)
          | (Ok _, s) => (Ok (json_obj [(lit "started", VBool true)]), Some job, s)
          end
      end
  end.

(** [end_shell]'s section under the lock: the shell goes; its jobs are to
    be killed. *)
Definition jobs_of_shell (s : State) (id : str) : list str :=
  map fst (List.filter (fun kv : str * RunningJob => bool_decide (rj_shell kv.2 = Some id))
           (map_to_list (st_jobs s))).
Definition end_shell_section (s : State) (id : str) : option (list str) * State :=
  match st_shells s !! id with
  | None => (None, s)
  | Some _ => (Some (jobs_of_shell s id), with_shells s (delete id (st_shells s)))
  end.
Definition kill_all (s : State) (ids : list str) : State :=
  fold_left (fun s id => (kill s id).2) ids s.
Definition end_shell (s : State) (id : str) : bool * State :=
  match end_shell_section s id with
  | (None, s) => (false, s)
  | (Some jobs, s) => (true, kill_all s jobs)
  end.

(** ** Arming *)

(** [arm]: under the lock a lockdown takes. *)
Definition arm_section (s : State) (tier : Tier) (secs : N) (proof : ArmProof) (now : UnixMillis)
  : result str UnixMillis * State :=
  match arm (st_arm s) policy tier secs proof (lock_state s) now with
  | Err e => (Err e, s)
  | Ok (until, a) => (Ok until, with_arm s a)
  end.

Definition arm_code (s : State) (tier : Tier) (code : str) (now : UnixMillis) (io : option str)
  : result str AcceptedCode * State :=
  match check_can_arm policy tier (lock_state s) with
  | Err e => (Err e, s)
  | Ok _ => verify_code s (mkSecret tier PurposeArm) code now io
  end.

Definition arm_remote (s : State) (tier : Tier) (secs : N) (code : str) (now : UnixMillis)
  (io : option str) : result str UnixMillis * State :=
  match arm_code s tier code now io with
  | (Err e, s) => (Err e, s)
  | (Ok code, s) => arm_section s tier secs (ProofTotp code) now
  end.

Definition arm_local (s : State) (tier : Tier) (secs : N) (caller : LocalCaller) (now : UnixMillis)
  : result str UnixMillis * State := arm_section s tier secs (ProofLocal caller) now.

Definition disarm_section (s : State) (tier : option Tier) : State := with_arm s (disarm (st_arm s) tier).

(** ** The kill switch *)

(** [lockdown]'s sections: the flag in memory; the flag on disk ([None]:
    written); what is dropped, with the shells and jobs to end; their ends. *)
Definition lockdown_flag (s : State) : State := with_lock s true (st_flag s).
Definition lockdown_write (s : State) (io : option str) : State :=
  match io with None => with_lock s (st_locked s) true | Some _ => s end.
Definition map_keys_of {V} (m : gmap str V) : list str := map fst (map_to_list m).
Definition lockdown_clear (s : State) : list str * list str * State :=
  let s := with_arm s (disarm (st_arm s) None) in
  let s := with_auths s (authz_clear (st_auths s)) in
  let s := with_prompts s ∅ (st_prompt_ids s) in
  (map_keys_of (st_shells s), map_keys_of (st_jobs s) ++ elements (st_orphans s), s).
Definition lockdown (s : State) (io : option str) : result str unit * State :=
  let s := lockdown_write (lockdown_flag s) io in
  let '(shells, jobs, s) := lockdown_clear s in
  let s := fold_left (fun s id => (end_shell s id).2) shells s in
  let s := kill_all s jobs in
  (match io with
  | None => Ok tt
  | Some e => Err (lit "hostd error: could not write the lockdown flag: " ++ e)
  end, s).

(** [unlock]: the file is removed, then the flag in memory is cleared. *)
Definition unlock (s : State) (io : option str) : result str unit * State :=
  match io with
  | Some e => (Err (lit "hostd error: could not remove the lockdown flag: " ++ e), s)
  | None => (Ok tt, with_lock s false false)
  end.

Definition NO_UNLOCK_SECRET : str :=
  lit "this host has no root-unlock secret: unlock it with hostctl on the host, or enroll one (agent-auth-hostd totp-enroll root-unlock)".

(** The broker's [unlock], up to its proof. *)
Definition unlock_code (s : State) (code : str) (now : UnixMillis) (io : option str)
  : result str AcceptedCode * State :=
  let name := mkSecret Root PurposeUnlock in
  if negb (enrolled (st_totp s name)) then (Err NO_UNLOCK_SECRET, s)
  else
  let '(code, s) := verify_code s name code now io in
  (code ← code; check_unlock (ProofTotp code);; Ok code, s).
Definition unlock_remote (s : State) (code : str) (now : UnixMillis) (io rm : option str)
  : result str unit * State :=
  match unlock_code s code now io with
  | (Err e, s) => (Err e, s)
  | (Ok _, s) => unlock s rm
  end.

(** ** The desk *)

Record DeskJobMsg := mkDeskJobMsg { dj_job : str; dj_spec : list (str * Value) }.
Record PromptMsg := mkPromptMsg {
  pm_prompt : str; pm_request : str; pm_who : str; pm_what : str; pm_detail : str;
  pm_timeout : N; pm_job : option DeskJobMsg }.

Variable run_as : option str.

Definition as_whom (tier : Tier) : str :=
  match tier with
  | Root => lit "ROOT"
  | User => default (lit "your user") run_as
  end.

(** A middle dot between spaces. *)
Definition DOT : str := [32; 183; 32]%N.
Definition TOO_LONG : str := lit "too long to show in full at a desk".

Definition desk_shell (s : State) (shell_id : str) (raw : Value) (who : str) (now : UnixMillis)
  : result str (str * str * DeskPrompt) :=
  spec ← parse_shell_request policy raw;
  d ← spec_digest (ShellSpec_to_json spec);
  let what := lit "open a shell on " ++ host_name policy ++ lit " as " ++ as_whom (sh_tier spec)
            ++ lit " for " ++ format_duration (sh_duration spec) in
  let extra := lit "every command in it runs without asking again" in
  let message := who ++ lit " asks to " ++ what in
  prompt ← desk_shell_prompt (view s now) shell_id d spec message;
  Ok (what, extra, prompt).

Definition desk_job (s : State) (job : DeskJobMsg) (who : str) (now : UnixMillis)
  : result str (str * str * DeskPrompt) :=
  job_id ← LocalId_parse (dj_job job);
  let raw := VObject (dj_spec job) in
  if bool_decide ((v ← map_get (lit "kind") (dj_spec job); as_str v) = Some (lit "shell")) then
  desk_shell s job_id raw who now
  else
  d ← spec_digest raw;
  normalized ← normalize policy raw false;
  let what := lit "run on " ++ host_name policy ++ lit " as " ++ as_whom (n_tier normalized)
              ++ lit ": " ++ display_argv (n_argv normalized) in
  let extra := join DOT (command_extras (n_cwd normalized) (n_env normalized) (n_stdin normalized)) in
  if Nat.ltb PROMPT_WHAT_MAX (length what) || Nat.ltb PROMPT_DETAIL_MAX (length extra) then Err TOO_LONG
  else
    let message := if bool_decide (extra = []) then who ++ lit " asks to " ++ what
                   else who ++ lit " asks to " ++ what ++ lit " (" ++ extra ++ lit ")" in
    prompt ← desk_prompt (view s now) job_id d normalized message;
    Ok (what, extra, prompt).

Definition ALREADY_UP : str := lit "that prompt is already up".
Definition NOBODY : str := lit "nobody is at this desktop".

(** What a helper is sent. *)
Record HelperPrompt := mkHelperPrompt {
  hp_nonce : str; hp_who : str; hp_what : str; hp_detail : str; hp_timeout : N }.

(** [prompt] up to the lock: what would be shown, and the approval an Allow
    would be. [present]: someone is at the desk; [max_timeout]: the
    desktop's [prompt_timeout_secs]. *)
Definition prompt_prepare (s : State) (p : PromptMsg) (present : bool) (max_timeout : N) (nonce : str)
  (now : UnixMillis) : result str (str * HelperPrompt * option DeskPrompt) :=
  prompt_id ← LocalId_parse (pm_prompt p);
  if bool_decide (prompt_id ∈ st_prompt_ids s) then Err ALREADY_UP
  else if negb present then Err NOBODY
  else
  let who_raw := if bool_decide (pm_who p = []) then lit "an agent" else pm_who p in
  let who := one_line who_raw PROMPT_WHO_MAX in
  let what := one_line (pm_what p) PROMPT_WHAT_MAX in
  let detail := one_line (pm_detail p) PROMPT_DETAIL_MAX in
  '(what, detail, desk) ←
    match pm_job p with
    | None => Ok (what, detail, None)
    | Some job =>
        '(w, extra, prompt) ← desk_job s job who now;
        Ok (w, join DOT (List.filter (fun t => negb (bool_decide (t = []))) [extra; detail]), Some prompt)
    end;
  let timeout := N.min (pm_timeout p) (if N.leb max_timeout MAX_U32 then max_timeout else MAX_U32) in
  let timeout := if N.eqb timeout 0 then N.min 90 max_timeout else timeout in
  Ok (prompt_id, mkHelperPrompt nonce who what detail timeout, desk).

(** The rest, under the lock. [sent]: the helper's queue took it. *)
Definition prompt_show (s : State) (prompt_id nonce : str) (desk : option DeskPrompt) (sent : bool)
  : HandlerResult * State :=
  match st_helper s with
  | None => (Err NOBODY, s)
  | Some h =>
    if negb sent then (Err NOBODY, with_helper s None)
    else if bool_decide (prompt_id ∈ st_prompt_ids s) then (Err ALREADY_UP, s)
    else
      let ids := if Nat.leb PROMPT_IDS_KEPT (length (st_prompt_ids s))
                 then drop 1 (st_prompt_ids s) else st_prompt_ids s in
      (Ok (json_obj [(lit "shown", VBool true); (lit "approves", VBool (negb (is_none desk)))]),
       with_prompts s (<[prompt_id := mkShown nonce (h_conn h) desk]> (st_prompts s))
         (ids ++ [prompt_id]))
  end.

(** [prompt.cancel]: the prompt goes; the helper to tell. *)
Definition prompt_cancel (s : State) (id : str) : option str * State :=
  let shown := st_prompts s !! id in
  (p ← shown; h ← st_helper s; if N.eqb (h_conn h) (sp_conn p) then Some (sp_nonce p) else None,
  with_prompts s (delete id (st_prompts s)) (st_prompt_ids s)).

Definition helper_is (s : State) (conn : N) : bool :=
  match st_helper s with Some h => N.eqb (h_conn h) conn | None => false end.
Definition helper_attached (s : State) (conn : N) (pid : Z) (start_time : option N) : State :=
  with_helper s (Some (mkHelper conn pid start_time)).
Definition helper_detached (s : State) (conn : N) : State :=
  if helper_is s conn then with_helper s None else s.

Definition desk_answer (answer : str) : str :=
  if existsb (str_eqb answer) [lit "allow"; lit "deny"; lit "mute"; lit "discord"; lit "timeout"]
  then answer else lit "timeout".

Definition find_nonce (prompts : gmap str ShownPrompt) (nonce : str) : option (str * N) :=
  kv ← find (fun kv : str * ShownPrompt => str_eqb (sp_nonce kv.2) nonce) (map_to_list prompts);
  Some (kv.1, sp_conn kv.2).

(** [answered] up to the password: the prompt is taken down when its own
    connection answers. *)
Definition answered_take (s : State) (nonce : str) (conn : N)
  : option (str * option DeskPrompt) * State :=
  let current := helper_is s conn in
  match find_nonce (st_prompts s) nonce with
  | Some (id, shown_on) =>
    if N.eqb shown_on conn && current then
      (Some (id, p ← st_prompts s !! id; sp_desk p),
       with_prompts s (delete id (st_prompts s)) (st_prompt_ids s))
    else (None, s)
  | None => (None, s)
  end.

(** Is the user's password asked for? *)
Definition asks_polkit (s : State) (desk : DeskPrompt) : bool :=
  needs_polkit desk && negb (is_locked (lock_state s)).

(** The rest, under the lock: the answer sent, and whether it authorized. *)
Definition answered_record (s : State) (desk : DeskPrompt) (conn : N) (polkit : bool)
  (now : UnixMillis) : str * bool * State :=
  match desk_approval desk (helper_is s conn) (lock_state s) polkit with
  | Ok (job, approval) =>
    (lit "allow", true, with_auths s (record_desk (st_auths s) job approval now))
  | Err _ => (lit "discord", false, s)
  end.

Definition answered (s : State) (nonce answer : str) (conn : N) (confirmed : bool) (now : UnixMillis)
  : option (str * str * bool) * State :=
  let answer := desk_answer answer in
  match answered_take s nonce conn with
  | (None, s) => (None, s)
  | (Some (id, Some desk), s) =>
    if str_eqb answer (lit "allow") then
      let '(answer, authorized, s') :=
        answered_record s desk conn (asks_polkit s desk && confirmed) now in
      (Some (id, answer, authorized), s')
    else (Some (id, answer, false), s)
  | (Some (id, None), s) => (Some (id, answer, false), s)
  end.

(** ** Lifecycle *)

(** [recover]: jobs of the spool that were running are done (lost),
    unreadable and old results go ([gone]); the units still running are
    orphans, stopped first on a locked host. *)
Definition recover (s : State) (gone : gset str) (leftover : list str) : State :=
  let kept := filter (fun kv : str * bool => kv.1 ∉ gone) (st_spool s) in
  with_orphans (with_spool s (fmap (fun _ => true) kept)) (st_orphans s ∪ list_to_set leftover).

(** A restart: what is in memory only is gone. *)
Definition restart (s : State) : State :=
  mkState ArmState_default ∅ ∅ ∅ ∅ [] ∅ None false false (st_flag s)
  (fun n => mkSlot (secret (st_totp s n)) (stored (st_totp s n)) false) (st_spool s).

Definition shutdown (s : State) : State := with_stopping s true.

(** ** The local API ([ctl.rs]) *)

Definition ctl_caller (uid : N) (user_uid : option N) : result str LocalCaller :=
  if N.eqb uid 0 then Ok CallerRoot
  else if bool_decide (user_uid = Some uid) then Ok CallerUser
  else Err (lit "not for this user").

Definition root_only (caller : LocalCaller) (method : str) : result str unit :=
  if bool_decide (caller = CallerRoot) then Ok tt else Err (method ++ lit " needs root").

(** The tier named by [arm], and whether the caller may name it. *)
Definition ctl_arm_tier (caller : LocalCaller) (tier : option str) : result str Tier :=
  let name := default (lit "user") tier in
  (if negb (str_eqb name (lit "user")) then root_only caller (lit "arm") else Ok tt);;
  ok_or (Tier_parse name) (lit "tier must be user or root").

Definition ctl_arm (s : State) (caller : LocalCaller) (tier : option str) (secs : N) (now : UnixMillis)
  : result str UnixMillis * State :=
  match ctl_arm_tier caller tier with
  | Err e => (Err e, s)
  | Ok tier => arm_local s tier secs caller now
  end.

Definition ctl_disarm (s : State) (tier : option str) : State :=
  disarm_section s (t ← tier; Tier_parse t).

Definition ctl_unlock (s : State) (caller : LocalCaller) (rm : option str) : result str unit * State :=
  match root_only caller (lit "unlock") with
  | Err e => (Err e, s)
  | Ok _ => unlock s rm
  end.

Definition ctl_totp_unlock (s : State) (caller : LocalCaller) (name : option str) (now : UnixMillis)
  (io : option str) : result str unit * State :=
  match
  (root_only caller (lit "totp-unlock");;
   ok_or (n ← name; SecretName_parse n)
     (lit "name: user-arm | user-direct | root-arm | root-direct | user-shell | root-shell | root-unlock"))
with
  | Err e => (Err e, s)
  | Ok name =>
    let '(r, slot) := store_clear_lock (st_totp s name) (secs_of now) io in
    (map_err TotpError_text r, with_slot s name slot)
  end.
End daemon.
