(* ===== verification/HostdRuns.v ===== *)
(** Runs of the host daemon: the sections of [Hostd]'s handlers as steps,
    in any order a scheduler may take them, with the journal they write
    (newest entry first) and the handlers between two sections as tasks. *)

From stdpp Require Import gmap.
From S2P Require Import Prelude Json Glob Pyfmt Lifecycle Names Durations Pool Mail Authority Hostexec HostTypes Totp Output TotpCode TotpStore CanonicalJson Admission Hostd.
From stdpp Require Import options.

(** ** Worlds *)

Inductive Task :=
| TAuthorize (p : Authorizing)
| TArm (tier : Tier) (secs : N) (code : AcceptedCode)
| TUnlock (code : AcceptedCode)
| TPrompt (prompt_id nonce : str) (desk : option DeskPrompt)
| TDesk (desk : DeskPrompt) (conn : N)
| TLockWrite
| TLockClear
| TEnd (shell : str)
| TKill (job : str).

(** What an approval rests on. *)
Inductive Ground := ByCode (code : AcceptedCode) | ByDesk (desk : DeskPrompt) (password : bool).

Inductive Entry :=
| JCode (code : AcceptedCode)
| JApproved (job : str) (a : Authorization) (ground : Ground)
| JShown (desk : DeskPrompt)
| JAdmitted (job : AdmittedJob) (digest : str) (now : UnixMillis)
| JOpened (shell : OpenShell) (digest : str) (now : UnixMillis)
| JShellRan (job : AdmittedJob) (now : UnixMillis)
| JArmed (tier : Tier) (until : UnixMillis) (proof : ArmProof) (now : UnixMillis)
| JDisarmed (tier : option Tier)
| JLocked
| JUnlocked (proof : ArmProof)
| JSlot (name : SecretName)
| JRestart.

Record World := mkWorld { w_state : State; w_tasks : list Task; w_log : list Entry }.

Section runs.
Context `{RegexLib, JsonText, HmacSha1, Sha256Hex}.
Variable policy : HostPolicy.
Variable run_as : option str.

Inductive step : World -> World -> Prop :=
| step_code s ts log a now io p s' :
authorize_code policy s a now io = (Ok p, s') ->
step (mkWorld s ts log) (mkWorld s' (TAuthorize p :: ts) (JCode (au_code p) :: log))
| step_code_refused s ts log a now io e s' :
authorize_code policy s a now io = (Err e, s') -> step (mkWorld s ts log) (mkWorld s' ts log)
| step_record s pre p post log now v s' a :
authorize_record policy s p now = (Ok v, s') -> st_auths s' !! au_job p = Some a ->
step (mkWorld s (pre ++ TAuthorize p :: post) log)
  (mkWorld s' (pre ++ post) (JApproved (au_job p) a (ByCode (au_code p)) :: log))
| step_record_refused s pre p post log now e s' :
authorize_record policy s p now = (Err e, s') ->
step (mkWorld s (pre ++ TAuthorize p :: post) log) (mkWorld s' (pre ++ post) log)
| step_job s ts log m now io r job d s' :
job_start policy s m now io = (r, Some job, s') -> spec_digest (VObject (js_spec m)) = Ok d ->
step (mkWorld s ts log) (mkWorld s' ts (JAdmitted job d now :: log))
| step_job_refused s ts log m now io r s' :
job_start policy s m now io = (r, None, s') -> step (mkWorld s ts log) (mkWorld s' ts log)
| step_open s ts log o now spec d shell s' :
parse_shell_request policy (VObject (so_spec o)) = Ok spec ->
spec_digest (ShellSpec_to_json spec) = Ok d ->
shell_open policy s o now = (Ok shell, s') ->
step (mkWorld s ts log) (mkWorld s' ts (JOpened shell d now :: log))
| step_open_refused s ts log o now e s' :
shell_open policy s o now = (Err e, s') -> step (mkWorld s ts log) (mkWorld s' ts log)
| step_exec s ts log x now io r job s' :
shell_exec policy s x now io = (r, Some job, s') ->
step (mkWorld s ts log) (mkWorld s' ts (JShellRan job now :: log))
| step_exec_refused s ts log x now io r s' :
shell_exec policy s x now io = (r, None, s') -> step (mkWorld s ts log) (mkWorld s' ts log)
| step_arm_code s ts log tier secs text now io code s' :
arm_code policy s tier text now io = (Ok code, s') ->
step (mkWorld s ts log) (mkWorld s' (TArm tier secs code :: ts) (JCode code :: log))
| step_arm_code_refused s ts log tier text now io e s' :
arm_code policy s tier text now io = (Err e, s') -> step (mkWorld s ts log) (mkWorld s' ts log)
| step_arm s pre tier secs code post log now until s' :
arm_section policy s tier secs (ProofTotp code) now = (Ok until, s') ->
step (mkWorld s (pre ++ TArm tier secs code :: post) log)
  (mkWorld s' (pre ++ post) (JArmed tier until (ProofTotp code) now :: log))
| step_arm_refused s pre tier secs code post log now e s' :
arm_section policy s tier secs (ProofTotp code) now = (Err e, s') ->
step (mkWorld s (pre ++ TArm tier secs code :: post) log) (mkWorld s' (pre ++ post) log)
| step_arm_local s ts log caller name tier secs now until s' :
ctl_arm policy s caller name secs now = (Ok until, s') -> ctl_arm_tier caller name = Ok tier ->
step (mkWorld s ts log) (mkWorld s' ts (JArmed tier until (ProofLocal caller) now :: log))
| step_arm_local_refused s ts log caller name secs now e s' :
ctl_arm policy s caller name secs now = (Err e, s') -> step (mkWorld s ts log) (mkWorld s' ts log)
| step_disarm s ts log tier :
step (mkWorld s ts log) (mkWorld (disarm_section s tier) ts (JDisarmed tier :: log))
| step_lock s ts log :
step (mkWorld s ts log) (mkWorld (lockdown_flag s) (TLockWrite :: ts) (JLocked :: log))
| step_lock_write s pre post log io :
step (mkWorld s (pre ++ TLockWrite :: post) log)
  (mkWorld (lockdown_write s io) (TLockClear :: pre ++ post) log)
| step_lock_clear s pre post log shells jobs s' :
lockdown_clear s = (shells, jobs, s') ->
step (mkWorld s (pre ++ TLockClear :: post) log)
  (mkWorld s' (map TEnd shells ++ map TKill jobs ++ pre ++ post) (JDisarmed None :: log))
| step_end s pre id post log jobs s' :
end_shell_section s id = (Some jobs, s') ->
step (mkWorld s (pre ++ TEnd id :: post) log) (mkWorld s' (map TKill jobs ++ pre ++ post) log)
| step_end_none s pre id post log s' :
end_shell_section s id = (None, s') ->
step (mkWorld s (pre ++ TEnd id :: post) log) (mkWorld s' (pre ++ post) log)
| step_close s ts log id :
step (mkWorld s ts log) (mkWorld s (TEnd id :: ts) log)
| step_kill s pre id post log :
step (mkWorld s (pre ++ TKill id :: post) log) (mkWorld (kill s id).2 (pre ++ post) log)
| step_ask_kill s ts log id :
step (mkWorld s ts log) (mkWorld s (TKill id :: ts) log)
| step_unlock_code s ts log text now io code s' :
unlock_code s text now io = (Ok code, s') ->
step (mkWorld s ts log) (mkWorld s' (TUnlock code :: ts) (JCode code :: log))
| step_unlock_code_refused s ts log text now io e s' :
unlock_code s text now io = (Err e, s') -> step (mkWorld s ts log) (mkWorld s' ts log)
| step_unlock s pre code post log rm s' :
unlock s rm = (Ok tt, s') ->
step (mkWorld s (pre ++ TUnlock code :: post) log)
  (mkWorld s' (pre ++ post) (JUnlocked (ProofTotp code) :: log))
| step_unlock_failed s pre code post log rm e s' :
unlock s rm = (Err e, s') ->
step (mkWorld s (pre ++ TUnlock code :: post) log) (mkWorld s' (pre ++ post) log)
| step_unlock_local s ts log caller rm s' :
ctl_unlock s caller rm = (Ok tt, s') ->
step (mkWorld s ts log) (mkWorld s' ts (JUnlocked (ProofLocal caller) :: log))
| step_prompt s ts log p present max_timeout nonce now id shown desk :
prompt_prepare policy run_as s p present max_timeout nonce now = Ok (id, shown, desk) ->
step (mkWorld s ts log) (mkWorld s (TPrompt id nonce desk :: ts) log)
| step_show s pre id nonce desk post log sent r s' :
prompt_show s id nonce desk sent = (r, s') ->
step (mkWorld s (pre ++ TPrompt id nonce desk :: post) log)
  (mkWorld s' (pre ++ post)
     match r, desk with Ok _, Some dp => JShown dp :: log | _, _ => log end)
| step_cancel s ts log id :
step (mkWorld s ts log) (mkWorld (prompt_cancel s id).2 ts log)
| step_helper s ts log h :
step (mkWorld s ts log) (mkWorld (with_helper s h) ts log)
| step_answer s ts log nonce conn id dp s' :
answered_take s nonce conn = (Some (id, Some dp), s') ->
step (mkWorld s ts log) (mkWorld s' (TDesk dp conn :: ts) log)
| step_answer_other s ts log nonce conn :
step (mkWorld s ts log) (mkWorld (answered_take s nonce conn).2 ts log)
| step_allow s pre dp conn post log password now answer s' a :
answered_record s dp conn password now = (answer, true, s') -> st_auths s' !! dp_job dp = Some a ->
step (mkWorld s (pre ++ TDesk dp conn :: post) log)
  (mkWorld s' (pre ++ post) (JApproved (dp_job dp) a (ByDesk dp password) :: log))
| step_allow_refused s pre dp conn post log password now answer s' :
answered_record s dp conn password now = (answer, false, s') ->
step (mkWorld s (pre ++ TDesk dp conn :: post) log) (mkWorld s' (pre ++ post) log)
| step_done s ts log id io : step (mkWorld s ts log) (mkWorld (job_done s id io) ts log)
| step_ack s ts log id : step (mkWorld s ts log) (mkWorld (job_ack s id) ts log)
| step_shutdown s ts log : step (mkWorld s ts log) (mkWorld (shutdown s) ts log)
| step_slot s ts log name slot :
step (mkWorld s ts log) (mkWorld (with_slot s name slot) ts (JSlot name :: log))
| step_restart s ts log gone leftover :
step (mkWorld s ts log) (mkWorld (recover (restart s) gone leftover) [] (JRestart :: log)).

Inductive reachable : World -> Prop :=
| reach_start : reachable (mkWorld State_default [] [])
| reach_step w w' : reachable w -> step w w' -> reachable w'.

Inductive steps : World -> World -> Prop :=
| steps_refl w : steps w w
| steps_then w w' w'' : steps w w' -> step w' w'' -> steps w w''.

(** ** What must have come before an entry *)

(** Between an arming and its use, the tier was not disarmed. *)
Definition disarms (tier : Tier) (e : Entry) : Prop :=
  match e with
  | JDisarmed None | JRestart => True
  | JDisarmed (Some t) => t = tier
  | JArmed t _ _ _ => t = tier
  | _ => False
  end.
Definition armed_by (tier : Tier) (until : UnixMillis) (log : list Entry) : Prop :=
  exists later proof now before, log = later ++ JArmed tier until proof now :: before /\
  Forall (fun e => ~ disarms tier e) later.

Definition approved (id : str) (tier : Tier) (digest : str) (now : UnixMillis)
  (vias : list ApprovalVia) (log : list Entry) : Prop :=
  exists a ground, JApproved id a ground ∈ log /\ az_tier a = tier /\ az_digest a = digest /\
  (now < expires_at a)%N /\ az_via a ∈ vias.

Definition justified (e : Entry) (before : list Entry) : Prop :=
  match e with
  | JCode _ | JDisarmed _ | JLocked | JSlot _ | JRestart => True
  | JShown dp => desk_approves policy (dp_tier dp) = true
  | JApproved id a (ByCode code) =>
    JCode code ∈ before /\ sn_tier (code_name code) = az_tier a /\
    match az_via a with
    | AvTotp => sn_purpose (code_name code) = PurposeDirect
    | AvTotpShell =>
        sn_purpose (code_name code) = PurposeShell \/ sn_purpose (code_name code) = PurposeArm
    | AvDesk | AvDeskShell => False
    end
  | JApproved id a (ByDesk dp password) =>
    JShown dp ∈ before /\ dp_job dp = id /\ dp_digest dp = az_digest a /\ dp_tier dp = az_tier a /\
    az_via a = (if dp_shell dp then AvDeskShell else AvDesk) /\
    (needs_polkit dp = true -> password = true)
  | JAdmitted job digest now =>
    match aj_via job with
    | ViaTotp => approved (aj_id job) (aj_tier job) digest now [AvTotp] before
    | ViaDesk => approved (aj_id job) (aj_tier job) digest now [AvDesk] before
    | ViaAuto =>
        aj_tier job = User /\ exists p, p ∈ auto_commands policy /\ auto_matches p (aj_argv job) = true
    | ViaShell => False
    | _ => exists until, (now < until)%N /\ armed_by (aj_tier job) until before
    end
  | JOpened shell digest now =>
    approved (os_id shell) (os_tier shell) digest now [AvTotpShell; AvDeskShell] before /\
    shell_enable (tier_policy policy (os_tier shell)) = true
  | JShellRan job now =>
    exists shell digest opened, JOpened shell digest opened ∈ before /\
      aj_shell job = Some (os_id shell) /\ aj_tier job = os_tier shell /\ (now < os_expires_at shell)%N
  | JArmed tier until proof now =>
    enable (tier_policy policy tier) = true /\
    (until <= now + max_arm_secs (tier_policy policy tier) * 1000)%N /\
    match proof with
    | ProofTotp code => JCode code ∈ before /\ code_name code = mkSecret tier PurposeArm
    | ProofLocal CallerUser => tier = User
    | ProofLocal CallerRoot => True
    end
  | JUnlocked proof =>
    match proof with
    | ProofTotp code => JCode code ∈ before /\ code_name code = mkSecret Root PurposeUnlock
    | ProofLocal caller => caller = CallerRoot
    end
  end.

Fixpoint log_ok (log : list Entry) : Prop :=
  match log with
  | [] => True
  | e :: before => justified e before /\ log_ok before
  end.
End runs.

(** One goal per step, with its names. *)
Ltac step_cases H :=
  destruct H as [s ts log a now io p s' E|s ts log a now io e s' E|s pre p post log now v s' a E Ea|
    s pre p post log now e s' E|s ts log m now io r job d s' E Ed|s ts log m now io r s' E|
    s ts log o now spec d shell s' Ep Ed E|s ts log o now e s' E|s ts log x now io r job s' E|
    s ts log x now io r s' E|s ts log tier secs text now io code s' E|s ts log tier text now io e s' E|
    s pre tier secs code post log now until s' E|s pre tier secs code post log now e s' E|
    s ts log caller name tier secs now until s' E Et|s ts log caller name secs now e s' E|
    s ts log tier|s ts log|s pre post log io|s pre post log shells jobs s' E|s pre id' post log jobs s' E|
    s pre id' post log s' E|s ts log id'|s pre id' post log|s ts log id'|s ts log text now io code s' E|
    s ts log text now io e s' E|s pre code post log rm s' E|s pre code post log rm e s' E|
    s ts log caller rm s' E|s ts log p present mt nonce now id' shown desk E|
    s pre id' nonce desk post log sent r s' E|s ts log id'|s ts log h|s ts log nonce conn id' dp s' E|
    s ts log nonce conn|s pre dp conn post log password now answer s' a E Ea|
    s pre dp conn post log password now answer s' E|s ts log id' io|s ts log id'|s ts log|
    s ts log name slot|s ts log gone leftover].

(** ** What each section changes *)

Section sections.
Context `{RegexLib, JsonText, HmacSha1, Sha256Hex}.
Variable policy : HostPolicy.
Variable run_as : option str.

Lemma verify_code_result s name text now io r s' :
  verify_code s name text now io = (r, s') ->
  (exists slot, s' = with_slot s name slot) /\ (forall code, r = Ok code -> code_name code = name).
Proof.
  unfold verify_code. pose proof (store_verify_cases (st_totp s name) name text (secs_of now) io) as Hc.
  destruct (store_verify _ _ _ _ _) as [o slot]. intros Heq. injection Heq as <- <-.
  split; [by exists slot|]. intros code Hcode.
  destruct Hc as [(e & -> & _)|(c & sec & st & -> & _ & _ & _ & _ & Hn & _)]; [done|].
  cbn in Hcode. by injection Hcode as <-.
Qed.

(** The approval waiting to be recorded is its code's. *)
Definition authorizing_ok (p : Authorizing) : Prop :=
  ta_tier (au_approval p) = sn_tier (code_name (au_code p)) /\
  (ta_purpose (au_approval p) = PurposeDirect /\ sn_purpose (code_name (au_code p)) = PurposeDirect \/
  ta_purpose (au_approval p) = PurposeShell /\
  (sn_purpose (code_name (au_code p)) = PurposeShell \/ sn_purpose (code_name (au_code p)) = PurposeArm)).

Lemma authorize_code_result s a now io r s' :
  authorize_code policy s a now io = (r, s') ->
  (exists name slot, s' = with_slot s name slot) \/ s' = s.
Proof.
  unfold authorize_code. destruct (mbind _ _) as [[[job tier] d]|e]; [|intros Heq; injection Heq as _ <-; by right].
  destruct (verify_code _ _ _ _ _) as [code s1] eqn:E. intros Heq. injection Heq as _ <-.
  apply verify_code_result in E as [[slot ->] _]. left. by eexists _, slot.
Qed.

Lemma authorize_code_ok s a now io p s' :
  authorize_code policy s a now io = (Ok p, s') -> authorizing_ok p.
Proof.
  unfold authorize_code. destruct (mbind _ _) as [[[job tier] d]|e]; [|done].
  destruct (verify_code _ _ _ _ _) as [code s1] eqn:E. intros Heq. injection Heq as Hp _.
  apply bind_ok in Hp as (c & -> & Hp). apply bind_ok in Hp as (ap & Hap & Hp). injection Hp as <-.
  unfold authorizing_ok. cbn [au_approval au_code]. destruct (am_shell a).
  - unfold TotpApproval_for_shell in Hap. destruct (sn_purpose (code_name c)) eqn:Ep; try done;
    injection Hap as <-; cbn; split; [done|right; split; [done|by right]|done|right; split; [done|by left]].
  - unfold TotpApproval_new in Hap.
  destruct (bool_decide_reflect (sn_purpose (code_name c) = PurposeDirect)); [|done].
  cbn [negb] in Hap. injection Hap as <-. cbn. split; [done|by left].
Qed.

(** Recording keeps the other approvals at most. *)
Lemma authz_insert_lookup auths job a now id b :
  authz_insert auths job a now !! id = Some b ->
  id = job /\ b = a \/ id <> job /\ auths !! id = Some b.
Proof.
  unfold authz_insert. rewrite lookup_insert_Some, map_lookup_filter_Some. naive_solver.
Qed.
Lemma authz_insert_same auths job a now : authz_insert auths job a now !! job = Some a.
Proof. apply lookup_insert_eq. Qed.

Lemma authorize_record_ok s p now v s' :
  authorize_record policy s p now = (Ok v, s') ->
  is_locked (lock_state s) = false /\ s' = with_auths s (record_totp (st_auths s) (au_job p) (au_approval p) now).
Proof. unfold authorize_record. destruct (is_locked _); [done|]. intros Heq. by injection Heq as _ <-. Qed.
Lemma authorize_record_err s p now e s' : authorize_record policy s p now = (Err e, s') -> s' = s.
Proof. unfold authorize_record. destruct (is_locked _); [|done]. intros Heq. by injection Heq. Qed.

Lemma answered_record_ok s dp conn password now answer s' :
  answered_record s dp conn password now = (answer, true, s') ->
  is_locked (lock_state s) = false /\ (needs_polkit dp = true -> password = true) /\
  s' = with_auths s (record_desk (st_auths s) (dp_job dp)
       (mkDeskApproval (dp_tier dp) (dp_digest dp) (dp_shell dp)) now).
Proof.
  unfold answered_record, desk_approval. destruct (is_locked _); [done|]. cbn [negb andb].
  destruct (helper_is s conn), (needs_polkit dp), password; cbn; try done;
  intros Heq; injection Heq as _ <-; done.
Qed.
Lemma answered_record_no s dp conn password now answer s' :
  answered_record s dp conn password now = (answer, false, s') -> s' = s.
Proof.
  unfold answered_record. destruct (desk_approval _ _ _ _) as [[job ap]|]; [done|].
  intros Heq. by injection Heq.
Qed.

(** *** Jobs *)

Lemma launch_frame s job io r s' :
  launch s job io = (r, s') ->
  st_arm s' = st_arm s /\ st_auths s' = st_auths s /\ st_shells s' = st_shells s /\
  st_prompts s' = st_prompts s /\ st_locked s' = st_locked s /\ st_flag s' = st_flag s.
Proof. unfold launch. destruct io; intros Heq; injection Heq as _ <-; done. Qed.

Lemma job_start_frame s m now io r j s' :
  job_start policy s m now io = (r, j, s') ->
  st_arm s' = st_arm s /\ st_auths s' ⊆ st_auths s /\ st_shells s' = st_shells s /\
  st_prompts s' = st_prompts s /\ st_locked s' = st_locked s /\ st_flag s' = st_flag s.
Proof.
  unfold job_start. destruct (LocalId_parse _) as [id|]; [|intros Heq; by injection Heq as _ _ <-].
  destruct (already_ran s id); [intros Heq; by injection Heq as _ _ <-|].
  destruct (mbind _ _) as [[d job]|]; [|intros Heq; by injection Heq as _ _ <-].
  pose proof (admit_spends (view policy s now) id job d
  (mkEvidence (source (em_source (js_evidence m)) (em_decided_by (js_evidence m))) (em_window (js_evidence m)))
  (st_auths s)) as Hsp.
  destruct (admit_job _ _ _ _ _ _) as [adm auths]. cbn [snd] in Hsp.
  assert (auths ⊆ st_auths s) as Hsub by (subst; destruct (is_locked _); [done|apply delete_subseteq]).
  destruct adm as [aj|]; [|intros Heq; by injection Heq as _ _ <-].
  destruct (launch _ _ _) as [[]] eqn:El; intros Heq; injection Heq as _ _ <-;
  apply launch_frame in El as (-> & -> & -> & -> & -> & ->); done.
Qed.

(** A job admitted: on which ground. *)
Lemma job_start_admitted s m now io r job d s' :
  job_start policy s m now io = (r, Some job, s') -> spec_digest (VObject (js_spec m)) = Ok d ->
  exists n ev, aj_tier job = n_tier n /\ aj_argv job = n_argv n /\ is_locked (lock_state s) = false /\
  decide (facts (view policy s now) n ((fun a => authz_facts a d now) <$> st_auths s !! aj_id job) ev) =
    Ok (aj_via job).
Proof.
  intros Hj Hd. unfold job_start in Hj. destruct (LocalId_parse _) as [id|]; [|done].
  destruct (already_ran s id); [done|].
  destruct (mbind _ _) as [[d' n]|] eqn:Hb; [|done].
  apply bind_ok in Hb as (d0 & Hd0 & Hb). rewrite Hd in Hd0. injection Hd0 as <-.
  apply bind_ok in Hb as (n0 & Hn & Hb). injection Hb as <- <-.
  set (ev := mkEvidence _ _) in Hj.
  pose proof (admit_result (view policy s now) id n0 d ev (st_auths s)) as Hr.
  assert (is_locked (lock_state s) = false) as Hl.
  { destruct (is_locked (lock_state s)) eqn:E; [|done]. unfold admit_job in Hj. cbn [hv_lock view] in Hj.
  by rewrite E in Hj. }
  destruct (admit_job _ _ _ _ _ _) as [adm auths]. cbn [fst] in Hr. subst adm.
  exists n0, ev. cbn [hv_now view] in *.
  destruct (decide _) as [via|k] eqn:Edec; cbn [map_err fmap result_fmap] in Hj; [|done].
  assert (job = AdmittedJob_new id n0 via None) as ->.
  { destruct (launch _ _ _) as [[]]; injection Hj as _ <- _; done. }
  cbn [aj_tier aj_argv aj_id aj_via AdmittedJob_new]. split_and!; done.
Qed.

(** *** Shells *)

Lemma shell_open_frame s o now r s' :
  shell_open policy s o now = (r, s') ->
  st_arm s' = st_arm s /\ st_auths s' ⊆ st_auths s /\ st_prompts s' = st_prompts s /\
  st_jobs s' = st_jobs s /\ st_locked s' = st_locked s /\ st_flag s' = st_flag s.
Proof.
  unfold shell_open. destruct (mbind _ _) as [[[id spec] d]|]; [|intros Heq; by injection Heq as _ <-].
  destruct (open_shell _ _ _ _ _ _ _ _) as [op auths] eqn:E.
  assert (auths ⊆ st_auths s) as Hsub.
  { unfold open_shell, authz_take in E. repeat case_match; injection E as _ <-; try done; apply delete_subseteq. }
  destruct op; intros Heq; injection Heq as _ <-; done.
Qed.

Lemma shell_open_err s o now e s' :
  shell_open policy s o now = (Err e, s') -> st_shells s' = st_shells s.
Proof.
  unfold shell_open. destruct (mbind _ _) as [[[id spec] d]|]; [|intros Heq; by injection Heq as _ <-].
  destruct (open_shell _ _ _ _ _ _ _ _) as [[sh|e'] auths]; [done|]. intros Heq. by injection Heq as _ <-.
Qed.

Lemma shell_open_opened s o now spec d shell s' :
  parse_shell_request policy (VObject (so_spec o)) = Ok spec ->
  spec_digest (ShellSpec_to_json spec) = Ok d ->
  shell_open policy s o now = (Ok shell, s') ->
  is_locked (lock_state s) = false /\ shell_enable (tier_policy policy (os_tier shell)) = true /\
  st_shells s' = <[os_id shell := shell]> (st_shells s) /\
  exists a, st_auths s !! os_id shell = Some a /\ az_tier a = os_tier shell /\ az_digest a = d /\
  (now < expires_at a)%N /\ (az_via a = AvTotpShell \/ az_via a = AvDeskShell).
Proof.
  intros Hp Hd Ho. unfold shell_open in Ho.
  destruct (LocalId_parse (so_shell o)) as [id|]; [|done]. cbn [mbind result_bind] in Ho.
  rewrite Hp in Ho. cbn [mbind result_bind] in Ho. rewrite Hd in Ho. cbn [mbind result_bind] in Ho.
  pose proof (fun sh => open_shell_ok policy id spec d (st_auths s) (lock_state s) now
  (shell_enrolled s (sh_tier spec)) sh) as Hok.
  destruct (open_shell _ _ _ _ _ _ _ _) as [[sh|e'] auths]; [|done]. injection Ho as <- <-.
  destruct (proj1 (Hok sh) eq_refl) as (Hl & He & _ & -> & a & Ha). cbn [os_tier os_id]. eauto 10.
Qed.

Lemma shell_exec_frame s x now io r j s' :
  shell_exec policy s x now io = (r, j, s') ->
  st_arm s' = st_arm s /\ st_auths s' = st_auths s /\ st_shells s' = st_shells s /\
  st_prompts s' = st_prompts s /\ st_locked s' = st_locked s /\ st_flag s' = st_flag s.
Proof.
  unfold shell_exec. destruct (mbind _ _) as [[sid id]|]; [|intros Heq; by injection Heq as _ _ <-].
  destruct (already_ran s id); [intros Heq; by injection Heq as _ _ <-|].
  destruct (admit_shell_command _ _ _ _ _ _) as [aj|]; [|intros Heq; by injection Heq as _ _ <-].
  destruct (launch _ _ _) as [[]] eqn:El; intros Heq; injection Heq as _ _ <-;
  apply launch_frame in El as (-> & -> & -> & -> & -> & ->); done.
Qed.

Lemma shell_exec_admitted s x now io r job s' :
  shell_exec policy s x now io = (r, Some job, s') ->
  is_locked (lock_state s) = false /\
  exists id shell, st_shells s !! id = Some shell /\ aj_shell job = Some (os_id shell) /\
  aj_tier job = os_tier shell /\ (now < os_expires_at shell)%N.
Proof.
  unfold shell_exec. destruct (mbind _ _) as [[sid id]|]; [|done].
  destruct (already_ran s id); [done|].
  destruct (admit_shell_command _ _ _ _ _ _) as [aj|] eqn:E; [|done]. intros Hj.
  apply shell_command_ok in E as (Hl & sh & n & Hsh & Hnow & _ & Ht & ->).
  assert (job = AdmittedJob_new id n ViaShell (Some (os_id sh))) as ->.
  { destruct (launch _ _ _) as [[]]; injection Hj as _ <- _; done. }
  split; [done|]. exists sid, sh. cbn. done.
Qed.
End sections.

(** ** The invariant of runs *)

Section invariant.
Context `{RegexLib, JsonText, HmacSha1, Sha256Hex}.
Variable policy : HostPolicy.
Variable run_as : option str.

Definition task_ok (log : list Entry) (t : Task) : Prop :=
  match t with
  | TAuthorize p => JCode (au_code p) ∈ log /\ authorizing_ok p
  | TArm tier _ code => JCode code ∈ log /\ code_name code = mkSecret tier PurposeArm
  | TUnlock code => JCode code ∈ log /\ code_name code = mkSecret Root PurposeUnlock
  | TPrompt _ _ (Some dp) => desk_approves policy (dp_tier dp) = true
  | TDesk dp _ => JShown dp ∈ log
  | _ => True
  end.

Record Inv (w : World) : Prop := {
  inv_log : log_ok policy (w_log w);
  inv_auths : forall id a, st_auths (w_state w) !! id = Some a -> exists g, JApproved id a g ∈ w_log w;
  inv_shells : forall id sh, st_shells (w_state w) !! id = Some sh -> exists d now, JOpened sh d now ∈ w_log w;
  inv_prompts : forall id sp dp, st_prompts (w_state w) !! id = Some sp -> sp_desk sp = Some dp ->
  JShown dp ∈ w_log w;
  inv_arm : forall tier, armed_until (st_arm (w_state w)) tier = 0%N \/
  armed_by tier (armed_until (st_arm (w_state w)) tier) (w_log w);
  inv_tasks : Forall (task_ok (w_log w)) (w_tasks w);
}.

Definition extend (new : option Entry) (log : list Entry) : list Entry :=
  match new with Some e => e :: log | None => log end.

Lemma extend_elem new log e : e ∈ log -> e ∈ extend new log.
Proof. destruct new; [by right|done]. Qed.

Lemma task_ok_extend new log t : task_ok log t -> task_ok (extend new log) t.
Proof.
  destruct t as [p|tier secs code|code|id nonce [dp|]|dp conn| | | |]; cbn; try done;
  rewrite ?elem_of_cons; try (intros [? ?]; split; [by apply extend_elem|done]); apply extend_elem.
Qed.

Lemma armed_by_extend tier until new log :
  (forall e, new = Some e -> ~ disarms tier e) -> armed_by tier until log ->
  armed_by tier until (extend new log).
Proof.
  intros Hnew (later & proof & now & before & -> & Hl). destruct new as [e|]; [|by exists later, proof, now, before].
  exists (e :: later), proof, now, before. split; [done|]. constructor; [by apply Hnew|done].
Qed.

(** A step keeps the invariant when what it adds to the state is in the
    entry it writes. *)
Lemma inv_extend s ts log s' ts' new :
  Inv (mkWorld s ts log) ->
  (forall e, new = Some e -> justified policy e log) ->
  (forall id a, st_auths s' !! id = Some a ->
   st_auths s !! id = Some a \/ exists g, new = Some (JApproved id a g)) ->
  (forall id sh, st_shells s' !! id = Some sh ->
   st_shells s !! id = Some sh \/ exists d now, new = Some (JOpened sh d now)) ->
  (forall id sp, st_prompts s' !! id = Some sp -> st_prompts s !! id = Some sp \/
   forall dp, sp_desk sp = Some dp -> new = Some (JShown dp)) ->
  (forall tier, armed_until (st_arm s') tier = 0%N \/
   (armed_until (st_arm s') tier = armed_until (st_arm s) tier /\ forall e, new = Some e -> ~ disarms tier e) \/
   exists proof now, new = Some (JArmed tier (armed_until (st_arm s') tier) proof now)) ->
  Forall (task_ok (extend new log)) ts' ->
  Inv (mkWorld s' ts' (extend new log)).
Proof.
  intros [Hlog Ha Hs Hp Harm _] Hj Ha' Hs' Hp' Harm' Ht. cbn in *. split; cbn; [| | | | |done].
  - destruct new as [e|]; [|done]. split; [by apply Hj|done].
  - intros id a [Hid|[g ->]]%Ha'; [|exists g; by left]. apply Ha in Hid as [g Hg]. exists g. by apply extend_elem.
  - intros id sh [Hid|(d & now & ->)]%Hs'; [|exists d, now; by left].
  apply Hs in Hid as (d & now & Hg). exists d, now. by apply extend_elem.
  - intros id sp dp [Hid|Hnew]%Hp' Hdp; [|rewrite (Hnew dp Hdp); by left].
  apply extend_elem. by apply (Hp id sp).
  - intros tier. destruct (Harm' tier) as [?|[[-> Hn]|(proof & now & ->)]]; [by left| |].
  + destruct (Harm tier) as [?|Hb]; [by left|right]. by apply armed_by_extend.
  + right. exists [], proof, now, log. split; [done|constructor].
Qed.

Lemma inv_keep s ts log s' ts' new :
  Inv (mkWorld s ts log) ->
  (forall e, new = Some e -> justified policy e log) ->
  st_auths s' ⊆ st_auths s -> st_shells s' ⊆ st_shells s -> st_prompts s' ⊆ st_prompts s ->
  st_arm s' = st_arm s -> (forall e tier, new = Some e -> ~ disarms tier e) ->
  Forall (task_ok (extend new log)) ts' ->
  Inv (mkWorld s' ts' (extend new log)).
Proof.
  intros Hi Hj Ha Hs Hp Harm Hd Ht. apply (inv_extend s ts log); [done|done| | | | |done].
  - intros id a Hid. left. by eapply lookup_weaken.
  - intros id sh Hid. left. by eapply lookup_weaken.
  - intros id sp Hid. left. by eapply lookup_weaken.
  - intros tier. right. left. rewrite Harm. split; [done|]. intros e He. by apply Hd.
Qed.

Lemma tasks_keep new log ts : Forall (task_ok log) ts -> Forall (task_ok (extend new log)) ts.
Proof. intros Ht. eapply Forall_impl; [exact Ht|]. intros t. apply task_ok_extend. Qed.

Lemma tasks_drop (P : Task -> Prop) pre t post : Forall P (pre ++ t :: post) -> P t /\ Forall P (pre ++ post).
Proof. rewrite !Forall_app, Forall_cons. naive_solver. Qed.

Lemma end_shell_frame s id r s' :
  end_shell_section s id = (r, s') ->
  st_auths s' = st_auths s /\ st_shells s' ⊆ st_shells s /\ st_prompts s' = st_prompts s /\
  st_arm s' = st_arm s /\ st_jobs s' = st_jobs s.
Proof.
  unfold end_shell_section. destruct (st_shells s !! id); intros Heq; injection Heq as _ <-; cbn;
  split_and!; try done. apply delete_subseteq.
Qed.

Lemma kill_frame s id :
  st_auths (kill s id).2 = st_auths s /\ st_shells (kill s id).2 = st_shells s /\
  st_prompts (kill s id).2 = st_prompts s /\ st_arm (kill s id).2 = st_arm s /\
  st_locked (kill s id).2 = st_locked s /\ st_flag (kill s id).2 = st_flag s.
Proof. unfold kill. destruct (st_jobs s !! id); [done|]. by destruct (bool_decide _). Qed.

Lemma answered_take_frame s nonce conn r s' :
  answered_take s nonce conn = (r, s') ->
  st_auths s' = st_auths s /\ st_shells s' = st_shells s /\ st_prompts s' ⊆ st_prompts s /\
  st_arm s' = st_arm s /\ st_locked s' = st_locked s /\ st_flag s' = st_flag s /\ st_jobs s' = st_jobs s /\
  (forall id dp, r = Some (id, Some dp) -> exists sp, st_prompts s !! id = Some sp /\ sp_desk sp = Some dp).
Proof.
  unfold answered_take. destruct (find_nonce _ _) as [[id on]|].
  2:{ intros Heq. injection Heq as <- <-. split_and!; try done. }
  destruct (_ && _); intros Heq; injection Heq as <- <-; cbn; split_and!; try done; [apply delete_subseteq|].
  intros id' dp [= <- Hdp]. destruct (st_prompts s !! id) as [sp|]; [|done]. by exists sp.
Qed.

Lemma desk_job_approves s job who now what extra dp :
  desk_job policy run_as s job who now = Ok (what, extra, dp) -> desk_approves policy (dp_tier dp) = true.
Proof.
  unfold desk_job. intros Hd. apply bind_ok in Hd as (id & _ & Hd). destruct (bool_decide _).
  - unfold desk_shell in Hd. apply bind_ok in Hd as (spec & _ & Hd). apply bind_ok in Hd as (d & _ & Hd).
  apply bind_ok in Hd as (p & Hp & Hd). injection Hd as _ _ <-.
  unfold desk_shell_prompt in Hp. destruct (is_locked _); [done|]. cbn [hv_policy view] in Hp.
  destruct (desk_approves policy (sh_tier spec)) eqn:E; [|done]. cbn [negb] in Hp.
  destruct (negb _); [done|]. destruct (N.ltb _ _); [done|]. by injection Hp as <-.
  - apply bind_ok in Hd as (d & _ & Hd). apply bind_ok in Hd as (n & _ & Hd).
  destruct (_ || _); [done|]. apply bind_ok in Hd as (p & Hp & Hd). injection Hd as _ _ <-.
  unfold desk_prompt in Hp. destruct (is_locked _); [done|]. cbn [hv_policy view] in Hp.
  destruct (desk_approves policy (n_tier n)) eqn:E; [|done]. by injection Hp as <-.
Qed.

Lemma prompt_prepare_approves s p present mt nonce now id shown dp :
  prompt_prepare policy run_as s p present mt nonce now = Ok (id, shown, Some dp) ->
  desk_approves policy (dp_tier dp) = true.
Proof.
  unfold prompt_prepare. intros Hd. apply bind_ok in Hd as (i & _ & Hd).
  destruct (bool_decide _); [done|]. destruct (negb present); [done|].
  apply bind_ok in Hd as ([[w dt] desk] & Hj & Hd). injection Hd as _ _ ->.
  destruct (pm_job p) as [job|]; [|done]. apply bind_ok in Hj as ([[w' ex] dp'] & Hj & Hd).
  injection Hd as _ _ <-. by apply desk_job_approves in Hj.
Qed.

Lemma prompt_show_cases s id nonce desk sent r s' :
  prompt_show s id nonce desk sent = (r, s') ->
  st_auths s' = st_auths s /\ st_shells s' = st_shells s /\ st_arm s' = st_arm s /\
  st_locked s' = st_locked s /\ st_flag s' = st_flag s /\ st_jobs s' = st_jobs s /\
  (forall e, r = Err e -> st_prompts s' = st_prompts s) /\
  (forall v, r = Ok v -> exists conn, st_prompts s' = <[id := mkShown nonce conn desk]> (st_prompts s)).
Proof.
  unfold prompt_show. destruct (st_helper s) as [h|]; [|intros Heq; injection Heq as <- <-; by split_and!].
  destruct sent; cbn [negb]; [|intros Heq; injection Heq as <- <-; by split_and!].
  destruct (bool_decide _); intros Heq; injection Heq as <- <-; split_and!; try done. by eexists.
Qed.
End invariant.

Section preserved.
Context `{RegexLib, JsonText, HmacSha1, Sha256Hex}.
Variable policy : HostPolicy.
Variable run_as : option str.
Notation Inv := (Inv policy).

Lemma authz_insert_elem auths job a now id b :
  authz_insert auths job a now !! id = Some b -> auths !! id = Some b \/ id = job /\ b = a.
Proof. intros [[-> ->]|[_ ?]]%authz_insert_lookup; auto. Qed.

(** An approval recorded by a code or at the desk is the one it stands
    for. *)
Lemma record_totp_same auths job ap now :
  record_totp auths job ap now !! job =
  Some (mkAuthorization (ta_digest ap) (ta_tier ap)
        (if bool_decide (ta_purpose ap = PurposeShell) then AvTotpShell else AvTotp)
        (plus_secs now AUTHZ_TTL_SECS)).
Proof. apply authz_insert_same. Qed.
Lemma record_desk_same auths job ap now :
  record_desk auths job ap now !! job =
  Some (mkAuthorization (da_digest ap) (da_tier ap)
        (if da_shell ap then AvDeskShell else AvDesk) (plus_secs now AUTHZ_TTL_SECS)).
Proof. apply authz_insert_same. Qed.

Lemma own_approved s n d now ev log id via vias :
  (forall id a, st_auths s !! id = Some a -> exists g, JApproved id a g ∈ log) ->
  (forall a, via = ViaTotp /\ az_via a = AvTotp \/ via = ViaDesk /\ az_via a = AvDesk -> az_via a ∈ vias) ->
  own_approval (facts (view policy s now) n ((fun a => authz_facts a d now) <$> st_auths s !! id) ev) = Some via ->
  approved id (n_tier n) d now vias log.
Proof.
  intros Hlog Hvia Hown. apply own_approval_iff in Hown as (f & (Hf & Hu & Hm & Ht) & Hv).
  cbn [authorization facts] in Hf. destruct (st_auths s !! id) as [a|] eqn:Ea; [|done].
  injection Hf as <-. destruct (Hlog id a Ea) as [g Hg]. exists a, g.
  cbn in Hu, Hm, Ht, Hv. apply N.ltb_lt in Hu. apply bool_decide_eq_true in Hm.
  split_and!; [done|done|done|done|]. apply Hvia. naive_solver.
Qed.

(** A job the host admits is justified by the journal so far. *)
Lemma admitted_justified s ts log m now io r job d s' :
  Inv (mkWorld s ts log) ->
  job_start policy s m now io = (r, Some job, s') -> spec_digest (VObject (js_spec m)) = Ok d ->
  justified policy (JAdmitted job d now) log.
Proof.
  intros Hi Hj Hd. destruct (job_start_admitted policy s m now io r job d s' Hj Hd)
  as (n & ev & Ht & Hav & Hl & Hdec).
  assert (forall via, decide (facts (view policy s now) n
  ((fun a => authz_facts a d now) <$> st_auths s !! aj_id job) ev) = Ok via ->
  is_armed via = true -> exists until, (now < until)%N /\ armed_by (aj_tier job) until log) as Harmed.
  { intros via [_ Hm]%decide_ok_may Hv.
  assert (f_armed (facts (view policy s now) n ((fun a => authz_facts a d now) <$> st_auths s !! aj_id job) ev) = true) as Ha.
  { destruct Hm; try done. }
  cbn in Ha. unfold armed in Ha. apply N.ltb_lt in Ha. exists (armed_until (st_arm s) (n_tier n)).
  split; [done|]. rewrite Ht. destruct (inv_arm policy _ Hi (n_tier n)) as [Hz|Hb]; [|done].
  cbn in Hz. lia. }
  cbn [justified]. destruct (aj_via job) eqn:Ev; try (by eapply Harmed).
  - rewrite Ht. apply (own_approved s n d now ev log (aj_id job) ViaTotp); [apply Hi| |].
  + intros a [[_ ->]|[[=] _]]. by left.
  + unfold decide in Hdec. cbn [f_locked facts hv_lock view] in Hdec. rewrite Hl in Hdec.
    destruct (own_approval _) as [via|]; [by injection Hdec as ->|].
    exfalso. repeat (case_match; try done).
  - rewrite Ht. apply (own_approved s n d now ev log (aj_id job) ViaDesk); [apply Hi| |].
  + intros a [[[=] _]|[_ ->]]. by left.
  + unfold decide in Hdec. cbn [f_locked facts hv_lock view] in Hdec. rewrite Hl in Hdec.
    destruct (own_approval _) as [via|]; [by injection Hdec as ->|].
    exfalso. repeat (case_match; try done).
  - apply decide_ok_may in Hdec as [_ Hm]. inversion Hm as [| |Hk Htu Hau| | |source via Hs Hmv]; subst.
  + split; [by rewrite Ht|]. cbn in Hau. apply existsb_elem in Hau as (p & Hp & Hpm).
    exists p. rewrite Hav. cbn in Hp. done.
  + by destruct source.
  - apply decide_ok_may in Hdec as [_ Hm]. inversion Hm as [| | | | |source via Hs Hmv]; subst. by destruct source.
Qed.

(** *** Arming and its proofs *)

Lemma arm_section_cases s tier secs proof now r s' :
  arm_section policy s tier secs proof now = (r, s') ->
  match r with
  | Err _ => s' = s
  | Ok until =>
    s' = with_arm s (set_armed (st_arm s) tier until) /\ is_locked (lock_state s) = false /\
    enable (tier_policy policy tier) = true /\
    (until <= now + max_arm_secs (tier_policy policy tier) * 1000)%N /\
    (proof = ProofLocal CallerRoot \/ proof = ProofLocal CallerUser /\ tier = User \/
     exists code, proof = ProofTotp code /\ code_name code = mkSecret tier PurposeArm)
  end.
Proof.
  unfold arm_section. destruct (arm _ _ _ _ _ _ _) as [[until a]|] eqn:E; intros Heq; injection Heq as <- <-; [|done].
  apply arm_ok in E as (Hp & He & Hl & Hu & ->). split_and!; try done.
  rewrite Hu. etrans; [apply plus_secs_le|]. apply N.add_le_mono_l, N.mul_le_mono_r. lia.
Qed.

Lemma arm_code_cases s tier text now io r s' :
  arm_code policy s tier text now io = (r, s') ->
  (s' = s \/ exists slot, s' = with_slot s (mkSecret tier PurposeArm) slot) /\
  forall code, r = Ok code -> code_name code = mkSecret tier PurposeArm.
Proof.
  unfold arm_code. destruct (check_can_arm _ _ _); [|intros Heq; injection Heq as <- <-; split; [by left|done]].
  intros [[slot ->] Hc]%verify_code_result. split; [right; by exists slot|done].
Qed.

Lemma unlock_code_cases s text now io r s' :
  unlock_code s text now io = (r, s') ->
  (s' = s \/ exists slot, s' = with_slot s (mkSecret Root PurposeUnlock) slot) /\
  forall code, r = Ok code -> code_name code = mkSecret Root PurposeUnlock.
Proof.
  unfold unlock_code. destruct (negb _); [intros Heq; injection Heq as <- <-; split; [by left|done]|].
  destruct (verify_code _ _ _ _ _) as [code s1] eqn:E. intros Heq. injection Heq as <- <-.
  apply verify_code_result in E as [[slot ->] Hc]. split; [right; by exists slot|].
  intros c Hok. apply bind_ok in Hok as (c' & Hc' & Hok). apply bind_ok in Hok as (u & _ & Hok).
  injection Hok as ->. by apply Hc.
Qed.

Lemma set_armed_cases s ts log tier until :
  Inv (mkWorld s ts log) -> forall t,
  armed_until (set_armed (st_arm s) tier until) t =
  (if bool_decide (t = tier) then until else armed_until (st_arm s) t).
Proof. intros _ t. apply armed_set. Qed.

(** A tier armed: the entry says so. *)
Lemma inv_armed s ts log ts' tier until proof now :
  Inv (mkWorld s ts log) ->
  justified policy (JArmed tier until proof now) log ->
  Forall (task_ok policy (JArmed tier until proof now :: log)) ts' ->
  Inv (mkWorld (with_arm s (set_armed (st_arm s) tier until)) ts' (JArmed tier until proof now :: log)).
Proof.
  intros Hi Hj Ht. apply (inv_extend policy s ts log _ ts' (Some (JArmed tier until proof now))); try done.
  - by intros e [= <-].
  - intros id a Ha. by left.
  - intros id sh Hs. by left.
  - intros id sp Hs. by left.
  - intros t. cbn [with_arm st_arm]. rewrite armed_set.
  destruct (bool_decide_reflect (t = tier)) as [->|Hne].
  + right. right. eauto.
  + right. left. split; [done|]. intros e [= <-]. cbn. intros ->. done.
Qed.

(** What the invariant speaks of is the same, or less of it. *)
Definition no_more (s s' : State) : Prop :=
  st_auths s' ⊆ st_auths s /\ st_shells s' ⊆ st_shells s /\ st_prompts s' ⊆ st_prompts s /\
  st_arm s' = st_arm s.

Lemma no_more_refl s : no_more s s.
Proof. done. Qed.
Lemma no_more_slot s name slot : no_more s (with_slot s name slot).
Proof. done. Qed.

Lemma tasks_of s ts log : Inv (mkWorld s ts log) -> Forall (task_ok policy log) ts.
Proof. intros Hi. apply (inv_tasks policy _ Hi). Qed.

Lemma record_inv s pre t post log id a g s' auths :
  Inv (mkWorld s (pre ++ t :: post) log) ->
  s' = with_auths s auths -> (forall i b, auths !! i = Some b -> st_auths s !! i = Some b \/ i = id /\ b = a) ->
  justified policy (JApproved id a g) log ->
  Inv (mkWorld s' (pre ++ post) (JApproved id a g :: log)).
Proof.
  intros Hi -> Ha Hj. apply (inv_extend policy s _ log _ _ (Some (JApproved id a g)) Hi).
  - by intros e [= <-].
  - cbn. intros i b [?|[-> ->]]%Ha; [by left|right]. by exists g.
  - intros i sh. by left.
  - intros i sp. by left.
  - intros t'. right. left. split; [done|]. intros e [= <-] [].
  - apply (tasks_keep policy (Some (JApproved id a g))). apply tasks_of in Hi. exact (proj2 (tasks_drop _ _ _ _ Hi)).
Qed.

Lemma inv_quiet s ts log s' ts' :
  Inv (mkWorld s ts log) -> no_more s s' -> Forall (task_ok policy log) ts' -> Inv (mkWorld s' ts' log).
Proof.
  intros Hi (Ha & Hs & Hp & Harm) Ht. by apply (inv_keep policy s ts log s' ts' None).
Qed.

Lemma inv_entry s ts log s' ts' e :
  Inv (mkWorld s ts log) -> justified policy e log -> no_more s s' -> (forall tier, ~ disarms tier e) ->
  Forall (task_ok policy (e :: log)) ts' -> Inv (mkWorld s' ts' (e :: log)).
Proof.
  intros Hi Hj (Ha & Hs & Hp & Harm) Hd Ht. apply (inv_keep policy s ts log s' ts' (Some e)); try done.
  - by intros e' [= <-].
  - intros e' tier [= <-]. apply Hd.
Qed.

(** A code accepted by a handler that waits for its next section. *)
Lemma inv_code s ts log s' code t :
  Inv (mkWorld s ts log) -> no_more s s' -> task_ok policy (JCode code :: log) t ->
  Inv (mkWorld s' (t :: ts) (JCode code :: log)).
Proof.
  intros Hi Hn Ht. apply (inv_entry s ts); [done|done|done|intros tier []|].
  constructor; [done|]. apply (tasks_keep policy (Some (JCode code))). by apply (tasks_of s).
Qed.

Lemma tasks_entry s ts log e : Inv (mkWorld s ts log) -> Forall (task_ok policy (e :: log)) ts.
Proof. intros Hi. apply (tasks_keep policy (Some e)). by apply (tasks_of s). Qed.

Lemma tasks_plain log ts ts' :
  Forall (fun t => match t with TEnd _ | TKill _ | TLockWrite | TLockClear => True | _ => False end) ts' ->
  Forall (task_ok policy log) ts -> Forall (task_ok policy log) (ts' ++ ts).
Proof.
  intros Hp Ht. apply Forall_app. split; [|done]. eapply Forall_impl; [exact Hp|].
  by intros [].
Qed.

Lemma kills_plain (ids : list str) :
  Forall (fun t => match t with TEnd _ | TKill _ | TLockWrite | TLockClear => True | _ => False end) (map TKill ids).
Proof. apply Forall_map, Forall_forall. done. Qed.
Lemma ends_plain (ids : list str) :
  Forall (fun t => match t with TEnd _ | TKill _ | TLockWrite | TLockClear => True | _ => False end) (map TEnd ids).
Proof. apply Forall_map, Forall_forall. done. Qed.

(** Taken from the tasks. *)
Lemma inv_taken s pre t post log :
  Inv (mkWorld s (pre ++ t :: post) log) -> task_ok policy log t /\ Forall (task_ok policy log) (pre ++ post).
Proof. intros Hi. by apply tasks_of, tasks_drop in Hi. Qed.
End preserved.

Section steps_preserve.
Context `{RegexLib, JsonText, HmacSha1, Sha256Hex}.
Variable policy : HostPolicy.
Variable run_as : option str.
Notation Inv := (Inv policy).

Lemma no_more_code s a now io r s' : authorize_code policy s a now io = (r, s') -> no_more s s'.
Proof. by intros [(? & ? & ->)| ->]%authorize_code_result. Qed.
Lemma no_more_arm_code s tier text now io r s' : arm_code policy s tier text now io = (r, s') -> no_more s s'.
Proof. by intros [[->|[? ->]] _]%arm_code_cases. Qed.
Lemma no_more_unlock_code s text now io r s' : unlock_code s text now io = (r, s') -> no_more s s'.
Proof. by intros [[->|[? ->]] _]%unlock_code_cases. Qed.
Lemma no_more_job s m now io r j s' : job_start policy s m now io = (r, j, s') -> no_more s s'.
Proof. intros (Ha & Hb & Hc & Hd & _)%job_start_frame. unfold no_more. by rewrite Hc, Hd. Qed.
Lemma no_more_exec s x now io r j s' : shell_exec policy s x now io = (r, j, s') -> no_more s s'.
Proof. intros (Ha & Hb & Hc & Hd & _)%shell_exec_frame. unfold no_more. by rewrite Hb, Hc, Hd. Qed.
Lemma no_more_end s id r s' : end_shell_section s id = (r, s') -> no_more s s'.
Proof. intros (Ha & Hb & Hc & Hd & _)%end_shell_frame. unfold no_more. by rewrite Ha, Hc. Qed.
Lemma no_more_kill s id : no_more s (kill s id).2.
Proof. destruct (kill_frame s id) as (Ha & Hb & Hc & Hd & _). unfold no_more. by rewrite Ha, Hb, Hc. Qed.
Lemma no_more_take s nonce conn : no_more s (answered_take s nonce conn).2.
Proof.
  destruct (answered_take s nonce conn) as [r s'] eqn:E. apply answered_take_frame in E as (Ha & Hb & Hc & Hd & _).
  unfold no_more. cbn. by rewrite Ha, Hb.
Qed.
Lemma no_more_unlock s rm r s' : unlock s rm = (r, s') -> no_more s s'.
Proof. unfold unlock. destruct rm; intros Heq; by injection Heq as _ <-. Qed.

(** One lemma per kind of step. *)
Lemma inv_record s pre p post log now v s' a :
  Inv (mkWorld s (pre ++ TAuthorize p :: post) log) ->
  authorize_record policy s p now = (Ok v, s') -> st_auths s' !! au_job p = Some a ->
  Inv (mkWorld s' (pre ++ post) (JApproved (au_job p) a (ByCode (au_code p)) :: log)).
Proof.
  intros Hi Hr Ha. destruct (inv_taken _ _ _ _ _ _ Hi) as [[Hc [Ht Hp]] _].
  apply authorize_record_ok in Hr as [_ ->].
  change (record_totp (st_auths s) (au_job p) (au_approval p) now !! au_job p = Some a) in Ha.
  rewrite record_totp_same in Ha. injection Ha as <-.
  eapply record_inv; [exact Hi|reflexivity| |].
  - intros i b Hb. apply authz_insert_elem in Hb as [?|[-> ->]]; [by left|right]. done.
  - cbn [justified az_tier az_via]. split_and!; [done|by rewrite Ht|].
  destruct Hp as [[-> Hn]|[-> Hn]]; cbn; done.
Qed.

Lemma inv_allow s pre dp conn post log password now answer s' a :
  Inv (mkWorld s (pre ++ TDesk dp conn :: post) log) ->
  answered_record s dp conn password now = (answer, true, s') -> st_auths s' !! dp_job dp = Some a ->
  Inv (mkWorld s' (pre ++ post) (JApproved (dp_job dp) a (ByDesk dp password) :: log)).
Proof.
  intros Hi Hr Ha. destruct (inv_taken _ _ _ _ _ _ Hi) as [Hc _]. cbn [task_ok] in Hc.
  apply answered_record_ok in Hr as (_ & Hpw & ->).
  change (record_desk (st_auths s) (dp_job dp) (mkDeskApproval (dp_tier dp) (dp_digest dp) (dp_shell dp)) now
  !! dp_job dp = Some a) in Ha.
  rewrite record_desk_same in Ha. injection Ha as <-.
  eapply record_inv; [exact Hi|reflexivity| |].
  - intros i b Hb. apply authz_insert_elem in Hb as [?|[-> ->]]; [by left|right]. done.
  - cbn [justified az_tier az_via az_digest da_tier da_digest da_shell]. split_and!; done.
Qed.

Lemma inv_open s ts log o now spec d shell s' :
  Inv (mkWorld s ts log) -> parse_shell_request policy (VObject (so_spec o)) = Ok spec ->
  spec_digest (ShellSpec_to_json spec) = Ok d -> shell_open policy s o now = (Ok shell, s') ->
  Inv (mkWorld s' ts (JOpened shell d now :: log)).
Proof.
  intros Hi Hp Hd Ho. pose proof (shell_open_frame policy _ _ _ _ _ Ho) as (Harm & Ha & Hpr & _).
  destruct (shell_open_opened policy _ _ _ _ _ _ _ Hp Hd Ho) as (_ & He & Hs & a & Haz & Ht & Hdg & Hx & Hv).
  apply (inv_extend policy s ts log s' ts (Some (JOpened shell d now))); [done| | | | | |].
  - intros e [= <-]. split; [|done]. destruct (inv_auths policy _ Hi _ _ Haz) as [g Hg].
  exists a, g. split_and!; try done. destruct Hv as [-> | ->]; [by left|by right; left].
  - intros id b Hid. left. by eapply lookup_weaken.
  - intros id sh. rewrite Hs, lookup_insert_Some. intros [[<- <-]|[_ ?]]; [right|by left]. by eexists _, _.
  - intros id sp. rewrite Hpr. by left.
  - intros tier. right. left. rewrite Harm. split; [done|]. intros e [= <-] [].
  - by apply (tasks_entry policy s).
Qed.

Lemma inv_exec s ts log x now io r job s' :
  Inv (mkWorld s ts log) -> shell_exec policy s x now io = (r, Some job, s') ->
  Inv (mkWorld s' ts (JShellRan job now :: log)).
Proof.
  intros Hi Hx. apply (inv_entry policy s ts); [done| |by eapply no_more_exec|intros tier []|by apply (tasks_entry policy s)].
  destruct (shell_exec_admitted policy _ _ _ _ _ _ _ Hx) as (_ & id & sh & Hsh & Hid & Ht & Hn).
  destruct (inv_shells policy _ Hi _ _ Hsh) as (d & t & Ho). by exists sh, d, t.
Qed.

Lemma inv_shown s pre id nonce desk post log sent r s' :
  Inv (mkWorld s (pre ++ TPrompt id nonce desk :: post) log) ->
  prompt_show s id nonce desk sent = (r, s') ->
  Inv (mkWorld s' (pre ++ post) match r, desk with Ok _, Some dp => JShown dp :: log | _, _ => log end).
Proof.
  intros Hi Hp. destruct (inv_taken _ _ _ _ _ _ Hi) as [Hd Hts].
  apply prompt_show_cases in Hp as (Ha & Hs & Harm & _ & _ & _ & He & Ho).
  assert (Inv (mkWorld s' (pre ++ post)
  (extend (match r, desk with Ok _, Some dp => Some (JShown dp) | _, _ => None end) log))) as Hi'.
  { apply (inv_extend policy s (pre ++ TPrompt id nonce desk :: post) log); [done| | | | | |].
  - intros e Hnew. destruct r, desk as [dp|]; try done. by injection Hnew as <-.
  - rewrite Ha. by left.
  - rewrite Hs. by left.
  - destruct r as [v|e].
    + destruct (Ho v eq_refl) as [conn ->]. intros i sp. rewrite lookup_insert_Some.
      intros [[<- <-]|[_ ?]]; [right|by left]. cbn [sp_desk]. by intros dp ->.
    + rewrite (He e eq_refl). by left.
  - intros tier. right. left. rewrite Harm. split; [done|].
    intros e Hnew. destruct r, desk as [dp|]; try done. injection Hnew as <-. by intros [].
  - by apply tasks_keep. }
  by destruct r, desk.
Qed.

Lemma inv_disarm s ts log tier ts' :
  Inv (mkWorld s ts log) -> Forall (task_ok policy (JDisarmed tier :: log)) ts' ->
  Inv (mkWorld (disarm_section s tier) ts' (JDisarmed tier :: log)).
Proof.
  intros Hi Ht. apply (inv_extend policy s ts log _ ts' (Some (JDisarmed tier))); [done| | | | | |done].
  - by intros e [= <-].
  - by left.
  - by left.
  - by left.
  - intros t. unfold disarm_section, disarm. destruct tier as [t0|]; cbn [st_arm with_arm].
  + rewrite armed_set. destruct (bool_decide_reflect (t = t0)) as [->|Hne]; [by left|right; left].
    split; [done|]. intros e [= <-]. cbn. by intros <-.
  + left. by destruct t.
Qed.

Lemma inv_restart s ts log gone leftover :
  Inv (mkWorld s ts log) -> Inv (mkWorld (recover (restart s) gone leftover) [] (JRestart :: log)).
Proof.
  intros Hi. apply (inv_extend policy s ts log _ [] (Some JRestart)); [done| | | | | |constructor].
  - by intros e [= <-].
  - intros id a. cbn. by rewrite lookup_empty.
  - intros id a. cbn. by rewrite lookup_empty.
  - intros id a. cbn. by rewrite lookup_empty.
  - intros t. left. by destruct t.
Qed.

Lemma inv_lock_clear s pre post log shells jobs s' :
  Inv (mkWorld s (pre ++ TLockClear :: post) log) -> lockdown_clear s = (shells, jobs, s') ->
  Inv (mkWorld s' (map TEnd shells ++ map TKill jobs ++ pre ++ post) (JDisarmed None :: log)).
Proof.
  intros Hi Hl. destruct (inv_taken _ _ _ _ _ _ Hi) as [_ Hts].
  assert (Inv (mkWorld (disarm_section s None) (map TEnd shells ++ map TKill jobs ++ pre ++ post)
  (JDisarmed None :: log))) as Hd.
  { apply (inv_disarm s (pre ++ TLockClear :: post)); [done|].
  apply tasks_plain; [apply ends_plain|]. apply tasks_plain; [apply kills_plain|].
  by apply (tasks_keep policy (Some (JDisarmed None))). }
  unfold lockdown_clear in Hl. injection Hl as <- <- <-.
  apply (inv_quiet policy _ _ _ _ _ Hd); [|apply Hd].
  unfold no_more. cbn. split_and!; try done; apply map_empty_subseteq.
Qed.

Lemma inv_arm_task s pre tier secs code post log now until s' :
  Inv (mkWorld s (pre ++ TArm tier secs code :: post) log) ->
  arm_section policy s tier secs (ProofTotp code) now = (Ok until, s') ->
  Inv (mkWorld s' (pre ++ post) (JArmed tier until (ProofTotp code) now :: log)).
Proof.
  intros Hi Ha. destruct (inv_taken _ _ _ _ _ _ Hi) as [[Hc Hn] Hts].
  apply arm_section_cases in Ha as (-> & _ & He & Hu & _).
  apply (inv_armed policy s (pre ++ TArm tier secs code :: post)); [done|done|].
  by apply (tasks_keep policy (Some _)).
Qed.

Lemma inv_arm_local s ts log caller name tier secs now until s' :
  Inv (mkWorld s ts log) -> ctl_arm policy s caller name secs now = (Ok until, s') ->
  ctl_arm_tier caller name = Ok tier ->
  Inv (mkWorld s' ts (JArmed tier until (ProofLocal caller) now :: log)).
Proof.
  intros Hi Ha Ht. unfold ctl_arm in Ha. rewrite Ht in Ha.
  apply arm_section_cases in Ha as (-> & _ & He & Hu & Hp).
  apply (inv_armed policy s ts); [done| |by apply (tasks_entry policy s)].
  split_and!; [done|done|]. destruct Hp as [[= ->]|[[[= ->] ->]|(code & [=] & _)]]; done.
Qed.

Lemma inv_unlock s pre code post log rm s' :
  Inv (mkWorld s (pre ++ TUnlock code :: post) log) -> unlock s rm = (Ok tt, s') ->
  Inv (mkWorld s' (pre ++ post) (JUnlocked (ProofTotp code) :: log)).
Proof.
  intros Hi Hu. destruct (inv_taken _ _ _ _ _ _ Hi) as [Hc Hts].
  apply (inv_entry policy s (pre ++ TUnlock code :: post)); [done|done|by eapply no_more_unlock|intros tier []|].
  by apply (tasks_keep policy (Some _)).
Qed.

Lemma inv_unlock_local s ts log caller rm s' :
  Inv (mkWorld s ts log) -> ctl_unlock s caller rm = (Ok tt, s') ->
  Inv (mkWorld s' ts (JUnlocked (ProofLocal caller) :: log)).
Proof.
  intros Hi Hu. unfold ctl_unlock, root_only in Hu. destruct (bool_decide_reflect (caller = CallerRoot)); [|done].
  apply (inv_entry policy s ts); [done|done|by eapply no_more_unlock|intros tier []|by apply (tasks_entry policy s)].
Qed.
End steps_preserve.

Section journal.
Context `{RegexLib, JsonText, HmacSha1, Sha256Hex}.
Variable policy : HostPolicy.
Variable run_as : option str.
Notation Inv := (Inv policy).

(** Steps that write nothing and hold no task. *)
Lemma inv_still s ts log s' : Inv (mkWorld s ts log) -> no_more s s' -> Inv (mkWorld s' ts log).
Proof. intros Hi Hn. apply (inv_quiet policy s ts); [done|done|]. by apply (tasks_of policy s). Qed.

(** Steps that end a task. *)
Lemma inv_drop s pre t post log s' :
  Inv (mkWorld s (pre ++ t :: post) log) -> no_more s s' -> Inv (mkWorld s' (pre ++ post) log).
Proof.
  intros Hi Hn. apply (inv_quiet policy s (pre ++ t :: post)); [done|done|].
  by apply (inv_taken policy _ _ _ _ _ Hi).
Qed.

(** Steps that begin one. *)
Lemma inv_push s ts log s' t :
  Inv (mkWorld s ts log) -> no_more s s' -> task_ok policy log t -> Inv (mkWorld s' (t :: ts) log).
Proof.
  intros Hi Hn Ht. apply (inv_quiet policy s ts); [done|done|]. constructor; [done|].
  by apply (tasks_of policy s).
Qed.

Lemma inv_replace s pre t post log s' new :
  Inv (mkWorld s (pre ++ t :: post) log) -> no_more s s' ->
  Forall (fun t => match t with TEnd _ | TKill _ | TLockWrite | TLockClear => True | _ => False end) new ->
  Inv (mkWorld s' (new ++ pre ++ post) log).
Proof.
  intros Hi Hn Hp. apply (inv_quiet policy s (pre ++ t :: post)); [done|done|].
  apply tasks_plain; [done|]. by apply (inv_taken policy _ _ _ _ _ Hi).
Qed.

Lemma inv_answer s ts log nonce conn id dp s' :
  Inv (mkWorld s ts log) -> answered_take s nonce conn = (Some (id, Some dp), s') ->
  Inv (mkWorld s' (TDesk dp conn :: ts) log).
Proof.
  intros Hi Ha. pose proof (no_more_take s nonce conn) as Hn. rewrite Ha in Hn.
  apply answered_take_frame in Ha as (_ & _ & _ & _ & _ & _ & _ & Hs).
  destruct (Hs id dp eq_refl) as (sp & Hsp & Hdp).
  apply (inv_push s); [done|done|]. by apply (inv_prompts policy _ Hi id sp).
Qed.

Lemma inv_step w w' : step policy run_as w w' -> Inv w -> Inv w'.
Proof.
  destruct 1; intros Hi.
  - eapply inv_code; [done|by eapply no_more_code|]. split; [by left|by eapply authorize_code_ok].
  - eapply inv_still; [done|by eapply no_more_code].
  - by eapply inv_record.
  - eapply inv_drop; [done|]. by apply authorize_record_err in H3 as ->.
  - eapply inv_entry; [done|by eapply admitted_justified|by eapply no_more_job|by intros ? []|by eapply tasks_entry].
  - eapply inv_still; [done|by eapply no_more_job].
  - by eapply inv_open.
  - eapply inv_still; [done|].
  pose proof (shell_open_frame policy _ _ _ _ _ H3) as (Ha & Hb & Hc & _).
  unfold no_more. by rewrite (shell_open_err policy _ _ _ _ _ H3), Hc.
  - by eapply inv_exec.
  - eapply inv_still; [done|by eapply no_more_exec].
  - eapply inv_code; [done|by eapply no_more_arm_code|]. split; [by left|].
  apply arm_code_cases in H3 as [_ Hc]. by apply Hc.
  - eapply inv_still; [done|by eapply no_more_arm_code].
  - by eapply inv_arm_task.
  - eapply inv_drop; [done|]. by apply arm_section_cases in H3 as ->.
  - by eapply inv_arm_local.
  - eapply inv_still; [done|]. unfold ctl_arm in H3. destruct (ctl_arm_tier _ _); [|by injection H3 as _ <-].
  by apply arm_section_cases in H3 as ->.
  - apply (inv_disarm policy _ ts); [done|]. by eapply tasks_entry.
  - eapply (inv_entry policy _ ts); [done|done|done|by intros ? []|]. constructor; [done|by eapply tasks_entry].
  - apply (inv_replace _ _ _ _ _ _ [TLockClear] Hi); [by destruct io|by constructor].
  - by eapply inv_lock_clear.
  - eapply inv_replace; [done|by eapply no_more_end|apply kills_plain].
  - eapply inv_drop; [done|by eapply no_more_end].
  - by apply (inv_push s).
  - eapply inv_drop; [done|apply no_more_kill].
  - by apply (inv_push s).
  - eapply inv_code; [done|by eapply no_more_unlock_code|]. split; [by left|].
  apply unlock_code_cases in H3 as [_ Hc]. by apply Hc.
  - eapply inv_still; [done|by eapply no_more_unlock_code].
  - by eapply inv_unlock.
  - eapply inv_drop; [done|by eapply no_more_unlock].
  - by eapply inv_unlock_local.
  - apply (inv_push s); [done|done|]. destruct desk as [dp|]; [|done]. by eapply prompt_prepare_approves.
  - by eapply inv_shown.
  - eapply inv_still; [done|]. unfold no_more. cbn. by split_and!; [..|apply delete_subseteq|].
  - by apply (inv_still s).
  - by eapply inv_answer.
  - eapply inv_still; [done|apply no_more_take].
  - by eapply inv_allow.
  - eapply inv_drop; [done|]. by apply answered_record_no in H3 as ->.
  - eapply inv_still; [done|]. by destruct io.
  - eapply inv_still; [done|]. unfold job_ack. by destruct (st_spool s !! id) as [[]|].
  - by apply (inv_still s).
  - apply (inv_entry policy s ts); [done|done|done|by intros ? []|by eapply tasks_entry].
  - by apply (inv_restart policy _ ts).
Qed.

Lemma inv_start : Inv (mkWorld State_default [] []).
Proof.
  split; cbn; try done; try (intros tier; left; by destruct tier).
Qed.

Lemma inv_reachable w : reachable policy run_as w -> Inv w.
Proof. induction 1; [apply inv_start|by eapply inv_step]. Qed.

Lemma log_ok_split later e before : log_ok policy (later ++ e :: before) -> justified policy e before.
Proof. induction later as [|x later IH]; cbn; intros [Hj Hl]; [done|by apply IH]. Qed.
End journal.

(** ** A sample run *)

(** A secret is enrolled, its code approves a job, which runs, and a
    lockdown comes. *)
Module SampleRun.
Definition hmac : HmacSha1 := Build_HmacSha1 (fun _ _ => repeat 0%N 20).
Definition sha : Sha256Hex := Build_Sha256Hex (fun _ => repeat (ch "0") 64).
#[local] Existing Instances SampleHost.regex SampleHost.text hmac sha.
Definition policy : HostPolicy := SampleHost.policy.
Definition direct : SecretName := mkSecret User PurposeDirect.
Definition slot : Slot := mkSlot (Some (Ok (repeat 1%N 20))) (Some TotpState_default) false.
Definition job_id : str := lit "abcd1234".
Definition digest : str := repeat (ch "0") 64.

Definition s1 : State := with_slot State_default direct slot.
Definition log1 : list Entry := [JSlot direct].

Definition ask : AuthorizeMsg := mkAuthorizeMsg job_id User digest (lit "000000") false.
Definition code : AcceptedCode := mkAccepted direct 34.
Definition pending : Authorizing := mkAuthorizing job_id User digest code (mkTotpApproval User digest PurposeDirect).
Definition s2 : State := (authorize_code policy s1 ask 1000000 None).2.
Definition log2 : list Entry := JCode code :: log1.

Definition approval : Authorization := mkAuthorization digest User AvTotp 1301000.
Definition s3 : State := (authorize_record policy s2 pending 1001000).2.
Definition log3 : list Entry := JApproved job_id approval (ByCode code) :: log2.

Definition spec : CommandSpec := mkSpec (lit "desk") User (CRun [lit "ls"]) None [] 600 None.
Definition message : JobStartMsg :=
  mkJobStartMsg job_id match CommandSpec_to_json spec with VObject m => m | _ => [] end
  (mkEvidenceMsg (lit "req_1") None None false).
Definition ran : HandlerResult * option AdmittedJob * State := job_start policy s3 message 1002000 None.
Definition job : AdmittedJob := AdmittedJob_new job_id (mkNormalized spec [lit "ls"] None [] None) ViaTotp None.
Definition s4 : State := ran.2.
Definition log4 : list Entry := JAdmitted job digest 1002000 :: log3.

Definition s5 : State := lockdown_flag s4.
Definition log5 : list Entry := JLocked :: log4.
Definition s6 : State := lockdown_write s5 None.
Definition cleared : list str * list str * State := lockdown_clear s6.

Lemma pair_snd {A B} (p : A * B) a : p.1 = a -> p = (a, p.2).
Proof. destruct p as [x y]. by intros <-. Qed.

Lemma reach_ran : reachable policy None (mkWorld s4 [] log4).
Proof.
  eapply reach_step; [eapply reach_step; [eapply reach_step; [eapply reach_step; [apply reach_start|]|]|]|].
  - exact (step_slot policy None State_default [] [] direct slot).
  - apply (step_code policy None s1 [] log1 ask 1000000 None pending s2).
  apply pair_snd. vm_compute. reflexivity.
  - apply (step_record policy None s2 [] pending [] log2 1001000 (json_obj [(lit "authorized", VBool true)])
    s3 approval); [|vm_compute; reflexivity].
  apply pair_snd. vm_compute. reflexivity.
  - apply (step_job policy None s3 [] log3 message 1002000 None
    (Ok (json_obj [(lit "started", VBool true); (lit "via", VString (lit "totp"))])) job digest s4).
  + apply (pair_snd ran). vm_compute. reflexivity.
  + vm_compute. reflexivity.
Qed.

Lemma reach_locked : reachable policy None (mkWorld s5 [TLockWrite] log5).
Proof. eapply reach_step; [apply reach_ran|]. apply step_lock. Qed.

Lemma reach_written : reachable policy None (mkWorld s6 [TLockClear] log5).
Proof. eapply reach_step; [apply reach_locked|]. exact (step_lock_write policy None s5 [] [] log5 None). Qed.
End SampleRun.

(** ** Properties *)

(** C2: the host daemon runs nothing it did not decide: whatever its handlers
    do, in any order their sections can run in, a job it admits rests on an
    approval of exactly that job (its id, tier and spec's digest) that has
    not expired, on a pattern of its own policy, or on a tier armed until
    then and not disarmed since; a shell, on such an approval; a command of
    a shell, on that shell; an approval, on a code accepted for its tier or
    on a prompt this desk showed; and an arming or an unlock, on a code of
    its own secret or a caller on this host who may. *)
Theorem journal_justified `{RegexLib, JsonText, HmacSha1, Sha256Hex} policy run_as w later e before :
  reachable policy run_as w -> w_log w = later ++ e :: before -> justified policy e before.
Proof.
  intros Hr Hl. apply (log_ok_split policy later). rewrite <- Hl.
  by apply (inv_log policy), (inv_reachable policy run_as).
Qed.

Lemma journal_justified_witness :
  approved SampleRun.job_id User SampleRun.digest 1002000 [AvTotp] SampleRun.log3.
Proof.
  exact (@journal_justified SampleHost.regex SampleHost.text SampleRun.hmac SampleRun.sha SampleRun.policy None
    (mkWorld SampleRun.s4 [] SampleRun.log4) [] (JAdmitted SampleRun.job SampleRun.digest 1002000)
    SampleRun.log3 SampleRun.reach_ran eq_refl).
Defined.
