(* ===== verification/HostdOnce.v ===== *)
(** Runs of the host daemon, counted: an approval is spent by at most one
    job or shell, and the step of a secret's code is accepted at most once. *)

From Stdlib Require Import Sorting.Sorted.

From stdpp Require Import gmap.
From S2P Require Import Prelude Json Glob Pyfmt Lifecycle Names Durations Pool Mail Authority Hostexec HostTypes Totp Output TotpCode TotpStore CanonicalJson Admission Hostd HostdRuns.
From stdpp Require Import options.

(** ** Approvals and codes are spent once *)

#[export] Instance AcceptedCode_eq_dec : EqDecision AcceptedCode.
Proof. solve_decision. Defined.

(** How many elements satisfy [f]. *)
Definition cnt {A} (f : A -> bool) (l : list A) : nat := length (List.filter f l).
Lemma cnt_cons {A} (f : A -> bool) x l : cnt f (x :: l) = (if f x then 1 else 0) + cnt f l.
Proof. unfold cnt. cbn. by destruct (f x). Qed.
Lemma cnt_nil {A} (f : A -> bool) : cnt f [] = 0.
Proof. done. Qed.
Lemma cnt_app {A} (f : A -> bool) l l' : cnt f (l ++ l') = cnt f l + cnt f l'.
Proof. induction l as [|x l IH]; [done|]. cbn [app]. rewrite !cnt_cons, IH. lia. Qed.
Lemma cnt_map_none {A B} (f : B -> bool) (g : A -> B) l : (forall x, f (g x) = false) -> cnt f (map g l) = 0.
Proof. intros Hf. induction l as [|x l IH]; [done|]. cbn [map]. by rewrite cnt_cons, Hf, IH. Qed.

(** A code's approvals, armings and unlocks, where it was accepted, and the
    handlers that hold it. *)
Definition uses (c : AcceptedCode) (e : Entry) : bool :=
  match e with
  | JApproved _ _ (ByCode c') | JArmed _ _ (ProofTotp c') _ | JUnlocked (ProofTotp c') => bool_decide (c' = c)
  | _ => false
  end.
Definition accepts (c : AcceptedCode) (e : Entry) : bool :=
  match e with JCode c' => bool_decide (c' = c) | _ => false end.
Definition holds_code (c : AcceptedCode) (t : Task) : bool :=
  match t with
  | TAuthorize p => bool_decide (au_code p = c)
  | TArm _ _ c' | TUnlock c' => bool_decide (c' = c)
  | _ => false
  end.

(** An approval of [id], and a job or a shell that took it. *)
Definition grants (id : str) (e : Entry) : bool :=
  match e with JApproved id' _ _ => bool_decide (id' = id) | _ => false end.
Definition spends (id : str) (e : Entry) : bool :=
  match e with
  | JAdmitted job _ _ =>
      bool_decide (aj_id job = id) && bool_decide (aj_via job = ViaTotp \/ aj_via job = ViaDesk)
  | JOpened shell _ _ => bool_decide (os_id shell = id)
  | _ => false
  end.

(** The steps of a secret's codes since it was last enrolled or cleared. *)
Fixpoint codes_since (name : SecretName) (log : list Entry) : list N :=
  match log with
  | [] => []
  | JSlot n :: log => if bool_decide (n = name) then [] else codes_since name log
  | JCode c :: log =>
      if bool_decide (code_name c = name) then code_step c :: codes_since name log
      else codes_since name log
  | _ :: log => codes_since name log
  end.

Section spent.
Context `{RegexLib, JsonText, HmacSha1, Sha256Hex}.
Variable policy : HostPolicy.
Variable run_as : option str.

Definition codes_counted (c : AcceptedCode) (w : World) : Prop :=
  cnt (uses c) (w_log w) + cnt (holds_code c) (w_tasks w) <= cnt (accepts c) (w_log w).

Ltac count :=
  repeat first [rewrite cnt_app | rewrite cnt_cons | rewrite cnt_nil | rewrite cnt_map_none by done];
  cbn [uses holds_code accepts grants spends]; repeat case_bool_decide; cbn [andb]; try lia.

Lemma codes_counted_step c w w' : step policy run_as w w' -> codes_counted c w -> codes_counted c w'.
Proof.
  unfold codes_counted. destruct 1; cbn [w_state w_tasks w_log];
  try (destruct r, desk); try (destruct caller); count.
Qed.

(** *** Approvals *)

Definition one {A} (o : option A) : nat := if o then 1 else 0.
Definition grants_counted (id : str) (w : World) : Prop :=
  cnt (spends id) (w_log w) + one (st_auths (w_state w) !! id) <= cnt (grants id) (w_log w).

Lemma one_le {A} (m m' : gmap str A) id : m ⊆ m' -> one (m !! id) <= one (m' !! id).
Proof.
  intros Hs. destruct (m !! id) eqn:E; [|cbn; lia]. by rewrite (lookup_weaken _ _ _ _ E Hs).
Qed.

Lemma one_recorded auths job a now id :
  one (authz_insert auths job a now !! id) <= one (auths !! id) + (if bool_decide (job = id) then 1 else 0).
Proof.
  destruct (authz_insert auths job a now !! id) as [b|] eqn:E; [|cbn; lia].
  apply authz_insert_elem in E as [->|[-> _]]; [cbn; lia|]. rewrite bool_decide_true by done. cbn. lia.
Qed.

(** A job admitted on its own approval took it. *)
Lemma job_start_took s m now io r job s' :
  job_start policy s m now io = (r, Some job, s') -> aj_via job = ViaTotp \/ aj_via job = ViaDesk ->
  is_Some (st_auths s !! aj_id job) /\ st_auths s' = delete (aj_id job) (st_auths s).
Proof.
  intros Hj Hv. unfold job_start in Hj. destruct (LocalId_parse _) as [id|]; [|done].
  destruct (already_ran s id); [done|]. destruct (mbind _ _) as [[d n]|] eqn:Hb; [|done].
  set (ev := mkEvidence _ _) in Hj.
  pose proof (admit_result (view policy s now) id n d ev (st_auths s)) as Hr.
  pose proof (admit_spends (view policy s now) id n d ev (st_auths s)) as Hs.
  destruct (admit_job _ _ _ _ _ _) as [[aj|] auths] eqn:Ea; [|done]. cbn [fst snd] in Hr, Hs.
  assert (aj = job /\ st_auths s' = auths) as [-> ->].
  { destruct (launch _ _ _) as [[]] eqn:El; injection Hj as _ <- <-;
    apply launch_frame in El as (_ & -> & _); done. }
  destruct (decide _) as [via|k] eqn:Ed; cbn [map_err fmap result_fmap] in Hr; [|done].
  injection Hr as ->. cbn [aj_id aj_via AdmittedJob_new] in Hv |- *.
  unfold decide in Ed. cbn [f_locked facts] in Ed.
  destruct (is_locked _); [done|]. split; [|done].
  destruct (own_approval _) as [v|] eqn:Eo.
  - apply own_approval_iff in Eo as (a & (Hf & _) & _). cbn [authorization facts] in Hf.
  by destruct (st_auths s !! id).
  - exfalso. destruct Hv as [-> | ->]; repeat (case_match; try done).
Qed.

Lemma shell_open_took s o now shell s' :
  shell_open policy s o now = (Ok shell, s') ->
  is_Some (st_auths s !! os_id shell) /\ st_auths s' = delete (os_id shell) (st_auths s).
Proof.
  intros Ho. unfold shell_open in Ho.
  destruct (mbind _ _) as [[[id spec] d]|]; [|done].
  pose proof (fun sh => open_shell_ok policy id spec d (st_auths s) (lock_state s) now
  (shell_enrolled s (sh_tier spec)) sh) as Hok.
  pose proof (open_shell_spends policy id spec d (st_auths s) (lock_state s) now
  (shell_enrolled s (sh_tier spec))) as Hsp.
  destruct (open_shell _ _ _ _ _ _ _ _) as [[sh|e'] auths]; [|done]. injection Ho as <- <-.
  destruct (proj1 (Hok sh) eq_refl) as (Hl & He & Hx & -> & a & Ha & _). cbn [os_id]. split; [by exists a|].
  exact (Hsp _ eq_refl).
Qed.

Lemma took_one (m m' : gmap str Authorization) id k :
  is_Some (m !! k) -> m' = delete k m ->
  one (m' !! id) + (if bool_decide (k = id) then 1 else 0) = one (m !! id).
Proof.
  intros [a Ha] ->. destruct (bool_decide_reflect (k = id)) as [->|Hne].
  - rewrite lookup_delete_eq, Ha. done.
  - rewrite lookup_delete_ne by done. lia.
Qed.

Lemma grants_counted_job s ts log m now io r job d s' id :
  job_start policy s m now io = (r, Some job, s') ->
  grants_counted id (mkWorld s ts log) -> grants_counted id (mkWorld s' ts (JAdmitted job d now :: log)).
Proof.
  intros Hj. unfold grants_counted. cbn [w_state w_log]. rewrite !cnt_cons. cbn [grants spends].
  destruct (bool_decide_reflect (aj_via job = ViaTotp \/ aj_via job = ViaDesk)) as [Hv|Hv].
  - destruct (job_start_took _ _ _ _ _ _ _ Hj Hv) as [Ha Hd].
  pose proof (took_one _ _ id _ Ha Hd). rewrite andb_true_r. lia.
  - rewrite andb_false_r. apply no_more_job in Hj as [Ha _]. pose proof (one_le _ _ id Ha). lia.
Qed.

Lemma grants_still s ts log s' ts' id new :
  no_more s s' -> spends id new = false ->
  grants_counted id (mkWorld s ts log) -> grants_counted id (mkWorld s' ts' (new :: log)).
Proof.
  intros [Ha _] Hn. unfold grants_counted. cbn [w_state w_log]. rewrite !cnt_cons, Hn.
  pose proof (one_le _ _ id Ha). lia.
Qed.
Lemma grants_quiet s ts log s' ts' id :
  no_more s s' ->
  grants_counted id (mkWorld s ts log) -> grants_counted id (mkWorld s' ts' log).
Proof.
  intros [Ha _]. unfold grants_counted. cbn [w_state w_log]. pose proof (one_le _ _ id Ha). lia.
Qed.

Lemma grants_dropped s ts log s' ts' id new :
  st_auths s' = ∅ -> spends id new = false ->
  grants_counted id (mkWorld s ts log) -> grants_counted id (mkWorld s' ts' (new :: log)).
Proof.
  intros Ha Hn. unfold grants_counted. cbn [w_state w_log]. rewrite !cnt_cons, Hn, Ha, lookup_empty.
  cbn [one]. lia.
Qed.

Lemma grants_recorded s ts log job a now ts' id b g :
  grants_counted id (mkWorld s ts log) ->
  grants_counted id (mkWorld (with_auths s (authz_insert (st_auths s) job a now)) ts'
  (JApproved job b g :: log)).
Proof.
  unfold grants_counted. cbn [w_state w_log st_auths with_auths]. rewrite !cnt_cons. cbn [spends grants].
  pose proof (one_recorded (st_auths s) job a now id). lia.
Qed.

Lemma no_more_open s o now e s' : shell_open policy s o now = (Err e, s') -> no_more s s'.
Proof.
  intros Ho. pose proof (shell_open_frame policy _ _ _ _ _ Ho) as (Ha & Hb & Hc & _).
  unfold no_more. by rewrite (shell_open_err policy _ _ _ _ _ Ho), Hc.
Qed.

Lemma auths_shown s id nonce desk sent r s' :
  prompt_show s id nonce desk sent = (r, s') -> st_auths s' = st_auths s.
Proof. by intros (-> & _)%prompt_show_cases. Qed.

Lemma grants_counted_step id w w' : step policy run_as w w' -> grants_counted id w -> grants_counted id w'.
Proof.
  intros Hw Hg. step_cases Hw.
  - eapply grants_still, Hg; [by eapply no_more_code|done].
  - eapply grants_quiet, Hg. by eapply no_more_code.
  - apply authorize_record_ok in E as [_ ->]. by eapply grants_recorded.
  - apply authorize_record_err in E as ->. by eapply grants_quiet, Hg.
  - by eapply grants_counted_job.
  - eapply grants_quiet, Hg. by eapply no_more_job.
  - destruct (shell_open_took _ _ _ _ _ E) as [Ha Hd]. pose proof (took_one _ _ id _ Ha Hd).
  unfold grants_counted in *. cbn [w_state w_log] in *. rewrite !cnt_cons. cbn [spends grants]. lia.
  - eapply grants_quiet, Hg. by eapply no_more_open.
  - eapply grants_still, Hg; [by eapply no_more_exec|done].
  - eapply grants_quiet, Hg. by eapply no_more_exec.
  - eapply grants_still, Hg; [by eapply no_more_arm_code|done].
  - eapply grants_quiet, Hg. by eapply no_more_arm_code.
  - apply arm_section_cases in E as (-> & _). exact Hg.
  - apply arm_section_cases in E as ->. exact Hg.
  - unfold ctl_arm in E. rewrite Et in E. apply arm_section_cases in E as (-> & _). exact Hg.
  - unfold ctl_arm in E. destruct (ctl_arm_tier _ _); [|by injection E as _ <-].
  apply arm_section_cases in E as ->. exact Hg.
  - exact Hg.
  - exact Hg.
  - by destruct io.
  - unfold lockdown_clear in E. injection E as _ _ <-. by eapply grants_dropped, Hg.
  - eapply grants_quiet, Hg. by eapply no_more_end.
  - eapply grants_quiet, Hg. by eapply no_more_end.
  - exact Hg.
  - eapply grants_quiet, Hg. apply no_more_kill.
  - exact Hg.
  - eapply grants_still, Hg; [by eapply no_more_unlock_code|done].
  - eapply grants_quiet, Hg. by eapply no_more_unlock_code.
  - eapply grants_still, Hg; [by eapply no_more_unlock|done].
  - eapply grants_quiet, Hg. by eapply no_more_unlock.
  - unfold ctl_unlock in E. destruct (root_only _ _); [|done].
  eapply grants_still, Hg; [by eapply no_more_unlock|done].
  - exact Hg.
  - apply auths_shown in E. unfold grants_counted in *. cbn [w_state w_log] in *. rewrite E.
  destruct r, desk; exact Hg.
  - exact Hg.
  - exact Hg.
  - eapply grants_quiet, Hg. pose proof (no_more_take s nonce conn) as Hn. by rewrite E in Hn.
  - eapply grants_quiet, Hg. apply no_more_take.
  - apply answered_record_ok in E as (_ & _ & ->). by eapply grants_recorded.
  - apply answered_record_no in E as ->. exact Hg.
  - destruct io; exact Hg.
  - eapply grants_quiet, Hg. unfold job_ack. by destruct (st_spool s !! id') as [[]|].
  - exact Hg.
  - exact Hg.
  - by eapply grants_dropped, Hg.
Qed.

(** *** Codes *)

(** The codes accepted since a secret was last enrolled or cleared are of
    rising steps, and its state remembers them. *)
Definition slots_ok (w : World) : Prop := forall name,
  StronglySorted N.gt (codes_since name (w_log w)) /\
  forall b st, b ∈ codes_since name (w_log w) -> stored (st_totp (w_state w) name) = Some st ->
  exists l, last_step st = Some l /\ (b <= l)%N.

Lemma slots_same s s' ts ts' log log' :
  (forall name, stored (st_totp s' name) = stored (st_totp s name)) ->
  (forall name, codes_since name log' = codes_since name log) ->
  slots_ok (mkWorld s ts log) -> slots_ok (mkWorld s' ts' log').
Proof. intros Hs Hl Hi name. cbn. rewrite Hl, Hs. apply Hi. Qed.

Lemma totp_launch s job io r s' : launch s job io = (r, s') -> st_totp s' = st_totp s.
Proof. unfold launch. destruct io; intros Heq; by injection Heq as _ <-. Qed.
Lemma totp_job s m now io r j s' : job_start policy s m now io = (r, j, s') -> st_totp s' = st_totp s.
Proof.
  unfold job_start. intros Hj. repeat case_match; simplify_eq; try done;
  by match goal with Hl : launch _ _ _ = _ |- _ => apply totp_launch in Hl as -> end.
Qed.
Lemma totp_open s o now r s' : shell_open policy s o now = (r, s') -> st_totp s' = st_totp s.
Proof. unfold shell_open. intros Hj. by repeat case_match; simplify_eq. Qed.
Lemma totp_exec s x now io r j s' : shell_exec policy s x now io = (r, j, s') -> st_totp s' = st_totp s.
Proof.
  unfold shell_exec. intros Hj. repeat case_match; simplify_eq; try done;
  by match goal with Hl : launch _ _ _ = _ |- _ => apply totp_launch in Hl as -> end.
Qed.
Lemma totp_end s id r s' : end_shell_section s id = (r, s') -> st_totp s' = st_totp s.
Proof. unfold end_shell_section. intros Hj. by repeat case_match; simplify_eq. Qed.
Lemma totp_kill s id : st_totp (kill s id).2 = st_totp s.
Proof. unfold kill. by repeat case_match. Qed.
Lemma totp_take s nonce conn r s' : answered_take s nonce conn = (r, s') -> st_totp s' = st_totp s.
Proof. unfold answered_take. intros Hj. by repeat case_match; simplify_eq. Qed.
Lemma totp_show s id nonce desk sent r s' :
  prompt_show s id nonce desk sent = (r, s') -> st_totp s' = st_totp s.
Proof. unfold prompt_show. intros Hj. by repeat case_match; simplify_eq. Qed.
Lemma totp_arm s tier secs proof now r s' :
  arm_section policy s tier secs proof now = (r, s') -> st_totp s' = st_totp s.
Proof. unfold arm_section. intros Hj. by repeat case_match; simplify_eq. Qed.
Lemma totp_unlock s rm r s' : unlock s rm = (r, s') -> st_totp s' = st_totp s.
Proof. unfold unlock. intros Hj. by repeat case_match; simplify_eq. Qed.

(** A code checked: refused, the steps stay; accepted, it is above them. *)
Lemma verify_code_refused s name text now io e s' log ts ts' :
  verify_code s name text now io = (Err e, s') ->
  slots_ok (mkWorld s ts log) -> slots_ok (mkWorld s' ts' log).
Proof.
  unfold verify_code. destruct (store_verify _ _ _ _ _) as [o slot] eqn:E. intros Heq.
  destruct o as [|te]; [done|]. injection Heq as _ <-. intros Hi n. cbn. split; [apply Hi|].
  intros b st Hb. case_bool_decide as Hn; [subst n|by apply Hi]. intros Hst.
  destruct (store_verify_refused _ _ _ _ _ _ _ E st Hst) as (st0 & Hst0 & ->).
  exact (proj2 (Hi name) b st0 Hb Hst0).
Qed.

Lemma verify_code_accepted s name text now io c s' log ts ts' :
  verify_code s name text now io = (Ok c, s') ->
  slots_ok (mkWorld s ts log) -> slots_ok (mkWorld s' ts' (JCode c :: log)).
Proof.
  unfold verify_code. pose proof (store_verify_cases (st_totp s name) name text (secs_of now) io) as Hc.
  destruct (store_verify _ _ _ _ _) as [o slot]. intros Heq.
  destruct Hc as [(e & -> & _)|(c' & sec & st & -> & _ & Hst & _ & _ & Hn & _ & Hl & st' & -> & Hl')]; [done|].
  cbn [map_err] in Heq. injection Heq as -> <-. intros Hi n. cbn. rewrite Hn.
  destruct (bool_decide_reflect (name = n)) as [->|Hne].
  - rewrite bool_decide_true by done. split.
  + constructor; [apply Hi|]. apply Forall_forall. intros b Hb.
    destruct (proj2 (Hi n) b st Hb Hst) as (l & Hll & Hle). specialize (Hl l Hll). lia.
  + intros b st0 Hb [= <-]. exists (code_step c). split; [done|].
    apply elem_of_cons in Hb as [->|Hb]; [done|].
    destruct (proj2 (Hi n) b st Hb Hst) as (l & Hll & Hle). specialize (Hl l Hll). lia.
  - rewrite bool_decide_false by done. apply Hi.
Qed.

(** A code that was used, but not for what it was sent: the journal does
    not name it. *)
Lemma slots_unused s ts log c : slots_ok (mkWorld s ts (JCode c :: log)) -> slots_ok (mkWorld s ts log).
Proof.
  intros Hok n. destruct (Hok n) as [Hs Hb]. cbn in Hs, Hb |- *. case_bool_decide; [|done].
  inversion Hs; subst. split; [done|]. intros b st Hin. apply Hb. by right.
Qed.

Lemma slots_authorize s a now io r s' ts ts' log :
  authorize_code policy s a now io = (r, s') -> slots_ok (mkWorld s ts log) ->
  slots_ok (mkWorld s' ts' match r with Ok p => JCode (au_code p) :: log | Err _ => log end).
Proof.
  unfold authorize_code. intros E Hi. destruct (mbind _ _) as [[[job tier] d]|e]; [|by injection E as <- <-].
  destruct (verify_code _ _ _ _ _) as [[c|e] s1] eqn:Ev; injection E as <- <-.
  2:{ by eapply verify_code_refused. }
  pose proof (verify_code_accepted _ _ _ _ _ _ _ log ts ts' Ev Hi) as Hok. cbn [mbind result_bind].
  match goal with |- context [if am_shell a then ?x else ?y] =>
  destruct (if am_shell a then x else y) as [ap|e] end; cbn [mbind result_bind au_code]; [done|].
  by eapply slots_unused.
Qed.

Lemma slots_arm_code s tier text now io r s' ts ts' log :
  arm_code policy s tier text now io = (r, s') -> slots_ok (mkWorld s ts log) ->
  slots_ok (mkWorld s' ts' match r with Ok c => JCode c :: log | Err _ => log end).
Proof.
  unfold arm_code. intros E Hi. destruct (check_can_arm _ _ _); [|by injection E as <- <-].
  destruct r; [by eapply verify_code_accepted|by eapply verify_code_refused].
Qed.

Lemma slots_unlock_code s text now io r s' ts ts' log :
  unlock_code s text now io = (r, s') -> slots_ok (mkWorld s ts log) ->
  slots_ok (mkWorld s' ts' match r with Ok c => JCode c :: log | Err _ => log end).
Proof.
  unfold unlock_code. intros E Hi. destruct (negb _); [by injection E as <- <-|].
  destruct (verify_code _ _ _ _ _) as [[c|e] s1] eqn:Ev; injection E as <- <-.
  2:{ by eapply verify_code_refused. }
  pose proof (verify_code_accepted _ _ _ _ _ _ _ log ts ts' Ev Hi) as Hok. cbn [mbind result_bind check_unlock].
  case_bool_decide; cbn [mbind result_bind]; [done|]. by eapply slots_unused.
Qed.

Ltac same := match goal with Hi : slots_ok _ |- _ => eapply slots_same, Hi; [|done]; intros ? end.

Lemma slots_ok_step w w' : step policy run_as w w' -> slots_ok w -> slots_ok w'.
Proof.
  intros Hw Hi. step_cases Hw.
  - by apply (slots_authorize _ _ _ _ _ _ ts _ _ E).
  - by apply (slots_authorize _ _ _ _ _ _ ts ts _ E).
  - same. by apply authorize_record_ok in E as [_ ->].
  - same. by apply authorize_record_err in E as ->.
  - same. by apply totp_job in E as ->.
  - same. by apply totp_job in E as ->.
  - same. by apply totp_open in E as ->.
  - same. by apply totp_open in E as ->.
  - same. by apply totp_exec in E as ->.
  - same. by apply totp_exec in E as ->.
  - by apply (slots_arm_code _ _ _ _ _ _ _ ts _ _ E).
  - by apply (slots_arm_code _ _ _ _ _ _ _ ts _ _ E).
  - same. by apply totp_arm in E as ->.
  - same. by apply totp_arm in E as ->.
  - same. unfold ctl_arm in E. rewrite Et in E. by apply totp_arm in E as ->.
  - same. unfold ctl_arm in E. destruct (ctl_arm_tier _ _); [|by injection E as _ <-]. by apply totp_arm in E as ->.
  - same. done.
  - same. done.
  - same. by destruct io.
  - same. unfold lockdown_clear in E. by injection E as _ _ <-.
  - same. by apply totp_end in E as ->.
  - same. by apply totp_end in E as ->.
  - same. done.
  - same. by rewrite totp_kill.
  - same. done.
  - by apply (slots_unlock_code _ _ _ _ _ _ ts _ _ E).
  - by apply (slots_unlock_code _ _ _ _ _ _ ts _ _ E).
  - same. by apply totp_unlock in E as ->.
  - same. by apply totp_unlock in E as ->.
  - same. unfold ctl_unlock in E. destruct (root_only _ _); [|done]. by apply totp_unlock in E as ->.
  - same. done.
  - apply totp_show in E. eapply slots_same, Hi; intros n; [by rewrite E|by destruct r, desk].
  - same. done.
  - same. done.
  - same. by apply totp_take in E as ->.
  - same. destruct (answered_take s nonce conn) as [r s'] eqn:E. apply totp_take in E. by rewrite <- E.
  - same. by apply answered_record_ok in E as (_ & _ & ->).
  - same. by apply answered_record_no in E as ->.
  - same. by destruct io.
  - same. unfold job_ack. by destruct (st_spool s !! id') as [[]|].
  - same. done.
  - intros n. cbn. case_bool_decide as Hn; [split; [constructor|by intros b st ?%elem_of_nil]|].
  rewrite bool_decide_false by congruence. apply Hi.
  - same. done.
Qed.
End spent.

(** ** Properties *)

(** C7: an approval is spent once: of the jobs and shells admitted under an id
    on their own approvals (a code's or the desk's), and the approval still
    held for it, there are never more than there were approvals of that id. *)
Theorem approval_spent_once `{RegexLib, JsonText, HmacSha1, Sha256Hex} policy run_as w id :
  reachable policy run_as w ->
  cnt (spends id) (w_log w) + one (st_auths (w_state w) !! id) <= cnt (grants id) (w_log w).
Proof.
  induction 1 as [|w w' _ IH Hs]; [cbn; rewrite lookup_empty; cbn; lia|].
  exact (grants_counted_step policy run_as id w w' Hs IH).
Qed.

Lemma approval_spent_once_witness :
  cnt (spends SampleRun.job_id) SampleRun.log4 + one (st_auths SampleRun.s4 !! SampleRun.job_id) <= 1.
Proof.
  exact (@approval_spent_once SampleHost.regex SampleHost.text SampleRun.hmac SampleRun.sha SampleRun.policy None
    (mkWorld SampleRun.s4 [] SampleRun.log4) SampleRun.job_id SampleRun.reach_ran).
Defined.

(** A code is used once: a code approves, arms or unlocks at most as often
    as it was accepted, counting the handlers that still hold it; and since
    its secret was last enrolled or cleared, the codes accepted are of
    rising steps, so none is accepted twice. *)
Theorem code_used_once `{RegexLib, JsonText, HmacSha1, Sha256Hex} policy run_as w c name :
  reachable policy run_as w ->
  cnt (uses c) (w_log w) + cnt (holds_code c) (w_tasks w) <= cnt (accepts c) (w_log w) /\
  StronglySorted N.gt (codes_since name (w_log w)).
Proof.
  intros Hr. split.
  - induction Hr as [|w w' _ IH Hs]; [cbn; lia|]. exact (codes_counted_step policy run_as c w w' Hs IH).
  - assert (slots_ok w) as Hok.
    { induction Hr as [|w w' _ IH Hs]; [|by eapply slots_ok_step].
      intros n. cbn. split; [constructor|]. by intros b st ?%elem_of_nil. }
    apply Hok.
Qed.

Lemma code_used_once_witness :
  cnt (uses SampleRun.code) SampleRun.log4 + 0 <= 1 /\ StronglySorted N.gt [34%N].
Proof.
  exact (@code_used_once SampleHost.regex SampleHost.text SampleRun.hmac SampleRun.sha SampleRun.policy None
    (mkWorld SampleRun.s4 [] SampleRun.log4) SampleRun.code SampleRun.direct SampleRun.reach_ran).
Defined.
