(* ===== verification/HostdLock.v ===== *)
(** Runs of the host daemon under a lockdown: what a locked host still
    does, and how a lockdown comes to its end. *)

From stdpp Require Import gmap.
From S2P Require Import Prelude Json Glob Pyfmt Lifecycle Names Durations Pool Mail Authority Hostexec HostTypes Totp Output TotpCode TotpStore CanonicalJson Admission Hostd HostdRuns HostdOnce.
From stdpp Require Import options.

(** ** Lockdown *)

Definition grants_nothing (e : Entry) : Prop :=
  match e with
  | JApproved _ _ _ | JAdmitted _ _ _ | JOpened _ _ _ | JShellRan _ _ | JArmed _ _ _ _ => False
  | _ => True
  end.
Definition unlocks (e : Entry) : Prop := match e with JUnlocked _ | JRestart => True | _ => False end.

Definition ends (t : Task) : Prop := match t with TEnd _ | TKill _ => True | _ => False end.

(** What a lockdown leaves to do: every shell and job left is to be ended
    by a section that waits. *)
Record Stopping (s : State) (ts : list Task) : Prop := {
  stop_auths : st_auths s = ∅;
  stop_arm : forall tier, armed_until (st_arm s) tier = 0%N;
  stop_shells : forall id sh, st_shells s !! id = Some sh -> TEnd id ∈ ts;
  stop_jobs : forall id job, st_jobs s !! id = Some job -> rj_killed job = true \/ TKill id ∈ ts;
  stop_orphans : forall id, id ∈ st_orphans s -> TKill id ∈ ts;
  stop_apart : forall id, id ∈ st_orphans s -> st_jobs s !! id = None;
}.

(** Nothing runs, and nothing may. *)
Definition halted (s : State) : Prop :=
  st_locked s = true /\ st_auths s = ∅ /\ (forall tier, armed_until (st_arm s) tier = 0%N) /\
  st_shells s = ∅ /\ (forall id job, st_jobs s !! id = Some job -> rj_killed job = true) /\
  st_orphans s = ∅.

Lemma stopping_halted s ts :
  st_locked s = true -> Stopping s ts -> Forall (fun t => ~ ends t) ts -> halted s.
Proof.
  intros Hl [Ha Harm Hs Hj Ho _] Hn. rewrite Forall_forall in Hn. split_and!; try done.
  - apply map_empty. intros id. destruct (st_shells s !! id) as [sh|] eqn:E; [|done].
    by destruct (Hn _ (Hs id sh E)).
  - intros id job E. destruct (Hj id job E) as [?|Hk]; [done|]. by destruct (Hn _ Hk).
  - apply set_eq. intros id. split; [|set_solver]. intros Hid. by destruct (Hn _ (Ho id Hid)).
Qed.

Lemma sub_empty {V} (m m' : gmap str V) : m ⊆ m' -> m' = ∅ -> m = ∅.
Proof.
  intros Hs ->. apply map_empty. intros id. destruct (m !! id) as [v|] eqn:E; [|done].
  eapply lookup_weaken in E; [|exact Hs]. by rewrite lookup_empty in E.
Qed.

(** Less runs, and nothing new may. *)
Definition less (s s' : State) : Prop :=
  (st_locked s = true -> st_locked s' = true) /\ st_auths s' ⊆ st_auths s /\
  (forall tier, armed_until (st_arm s) tier = 0%N -> armed_until (st_arm s') tier = 0%N) /\
  st_shells s' ⊆ st_shells s /\ st_jobs s' ⊆ st_jobs s /\ st_orphans s' ⊆ st_orphans s.

Lemma stopping_less s ts s' ts' :
  less s s' -> (forall t, ends t -> t ∈ ts -> t ∈ ts') -> Stopping s ts -> Stopping s' ts'.
Proof.
  intros (_ & Ha & Harm & Hs & Hj & Ho) Ht [Ha0 Harm0 Hs0 Hj0 Ho0 Hx0]. split.
  - by eapply sub_empty.
  - eauto.
  - intros id sh E. apply Ht; [done|]. eapply Hs0, lookup_weaken; [exact E|done].
  - intros id job E. destruct (Hj0 id job) as [?|?]; [by eapply lookup_weaken|by left|right]. by apply Ht.
  - intros id E. apply Ht; [done|]. apply Ho0, Ho, E.
  - intros id E. eapply lookup_weaken_None, Hj. apply Hx0, Ho, E.
Qed.

Lemma ends_push t (ts : list Task) : forall t', ends t' -> t' ∈ ts -> t' ∈ t :: ts.
Proof. intros t' _ Ht. by right. Qed.
Lemma ends_drop t pre post : ~ ends t -> forall t', ends t' -> t' ∈ pre ++ t :: post -> t' ∈ pre ++ post.
Proof.
  intros Hn t' He. rewrite !elem_of_app, elem_of_cons. intros [?|[->|?]]; [by left|done|by right].
Qed.

Section lockdown.
Context `{RegexLib, JsonText, HmacSha1, Sha256Hex}.
Variable policy : HostPolicy.
Variable run_as : option str.

(** What a handler that admits nothing leaves. *)
Lemma less_slot s name slot : less s (with_slot s name slot).
Proof. by split_and!. Qed.
Lemma less_code s a now io r s' : authorize_code policy s a now io = (r, s') -> less s s'.
Proof. intros [(name & slot & ->)| ->]%authorize_code_result; [apply less_slot|by split_and!]. Qed.
Lemma less_arm_code s tier text now io r s' : arm_code policy s tier text now io = (r, s') -> less s s'.
Proof. intros [[->|[slot ->]] _]%arm_code_cases; [by split_and!|apply less_slot]. Qed.
Lemma less_unlock_code s text now io r s' : unlock_code s text now io = (r, s') -> less s s'.
Proof. intros [[->|[slot ->]] _]%unlock_code_cases; [by split_and!|apply less_slot]. Qed.

Lemma less_auths s auths : auths ⊆ st_auths s -> less s (with_auths s auths).
Proof. by intros Hs; split_and!. Qed.

Lemma less_job s m now io r s' : job_start policy s m now io = (r, None, s') -> less s s'.
Proof.
  intros Hj. pose proof (job_start_frame policy _ _ _ _ _ _ _ Hj) as (Harm & Ha & Hs & Hp & Hl & Hf).
  assert (st_jobs s' = st_jobs s /\ st_orphans s' = st_orphans s) as [Hjobs Horph].
  { unfold job_start in Hj. by repeat case_match; simplify_eq. }
  unfold less. rewrite Harm, Hs, Hl, Hjobs, Horph. done.
Qed.
Lemma shell_open_orphans s o now r s' : shell_open policy s o now = (r, s') -> st_orphans s' = st_orphans s.
Proof.
  unfold shell_open. destruct (mbind _ _) as [[[id spec] d]|]; [|intros Heq; by injection Heq as _ <-].
  destruct (open_shell _ _ _ _ _ _ _ _) as [[] auths]; intros Heq; by injection Heq as _ <-.
Qed.

Lemma less_open s o now e s' : shell_open policy s o now = (Err e, s') -> less s s'.
Proof.
  intros Hj. pose proof (shell_open_frame policy _ _ _ _ _ Hj) as (Harm & Ha & Hp & Hjobs & Hl & Hf).
  pose proof (shell_open_err policy _ _ _ _ _ Hj) as Hs.
  pose proof (shell_open_orphans _ _ _ _ _ Hj) as Horph.
  unfold less. rewrite Harm, Hs, Hl, Hjobs, Horph. done.
Qed.
Lemma less_exec s x now io r s' : shell_exec policy s x now io = (r, None, s') -> less s s'.
Proof.
  unfold shell_exec. intros Hj. repeat case_match; simplify_eq; by split_and!.
Qed.
Lemma less_end s id r s' : end_shell_section s id = (r, s') -> less s s'.
Proof.
  unfold end_shell_section. destruct (st_shells s !! id); intros Heq; injection Heq as _ <-; split_and!; try done.
  apply delete_subseteq.
Qed.
Lemma less_take s nonce conn r s' : answered_take s nonce conn = (r, s') -> less s s'.
Proof. unfold answered_take. intros Hj. repeat case_match; simplify_eq; by split_and!. Qed.
Lemma less_show s id nonce desk sent r s' : prompt_show s id nonce desk sent = (r, s') -> less s s'.
Proof. unfold prompt_show. intros Hj. repeat case_match; simplify_eq; by split_and!. Qed.
Lemma less_disarm s tier : less s (disarm_section s tier).
Proof.
  split_and!; try done. intros t Ht. cbn. unfold disarm. destruct tier as [t0|]; [|by destruct t].
  rewrite armed_set. by case_bool_decide.
Qed.
Lemma less_done s id io : less s (job_done s id io).
Proof. destruct io; split_and!; try done; apply delete_subseteq. Qed.
Lemma less_ack s id : less s (job_ack s id).
Proof. unfold job_ack. destruct (st_spool s !! id) as [[]|]; by split_and!. Qed.

(** The sections of a lockdown, and of its ends. *)
Lemma stopping_clear s shells jobs s' ts :
  (forall id, id ∈ st_orphans s -> st_jobs s !! id = None) ->
  lockdown_clear s = (shells, jobs, s') ->
  st_locked s' = st_locked s /\ Stopping s' (map TEnd shells ++ map TKill jobs ++ ts).
Proof.
  unfold lockdown_clear. intros Hx Heq. injection Heq as <- <- <-. split; [done|].
  split; cbn; [done|by intros []| | | |done].
  - intros id sh E. apply elem_of_app. left. apply list_elem_of_fmap_2, list_elem_of_fmap.
  exists (id, sh). split; [done|]. by apply elem_of_map_to_list.
  - intros id job E. right. rewrite !elem_of_app. right. left. rewrite map_app. apply elem_of_app. left.
  apply list_elem_of_fmap_2, list_elem_of_fmap. exists (id, job). split; [done|]. by apply elem_of_map_to_list.
  - intros id E. rewrite !elem_of_app. right. left. rewrite map_app. apply elem_of_app. right.
  apply list_elem_of_fmap_2. by apply elem_of_elements.
Qed.

Lemma stopping_end s pre id post r s' new :
  end_shell_section s id = (r, s') ->
  Stopping s (pre ++ TEnd id :: post) -> Stopping s' (new ++ pre ++ post).
Proof.
  intros He Hst.
  assert (st_shells s' !! id = None /\ less s s') as [Hid Hl].
  { split; [|by eapply less_end]. unfold end_shell_section in He.
  destruct (st_shells s !! id) eqn:E; injection He as _ <-; [apply lookup_delete_eq|done]. }
  destruct Hl as (_ & Ha & Harm & Hs & Hj & Ho), Hst as [Ha0 Harm0 Hs0 Hj0 Ho0 Hx0].
  assert (forall t, t <> TEnd id -> t ∈ pre ++ TEnd id :: post -> t ∈ new ++ pre ++ post) as Hin.
  { intros t Hne. rewrite !elem_of_app, elem_of_cons. naive_solver. }
  split.
  - by eapply sub_empty.
  - eauto.
  - intros i sh E. apply Hin; [intros [= ->]; congruence|]. eapply Hs0, lookup_weaken; [exact E|done].
  - intros i job E. destruct (Hj0 i job) as [?|?]; [by eapply lookup_weaken|by left|right]. by apply Hin.
  - intros i E. apply Hin; [done|]. apply Ho0, Ho, E.
  - intros i E. eapply lookup_weaken_None, Hj. apply Hx0, Ho, E.
Qed.

Lemma stopping_kill s pre id post :
  Stopping s (pre ++ TKill id :: post) -> Stopping (kill s id).2 (pre ++ post).
Proof.
  intros [Ha0 Harm0 Hs0 Hj0 Ho0 Hx0].
  destruct (kill_frame s id) as (Ha & Hs & _ & Harm & _ & _).
  assert (forall t, t <> TKill id -> t ∈ pre ++ TKill id :: post -> t ∈ pre ++ post) as Hin.
  { intros t Hne. rewrite !elem_of_app, elem_of_cons. naive_solver. }
  assert (forall i, i ∈ st_orphans (kill s id).2 -> i ∈ st_orphans s /\ i <> id) as Horph.
  { intros i. unfold kill. destruct (st_jobs s !! id) as [j|] eqn:Ej.
  - cbn. intros E. split; [done|]. intros ->. rewrite (Hx0 id E) in Ej. done.
  - destruct (bool_decide_reflect (id ∈ st_orphans s)); cbn; set_solver. }
  split; [by rewrite Ha|by rewrite Harm|rewrite Hs; intros i sh E; apply Hin; [done|by eapply Hs0]| | |].
  - intros i job E. unfold kill in E. destruct (st_jobs s !! id) as [j|] eqn:Ej.
  + cbn [snd st_jobs with_jobs] in E. apply lookup_insert_Some in E as [[<- <-]|[Hne E]]; [by left|].
    destruct (Hj0 i job E); [by left|right; apply Hin; [congruence|done]].
  + assert (st_jobs s !! i = Some job) as E' by (by destruct (bool_decide _)).
    destruct (Hj0 i job E'); [by left|right; apply Hin; [congruence|done]].
  - intros i [E Hne]%Horph. apply Hin; [congruence|by apply Ho0].
  - intros i [E Hne]%Horph. unfold kill. destruct (st_jobs s !! id) as [j|] eqn:Ej.
  + cbn. rewrite lookup_insert_ne by done. by apply Hx0.
  + destruct (bool_decide _); by apply Hx0.
Qed.

(** *** Every step *)

(** No job under supervision is also one a former hostd left. *)
Definition apart (s : State) : Prop := forall id, id ∈ st_orphans s -> st_jobs s !! id = None.

Inductive kind (s : State) (ts : list Task) (log : list Entry) : State -> list Task -> list Entry -> Prop :=
| kind_less s' ts' new :
less s s' -> (forall t, ends t -> t ∈ ts -> t ∈ ts') ->
(forall e, new = Some e -> grants_nothing e) -> kind s ts log s' ts' (extend new log)
| kind_granted s' ts' new :
is_locked (lock_state s) = false -> st_orphans s' = st_orphans s ->
(forall id, is_Some (st_jobs s' !! id) -> is_Some (st_jobs s !! id) \/ already_ran s id = false) ->
kind s ts log s' ts' (new :: log)
| kind_unlocked s' ts' e :
unlocks e -> (apart s -> apart s') -> kind s ts log s' ts' (e :: log)
| kind_clear pre post shells jobs s' :
ts = pre ++ TLockClear :: post -> lockdown_clear s = (shells, jobs, s') ->
kind s ts log s' (map TEnd shells ++ map TKill jobs ++ pre ++ post) (JDisarmed None :: log)
| kind_end pre id post r s' new :
ts = pre ++ TEnd id :: post -> end_shell_section s id = (r, s') ->
kind s ts log s' (new ++ pre ++ post) log
| kind_kill pre id post :
ts = pre ++ TKill id :: post -> kind s ts log (kill s id).2 (pre ++ post) log.

Lemma less_refl s : less s s.
Proof. by split_and!. Qed.

Lemma kind_still s ts log s' : less s s' -> kind s ts log s' ts log.
Proof. intros Hl. by apply (kind_less _ _ _ _ _ None). Qed.
Lemma kind_done s pre t post log s' :
  ~ ends t -> less s s' -> kind s (pre ++ t :: post) log s' (pre ++ post) log.
Proof. intros Ht Hl. apply (kind_less _ _ _ _ _ None); [done|by apply ends_drop|done]. Qed.
Lemma kind_begun s ts t log s' : less s s' -> kind s ts log s' (t :: ts) log.
Proof. intros Hl. apply (kind_less _ _ _ _ _ None); [done|by apply ends_push|done]. Qed.
Lemma kind_said s ts log s' ts' e :
  less s s' -> (forall t, ends t -> t ∈ ts -> t ∈ ts') -> grants_nothing e -> kind s ts log s' ts' (e :: log).
Proof. intros Hl Ht He. apply (kind_less _ _ _ _ _ (Some e)); [done|done|]. by intros e' [= <-]. Qed.
Lemma kind_same_jobs s ts log s' ts' e :
  is_locked (lock_state s) = false -> st_orphans s' = st_orphans s -> st_jobs s' = st_jobs s ->
  kind s ts log s' ts' (e :: log).
Proof. intros Hl Ho Hj. apply kind_granted; [done|done|]. intros id. rewrite Hj. by left. Qed.

Lemma launch_jobs s job io r s' :
  launch s job io = (r, s') ->
  st_orphans s' = st_orphans s /\
  forall id, is_Some (st_jobs s' !! id) -> is_Some (st_jobs s !! id) \/ id = aj_id job.
Proof.
  unfold launch. destruct io; intros Heq; injection Heq as _ <-; cbn; (split; [done|]).
  - by left.
  - intros id. destruct (bool_decide_reflect (id = aj_id job)); [by right|]. rewrite lookup_insert_ne by done. by left.
Qed.

Lemma job_start_jobs s m now io r job s' :
  job_start policy s m now io = (r, Some job, s') ->
  is_locked (lock_state s) = false /\ st_orphans s' = st_orphans s /\
  forall id, is_Some (st_jobs s' !! id) -> is_Some (st_jobs s !! id) \/ already_ran s id = false.
Proof.
  intros Hj. unfold job_start in Hj. destruct (LocalId_parse _) as [id|]; [|done].
  destruct (already_ran s id) eqn:Er; [done|]. destruct (mbind _ _) as [[d n]|]; [|done].
  pose proof (admit_result (view policy s now) id n d
  (mkEvidence (source (em_source (js_evidence m)) (em_decided_by (js_evidence m))) (em_window (js_evidence m)))
  (st_auths s)) as Hr.
  destruct (admit_job _ _ _ _ _ _) as [[aj|] auths] eqn:Ea; [|done]. cbn [fst] in Hr.
  assert (is_locked (lock_state s) = false) as Hl.
  { unfold admit_job in Ea. cbn [hv_lock view] in Ea. by destruct (is_locked (lock_state s)). }
  assert (aj_id aj = id) as Hid.
  { destruct (decide _); [|done]. by injection Hr as ->. }
  split; [done|]. destruct (launch _ _ _) as [l s1] eqn:El. apply launch_jobs in El as [Ho Hjobs].
  rewrite Hid in Hjobs. cbn [st_orphans st_jobs with_auths] in Ho, Hjobs.
  assert (s1 = s') as -> by (destruct l; by injection Hj). split; [done|].
  intros i [?| ->]%Hjobs; [by left|by right].
Qed.

Lemma shell_exec_jobs s x now io r job s' :
  shell_exec policy s x now io = (r, Some job, s') ->
  is_locked (lock_state s) = false /\ st_orphans s' = st_orphans s /\
  forall id, is_Some (st_jobs s' !! id) -> is_Some (st_jobs s !! id) \/ already_ran s id = false.
Proof.
  intros Hx. split; [by apply shell_exec_admitted in Hx as [? _]|].
  unfold shell_exec in Hx. destruct (mbind _ _) as [[sid id]|]; [|done].
  destruct (already_ran s id) eqn:Er; [done|].
  destruct (admit_shell_command _ _ _ _ _ _) as [aj|] eqn:Ea; [|done].
  apply shell_command_ok in Ea as (_ & sh & n & _ & _ & _ & _ & ->).
  destruct (launch _ _ _) as [l s1] eqn:El. apply launch_jobs in El as [Ho Hjobs].
  cbn [aj_id AdmittedJob_new] in Hjobs. assert (s1 = s') as -> by (destruct l; by injection Hx).
  split; [done|]. intros i [?| ->]%Hjobs; [by left|by right].
Qed.

Lemma step_kind w w' :
  step policy run_as w w' ->
  kind (w_state w) (w_tasks w) (w_log w) (w_state w') (w_tasks w') (w_log w').
Proof.
  intros Hw. step_cases Hw; cbn [w_state w_tasks w_log].
  - apply kind_said; [by eapply less_code|apply ends_push|done].
  - eapply kind_still, less_code, E.
  - apply authorize_record_ok in E as [Hl ->]. by apply kind_same_jobs.
  - apply authorize_record_err in E as ->. apply kind_done; [intros []|apply less_refl].
  - apply job_start_jobs in E as (Hl & Ho & Hj). by apply kind_granted.
  - eapply kind_still, less_job, E.
  - pose proof (shell_open_frame policy _ _ _ _ _ E) as (_ & _ & _ & Hj & _).
  apply kind_same_jobs; [|by eapply shell_open_orphans|done].
  by destruct (shell_open_opened policy _ _ _ _ _ _ _ Ep Ed E) as [? _].
  - eapply kind_still, less_open, E.
  - apply shell_exec_jobs in E as (Hl & Ho & Hj). by apply kind_granted.
  - eapply kind_still, less_exec, E.
  - apply kind_said; [by eapply less_arm_code|apply ends_push|done].
  - eapply kind_still, less_arm_code, E.
  - apply arm_section_cases in E as (-> & Hl & _). by apply kind_same_jobs.
  - apply arm_section_cases in E as ->. apply kind_done; [intros []|apply less_refl].
  - unfold ctl_arm in E. rewrite Et in E. apply arm_section_cases in E as (-> & Hl & _). by apply kind_same_jobs.
  - unfold ctl_arm in E. destruct (ctl_arm_tier _ _); [|injection E as _ <-; apply kind_still, less_refl].
  apply arm_section_cases in E as ->. apply kind_still, less_refl.
  - by apply kind_said; [apply less_disarm|..].
  - by apply kind_said; [by split_and!|apply ends_push|].
  - apply (kind_less _ _ _ _ _ None); [by destruct io; split_and!| |done].
  intros t Ht Hin. right. eapply (ends_drop TLockWrite); [intros []|done|done].
  - by eapply kind_clear.
  - by eapply kind_end.
  - by eapply (kind_end _ _ _ _ _ _ _ _ []).
  - apply kind_begun, less_refl.
  - by eapply kind_kill.
  - apply kind_begun, less_refl.
  - apply kind_said; [by eapply less_unlock_code|apply ends_push|done].
  - eapply kind_still, less_unlock_code, E.
  - apply kind_unlocked; [done|]. unfold unlock in E. destruct rm; [done|]. by simplify_eq.
  - apply kind_done; [intros []|]. unfold unlock in E. destruct rm; [|done]. injection E as _ <-. apply less_refl.
  - apply kind_unlocked; [done|]. unfold ctl_unlock, unlock in E. destruct (root_only _ _); [|done].
  destruct rm; [done|]. by simplify_eq.
  - apply kind_begun, less_refl.
  - apply less_show in E. destruct r, desk; try (by apply kind_done; [intros []|]).
  apply kind_said; [done|by apply ends_drop; intros []|done].
  - apply kind_still. by split_and!.
  - apply kind_still. by split_and!.
  - apply kind_begun. by eapply less_take.
  - apply kind_still. destruct (answered_take s nonce conn) as [r s'] eqn:E. by eapply less_take.
  - apply answered_record_ok in E as (Hl & _ & ->). by apply kind_same_jobs.
  - apply answered_record_no in E as ->. apply kind_done; [intros []|apply less_refl].
  - apply kind_still, less_done.
  - apply kind_still, less_ack.
  - apply kind_still. by split_and!.
  - by apply kind_said; [apply less_slot|..].
  - apply kind_unlocked; [done|]. intros _ id _. apply lookup_empty.
Qed.

Lemma already_ran_apart s id : already_ran s id = false -> id ∉ st_orphans s.
Proof. unfold already_ran. destruct (bool_decide_reflect (id ∈ st_orphans s)); [|done]. by rewrite orb_true_r. Qed.

Lemma apart_clear s shells jobs s' : lockdown_clear s = (shells, jobs, s') -> apart s -> apart s'.
Proof. unfold lockdown_clear. intros Heq. by injection Heq as _ _ <-. Qed.

Lemma less_apart s s' : less s s' -> apart s -> apart s'.
Proof. intros (_ & _ & _ & _ & Hj & Ho) Ha id Hid. eapply lookup_weaken_None, Hj. apply Ha, Ho, Hid. Qed.

Lemma apart_step w w' : step policy run_as w w' -> apart (w_state w) -> apart (w_state w').
Proof.
  intros Hk%step_kind Ha. destruct Hk as [s' ts' new Hl|s' ts' new _ Ho Hj|s' ts' e _ He|
  pre post shells jobs s' _ Hc|pre id post r s' new _ He|pre id post _].
  - by eapply less_apart.
  - intros id Hid. rewrite Ho in Hid. destruct (st_jobs s' !! id) eqn:E; [|done].
  destruct (Hj id) as [[j Hs]|Hr]; [by rewrite E|by rewrite (Ha id Hid) in Hs|].
  by apply already_ran_apart in Hr.
  - by apply He.
  - by eapply apart_clear.
  - by eapply less_apart, Ha; eapply less_end.
  - intros i. unfold kill. destruct (st_jobs (w_state w) !! id) as [j|] eqn:Ej.
  + cbn. intros Hi. destruct (bool_decide_reflect (i = id)) as [->|Hne].
    * by rewrite (Ha id Hi) in Ej.
    * rewrite lookup_insert_ne by done. by apply Ha.
  + destruct (bool_decide _); cbn; intros Hi; apply Ha; set_solver.
Qed.

Lemma apart_reachable w : reachable policy run_as w -> apart (w_state w).
Proof. induction 1 as [|w w' _ IH Hs]; [intros id []%elem_of_empty|by eapply apart_step]. Qed.

Lemma step_log w w' : step policy run_as w w' -> exists new, w_log w' = new ++ w_log w.
Proof.
  intros Hk%step_kind. destruct Hk as [s' ts' new _ _ _|s' ts' new _ _ _|s' ts' e _ _|
  pre post shells jobs s' _ _|pre id post r s' new _ _|pre id post _];
  [|by eexists [_]|by eexists [_]|by eexists [_]|by exists []|by exists []].
  destruct new as [e|]; [by exists [e]|by exists []].
Qed.

(** A step of a locked host: it unlocks, or grants nothing, stays locked,
    and a lockdown under way goes on. *)
Lemma locked_step w w' :
  step policy run_as w w' -> st_locked (w_state w) = true ->
  exists new, w_log w' = new ++ w_log w /\
  (Forall (fun e => ~ unlocks e) new ->
   st_locked (w_state w') = true /\ Forall grants_nothing new /\
   (Stopping (w_state w) (w_tasks w) -> Stopping (w_state w') (w_tasks w'))).
Proof.
  intros Hk%step_kind Hl. destruct Hk as [s' ts' new Hs Ht Hg|s' ts' new Hl' _ _|s' ts' e He _|
  pre post shells jobs s' Hts Hc|pre id post r s' new Hts He|pre id post Hts].
  - exists (match new with Some e => [e] | None => [] end). split; [by destruct new|]. intros _. split_and!.
  + by apply Hs.
  + destruct new as [e|]; constructor; [by apply Hg|constructor].
  + by apply stopping_less.
  - unfold lock_state in Hl'. by rewrite Hl in Hl'.
  - exists [e]. split; [done|]. intros Hn%Forall_inv. done.
  - exists [JDisarmed None]. split; [done|]. intros _. rewrite Hts.
  assert (st_locked s' = true) as Hs.
  { unfold lockdown_clear in Hc. by injection Hc as _ _ <-. }
  split_and!; [done|by constructor|].
  intros Hst. by apply (stopping_clear (w_state w) _ _ _ _ (stop_apart _ _ Hst) Hc).
  - exists []. split; [done|]. intros _. rewrite Hts. split_and!; [|done|by eapply stopping_end].
  by apply less_end in He as [? _]; auto.
  - exists []. split; [done|]. intros _. rewrite Hts. split_and!; [|done|apply stopping_kill].
  destruct (kill_frame (w_state w) id) as (_ & _ & _ & _ & -> & _). done.
Qed.

Lemma locked_run w w' :
  steps policy run_as w w' -> st_locked (w_state w) = true ->
  exists new, w_log w' = new ++ w_log w /\
  (Forall (fun e => ~ unlocks e) new ->
   st_locked (w_state w') = true /\ Forall grants_nothing new /\
   (Stopping (w_state w) (w_tasks w) -> Stopping (w_state w') (w_tasks w'))).
Proof.
  induction 1 as [w|w w' w'' _ IH Hs]; intros Hl; [by exists []|].
  destruct (IH Hl) as (new & Hn & Hr).
  destruct (st_locked (w_state w')) eqn:E.
  - destruct (locked_step _ _ Hs E) as (new' & Hn' & Hr'). exists (new' ++ new).
  split; [by rewrite Hn', Hn, <- app_assoc|]. intros [Hu' Hu]%Forall_app.
  destruct (Hr Hu) as (_ & Hg & Hst), (Hr' Hu') as (Hl' & Hg' & Hst').
  split_and!; [done|by apply Forall_app|auto].
  - destruct (step_log _ _ Hs) as [new' Hn']. exists (new' ++ new).
  split; [by rewrite Hn', Hn, <- app_assoc|]. intros [Hu' Hu]%Forall_app.
  by destruct (Hr Hu) as (Hl' & _).
Qed.

(** *** A lockdown can be brought to its end *)

Lemma steps_trans w w' w'' : steps policy run_as w w' -> steps policy run_as w' w'' -> steps policy run_as w w''.
Proof. intros Ha Hb. induction Hb as [|w1 w2 w3 Hb IH Hs]; [done|]. by eapply steps_then; [apply IH|]. Qed.

Definition is_end (t : Task) : bool := match t with TEnd _ => true | _ => false end.
Definition is_kill (t : Task) : bool := match t with TKill _ => true | _ => false end.

Lemma cnt_split {A} (f : A -> bool) l n :
  cnt f l = S n -> exists pre x post, l = pre ++ x :: post /\ f x = true /\ cnt f (pre ++ post) = n.
Proof.
  revert n. induction l as [|x l IH]; intros n; [done|]. rewrite cnt_cons. destruct (f x) eqn:E.
  - intros [= Hn]. by exists [], x, l.
  - intros (pre & y & post & -> & Hy & Hn)%IH. exists (x :: pre), y, post. split_and!; [done|done|].
  cbn [app]. by rewrite cnt_cons, E.
Qed.

Lemma kills_done n s ts log :
  cnt is_kill ts = n -> cnt is_end ts = 0 ->
  exists s' ts', steps policy run_as (mkWorld s ts log) (mkWorld s' ts' log) /\
  Forall (fun t => ~ ends t) ts'.
Proof.
  revert s ts. induction n as [|n IH]; intros s ts Hk He.
  - exists s, ts. split; [constructor|]. apply Forall_forall. intros t Ht Hends.
  apply list_elem_of_split in Ht as (pre & post & ->). revert Hk He. rewrite !cnt_app, !cnt_cons.
  destruct t; try done; cbn; lia.
  - destruct (cnt_split _ _ _ Hk) as (pre & [] & post & -> & Hx & Hn); try done.
  rewrite cnt_app, cnt_cons in He. cbn in He.
  destruct (IH (kill s job).2 (pre ++ post)) as (s' & ts' & Hs & Hf); [done|by rewrite cnt_app|].
  exists s', ts'. split; [|done]. eapply steps_trans; [|exact Hs].
  eapply steps_then; [constructor|]. constructor.
Qed.

Lemma ends_done n s ts log :
  cnt is_end ts = n ->
  exists s' ts', steps policy run_as (mkWorld s ts log) (mkWorld s' ts' log) /\
  Forall (fun t => ~ ends t) ts'.
Proof.
  revert s ts. induction n as [|n IH]; intros s ts He; [by eapply kills_done|].
  destruct (cnt_split _ _ _ He) as (pre & [] & post & -> & Hx & Hn); try done.
  destruct (end_shell_section s shell) as [r s1] eqn:E.
  destruct (IH s1 (map TKill (default [] r) ++ pre ++ post)) as (s' & ts' & Hs & Hf).
  { rewrite cnt_app, Hn. by rewrite cnt_map_none. }
  exists s', ts'. split; [|done]. eapply steps_trans; [|exact Hs].
  eapply steps_then; [constructor|]. destruct r; [by apply step_end|by apply (step_end_none policy run_as s pre shell post)].
Qed.
End lockdown.

(** ** Properties *)

(** C14: a locked host grants nothing: until it is unlocked, or its daemon is
    restarted, no run of its handlers, in any order, and whatever was under
    way when the lockdown came, records an approval, admits a job, opens a
    shell, runs a command in one or arms a tier. *)
Theorem lockdown_stops `{RegexLib, JsonText, HmacSha1, Sha256Hex} policy run_as w w' new :
  steps policy run_as w w' -> w_log w' = new ++ w_log w -> st_locked (w_state w) = true ->
  Forall (fun e => ~ unlocks e) new -> st_locked (w_state w') = true /\ Forall grants_nothing new.
Proof.
  intros Hs Hn Hl Hu. destruct (locked_run policy run_as _ _ Hs Hl) as (new' & Hn' & Hr).
  rewrite Hn in Hn'. apply app_inv_tail in Hn' as ->. by destruct (Hr Hu) as (? & ? & _).
Qed.

(** A lockdown ends what runs: once it has dropped what was granted, every
    shell and every job left has a section that ends it, so whatever comes
    first, when none of those sections is left nothing runs and nothing
    may; and the sections can always be run to that end. *)
Theorem lockdown_halts `{RegexLib, JsonText, HmacSha1, Sha256Hex} policy run_as s pre post log shells jobs s' :
  reachable policy run_as (mkWorld s (pre ++ TLockClear :: post) log) -> st_locked s = true ->
  lockdown_clear s = (shells, jobs, s') ->
  let cleared := mkWorld s' (map TEnd shells ++ map TKill jobs ++ pre ++ post) (JDisarmed None :: log) in
  (forall w new, steps policy run_as cleared w -> w_log w = new ++ w_log cleared ->
     Forall (fun e => ~ unlocks e) new -> Forall (fun t => ~ ends t) (w_tasks w) -> halted (w_state w)) /\
  exists w, steps policy run_as cleared w /\ w_log w = w_log cleared /\ halted (w_state w).
Proof.
  intros Hr Hl Hc cleared. pose proof (apart_reachable policy run_as _ Hr) as Ha.
  destruct (stopping_clear s shells jobs s' (pre ++ post) Ha Hc) as [Hl' Hst]. rewrite Hl in Hl'.
  assert (forall w new, steps policy run_as cleared w -> w_log w = new ++ w_log cleared ->
     Forall (fun e => ~ unlocks e) new -> Forall (fun t => ~ ends t) (w_tasks w) -> halted (w_state w)) as Hhalt.
  { intros w new Hs Hn Hu Ht. destruct (locked_run policy run_as _ _ Hs Hl') as (new' & Hn' & Hrun).
    rewrite Hn in Hn'. apply app_inv_tail in Hn' as ->.
    destruct (Hrun Hu) as (Hlw & _ & Hstop). by apply (stopping_halted _ (w_tasks w)); [|apply Hstop|]. }
  split; [done|].
  destruct (ends_done policy run_as _ s' (map TEnd shells ++ map TKill jobs ++ pre ++ post)
    (JDisarmed None :: log) eq_refl) as (s2 & ts2 & Hs & Hf).
  exists (mkWorld s2 ts2 (JDisarmed None :: log)). split_and!; [done|done|]. by apply (Hhalt _ []).
Qed.

Lemma lockdown_stops_witness : Forall grants_nothing [JDisarmed None].
Proof.
  refine (proj2 (@lockdown_stops SampleHost.regex SampleHost.text SampleRun.hmac SampleRun.sha SampleRun.policy None
    (mkWorld SampleRun.s6 [TLockClear] SampleRun.log5)
    (mkWorld SampleRun.cleared.2 [TKill SampleRun.job_id] (JDisarmed None :: SampleRun.log5))
    [JDisarmed None] _ eq_refl _ _)).
  - eapply steps_then; [constructor|].
    apply (@step_lock_clear SampleHost.regex SampleHost.text SampleRun.hmac SampleRun.sha SampleRun.policy None
      SampleRun.s6 [] [] SampleRun.log5 [] [SampleRun.job_id] SampleRun.cleared.2).
    apply SampleRun.pair_snd. vm_compute. reflexivity.
  - vm_compute. reflexivity.
  - constructor; [intros []|constructor].
Defined.

Lemma lockdown_halts_witness :
  exists w, @steps SampleHost.regex SampleHost.text SampleRun.hmac SampleRun.sha SampleRun.policy None
    (mkWorld SampleRun.cleared.2 [TKill SampleRun.job_id] (JDisarmed None :: SampleRun.log5)) w /\
    w_log w = JDisarmed None :: SampleRun.log5 /\ halted (w_state w).
Proof.
  exact (proj2 (@lockdown_halts SampleHost.regex SampleHost.text SampleRun.hmac SampleRun.sha SampleRun.policy None
    SampleRun.s6 [] [] SampleRun.log5 [] [SampleRun.job_id] SampleRun.cleared.2 SampleRun.reach_written
    eq_refl ltac:(apply SampleRun.pair_snd; vm_compute; reflexivity))).
Defined.
