(* ===== verification/Sandbox.v ===== *)
(** Agent VMs: the names both sides agree on and the holds of a VM
    ([crates/core/src/sandbox.rs]), and the VM's own names
    ([crates/sandboxd/src/names.rs]). *)

From stdpp Require Import gmap.
From S2P Require Import Prelude Json Glob Pyfmt Names.
From stdpp Require Import options.
#[local] Set Default Proof Using "Type*".

(** ** Names *)

Definition ORCHESTRATOR_RUNTIME : str := lit "orchestrator".
Definition orchestrator_name (host : str) : str := lit "orchestrator-" ++ host ++ lit "-sandbox".
Definition sandbox_agent_name (runtime project host : str) : str :=
  runtime ++ lit "-" ++ project ++ lit "-" ++ host ++ lit "-sandbox".
Definition project_user (project : str) : str := lit "p-" ++ project.

Record MintName := mkMintName { mn_name : str; mn_runtime : str; mn_project : str }.

Definition has_prefix (p s : str) : bool := negb (is_none (strip_prefix p s)).
Definition has_suffix (p s : str) : bool := negb (is_none (strip_suffix p s)).
(** [s.get(start..end)], at bounds between characters; [""] when they cross. *)
Definition text_between (start stop : nat) (s : str) : str :=
  if Nat.leb start stop then take (stop - start) (drop start s) else [].

Section mint.
Context `{UnicodeLower}.
Definition parse_mint_name (resource : str) (runtimes : list str) (host : str) : result str MintName :=
  let name := to_lowercase (trim resource) in
  let suffix := lit "-" ++ host ++ lit "-sandbox" in
  match find (fun r => has_prefix (r ++ lit "-") name && has_suffix suffix name) runtimes with
  | None => Err (lit "resource must be '<runtime>-<project>" ++ suffix ++ lit "' with runtime one of "
                 ++ join (lit ", ") runtimes)
  | Some runtime =>
      let project := text_between (length runtime + 1) (length name - length suffix) name in
      match SandboxProject_parse project with
      | Ok project => Ok (mkMintName name runtime project)
      | Err _ => Err (lit "invalid project name " ++ repr project ++ lit " (lowercase letters, digits and '-', ≤30)")
      end
  end.
End mint.

(** ** Holds *)

Record Hold := mkHold { hold_locked : bool; hold_contained : bool }.
Definition hold_held (h : Hold) : bool := hold_locked h || hold_contained h.

Inductive AgentHoldEvent := ALockdown | AUnlock | AContained (c : bool).
Inductive UnitAction := Freeze | Release | Keep.
#[export] Instance UnitAction_eq_dec : EqDecision UnitAction.
Proof. solve_decision. Defined.

Definition transition (before : Hold) (event : AgentHoldEvent) : Hold * UnitAction :=
  let after := match event with
               | ALockdown => mkHold true (hold_contained before)
               | AUnlock => mkHold false (hold_contained before)
               | AContained c => mkHold (hold_locked before) c
               end in
  let action := match hold_held before, hold_held after with
                | false, true => Freeze
                | true, false => Release
                | _, _ => Keep
                end in
  (after, action).

Inductive HoldEvent := Lockdown | Unlock | ContainedSet (agents : gset str).
Record Holds := mkHolds { h_locked : bool; h_contained : gset str }.
#[export] Instance Holds_eq_dec : EqDecision Holds.
Proof. solve_decision. Defined.
Record Applied := mkApplied { ap_before : Holds; ap_after : Holds; ap_event : HoldEvent }.

Definition is_contained (h : Holds) (agent : str) : bool := bool_decide (agent ∈ h_contained h).
Definition hold_of (h : Holds) (agent : str) : Hold := mkHold (h_locked h) (is_contained h agent).
Definition holds_held (h : Holds) (agent : str) : bool := hold_held (hold_of h agent).
Definition refusal (h : Holds) (agent : str) : option str :=
  if h_locked h then Some (lit "locked down")
  else if is_contained h agent then Some (agent ++ lit " is contained")
  else None.
Definition agent_event (e : HoldEvent) (agent : str) : AgentHoldEvent :=
  match e with
  | Lockdown => ALockdown
  | Unlock => AUnlock
  | ContainedSet s => AContained (bool_decide (agent ∈ s))
  end.
Definition action (a : Applied) (agent : str) : UnitAction :=
  snd (transition (hold_of (ap_before a) agent) (agent_event (ap_event a) agent)).
Definition changed (a : Applied) : bool := negb (bool_decide (ap_before a = ap_after a)).
Definition apply (h : Holds) (e : HoldEvent) : Applied :=
  let after := match e with
               | Lockdown => mkHolds true (h_contained h)
               | Unlock => mkHolds false (h_contained h)
               | ContainedSet s => mkHolds (h_locked h) s
               end in
  mkApplied h after e.

(** ** The VM's names *)

Definition ORCHESTRATOR_USER : str := lit "sbx-orchestrator".
Definition ORCHESTRATOR_DIR : str := lit "_orchestrator".

(** [ConvId::generate], of a random UUID's simple form. *)
Definition ConvId_generate (hex : str) : str := take 12 hex.
Definition ConvId_parse (text : str) : option str :=
  if Nat.eqb (str_len text) 12 && forallb (fun b => is_ascii_digit b || in_range (ch "a") (ch "f") b) text
  then Some text else None.
Definition conv_unit (id : str) : str := lit "sbx-conv-" ++ id.
Definition tui_unit (id : str) : str := lit "sbx-tui-" ++ id.
Definition triage_unit (hex : str) : str := lit "sbx-triage-" ++ ConvId_generate hex.

Definition is_bidi (c : char) : bool :=
  N.eqb c 0x61c || N.eqb c 0x200e || N.eqb c 0x200f || in_range 0x202a 0x202e c || in_range 0x2066 0x2069 c.
Definition terminal_safe_char (c : char) : str :=
  if is_control c && negb (N.eqb c 10) && negb (N.eqb c 9) || is_bidi c
  then lit "\u{" ++ hex_fixed 4 c ++ lit "}"
  else [c].
Definition terminal_safe (text : str) : str := flat_map terminal_safe_char text.
Definition thread_title (peer topic : option str) (thread_id : str) : str :=
  let peer := match peer with
              | Some p => if is_ok (AgentName_parse p) then p else lit "?"
              | None => lit "?"
              end in
  let topic := match topic with
               | Some t => if bool_decide (t = []) then take 8 thread_id
                           else terminal_safe (map (fun c => if N.eqb c 10 then ch " " else c) t)
               | None => take 8 thread_id
               end in
  peer ++ lit ": " ++ topic.
Definition mcp_name_ok (name : str) : bool := is_ok (McpServerName_parse name).

(** ** Lemmas *)

Lemma has_prefix_iff p s : has_prefix p s = true <-> exists r, s = p ++ r.
Proof.
  unfold has_prefix. destruct (strip_prefix p s) as [r|] eqn:E; cbn.
  - apply strip_prefix_some in E. split; [by exists r|done].
  - split; [done|]. intros [r ->]. by rewrite strip_prefix_app in E.
Qed.
Lemma has_suffix_iff p s : has_suffix p s = true <-> exists r, s = r ++ p.
Proof.
  unfold has_suffix, strip_suffix. destruct (strip_prefix (rev p) (rev s)) as [r|] eqn:E; cbn.
  - split; [|done]. intros _. exists (rev r). apply strip_prefix_some in E.
    apply (f_equal (@rev N)) in E. by rewrite rev_app_distr, !rev_involutive in E.
  - split; [done|]. intros [r ->]. by rewrite rev_app_distr, strip_prefix_app in E.
Qed.
Lemma text_between_middle a b c : text_between (length a) (length (a ++ b ++ c) - length c) (a ++ b ++ c) = b.
Proof.
  unfold text_between. rewrite !length_app. replace (length a + (length b + length c) - length c) with (length a + length b) by lia.
  rewrite (proj2 (Nat.leb_le _ _)) by lia. rewrite drop_app_length. replace (length a + length b - length a) with (length b) by lia.
  by rewrite take_app_length.
Qed.
Lemma text_between_parts a c s : has_prefix a s = true -> has_suffix c s = true ->
  text_between (length a) (length s - length c) s <> [] -> s = a ++ text_between (length a) (length s - length c) s ++ c.
Proof.
  intros [b Hb]%has_prefix_iff [d Hd]%has_suffix_iff. unfold text_between.
  destruct (Nat.leb_spec (length a) (length s - length c)) as [Hle|]; [|done]. intros _.
  assert (Hl : length s = length d + length c) by (by rewrite Hd, length_app).
  assert (Hda : d = a ++ take (length d - length a) b).
  { assert (Ht : take (length d) s = d) by (by rewrite Hd, take_app_length).
    rewrite <- Ht at 1. rewrite Hb, take_app, take_ge by lia. done. }
  replace (length s - length c) with (length d) by lia. rewrite Hb at 2. rewrite drop_app_length, app_assoc, <- Hda. done.
Qed.
Lemma SandboxProject_parse_id p q : SandboxProject_parse p = Ok q -> q = p /\ p <> [].
Proof.
  intros [-> H]%name_parse_ok. split; [done|]. intros ->. discriminate H.
Qed.

(** What becomes of a unit that is frozen and thawed as the actions say. *)
Definition unit_after (frozen : bool) (a : UnitAction) : bool :=
  match a with Freeze => true | Release => false | Keep => frozen end.
Fixpoint applied_all (h : Holds) (es : list HoldEvent) : list Applied :=
  match es with [] => [] | e :: es => apply h e :: applied_all (ap_after (apply h e)) es end.
Definition holds_after (h : Holds) (es : list HoldEvent) : Holds := fold_left (fun h e => ap_after (apply h e)) es h.
(** The last lockdown or unlock, and the last held list. *)
Definition last_lock (before : bool) (es : list HoldEvent) : bool :=
  fold_left (fun l e => match e with Lockdown => true | Unlock => false | ContainedSet _ => l end) es before.
Definition last_set (before : gset str) (es : list HoldEvent) : gset str :=
  fold_left (fun s e => match e with ContainedSet s => s | _ => s end) es before.

Lemma apply_hold h e agent :
  hold_of (ap_after (apply h e)) agent = fst (transition (hold_of h agent) (agent_event e agent)).
Proof. by destruct e. Qed.
Lemma action_held h e agent : unit_after (holds_held h agent) (action (apply h e) agent) = holds_held (ap_after (apply h e)) agent.
Proof.
  unfold holds_held. rewrite apply_hold. unfold action. cbn [ap_before ap_event apply].
  unfold transition. cbn [fst snd]. by destruct (hold_held (hold_of h agent)), (hold_held _).
Qed.

(** C32: the VM's holds are each agent's own: after any events an agent is
    held exactly when the last lockdown was not lifted or it is in the last
    held list, and a unit that is frozen and thawed as the events' actions
    say is frozen exactly then: lifting one hold never thaws what another
    still holds. A refusal is said of the held, and of no one else. *)
Theorem holds_by_agent h es agent :
  holds_held (holds_after h es) agent = last_lock (h_locked h) es || bool_decide (agent ∈ last_set (h_contained h) es) /\
  fold_left unit_after (map (fun a => action a agent) (applied_all h es)) (holds_held h agent) = holds_held (holds_after h es) agent /\
  (refusal h agent = None <-> holds_held h agent = false).
Proof.
  split_and!.
  - assert (Hl : forall h, h_locked (holds_after h es) = last_lock (h_locked h) es
                       /\ h_contained (holds_after h es) = last_set (h_contained h) es).
    { unfold holds_after, last_lock, last_set. induction es as [|e es IH]; intros h'; [done|]. cbn [fold_left].
      destruct (IH (ap_after (apply h' e))) as [-> ->]. by destruct e. }
    unfold holds_held, hold_held, hold_of, is_contained. cbn. by destruct (Hl h) as [-> ->].
  - revert h. induction es as [|e es IH]; intros h; [done|]. cbn [applied_all map fold_left holds_after].
    rewrite action_held. apply IH.
  - unfold refusal, holds_held, hold_held, hold_of. cbn [hold_locked hold_contained].
    generalize (lit "locked down") (agent ++ lit " is contained"). intros.
    by destruct (h_locked h), (is_contained h agent).
Qed.

(** A mint's resource is read as exactly the names the broker gives: what
    it reads is a configured runtime, a valid project and this host put
    together, in lower case; and such a name is read back, when no other
    configured runtime begins it. *)
Theorem mint_name_exact `{UnicodeLower} resource runtimes host :
  (forall m, parse_mint_name resource runtimes host = Ok m ->
     mn_name m = to_lowercase (trim resource) /\ mn_name m = sandbox_agent_name (mn_runtime m) (mn_project m) host /\
     mn_runtime m ∈ runtimes /\ SandboxProject_parse (mn_project m) = Ok (mn_project m)) /\
  (forall runtime project, runtime ∈ runtimes -> SandboxProject_parse project = Ok project ->
     to_lowercase (trim resource) = sandbox_agent_name runtime project host ->
     (forall r, r ∈ runtimes -> has_prefix (r ++ lit "-") (sandbox_agent_name runtime project host) = true -> r = runtime) ->
     parse_mint_name resource runtimes host = Ok (mkMintName (sandbox_agent_name runtime project host) runtime project)).
Proof.
  unfold parse_mint_name. set (name := to_lowercase (trim resource)). clearbody name.
  assert (Hshape : forall r p, sandbox_agent_name r p host = (r ++ lit "-") ++ p ++ lit "-" ++ host ++ lit "-sandbox")
    by (intros; unfold sandbox_agent_name; by rewrite <- !app_assoc).
  remember (lit "-" ++ host ++ lit "-sandbox") as suffix eqn:Esuffix. clear Esuffix.
  assert (Hdash : forall r : str, length r + 1 = length (r ++ lit "-")) by (intros; by rewrite length_app).
  split.
  - intros m. destruct (find _ runtimes) as [r|] eqn:Ef; [|done].
    apply List.find_some in Ef as [Hr%list_elem_of_In [Hp Hs]%andb_true_iff]. rewrite Hdash.
    destruct (SandboxProject_parse _) as [p|] eqn:Ep; [|done]. intros [= <-]. cbn [mn_name mn_runtime mn_project].
    pose proof (SandboxProject_parse_id _ _ Ep) as [-> Hne]. split_and!; [done| |done|done].
    rewrite Hshape. by apply text_between_parts.
  - intros runtime project Hr Hp Hname Hfirst. rewrite Hshape in Hname.
    assert (Hpre : has_prefix (runtime ++ lit "-") name = true) by (apply has_prefix_iff; by eexists).
    assert (Hsuf : has_suffix suffix name = true).
    { apply has_suffix_iff. exists ((runtime ++ lit "-") ++ project). by rewrite Hname, app_assoc. }
    destruct (find _ runtimes) as [r|] eqn:Ef.
    + apply List.find_some in Ef as [Hin%list_elem_of_In [Hpr _]%andb_true_iff]. rewrite Hname, <- Hshape in Hpr.
      pose proof (Hfirst r Hin Hpr) as ->. rewrite Hname, Hdash, text_between_middle, Hp. by rewrite Hshape.
    + apply list_elem_of_In in Hr. pose proof (List.find_none _ _ Ef _ Hr) as Hn. cbv beta in Hn. by rewrite Hpre, Hsuf in Hn.
Qed.
