(* ===== verification/SandboxStore.v ===== *)
(** sandboxd's own state ([crates/sandboxd/src/store.rs]): a few documents,
    each changed on disk first and then in memory, and the limits on
    processes ([daemon/slots.rs]). What the disk does is an argument of
    every change. *)

From stdpp Require Import gmap.
From S2P Require Import Prelude Json Glob Pyfmt Names Sandbox.
From stdpp Require Import options.
#[local] Set Default Proof Using "Type*".

(** ** Documents *)

Inductive DocError := DocIo (path source : str) | DocCorrupt (path reason : str).
Definition DocError_text (e : DocError) : str :=
  match e with
  | DocIo path source => lit "state file " ++ path ++ lit ": " ++ source
  | DocCorrupt path reason => lit "state file " ++ path ++ lit " does not read: " ++ reason
  end.
Definition MAX_DOC_BYTES : N := 256 * 1024 * 1024.

(** An opened file: whether it is a regular one, its mode, its length and
    its bytes; [None]: there is none. *)
Record StateFile := mkStateFile { sf_regular : bool; sf_mode : N; sf_len : N; sf_bytes : list N }.
Definition read_private (path : str) (opened : result str (option StateFile)) : result DocError (option (list N)) :=
  match opened with
  | Err e => Err (DocIo path e)
  | Ok None => Ok None
  | Ok (Some f) =>
      if negb (sf_regular f) then Err (DocCorrupt path (lit "not a regular file"))
      else if negb (N.eqb (N.land (sf_mode f) 63) 0) then Err (DocCorrupt path (lit "readable by others (must be 0600)"))
      else if N.ltb MAX_DOC_BYTES (sf_len f) then Err (DocCorrupt path (lit "too large"))
      else Ok (Some (take (N.to_nat MAX_DOC_BYTES) (sf_bytes f)))
  end.
(** [Doc::open], with the derived reader of the document. *)
Definition open_doc {T} (default : T) (read : list N -> result str T) (path : str) (opened : result str (option StateFile))
    : result DocError T :=
  bytes ← read_private path opened;
  match bytes with
  | None => Ok default
  | Some b => map_err (DocCorrupt path) (read b)
  end.

(** How a write of a document ends ([write_atomic]). *)
Abbreviation Disk := (option DocError) (only parsing).
(** [Doc::update]: on disk first, then in memory. *)
Definition update {T R} (disk : Disk) (f : T -> R * T) (data : T) : result DocError R * T :=
  let '(out, next) := f data in
  match disk with
  | Some e => (Err e, data)
  | None => (Ok out, next)
  end.

(** ** Records *)

(** Times are seconds, the bits of an [f64]. *)
Abbreviation Seconds := N (only parsing).
(** [f64::total_cmp], as the order of these keys. *)
Definition total_key (bits : N) : Z := if N.ltb bits (2 ^ 63) then Z.of_N bits else (- Z.of_N (bits - 2 ^ 63) - 1)%Z.

Record AgentRecord := mkAgentRecord {
  ar_name : str; ar_agent_id : str; ar_key_id : str; ar_runtime : option str; ar_project : option str;
  ar_api_key : str; ar_updated_at : Seconds }.
Record ProjectRecord := mkProjectRecord { pr_name : str; pr_uid : N; pr_sealed : bool; pr_created_at : Seconds }.
Inductive ConvState := Running | Parked | Attached | ConvClosed.
#[export] Instance ConvState_eq_dec : EqDecision ConvState.
Proof. solve_decision. Defined.
Definition ConvState_as_str (s : ConvState) : str :=
  match s with Running => lit "running" | Parked => lit "parked" | Attached => lit "attached" | ConvClosed => lit "closed" end.
Record Conversation := mkConversation {
  cv_id : str; cv_agent : str; cv_runtime : str; cv_runtime_session_id : option str; cv_broker_session_id : option str;
  cv_state : ConvState; cv_mode : str; cv_title : str; cv_created_by : str; cv_created_at : Seconds;
  cv_last_activity : Seconds; cv_turns : N }.
Record ThreadRecord := mkThreadRecord {
  tr_thread_id : str; tr_conversation_id : str; tr_peer : option str; tr_role : option str; tr_topic : option str;
  tr_cursor : N; tr_closed : bool; tr_seq : N }.
Record GrantRecord := mkGrantRecord { gc_grant_id : str; gc_project : str; gc_target : str; gc_access : str }.

(** As agents and operators see it: [Conversation::public], its times being
    the numbers of their bits. *)
Definition conv_public (c : Conversation) : Value := json_obj [
  (lit "id", VString (cv_id c)); (lit "agent", VString (cv_agent c)); (lit "runtime", VString (cv_runtime c));
  (lit "runtime_session_id", json_opt_str (cv_runtime_session_id c)); (lit "state", VString (ConvState_as_str (cv_state c)));
  (lit "mode", VString (cv_mode c)); (lit "title", VString (cv_title c)); (lit "created_by", VString (cv_created_by c));
  (lit "created_at", VNumber (Float (cv_created_at c))); (lit "last_activity", VNumber (Float (cv_last_activity c)));
  (lit "turns", json_int (Z.of_N (cv_turns c)))].

Definition MAX_INBOX_ITEMS : nat := 1000.
Definition MAX_INBOX_BYTES : N := 8 * 1024 * 1024.
Definition MAX_TOMBSTONES : nat := 10000.
Definition MAX_U32 : N := 2 ^ 32 - 1.
Definition MAX_U64 : N := 2 ^ 64 - 1.

Record Projects := mkProjects {
  ps_projects : list (str * ProjectRecord); ps_grants : list (str * GrantRecord); ps_revoked : list (str * Seconds) }.
Record Flags := mkFlags { fl_locked : bool; fl_contained : gset str; fl_codex_auth_digest : option str }.
Record Conversations := mkConversations {
  cs_conversations : list (str * Conversation); cs_threads : list (str * ThreadRecord); cs_next_thread_seq : N }.

(** The five documents; an inbox that was not opened yet is empty. *)
Record Store := mkStore {
  st_agents : list (str * AgentRecord); st_projects : Projects; st_flags : Flags; st_convs : Conversations;
  st_inboxes : list (str * list str) }.
Definition Store_empty : Store := mkStore [] (mkProjects [] [] []) (mkFlags false ∅ None) (mkConversations [] [] 0) [].
Definition with_agents (s : Store) x := mkStore x (st_projects s) (st_flags s) (st_convs s) (st_inboxes s).
Definition with_projects (s : Store) x := mkStore (st_agents s) x (st_flags s) (st_convs s) (st_inboxes s).
Definition with_flags (s : Store) x := mkStore (st_agents s) (st_projects s) x (st_convs s) (st_inboxes s).
Definition with_convs (s : Store) x := mkStore (st_agents s) (st_projects s) (st_flags s) x (st_inboxes s).
Definition with_inboxes (s : Store) x := mkStore (st_agents s) (st_projects s) (st_flags s) (st_convs s) x.

(** [BTreeMap::remove] and a change of the value of a key that is there. *)
Definition map_delete {V} (k : str) (m : list (str * V)) : list (str * V) := List.filter (fun kv => negb (str_eqb kv.1 k)) m.
Definition map_change {V} (k : str) (f : V -> V) (m : list (str * V)) : list (str * V) :=
  map (fun kv => if str_eqb kv.1 k then (kv.1, f kv.2) else kv) m.
Definition map_has {V} (k : str) (m : list (str * V)) : bool := negb (is_none (map_get k m)).

Section updates.
Context (disk : Disk).
Definition on_agents {R} (f : list (str * AgentRecord) -> R * list (str * AgentRecord)) (s : Store) : result DocError R * Store :=
  let '(r, x) := update disk f (st_agents s) in (r, with_agents s x).
Definition on_projects {R} (f : Projects -> R * Projects) (s : Store) : result DocError R * Store :=
  let '(r, x) := update disk f (st_projects s) in (r, with_projects s x).
Definition on_flags (f : Flags -> Flags) (s : Store) : result DocError unit * Store :=
  let '(r, x) := update disk (fun d => (tt, f d)) (st_flags s) in (r, with_flags s x).
Definition on_convs {R} (f : Conversations -> R * Conversations) (s : Store) : result DocError R * Store :=
  let '(r, x) := update disk f (st_convs s) in (r, with_convs s x).
Definition inbox (conv : str) (s : Store) : list str := default [] (map_get conv (st_inboxes s)).
Definition on_inbox {R} (conv : str) (f : list str -> R * list str) (s : Store) : result DocError R * Store :=
  let '(r, x) := update disk f (inbox conv s) in (r, with_inboxes s (map_insert conv x (st_inboxes s))).

(** ** Agents *)

Definition put_agent (rec : AgentRecord) : Store -> result DocError unit * Store :=
  on_agents (fun a => (tt, map_insert (ar_name rec) rec a)).
Definition agent (name : str) (s : Store) : option AgentRecord := map_get name (st_agents s).
Definition agents (s : Store) : list AgentRecord := map snd (st_agents s).

(** ** Projects *)

Inductive AddProject := Exists | NoUid.
Definition project (name : str) (s : Store) : option ProjectRecord := map_get name (ps_projects (st_projects s)).
Definition projects (s : Store) : list ProjectRecord := map snd (ps_projects (st_projects s)).
(** [(base + 1 ..= max)], the addition saturating. *)
Definition uids (base max : N) : list N :=
  let lo := N.min (base + 1) MAX_U32 in map (fun i => lo + N.of_nat i)%N (seq 0 (N.to_nat (max + 1 - lo))).
Definition add_project (name : str) (base max : N) (now : Seconds)
    : Store -> result DocError (result AddProject ProjectRecord) * Store :=
  on_projects (fun p =>
    if map_has name (ps_projects p) then (Err Exists, p)
    else let used := map (fun kv : str * ProjectRecord => pr_uid kv.2) (ps_projects p) in
      match find (fun u => negb (existsb (N.eqb u) used)) (uids base max) with
      | None => (Err NoUid, p)
      | Some uid =>
          let rec := mkProjectRecord name uid false now in
          (Ok rec, mkProjects (map_insert name rec (ps_projects p)) (ps_grants p) (ps_revoked p))
      end).
Definition remove_project (name : str) : Store -> result DocError unit * Store :=
  on_projects (fun p => (tt, mkProjects (map_delete name (ps_projects p)) (ps_grants p) (ps_revoked p))).
Definition seal_record (r : ProjectRecord) : ProjectRecord := mkProjectRecord (pr_name r) (pr_uid r) true (pr_created_at r).
Definition seal_project (name : str) : Store -> result DocError unit * Store :=
  on_projects (fun p => (tt, mkProjects (map_change name seal_record (ps_projects p)) (ps_grants p) (ps_revoked p))).

(** ** Project grants *)

Definition add_project_grant (g : GrantRecord) : Store -> result DocError unit * Store :=
  on_projects (fun p => (tt, mkProjects (ps_projects p) (map_insert (gc_grant_id g) g (ps_grants p)) (ps_revoked p))).
Definition project_grant (id : str) (s : Store) : option GrantRecord := map_get id (ps_grants (st_projects s)).
Definition add_project_grant_unless_revoked (g : GrantRecord) : Store -> result DocError bool * Store :=
  on_projects (fun p =>
    if map_has (gc_grant_id g) (ps_revoked p) then (false, p)
    else (true, mkProjects (ps_projects p) (map_insert (gc_grant_id g) g (ps_grants p)) (ps_revoked p))).
(** [min_by] of the times: the first of the oldest. *)
Fixpoint oldest (best : option (str * Seconds)) (m : list (str * Seconds)) : option str :=
  match m with
  | [] => fst <$> best
  | kv :: m =>
      oldest (match best with
              | Some b => if Z.ltb (total_key kv.2) (total_key b.2) then Some kv else best
              | None => Some kv
              end) m
  end.
Fixpoint drop_oldest (fuel : nat) (m : list (str * Seconds)) : list (str * Seconds) :=
  match fuel with
  | O => m
  | S fuel =>
      if Nat.ltb MAX_TOMBSTONES (length m) then
        match oldest None m with Some k => drop_oldest fuel (map_delete k m) | None => m end
      else m
  end.
Definition tombstone (id : str) (t : Seconds) (p : Projects) : Projects :=
  let revoked := map_insert id t (ps_revoked p) in
  mkProjects (ps_projects p) (map_delete id (ps_grants p)) (drop_oldest (length revoked) revoked).
Definition tombstone_project_grant (id : str) (t : Seconds) : Store -> result DocError unit * Store :=
  on_projects (fun p => (tt, tombstone id t p)).
Definition is_revoked (id : str) (s : Store) : bool := map_has id (ps_revoked (st_projects s)).
Definition all_project_grants (s : Store) : list GrantRecord := map snd (ps_grants (st_projects s)).
Definition pop_project_grant (id : str) : Store -> result DocError (option GrantRecord) * Store :=
  on_projects (fun p => (map_get id (ps_grants p), mkProjects (ps_projects p) (map_delete id (ps_grants p)) (ps_revoked p))).
Definition project_grants (project target : str) (s : Store) : list GrantRecord :=
  List.filter (fun g => str_eqb (gc_project g) project && str_eqb (gc_target g) target) (all_project_grants s).

(** ** Flags *)

Definition set_locked (locked : bool) : Store -> result DocError unit * Store :=
  on_flags (fun f => mkFlags locked (fl_contained f) (fl_codex_auth_digest f)).
Definition set_contained (contained : gset str) : Store -> result DocError unit * Store :=
  on_flags (fun f => mkFlags (fl_locked f) contained (fl_codex_auth_digest f)).
Definition codex_auth_digest (s : Store) : option str := fl_codex_auth_digest (st_flags s).
Definition set_codex_auth_digest (digest : option str) : Store -> result DocError unit * Store :=
  on_flags (fun f => mkFlags (fl_locked f) (fl_contained f) digest).

(** ** Conversations *)

Definition conversation (id : str) (s : Store) : option Conversation := map_get id (cs_conversations (st_convs s)).
(** [ids]: the ids drawn; the first that is not taken is used. *)
Definition new_conversation (ids : list str) (agent runtime mode title created_by : str) (now : Seconds)
    : Store -> result DocError (option Conversation) * Store :=
  on_convs (fun c =>
    match find (fun id => negb (map_has id (cs_conversations c))) ids with
    | None => (None, c)
    | Some id =>
        let conv := mkConversation id agent runtime None None Parked mode (take 200 title) created_by now now 0 in
        (Some conv, mkConversations (map_insert id conv (cs_conversations c)) (cs_threads c) (cs_next_thread_seq c))
    end).
(** The stable [sort_by] of the newest activity first. *)
Fixpoint insert_newest (c : Conversation) (l : list Conversation) : list Conversation :=
  match l with
  | [] => [c]
  | x :: l' => if Z.leb (total_key (cv_last_activity x)) (total_key (cv_last_activity c)) then c :: l else x :: insert_newest c l'
  end.
Definition newest_first (l : list Conversation) : list Conversation := fold_right insert_newest [] l.
Definition conversations (agent : option str) (include_closed : bool) (s : Store) : list Conversation :=
  newest_first (List.filter (fun c =>
    is_none_or (fun a => str_eqb (cv_agent c) a) agent && (include_closed || negb (bool_decide (cv_state c = ConvClosed))))
    (map snd (cs_conversations (st_convs s)))).
Definition update_conversation (id : str) (f : Conversation -> Conversation) : Store -> result DocError unit * Store :=
  on_convs (fun c => (tt, mkConversations (map_change id f (cs_conversations c)) (cs_threads c) (cs_next_thread_seq c))).
Definition conv_with_state (state : ConvState) (c : Conversation) : Conversation :=
  mkConversation (cv_id c) (cv_agent c) (cv_runtime c) (cv_runtime_session_id c) (cv_broker_session_id c) state (cv_mode c)
    (cv_title c) (cv_created_by c) (cv_created_at c) (cv_last_activity c) (cv_turns c).
Definition conv_with_session (sid : option str) (c : Conversation) : Conversation :=
  mkConversation (cv_id c) (cv_agent c) (cv_runtime c) (cv_runtime_session_id c) sid (cv_state c) (cv_mode c)
    (cv_title c) (cv_created_by c) (cv_created_at c) (cv_last_activity c) (cv_turns c).
Definition conv_touched (t : Seconds) (c : Conversation) : Conversation :=
  mkConversation (cv_id c) (cv_agent c) (cv_runtime c) (cv_runtime_session_id c) (cv_broker_session_id c) (cv_state c) (cv_mode c)
    (cv_title c) (cv_created_by c) (cv_created_at c) t (cv_turns c).
Definition touch (id : str) (t : Seconds) : Store -> result DocError unit * Store := update_conversation id (conv_touched t).

(** ** Threads *)

Definition with_conv (conv : str) (t : ThreadRecord) : ThreadRecord :=
  mkThreadRecord (tr_thread_id t) conv (tr_peer t) (tr_role t) (tr_topic t) (tr_cursor t) (tr_closed t) (tr_seq t).
Definition bind_thread (thread conv : str) (peer role topic : option str) : Store -> result DocError unit * Store :=
  on_convs (fun c => (tt,
    if map_has thread (cs_threads c) then
      mkConversations (cs_conversations c) (map_change thread (with_conv conv) (cs_threads c)) (cs_next_thread_seq c)
    else
      let seq := N.min (cs_next_thread_seq c + 1) MAX_U64 in
      mkConversations (cs_conversations c) (map_insert thread (mkThreadRecord thread conv peer role topic 0 false seq) (cs_threads c)) seq)).
Definition thread (id : str) (s : Store) : option ThreadRecord := map_get id (cs_threads (st_convs s)).
Fixpoint insert_seq (t : ThreadRecord) (l : list ThreadRecord) : list ThreadRecord :=
  match l with [] => [t] | x :: l' => if N.leb (tr_seq t) (tr_seq x) then t :: l else x :: insert_seq t l' end.
Definition threads_of (conv : str) (s : Store) : list ThreadRecord :=
  fold_right insert_seq [] (List.filter (fun t => str_eqb (tr_conversation_id t) conv) (map snd (cs_threads (st_convs s)))).
Definition on_thread (id : str) (f : ThreadRecord -> ThreadRecord) : Store -> result DocError unit * Store :=
  on_convs (fun c => (tt, mkConversations (cs_conversations c) (map_change id f (cs_threads c)) (cs_next_thread_seq c))).
Definition set_thread_cursor (id : str) (cursor : N) : Store -> result DocError unit * Store :=
  on_thread id (fun t => mkThreadRecord (tr_thread_id t) (tr_conversation_id t) (tr_peer t) (tr_role t) (tr_topic t) cursor
                           (tr_closed t) (tr_seq t)).
Definition set_thread_closed (id : str) : Store -> result DocError unit * Store :=
  on_thread id (fun t => mkThreadRecord (tr_thread_id t) (tr_conversation_id t) (tr_peer t) (tr_role t) (tr_topic t) (tr_cursor t)
                           true (tr_seq t)).

(** ** Inboxes *)

Definition inbox_bytes (l : list str) : N := fold_left (fun n t => n + N.of_nat (str_len t))%N l 0%N.
Definition inbox_room (conv text : str) (s : Store) : bool :=
  let l := inbox conv s in
  Nat.ltb (length l) MAX_INBOX_ITEMS && N.leb (inbox_bytes l + N.of_nat (str_len text)) MAX_INBOX_BYTES.
Definition queue (conv text : str) : Store -> result DocError unit * Store := on_inbox conv (fun i => (tt, i ++ [text])).
Definition queue_all (conv : str) (texts : list str) (s : Store) : result DocError unit * Store :=
  if bool_decide (texts = []) then (Ok tt, s) else on_inbox conv (fun i => (tt, i ++ texts)) s.
Definition drain (conv : str) (s : Store) : result DocError (list str) * Store :=
  if bool_decide (inbox conv s = []) then (Ok [], s) else on_inbox conv (fun i => (i, [])) s.
Definition peek (conv : str) (s : Store) : list str := inbox conv s.
End updates.

(** ** Process slots ([daemon/slots.rs]) *)

Module Slots.
Record Slots := mkSlots { sl_max : N; sl_per_project : N; sl_total : N; sl_per : gmap str N }.
Definition Slots_new (max per_project : N) : Slots := mkSlots max per_project 0 ∅.
Definition try_acquire (project : str) (s : Slots) : option Slots :=
  let used := default 0%N (sl_per s !! project) in
  if N.leb (sl_max s) (sl_total s) || N.leb (sl_per_project s) used then None
  else Some (mkSlots (sl_max s) (sl_per_project s) (N.min (sl_total s + 1) MAX_U32)
               (<[project := N.min (used + 1) MAX_U32]> (sl_per s))).
(** A permit's drop. *)
Definition permit_drop (project : str) (s : Slots) : Slots :=
  let per := match sl_per s !! project with
             | Some n => if N.eqb (n - 1) 0 then delete project (sl_per s) else <[project := (n - 1)%N]> (sl_per s)
             | None => sl_per s
             end in
  mkSlots (sl_max s) (sl_per_project s) (sl_total s - 1) per.
Definition no_slot (s : Slots) : str :=
  lit "no free process slot (at most " ++ show_N (sl_max s) ++ lit " agent processes, " ++ show_N (sl_per_project s)
  ++ lit " per project)".
Definition in_use (s : Slots) : N := sl_total s.
End Slots.
