(* ===== verification/Sandboxd.v ===== *)
(** The sandbox daemon ([crates/sandboxd/src/daemon]): its holds and the
    worker that freezes and thaws ([mod.rs]), conversations, their processes
    and deliveries ([conversations.rs]), and how threads are routed to them
    and read ([routing.rs], with the texts of [crates/client/src/pyjson.rs]).
    Each definition is what runs between two waits; what the disk, the host
    and the broker answer are arguments. *)

From stdpp Require Import gmap.
From S2P Require Import Prelude Json Glob Pyfmt Names HostTypes TotpCode F64 Transcript Envelope CanonicalJson Sandbox SandboxStore.
From stdpp Require Import options.
#[local] Set Default Proof Using "Type*".

(** ** Errors *)

Inductive SbxError :=
| Lookup (m : str) | ValueErr (m : str) | RuntimeErr (m : str) | Internal (m : str) | Unauthorized (m : str) | Full (m : str).
Definition SbxError_text (e : SbxError) : str :=
  match e with Lookup m | ValueErr m | RuntimeErr m | Internal m | Unauthorized m | Full m => m end.
Definition api_text (e : SbxError) : str :=
  match e with
  | Internal m | Unauthorized m => lit "internal error: " ++ m
  | Lookup m | ValueErr m | RuntimeErr m | Full m => m
  end.
Definition refuses (e : SbxError) : bool := match e with Internal _ | Unauthorized _ => false | _ => true end.
Definition of_doc (e : DocError) : SbxError := Internal (DocError_text e).

(** ** Runtimes ([runtime/mod.rs]) *)

Inductive Runtime := Claude | Codex.
Definition from_config (name : str) : option Runtime :=
  if str_eqb name (lit "claude") then Some Claude else if str_eqb name (lit "codex") then Some Codex else None.
Definition shares_live_process (r : Runtime) : bool := match r with Codex => true | Claude => false end.
Definition doorbell (r : Runtime) : bool := match r with Claude => true | Codex => false end.

(** What the daemon is configured with; [cf_runtimes] are the names with a
    command. *)
Record Config := mkConfig {
  cf_name : str; cf_uid_base : N; cf_uid_max : N; cf_orchestrator_runtime : str; cf_runtimes : list str;
  cf_triage : bool; cf_triage_runtime : option str }.
Definition runtime (cf : Config) (name : str) : option Runtime :=
  if existsb (str_eqb name) (cf_runtimes cf) then from_config name else None.
Definition orchestrator (cf : Config) : str := orchestrator_name (cf_name cf).
Definition runtime_of (cf : Config) (rec : AgentRecord) : result SbxError str :=
  let name := if str_eqb (ar_name rec) (orchestrator cf) then Some (cf_orchestrator_runtime cf) else ar_runtime rec in
  match name with
  | Some r => if negb (is_none (runtime cf r)) then Ok r
              else Err (RuntimeErr (lit "no runtime configured for " ++ ar_name rec ++ lit " ("
                                    ++ default (lit "None") (ar_runtime rec) ++ lit ")"))
  | None => Err (RuntimeErr (lit "no runtime configured for " ++ ar_name rec ++ lit " ("
                             ++ default (lit "None") (ar_runtime rec) ++ lit ")"))
  end.
Definition project_of (cf : Config) (rec : AgentRecord) : result SbxError (option str) :=
  if str_eqb (ar_name rec) (orchestrator cf) then Ok None
  else match ar_project rec with
       | Some p => Ok (Some p)
       | None => Err (RuntimeErr (ar_name rec ++ lit " has no project"))
       end.
Definition project_uid (cf : Config) (p : option str) (s : Store) : result SbxError N :=
  match p with
  | None => Ok (cf_uid_base cf)
  | Some p => match project p s with
              | Some r => Ok (pr_uid r)
              | None => Err (Lookup (lit "no project " ++ repr p))
              end
  end.

(** ** The daemon *)

(** A conversation's in-memory side: whether it has a process and whether
    that is in a turn, whether a TUI is attached, a retry that is due, and
    the token of the agent API. *)
Record Live := mkLive { lv_run : bool; lv_busy : bool; lv_tui : bool; lv_retry : bool; lv_token : str }.
Definition Live_new (token : str) : Live := mkLive false false false false token.
Record HoldJob := mkHoldJob { hj_applied : Applied; hj_call : option str }.

(** [d_procs], [d_tuis]: the units of the conversations that run on the
    host, and whether each is frozen; [d_sent]: what processes were sent. *)
Record Daemon := mkDaemon {
  d_store : Store;
  d_holds : Holds;
  d_jobs : list HoldJob;
  d_live : gmap str Live;
  d_procs : gmap str bool;
  d_tuis : gmap str bool;
  d_held_version : option (str * N);
  d_sent : list (str * str);
}.
Definition with_store (d : Daemon) x := mkDaemon x (d_holds d) (d_jobs d) (d_live d) (d_procs d) (d_tuis d) (d_held_version d) (d_sent d).
Definition with_holds (d : Daemon) x := mkDaemon (d_store d) x (d_jobs d) (d_live d) (d_procs d) (d_tuis d) (d_held_version d) (d_sent d).
Definition with_jobs (d : Daemon) x := mkDaemon (d_store d) (d_holds d) x (d_live d) (d_procs d) (d_tuis d) (d_held_version d) (d_sent d).
Definition with_live (d : Daemon) x := mkDaemon (d_store d) (d_holds d) (d_jobs d) x (d_procs d) (d_tuis d) (d_held_version d) (d_sent d).
Definition with_procs (d : Daemon) x := mkDaemon (d_store d) (d_holds d) (d_jobs d) (d_live d) x (d_tuis d) (d_held_version d) (d_sent d).
Definition with_tuis (d : Daemon) x := mkDaemon (d_store d) (d_holds d) (d_jobs d) (d_live d) (d_procs d) x (d_held_version d) (d_sent d).
Definition with_version (d : Daemon) x := mkDaemon (d_store d) (d_holds d) (d_jobs d) (d_live d) (d_procs d) (d_tuis d) x (d_sent d).
Definition with_sent (d : Daemon) x := mkDaemon (d_store d) (d_holds d) (d_jobs d) (d_live d) (d_procs d) (d_tuis d) (d_held_version d) x.

Definition live (c : str) (d : Daemon) : Live := default (Live_new []) (d_live d !! c).
Definition set_live (c : str) (f : Live -> Live) (d : Daemon) : Daemon := with_live d (<[c := f (live c d)]> (d_live d)).
Definition lv_with_run (run busy : bool) (l : Live) : Live := mkLive run busy (lv_tui l) (lv_retry l) (lv_token l).
Definition lv_with_tui (tui : bool) (l : Live) : Live := mkLive (lv_run l) (lv_busy l) tui (lv_retry l) (lv_token l).
Definition lv_with_retry (r : bool) (l : Live) : Live := mkLive (lv_run l) (lv_busy l) (lv_tui l) r (lv_token l).
Definition held (d : Daemon) (agent : str) : bool := holds_held (d_holds d) agent.
Definition hold_refusal (d : Daemon) (agent : str) : option str := refusal (d_holds d) agent.

(** A change of the store whose error is dropped, and one whose error
    returns. *)
Definition on_store {R} (f : Store -> result DocError R * Store) (d : Daemon) : result SbxError R * Daemon :=
  let '(r, s) := f (d_store d) in (map_err of_doc r, with_store d s).
Definition ignore_store {R} (f : Store -> result DocError R * Store) (d : Daemon) : Daemon := snd (on_store f d).

(** ** The host's units *)

(** [freeze_unit]: [ok] is whether the freezer obeys; a unit it will not
    freeze is stopped, and one that does not run is as good as frozen. *)
Definition freeze_unit (ok frozen : bool) (c : str) (units : gmap str bool) : bool * gmap str bool :=
  match units !! c with
  | None => (true, units)
  | Some _ =>
      if ok then (true, <[c := frozen]> units)
      else if frozen then (false, delete c units) else (false, units)
  end.
Definition parked_if_running (c : Conversation) : Conversation :=
  if bool_decide (cv_state c = Running) then conv_with_state Parked c else c.
(** [freeze_conversation]: its process, then its TUI. *)
Definition freeze_process (ok frozen : bool) (disk : option DocError) (c : str) (d : Daemon) : Daemon :=
  match d_live d !! c with
  | None => d
  | Some l =>
      if lv_run l then
        let '(done, procs) := freeze_unit ok frozen c (d_procs d) in
        let d := with_procs d procs in
        if negb done && frozen then
          ignore_store (update_conversation disk c parked_if_running) (set_live c (lv_with_run false false) d)
        else d
      else d
  end.
Definition freeze_tui (ok frozen : bool) (c : str) (d : Daemon) : Daemon :=
  match d_live d !! c with
  | None => d
  | Some l =>
      if lv_tui l then
        let '(done, tuis) := freeze_unit ok frozen c (d_tuis d) in
        let d := with_tuis d tuis in
        if negb done && frozen then set_live c (lv_with_tui false) (with_tuis d (delete c (d_tuis d))) else d
      else d
  end.
Definition freeze_conversation (ok ok' frozen : bool) (disk : option DocError) (c : str) (d : Daemon) : Daemon :=
  freeze_tui ok' frozen c (freeze_process ok frozen disk c d).

(** ** Holds *)

(** [hold]: applied in memory and on disk, its effects queued; an event that
    only lifts holds is not applied when it cannot be written. Returns the
    error that is answered, if any. *)
Definition adds_hold (a : Applied) : bool :=
  (h_locked (ap_after a) && negb (h_locked (ap_before a)))
  || existsb (fun x => negb (is_contained (ap_before a) x)) (elements (h_contained (ap_after a))).
Definition hold (disk1 disk2 : option DocError) (event : HoldEvent) (call : option str) (d : Daemon) : option str * Daemon :=
  let applied := apply (d_holds d) event in
  let '(r1, s1) := set_locked disk1 (h_locked (ap_after applied)) (d_store d) in
  let '(r2, s2) := match r1 with
                   | Ok _ => set_contained disk2 (h_contained (ap_after applied)) s1
                   | Err e => (Err e, s1)
                   end in
  let d := with_store d s2 in
  match r2 with
  | Err e =>
      if negb (adds_hold applied) && changed applied then (Some (lit "could not record it: " ++ DocError_text e), d)
      else (None, with_jobs (with_holds d (ap_after applied)) (d_jobs d ++ [mkHoldJob applied call]))
  | Ok _ => (None, with_jobs (with_holds d (ap_after applied)) (d_jobs d ++ [mkHoldJob applied call]))
  end.
(** [held_list_is_newer]. *)
Definition held_list_is_newer (version : option (str * N)) (d : Daemon) : bool * Daemon :=
  match version with
  | None => (true, d)
  | Some (epoch, seq) =>
      match d_held_version d with
      | Some (e, s) => if str_eqb e epoch && N.leb seq s then (false, d) else (true, with_version d (Some (epoch, seq)))
      | None => (true, with_version d (Some (epoch, seq)))
      end
  end.
Definition on_contained (disk1 disk2 : option DocError) (version : option (str * N)) (agents : gset str) (call : option str)
    (d : Daemon) : option str * Daemon :=
  let '(newer, d) := held_list_is_newer version d in
  if newer then hold disk1 disk2 (ContainedSet agents) call d else (None, d).
(** [new] and [startup]: the holds on disk; the units of the last daemon's
    open conversations are stopped, and they are parked. A document that
    cannot be written ends the startup, which is then tried again. *)
Definition restart (s : Store) (d : Daemon) : Daemon :=
  let open_ := conversations None false s in
  let s' := fold_left (fun s c => snd (update_conversation None (cv_id c) (conv_with_state Parked) s)) open_ s in
  let stop units := fold_left (fun u c => delete (cv_id c) u) open_ units in
  mkDaemon s' (mkHolds (fl_locked (st_flags s)) (fl_contained (st_flags s))) [] ∅ (stop (d_procs d)) (stop (d_tuis d)) None (d_sent d).

(** ** Keys *)

Definition key_fits (cf : Config) (rec : AgentRecord) (s : Store) : bool :=
  if str_eqb (ar_name rec) (orchestrator cf) then true
  else match ar_runtime rec, ar_project rec with
       | Some r, Some p =>
           is_ok (SandboxProject_parse p) && negb (is_none (project p s))
           && str_eqb (ar_name rec) (sandbox_agent_name r p (cf_name cf))
       | _, _ => false
       end.
Definition without_project (rec : AgentRecord) : AgentRecord :=
  mkAgentRecord (ar_name rec) (ar_agent_id rec) (ar_key_id rec) (ar_runtime rec) None (ar_api_key rec) (ar_updated_at rec).
Definition same_key (old rec : AgentRecord) : bool :=
  str_eqb (ar_key_id old) (ar_key_id rec) && str_eqb (ar_api_key old) (ar_api_key rec) && str_eqb (ar_agent_id old) (ar_agent_id rec)
  && bool_decide (ar_runtime old = ar_runtime rec) && bool_decide (ar_project old = ar_project rec).
(** [on_key]: whether it is acknowledged, and whether the agent's dispatcher
    restarts. *)
Definition on_key (cf : Config) (disk : option DocError) (rec : AgentRecord) (d : Daemon) : (bool * bool) * Daemon :=
  if negb (key_fits cf rec (d_store d)) then ((false, false), d)
  else
    let rec := if str_eqb (ar_name rec) (orchestrator cf) then without_project rec else rec in
    if match agent (ar_name rec) (d_store d) with Some old => same_key old rec | None => false end then ((true, false), d)
    else match on_store (put_agent disk rec) d with
         | (Ok _, d) => ((true, true), d)
         | (Err _, d) => ((false, false), d)
         end.

(** ** Deliveries *)

Definition no_key (agent : str) : SbxError := Lookup (lit "no key for agent " ++ repr agent ++ lit " in this VM").
Definition agent_record (name : str) (s : Store) : result SbxError AgentRecord := ok_or (agent name s) (no_key name).
Definition inbox_full (c : str) : SbxError :=
  Full (lit "the inbox of conversation " ++ c ++ lit " is full (at most " ++ show_N (N.of_nat MAX_INBOX_ITEMS)
        ++ lit " messages, " ++ show_N MAX_INBOX_BYTES ++ lit " bytes)").
Definition no_runtime (conv : Conversation) : SbxError :=
  RuntimeErr (lit "no runtime configured for " ++ cv_agent conv ++ lit " (" ++ cv_runtime conv ++ lit ")").

(** How [deliver_recorded] ends, or that it goes on to the conversation's
    lock: [Ok (Some why)] is a text that is safe, its process not started. *)
Definition Delivered : Type := result SbxError (option SbxError).
Inductive First := Ended (r : Delivered) | ToLock (conv : Conversation).
Definition queue_or (disk : option DocError) (c text : str) (r : option SbxError) (d : Daemon) : First * Daemon :=
  match on_store (queue disk c text) d with
  | (Ok _, d) => (Ended (Ok r), d)
  | (Err e, d) => (Ended (Err e), d)
  end.
(** Up to the lock. *)
Definition deliver_first (cf : Config) (touched queued : option DocError) (now : N) (c text : str) (d : Daemon) : First * Daemon :=
  match conversation c (d_store d) with
  | None => (Ended (Ok None), d)
  | Some conv =>
      if bool_decide (cv_state conv = ConvClosed) then (Ended (Ok None), d)
      else if negb (inbox_room c text (d_store d)) then (Ended (Err (inbox_full c)), d)
      else match on_store (touch touched c now) (set_live c id d) with
      | (Err e, d) => (Ended (Err e), d)
      | (Ok _, d) =>
          if held d (cv_agent conv) then queue_or queued c text None d
          else match runtime cf (cv_runtime conv) with
          | None => queue_or queued c text (Some (no_runtime conv)) d
          | Some r =>
              if lv_tui (live c d) && negb (shares_live_process r) then queue_or queued c text None d
              else (ToLock conv, d)
          end
      end
  end.
(** Under the lock: a busy process with a doorbell finds it in the inbox,
    else what is queued and this text are to be sent. *)
Inductive Locked := LockEnded (r : Delivered) | Pending (texts : list str).
Definition deliver_locked (cf : Config) (disk : option DocError) (conv : Conversation) (text : str) (d : Daemon) : Locked * Daemon :=
  let c := cv_id conv in
  let bell := match runtime cf (cv_runtime conv) with Some r => doorbell r | None => false end in
  if lv_run (live c d) && lv_busy (live c d) && bell then
    match on_store (queue disk c text) d with
    | (Ok _, d) => (LockEnded (Ok None), d)
    | (Err e, d) => (LockEnded (Err e), d)
    end
  else match on_store (drain disk c) d with
       | (Ok texts, d) => (Pending (texts ++ [text]), d)
       | (Err e, d) => (LockEnded (Err e), d)
       end.
(** [ensure_running]: the checks before the process is started, its start,
    and its being recorded; what is between (the session, the slot, the
    context) is the outcome of the start. *)
Definition start_checks (cf : Config) (conv : Conversation) (s : Store) : result SbxError (option str) :=
  rec ← agent_record (cv_agent conv) s;
  project_of cf rec.
Definition process_started (c : str) (d : Daemon) : Daemon := with_procs d (<[c := false]> (d_procs d)).
Definition conv_running (sid : option str) (c : Conversation) : Conversation :=
  let c := match sid with
           | Some _ => mkConversation (cv_id c) (cv_agent c) (cv_runtime c) sid (cv_broker_session_id c) (cv_state c) (cv_mode c)
                         (cv_title c) (cv_created_by c) (cv_created_at c) (cv_last_activity c) (cv_turns c)
           | None => c
           end in
  conv_with_state Running c.
Definition record_run (disk : option DocError) (c : str) (sid : option str) (d : Daemon) : result SbxError unit * Daemon :=
  on_store (update_conversation disk c (conv_running sid)) (set_live c (lv_with_run true false) d).
(** Not started, or held meanwhile: the texts wait. *)
Definition put_back (disk : option DocError) (c : str) (texts : list str) (retry : bool) (r : option SbxError) (d : Daemon)
    : Delivered * Daemon :=
  match on_store (queue_all disk c texts) d with
  | (Err e, d) => (Err e, d)
  | (Ok _, d) => (Ok r, if retry then set_live c (lv_with_retry true) d else d)
  end.
(** The process is sent each text; one it does not take waits with the rest. *)
Definition send_one (c text : str) (d : Daemon) : Daemon :=
  set_live c (fun l => lv_with_run (lv_run l) true l) (with_sent d (d_sent d ++ [(c, text)])).
Fixpoint send_all (disk : option DocError) (answers : list (option str)) (c : str) (texts : list str) (d : Daemon)
    : Delivered * Daemon :=
  match texts with
  | [] => (Ok None, set_live c (lv_with_retry false) d)
  | text :: rest =>
      match answers with
      | Some why :: _ => put_back disk c texts true (Some (RuntimeErr why)) d
      | None :: answers => send_all disk answers c rest (send_one c text d)
      | [] => send_all disk [] c rest (send_one c text d)
      end
  end.

(** The outcomes of one delivery, undisturbed: its documents, the start of
    the process, the freezer and each send. *)
Record Luck := mkLuck {
  lk_touch : option DocError; lk_queue : option DocError; lk_lock : option DocError; lk_record : option DocError;
  lk_back : option DocError; lk_state : option DocError; lk_start : result SbxError (option str);
  lk_freeze : bool; lk_freeze_tui : bool; lk_sends : list (option str) }.
Definition all_well : Luck := mkLuck None None None None None None (Ok None) true true [].
(** [ensure_running], then the check of the holds, then the sends. *)
Definition deliver_started (k : Luck) (conv : Conversation) (texts : list str) (d : Daemon) : Delivered * Daemon :=
  if held d (cv_agent conv) then
    put_back (lk_back k) (cv_id conv) texts false None
      (freeze_conversation (lk_freeze k) (lk_freeze_tui k) true (lk_state k) (cv_id conv) d)
  else send_all (lk_back k) (lk_sends k) (cv_id conv) texts d.
Definition ensure_running (cf : Config) (k : Luck) (conv : Conversation) (d : Daemon) : result SbxError unit * Daemon :=
  let c := cv_id conv in
  if lv_run (live c d) then (Ok tt, d)
  else match start_checks cf conv (d_store d) with
       | Err e => (Err e, d)
       | Ok _ => match lk_start k with
                 | Err e => (Err e, d)
                 | Ok sid => record_run (lk_record k) c sid (process_started c d)
                 end
       end.
Definition deliver_recorded (cf : Config) (k : Luck) (now : N) (c text : str) (d : Daemon) : Delivered * Daemon :=
  match deliver_first cf (lk_touch k) (lk_queue k) now c text d with
  | (Ended r, d) => (r, d)
  | (ToLock conv, d) =>
      match deliver_locked cf (lk_lock k) conv text d with
      | (LockEnded r, d) => (r, d)
      | (Pending texts, d) =>
          match ensure_running cf k conv d with
          | (Err e, d) => put_back (lk_back k) c texts true (Some e) d
          | (Ok _, d) => deliver_started k conv texts d
          end
      end
  end.
(** [deliver]: a text that waits is still an error to who sent it. *)
Definition deliver (cf : Config) (k : Luck) (now : N) (c text : str) (d : Daemon) : result SbxError unit * Daemon :=
  match deliver_recorded cf k now c text d with
  | (Ok None, d) => (Ok tt, d)
  | (Ok (Some e), d) | (Err e, d) => (Err e, d)
  end.

(** [deliver_queued]: what queued up, as one text. *)
Definition joined (texts : list str) : str := join [10; 10]%N texts.
Definition deliver_queued (cf : Config) (k : Luck) (disk : option DocError) (now : N) (c : str) (d : Daemon) : Daemon :=
  match conversation c (d_store d) with
  | None => d
  | Some conv =>
      if bool_decide (cv_state conv = ConvClosed) || held d (cv_agent conv) then d
      else
        let d := set_live c id d in
        let claude_tui := lv_tui (live c d)
                          && match runtime cf (cv_runtime conv) with Some r => negb (shares_live_process r) | None => false end in
        if claude_tui then d
        else match on_store (drain disk c) d with
             | (Err _, d) => d
             | (Ok queued, d) =>
                 if bool_decide (queued = []) then d else snd (deliver cf k now c (joined queued) d)
             end
  end.

(** ** The end of a turn, parking, closing *)

Inductive Flush := Sent | Nothing | FlushHeld.
(** [flush_queue] up to the lock, and under it. *)
Definition flush_first (c : str) (d : Daemon) : option Flush :=
  if lv_tui (live c d) then Some Nothing
  else match conversation c (d_store d) with
       | None => Some Nothing
       | Some conv => if held d (cv_agent conv) then Some FlushHeld else None
       end.
Definition flush_locked (disk back : option DocError) (taken : bool) (c : str) (d : Daemon) : Flush * Daemon :=
  if negb (lv_run (live c d)) then (Nothing, d)
  else match on_store (drain disk c) d with
       | (Err _, d) => (Nothing, d)
       | (Ok queued, d) =>
           if bool_decide (queued = []) then (Nothing, d)
           else if taken then (Sent, send_one c (joined queued) d)
           else (Sent, ignore_store (queue_all back c queued) d)
       end.
(** The process is ended: [run.stop]. *)
Definition stop_process (c : str) (d : Daemon) : Daemon :=
  set_live c (lv_with_run false false) (with_procs d (delete c (d_procs d))).
Definition park (disk : option DocError) (c : str) (d : Daemon) : Daemon :=
  if negb (lv_run (live c d)) || lv_busy (live c d) then d
  else match conversation c (d_store d) with
       | Some conv =>
           if held d (cv_agent conv) then d
           else let d := stop_process c d in
                if bool_decide (cv_state conv = ConvClosed) then d
                else ignore_store (update_conversation disk c (conv_with_state Parked)) d
       | None => stop_process c d
       end.
Definition retire_run (disk : option DocError) (c : str) (d : Daemon) : Daemon :=
  if lv_run (live c d) then ignore_store (update_conversation disk c parked_if_running) (stop_process c d) else d.
(** The process ended by itself, then its pump sees it. *)
Definition process_exits (c : str) (d : Daemon) : Daemon := with_procs d (delete c (d_procs d)).
Definition pump_ends (disk : option DocError) (c : str) (d : Daemon) : Daemon :=
  if lv_run (live c d) then
    ignore_store (update_conversation disk c parked_if_running) (set_live c (lv_with_run false false) d)
  else d.
Definition turn_ended (disk : option DocError) (c : str) (d : Daemon) : Daemon :=
  ignore_store (update_conversation disk c (fun x => mkConversation (cv_id x) (cv_agent x) (cv_runtime x) (cv_runtime_session_id x)
      (cv_broker_session_id x) (cv_state x) (cv_mode x) (cv_title x) (cv_created_by x) (cv_created_at x) (cv_last_activity x)
      (N.min (cv_turns x + 1) MAX_U64)))
    (set_live c (fun l => lv_with_run (lv_run l) false l) d).
(** [close], under the lock and after it. *)
Definition close_process (c : str) (d : Daemon) : Daemon := if lv_run (live c d) then stop_process c d else d.
Definition close_mark (disk : option DocError) (c : str) (d : Daemon) : result SbxError unit * Daemon :=
  match on_store (update_conversation disk c (conv_with_state ConvClosed)) d with
  | (Err e, d) => (Err e, d)
  | (Ok _, d) => (Ok tt, with_live d (delete c (d_live d)))
  end.

(** ** The TUI *)

(** [attach], once its unit runs, then the record of it; [tui_ended]. *)
Definition tui_started (c : str) (d : Daemon) : Daemon := with_tuis d (<[c := false]> (d_tuis d)).
Definition record_tui (disk : option DocError) (c : str) (d : Daemon) : result SbxError unit * Daemon :=
  on_store (update_conversation disk c (conv_with_state Attached)) (set_live c (lv_with_tui true) d).
Definition stop_tui (c : str) (d : Daemon) : Daemon := with_tuis d (delete c (d_tuis d)).
Definition tui_ended (disk : option DocError) (c : str) (d : Daemon) : Daemon :=
  let d := stop_tui c (set_live c (lv_with_tui false) d) in
  match conversation c (d_store d) with
  | None => d
  | Some conv =>
      if bool_decide (cv_state conv = ConvClosed) then d
      else ignore_store (update_conversation disk c
             (conv_with_state (if lv_run (live c d) then Running else Parked))) d
  end.

(** ** The hold worker ([hold_effects]) *)

(** One conversation of a job: left, frozen, or to be thawed when nothing
    holds its agent as things are now. *)
Inductive Effect := EffectNone | EffectFreeze | EffectThaw.
Definition effect (a : Applied) (conv : Conversation) (d : Daemon) : Effect :=
  match action a (cv_agent conv) with
  | Keep => EffectNone
  | Freeze => EffectFreeze
  | Release => if held d (cv_agent conv) then EffectNone else EffectThaw
  end.
(** The conversations whose queues are then delivered. *)
Definition to_deliver (a : Applied) (convs : list Conversation) : list str :=
  map cv_id (List.filter (fun c => bool_decide (action a (cv_agent c) = Release)) convs).

(** ** Python's JSON text, indented ([pyjson.rs]) *)

Definition newline (level : nat) : str := 10%N :: repeat 32%N (level * 2).
Fixpoint indent_value (level : nat) (v : Value) : str :=
  match v with
  | VArray [] => lit "[]"
  | VArray items =>
      lit "[" ++ newline (level + 1) ++ join (44%N :: newline (level + 1)) (map (indent_value (level + 1)) items)
      ++ newline level ++ lit "]"
  | VObject [] => lit "{}"
  | VObject m =>
      lit "{" ++ newline (level + 1)
      ++ join (44%N :: newline (level + 1))
           (map (fun kv => to_python_default_string (VString kv.1) ++ lit ": " ++ indent_value (level + 1) kv.2) m)
      ++ newline level ++ lit "}"
  | v => to_python_default_string v
  end.
Definition dumps_indent (v : Value) : str := indent_value 0 v.

(** ** Threads *)

Record ThreadView := mkThreadView {
  tv_thread_id : str; tv_peer : option str; tv_role : str; tv_topic : option str; tv_last_seq : N; tv_closed : bool;
  tv_close_reason : option str }.
Record Message := mkMessage { ms_from : str; ms_seq : N; ms_payload : list (str * Value) }.
Definition py_none (v : option str) : str := default (lit "None") v.
Definition nonempty_text (v : option str) : option str := t ← v; if bool_decide (t = []) then None else Some t.

Definition format_a2a (t : ThreadView) (m : Message) : str :=
  let topic := match nonempty_text (tv_topic t) with Some x => lit " · topic " ++ x | None => [] end in
  lit "[a2a] thread " ++ tv_thread_id t ++ lit " · from " ++ ms_from m ++ topic ++ lit " · seq " ++ show_N (ms_seq m) ++ [10%N]
  ++ dumps_indent (VObject (ms_payload m)) ++ 10%N :: qlit "(reply: a2a_send(thread_id=`" ++ tv_thread_id t
  ++ qlit "`, payload={...}))".
Definition closing_text (t : ThreadView) : str :=
  lit "[a2a] thread " ++ tv_thread_id t ++ lit " with " ++ py_none (tv_peer t) ++ lit " is closed ("
  ++ default (lit "closed") (tv_close_reason t) ++ lit "). Nothing more will arrive on it.".
Definition refusal_text (e : SbxError) : str := take 500 (lit "sandbox: " ++ SbxError_text e).

(** ** Routing *)

Definition TRIAGE_MAX_CANDIDATES : nat := 8.
(** The conversation a first message names. *)
Definition hint (first : option (list (str * Value))) : option str :=
  p ← first;
  s ← map_get (lit "_sandbox") p;
  c ← value_get s (lit "conversation");
  text ← as_str c;
  ConvId_parse text.
Definition hinted (rec : AgentRecord) (first : option (list (str * Value))) (s : Store) : option Conversation :=
  id ← hint first;
  conv ← conversation id s;
  if str_eqb (cv_agent conv) (ar_name rec) && negb (bool_decide (cv_state conv = ConvClosed)) then Some conv else None.
(** [triage_candidates]: with the last of its threads with this peer. *)
Definition related (peer : str) (conv : Conversation) (s : Store) : option (Conversation * ThreadRecord) :=
  (fun t => (conv, t)) <$> last (List.filter (fun t => bool_decide (tr_peer t = Some peer)) (threads_of (cv_id conv) s)).
Fixpoint insert_candidate (c : Conversation * ThreadRecord) (l : list (Conversation * ThreadRecord)) :=
  match l with
  | [] => [c]
  | x :: l' => if Z.leb (total_key (cv_last_activity x.1)) (total_key (cv_last_activity c.1)) then c :: l
               else x :: insert_candidate c l'
  end.
Definition triage_candidates (rec : AgentRecord) (t : ThreadView) (s : Store) : list (Conversation * ThreadRecord) :=
  match nonempty_text (tv_peer t) with
  | None => []
  | Some peer =>
      take TRIAGE_MAX_CANDIDATES (fold_right insert_candidate []
        (omap (fun conv => related peer conv s) (conversations (Some (ar_name rec)) false s)))
  end.
(** [str::contains], and the only candidate whose id the answer contains. *)
Fixpoint contains_text (p s : str) : bool :=
  has_prefix p s || match s with [] => false | _ :: s' => contains_text p s' end.
Definition named (answer : str) (candidates : list (Conversation * ThreadRecord)) : option Conversation :=
  match List.filter (fun c => contains_text (cv_id c) answer) (map fst candidates) with
  | [one] => Some one
  | _ => None
  end.
(** [triage], of what the model answers ([None]: it could not be asked). *)
Definition triage (cf : Config) (rec : AgentRecord) (t : ThreadView) (answer : option str) (d : Daemon) : option Conversation :=
  if held d (ar_name rec) then None
  else
    let candidates := if cf_triage cf then triage_candidates rec t (d_store d) else [] in
    match runtime cf (default (cf_orchestrator_runtime cf) (cf_triage_runtime cf)) with
    | None => None
    | Some _ =>
        if bool_decide (candidates = []) then None
        else a ← answer;
             one ← named a candidates;
             conversation (cv_id one) (d_store d)
    end.
(** [route_open]: where a thread goes. *)
Inductive Route := AlreadyClaimed | ToConversation (conv : Conversation) | ToNew (created_by title : str).
Definition route_open (cf : Config) (rec : AgentRecord) (t : ThreadView) (first : option (list (str * Value))) (answer : option str)
    (d : Daemon) : Route :=
  if negb (is_none (thread (tv_thread_id t) (d_store d))) then AlreadyClaimed
  else match hinted rec first (d_store d) with
       | Some conv => ToConversation conv
       | None =>
           match triage cf rec t answer d with
           | Some conv => ToConversation conv
           | None => ToNew (lit "a2a:" ++ py_none (tv_peer t)) (thread_title (tv_peer t) (tv_topic t) (tv_thread_id t))
           end
       end.

(** ** Reading a thread *)

(** The messages of a page, each delivered and then its cursor moved; how the
    deliveries end and how the writes of the cursors and of a close go are
    the arguments. A full inbox closes the thread. *)
Inductive ReadEnd := ReadAll | ReadClosed (reason : str) | ReadFailed (e : SbxError).
Section read.
Context (deliver : str -> Daemon -> Delivered * Daemon) (disk : N -> option DocError) (shut : option DocError).
Fixpoint read_messages (rec : AgentRecord) (t : ThreadView) (ms : list Message) (d : Daemon) : ReadEnd * Daemon :=
  match ms with
  | [] => (ReadAll, d)
  | m :: ms =>
      let moved d := match on_store (set_thread_cursor (disk (ms_seq m)) (tv_thread_id t) (ms_seq m)) d with
                     | (Ok _, d) => read_messages rec t ms d
                     | (Err e, d) => (ReadFailed e, d)
                     end in
      if str_eqb (ms_from m) (ar_name rec) then moved d
      else match deliver (format_a2a t m) d with
           | (Ok _, d) => moved d
           | (Err (Full why), d) =>
               match on_store (set_thread_cursor (disk (ms_seq m)) (tv_thread_id t) (N.max (tv_last_seq t) (ms_seq m))) d with
               | (Err e, d) => (ReadFailed e, d)
               | (Ok _, d) =>
                   match on_store (set_thread_closed shut (tv_thread_id t)) d with
                   | (Err e, d) => (ReadFailed e, d)
                   | (Ok _, d) => (ReadClosed (take 500 (lit "sandbox: " ++ why)), d)
                   end
               end
           | (Err e, d) => (ReadFailed e, d)
           end
  end.
(** [read_thread], of the page after the cursor the broker answers. *)
Definition cursor_of (t : ThreadView) (d : Daemon) : N := default 0%N (tr_cursor <$> thread (tv_thread_id t) (d_store d)).
Definition read_thread (rec : AgentRecord) (t : ThreadView) (page : N -> result SbxError (list Message)) (d : Daemon)
    : ReadEnd * Daemon :=
  let bound := thread (tv_thread_id t) (d_store d) in
  let cursor := cursor_of t d in
  let '(r, d) :=
    if N.ltb cursor (tv_last_seq t) then
      match page cursor with
      | Err e => (ReadFailed e, d)
      | Ok ms => read_messages rec t (List.filter (fun m => N.ltb cursor (ms_seq m)) ms) d
      end
    else (ReadAll, d) in
  match r with
  | ReadAll =>
      let closed := match bound with Some b => tr_closed b | None => false end in
      if tv_closed t && negb closed then
        match deliver (closing_text t) d with
        | (Err e, d) => (ReadFailed e, d)
        | (Ok _, d) => match on_store (set_thread_closed shut (tv_thread_id t)) d with
                       | (Ok _, d) => (ReadAll, d)
                       | (Err e, d) => (ReadFailed e, d)
                       end
        end
      else (ReadAll, d)
  | r => (r, d)
  end.
End read.

(** ** The local sockets ([crates/sandboxd/src/api.rs]) *)

(** [conversation_by_token], the tokens compared in constant time. *)
Definition conversation_by_token (token : str) (d : Daemon) : option Conversation :=
  let found := last (List.filter (fun c => match d_live d !! c with Some l => str_eqb (lv_token l) token | None => false end)
                       (map fst (map_to_list (d_live d)))) in
  c ← found;
  conv ← conversation c (d_store d);
  if bool_decide (cv_state conv = ConvClosed) then None else Some conv.
(** Who an agent's call is from: [AgentApi::handle] up to the call. *)
Record Asker := mkAsker { ak_conv : Conversation; ak_rec : AgentRecord; ak_orch : bool; ak_project : option str }.
Definition agent_caller (cf : Config) (token : option str) (uid : N) (d : Daemon) : result str Asker :=
  conv ← ok_or (t ← nonempty_text token; conversation_by_token t d) (lit "unknown conversation token");
  rec ← ok_or (agent (cv_agent conv) (d_store d)) (lit "unknown conversation token");
  let orch := str_eqb (ar_name rec) (orchestrator cf) in
  let p := if orch then None else ar_project rec in
  owner ← map_err api_text (project_uid cf p (d_store d));
  if negb (N.eqb uid owner) then Err (lit "this token belongs to another user's conversation")
  else Ok (mkAsker conv rec orch p).
(** A call only the orchestrator may make. *)
Definition orchestrator_call (a : Asker) (orchestrator_only : bool) (method : str) : result str unit :=
  if orchestrator_only && negb (ak_orch a) then Err (method ++ lit " is for the orchestrator") else Ok tt.
Definition operator_call (uid : N) : result str unit := if negb (N.eqb uid 0) then Err (lit "operators only") else Ok tt.
