(* ===== verification/SandboxdRuns.v ===== *)
(** Runs of the sandbox daemon: its sections in every order, and what of a
    hold is sure in all of them, of the conversations no section of [gap]
    was of. *)

From stdpp Require Import gmap relations.
From S2P Require Import Prelude Json Sandbox SandboxStore Sandboxd.
From stdpp Require Import options.
#[local] Set Default Proof Using "Type*".

(** ** The system *)

(** What holds a conversation's lock between two waits. *)
Inductive Op :=
| OStarting (conv : Conversation) (texts : list str)
| OStarted (conv : Conversation) (texts : list str) (sid : option str)
| OCheck (conv : Conversation) (texts : list str)
| OFreezing (conv : Conversation) (texts : list str)
| OSending (conv : Conversation) (texts : list str)
| OTui (conv : Conversation)
| OTuiStarted (conv : Conversation)
| OTuiCheck (conv : Conversation).
Definition op_conv (o : Op) : Conversation :=
  match o with
  | OStarting c _ | OStarted c _ _ | OCheck c _ | OFreezing c _ | OSending c _ | OTui c | OTuiStarted c | OTuiCheck c => c
  end.

(** The daemon; the job the hold worker is at, with the conversations left,
    and the one it is about to thaw; the holders of the locks, by
    conversation; the deliveries that wait for one. *)
Record Sys := mkSys {
  y_d : Daemon; y_cur : option (HoldJob * list Conversation); y_thaw : option Conversation;
  y_ops : gmap str Op; y_wait : list (Conversation * str) }.
Definition with_d (y : Sys) (d : Daemon) : Sys := mkSys d (y_cur y) (y_thaw y) (y_ops y) (y_wait y).
Definition with_op (y : Sys) (c : str) (o : option Op) (d : Daemon) : Sys :=
  mkSys d (y_cur y) (y_thaw y) (match o with Some o => <[c := o]> (y_ops y) | None => delete c (y_ops y) end) (y_wait y).
Definition sys_start (d : Daemon) : Sys := mkSys d None None ∅ [].

Section runs.
Context (cf : Config).

(** One section. Four more are [gap]'s, below. *)
Inductive step : Sys -> Sys -> Prop :=
| S_hold y disk1 disk2 e call : step y (with_d y (snd (hold disk1 disk2 e call (y_d y))))
| S_next y j jobs : y_cur y = None -> d_jobs (y_d y) = j :: jobs ->
    step y (mkSys (with_jobs (y_d y) jobs) (Some (j, conversations None false (d_store (y_d y)))) None (y_ops y) (y_wait y))
| S_effect_none y j conv convs : y_cur y = Some (j, conv :: convs) -> y_thaw y = None ->
    effect (hj_applied j) conv (y_d y) = EffectNone ->
    step y (mkSys (y_d y) (Some (j, convs)) None (y_ops y) (y_wait y))
| S_effect_freeze y j conv convs ok ok' disk : y_cur y = Some (j, conv :: convs) -> y_thaw y = None ->
    effect (hj_applied j) conv (y_d y) = EffectFreeze ->
    step y (mkSys (freeze_conversation ok ok' true disk (cv_id conv) (y_d y)) (Some (j, convs)) None (y_ops y) (y_wait y))
| S_effect_thaw y j conv convs : y_cur y = Some (j, conv :: convs) -> y_thaw y = None ->
    effect (hj_applied j) conv (y_d y) = EffectThaw ->
    step y (mkSys (y_d y) (Some (j, convs)) (Some conv) (y_ops y) (y_wait y))
| S_thaw y conv ok ok' disk : y_thaw y = Some conv ->
    step y (mkSys (freeze_conversation ok ok' false disk (cv_id conv) (y_d y)) (y_cur y) None (y_ops y) (y_wait y))
| S_done y j : y_cur y = Some (j, []) -> y_thaw y = None -> step y (mkSys (y_d y) None None (y_ops y) (y_wait y))
| S_deliver y touched queued now c text r d : deliver_first cf touched queued now c text (y_d y) = (Ended r, d) -> step y (with_d y d)
| S_wait y touched queued now c text conv d : deliver_first cf touched queued now c text (y_d y) = (ToLock conv, d) ->
    step y (mkSys d (y_cur y) (y_thaw y) (y_ops y) ((conv, text) :: y_wait y))
| S_locked y disk conv text before after r d : y_wait y = before ++ (conv, text) :: after -> y_ops y !! cv_id conv = None ->
    deliver_locked cf disk conv text (y_d y) = (r, d) ->
    step y (mkSys d (y_cur y) (y_thaw y)
      (match r with
       | LockEnded _ => y_ops y
       | Pending texts => <[cv_id conv := if lv_run (live (cv_id conv) d) then OCheck conv texts else OStarting conv texts]> (y_ops y)
       end) (before ++ after))
| S_start y c conv texts sid : y_ops y !! c = Some (OStarting conv texts) ->
    step y (with_op y c (Some (OStarted conv texts sid)) (process_started c (y_d y)))
| S_no_start y c conv texts disk e : y_ops y !! c = Some (OStarting conv texts) ->
    step y (with_op y c None (snd (put_back disk c texts true (Some e) (y_d y))))
| S_record y c conv texts sid : y_ops y !! c = Some (OStarted conv texts sid) ->
    step y (with_op y c (Some (OCheck conv texts)) (snd (record_run None c sid (y_d y))))
| S_check y c conv texts : y_ops y !! c = Some (OCheck conv texts) ->
    step y (with_op y c (Some (if held (y_d y) (cv_agent conv) then OFreezing conv texts else OSending conv texts)) (y_d y))
| S_freeze y c conv texts ok ok' disk disk' : y_ops y !! c = Some (OFreezing conv texts) ->
    step y (with_op y c None (snd (put_back disk c texts false None (freeze_conversation ok ok' true disk' c (y_d y)))))
| S_send y c conv text texts : y_ops y !! c = Some (OSending conv (text :: texts)) ->
    step y (with_op y c (Some (OSending conv texts)) (send_one c text (y_d y)))
| S_not_sent y c conv texts disk e : y_ops y !! c = Some (OSending conv texts) ->
    step y (with_op y c None (snd (put_back disk c texts true (Some e) (y_d y))))
| S_sent y c conv : y_ops y !! c = Some (OSending conv []) ->
    step y (with_op y c None (set_live c (lv_with_retry false) (y_d y)))
| S_flush y c disk back taken : y_ops y !! c = None -> step y (with_d y (snd (flush_locked disk back taken c (y_d y))))
| S_turn y c disk : step y (with_d y (turn_ended disk c (y_d y)))
| S_drain y c disk : step y (with_d y (snd (on_store (drain disk c) (y_d y))))
| S_park y c disk : y_ops y !! c = None -> step y (with_d y (park disk c (y_d y)))
| S_retire y c disk : y_ops y !! c = None -> step y (with_d y (retire_run disk c (y_d y)))
| S_exit y c : step y (with_d y (process_exits c (y_d y)))
| S_pump y c disk : d_procs (y_d y) !! c = None -> step y (with_d y (pump_ends disk c (y_d y)))
| S_attach y c conv : y_ops y !! c = None -> conversation c (d_store (y_d y)) = Some conv -> cv_state conv <> ConvClosed ->
    d_tuis (y_d y) !! c = None -> hold_refusal (y_d y) (cv_agent conv) = None ->
    step y (with_op y c (Some (OTui conv)) (set_live c id (y_d y)))
| S_attach_stop y c conv : y_ops y !! c = Some (OTui conv) -> step y (with_d y (close_process c (y_d y)))
| S_tui_start y c conv : y_ops y !! c = Some (OTui conv) -> step y (with_op y c (Some (OTuiStarted conv)) (tui_started c (y_d y)))
| S_tui_fails y c conv : y_ops y !! c = Some (OTuiStarted conv) \/ y_ops y !! c = Some (OTui conv) ->
    step y (with_op y c None (stop_tui c (y_d y)))
| S_tui_record y c conv : y_ops y !! c = Some (OTuiStarted conv) ->
    step y (with_op y c (Some (OTuiCheck conv)) (snd (record_tui None c (y_d y))))
| S_tui_check y c conv ok ok' disk : y_ops y !! c = Some (OTuiCheck conv) ->
    step y (with_op y c None
      (if held (y_d y) (cv_agent conv) then freeze_conversation ok ok' true disk c (y_d y) else y_d y))
| S_tui_end y c disk : step y (with_d y (tui_ended disk c (y_d y)))
| S_close y c : y_ops y !! c = None -> step y (with_d y (close_process c (y_d y)))
| S_close_mark y c disk : y_ops y !! c = None -> (forall conv text, (conv, text) ∈ y_wait y -> cv_id conv <> c) ->
    d_procs (y_d y) !! c = None -> d_tuis (y_d y) !! c = None ->
    step y (with_d y (snd (close_mark disk c (y_d y))))
| S_new y disk ids agent runtime mode title by_ now :
    step y (with_d y (snd (on_store (new_conversation disk ids agent runtime mode title by_ now) (y_d y))))
| S_key y disk rec : step y (with_d y (snd (on_key cf disk rec (y_d y))))
| S_restart y : step y (sys_start (restart (d_store (y_d y)) (y_d y))).

(** The sections after which the process of conversation [c] may run on with
    its agent held: a process an attaching TUI shares, started without a look
    at the holds after it; a start, of the process or of a TUI, that cannot be
    recorded, so that the look after it is left out; a close that marks the
    conversation whatever started meanwhile. *)
Inductive gap (c : str) : Sys -> Sys -> Prop :=
| G_attach_run y conv r sid : y_ops y !! c = Some (OTui conv) -> runtime cf (cv_runtime conv) = Some r ->
    shares_live_process r = true -> gap c y (with_d y (snd (record_run None c sid (process_started c (y_d y)))))
| G_record_fails y conv texts sid e disk : y_ops y !! c = Some (OStarted conv texts sid) ->
    gap c y (with_op y c None (snd (put_back disk c texts true (Some (of_doc e)) (snd (record_run (Some e) c sid (y_d y))))))
| G_tui_record_fails y conv e : y_ops y !! c = Some (OTuiStarted conv) ->
    gap c y (with_op y c None (snd (record_tui (Some e) c (y_d y))))
| G_close_mark y disk : gap c y (with_d y (snd (close_mark disk c (y_d y)))).
(** All sections, [gap]'s those of the conversations of [g]. *)
Definition run_step (g : gset str) (y y' : Sys) : Prop := step y y' \/ exists c, c ∈ g /\ gap c y y'.
End runs.

(** ** What the documents keep *)

(** The conversations stay, with their agents, and none is closed. *)
Definition conv_kept (x x' : Conversation) : Prop :=
  cv_id x' = cv_id x /\ cv_agent x' = cv_agent x /\ (cv_state x <> ConvClosed -> cv_state x' <> ConvClosed).
Definition store_ok (s : Store) : Prop :=
  map_sorted (cs_conversations (st_convs s)) /\ forall c x, conversation c s = Some x -> cv_id x = c.
Definition kept (s s' : Store) : Prop :=
  (store_ok s -> store_ok s') /\
  forall c x, conversation c s = Some x -> exists x', conversation c s' = Some x' /\ conv_kept x x'.

#[export] Instance kept_preorder : PreOrder kept.
Proof.
  split; [intros s; split; [done|]; intros c x Hx; by exists x|].
  intros a b c [O1 K1] [O2 K2]. split; [auto|]. intros k x Hx. destruct (K1 _ _ Hx) as (y & Hy & E1 & E2 & E3).
  destruct (K2 _ _ Hy) as (z & Hz & F1 & F2 & F3). exists z. split; [done|]. unfold conv_kept. split_and!; [congruence..|auto].
Qed.
Lemma same_convs_kept s s' : st_convs s' = st_convs s -> kept s s'.
Proof. intros E. unfold kept, store_ok, conversation. rewrite E. split; [done|]. intros c x Hx. by exists x. Qed.

Lemma map_get_change {V} k c (f : V -> V) m : map_get k (map_change c f m) = if str_eqb k c then f <$> map_get k m else map_get k m.
Proof.
  induction m as [|[x v] m IH]; [by destruct (str_eqb k c)|]. unfold map_change in *. cbn [map map_get fst snd].
  destruct (str_eqb x c) eqn:Ex; cbn [fst snd map_get]; destruct (str_eqb k x) eqn:Ek.
  - apply str_eqb_true in Ek as ->. by rewrite Ex.
  - exact IH.
  - apply str_eqb_true in Ek as ->. by rewrite Ex.
  - exact IH.
Qed.
Lemma map_change_sorted {V} c (f : V -> V) m : map_sorted m -> map_sorted (map_change c f m).
Proof.
  induction m as [|[x v] m IH]; [done|]. unfold map_change in *. cbn [map map_sorted]. intros [Hx Hm].
  assert (Hk : keys_above x (map (fun kv => if str_eqb kv.1 c then (kv.1, f kv.2) else kv) m)).
  { unfold keys_above in *. apply Forall_map. eapply Forall_impl; [exact Hx|]. intros [k w]. cbn. by destruct (str_eqb k c). }
  cbn [fst snd]. destruct (str_eqb x c); cbn [map_sorted]; auto.
Qed.
Lemma update_kept disk c f s : (forall x, conv_kept x (f x)) -> kept s (snd (update_conversation disk c f s)).
Proof.
  intros Hf. unfold update_conversation, on_convs, update. destruct disk as [e|]; [by apply same_convs_kept|].
  cbn [snd]. assert (Hg : forall k, conversation k (with_convs s (mkConversations (map_change c f (cs_conversations (st_convs s)))
      (cs_threads (st_convs s)) (cs_next_thread_seq (st_convs s)))) = if str_eqb k c then f <$> conversation k s else conversation k s)
    by (intros; apply map_get_change).
  split.
  - intros [Hs Hk]. split; [by apply map_change_sorted|]. intros k x. rewrite Hg. destruct (str_eqb k c); [|apply Hk].
    destruct (conversation k s) as [y|] eqn:E; [|done]. intros [= <-]. destruct (Hf y) as (-> & _). by apply Hk.
  - intros k x Hx. rewrite Hg, Hx. destruct (str_eqb k c); [|by exists x]. exists (f x). split; [done|apply Hf].
Qed.
Lemma with_state_kept state x : state <> ConvClosed -> conv_kept x (conv_with_state state x).
Proof. intros Hs. unfold conv_kept. by split_and!. Qed.
Lemma running_kept sid x : conv_kept x (conv_running sid x).
Proof. unfold conv_kept. destruct sid; by split_and!. Qed.
Lemma parked_kept x : conv_kept x (parked_if_running x).
Proof. unfold parked_if_running, conv_kept. case_bool_decide; by split_and!. Qed.
Lemma inbox_kept {R} disk c (f : list str -> R * list str) s : kept s (snd (on_inbox disk c f s)).
Proof. apply same_convs_kept. unfold on_inbox. by destruct (update disk f (inbox c s)). Qed.
Lemma queue_all_kept disk c texts s : kept s (snd (queue_all disk c texts s)).
Proof. unfold queue_all. case_bool_decide; [done|apply inbox_kept]. Qed.
Lemma drain_kept disk c s : kept s (snd (drain disk c s)).
Proof. unfold drain. case_bool_decide; [done|apply inbox_kept]. Qed.
Lemma flags_kept disk f s : kept s (snd (on_flags disk f s)).
Proof. apply same_convs_kept. unfold on_flags. by destruct (update _ _ (st_flags s)). Qed.
Lemma agents_kept {R} disk (f : list (str * AgentRecord) -> R * _) s : kept s (snd (on_agents disk f s)).
Proof. apply same_convs_kept. unfold on_agents. by destruct (update _ _ (st_agents s)). Qed.
Lemma new_kept disk ids agent runtime mode title by_ now s :
  store_ok s -> kept s (snd (new_conversation disk ids agent runtime mode title by_ now s)).
Proof.
  intros Hok. unfold new_conversation, on_convs, update. destruct (find _ ids) as [id|] eqn:Ef.
  2: { destruct disk; apply same_convs_kept; [done|]. by destruct s as [? ? ? []]. }
  destruct disk as [e|]; [by apply same_convs_kept|]. cbn [snd].
  apply List.find_some in Ef as [_ Hn%negb_true_iff]. destruct Hok as [Hs Hk].
  set (conv := mkConversation id agent runtime None None Parked mode (take 200 title) by_ now now 0).
  assert (Hg : forall k, conversation k (with_convs s (mkConversations (map_insert id conv (cs_conversations (st_convs s)))
      (cs_threads (st_convs s)) (cs_next_thread_seq (st_convs s)))) = if str_eqb k id then Some conv else conversation k s)
    by (intros; by apply map_get_insert).
  split.
  - intros _. split; [by apply map_insert_sorted|]. intros k x. rewrite Hg. destruct (str_eqb k id) eqn:E; [|apply Hk].
    apply str_eqb_true in E as ->. by intros [= <-].
  - intros k x Hx. rewrite Hg. destruct (str_eqb k id) eqn:E; [|by exists x]. apply str_eqb_true in E as ->. exfalso.
    unfold map_has, conversation in *. by rewrite Hx in Hn.
Qed.

(** ** The invariant *)

Definition opened (c : str) (s : Store) : Prop := exists x, conversation c s = Some x /\ cv_state x <> ConvClosed.
Definition agent_is (c a : str) (s : Store) : Prop := exists x, conversation c s = Some x /\ cv_agent x = a.
Definition started (o : option Op) : Prop := match o with Some (OStarted _ _ _) => True | _ => False end.
Definition tui_starting (o : option Op) : Prop := match o with Some (OTuiStarted _) => True | _ => False end.
(** Who holds the lock will look at the holds, or freezes already. *)
Definition looks (o : option Op) : Prop :=
  match o with Some (OStarted _ _ _) | Some (OCheck _ _) | Some (OFreezing _ _) => True | _ => False end.
Definition looks_tui (o : option Op) : Prop := match o with Some (OTuiStarted _) | Some (OTuiCheck _) => True | _ => False end.
(** A job that freezes: queued, or with this conversation still to come. *)
Definition queued_freeze (d : Daemon) (a : str) : Prop := exists j, j ∈ d_jobs d /\ action (hj_applied j) a = Freeze.
Definition will_freeze (y : Sys) (c a : str) : Prop :=
  queued_freeze (y_d y) a \/
  exists j convs conv, y_cur y = Some (j, convs) /\ action (hj_applied j) a = Freeze /\ conv ∈ convs /\ cv_id conv = c /\ cv_agent conv = a.

(** What holds of one conversation. *)
Record conv_ok (y : Sys) (c : str) : Prop := {
  co_proc : is_Some (d_procs (y_d y) !! c) -> lv_run (live c (y_d y)) = true \/ started (y_ops y !! c);
  co_tui : is_Some (d_tuis (y_d y) !! c) -> lv_tui (live c (y_d y)) = true \/ tui_starting (y_ops y !! c);
  co_open : is_Some (d_procs (y_d y) !! c) \/ is_Some (d_tuis (y_d y) !! c) \/ is_Some (y_ops y !! c) -> opened c (d_store (y_d y));
  co_op o : y_ops y !! c = Some o -> agent_is c (cv_agent (op_conv o)) (d_store (y_d y));
  co_frozen a : d_procs (y_d y) !! c = Some false -> agent_is c a (d_store (y_d y)) -> held (y_d y) a = true ->
    looks (y_ops y !! c) \/ will_freeze y c a;
  co_frozen_tui a : d_tuis (y_d y) !! c = Some false -> agent_is c a (d_store (y_d y)) -> held (y_d y) a = true ->
    looks_tui (y_ops y !! c) \/ will_freeze y c a;
}.
Section gapped.
Context (g : gset str).
(** Of the conversations outside [g], every clause. *)
Record Inv (y : Sys) : Prop := {
  in_store : store_ok (d_store (y_d y));
  in_conv c : c ∉ g -> conv_ok y c;
  in_wait conv text : (conv, text) ∈ y_wait y ->
    (cv_id conv ∉ g -> opened (cv_id conv) (d_store (y_d y))) /\ agent_is (cv_id conv) (cv_agent conv) (d_store (y_d y));
  in_cur j convs conv : y_cur y = Some (j, convs) -> conv ∈ convs -> agent_is (cv_id conv) (cv_agent conv) (d_store (y_d y));
  in_thaw conv : y_thaw y = Some conv -> agent_is (cv_id conv) (cv_agent conv) (d_store (y_d y))
    /\ (held (y_d y) (cv_agent conv) = true -> queued_freeze (y_d y) (cv_agent conv));
}.

Lemma opened_kept c s s' : kept s s' -> opened c s -> opened c s'.
Proof. intros [_ K] (x & Hx & Ho). destruct (K _ _ Hx) as (x' & ? & _ & _ & H). exists x'. auto. Qed.
Lemma agent_is_kept c a s s' : kept s s' -> agent_is c a s -> agent_is c a s'.
Proof. intros [_ K] (x & Hx & Ho). destruct (K _ _ Hx) as (x' & ? & _ & E & _). exists x'. split; [done|congruence]. Qed.
Lemma agent_is_back c a a' s s' : kept s s' -> agent_is c a s -> agent_is c a' s' -> a' = a.
Proof.
  intros K Ha (x & Hx & Ex). destruct (agent_is_kept _ _ _ _ K Ha) as (z & Hz & Ez). congruence.
Qed.

Lemma agent_is_opened c a s s' : kept s s' -> opened c s -> agent_is c a s' -> agent_is c a s.
Proof.
  intros K (x & Hx & _) Ha. assert (Hxa : agent_is c (cv_agent x) s) by by exists x. by rewrite (agent_is_back _ _ _ _ _ K Hxa Ha).
Qed.

(** A change of one conversation at most. *)
Record local (c : str) (d d' : Daemon) : Prop := {
  lo_holds : d_holds d' = d_holds d;
  lo_jobs : d_jobs d' = d_jobs d;
  lo_store : kept (d_store d) (d_store d');
  lo_other k : k <> c -> d_procs d' !! k = d_procs d !! k /\ d_tuis d' !! k = d_tuis d !! k
    /\ lv_run (live k d') = lv_run (live k d) /\ lv_tui (live k d') = lv_tui (live k d);
}.
(** A change of none. *)
Record calm (d d' : Daemon) : Prop := {
  ca_local c : local c d d';
  ca_procs : d_procs d' = d_procs d;
  ca_tuis : d_tuis d' = d_tuis d;
  ca_live c : lv_run (live c d') = lv_run (live c d) /\ lv_tui (live c d') = lv_tui (live c d);
}.
#[export] Instance local_preorder c : PreOrder (local c).
Proof.
  split; [intros d; by split; [..|intros k _; split_and!]|].
  intros x y z [H1 J1 K1 O1] [H2 J2 K2 O2]. split; [congruence..|by transitivity (d_store y)|].
  intros k Hk. destruct (O1 k Hk) as (? & ? & ? & ?), (O2 k Hk) as (? & ? & ? & ?). split_and!; congruence.
Qed.
#[export] Instance calm_preorder : PreOrder calm.
Proof.
  split; [intros d; split; [intros; reflexivity|done|done|by split]|].
  intros x y z [L1 P1 T1 V1] [L2 P2 T2 V2]. split; [intros c; by transitivity y|congruence..|].
  intros c. destruct (V1 c), (V2 c). split; congruence.
Qed.
Lemma live_set k c f d : live k (set_live c f d) = if decide (k = c) then f (live c d) else live k d.
Proof.
  unfold live, set_live. cbn. destruct (decide (k = c)) as [->|]; [by rewrite lookup_insert_eq|by rewrite lookup_insert_ne].
Qed.
Lemma set_live_local c f d : local c d (set_live c f d).
Proof. split; [done..|]. intros k Hk. rewrite live_set, decide_False by done. done. Qed.
Lemma set_live_calm c f d :
  lv_run (f (live c d)) = lv_run (live c d) -> lv_tui (f (live c d)) = lv_tui (live c d) -> calm d (set_live c f d).
Proof.
  intros Hr Ht. assert (Hl : forall k, lv_run (live k (set_live c f d)) = lv_run (live k d)
      /\ lv_tui (live k (set_live c f d)) = lv_tui (live k d)).
  { intros k. rewrite live_set. destruct (decide (k = c)) as [->|]; done. }
  split; [|done|done|done]. intros k. split; [done..|]. intros k' _. split_and!; [done|done|apply Hl|apply Hl].
Qed.
Lemma on_store_calm {R} (f : Store -> result DocError R * Store) d :
  kept (d_store d) (snd (f (d_store d))) -> calm d (snd (on_store f d)).
Proof.
  unfold on_store. intros K. destruct (f (d_store d)) as [r s]. cbn in *.
  split; [|done|done|done]. intros c. split; [done|done|done|done].
Qed.
Lemma ignore_calm {R} (f : Store -> result DocError R * Store) d :
  kept (d_store d) (snd (f (d_store d))) -> calm d (ignore_store f d).
Proof. apply on_store_calm. Qed.
Lemma calm_local c d d' : calm d d' -> local c d d'.
Proof. intros []. auto. Qed.
Lemma live_kept_procs c d p : lv_run (live c (with_procs d p)) = lv_run (live c d).
Proof. done. Qed.

(** ** Steps of one conversation *)

Lemma will_freeze_ext y y' c a : d_jobs (y_d y') = d_jobs (y_d y) -> y_cur y' = y_cur y -> will_freeze y c a -> will_freeze y' c a.
Proof. unfold will_freeze, queued_freeze. intros -> ->. done. Qed.

(** The clauses of a conversation that does not change. *)
Lemma conv_ok_same y y' k : conv_ok y k -> kept (d_store (y_d y)) (d_store (y_d y')) -> d_holds (y_d y') = d_holds (y_d y) ->
  d_procs (y_d y') !! k = d_procs (y_d y) !! k -> d_tuis (y_d y') !! k = d_tuis (y_d y) !! k ->
  lv_run (live k (y_d y')) = lv_run (live k (y_d y)) -> lv_tui (live k (y_d y')) = lv_tui (live k (y_d y)) ->
  y_ops y' !! k = y_ops y !! k -> (forall a, will_freeze y k a -> will_freeze y' k a) -> conv_ok y' k.
Proof.
  intros [] K Hh Ep Et Er Ev Eo Hw. split; rewrite ?Ep, ?Et, ?Er, ?Ev, ?Eo.
  - exact co_proc0.
  - exact co_tui0.
  - intros Hs. eapply opened_kept; [exact K|auto].
  - intros o Hop. eapply agent_is_kept; [exact K|auto].
  - unfold held. rewrite Hh. intros a Hf Ha Hl. apply (agent_is_opened _ _ _ _ K) in Ha; [|apply co_open0; left; by rewrite Hf].
    destruct (co_frozen0 a Hf Ha Hl); auto.
  - unfold held. rewrite Hh. intros a Hf Ha Hl. apply (agent_is_opened _ _ _ _ K) in Ha; [|apply co_open0; right; left; by rewrite Hf].
    destruct (co_frozen_tui0 a Hf Ha Hl); auto.
Qed.
Lemma Inv_local_gen y y' c : Inv y -> local c (y_d y) (y_d y') ->
  (forall j convs conv, y_cur y' = Some (j, convs) -> conv ∈ convs -> exists more, y_cur y = Some (j, more) /\ conv ∈ more) ->
  (forall k a, k <> c -> will_freeze y k a -> will_freeze y' k a) ->
  (y_thaw y' = y_thaw y \/ y_thaw y' = None) -> (forall k, k <> c -> y_ops y' !! k = y_ops y !! k) ->
  (forall w, w ∈ y_wait y' -> w ∈ y_wait y) -> (c ∉ g -> conv_ok y' c) -> Inv y'.
Proof.
  intros I [Hh Hj K Ho] Hcur Hwf Hthaw Hops Hwait Hc. split.
  - apply K, I.
  - intros k Hkg. destruct (decide (k = c)) as [->|Hk]; [by apply Hc|]. destruct (Ho k Hk) as (Ep & Et & Er & Ev).
    apply conv_ok_same with (y := y); auto. by apply I.
  - intros conv text [Ho' Ha]%Hwait%(in_wait _ I). split; [intros; eapply opened_kept; eauto|by eapply agent_is_kept].
  - intros j convs conv H1 H2. destruct (Hcur _ _ _ H1 H2) as (more & H3 & H4). eapply agent_is_kept; [exact K|]. by eapply (in_cur _ I).
  - intros conv Ht. destruct Hthaw as [E|E]; rewrite E in Ht; [|done]. destruct (in_thaw _ I _ Ht) as [Ha Hq].
    split; [by eapply agent_is_kept|]. unfold held, queued_freeze in *. rewrite Hh, Hj. done.
Qed.
Lemma Inv_local y y' c : Inv y -> local c (y_d y) (y_d y') -> y_cur y' = y_cur y ->
  (y_thaw y' = y_thaw y \/ y_thaw y' = None) -> (forall k, k <> c -> y_ops y' !! k = y_ops y !! k) ->
  (forall w, w ∈ y_wait y' -> w ∈ y_wait y) -> (c ∉ g -> conv_ok y' c) -> Inv y'.
Proof.
  intros I L Hcur Ht Hops Hw Hc. apply Inv_local_gen with (y := y) (c := c); try done.
  - rewrite Hcur. eauto.
  - intros k a _. apply will_freeze_ext; [apply L|done].
Qed.

(** A calm change, with another holder of one lock. *)
Lemma Inv_op y c o d' wait' : Inv y -> calm (y_d y) d' ->
  (forall w, w ∈ wait' -> w ∈ y_wait y) ->
  (c ∉ g -> started (y_ops y !! c) -> started o \/ lv_run (live c (y_d y)) = true) ->
  (c ∉ g -> tui_starting (y_ops y !! c) -> tui_starting o \/ lv_tui (live c (y_d y)) = true) ->
  (c ∉ g -> looks (y_ops y !! c) -> looks o \/ forall a, agent_is c a (d_store (y_d y)) -> held (y_d y) a = false) ->
  (c ∉ g -> looks_tui (y_ops y !! c) -> looks_tui o \/ forall a, agent_is c a (d_store (y_d y)) -> held (y_d y) a = false) ->
  (c ∉ g -> is_Some o -> opened c (d_store (y_d y))) ->
  (forall p, c ∉ g -> o = Some p -> agent_is c (cv_agent (op_conv p)) (d_store (y_d y))) ->
  Inv (mkSys d' (y_cur y) (y_thaw y) (match o with Some p => <[c := p]> (y_ops y) | None => delete c (y_ops y) end) wait').
Proof.
  intros I [L Ep Et V] Hw P1 P2 P3 P4 P5 P6. destruct (V c) as [Er Ev], (L c) as [Hh Hj K _].
  assert (Eo : (match o with Some p => <[c := p]> (y_ops y) | None => delete c (y_ops y) end) !! c = o)
    by (destruct o; [apply lookup_insert_eq|apply lookup_delete_eq]).
  apply Inv_local with (y := y) (c := c); [done|apply L|done|by left| |done|].
  { intros k Hk. cbn. destruct o; [by rewrite lookup_insert_ne|by rewrite lookup_delete_ne]. }
  intros Hg. specialize (P1 Hg). specialize (P2 Hg). specialize (P3 Hg). specialize (P4 Hg). specialize (P5 Hg).
  assert (P6' := fun p => P6 p Hg). clear P6. destruct (in_conv _ I c Hg).
  assert (Hop : is_Some (d_procs d' !! c) \/ is_Some (d_tuis d' !! c) \/ is_Some o -> opened c (d_store (y_d y))).
  { rewrite Ep, Et. intros [?|[?|?]]; [apply co_open0; auto..|auto]. }
  split; cbn [y_d y_ops]; rewrite ?Eo, ?Ep, ?Et, ?Er, ?Ev.
  - intros [?|?]%co_proc0; [by left|]. destruct P1; auto.
  - intros [?|?]%co_tui0; [by left|]. destruct P2; auto.
  - intros ?. eapply opened_kept; [exact K|]. apply Hop. by rewrite Ep, Et.
  - intros p Hp. eapply agent_is_kept; [exact K|auto].
  - unfold held. rewrite Hh. intros a Hf Ha Hl. apply (agent_is_opened _ _ _ _ K) in Ha; [|apply Hop; left; by rewrite Ep, Hf].
    destruct (co_frozen0 a Hf Ha Hl) as [?|?]; [|right; by eapply will_freeze_ext].
    destruct P3 as [?|Hno]; [done|by left|]. unfold held in Hno. by rewrite Hno in Hl.
  - unfold held. rewrite Hh. intros a Hf Ha Hl. apply (agent_is_opened _ _ _ _ K) in Ha; [|apply Hop; right; left; by rewrite Et, Hf].
    destruct (co_frozen_tui0 a Hf Ha Hl) as [?|?]; [|right; by eapply will_freeze_ext].
    destruct P4 as [?|Hno]; [done|by left|]. unfold held in Hno. by rewrite Hno in Hl.
Qed.
Lemma Inv_calm y d' : Inv y -> calm (y_d y) d' -> Inv (with_d y d').
Proof.
  intros I C. apply Inv_local with (y := y) (c := []); [done|apply C|done|by left|done|done|].
  destruct C as [L Ep Et V], (V []) as [Er Ev], (L []) as [Hh Hj K _]. intros Hg.
  apply conv_ok_same with (y := y); [by apply I|done|done|cbn; by rewrite ?Ep, ?Et..|done|done|done|].
  intros a. by apply will_freeze_ext.
Qed.

(** ** Freezing *)

Lemma freeze_unit_spec ok fr c u b u' : freeze_unit ok fr c u = (b, u') ->
  (forall k, k <> c -> u' !! k = u !! k) /\ (is_Some (u' !! c) -> is_Some (u !! c)) /\
  (fr = true -> u' !! c <> Some false) /\ (fr = true -> b = false -> u' !! c = None).
Proof.
  unfold freeze_unit. destruct (u !! c) as [x|] eqn:E; [|intros [= <- <-]; rewrite E; naive_solver].
  destruct ok; [intros [= <- <-]; rewrite lookup_insert_eq; split; [intros; by rewrite lookup_insert_ne|naive_solver]|].
  destruct fr; intros [= <- <-]; [|rewrite E; naive_solver].
  rewrite lookup_delete_eq. split; [intros; by rewrite lookup_delete_ne|naive_solver].
Qed.

(** What freezing or thawing does to one half of a conversation: the other
    conversations stay, what runs ran, and a recorded one ends frozen or
    stopped. *)
Lemma freeze_process_spec ok fr disk c d d' : freeze_process ok fr disk c d = d' ->
  local c d d' /\ d_tuis d' = d_tuis d /\ lv_tui (live c d') = lv_tui (live c d) /\
  (is_Some (d_procs d' !! c) -> is_Some (d_procs d !! c) /\ lv_run (live c d') = lv_run (live c d)) /\
  (fr = true -> lv_run (live c d) = true -> d_procs d' !! c <> Some false) /\
  (lv_run (live c d) = false -> d' = d).
Proof.
  unfold freeze_process. intros <-. destruct (d_live d !! c) as [l|] eqn:El.
  2: { assert (Hr : lv_run (live c d) = false) by (unfold live; by rewrite El). rewrite Hr. by split_and!. }
  assert (Hl : live c d = l) by (unfold live; by rewrite El). rewrite Hl.
  destruct (lv_run l) eqn:Er; [|split_and!; rewrite ?Hl; try done; auto].
  destruct (freeze_unit ok fr c (d_procs d)) as [b u] eqn:Eu. apply freeze_unit_spec in Eu as (Ho & Hs & Hf & Hb).
  assert (L1 : local c d (with_procs d u)) by (split; [done..|]; intros k Hk; cbn; rewrite (Ho k Hk); by split_and!).
  destruct (negb b && fr) eqn:Eb.
  - apply andb_true_iff in Eb as [->%negb_true_iff ->].
    set (d1 := set_live c (lv_with_run false false) (with_procs d u)).
    assert (C : calm d1 (ignore_store (update_conversation disk c parked_if_running) d1)).
    { apply ignore_calm, update_kept, parked_kept. }
    destruct C as [L Ep Et V]. rewrite Ep, Et. destruct (V c) as [-> ->].
    assert (Hlive : live c d1 = lv_with_run false false l) by (unfold d1; rewrite live_set, decide_True by done; unfold live; cbn; by rewrite El).
    rewrite Hlive. cbn. rewrite Hb by done. split_and!; try done.
    transitivity (with_procs d u); [done|]. transitivity d1; [apply set_live_local|apply L].
  - assert (Hv : live c (with_procs d u) = l) by exact Hl. rewrite Hv, Er. split_and!; try done; auto.
Qed.
Lemma freeze_tui_spec ok fr c d d' : freeze_tui ok fr c d = d' ->
  local c d d' /\ d_procs d' = d_procs d /\ lv_run (live c d') = lv_run (live c d) /\
  (is_Some (d_tuis d' !! c) -> is_Some (d_tuis d !! c) /\ lv_tui (live c d') = lv_tui (live c d)) /\
  (fr = true -> lv_tui (live c d) = true -> d_tuis d' !! c <> Some false) /\
  (lv_tui (live c d) = false -> d' = d).
Proof.
  unfold freeze_tui. intros <-. destruct (d_live d !! c) as [l|] eqn:El.
  2: { assert (Hr : lv_tui (live c d) = false) by (unfold live; by rewrite El). rewrite Hr. by split_and!. }
  assert (Hl : live c d = l) by (unfold live; by rewrite El). rewrite Hl.
  destruct (lv_tui l) eqn:Er; [|split_and!; rewrite ?Hl; try done; auto].
  destruct (freeze_unit ok fr c (d_tuis d)) as [b u] eqn:Eu. apply freeze_unit_spec in Eu as (Ho & Hs & Hf & Hb).
  assert (L1 : local c d (with_tuis d u)) by (split; [done..|]; intros k Hk; cbn; rewrite (Ho k Hk); by split_and!).
  destruct (negb b && fr) eqn:Eb.
  - apply andb_true_iff in Eb as [->%negb_true_iff ->]. cbn [d_tuis with_tuis].
    set (d1 := with_tuis (with_tuis d u) (delete c u)).
    assert (Hlive : live c (set_live c (lv_with_tui false) d1) = lv_with_tui false l)
      by (rewrite live_set, decide_True by done; unfold live; cbn; by rewrite El).
    rewrite Hlive. cbn. rewrite lookup_delete_eq. split_and!; try done.
    transitivity (with_tuis d u); [done|]. transitivity d1; [|apply set_live_local].
    split; [done..|]. intros k Hk. cbn. by rewrite lookup_delete_ne.
  - assert (Hv : live c (with_tuis d u) = l) by exact Hl. rewrite Hv, Er. split_and!; try done; auto.
Qed.
Lemma freeze_spec ok ok' fr disk c d d' : freeze_conversation ok ok' fr disk c d = d' ->
  local c d d' /\
  (is_Some (d_procs d' !! c) -> is_Some (d_procs d !! c) /\ lv_run (live c d') = lv_run (live c d)) /\
  (is_Some (d_tuis d' !! c) -> is_Some (d_tuis d !! c) /\ lv_tui (live c d') = lv_tui (live c d)) /\
  (fr = true -> lv_run (live c d) = true -> d_procs d' !! c <> Some false) /\
  (fr = true -> lv_tui (live c d) = true -> d_tuis d' !! c <> Some false) /\
  (lv_run (live c d) = false -> d_procs d' !! c = d_procs d !! c) /\
  (lv_tui (live c d) = false -> d_tuis d' !! c = d_tuis d !! c).
Proof.
  unfold freeze_conversation. intros <-. set (d1 := freeze_process ok fr disk c d).
  destruct (freeze_process_spec ok fr disk c d d1 eq_refl) as (L1 & T1 & V1 & S1 & F1 & N1).
  destruct (freeze_tui_spec ok' fr c d1 _ eq_refl) as (L2 & P2 & R2 & S2 & F2 & N2).
  rewrite P2, R2, <- T1, <- V1. split_and!; try done.
  - by transitivity d1.
  - intros Hr. by rewrite (N1 Hr).
  - intros Hv. by rewrite (N2 Hv).
Qed.

(** ** Calm sections *)

Lemma ignore_update_calm disk c f d : (forall x, conv_kept x (f x)) -> calm d (ignore_store (update_conversation disk c f) d).
Proof. intros Hf. by apply ignore_calm, update_kept. Qed.
Lemma queue_calm disk c text d : calm d (snd (on_store (queue disk c text) d)).
Proof. apply on_store_calm, inbox_kept. Qed.
Lemma drain_calm disk c d : calm d (snd (on_store (drain disk c) d)).
Proof. apply on_store_calm, drain_kept. Qed.
Lemma put_back_calm disk c texts retry r d : calm d (snd (put_back disk c texts retry r d)).
Proof.
  unfold put_back. pose proof (on_store_calm (queue_all disk c texts) d (queue_all_kept _ _ _ _)) as C.
  destruct (on_store _ d) as [[u|e] d1]; cbn in *; [|done]. destruct retry; [|done].
  transitivity d1; [done|]. by apply set_live_calm.
Qed.
Lemma queue_or_calm disk c text r d : calm d (snd (queue_or disk c text r d)) /\ exists x, fst (queue_or disk c text r d) = Ended x.
Proof.
  unfold queue_or. pose proof (queue_calm disk c text d) as C. destruct (on_store _ d) as [[u|e] d1]; cbn in *; eauto.
Qed.
Lemma send_one_calm c text d : calm d (send_one c text d).
Proof. unfold send_one. transitivity (with_sent d (d_sent d ++ [(c, text)])); [by split|]. by apply set_live_calm. Qed.
Lemma deliver_first_calm cf touched queued now c text d r d' : deliver_first cf touched queued now c text d = (r, d') ->
  calm d d' /\ forall conv, r = ToLock conv -> conversation c (d_store d) = Some conv /\ cv_state conv <> ConvClosed.
Proof.
  unfold deliver_first. destruct (conversation c (d_store d)) as [conv|]; [|intros [= <- <-]; split; [reflexivity|done]].
  case_bool_decide as Hc; [intros [= <- <-]; split; [reflexivity|done]|].
  destruct (inbox_room _ _ _); cbn [negb]; [|intros [= <- <-]; split; [reflexivity|done]].
  assert (C : calm d (snd (on_store (touch touched c now) (set_live c id d)))).
  { transitivity (set_live c id d); [by apply set_live_calm|]. by apply on_store_calm, update_kept. }
  destruct (on_store (touch touched c now) _) as [[u|e] d1]; cbn in C; [|intros [= <- <-]; by split].
  assert (Q : forall x, calm d (snd (queue_or queued c text x d1)) /\ exists y, fst (queue_or queued c text x d1) = Ended y).
  { intros x. destruct (queue_or_calm queued c text x d1). split; [by transitivity d1|done]. }
  assert (Q' : forall x, queue_or queued c text x d1 = (r, d') -> calm d d' /\
    forall conv', r = ToLock conv' -> Some conv = Some conv' /\ cv_state conv' <> ConvClosed).
  { intros x E. destruct (Q x) as [H1 [y H2]]. rewrite E in H1, H2. cbn in *. subst. by split. }
  destruct (held d1 _); [apply Q'|]. destruct (runtime cf _); [|apply Q'].
  destruct (_ && _); [apply Q'|]. intros [= <- <-]. split; [done|]. by intros ? [= <-].
Qed.
Lemma deliver_locked_calm cf disk conv text d r d' : deliver_locked cf disk conv text d = (r, d') -> calm d d'.
Proof.
  unfold deliver_locked. pose proof (queue_calm disk (cv_id conv) text d) as Q. pose proof (drain_calm disk (cv_id conv) d) as D.
  destruct (on_store (queue _ _ _) d) as [[?|?] ?], (on_store (drain _ _) d) as [[?|?] ?], (_ && _ && _); by intros [= <- <-].
Qed.
Lemma flush_calm disk back taken c d : calm d (snd (flush_locked disk back taken c d)).
Proof.
  unfold flush_locked. destruct (negb _); [reflexivity|]. pose proof (drain_calm disk c d) as D.
  destruct (on_store _ d) as [[q|e] d1]; cbn in *; [|done]. case_bool_decide; [done|].
  destruct taken; cbn; [transitivity d1; [done|apply send_one_calm]|].
  transitivity d1; [done|]. apply ignore_calm, queue_all_kept.
Qed.
Lemma turn_ended_calm disk c d : calm d (turn_ended disk c d).
Proof.
  unfold turn_ended. transitivity (set_live c (fun l => lv_with_run (lv_run l) false l) d); [by apply set_live_calm|].
  by apply ignore_update_calm.
Qed.
Lemma on_key_calm cf disk rec d : calm d (snd (on_key cf disk rec d)).
Proof.
  unfold on_key. destruct (negb _); [reflexivity|].
  set (rec' := if str_eqb _ _ then _ else _). pose proof (on_store_calm (put_agent disk rec') d (agents_kept _ _ _)) as C.
  destruct (match agent _ _ with Some _ => _ | None => _ end); [reflexivity|]. by destruct (on_store _ d) as [[?|?] ?].
Qed.

(** ** Sections of one conversation *)

Lemma ops_other y c o d k : k <> c -> y_ops (with_op y c o d) !! k = y_ops y !! k.
Proof. intros Hk. destruct o; cbn; [by rewrite lookup_insert_ne|by rewrite lookup_delete_ne]. Qed.
Lemma ops_same y c o d : y_ops (with_op y c o d) !! c = o.
Proof. destruct o; cbn; [by rewrite lookup_insert_eq|by rewrite lookup_delete_eq]. Qed.
(** A section that changes one conversation, and may hand its lock on. *)
Lemma Inv_with_op y c o d' : Inv y -> local c (y_d y) d' -> (c ∉ g -> conv_ok (with_op y c o d') c) -> Inv (with_op y c o d').
Proof.
  intros I L Hc. apply Inv_local with (y := y) (c := c); [done|done|done|by left| |done|done].
  intros k Hk. by apply ops_other.
Qed.
Lemma Inv_with_d y c d' : Inv y -> local c (y_d y) d' -> (c ∉ g -> conv_ok (with_d y d') c) -> Inv (with_d y d').
Proof. intros I L Hc. by apply Inv_local with (y := y) (c := c); [..|left| | |]. Qed.
(** What runs can only have become less, and what runs unfrozen was so. *)
Lemma conv_ok_less y y' c : conv_ok y c -> kept (d_store (y_d y)) (d_store (y_d y')) -> d_holds (y_d y') = d_holds (y_d y) ->
  (is_Some (d_procs (y_d y') !! c) -> is_Some (d_procs (y_d y) !! c) /\
     (lv_run (live c (y_d y')) = lv_run (live c (y_d y)) \/ lv_run (live c (y_d y')) = true)) ->
  (is_Some (d_tuis (y_d y') !! c) -> is_Some (d_tuis (y_d y) !! c) /\
     (lv_tui (live c (y_d y')) = lv_tui (live c (y_d y)) \/ lv_tui (live c (y_d y')) = true)) ->
  (d_procs (y_d y') !! c = Some false -> d_procs (y_d y) !! c = Some false) ->
  (d_tuis (y_d y') !! c = Some false -> d_tuis (y_d y) !! c = Some false) ->
  y_ops y' !! c = y_ops y !! c -> (forall a, will_freeze y c a -> will_freeze y' c a) -> conv_ok y' c.
Proof.
  intros [] K Hh Hp Ht Fp Ft Eo Hw. split; rewrite ?Eo.
  - intros Hs. destruct (Hp Hs) as [Hs' [->| ->]]; [auto|by left].
  - intros Hs. destruct (Ht Hs) as [Hs' [->| ->]]; [auto|by left].
  - intros Hs. eapply opened_kept; [exact K|]. apply co_open0. destruct Hs as [Hs|[Hs|?]]; [left; by apply Hp|right; left; by apply Ht|auto].
  - intros o Hop. eapply agent_is_kept; [exact K|auto].
  - unfold held. rewrite Hh. intros a Hf%Fp Ha Hl. apply (agent_is_opened _ _ _ _ K) in Ha; [|apply co_open0; left; by rewrite Hf].
    destruct (co_frozen0 a Hf Ha Hl); auto.
  - unfold held. rewrite Hh. intros a Hf%Ft Ha Hl. apply (agent_is_opened _ _ _ _ K) in Ha; [|apply co_open0; right; left; by rewrite Hf].
    destruct (co_frozen_tui0 a Hf Ha Hl); auto.
Qed.
Lemma agent_held y c a b : agent_is c a (d_store (y_d y)) -> agent_is c b (d_store (y_d y)) -> a = b.
Proof. intros (x & Hx & <-) (z & Hz & <-). congruence. Qed.

(** ** The worker and the holds *)

Lemma action_freeze h e a : holds_held h a = false -> holds_held (ap_after (apply h e)) a = true -> action (apply h e) a = Freeze.
Proof. intros Hb Ha. pose proof (action_held h e a) as E. rewrite Hb, Ha in E. by destruct (action _ _). Qed.
Lemma elem_of_newest_first c l : c ∈ newest_first l <-> c ∈ l.
Proof.
  assert (Hi : forall x l, c ∈ insert_newest x l <-> c = x \/ c ∈ l).
  { intros x k. induction k as [|y k IH]; cbn; [by rewrite list_elem_of_singleton, elem_of_nil; tauto|].
    destruct (Z.leb _ _); rewrite !elem_of_cons; [done|]. rewrite IH. tauto. }
  induction l as [|x l IH]; cbn; [done|]. by rewrite Hi, IH, elem_of_cons.
Qed.
Lemma elem_of_conversations s conv : store_ok s ->
  conv ∈ conversations None false s <-> conversation (cv_id conv) s = Some conv /\ cv_state conv <> ConvClosed.
Proof.
  intros [Hs Hk]. unfold conversations. rewrite elem_of_newest_first, list_elem_of_In, filter_In, <- list_elem_of_In. cbn.
  rewrite negb_true_iff, bool_decide_eq_false, list_elem_of_fmap. split.
  - intros [([c x] & -> & Hx) Hc]. cbn in *. split; [|done]. assert (conversation c s = Some x) as E by by apply map_get_sorted.
    by rewrite (Hk _ _ E).
  - intros [E Hc]. split; [|done]. exists (cv_id conv, conv). split; [done|]. by apply map_get_elem.
Qed.

Lemma Inv_hold y disk1 disk2 e call : Inv y -> Inv (with_d y (snd (hold disk1 disk2 e call (y_d y)))).
Proof.
  intros I. set (d := y_d y). set (ap := apply (d_holds d) e).
  assert (Happlied : forall s', kept (d_store d) s' ->
    Inv (with_d y (with_jobs (with_holds (with_store d s') (ap_after ap)) (d_jobs d ++ [mkHoldJob ap call])))).
  { intros s' K. set (d' := with_jobs _ _).
    assert (Hq : forall a, (queued_freeze d a \/ (holds_held (d_holds d) a = false /\ held d' a = true)) -> queued_freeze d' a).
    { intros a [(j & Hj & Hf)|[Hb Ha]]; [exists j|exists (mkHoldJob ap call)]; (split; [apply elem_of_app|]).
      - by left. - done. - right. by left. - by apply action_freeze. }
    assert (Hw : forall c a, held d' a = true -> (held d a = true -> will_freeze y c a) -> will_freeze (with_d y d') c a).
    { intros c a Ha Hold. destruct (held d a) eqn:Eh; [|left; apply Hq; by right].
      destruct (Hold eq_refl) as [?|?]; [left; apply Hq; by left|by right]. }
    split.
    - by apply K, I.
    - intros c Hg. destruct (in_conv _ I c Hg). split; [done|done| | | |].
      + intros Hs. eapply opened_kept; [exact K|auto].
      + intros o Ho. eapply agent_is_kept; [exact K|auto].
      + intros a Hf Ha Hh. apply (agent_is_opened _ _ _ _ K) in Ha; [|apply co_open0; left; by eexists].
        destruct (held (y_d y) a) eqn:Eh; [destruct (co_frozen0 a Hf Ha Eh) as [?|?]; [by left|]|];
          right; (apply Hw; [done|]); unfold d; congruence || done.
      + intros a Hf Ha Hh. apply (agent_is_opened _ _ _ _ K) in Ha; [|apply co_open0; right; left; by eexists].
        destruct (held (y_d y) a) eqn:Eh; [destruct (co_frozen_tui0 a Hf Ha Eh) as [?|?]; [by left|]|];
          right; (apply Hw; [done|]); unfold d; congruence || done.
    - intros conv text [Ho Ha]%(in_wait _ I). split; [intros; eapply opened_kept; eauto|by eapply agent_is_kept].
    - intros j convs conv H1 H2. eapply agent_is_kept; [exact K|]. by eapply (in_cur _ I).
    - intros conv [Ha Hf]%(in_thaw _ I). split; [by eapply agent_is_kept|]. intros Hh. apply Hq.
      destruct (held d (cv_agent conv)) eqn:Eh; [left; by apply Hf|by right]. }
  unfold hold. fold d ap.
  pose proof (flags_kept disk1 (fun f => mkFlags (h_locked (ap_after ap)) (fl_contained f) (fl_codex_auth_digest f)) (d_store d)) as K1.
  fold (set_locked disk1 (h_locked (ap_after ap))) in K1. destruct (set_locked disk1 _ (d_store d)) as [r1 s1]. cbn in K1.
  assert (K2 : kept (d_store d) (snd (set_contained disk2 (h_contained (ap_after ap)) s1)))
    by (transitivity s1; [done|apply flags_kept]).
  assert (Hcalm : forall s', kept (d_store d) s' -> calm d (with_store d s')) by (intros s' K; by split).
  destruct r1 as [u|err]; [destruct (set_contained disk2 _ s1) as [[u'|err] s2]|]; cbn [snd] in K2.
  - by apply Happlied.
  - destruct (_ && _); [apply Inv_calm; [done|by apply Hcalm]|by apply Happlied].
  - destruct (_ && _); [apply Inv_calm; [done|by apply Hcalm]|by apply Happlied].
Qed.

Lemma Inv_next y j jobs : Inv y -> y_cur y = None -> d_jobs (y_d y) = j :: jobs ->
  Inv (mkSys (with_jobs (y_d y) jobs) (Some (j, conversations None false (d_store (y_d y)))) None (y_ops y) (y_wait y)).
Proof.
  intros I Hcur Hj. pose proof (in_store _ I) as Hok. split; [done| |apply I| |done].
  - intros c Hg. assert (Hw : forall a, opened c (d_store (y_d y)) -> agent_is c a (d_store (y_d y)) -> will_freeze y c a ->
      will_freeze (mkSys (with_jobs (y_d y) jobs) (Some (j, conversations None false (d_store (y_d y)))) None (y_ops y) (y_wait y)) c a).
    { intros a (x & Hx & Ho) (x' & Hx' & Ha) [(j' & Hin & Hf)|(j' & convs & conv & E & _)]; [|congruence].
      rewrite Hj in Hin. apply elem_of_cons in Hin as [->|?]; [|left; by exists j'].
      right. exists j, (conversations None false (d_store (y_d y))), x. simplify_eq. pose proof (proj2 Hok _ _ Hx) as Hid.
      split_and!; [done|done| |done|done]. apply elem_of_conversations; [done|]. by rewrite Hid. }
    destruct (in_conv _ I c Hg). split; [done..| |].
    + intros a Hf Ha Hh. assert (Hop : opened c (d_store (y_d y))) by (apply co_open0; left; by eexists).
      destruct (co_frozen0 a Hf Ha Hh); [by left|right; auto].
    + intros a Hf Ha Hh. assert (Hop : opened c (d_store (y_d y))) by (apply co_open0; right; left; by eexists).
      destruct (co_frozen_tui0 a Hf Ha Hh); [by left|right; auto].
  - intros j' convs conv [= <- <-] Hin. apply elem_of_conversations in Hin as [Hx _]; [|done]. by exists conv.
Qed.

(** The job goes on to the next conversation. *)
Lemma will_freeze_rest y y' j conv convs c a : y_cur y = Some (j, conv :: convs) -> y_cur y' = Some (j, convs) ->
  d_jobs (y_d y') = d_jobs (y_d y) -> (cv_id conv <> c \/ action (hj_applied j) (cv_agent conv) <> Freeze) ->
  will_freeze y c a -> will_freeze y' c a.
Proof.
  intros E E' Ej Hne [Hq|(j' & cs & cv & Hc & Hf & Hin & Hid & Ha)].
  - left. unfold queued_freeze in *. by rewrite Ej.
  - right. rewrite E in Hc. simplify_eq. exists j', convs, cv. apply elem_of_cons in Hin as [->|Hin]; [|by split_and!].
    destruct Hne; done.
Qed.
Lemma effect_not_freeze a conv d : effect a conv d <> EffectFreeze -> action a (cv_agent conv) <> Freeze.
Proof. unfold effect. intros H1 H2. by rewrite H2 in H1. Qed.
Lemma Inv_skip y j conv convs thaw : Inv y -> y_cur y = Some (j, conv :: convs) -> y_thaw y = None ->
  effect (hj_applied j) conv (y_d y) <> EffectFreeze ->
  (thaw = None \/ thaw = Some conv /\ held (y_d y) (cv_agent conv) = false) ->
  Inv (mkSys (y_d y) (Some (j, convs)) thaw (y_ops y) (y_wait y)).
Proof.
  intros I Hcur _ He%effect_not_freeze Ht. split; [apply I| |apply I| |].
  - intros c Hg. apply conv_ok_same with (y := y); [by apply I|done..|]. intros a. eapply will_freeze_rest; eauto.
  - intros j' cs cv [= <- <-] Hin. eapply (in_cur _ I); [exact Hcur|by right].
  - intros cv E. cbn in E. destruct Ht as [->|[-> Hh]]; [done|]. injection E as <-.
    split; [eapply (in_cur _ I); [exact Hcur|by left]|]. cbn. by rewrite Hh.
Qed.

(** Freezing a conversation, whoever does it. *)
Lemma conv_ok_freeze y y' c ok ok' disk : conv_ok y c -> y_d y' = freeze_conversation ok ok' true disk c (y_d y) ->
  (started (y_ops y !! c) -> started (y_ops y' !! c)) -> (tui_starting (y_ops y !! c) -> tui_starting (y_ops y' !! c)) ->
  (is_Some (y_ops y' !! c) -> is_Some (y_ops y !! c)) ->
  (forall o, y_ops y' !! c = Some o -> y_ops y !! c = Some o) -> conv_ok y' c.
Proof.
  intros [] Hd Hs Hts Hsome Hop. symmetry in Hd. apply freeze_spec in Hd as ([_ _ K _] & Sp & St & Fp & Ft & Np & Nt).
  split.
  - intros [Hp ->]%Sp. destruct (co_proc0 Hp); auto.
  - intros [Hp ->]%St. destruct (co_tui0 Hp); auto.
  - intros Hs'. eapply opened_kept; [exact K|]. apply co_open0. destruct Hs' as [Hs'|[Hs'|?]]; [left; by apply Sp|right; left; by apply St|auto].
  - intros o Ho. eapply agent_is_kept; [exact K|auto].
  - intros a Hf _ _. left. destruct (lv_run (live c (y_d y))) eqn:Er; [by destruct (Fp eq_refl eq_refl)|].
    rewrite (Np eq_refl) in Hf. destruct co_proc0 as [?|Hst]; [by eexists|done|]. apply Hs in Hst. by destruct (y_ops y' !! c) as [[]|].
  - intros a Hf _ _. left. destruct (lv_tui (live c (y_d y))) eqn:Er; [by destruct (Ft eq_refl eq_refl)|].
    rewrite (Nt eq_refl) in Hf. destruct co_tui0 as [?|Hst]; [by eexists|done|]. apply Hts in Hst. by destruct (y_ops y' !! c) as [[]|].
Qed.
Lemma Inv_effect_freeze y j conv convs ok ok' disk : Inv y -> y_cur y = Some (j, conv :: convs) ->
  Inv (mkSys (freeze_conversation ok ok' true disk (cv_id conv) (y_d y)) (Some (j, convs)) None (y_ops y) (y_wait y)).
Proof.
  intros I Hcur. pose proof (freeze_spec ok ok' true disk (cv_id conv) (y_d y) _ eq_refl) as [L _].
  apply Inv_local_gen with (y := y) (c := cv_id conv); [done|done| | |by right|done|done|].
  - intros j' cs cv [= <- <-] Hin. exists (conv :: convs). split; [done|by right].
  - intros k a Hk. eapply will_freeze_rest; [exact Hcur|done|apply L|by left].
  - intros Hg. by apply conv_ok_freeze with (y := y) (ok := ok) (ok' := ok') (disk := disk); [by apply I|..].
Qed.
Lemma Inv_thaw y conv ok ok' disk : Inv y -> y_thaw y = Some conv ->
  Inv (mkSys (freeze_conversation ok ok' false disk (cv_id conv) (y_d y)) (y_cur y) None (y_ops y) (y_wait y)).
Proof.
  intros I Ht. destruct (in_thaw _ I _ Ht) as [Ha Hq]. set (c := cv_id conv) in *.
  destruct (freeze_spec ok ok' false disk c (y_d y) _ eq_refl) as (L & Sp & St & _ & _ & _ & _).
  assert (K := lo_store _ _ _ L). apply Inv_local with (y := y) (c := c); [done|done|done|by right|done|done|].
  intros Hg. destruct (in_conv _ I c Hg). set (d' := freeze_conversation _ _ _ _ _ _) in *.
  assert (Hf : forall a, opened c (d_store (y_d y)) -> agent_is c a (d_store d') -> held d' a = true ->
    will_freeze (mkSys d' (y_cur y) None (y_ops y) (y_wait y)) c a).
  { intros a Ho Ha' Hh. apply (agent_is_opened _ _ _ _ K Ho) in Ha'. rewrite (agent_held _ _ _ _ Ha' Ha) in *.
    left. unfold held, queued_freeze in *. cbn. rewrite (lo_holds _ _ _ L) in Hh. rewrite (lo_jobs _ _ _ L). auto. }
  split; cbn [y_d y_ops].
  - intros [Hp ->]%Sp. auto.
  - intros [Hp ->]%St. auto.
  - intros Hs. eapply opened_kept; [exact K|]. apply co_open0. destruct Hs as [Hs|[Hs|?]]; [left; by apply Sp|right; left; by apply St|auto].
  - intros o Ho. eapply agent_is_kept; [exact K|auto].
  - intros a Hp Ha' Hh. right. apply Hf; [|done|done]. apply co_open0. left. apply Sp. by eexists.
  - intros a Hp Ha' Hh. right. apply Hf; [|done|done]. apply co_open0. right. left. apply St. by eexists.
Qed.

(** ** Deliveries and locks *)

Lemma Inv_wait_more y conv text d' : Inv y -> calm (y_d y) d' -> conversation (cv_id conv) (d_store (y_d y)) = Some conv ->
  cv_state conv <> ConvClosed -> Inv (mkSys d' (y_cur y) (y_thaw y) (y_ops y) ((conv, text) :: y_wait y)).
Proof.
  intros I C Hc Ho. pose proof (Inv_calm _ _ I C) as [S' C' W' U' T']. pose proof (lo_store _ _ _ (ca_local _ _ C [])) as K.
  split; [exact S'| | |exact U'|exact T'].
  - intros c Hg. apply conv_ok_same with (y := with_d y d'); [by apply C'|done..].
  - intros conv' text' [[= -> ->]|Hin]%elem_of_cons; [|by eapply W'].
    split; [intros _; eapply opened_kept; [exact K|]|eapply agent_is_kept; [exact K|]]; by exists conv.
Qed.
Lemma Inv_locked cf y disk conv text before after r d : Inv y -> y_wait y = before ++ (conv, text) :: after ->
  y_ops y !! cv_id conv = None -> deliver_locked cf disk conv text (y_d y) = (r, d) ->
  Inv (mkSys d (y_cur y) (y_thaw y)
    (match r with
     | LockEnded _ => y_ops y
     | Pending texts => <[cv_id conv := if lv_run (live (cv_id conv) d) then OCheck conv texts else OStarting conv texts]> (y_ops y)
     end) (before ++ after)).
Proof.
  intros I Hw Ho C%deliver_locked_calm.
  assert (Hsub : forall w, w ∈ before ++ after -> w ∈ y_wait y).
  { intros w. rewrite Hw, !elem_of_app, elem_of_cons. tauto. }
  destruct (in_wait _ I conv text) as [Hop Ha]; [rewrite Hw; apply elem_of_app; right; by left|].
  destruct r as [r|texts].
  - pose proof (Inv_op y (cv_id conv) None d (before ++ after) I C Hsub) as H. cbn in H.
    rewrite delete_id in H by done. apply H; rewrite ?Ho; done.
  - set (o := if lv_run _ then _ else _). pose proof (Inv_op y (cv_id conv) (Some o) d (before ++ after) I C Hsub) as H. cbn in H.
    apply H; rewrite ?Ho; try done; [intros Hg _; by apply Hop|]. intros p _ [= <-]. unfold o. by destruct (lv_run _).
Qed.
(** The holder of a lock that looks at nothing any more. *)
Lemma Inv_hand y c o d' : Inv y -> calm (y_d y) d' -> ~ looks (y_ops y !! c) -> ~ looks_tui (y_ops y !! c) ->
  (c ∉ g -> is_Some o -> opened c (d_store (y_d y))) -> (forall p, c ∉ g -> o = Some p -> agent_is c (cv_agent (op_conv p)) (d_store (y_d y))) ->
  Inv (with_op y c o d').
Proof.
  intros I C Hl Ht Ho Ha. apply Inv_op; try done.
  - intros _ Hs. destruct Hl. by destruct (y_ops y !! c) as [[]|].
  - intros _ Hs. destruct Ht. by destruct (y_ops y !! c) as [[]|].
Qed.
Lemma op_facts y c o : Inv y -> y_ops y !! c = Some o -> c ∉ g ->
  opened c (d_store (y_d y)) /\ agent_is c (cv_agent (op_conv o)) (d_store (y_d y)).
Proof. intros I Ho Hg. destruct (in_conv _ I c Hg). split; [apply co_open0; right; right; by eexists|auto]. Qed.
Lemma Inv_start y c conv texts sid : Inv y -> y_ops y !! c = Some (OStarting conv texts) ->
  Inv (with_op y c (Some (OStarted conv texts sid)) (process_started c (y_d y))).
Proof.
  intros I Ho. apply Inv_with_op; [done| |].
  - split; [done..|]. intros k Hk. cbn. by rewrite lookup_insert_ne.
  - intros Hg. destruct (op_facts _ _ _ I Ho Hg) as [Hop Ha]. destruct (in_conv _ I c Hg). split; rewrite ?ops_same; try done; try (by right); try (by left).
    + cbn. intros [?|Ht]%co_tui0; [by left|]. by rewrite Ho in Ht.
    + by intros o [= <-].
    + cbn. intros a Hf Ha' Hh. destruct (co_frozen_tui0 a Hf Ha' Hh) as [Hl|?]; [by rewrite Ho in Hl|by right].
Qed.
Lemma Inv_record y c conv texts sid disk : Inv y -> y_ops y !! c = Some (OStarted conv texts sid) ->
  Inv (with_op y c (Some (OCheck conv texts)) (snd (record_run disk c sid (y_d y)))).
Proof.
  intros I Ho. unfold record_run.
  set (d1 := set_live c (lv_with_run true false) (y_d y)).
  assert (C : calm d1 (snd (on_store (update_conversation disk c (conv_running sid)) d1)))
    by (apply on_store_calm, update_kept, running_kept).
  destruct C as [L Ep Et V], (V c) as [Er Ev]. set (d' := snd _) in *.
  assert (L' : local c (y_d y) d') by (transitivity d1; [apply set_live_local|apply L]).
  apply Inv_with_op; [done..|]. intros Hg. destruct (op_facts _ _ _ I Ho Hg) as [Hop Ha]. destruct (in_conv _ I c Hg).
  assert (Hl : live c d1 = lv_with_run true false (live c (y_d y))) by (unfold d1; by rewrite live_set, decide_True).
  rewrite Hl in Er, Ev. split; rewrite ?ops_same; cbn [y_d with_op]; rewrite ?Ep, ?Et, ?Er, ?Ev.
  - by left.
  - intros [?|Hs]%co_tui0; [by left|by rewrite Ho in Hs].
  - intros _. eapply opened_kept; [apply L'|done].
  - intros o [= <-]. eapply agent_is_kept; [apply L'|done].
  - by left.
  - unfold held. rewrite (lo_holds _ _ _ L'). intros a Hf Ha' Hh. apply (agent_is_opened _ _ _ _ (lo_store _ _ _ L') Hop) in Ha'.
    destruct (co_frozen_tui0 a Hf Ha' Hh) as [Hs|Hw]; [by rewrite Ho in Hs|right].
    eapply will_freeze_ext; [apply L'| |exact Hw]. done.
Qed.
Lemma Inv_check y c conv texts : Inv y -> y_ops y !! c = Some (OCheck conv texts) ->
  Inv (with_op y c (Some (if held (y_d y) (cv_agent conv) then OFreezing conv texts else OSending conv texts)) (y_d y)).
Proof.
  intros I Ho. pose proof (op_facts _ _ _ I Ho) as Hf. apply Inv_op; rewrite ?Ho; try done.
  - intros [Hop Ha]%Hf _. destruct (held _ _) eqn:Eh; [by left|right]. intros a Ha'. by rewrite (agent_held _ _ _ _ Ha' Ha).
  - intros [Hop Ha]%Hf _. done.
  - intros p [Hop Ha]%Hf [= <-]. by destruct (held _ _).
Qed.
(** The holder freezes the conversation and lets the lock go. *)
Lemma Inv_freeze y c o ok ok' disk : Inv y -> y_ops y !! c = Some o -> ~ started (Some o) -> ~ tui_starting (Some o) ->
  Inv (with_op y c None (freeze_conversation ok ok' true disk c (y_d y))).
Proof.
  intros I Ho H1 H2. pose proof (freeze_spec ok ok' true disk c (y_d y) _ eq_refl) as [L _].
  apply Inv_with_op; [done..|]. intros Hg.
  apply conv_ok_freeze with (y := y) (ok := ok) (ok' := ok') (disk := disk); rewrite ?ops_same, ?Ho; [by apply I|done|done|done| |done].
  by intros [? [=]].
Qed.
Lemma Inv_calm_op y c d d' : Inv (with_op y c None d) -> calm d d' -> Inv (with_op y c None d').
Proof. intros I C. by apply (Inv_calm _ _ I). Qed.

(** ** Ends of processes *)

(** A section of [c] after which neither half of it runs that did not. *)
Lemma Inv_less y c d' : Inv y -> local c (y_d y) d' ->
  (is_Some (d_procs d' !! c) -> d_procs d' !! c = d_procs (y_d y) !! c /\ lv_run (live c d') = lv_run (live c (y_d y))) ->
  (is_Some (d_tuis d' !! c) -> d_tuis d' !! c = d_tuis (y_d y) !! c /\ lv_tui (live c d') = lv_tui (live c (y_d y))) ->
  Inv (with_d y d').
Proof.
  intros I L Hp Ht. apply Inv_with_d with (c := c); [done..|]. intros Hg. apply conv_ok_less with (y := y); cbn; try done.
  - by apply I. - apply L. - apply L.
  - intros Hs. destruct (Hp Hs) as [E ->]. rewrite <- E. split; [done|by left].
  - intros Hs. destruct (Ht Hs) as [E ->]. rewrite <- E. split; [done|by left].
  - intros E. destruct Hp as [<- _]; [by eexists|done].
  - intros E. destruct Ht as [<- _]; [by eexists|done].
  - intros a. apply will_freeze_ext; [apply L|done].
Qed.
Lemma stop_process_less c d :
  local c d (stop_process c d) /\ d_procs (stop_process c d) !! c = None /\ d_tuis (stop_process c d) = d_tuis d /\
  lv_tui (live c (stop_process c d)) = lv_tui (live c d).
Proof.
  unfold stop_process. rewrite live_set, decide_True by done. cbn. rewrite lookup_delete_eq. split_and!; try done.
  transitivity (with_procs d (delete c (d_procs d))); [|apply set_live_local].
  split; [done..|]. intros k Hk. cbn. by rewrite lookup_delete_ne.
Qed.
Lemma Inv_stop y c d' : Inv y -> calm (stop_process c (y_d y)) d' -> Inv (with_d y d').
Proof.
  intros I C. destruct (stop_process_less c (y_d y)) as (L & Ep & Et & Ev). destruct C as [L' Ep' Et' V'], (V' c) as [_ Ev'].
  apply Inv_less with (c := c); [done|by transitivity (stop_process c (y_d y))| |].
  - rewrite Ep', Ep. by intros [? [=]].
  - by rewrite Et', Et, Ev', Ev.
Qed.
Lemma Inv_park y c disk : Inv y -> Inv (with_d y (park disk c (y_d y))).
Proof.
  intros I. unfold park. destruct (_ || _); [by apply Inv_calm|]. destruct (conversation _ _) as [conv|]; [|by apply Inv_stop with (c := c)].
  destruct (held _ _); [by apply Inv_calm|]. case_bool_decide; [by apply Inv_stop with (c := c)|].
  apply Inv_stop with (c := c); [done|]. apply ignore_update_calm. intros x. by apply with_state_kept.
Qed.
Lemma Inv_retire y c disk : Inv y -> Inv (with_d y (retire_run disk c (y_d y))).
Proof.
  intros I. unfold retire_run. destruct (lv_run _); [|by apply Inv_calm]. apply Inv_stop with (c := c); [done|].
  apply ignore_update_calm, parked_kept.
Qed.
Lemma Inv_close_process y c : Inv y -> Inv (with_d y (close_process c (y_d y))).
Proof. intros I. unfold close_process. destruct (lv_run _); [by apply Inv_stop with (c := c)|by apply Inv_calm]. Qed.
Lemma Inv_exit y c : Inv y -> Inv (with_d y (process_exits c (y_d y))).
Proof.
  intros I. apply Inv_less with (c := c); [done| | |done].
  - split; [done..|]. intros k Hk. cbn. by rewrite lookup_delete_ne.
  - cbn. rewrite lookup_delete_eq. by intros [? [=]].
Qed.
Lemma Inv_pump y c disk : Inv y -> d_procs (y_d y) !! c = None -> Inv (with_d y (pump_ends disk c (y_d y))).
Proof.
  intros I Hp. unfold pump_ends. destruct (lv_run _); [|by apply Inv_calm].
  set (d1 := set_live c (lv_with_run false false) (y_d y)).
  pose proof (ignore_update_calm disk c parked_if_running d1 parked_kept) as [L Ep Et V]. destruct (V c) as [_ Ev].
  apply Inv_less with (c := c); [done|transitivity d1; [apply set_live_local|apply L]| |].
  - rewrite Ep. cbn. rewrite Hp. by intros [? [=]].
  - rewrite Et, Ev. unfold d1. rewrite live_set, decide_True by done. done.
Qed.

(** ** Terminals *)

Lemma Inv_attach y c conv : Inv y -> y_ops y !! c = None -> conversation c (d_store (y_d y)) = Some conv ->
  cv_state conv <> ConvClosed -> Inv (with_op y c (Some (OTui conv)) (set_live c id (y_d y))).
Proof.
  intros I Ho Hc Hst. apply Inv_hand; rewrite ?Ho; try done.
  - by apply set_live_calm.
  - by intros [].
  - by intros [].
  - intros _ _. by exists conv.
  - intros p _ [= <-]. by exists conv.
Qed.
Lemma Inv_tui_start y c conv : Inv y -> y_ops y !! c = Some (OTui conv) ->
  Inv (with_op y c (Some (OTuiStarted conv)) (tui_started c (y_d y))).
Proof.
  intros I Ho. apply Inv_with_op; [done| |].
  - split; [done..|]. intros k Hk. cbn. by rewrite lookup_insert_ne.
  - intros Hg. destruct (op_facts _ _ _ I Ho Hg) as [Hop Ha]. destruct (in_conv _ I c Hg). split; rewrite ?ops_same; try done; try (by right); try (by left).
    + cbn. intros [?|Hs]%co_proc0; [by left|]. by rewrite Ho in Hs.
    + by intros o [= <-].
    + cbn. intros a Hf Ha' Hh. destruct (co_frozen0 a Hf Ha' Hh) as [Hl|?]; [by rewrite Ho in Hl|by right].
Qed.
Lemma Inv_tui_record y c conv disk : Inv y -> y_ops y !! c = Some (OTuiStarted conv) ->
  Inv (with_op y c (Some (OTuiCheck conv)) (snd (record_tui disk c (y_d y)))).
Proof.
  intros I Ho. unfold record_tui.
  set (d1 := set_live c (lv_with_tui true) (y_d y)).
  assert (C : calm d1 (snd (on_store (update_conversation disk c (conv_with_state Attached)) d1)))
    by (apply on_store_calm, update_kept; intros; by apply with_state_kept).
  destruct C as [L Ep Et V], (V c) as [Er Ev]. set (d' := snd _) in *.
  assert (L' : local c (y_d y) d') by (transitivity d1; [apply set_live_local|apply L]).
  apply Inv_with_op; [done..|]. intros Hg. destruct (op_facts _ _ _ I Ho Hg) as [Hop Ha]. destruct (in_conv _ I c Hg).
  assert (Hl : live c d1 = lv_with_tui true (live c (y_d y))) by (unfold d1; by rewrite live_set, decide_True).
  rewrite Hl in Er, Ev. split; rewrite ?ops_same; cbn [y_d with_op]; rewrite ?Ep, ?Et, ?Er, ?Ev.
  - intros [?|Hs]%co_proc0; [by left|by rewrite Ho in Hs].
  - by left.
  - intros _. eapply opened_kept; [apply L'|done].
  - intros o [= <-]. eapply agent_is_kept; [apply L'|done].
  - unfold held. rewrite (lo_holds _ _ _ L'). intros a Hf Ha' Hh. apply (agent_is_opened _ _ _ _ (lo_store _ _ _ L') Hop) in Ha'.
    destruct (co_frozen0 a Hf Ha' Hh) as [Hs|Hw]; [by rewrite Ho in Hs|right].
    eapply will_freeze_ext; [apply L'| |exact Hw]. done.
  - by left.
Qed.
Lemma Inv_tui_fails y c conv : Inv y -> y_ops y !! c = Some (OTuiStarted conv) \/ y_ops y !! c = Some (OTui conv) ->
  Inv (with_op y c None (stop_tui c (y_d y))).
Proof.
  intros I Ho. apply Inv_with_op; [done| |].
  - split; [done..|]. intros k Hk. cbn. by rewrite lookup_delete_ne.
  - intros Hg. destruct (in_conv _ I c Hg). split; rewrite ?ops_same; cbn; rewrite ?lookup_delete_eq; try done.
    + intros [?|Hs]%co_proc0; [by left|]. by destruct Ho as [Ho|Ho]; rewrite Ho in Hs.
    + intros [?|[[? [=]]|[? [=]]]]. auto.
    + intros a Hf Ha Hh. destruct (co_frozen0 a Hf Ha Hh) as [Hl|?]; [|by right]. by destruct Ho as [Ho|Ho]; rewrite Ho in Hl.
Qed.
Lemma Inv_tui_end y c disk : Inv y -> Inv (with_d y (tui_ended disk c (y_d y))).
Proof.
  intros I. unfold tui_ended. set (d1 := stop_tui c _).
  assert (L : local c (y_d y) d1).
  { transitivity (set_live c (lv_with_tui false) (y_d y)); [apply set_live_local|].
    split; [done..|]. intros k Hk. cbn. by rewrite lookup_delete_ne. }
  assert (Hr : lv_run (live c d1) = lv_run (live c (y_d y))) by (change (live c d1) with (live c (set_live c (lv_with_tui false) (y_d y)));
    by rewrite live_set, decide_True).
  assert (Hcalm : forall d', calm d1 d' -> Inv (with_d y d')).
  { intros d' [L' Ep Et V]. destruct (V c) as [Er _]. apply Inv_less with (c := c); [done|by transitivity d1| |].
    - rewrite Ep, Er, Hr. by split.
    - rewrite Et. cbn. rewrite lookup_delete_eq. by intros [? [=]]. }
  destruct (conversation c _) as [conv|]; [|by apply Hcalm]. case_bool_decide; [by apply Hcalm|].
  apply Hcalm, ignore_update_calm. intros x. apply with_state_kept. by destruct (lv_run _).
Qed.

(** ** Ends of conversations and of the daemon *)

Lemma update_lookup c f s k :
  conversation k (snd (update_conversation None c f s)) = if str_eqb k c then f <$> conversation k s else conversation k s.
Proof. apply map_get_change. Qed.
Lemma update_ok disk c f s : (forall x, cv_id (f x) = cv_id x) -> store_ok s -> store_ok (snd (update_conversation disk c f s)).
Proof.
  intros Hf Hok. destruct disk as [e|]; [exact Hok|]. destruct Hok as [Hs Hk]. split; [by apply map_change_sorted|].
  intros k x. rewrite update_lookup. destruct (str_eqb k c); [|apply Hk].
  destruct (conversation k s) as [z|] eqn:E; [|done]. intros [= <-]. rewrite Hf. by apply Hk.
Qed.
Lemma Inv_close_mark y c disk : Inv y -> (c ∉ g -> y_ops y !! c = None) ->
  (c ∉ g -> forall conv text, (conv, text) ∈ y_wait y -> cv_id conv <> c) ->
  (c ∉ g -> d_procs (y_d y) !! c = None) -> (c ∉ g -> d_tuis (y_d y) !! c = None) -> Inv (with_d y (snd (close_mark disk c (y_d y)))).
Proof.
  intros I Ho Hw Hp Ht. unfold close_mark, on_store.
  set (s' := snd (update_conversation disk c (conv_with_state ConvClosed) (d_store (y_d y)))).
  destruct disk as [e|].
  { apply Inv_calm; [done|]. cbn. split; [intros k; split; [done|done|by apply same_convs_kept|done]|done|done|by split]. }
  change (update_conversation _ _ _ _) with (Ok tt : result DocError unit, s'). cbn [map_err snd].
  set (d' := with_live _ _). assert (Es : d_store d' = s') by done.
  assert (Hk : forall k, k <> c -> conversation k s' = conversation k (d_store (y_d y))).
  { intros k Hk. unfold s'. rewrite update_lookup. destruct (str_eqb k c) eqn:E; [by apply str_eqb_true in E|done]. }
  assert (Hop : forall k, k <> c -> opened k s' <-> opened k (d_store (y_d y))) by (intros k Hne; unfold opened; by rewrite Hk).
  assert (Hag : forall k a, agent_is k a s' <-> agent_is k a (d_store (y_d y))).
  { intros k a. unfold agent_is, s'. rewrite update_lookup. destruct (str_eqb k c); [|done].
    destruct (conversation k _) as [x|]; cbn; [|done]. split; intros (z & [= <-] & E); eauto. }
  split; cbn [y_d with_d y_wait y_cur y_thaw]; rewrite ?Es.
  - apply update_ok; [done|apply I].
  - intros k Hg. destruct (decide (k = c)) as [->|Hne].
    + split; cbn; rewrite ?Hp, ?Ht, ?Ho by done; try done; try (by intros [? [=]]). by intros [[? [=]]|[[? [=]]|[? [=]]]].
    + destruct (in_conv _ I k Hg). assert (El : live k d' = live k (y_d y)).
      { unfold live, d'. cbn. by rewrite lookup_delete_ne. }
      split; cbn [y_d with_d y_ops]; rewrite ?El, ?Es; try done.
      * by rewrite Hop.
      * intros o. rewrite Hag. auto.
      * intros a. rewrite Hag. apply co_frozen0.
      * intros a. rewrite Hag. apply co_frozen_tui0.
  - intros conv text Hin. rewrite Hag. destruct (in_wait _ I _ _ Hin) as [Ho' Ha]. split; [|done].
    intros Hg. rewrite Hop; [by apply Ho'|]. intros E. rewrite E in Hg. by apply (Hw Hg _ _ Hin).
  - intros j convs conv. rewrite Hag. apply (in_cur _ I).
  - intros conv. rewrite Hag. apply (in_thaw _ I).
Qed.

(** Nothing runs and nothing is to be done. *)
Lemma Inv_quiet d : store_ok (d_store d) -> (forall c, c ∉ g -> d_procs d !! c = None /\ d_tuis d !! c = None) -> Inv (sys_start d).
Proof.
  intros Hok Hpt. split; [done| |intros ? ? Hin; by apply elem_of_nil in Hin|done|done].
  intros c [Hp Ht]%Hpt. split; cbn; rewrite ?Hp, ?Ht, ?lookup_empty; try done; try (by intros [? [=]]). by intros [[? [=]]|[[? [=]]|[? [=]]]].
Qed.
Lemma fold_delete (l : list Conversation) (u : gmap str bool) c :
  fold_left (fun u x => delete (cv_id x) u) l u !! c = if decide (c ∈ map cv_id l) then None else u !! c.
Proof.
  revert u. induction l as [|x l IH]; intros u; cbn; [done|]. rewrite IH. destruct (decide (c = cv_id x)) as [->|Hne].
  - rewrite lookup_delete_eq, (decide_True (P := _ ∈ _ :: _)) by by left. by destruct (decide _).
  - rewrite lookup_delete_ne by done. apply decide_ext. rewrite elem_of_cons. tauto.
Qed.
Lemma Inv_restart y : Inv y -> Inv (sys_start (restart (d_store (y_d y)) (y_d y))).
Proof.
  intros I. assert (Hall : forall (u : gmap str bool) c, (is_Some (u !! c) -> opened c (d_store (y_d y))) ->
    fold_left (fun u x => delete (cv_id x) u) (conversations None false (d_store (y_d y))) u !! c = None).
  { intros u c Hu. rewrite fold_delete. destruct (decide _) as [|Hn]; [done|].
    destruct (u !! c) eqn:E; [|done]. exfalso. apply Hn. destruct Hu as (x & Hx & Ho); [by eexists|].
    pose proof (proj2 (in_store _ I) _ _ Hx) as Hid. apply list_elem_of_fmap. exists x. split; [done|].
    apply elem_of_conversations; [apply I|]. by rewrite Hid. }
  apply Inv_quiet; cbn.
  - generalize (conversations None false (d_store (y_d y))). pose proof (in_store _ I) as Hok. revert Hok.
    generalize (d_store (y_d y)). intros s Hok l. revert s Hok. induction l as [|x l IH]; intros s Hok; [done|].
    apply IH. by apply (update_ok None (cv_id x) (conv_with_state Parked) s).
  - intros c Hg. split; apply Hall; intros Hs; apply (co_open _ _ (in_conv _ I c Hg)); [by left|by right; left].
Qed.

(** ** Every section keeps it *)

Lemma step_Inv cf y y' : step cf y y' -> Inv y -> Inv y'.
Proof.
  intros Hs I. destruct Hs as
    [y disk1 disk2 e call|y j jobs H1 H2|y j conv convs H1 H2 H3|y j conv convs ok ok' disk H1 H2 H3|y j conv convs H1 H2 H3
    |y conv ok ok' disk H1|y j H1 H2|y touched queued now c text r d H1|y touched queued now c text conv d H1
    |y disk conv text before after r d H1 H2 H3|y c conv texts sid H1|y c conv texts disk e H1|y c conv texts sid H1
    |y c conv texts H1|y c conv texts ok ok' disk disk' H1|y c conv text texts H1|y c conv texts disk e H1|y c conv H1
    |y c disk back taken H1|y c disk|y c disk|y c disk H1|y c disk H1|y c|y c disk H1|y c conv H1 H2 H3 H4 H5|y c conv H1|y c conv H1
    |y c conv H1|y c conv H1|y c conv ok ok' disk H1|y c disk|y c H1|y c disk H1 H2 H3 H4|y disk ids agent runtime mode title by_ now
    |y disk rec|y].
  - by apply Inv_hold.
  - by apply Inv_next.
  - apply Inv_skip with (j := j) (conv := conv); auto. by rewrite H3.
  - by eapply Inv_effect_freeze.
  - apply Inv_skip with (j := j) (conv := conv); auto; [by rewrite H3|]. right. split; [done|].
    revert H3. unfold effect. destruct (action _ _); [done| |done]. by destruct (held _ _).
  - by apply Inv_thaw.
  - destruct I as [? C ? U ?]. split; [done| |done|done|done]. intros c Hg.
    apply conv_ok_same with (y := y); [by apply C|done..|]. intros a [?|(j' & convs & x & E & _ & Hin & _)]; [by left|].
    rewrite H1 in E. simplify_eq. by apply elem_of_nil in Hin.
  - apply deliver_first_calm in H1 as [C _]. by apply Inv_calm.
  - apply deliver_first_calm in H1 as [C Hc]. destruct (Hc conv eq_refl) as [Hc1 Hc2].
    apply Inv_wait_more; [done|done| |done]. by rewrite (proj2 (in_store _ I) _ _ Hc1).
  - by eapply Inv_locked.
  - by apply Inv_start.
  - apply Inv_hand; rewrite ?H1; try done; [apply put_back_calm|by intros []..].
  - by eapply Inv_record.
  - by apply Inv_check.
  - eapply Inv_calm_op; [eapply Inv_freeze; [done|exact H1|by intros []..]|apply put_back_calm].
  - pose proof (op_facts _ _ _ I H1) as Hf. apply Inv_hand; rewrite ?H1; try done; [apply send_one_calm|by intros []|by intros []| |].
    + by intros [? ?]%Hf _.
    + by intros p [? ?]%Hf [= <-].
  - apply Inv_hand; rewrite ?H1; try done; [apply put_back_calm|by intros []..].
  - apply Inv_hand; rewrite ?H1; try done; [by apply set_live_calm|by intros []..].
  - apply Inv_calm; [done|apply flush_calm].
  - apply Inv_calm; [done|apply turn_ended_calm].
  - apply Inv_calm; [done|apply drain_calm].
  - by apply Inv_park.
  - by apply Inv_retire.
  - by apply Inv_exit.
  - by apply Inv_pump.
  - by apply Inv_attach.
  - by apply Inv_close_process.
  - by apply Inv_tui_start.
  - by eapply Inv_tui_fails.
  - by eapply Inv_tui_record.
  - destruct (held _ _) eqn:Eh.
    + eapply Inv_freeze; [done|exact H1|by intros []..].
    + apply Inv_op; rewrite ?H1; try done. intros [Hop Ha]%(op_facts _ _ _ I H1) _. right. intros a Ha'. by rewrite (agent_held _ _ _ _ Ha' Ha).
  - by apply Inv_tui_end.
  - by apply Inv_close_process.
  - by apply Inv_close_mark.
  - apply Inv_calm; [done|]. apply on_store_calm, new_kept, I.
  - apply Inv_calm; [done|]. apply on_key_calm.
  - by apply Inv_restart.
Qed.
(** Nor do the others, of the conversations they are of. *)
Lemma record_run_local disk c sid d : local c d (snd (record_run disk c sid d)).
Proof.
  unfold record_run. transitivity (set_live c (lv_with_run true false) d); [apply set_live_local|].
  apply calm_local, on_store_calm, update_kept, running_kept.
Qed.
Lemma record_tui_local disk c d : local c d (snd (record_tui disk c d)).
Proof.
  unfold record_tui. transitivity (set_live c (lv_with_tui true) d); [apply set_live_local|].
  apply calm_local, on_store_calm, update_kept. intros x. by apply with_state_kept.
Qed.
Lemma gap_Inv cf c y y' : c ∈ g -> gap cf c y y' -> Inv y -> Inv y'.
Proof.
  intros Hg Hs I. destruct Hs.
  - apply Inv_with_d with (c := c); [done| |done].
    transitivity (process_started c (y_d y)); [|apply record_run_local].
    split; [done..|]. intros k Hk. cbn. by rewrite lookup_insert_ne.
  - apply Inv_with_op; [done| |done]. etransitivity; [apply record_run_local|]. apply calm_local, put_back_calm.
  - apply Inv_with_op; [done|apply record_tui_local|done].
  - by apply Inv_close_mark.
Qed.
Lemma reachable_Inv cf d y : store_ok (d_store d) -> d_procs d = ∅ -> d_tuis d = ∅ -> rtc (run_step cf g) (sys_start d) y -> Inv y.
Proof.
  intros Hok Hp Ht Hr. assert (I : Inv (sys_start d)) by (apply Inv_quiet; rewrite ?Hp, ?Ht; done). revert I.
  induction Hr as [|x y z Hs _ IH]; [done|]. intros I. apply IH.
  destruct Hs as [Hs|(c & Hc & Hs)]; [by eapply step_Inv|by eapply gap_Inv].
Qed.
(** A conversation nobody is at, with no hold on its way to it. *)
Lemma Inv_frozen y c a : Inv y -> c ∉ g -> y_cur y = None -> d_jobs (y_d y) = [] -> y_ops y !! c = None ->
  agent_is c a (d_store (y_d y)) -> held (y_d y) a = true -> d_procs (y_d y) !! c <> Some false /\ d_tuis (y_d y) !! c <> Some false.
Proof.
  intros I Hg Hcur Hj Ho Ha Hh. assert (Hw : ~ will_freeze y c a).
  { intros [(j & Hin & _)|(j & convs & conv & E & _)]; [rewrite Hj in Hin; by apply elem_of_nil in Hin|congruence]. }
  destruct (in_conv _ I c Hg). split; intros Hf.
  - destruct (co_frozen0 a Hf Ha Hh) as [Hl|?]; [by rewrite Ho in Hl|done].
  - destruct (co_frozen_tui0 a Hf Ha Hh) as [Hl|?]; [by rewrite Ho in Hl|done].
Qed.
End gapped.
