(* ===== verification/SandboxdFacts.v ===== *)
(** What a hold is worth in every run of the sandbox daemon, on a run of it;
    the sections that get round one; and that deliveries lose no text. *)

From Stdlib Require Import Sorting.Sorted.
From stdpp Require Import gmap relations.
From S2P Require Import Prelude Json Pyfmt Sandbox SandboxStore Sandboxd SandboxdRuns.
From stdpp Require Import options.
#[local] Set Default Proof Using "Type*".

(** ** The texts of a conversation *)

(** What its process was sent, then what waits in its inbox. *)
Definition sent_to (c : str) (d : Daemon) : list str := map snd (List.filter (fun x => str_eqb x.1 c) (d_sent d)).
Definition texts_of (c : str) (d : Daemon) : list str := sent_to c d ++ inbox c (d_store d).

(** A change that leaves every text, and the threads, where they are. *)
Record same_texts (d d' : Daemon) : Prop := {
  sx_sent : d_sent d' = d_sent d;
  sx_inboxes : st_inboxes (d_store d') = st_inboxes (d_store d);
  sx_threads : cs_threads (st_convs (d_store d')) = cs_threads (st_convs (d_store d));
}.
#[export] Instance same_texts_preorder : PreOrder same_texts.
Proof. split; [by split|]. intros x y z [] []. split; congruence. Qed.
Lemma same_texts_of c d d' : same_texts d d' -> texts_of c d' = texts_of c d.
Proof. intros [E1 E2 _]. unfold texts_of, sent_to, inbox. by rewrite E1, E2. Qed.
(** A change of the texts of [c] alone. *)
Record adds (c : str) (texts : list str) (d d' : Daemon) : Prop := {
  ad_texts k : texts_of k d' = texts_of k d ++ (if str_eqb k c then texts else []);
  ad_threads : cs_threads (st_convs (d_store d')) = cs_threads (st_convs (d_store d));
}.
Lemma adds_none c d d' : same_texts d d' -> adds c [] d d'.
Proof. intros S. split; [|apply S]. intros k. rewrite (same_texts_of _ _ _ S). destruct (str_eqb k c); by rewrite app_nil_r. Qed.
Lemma adds_app c t1 t2 d1 d2 d3 : adds c t1 d1 d2 -> adds c t2 d2 d3 -> adds c (t1 ++ t2) d1 d3.
Proof.
  intros [H1 T1] [H2 T2]. split; [|congruence]. intros k. rewrite H2, H1, <- app_assoc. by destruct (str_eqb k c).
Qed.
Lemma adds_same c t d1 d2 d3 : adds c t d1 d2 -> same_texts d2 d3 -> adds c t d1 d3.
Proof. intros H S. rewrite <- (app_nil_r t). eapply adds_app; [exact H|by apply adds_none]. Qed.
Lemma same_adds c t d1 d2 d3 : same_texts d1 d2 -> adds c t d2 d3 -> adds c t d1 d3.
Proof. intros S H. change t with ([] ++ t). eapply adds_app; [by apply adds_none|exact H]. Qed.

Lemma str_eqb_refl c : str_eqb c c = true.
Proof. by apply str_eqb_true. Qed.
Lemma str_eqb_comm c k : str_eqb c k = str_eqb k c.
Proof. apply eq_true_iff_eq. rewrite !str_eqb_true. by split. Qed.
Lemma map_get_insert_any {V} k k' (v : V) m : map_get k' (map_insert k v m) = if str_eqb k' k then Some v else map_get k' m.
Proof.
  induction m as [|[x w] m IH]; cbn; [done|]. destruct (str_compare k x) eqn:E; cbn.
  - apply str_compare_eq in E as ->. by destruct (str_eqb k' x).
  - done.
  - destruct (str_eqb k' x) eqn:Ex; [|done]. apply str_eqb_true in Ex as ->. destruct (str_eqb x k) eqn:Ek; [|done].
    apply str_eqb_true in Ek as ->. by rewrite str_compare_refl in E.
Qed.

(** ** Sections *)

Lemma update_conv_texts disk c f d : same_texts d (snd (on_store (update_conversation disk c f) d)).
Proof. unfold on_store, update_conversation, on_convs, update. by destruct disk. Qed.
Lemma inbox_get c k x s : inbox k (with_inboxes s (map_insert c x (st_inboxes s))) = if str_eqb k c then x else inbox k s.
Proof. unfold inbox. cbn. rewrite map_get_insert_any. by destruct (str_eqb k c). Qed.
Lemma on_inbox_adds disk c texts d u d' :
  on_store (on_inbox disk c (fun i => (tt, i ++ texts))) d = (Ok u, d') -> adds c texts d d'.
Proof.
  unfold on_store, on_inbox, update. destruct disk as [e|]; [done|]. intros [= _ <-]. split; [|done].
  intros k. unfold texts_of, sent_to. cbn [d_store with_store d_sent]. rewrite inbox_get. destruct (str_eqb k c) eqn:E; [|by rewrite app_nil_r].
  apply str_eqb_true in E as ->. by rewrite app_assoc.
Qed.
(** A change that was not written. *)
Lemma unwritten_adds {R} e c (f : list str -> R * list str) d r d' :
  on_store (on_inbox (Some e) c f) d = (r, d') -> (exists x, r = Err x) /\ adds c [] d d'.
Proof.
  unfold on_store, on_inbox, update. destruct (f _). cbn. intros [= <- <-]. split; [by eexists|]. split; [|done].
  intros k. replace (if str_eqb k c then [] else []) with (@nil str) by by destruct (str_eqb k c). rewrite app_nil_r. unfold texts_of, sent_to. cbn [d_store with_store d_sent]. rewrite inbox_get.
  destruct (str_eqb k c) eqn:E; [|done]. by apply str_eqb_true in E as ->.
Qed.
Lemma queue_adds disk c text d r d' : on_store (queue disk c text) d = (r, d') ->
  adds c (if is_ok r then [text] else []) d d'.
Proof.
  unfold queue. destruct disk as [e|]; intros E.
  - apply unwritten_adds in E as [[x ->] H]. exact H.
  - destruct r as [u|x]; [by apply on_inbox_adds in E|]. by unfold on_store, on_inbox, update in E.
Qed.
Lemma queue_all_adds disk c texts d r d' : on_store (queue_all disk c texts) d = (r, d') ->
  adds c (if is_ok r then texts else []) d d' /\ (disk = None -> is_ok r = true).
Proof.
  intros E. unfold queue_all in E. destruct (decide (texts = [])) as [->|Hne].
  - unfold on_store in E. rewrite bool_decide_true in E by done. cbn in E. injection E as <- <-. split; [|done].
    by apply adds_none.
  - assert (E' : on_store (on_inbox disk c (fun i => (tt, i ++ texts))) d = (r, d')).
    { unfold on_store in *. by rewrite bool_decide_false in E by done. }
    destruct disk as [e|].
    + apply unwritten_adds in E' as [[x ->] H]. done.
    + destruct r as [u|x]; [split; [by apply on_inbox_adds in E'|done]|]. by unfold on_store, on_inbox, update in E'.
Qed.
(** Drained texts are in hand: they come before what is then added. *)
Lemma drain_texts disk c d texts d' : on_store (drain disk c) d = (Ok texts, d') ->
  texts = inbox c (d_store d) /\ inbox c (d_store d') = [] /\ d_sent d' = d_sent d /\
  (forall k, k <> c -> texts_of k d' = texts_of k d) /\ cs_threads (st_convs (d_store d')) = cs_threads (st_convs (d_store d)).
Proof.
  unfold on_store, drain. case_bool_decide as Hi.
  - cbn. intros [= <- <-]. by split_and!.
  - unfold on_inbox, update. destruct disk as [e|]; [done|]. cbn. intros [= <- <-]. split_and!; [done| |done| |done].
    + cbn [d_store with_store]. by rewrite inbox_get, str_eqb_refl.
    + intros k Hk. unfold texts_of, sent_to. cbn [d_store with_store d_sent]. rewrite inbox_get. destruct (str_eqb k c) eqn:E; [|done].
      by apply str_eqb_true in E.
Qed.
Lemma drain_fails disk c d e d' : on_store (drain disk c) d = (Err e, d') -> adds c [] d d'.
Proof.
  unfold drain. intros E. assert (E' : on_store (on_inbox disk c (fun i : list str => (i, []))) d = (Err e, d')).
  { unfold on_store in *. by case_bool_decide. }
  destruct disk as [x|]; [by apply unwritten_adds in E' as [_ H]|]. by unfold on_store, on_inbox, update in E'.
Qed.
Lemma set_live_texts c f d : same_texts d (set_live c f d).
Proof. done. Qed.
Lemma freeze_texts ok ok' fr disk c d : same_texts d (freeze_conversation ok ok' fr disk c d).
Proof.
  unfold freeze_conversation. transitivity (freeze_process ok fr disk c d).
  - unfold freeze_process. destruct (_ !! c) as [l|]; [|done]. destruct (lv_run l); [|done].
    destruct (freeze_unit _ _ _ _) as [b u]. destruct (_ && _); [|done].
    etransitivity; [|apply update_conv_texts]. done.
  - generalize (freeze_process ok fr disk c d). intros d1. unfold freeze_tui. destruct (_ !! c) as [l|]; [|done].
    destruct (lv_tui l); [|done]. destruct (freeze_unit _ _ _ _) as [b u]. by destruct (_ && _).
Qed.
Lemma put_back_adds disk c texts retry r d x d' : put_back disk c texts retry r d = (x, d') ->
  adds c (if is_ok x then texts else []) d d' /\ (disk = None -> is_ok x = true).
Proof.
  unfold put_back. destruct (on_store _ d) as [[u|e] d1] eqn:E; apply queue_all_adds in E as [H1 H2]; intros [= <- <-];
    (split; [|exact H2]); [|exact H1]. destruct retry; [|exact H1]. by eapply adds_same.
Qed.
Lemma send_one_adds c text d : inbox c (d_store d) = [] -> adds c [text] d (send_one c text d) /\ inbox c (d_store (send_one c text d)) = [].
Proof.
  intros Hi. split; [|done]. split; [|done]. intros k. unfold texts_of, sent_to, send_one. cbn [d_sent with_sent set_live with_live d_store]. rewrite List.filter_app, map_app. cbn [List.filter fst].
  replace (str_eqb c k) with (str_eqb k c) by apply str_eqb_comm. destruct (str_eqb k c) eqn:E; cbn [map snd]; [|by rewrite !app_nil_r].
  apply str_eqb_true in E as ->. by rewrite Hi, !app_nil_r.
Qed.
Lemma send_all_adds disk answers c texts d r d' : inbox c (d_store d) = [] -> send_all disk answers c texts d = (r, d') ->
  (is_ok r = true -> adds c texts d d') /\ (disk = None -> is_ok r = true).
Proof.
  revert answers d. induction texts as [|text texts IH]; intros answers d Hi; cbn.
  - intros [= <- <-]. split; [|done]. intros _. by apply adds_none.
  - assert (Hgo : forall a, send_all disk a c texts (send_one c text d) = (r, d') ->
      (is_ok r = true -> adds c (text :: texts) d d') /\ (disk = None -> is_ok r = true)).
    { intros a E. destruct (send_one_adds c text d Hi) as [H1 H2]. destruct (IH _ _ H2 E) as [H3 H4]. split; [|done].
      intros Hr. change (text :: texts) with ([text] ++ texts). eapply adds_app; eauto. }
    destruct answers as [|[why|] answers]; [apply Hgo| |apply Hgo].
    intros E. apply put_back_adds in E as [H1 H2]. split; [|done]. intros Hr. by rewrite Hr in H1.
Qed.

(** ** Deliveries *)

Lemma same_inbox c d d' : same_texts d d' -> inbox c (d_store d') = inbox c (d_store d).
Proof. intros [_ E _]. unfold inbox. by rewrite E. Qed.
Lemma ensure_running_texts cf k conv d r d' : ensure_running cf k conv d = (r, d') -> same_texts d d'.
Proof.
  unfold ensure_running. destruct (lv_run _); [by intros [= <- <-]|]. destruct (start_checks _ _ _); [|by intros [= <- <-]].
  destruct (lk_start k) as [sid|]; [|by intros [= <- <-]]. unfold record_run. intros E.
  transitivity (set_live (cv_id conv) (lv_with_run true false) (process_started (cv_id conv) d)); [done|].
  change d' with (snd (r, d')). rewrite <- E. apply update_conv_texts.
Qed.
(** What [deliver_first] leaves in the inbox when it ends there. *)
Definition taken_first (f : First) : bool := match f with Ended (Ok _) => true | _ => false end.
Lemma queue_or_adds disk c text r d f d' : queue_or disk c text r d = (f, d') ->
  adds c (if taken_first f then [text] else []) d d' /\ forall conv, f <> ToLock conv.
Proof.
  unfold queue_or. destruct (on_store _ d) as [[u|e] d1] eqn:E; apply queue_adds in E; by intros [= <- <-].
Qed.
Lemma deliver_first_adds cf touched queued now c text d f d' : opened c (d_store d) ->
  deliver_first cf touched queued now c text d = (f, d') ->
  adds c (if taken_first f then [text] else []) d d' /\
  forall conv, f = ToLock conv -> conversation c (d_store d) = Some conv.
Proof.
  intros (x & Hx & Ho). unfold deliver_first. rewrite Hx, bool_decide_false by done.
  destruct (negb _); [intros [= <- <-]; split; [by apply adds_none|done]|].
  pose proof (update_conv_texts touched c (conv_touched now) (set_live c id d)) as S. fold (touch touched c now) in S.
  assert (S0 : same_texts d (set_live c id d)) by done.
  destruct (on_store (touch touched c now) _) as [[u|e] d1]; cbn in S;
    (assert (S1 : same_texts d d1) by by transitivity (set_live c id d)); [|intros [= <- <-]; split; [by apply adds_none|done]].
  assert (Q : forall r, queue_or queued c text r d1 = (f, d') ->
    adds c (if taken_first f then [text] else []) d d' /\ forall conv, f = ToLock conv -> Some x = Some conv).
  { intros r E. apply queue_or_adds in E as [H1 H2]. split; [by eapply same_adds|]. intros conv E. by destruct (H2 conv). }
  destruct (held _ _); [apply Q|]. destruct (runtime _ _); [|apply Q]. destruct (_ && _); [apply Q|].
  intros [= <- <-]. split; [by apply adds_none|]. by intros ? [= <-].
Qed.
(** What is drained is owed before the new text. *)
Lemma redelivered disk c text d texts d1 d2 : on_store (drain disk c) d = (Ok texts, d1) ->
  adds c (texts ++ [text]) d1 d2 -> adds c [text] d d2.
Proof.
  intros E [H1 T1].
  apply drain_texts in E as (-> & Hi & Hs & Hk & Ht). split; [|congruence]. intros k. rewrite H1.
  destruct (str_eqb k c) eqn:Ek; [apply str_eqb_true in Ek as ->|].
  - unfold texts_of, sent_to. rewrite Hs, Hi, app_nil_r, <- app_assoc. done.
  - rewrite Hk; [done|]. intros ->. by rewrite str_eqb_refl in Ek.
Qed.
Lemma deliver_adds cf k now c text d r d' : store_ok (d_store d) -> opened c (d_store d) ->
  deliver_recorded cf k now c text d = (r, d') ->
  (is_ok r = true -> adds c [text] d d') /\ (lk_back k = None -> is_ok r = false -> adds c [] d d').
Proof.
  intros [_ Hid] Ho. unfold deliver_recorded. destruct (deliver_first _ _ _ _ _ _ _) as [f d1] eqn:Ef.
  apply (deliver_first_adds _ _ _ _ _ _ _ _ _ Ho) in Ef as [H1 Hc]. destruct f as [x|conv].
  { intros [= -> ->]. destruct r; split; try done. }
  pose proof (Hid _ _ (Hc _ eq_refl)) as Ec. unfold deliver_locked. rewrite Ec. cbn [taken_first] in H1.
  assert (Hgo : forall (x : result SbxError (option SbxError)) d2, adds c (if is_ok x then [text] else []) d1 d2 ->
    (x, d2) = (r, d') -> (is_ok r = true -> adds c [text] d d') /\ (lk_back k = None -> is_ok r = false -> adds c [] d d')).
  { intros x d2 H2 [= -> ->]. pose proof (adds_app _ _ _ _ _ _ H1 H2) as H3. split; [|intros _]; intros E; by rewrite E in H3. }
  destruct (_ && _).
  { destruct (on_store (queue _ _ _) d1) as [[u|e] d2] eqn:E; apply queue_adds in E; by apply Hgo. }
  destruct (on_store (drain _ _) d1) as [[texts|e] d2] eqn:Ed; [|apply drain_fails in Ed; by apply Hgo].
  assert (Hin : forall d3 x, adds c (if is_ok x then texts ++ [text] else []) d2 d3 -> (lk_back k = None -> is_ok x = true) ->
    (x, d3) = (r, d') -> (is_ok r = true -> adds c [text] d d') /\ (lk_back k = None -> is_ok r = false -> adds c [] d d')).
  { intros d3 x H3 Hx [= -> ->]. split; [|intros Hb E; by rewrite Hx in E]. intros E. rewrite E in H3.
    change [text] with ([] ++ [text]). eapply adds_app; [exact H1|]. eapply redelivered; eauto. }
  destruct (ensure_running cf k conv d2) as [[u|e] d3] eqn:Ee; apply ensure_running_texts in Ee.
  - unfold deliver_started. rewrite Ec. destruct (held d3 _).
    + destruct (put_back _ _ _ _ _ _) as [x d4] eqn:Ep. apply put_back_adds in Ep as [H2 H3]. apply Hin; [|done].
      eapply same_adds; [|exact H2]. etransitivity; [exact Ee|apply freeze_texts].
    + destruct (send_all _ _ _ _ _) as [x d4] eqn:Es. apply send_all_adds in Es as [H2 H3].
      * intros [= -> ->]. split; [|intros Hb E; by rewrite H3 in E]. intros E.
        change [text] with ([] ++ [text]). eapply adds_app; [exact H1|]. eapply redelivered; [eauto|]. eapply same_adds; eauto.
      * rewrite (same_inbox _ _ _ Ee). by apply drain_texts in Ed as (_ & ? & _).
  - destruct (put_back _ _ _ _ _ _) as [x d4] eqn:Ep. apply put_back_adds in Ep as [H2 H3]. apply Hin; [|done].
    by eapply same_adds.
Qed.

(** The conversations stay meanwhile. *)
Lemma send_all_kept disk answers c texts d r d' : send_all disk answers c texts d = (r, d') -> kept (d_store d) (d_store d').
Proof.
  revert answers d. induction texts as [|text texts IH]; intros answers d; cbn; [by intros [= <- <-]|].
  destruct answers as [|[why|] answers]; try (intros E; transitivity (d_store (send_one c text d)); [done|by eapply IH]).
  intros E. replace d' with (snd (put_back disk c (text :: texts) true (Some (RuntimeErr why)) d)) by by rewrite E.
  apply (put_back_calm disk c (text :: texts) true _ d).
  all: exact c.
Qed.
Lemma deliver_kept cf k now c text d r d' : deliver_recorded cf k now c text d = (r, d') -> kept (d_store d) (d_store d').
Proof.
  assert (P : forall disk cc texts retry x d1, kept (d_store d1) (d_store (snd (put_back disk cc texts retry x d1))))
    by (intros; apply (ca_local _ _ (put_back_calm _ _ _ _ _ _) c)).
  unfold deliver_recorded. destruct (deliver_first _ _ _ _ _ _ _) as [f d1] eqn:Ef. apply deliver_first_calm in Ef as [C1 _].
  pose proof (lo_store _ _ _ (ca_local _ _ C1 c)) as K1. destruct f as [x|conv]; [by intros [= <- <-]|].
  destruct (deliver_locked _ _ _ _ _) as [l d2] eqn:El. apply deliver_locked_calm in El as C2.
  pose proof (lo_store _ _ _ (ca_local _ _ C2 c)) as K2. destruct l as [x|texts]; [intros [= <- <-]; by transitivity (d_store d1)|].
  assert (K3 : kept (d_store d2) (d_store (snd (ensure_running cf k conv d2)))).
  { unfold ensure_running. destruct (lv_run _); [done|]. destruct (start_checks _ _ _); [|done].
    destruct (lk_start k); [|done]. unfold record_run.
    apply (on_store_calm _ (set_live (cv_id conv) (lv_with_run true false) (process_started (cv_id conv) d2))
      (update_kept _ _ _ _ (running_kept _))). exact c. }
  destruct (ensure_running cf k conv d2) as [[u|e] d3]; cbn [snd] in K3.
  - unfold deliver_started. destruct (held d3 _).
    + intros E. apply (f_equal snd) in E. cbn [snd] in E. rewrite <- E.
      transitivity (d_store d1); [done|]. transitivity (d_store d2); [done|]. transitivity (d_store d3); [done|].
      etransitivity; [|apply P]. by apply (freeze_spec _ _ _ _ _ d3 _ eq_refl).
    + intros E%send_all_kept. transitivity (d_store d1); [done|]. transitivity (d_store d2); [done|]. by transitivity (d_store d3).
  - intros E. apply (f_equal snd) in E. cbn [snd] in E. rewrite <- E.
    transitivity (d_store d1); [done|]. transitivity (d_store d2); [done|]. transitivity (d_store d3); [done|apply P].
Qed.

(** ** Reading a thread *)

Record texts_same (d d' : Daemon) : Prop := {
  tx_sent : d_sent d' = d_sent d;
  tx_inboxes : st_inboxes (d_store d') = st_inboxes (d_store d);
}.
Lemma texts_same_of c d d' : texts_same d d' -> texts_of c d' = texts_of c d.
Proof. intros [E1 E2]. unfold texts_of, sent_to, inbox. by rewrite E1, E2. Qed.
Lemma same_conversations_kept s s' : cs_conversations (st_convs s') = cs_conversations (st_convs s) -> kept s s'.
Proof. intros E. unfold kept, store_ok, conversation. rewrite E. split; [done|]. intros c x Hx. by exists x. Qed.
(** A cursor or a close: of the thread alone if written, else of nothing. *)
Lemma on_thread_ok disk id f d d' r : on_store (on_thread disk id f) d = (r, d') ->
  texts_same d d' /\ kept (d_store d) (d_store d') /\
  match disk with
  | None => r = Ok tt /\ thread id (d_store d') = f <$> thread id (d_store d)
  | Some e => r = Err (of_doc e) /\ thread id (d_store d') = thread id (d_store d)
  end.
Proof.
  unfold on_store, on_thread, on_convs, update. destruct disk as [e|]; cbn; intros [= <- <-];
    (split_and!; [by split|by apply same_conversations_kept|done|]); [done|].
  unfold thread. cbn. by rewrite map_get_change, str_eqb_refl.
Qed.
(** The messages that are not the agent's own. *)
Definition others (rec : AgentRecord) (ms : list Message) : list Message :=
  List.filter (fun m => negb (str_eqb (ms_from m) (ar_name rec))) ms.
Definition cursor_after (old : N) (seen : list Message) : N := default old (ms_seq <$> last seen).
Lemma cursor_after_cons old m seen : cursor_after old (m :: seen) = cursor_after (ms_seq m) seen.
Proof. unfold cursor_after. rewrite last_cons. by destruct (last seen). Qed.

Section reading.
Context (cf : Config) (luck : str -> Luck) (disk : N -> option DocError) (shut : option DocError) (now : N) (c : str).
Context (rec : AgentRecord) (t : ThreadView).
Context (Hback : forall x, lk_back (luck x) = None).
Let deliver x d := deliver_recorded cf (luck x) now c x d.
Let read := read_messages deliver disk shut rec t.

(** What the conversation got of the page, and where the cursor was left: a
    reading that failed at a delivery, at the write of the cursor of the last
    message it delivered, or at the write of a close with a full inbox. *)
Record read_upto (e : ReadEnd) (d d' : Daemon) (seen rest : list Message) : Prop := {
  ru_texts : texts_of c d' = texts_of c d ++ map (format_a2a t) (others rec seen);
  ru_end : match e with
           | ReadAll => rest = [] /\ cursor_of t d' = cursor_after (cursor_of t d) seen
           | ReadFailed _ =>
               (rest <> [] /\ cursor_of t d' = cursor_after (cursor_of t d) seen) \/
               (exists before m, seen = before ++ [m] /\ disk (ms_seq m) <> None /\
                  cursor_of t d' = cursor_after (cursor_of t d) before) \/
               (exists m more, rest = m :: more /\ shut <> None /\ cursor_of t d' = N.max (tv_last_seq t) (ms_seq m))
           | ReadClosed _ => tr_closed <$> thread (tv_thread_id t) (d_store d') = Some true
           end;
}.
(** One message more before. *)
Lemma read_upto_cons e m d d1 d2 d' seen rest : texts_of c d1 = texts_of c d ++ map (format_a2a t) (others rec [m]) ->
  texts_same d1 d2 -> cursor_of t d2 = ms_seq m -> read_upto e d2 d' seen rest -> read_upto e d d' (m :: seen) rest.
Proof.
  intros Ex Hs Hc [R1 R2]. split.
  - rewrite R1, (texts_same_of _ _ _ Hs), Ex, <- app_assoc. f_equal. unfold others. cbn [List.filter]. by destruct (negb _).
  - destruct e; [by rewrite cursor_after_cons, <- Hc|done|].
    destruct R2 as [R2|[(before & x & -> & Hx & R2)|R2]]; [left|right; left|by right; right].
    + by rewrite cursor_after_cons, <- Hc.
    + exists (m :: before), x. by rewrite cursor_after_cons, <- Hc.
Qed.
Let moved (m : Message) (ms : list Message) (d : Daemon) : ReadEnd * Daemon :=
  match on_store (set_thread_cursor (disk (ms_seq m)) (tv_thread_id t) (ms_seq m)) d with
  | (Ok _, d) => read ms d
  | (Err e, d) => (ReadFailed e, d)
  end.
Lemma read_cons m ms d : read (m :: ms) d =
  if str_eqb (ms_from m) (ar_name rec) then moved m ms d
  else match deliver (format_a2a t m) d with
       | (Ok _, d) => moved m ms d
       | (Err (Full why), d) =>
           match on_store (set_thread_cursor (disk (ms_seq m)) (tv_thread_id t) (N.max (tv_last_seq t) (ms_seq m))) d with
           | (Err e, d) => (ReadFailed e, d)
           | (Ok _, d) =>
               match on_store (set_thread_closed shut (tv_thread_id t)) d with
               | (Err e, d) => (ReadFailed e, d)
               | (Ok _, d) => (ReadClosed (take 500 (lit "sandbox: " ++ why)), d)
               end
           end
       | (Err e, d) => (ReadFailed e, d)
       end.
Proof. reflexivity. Qed.
#[local] Opaque format_a2a deliver_recorded lit.
(** A refused message: nothing was added, and the thread is as it was. *)
Lemma read_refused m ms d d1 x e d' : texts_of c d1 = texts_of c d -> is_Some (thread (tv_thread_id t) (d_store d)) ->
  thread (tv_thread_id t) (d_store d1) = thread (tv_thread_id t) (d_store d) ->
  match x with
  | Full why =>
      match on_store (set_thread_cursor (disk (ms_seq m)) (tv_thread_id t) (N.max (tv_last_seq t) (ms_seq m))) d1 with
      | (Err e, d) => (ReadFailed e, d)
      | (Ok _, d) =>
          match on_store (set_thread_closed shut (tv_thread_id t)) d with
          | (Err e, d) => (ReadFailed e, d)
          | (Ok _, d) => (ReadClosed (take 500 (lit "sandbox: " ++ why)), d)
          end
      end
  | x => (ReadFailed x, d1)
  end = (e, d') -> read_upto e d d' [] (m :: ms).
Proof.
  intros Ex [th Hth] Eth. rewrite Hth in Eth. assert (Hcur : cursor_of t d = tr_cursor th) by (unfold cursor_of; by rewrite Hth).
  assert (Hfail : forall d2, texts_same d1 d2 -> thread (tv_thread_id t) (d_store d2) = Some th ->
    forall y, read_upto (ReadFailed y) d d2 [] (m :: ms)).
  { intros d2 Hs Et y. split; [by rewrite (texts_same_of _ _ _ Hs), Ex, app_nil_r|]. left. split; [done|].
    unfold cursor_of. by rewrite Et, Hth. }
  assert (Hrefl : texts_same d1 d1) by by split.
  destruct x; try (intros [= <- <-]; by apply Hfail).
  destruct (on_store (set_thread_cursor _ _ _) d1) as [r1 d2] eqn:E1. apply on_thread_ok in E1 as (S1 & _ & H1).
  rewrite Eth in H1. destruct (disk (ms_seq m)) as [y|]; destruct H1 as [-> H1]; [intros [= <- <-]; by apply Hfail|].
  destruct (on_store (set_thread_closed _ _) d2) as [r2 d3] eqn:E2. apply on_thread_ok in E2 as (S2 & _ & H2).
  assert (Et : texts_of c d3 = texts_of c d ++ map (format_a2a t) (others rec []))
    by by rewrite (texts_same_of _ _ _ S2), (texts_same_of _ _ _ S1), Ex, app_nil_r.
  destruct shut as [y|] eqn:Esh; destruct H2 as [-> H2]; intros [= <- <-]; (split; [exact Et|]).
  - right. right. exists m, ms. split_and!; [done|by rewrite Esh|]. unfold cursor_of. by rewrite H2, H1.
  - by rewrite H2, H1.
Qed.
Lemma read_in_order ms d e d' : store_ok (d_store d) -> opened c (d_store d) -> is_Some (thread (tv_thread_id t) (d_store d)) ->
  read ms d = (e, d') -> exists seen rest, ms = seen ++ rest /\ read_upto e d d' seen rest.
Proof.
  revert d. induction ms as [|m ms IH]; intros d Hok Hop Ht.
  { intros E. injection E as <- <-. exists [], []. split; [reflexivity|]. split; [by rewrite app_nil_r|split; reflexivity]. }
  rewrite read_cons.
  assert (Hmoved : forall d1, kept (d_store d) (d_store d1) -> thread (tv_thread_id t) (d_store d1) = thread (tv_thread_id t) (d_store d) ->
    texts_of c d1 = texts_of c d ++ map (format_a2a t) (others rec [m]) ->
    moved m ms d1 = (e, d') -> exists seen rest, m :: ms = seen ++ rest /\ read_upto e d d' seen rest).
  { intros d1 K Et Ex. unfold moved. destruct (on_store _ d1) as [r d2] eqn:Es. intros E.
    apply on_thread_ok in Es as (Hs & K2 & Eth). rewrite Et in Eth. destruct Ht as [th Hth]. rewrite Hth in Eth.
    destruct (disk (ms_seq m)) as [y|] eqn:Edisk; destruct Eth as [-> Eth].
    - injection E as <- <-. exists [m], ms. split; [done|]. split; [by rewrite (texts_same_of _ _ _ Hs)|].
      right. left. exists [], m. split_and!; [done|by rewrite Edisk|]. unfold cursor_of. by rewrite Eth, Hth.
    - destruct (IH d2) as (seen & rest & -> & R); [by apply K2, K|by eapply opened_kept, opened_kept|by rewrite Eth|done|].
      exists (m :: seen), rest. split; [done|]. eapply read_upto_cons; [exact Ex|exact Hs| |exact R].
      unfold cursor_of. by rewrite Eth. }
  destruct (str_eqb (ms_from m) (ar_name rec)) eqn:Eown.
  { apply Hmoved; [done|done|]. unfold others. cbn. by rewrite Eown, app_nil_r. }
  destruct (deliver (format_a2a t m) d) as [r d1] eqn:Ed. pose proof (deliver_kept _ _ _ _ _ _ _ _ Ed) as K.
  destruct (deliver_adds _ _ _ _ _ _ _ _ Hok Hop Ed) as [Hyes Hno]. destruct r as [x|x]; cbn [is_ok] in Hyes, Hno.
  - destruct (Hyes eq_refl) as [Ex Eth]. apply Hmoved; [done|by unfold thread; rewrite Eth|]. rewrite (Ex c), str_eqb_refl.
    unfold others. cbn. by rewrite Eown.
  - destruct (Hno (Hback _) eq_refl) as [Ex Eth]. specialize (Ex c). rewrite str_eqb_refl, app_nil_r in Ex.
    intros E. exists [], (m :: ms). split; [done|]. apply read_refused with (d1 := d1) (x := x); [done|done| |by destruct x].
    unfold thread. by rewrite Eth.
Qed.
End reading.
Lemma rest_after old seen rest : StronglySorted (fun a b => (ms_seq a < ms_seq b)%N) (seen ++ rest) ->
  Forall (fun m => (old < ms_seq m)%N) (seen ++ rest) ->
  List.filter (fun m => N.ltb (cursor_after old seen) (ms_seq m)) (seen ++ rest) = rest.
Proof.
  assert (Hall : forall n l, Forall (fun m => (n < ms_seq m)%N) l -> List.filter (fun m => N.ltb n (ms_seq m)) l = l).
  { intros n l. induction 1 as [|m l Hm _ IH]; cbn; [done|]. by rewrite (proj2 (N.ltb_lt _ _) Hm), IH. }
  revert old. induction seen as [|m seen IH]; intros old Hs Ho; [by apply Hall|].
  rewrite cursor_after_cons. cbn [app List.filter] in *. apply StronglySorted_inv in Hs as [Hs Hm].
  assert (Hle : (ms_seq m <= cursor_after (ms_seq m) seen)%N).
  { unfold cursor_after. destruct (last seen) as [x|] eqn:El; cbn; [|lia]. apply last_Some_elem_of in El.
    rewrite Forall_forall in Hm. apply N.lt_le_incl, Hm, elem_of_app. by left. }
  rewrite (proj2 (N.ltb_ge _ _) Hle). by apply IH.
Qed.

(** A text that was accepted for an open conversation is never lost and
    never overtakes another: whatever the runtime, the host and the holds
    do, it stands after all the texts the conversation was sent or has
    waiting, and no other conversation's change; a text that was refused
    changes none, as long as what was drained can be put back. *)
Theorem deliveries_lose_nothing cf k now c text d r d' : store_ok (d_store d) -> opened c (d_store d) -> lk_back k = None ->
  deliver_recorded cf k now c text d = (r, d') ->
  texts_of c d' = texts_of c d ++ (if is_ok r then [text] else []) /\ forall c', c' <> c -> texts_of c' d' = texts_of c' d.
Proof.
  intros Hok Ho Hb E. destruct (deliver_adds _ _ _ _ _ _ _ _ Hok Ho E) as [Hy Hn].
  assert (H : adds c (if is_ok r then [text] else []) d d') by (destruct (is_ok r) eqn:Er; auto).
  destruct H as [H _]. split; [by rewrite (H c), str_eqb_refl|]. intros c' Hc. rewrite (H c').
  destruct (str_eqb c' c) eqn:Ec; [by apply str_eqb_true in Ec|by rewrite app_nil_r].
Qed.

(** C31: a thread is read in order, none of its messages skipped, and each
    once while its cursor can be written: whatever becomes of the deliveries
    and of the writes of the cursor and of a close, the conversation gets
    exactly a first part of the page, its agent's own messages left out. A
    reading to the end leaves nothing to be read; one that fails at a delivery
    leaves exactly the rest; one that fails to write the cursor of a message
    it delivered leaves that message, to be delivered again, and the rest; and
    a full inbox closes the thread, or, where the close cannot be written,
    leaves the cursor past the thread as it was seen. It is taken as given
    that the texts a failing delivery drained from the inbox can be put back
    there. *)
Theorem thread_read_in_order cf luck disk shut now c rec t ms d e d' : store_ok (d_store d) -> opened c (d_store d) ->
  is_Some (thread (tv_thread_id t) (d_store d)) -> (forall x, lk_back (luck x) = None) ->
  StronglySorted (fun a b => (ms_seq a < ms_seq b)%N) ms -> Forall (fun m => (cursor_of t d < ms_seq m)%N) ms ->
  read_messages (fun x d => deliver_recorded cf (luck x) now c x d) disk shut rec t ms d = (e, d') ->
  exists seen rest, ms = seen ++ rest /\ texts_of c d' = texts_of c d ++ map (format_a2a t) (others rec seen) /\
    let unread := List.filter (fun m => N.ltb (cursor_of t d') (ms_seq m)) ms in
    match e with
    | ReadAll => rest = [] /\ unread = []
    | ReadFailed _ =>
        (rest <> [] /\ unread = rest) \/
        (exists before m, seen = before ++ [m] /\ disk (ms_seq m) <> None /\ unread = m :: rest) \/
        (exists m more, rest = m :: more /\ shut <> None /\ cursor_of t d' = N.max (tv_last_seq t) (ms_seq m))
    | ReadClosed _ => tr_closed <$> thread (tv_thread_id t) (d_store d') = Some true
    end.
Proof.
  intros Hok Ho Ht Hb Hs Hc E.
  destruct (read_in_order cf luck disk shut now c rec t Hb ms d e d' Hok Ho Ht E) as (seen & rest & -> & [R1 R2]).
  exists seen, rest. split; [done|]. split; [exact R1|]. pose proof (rest_after _ _ _ Hs Hc) as Hr. cbv zeta.
  destruct e; [destruct R2 as [-> ->]; by split|exact R2|].
  destruct R2 as [[? ->]|[(before & m & -> & Hm & ->)|R2]]; [by left|right; left|by right; right].
  exists before, m. split_and!; [done|done|]. rewrite <- app_assoc in *. by apply rest_after.
Qed.
#[local] Transparent format_a2a deliver_recorded lit.

(** ** Holds *)


(** ** Runs *)

Module SampleSandbox.
Definition vm : Config := mkConfig (lit "vm") 5000 5010 (lit "claude") [lit "claude"; lit "codex"] false None.
Definition me : str := lit "codex-web-vm-sandbox".
Definition c0 : str := lit "0123456789ab".
Definition conv0 : Conversation :=
  mkConversation c0 me (lit "codex") None None Parked (lit "default") (lit "a task") (lit "operator") 0 0 0.
Definition d0 : Daemon :=
  mkDaemon (mkStore [(me, mkAgentRecord me (lit "a1") (lit "k1") (Some (lit "codex")) (Some (lit "web")) (lit "key") 0)]
              (mkProjects [(lit "web", mkProjectRecord (lit "web") 5001 true 0)] [] []) (mkFlags false ∅ None)
              (mkConversations [(c0, conv0)] [] 0) [])
    (mkHolds false ∅) [] ∅ ∅ ∅ None [].
Definition text : str := lit "hello".
Definition y0 : Sys := sys_start d0.

(** The lockdown, and what its job does when it finds the conversation
    open. *)
Definition locked_down (y : Sys) : Sys := with_d y (snd (hold None None Lockdown None (y_d y))).
Definition job_taken (y : Sys) : Sys :=
  match d_jobs (y_d y) with
  | j :: jobs => mkSys (with_jobs (y_d y) jobs) (Some (j, conversations None false (d_store (y_d y)))) None (y_ops y) (y_wait y)
  | [] => y
  end.
Definition frozen_by_job (y : Sys) : Sys :=
  match y_cur y with
  | Some (j, conv :: convs) =>
      mkSys (freeze_conversation true true true None (cv_id conv) (y_d y)) (Some (j, convs)) None (y_ops y) (y_wait y)
  | _ => y
  end.
Definition job_done (y : Sys) : Sys := mkSys (y_d y) None None (y_ops y) (y_wait y).

(** A delivery, up to the start of the process. *)
Definition waiting : Sys :=
  Eval vm_compute in mkSys (snd (deliver_first vm None None 0 c0 text d0)) None None ∅ [(conv0, text)].
Definition starting : Sys :=
  Eval vm_compute in
    mkSys (snd (deliver_locked vm None conv0 text (y_d waiting))) None None {[c0 := OStarting conv0 [text]]} [].
Definition has_started : Sys :=
  Eval vm_compute in with_op starting c0 (Some (OStarted conv0 [text] None)) (process_started c0 (y_d starting)).
(** Held while it starts; recorded, looked at, and frozen. *)
Definition held_starting : Sys := Eval vm_compute in job_done (frozen_by_job (job_taken (locked_down has_started))).
End SampleSandbox.
Import SampleSandbox.

(** The sections, those of [gap] included. *)
Definition any_step : Sys -> Sys -> Prop := run_step vm {[c0]}.
Lemma step_to y y' y'' : step vm y y' -> y' = y'' -> rtc (step vm) y y''.
Proof. intros Hs <-. by apply rtc_once. Qed.
Lemma gap_to y y' y'' : gap vm c0 y y' -> y' = y'' -> rtc any_step y y''.
Proof. intros Hs <-. apply rtc_once. right. exists c0. split; [by apply elem_of_singleton|done]. Qed.
Lemma step_any g y y' : rtc (step vm) y y' -> rtc (run_step vm g) y y'.
Proof. apply rtc_subrel. intros ? ?. by left. Qed.
(** A lockdown while one conversation is open, or none. *)
Lemma locks_down y x : y_cur y = None -> y_thaw y = None -> d_jobs (y_d y) = [] ->
  conversations None false (d_store (y_d (locked_down y))) = [x] -> held (y_d y) (cv_agent x) = false ->
  rtc (step vm) y (job_done (frozen_by_job (job_taken (locked_down y)))).
Proof.
  intros Hc Ht Hj Hx Hh. set (j := mkHoldJob (apply (d_holds (y_d y)) Lockdown) None).
  assert (Hj' : d_jobs (y_d (locked_down y)) = [j]) by (unfold locked_down, hold; cbn; by rewrite Hj).
  apply rtc_l with (locked_down y); [apply S_hold|].
  apply rtc_l with (job_taken (locked_down y)).
  { unfold job_taken. rewrite Hj'. apply S_next; [exact Hc|exact Hj']. }
  assert (E : y_cur (job_taken (locked_down y)) = Some (j, [x])) by (unfold job_taken; by rewrite Hj', <- Hx).
  apply rtc_l with (frozen_by_job (job_taken (locked_down y))).
  { unfold frozen_by_job. rewrite E. eapply S_effect_freeze; [exact E| |].
    - unfold job_taken. by rewrite Hj'.
    - unfold effect. replace (action (hj_applied j) (cv_agent x)) with Freeze; [done|].
      symmetry. apply action_freeze; [exact Hh|done]. }
  apply rtc_once. unfold job_done. eapply S_done with (j := j); unfold frozen_by_job; rewrite E; done.
Qed.

Lemma waiting_reached : rtc (step vm) y0 waiting.
Proof. eapply step_to; [apply (S_wait vm y0 None None 0 c0 text conv0)|]; vm_compute; reflexivity. Qed.
Lemma start_reached : rtc (step vm) waiting has_started.
Proof.
  apply rtc_trans with starting.
  { eapply step_to; [apply (S_locked vm waiting None conv0 text [] [] (Pending [text]))|]; vm_compute; reflexivity. }
  eapply step_to; [apply (S_start vm starting c0 conv0 [text] None)|]; vm_compute; reflexivity.
Qed.
Lemma held_starting_reached : rtc (step vm) y0 held_starting.
Proof.
  apply rtc_trans with waiting; [apply waiting_reached|]. apply rtc_trans with has_started; [apply start_reached|].
  apply (locks_down has_started (conv_touched 0 conv0)); vm_compute; reflexivity.
Qed.


(** A thread of the conversation with three messages, one the agent's own;
    the second cannot start the process, and waits. *)
Definition bound : Daemon := Eval vm_compute in snd (on_store (bind_thread None (lit "t1") c0 (Some (lit "peer")) None None) d0).
Definition the_thread : ThreadView := mkThreadView (lit "t1") (Some (lit "peer")) (lit "open") None 3 false None.
Definition the_agent : AgentRecord := mkAgentRecord me (lit "a1") (lit "k1") (Some (lit "codex")) (Some (lit "web")) (lit "key") 0.
Definition page : list Message := [mkMessage (lit "peer") 1 []; mkMessage me 2 []; mkMessage (lit "peer") 3 []].
Definition no_start (x : str) : Luck := mkLuck None None None None None None (Err (RuntimeErr (lit "no slot"))) true true [].
Definition after_page : ReadEnd * Daemon :=
  Eval vm_compute in read_messages (fun x d => deliver_recorded vm (no_start x) 0 c0 x d) (fun _ => None) None the_agent the_thread page bound.
Lemma bound_ok : store_ok (d_store bound).
Proof.
  split; [vm_compute; split; [constructor|done]|]. intros c x. unfold conversation, bound. cbn [map_get d_store st_convs cs_conversations].
  match goal with |- context [str_eqb c ?k] => destruct (str_eqb c k) eqn:E end; [|done]. apply str_eqb_true in E as ->. by intros [= <-].
Qed.
Lemma thread_read_in_order_witness :
  store_ok (d_store bound) /\ fst after_page = ReadAll /\ length (inbox c0 (d_store (snd after_page))) = 2 /\
  exists seen rest, page = seen ++ rest /\ texts_of c0 (snd after_page) = texts_of c0 bound ++ map (format_a2a the_thread) (others the_agent seen) /\
    rest = [] /\ List.filter (fun m => N.ltb (cursor_of the_thread (snd after_page)) (ms_seq m)) page = [].
Proof.
  split; [exact bound_ok|]. split; [reflexivity|]. split; [vm_compute; reflexivity|].
  refine (thread_read_in_order vm no_start (fun _ => None) None 0 c0 the_agent the_thread page bound ReadAll (snd after_page) bound_ok _ _ _ _ _ _).
  - eexists. split; [vm_compute; reflexivity|]. vm_compute. discriminate.
  - eexists. vm_compute. reflexivity.
  - reflexivity.
  - repeat constructor.
  - repeat constructor.
  - vm_compute. reflexivity.
Defined.
Lemma deliveries_lose_nothing_witness :
  exists d', deliver_recorded vm (no_start text) 0 c0 text bound = (Ok (Some (RuntimeErr (lit "no slot"))), d') /\
    texts_of c0 d' = texts_of c0 bound ++ [text] /\ forall c', c' <> c0 -> texts_of c' d' = texts_of c' bound.
Proof.
  eexists. split; [vm_compute; reflexivity|].
  refine (deliveries_lose_nothing vm (no_start text) 0 c0 text bound (Ok (Some (RuntimeErr (lit "no slot")))) _ bound_ok _ eq_refl _).
  - eexists. split; [vm_compute; reflexivity|]. vm_compute. discriminate.
  - vm_compute. reflexivity.
Defined.

(** ** Round the holds *)

(** A held agent's process that runs, unfrozen, with nothing more to come. *)
Definition runs_held (y : Sys) : Prop :=
  y_cur y = None /\ d_jobs (y_d y) = [] /\ y_ops y !! c0 = None /\ y_wait y = [] /\ held (y_d y) me = true /\
  agent_is c0 me (d_store (y_d y)) /\ (d_procs (y_d y) !! c0 = Some false \/ d_tuis (y_d y) !! c0 = Some false).

(** An attach to a runtime that shares its process: locked down as it
    starts the process, refused after, and the process stays. *)
Definition attaching : Sys := Eval vm_compute in with_op y0 c0 (Some (OTui conv0)) (set_live c0 id (y_d y0)).
Definition attach_held : Sys := Eval vm_compute in job_done (frozen_by_job (job_taken (locked_down attaching))).
Definition attach_run : Sys :=
  Eval vm_compute in with_d attach_held (snd (record_run None c0 None (process_started c0 (y_d attach_held)))).
Definition attach_refused : Sys := Eval vm_compute in with_op attach_run c0 None (stop_tui c0 (y_d attach_run)).
Lemma attaching_reached : rtc (step vm) y0 attaching.
Proof. eapply step_to; [apply (S_attach vm y0 c0 conv0); vm_compute; done|vm_compute; reflexivity]. Qed.
Lemma attach_gap : rtc any_step y0 attach_refused /\ runs_held attach_refused.
Proof.
  split; [|unfold runs_held, agent_is; split_and!; try (vm_compute; reflexivity); [by eexists|by left]].
  apply rtc_trans with attach_held.
  { apply step_any. apply rtc_trans with attaching; [apply attaching_reached|].
    apply (locks_down attaching conv0); vm_compute; reflexivity. }
  apply rtc_trans with attach_run.
  - eapply gap_to; [apply (G_attach_run vm c0 attach_held conv0 Codex None); vm_compute; reflexivity|vm_compute; reflexivity].
  - apply step_any. eapply step_to; [apply (S_tui_fails vm attach_run c0 conv0); right; vm_compute; reflexivity|vm_compute; reflexivity].
Qed.

(** A start that cannot be recorded: the process stays, and nobody looks at
    the holds. *)
Definition disk_full : DocError := DocIo (lit "conversations.json") (lit "No space left on device").
Definition unrecorded : Sys :=
  Eval vm_compute in
    with_op held_starting c0 None (snd (put_back None c0 [text] true (Some (of_doc disk_full))
      (snd (record_run (Some disk_full) c0 None (y_d held_starting))))).
Lemma record_gap : rtc any_step y0 unrecorded /\ runs_held unrecorded.
Proof.
  split; [|unfold runs_held, agent_is; split_and!; try (vm_compute; reflexivity); [by eexists|by left]].
  apply rtc_trans with held_starting; [apply step_any, held_starting_reached|].
  eapply gap_to; [apply (G_record_fails vm c0 held_starting conv0 [text] None disk_full None); vm_compute; reflexivity
                 |vm_compute; reflexivity].
Qed.
(** The same of a terminal. *)
Definition tui_up : Sys := Eval vm_compute in with_op attaching c0 (Some (OTuiStarted conv0)) (tui_started c0 (y_d attaching)).
Definition tui_held : Sys := Eval vm_compute in job_done (frozen_by_job (job_taken (locked_down tui_up))).
Definition tui_unrecorded : Sys :=
  Eval vm_compute in with_op tui_held c0 None (snd (record_tui (Some disk_full) c0 (y_d tui_held))).
Lemma tui_record_gap : rtc any_step y0 tui_unrecorded /\ runs_held tui_unrecorded.
Proof.
  split; [|unfold runs_held, agent_is; split_and!; try (vm_compute; reflexivity); [by eexists|by right]].
  apply rtc_trans with tui_held.
  { apply step_any. apply rtc_trans with attaching; [apply attaching_reached|]. apply rtc_trans with tui_up.
    - eapply step_to; [apply (S_tui_start vm attaching c0 conv0); vm_compute; reflexivity|vm_compute; reflexivity].
    - apply (locks_down tui_up conv0); vm_compute; reflexivity. }
  eapply gap_to; [apply (G_tui_record_fails vm c0 tui_held conv0 disk_full); vm_compute; reflexivity|vm_compute; reflexivity].
Qed.

(** A close while a delivery waits for the lock: the delivery starts the
    process after the close stopped it, the close then forgets it, and the
    lockdown that follows does not find it. *)
Definition close_started : Sys :=
  Eval vm_compute in with_op has_started c0 (Some (OCheck conv0 [text])) (snd (record_run None c0 None (y_d has_started))).
Definition close_checked : Sys := Eval vm_compute in with_op close_started c0 (Some (OSending conv0 [text])) (y_d close_started).
Definition close_sending : Sys :=
  Eval vm_compute in with_op close_checked c0 (Some (OSending conv0 [])) (send_one c0 text (y_d close_checked)).
Definition close_sent : Sys :=
  Eval vm_compute in with_op close_sending c0 None (set_live c0 (lv_with_retry false) (y_d close_sending)).
Definition close_marked : Sys := Eval vm_compute in with_d close_sent (snd (close_mark None c0 (y_d close_sent))).
Definition close_locked : Sys := Eval vm_compute in locked_down close_marked.
Definition close_held : Sys := Eval vm_compute in job_done (job_taken close_locked).
Lemma close_gap : rtc any_step y0 close_held /\ runs_held close_held.
Proof.
  split; [|unfold runs_held, agent_is; split_and!; try (vm_compute; reflexivity); [by eexists|by left]].
  apply rtc_trans with close_sent.
  { apply step_any. apply rtc_trans with waiting; [apply waiting_reached|].
    apply rtc_trans with waiting; [eapply step_to; [apply (S_close vm waiting c0)|]; vm_compute; reflexivity|].
    apply rtc_trans with has_started; [apply start_reached|].
    apply rtc_trans with close_started.
    { eapply step_to; [apply (S_record vm has_started c0 conv0 [text] None)|]; vm_compute; reflexivity. }
    apply rtc_trans with close_checked; [eapply step_to; [apply (S_check vm close_started c0 conv0 [text])|]; vm_compute; reflexivity|].
    apply rtc_trans with close_sending; [eapply step_to; [apply (S_send vm close_checked c0 conv0 text [])|]; vm_compute; reflexivity|].
    eapply step_to; [apply (S_sent vm close_sending c0 conv0)|]; vm_compute; reflexivity. }
  apply rtc_trans with close_marked; [eapply gap_to; [apply (G_close_mark vm c0 close_sent None)|vm_compute; reflexivity]|].
  apply step_any. apply rtc_trans with close_locked.
  { eapply step_to; [apply (S_hold vm close_marked None None Lockdown None)|vm_compute; reflexivity]. }
  eapply rtc_l; [|eapply step_to; [eapply (S_done vm (job_taken close_locked))|]; vm_compute; reflexivity].
  apply (S_next vm close_locked); vm_compute; reflexivity.
Qed.
