(* ===== verification/Store.v ===== *)
(** The database kernel's shared parts ([crates/store/src]: [tx.rs],
    [error.rs], [values.rs], [agents.rs], [lockdown.rs], [rules.rs]):
    transactions, the rows, containment, and the saved rules.

    A transaction is a function of the database: an error drops it, so
    nothing it wrote is kept ([Tx] rolls back when it is dropped). The rows
    are the parsed rows; the forms they are stored in are [Authority.v]'s. *)

From stdpp Require Import gmap.
From S2P Require Import Prelude Json Glob Pyfmt Lifecycle Names Durations Pool Mail Authority Routing Agents Hostexec Schema Policy Zones Eval.
From stdpp Require Import options.

(** Ids are UUIDs, 128-bit numbers; an instant counts nanoseconds. *)
Abbreviation AgentId := N (only parsing).
Abbreviation GrantId := N (only parsing).
Abbreviation SessionId := N (only parsing).
Abbreviation ThreadId := N (only parsing).
Abbreviation DaemonId := N (only parsing).

Definition seconds (n : N) : Z := Z.of_N n * 1000000000.
(** The last instant of year 9999, where [OffsetDateTime] ends. *)
Definition MAX_INSTANT : Instant := 253402300799999999999.
Definition checked_add (now : Instant) (d : Z) : option Instant :=
  if (now + d <=? MAX_INSTANT)%Z then Some (now + d)%Z else None.

(** ** Errors *)

(** What a constraint of the database refused. *)
Inductive Violation := UniqueViolation | CheckViolation | ForeignKeyViolation.

Inductive StoreError :=
| Db (violation : Violation)
| Corrupt (table detail : str)
| OutOfRange (what : str)
| WrongProof.

Definition is_unique_violation (e : StoreError) : bool :=
  match e with Db UniqueViolation => true | _ => false end.
Definition is_check_violation (e : StoreError) : bool :=
  match e with Db CheckViolation => true | _ => false end.
Definition is_foreign_key_violation (e : StoreError) : bool :=
  match e with Db ForeignKeyViolation => true | _ => false end.

Definition MAX_I32 : N := 2147483647.
(** [to_i32]: refused, not truncated. *)
Definition to_i32 (n : N) : result StoreError N :=
  if N.leb n MAX_I32 then Ok n else Err (OutOfRange (show_N n)).
Definition opt_to_i32 (n : option N) : result StoreError (option N) :=
  match n with None => Ok None | Some n => Some <$> to_i32 n end.

(** ** Rows *)

(** [values::Delegation]: both columns or neither. *)
Record Anchor := mkAnchor { thread_id : ThreadId; delegator_agent_id : AgentId }.
Definition from_columns (table : str) (thread delegator : option N) : result StoreError (option Anchor) :=
  match thread, delegator with
  | None, None => Ok None
  | Some t, Some d => Ok (Some (mkAnchor t d))
  | _, _ => Err (Corrupt table (lit "half a delegation"))
  end.

Inductive DisableReason := ByOperator | LeaseOver | Unpaired.
Definition DisableReason_as_str (r : DisableReason) : str :=
  match r with
  | ByOperator => lit "operator" | LeaseOver => lit "lease" | Unpaired => lit "unpaired"
  end.
Definition DisableReason_parse (s : str) : option DisableReason :=
  find (fun r => str_eqb (DisableReason_as_str r) s) [ByOperator; LeaseOver; Unpaired].

Record AgentRow := mkAgentRow {
  ag_id : AgentId;
  ag_name : str;
  ag_description : str;
  ag_key_id : str;
  ag_api_key_hash : str;
  ag_webhook_url : option str;
  ag_webhook_secret : option str;
  ag_lldap : option str * option str;
  ag_disabled : bool;
  ag_disabled_reason : option DisableReason;
  ag_kind : AgentKind;
  ag_last_seen_at : option Instant;
  ag_last_listen_at : option Instant;
  ag_parent : option AgentId;
  ag_sandbox : option DaemonId;
  ag_runtime : option str;
  ag_project : option str;
  ag_host : option str;
  ag_placement : Placement;
  ag_lease : option Instant;
  ag_created_at : Instant;
}.

(** [policy_ref], [facts] and [facts_with]. *)
Definition policy_ref (a : AgentRow) : AgentRef :=
  mkAgent (ag_name a) (ag_runtime a) (ag_project a) (ag_host a) (ag_placement a) (ag_kind a).
Definition facts (a : AgentRow) : Containment.AgentFacts := Containment.mkFacts (policy_ref a) [].
Definition facts_with (a : AgentRow) (ancestors : list Containment.AgentFacts) : Containment.AgentFacts :=
  Containment.mkFacts (policy_ref a) ancestors.

Inductive ContainmentSource := FromOperator | FromAgent | FromLockdown | Unspecified.
#[export] Instance ContainmentSource_eq_dec : EqDecision ContainmentSource.
Proof. solve_decision. Defined.
Definition ContainmentSource_as_str (s : ContainmentSource) : str :=
  match s with
  | FromOperator => lit "operator" | FromAgent => lit "agent" | FromLockdown => lit "lockdown"
  | Unspecified => []
  end.

Record ContainmentEntry := mkEntry {
  ce_id : str;
  ce_match : Value;
  ce_reason : str;
  ce_evidence : str;
  ce_by : str;
  ce_source : ContainmentSource;
  ce_at : Instant;
}.

Definition held_text (e : ContainmentEntry) : str :=
  let reason := if bool_decide (ce_reason e = []) then lit "by the operator" else ce_reason e in
  lit "contained (" ++ ce_id e ++ lit "): " ++ reason.

Inductive ThreadState := ThreadPending | ThreadOpen | ThreadClosed.
#[export] Instance ThreadState_eq_dec : EqDecision ThreadState.
Proof. solve_decision. Defined.

Inductive CloseReason := Rejected | Closed | OpenTimeout | IdleTimeout | PeerGone | GrantRevoked.
Definition CloseReason_as_str (r : CloseReason) : str :=
  match r with
  | Rejected => lit "rejected" | Closed => lit "closed" | OpenTimeout => lit "open_timeout"
  | IdleTimeout => lit "idle_timeout" | PeerGone => lit "peer_gone" | GrantRevoked => lit "grant_revoked"
  end.

Record ThreadRow := mkThread {
  th_id : ThreadId;
  th_initiator : AgentId;
  th_initiator_session : option SessionId;
  th_responder : AgentId;
  th_responder_session : option SessionId;
  th_topic : option str;
  th_grant : option GrantId;
  th_state : ThreadState;
  th_accepted_at : option Instant;
  th_closed_at : option Instant;
  th_close_reason : option CloseReason;
  th_closed_by : option AgentId;
  th_close_note : option str;
  th_last_activity : Instant;
  th_last_seq : N;
  th_created_at : Instant;
}.

Record MessageRow := mkMessage {
  me_id : N;
  me_thread : ThreadId;
  me_seq : N;
  me_sender : AgentId;
  me_sender_session : option SessionId;
  me_recipient : AgentId;
  me_grant : option GrantId;
  me_payload : str;
  me_created_at : Instant;
}.

Section rows.
Context `{DateLib}.

Record ApprovedEdit := mkEdit { ed_resource : str; ed_authority : Authority }.

Record DiscordRefs := mkDiscord {
  channel_id : option Z; message_id : option Z; discord_thread : option Z }.

Record RequestRow := mkRequest {
  rq_id : RequestId;
  rq_agent : AgentId;
  rq_session : option SessionId;
  rq_delegation : option Anchor;
  rq_platform : Platform;
  rq_resource : str;
  rq_capability : str;
  rq_scope : list (str * Value);
  rq_authority : option Authority;
  rq_justification : str;
  rq_duration : N;
  rq_notes : list str;
  rq_status : RequestStatus;
  rq_attempt : N;
  rq_source : option DecisionSource;
  rq_decided_by : option str;
  rq_reason : option str;
  rq_approved_duration : option N;
  rq_edit : option ApprovedEdit;
  rq_decided_at : option Instant;
  rq_discord : DiscordRefs;
  rq_created_at : Instant;
  rq_updated_at : Instant;
}.

(** What a grant would be for: the human's edit, else the request. *)
Definition final_resource (r : RequestRow) : str :=
  match rq_edit r with Some e => ed_resource e | None => rq_resource r end.
Definition final_authority (r : RequestRow) : option Authority :=
  match rq_edit r with Some e => Some (ed_authority e) | None => rq_authority r end.

Record GrantRow := mkGrant {
  gr_id : GrantId;
  gr_request : RequestId;
  gr_agent : AgentId;
  gr_session : option SessionId;
  gr_delegation : option Anchor;
  gr_platform : Platform;
  gr_resource : str;
  gr_authority : Authority;
  gr_granted_at : Instant;
  gr_expires_at : Instant;
  gr_status : GrantStatus;
  gr_state : Value;
  gr_revoked_at : option Instant;
  gr_revoke_reason : option str;
  gr_created_at : Instant;
}.
(** Active and unexpired. *)
Definition is_live (g : GrantRow) (now : Instant) : bool :=
  bool_decide (gr_status g = GActive) && Z.ltb now (gr_expires_at g).

Record RuleRow := mkRule {
  ru_id : RuleId;
  ru_action : SavedRuleAction;
  ru_agent_pattern : str;
  ru_delegator_pattern : option str;
  ru_platform : Platform;
  ru_resource_pattern : str;
  ru_authority : option Authority;
  ru_max_duration : option N;
  ru_enabled : bool;
  ru_created_by : str;
  ru_notes : str;
  ru_expires_at : option Instant;
  ru_created_at : Instant;
}.
Definition rule_is_live (r : RuleRow) (now : Instant) : bool :=
  ru_enabled r && match ru_expires_at r with None => true | Some e => Z.ltb now e end.

(** ** The database *)

(** Containment entries in order of [position]; rules in order of [seq];
    the creator of each mail alias the broker made; the evaluations'
    requests and attempts; the agent VMs' daemons' names. *)
Record Database := mkDb {
  db_agents : gmap N AgentRow;
  db_requests : gmap N RequestRow;
  db_grants : gmap N GrantRow;
  db_threads : gmap N ThreadRow;
  db_messages : list MessageRow;
  db_entries : list ContainmentEntry;
  db_rules : list RuleRow;
  db_aliases : gmap str AgentId;
  db_evaluations : list (RequestId * N);
  db_daemons : gmap N str;
}.
Definition Database_empty : Database := mkDb ∅ ∅ ∅ ∅ [] [] [] ∅ [] ∅.

Definition with_agents (db : Database) (x : gmap N AgentRow) : Database :=
  mkDb x (db_requests db) (db_grants db) (db_threads db) (db_messages db) (db_entries db) (db_rules db)
  (db_aliases db) (db_evaluations db) (db_daemons db).
Definition with_requests (db : Database) (x : gmap N RequestRow) : Database :=
  mkDb (db_agents db) x (db_grants db) (db_threads db) (db_messages db) (db_entries db) (db_rules db)
  (db_aliases db) (db_evaluations db) (db_daemons db).
Definition with_grants (db : Database) (x : gmap N GrantRow) : Database :=
  mkDb (db_agents db) (db_requests db) x (db_threads db) (db_messages db) (db_entries db) (db_rules db)
  (db_aliases db) (db_evaluations db) (db_daemons db).
Definition with_threads (db : Database) (x : gmap N ThreadRow) : Database :=
  mkDb (db_agents db) (db_requests db) (db_grants db) x (db_messages db) (db_entries db) (db_rules db)
  (db_aliases db) (db_evaluations db) (db_daemons db).
Definition with_messages (db : Database) (x : list MessageRow) : Database :=
  mkDb (db_agents db) (db_requests db) (db_grants db) (db_threads db) x (db_entries db) (db_rules db)
  (db_aliases db) (db_evaluations db) (db_daemons db).
Definition with_entries (db : Database) (x : list ContainmentEntry) : Database :=
  mkDb (db_agents db) (db_requests db) (db_grants db) (db_threads db) (db_messages db) x (db_rules db)
  (db_aliases db) (db_evaluations db) (db_daemons db).
Definition with_rules (db : Database) (x : list RuleRow) : Database :=
  mkDb (db_agents db) (db_requests db) (db_grants db) (db_threads db) (db_messages db) (db_entries db) x
  (db_aliases db) (db_evaluations db) (db_daemons db).
Definition with_evaluations (db : Database) (x : list (RequestId * N)) : Database :=
  mkDb (db_agents db) (db_requests db) (db_grants db) (db_threads db) (db_messages db) (db_entries db) (db_rules db)
  (db_aliases db) x (db_daemons db).
End rows.

(** ** Transactions *)

Section transaction.
Context `{DateLib}.

(** What a transaction does: its result and the database it would commit,
    or the error that drops it. *)
Definition tx (E A : Type) : Type := Database -> result E (A * Database).

Definition tx_ret {E A} (a : A) : tx E A := fun db => Ok (a, db).
Definition tx_bind {E A B} (m : tx E A) (f : A -> tx E B) : tx E B := fun db =>
  match m db with Ok (a, db') => f a db' | Err e => Err e end.
Definition tx_fail {E A} (e : E) : tx E A := fun _ => Err e.
Definition tx_lift {E A} (r : result E A) : tx E A := fun db =>
  match r with Ok a => Ok (a, db) | Err e => Err e end.
Definition tx_read {E A} (f : Database -> A) : tx E A := fun db => Ok (f db, db).
Definition tx_write {E} (f : Database -> Database) : tx E unit := fun db => Ok (tt, f db).
(** [From<E> for F]. *)
Definition tx_map_err {E F A} (f : E -> F) (m : tx E A) : tx F A := fun db => map_err f (m db).

(** [commit], or the rollback of a dropped transaction. *)
Definition tx_run {E A} (m : tx E A) (db : Database) : result E A * Database :=
  match m db with Ok (a, db') => (Ok a, db') | Err e => (Err e, db) end.
End transaction.

Declare Scope tx_scope.
Delimit Scope tx_scope with tx.
Notation "'let!' x ':=' m 'in' k" := (tx_bind m (fun x => k))
  (at level 200, x pattern, m at level 100, k at level 200, right associativity) : tx_scope.
Notation "m ';!' k" := (tx_bind m (fun _ => k)) (at level 100, right associativity) : tx_scope.
Open Scope tx_scope.

(** ** Agents *)

Section agents.
Context `{DateLib}.

Definition get_agent (id : AgentId) : tx StoreError (option AgentRow) := tx_read (fun db => db_agents db !! id).
Definition agent_by_name (name : str) : tx StoreError (option AgentRow) :=
  tx_read (fun db => find (fun a => str_eqb (ag_name a) name) (map snd (map_to_list (db_agents db)))).
Definition list_in_sandbox (sandbox : DaemonId) : tx StoreError (list AgentRow) :=
  tx_read (fun db => List.filter (fun a => bool_decide (ag_sandbox a = Some sandbox))
                     (map snd (map_to_list (db_agents db)))).
Definition children (parent : AgentId) : tx StoreError (list AgentId) :=
  tx_read (fun db => map ag_id (List.filter (fun a => bool_decide (ag_parent a = Some parent))
                     (map snd (map_to_list (db_agents db))))).
Definition lease_over (now : Instant) (a : AgentRow) : bool :=
  match ag_lease a with Some l => Z.leb l now | None => false end.
Definition lease_expired (now : Instant) : tx StoreError (list AgentId) :=
  tx_read (fun db => map ag_id (List.filter (fun a => lease_over now a && negb (ag_disabled a))
                     (map snd (map_to_list (db_agents db))))).

Definition MAX_CHAIN : nat := 64.
Fixpoint chain_from (fuel : nat) (by_id : gmap N AgentRow) (agent : AgentId) (next : option AgentId)
  (out : list AgentRow) : list AgentRow :=
  match fuel, next with
  | S fuel, Some id =>
    if Nat.leb MAX_CHAIN (length out) || N.eqb id agent || existsb (fun a => N.eqb (ag_id a) id) out
    then out
    else match by_id !! id with
         | None => out
         | Some p => chain_from fuel by_id agent (ag_parent p) (out ++ [p])
         end
  | _, _ => out
  end.
(** One level more than the longest chain followed is enough fuel. *)
Definition chain_in (agent : AgentRow) (by_id : gmap N AgentRow) : list AgentRow :=
  chain_from (S MAX_CHAIN) by_id (ag_id agent) (ag_parent agent) [].
Definition chain (agent : AgentRow) : tx StoreError (list AgentRow) :=
  tx_read (fun db => chain_in agent (db_agents db)).

(** [UPDATE agents SET ... WHERE id = $1 AND <ok>]: was a row updated? *)
Definition update_agent (id : AgentId) (ok : AgentRow -> bool) (f : AgentRow -> AgentRow)
  : tx StoreError bool :=
  let! a := get_agent id in
  match a with
  | Some a =>
    if ok a then tx_write (fun db => with_agents db (<[id := f a]> (db_agents db)));! tx_ret true
    else tx_ret false
  | None => tx_ret false
  end.
Definition set_disabled_row (disabled : bool) (a : AgentRow) : AgentRow :=
  mkAgentRow (ag_id a) (ag_name a) (ag_description a) (ag_key_id a) (ag_api_key_hash a)
  (ag_webhook_url a) (ag_webhook_secret a) (ag_lldap a) disabled
  (if disabled then ag_disabled_reason a else None) (ag_kind a) (ag_last_seen_at a)
  (ag_last_listen_at a) (ag_parent a) (ag_sandbox a) (ag_runtime a) (ag_project a) (ag_host a)
  (ag_placement a) (ag_lease a) (ag_created_at a).
Definition set_disabled (id : AgentId) (disabled : bool) : tx StoreError bool :=
  update_agent id (fun _ => true) (set_disabled_row disabled).

Definition set_lease_row (lease : option Instant) (a : AgentRow) : AgentRow :=
  mkAgentRow (ag_id a) (ag_name a) (ag_description a) (ag_key_id a) (ag_api_key_hash a)
  (ag_webhook_url a) (ag_webhook_secret a) (ag_lldap a) (ag_disabled a) (ag_disabled_reason a)
  (ag_kind a) (ag_last_seen_at a) (ag_last_listen_at a) (ag_parent a) (ag_sandbox a)
  (ag_runtime a) (ag_project a) (ag_host a) (ag_placement a) lease (ag_created_at a).
Definition set_lease (id : AgentId) (lease : option Instant) : tx StoreError bool :=
  update_agent id (fun _ => true) (set_lease_row lease).

Definition rename_row (name : str) (a : AgentRow) : AgentRow :=
  mkAgentRow (ag_id a) name (ag_description a) (ag_key_id a) (ag_api_key_hash a)
  (ag_webhook_url a) (ag_webhook_secret a) (ag_lldap a) (ag_disabled a) (ag_disabled_reason a)
  (ag_kind a) (ag_last_seen_at a) (ag_last_listen_at a) (ag_parent a) (ag_sandbox a)
  (ag_runtime a) (ag_project a) (ag_host a) (ag_placement a) (ag_lease a) (ag_created_at a).
Definition rename (id : AgentId) (name : str) : tx StoreError bool :=
  update_agent id (fun a => negb (bool_decide (ag_kind a = Operator))) (rename_row name).

(** Leaving [service] clears the webhook and [last_listen_at]. *)
Definition set_kind_row (kind : AgentKind) (a : AgentRow) : AgentRow :=
  let keep {A} (o : option A) := if bool_decide (kind = Service) then o else None in
  mkAgentRow (ag_id a) (ag_name a) (ag_description a) (ag_key_id a) (ag_api_key_hash a)
  (keep (ag_webhook_url a)) (keep (ag_webhook_secret a)) (ag_lldap a) (ag_disabled a)
  (ag_disabled_reason a) kind (ag_last_seen_at a) (keep (ag_last_listen_at a)) (ag_parent a)
  (ag_sandbox a) (ag_runtime a) (ag_project a) (ag_host a) (ag_placement a) (ag_lease a)
  (ag_created_at a).
Definition set_kind (id : AgentId) (kind : AgentKind) : tx StoreError bool :=
  if bool_decide (kind = Operator) then tx_ret false
  else update_agent id (fun a => negb (bool_decide (ag_kind a = Operator))) (set_kind_row kind).

Definition adopt_row (sandbox : DaemonId) (host : str) (a : AgentRow) : AgentRow :=
  mkAgentRow (ag_id a) (ag_name a) (ag_description a) (ag_key_id a) (ag_api_key_hash a)
  (ag_webhook_url a) (ag_webhook_secret a) (ag_lldap a) false None
  (ag_kind a) (ag_last_seen_at a) (ag_last_listen_at a) (ag_parent a) (Some sandbox)
  (ag_runtime a) (ag_project a) (Some host) InSandbox (ag_lease a) (ag_created_at a).
Definition adopt_orchestrator (id : AgentId) (sandbox : DaemonId) (host : str) : tx StoreError bool :=
  update_agent id
  (fun a => bool_decide (ag_runtime a = Some (lit "orchestrator"))
            && match ag_sandbox a with None => true | Some s => N.eqb s sandbox end)
  (adopt_row sandbox host).

Definition reenable_row (key_id api_key_hash : str) (lease : Instant) (a : AgentRow) : AgentRow :=
  mkAgentRow (ag_id a) (ag_name a) (ag_description a) key_id api_key_hash
  (ag_webhook_url a) (ag_webhook_secret a) (ag_lldap a) false None
  (ag_kind a) (ag_last_seen_at a) (ag_last_listen_at a) (ag_parent a) (ag_sandbox a)
  (ag_runtime a) (ag_project a) (ag_host a) (ag_placement a) (Some lease) (ag_created_at a).
Definition reenable_after_lease (id : AgentId) (key_id api_key_hash : str) (lease : Instant)
  : tx StoreError bool :=
  update_agent id
  (fun a => ag_disabled a && match ag_disabled_reason a with Some LeaseOver => true | _ => false end)
  (reenable_row key_id api_key_hash lease).
End agents.

(** ** Containment ([lockdown.rs]) *)

Section lockdown.
Context `{DateLib, RustFmt}.

Inductive Held := Contained (e : ContainmentEntry) | Disabled | UnknownAgent.
Definition Held_text (h : Held) : str :=
  match h with
  | Contained e => held_text e
  | Disabled => lit "agent is disabled"
  | UnknownAgent => lit "unknown agent"
  end.

Definition held (agent : option AgentRow) (chain : list AgentRow) (all : list ContainmentEntry)
  (now : Instant) : option Held :=
  match agent with
  | None => Some UnknownAgent
  | Some agent =>
    if ag_disabled agent || lease_over now agent then Some Disabled
    else Contained <$> Containment.first_holding all ce_match (facts_with agent (map facts chain))
  end.

(** The proof that an agent is not held; it lives in the transaction that
    checked. *)
Record NotHeld := mkNotHeld { nh_agent : AgentRow }.
Definition NotHeld_verify (n : NotHeld) (agent : AgentId) : result StoreError unit :=
  if N.eqb (ag_id (nh_agent n)) agent then Ok tt else Err WrongProof.

(** Does the database hold the agent now? *)
Definition held_in_db (db : Database) (agent : AgentId) (now : Instant) : option Held :=
  let row := db_agents db !! agent in
  let chain := match row with Some r => chain_in r (db_agents db) | None => [] end in
  held row chain (db_entries db) now.
Definition lockdown_check (agent : AgentId) (now : Instant) : tx StoreError (result Held NotHeld) :=
  let! row := get_agent agent in
  let! all := tx_read db_entries in
  let! c := match row with Some r => chain r | None => tx_ret [] end in
  match held row c all now, row with
  | Some h, _ => tx_ret (Err h)
  | None, None => tx_ret (Err UnknownAgent)
  | None, Some a => tx_ret (Ok (mkNotHeld a))
  end.

(** For display: the entry that holds this agent. *)
Definition holding (agent : AgentRow) : tx StoreError (option ContainmentEntry) :=
  let! all := tx_read db_entries in
  let! c := chain agent in
  tx_ret (Containment.first_holding all ce_match (facts_with agent (map facts c))).

Record PairClear := mkPairClear { pc_a : AgentRow; pc_b : AgentRow }.
(** The a2a check: [a] first, then [b]; the operator's containment is
    skipped, disabling is not. *)
Definition check_pair (a b : AgentId) (now : Instant) : tx StoreError (result (AgentId * Held) PairClear) :=
  let! ra := get_agent a in
  let! rb := if N.eqb a b then tx_ret None else get_agent b in
  match ra, rb with
  | Some ra, Some rb =>
    let operator := bool_decide (ag_kind ra = Operator) || bool_decide (ag_kind rb = Operator) in
    let! all := if operator then tx_ret [] else tx_read db_entries in
    let! ca := if operator then tx_ret [] else chain ra in
    match held (Some ra) ca all now with
    | Some h => tx_ret (Err (ag_id ra, h))
    | None =>
        let! cb := if operator then tx_ret [] else chain rb in
        match held (Some rb) cb all now with
        | Some h => tx_ret (Err (ag_id rb, h))
        | None => tx_ret (Ok (mkPairClear ra rb))
        end
    end
  | _, _ => tx_ret (Err (a, UnknownAgent))
  end.

Definition record_entry (e : ContainmentEntry) : tx StoreError (result str ContainmentEntry) :=
  match Containment.parse (ce_match e) with
  | Err why => tx_ret (Err why)
  | Ok _ =>
    let! all := tx_read db_entries in
    if existsb (fun x => str_eqb (ce_id x) (ce_id e)) all then tx_fail (Db UniqueViolation)
    else tx_write (fun db => with_entries db (db_entries db ++ [e]));! tx_ret (Ok e)
  end.

(** [DELETE ... WHERE <gone> RETURNING *]. *)
Definition lift_where (gone : ContainmentEntry -> bool) : tx StoreError (list ContainmentEntry) :=
  let! all := tx_read db_entries in
  tx_write (fun db => with_entries db (List.filter (fun e => negb (gone e)) all));!
  tx_ret (List.filter gone all).
Definition lift (id : option str) : tx StoreError (list ContainmentEntry) :=
  lift_where (fun e => match id with None => true | Some i => str_eqb (ce_id e) i end).
(** [match = jsonb_build_object('host', host)]. *)
Definition match_is_host (v : Value) (host : str) : bool :=
  match v with
  | VObject [(k, VString s)] => str_eqb k (lit "host") && str_eqb s host
  | _ => false
  end.
Definition lift_lockdown (host : option str) : tx StoreError (list ContainmentEntry) :=
  lift_where (fun e => bool_decide (ce_source e = FromLockdown)
                     && match host with None => true | Some h => match_is_host (ce_match e) h end).
End lockdown.

(** ** Saved rules ([rules.rs]) *)

Section rules.
Context `{DateLib}.

Definition rule_row_ok (r : RuleRow) : bool :=
  let between (lo hi : nat) (s : str) := Nat.leb lo (length s) && Nat.leb (length s) hi in
  between 1 128 (ru_agent_pattern r)
  && match ru_delegator_pattern r with None => true | Some d => between 1 128 d end
  && between 1 512 (ru_resource_pattern r)
  && match ru_max_duration r with None => true | Some n => N.ltb 0 n end
  && between 0 128 (ru_created_by r).

(** A new rule is enabled; its authority, of its platform. *)
Definition insert_rule (r : RuleRow) : tx StoreError RuleRow :=
  if match ru_authority r with
   | Some a => negb (bool_decide (platform a = ru_platform r)) | None => false end
  then tx_fail (OutOfRange (lit "a rule authority of another platform"))
  else
  let! d := tx_lift (opt_to_i32 (ru_max_duration r)) in
  let! all := tx_read db_rules in
  if existsb (fun x => N.eqb (ru_id x) (ru_id r)) all then tx_fail (Db UniqueViolation)
  else if negb (rule_row_ok r) then tx_fail (Db CheckViolation)
  else tx_write (fun db => with_rules db (db_rules db ++ [r]));! tx_ret r.

Definition get_rule (id : RuleId) : tx StoreError (option RuleRow) :=
  tx_read (fun db => find (fun r => N.eqb (ru_id r) id) (db_rules db)).

(** [ORDER BY created_at DESC, seq DESC]: insertion into an ordered list of
    the later rule of the same instant first. *)
Fixpoint insert_newest (r : RuleRow) (rules : list RuleRow) : list RuleRow :=
  match rules with
  | [] => [r]
  | x :: rules => if Z.leb (ru_created_at x) (ru_created_at r) then r :: x :: rules
                else x :: insert_newest r rules
  end.
Definition newest_rules (rules : list RuleRow) : list RuleRow :=
  fold_left (fun out r => insert_newest r out) rules [].
Definition live_for (p : Platform) (now : Instant) : tx StoreError (list RuleRow) :=
  tx_read (fun db => newest_rules
  (List.filter (fun r => rule_is_live r now && bool_decide (ru_platform r = p)) (db_rules db))).

Definition set_enabled_row (b : bool) (r : RuleRow) : RuleRow :=
  mkRule (ru_id r) (ru_action r) (ru_agent_pattern r) (ru_delegator_pattern r) (ru_platform r)
  (ru_resource_pattern r) (ru_authority r) (ru_max_duration r) b (ru_created_by r) (ru_notes r)
  (ru_expires_at r) (ru_created_at r).
Definition set_enabled (id : RuleId) (b : bool) : tx StoreError bool :=
  let! all := tx_read db_rules in
  tx_write (fun db => with_rules db (map (fun r => if N.eqb (ru_id r) id then set_enabled_row b r else r) all));!
  tx_ret (existsb (fun r => N.eqb (ru_id r) id) all).
Definition delete_rule (id : RuleId) : tx StoreError bool :=
  let! all := tx_read db_rules in
  tx_write (fun db => with_rules db (List.filter (fun r => negb (N.eqb (ru_id r) id)) all));!
  tx_ret (existsb (fun r => N.eqb (ru_id r) id) all).
End rules.
