(* ===== verification/Requests.v ===== *)
(** [access_requests] and the request state machine
    ([crates/store/src/requests.rs]), with the constraints and the guards of
    the table ([crates/store/migrations]). *)

From stdpp Require Import gmap.
From S2P Require Import Prelude Json Glob Pyfmt Lifecycle Names Durations Pool Mail Authority Routing Agents Hostexec Schema Policy Zones Eval Store.
From stdpp Require Import options.

Definition REQUESTS : str := lit "access_requests".

Section requests.
Context `{DateLib}.

(** ** The table's constraints *)

Definition between (lo hi : nat) (s : str) : bool := Nat.leb lo (length s) && Nat.leb (length s) hi.
Definition opt_ok {A} (f : A -> bool) (o : option A) : bool := match o with None => true | Some a => f a end.
Definition past_approval (s : RequestStatus) : bool :=
  match s with Approved | Provisioning | Granted | ProvisionFailed => true | _ => false end.

(** The CHECKs. *)
Definition request_checks (r : RequestRow) : bool :=
  between 1 512 (rq_resource r)
  && between 1 128 (rq_capability r)
  && N.ltb 0 (rq_duration r)
  && opt_ok (fun d => Nat.leb (length d) 128) (rq_decided_by r)
  && opt_ok (N.ltb 0) (rq_approved_duration r)
  && opt_ok (fun e => between 1 512 (ed_resource e)) (rq_edit r)
  && opt_ok (fun d => negb (bool_decide (rq_platform r = A2a)) && negb (N.eqb (delegator_agent_id d) (rq_agent r)))
     (rq_delegation r)
  && (negb (is_none (rq_authority r)) || bool_decide (rq_status r = Pending) || bool_decide (rq_status r = Denied))
  && (negb (past_approval (rq_status r))
    || negb (is_none (rq_approved_duration r)) && negb (is_none (rq_source r))
       && negb (is_none (rq_decided_at r)))
  && (negb (bool_decide (rq_status r = Denied))
    || negb (is_none (rq_source r)) && negb (is_none (rq_decided_at r)))
  && (negb (bool_decide (rq_status r = LlmEvaluating) || bool_decide (rq_status r = LlmDenied))
    || N.leb 1 (rq_attempt r)).

(** The status guard's edges, as the trigger lists them. *)
Definition GUARD_EDGES : list (RequestStatus * list RequestStatus) :=
  [(Pending, [Denied; Approved; LlmEvaluating; AwaitingHuman]);
  (LlmEvaluating, [Approved; LlmDenied; AwaitingHuman]);
  (LlmDenied, [LlmEvaluating; AwaitingHuman]);
  (AwaitingHuman, [Approved; Denied]);
  (Approved, [Provisioning]);
  (Provisioning, [Granted; ProvisionFailed])].
(** What the guard asks of an update (the columns it holds immutable are
    not written by any update here). *)
Definition request_guard (old new : RequestRow) : bool :=
  N.leb (rq_attempt old) (rq_attempt new)
  && (bool_decide (rq_status new = rq_status old)
    || existsb (fun '(s, ts) => bool_decide (rq_status old = s)
                                && existsb (fun t => bool_decide (rq_status new = t)) ts) GUARD_EDGES).

(** [UPDATE access_requests] of one row. *)
Definition update_request (old new : RequestRow) : tx StoreError unit :=
  if request_checks new && request_guard old new
  then tx_write (fun db => with_requests db (<[rq_id old := new]> (db_requests db)))
  else tx_fail (Db CheckViolation).

(** A row as it is read: one without an authority can only be pending or
    denied. *)
Definition read_request (r : RequestRow) : result StoreError RequestRow :=
  if is_none (rq_authority r)
   && negb (bool_decide (rq_status r = Pending) || bool_decide (rq_status r = Denied))
  then Err (Corrupt REQUESTS (lit "no authority past pending"))
  else Ok r.

(** ** Handles *)

(** [Request<S>]: known to be in [S]. *)
Record Request (S : RequestStatus) := mkHandle { rq_row : RequestRow }.
Arguments mkHandle {S} _.
Arguments rq_row {S} _.

Definition Request_new (S : RequestStatus) (row : RequestRow) : result StoreError (Request S) :=
  if bool_decide (rq_status row = S) then Ok (mkHandle row)
  else Err (Corrupt REQUESTS (lit "handle state mismatch")).

Inductive AnyRequest :=
| IsPending (r : Request Pending)
| IsLlmEvaluating (r : Request LlmEvaluating)
| IsLlmDenied (r : Request LlmDenied)
| IsAwaitingHuman (r : Request AwaitingHuman)
| IsApproved (r : Request Approved)
| IsProvisioning (r : Request Provisioning)
| IsGranted (r : Request Granted)
| IsProvisionFailed (r : Request ProvisionFailed)
| IsDenied (r : Request Denied).

Definition AnyRequest_from_row (row : RequestRow) : result StoreError AnyRequest :=
  match rq_status row with
  | Pending => IsPending <$> Request_new Pending row
  | LlmEvaluating => IsLlmEvaluating <$> Request_new LlmEvaluating row
  | LlmDenied => IsLlmDenied <$> Request_new LlmDenied row
  | AwaitingHuman => IsAwaitingHuman <$> Request_new AwaitingHuman row
  | Approved => IsApproved <$> Request_new Approved row
  | Provisioning => IsProvisioning <$> Request_new Provisioning row
  | Granted => IsGranted <$> Request_new Granted row
  | ProvisionFailed => IsProvisionFailed <$> Request_new ProvisionFailed row
  | Denied => IsDenied <$> Request_new Denied row
  end.

Definition into_row (a : AnyRequest) : RequestRow :=
  match a with
  | IsPending r => rq_row r
  | IsLlmEvaluating r => rq_row r
  | IsLlmDenied r => rq_row r
  | IsAwaitingHuman r => rq_row r
  | IsApproved r => rq_row r
  | IsProvisioning r => rq_row r
  | IsGranted r => rq_row r
  | IsProvisionFailed r => rq_row r
  | IsDenied r => rq_row r
  end.

(** ** What entering a state writes *)

Record Proof_ := mkProof {
  pf_request : RequestId;
  pf_authority : option Authority;
  pf_from : list RequestStatus;
}.

Record Changes := mkChanges {
  ch_proof : option Proof_;
  ch_bump_attempt : bool;
  ch_justification : option str;
  ch_source : option DecisionSource;
  ch_decided_by : option str;
  ch_reason : option str;
  ch_reason_suffix : option str;
  ch_approved_duration : option N;
  ch_decided : bool;
  ch_note : option str;
}.
Definition Changes_default : Changes := mkChanges None false None None None None None None false None.

(** [HumanApproval]: a person's approval of one request ([attest]). *)
Record HumanApproval := attest { ha_request : RequestId; ha_decided_by : str }.

Inductive Basis := OfAuto (c : AutoClearance) | OfLlm (c : LlmClearance) | OfHuman (h : HumanApproval).
Record Approval := mkApproval {
  ap_basis : Basis; ap_decided_by : str; ap_reason : str; ap_duration : N }.
Definition Approval_auto (c : AutoClearance) (decided_by reason : str) (duration : N) : Approval :=
  mkApproval (OfAuto c) decided_by reason duration.
Definition Approval_llm (c : LlmClearance) (model reason : str) (duration : N) : Approval :=
  mkApproval (OfLlm c) model reason duration.
Definition Approval_human (h : HumanApproval) (reason : str) (duration : N) : Approval :=
  mkApproval (OfHuman h) (ha_decided_by h) reason duration.
Definition Approval_source (a : Approval) : DecisionSource :=
  match ap_basis a with OfAuto c => ac_source c | OfLlm _ => ByLlm | OfHuman _ => ByHuman end.

(** The data each target state takes. *)
Inductive Entering :=
| ToLlmEvaluating (clearance : LlmClearance) (justification : option str)
| ToLlmDenied (model reasoning : str)
| ToAwaitingHuman (note : option str)
| ToApproved (a : Approval)
| ToDenied (source : DecisionSource) (decided_by : option str) (reason : str)
| ToProvisioning
| ToGranted
| ToProvisionFailed (why : str).

Definition target (e : Entering) : RequestStatus :=
  match e with
  | ToLlmEvaluating _ _ => LlmEvaluating
  | ToLlmDenied _ _ => LlmDenied
  | ToAwaitingHuman _ => AwaitingHuman
  | ToApproved _ => Approved
  | ToDenied _ _ _ => Denied
  | ToProvisioning => Provisioning
  | ToGranted => Granted
  | ToProvisionFailed _ => ProvisionFailed
  end.

Definition Approval_proof (a : Approval) : Proof_ :=
  match ap_basis a with
  | OfAuto c =>
    mkProof (ac_request c) (Some (ac_authority c))
      (if bool_decide (ac_source c = ByHuman) then [] else [Pending; AwaitingHuman])
  | OfLlm c => mkProof (lc_request c) (Some (lc_authority c)) [LlmEvaluating]
  | OfHuman h => mkProof (ha_request h) None [AwaitingHuman]
  end.

Definition changes (e : Entering) : Changes :=
  match e with
  | ToLlmEvaluating c justification =>
    mkChanges (Some (mkProof (lc_request c) (Some (lc_authority c)) [Pending; LlmDenied]))
      true justification None None None None None false None
  | ToLlmDenied model reasoning =>
    mkChanges None false None (Some ByLlm) (Some model) (Some reasoning) None None false None
  | ToAwaitingHuman note => mkChanges None false None None None None None None false note
  | ToApproved a =>
    mkChanges (Some (Approval_proof a)) false None (Some (Approval_source a)) (Some (ap_decided_by a))
      (Some (ap_reason a)) None (Some (ap_duration a)) true None
  | ToDenied source decided_by reason =>
    mkChanges None false None (Some source) decided_by (Some reason) None None true None
  | ToProvisioning | ToGranted => Changes_default
  | ToProvisionFailed why =>
    mkChanges None false None None None None (Some (lit " | provisioning failed: " ++ why)) None false None
  end.

(** ** Transitions *)

Definition coalesce {A} (new old : option A) : option A := match new with Some _ => new | None => old end.

(** The UPDATE's SET clause. *)
Definition apply_changes (ch : Changes) (to : RequestStatus) (now : Instant) (r : RequestRow) : RequestRow :=
  mkRequest (rq_id r) (rq_agent r) (rq_session r) (rq_delegation r) (rq_platform r) (rq_resource r)
  (rq_capability r) (rq_scope r) (rq_authority r)
  (default (rq_justification r) (ch_justification ch)) (rq_duration r)
  (match ch_note ch with None => rq_notes r | Some n => rq_notes r ++ [n] end)
  to
  (if ch_bump_attempt ch then rq_attempt r + 1 else rq_attempt r)%N
  (coalesce (ch_source ch) (rq_source r))
  (coalesce (ch_decided_by ch) (rq_decided_by r))
  (match ch_reason_suffix ch with
   | None => coalesce (ch_reason ch) (rq_reason r)
   | Some suffix => Some (default [] (coalesce (ch_reason ch) (rq_reason r)) ++ suffix)
   end)
  (coalesce (ch_approved_duration ch) (rq_approved_duration r))
  (rq_edit r)
  (if ch_decided ch then Some now else rq_decided_at r)
  (rq_discord r) (rq_created_at r) now.

(** A proof is for this request, its authority, and the state it is in. *)
Definition proof_ok (p : Proof_) (from : RequestStatus) (row : RequestRow) : bool :=
  N.eqb (pf_request p) (rq_id row)
  && match pf_authority p with
   | None => true
   | Some a => match rq_authority row with Some b => b ==? a | None => false end
   end
  && existsb (fun s => bool_decide (s = from)) (pf_from p).

(** [transition]: compare-and-swap along an allowed edge. [Err id]: lost. *)
Definition transition {from : RequestStatus} (request : Request from) (e : Entering)
  `{!CanMoveTo from (target e)} (now : Instant)
  : tx StoreError (result RequestId (Request (target e))) :=
  let id := rq_id (rq_row request) in
  let ch := changes e in
  if match ch_proof ch with Some p => negb (proof_ok p from (rq_row request)) | None => false end
  then tx_fail WrongProof
  else
  let! _ := tx_lift (opt_to_i32 (ch_approved_duration ch)) in
  let! row := tx_read (fun db => db_requests db !! id) in
  match row with
  | Some row =>
      if bool_decide (rq_status row = from) then
        let row' := apply_changes ch (target e) now row in
        let! _ := tx_lift (to_i32 (rq_attempt row')) in
        update_request row row';!
        let! read := tx_lift (read_request row') in
        let! h := tx_lift (Request_new (target e) read) in
        tx_ret (Ok h)
      else tx_ret (Err id)
  | None => tx_ret (Err id)
  end.

(** ** Writes *)

(** [insert] of a [NewRequest]. *)
Definition insert_request (id : RequestId) (agent : AgentId) (session : option SessionId)
  (delegation : option Anchor) (p : Platform) (resource capability : str) (scope : list (str * Value))
  (authority : option Authority) (justification : str) (duration : N) (notes : list str)
  (now : Instant) : tx StoreError (Request Pending) :=
  if match authority with Some a => negb (bool_decide (platform a = p)) | None => false end
  then tx_fail (OutOfRange (lit "an authority of another platform than " ++ Platform_as_str p))
  else
  let! duration := tx_lift (to_i32 duration) in
  let row := mkRequest id agent session delegation p resource capability scope authority justification
               duration notes Pending 0 None None None None None None (mkDiscord None None None) now now in
  let! db := tx_read (fun db => db) in
  if negb (is_none (db_requests db !! id)) then tx_fail (Db UniqueViolation)
  else if is_none (db_agents db !! agent)
          || match delegation with
             | Some d => is_none (db_threads db !! thread_id d) || is_none (db_agents db !! delegator_agent_id d)
             | None => false
             end
  then tx_fail (Db ForeignKeyViolation)
  else if negb (request_checks row) then tx_fail (Db CheckViolation)
  else
    tx_write (fun db => with_requests db (<[id := row]> (db_requests db)));!
    let! read := tx_lift (read_request row) in
    tx_lift (Request_new Pending read).

Definition with_edit (edit : ApprovedEdit) (now : Instant) (r : RequestRow) : RequestRow :=
  mkRequest (rq_id r) (rq_agent r) (rq_session r) (rq_delegation r) (rq_platform r) (rq_resource r)
  (rq_capability r) (rq_scope r) (rq_authority r) (rq_justification r) (rq_duration r) (rq_notes r)
  (rq_status r) (rq_attempt r) (rq_source r) (rq_decided_by r) (rq_reason r) (rq_approved_duration r)
  (Some edit) (rq_decided_at r) (rq_discord r) (rq_created_at r) now.

(** The handle's row, with the edit, is returned. *)
Definition set_approved_edit (request : Request Approved) (edit : ApprovedEdit) (db_now : Instant)
  : tx StoreError (result RequestId (Request Approved)) :=
  let r := rq_row request in
  if negb (bool_decide (platform (ed_authority edit) = rq_platform r))
  then tx_fail (OutOfRange (lit "an approved authority of another platform"))
  else
  let! row := tx_read (fun db => db_requests db !! rq_id r) in
  match row with
  | Some row =>
      if bool_decide (rq_status row = Approved) then
        update_request row (with_edit edit db_now row);!
        tx_ret (Ok (mkHandle (with_edit edit (rq_updated_at r) r)))
      else tx_ret (Err (rq_id r))
  | None => tx_ret (Err (rq_id r))
  end.

Definition with_note (note : str) (now : Instant) (r : RequestRow) : RequestRow :=
  mkRequest (rq_id r) (rq_agent r) (rq_session r) (rq_delegation r) (rq_platform r) (rq_resource r)
  (rq_capability r) (rq_scope r) (rq_authority r) (rq_justification r) (rq_duration r) (rq_notes r ++ [note])
  (rq_status r) (rq_attempt r) (rq_source r) (rq_decided_by r) (rq_reason r) (rq_approved_duration r)
  (rq_edit r) (rq_decided_at r) (rq_discord r) (rq_created_at r) now.
Definition append_note (id : RequestId) (note : str) (db_now : Instant) : tx StoreError bool :=
  let! row := tx_read (fun db => db_requests db !! id) in
  match row with
  | Some row => update_request row (with_note note db_now row);! tx_ret true
  | None => tx_ret false
  end.

Definition with_discord (refs : DiscordRefs) (r : RequestRow) : RequestRow :=
  let old := rq_discord r in
  mkRequest (rq_id r) (rq_agent r) (rq_session r) (rq_delegation r) (rq_platform r) (rq_resource r)
  (rq_capability r) (rq_scope r) (rq_authority r) (rq_justification r) (rq_duration r) (rq_notes r)
  (rq_status r) (rq_attempt r) (rq_source r) (rq_decided_by r) (rq_reason r) (rq_approved_duration r)
  (rq_edit r) (rq_decided_at r)
  (mkDiscord (coalesce (channel_id refs) (channel_id old)) (coalesce (message_id refs) (message_id old))
     (coalesce (discord_thread refs) (discord_thread old)))
  (rq_created_at r) (rq_updated_at r).
Definition set_discord (id : RequestId) (refs : DiscordRefs) : tx StoreError bool :=
  let! row := tx_read (fun db => db_requests db !! id) in
  match row with
  | Some row => update_request row (with_discord refs row);! tx_ret true
  | None => tx_ret false
  end.

(** ** Reads *)

Definition any (row : option RequestRow) : result StoreError (option AnyRequest) :=
  match row with
  | None => Ok None
  | Some r => row ← read_request r; a ← AnyRequest_from_row row; Ok (Some a)
  end.

(** [get] and [get_for_update]: the lock is the transaction's. *)
Definition get_request (id : RequestId) : tx StoreError (option AnyRequest) :=
  let! row := tx_read (fun db => db_requests db !! id) in
  tx_lift (any row).
(** Another agent's request is as missing as one that is not there. *)
Definition get_owned (agent : AgentId) (id : RequestId) : tx StoreError (option AnyRequest) :=
  let! row := tx_read (fun db => db_requests db !! id) in
  tx_lift (any match row with Some r => if N.eqb (rq_agent r) agent then row else None | None => None end).

(** Rows in the order of [created_at]. *)
Fixpoint by_created (r : RequestRow) (rows : list RequestRow) : list RequestRow :=
  match rows with
  | [] => [r]
  | x :: rows => if Z.leb (rq_created_at r) (rq_created_at x) then r :: x :: rows else x :: by_created r rows
  end.
Definition select (keep : RequestRow -> bool) (db : Database) : list RequestRow :=
  fold_right by_created [] (List.filter keep (map snd (map_to_list (db_requests db)))).
Definition decidable_of (agents : list AgentId) : tx StoreError (list RequestId) :=
  tx_read (fun db => map rq_id (select
  (fun r => existsb (N.eqb (rq_agent r)) agents && is_human_decidable (rq_status r)) db)).
Definition awaiting_human_on (p : Platform) : tx StoreError (list RequestRow) :=
  tx_read (select (fun r => bool_decide (rq_status r = AwaitingHuman) && bool_decide (rq_platform r = p))).
Definition stale_llm_evaluating (cutoff : Instant) : tx StoreError (list RequestId) :=
  tx_read (fun db => map rq_id (List.filter
  (fun r => bool_decide (rq_status r = LlmEvaluating) && Z.leb (rq_updated_at r) cutoff)
  (map snd (map_to_list (db_requests db))))).
End requests.
Arguments mkHandle {_ S} _.
Arguments rq_row {_ S} _.
