(* ===== verification/Grants.v ===== *)
(** [grants] and the grant kernel ([crates/store/src/grants.rs]), with the
    constraints and the guards of the table ([crates/store/migrations]). *)

From stdpp Require Import gmap.
From S2P Require Import Prelude Json Glob Pyfmt Lifecycle Names Durations Pool Mail Authority Routing Agents Hostexec Schema Policy Zones Eval Store Requests.
From stdpp Require Import options.

Section grants.
Context `{DateLib, RustFmt}.

(** ** The table's constraints *)

Definition is_object (v : Value) : bool := match v with VObject _ => true | _ => false end.
Definition ended (s : GrantStatus) : bool :=
  match s with GExpired | GRevoked => true | _ => false end.

(** The CHECKs. *)
Definition grant_checks (g : GrantRow) : bool :=
  between 1 512 (gr_resource g) && is_object (gr_state g)
  && (negb (ended (gr_status g)) || negb (is_none (gr_revoked_at g))).

(** The status guard's edges, as the trigger lists them. *)
Definition GRANT_EDGES : list (GrantStatus * list GrantStatus) :=
  [(GProvisioning, [GActive; GProvisionFailed]); (GActive, [GExpired; GRevoked])].
(** What the guard asks of an update of the columns the store writes. *)
Definition grant_guard (old new : GrantRow) : bool :=
  Z.leb (gr_expires_at new) (gr_expires_at old)
  && (bool_decide (gr_status new = gr_status old)
    || existsb (fun '(s, ts) => bool_decide (gr_status old = s)
                                && existsb (fun t => bool_decide (gr_status new = t)) ts) GRANT_EDGES).
(** A mail grant's address is immutable, but for the alias it makes; no
    update of the store here changes the address of one. *)

(** [UPDATE grants] of one row. *)
Definition update_grant (old new : GrantRow) : tx StoreError unit :=
  if grant_checks new && grant_guard old new
  then tx_write (fun db => with_grants db (<[gr_id old := new]> (db_grants db)))
  else tx_fail (Db CheckViolation).

(** [INSERT INTO grants]: the triggers, the CHECKs, the keys, then the
    references (a request of the grant's own agent and platform). *)
Definition is_provisioning (r : option RequestRow) : bool :=
  match r with Some r => bool_decide (rq_status r = Provisioning) | None => false end.
Definition insert_grant (g : GrantRow) : tx StoreError GrantRow :=
  let! db := tx_read (fun db => db) in
  let request := db_requests db !! gr_request g in
  if negb (bool_decide (gr_status g = GProvisioning) && is_provisioning request && grant_checks g)
  then tx_fail (Db CheckViolation)
  else if negb (is_none (db_grants db !! gr_id g))
        || existsb (fun '(_, x) => N.eqb (gr_request x) (gr_request g)) (map_to_list (db_grants db))
  then tx_fail (Db UniqueViolation)
  else if match request with
        | Some r => negb (N.eqb (rq_agent r) (gr_agent g) && bool_decide (rq_platform r = gr_platform g))
        | None => true
        end
        || is_none (db_agents db !! gr_agent g)
        || match gr_delegation g with
           | Some d => is_none (db_threads db !! thread_id d) || is_none (db_agents db !! delegator_agent_id d)
           | None => false
           end
  then tx_fail (Db ForeignKeyViolation)
  else tx_write (fun db => with_grants db (<[gr_id g := g]> (db_grants db)));! tx_ret g.

(** ** The kernel *)

Inductive BeginRefused := DelegationClosed | DelegatorDisabled.
Definition BeginRefused_text (b : BeginRefused) : str :=
  match b with
  | DelegationClosed => lit "delegation thread is no longer open"
  | DelegatorDisabled => lit "delegator agent is disabled"
  end.

Definition active_past (now : Instant) (g : option GrantRow) : option GrantRow :=
  match g with
  | Some g => if bool_decide (gr_status g = GActive) && Z.ltb now (gr_expires_at g) then Some g else None
  | None => None
  end.
Definition is_open (t : ThreadRow) : bool := bool_decide (th_state t = ThreadOpen).

(** The backing grant's end; [None]: an operator thread, which has none. *)
Definition delegation_backing (d : Anchor) (now : Instant)
  : tx StoreError (result BeginRefused (option Instant)) :=
  let! thread := tx_read (fun db => db_threads db !! thread_id d) in
  let! delegator := get_agent (delegator_agent_id d) in
  match thread with
  | None => tx_ret (Err DelegationClosed)
  | Some thread =>
    match delegator with
    | None => tx_ret (Err DelegatorDisabled)
    | Some delegator =>
        if ag_disabled delegator then tx_ret (Err DelegatorDisabled)
        else
          match th_grant thread with
          | None =>
              if negb (bool_decide (ag_kind delegator = Operator)) then tx_ret (Err DelegationClosed)
              else if is_open thread && N.eqb (th_initiator thread) (delegator_agent_id d)
              then tx_ret (Ok None) else tx_ret (Err DelegationClosed)
          | Some backing =>
              let! backing := tx_read (fun db => active_past now (db_grants db !! backing)) in
              match backing with
              | None => tx_ret (Err DelegationClosed)
              | Some b => if is_open thread then tx_ret (Ok (Some (gr_expires_at b)))
                          else tx_ret (Err DelegationClosed)
              end
          end
    end
  end.

(** A grant being provisioned, of the transaction that loaded it. *)
Record ProvisioningGrant := mkProvisioning { pg_grant : GrantRow }.

Definition min_expiry (expires : Instant) (backing : option Instant) : Instant :=
  match backing with Some b => Z.min expires b | None => expires end.

(** [begin]: the only way a grant row comes to be. *)
Definition grants_begin (request : Request Provisioning) (not_held : NotHeld) (id : GrantId) (now : Instant)
  : tx StoreError (result BeginRefused ProvisioningGrant) :=
  let row := rq_row request in
  let! _ := tx_lift (NotHeld_verify not_held (rq_agent row)) in
  match final_authority row, rq_approved_duration row with
  | None, _ => tx_fail (Corrupt REQUESTS (lit "provisioning without authority"))
  | Some _, None => tx_fail (Corrupt REQUESTS (lit "provisioning without duration"))
  | Some authority, Some secs =>
    match checked_add now (seconds secs) with
    | None => tx_fail (OutOfRange (show_N secs ++ lit " s from now"))
    | Some expires_at =>
        let! backing := match rq_delegation row with
                        | Some d => delegation_backing d now
                        | None => tx_ret (Ok None)
                        end in
        match backing with
        | Err refused => tx_ret (Err refused)
        | Ok backing =>
            let! g := insert_grant
              (mkGrant id (rq_id row) (rq_agent row) (rq_session row) (rq_delegation row) (rq_platform row)
                 (final_resource row) authority now (min_expiry expires_at backing) GProvisioning
                 (VObject []) None None now) in
            tx_ret (Ok (mkProvisioning g))
        end
    end
  end.

Definition get_grant (id : GrantId) : tx StoreError (option GrantRow) := tx_read (fun db => db_grants db !! id).
Definition load_provisioning (id : GrantId) : tx StoreError (option ProvisioningGrant) :=
  let! g := get_grant id in
  tx_ret match g with
       | Some g => if bool_decide (gr_status g = GProvisioning) then Some (mkProvisioning g) else None
       | None => None
       end.

(** [UPDATE grants SET ... WHERE id = $1 AND status = $2 RETURNING *]:
    [Err id], if the grant was not in that status. *)
Definition compare_and_set (id : GrantId) (from : GrantStatus) (f : GrantRow -> GrantRow)
  : tx StoreError (result GrantId GrantRow) :=
  let! g := get_grant id in
  match g with
  | Some g => if bool_decide (gr_status g = from) then update_grant g (f g);! tx_ret (Ok (f g))
            else tx_ret (Err id)
  | None => tx_ret (Err id)
  end.

Definition with_status (s : GrantStatus) (state : Value) (expires : Instant) (revoked_at : option Instant)
  (reason : option str) (g : GrantRow) : GrantRow :=
  mkGrant (gr_id g) (gr_request g) (gr_agent g) (gr_session g) (gr_delegation g) (gr_platform g)
  (gr_resource g) (gr_authority g) (gr_granted_at g) expires s state revoked_at reason (gr_created_at g).

Definition activated (state : Value) (g : GrantRow) : GrantRow :=
  with_status GActive state (gr_expires_at g) (gr_revoked_at g) (gr_revoke_reason g) g.
Definition activate (grant : ProvisioningGrant) (not_held : NotHeld) (state : Value)
  : tx StoreError (result GrantId GrantRow) :=
  let! _ := tx_lift (NotHeld_verify not_held (gr_agent (pg_grant grant))) in
  compare_and_set (gr_id (pg_grant grant)) GProvisioning (activated state).

Definition failed (reason : str) (reverted_at : option Instant) (g : GrantRow) : GrantRow :=
  with_status GProvisionFailed (gr_state g) (gr_expires_at g) (coalesce reverted_at (gr_revoked_at g))
  (Some reason) g.
Definition fail_provisioning (grant : ProvisioningGrant) (reason : str) (reverted_at : option Instant)
  : tx StoreError (result GrantId GrantRow) :=
  compare_and_set (gr_id (pg_grant grant)) GProvisioning (failed reason reverted_at).

Inductive GrantEnd := EndRevoked (reason : str) | EndExpired.
Definition end_status (how : GrantEnd) : GrantStatus :=
  match how with EndRevoked _ => GRevoked | EndExpired => GExpired end.
Definition end_reason (how : GrantEnd) : str :=
  match how with EndRevoked reason => reason | EndExpired => lit "expired" end.
Definition ended_by (how : GrantEnd) (now : Instant) (g : GrantRow) : GrantRow :=
  with_status (end_status how) (gr_state g) (gr_expires_at g) (Some now) (Some (end_reason how)) g.
Definition grants_end (id : GrantId) (how : GrantEnd) (now : Instant) : tx StoreError (result GrantId GrantRow) :=
  compare_and_set id GActive (ended_by how now).

(** [LEAST(expires_at, now)]. *)
Definition expiring (now : Instant) (g : GrantRow) : GrantRow :=
  with_status (gr_status g) (gr_state g) (Z.min (gr_expires_at g) now) (gr_revoked_at g) (gr_revoke_reason g) g.
Definition expire_now (id : GrantId) (now : Instant) : tx StoreError bool :=
  let! r := compare_and_set id GActive (expiring now) in
  tx_ret match r with Ok _ => true | Err _ => false end.

(** Each active grant of the agent, in the order of their ids. *)
Fixpoint expire_each (ids : list GrantId) (now : Instant) : tx StoreError N :=
  match ids with
  | [] => tx_ret 0%N
  | id :: ids =>
    let! done := expire_now id now in
    let! n := expire_each ids now in
    tx_ret (if done then n + 1 else n)%N
  end.
Fixpoint insert_id (id : N) (ids : list N) : list N :=
  match ids with
  | [] => [id]
  | x :: rest => if N.leb id x then id :: ids else x :: insert_id id rest
  end.
Definition grants_where (f : GrantRow -> bool) (db : Database) : list GrantRow :=
  List.filter f (map snd (map_to_list (db_grants db))).
Definition active_of_agent (agent : AgentId) (db : Database) : list GrantId :=
  fold_right insert_id [] (map gr_id (grants_where
  (fun g => N.eqb (gr_agent g) agent && bool_decide (gr_status g = GActive)) db)).
Definition expire_now_of_agent (agent : AgentId) (now : Instant) : tx StoreError N :=
  let! ids := tx_read (active_of_agent agent) in
  expire_each ids now.

Definition live_status (s : GrantStatus) : bool :=
  match s with GProvisioning | GActive => true | _ => false end.
Definition with_state (state : Value) (g : GrantRow) : GrantRow :=
  with_status (gr_status g) state (gr_expires_at g) (gr_revoked_at g) (gr_revoke_reason g) g.
Definition set_provisioner_state (id : GrantId) (state : Value) : tx StoreError bool :=
  let! g := get_grant id in
  match g with
  | Some g => if live_status (gr_status g) then update_grant g (with_state state g);! tx_ret true
            else tx_ret false
  | None => tx_ret false
  end.

(** ** Issuing credentials *)

Inductive NotIssuable :=
| UnknownGrant
| GrantHeld (h : Held)
| DelegationEnded
| NotActive (p : Platform).

Definition is_not_found (n : NotIssuable) : bool := match n with UnknownGrant => true | _ => false end.
Definition NotIssuable_detail (n : NotIssuable) : str :=
  match n with
  | UnknownGrant => lit "unknown grant"
  | GrantHeld (Contained e) => lit "contained (" ++ ce_id e ++ lit "): credentials are not issued"
  | GrantHeld h => Held_text h ++ lit ": credentials are not issued"
  | DelegationEnded => lit "delegation thread is closed; credential no longer issuable"
  | NotActive (Github | Kubernetes) => lit "grant is not active; refusing to mint a token"
  | NotActive _ => lit "grant is not active"
  end.

Definition grant_get_owned (agent : AgentId) (id : GrantId) : tx StoreError (option GrantRow) :=
  let! g := get_grant id in
  tx_ret match g with Some g => if N.eqb (gr_agent g) agent then Some g else None | None => None end.

(** Is the thread open, and its backing grant active, or the operator's? *)
Definition thread_backs (now : Instant) (db : Database) (thread : ThreadId) : bool :=
  match db_threads db !! thread with
  | None => false
  | Some t =>
    is_open t
    && match th_grant t with
       | None => match db_agents db !! th_initiator t with
                 | Some o => bool_decide (ag_kind o = Operator)
                 | None => false
                 end
       | Some b => negb (is_none (active_past now (db_grants db !! b)))
       end
  end.

Record IssuableGrant := mkIssuable { ig_grant : GrantRow }.
Definition issuable (agent : AgentId) (grant : GrantId) (now : Instant)
  : tx StoreError (result NotIssuable IssuableGrant) :=
  let! owned := grant_get_owned agent grant in
  match owned with
  | None => tx_ret (Err UnknownGrant)
  | Some _ =>
    let! check := lockdown_check agent now in
    match check with
    | Err h => tx_ret (Err (GrantHeld h))
    | Ok not_held =>
        let! _ := tx_lift (NotHeld_verify not_held agent) in
        let! row := grant_get_owned agent grant in
        match row with
        | None => tx_ret (Err UnknownGrant)
        | Some row =>
            let! open := tx_read (fun db => match gr_delegation row with
                                            | Some d => thread_backs now db (thread_id d)
                                            | None => true
                                            end) in
            if negb open then tx_ret (Err DelegationEnded)
            else if negb (is_live row now) then tx_ret (Err (NotActive (gr_platform row)))
            else tx_ret (Ok (mkIssuable row))
        end
    end
  end.

(** ** Reads *)

Definition by_request (request : RequestId) : tx StoreError (option GrantRow) :=
  tx_read (fun db => head (grants_where (fun g => N.eqb (gr_request g) request) db)).

(** [ORDER BY <key>]. *)
Fixpoint insert_by {K} (leb : K -> K -> bool) (key : GrantRow -> K) (g : GrantRow) (rows : list GrantRow)
  : list GrantRow :=
  match rows with
  | [] => [g]
  | x :: rest => if leb (key g) (key x) then g :: rows else x :: insert_by leb key g rest
  end.
Definition order_by {K} (leb : K -> K -> bool) (key : GrantRow -> K) (rows : list GrantRow) : list GrantRow :=
  fold_right (insert_by leb key) [] rows.
(** [ORDER BY <instant>, id]. *)
Definition at_id_leb (a b : Instant * N) : bool :=
  Z.ltb (fst a) (fst b) || Z.eqb (fst a) (fst b) && N.leb (snd a) (snd b).
Definition newest_id_leb (a b : Instant * N) : bool :=
  Z.ltb (fst b) (fst a) || Z.eqb (fst a) (fst b) && N.leb (snd a) (snd b).

Definition of_agent (agent : AgentId) (status : option GrantStatus) : tx StoreError (list GrantRow) :=
  tx_read (fun db => order_by newest_id_leb (fun g => (gr_granted_at g, gr_id g)) (grants_where
  (fun g => N.eqb (gr_agent g) agent
            && match status with None => true | Some s => bool_decide (gr_status g = s) end) db)).
Definition active_of_agents (agents : list AgentId) : tx StoreError (list GrantId) :=
  tx_read (fun db => map gr_id (order_by Z.leb gr_granted_at (grants_where
  (fun g => bool_decide (gr_status g = GActive) && existsb (N.eqb (gr_agent g)) agents) db))).
Definition stale_provisioning (cutoff : Instant) : tx StoreError (list GrantId) :=
  tx_read (fun db => map gr_id (order_by Z.leb gr_created_at (grants_where
  (fun g => bool_decide (gr_status g = GProvisioning) && Z.leb (gr_created_at g) cutoff) db))).
Definition live_platforms : tx StoreError (list Platform) :=
  tx_read (fun db => omap Platform_parse (set_of_list (map (fun g => Platform_as_str (gr_platform g))
  (grants_where (fun g => live_status (gr_status g)) db)))).
Definition due (now : Instant) : tx StoreError (list GrantId) :=
  tx_read (fun db => map gr_id (order_by Z.leb gr_expires_at (grants_where
  (fun g => bool_decide (gr_status g = GActive) && Z.leb (gr_expires_at g) now) db))).
Definition delegated_on_closed_threads : tx StoreError (list (GrantId * option str)) :=
  tx_read (fun db => flat_map
  (fun g => match gr_delegation g with
            | Some d => match db_threads db !! thread_id d with
                        | Some t => if bool_decide (th_state t = ThreadClosed)
                                    then [(gr_id g, CloseReason_as_str <$> th_close_reason t)] else []
                        | None => []
                        end
            | None => []
            end) (grants_where (fun g => bool_decide (gr_status g = GActive)) db)).
Definition live_a2a (sender : AgentId) (recipient : str) (now : Instant) : tx StoreError (list GrantRow) :=
  tx_read (fun db => order_by at_id_leb (fun g => (gr_granted_at g, gr_id g)) (grants_where
  (fun g => bool_decide (gr_platform g = A2a) && N.eqb (gr_agent g) sender
            && str_eqb (gr_resource g) recipient && is_live g now) db)).
Definition active_a2a_targeting (target : str) : tx StoreError (list GrantId) :=
  tx_read (fun db => map gr_id (grants_where
  (fun g => bool_decide (gr_platform g = A2a) && str_eqb (gr_resource g) target
            && bool_decide (gr_status g = GActive)) db)).

Definition with_resource (resource : str) (g : GrantRow) : GrantRow :=
  mkGrant (gr_id g) (gr_request g) (gr_agent g) (gr_session g) (gr_delegation g) (gr_platform g)
  resource (gr_authority g) (gr_granted_at g) (gr_expires_at g) (gr_status g) (gr_state g)
  (gr_revoked_at g) (gr_revoke_reason g) (gr_created_at g).
Fixpoint rename_each (ids : list GrantId) (new : str) : tx StoreError N :=
  match ids with
  | [] => tx_ret 0%N
  | id :: ids =>
    let! r := compare_and_set id GActive (with_resource new) in
    let! n := rename_each ids new in
    tx_ret (match r with Ok _ => n + 1 | Err _ => n end)%N
  end.
Definition rename_a2a_target (old new : str) : tx StoreError N :=
  let! ids := active_a2a_targeting old in
  rename_each (fold_right insert_id [] ids) new.

Definition siblings (mine : GrantRow) : tx StoreError (list GrantRow) :=
  tx_read (fun db => order_by at_id_leb (fun g => (gr_granted_at g, gr_id g)) (grants_where
  (fun g => bool_decide (gr_platform g = gr_platform mine) && str_eqb (gr_resource g) (gr_resource mine)
            && N.eqb (gr_agent g) (gr_agent mine) && negb (N.eqb (gr_id g) (gr_id mine))) db)).
Definition ended_on (p : Platform) (resource : str) (since : Instant) : tx StoreError (list GrantRow) :=
  tx_read (fun db => order_by Z.leb (fun g => default 0%Z (gr_revoked_at g)) (grants_where
  (fun g => bool_decide (gr_platform g = p) && str_eqb (gr_resource g) resource && ended (gr_status g)
            && match gr_revoked_at g with Some t => Z.ltb since t | None => false end) db)).
(** The audit feed's pages: past [since], or at it and past the row [after]. *)
Definition past_key (since : Instant) (after : option N) (at_ : Instant) (id : N) : bool :=
  Z.ltb since at_ || Z.eqb since at_ && match after with None => true | Some a => N.ltb a id end.
Definition granted_since (since : Instant) (after : option N) (limit : nat) : tx StoreError (list GrantRow) :=
  tx_read (fun db => take limit (order_by at_id_leb (fun g => (gr_granted_at g, gr_id g)) (grants_where
  (fun g => past_key since after (gr_granted_at g) (gr_id g)) db))).
Definition ended_since (since : Instant) (after : option N) (limit : nat) : tx StoreError (list GrantRow) :=
  tx_read (fun db => take limit (order_by at_id_leb (fun g => (default 0%Z (gr_revoked_at g), gr_id g)) (grants_where
  (fun g => match gr_revoked_at g with Some t => past_key since after t (gr_id g) | None => false end) db))).
Definition agents_with (p : Platform) : tx StoreError (list AgentId) :=
  tx_read (fun db => nodup N.eq_dec (map gr_agent (grants_where (fun g => bool_decide (gr_platform g = p)) db))).
Definition by_delegation_thread (thread : ThreadId) : tx StoreError (list GrantRow) :=
  tx_read (fun db => order_by Z.leb gr_granted_at (grants_where
  (fun g => match gr_delegation g with Some d => N.eqb (thread_id d) thread | None => false end) db)).
End grants.

(** ** Lemmas *)

Section reading.
Context `{DateLib}.

Lemma elem_of_grants_where f db g :
  g ∈ grants_where f db <-> f g = true /\ exists k, db_grants db !! k = Some g.
Proof.
  unfold grants_where. rewrite list_elem_of_In, filter_In, <- list_elem_of_In.
  rewrite list_elem_of_fmap. split.
  - intros [([k x] & -> & Hx) Hf]. split; [done|]. exists k. by apply elem_of_map_to_list.
  - intros [Hf [k Hk]]. split; [|done]. exists (k, g). split; [done|]. by apply elem_of_map_to_list.
Qed.
Lemma elem_of_order_by {K} (leb : K -> K -> bool) key g rows : g ∈ order_by leb key rows <-> g ∈ rows.
Proof.
  induction rows as [|x rows IH]; cbn; [done|].
  assert (Hins : forall l, g ∈ insert_by leb key x l <-> g = x \/ g ∈ l).
  { induction l as [|y l IHl]; cbn; [set_solver|]. case_match; rewrite ?elem_of_cons, ?IHl; set_solver. }
  rewrite Hins, IH, elem_of_cons. done.
Qed.
End reading.
