(* ===== verification/Threads.v ===== *)
(** [a2a_threads] and [a2a_messages] ([crates/store/src/a2a.rs]): opening,
    accepting, appending to and closing a thread, with the constraints and
    the guard of the tables ([crates/store/migrations]). *)

From stdpp Require Import gmap.
From S2P Require Import Prelude Json Glob Pyfmt Lifecycle Names Durations Pool Mail Authority Routing Agents Hostexec Schema Policy Zones Eval Store Requests Grants.
From stdpp Require Import options.

Section threads.
Context `{DateLib, RustFmt}.

(** ** The tables' constraints *)

Definition printable (c : char) : bool := negb (in_range 1 31 c) && negb (N.eqb c 127).
Definition thread_checks (t : ThreadRow) : bool :=
  opt_ok (fun s => Nat.leb (length s) 256 && forallb printable s) (th_topic t)
  && negb (N.eqb (th_initiator t) (th_responder t))
  && Bool.eqb (bool_decide (th_state t = ThreadClosed))
     (negb (is_none (th_closed_at t)) && negb (is_none (th_close_reason t)))
  && (negb (bool_decide (th_state t = ThreadOpen)) || negb (is_none (th_accepted_at t)))
  && opt_ok (fun a => N.eqb a (th_initiator t) || N.eqb a (th_responder t)) (th_closed_by t).
(** The guard's conditions on the columns the store writes. *)
Definition thread_guard (old new : ThreadRow) : bool :=
  opt_ok (fun s => bool_decide (th_responder_session new = Some s)) (th_responder_session old)
  && N.leb (th_last_seq old) (th_last_seq new)
  && (negb (bool_decide (th_state old = ThreadClosed))
    || bool_decide (th_state new = ThreadClosed) && N.eqb (th_last_seq new) (th_last_seq old))
  && negb (bool_decide (th_state old = ThreadOpen) && bool_decide (th_state new = ThreadPending)).
Definition update_thread (old new : ThreadRow) : tx StoreError unit :=
  if thread_checks new && thread_guard old new
  then tx_write (fun db => with_threads db (<[th_id old := new]> (db_threads db)))
  else tx_fail (Db CheckViolation).

(** The trigger: not on a closed thread, and the thread's own number. *)
Definition message_guard (t : option ThreadRow) (m : MessageRow) : bool :=
  match t with
  | Some t => negb (bool_decide (th_state t = ThreadClosed)) && N.eqb (me_seq m) (th_last_seq t)
  | None => true
  end.
Definition insert_message (m : MessageRow) : tx StoreError MessageRow :=
  let! all := tx_read db_messages in
  let! t := tx_read (fun db => db_threads db !! me_thread m) in
  let! _ := tx_lift (to_i32 (me_seq m)) in
  if negb (message_guard t m) then tx_fail (Db CheckViolation)
  else if is_none t then tx_fail (Db ForeignKeyViolation)
  else if negb (N.leb 1 (me_seq m)) || N.eqb (me_sender m) (me_recipient m) then tx_fail (Db CheckViolation)
  else if existsb (fun x => N.eqb (me_id x) (me_id m)
                          || N.eqb (me_thread x) (me_thread m) && N.eqb (me_seq x) (me_seq m)) all
  then tx_fail (Db UniqueViolation)
  else tx_write (fun db => with_messages db (db_messages db ++ [m]));! tx_ret m.

(** ** Opening and accepting *)

Definition PairClear_verify (c : PairClear) (x y : AgentId) : result StoreError unit :=
  let a := ag_id (pc_a c) in
  let b := ag_id (pc_b c) in
  if (N.eqb a x && N.eqb b y) || (N.eqb a y && N.eqb b x) then Ok tt else Err WrongProof.

Record NewThread := mkNewThread {
  nt_id : ThreadId; nt_message : N; nt_initiator : AgentId; nt_initiator_session : option SessionId;
  nt_responder : AgentId; nt_topic : option str; nt_grant : option GrantId; nt_payload : str; nt_now : Instant }.

(** The grant is the initiator's own a2a grant to talk to the responder. *)
Definition grant_backs (now : Instant) (initiator : AgentId) (responder : str) (g : option GrantRow) : bool :=
  match g with
  | Some g => is_live g now && bool_decide (gr_platform g = A2a) && N.eqb (gr_agent g) initiator
            && str_eqb (gr_resource g) responder
  | None => false
  end.

Definition opened (n : NewThread) : ThreadRow :=
  mkThread (nt_id n) (nt_initiator n) (nt_initiator_session n) (nt_responder n) None (nt_topic n) (nt_grant n)
  ThreadPending None None None None None (nt_now n) 1 (nt_now n).
(** [Err tt]: the backing grant is not live. *)
Definition open_thread (clear : PairClear) (n : NewThread) : tx StoreError (result unit (ThreadRow * MessageRow)) :=
  let! _ := tx_lift (PairClear_verify clear (nt_initiator n) (nt_responder n)) in
  let responder_name := if N.eqb (ag_id (pc_a clear)) (nt_responder n) then ag_name (pc_a clear)
                      else ag_name (pc_b clear) in
  let! live := tx_read (fun db => match nt_grant n with
                                | Some g => grant_backs (nt_now n) (nt_initiator n) responder_name (db_grants db !! g)
                                | None => true
                                end) in
  if negb live then tx_ret (Err tt)
  else
  let t := opened n in
  let! db := tx_read (fun db => db) in
  if negb (thread_checks t) then tx_fail (Db CheckViolation)
  else if negb (is_none (db_threads db !! nt_id n)) then tx_fail (Db UniqueViolation)
  else if is_none (db_agents db !! nt_initiator n) || is_none (db_agents db !! nt_responder n)
  then tx_fail (Db ForeignKeyViolation)
  else
    tx_write (fun db => with_threads db (<[nt_id n := t]> (db_threads db)));!
    let! m := insert_message (mkMessage (nt_message n) (nt_id n) 1 (nt_initiator n) (nt_initiator_session n)
                                (nt_responder n) (nt_grant n) (nt_payload n) (nt_now n)) in
    tx_ret (Ok (t, m)).

Definition accepted (session : option SessionId) (now : Instant) (t : ThreadRow) : ThreadRow :=
  mkThread (th_id t) (th_initiator t) (th_initiator_session t) (th_responder t)
  (coalesce (th_responder_session t) session) (th_topic t) (th_grant t) ThreadOpen (Some now) (th_closed_at t)
  (th_close_reason t) (th_closed_by t) (th_close_note t) now (th_last_seq t) (th_created_at t).
(** [None]: the thread was not pending. *)
Definition accept (clear : PairClear) (id : ThreadId) (session : option SessionId) (now : Instant)
  : tx StoreError (option ThreadRow) :=
  let! t := tx_read (fun db => db_threads db !! id) in
  match t with
  | None => tx_ret None
  | Some t =>
    let! _ := tx_lift (PairClear_verify clear (th_initiator t) (th_responder t)) in
    if bool_decide (th_state t = ThreadPending)
    then update_thread t (accepted session now t);! tx_ret (Some (accepted session now t))
    else tx_ret None
  end.

(** ** Messages *)

Record NewMessage := mkNewMessage {
  nm_thread : ThreadId; nm_id : N; nm_sender : AgentId; nm_session : option SessionId; nm_payload : str;
  nm_now : Instant }.
Inductive AppendRefused := NotOpen | GrantNotLive.

Definition lock_backing_grant (grant : GrantId) (now : Instant) : tx StoreError bool :=
  tx_read (fun db => match db_grants db !! grant with Some g => is_live g now | None => false end).

Definition peer_of (t : ThreadRow) (me : AgentId) : AgentId :=
  if N.eqb me (th_initiator t) then th_responder t else th_initiator t.
Definition party (t : ThreadRow) (a : AgentId) : bool := N.eqb (th_initiator t) a || N.eqb (th_responder t) a.

Definition bumped (now : Instant) (t : ThreadRow) : ThreadRow :=
  mkThread (th_id t) (th_initiator t) (th_initiator_session t) (th_responder t) (th_responder_session t)
  (th_topic t) (th_grant t) (th_state t) (th_accepted_at t) (th_closed_at t) (th_close_reason t)
  (th_closed_by t) (th_close_note t) now (th_last_seq t + 1) (th_created_at t).
Definition append (clear : PairClear) (n : NewMessage) : tx StoreError (result AppendRefused MessageRow) :=
  let! t := tx_read (fun db => db_threads db !! nm_thread n) in
  match t with
  | None => tx_ret (Err NotOpen)
  | Some t =>
    if negb (party t (nm_sender n)) then tx_ret (Err NotOpen)
    else
      let recipient := peer_of t (nm_sender n) in
      let! _ := tx_lift (PairClear_verify clear (nm_sender n) recipient) in
      let! live := match th_grant t with Some g => lock_backing_grant g (nm_now n) | None => tx_ret true end in
      if negb live then tx_ret (Err GrantNotLive)
      else if negb (is_open t) then tx_ret (Err NotOpen)
      else
        update_thread t (bumped (nm_now n) t);!
        let! m := insert_message (mkMessage (nm_id n) (nm_thread n) (th_last_seq t + 1) (nm_sender n)
                                    (nm_session n) recipient (th_grant t) (nm_payload n) (nm_now n)) in
        tx_ret (Ok m)
  end.

(** ** Closing *)

Definition closed (reason : CloseReason) (by_ : option AgentId) (note : option str) (now : Instant) (t : ThreadRow)
  : ThreadRow :=
  mkThread (th_id t) (th_initiator t) (th_initiator_session t) (th_responder t) (th_responder_session t)
  (th_topic t) (th_grant t) ThreadClosed (th_accepted_at t) (Some now) (Some reason) by_ note now
  (th_last_seq t) (th_created_at t).
Definition not_closed (t : ThreadRow) : bool := negb (bool_decide (th_state t = ThreadClosed)).
(** [None]: the thread was closed already. *)
Definition close (id : ThreadId) (reason : CloseReason) (by_ : option AgentId) (note : option str) (now : Instant)
  : tx StoreError (option ThreadRow) :=
  let! t := tx_read (fun db => db_threads db !! id) in
  match t with
  | Some t =>
    if not_closed t
    then update_thread t (closed reason by_ note now t);! tx_ret (Some (closed reason by_ note now t))
    else tx_ret None
  | None => tx_ret None
  end.

(** [UPDATE a2a_threads SET state = 'closed', ... WHERE <which>]. *)
Fixpoint close_each (ids : list ThreadId) (reason : CloseReason) (by_ : option AgentId) (note : option str)
  (now : Instant) : tx StoreError (list ThreadRow) :=
  match ids with
  | [] => tx_ret []
  | id :: ids =>
    let! t := close id reason by_ note now in
    let! rest := close_each ids reason by_ note now in
    tx_ret (match t with Some t => t :: rest | None => rest end)
  end.
Definition threads_where (f : ThreadRow -> bool) (db : Database) : list ThreadRow :=
  List.filter f (map snd (map_to_list (db_threads db))).
Definition close_where (which : Database -> ThreadRow -> bool) (reason : CloseReason) (by_ : option AgentId)
  (note : option str) (now : Instant) : tx StoreError (list ThreadRow) :=
  let! ids := tx_read (fun db => map th_id (threads_where (fun t => not_closed t && which db t) db)) in
  close_each ids reason by_ note now.

Definition bound_to (sessions : list SessionId) (s : option SessionId) : bool :=
  match s with Some s => existsb (N.eqb s) sessions | None => false end.
Definition close_for_sessions (sessions : list SessionId) (by_ : option AgentId) (now : Instant) :=
  close_where (fun _ t => bound_to sessions (th_initiator_session t) || bound_to sessions (th_responder_session t))
  PeerGone by_ None now.
Definition close_open_timeouts (cutoff now : Instant) :=
  close_where (fun _ t => bool_decide (th_state t = ThreadPending) && Z.ltb (th_created_at t) cutoff)
  OpenTimeout None None now.
Definition close_idle (cutoff now : Instant) :=
  close_where (fun _ t => is_open t && Z.ltb (th_last_activity t) cutoff) IdleTimeout None None now.
(** Operator threads, which have no grant, stay. *)
Definition close_dead_grants (now : Instant) :=
  close_where (fun db t => match th_grant t with
                         | Some g => match db_grants db !! g with
                                     | Some g => negb (is_live g now)
                                     | None => false
                                     end
                         | None => false
                         end) GrantRevoked None None now.
Definition close_all_for (agent : AgentId) (note : str) (now : Instant) :=
  close_where (fun _ t => party t agent) Closed None (Some note) now.
Definition close_for_agent (agent : AgentId) (now : Instant) :=
  close_where (fun _ t => party t agent) PeerGone None None now.
Definition orphan_inbound (agent : AgentId) (now : Instant) :=
  close_where (fun _ t => N.eqb (th_responder t) agent) PeerGone None None now.

(** ** Reads *)

Fixpoint insert_thread_by {K} (leb : K -> K -> bool) (key : ThreadRow -> K) (t : ThreadRow) (rows : list ThreadRow)
  : list ThreadRow :=
  match rows with
  | [] => [t]
  | x :: rest => if leb (key t) (key x) then t :: rows else x :: insert_thread_by leb key t rest
  end.
Definition by_activity (rows : list ThreadRow) : list ThreadRow :=
  fold_right (insert_thread_by at_id_leb (fun t => (th_last_activity t, th_id t))) [] rows.
Definition by_recent (rows : list ThreadRow) : list ThreadRow :=
  fold_right (insert_thread_by newest_id_leb (fun t => (th_last_activity t, th_id t))) [] rows.

Inductive Role := Initiator | Responder.
Record Viewer := mkViewer { vw_agent : AgentId; vw_session : option SessionId }.
Definition session_sees (viewer : option SessionId) (bound : option SessionId) : bool :=
  match viewer with None => true | Some s => bool_decide (bound = Some s) end.
Definition list_threads (v : Viewer) (role : option Role) (state : option ThreadState) (limit : nat)
  : tx StoreError (list ThreadRow) :=
  let side (r : Role) := match role with
                       | None => true
                       | Some x => match x, r with
                                   | Initiator, Initiator | Responder, Responder => true
                                   | _, _ => false
                                   end
                       end in
  tx_read (fun db => take limit (by_recent (threads_where (fun t =>
  (side Initiator && N.eqb (th_initiator t) (vw_agent v) && session_sees (vw_session v) (th_initiator_session t)
   || side Responder && N.eqb (th_responder t) (vw_agent v) && session_sees (vw_session v) (th_responder_session t))
  && match state with None => true | Some s => bool_decide (th_state t = s) end) db))).

Definition sees_exactly (v : Viewer) (t : ThreadRow) : bool :=
  N.eqb (th_initiator t) (vw_agent v) && bool_decide (th_initiator_session t = vw_session v)
  || N.eqb (th_responder t) (vw_agent v) && bool_decide (th_responder_session t = vw_session v).
Definition active_after (after : option Instant) (t : ThreadRow) : bool :=
  match after with None => not_closed t | Some a => Z.ltb a (th_last_activity t) end.
Definition activity (v : Viewer) (after : option Instant) (limit : nat) : tx StoreError (list ThreadRow) :=
  tx_read (fun db => take limit (by_activity (threads_where
  (fun t => sees_exactly v t && active_after after t) db))).
Definition activity_before (v : Viewer) (after : option Instant) (before : Instant) (limit : nat)
  : tx StoreError (list ThreadRow) :=
  tx_read (fun db => take limit (by_activity (threads_where
  (fun t => sees_exactly v t && active_after after t && Z.ltb (th_last_activity t) before) db))).
Definition initiated_by (agent : AgentId) (limit : nat) : tx StoreError (list ThreadRow) :=
  tx_read (fun db => take limit (by_recent (threads_where (fun t => N.eqb (th_initiator t) agent) db))).

Fixpoint insert_message_by (m : MessageRow) (rows : list MessageRow) : list MessageRow :=
  match rows with
  | [] => [m]
  | x :: rest => if N.leb (me_seq m) (me_seq x) then m :: rows else x :: insert_message_by m rest
  end.
(** Messages past [after_seq], in order, with their senders' names. *)
Definition messages_after (thread : ThreadId) (after_seq : N) : tx StoreError (list (str * MessageRow)) :=
  tx_read (fun db => omap (fun m => (fun a => (ag_name a, m)) <$> db_agents db !! me_sender m)
  (fold_right insert_message_by []
     (List.filter (fun m => N.eqb (me_thread m) thread && N.ltb after_seq (me_seq m)) (db_messages db)))).
End threads.
