(* ===== verification/ServiceRouting.v ===== *)
(** From a request to a route ([crates/broker/src/service/routing.rs]), the
    resolution of a cited thread ([a2a/delegation.rs]), and what the request
    lifecycle's parts share ([service/mod.rs], [provisioners/mod.rs]). *)

From stdpp Require Import gmap.
From S2P Require Import Prelude Json Glob Pyfmt Lifecycle Names Durations Pool Mail Authority Routing Agents Hostexec Schema Policy Zones Eval CanonicalJson Store Requests Grants.
From stdpp Require Import options.

(** ** Errors *)

Definition not_enabled (p : Platform) : str :=
  lit "platform '" ++ Platform_as_str p ++ lit "' is not enabled on this broker".

Inductive ProvisionError := Failed (why : str) | NotImplemented.
Definition ProvisionError_text (e : ProvisionError) : str :=
  match e with Failed why => why | NotImplemented => lit "not implemented" end.

Inductive ServiceError :=
| Transition (text : str)
| NotEnabled (p : Platform)
| Provision (e : ProvisionError)
| StoreFailed (e : StoreError).

(** ** The platforms' provisioners *)

(** What the lifecycle asks of a platform: to validate a request, then to
    make, undo and prepare a grant. Each may write what it keeps in the
    transaction it is given, failed or not. *)
Section interface.
Context `{DateLib}.

Record Validated := mkValidated {
  v_resource : str; v_authority : Authority; v_notes : list str }.

(** How [provision] ends: with the state to keep; failed (and [broken]: its
    writes failed the transaction too); or not in time. *)
Inductive Provisioned :=
| Made (state : Value) | NotMade (e : ProvisionError) (broken : bool) | TooSlow.

Class Registry := {
  enabled_platform : Platform -> bool;
  is_retired : Platform -> bool;
  validate : AgentRow -> str -> Authority -> Instant -> Database -> result StoreError (result str Validated);
  prepare : GrantRow -> Instant -> Database -> result ProvisionError unit * Database;
  provision : GrantRow -> Instant -> Database -> Provisioned * Database;
  revoke : GrantRow -> Instant -> Database -> result ProvisionError unit * Database;
}.
End interface.

Record AgentCaller := mkCaller { caller_agent : AgentRow; caller_session : option SessionId }.
Definition caller_id (c : AgentCaller) : AgentId := ag_id (caller_agent c).

Section routing.
Context `{UnicodeLower, RegexLib, DateLib}.

Definition store {A} (m : tx StoreError A) : tx ServiceError A := tx_map_err StoreFailed m.

(** How a function leaves its transaction: committed, or dropped on return. *)
Inductive Closing (A : Type) := Committed (a : A) | Dropped (a : A).
Arguments Committed {A} _.
Arguments Dropped {A} _.
Definition tx_close {A} (m : tx ServiceError (Closing A)) (db : Database) : result ServiceError A * Database :=
  match m db with
  | Ok (Committed a, db') => (Ok a, db')
  | Ok (Dropped a, _) => (Ok a, db)
  | Err e => (Err e, db)
  end.

(** ** The delegator *)

Inductive Delegator := NoDelegator | GoneDelegator | DelegatorAgent (a : AgentRow).
Definition as_policy (d : Delegator) : Delegation :=
  match d with
  | NoDelegator => NotDelegated
  | GoneDelegator => Gone
  | DelegatorAgent a => ByAgent (policy_ref a)
  end.
Definition delegator_name (d : Delegator) : option str :=
  match d with DelegatorAgent a => Some (ag_name a) | _ => None end.
Definition delegator_of (r : RequestRow) : tx StoreError Delegator :=
  match rq_delegation r with
  | None => tx_ret NoDelegator
  | Some d =>
    let! a := get_agent (delegator_agent_id d) in
    tx_ret match a with Some a => DelegatorAgent a | None => GoneDelegator end
  end.

(** ** Zones, with the facts from the database *)

Definition zone_check (policy : Policy) (agent : AgentRow) (authority : Authority) (resource : str)
  : tx StoreError (result ZoneDenied ZonePassed) :=
  let me := policy_ref agent in
  if bool_decide (length (pol_restricted policy) = 0) then
  tx_ret (check policy me authority resource Nothing)
  else
  let! daemon_name := tx_read (fun db => match ag_sandbox agent with
                                         | Some id => db_daemons db !! id
                                         | None => None
                                         end) in
  match platform authority with
  | A2a =>
      let! peer := agent_by_name resource in
      tx_ret (check policy me authority resource (A2aPeer (policy_ref <$> peer)))
  | Sandbox =>
      let! in_vm := match ag_sandbox agent with
                    | Some id => list_in_sandbox id
                    | None => tx_ret []
                    end in
      let here := List.filter (fun a => bool_decide (ag_project a = Some resource)) in_vm in
      tx_ret (check policy me authority resource (SandboxFacts daemon_name (map policy_ref here)))
  | Agents => tx_ret (check policy me authority resource (AgentsFacts daemon_name))
  | _ => tx_ret (check policy me authority resource Nothing)
  end.

(** ** Saved rules *)

(** Between a second and a year. *)
Definition clamp_duration (secs : N) : Z :=
  match from_secs (Z.of_N (N.min (N.max secs 1) (Z.to_N MAX_DURATION_SECS))) with
  | Ok d => d
  | Err _ => MAX_DURATION_SECS
  end.
Definition saved_rule (r : RuleRow) : SavedRule :=
  mkSaved (ru_id r) (ru_action r) (Glob_new (ru_agent_pattern r)) (Glob_new <$> ru_delegator_pattern r)
  (ru_platform r) (Glob_new (ru_resource_pattern r)) (ru_authority r) (clamp_duration <$> ru_max_duration r)
  (ru_enabled r) (ru_notes r) (ru_expires_at r) (ru_created_at r).
Definition saved_rules (p : Platform) (now : Instant) : tx StoreError (list SavedRule) :=
  let! rows := live_for p now in
  tx_ret (sort_saved_rules (map saved_rule rows)).

(** [Policy::cap_duration]. *)
Definition policy_cap (policy : Policy) (requested : Z) (rule_max : option Z) : Z :=
  cap_duration requested (d_max_duration (pol_defaults policy)) rule_max.

(** ** Gates that need the database *)

(** [crate::mail::created_for_another]. *)
Definition created_for_another (agent : AgentId) (authority : Authority) (resource : str)
  : tx StoreError (option str) :=
  match authority with
  | AMail m =>
    if bool_decide (m_action m = MCreate) then tx_ret None
    else
      let! creator := tx_read (fun db => db_aliases db !! resource) in
      tx_ret match creator with
             | Some c => if N.eqb c agent then None
                         else Some (resource ++ lit " was created for another agent: always a human")
             | None => None
             end
  | _ => tx_ret None
  end.

Definition stored_gates (agent : AgentRow) (authority : Authority) (resource : str) (routed : RoutedRequest)
  : tx StoreError RoutedRequest :=
  let! note := created_for_another (ag_id agent) authority resource in
  tx_ret match note with
       | Some note =>
           if is_auto (Route_action (rr_route routed))
           then mkRouted RSurface (rr_downgrades routed) (rr_notes routed ++ [note])
           else routed
       | None => routed
       end.

(** ** Routing a stored request again *)

(** [None]: the zone check refused it. *)
Record Rerouted := mkRerouted { re_decision : PolicyDecision; re_routed : option RoutedRequest }.
Definition re_route (r : Rerouted) : option Route := rr_route <$> re_routed r.

Definition reroute (policy : Policy) (request : RequestId) (agent : AgentRow) (delegator : Delegator)
  (resource : str) (authority : Authority) (now : Instant) : tx StoreError Rerouted :=
  let! saved := saved_rules (platform authority) now in
  let input := mkInput (policy_ref agent) (as_policy delegator) resource authority in
  let! zone := zone_check policy agent authority resource in
  match zone with
  | Ok zone =>
    let '(decision, routed) := evaluate_and_route policy request input saved zone now in
    let! routed := stored_gates agent authority resource routed in
    tx_ret (mkRerouted decision (Some routed))
  | Err _ => tx_ret (mkRerouted (evaluate policy input saved now) None)
  end.

(** The catalog's typical disposition. *)
Inductive Disposition := DAutoApprove | DHumanReview | DLlmReview | DDenied.
Definition disposition (policy : Policy) (agent : AgentRow) (authority : Authority) (now : Instant)
  : tx StoreError Disposition :=
  let! saved := saved_rules (platform authority) now in
  let input := mkInput (policy_ref agent) NotDelegated (lit "*") authority in
  let decision := evaluate policy input saved now in
  tx_ret (if is_auto (p_action decision) && negb (p_explicit decision) && needs_explicit_rule authority
        then DHumanReview
        else match p_action decision with
             | Approve => DAutoApprove
             | Surface => DHumanReview
             | Llm => DLlmReview
             | Deny => DDenied
             end).
End routing.

(** ** Resolving a cited thread *)

Arguments Committed {A} _.
Arguments Dropped {A} _.

Section delegation.
Context `{DateLib, UuidLib}.

Definition ThreadState_as_str (s : ThreadState) : str :=
  match s with ThreadPending => lit "pending_open" | ThreadOpen => lit "open" | ThreadClosed => lit "closed" end.

Record Resolved := mkResolved { delegation : Anchor; risk_note : str }.

Definition unknown_thread : str :=
  lit "unknown thread (you must be a participant of the thread you cite)".

Definition resolve (caller : AgentCaller) (p : Platform) (thread : str)
  : tx StoreError (result str Resolved) :=
  let me := caller_id caller in
  if bool_decide (p = A2a) then tx_ret (Err (lit "a2a access cannot be requested on behalf of another agent"))
  else
  match parse_canonical thread with
  | None => tx_ret (Err unknown_thread)
  | Some id =>
      let! t := tx_read (fun db => db_threads db !! id) in
      match t with
      | None => tx_ret (Err unknown_thread)
      | Some t =>
          if negb (N.eqb (th_initiator t) me || N.eqb (th_responder t) me) then tx_ret (Err unknown_thread)
          else if negb (is_open t) then
            tx_ret (Err (lit "thread is " ++ ThreadState_as_str (th_state t)
                         ++ lit "; delegation requires an OPEN thread (the other side must have accepted)"))
          else if negb (N.eqb (th_responder t) me) then
            tx_ret (Err (lit "you opened this thread; only the responder may act on a thread's behalf "
                         ++ lit "(the delegator must be the side that asked)"))
          else if match th_responder_session t with
                  | Some bound => negb (bool_decide (caller_session caller = Some bound))
                  | None => false
                  end
          then tx_ret (Err (lit "thread belongs to a different session of this agent"))
          else
            let! delegator := get_agent (th_initiator t) in
            match delegator with
            | None => tx_ret (Err (lit "delegator agent is disabled"))
            | Some delegator =>
                if ag_disabled delegator then tx_ret (Err (lit "delegator agent is disabled"))
                else
                  let topic := match th_topic t with
                               | None => lit "(none)"
                               | Some s => to_python_default_string (VString s)
                               end in
                  tx_ret (Ok (mkResolved (mkAnchor (th_id t) (ag_id delegator))
                    (lit "on behalf of " ++ ag_name delegator ++ lit " (a2a thread topic " ++ topic ++ lit ")")))
            end
      end
  end.
End delegation.
