(* ===== verification/PoolLeases.v ===== *)
(** Pool leases ([crates/store/src/pool.rs], and the table of
    [store/migrations/0012_catchup.sql]) and the platform that leases the
    items ([crates/broker/src/provisioners/pool.rs]). Every statement of a
    provision sees what the other transactions committed before it. *)

From stdpp Require Import gmap.
From S2P Require Import Prelude Json Glob Pyfmt Lifecycle Names Durations Pool Mail Authority Routing Agents Hostexec Schema Policy Zones Eval CanonicalJson HostTypes TotpCode F64 Transcript Envelope Store Requests Grants ServiceRouting.
From stdpp Require Import options.
#[local] Set Default Proof Using "Type*".

(** ** The table *)

Record Lease := mkLease {
  le_id : N;
  le_pool : str;
  le_item : str;
  le_slot : N;
  le_grant : GrantId;
  le_agent : AgentId;
  le_agent_slot : N;
  le_created_at : Instant;
}.
Record LeaseRow := mkLeaseRow {
  lr_item : str;
  lr_slot : N;
  lr_agent : AgentId;
  lr_agent_slot : N;
  lr_grant : GrantId;
  lr_expires_at : Instant;
}.
Record NewLease := mkNewLease {
  nl_pool : str;
  nl_item : str;
  nl_slot : N;
  nl_agent_slot : N;
  nl_grant : GrantId;
  nl_agent : AgentId;
  nl_now : Instant;
}.

Section store_pool.
Context `{DateLib}.

(** The database and its [pool_leases]. *)
Record Leased := mkLeased { ld_db : Database; ld_leases : list Lease }.
Definition with_leases (d : Leased) (l : list Lease) : Leased := mkLeased (ld_db d) l.

(** [ORDER BY l.created_at, l.id]. *)
Fixpoint insert_lease (l : Lease) (rows : list Lease) : list Lease :=
  match rows with
  | [] => [l]
  | x :: rest =>
      if at_id_leb (le_created_at l, le_id l) (le_created_at x, le_id x) then l :: rows
      else x :: insert_lease l rest
  end.
Definition lease_row (db : Database) (l : Lease) : option LeaseRow :=
  (fun g => mkLeaseRow (le_item l) (le_slot l) (le_agent l) (le_agent_slot l) (le_grant l) (gr_expires_at g))
    <$> db_grants db !! le_grant l.
Definition leases (pool : str) (d : Leased) : list LeaseRow :=
  omap (lease_row (ld_db d))
    (fold_right insert_lease [] (List.filter (fun l => str_eqb (le_pool l) pool) (ld_leases d))).

(** A grant that has ended, failed ones included. *)
Definition grant_over (db : Database) (id : GrantId) : bool :=
  match db_grants db !! id with Some g => negb (live_status (gr_status g)) | None => false end.
Definition clear_ended (pool : str) (d : Leased) : Leased :=
  with_leases d (List.filter (fun l => negb (str_eqb (le_pool l) pool && grant_over (ld_db d) (le_grant l))) (ld_leases d)).

(** The guard's trigger, the CHECKs, the unique keys and the reference to
    the grant of that agent. *)
Definition lease_guard (db : Database) (l : Lease) : bool :=
  match db_grants db !! le_grant l with
  | Some g => bool_decide (gr_platform g = Pool) && str_eqb (gr_resource g) (le_pool l)
              && bool_decide (gr_status g = GProvisioning)
  | None => false
  end.
Definition lease_checks (l : Lease) : bool := between 1 64 (le_pool l) && between 1 128 (le_item l).
Definition lease_conflict (l x : Lease) : bool :=
  N.eqb (le_id l) (le_id x) || N.eqb (le_grant l) (le_grant x)
  || str_eqb (le_pool l) (le_pool x) && str_eqb (le_item l) (le_item x) && N.eqb (le_slot l) (le_slot x)
  || str_eqb (le_pool l) (le_pool x) && N.eqb (le_agent l) (le_agent x) && N.eqb (le_agent_slot l) (le_agent_slot x).
Definition lease_references (db : Database) (l : Lease) : bool :=
  match db_grants db !! le_grant l with
  | Some g => N.eqb (gr_agent g) (le_agent l) && negb (is_none (db_agents db !! le_agent l))
  | None => false
  end.
Definition lease_of (id : N) (n : NewLease) : Lease :=
  mkLease id (nl_pool n) (nl_item n) (nl_slot n) (nl_grant n) (nl_agent n) (nl_agent_slot n) (nl_now n).
Definition take (id : N) (n : NewLease) (d : Leased) : result StoreError (bool * Leased) :=
  _ ← Store.to_i32 (nl_slot n);
  _ ← Store.to_i32 (nl_agent_slot n);
  let l := lease_of id n in
  if negb (lease_guard (ld_db d) l && lease_checks l) then Err (Db CheckViolation)
  else if existsb (lease_conflict l) (ld_leases d) then Ok (false, d)
  else if negb (lease_references (ld_db d) l) then Err (Db ForeignKeyViolation)
  else Ok (true, with_leases d (ld_leases d ++ [l])).

Definition release (grant : GrantId) (d : Leased) : nat * Leased :=
  (length (List.filter (fun l => N.eqb (le_grant l) grant) (ld_leases d)),
   with_leases d (List.filter (fun l => negb (N.eqb (le_grant l) grant)) (ld_leases d))).

(** [jsonb_typeof(provisioner_state->'item') = 'string'], and that string. *)
Definition state_item (g : GrantRow) : option str := value_get (gr_state g) (lit "item") ≫= as_str.
(** [ORDER BY granted_at DESC, id DESC]. *)
Definition newest_leb (a b : Instant * N) : bool :=
  Z.ltb (fst b) (fst a) || Z.eqb (fst a) (fst b) && N.leb (snd b) (snd a).
Definition last_held (agent : AgentId) (pool : str) (exclude : option GrantId) (db : Database) : option str :=
  head (order_by newest_leb (fun g => (gr_granted_at g, gr_id g)) (grants_where (fun g =>
    N.eqb (gr_agent g) agent && bool_decide (gr_platform g = Pool) && str_eqb (gr_resource g) pool
    && negb (bool_decide (exclude = Some (gr_id g))) && negb (is_none (state_item g))) db))
  ≫= state_item.
End store_pool.

(** ** The platform's library *)

(** A UTC date of the calendar, and the files of secrets: a file's length,
    and its text read up to a length (or the error's text). *)
Class PoolLib := {
  utc_date : Instant -> Z * N * N;
  file_len : str -> option N;
  read_upto : str -> N -> option (result str str);
}.

Section pool_provisioner.
Context `{DateLib, UnicodeLower, RustFmt, PoolLib}.

Definition TRIES : nat := 8.
Definition CREDENTIAL_VALUE_MAX : N := N.shiftl 1 20.
Definition MAX_SECRET_FILE : N := CREDENTIAL_VALUE_MAX + 1.

Definition admitted (patterns : list AgentPattern) (agent : AgentRef) : bool :=
  bool_decide (patterns = []) || existsb (fun p => pattern_matches p agent) patterns.
Definition match_value (m : list (str * PropValue)) : Value := VObject (map_values PropValue_to_json m).
Definition props_value (props : list (str * PropValue)) : list (str * Value) := map_values PropValue_to_json props.

(** [{:0w$}] of an integer. *)
Definition zero_pad (w : nat) (z : Z) : str :=
  let digits := show_N (Z.abs_N z) in
  let sign := if Z.ltb z 0 then lit "-" else [] in
  sign ++ repeat (ch "0") (w - length sign - length digits) ++ digits.
Definition iso_minutes (t : Instant) : str :=
  let '(year, month, day) := utc_date t in
  let minutes := (t / (60 * 1000000000))%Z in
  zero_pad 4 year ++ lit "-" ++ zero_pad 2 (Z.of_N month) ++ lit "-" ++ zero_pad 2 (Z.of_N day) ++ lit "T"
  ++ zero_pad 2 (minutes / 60 mod 24) ++ lit ":" ++ zero_pad 2 (minutes mod 60) ++ lit "+00:00".

Definition too_large (item : str) : ProvisionError :=
  Failed (lit "the secret of " ++ item ++ lit " is larger than " ++ show_N CREDENTIAL_VALUE_MAX
    ++ lit " bytes, the most a credential carries; ask the operator to shorten it").
(** [strerror]: the error's text up to the system's number. *)
Definition strerror (text : str) : str :=
  match find_sub (lit " (os error ") text with Some i => firstn i text | None => text end.
Definition read_secret (item path : str) : result ProvisionError str :=
  match read_upto path (MAX_SECRET_FILE + 1) with
  | Some (Ok whole) =>
      let text := default whole (strip_suffix [10%N] whole) in
      if N.ltb CREDENTIAL_VALUE_MAX (N.of_nat (str_len text)) then Err (too_large item) else Ok text
  | Some (Err e) => Err (Failed (lit "cannot read the secret of " ++ item ++ lit " (" ++ strerror e ++ lit ")"))
  | None => Err (Failed (lit "cannot read the secret of " ++ item ++ lit " (see broker logs)"))
  end.
Definition check_secret_size (item path : str) : result ProvisionError unit :=
  if bool_decide (path = []) then Ok tt
  else match file_len path with
       | Some n => if N.ltb MAX_SECRET_FILE n then Err (too_large item) else Ok tt
       | None => Ok tt
       end.

Definition Pools : Type := list (str * PoolConfig).
Definition eligible (pool : PoolConfig) (agent : AgentRef) (m : list (str * PropValue)) : list str :=
  map fst (List.filter (fun kv => negb (item_sensitive kv.2) && admitted (item_agents kv.2) agent
                                  && pool_matches (properties kv.2) m) (items pool)).
Definition holders (l : list LeaseRow) (item : str) : list LeaseRow :=
  List.filter (fun r => str_eqb (lr_item r) item) l.
Definition mine (l : list LeaseRow) (agent : AgentId) : list LeaseRow :=
  List.filter (fun r => N.eqb (lr_agent r) agent) l.
Definition name_in (item : str) (names : list str) : bool := existsb (str_eqb item) names.

(** ** Validation *)

Definition in_use (pool : PoolConfig) (l : list LeaseRow) (item : str) : str :=
  if N.ltb (N.of_nat (length (holders l item))) (capacity pool) then [] else lit " (in use now)".
Definition choice_note (name : str) (pool : PoolConfig) (agent : AgentRow) (held_last : option str) (l : list LeaseRow)
    (choice : PoolChoice) : result str str :=
  let me := policy_ref agent in
  match choice with
  | Item item =>
      match map_get item (items pool) with
      | None => Err (lit "pool " ++ name ++ lit " has no item " ++ repr item ++ lit " (it has: "
                     ++ join (lit ", ") (map_keys (items pool)) ++ lit ")")
      | Some it =>
          if negb (admitted (item_agents it) me) then
            Err (item ++ lit " of pool " ++ name ++ lit " is not for " ++ ag_name agent)
          else Ok (item ++ lit " of pool " ++ name ++ lit ", by name" ++ in_use pool l item
                   ++ (if item_sensitive it then lit " — a sensitive item" else []))
      end
  | Previous =>
      match held_last with
      | None => Err (lit "you have not held an item of pool " ++ name
                     ++ qlit " before: ask for any (no scope, or a `match`)")
      | Some last =>
          let usable := match map_get last (items pool) with
                        | Some i => negb (item_sensitive i) && admitted (item_agents i) me
                        | None => false
                        end in
          if negb usable then Err (last ++ lit ", the item you held last, can't be leased again this way")
          else Ok (last ++ lit " of pool " ++ name ++ lit " again (held last)" ++ in_use pool l last)
      end
  | Any m =>
      let candidates := eligible pool me m in
      if bool_decide (candidates = []) then
        Err (if bool_decide (m = []) then lit "pool " ++ name ++ lit " has no item for you"
             else lit "no item of pool " ++ name ++ lit " matches " ++ to_python_default_string (match_value m))
      else
        let free_now := length (List.filter (fun c => N.ltb (N.of_nat (length (holders l c))) (capacity pool)) candidates) in
        Ok (lit "any item of pool " ++ name
            ++ (if bool_decide (m = []) then [] else lit " matching " ++ to_python_default_string (match_value m))
            ++ lit ": " ++ show_N (N.of_nat free_now) ++ lit " of " ++ show_N (N.of_nat (length candidates)) ++ lit " free now"
            ++ match held_last with
               | Some last => if name_in last candidates then lit "; held " ++ last ++ lit " last" else []
               | None => []
               end)
  end.
Definition validate_spec (pools : Pools) (d : Leased) (agent : AgentRow) (resource : str) (authority : Authority)
    : result str Validated :=
  let name := to_lowercase (trim resource) in
  match map_get name pools with
  | None =>
      let known := if bool_decide (pools = []) then lit "none" else join (lit ", ") (map_keys pools) in
      Err (lit "no pool " ++ repr name ++ lit " (there is: " ++ known ++ lit ")")
  | Some pool =>
      if negb (admitted (pool_agents pool) (policy_ref agent)) then
        Err (lit "pool " ++ repr name ++ lit " is not open to " ++ ag_name agent)
      else match authority with
      | APool choice =>
          let l := leases name d in
          note ← choice_note name pool agent (last_held (ag_id agent) name None (ld_db d)) l choice;
          let n := N.of_nat (length (mine l (ag_id agent))) in
          let more :=
            if N.leb (max_per_agent pool) n then
              [ag_name agent ++ lit " already holds " ++ show_N n ++ lit " of pool " ++ name ++ lit " (at most "
               ++ show_N (max_per_agent pool) ++ lit "): this fails unless one is released first"]
            else [] in
          Ok (mkValidated name authority (note :: more))
      | _ => Err (qlit "pool capability is `lease`")
      end
  end.

(** ** Taking a lease *)

(** [position] then [remove]. *)
Fixpoint remove_first (item : str) (names : list str) : list str :=
  match names with
  | [] => []
  | x :: rest => if str_eqb x item then rest else x :: remove_first item rest
  end.
Definition candidates (pool_name : str) (pool : PoolConfig) (agent : AgentRow) (choice : PoolChoice)
    (held_last : option str) : result ProvisionError (list str) :=
  let me := policy_ref agent in
  match choice with
  | Item item =>
      match map_get item (items pool) with
      | None => Err (Failed (lit "pool " ++ pool_name ++ lit " no longer has " ++ item))
      | Some it =>
          if negb (admitted (item_agents it) me) then
            Err (Failed (item ++ lit " of pool " ++ pool_name ++ lit " is no longer for " ++ ag_name agent))
          else Ok [item]
      end
  | Previous =>
      match held_last with
      | Some last =>
          if name_in last (eligible pool me []) then Ok [last]
          else Err (Failed (lit "the item you held last can't be leased again"))
      | None => Err (Failed (lit "the item you held last can't be leased again"))
      end
  | Any m =>
      let c := eligible pool me m in
      Ok match held_last with
         | Some last => if name_in last c then last :: remove_first last c else c
         | None => c
         end
  end.

(** [(0..n).find(|i| ...)]. *)
Definition below (n : N) : list N := map N.of_nat (seq 0 (N.to_nat n)).
Definition slot_taken (l : list LeaseRow) (item : str) (slot : N) : bool :=
  existsb (fun r => str_eqb (lr_item r) item && N.eqb (lr_slot r) slot) l.
Fixpoint choose (pool : PoolConfig) (l : list LeaseRow) (held names : list str) : option (str * N) :=
  match names with
  | [] => None
  | item :: rest =>
      if name_in item held then choose pool l held rest
      else match find (fun slot => negb (slot_taken l item slot)) (below (capacity pool)) with
           | Some slot => Some (item, slot)
           | None => choose pool l held rest
           end
  end.

(** How the tries end: with a lease; an error ([broken]: the transaction
    with it); no slot free, with the leases and the agent's items of that
    read; or every insert lost. *)
Inductive Tried :=
| Took (item : str) (slot : N) | TryFailed (e : ProvisionError) (broken : bool)
| NoSlot (last_leases : list LeaseRow) (held_items : list str) | Exhausted.

Definition database_error : ProvisionError := Failed (lit "database error (see broker logs)").

(** [fresh n]: the id drawn for the n-th insert; [others n]: what other
    transactions committed before the n-th statement. *)
Section tries.
Context (fresh : nat -> N) (others : nat -> Leased -> Leased).
Fixpoint try_lease (fuel n : nat) (name : str) (pool : PoolConfig) (agent : AgentId) (grant : GrantId) (now : Instant)
    (names : list str) (d : Leased) : Tried * Leased :=
  match fuel with
  | O => (Exhausted, d)
  | S fuel =>
      let d := others n d in
      let l := leases name d in
      let own := mine l agent in
      if N.leb (max_per_agent pool) (N.of_nat (length own)) then
        (TryFailed (Failed (lit "you already hold " ++ show_N (N.of_nat (length own)) ++ lit " item(s) of pool " ++ name
           ++ lit " (at most " ++ show_N (max_per_agent pool) ++ lit "); release one with release_grant first")) false, d)
      else
        let agent_slot := default 0%N (find (fun s => negb (existsb (fun r => N.eqb (lr_agent_slot r) s) own))
                                            (below (max_per_agent pool))) in
        let held_items := map lr_item own in
        match choose pool l held_items names with
        | None => (NoSlot l held_items, d)
        | Some (item, slot) =>
            match match map_get item (items pool) with
                  | Some it => check_secret_size item (secret_file it)
                  | None => Ok tt
                  end with
            | Err e => (TryFailed e false, d)
            | Ok _ =>
                let d := others (S n) d in
                match take (fresh n) (mkNewLease name item slot agent_slot grant agent now) d with
                | Err _ => (TryFailed database_error true, d)
                | Ok (true, d) => (Took item slot, d)
                | Ok (false, d) => try_lease fuel (S (S n)) name pool agent grant now names d
                end
            end
        end
  end.

Definition earliest (l : list Instant) : option Instant :=
  fold_left (fun best t => Some (match best with Some b => Z.min b t | None => t end)) l None.
Definition took (name : str) (names : list str) (t : Tried) : Provisioned :=
  match t with
  | Took item slot => Made (json_obj [(lit "pool", VString name); (lit "item", VString item); (lit "slot", json_int (Z.of_N slot))])
  | TryFailed e broken => NotMade e broken
  | Exhausted => NotMade (Failed (lit "pool " ++ name ++ lit " is busy; try again")) false
  | NoSlot last_leases held_items =>
      if negb (bool_decide (names = [])) && forallb (fun c => name_in c held_items) names then
        NotMade (Failed (lit "you already hold " ++ join (lit ", ") names ++ lit " of pool " ++ name)) false
      else
        let when := match earliest (map lr_expires_at (List.filter (fun r => name_in (lr_item r) names) last_leases)) with
                    | None => []
                    | Some t => lit "; the first frees at " ++ iso_minutes t
                    end in
        NotMade (Failed (lit "every matching item of pool " ++ name ++ lit " is in use" ++ when)) false
  end.

(** [provision]: the agent is statement 0, the deletion of ended leases 1,
    the item held last 2; the tries follow. The advisory lock is taken
    between the first two. *)
Definition pool_provision (pools : Pools) (grant : GrantRow) (now : Instant) (d : Leased) : Provisioned * Leased :=
  let name := gr_resource grant in
  let fail d why := (NotMade (Failed why) false, d) in
  match map_get name pools with
  | None => fail d (lit "pool " ++ repr name ++ lit " is no longer configured")
  | Some pool =>
      let d := others 0 d in
      match db_agents (ld_db d) !! gr_agent grant with
      | None => fail d (lit "agent not found")
      | Some agent =>
          if negb (admitted (pool_agents pool) (policy_ref agent)) then
            fail d (lit "pool " ++ name ++ lit " is no longer open to " ++ ag_name agent)
          else match gr_authority grant with
          | APool choice =>
              let d := clear_ended name (others 1 d) in
              let d := others 2 d in
              let held_last := last_held (ag_id agent) name (Some (gr_id grant)) (ld_db d) in
              match candidates name pool agent choice held_last with
              | Err e => (NotMade e false, d)
              | Ok names =>
                  let '(t, d) := try_lease TRIES 3 name pool (ag_id agent) (gr_id grant) now names d in
                  (took name names t, d)
              end
          | _ => fail d (lit "not a pool grant")
          end
      end
  end.
End tries.

Definition pool_revoke (grant : GrantRow) (d : Leased) : Leased := snd (release (gr_id grant) d).

(** ** What the agent is handed, and what it is shown *)

(** The kind of every credential here is a pool item's; it has no URL. *)
Record Credential := mkCredential {
  cr_value : option str;
  cr_username : option str;
  cr_expires_at : Instant;
  cr_note : str;
  cr_properties : list (str * Value);
}.
Definition item_of (pools : Pools) (grant : GrantRow) : option (str * PoolItem) :=
  item ← state_item grant;
  pool ← map_get (gr_resource grant) pools;
  (fun it => (item, it)) <$> map_get item (items pool).
Definition credential (pools : Pools) (grant : GrantRow) : result ProvisionError Credential :=
  match item_of pools grant with
  | None => Err (Failed (lit "this grant's item is no longer configured"))
  | Some (item_name, item) =>
      value ← (if bool_decide (secret_file item = []) then Ok None
               else Some <$> read_secret item_name (secret_file item));
      let username := match map_get (lit "username") (properties item) with Some (PStr u) => Some u | _ => None end in
      let props := props_value (properties item) in
      let properties := fold_left (fun m kv => map_insert kv.1 kv.2 m) props [(lit "item", VString item_name)] in
      Ok (mkCredential value username (gr_expires_at grant)
        (item_name ++ lit " of pool " ++ gr_resource grant ++ lit " is yours alone until " ++ iso_minutes (gr_expires_at grant)
         ++ lit "; properties: " ++ to_python_default_string (VObject props)
         ++ lit ". Release it with release_grant when done so others can use it.")
        properties)
  end.

Record PoolItemEntry := mkItemEntry {
  ie_name : str;
  ie_description : str;
  ie_properties : list (str * Value);
  ie_sensitive : bool;
  ie_in_use : N;
  ie_free : bool;
  ie_frees_at : option Instant;
  ie_yours : bool;
}.
Record PoolEntry := mkPoolEntry {
  pe_name : str;
  pe_description : str;
  pe_capacity : N;
  pe_max_per_agent : N;
  pe_items : list PoolItemEntry;
  pe_you_held_last : option str;
}.
Definition item_entry (pool : PoolConfig) (l : list LeaseRow) (agent : AgentId) (name : str) (item : PoolItem) : PoolItemEntry :=
  let held := holders l name in
  mkItemEntry name (item_description item) (props_value (properties item)) (item_sensitive item)
    (N.min (N.of_nat (length held)) 4294967295) (N.ltb (N.of_nat (length held)) (capacity pool))
    (earliest (map lr_expires_at held)) (existsb (fun r => N.eqb (lr_agent r) agent) held).
Definition status (pools : Pools) (agent : AgentRow) (d : Leased) : list PoolEntry :=
  let me := policy_ref agent in
  map (fun '(name, pool) =>
    let l := leases name d in
    mkPoolEntry name (pool_description pool) (capacity pool) (max_per_agent pool)
      (map (fun '(item_name, item) => item_entry pool l (ag_id agent) item_name item)
        (List.filter (fun kv => admitted (item_agents kv.2) me) (items pool)))
      (last_held (ag_id agent) name None (ld_db d)))
    (List.filter (fun kv => admitted (pool_agents kv.2) me) pools).
End pool_provisioner.
