(* ===== verification/PoolFacts.v ===== *)
(** What a pool's leases promise: however the provisions of the broker
    interleave, no item is held past its capacity and no agent holds more
    than it may; an item is leased only to whom the file admits, a sensitive
    one only by name; and where one is free, a lease is taken. *)

From stdpp Require Import gmap.
From S2P Require Import Prelude Json Glob Pyfmt Lifecycle Names Durations Pool Mail Authority Routing Agents Hostexec Schema Policy Zones Eval CanonicalJson HostTypes TotpCode F64 Transcript Envelope Store Requests Grants ServiceRouting PoolLeases.
From stdpp Require Import options.
#[local] Set Default Proof Using "Type*".

(** ** Lists of numbers below a bound *)

Lemma elem_below n x : x ∈ below n <-> (x < n)%N.
Proof.
  unfold below. rewrite list_elem_of_fmap. setoid_rewrite elem_of_seq. split.
  - intros (y & -> & ?). lia.
  - intros ?. exists (N.to_nat x). lia.
Qed.
Lemma below_length n : length (below n) = N.to_nat n.
Proof. unfold below. by rewrite length_fmap, length_seq. Qed.
(** Distinct numbers below [n] are at most [n]. *)
Lemma distinct_below (l : list N) n : NoDup l -> (forall x, x ∈ l -> (x < n)%N) -> length l <= N.to_nat n.
Proof.
  intros Hd Hb. rewrite <- below_length. apply submseteq_length, NoDup_submseteq; [done|].
  intros x Hx. by apply elem_below, Hb.
Qed.
(** Where fewer than [n] rows hold a number, one below [n] is free. *)
Lemma some_below_free {A} (f : A -> N) (l : list A) n : length l < N.to_nat n ->
  exists x, find (fun s => negb (existsb (fun r => N.eqb (f r) s) l)) (below n) = Some x.
Proof.
  intros Hl. destruct (find _ _) as [x|] eqn:E; [by exists x|]. exfalso.
  assert (below n ⊆+ map f l) as Hsub; [|apply submseteq_length in Hsub; rewrite below_length, length_fmap in Hsub; lia].
  apply NoDup_submseteq.
  - unfold below. apply NoDup_fmap_2; [intros ???; lia|apply NoDup_seq].
  - intros x Hx. apply list_elem_of_In in Hx. pose proof (List.find_none _ _ E _ Hx) as Hn. cbn in Hn.
    apply negb_false_iff, existsb_elem in Hn as (y & Hy & Ey%N.eqb_eq). apply list_elem_of_fmap. by exists y.
Qed.
Lemma NoDup_fmap_filter {A B} (f : A -> B) (p : A -> bool) l :
  NoDup (map f l) -> NoDup (map f (List.filter p l)).
Proof.
  induction l as [|x l IH]; cbn; [done|]. intros [Hx Hl]%NoDup_cons. destruct (p x); [|by apply IH]. cbn.
  apply NoDup_cons. split; [|by apply IH]. intros (y & E & Hy)%list_elem_of_fmap. apply Hx. rewrite E.
  apply list_elem_of_fmap. exists y. split; [done|]. rewrite list_elem_of_In, filter_In, <- list_elem_of_In in Hy. tauto.
Qed.
Lemma elem_of_List_filter {A} (p : A -> bool) l (x : A) : x ∈ List.filter p l <-> x ∈ l /\ p x = true.
Proof. by rewrite !list_elem_of_In, filter_In. Qed.
Lemma NoDup_snoc {A} (l : list A) x : NoDup l -> x ∉ l -> NoDup (l ++ [x]).
Proof. intros Hl Hx. apply NoDup_app. split_and!; [done|by intros ? ? ->%list_elem_of_singleton|apply NoDup_singleton]. Qed.

Section pool_facts.
Context `{DateLib, UnicodeLower, RustFmt, PoolLib} (pools : Pools).

(** ** The table's invariant *)

Record leases_ok (d : Leased) : Prop := {
  lo_slots : NoDup (map (fun l => (le_pool l, le_item l, le_slot l)) (ld_leases d));
  lo_agents : NoDup (map (fun l => (le_pool l, le_agent l, le_agent_slot l)) (ld_leases d));
  lo_grants : NoDup (map le_grant (ld_leases d));
  lo_bounds l : l ∈ ld_leases d -> exists pool, map_get (le_pool l) pools = Some pool
    /\ (le_slot l < capacity pool)%N /\ (le_agent_slot l < max_per_agent pool)%N;
  lo_fk l : l ∈ ld_leases d -> is_Some (db_grants (ld_db d) !! le_grant l);
}.

(** A statement of any transaction: an insert within the configured bounds,
    the two deletions, and whatever is done to the other tables. *)
Inductive stmt : Leased -> Leased -> Prop :=
| Stmt_take id n b pool d d' :
    map_get (nl_pool n) pools = Some pool -> (nl_slot n < capacity pool)%N ->
    (nl_agent_slot n < max_per_agent pool)%N -> take id n d = Ok (b, d') -> stmt d d'
| Stmt_release grant d : stmt d (snd (release grant d))
| Stmt_clear name d : stmt d (clear_ended name d)
| Stmt_other db d :
    (forall id, is_Some (db_grants (ld_db d) !! id) -> is_Some (db_grants db !! id)) ->
    stmt d (mkLeased db (ld_leases d)).

Lemma take_ok id n d b d' : take id n d = Ok (b, d') ->
  (b = false /\ d' = d /\ existsb (lease_conflict (lease_of id n)) (ld_leases d) = true)
  \/ (b = true /\ d' = with_leases d (ld_leases d ++ [lease_of id n])
      /\ Forall (fun x => lease_conflict (lease_of id n) x = false) (ld_leases d)
      /\ lease_guard (ld_db d) (lease_of id n) = true /\ lease_references (ld_db d) (lease_of id n) = true).
Proof.
  unfold take. intros Ht. apply bind_ok in Ht as (? & _ & Ht). apply bind_ok in Ht as (? & _ & Ht).
  destruct (negb (_ && _)) eqn:Eg; [done|]. apply negb_false_iff, andb_true_iff in Eg as [Eg _].
  destruct (existsb _ _) eqn:Ec; [injection Ht as <- <-; by left|].
  destruct (negb (lease_references _ _)) eqn:Er; [done|]. apply negb_false_iff in Er. injection Ht as <- <-.
  right. split_and!; try done. by apply existsb_false.
Qed.

Lemma filter_leases_ok p d : leases_ok d -> leases_ok (with_leases d (List.filter p (ld_leases d))).
Proof.
  intros []. split; cbn; [by apply NoDup_fmap_filter..| |]; intros l [Hl _]%elem_of_List_filter; eauto.
Qed.
Lemma conflict_false l x : lease_conflict l x = false ->
  le_grant l <> le_grant x /\ (le_pool l, le_item l, le_slot l) <> (le_pool x, le_item x, le_slot x)
  /\ (le_pool l, le_agent l, le_agent_slot l) <> (le_pool x, le_agent x, le_agent_slot x).
Proof.
  unfold lease_conflict. intros [[[_ E1]%orb_false_iff E2]%orb_false_iff E3]%orb_false_iff. split_and!.
  - intros Eg. by rewrite Eg, N.eqb_refl in E1.
  - intros [= E4 E5 E6]. rewrite E4, E5, E6, N.eqb_refl in E2. by rewrite !(proj2 (str_eqb_true _ _) eq_refl) in E2.
  - intros [= E4 E5 E6]. rewrite E4, E5, E6, !N.eqb_refl in E3. by rewrite (proj2 (str_eqb_true _ _) eq_refl) in E3.
Qed.
Lemma stmt_keeps d d' : leases_ok d -> stmt d d' -> leases_ok d'.
Proof.
  intros Hok Hst. revert Hok. destruct Hst as [id n b pool d0 d1 Hp Hs Ha Ht|g d0|name d0|db d0 Hdb]; intros Hok.
  - apply take_ok in Ht as [(_ & -> & _)|(_ & -> & Hc & _ & Hr)]; [done|].
    assert (Hnew : forall x, x ∈ ld_leases d0 -> lease_conflict (lease_of id n) x = false)
      by (intros x Hx; rewrite Forall_forall in Hc; auto).
    destruct Hok. split; cbn; rewrite ?map_app.
    1-3: apply NoDup_snoc; [done|]; intros (x & E & Hx)%list_elem_of_fmap;
      destruct (conflict_false _ _ (Hnew x Hx)) as (? & ? & ?); done.
    + intros l [Hl| ->%list_elem_of_singleton]%elem_of_app; [eauto|]. by exists pool.
    + intros l [Hl| ->%list_elem_of_singleton]%elem_of_app; [eauto|]. unfold lease_references in Hr.
      by destruct (db_grants _ !! _) eqn:E; [exists g|].
  - by apply filter_leases_ok.
  - by apply filter_leases_ok.
  - destruct Hok. split; cbn; eauto.
Qed.
Lemma stmts_keep d d' : leases_ok d -> rtc stmt d d' -> leases_ok d'.
Proof. intros Hok Hr. induction Hr; eauto using stmt_keeps. Qed.

(** ** A provision, statement by statement *)

Lemma choose_some pool l held names item slot : choose pool l held names = Some (item, slot) ->
  item ∈ names /\ name_in item held = false /\ (slot < capacity pool)%N /\ slot_taken l item slot = false.
Proof.
  induction names as [|x names IH]; cbn [choose]; [done|]. destruct (name_in x held) eqn:Eh.
  { intros (? & ? & ? & ?)%IH. split_and!; [by right|done..]. }
  destruct (find _ _) as [s|] eqn:E; [|intros (? & ? & ? & ?)%IH; split_and!; [by right|done..]].
  intros [= <- <-]. apply List.find_some in E as [Hin Hf]. apply list_elem_of_In, elem_below in Hin.
  apply negb_true_iff in Hf. split_and!; [by left|done..].
Qed.

Section provision.
Context (fresh : nat -> N) (others : nat -> Leased -> Leased) (Hothers : forall n x, rtc (stmt) x (others n x)).

Lemma try_lease_runs fuel n name pool agent grant now names d t d' :
  map_get name pools = Some pool -> try_lease fresh others fuel n name pool agent grant now names d = (t, d') ->
  rtc stmt d d' /\ forall item slot, t = Took item slot -> item ∈ names
    /\ exists l, l ∈ ld_leases d' /\ le_pool l = name /\ le_item l = item /\ le_slot l = slot
                /\ le_grant l = grant /\ le_agent l = agent.
Proof.
  intros Hp. revert n d. induction fuel as [|fuel IH]; intros n d; cbn [try_lease]; [by intros [= <- <-]|].
  set (l := leases name (others n d)). set (own := mine l agent). set (a := default _ _).
  destruct (N.leb_spec (max_per_agent pool) (N.of_nat (length own))) as [|Hown]; [by intros [= <- <-]|].
  destruct (choose _ _ _ _) as [[item slot]|] eqn:Ec; [|by intros [= <- <-]].
  apply choose_some in Ec as (Hin & _ & Hslot & _).
  destruct (match map_get item (items pool) with Some it => _ | None => _ end); [|by intros [= <- <-]].
  destruct (take _ _ _) as [[b d1]|] eqn:Et; [|intros [= <- <-]; split; [by transitivity (others n d)|done]].
  assert (Ha : (a < max_per_agent pool)%N).
  { unfold a. destruct (find _ _) as [x|] eqn:E; cbn; [|lia].
    apply List.find_some in E as [E _]. by apply list_elem_of_In, elem_below in E. }
  assert (Hrun : rtc stmt d d1).
  { transitivity (others n d); [done|]. transitivity (others (S n) (others n d)); [done|].
    apply rtc_once. exact (Stmt_take _ (mkNewLease name item slot a grant agent now) b pool _ _ Hp Hslot Ha Et). }
  destruct b.
  - intros [= <- <-]. split; [done|]. intros ? ? [= <- <-]. split; [done|].
    apply take_ok in Et as [(? & _)|(_ & -> & _)]; [done|]. eexists. split; [by apply elem_of_app; right; left|done].
  - intros [Hr Ht]%IH. split; [by transitivity d1|done].
Qed.

(** [try_lease_runs], and what comes before the tries. *)
Lemma pool_provision_runs grant now d out d' : pool_provision fresh others pools grant now d = (out, d') ->
  rtc stmt d d' /\ forall state, out = Made state -> exists pool agent choice item slot names,
    map_get (gr_resource grant) pools = Some pool /\ gr_authority grant = APool choice
    /\ db_agents (ld_db (others 0 d)) !! gr_agent grant = Some agent
    /\ admitted (pool_agents pool) (policy_ref agent) = true
    /\ candidates (gr_resource grant) pool agent choice (last_held (ag_id agent) (gr_resource grant)
         (Some (gr_id grant)) (ld_db (others 2 (clear_ended (gr_resource grant) (others 1 (others 0 d)))))) = Ok names
    /\ item ∈ names
    /\ state = json_obj [(lit "pool", VString (gr_resource grant)); (lit "item", VString item); (lit "slot", json_int (Z.of_N slot))]
    /\ exists l, l ∈ ld_leases d' /\ le_pool l = gr_resource grant /\ le_item l = item /\ le_slot l = slot
                /\ le_grant l = gr_id grant /\ le_agent l = ag_id agent.
Proof.
  unfold pool_provision. destruct (map_get _ pools) as [pool|] eqn:Ep; [|by intros [= <- <-]].
  destruct (db_agents _ !! _) as [agent|] eqn:Ea; [|by intros [= <- <-]].
  destruct (admitted (pool_agents pool) _) eqn:Ead; cbn [negb]; [|by intros [= <- <-]].
  destruct (gr_authority grant) as [| | | | | | | | | |choice|] eqn:Eau; try (by intros [= <- <-]).
  set (d1 := others 1 (others 0 d)). set (d2 := others 2 (clear_ended _ d1)). set (held := last_held _ _ _ _).
  assert (Hrun : rtc stmt d d2).
  { transitivity (others 0 d); [apply Hothers|]. transitivity d1; [apply Hothers|].
    transitivity (clear_ended (gr_resource grant) d1); [|apply Hothers]. apply rtc_once. constructor. }
  destruct (candidates _ _ _ _ _) as [names|] eqn:Ec; [|by intros [= <- <-]].
  destruct (try_lease _ _ _ _ _ _ _ _ _ _ _) as [t d3] eqn:Et. intros [= <- <-].
  apply try_lease_runs in Et as [Hr Ht]; [|done]. split; [by transitivity d2|].
  intros state Hmade. destruct t as [item slot| | |]; cbn [took] in Hmade; try done.
  2: by destruct (negb _ && _).
  injection Hmade as <-. destruct (Ht _ _ eq_refl) as (Hin & Hl).
  exists pool, agent, choice, item, slot, names. by split_and!.
Qed.
End provision.

(** ** The limits *)

Lemma NoDup_fmap_part {A B C} (f : A -> B) (g : A -> C) l :
  NoDup (map f l) -> (forall x y, x ∈ l -> y ∈ l -> g x = g y -> f x = f y) -> NoDup (map g l).
Proof.
  induction l as [|x l IH]; cbn; [intros; constructor|]. intros [Hx Hl]%NoDup_cons Hfg. apply NoDup_cons. split.
  - intros (y & E & Hy)%list_elem_of_fmap. apply Hx, list_elem_of_fmap. exists y.
    split; [|done]. apply Hfg; [by left|by right|done].
  - apply IH; [done|]. intros ? ? ? ?. apply Hfg; by right.
Qed.

Definition item_leases (name item : str) (d : Leased) : list Lease :=
  List.filter (fun l => str_eqb (le_pool l) name && str_eqb (le_item l) item) (ld_leases d).
Definition agent_leases (name : str) (agent : AgentId) (d : Leased) : list Lease :=
  List.filter (fun l => str_eqb (le_pool l) name && N.eqb (le_agent l) agent) (ld_leases d).

Lemma item_within d name pool item : leases_ok d -> map_get name pools = Some pool ->
  length (item_leases name item d) <= N.to_nat (capacity pool).
Proof.
  intros Hok Hp. rewrite <- (length_fmap le_slot). apply distinct_below.
  - eapply NoDup_fmap_part; [apply NoDup_fmap_filter, (lo_slots _ Hok)|].
    intros x y [_ [->%str_eqb_true ->%str_eqb_true]%andb_true_iff]%elem_of_List_filter
      [_ [->%str_eqb_true ->%str_eqb_true]%andb_true_iff]%elem_of_List_filter. congruence.
  - intros s (l & -> & [Hl [Hn%str_eqb_true _]%andb_true_iff]%elem_of_List_filter)%list_elem_of_fmap.
    destruct (lo_bounds _ Hok _ Hl) as (p & Hp' & ? & _). rewrite Hn in Hp'. by simplify_eq.
Qed.
Lemma agent_within d name pool agent : leases_ok d -> map_get name pools = Some pool ->
  length (agent_leases name agent d) <= N.to_nat (max_per_agent pool).
Proof.
  intros Hok Hp. rewrite <- (length_fmap le_agent_slot). apply distinct_below.
  - eapply NoDup_fmap_part; [apply NoDup_fmap_filter, (lo_agents _ Hok)|].
    intros x y [_ [->%str_eqb_true ->%N.eqb_eq]%andb_true_iff]%elem_of_List_filter
      [_ [->%str_eqb_true ->%N.eqb_eq]%andb_true_iff]%elem_of_List_filter. congruence.
  - intros s (l & -> & [Hl [Hn%str_eqb_true _]%andb_true_iff]%elem_of_List_filter)%list_elem_of_fmap.
    destruct (lo_bounds _ Hok _ Hl) as (p & Hp' & _ & ?). rewrite Hn in Hp'. by simplify_eq.
Qed.

(** ** Who may be leased what *)

Lemma name_in_true item names : name_in item names = true <-> item ∈ names.
Proof.
  unfold name_in. rewrite existsb_elem. split; [by intros (x & ? & ->%str_eqb_true)|].
  intros ?. exists item. by rewrite str_eqb_true.
Qed.
Lemma elem_of_remove_first item x names : x ∈ remove_first item names -> x ∈ names.
Proof.
  induction names as [|y names IH]; cbn; [done|]. destruct (str_eqb y item); [by right|].
  intros [->|?]%elem_of_cons; [by left|right; auto].
Qed.
(** The pool's item the agent held last: of its grants of the pool that have
    an item, whatever their status and leaving one out, the one granted last
    has it (the greatest id, among those granted together). *)
Definition of_pool (agent : AgentId) (name : str) (exclude : GrantId) (g : GrantRow) (item : str) : Prop :=
  gr_agent g = agent /\ gr_platform g = Pool /\ gr_resource g = name /\ gr_id g <> exclude
  /\ state_item g = Some item.
Definition held_last (agent : AgentId) (name : str) (exclude : GrantId) (db : Database) (item : str) : Prop :=
  exists k g, db_grants db !! k = Some g /\ of_pool agent name exclude g item /\
    forall k' g' item', db_grants db !! k' = Some g' -> of_pool agent name exclude g' item' ->
      (gr_granted_at g' < gr_granted_at g)%Z \/
      gr_granted_at g' = gr_granted_at g /\ (gr_id g' <= gr_id g)%N.

Lemma order_by_head {K} (leb : K -> K -> bool) (key : GrantRow -> K) rows g :
  (forall a b, leb a b = false -> leb b a = true) ->
  (forall a b c, leb a b = true -> leb b c = true -> leb a c = true) ->
  head (order_by leb key rows) = Some g -> forall g', g' ∈ rows -> leb (key g) (key g') = true.
Proof.
  intros Htot Htr. assert (Hrefl : forall a, leb a a = true).
  { intros a. destruct (leb a a) eqn:E; [done|]. pose proof (Htot _ _ E). congruence. }
  revert g; induction rows as [|x rows IH]; intros g; cbn [order_by fold_right]; [done|].
  fold (order_by leb key rows). destruct (order_by leb key rows) as [|y ys] eqn:E; cbn [insert_by head].
  - intros [= <-] g' [->|Hg']%elem_of_cons; [done|]. apply (elem_of_order_by leb key) in Hg'.
    rewrite E in Hg'. by apply elem_of_nil in Hg'.
  - specialize (IH y eq_refl). destruct (leb (key x) (key y)) eqn:El; cbn [head]; intros [= <-] g' [->|Hg']%elem_of_cons.
    + done.
    + eapply Htr; [exact El|by apply IH].
    + by apply Htot.
    + by apply IH.
Qed.

Lemma newest_leb_true a b : newest_leb a b = true <-> (b.1 < a.1)%Z \/ a.1 = b.1 /\ (b.2 <= a.2)%N.
Proof. unfold newest_leb. by rewrite orb_true_iff, andb_true_iff, Z.ltb_lt, Z.eqb_eq, N.leb_le. Qed.
Lemma newest_leb_total a b : newest_leb a b = false -> newest_leb b a = true.
Proof. intros E%not_true_iff_false. rewrite newest_leb_true in *. lia. Qed.
Lemma newest_leb_trans a b c : newest_leb a b = true -> newest_leb b c = true -> newest_leb a c = true.
Proof. rewrite !newest_leb_true. lia. Qed.
Lemma last_held_spec agent name exclude db item :
  last_held agent name (Some exclude) db = Some item -> held_last agent name exclude db item.
Proof.
  unfold last_held. set (p := fun g : GrantRow => N.eqb _ _ && _ && _ && _ && _). intros Hl.
  assert (Hp : forall g, p g = true <-> exists i, of_pool agent name exclude g i).
  { intros g. unfold p, of_pool.
    rewrite !andb_true_iff, N.eqb_eq, !negb_true_iff, bool_decide_eq_true, bool_decide_eq_false, str_eqb_true.
    destruct (state_item g) as [i|]; cbn [is_none]; [|naive_solver].
    split; [intros ([[[? ?] ?] Hx] & _); exists i; split_and!; congruence|].
    intros (? & ? & ? & ? & ? & _). split_and!; congruence. }
  destruct (head _) as [g|] eqn:Eh; [|done]. cbn in Hl.
  pose proof (order_by_head _ _ _ _ newest_leb_total newest_leb_trans Eh) as Hmin.
  assert (Hg : g ∈ grants_where p db).
  { destruct (order_by _ _ _) as [|x xs] eqn:E; [done|]. injection Eh as ->.
    eapply elem_of_order_by. erewrite E. by left. }
  apply elem_of_grants_where in Hg as [Hpg [k Hk]]. exists k, g. split; [done|]. split.
  - apply Hp in Hpg as (i & ? & ? & ? & ? & ?). split_and!; congruence.
  - intros k' g' i Hk' Hof. specialize (Hmin g').
    assert (Hin : g' ∈ grants_where p db) by (apply elem_of_grants_where; split; [apply Hp; eauto|eauto]).
    specialize (Hmin Hin). apply newest_leb_true in Hmin. cbn in Hmin. lia.
Qed.

(** What the file asks of an item for this choice. *)
Definition choice_fits (choice : PoolChoice) (held : option str) (item : str) (it : PoolItem) : Prop :=
  match choice with
  | Item name => name = item
  | Previous => held = Some item /\ item_sensitive it = false
  | Any m => item_sensitive it = false /\ pool_matches (properties it) m = true
  end.
Lemma candidates_fit name pool agent choice held names item : map_sorted (items pool) ->
  candidates name pool agent choice held = Ok names -> item ∈ names ->
  exists it, map_get item (items pool) = Some it /\ admitted (item_agents it) (policy_ref agent) = true
    /\ choice_fits choice held item it.
Proof.
  intros Hs. assert (He : forall m, item ∈ eligible pool (policy_ref agent) m -> exists it,
    map_get item (items pool) = Some it /\ admitted (item_agents it) (policy_ref agent) = true
    /\ item_sensitive it = false /\ pool_matches (properties it) m = true).
  { unfold eligible. intros m ([k it] & -> & [Hin Hf]%elem_of_List_filter)%list_elem_of_fmap. cbn in Hf |- *.
    apply andb_true_iff in Hf as [[Hn Ha]%andb_true_iff Hm]. apply negb_true_iff in Hn.
    exists it. split_and!; [by apply map_get_sorted|done..]. }
  unfold candidates. destruct choice as [m| |want]; intros Hc Hin.
  - injection Hc as <-. destruct (He m) as (it & ? & ? & ? & ?); [|by exists it].
    destruct held as [last|]; [|done]. destruct (name_in last _) eqn:El; [|done].
    apply elem_of_cons in Hin as [->|?]; [by apply name_in_true|by eapply elem_of_remove_first].
  - destruct held as [last|]; [|done]. destruct (name_in last _) eqn:El; [|done]. injection Hc as <-.
    apply list_elem_of_singleton in Hin as ->. destruct (He []) as (it & ? & ? & ? & ?); [by apply name_in_true|].
    by exists it.
  - destruct (map_get want _) as [it|] eqn:Eg; [|done]. destruct (admitted _ _) eqn:Ea; cbn [negb] in Hc; [|done].
    injection Hc as <-. apply list_elem_of_singleton in Hin as ->. by exists it.
Qed.

(** ** Where an item is free *)

Lemma elem_of_insert_lease l rows x : x ∈ insert_lease l rows <-> x = l \/ x ∈ rows.
Proof.
  induction rows as [|y rows IH]; cbn; [by rewrite list_elem_of_singleton, elem_of_nil; tauto|].
  destruct (at_id_leb _ _); rewrite !elem_of_cons; [done|]. rewrite IH. tauto.
Qed.
Lemma elem_of_leases d l : leases_ok d -> l ∈ ld_leases d -> exists r, r ∈ leases (le_pool l) d
  /\ lr_item r = le_item l /\ lr_slot r = le_slot l /\ lr_agent r = le_agent l /\ lr_agent_slot r = le_agent_slot l.
Proof.
  intros Hok Hl. destruct (lo_fk _ Hok _ Hl) as [g Hg].
  exists (mkLeaseRow (le_item l) (le_slot l) (le_agent l) (le_agent_slot l) (le_grant l) (gr_expires_at g)).
  split; [|done]. unfold leases. apply list_elem_of_omap. exists l.
  split; [|unfold lease_row; by rewrite Hg].
  assert (Hf : l ∈ List.filter (fun x => str_eqb (le_pool x) (le_pool l)) (ld_leases d))
    by (apply elem_of_List_filter; by rewrite str_eqb_true).
  induction (List.filter _ _) as [|x rows IH]; cbn; [done|]. apply elem_of_insert_lease.
  apply elem_of_cons in Hf as [->|?]; auto.
Qed.
Lemma choose_total pool l held names item slot : item ∈ names -> name_in item held = false ->
  (slot < capacity pool)%N -> slot_taken l item slot = false -> exists c, choose pool l held names = Some c.
Proof.
  intros Hin Hh Hs Ht. induction Hin as [item names|item x names Hin IH]; cbn [choose].
  - rewrite Hh. destruct (find _ _) as [s|] eqn:E; [by eexists|].
    pose proof (List.find_none _ _ E slot (proj1 (list_elem_of_In _ _) (proj2 (elem_below _ _) Hs))) as Hn.
    cbn in Hn. by rewrite Ht in Hn.
  - destruct (name_in x held); [auto|]. destruct (find _ _); [eexists; reflexivity|auto].
Qed.
Lemma take_free id n d : leases_ok d -> (nl_slot n <= MAX_I32)%N -> (nl_agent_slot n <= MAX_I32)%N ->
  lease_guard (ld_db d) (lease_of id n) = true -> lease_checks (lease_of id n) = true ->
  lease_references (ld_db d) (lease_of id n) = true ->
  Forall (fun x => le_id x <> id /\ le_grant x <> nl_grant n) (ld_leases d) ->
  slot_taken (leases (nl_pool n) d) (nl_item n) (nl_slot n) = false ->
  existsb (fun r => N.eqb (lr_agent_slot r) (nl_agent_slot n)) (mine (leases (nl_pool n) d) (nl_agent n)) = false ->
  take id n d = Ok (true, with_leases d (ld_leases d ++ [lease_of id n])).
Proof.
  intros Hok Hs Ha Hg Hc Hr Hnew Ht Hm. unfold take, Store.to_i32.
  rewrite (proj2 (N.leb_le _ _) Hs), (proj2 (N.leb_le _ _) Ha). cbn [mbind result_bind]. rewrite Hg, Hc, Hr. cbn [andb negb].
  destruct (existsb (lease_conflict _) _) eqn:E; [exfalso|done]. apply existsb_elem in E as (x & Hx & E).
  rewrite Forall_forall in Hnew. destruct (Hnew x Hx) as [Hid Hgr]. destruct (elem_of_leases _ _ Hok Hx) as (r & Hin & E1 & E2 & E3 & E4).
  unfold lease_conflict in E. cbn in E. apply orb_true_iff in E as [[[E|E]%orb_true_iff|E]%orb_true_iff|E].
  - apply N.eqb_eq in E. congruence.
  - apply N.eqb_eq in E. congruence.
  - apply andb_true_iff in E as [[Ep%str_eqb_true Ei%str_eqb_true]%andb_true_iff Es%N.eqb_eq].
    rewrite <- Ep in Hin. unfold slot_taken in Ht. rewrite existsb_false, Forall_forall in Ht. specialize (Ht _ Hin).
    rewrite E1, E2, <- Ei, <- Es, N.eqb_refl in Ht. by rewrite (proj2 (str_eqb_true _ _) eq_refl) in Ht.
  - apply andb_true_iff in E as [[Ep%str_eqb_true Ei%N.eqb_eq]%andb_true_iff Es%N.eqb_eq].
    rewrite <- Ep in Hin. rewrite existsb_false, Forall_forall in Hm.
    assert (Hown : r ∈ mine (leases (nl_pool n) d) (nl_agent n))
      by (apply elem_of_List_filter; split; [done|by rewrite E3, <- Ei, N.eqb_refl]).
    specialize (Hm _ Hown). cbn in Hm. by rewrite E4, <- Es, N.eqb_refl in Hm.
Qed.

Lemma PoolConfig_valid pool name : PoolConfig_validate pool name = Ok tt ->
  between 1 64 name = true /\ (forall item it, map_get item (items pool) = Some it -> between 1 128 item = true)
  /\ (capacity pool <= MAX_I32)%N /\ (max_per_agent pool <= MAX_I32)%N.
Proof.
  unfold PoolConfig_validate. destruct (config_name_ok name) eqn:En; cbn [negb]; [|done].
  destruct (find _ _) eqn:Ef; [done|]. destruct (N.leb 1 (capacity pool) && _) eqn:Ec; cbn [negb]; [|done].
  destruct (N.leb 1 (max_per_agent pool) && _) eqn:Em; cbn [negb]; [|done]. intros _.
  apply andb_true_iff in Ec as [_ Ec%N.leb_le]. apply andb_true_iff in Em as [_ Em%N.leb_le].
  unfold MAX_POOL_PER_AGENT in Em. unfold MAX_I32. split_and!; [| |lia..].
  - destruct name as [|c name]; [done|]. unfold config_name_ok in En. apply andb_true_iff in En as [[_ Hl%Nat.leb_le]%andb_true_iff _].
    pose proof (str_len_ge (c :: name)). apply andb_true_iff. rewrite !Nat.leb_le. cbn [length] in *. lia.
  - intros item it Hg%map_get_elem. assert (Hin : In item (map_keys (items pool))).
    { apply list_elem_of_In, list_elem_of_fmap. by exists (item, it). }
    pose proof (List.find_none _ _ Ef _ Hin) as Hok. cbn in Hok. apply negb_false_iff in Hok. destruct item as [|c item]; [done|].
    unfold item_name_ok in Hok. apply andb_true_iff in Hok as [[_ Hl%Nat.leb_le]%andb_true_iff _].
    pose proof (str_len_ge (c :: item)). apply andb_true_iff. rewrite !Nat.leb_le. cbn [length] in *. lia.
Qed.

(** A grant that can be provisioned: its row, its agent, its pool. *)
Record provisionable (d : Leased) (grant : GrantRow) (pool : PoolConfig) (agent : AgentRow) (choice : PoolChoice) : Prop := {
  pv_pool : map_get (gr_resource grant) pools = Some pool;
  pv_valid : PoolConfig_validate pool (gr_resource grant) = Ok tt;
  pv_sorted : map_sorted (items pool);
  pv_row : db_grants (ld_db d) !! gr_id grant = Some grant;
  pv_platform : gr_platform grant = Pool;
  pv_status : gr_status grant = GProvisioning;
  pv_authority : gr_authority grant = APool choice;
  pv_agent : db_agents (ld_db d) !! gr_agent grant = Some agent;
  pv_id : ag_id agent = gr_agent grant;
  pv_admitted : admitted (pool_agents pool) (policy_ref agent) = true;
}.
(** The item is free for the agent: it is a candidate it does not hold, of
    which a slot is free. *)
Definition item_free (l : list LeaseRow) (pool : PoolConfig) (agent : AgentId) (names : list str) (item : str) (slot : N) : Prop :=
  item ∈ names /\ name_in item (map lr_item (mine l agent)) = false /\ (slot < capacity pool)%N /\ slot_taken l item slot = false.
Definition fresh_for (d : Leased) (id : N) (grant : GrantId) : Prop :=
  Forall (fun x => le_id x <> id /\ le_grant x <> grant) (ld_leases d).
Definition lease_state (name item : str) (slot : N) : Value :=
  json_obj [(lit "pool", VString name); (lit "item", VString item); (lit "slot", json_int (Z.of_N slot))].

(** The first candidate that is free, and its lowest free slot. *)
Definition first_free (l : list LeaseRow) (pool : PoolConfig) (agent : AgentId) (names : list str) (item : str) (slot : N) : Prop :=
  exists pre post, names = pre ++ item :: post /\ item_free l pool agent names item slot
    /\ (forall s, (s < slot)%N -> slot_taken l item s = true)
    /\ forall x s, x ∈ pre -> ~ item_free l pool agent names x s.
Lemma find_below p n x : find p (below n) = Some x -> forall s, (s < x)%N -> p s = false.
Proof.
  unfold below. enough (Hg : forall m a, find p (map N.of_nat (seq a m)) = Some x ->
    forall s, (N.of_nat a <= s)%N -> (s < x)%N -> p s = false).
  { intros Hf s. apply (Hg _ _ Hf). lia. }
  induction m as [|m IH]; intros a; cbn [seq map find]; [done|]. destruct (p (N.of_nat a)) eqn:E.
  - intros [= <-] s. lia.
  - intros Hf s Ha Hs. destruct (decide (s = N.of_nat a)) as [->|]; [done|]. apply (IH (S a)); [done|lia|done].
Qed.
Lemma choose_first pool l agent names item slot :
  choose pool l (map lr_item (mine l agent)) names = Some (item, slot) -> first_free l pool agent names item slot.
Proof.
  intros Hc. pose proof (choose_some _ _ _ _ _ _ Hc) as (Hin & Hh & Hs & Ht).
  assert (exists pre post, names = pre ++ item :: post /\ (forall s, (s < slot)%N -> slot_taken l item s = true) /\
    forall x s, x ∈ pre -> name_in x (map lr_item (mine l agent)) = false -> (s < capacity pool)%N -> slot_taken l x s = true)
    as (pre & post & E & Hlow & Hpre).
  { clear Hin Hh Hs Ht. induction names as [|y names IH]; cbn [choose] in Hc; [done|].
    destruct (name_in y _) eqn:Ey; [|destruct (find _ (below _)) as [s|] eqn:Ef].
    - destruct (IH Hc) as (pre & post & -> & ? & Hpre). exists (y :: pre), post. split_and!; [done..|].
      intros x s [->|?]%elem_of_cons; [congruence|by apply Hpre].
    - injection Hc as -> ->. exists [], names. split_and!; [done| |by intros ? ? ?%elem_of_nil].
      intros s' Hs'. pose proof (find_below _ _ _ Ef s' Hs') as Hn. by apply negb_false_iff in Hn.
    - destruct (IH Hc) as (pre & post & -> & ? & Hpre). exists (y :: pre), post. split_and!; [done..|].
      intros x s [->|?]%elem_of_cons; [|by apply Hpre]. intros _ Hs.
      pose proof (List.find_none _ _ Ef s (proj1 (list_elem_of_In _ _) (proj2 (elem_below _ _) Hs))) as Hn.
      cbn in Hn. by apply negb_false_iff in Hn. }
  exists pre, post. split_and!; [done|by split_and!|done|]. intros x s Hx (_ & Hh' & Hs' & Ht').
  specialize (Hpre x s Hx Hh' Hs'). congruence.
Qed.

Definition quiet (_ : nat) (d : Leased) : Leased := d.
Lemma pool_provision_free fresh now d grant pool agent choice names item slot :
  leases_ok d -> provisionable d grant pool agent choice -> fresh_for d (fresh 3) (gr_id grant) ->
  candidates (gr_resource grant) pool agent choice
    (last_held (ag_id agent) (gr_resource grant) (Some (gr_id grant)) (ld_db d)) = Ok names ->
  let d1 := clear_ended (gr_resource grant) d in
  let l := leases (gr_resource grant) d1 in
  length (mine l (ag_id agent)) < N.to_nat (max_per_agent pool) -> item_free l pool (ag_id agent) names item slot ->
  exists item slot it, first_free l pool (ag_id agent) names item slot /\ map_get item (items pool) = Some it /\
    match check_secret_size item (secret_file it) with
    | Ok _ => exists lease, le_grant lease = gr_id grant /\ le_agent lease = ag_id agent /\
        le_pool lease = gr_resource grant /\ le_item lease = item /\ le_slot lease = slot /\
        pool_provision fresh quiet pools grant now d =
          (Made (lease_state (gr_resource grant) item slot), with_leases d1 (ld_leases d1 ++ [lease]))
    | Err e => pool_provision fresh quiet pools grant now d = (NotMade e false, d1)
    end.
Proof.
  intros Hok [] Hnew Hnames d1 l Hmax (Hin & Hheld & Hslot & Htaken).
  destruct (PoolConfig_valid _ _ pv_valid0) as (Hname & Hitems & Hcap & Hmx).
  assert (Hok1 : leases_ok d1) by (eapply stmt_keeps; [exact Hok|constructor]).
  destruct (some_below_free lr_agent_slot _ _ Hmax) as [a Ha].
  destruct (choose_total _ _ _ _ _ _ Hin Hheld Hslot Htaken) as [[i s] Hc].
  destruct (choose_some _ _ _ _ _ _ Hc) as (Hi & _ & Hs & Hst).
  destruct (candidates_fit _ _ _ _ _ _ _ pv_sorted0 Hnames Hi) as (it & Hit & _).
  destruct (List.find_some _ _ Ha) as [Ham%list_elem_of_In%elem_below Hfree%negb_true_iff].
  exists i, s, it. split; [by apply choose_first|]. split; [done|].
  set (n := mkNewLease (gr_resource grant) i s a (gr_id grant) (ag_id agent) now).
  assert (Ht : take (fresh 3) n d1 = Ok (true, with_leases d1 (ld_leases d1 ++ [lease_of (fresh 3) n]))).
  { apply take_free; cbn; try done; try lia.
    - unfold lease_guard. cbn. rewrite pv_row0, pv_platform0, pv_status0, (proj2 (str_eqb_true _ _) eq_refl). done.
    - unfold lease_checks. cbn. by rewrite Hname, (Hitems _ _ Hit).
    - unfold lease_references. cbn. rewrite pv_row0, pv_id0, N.eqb_refl, pv_agent0. done.
    - unfold fresh_for in Hnew. rewrite Forall_forall in Hnew |- *. intros x [Hx _]%elem_of_List_filter. auto. }
  destruct (check_secret_size i (secret_file it)) as [[]|e] eqn:Esec.
  1: exists (lease_of (fresh 3) n); do 5 (split; [done|]).
  all: unfold pool_provision; rewrite pv_pool0; change (quiet 0 d) with d; rewrite pv_agent0, pv_admitted0, pv_authority0; cbn [negb].
  all: change (quiet 2 (clear_ended (gr_resource grant) (quiet 1 d))) with d1; change (ld_db d1) with (ld_db d); rewrite Hnames.
  all: change TRIES with (S 7); cbn [try_lease]; change (quiet 3 d1) with d1; fold l.
  all: destruct (N.leb_spec (max_per_agent pool) (N.of_nat (length (mine l (ag_id agent))))) as [|_]; [lia|].
  all: rewrite Hc, Hit, Esec.
  2: done.
  rewrite Ha. change (quiet 4 d1) with d1. change (default 0%N (Some a)) with a. fold n. by rewrite Ht.
Qed.
End pool_facts.

(** ** What a pool promises *)

(** C16: however the statements of the broker's provisions, releases and
    other transactions interleave, a provision is a run of inserts within
    the file's bounds and deletions; so at every moment an item of a pool is
    held at most as often as its capacity, an agent holds at most
    [max_per_agent] of a pool, and a grant holds one lease. *)
Theorem pool_limits `{DateLib, UnicodeLower, RustFmt, PoolLib} pools fresh others grant now d out d' x :
  leases_ok pools d -> (forall n y, rtc (stmt pools) y (others n y)) ->
  pool_provision fresh others pools grant now d = (out, d') -> rtc (stmt pools) d' x ->
  rtc (stmt pools) d x /\ NoDup (map le_grant (ld_leases x)) /\
  forall name pool, map_get name pools = Some pool ->
    (forall item, length (item_leases name item x) <= N.to_nat (capacity pool)) /\
    (forall agent, length (agent_leases name agent x) <= N.to_nat (max_per_agent pool)).
Proof.
  intros Hok Ho Hp Hx. apply pool_provision_runs in Hp as [Hr _]; [|done].
  assert (Hrun : rtc (stmt pools) d x) by by transitivity d'. assert (Hokx : leases_ok pools x) by by eapply stmts_keep.
  split_and!; [done|apply Hokx|]. intros name pool Hpool. split; intros; [by eapply item_within|by eapply agent_within].
Qed.

(** C17: a lease is for an item the file still has, open to the agent as its
    pool is; a sensitive item is leased by its name only, "any" to what was
    asked of its properties and "previous" to the item the agent held last:
    in the database as the provision read it, the item of that one of its
    other grants of the pool that was granted last. The credential of the
    grant is that item's. *)
Theorem lease_fits `{DateLib, UnicodeLower, RustFmt, PoolLib} pools fresh others grant now d state d' :
  (forall n y, rtc (stmt pools) y (others n y)) -> (forall name pool, map_get name pools = Some pool -> map_sorted (items pool)) ->
  pool_provision fresh others pools grant now d = (Made state, d') ->
  let read := others 2 (clear_ended (gr_resource grant) (others 1 (others 0 d))) in
  exists pool agent choice item it, map_get (gr_resource grant) pools = Some pool
    /\ gr_authority grant = APool choice /\ db_agents (ld_db (others 0 d)) !! gr_agent grant = Some agent
    /\ map_get item (items pool) = Some it
    /\ admitted (pool_agents pool) (policy_ref agent) = true /\ admitted (item_agents it) (policy_ref agent) = true
    /\ match choice with
       | Item name => name = item
       | Previous => held_last (ag_id agent) (gr_resource grant) (gr_id grant) (ld_db read) item
                     /\ item_sensitive it = false
       | Any m => item_sensitive it = false /\ pool_matches (properties it) m = true
       end
    /\ (exists l, l ∈ ld_leases d' /\ le_grant l = gr_id grant /\ le_item l = item)
    /\ item_of pools (with_state state grant) = Some (item, it).
Proof.
  intros Ho Hs Hp read. apply pool_provision_runs in Hp as [_ Hm]; [|done].
  destruct (Hm _ eq_refl) as (pool & agent & choice & item & slot & names & Hpool & Hau & Ha & Hadm & Hc & Hin & -> & l & Hl & _ & Hi & _ & Hg & _).
  destruct (candidates_fit _ _ _ _ _ _ _ (Hs _ _ Hpool) Hc Hin) as (it & Hit & Hia & Hf).
  exists pool, agent, choice, item, it. split_and!; [done..| |by exists l|].
  - destruct choice; try done. destruct Hf as [Hf ?]. split; [by apply last_held_spec|done].
  - unfold item_of. assert (state_item (with_state (lease_state (gr_resource grant) item slot) grant) = Some item) as E by done.
    unfold lease_state in E. rewrite E. cbn [mbind option_bind]. change (gr_resource (with_state _ grant)) with (gr_resource grant).
    rewrite Hpool. cbn [mbind option_bind]. by rewrite Hit.
Qed.

(** C30: when a candidate the agent does not hold has a free slot and the
    agent holds less than it may, a provision goes to the first candidate in
    the order the choice gives them and its lowest free slot: it takes that
    lease (the table gains exactly one, for this grant, and loses only those
    of grants that have ended), unless that item's secret file is too large,
    which fails the provision and takes nothing. The grant is one being
    provisioned, of a pool the file still has and validates, for an agent it
    is open to; the grant has no lease yet, the new lease's id is not taken,
    and nothing else happens meanwhile. *)
Theorem free_item_leased `{DateLib, UnicodeLower, RustFmt, PoolLib} pools fresh now d grant pool agent choice names item slot :
  leases_ok pools d -> provisionable pools d grant pool agent choice -> fresh_for d (fresh 3) (gr_id grant) ->
  candidates (gr_resource grant) pool agent choice
    (last_held (ag_id agent) (gr_resource grant) (Some (gr_id grant)) (ld_db d)) = Ok names ->
  let d1 := clear_ended (gr_resource grant) d in
  let l := leases (gr_resource grant) d1 in
  length (mine l (ag_id agent)) < N.to_nat (max_per_agent pool) -> item_free l pool (ag_id agent) names item slot ->
  exists item slot it, first_free l pool (ag_id agent) names item slot /\ map_get item (items pool) = Some it /\
    match check_secret_size item (secret_file it) with
    | Ok _ => exists lease, le_grant lease = gr_id grant /\ le_agent lease = ag_id agent /\
        le_pool lease = gr_resource grant /\ le_item lease = item /\ le_slot lease = slot /\
        pool_provision fresh quiet pools grant now d =
          (Made (lease_state (gr_resource grant) item slot), with_leases d1 (ld_leases d1 ++ [lease]))
    | Err e => pool_provision fresh quiet pools grant now d = (NotMade e false, d1)
    end.
Proof. intros Hok Hpv Hnew Hnames d1 l. by apply pool_provision_free with (choice := choice). Qed.

(** ** Witnesses: a pool of two accounts, one sensitive *)

Module SamplePool.
#[export] Existing Instance ascii_only_lower.
#[export] Existing Instance TextCalendar.calendar.
#[export] Instance fmt : RustFmt := Build_RustFmt (fun _ => []) id (fun _ => []).
#[export] Instance lib : PoolLib := Build_PoolLib (fun _ => (2026%Z, 1%N, 1%N)) (fun _ => None) (fun _ _ => Some (Ok (lit "s3cret"))).
Definition account (sensitive : bool) : PoolItem := mkPoolItem [] [(lit "username", PStr (lit "alex"))] (lit "/run/s") sensitive [].
Definition accounts : PoolConfig := mkPool [] [(lit "alpha", account false); (lit "root", account true)] 1 1 [].
Definition pools : Pools := [(lit "minecraft", accounts)].
Definition agent : AgentRow :=
  mkAgentRow 1 (lit "claude-app") [] (lit "key") [] None None (None, None) false None Service None None None None
    None None None Host None 0.
Definition grant : GrantRow :=
  mkGrant 20 10 1 None None Pool (lit "minecraft") (APool (Any [])) 5 3600 GProvisioning (VObject []) None None 5.
Definition db : Database :=
  with_grants (with_agents Database_empty {[ 1%N := agent ]}) {[ 20%N := grant ]}.
Definition start : Leased := mkLeased db [].
Definition run : Provisioned * Leased := pool_provision N.of_nat quiet pools grant 5 start.
Definition after : Leased := snd run.

Lemma start_ok : leases_ok pools start.
Proof. split; cbn; try apply NoDup_nil_2; by intros ? ?%not_elem_of_nil. Qed.
Lemma quiet_run n y : rtc (stmt pools) y (quiet n y).
Proof. done. Qed.
Lemma grant_provisionable : provisionable pools start grant accounts agent (Any []).
Proof. split; vm_compute; auto. Qed.
End SamplePool.

Section witnesses.
Import SamplePool.
Lemma pool_limits_witness :
  length (ld_leases after) = 1 /\ length (item_leases (lit "minecraft") (lit "alpha") after) <= 1 /\
  length (agent_leases (lit "minecraft") 1 after) <= 1.
Proof.
  destruct (pool_limits pools N.of_nat quiet grant 5 start (fst run) after after start_ok quiet_run)
    as (_ & _ & Hl); [vm_compute; reflexivity|reflexivity|].
  destruct (Hl (lit "minecraft") accounts) as [H1 H2]; [vm_compute; reflexivity|].
  split; [vm_compute; reflexivity|]. split; [exact (H1 (lit "alpha"))|exact (H2 1%N)].
Defined.
Lemma lease_fits_witness : exists it,
  item_of pools (with_state (lease_state (lit "minecraft") (lit "alpha") 0) grant) = Some (lit "alpha", it) /\ item_sensitive it = false.
Proof.
  destruct (lease_fits pools N.of_nat quiet grant 5 start (lease_state (lit "minecraft") (lit "alpha") 0) after quiet_run)
    as (pool & ag & choice & item & it & Hp & Hau & _ & Hit & _ & _ & Hf & _ & Ho).
  - intros name pool Hp. apply map_get_elem, list_elem_of_singleton in Hp. injection Hp as -> ->. vm_compute. auto.
  - vm_compute. reflexivity.
  - exists it. assert (item = lit "alpha") as -> by (vm_compute in Ho; injection Ho as <- _; reflexivity). split; [exact Ho|].
    vm_compute in Hau. injection Hau as <-. exact (proj1 Hf).
Defined.
Lemma free_item_leased_witness : exists item slot lease, le_grant lease = 20%N /\
  pool_provision N.of_nat quiet pools grant 5 start = (Made (lease_state (lit "minecraft") item slot), mkLeased db [lease]).
Proof.
  destruct (free_item_leased pools N.of_nat 5 start grant accounts agent (Any []) [lit "alpha"] (lit "alpha") 0 start_ok
    grant_provisionable) as (item & slot & it & (pre & post & E & _) & Hit & Hrun).
  - constructor.
  - vm_compute. reflexivity.
  - vm_compute. auto with arith.
  - split; [apply list_elem_of_singleton; reflexivity|]. vm_compute. auto.
  - assert (item = lit "alpha") as ->.
    { assert (Hin : item ∈ [lit "alpha"]) by (rewrite E; apply elem_of_app; right; left). by apply list_elem_of_singleton in Hin. }
    assert (it = account false) as -> by (vm_compute in Hit; by injection Hit as <-).
    cbn [secret_file account check_secret_size] in Hrun.
    destruct Hrun as (lease & Hg & _ & _ & _ & _ & Hrun). exists (lit "alpha"), slot, lease. split; [exact Hg|exact Hrun].
Defined.
End witnesses.
