(* ===== verification/Provision.v ===== *)
(** Provisioning in two phases and ending grants
    ([crates/broker/src/service/provision.rs]).

    Each function is the transactions it commits, in order; where one calls
    the platform and then opens another transaction, it is a function of the
    database that runs both. The clock's readings are arguments. *)

From stdpp Require Import gmap.
From S2P Require Import Prelude Json Glob Pyfmt Lifecycle Names Durations Pool Mail Authority Routing Agents Hostexec Schema Policy Zones Eval CanonicalJson Store Requests Grants ServiceRouting.
From stdpp Require Import options.

Definition CONCURRENT : str := lit "request changed state concurrently".
Definition RETIRED : str := lit "platform no longer configured".
Definition TOO_SLOW : str := lit "the platform did not answer in time; try again later".

Section provision.
Context `{UnicodeLower, DateLib, RustFmt, !Registry}.

Definition step_request {from : RequestStatus} (request : Request from) (e : Entering)
  `{!CanMoveTo from (target e)} (now : Instant) : tx ServiceError (Request (target e)) :=
  let! r := store (transition request e now) in
  match r with
  | Ok r => tx_ret r
  | Err _ => tx_fail (Transition CONCURRENT)
  end.

(** ** Phase one: in the deciding transaction *)

Definition begin_provision (request : Request Approved) (id : GrantId) (now : Instant)
  : tx ServiceError (option GrantId) :=
  let! request := step_request request ToProvisioning now in
  let! check := store (lockdown_check (rq_agent (rq_row request)) now) in
  match check with
  | Err held =>
    let! _ := step_request request (ToProvisionFailed (Held_text held)) now in
    tx_ret None
  | Ok not_held =>
    let! grant := store (grants_begin request not_held id now) in
    match grant with
    | Ok grant => tx_ret (Some (gr_id (pg_grant grant)))
    | Err refused =>
        let! _ := step_request request (ToProvisionFailed (BeginRefused_text refused)) now in
        tx_ret None
    end
  end.

(** ** Phase two *)

(** The request of a grant, if it is still being provisioned. *)
Definition fail_request (id : RequestId) (why : str) (now : Instant) : tx ServiceError unit :=
  let! r := store (get_request id) in
  match r with
  | Some (IsProvisioning r) => step_request r (ToProvisionFailed why) now;! tx_ret tt
  | _ => tx_ret tt
  end.
Definition grant_succeeded (id : RequestId) (now : Instant) : tx ServiceError unit :=
  let! r := store (get_request id) in
  match r with
  | Some (IsProvisioning r) => step_request r ToGranted now;! tx_ret tt
  | _ => tx_ret tt
  end.

(** The grant fails, then its request. *)
Definition fail_grant (grant : ProvisioningGrant) (request : RequestId) (why : str)
  (reverted_at : option Instant) (now : Instant) : tx ServiceError unit :=
  let! _ := store (fail_provisioning grant why reverted_at) in
  fail_request request why now.

Definition contains (needle s : str) : bool := negb (is_none (find_sub needle s)).
Definition TRANSPORT : list str :=
  [lit "error sending request"; lit "error decoding"; lit "error trying to connect"; lit "connection";
  lit "timed out"; lit "dns error"; lit "tcp connect"; lit "certificate"; lit "request or response body error"].
(** A provisioner's failure as the agent may read it. *)
Definition agent_visible (e : ProvisionError) : str :=
  let text := ProvisionError_text e in
  let lower := to_lowercase text in
  if existsb (fun t => contains t lower) TRANSPORT
  then lit "the platform could not be reached; try again later"
  else take 300 text.

(** Run the platform's code on the database of this transaction. *)
Definition run_provision (g : GrantRow) (now : Instant) : tx ServiceError Provisioned :=
  fun db => let '(out, db') := provision g now db in Ok (out, db').
Definition run_revoke (g : GrantRow) (now : Instant) : tx ServiceError (result ProvisionError unit) :=
  fun db => let '(out, db') := revoke g now db in Ok (out, db').

(** What the finishing transaction leaves to do: nothing, or to record the
    failure in a fresh one. *)
Inductive Finished := Finish | Record_failure (why : str).

Definition not_made (grant : ProvisioningGrant) (request : RequestId) (e : ProvisionError) (broken : bool) (now : Instant)
  : tx ServiceError (Closing Finished) :=
  let why := agent_visible e in
  if broken then tx_ret (Dropped (Record_failure why))
  else fun db =>
  match fail_grant grant request why None now db with
  | Ok (_, db') => Ok (Committed Finish, db')
  | Err _ => Ok (Dropped (Record_failure why), db)
  end.

Definition finish_tx (row : GrantRow) (prepared : result ProvisionError unit) (now : Instant)
  : tx ServiceError (Closing Finished) :=
  let! held := store (lockdown_check (gr_agent row) now) in
  let! grant := store (load_provisioning (gr_id row)) in
  match grant with
  | None => tx_ret (Dropped Finish)
  | Some grant =>
    match held with
    | Err held => fail_grant grant (gr_request row) (Held_text held) None now;! tx_ret (Committed Finish)
    | Ok not_held =>
        if negb (enabled_platform (gr_platform row))
        then fail_grant grant (gr_request row) (not_enabled (gr_platform row)) None now;! tx_ret (Committed Finish)
        else
          match prepared with
          | Err e => not_made grant (gr_request row) e false now
          | Ok _ =>
              let! out := run_provision (pg_grant grant) now in
              match out with
              | TooSlow =>
                  let! undone := run_revoke (pg_grant grant) now in
                  match undone with
                  | Err _ => tx_ret (Dropped Finish)
                  | Ok _ => fail_grant grant (gr_request row) TOO_SLOW (Some now) now;! tx_ret (Committed Finish)
                  end
              | NotMade e broken => not_made grant (gr_request row) e broken now
              | Made state =>
                  let! r := store (activate grant not_held state) in
                  match r with
                  | Ok _ => grant_succeeded (gr_request row) now;! tx_ret (Committed Finish)
                  | Err _ =>
                      let! _ := run_revoke (pg_grant grant) now in
                      tx_ret (Committed Finish)
                  end
              end
          end
    end
  end.

(** The failure, in a fresh transaction. *)
Definition record_failure (row : GrantRow) (why : str) (now : Instant) : tx ServiceError (Closing unit) :=
  let! grant := store (load_provisioning (gr_id row)) in
  match grant with
  | Some grant => let! _ := store (fail_provisioning grant why None) in tx_ret tt
  | None => tx_ret tt
  end;!
  fail_request (gr_request row) why now;!
  tx_ret (Committed tt).

Definition finish_inner (id : GrantId) (now : Instant) (db : Database) : result ServiceError unit * Database :=
  match db_grants db !! id with
  | None => (Ok tt, db)
  | Some row =>
    if negb (bool_decide (gr_status row = GProvisioning)) then (Ok tt, db)
    else
      let '(prepared, db) := if enabled_platform (gr_platform row) then prepare row now db
                             else (Ok tt, db) in
      match tx_close (finish_tx row prepared now) db with
      | (Ok Finish, db) => (Ok tt, db)
      | (Ok (Record_failure why), db) => tx_close (record_failure row why now) db
      | (Err e, db) => (Err e, db)
      end
  end.

(** ** Ending grants *)

(** [Ok false]: the platform is no longer configured, and has nothing to
    undo it with. *)
Definition revoke_external (g : GrantRow) (now : Instant) : tx ServiceError bool :=
  if enabled_platform (gr_platform g) then
  let! r := run_revoke g now in
  match r with Ok _ => tx_ret true | Err e => tx_fail (Provision e) end
  else if is_retired (gr_platform g) then tx_ret false
  else tx_fail (NotEnabled (gr_platform g)).

Definition not_active : ServiceError := Transition (lit "grant is not active").
Definition active_grant (id : GrantId) : tx ServiceError (option GrantRow) :=
  let! g := store (get_grant id) in
  tx_ret match g with
       | Some g => if bool_decide (gr_status g = GActive) then Some g else None
       | None => None
       end.

Definition revoke_reason (external : bool) (reason by_ : str) : str :=
  if negb external then RETIRED
  else if bool_decide (by_ = []) then reason
  else reason ++ lit " (" ++ by_ ++ lit ")".

Definition revoke_tx (id : GrantId) (reason by_ : str) (now : Instant) : tx ServiceError (Closing GrantRow) :=
  let! g := active_grant id in
  match g with
  | None => tx_fail not_active
  | Some g =>
    let! external := revoke_external g now in
    let! ended := store (grants_end id (EndRevoked (revoke_reason external reason by_)) now) in
    match ended with Ok g => tx_ret (Committed g) | Err _ => tx_fail not_active end
  end.
(** A platform that cannot undo the grant leaves it active, but expired. *)
Definition revoke_grant (id : GrantId) (reason by_ : str) (now : Instant) (db : Database)
  : result ServiceError GrantRow * Database :=
  match active_grant id db with
  | Ok (Some g, _) =>
    match revoke_external g now db with
    | Err e => (Err e, snd (tx_run (expire_now id now) db))
    | Ok _ => tx_close (revoke_tx id reason by_ now) db
    end
  | _ => (Err not_active, db)
  end.

Definition expire_tx (id : GrantId) (now : Instant) : tx ServiceError (Closing (option GrantRow)) :=
  let! g := active_grant id in
  match g with
  | None => tx_ret (Dropped None)
  | Some g =>
    if Z.ltb now (gr_expires_at g) then tx_ret (Dropped None)
    else
      let! external := revoke_external g now in
      let! ended := store (grants_end id (if external then EndExpired else EndRevoked RETIRED) now) in
      tx_ret (Committed (to_option ended))
  end.
Definition expire_one (id : GrantId) (now : Instant) (db : Database)
  : result ServiceError (option GrantRow) * Database := tx_close (expire_tx id now) db.

(** An agent held while its platform worked: its new grant ends. *)
Definition revoke_if_held (id : GrantId) (now now' : Instant) (db : Database)
  : result ServiceError unit * Database :=
  match db_grants db !! id with
  | None => (Ok tt, db)
  | Some g =>
    if negb (bool_decide (gr_status g = GActive)) then (Ok tt, db)
    else
      match held_in_db db (gr_agent g) now with
      | None => (Ok tt, db)
      | Some held =>
          match revoke_grant id (Held_text held) (lit "containment") now' db with
          | (Ok _, db') | (Err (Transition _), db') => (Ok tt, db')
          | (Err _, db') => (Ok tt, snd (tx_run (expire_now id now) db'))
          end
      end
  end.

(** Phase two, with what the clock read before each part. *)
Definition finish_provision (id : GrantId) (now1 now2 now3 : Instant) (db : Database) : Database :=
  let db := snd (finish_inner id now1 db) in
  snd (revoke_if_held id now2 now3 db).

(** ** The reaper *)

Record ReapWhy := mkReapWhy { why_grant : str; why_request : str }.
Definition interrupted : ReapWhy :=
  mkReapWhy (lit "provisioning interrupted; external state reverted")
  (lit "interrupted (broker restarted mid-provision)").
Definition contained_provisioning : ReapWhy :=
  mkReapWhy (lit "contained while provisioning; external state reverted")
  (lit "contained while provisioning").

Definition reap_tx (id : GrantId) (now : Instant) (why : ReapWhy) : tx ServiceError (Closing (option RequestId)) :=
  let! grant := store (load_provisioning id) in
  match grant with
  | None => tx_ret (Dropped None)
  | Some grant =>
    let request := gr_request (pg_grant grant) in
    let! external := revoke_external (pg_grant grant) now in
    let! r := store (fail_provisioning grant (if external then why_grant why else RETIRED) (Some now)) in
    match r with
    | Err _ => tx_ret (Dropped None)
    | Ok _ => fail_request request (why_request why) now;! tx_ret (Committed (Some request))
    end
  end.
Definition reap_one (id : GrantId) (now : Instant) (why : ReapWhy) (db : Database)
  : result ServiceError (option RequestId) * Database := tx_close (reap_tx id now why) db.

(** How many of the grants [f] ended, one transaction each. *)
Fixpoint each {A} (f : A -> Database -> bool * Database) (l : list A) (db : Database) : nat * Database :=
  match l with
  | [] => (0, db)
  | a :: l =>
    let '(done, db) := f a db in
    let '(n, db) := each f l db in
    (if done then S n else n, db)
  end.
Definition reaped (r : result ServiceError (option RequestId)) : bool :=
  match r with Ok (Some _) => true | _ => false end.

Definition reap_stale_provisioning (now : Instant) (max_age : Z) (db : Database) : nat * Database :=
  match stale_provisioning (now - max_age)%Z db with
  | Ok (ids, _) => each (fun id db => let '(r, db) := reap_one id now interrupted db in (reaped r, db)) ids db
  | Err _ => (0, db)
  end.
Definition reap_provisioning_of (agents : list AgentId) (now : Instant) (db : Database) : Database :=
  match stale_provisioning now db with
  | Ok (ids, _) =>
    let ids := List.filter (fun id => match db_grants db !! id with
                                      | Some g => existsb (N.eqb (gr_agent g)) agents
                                      | None => false
                                      end) ids in
    snd (each (fun id db => let '(r, db) := reap_one id now contained_provisioning db in (reaped r, db)) ids db)
  | Err _ => db
  end.

(** ** The scheduler's passes; [at_] is the clock as each grant's turn comes *)

Definition expire_due_grants (now : Instant) (at_ : GrantId -> Instant) (db : Database) : nat * Database :=
  match due now db with
  | Ok (ids, _) =>
    each (fun id db => let '(r, db) := expire_one id (at_ id) db in
                       (match r with Ok (Some _) => true | _ => false end, db)) ids db
  | Err _ => (0, db)
  end.
Definition revoke_delegated_for_closed_threads (at_ : GrantId -> Instant) (db : Database) : nat * Database :=
  match delegated_on_closed_threads db with
  | Ok (rows, _) =>
    each (fun '(id, why) db =>
            let reason := lit "delegation thread closed (" ++ default (lit "closed") why ++ lit ")" in
            let '(r, db) := revoke_grant id reason (lit "scheduler") (at_ id) db in (is_ok r, db)) rows db
  | Err _ => (0, db)
  end.
End provision.
