(* ===== verification/Create.v ===== *)
(** [create] ([crates/broker/src/service/create.rs]): a request, from the
    agent's body to the row it is answered with. *)

From stdpp Require Import gmap.
From S2P Require Import Prelude Json Glob Pyfmt Lifecycle Names Durations Pool Mail Authority Routing Agents Hostexec Schema Policy Zones Eval CanonicalJson Store Requests Grants ServiceRouting Provision.
From stdpp Require Import options.

Section create.
Context `{UnicodeLower, RegexLib, DateLib, RustFmt, !Registry, UuidLib}.

(** [wire::agent::RequestCreate]. *)
Record RequestCreate := mkCreate {
  b_platform : Platform;
  b_capability : str;
  b_resource : str;
  b_scope : list (str * Value);
  b_justification : str;
  b_duration : N;
  b_thread : option str;
}.

Record Draft := mkDraft {
  dr_id : RequestId;
  dr_agent : AgentId;
  dr_session : option SessionId;
  dr_delegation : option Anchor;
  dr_body : RequestCreate;
  dr_notes : list str;
  dr_now : Instant;
}.
Definition with_notes (d : Draft) (notes : list str) : Draft :=
  mkDraft (dr_id d) (dr_agent d) (dr_session d) (dr_delegation d) (dr_body d) (dr_notes d ++ notes) (dr_now d).

Definition draft_insert (d : Draft) (resource : str) (authority : option Authority)
  : tx ServiceError (Request Pending) :=
  let b := dr_body d in
  store (insert_request (dr_id d) (dr_agent d) (dr_session d) (dr_delegation d) (b_platform b) resource
         (b_capability b) (b_scope b) authority (b_justification b) (b_duration b) (dr_notes d) (dr_now d)).

(** The request, recorded denied by the policy. *)
Definition draft_refuse (d : Draft) (resource : str) (authority : option Authority) (reason : str)
  : tx ServiceError RequestRow :=
  let! pending := draft_insert d resource authority in
  let! denied := step_request pending (ToDenied ByPolicy None reason) (dr_now d) in
  tx_ret (rq_row denied).

(** What happens after the creating transaction commits. *)
Inductive After := AfterNothing | AfterLlm | AfterSurface | AfterRuleApplied (rule : RuleId) | AfterPolicyApproved.

Record Created := mkCreated { cr_row : RequestRow; cr_grant : option GrantId; cr_after : After }.
Definition refused (row : RequestRow) : Created := mkCreated row None AfterNothing.

Definition decided_by_of (decision : PolicyDecision) : str :=
  match p_window decision, decision_rule_id decision with
  | true, Some id => lit "window:" ++ id_display id
  | _, _ => lit "policy"
  end.
(** The saved rule that decided, for its audit line. *)
Definition applied_rule (decision : PolicyDecision) (final : PolicyAction) : option RuleId :=
  if bool_decide (decision_source decision = ByRule)
   && (bool_decide (final = Approve) || bool_decide (final = Deny))
  then decision_rule_id decision else None.

(** The insert and the first transitions, once the route is known. [llm]:
    is there a reviewer? *)
Definition enter_route (policy : Policy) (llm : bool) (d : Draft) (resource : str) (authority : Authority)
  (decision : PolicyDecision) (routed : RoutedRequest) (grant_id : GrantId) : tx ServiceError Created :=
  let now := dr_now d in
  let source := decision_source decision in
  let applied := applied_rule decision (Route_action (rr_route routed)) in
  let! pending := draft_insert d resource (Some authority) in
  match rr_route routed with
  | RDeny =>
    let! r := step_request pending (ToDenied source None (p_reason decision)) now in
    tx_ret (mkCreated (rq_row r) None
              match applied with Some rule => AfterRuleApplied rule | None => AfterNothing end)
  | RApprove clearance =>
    let duration := policy_cap policy (clamp_duration (b_duration (dr_body d)))
                      (Some (p_max_duration decision)) in
    let! approved := step_request pending
      (ToApproved (Approval_auto clearance (decided_by_of decision) (p_reason decision) (Z.to_N duration))) now in
    let! grant := begin_provision approved grant_id now in
    let! row := store (get_request (rq_id (rq_row approved))) in
    match row with
    | None => tx_fail (Transition CONCURRENT)
    | Some row =>
        tx_ret (mkCreated (into_row row) grant
                  match applied with
                  | Some rule => AfterRuleApplied rule
                  | None => if bool_decide (source = ByPolicy) then AfterPolicyApproved else AfterNothing
                  end)
    end
  | RLlm clearance =>
    if negb llm then
      let! r := step_request pending (ToAwaitingHuman (Some (lit "llm evaluator unavailable"))) now in
      tx_ret (mkCreated (rq_row r) None AfterSurface)
    else
      let! r := step_request pending (ToLlmEvaluating clearance None) now in
      tx_ret (mkCreated (rq_row r) None AfterLlm)
  | RSurface =>
    let! r := step_request pending (ToAwaitingHuman None) now in
    tx_ret (mkCreated (rq_row r) None AfterSurface)
  end.

(** Once the validator passed the request: zones, rules, gates. *)
Definition create_routed (policy : Policy) (llm : bool) (d : Draft) (agent : AgentRow) (delegator : Delegator)
  (v : Validated) (grant_id : GrantId) : tx ServiceError Created :=
  let now := dr_now d in
  let p := b_platform (dr_body d) in
  let! zone := store (zone_check policy agent (v_authority v) (v_resource v)) in
  match zone with
  | Err denied =>
    let! row := draft_refuse d (v_resource v) (Some (v_authority v)) (request_reason denied) in
    tx_ret (refused row)
  | Ok zone =>
    let d := with_notes d (v_notes v) in
    let! saved := store (saved_rules p now) in
    let input := mkInput (policy_ref agent) (as_policy delegator) (v_resource v) (v_authority v) in
    let '(decision, routed) := evaluate_and_route policy (dr_id d) input saved zone now in
    let! routed := store (stored_gates agent (v_authority v) (v_resource v) routed) in
    enter_route policy llm (with_notes d (rr_notes routed)) (v_resource v) (v_authority v) decision routed grant_id
  end.

(** The platform, the authority, the validator. *)
Definition create_validated (policy : Policy) (llm : bool) (d : Draft) (agent : AgentRow) (delegator : Delegator)
  (grant_id : GrantId) : tx ServiceError Created :=
  let b := dr_body d in
  let resource := b_resource b in
  if negb (enabled_platform (b_platform b)) then tx_fail (NotEnabled (b_platform b))
  else
  match from_wire (b_platform b) (b_capability b) (b_scope b) with
  | Err e =>
      let! row := draft_refuse d resource None (lit "validator: " ++ e) in
      tx_ret (refused row)
  | Ok authority =>
      let! v := store (fun db => match validate agent resource authority (dr_now d) db with
                                 | Ok v => Ok (v, db) | Err e => Err e end) in
      match v with
      | Err why =>
          let! row := draft_refuse d resource (Some authority) (lit "validator: " ++ why) in
          tx_ret (refused row)
      | Ok v =>
          if negb (bool_decide (platform (v_authority v) = b_platform b))
          then tx_fail (StoreFailed (OutOfRange (lit "a validator returned another platform's authority")))
          else create_routed policy llm d agent delegator v grant_id
      end
  end.

(** The creating transaction. *)
Definition create (policy : Policy) (llm : bool) (caller : AgentCaller) (body : RequestCreate)
  (id : RequestId) (grant_id : GrantId) (now : Instant) : tx ServiceError Created :=
  let d := mkDraft id (caller_id caller) (caller_session caller) None body [] now in
  let! check := store (lockdown_check (caller_id caller) now) in
  match check with
  | Err held =>
    let! row := draft_refuse d (b_resource body) None (Held_text held) in
    tx_ret (refused row)
  | Ok not_held =>
    let agent := nh_agent not_held in
    let d := mkDraft id (ag_id agent) (caller_session caller) None body [] now in
    match b_thread body with
    | Some (_ :: _ as cited) =>
        let! r := store (resolve caller (b_platform body) cited) in
        match r with
        | Err problem =>
            let! row := draft_refuse d (b_resource body) None (lit "delegation: " ++ problem) in
            tx_ret (refused row)
        | Ok resolved =>
            let! a := store (get_agent (delegator_agent_id (delegation resolved))) in
            let delegator := match a with Some a => DelegatorAgent a | None => GoneDelegator end in
            let d := mkDraft id (ag_id agent) (caller_session caller) (Some (delegation resolved)) body
                       [risk_note resolved] now in
            create_validated policy llm d agent delegator grant_id
        end
    | _ => create_validated policy llm d agent NoDelegator grant_id
    end
  end.

(** [create], then phase two of its grant. *)
Definition create_and_finish (policy : Policy) (llm : bool) (caller : AgentCaller) (body : RequestCreate)
  (id : RequestId) (grant_id : GrantId) (now now1 now2 now3 : Instant) (db : Database)
  : result ServiceError RequestRow * Database :=
  match tx_run (create policy llm caller body id grant_id now) db with
  | (Err e, db) => (Err e, db)
  | (Ok c, db) =>
    match cr_grant c with
    | None => (Ok (cr_row c), db)
    | Some g =>
        let db := finish_provision g now1 now2 now3 db in
        (Ok match db_requests db !! id with Some r => r | None => cr_row c end, db)
    end
  end.
End create.
