(* ===== verification/Decide.v ===== *)
(** Human decisions, containment's denials, and a new window applied to the
    requests that wait ([crates/broker/src/service/decide.rs]). *)

From stdpp Require Import gmap.
From S2P Require Import Prelude Json Glob Pyfmt Lifecycle Names Durations Pool Mail Authority Routing Agents Hostexec Schema Policy Zones Eval CanonicalJson Store Requests Grants ServiceRouting Provision.
From stdpp Require Import options.

Definition HUMAN_MAX_DURATION_SECS : N := Z.to_N MAX_DURATION_SECS.

Section decide.
Context `{UnicodeLower, RegexLib, DateLib, RustFmt, !Registry, UuidLib}.

(** An authenticated person, by the name recorded for them. *)
Record HumanDecider := mkHuman { human_label : str }.

Record RuleFromDecision := mkRuleFrom {
  rf_action : SavedRuleAction; rf_resource_pattern : option str; any_authority : bool }.
Record HumanDecision := mkHumanDecision {
  approve : bool;
  hd_reason : str;
  duration_secs : option N;
  resource_override : option str;
  scope_override : option (list (str * Value));
  hd_rule : option RuleFromDecision;
  totp : option str;
  desk_host : option str;
}.
Definition HumanDecision_deny (reason : str) : HumanDecision :=
  mkHumanDecision false reason None None None None None None.

Inductive Decider := DHuman (h : HumanDecider) | DContainment (by_ : str).
Definition decider_label (d : Decider) : str :=
  match d with DHuman h => human_label h | DContainment by_ => by_ end.

Definition resolved (s : RequestStatus) : ServiceError :=
  Transition (lit "request already resolved (status " ++ RequestStatus_as_str s ++ lit ")").
Definition unknown_request : ServiceError := Transition (lit "unknown request").

(** ** The approval gate *)

Definition is_shell (a : option Authority) : bool :=
  match a with Some (AHostexec (Shell _ _)) => true | _ => false end.
(** What [run_gate] finds before it runs the platform's gate: it is not
    asked at all, or asked for this request and agent. [gated]: has the
    platform an approval gate? *)
Inductive Asked := NotNeeded | Ask (request : RequestRow) (agent : AgentRow).
Definition no_code (totp : option str) : bool :=
  match totp with None => true | Some t => bool_decide (trim t = []) end.
Definition gate_needed (gated : Platform -> bool) (id : RequestId) (d : HumanDecision) (now : Instant)
  : tx ServiceError Asked :=
  let! r := store (get_request id) in
  match r with
  | None => tx_fail unknown_request
  | Some r =>
    let request := into_row r in
    let at_its_desk := bool_decide (desk_host d = Some (rq_resource request)) in
    if negb (is_human_decidable (rq_status request)) then tx_fail (resolved (rq_status request))
    else if is_shell (rq_authority request) && negb at_its_desk && no_code (totp d)
    then tx_fail (Transition (lit
      "a shell is approved with a TOTP code (Approve with TOTP) or at its host's desk"))
    else if negb (gated (rq_platform request)) then
      if bool_decide (rq_platform request = Hostexec)
      then tx_fail (Transition (lit
        "host approvals are unavailable: this broker has no hostexec gate running"))
      else tx_ret NotNeeded
    else
      let! check := store (lockdown_check (rq_agent request) now) in
      match check with
      | Err _ => tx_ret NotNeeded
      | Ok _ =>
          let! a := store (get_agent (rq_agent request)) in
          match a with
          | None => tx_fail unknown_request
          | Some a => tx_ret (Ask request a)
          end
      end
  end.
(** [answer]: what the gate says of the request, outside any transaction. *)
Definition run_gate (gated : Platform -> bool) (answer : RequestRow -> AgentRow -> HumanDecision -> result str unit)
  (id : RequestId) (d : HumanDecision) (now : Instant) (db : Database) : result ServiceError unit :=
  match gate_needed gated id d now db with
  | Err e => Err e
  | Ok (NotNeeded, _) => Ok tt
  | Ok (Ask r a, _) => map_err Transition (answer r a d)
  end.

(** ** The decision *)

Definition rejected (why : str) : ServiceError :=
  Transition (lit "edited approval rejected by validator: " ++ why).

(** The edit, validated as at creation. *)
Definition revalidate (policy : Policy) (agent : AgentRow) (row : RequestRow) (d : HumanDecision) (now : Instant)
  : tx ServiceError ApprovedEdit :=
  match rq_authority row with
  | None => tx_fail (Transition (lit "request has no authority"))
  | Some current =>
    let resource := default (rq_resource row) (resource_override d) in
    let! authority := tx_lift match scope_override d with
                              | Some scope => map_err rejected (from_wire (rq_platform row) (capability current) scope)
                              | None => Ok current
                              end in
    if negb (enabled_platform (rq_platform row)) then tx_fail (NotEnabled (rq_platform row))
    else
      let! v := store (fun db => match validate agent resource authority now db with
                                 | Ok v => Ok (v, db) | Err e => Err e end) in
      match v with
      | Err why => tx_fail (rejected why)
      | Ok v =>
          if negb (bool_decide (platform (v_authority v) = rq_platform row))
          then tx_fail (rejected (lit "another platform's authority"))
          else
            let! zone := store (zone_check policy agent (v_authority v) (v_resource v)) in
            match zone with
            | Err denied => tx_fail (rejected (denied_text denied))
            | Ok _ => tx_ret (mkEdit (v_resource v) (v_authority v))
            end
      end
  end.

Definition approve_human (request : Request AwaitingHuman) (human : HumanDecider) (attested : option HumanApproval)
  (reason : str) (duration : N) (now : Instant) : tx ServiceError (Request Approved) :=
  let id := rq_id (rq_row request) in
  match attested with
  | Some a =>
    if N.eqb (ha_request a) id && str_eqb (ha_decided_by a) (human_label human)
    then step_request request (ToApproved (Approval_human a reason duration)) now
    else tx_fail (Transition (lit "the approval is for another request or person"))
  | None => step_request request (ToApproved (Approval_human (attest id (human_label human)) reason duration)) now
  end.

(** A human overrides the reviewer: through [AwaitingHuman]. *)
Definition awaiting (loaded : AnyRequest) (now : Instant) : tx ServiceError (Request AwaitingHuman) :=
  match loaded with
  | IsAwaitingHuman r => tx_ret r
  | IsLlmEvaluating r => step_request r (ToAwaitingHuman None) now
  | IsLlmDenied r => step_request r (ToAwaitingHuman None) now
  | other => tx_fail (resolved (rq_status (into_row other)))
  end.

(** The saved rule born from the decision. *)
Definition save_rule (rule : RuleFromDecision) (id : RuleId) (agent : AgentRow) (row : RequestRow)
  (edit : option ApprovedEdit) (d : HumanDecision) (decided_by : str) (now : Instant)
  : tx ServiceError unit :=
  let! delegator := store (delegator_of row) in
  let pattern := match rf_resource_pattern rule with
               | Some p => p
               | None => glob_literal match edit with Some e => ed_resource e | None => rq_resource row end
               end in
  let authority := match edit, any_authority rule with Some e, false => Some (ed_authority e) | _, _ => None end in
  let notes := if bool_decide (hd_reason d = []) then lit "created from decision" else hd_reason d in
  let! _ := store (insert_rule (mkRule id (rf_action rule) (ag_name agent) (delegator_name delegator)
  (rq_platform row) pattern authority ((fun x => N.min x HUMAN_MAX_DURATION_SECS) <$> duration_secs d)
  true decided_by notes None now)) in
  tx_ret tt.

(** Between a second and a year; past the policy's caps only if the human
    says how long. *)
Definition human_duration (policy : Policy) (row : RequestRow) (d : HumanDecision) : N :=
  let base := match duration_secs d with
            | Some d => d
            | None => Z.to_N (policy_cap policy (clamp_duration (rq_duration row)) None)
            end in
  N.min (N.max base 1) HUMAN_MAX_DURATION_SECS.

(** [decide_inner]'s transaction: the grant to finish, if any. *)
Definition decide_inner (policy : Policy) (id : RequestId) (who : Decider) (attested : option HumanApproval)
  (d : HumanDecision) (rule_id : RuleId) (grant_id : GrantId) (now : Instant)
  : tx ServiceError (option GrantId) :=
  let! loaded := store (get_request id) in
  match loaded with
  | None => tx_fail unknown_request
  | Some loaded =>
    let! request := awaiting loaded now in
    let row := rq_row request in
    let! agent := store (get_agent (rq_agent row)) in
    match agent with
    | None => tx_fail unknown_request
    | Some agent =>
        let approving := match who with DHuman h => if approve d then Some h else None | _ => None end in
        let! edit := match approving with
                     | Some _ => let! e := revalidate policy agent row d now in tx_ret (Some e)
                     | None => tx_ret None
                     end in
        let! _ := match hd_rule d with
                  | Some rule => save_rule rule rule_id agent row edit d (decider_label who) now
                  | None => tx_ret tt
                  end in
        match approving, edit with
        | Some human, Some edit =>
            let! approved := approve_human request human attested (hd_reason d) (human_duration policy row d) now in
            let! edited := store (set_approved_edit approved edit now) in
            match edited with
            | Err _ => tx_fail (Transition CONCURRENT)
            | Ok approved => begin_provision approved grant_id now
            end
        | _, _ =>
            let! _ := step_request request (ToDenied ByHuman (Some (decider_label who)) (hd_reason d)) now in
            tx_ret None
        end
    end
  end.

(** Containment denies what waits: one transaction a request. A refusal of
    one ([Transition]) is passed over; another error stops. *)
Fixpoint deny_each (policy : Policy) (ids : list RequestId) (reason by_ : str) (now : RequestId -> Instant)
  (db : Database) : result ServiceError nat * Database :=
  match ids with
  | [] => (Ok 0, db)
  | id :: ids =>
    match tx_run (decide_inner policy id (DContainment by_) None (HumanDecision_deny reason) 0 0 (now id)) db with
    | (Err (Transition _), db) => deny_each policy ids reason by_ now db
    | (Err e, db) => (Err e, db)
    | (Ok _, db) =>
        let '(n, db) := deny_each policy ids reason by_ now db in (S <$> n, db)
    end
  end.
Definition deny_pending (policy : Policy) (held : list AgentId) (reason by_ : str) (now : RequestId -> Instant)
  (db : Database) : result ServiceError nat * Database :=
  match decidable_of held db with
  | Ok (ids, _) => deny_each policy ids reason by_ now db
  | Err e => (Err (StoreFailed e), db)
  end.

(** ** A new window *)

(** Approved, if the policy clears the request through this very rule:
    [None], if it does not. *)
Definition apply_one (policy : Policy) (id : RequestId) (rule : RuleRow) (grant_id : GrantId) (now : Instant)
  : tx ServiceError (Closing (option (option GrantId))) :=
  let skip := tx_ret (Dropped None) in
  let! loaded := store (get_request id) in
  match loaded with
  | Some (IsAwaitingHuman r) =>
    let! agent := store (get_agent (rq_agent (rq_row r))) in
    match agent, rq_authority (rq_row r) with
    | Some agent, Some authority =>
        let! delegator := store (delegator_of (rq_row r)) in
        let! re := store (reroute policy id agent delegator (rq_resource (rq_row r)) authority now) in
        if negb (bool_decide (decision_rule_id (re_decision re) = Some (ru_id rule))) then skip
        else
          match re_route re with
          | Some (RApprove clearance) =>
              let duration := policy_cap policy (clamp_duration (rq_duration (rq_row r)))
                                (clamp_duration <$> ru_max_duration rule) in
              let '(decided_by, reason) :=
                if is_window (ru_authority rule) then (lit "window:" ++ id_display (ru_id rule), lit "approve-all window")
                else (lit "rule", lit "matched saved rule") in
              let! approved := step_request r
                (ToApproved (Approval_auto clearance decided_by reason (Z.to_N duration))) now in
              let! grant := begin_provision approved grant_id now in
              tx_ret (Committed (Some grant))
          | _ => skip
          end
    | _, _ => skip
    end
  | _ => skip
  end.

(** The requests a new rule may clear: those that wait, on its platform. *)
Definition apply_to (rule_id : RuleId) (now : Instant) : tx StoreError (option (RuleRow * list RequestId)) :=
  let! rule := get_rule rule_id in
  match rule with
  | None => tx_ret None
  | Some rule =>
    if negb (bool_decide (ru_action rule = AutoApprove)) || negb (rule_is_live rule now) then tx_ret None
    else
      let! waiting := awaiting_human_on (ru_platform rule) in
      tx_ret (Some (rule, map rq_id waiting))
  end.
End decide.
