(* ===== verification/Review.v ===== *)
(** The reviewer's task, an agent's retry and escalation
    ([crates/broker/src/service/llm_task.rs]). The reviewer is a model over
    the network: its verdict is an argument. *)

From stdpp Require Import gmap.
From S2P Require Import Prelude Json Glob Pyfmt Lifecycle Names Durations Pool Mail Authority Routing Agents Hostexec Schema Policy Zones Eval CanonicalJson Store Requests Grants ServiceRouting Provision.
From stdpp Require Import options.

Definition ERROR_REASONING : str := lit "LLM evaluation failed; escalating to human review".

Section review.
Context `{UnicodeLower, RegexLib, DateLib, RustFmt}.

Inductive LlmVerdict :=
| VApprove (reasoning : str) (suggested : option N)
| VDeny (reasoning : str)
| VError.

(** The model's answer: an object with a verdict, its reasoning and, of an
    approval, a duration. *)
Definition parse_verdict (parsed : list (str * Value)) : LlmVerdict :=
  match match map_get (lit "reasoning") parsed with
      | None => Some []
      | Some (VString s) => Some s
      | Some _ => None
      end with
  | None => VError
  | Some reasoning =>
    match map_get (lit "verdict") parsed ≫= as_str with
    | Some v =>
        if str_eqb v (lit "approve")
        then VApprove reasoning (s ← map_get (lit "suggested_duration_secs") parsed ≫= as_u64;
                                 if N.ltb 0 s && N.ltb s (2 ^ 32) then Some s else None)
        else if str_eqb v (lit "deny") then VDeny reasoning
        else VError
    | None => VError
    end
  end.

(** What the first transaction hands the reviewer. *)
Record Reading := mkReading { rd_request : RequestRow; rd_agent : AgentRow; rd_decision : PolicyDecision }.
Definition rd_max (policy : Policy) (r : Reading) : Z :=
  policy_cap policy (clamp_duration (rq_duration (rd_request r))) (Some (p_max_duration (rd_decision r))).

Definition evaluate_read (policy : Policy) (id : RequestId) (now : Instant) : tx ServiceError (option Reading) :=
  let! loaded := store (get_request id) in
  match loaded with
  | Some (IsLlmEvaluating r) =>
    let request := rq_row r in
    let! agent := store (get_agent (rq_agent request)) in
    match agent, rq_authority request with
    | None, _ => tx_fail (Transition (lit "unknown agent"))
    | Some _, None => tx_fail (Transition (lit "request has no authority"))
    | Some agent, Some authority =>
        let! delegator := store (delegator_of request) in
        let! re := store (reroute policy id agent delegator (rq_resource request) authority now) in
        tx_ret (Some (mkReading request agent (re_decision re)))
    end
  | _ => tx_ret None
  end.

(** [llm::insert]: one evaluation for a request's attempt. *)
Definition evaluation_checks (attempt : N) (model : str) (suggested : option N) : bool :=
  N.leb 1 attempt && Nat.leb (length model) 128 && opt_ok (N.ltb 0) suggested.
Definition record_evaluation (id : RequestId) (attempt : N) (model : str) (suggested : option N)
  : tx StoreError unit :=
  let! attempt := tx_lift (to_i32 attempt) in
  let! suggested := tx_lift (opt_to_i32 suggested) in
  let! all := tx_read db_evaluations in
  if negb (evaluation_checks attempt model suggested) then tx_fail (Db CheckViolation)
  else if existsb (fun '(r, a) => N.eqb r id && N.eqb a attempt) all then tx_fail (Db UniqueViolation)
  else tx_write (fun db => with_evaluations db (db_evaluations db ++ [(id, attempt)])).

Definition no_longer_routed (reasoning : str) : str :=
  lit "LLM approved, but the policy no longer routes this to the LLM: " ++ reasoning.

(** The suggestion, if it is one, shortens. *)
Definition reviewed_duration (max_now max_then : Z) (suggested : option N) : Z :=
  let d := Z.min max_now max_then in
  match suggested with Some s => if N.ltb 0 s then Z.min d (Z.of_N s) else d | None => d end.

(** An approval is checked against the policy and the containments of now:
    only a request still routed to the reviewer is approved. *)
Definition act_on_approve `{!Registry} (policy : Policy) (rd : Reading) (current : Request LlmEvaluating)
  (reasoning : str) (suggested : option N) (grant_id : GrantId) (now : Instant)
  : tx ServiceError (option GrantId) :=
  let row := rq_row current in
  let! holding_now := store (holding (rd_agent rd)) in
  match rq_authority row with
  | None => tx_fail (Transition (lit "request has no authority"))
  | Some authority =>
    let! delegator := store (delegator_of row) in
    let! re := store (reroute policy (rq_id row) (rd_agent rd) delegator (rq_resource row) authority now) in
    let max_now := policy_cap policy (clamp_duration (rq_duration row)) (Some (p_max_duration (re_decision re))) in
    match re_route re, holding_now with
    | Some (RLlm clearance), None =>
        let duration := reviewed_duration max_now (rd_max policy rd) suggested in
        let! approved := step_request current
          (ToApproved (Approval_llm clearance (p_llm_model (rd_decision rd)) reasoning (Z.to_N duration))) now in
        begin_provision approved grant_id now
    | _, _ =>
        step_request current (ToAwaitingHuman (Some (no_longer_routed reasoning))) now;! tx_ret None
    end
  end.

(** The second transaction: record the verdict and act on it, if nobody
    decided meanwhile. *)
Definition evaluate_record `{!Registry} (policy : Policy) (rd : Reading) (verdict : LlmVerdict) (grant_id : GrantId)
  (now : Instant) : tx ServiceError (option GrantId) :=
  let id := rq_id (rd_request rd) in
  let model := p_llm_model (rd_decision rd) in
  let budget := p_retry_budget (rd_decision rd) in
  let! loaded := store (get_request id) in
  match loaded with
  | Some (IsLlmEvaluating current) =>
    let attempt := rq_attempt (rq_row current) in
    if negb (N.eqb attempt (rq_attempt (rd_request rd))) then tx_ret None
    else
      let! _ := match verdict with
               | VError => tx_ret tt
               | VApprove _ suggested => store (record_evaluation id attempt model suggested)
               | VDeny _ => store (record_evaluation id attempt model None)
               end in
      match verdict with
      | VApprove reasoning suggested => act_on_approve policy rd current reasoning suggested grant_id now
      | VDeny reasoning =>
          if N.leb budget attempt then
            step_request current (ToAwaitingHuman (Some (lit "LLM denied (attempt " ++ show_N attempt ++ lit "/"
              ++ show_N budget ++ lit "): " ++ reasoning))) now;! tx_ret None
          else step_request current (ToLlmDenied model reasoning) now;! tx_ret None
      | VError => step_request current (ToAwaitingHuman (Some ERROR_REASONING)) now;! tx_ret None
      end
  | _ => tx_ret None
  end.

(** To a human, from the reviewer; someone else may have moved it. *)
Definition escalate_from_llm (id : RequestId) (note : str) (now : Instant) : tx ServiceError unit :=
  let! loaded := store (get_request id) in
  match loaded with
  | Some (IsLlmEvaluating r) =>
    let! _ := store (transition r (ToAwaitingHuman (Some note)) now) in tx_ret tt
  | _ => tx_ret tt
  end.

(** [resume]: lost evaluations, when there is no reviewer. *)
Fixpoint escalate_each (ids : list RequestId) (now : RequestId -> Instant) (db : Database)
  : result ServiceError unit * Database :=
  match ids with
  | [] => (Ok tt, db)
  | id :: ids =>
    match tx_run (escalate_from_llm id (lit "llm evaluator unavailable after a restart") (now id)) db with
    | (Ok _, db) => escalate_each ids now db
    | (Err e, db) => (Err e, db)
    end
  end.

Definition refuse_if_held (agent : AgentId) (now : Instant) : tx ServiceError unit :=
  let! check := store (lockdown_check agent now) in
  match check with
  | Ok _ => tx_ret tt
  | Err held => tx_fail (Transition (Held_text held))
  end.

(** The caller's own request, denied by the reviewer. *)
Definition own_denied (caller : AgentCaller) (id : RequestId) (verb : str)
  : tx ServiceError (Request LlmDenied) :=
  let! loaded := store (get_request id) in
  match loaded with
  | Some r =>
    if negb (N.eqb (rq_agent (into_row r)) (caller_id caller)) then tx_fail (Transition (lit "unknown request"))
    else match r with
         | IsLlmDenied r => tx_ret r
         | other => tx_fail (Transition (lit "cannot " ++ verb ++ lit " from status "
                                         ++ RequestStatus_as_str (rq_status (into_row other))))
         end
  | None => tx_fail (Transition (lit "unknown request"))
  end.

Definition concurrently : ServiceError := Transition (lit "request was decided concurrently").

(** Another round, within the retry budget. *)
Definition retry (policy : Policy) (caller : AgentCaller) (id : RequestId) (justification : str) (now : Instant)
  : tx ServiceError RequestRow :=
  let! denied := own_denied caller id (lit "retry") in
  let row := rq_row denied in
  refuse_if_held (caller_id caller) now;!
  match rq_authority row with
  | None => tx_fail (Transition (lit "request has no authority"))
  | Some authority =>
    let! delegator := store (delegator_of row) in
    let! re := store (reroute policy id (caller_agent caller) delegator (rq_resource row) authority now) in
    if N.leb (p_retry_budget (re_decision re)) (rq_attempt row)
    then tx_fail (Transition (lit "retry budget exhausted; use escalate"))
    else
      match re_route re with
      | Some (RLlm clearance) =>
          let! r := store (transition denied (ToLlmEvaluating clearance (Some justification)) now) in
          match r with Ok r => tx_ret (rq_row r) | Err _ => tx_fail concurrently end
      | _ => tx_fail (Transition (lit
          "the policy no longer routes this request to LLM review; use escalate"))
      end
  end.

Definition escalate (caller : AgentCaller) (id : RequestId) (now : Instant) : tx ServiceError RequestRow :=
  let! denied := own_denied caller id (lit "escalate") in
  refuse_if_held (caller_id caller) now;!
  let reason := default [] (rq_reason (rq_row denied)) in
  let! r := store (transition denied
  (ToAwaitingHuman (Some (lit "escalated by agent after LLM denial: " ++ reason))) now) in
  match r with Ok r => tx_ret (rq_row r) | Err _ => tx_fail concurrently end.
End review.
