(* ===== verification/Contain.v ===== *)
(** Containment's acts ([crates/broker/src/containment.rs]), disabling an
    agent with what it minted ([crates/store/src/sandboxes.rs]) and the
    lease sweep ([crates/broker/src/scheduler.rs]). *)

From stdpp Require Import gmap.
From S2P Require Import Prelude Json Glob Pyfmt Lifecycle Names Durations Pool Mail Authority Routing Agents Hostexec Schema Policy Zones Eval CanonicalJson Store Requests Grants Threads ServiceRouting Provision Decide.
From stdpp Require Import options.

Section contain.
Context `{UnicodeLower, RegexLib, DateLib, RustFmt, !Registry, UuidLib}.

Definition all_agents (db : Database) : list AgentRow := map snd (map_to_list (db_agents db)).
Definition with_chain (db : Database) (a : AgentRow) : Containment.AgentFacts :=
  facts_with a (map facts (chain_in a (db_agents db))).

(** ** Recording *)

Inductive ContainError :=
| BadMatch (why : str)
| UnknownEntry (id : str)
| ContainStore (e : StoreError)
| ContainService (e : ServiceError).

(** The agents an entry holds, itself or through what minted them. *)
Definition held_by (db : Database) (e : ContainmentEntry) : list AgentRow :=
  List.filter (fun a => negb (bool_decide (ag_kind a = Operator)) && Containment.holds (ce_match e) (with_chain db a))
  (all_agents db).
Fixpoint expire_agents (agents : list AgentId) (now : Instant) : tx StoreError unit :=
  match agents with
  | [] => tx_ret tt
  | a :: agents => let! _ := expire_now_of_agent a now in expire_agents agents now
  end.

(** The entry, and in the same transaction the end of every active grant of
    the agents it holds. *)
Definition record (e : ContainmentEntry) (now : Instant) : tx ContainError (ContainmentEntry * list AgentRow) :=
  let! recorded := tx_map_err ContainStore (record_entry e) in
  match recorded with
  | Err why => tx_fail (BadMatch why)
  | Ok entry =>
    let! held := tx_read (fun db => held_by db entry) in
    tx_map_err ContainStore (expire_agents (map ag_id held) now);!
    tx_ret (entry, held)
  end.

(** ** Acting on an entry *)

Record FollowUp := mkFollowUp { fu_revoked : nat; fu_denied : nat; fu_closed : nat }.

Fixpoint revoke_each (grants : list GrantId) (why by_ : str) (now : GrantId -> Instant) (db : Database)
  : nat * Database :=
  match grants with
  | [] => (0, db)
  | g :: grants =>
    let '(r, db) := revoke_grant g why by_ (now g) db in
    let '(n, db) := revoke_each grants why by_ now db in
    (if is_ok r then S n else n, db)
  end.
Fixpoint close_threads (held : list AgentId) (now : AgentId -> Instant) (db : Database)
  : result StoreError nat * Database :=
  match held with
  | [] => (Ok 0, db)
  | a :: held =>
    match tx_run (close_all_for a (lit "contained") (now a)) db with
    | (Err e, db) => (Err e, db)
    | (Ok closed, db) =>
        let '(n, db) := close_threads held now db in
        ((fun n => (length closed + n)%nat) <$> n, db)
    end
  end.

(** Each part runs even if one before it failed; [at_] is the clock as each
    request's, grant's and agent's turn comes. *)
Definition follow_up (policy : Policy) (held : list AgentId) (reason by_ : str) (now : Instant) (at_ : N -> Instant)
  (db : Database) : FollowUp * Database :=
  let why := lit "contained: " ++ take 120 reason in
  let '(denied, db) := deny_pending policy held why by_ at_ db in
  let db := reap_provisioning_of held now db in
  let grants := match active_of_agents held db with Ok (ids, _) => ids | Err _ => [] end in
  let '(revoked, db) := revoke_each grants why by_ at_ db in
  let '(closed, db) := close_threads held at_ db in
  (mkFollowUp revoked (match denied with Ok n => n | Err _ => 0 end) (match closed with Ok n => n | Err _ => 0 end), db).

Definition contain (policy : Policy) (id : str) (match_ : Value) (reason evidence by_ : str) (source : ContainmentSource)
  (now : Instant) (at_ : N -> Instant) (db : Database)
  : result ContainError (ContainmentEntry * list AgentRow * FollowUp) * Database :=
  let reason := take 500 reason in
  let evidence := take 4000 evidence in
  match tx_run (record (mkEntry id match_ reason evidence by_ source now) now) db with
  | (Err e, db) => (Err e, db)
  | (Ok (entry, held), db) =>
    let '(done, db) := follow_up policy (map ag_id held) reason by_ now at_ db in
    (Ok (entry, held, done), db)
  end.

(** ** The scheduler's backstop *)

Definition held_grants (db : Database) : list (GrantId * str) :=
  flat_map (fun a =>
  if bool_decide (ag_kind a = Operator) then []
  else match Containment.first_holding (db_entries db) ce_match (with_chain db a) with
       | Some e => match active_of_agents [ag_id a] db with
                   | Ok (ids, _) => map (fun g => (g, held_text e)) ids
                   | Err _ => []
                   end
       | None => []
       end) (all_agents db).
Definition sweep_held (now : Instant) (at_ : GrantId -> Instant) (db : Database) : nat * Database :=
  each (fun '(g, why) db =>
        match revoke_grant g why (lit "containment") (at_ g) db with
        | (Ok _, db) => (true, db)
        | (Err (Transition _), db) => (false, db)
        | (Err _, db) => (false, snd (tx_run (expire_now g now) db))
        end) (held_grants db) db.

(** ** Lifting *)

Definition lift_entries (which : option str) : tx ContainError (list ContainmentEntry) :=
  let! lifted := tx_map_err ContainStore (lift which) in
  match which, lifted with
  | Some id, [] => tx_fail (UnknownEntry id)
  | _, _ => tx_ret lifted
  end.

(** Would this match hold every agent, by its meaning or today? *)
Definition holds_everyone (match_ : Value) (db : Database) : bool :=
  match AgentMatch_from_value match_ with
  | Err _ => false
  | Ok pattern =>
    AgentMatch_matches_everyone pattern
    || let current := List.filter (fun a => negb (ag_disabled a) && negb (bool_decide (ag_kind a = Operator)))
                        (all_agents db) in
       negb (bool_decide (length current = 0)) && forallb (fun a => AgentMatch_matches pattern (policy_ref a)) current
  end.

(** What an agent may contain: not everyone, without [allow_all]. *)
Inductive ContainRoute := RouteNotFound | RouteForbidden | RouteContain.
Definition agent_contain (may : list AgentPattern) (allow_all : bool) (caller : AgentRow) (match_ : Value)
  (db : Database) : ContainRoute :=
  if negb (existsb (fun p => pattern_matches p (policy_ref caller)) may) then RouteNotFound
  else if negb allow_all && holds_everyone match_ db then RouteForbidden
  else RouteContain.

(** ** Disabling *)

(** The agent and what was minted under it. *)
Fixpoint tree_from (fuel : nat) (agents : list AgentRow) (ids : list AgentId) : list AgentId :=
  match fuel with
  | O => ids
  | S fuel =>
    let more := List.filter (fun a => match ag_parent a with
                                      | Some p => existsb (N.eqb p) ids && negb (existsb (N.eqb (ag_id a)) ids)
                                      | None => false
                                      end) agents in
    match more with [] => ids | _ => tree_from fuel agents (ids ++ map ag_id more) end
  end.
Definition tree (db : Database) (root : AgentId) : list AgentId :=
  let agents := all_agents db in
  match db_agents db !! root with
  | Some _ => tree_from (length agents) agents [root]
  | None => []
  end.

Definition disabled_reason (reason : DisableReason) (a : AgentRow) : DisableReason :=
  match reason with
  | ByOperator => ByOperator
  | _ => if ag_disabled a then default ByOperator (ag_disabled_reason a) else reason
  end.
Definition disable_row (reason : DisableReason) (a : AgentRow) : AgentRow :=
  mkAgentRow (ag_id a) (ag_name a) (ag_description a) (ag_key_id a) (ag_api_key_hash a)
  (ag_webhook_url a) (ag_webhook_secret a) (ag_lldap a) true (Some (disabled_reason reason a))
  (ag_kind a) (ag_last_seen_at a) (ag_last_listen_at a) (ag_parent a) (ag_sandbox a)
  (ag_runtime a) (ag_project a) (ag_host a) (ag_placement a) (ag_lease a) (ag_created_at a).
Fixpoint disable_each (ids : list AgentId) (reason : DisableReason) : tx StoreError (list str) :=
  match ids with
  | [] => tx_ret []
  | id :: ids =>
    let! a := get_agent id in
    let! _ := update_agent id (fun _ => true) (disable_row reason) in
    let! names := disable_each ids reason in
    tx_ret match a with Some a => ag_name a :: names | None => names end
  end.
(** The names, sorted. (Pending key deliveries are not part of the model.) *)
Definition disable_tree (root : AgentId) (now : Instant) (reason : DisableReason) : tx StoreError (list str) :=
  let! ids := tx_read (fun db => fold_right insert_id [] (tree db root)) in
  let! names := disable_each ids reason in
  expire_agents ids now;!
  tx_ret (set_of_list names).

Fixpoint disable_expired (ids : list AgentId) (now : Instant) : tx StoreError (list str) :=
  match ids with
  | [] => tx_ret []
  | id :: ids =>
    let! names := disable_tree id now LeaseOver in
    let! rest := disable_expired ids now in
    tx_ret (names ++ rest)
  end.
Definition sweep_leases (now : Instant) : tx StoreError (list str) :=
  let! ids := lease_expired now in disable_expired ids now.
(** After agents were disabled: their threads end. *)
Fixpoint after_disable (names : list str) (now : str -> Instant) (db : Database) : Database :=
  match names with
  | [] => db
  | name :: names =>
    let db := match agent_by_name name db with
              | Ok (Some a, _) => snd (tx_run (close_for_agent (ag_id a) (now name)) db)
              | _ => db
              end in
    after_disable names now db
  end.
End contain.
