(* ===== verification/Pairing.v ===== *)
(** Pairing a daemon: the one-time code and its proofs
    ([crates/crypto/src/daemon/pairing.rs]), the tables of daemons and codes
    ([crates/store/src/daemons.rs]), the broker's side
    ([crates/broker/src/daemons/pairing.rs]) and the daemon's
    ([crates/daemon/src/pair.rs]). HMAC-SHA256, hexadecimal and Unicode
    upper case are the libraries'. *)

From stdpp Require Import gmap.
From S2P Require Import Prelude Json Glob Pyfmt Lifecycle Names Durations Pool Mail Authority Routing Agents Hostexec Schema Policy Zones Eval HostTypes TotpCode F64 Transcript Envelope Hello Store Requests Grants Threads ServiceRouting Provision Create Decide Review Contain.
From stdpp Require Import options.

Class HmacSha256 := { hmac_sha256 : bytes -> bytes -> bytes }.
Class Hex := { hex_encode : bytes -> str; hex_decode : str -> option bytes }.
Class HexLaws `{!Hex} : Prop := {
  hex_roundtrip b : Forall is_byte b -> hex_decode (hex_encode b) = Some b;
  hex_digits b : Forall is_byte b -> Forall (fun c => is_ascii_digit c || in_range (ch "a") (ch "f") c = true) (hex_encode b);
}.
Class UnicodeUpper := { to_uppercase : str -> str; char_alphanumeric : char -> bool }.

(** ** Codes *)

Definition CODE_ALPHABET : str := lit "ABCDEFGHJKMNPQRSTVWXYZ23456789".
Definition CODE_GROUPS : nat := 3.
Definition CODE_GROUP_LEN : nat := 4.

(** [random_symbol]: bytes of the random source, one at a time; 240 and
    above are drawn again. [None]: the source failed. *)
Definition symbol_of (b : N) : option char :=
  if N.ltb b 240 then CODE_ALPHABET !! N.to_nat (b mod 30) else None.
Fixpoint random_symbol (source : bytes) : option (char * bytes) :=
  match source with
  | [] => None
  | b :: source =>
      match symbol_of b with
      | Some c => Some (c, source)
      | None => random_symbol source
      end
  end.
Fixpoint random_group (n : nat) (source : bytes) : option (str * bytes) :=
  match n with
  | O => Some ([], source)
  | S n =>
      '(c, source) ← random_symbol source;
      '(rest, source) ← random_group n source;
      Some (c :: rest, source)
  end.
Fixpoint code_groups (n : nat) (source : bytes) : option (str * bytes) :=
  match n with
  | O => Some ([], source)
  | S n =>
      '(g, source) ← random_group CODE_GROUP_LEN source;
      '(rest, source) ← code_groups n source;
      Some ((match rest with [] => g | _ => g ++ lit "-" ++ rest end), source)
  end.
Definition generate_pairing_code (source : bytes) : option str := fst <$> code_groups CODE_GROUPS source.

(** ** The key of a code and its proofs *)

Definition proofs_equal (a b : str) : bool := ct_eq (as_bytes a) (as_bytes b).

(** What the daemon's and the broker's proofs cover. *)
Definition daemon_message (id : ChannelId) (daemon_key : str) : bytes :=
  transcript [CTX_PAIR; lit "daemon"; as_bytes (ChannelRole_as_str (ci_role id)); as_bytes (ci_name id);
    as_bytes daemon_key].
Definition broker_message (id : ChannelId) (daemon_key broker_key : str) : bytes :=
  transcript [CTX_PAIR; as_bytes BROKER; as_bytes (ChannelRole_as_str (ci_role id)); as_bytes (ci_name id);
    as_bytes daemon_key; as_bytes broker_key].

Section crypto.
Context `{Sha256, HmacSha256, Hex, UnicodeUpper, Base64}.

Definition normalize_pairing_code (code : str) : str := List.filter char_alphanumeric (to_uppercase code).

Definition from_code (code : str) : bytes := sha256 (CTX_PAIR_KEY ++ as_bytes (normalize_pairing_code code)).
(** [decode_to_slice] into 32 bytes. *)
Definition from_hex (text : str) : option bytes :=
  raw ← hex_decode text;
  if Nat.eqb (length raw) 32 then Some raw else None.
Definition to_hex (key : bytes) : str := hex_encode key.

Definition selector (key : bytes) : str := hex_encode (take 16 (hmac_sha256 key CTX_PAIR_SELECTOR)).
Definition selector_matches (key : bytes) (presented : str) : bool := proofs_equal (selector key) presented.
Definition daemon_proof (key : bytes) (id : ChannelId) (daemon_key : PublicKey) : str :=
  hex_encode (hmac_sha256 key (daemon_message id (PublicKey_to_text daemon_key))).
Definition broker_proof (key : bytes) (id : ChannelId) (daemon_key broker_key : PublicKey) : str :=
  hex_encode (hmac_sha256 key
  (broker_message id (PublicKey_to_text daemon_key) (PublicKey_to_text broker_key))).
Definition verify_daemon_proof (key : bytes) (id : ChannelId) (daemon_key : PublicKey) (presented : str) : bool :=
  proofs_equal (daemon_proof key id daemon_key) presented.
Definition verify_broker_proof (key : bytes) (id : ChannelId) (daemon_key broker_key : PublicKey)
  (presented : str) : bool := proofs_equal (broker_proof key id daemon_key broker_key) presented.

(** [fingerprint]: eight groups of four hexadecimal digits. *)
Definition fingerprint (key : PublicKey) : str :=
  let hex := hex_encode (take 16 (sha256 key)) in
  join (lit ":") (omap (fun i => if Nat.leb (4 * i + 4) (length hex) then Some (take 4 (drop (4 * i) hex)) else None)
                  (seq 0 8)).
End crypto.

(** ** The tables *)

Record DaemonRow := mkDaemonRow {
  da_id : N;
  da_role : ChannelRole;
  da_name : str;
  da_public_key : str;
  da_paired_at : Instant;
  da_last_seen : option Instant;
  da_version : option str;
  da_last_status : option Value;
  da_created_at : Instant;
  da_updated_at : Instant;
}.
Record PairingCodeRow := mkCode {
  pc_id : N;
  pc_role : ChannelRole;
  pc_name : str;
  pc_key : str;
  pc_expires_at : Instant;
  pc_used_at : option Instant;
  pc_failed : N;
  pc_created_at : Instant;
}.

Record Daemons := mkDaemons { ds_daemons : list DaemonRow; ds_codes : list PairingCodeRow }.
Definition with_daemons (d : Daemons) (rows : list DaemonRow) : Daemons := mkDaemons rows (ds_codes d).
Definition with_codes (d : Daemons) (rows : list PairingCodeRow) : Daemons := mkDaemons (ds_daemons d) rows.

Definition by_name (d : Daemons) (r : ChannelRole) (name : str) : option DaemonRow :=
  find (fun x => bool_decide (da_role x = r) && str_eqb (da_name x) name) (ds_daemons d).
Definition get_daemon (d : Daemons) (id : N) : option DaemonRow :=
  find (fun x => N.eqb (da_id x) id) (ds_daemons d).

(** [UPDATE ... WHERE ...]: every row the condition holds of, and how many. *)
Definition update_where {A} (p : A -> bool) (f : A -> A) (rows : list A) : list A * nat :=
  (map (fun x => if p x then f x else x) rows, length (List.filter p rows)).

Definition code_of (r : ChannelRole) (name : str) (c : PairingCodeRow) : bool :=
  bool_decide (pc_role c = r) && str_eqb (pc_name c) name.
Definition used (now : Instant) (c : PairingCodeRow) : PairingCodeRow :=
  mkCode (pc_id c) (pc_role c) (pc_name c) (pc_key c) (pc_expires_at c) (Some now) (pc_failed c) (pc_created_at c).
Definition tried (c : PairingCodeRow) : PairingCodeRow :=
  mkCode (pc_id c) (pc_role c) (pc_name c) (pc_key c) (pc_expires_at c) (pc_used_at c) (pc_failed c + 1)
    (pc_created_at c).

Definition burn_codes (d : Daemons) (r : ChannelRole) (name : str) (now : Instant) : Daemons * nat :=
  let '(rows, n) := update_where (fun c => code_of r name c && is_none (pc_used_at c)) (used now) (ds_codes d) in
  (with_codes d rows, n).

(** The CHECKs of [daemon_pairing_codes] and its unique indexes: the id, and
    one unused code for a daemon. *)
Definition code_checks (c : PairingCodeRow) : bool :=
  bool_decide (ChannelName_parse (pc_name c) = Some (pc_name c))
  && Nat.eqb (length (pc_key c)) 64 && forallb hex_lower (pc_key c).
Definition insert_code (d : Daemons) (c : PairingCodeRow) : result StoreError Daemons :=
  if negb (code_checks c) then Err (Db CheckViolation)
  else if existsb (fun x => N.eqb (pc_id x) (pc_id c)
                            || code_of (pc_role c) (pc_name c) x && is_none (pc_used_at x)) (ds_codes d)
  then Err (Db UniqueViolation)
  else Ok (with_codes d (ds_codes d ++ [c])).

Definition issue_code (d : Daemons) (id : N) (r : ChannelRole) (name key : str) (expires now : Instant)
  : result StoreError Daemons :=
  let '(d, _) := burn_codes d r name now in
  insert_code d (mkCode id r name key expires None 0 now).

(** The newest of the rows ([ORDER BY created_at DESC LIMIT 1]). *)
Fixpoint newest (rows : list PairingCodeRow) : option PairingCodeRow :=
  match rows with
  | [] => None
  | c :: rows =>
      match newest rows with
      | Some c' => if Z.ltb (pc_created_at c) (pc_created_at c') then Some c' else Some c
      | None => Some c
      end
  end.
Definition code_live (r : ChannelRole) (name : str) (now : Instant) (max : N) (c : PairingCodeRow) : bool :=
  code_of r name c && is_none (pc_used_at c) && Z.ltb now (pc_expires_at c) && N.ltb (pc_failed c) max.
Definition live_code (d : Daemons) (r : ChannelRole) (name : str) (now : Instant) (max : N)
  : result StoreError (option PairingCodeRow) :=
  max ← to_i32 max;
  Ok (newest (List.filter (code_live r name now max) (ds_codes d))).

Definition spend_attempt (d : Daemons) (code max : N) : result StoreError (bool * Daemons) :=
  max ← to_i32 max;
  let '(rows, n) := update_where
    (fun c => N.eqb (pc_id c) code && is_none (pc_used_at c) && N.ltb (pc_failed c) max) tried (ds_codes d) in
  Ok (Nat.eqb n 1, with_codes d rows).

Definition claim_code (d : Daemons) (code : N) (now : Instant) : bool * Daemons :=
  let '(rows, n) := update_where (fun c => N.eqb (pc_id c) code && is_none (pc_used_at c)) (used now) (ds_codes d) in
  (Nat.eqb n 1, with_codes d rows).

(** The CHECKs of [daemons]. *)
Definition daemon_checks (r : DaemonRow) : bool :=
  bool_decide (ChannelName_parse (da_name r) = Some (da_name r))
  && Nat.leb 1 (length (da_public_key r)) && Nat.leb (length (da_public_key r)) 128.
Definition repaired (public_key : str) (now : Instant) (x : DaemonRow) : DaemonRow :=
  mkDaemonRow (da_id x) (da_role x) (da_name x) public_key now (da_last_seen x) (da_version x) None
    (da_created_at x) now.
Definition insert_daemon (d : Daemons) (x : DaemonRow) : result StoreError (DaemonRow * Daemons) :=
  if negb (daemon_checks x) then Err (Db CheckViolation)
  else if negb (is_none (get_daemon d (da_id x))) || negb (is_none (by_name d (da_role x) (da_name x)))
  then Err (Db UniqueViolation)
  else Ok (x, with_daemons d (ds_daemons d ++ [x])).
Definition upsert_paired (d : Daemons) (id : N) (r : ChannelRole) (name public_key : str) (now : Instant)
  : result StoreError (DaemonRow * Daemons) :=
  let fresh := mkDaemonRow id r name public_key now None None None now now in
  match by_name d r name with
  | Some x =>
      if negb (daemon_checks fresh) then Err (Db CheckViolation)
      else
        let x' := repaired public_key now x in
        Ok (x', with_daemons d (map (fun y => if N.eqb (da_id y) (da_id x) then x' else y) (ds_daemons d)))
  | None => insert_daemon d fresh
  end.

Definition import_daemon (d : Daemons) (x : DaemonRow) (now : Instant) : result StoreError (DaemonRow * Daemons) :=
  insert_daemon d (mkDaemonRow (da_id x) (da_role x) (da_name x) (da_public_key x) (da_paired_at x)
    (da_last_seen x) None None (da_created_at x) now).

Definition unpair_row (d : Daemons) (id : N) (now : Instant) : option DaemonRow * Daemons :=
  match get_daemon d id with
  | None => (None, d)
  | Some x =>
      let d := with_daemons d (List.filter (fun y => negb (N.eqb (da_id y) id)) (ds_daemons d)) in
      (Some x, (burn_codes d (da_role x) (da_name x) now).1)
  end.

Definition seen (now : Instant) (version : option str) (status : option Value) (x : DaemonRow) : DaemonRow :=
  mkDaemonRow (da_id x) (da_role x) (da_name x) (da_public_key x) (da_paired_at x) (Some now)
    (match version with Some v => Some v | None => da_version x end)
    (match status with Some s => Some s | None => da_last_status x end) (da_created_at x) now.
Definition store_hello (d : Daemons) (id : N) (now : Instant) (version : option str) : bool * Daemons :=
  let '(rows, n) := update_where (fun x => N.eqb (da_id x) id) (seen now version None) (ds_daemons d) in
  (Nat.eqb n 1, with_daemons d rows).
Definition store_heartbeat (d : Daemons) (id : N) (public_key : str) (status : Value) (version : option str)
  (now : Instant) : bool * Daemons :=
  let '(rows, n) := update_where (fun x => N.eqb (da_id x) id && str_eqb (da_public_key x) public_key)
    (seen now version (Some status)) (ds_daemons d) in
  (Nat.eqb n 1, with_daemons d rows).

(** ** The broker's side *)

Inductive PairingError :=
| PairingDisabled | PairingInvalid (text : str) | PairingRefused | PairingInternal (text : str).

Definition SANDBOX_NAME_TEXT : str :=
  lit "an agent VM's name has no '-' (its agents are <runtime>-<project>-<name>-sandbox)".
Definition sandbox_name_ok (id : ChannelId) : result PairingError unit :=
  if bool_decide (ci_role id = RSandbox) && elem_b (ch "-") (ci_name id)
  then Err (PairingInvalid SANDBOX_NAME_TEXT) else Ok tt.
Definition identity (role name : str) : result PairingError ChannelId :=
  role ← ok_or (ChannelRole_parse role) (PairingInvalid (lit "role must be one of host, sandbox"));
  name ← ok_or (ChannelName_parse name)
    (PairingInvalid (lit "name must be a lowercase hostname label ([a-z0-9-], ≤63)"));
  let id := mkChannelId role name in
  sandbox_name_ok id;;
  Ok id.

Definition KeyParseError_text (e : KeyParseError) : str :=
  match e with
  | SigningKeyNotBase64 => lit "signing key is not base64"
  | SigningKeyLength => lit "signing key must be a 32-byte ed25519 seed"
  | PublicKeyPrefix => lit "public key must start with 'ed25519:'"
  | PublicKeyNotBase64 => lit "public key is not base64"
  | PublicKeyLength => lit "public key must be 32 bytes"
  | PublicKeyWeak => lit "public key is a small-order point"
  end.

Record DaemonsConfig := mkDaemonsConfig {
  dc_signing_key : option SigningKey;
  dc_heartbeat_secs : N;
  dc_code_ttl_secs : N;
  dc_max_attempts : N;
}.
Record PairBody := mkPairBody {
  pb_role : str; pb_name : str; pb_public_key : str; pb_selector : str; pb_proof : str }.
Record Paired := mkPaired { pd_broker_key : str; pd_proof : str; pd_fingerprint : str }.

Section broker.
Context `{Sha256, HmacSha256, Hex, UnicodeUpper, Base64, Ed25519}.
Variable config : DaemonsConfig.

Definition db_failed {A} (r : result StoreError A) : result PairingError A :=
  map_err (fun _ => PairingInternal []) r.

(** [create_pairing_code]; the code, the expiry, and the tables. *)
Definition create_pairing_code (d : Daemons) (id : ChannelId) (code_id : N) (source : bytes) (now : Instant)
  : result PairingError (str * Instant * Daemons) :=
  if is_none (dc_signing_key config) then Err PairingDisabled
  else
  sandbox_name_ok id;;
  code ← ok_or (generate_pairing_code source) (PairingInternal []);
  let expires := Z.min MAX_INSTANT (now + seconds (dc_code_ttl_secs config)) in
  d ← db_failed (issue_code d code_id (ci_role id) (ci_name id) (to_hex (from_code code)) expires now);
  Ok (code, expires, d).

(** An attempt whose first transaction spent it: what its second works
    with. *)
Record Attempt := mkAttempt {
  at_id : ChannelId; at_key : PublicKey; at_code : PairingCodeRow; at_hmac : bytes; at_proof : str }.

(** The first transaction of [pair]: the live code is found by its
    selector, and an attempt is spent. A refusal before [spend_attempt]
    commits nothing. *)
Definition pair_begin (d : Daemons) (body : PairBody) (now : Instant) : result PairingError Attempt * Daemons :=
  let checked :=
  _ ← ok_or (dc_signing_key config) PairingDisabled;
  id ← identity (pb_role body) (pb_name body);
  key ← map_err (fun e => PairingInvalid (KeyParseError_text e)) (PublicKey_parse (pb_public_key body));
  code ← db_failed (live_code d (ci_role id) (ci_name id) now (dc_max_attempts config));
  code ← ok_or code PairingRefused;
  hmac ← ok_or (from_hex (pc_key code)) (PairingInternal (lit "stored pairing key is not hex"));
  if selector_matches hmac (pb_selector body) then Ok (mkAttempt id key code hmac (pb_proof body))
  else Err PairingRefused in
  match checked with
  | Err e => (Err e, d)
  | Ok a =>
    match spend_attempt d (pc_id (at_code a)) (dc_max_attempts config) with
    | Err _ => (Err (PairingInternal []), d)
    | Ok (spent, d) => if spent then (Ok a, d) else (Err PairingRefused, d)
    end
  end.

(** The proof is checked, then the second transaction claims the code and
    binds the key. *)
Definition pair_finish (d : Daemons) (a : Attempt) (row_id : N) (now : Instant)
  : result PairingError DaemonRow * Daemons :=
  if negb (verify_daemon_proof (at_hmac a) (at_id a) (at_key a) (at_proof a)) then (Err PairingRefused, d)
  else
  let '(claimed, d') := claim_code d (pc_id (at_code a)) now in
  if negb claimed then (Err PairingRefused, d)
  else
    match upsert_paired d' row_id (ci_role (at_id a)) (ci_name (at_id a)) (PublicKey_to_text (at_key a)) now with
    | Err _ => (Err (PairingInternal []), d)
    | Ok (row, d') => (Ok row, d')
    end.
Definition paired_answer (signing : SigningKey) (a : Attempt) : Paired :=
  let broker_key := public_key signing in
  mkPaired (PublicKey_to_text broker_key) (broker_proof (at_hmac a) (at_id a) (at_key a) broker_key)
  (fingerprint (at_key a)).
End broker.

(** [unpair_disabling]: the agents of an agent VM are disabled with what
    they minted, and the daemon's row goes, in one transaction. *)
Section unpair.
Context `{DateLib}.
Fixpoint disable_trees (agents : list AgentId) (now : Instant) : tx StoreError (list str) :=
  match agents with
  | [] => tx_ret []
  | a :: agents =>
    let! names := disable_tree a now Unpaired in
    let! rest := disable_trees agents now in
    tx_ret (names ++ rest)
  end.
Definition enabled_in (sandbox : DaemonId) : tx StoreError (list AgentId) :=
  let! agents := list_in_sandbox sandbox in
  tx_ret (fold_right insert_id [] (map ag_id (List.filter (fun a => negb (ag_disabled a)) agents))).
Definition unpair_disabling (id : N) (now : Instant) (db : Database) (d : Daemons)
  : result StoreError (option (list str)) * Database * Daemons :=
  match (let! agents := enabled_in id in disable_trees agents now) db with
  | Err e => (Err e, db, d)
  | Ok (names, db) =>
    let '(row, d) := unpair_row d id now in
    (Ok (match row with Some _ => Some (set_of_list names) | None => None end), db, d)
  end.
End unpair.

(** ** The daemon's side *)

Inductive PairingFailed :=
| FRefused (status : N) (detail : str) | NotAnObject | WrongBrokerKey | BadProof | Unreachable (why : str).
Record Identity := mkIdentity { idn_id : ChannelId; idn_key : SigningKey; idn_broker_key : PublicKey }.

Section daemon_side.
Context `{Sha256, HmacSha256, Hex, UnicodeUpper, Base64, Ed25519, JsonRead}.

(** The request [pair] makes with a code. *)
Definition pair_request (i : Identity) (code : str) : PairBody :=
  let key := from_code code in
  let public := public_key (idn_key i) in
  mkPairBody (ChannelRole_as_str (ci_role (idn_id i))) (ci_name (idn_id i)) (PublicKey_to_text public) (selector key)
  (daemon_proof key (idn_id i) public).

Definition check_response (i : Identity) (key : bytes) (status : N) (text : str) : result PairingFailed str :=
  let data := json_from_slice (as_bytes text) in
  if negb (N.eqb status 200) then
  Err (FRefused status
    (match (match data with Some d => value_get d (lit "detail") ≫= as_str | None => None end) with
     | Some t => t | None => take 200 text end))
  else
  match data with
  | Some (VObject data) =>
      let pinned := PublicKey_to_text (idn_broker_key i) in
      if negb (bool_decide ((map_get (lit "broker_public_key") data ≫= as_str) = Some pinned))
      then Err WrongBrokerKey
      else
        let expected := broker_proof key (idn_id i) (public_key (idn_key i)) (idn_broker_key i) in
        let given := default [] (map_get (lit "proof") data ≫= as_str) in
        if negb (proofs_equal expected given) then Err BadProof
        else Ok (fingerprint (public_key (idn_key i)))
  | _ => Err NotAnObject
  end.
End daemon_side.
