(* ===== verification/SecretBox.v ===== *)
(** Encryption at rest and sealed cookies ([crates/crypto/src/secretbox.rs],
    [crates/broker/src/webui/cookies.rs]), and the signatures on webhooks
    ([crates/crypto/src/webhook.rs]). The cipher and HMAC are [ring]'s. *)

From S2P Require Import Prelude Json Durations Pool Mail Eval HostTypes TotpCode F64 Transcript Envelope Hello Pairing CanonicalJson P256 Jwt Store.
From stdpp Require Import options.
#[local] Set Default Proof Using "Type*".

(** ChaCha20-Poly1305, with its tag at the end: key, nonce, associated data.
    What opens is what was sealed, and the plaintext is a matter of the key,
    the nonce and the ciphertext alone. *)
Class Aead := {
  aead_seal : bytes -> bytes -> bytes -> bytes -> option bytes;
  aead_open : bytes -> bytes -> bytes -> bytes -> option bytes;
}.
Class AeadLaws `{!Aead} : Prop := {
  aead_roundtrip key nonce aad plain body : aead_seal key nonce aad plain = Some body ->
    aead_open key nonce aad body = Some plain;
  aead_stream key nonce aad aad' body plain plain' :
    aead_open key nonce aad body = Some plain -> aead_open key nonce aad' body = Some plain' -> plain = plain';
  aead_length key nonce aad plain body : aead_seal key nonce aad plain = Some body ->
    length body = length plain + 16 /\ Forall is_byte body;
}.

(** ** The box *)

Definition VERSION : N := 1.
Definition CONTEXT : bytes := as_bytes (lit "agent-auth/v1/secretbox").
Definition NONCE_LEN : nat := 12.
Definition TAG_LEN : nat := 16.
Record Binding := mkBinding { bi_table : str; bi_column : str; bi_row : str }.
Definition aad (b : Binding) : bytes :=
  transcript [CONTEXT; [VERSION]; as_bytes (bi_table b); as_bytes (bi_column b); as_bytes (bi_row b)].

(** The key's 32 bytes. *)
Record SecretBox := mkBox { sb_key : bytes }.

Section box.
Context `{Base64, Ring, Aead}.

Definition SecretBox_from_base64 (text : str) : option SecretBox := mkBox <$> decode_key32 text.
Definition SecretBox_derived (master : str) (info : bytes) : option SecretBox :=
  raw ← decode_key32 master; okm ← hkdf_sha256 raw info 32; Some (mkBox okm).

(** [seal]; [nonce] is what the random source gave. *)
Definition box_seal (b : SecretBox) (plaintext : bytes) (binding : Binding) (nonce : option bytes) : option str :=
  nonce ← nonce;
  body ← aead_seal (sb_key b) nonce (aad binding) plaintext;
  Some (b64url_encode (VERSION :: nonce ++ body)).
Definition open_blob (b : SecretBox) (blob : bytes) (binding : Binding) : option bytes :=
  match blob with
  | [] => None
  | version :: rest =>
      if negb (N.eqb version VERSION) || Nat.ltb (length rest) (NONCE_LEN + TAG_LEN) then None
      else aead_open (sb_key b) (take NONCE_LEN rest) (aad binding) (drop NONCE_LEN rest)
  end.
Definition box_open (b : SecretBox) (text : str) (binding : Binding) : option bytes :=
  blob ← b64url_decode text; open_blob b blob binding.
End box.

(** ** Sealed cookies *)

Definition KEY_INFO : bytes := as_bytes (lit "agent-auth admin panel session").
Definition MAX_COOKIE_CHARS : N := 8192.
Definition SKEW_SECS : Z := 60.
Inductive Kind := KLogin | KSession | KConsent.
#[export] Instance Kind_eq_dec : EqDecision Kind.
Proof. solve_decision. Defined.
Definition Kind_as_str (k : Kind) : str :=
  match k with KLogin => lit "login" | KSession => lit "session" | KConsent => lit "consent" end.
Definition binding_of (k : Kind) : Binding := mkBinding (lit "cookie") (Kind_as_str k) (lit "agent-auth web").

(** [unix_timestamp]: whole seconds, down. *)
Definition unix_timestamp (now : Instant) : Z := now / 1000000000.

Section cookies.
Context `{Base64, Ring, Aead, RustFmt, JsonRead}.

Definition Sealer_new (encryption_key : str) : option SecretBox := SecretBox_derived encryption_key KEY_INFO.
Definition cookie_body (k : Kind) (data : Value) (issued : Z) : Value :=
  json_obj [(lit "k", VString (Kind_as_str k)); (lit "t", json_int issued); (lit "d", data)].
Definition cookie_seal (s : SecretBox) (k : Kind) (data : Value) (now : Instant) (nonce : option bytes) : option str :=
  box_seal s (as_bytes (value_display (cookie_body k data (unix_timestamp now)))) (binding_of k) nonce.
(** [checked_sub] of [i64]s. *)
Definition i64_checked_sub (a b : Z) : option Z :=
  let d := (a - b)%Z in if Z.leb (- 2 ^ 63) d && Z.ltb d (2 ^ 63) then Some d else None.
Definition cookie_open (s : SecretBox) (k : Kind) (value : str) (max_age_secs : Z) (now : Instant) : option Value :=
  if match value with [] => true | _ => false end || N.ltb MAX_COOKIE_CHARS (N.of_nat (str_len value)) then None
  else
    plain ← box_open s value (binding_of k);
    body ← json_from_slice plain;
    kind ← value_get body (lit "k") ≫= as_str;
    if negb (str_eqb kind (Kind_as_str k)) then None
    else
      issued ← value_get body (lit "t") ≫= as_i64;
      age ← i64_checked_sub (unix_timestamp now) issued;
      if Z.ltb age (- SKEW_SECS) || Z.ltb max_age_secs age then None
      else value_get body (lit "d").
End cookies.

(** ** Cookie headers *)

(** A request's headers, in order: lowercase names and the values' bytes. *)
Definition Headers : Type := list (str * bytes).
Definition get_all (h : Headers) (name : str) : list bytes :=
  map snd (List.filter (fun kv => str_eqb kv.1 name) h).
Definition header_get (h : Headers) (name : str) : option bytes := head (get_all h name).
(** [HeaderValue::to_str]: visible ASCII and tabs. *)
Definition visible (b : N) : bool := in_range 32 126 b || N.eqb b 9.
Definition header_text (b : bytes) : option str := if forallb visible b then Some b else None.

Definition cookie_pairs (h : Headers) : list (str * str) :=
  omap (fun pair => split_once (ch "=") (trim pair))
    (flat_map (split (ch ";")) (omap header_text (get_all h (lit "cookie")))).
Definition cookie_get (h : Headers) (name : str) : option str :=
  (fun kv => trim kv.2) <$> find (fun kv => str_eqb kv.1 name) (cookie_pairs h).
Definition cookie_set (name value path : str) (max_age : Z) : str :=
  name ++ lit "=" ++ value ++ lit "; Max-Age=" ++ show_Z max_age ++ lit "; Path=" ++ path
  ++ lit "; Secure; HttpOnly; SameSite=Lax".
Definition cookie_delete (name path : str) : str :=
  name ++ qlit "=``; expires=Thu, 01 Jan 1970 00:00:00 GMT; Max-Age=0; Path=" ++ path
  ++ lit "; Secure; HttpOnly; SameSite=Lax".

(** ** Webhook signatures *)

Definition SIGNATURE_PREFIX : str := lit "sha256=".
Section webhook.
Context `{HmacSha256, Hex}.
Definition sign_body (secret body : bytes) : str := SIGNATURE_PREFIX ++ hex_encode (hmac_sha256 secret body).
Definition verify_body (secret body : bytes) (header : str) : bool :=
  match (h ← strip_prefix SIGNATURE_PREFIX (trim header); hex_decode h) with
  | None => false
  | Some mac => bool_decide (mac = hmac_sha256 secret body)
  end.
Definition timestamped_message (timestamp : Z) (body : bytes) : bytes := as_bytes (show_Z timestamp ++ lit ".") ++ body.
Definition sign_timestamped (secret : bytes) (timestamp : Z) (body : bytes) : str :=
  sign_body secret (timestamped_message timestamp body).
(** [parse::<i64>] of digits alone. *)
Definition parse_digits_i64 (t : str) : option Z :=
  let z := Z.of_N (digits_value t) in if Z.ltb z (2 ^ 63) then Some z else None.
Definition verify_timestamped (secret : bytes) (timestamp_header : str) (body : bytes) (signature_header : str)
  (now : Z) (tolerance_secs : N) : bool :=
  let t := trim timestamp_header in
  if match t with [] => true | _ => false end || negb (forallb is_ascii_digit t) then false
  else match parse_digits_i64 t with
       | None => false
       | Some timestamp =>
           if N.ltb tolerance_secs (Z.to_N (Z.abs (now - timestamp))) then false
           else verify_body secret (timestamped_message timestamp body) signature_header
       end.
End webhook.

(** ** Sealed and opened *)

Section box_facts.
Context `{Base64Laws, !Ring, !Aead, !AeadLaws}.

(** A box opens what it sealed; and whatever binding its text opens under,
    the plaintext is the one sealed. *)
Lemma box_seal_some b plain binding nonce text : box_seal b plain binding nonce = Some text ->
  exists n body, nonce = Some n /\ aead_seal (sb_key b) n (aad binding) plain = Some body /\
  text = b64url_encode (VERSION :: n ++ body).
Proof.
  unfold box_seal. destruct nonce as [n|]; [|done]. cbn [mbind option_bind].
  destruct (aead_seal _ _ _ _) as [body|] eqn:E; [|done]. intros [= <-]. by exists n, body.
Qed.
Lemma box_open_text b n body binding : Forall is_byte n -> length n = NONCE_LEN -> Forall is_byte body ->
  TAG_LEN <= length body ->
  box_open b (b64url_encode (VERSION :: n ++ body)) binding = aead_open (sb_key b) n (aad binding) body.
Proof.
  intros Hn Hln Hb Hlb. unfold box_open. rewrite b64_roundtrip by (constructor; [done|by apply Forall_app]).
  cbn [mbind option_bind open_blob]. rewrite N.eqb_refl. cbn [negb orb].
  rewrite (proj2 (Nat.ltb_ge _ _)) by (rewrite length_app, Hln; lia).
  by rewrite take_app_length', drop_app_length' by done.
Qed.
Lemma box_open_seal b plain binding binding' n text plain' :
  Forall is_byte n -> length n = NONCE_LEN ->
  box_seal b plain binding (Some n) = Some text ->
  box_open b text binding = Some plain /\ (box_open b text binding' = Some plain' -> plain' = plain).
Proof.
  intros Hn Hl (n' & body & [= <-] & Hs & ->)%box_seal_some. pose proof (aead_roundtrip _ _ _ _ _ Hs) as Ho.
  destruct (aead_length _ _ _ _ _ Hs) as [Hlen Hb]. rewrite !box_open_text by (done || unfold TAG_LEN; lia).
  split; [done|]. intros Ho'. symmetry. by eapply aead_stream.
Qed.
End box_facts.

Section cookie_facts.
Context `{Base64Laws, !Ring, !Aead, !AeadLaws, JsonReadLaws}.

Lemma Kind_as_str_inj a b : Kind_as_str a = Kind_as_str b -> a = b.
Proof. by destruct a, b. Qed.
(** What a cookie may carry. *)
Definition cookie_fits (data : Value) : Prop := json_valid data /\ S (json_depth data) <= RECURSION_LIMIT.
Lemma cookie_body_ok k data issued : cookie_fits data -> (- 2 ^ 63 <= issued < 2 ^ 63)%Z ->
  json_valid (cookie_body k data issued) /\ json_depth (cookie_body k data issued) <= RECURSION_LIMIT.
Proof.
  intros [Hv Hd] Hi. unfold cookie_body, json_obj, map_of_list. cbn [fold_left fst snd].
  assert (Hk : valid_str (Kind_as_str k)) by (by destruct k; apply lit_valid).
  pose proof (json_int_valid issued Hi) as Hj.
  split.
  - apply json_valid_object. split; [by repeat apply map_insert_sorted|].
    repeat apply map_insert_Forall; try done; cbn [fst snd]; (split; [by apply lit_valid|done]).
  - change (map_insert (lit "d") data _) with [(lit "d", data); (lit "k", VString (Kind_as_str k)); (lit "t", json_int issued)].
    cbn [json_depth fold_right snd]. unfold json_int. cbn [json_depth]. lia.
Qed.

(** A sealed cookie opens as its own kind, within its age, as what was
    sealed; as any other kind or later it does not. *)
Lemma cookie_open_seal s k data now n value k' max_age now' :
  Forall is_byte n -> length n = NONCE_LEN -> cookie_fits data -> (- 2 ^ 63 <= unix_timestamp now < 2 ^ 63)%Z ->
  cookie_seal s k data now (Some n) = Some value ->
  forall data', cookie_open s k' value max_age now' = Some data' ->
  k' = k /\ data' = data /\ (- SKEW_SECS <= unix_timestamp now' - unix_timestamp now <= max_age)%Z.
Proof.
  intros Hn Hl Hf Hi Hs data'. unfold cookie_open. destruct (_ || _); [done|].
  destruct (box_open s value (binding_of k')) as [plain|] eqn:Eo; cbn [mbind option_bind]; [|done].
  apply (box_open_seal _ _ _ (binding_of k') _ _ plain Hn Hl) in Hs as [_ Hs]. specialize (Hs Eo) as ->.
  destruct (cookie_body_ok k data (unix_timestamp now) Hf Hi) as [Hv Hd].
  rewrite json_read_back, (proj2 (Nat.leb_le _ _)) by done. cbn [mbind option_bind].
  change (value_get (cookie_body k data (unix_timestamp now)) (lit "k")) with (Some (VString (Kind_as_str k))).
  change (value_get (cookie_body k data (unix_timestamp now)) (lit "t")) with (Some (json_int (unix_timestamp now))).
  change (value_get (cookie_body k data (unix_timestamp now)) (lit "d")) with (Some data).
  cbn [mbind option_bind as_str]. destruct (str_eqb _ _) eqn:Ek; cbn [negb]; [|done].
  apply str_eqb_true, Kind_as_str_inj in Ek as ->.
  rewrite as_i64_int by done. cbn [mbind option_bind]. unfold i64_checked_sub. destruct (_ && _); [|done]. cbn [mbind option_bind].
  destruct (Z.ltb_spec (unix_timestamp now' - unix_timestamp now) (- SKEW_SECS)); [done|].
  destruct (Z.ltb_spec max_age (unix_timestamp now' - unix_timestamp now)); [done|]. cbn [orb]. intros [= <-]. split_and!; [done..| |]; lia.
Qed.
End cookie_facts.

(** ** Signed and verified *)

Section webhook_facts.
Context `{HexLaws, !HmacSha256}.

Lemma hex_solid b : Forall is_byte b -> Forall (fun c => is_whitespace c = false) (hex_encode b).
Proof.
  intros Hb. eapply Forall_impl; [by apply hex_digits|]. cbn. intros c Hc.
  assert (Hr : (ch "0" <= c <= ch "9" \/ ch "a" <= c <= ch "f")%N).
  { apply orb_true_iff in Hc as [Hc|Hc]; unfold is_ascii_digit, in_range in Hc;
      apply andb_true_iff in Hc as [?%N.leb_le ?%N.leb_le]; [left|right]; done. }
  unfold is_whitespace, in_range. cbn in *.
  repeat match goal with |- context [N.leb ?a ?b] => destruct (N.leb_spec a b) | |- context [N.eqb ?a ?b] => destruct (N.eqb_spec a b) end;
    cbn; try done; lia.
Qed.
Lemma verify_body_signed secret body body' : Forall is_byte (hmac_sha256 secret body) ->
  verify_body secret body' (sign_body secret body) = true <-> hmac_sha256 secret body = hmac_sha256 secret body'.
Proof.
  intros Hb. unfold verify_body, sign_body. rewrite trim_no_ws.
  2: { apply Forall_app. split; [by repeat constructor|by apply hex_solid]. }
  rewrite strip_prefix_app. cbn [mbind option_bind]. rewrite hex_roundtrip by done. by rewrite bool_decide_eq_true.
Qed.
(** A ping verifies within the tolerance of its own time, and not outside. *)
Lemma ping_verifies secret timestamp body now tolerance : (0 <= timestamp < 2 ^ 63)%Z ->
  Forall is_byte (hmac_sha256 secret (timestamped_message timestamp body)) ->
  verify_timestamped secret (show_Z timestamp) body (sign_timestamped secret timestamp body) now tolerance
  = Z.leb (Z.abs (now - timestamp)) (Z.of_N tolerance).
Proof.
  intros Ht Hb. assert (Es : show_Z timestamp = show_N (Z.to_N timestamp)).
  { unfold show_Z. by rewrite (proj2 (Z.ltb_ge _ _)) by lia. }
  pose proof (show_N_digits (Z.to_N timestamp)) as Hd. unfold verify_timestamped. rewrite Es.
  rewrite trim_no_ws.
  2: { eapply Forall_impl; [exact Hd|]. cbn. intros c Hc. by apply digit_not_ws. }
  destruct (show_N_nonempty (Z.to_N timestamp)) as (c & t & En & _). rewrite En. cbn [orb]. rewrite <- En. rewrite (proj2 (forallb_forall _ _)).
  2: { intros x Hx%list_elem_of_In. rewrite Forall_forall in Hd. by apply Hd. }
  cbn [negb]. unfold parse_digits_i64. rewrite show_N_value, Z2N.id by lia. rewrite (proj2 (Z.ltb_lt _ _)) by lia.
  destruct (N.ltb_spec tolerance (Z.to_N (Z.abs (now - timestamp)))) as [Hlt|Hle].
  - symmetry. apply Z.leb_gt. lia.
  - rewrite (proj2 (Z.leb_le _ _)) by lia. unfold sign_timestamped. by apply verify_body_signed.
Qed.
End webhook_facts.
