(* ===== verification/DaemonHub.v ===== *)
(** The broker's end of the daemons' channels ([crates/broker/src/daemons/]:
    [mod.rs], [channel.rs]): the registry of live connections and
    generations under its lock, the hello a connection begins with, sends,
    calls and their replies, heartbeats, and the bounded handshake slots.
    What runs under one lock or in one transaction is one definition. *)

From stdpp Require Import gmap.
From S2P Require Import Prelude Json Pool Eval HostTypes TotpCode F64 Transcript Envelope Hello CanonicalJson Store Pairing.
From stdpp Require Import options.

#[export] Instance ChannelId_countable : Countable ChannelId.
Proof.
  refine (inj_countable'
    (fun id => (match ci_role id with RHost => true | RSandbox => false end, ci_name id))
    (fun x => mkChannelId (if x.1 : bool then RHost else RSandbox) x.2) _).
  by intros [[] n].
Defined.

Definition MAX_PENDING_HANDSHAKES : nat := 32.
Definition MAX_PENDING_PER_PEER : N := 4.
Definition MISSED_HEARTBEATS : N := 3.
Definition MAX_STATUS_BYTES : N := 16 * 1024.
Definition CLOSE_BAD_HELLO : N := 4400.
Definition CLOSE_UNAUTHORIZED : N := 4401.
Definition CLOSE_REPLACED : N := 4409.
Definition CLOSE_STALLED : N := 4408.

(** [DaemonPeer]: a paired daemon whose hello verified on this connection. *)
Record DaemonPeer := mkPeer { pe_row : N; pe_id : ChannelId; pe_public_key : PublicKey }.

(** [Live]; [Arc::ptr_eq] compares the number a connection is known by. *)
Record Live := mkLive {
  lv_peer : DaemonPeer;
  lv_generation : N;
  lv_sealer : EnvelopeSealer;
  lv_close : option (N * str);
  lv_last_status_write : option Instant;
  lv_stalled : bool;
}.
Definition lv_closed (why : N * str) (l : Live) : Live :=
  mkLive (lv_peer l) (lv_generation l) (lv_sealer l) (Some why) (lv_last_status_write l) (lv_stalled l).
Definition lv_with_sealer (s : EnvelopeSealer) (l : Live) : Live :=
  mkLive (lv_peer l) (lv_generation l) s (lv_close l) (lv_last_status_write l) (lv_stalled l).
Definition lv_with_stalled (l : Live) : Live :=
  mkLive (lv_peer l) (lv_generation l) (lv_sealer l) (lv_close l) (lv_last_status_write l) true.
Definition lv_with_written (now : Instant) (l : Live) : Live :=
  mkLive (lv_peer l) (lv_generation l) (lv_sealer l) (lv_close l) (Some now) (lv_stalled l).

(** The hub: every connection there is, the registry's two maps, the calls
    waiting for their replies, and the pending handshakes by address. *)
Record Hub := mkHub {
  hb_conns : gmap N Live;
  hb_live : gmap ChannelId N;
  hb_generation : gmap ChannelId N;
  hb_calls : gmap str ChannelId;
  hb_pending : gmap str N;
}.
Definition with_conns (h : Hub) (x : gmap N Live) : Hub := mkHub x (hb_live h) (hb_generation h) (hb_calls h) (hb_pending h).
Definition with_live (h : Hub) (x : gmap ChannelId N) : Hub :=
  mkHub (hb_conns h) x (hb_generation h) (hb_calls h) (hb_pending h).
Definition with_generation (h : Hub) (x : gmap ChannelId N) : Hub :=
  mkHub (hb_conns h) (hb_live h) x (hb_calls h) (hb_pending h).
Definition with_calls (h : Hub) (x : gmap str ChannelId) : Hub :=
  mkHub (hb_conns h) (hb_live h) (hb_generation h) x (hb_pending h).
Definition with_pending (h : Hub) (x : gmap str N) : Hub :=
  mkHub (hb_conns h) (hb_live h) (hb_generation h) (hb_calls h) x.
Definition Hub_new : Hub := mkHub ∅ ∅ ∅ ∅ ∅.

(** ** The registry *)

Definition generation (h : Hub) (k : ChannelId) : N := default 0%N (hb_generation h !! k).
Definition close_conn (c : N) (why : N * str) (h : Hub) : Hub := with_conns h (alter (lv_closed why) c (hb_conns h)).
Definition is_live_conn (h : Hub) (k : ChannelId) (c : N) : bool := bool_decide (hb_live h !! k = Some c).

Definition kick (k : ChannelId) (reason : str) (h : Hub) : Hub :=
  let live := hb_live h !! k in
  let h := with_generation h (<[k := sat_add MAX_U64 (generation h k) 1]> (hb_generation h)) in
  let h := with_live h (delete k (hb_live h)) in
  match live with Some c => close_conn c (CLOSE_REPLACED, reason) h | None => h end.

(** [serve], after the hello: the generation check and the registration are
    one step; what it replaced is closed. [false]: not registered. *)
Definition register (c : N) (h : Hub) : bool * Hub :=
  match hb_conns h !! c with
  | None => (false, h)
  | Some l =>
      let k := pe_id (lv_peer l) in
      if negb (N.eqb (generation h k) (lv_generation l))
      then (false, close_conn c (CLOSE_REPLACED, lit "re-paired or unpaired during handshake") h)
      else
        let replaced := hb_live h !! k in
        let h := with_live h (<[k := c]> (hb_live h)) in
        (true, match replaced with
               | Some old => close_conn old (CLOSE_REPLACED, lit "replaced by a newer connection") h
               | None => h
               end)
  end.
(** The end of [serve]. *)
Definition unregister (c : N) (h : Hub) : Hub :=
  match hb_conns h !! c with
  | Some l =>
      let k := pe_id (lv_peer l) in
      if is_live_conn h k c then with_live h (delete k (hb_live h)) else h
  | None => h
  end.
Definition close_all (reason : str) (h : Hub) : Hub :=
  let closed := map snd (map_to_list (hb_live h)) in
  with_live (fold_left (fun h c => close_conn c (1001%N, reason) h) closed h) ∅.

Definition is_online (h : Hub) (k : ChannelId) : bool := negb (is_none (hb_live h !! k)).
Definition current_peer (h : Hub) (k : ChannelId) : option DaemonPeer :=
  c ← hb_live h !! k; l ← hb_conns h !! c; Some (lv_peer l).

(** ** Handshake slots *)

Definition peer_slot (peer : str) (h : Hub) : bool * Hub :=
  let n := default 0%N (hb_pending h !! peer) in
  if N.leb MAX_PENDING_PER_PEER n then (false, with_pending h (<[peer := n]> (hb_pending h)))
  else (true, with_pending h (<[peer := (n + 1)%N]> (hb_pending h))).
Definition drop_slot (peer : str) (h : Hub) : Hub :=
  match hb_pending h !! peer with
  | Some n =>
      let n := (n - 1)%N in
      with_pending h (if N.eqb n 0 then delete peer (hb_pending h) else <[peer := n]> (hb_pending h))
  | None => h
  end.

(** ** The hello *)

Record HelloMsg := mkHelloMsg { hm_id : ChannelId; hm_nonce : str; hm_params : str; hm_sig : str }.
(** A handshake under way: the generation read before the hello was
    verified, the row and key it was verified against. *)
Record PendingHello := mkPending {
  ph_peer : DaemonPeer; ph_generation : N; ph_verified : VerifiedHello }.

Definition version_ok (v : str) : bool :=
  Nat.leb 1 (str_len v) && Nat.leb (str_len v) 64
  && forallb (fun b => is_ascii_alphanumeric b || elem_b b (lit ".+_-")) v.

Section channel.
Context `{RustFmt, JsonRead, Sha256, HmacSha256, Hex, UnicodeUpper, Base64, Ed25519}.
Variable config : DaemonsConfig.

Definition parse_hello (text : str) : option HelloMsg :=
  v ← json_from_slice (as_bytes text);
  let s k := value_get v k ≫= as_str in
  if negb (bool_decide (s (lit "type") = Some (lit "hello"))) then None
  else
  role ← (s (lit "role") ≫= ChannelRole_parse);
  name ← (s (lit "name") ≫= ChannelName_parse);
  nonce ← (s (lit "nonce") ≫= Nonce_parse);
  params ← s (lit "params");
  sig ← s (lit "sig");
  if Nat.ltb 4096 (str_len params) || Nat.ltb 256 (str_len sig) then None
  else Some (mkHelloMsg (mkChannelId role name) nonce params sig).

(** [HelloParams::from_text]. *)
Definition hello_version (text : str) : option str :=
  v ← json_from_slice (as_bytes text);
  s ← (value_get v (lit "version") ≫= as_str);
  if version_ok s then Some s else None.

(** [verify_hello]: one transaction. *)
Definition verify_hello (d : Daemons) (m : HelloMsg) (broker_nonce : str) (now : Instant)
  : option (N * PublicKey * VerifiedHello) * Daemons :=
  let checked :=
  row ← by_name d (ci_role (hm_id m)) (ci_name (hm_id m));
  key ← to_option (PublicKey_parse (da_public_key row));
  verified ← to_option (hello_verify (mkHandshake (hm_id m) broker_nonce (hm_nonce m)) key SDaemon
               (hm_params m) (hm_sig m));
  Some (da_id row, key, verified) in
  match checked with
  | None => (None, d)
  | Some (row, key, verified) =>
    (Some (row, key, verified), (store_hello d row now (hello_version (hm_params m))).2)
  end.

Definition welcome_params : str :=
  lit "{" ++ qlit "`heartbeat_secs`: " ++ show_N (dc_heartbeat_secs config) ++ lit "}".

(** The rest of [handshake] and the making of [Live]: the welcome is signed,
    and the connection's two ends come of the verified hello. *)
Definition new_live (key : SigningKey) (p : PendingHello) : Live * EnvelopeVerifier :=
  let '(sealer, verifier) := into_channel (ph_verified p) key in
  (mkLive (ph_peer p) (ph_generation p) sealer None None false, verifier).

(** ** Sending *)

Inductive Delivery := Written (text : str) | NotWritten.

(** [deliver], under the connection's lock: sealing and writing are one
    step. *)
Definition deliver (c : N) (payload : list (str * Value)) (ttl now : N) (id : option str) (h : Hub)
  : Delivery * Hub :=
  match hb_conns h !! c with
  | None => (NotWritten, h)
  | Some l =>
    if lv_stalled l || negb (is_none (lv_close l)) then (NotWritten, h)
    else
      match seal (lv_sealer l) payload ttl now id with
      | (Err _, _) => (NotWritten, h)
      | (Ok (_, text), s) => (Written text, with_conns h (<[c := lv_with_sealer s l]> (hb_conns h)))
      end
  end.
Definition send (k : ChannelId) (payload : list (str * Value)) (ttl now : N) (id : option str) (h : Hub)
  : Delivery * Hub :=
  match hb_live h !! k with
  | None => (NotWritten, h)
  | Some c => deliver c payload ttl now id h
  end.

Definition drop_stalled (c : N) (h : Hub) : Hub :=
  match hb_conns h !! c with
  | None => h
  | Some l =>
    if lv_stalled l then h
    else
      let k := pe_id (lv_peer l) in
      let h := with_conns h (<[c := lv_with_stalled l]> (hb_conns h)) in
      let h := if is_live_conn h k c then with_live h (delete k (hb_live h)) else h in
      close_conn c (CLOSE_STALLED, lit "not reading") h
  end.

(** ** Calls *)

Record Reply := mkReply { rp_call : option str; rp_ok : bool; rp_data : list (str * Value); rp_error : option str }.

(** [call], before the send: the call waits under its id. *)
Definition call_begin (id : str) (k : ChannelId) (h : Hub) : Hub := with_calls h (<[id := k]> (hb_calls h)).
Definition call_payload (id : str) (payload : list (str * Value)) : list (str * Value) :=
  map_insert (lit "call_id") (VString id) payload.
Definition call_end (id : str) (h : Hub) : Hub := with_calls h (delete id (hb_calls h)).
(** [resolve]: the call a reply is given to. *)
Definition resolve (peer : DaemonPeer) (reply : Reply) (h : Hub) : option str * Hub :=
  match rp_call reply with
  | None => (None, h)
  | Some id =>
    if bool_decide (hb_calls h !! id = Some (pe_id peer))
    then (Some id, with_calls h (delete id (hb_calls h)))
    else (None, h)
  end.
(** What [call] returns of a reply. *)
Definition call_result (reply : Reply) : result str (list (str * Value)) :=
  if negb (rp_ok reply) then
  Err (match rp_error reply with
       | Some e => match take 500 e with [] => lit "refused by the daemon" | t => t end
       | None => lit "refused by the daemon"
       end)
  else Ok (rp_data reply).

(** ** Heartbeats *)

(** The least time between two stored statuses, in nanoseconds. *)
Definition min_gap : Z := (seconds (dc_heartbeat_secs config) / 2)%Z.
Definition too_soon (now : Instant) (l : Live) : bool :=
  match lv_last_status_write l with Some t => Z.ltb (now - t) min_gap | None => false end.

Definition MISSING_STATUS : Value := json_obj [(lit "error", VString (lit "status missing or too large"))].
Definition status_of (body : list (str * Value)) : Value :=
  match map_get (lit "status") body with
  | Some (VObject s) => if N.leb (python_dumps_len (VObject s)) MAX_STATUS_BYTES then VObject s else MISSING_STATUS
  | _ => MISSING_STATUS
  end.
Definition status_version (status : Value) : option str :=
  s ← (value_get status (lit "version") ≫= as_str);
  if version_ok s then Some s else None.

(** [heartbeat]: [false] when the row is no longer paired with the
    connection's key; the connection is then forgotten. *)
Definition heartbeat (c : N) (body : list (str * Value)) (now : Instant)
  (h : Hub) (d : Daemons) : bool * Hub * Daemons :=
  match hb_conns h !! c with
  | None => (false, h, d)
  | Some l =>
    if too_soon now l then (true, h, d)
    else
      let h := with_conns h (<[c := lv_with_written now l]> (hb_conns h)) in
      let status := status_of body in
      let '(ok, d) := store_heartbeat d (pe_row (lv_peer l)) (PublicKey_to_text (pe_public_key (lv_peer l)))
                        status (status_version status) now in
      if ok then (true, h, d)
      else
        let k := pe_id (lv_peer l) in
        (false, (if is_live_conn h k c then with_live h (delete k (hb_live h)) else h), d)
  end.

(** ** One verified message *)

Inductive Dispatch := DHeartbeat (body : list (str * Value)) | DReply (body : list (str * Value))
| DHandler (kind : str) (body : list (str * Value)).
Definition map_remove (k : str) (m : list (str * Value)) : list (str * Value) :=
  List.filter (fun kv => negb (str_eqb k kv.1)) m.
Definition dispatch (body : list (str * Value)) : Dispatch :=
  let body := fold_left (fun m k => map_remove k m) RESERVED_KEYS body in
  let kind := default [] (map_get (lit "type") body ≫= as_str) in
  if str_eqb kind (lit "heartbeat") then DHeartbeat (map_remove (lit "type") body)
  else if str_eqb kind (lit "reply") then DReply (map_remove (lit "type") body)
  else DHandler kind body.
End channel.
