(* ===== verification/Accounts.v ===== *)
(** Agents' API keys ([crates/crypto/src/api_key.rs], [rng.rs]), the rest of
    the agents' table ([crates/store/src/agents.rs] with its constraints),
    and sessions ([sessions.rs]). The tables of OAuth clients and tokens are
    here too, since an agent's runtime depends on them; their operations are
    [OAuth.v]'s. *)

From stdpp Require Import gmap.
From S2P Require Import Prelude Json Glob Pyfmt Lifecycle Names Durations Pool Mail Authority Routing Agents Hostexec Schema Policy Zones Eval HostTypes TotpCode Transcript Hello Store ServiceRouting Pairing.
From stdpp Require Import options.

(** ** API keys *)

Definition API_KEY_PREFIX : str := lit "aa".
Definition KEY_ID_LEN : nat := 12.
Definition SECRET_LEN : nat := 43.

Definition is_key_id (text : str) : bool := Nat.eqb (str_len text) KEY_ID_LEN && forallb hex_lower text.
Definition is_secret (text : str) : bool := Nat.eqb (str_len text) SECRET_LEN && forallb b64_char text.
Definition KeyId_parse (text : str) : option str := if is_key_id text then Some text else None.
Definition SecretHash_parse (text : str) : option str :=
  if Nat.eqb (str_len text) 64 && forallb hex_lower text then Some text else None.

Record GeneratedKey := mkGeneratedKey { gk_full_key : str; gk_key_id : str; gk_hash : str }.
Record ParsedKey := mkParsedKey { pk_key_id : str; pk_secret : str }.

(** [parse]. *)
Definition api_key_parse (full_key : str) : option ParsedKey :=
  rest ← strip_prefix API_KEY_PREFIX full_key;
  rest ← strip_prefix (lit "_") rest;
  '(key_id, secret) ← split_once (ch "_") rest;
  if negb (is_key_id key_id) || negb (is_secret secret) then None
  else Some (mkParsedKey key_id secret).

Section keys.
Context `{Sha256, Hex, Base64}.

(** [token_urlsafe], of the bytes the random source gave. *)
Definition token_urlsafe (random : bytes) : str := b64url_encode random.
Definition hash_secret (secret : str) : str := hex_encode (sha256 (as_bytes secret)).
(** [generate], of the six and the thirty-two random bytes. *)
Definition api_key_generate (id_bytes secret_bytes : bytes) : GeneratedKey :=
  let key_id := hex_encode id_bytes in
  let secret := b64url_encode secret_bytes in
  mkGeneratedKey (API_KEY_PREFIX ++ lit "_" ++ key_id ++ lit "_" ++ secret) key_id (hash_secret secret).
Definition api_key_verify (secret stored : str) : bool := ct_eq (as_bytes (hash_secret secret)) (as_bytes stored).
(** [ct_eq_hashed] of [secret.rs]. *)
Definition ct_eq_hashed (a b : bytes) : bool := ct_eq (sha256 a) (sha256 b).
End keys.

(** ** Tables *)

Inductive SessionCloseReason := SIdle | SClosed.
Record SessionRow := mkSession {
  se_id : SessionId;
  se_agent : AgentId;
  se_name : str;
  se_last_seen : Instant;
  se_closed : option (Instant * SessionCloseReason);
  se_created_at : Instant;
}.
Definition session_is_open (s : SessionRow) : bool := is_none (se_closed s).

Inductive TokenKind := TCode | TAccess | TRefresh.
#[export] Instance TokenKind_eq_dec : EqDecision TokenKind.
Proof. solve_decision. Defined.

Record ClientRow := mkClient {
  cl_id : str;
  cl_name : str;
  cl_redirect_uris : list str;
  cl_secret_hash : option str;
  cl_agent : option AgentId;
  cl_last_used : option Instant;
  cl_revoked : option Instant;
  cl_created_at : Instant;
}.
Record TokenRow := mkToken {
  to_id : N;
  to_kind : TokenKind;
  to_hash : str;
  to_client : str;
  to_agent : AgentId;
  to_family : N;
  to_expires_at : Instant;
  to_used_at : option Instant;
  to_revoked_at : option Instant;
  to_challenge : option str;
  to_redirect_uri : option str;
  to_authorized_by : str;
  to_created_at : Instant;
}.

Section tables.
Context `{DateLib}.

Record Accounts := mkAccounts {
  ac_db : Database;
  ac_sessions : list SessionRow;
  ac_clients : list ClientRow;
  ac_tokens : list TokenRow;
}.
Definition with_db (a : Accounts) (db : Database) : Accounts := mkAccounts db (ac_sessions a) (ac_clients a) (ac_tokens a).
Definition with_sessions (a : Accounts) (l : list SessionRow) : Accounts := mkAccounts (ac_db a) l (ac_clients a) (ac_tokens a).
Definition with_clients (a : Accounts) (l : list ClientRow) : Accounts := mkAccounts (ac_db a) (ac_sessions a) l (ac_tokens a).
Definition with_tokens (a : Accounts) (l : list TokenRow) : Accounts := mkAccounts (ac_db a) (ac_sessions a) (ac_clients a) l.

(** A transaction over these tables too ([tx] is over the database's). *)
Definition act (E A : Type) : Type := Accounts -> result E (A * Accounts).
Definition act_ret {E A} (x : A) : act E A := fun a => Ok (x, a).
Definition act_fail {E A} (e : E) : act E A := fun _ => Err e.
Definition act_bind {E A B} (m : act E A) (f : A -> act E B) : act E B := fun a =>
  match m a with Ok (x, a') => f x a' | Err e => Err e end.
Definition act_read {E A} (f : Accounts -> A) : act E A := fun a => Ok (f a, a).
Definition act_write {E} (f : Accounts -> Accounts) : act E unit := fun a => Ok (tt, f a).
Definition on_db {E A} (m : tx E A) : act E A := fun a =>
  match m (ac_db a) with Ok (x, db) => Ok (x, with_db a db) | Err e => Err e end.
Definition act_lift {E A} (r : result E A) : act E A := fun a =>
  match r with Ok x => Ok (x, a) | Err e => Err e end.
Definition act_run {E A} (m : act E A) (a : Accounts) : result E A * Accounts :=
  match m a with Ok (x, a') => (Ok x, a') | Err e => (Err e, a) end.
End tables.

Declare Scope act_scope.
Delimit Scope act_scope with act.
Notation "'let$' x ':=' m 'in' k" := (act_bind m (fun x => k))
  (at level 200, x pattern, m at level 100, k at level 200, right associativity) : act_scope.
Notation "m ';$' k" := (act_bind m (fun _ => k)) (at level 100, right associativity) : act_scope.
Open Scope act_scope.

(** The instants [OffsetDateTime] has: years -9999 to 9999; its saturating
    arithmetic. *)
Definition MIN_INSTANT : Instant := -377705116800000000000.
Definition sat_plus (now : Instant) (d : Z) : Instant := Z.max MIN_INSTANT (Z.min MAX_INSTANT (now + d)).

(** ** The agents' table *)

Section agents.
Context `{DateLib, UnicodeLower}.

Definition len_le (n : nat) (s : str) : bool := Nat.leb (length s) n.
(** The CHECKs of [agents]. *)
Definition agent_checks (a : AgentRow) : bool :=
  is_ok (AgentName_parse (ag_name a))
  && Nat.leb 1 (length (ag_key_id a)) && len_le 16 (ag_key_id a)
  && Nat.eqb (length (ag_api_key_hash a)) 64
  && is_none_or (len_le 64) (ag_webhook_secret a)
  && is_none_or (len_le 128) (fst (ag_lldap a))
  && is_none_or (len_le 16) (ag_runtime a) && is_none_or (len_le 64) (ag_project a)
  && is_none_or (len_le 64) (ag_host a)
  && (bool_decide (ag_kind a = Service) || is_none (ag_webhook_url a) && is_none (ag_webhook_secret a))
  && is_none_or (fun p => negb (N.eqb p (ag_id a))) (ag_parent a)
  && (negb (bool_decide (ag_kind a = Operator))
      || is_none (ag_parent a) && is_none (ag_sandbox a) && is_none (ag_lease a))
  && (ag_disabled a || is_none (ag_disabled_reason a)).

Definition all_rows (a : Accounts) : list AgentRow := map snd (map_to_list (db_agents (ac_db a))).
(** Two rows no unique index allows together. *)
Definition rows_clash (x y : AgentRow) : bool :=
  N.eqb (ag_id x) (ag_id y) || str_eqb (ag_name x) (ag_name y) || str_eqb (ag_key_id x) (ag_key_id y)
  || bool_decide (ag_kind x = Operator) && bool_decide (ag_kind y = Operator)
  || match fst (ag_lldap x), fst (ag_lldap y) with
     | Some u, Some v => str_eqb (to_lowercase u) (to_lowercase v)
     | _, _ => false
     end.
(** The foreign keys of a row. *)
Definition refs_known (a : Accounts) (x : AgentRow) : bool :=
  is_none_or (fun p => negb (is_none (db_agents (ac_db a) !! p))) (ag_parent x)
  && is_none_or (fun d => negb (is_none (db_daemons (ac_db a) !! d))) (ag_sandbox x).

Definition put_agent (x : AgentRow) (a : Accounts) : Accounts :=
  with_db a (with_agents (ac_db a) (<[ag_id x := x]> (db_agents (ac_db a)))).
Definition insert_row (x : AgentRow) : act StoreError AgentRow :=
  let$ a := act_read (fun a => a) in
  if negb (agent_checks x) then act_fail (Db CheckViolation)
  else if existsb (rows_clash x) (all_rows a) then act_fail (Db UniqueViolation)
  else if negb (refs_known a x) then act_fail (Db ForeignKeyViolation)
  else act_write (put_agent x);$ act_ret x.

Record NewAgent := mkNewAgent {
  na_id : AgentId;
  na_name : str;
  na_description : str;
  na_key_id : str;
  na_api_key_hash : str;
  na_kind : AgentKind;
  na_webhook_url : option str;
  na_webhook_secret : option str;
  na_lldap_username : option str;
  na_parent : option AgentId;
  na_sandbox : option DaemonId;
  na_runtime : option str;
  na_project : option str;
  na_host : option str;
  na_placement : Placement;
  na_lease : option Instant;
  na_last_seen_at : option Instant;
  na_now : Instant;
}.
Definition new_row (n : NewAgent) : AgentRow :=
  mkAgentRow (na_id n) (na_name n) (na_description n) (na_key_id n) (na_api_key_hash n)
    (na_webhook_url n) (na_webhook_secret n) (na_lldap_username n, None) false None (na_kind n)
    (na_last_seen_at n) None (na_parent n) (na_sandbox n) (na_runtime n) (na_project n) (na_host n)
    (na_placement n) (na_lease n) (na_now n).
(** [agents::insert]. *)
Definition insert_agent (n : NewAgent) : act StoreError AgentRow := insert_row (new_row n).

Record ImportedAgent := mkImported {
  im_new : NewAgent; im_disabled : bool; im_disabled_reason : option DisableReason;
  im_last_listen_at : option Instant }.
(** [agents::import]: top-level, no agent VM. *)
Definition import_agent (i : ImportedAgent) : act StoreError AgentRow :=
  let n := im_new i in
  insert_row (mkAgentRow (na_id n) (na_name n) (na_description n) (na_key_id n) (na_api_key_hash n)
    (na_webhook_url n) (na_webhook_secret n) (na_lldap_username n, None) (im_disabled i) (im_disabled_reason i)
    (na_kind n) (na_last_seen_at n) (im_last_listen_at i) None None (na_runtime n) (na_project n) (na_host n)
    (na_placement n) (na_lease n) (na_now n)).

Definition operator_row (id : AgentId) (key_id : str) (now : Instant) : AgentRow :=
  mkAgentRow id (lit "operator") (lit "the operator, writing from the admin panel") key_id (repeat (ch "!") 64)
    None None (None, None) false None Operator None None None None None None None Host None now.
(** [ON CONFLICT DO NOTHING]. *)
Definition ensure_operator (id : AgentId) (key_id : str) (now : Instant) : act StoreError (option AgentRow) :=
  let x := operator_row id key_id now in
  let$ a := act_read (fun a => a) in
  let$ _ := (if negb (agent_checks x) then act_fail (Db CheckViolation)
             else if existsb (rows_clash x) (all_rows a) then act_ret tt
             else act_write (put_agent x)) in
  act_read (fun a => find (fun r => bool_decide (ag_kind r = Operator)) (all_rows a)).

(** *** Reads *)

Definition by_key_id (key_id : str) : act StoreError (option AgentRow) :=
  act_read (fun a => find (fun r => str_eqb (ag_key_id r) key_id) (all_rows a)).
Definition name_leb (x y : AgentRow) : bool := negb (str_ltb (ag_name y) (ag_name x)).
Fixpoint insert_name (x : AgentRow) (l : list AgentRow) : list AgentRow :=
  match l with [] => [x] | y :: l => if name_leb x y then x :: y :: l else y :: insert_name x l end.
Definition by_names (l : list AgentRow) : list AgentRow := fold_right insert_name [] l.
Definition list_enabled : act StoreError (list AgentRow) :=
  act_read (fun a => by_names (List.filter (fun r => negb (ag_disabled r)) (all_rows a))).
Definition list_peers (except : option AgentId) : act StoreError (list AgentRow) :=
  act_read (fun a => by_names (List.filter
    (fun r => bool_decide (ag_kind r = Service) && negb (ag_disabled r)
              && is_none_or (fun e => negb (N.eqb (ag_id r) e)) except) (all_rows a))).
Definition list_web : act StoreError (list AgentRow) :=
  act_read (fun a => by_names (List.filter (fun r => bool_decide (ag_runtime r = Some WEB_RUNTIME)) (all_rows a))).
Definition created_leb (x y : AgentRow) : bool :=
  Z.ltb (ag_created_at x) (ag_created_at y) || Z.eqb (ag_created_at x) (ag_created_at y) && N.leb (ag_id x) (ag_id y).
Fixpoint insert_created (x : AgentRow) (l : list AgentRow) : list AgentRow :=
  match l with [] => [x] | y :: l => if created_leb x y then x :: y :: l else y :: insert_created x l end.
Definition created_since (since : Instant) (after : option AgentId) (limit : nat) : act StoreError (list AgentRow) :=
  act_read (fun a => take limit (fold_right insert_created [] (List.filter
    (fun r => Z.ltb since (ag_created_at r)
              || Z.eqb (ag_created_at r) since && is_none_or (fun x => N.ltb x (ag_id r)) after) (all_rows a)))).
Definition names (ids : list AgentId) : act StoreError (list (AgentId * str)) :=
  act_read (fun a => map (fun r => (ag_id r, ag_name r))
    (List.filter (fun r => existsb (N.eqb (ag_id r)) ids) (all_rows a))).

(** *** Writes *)

(** [UPDATE agents SET ... WHERE id = $1 AND <ok>] under the constraints. *)
Definition others_clash (a : Accounts) (x : AgentRow) : bool :=
  existsb (fun y => negb (N.eqb (ag_id y) (ag_id x)) && rows_clash x y) (all_rows a).
Definition write_agent (id : AgentId) (ok : AgentRow -> bool) (f : AgentRow -> AgentRow) : act StoreError bool :=
  let$ a := act_read (fun a => a) in
  match db_agents (ac_db a) !! id with
  | None => act_ret false
  | Some x =>
      if negb (ok x) then act_ret false
      else if negb (agent_checks (f x)) then act_fail (Db CheckViolation)
      else if others_clash a (f x) then act_fail (Db UniqueViolation)
      else act_write (put_agent (f x));$ act_ret true
  end.

Definition seen_before (at_ : option Instant) (unless_after : Instant) : bool := is_none_or (fun t => Z.ltb t unless_after) at_.
Definition seen_row (seen listen : option Instant) (a : AgentRow) : AgentRow :=
  mkAgentRow (ag_id a) (ag_name a) (ag_description a) (ag_key_id a) (ag_api_key_hash a)
    (ag_webhook_url a) (ag_webhook_secret a) (ag_lldap a) (ag_disabled a) (ag_disabled_reason a) (ag_kind a)
    seen listen (ag_parent a) (ag_sandbox a) (ag_runtime a) (ag_project a) (ag_host a) (ag_placement a)
    (ag_lease a) (ag_created_at a).
Definition touch_seen (id : AgentId) (now unless_after : Instant) : act StoreError bool :=
  write_agent id (fun a => seen_before (ag_last_seen_at a) unless_after)
    (fun a => seen_row (Some now) (ag_last_listen_at a) a).
Definition mark_listening (id : AgentId) (now unless_after : Instant) : act StoreError bool :=
  write_agent id (fun a => seen_before (ag_last_listen_at a) unless_after)
    (fun a => seen_row (ag_last_seen_at a) (Some now) a).

Definition attributes_row (runtime project host : option str) (p : Placement) (a : AgentRow) : AgentRow :=
  mkAgentRow (ag_id a) (ag_name a) (ag_description a) (ag_key_id a) (ag_api_key_hash a)
    (ag_webhook_url a) (ag_webhook_secret a) (ag_lldap a) (ag_disabled a) (ag_disabled_reason a) (ag_kind a)
    (ag_last_seen_at a) (ag_last_listen_at a) (ag_parent a) (ag_sandbox a) runtime project host p
    (ag_lease a) (ag_created_at a).
Definition is_bound_in (a : Accounts) (id : AgentId) : bool :=
  existsb (fun c => bool_decide (cl_agent c = Some id)) (ac_clients a).
(** With the trigger of [0006_webui.sql]: a bound agent keeps its runtime. *)
Definition set_attributes (id : AgentId) (runtime project host : option str) (p : Placement) : act StoreError bool :=
  let$ a := act_read (fun a => a) in
  match db_agents (ac_db a) !! id with
  | Some x =>
      if negb (bool_decide (ag_kind x = Operator)) && negb (bool_decide (ag_runtime x = runtime)) && is_bound_in a id
      then act_fail (Db CheckViolation)
      else write_agent id (fun x => negb (bool_decide (ag_kind x = Operator))) (attributes_row runtime project host p)
  | None => act_ret false
  end.

Definition described_row (description : str) (a : AgentRow) : AgentRow :=
  mkAgentRow (ag_id a) (ag_name a) description (ag_key_id a) (ag_api_key_hash a)
    (ag_webhook_url a) (ag_webhook_secret a) (ag_lldap a) (ag_disabled a) (ag_disabled_reason a) (ag_kind a)
    (ag_last_seen_at a) (ag_last_listen_at a) (ag_parent a) (ag_sandbox a) (ag_runtime a) (ag_project a)
    (ag_host a) (ag_placement a) (ag_lease a) (ag_created_at a).
Definition set_description (id : AgentId) (description : str) : act StoreError bool :=
  write_agent id (fun _ => true) (described_row description).

Definition keyed_row (key_id api_key_hash : str) (a : AgentRow) : AgentRow :=
  mkAgentRow (ag_id a) (ag_name a) (ag_description a) key_id api_key_hash
    (ag_webhook_url a) (ag_webhook_secret a) (ag_lldap a) (ag_disabled a) (ag_disabled_reason a) (ag_kind a)
    (ag_last_seen_at a) (ag_last_listen_at a) (ag_parent a) (ag_sandbox a) (ag_runtime a) (ag_project a)
    (ag_host a) (ag_placement a) (ag_lease a) (ag_created_at a).
Definition set_key (id : AgentId) (key_id api_key_hash : str) : act StoreError bool :=
  write_agent id (fun a => negb (bool_decide (ag_kind a = Operator))) (keyed_row key_id api_key_hash).

Definition webhook_row (url secret : option str) (a : AgentRow) : AgentRow :=
  mkAgentRow (ag_id a) (ag_name a) (ag_description a) (ag_key_id a) (ag_api_key_hash a)
    url secret (ag_lldap a) (ag_disabled a) (ag_disabled_reason a) (ag_kind a)
    (ag_last_seen_at a) (ag_last_listen_at a) (ag_parent a) (ag_sandbox a) (ag_runtime a) (ag_project a)
    (ag_host a) (ag_placement a) (ag_lease a) (ag_created_at a).
Definition set_webhook (id : AgentId) (url secret : option str) : act StoreError bool :=
  write_agent id (fun _ => true) (webhook_row url secret).
Definition set_webhook_secret (id : AgentId) (secret : str) : act StoreError bool :=
  write_agent id (fun _ => true) (fun a => webhook_row (ag_webhook_url a) (Some secret) a).

Definition lldap_row (username password : option str) (a : AgentRow) : AgentRow :=
  mkAgentRow (ag_id a) (ag_name a) (ag_description a) (ag_key_id a) (ag_api_key_hash a)
    (ag_webhook_url a) (ag_webhook_secret a) (username, password) (ag_disabled a) (ag_disabled_reason a) (ag_kind a)
    (ag_last_seen_at a) (ag_last_listen_at a) (ag_parent a) (ag_sandbox a) (ag_runtime a) (ag_project a)
    (ag_host a) (ag_placement a) (ag_lease a) (ag_created_at a).
Definition set_lldap (id : AgentId) (username password : option str) : act StoreError bool :=
  write_agent id (fun _ => true) (lldap_row username password).
End agents.

(** ** Sessions *)

Section sessions.
Context `{DateLib}.

Definition insert_session (id : SessionId) (agent : AgentId) (name : str) (now : Instant) : act StoreError SessionRow :=
  let s := mkSession id agent name now None now in
  let$ a := act_read (fun a => a) in
  if negb (Nat.leb 1 (length name) && Nat.leb (length name) 160) then act_fail (Db CheckViolation)
  else if existsb (fun x => N.eqb (se_id x) id || N.eqb (se_agent x) agent && str_eqb (se_name x) name) (ac_sessions a)
  then act_fail (Db UniqueViolation)
  else if is_none (db_agents (ac_db a) !! agent) then act_fail (Db ForeignKeyViolation)
  else act_write (fun a => with_sessions a (ac_sessions a ++ [s]));$ act_ret s.
Definition get_session (id : SessionId) : act StoreError (option SessionRow) :=
  act_read (fun a => find (fun s => N.eqb (se_id s) id) (ac_sessions a)).
Definition get_open (agent : AgentId) (id : SessionId) : act StoreError (option SessionRow) :=
  act_read (fun a => find (fun s => N.eqb (se_id s) id && N.eqb (se_agent s) agent && session_is_open s) (ac_sessions a)).

Definition session_seen (now : Instant) (s : SessionRow) : SessionRow :=
  mkSession (se_id s) (se_agent s) (se_name s) now (se_closed s) (se_created_at s).
Definition session_closed (now : Instant) (why : SessionCloseReason) (s : SessionRow) : SessionRow :=
  mkSession (se_id s) (se_agent s) (se_name s) (se_last_seen s) (Some (now, why)) (se_created_at s).
(** [UPDATE agent_sessions ...]: how many rows. *)
Definition update_sessions (p : SessionRow -> bool) (f : SessionRow -> SessionRow) : act StoreError nat :=
  let$ l := act_read ac_sessions in
  let '(rows, n) := update_where p f l in
  act_write (fun a => with_sessions a rows);$ act_ret n.
Definition touch_session (id : SessionId) (now unless_after : Instant) : act StoreError bool :=
  let$ n := update_sessions
    (fun s => N.eqb (se_id s) id && session_is_open s && Z.ltb (se_last_seen s) unless_after) (session_seen now) in
  act_ret (Nat.eqb n 1).
Definition close_session (id : SessionId) (why : SessionCloseReason) (now : Instant) : act StoreError bool :=
  let$ n := update_sessions (fun s => N.eqb (se_id s) id && session_is_open s) (session_closed now why) in
  act_ret (Nat.eqb n 1).
Definition session_idle (cutoff : Instant) (s : SessionRow) : bool := session_is_open s && Z.ltb (se_last_seen s) cutoff.
Definition close_idle (cutoff now : Instant) : act StoreError (list SessionId) :=
  let$ l := act_read ac_sessions in
  let$ _ := update_sessions (session_idle cutoff) (session_closed now SIdle) in
  act_ret (map se_id (List.filter (session_idle cutoff) l)).
Definition count_open (agent : AgentId) : act StoreError nat :=
  act_read (fun a => length (List.filter (fun s => N.eqb (se_agent s) agent && session_is_open s) (ac_sessions a))).
End sessions.

(** ** What a successful transaction did *)

Lemma all_rows_elem `{DateLib} (a : Accounts) x : x ∈ all_rows a <-> exists id, db_agents (ac_db a) !! id = Some x.
Proof.
  unfold all_rows. rewrite list_elem_of_fmap. split.
  - intros ([id y] & -> & Hin). exists id. by apply elem_of_map_to_list.
  - intros [id Hx]. exists (id, x). split; [done|]. by apply elem_of_map_to_list.
Qed.
Lemma act_bind_ok `{DateLib} {E A B} (m : act E A) (f : A -> act E B) a b a' :
  act_bind m f a = Ok (b, a') -> exists x a1, m a = Ok (x, a1) /\ f x a1 = Ok (b, a').
Proof. unfold act_bind. destruct (m a) as [[x a1]|]; [eauto|done]. Qed.
Ltac act_ok1 :=
  match goal with
  | H : act_bind _ _ _ = Ok (_, _) |- _ =>
      apply act_bind_ok in H; let x := fresh "x" in let a := fresh "a" in
      let Hm := fresh "Hm" in destruct H as (x & a & Hm & H); cbv beta in H
  | H : act_ret _ _ = Ok (_, _) |- _ => unfold act_ret in H; injection H as H; try subst
  | H : act_fail _ _ = Ok (_, _) |- _ => discriminate H
  | H : act_read _ _ = Ok (_, _) |- _ => unfold act_read in H; injection H as H; try subst
  | H : act_write _ _ = Ok (_, _) |- _ => unfold act_write in H; injection H as H; try subst
  end.
Ltac act_ok := repeat act_ok1; try done.
