(* ===== verification/OAuth.v ===== *)
(** The OAuth server for web UI connectors: the tables of clients and tokens
    ([crates/store/src/oauth.rs], with the CHECKs of [0001_initial.sql] and
    the triggers of [0006_webui.sql]), the server
    ([crates/broker/src/oauth/mod.rs]), what its routes decide
    ([routes.rs]) and the wire forms ([crates/wire/src/oauth.rs]). What the
    clock reads and the random source gives are arguments. *)

From stdpp Require Import gmap.
From S2P Require Import Prelude Json Glob Pyfmt Lifecycle Names Durations Pool Mail Authority Routing Agents Hostexec Schema Policy Zones Eval HostTypes TotpCode Transcript Envelope Hello Store ServiceRouting Pairing Accounts.
From stdpp Require Import options.

Abbreviation FamilyId := N (only parsing).

(** ** The tables *)

Section store.
Context `{DateLib}.

Definition hex64 (s : str) : bool := Nat.eqb (length s) 64 && forallb hex_lower s.
Definition url_char (c : char) : bool := is_ascii_alphanumeric c || N.eqb c (ch "-") || N.eqb c (ch "_").
Definition challenge_shape (s : str) : bool := Nat.leb 43 (length s) && Nat.leb (length s) 128 && forallb url_char s.

(** The CHECKs of [oauth_clients] and [oauth_tokens]. *)
Definition client_checks (c : ClientRow) : bool :=
  Nat.leb 1 (length (cl_id c)) && Nat.leb (length (cl_id c)) 64 && forallb url_char (cl_id c)
  && Nat.leb (length (cl_name c)) 200 && is_none_or hex64 (cl_secret_hash c).
Definition token_checks (t : TokenRow) : bool :=
  hex64 (to_hash t) && is_none_or challenge_shape (to_challenge t)
  && Nat.leb (length (to_authorized_by t)) 128
  && Bool.eqb (bool_decide (to_kind t = TCode)) (negb (is_none (to_challenge t)) && negb (is_none (to_redirect_uri t)))
  && (negb (bool_decide (to_kind t = TAccess)) || is_none (to_used_at t)).

(** *** Clients *)

Definition client_live (c : ClientRow) : bool := is_none (cl_revoked c).
Definition client_bound (c : ClientRow) : bool := negb (is_none (cl_agent c)).
Definition has_tokens (a : Accounts) (c : ClientRow) : bool :=
  existsb (fun t => str_eqb (to_client t) (cl_id c)) (ac_tokens a).

Definition count_live_clients : act StoreError nat :=
  act_read (fun a => length (List.filter client_live (ac_clients a))).
Definition count_live_bound_clients : act StoreError nat :=
  act_read (fun a => length (List.filter (fun c => client_live c && client_bound c) (ac_clients a))).

(** A registration nobody authorized. *)
Definition unbound (a : Accounts) (c : ClientRow) : bool :=
  negb (client_bound c) && client_live c && negb (has_tokens a c).
Definition delete_clients (gone : Accounts -> ClientRow -> bool) : act StoreError nat :=
  let$ a := act_read (fun a => a) in
  act_write (fun a => with_clients a (List.filter (fun c => negb (gone a c)) (ac_clients a)));$
  act_ret (length (List.filter (gone a) (ac_clients a))).
Definition delete_unbound_clients (before : Instant) : act StoreError nat :=
  delete_clients (fun a c => unbound a c && Z.ltb (cl_created_at c) before).

(** [ORDER BY created_at DESC, id DESC]. *)
Definition newer (x y : ClientRow) : bool :=
  Z.ltb (cl_created_at y) (cl_created_at x)
  || Z.eqb (cl_created_at x) (cl_created_at y) && negb (str_ltb (cl_id x) (cl_id y)).
Fixpoint insert_newer (x : ClientRow) (l : list ClientRow) : list ClientRow :=
  match l with [] => [x] | y :: l => if newer x y then x :: y :: l else y :: insert_newer x l end.
Definition newest_clients (l : list ClientRow) : list ClientRow := fold_right insert_newer [] l.
Definition evicted (keep : nat) (a : Accounts) : list str :=
  map cl_id (drop keep (newest_clients (List.filter (unbound a) (ac_clients a)))).
Definition evict_unbound_clients (keep : nat) : act StoreError nat :=
  delete_clients (fun a c => existsb (str_eqb (cl_id c)) (evicted keep a)).

Definition is_bound (agent : AgentId) : act StoreError bool := act_read (fun a => is_bound_in a agent).

Definition insert_client (id name : str) (redirect_uris : list str) (secret_hash : option str) (now : Instant)
  : act StoreError ClientRow :=
  let c := mkClient id name redirect_uris secret_hash None None None now in
  let$ l := act_read ac_clients in
  if negb (client_checks c) then act_fail (Db CheckViolation)
  else if existsb (fun x => str_eqb (cl_id x) id) l then act_fail (Db UniqueViolation)
  else act_write (fun a => with_clients a (ac_clients a ++ [c]));$ act_ret c.

Definition get_client (id : str) : act StoreError (option ClientRow) :=
  act_read (fun a => find (fun c => str_eqb (cl_id c) id) (ac_clients a)).

(** [UPDATE oauth_clients ...]: how many rows. *)
Definition update_clients (p : ClientRow -> bool) (f : ClientRow -> ClientRow) : act StoreError nat :=
  let$ l := act_read ac_clients in
  let '(rows, n) := update_where p f l in
  act_write (fun a => with_clients a rows);$ act_ret n.
Definition bound_to (agent : AgentId) (c : ClientRow) : ClientRow :=
  mkClient (cl_id c) (cl_name c) (cl_redirect_uris c) (cl_secret_hash c) (Some agent) (cl_last_used c) (cl_revoked c)
    (cl_created_at c).
Definition bindable (id : str) (agent : AgentId) (c : ClientRow) : bool :=
  str_eqb (cl_id c) id && client_live c && is_none_or (N.eqb agent) (cl_agent c).
(** With the trigger: only a web agent is bound. *)
Definition bind_client (id : str) (agent : AgentId) : act StoreError bool :=
  let$ a := act_read (fun a => a) in
  if existsb (bindable id agent) (ac_clients a)
     && negb (bool_decide ((db_agents (ac_db a) !! agent) ≫= ag_runtime = Some WEB_RUNTIME))
  then act_fail (Db CheckViolation)
  else
    let$ n := update_clients (bindable id agent) (bound_to agent) in
    act_ret (Nat.eqb n 1).

Definition client_used (now : Instant) (c : ClientRow) : ClientRow :=
  mkClient (cl_id c) (cl_name c) (cl_redirect_uris c) (cl_secret_hash c) (cl_agent c) (Some now) (cl_revoked c)
    (cl_created_at c).
Definition touch_client (id : str) (now : Instant) : act StoreError unit :=
  let$ _ := update_clients (fun c => str_eqb (cl_id c) id) (client_used now) in
  act_ret tt.

Fixpoint insert_listed (x : ClientRow) (l : list ClientRow) : list ClientRow :=
  match l with
  | [] => [x]
  | y :: l =>
      if Z.ltb (cl_created_at y) (cl_created_at x)
         || Z.eqb (cl_created_at x) (cl_created_at y) && negb (str_ltb (cl_id y) (cl_id x))
      then x :: y :: l else y :: insert_listed x l
  end.
Definition list_clients : act StoreError (list ClientRow) :=
  act_read (fun a => fold_right insert_listed [] (ac_clients a)).
(** A client's live authorizations: unrevoked, unused, unexpired refresh
    tokens. *)
Definition authorization_live (now : Instant) (id : str) (t : TokenRow) : bool :=
  str_eqb (to_client t) id && bool_decide (to_kind t = TRefresh) && is_none (to_revoked_at t)
  && is_none (to_used_at t) && Z.ltb now (to_expires_at t).
Definition live_authorizations (now : Instant) (id : str) : act StoreError nat :=
  act_read (fun a => length (List.filter (authorization_live now id) (ac_tokens a))).

(** *** Tokens *)

(** [UPDATE oauth_tokens ...]: how many rows. *)
Definition update_tokens (p : TokenRow -> bool) (f : TokenRow -> TokenRow) : act StoreError nat :=
  let$ l := act_read ac_tokens in
  let '(rows, n) := update_where p f l in
  act_write (fun a => with_tokens a rows);$ act_ret n.
Definition token_used (now : Instant) (t : TokenRow) : TokenRow :=
  mkToken (to_id t) (to_kind t) (to_hash t) (to_client t) (to_agent t) (to_family t) (to_expires_at t) (Some now)
    (to_revoked_at t) (to_challenge t) (to_redirect_uri t) (to_authorized_by t) (to_created_at t).
Definition token_revoked (now : Instant) (t : TokenRow) : TokenRow :=
  mkToken (to_id t) (to_kind t) (to_hash t) (to_client t) (to_agent t) (to_family t) (to_expires_at t) (to_used_at t)
    (Some now) (to_challenge t) (to_redirect_uri t) (to_authorized_by t) (to_created_at t).

Definition client_revoked (now : Instant) (c : ClientRow) : ClientRow :=
  mkClient (cl_id c) (cl_name c) (cl_redirect_uris c) (cl_secret_hash c) (cl_agent c) (cl_last_used c)
    (match cl_revoked c with Some t => Some t | None => Some now end) (cl_created_at c).
Definition revoke_client (id : str) (now : Instant) : act StoreError bool :=
  let$ n := update_clients (fun c => str_eqb (cl_id c) id) (client_revoked now) in
  let$ _ := update_tokens (fun t => str_eqb (to_client t) id && is_none (to_revoked_at t)) (token_revoked now) in
  act_ret (Nat.eqb n 1).

Definition insert_token (t : TokenRow) : act StoreError TokenRow :=
  let$ a := act_read (fun a => a) in
  if negb (token_checks t) then act_fail (Db CheckViolation)
  else if existsb (fun x => N.eqb (to_id x) (to_id t) || str_eqb (to_hash x) (to_hash t)) (ac_tokens a)
  then act_fail (Db UniqueViolation)
  else if negb (existsb (fun c => str_eqb (cl_id c) (to_client t)) (ac_clients a))
          || is_none (db_agents (ac_db a) !! to_agent t)
  then act_fail (Db ForeignKeyViolation)
  else act_write (fun a => with_tokens a (ac_tokens a ++ [t]));$ act_ret t.

Definition of_live_client (a : Accounts) (t : TokenRow) : bool :=
  existsb (fun c => str_eqb (cl_id c) (to_client t) && client_live c) (ac_clients a).
Definition find_live (token_hash : str) (kind : TokenKind) (now : Instant) : act StoreError (option TokenRow) :=
  act_read (fun a => find (fun t =>
    str_eqb (to_hash t) token_hash && bool_decide (to_kind t = kind) && is_none (to_revoked_at t)
    && Z.ltb now (to_expires_at t) && of_live_client a t) (ac_tokens a)).
Definition agent_for_access (token_hash : str) (now : Instant) : act StoreError (option AgentId) :=
  let$ t := find_live token_hash TAccess now in
  act_ret (to_agent <$> t).

Inductive Consumed := Fresh (t : TokenRow) | Replayed (family : FamilyId) (revoked : nat) | Unknown.

Definition revoke_family (family : FamilyId) (now : Instant) : act StoreError nat :=
  update_tokens (fun t => N.eqb (to_family t) family && is_none (to_revoked_at t)) (token_revoked now).

(** The token presented: unrevoked, unexpired, of this client. *)
Definition presented (token_hash : str) (kind : TokenKind) (client : str) (now : Instant) (t : TokenRow) : bool :=
  str_eqb (to_hash t) token_hash && bool_decide (to_kind t = kind) && str_eqb (to_client t) client
  && is_none (to_revoked_at t) && Z.ltb now (to_expires_at t).
Definition consume (token_hash : str) (kind : TokenKind) (client : str) (now : Instant) : act StoreError Consumed :=
  if bool_decide (kind = TAccess) then act_ret Unknown
  else
    let$ l := act_read ac_tokens in
    let fresh t := presented token_hash kind client now t && is_none (to_used_at t) in
    match find fresh l with
    | Some t =>
        let$ _ := update_tokens fresh (token_used now) in
        act_ret (Fresh (token_used now t))
    | None =>
        match find (fun t => presented token_hash kind client now t && negb (is_none (to_used_at t))) l with
        | None => act_ret Unknown
        | Some t =>
            let$ n := revoke_family (to_family t) now in
            act_ret (Replayed (to_family t) n)
        end
    end.
End store.

(** ** Refusals *)

Inductive OAuthErrorCode :=
| InvalidRequest | InvalidClient | InvalidGrant | UnauthorizedClient | UnsupportedGrantType | InvalidScope
| InvalidClientMetadata | InvalidRedirectUri | AccessDenied.
Record OAuthError := mkOAuthError { oe_error : OAuthErrorCode; oe_description : str }.
Record Refusal := mkRefusal { rf_status : N; rf_body : OAuthError }.
Definition refuse (code : OAuthErrorCode) (text : str) : Refusal := mkRefusal 400 (mkOAuthError code text).
Inductive OAuthFailure := OAuthRefused (r : Refusal) | OAuthStore (e : StoreError).

(** ** The wire's registration *)

Inductive TokenAuthMethod := AuthNone | ClientSecretPost | ClientSecretBasic.
#[export] Instance TokenAuthMethod_eq_dec : EqDecision TokenAuthMethod.
Proof. solve_decision. Defined.
Definition TokenAuthMethod_as_str (m : TokenAuthMethod) : str :=
  match m with
  | AuthNone => lit "none" | ClientSecretPost => lit "client_secret_post" | ClientSecretBasic => lit "client_secret_basic"
  end.
Definition TokenAuthMethod_ALL : list TokenAuthMethod := [AuthNone; ClientSecretPost; ClientSecretBasic].
Definition auth_method_named (s : str) : option TokenAuthMethod :=
  find (fun m => str_eqb (TokenAuthMethod_as_str m) s) TokenAuthMethod_ALL.
(** serde's derive: the variant's name, or an object of it and [null]. *)
Definition auth_method_of (v : Value) : option TokenAuthMethod :=
  match v with
  | VString s => auth_method_named s
  | VObject [(k, VNull)] => auth_method_named k
  | _ => None
  end.

Record ClientRegistration := mkRegistration {
  rg_redirect_uris : list str; rg_auth_method : TokenAuthMethod; rg_client_name : option str }.
Definition MAX_REDIRECT_URIS : nat := 16.
Definition MAX_REDIRECT_URI_LEN : nat := 2048.
Definition uris_err : OAuthError := mkOAuthError InvalidRedirectUri (lit "redirect_uris: a list of URLs").
Definition shown_method `{RustFmt} (v : Value) : str :=
  take 64 (match v with VString s => s | v => value_display v end).

Definition redirect_uri_of (v : Value) : result OAuthError str :=
  match v with
  | VString s => if Nat.leb (str_len s) MAX_REDIRECT_URI_LEN then Ok s else Err uris_err
  | _ => Err uris_err
  end.
(** [ClientRegistration::from_json]. *)
Definition registration_from_json `{RustFmt, JsonRead} (body : bytes) : result OAuthError ClientRegistration :=
  value ← ok_or (json_from_slice body) (mkOAuthError InvalidClientMetadata (lit "a JSON body"));
  map ← match value with
        | VObject map => Ok map
        | _ => Err (mkOAuthError InvalidClientMetadata (lit "a JSON object"))
        end;
  uris ← match map_get (lit "redirect_uris") map with
         | Some (VArray items) =>
             if Nat.ltb 0 (length items) && Nat.leb (length items) MAX_REDIRECT_URIS
             then collect redirect_uri_of items else Err uris_err
         | _ => Err uris_err
         end;
  method ← match map_get (lit "token_endpoint_auth_method") map with
           | None | Some VNull => Ok AuthNone
           | Some v => ok_or (auth_method_of v) (mkOAuthError InvalidClientMetadata
               (lit "token_endpoint_auth_method '" ++ shown_method v ++ lit "' is not supported"))
           end;
  let name := match map_get (lit "client_name") map with
              | None | Some VNull => None
              | Some (VString s) => Some (take 200 s)
              | Some v => Some (take 200 (value_display v))
              end in
  Ok (mkRegistration uris method name).

(** ** The server *)

Definition ACCESS_PREFIX : str := lit "aat_".
Definition REFRESH_PREFIX : str := lit "art_".
Definition CODE_PREFIX : str := lit "aac_".
Definition CLIENT_PREFIX : str := lit "mcpc_".
Definition CODE_TTL : Z := seconds 300.
Definition UNBOUND_CLIENT_TTL : Z := seconds 3600.
Definition HOUR : Z := seconds 3600.
Definition MAX_UNBOUND_CLIENTS : nat := 20.
Definition REGISTRATIONS_PER_HOUR : nat := 20.
Definition MAX_TRACKED_ADDRESSES : nat := 4096.
Definition MAX_REDIRECT_URI_CHARS : nat := 512.
Definition MAX_STATE_CHARS : nat := 1024.

(** The agent name a connector label becomes. *)
Definition name_char (c : char) : bool := is_ascii_lowercase c || is_ascii_digit c || N.eqb c (ch "-").
Fixpoint dashed (in_run : bool) (s : str) : str :=
  match s with
  | [] => []
  | c :: s => if name_char c then c :: dashed false s
              else if in_run then dashed true s else ch "-" :: dashed true s
  end.
Definition connector_name `{UnicodeLower} (label : str) : str :=
  let label := match take 40 (trim_char (ch "-") (dashed false (to_lowercase label))) with
               | [] => lit "connector" | t => t end in
  match strip_prefix (lit "web-") label with Some _ => label | None => lit "web-" ++ label end.
Definition name_ok (rest : str) : bool :=
  match rest with
  | c :: chars => (is_ascii_lowercase c || is_ascii_digit c) && Nat.leb (str_len rest) 41 && forallb name_char chars
  | [] => false
  end.

Record Authorization := mkAuthorization {
  az_client_id : str; az_client_name : str; az_redirect_uri : str; az_state : str; az_code_challenge : str }.
Record ConsentBlob := mkConsent { cb_auth : Authorization; cb_user : str; cb_nonce : str }.
Record TokenForm := mkTokenForm {
  tf_grant_type : option str; tf_code : option str; tf_redirect_uri : option str; tf_code_verifier : option str;
  tf_refresh_token : option str; tf_client_id : option str; tf_client_secret : option str }.
Record TokenPair := mkTokenPair { tp_access : str; tp_refresh : str; tp_expires_in : Z }.

Record OAuthServer := mkOAuthServer {
  os_base : str; os_redirect_uris : list str; os_access_ttl : Z; os_refresh_ttl : Z; os_max_clients : N }.
(** [OAuthServer::new]; time spans in nanoseconds. *)
Definition OAuthServer_new (config : RemoteMcpConfig) : result str OAuthServer :=
  let base := trim_end_char (ch "/") (rm_base_url config) in
  match base with
  | [] => Err (lit "remote_mcp.base_url is required")
  | _ => Ok (mkOAuthServer base (redirect_uris config) (access_ttl config * 1000000000)
              (refresh_ttl config * 1000000000) (max_clients config))
  end.

(** *** The registrations an address may make *)

Abbreviation Registrations := (gmap str (list Instant)) (only parsing).
Definition admit_registration (address : str) (now : Instant) (seen : Registrations) : bool * Registrations :=
  let hour_ago := sat_plus now (- HOUR) in
  let recent t := Z.ltb hour_ago t in
  let seen :=
    if Nat.leb MAX_TRACKED_ADDRESSES (size seen) then
      let kept := filter (fun kv => existsb recent kv.2 = true) seen in
      if Nat.leb MAX_TRACKED_ADDRESSES (size kept) then ∅ else kept
    else seen in
  let times := List.filter recent (default [] (seen !! address)) in
  if Nat.leb REGISTRATIONS_PER_HOUR (length times) then (false, <[address := times]> seen)
  else (true, <[address := times ++ [now]]> seen).

Section server.
Context `{DateLib, UnicodeLower, RustFmt, JsonRead, Sha256, Hex, Base64}.
Variable server : OAuthServer.

Definition hash (token : str) : str := hex_encode (sha256 (as_bytes token)).
Definition pkce_challenge (verifier : str) : str := b64url_encode (sha256 (as_bytes verifier)).
Definition pkce_ok (verifier challenge : str) : bool := ct_eq (as_bytes (pkce_challenge verifier)) (as_bytes challenge).

Definition redirect_ok (uri : str) : bool := existsb (fun allowed => str_eqb allowed uri) (os_redirect_uris server).

(** How a transaction is left: committed, or dropped on an early return. *)
Definition act_close {E A} (m : act E (Closing A)) (a : Accounts) : result E A * Accounts :=
  match m a with
  | Ok (Committed x, a') => (Ok x, a')
  | Ok (Dropped x, _) => (Ok x, a)
  | Err e => (Err e, a)
  end.

Record ClientRegistered := mkRegistered {
  cr_client : ClientRow; cr_secret : option str; cr_auth_method : TokenAuthMethod }.

(** The transaction of [register], of the bytes for the id and the secret. *)
Definition register_tx (reg : ClientRegistration) (id_bytes secret_bytes : bytes) (now : Instant)
  : act StoreError (result Refusal ClientRegistered) :=
  let$ _ := delete_unbound_clients (sat_plus now (- UNBOUND_CLIENT_TTL)) in
  let$ _ := evict_unbound_clients (MAX_UNBOUND_CLIENTS - 1) in
  let$ n := count_live_bound_clients in
  if N.leb (os_max_clients server) (N.of_nat n)
  then act_ret (Err (refuse InvalidClientMetadata (lit "too many registered clients; the operator can revoke some")))
  else
    let id := CLIENT_PREFIX ++ token_urlsafe id_bytes in
    let secret := match rg_auth_method reg with AuthNone => None | _ => Some (token_urlsafe secret_bytes) end in
    let$ row := insert_client id (default [] (rg_client_name reg)) (rg_redirect_uris reg) (hash <$> secret) now in
    act_ret (Ok (mkRegistered row secret (rg_auth_method reg))).

(** What [register] refuses before its transaction. *)
Definition registration_ok (body : bytes) : result Refusal ClientRegistration :=
  reg ← map_err (fun e => mkRefusal 400 e) (registration_from_json body);
  if existsb (fun u => negb (redirect_ok u)) (rg_redirect_uris reg) then
    Err (refuse InvalidRedirectUri
      (lit "this broker sends the browser back only to " ++ join (lit ", ") (os_redirect_uris server)))
  else if existsb (fun u => Nat.ltb MAX_REDIRECT_URI_CHARS (length u)) (rg_redirect_uris reg) then
    Err (refuse InvalidRedirectUri (lit "redirect_uris: at most 512 characters each"))
  else Ok reg.
Definition TOO_MANY : Refusal :=
  mkRefusal 429 (mkOAuthError InvalidClientMetadata
    (lit "too many registrations from this address; try again later")).
Definition register (body : bytes) (address : option str) (id_bytes secret_bytes : bytes) (now : Instant)
  (seen : Registrations) (a : Accounts) : result OAuthFailure ClientRegistered * Registrations * Accounts :=
  match registration_ok body with
  | Err r => (Err (OAuthRefused r), seen, a)
  | Ok reg =>
      let '(admitted, seen) := admit_registration (default (lit "unknown") address) now seen in
      if negb admitted then (Err (OAuthRefused TOO_MANY), seen, a)
      else
        match act_run (register_tx reg id_bytes secret_bytes now) a with
        | (Ok (Ok c), a) => (Ok c, seen, a)
        | (Ok (Err r), a) => (Err (OAuthRefused r), seen, a)
        | (Err e, a) => (Err (OAuthStore e), seen, a)
        end
  end.

(** [client]: a live client, and not an unauthorized one past its hour. *)
Definition client_current (now : Instant) (c : ClientRow) : bool :=
  client_live c && (client_bound c || Z.ltb (sat_plus now (- UNBOUND_CLIENT_TTL)) (cl_created_at c)).
Definition client (id : str) (now : Instant) : act StoreError (option ClientRow) :=
  match id with
  | [] => act_ret None
  | _ =>
      let$ c := get_client id in
      act_ret (match c with Some c => if client_current now c then Some c else None | None => None end)
  end.

(** *** Authorization *)

Definition check_authorize (params : gmap str str) (now : Instant) : act StoreError (result str Authorization) :=
  let get k := default [] (params !! k) in
  let$ c := client (get (lit "client_id")) now in
  match c with
  | None => act_ret (Err (lit "unknown client"))
  | Some c =>
      let redirect_uri := match get (lit "redirect_uri"), cl_redirect_uris c with
                          | [], [only] => only
                          | given, _ => given
                          end in
      let challenge := get (lit "code_challenge") in
      let challenge_ok := Nat.leb 43 (str_len challenge) && Nat.leb (str_len challenge) 128
                          && forallb url_char challenge in
      let state := get (lit "state") in
      act_ret (
        if negb (existsb (str_eqb redirect_uri) (cl_redirect_uris c))
        then Err (lit "redirect_uri is not one this client registered")
        else if negb (str_eqb (get (lit "response_type")) (lit "code")) then Err (lit "only response_type=code")
        else if negb (str_eqb (get (lit "code_challenge_method")) (lit "S256")) || negb challenge_ok
        then Err (lit "PKCE with code_challenge_method=S256 is required")
        else if Nat.ltb MAX_STATE_CHARS (length state) then Err (lit "state: at most 1024 characters")
        else Ok (mkAuthorization (cl_id c) (cl_name c) redirect_uri state challenge))
  end.

Definition bound_agent (c : ClientRow) : act StoreError (option str) :=
  match cl_agent c with
  | Some id => let$ a := on_db (get_agent id) in act_ret (ag_name <$> a)
  | None => act_ret None
  end.

(** What an approval draws: the ids of the agent, the token and its family,
    the agent's key and the code. *)
Record Draws := mkDraws {
  dr_agent : AgentId; dr_key_id : bytes; dr_key_secret : bytes; dr_token : N; dr_family : FamilyId; dr_code : bytes }.

(** The agent a client acts as, made and bound if need be; a refusal's text. *)
Definition connector_agent (c : ClientRow) (label by_ : str) (d : Draws) (now : Instant)
  : act StoreError (result str AgentRow) :=
  let$ agent := match cl_agent c with Some id => on_db (get_agent id) | None => act_ret None end in
  match agent with
  | Some a => act_ret (Ok a)
  | None =>
      let name := connector_name label in
      if negb (name_ok (default name (strip_prefix (lit "web-") name)))
      then act_ret (Err (lit "name: lowercase letters, digits and '-'"))
      else
        let$ existing := on_db (agent_by_name name) in
        let$ row := match existing with
                    | Some a =>
                        act_ret (if bool_decide (ag_runtime a = Some WEB_RUNTIME) then Ok a
                                 else Err (name ++ lit " exists and is not a web connector's agent"))
                    | None =>
                        let key := api_key_generate (dr_key_id d) (dr_key_secret d) in
                        let shown := match cl_name c with [] => cl_id c | n => n end in
                        let$ r := insert_agent (mkNewAgent (dr_agent d) name
                          (lit "Web UI connector: " ++ shown ++ lit ", authorized by " ++ by_)
                          (gk_key_id key) (gk_hash key) Ephemeral None None None None None
                          (Some WEB_RUNTIME) None None Host None None now) in
                        act_ret (Ok r)
                    end in
        match row with
        | Err text => act_ret (Err text)
        | Ok row =>
            let$ ok := bind_client (cl_id c) (ag_id row) in
            act_ret (if ok : bool then Ok row else Err (lit "unknown client"))
        end
  end.

Definition code_row (auth : Authorization) (c : ClientRow) (agent : AgentId) (by_ : str) (d : Draws) (now : Instant)
  : TokenRow :=
  mkToken (dr_token d) TCode (hash (CODE_PREFIX ++ token_urlsafe (dr_code d))) (cl_id c) agent (dr_family d)
    (sat_plus now CODE_TTL) None None (Some (az_code_challenge auth)) (Some (az_redirect_uri auth)) (take 128 by_) now.
(** [approve]: an early return drops the transaction. *)
Definition approve (auth : Authorization) (label by_ : str) (d : Draws) (now : Instant)
  : act StoreError (Closing (result str str)) :=
  let$ c := client (az_client_id auth) now in
  match c with
  | None => act_ret (Dropped (Err (lit "unknown client")))
  | Some c =>
      let$ agent := connector_agent c label by_ d now in
      match agent with
      | Err text => act_ret (Dropped (Err text))
      | Ok agent =>
          if ag_disabled agent then act_ret (Dropped (Err (ag_name agent ++ lit " is disabled")))
          else
            let$ _ := insert_token (code_row auth c (ag_id agent) by_ d now) in
            act_ret (Committed (Ok (CODE_PREFIX ++ token_urlsafe (dr_code d))))
      end
  end.

(** The consent form, once its sealed blob was opened: [None] is a refusal
    of the blob or its cookie. *)
Inductive Consented := Stale | Redirect (uri : str) (params : list (str * str)) | Shown (text : str).
Definition consent (blob : option ConsentBlob) (cookie : str) (form : gmap str str) (d : Draws) (now : Instant)
  (a : Accounts) : result StoreError Consented * Accounts :=
  let get k := default [] (form !! k) in
  match blob with
  | None => (Ok Stale, a)
  | Some b =>
      if bool_decide (cookie = []) || negb (ct_eq (as_bytes cookie) (as_bytes (cb_nonce b))) then (Ok Stale, a)
      else
        let auth := cb_auth b in
        if str_eqb (get (lit "action")) (lit "allow") then
          let label := match get (lit "name"), az_client_name auth with
                       | [], [] => lit "connector"
                       | [], name => name
                       | given, _ => given
                       end in
          match act_close (approve auth label (cb_user b) d now) a with
          | (Ok (Ok code), a) =>
              (Ok (Redirect (az_redirect_uri auth)
                     [(lit "code", code); (lit "state", az_state auth); (lit "iss", os_base server)]), a)
          | (Ok (Err text), a) => (Ok (Shown text), a)
          | (Err e, a) => (Err e, a)
          end
        else
          (Ok (Redirect (az_redirect_uri auth)
                 [(lit "error", lit "access_denied"); (lit "state", az_state auth); (lit "iss", os_base server)]), a)
  end.

(** *** Tokens *)

Definition authenticate (form : TokenForm) (basic : option (str * str)) (now : Instant)
  : act StoreError (result Refusal ClientRow) :=
  let pick (b : option str) (f : option str) :=
    match b with
    | Some (_ :: _ as s) => s
    | _ => default [] f
    end in
  let client_id := pick (fst <$> basic) (tf_client_id form) in
  let secret := pick (snd <$> basic) (tf_client_secret form) in
  let unauthorized text := Err (mkRefusal 401 (mkOAuthError InvalidClient text)) in
  let$ c := client client_id now in
  act_ret (match c with
           | None => unauthorized (lit "unknown client")
           | Some c =>
               match cl_secret_hash c with
               | Some stored =>
                   if bool_decide (secret = []) || negb (ct_eq (as_bytes (hash secret)) (as_bytes stored))
                   then unauthorized (lit "client authentication failed")
                   else Ok c
               | None => Ok c
               end
           end).

(** What a pair draws: two ids and two tokens. *)
Record PairDraws := mkPairDraws { pd_access_id : N; pd_refresh_id : N; pd_access : bytes; pd_refresh : bytes }.
Definition issued_row (id : N) (kind : TokenKind) (token : str) (ttl : Z) (c : ClientRow) (agent : AgentId)
  (family : FamilyId) (by_ : str) (now : Instant) : TokenRow :=
  mkToken id kind (hash token) (cl_id c) agent family (sat_plus now ttl) None None None None by_ now.
Definition pair (c : ClientRow) (agent : AgentId) (family : FamilyId) (by_ : str) (d : PairDraws) (now : Instant)
  : act StoreError TokenPair :=
  let access := ACCESS_PREFIX ++ token_urlsafe (pd_access d) in
  let refresh := REFRESH_PREFIX ++ token_urlsafe (pd_refresh d) in
  let$ _ := insert_token (issued_row (pd_access_id d) TAccess access (os_access_ttl server) c agent family by_ now) in
  let$ _ := insert_token (issued_row (pd_refresh_id d) TRefresh refresh (os_refresh_ttl server) c agent family by_ now) in
  let$ _ := touch_client (cl_id c) now in
  act_ret (mkTokenPair access refresh (Z.quot (os_access_ttl server) 1000000000)).

Definition agent_enabled (id : AgentId) : act StoreError bool :=
  let$ a := on_db (get_agent id) in
  act_ret (match a with Some a => negb (ag_disabled a) | None => false end).

(** A token was consumed: issue from it, unless its agent is disabled. *)
Definition issue_from (c : ClientRow) (row : TokenRow) (d : PairDraws) (now : Instant)
  : act StoreError (result Refusal TokenPair) :=
  let$ enabled := agent_enabled (to_agent row) in
  if negb enabled then act_ret (Err (refuse InvalidGrant (lit "the connector's agent is disabled")))
  else
    let$ p := pair c (to_agent row) (to_family row) (to_authorized_by row) d now in
    act_ret (Ok p).

Definition grant (text : str) : act StoreError (result Refusal TokenPair) := act_ret (Err (refuse InvalidGrant text)).
Definition exchange_code (c : ClientRow) (form : TokenForm) (d : PairDraws) (now : Instant)
  : act StoreError (result Refusal TokenPair) :=
  let$ out := consume (hash (default [] (tf_code form))) TCode (cl_id c) now in
  match out with
  | Unknown => grant (lit "unknown or expired code")
  | Replayed _ _ => grant (lit "this code was already used")
  | Fresh row =>
      let stored := default [] (to_redirect_uri row) in
      let sent := match tf_redirect_uri form with Some (_ :: _ as s) => s | _ => stored end in
      if negb (str_eqb sent stored) then grant (lit "redirect_uri differs from the authorization's")
      else if negb (pkce_ok (default [] (tf_code_verifier form)) (default [] (to_challenge row)))
      then grant (lit "PKCE verification failed")
      else issue_from c row d now
  end.
Definition exchange_refresh (c : ClientRow) (form : TokenForm) (d : PairDraws) (now : Instant)
  : act StoreError (result Refusal TokenPair) :=
  let$ out := consume (hash (default [] (tf_refresh_token form))) TRefresh (cl_id c) now in
  match out with
  | Unknown => grant (lit "unknown or expired refresh token")
  | Replayed _ _ => grant (lit "refresh token reused; sign in again")
  | Fresh row => issue_from c row d now
  end.
Definition exchange_in (form : TokenForm) (basic : option (str * str)) (d : PairDraws) (now : Instant)
  : act StoreError (result Refusal TokenPair) :=
  let$ c := authenticate form basic now in
  match c with
  | Err r => act_ret (Err r)
  | Ok c =>
      match tf_grant_type form with
      | Some g =>
          if str_eqb g (lit "authorization_code") then exchange_code c form d now
          else if str_eqb g (lit "refresh_token") then exchange_refresh c form d now
          else act_ret (Err (refuse UnsupportedGrantType (lit "authorization_code or refresh_token")))
      | None => act_ret (Err (refuse UnsupportedGrantType (lit "authorization_code or refresh_token")))
      end
  end.
(** [exchange]: what a refusal revoked or consumed is committed. *)
Definition exchange (form : TokenForm) (basic : option (str * str)) (d : PairDraws) (now : Instant) (a : Accounts)
  : result StoreError (result Refusal TokenPair) * Accounts := act_run (exchange_in form basic d now) a.

Definition revoke_kind (token : str) (now : Instant) (kind : TokenKind) : act StoreError unit :=
  let$ t := find_live (hash token) kind now in
  match t with
  | Some t => let$ _ := revoke_family (to_family t) now in act_ret tt
  | None => act_ret tt
  end.
Definition revoke (token : str) (now : Instant) : act StoreError unit :=
  match token with
  | [] => act_ret tt
  | _ => let$ _ := revoke_kind token now TAccess in revoke_kind token now TRefresh
  end.

(** [access]: the live token behind an access token. *)
Definition access (token : str) (now : Instant) : act StoreError (option TokenRow) :=
  match strip_prefix ACCESS_PREFIX token with
  | None => act_ret None
  | Some _ => find_live (hash token) TAccess now
  end.

(** *** The operator's routes, and the documents *)

Record ConnectorOut := mkConnectorOut { co_client : ClientRow; co_agent : option str; co_live : nat }.
Fixpoint connectors (now : Instant) (web : list AgentRow) (l : list ClientRow) : act StoreError (list ConnectorOut) :=
  match l with
  | [] => act_ret []
  | c :: l =>
      let$ n := live_authorizations now (cl_id c) in
      let$ out := connectors now web l in
      let name := id ← cl_agent c; ag_name <$> find (fun a => N.eqb (ag_id a) id) web in
      act_ret (mkConnectorOut c name n :: out)
  end.
Definition list_connectors (now : Instant) : act StoreError (list ConnectorOut) :=
  let$ l := list_clients in
  let$ web := list_web in
  connectors now web l.
Definition revoke_connector (id : str) (now : Instant) : act StoreError (result str str) :=
  let$ found := revoke_client id now in
  act_ret (if found : bool then Ok id else Err (lit "no such connector")).

Record AuthorizationServerMetadata := mkMetadata {
  issuer_ : str; authorization_endpoint : str; token_endpoint : str; registration_endpoint : str;
  revocation_endpoint : str; response_types_supported : list str; grant_types_supported : list str;
  code_challenge_methods_supported : list str; token_endpoint_auth_methods_supported : list TokenAuthMethod;
  revocation_endpoint_auth_methods_supported : list TokenAuthMethod;
  authorization_response_iss_parameter_supported : bool; scopes_supported : list str }.
Definition for_base (base : str) : AuthorizationServerMetadata :=
  mkMetadata base (base ++ lit "/oauth/authorize") (base ++ lit "/oauth/token") (base ++ lit "/oauth/register")
    (base ++ lit "/oauth/revoke") [lit "code"] [lit "authorization_code"; lit "refresh_token"] [lit "S256"]
    TokenAuthMethod_ALL TokenAuthMethod_ALL true [].
End server.
