(* ===== verification/SecurityLog.v ===== *)
(** The log of recent security events ([crates/broker/src/security_log.rs]):
    bounded rings, one for what anyone can cause, one per agent for what
    agents cause, one for the rest. *)

From S2P Require Import Prelude Json.
From stdpp Require Import options.

Definition KEEP : nat := 5000.
Definition PER_AGENT : nat := 200.
Definition MAX_FIELD_CHARS : nat := 300.
Definition UNAUTHENTICATED : list str := map lit ["bad_key"; "bad_admin_token"]%string.
Definition AGENT_CAUSED : list str := map lit ["credential_refused"]%string.

Record SecurityEvent := mkEvent {
  ev_kind : str;
  ev_id : str;
  ev_seq : N;
  ev_at : Z;
  ev_fields : list (str * Value);
}.

(** The agents' rings are a map by name. *)
Record Rings := mkRings {
  rg_seq : N;
  rg_unauthenticated : list SecurityEvent;
  rg_agents : list (str * list SecurityEvent);
  rg_agent_events : nat;
  rg_other : list SecurityEvent;
}.
Definition Rings_default : Rings := mkRings 0 [] [] 0 [].

(** [truncate_to_micros] of a number of nanoseconds. *)
Definition truncate_to_micros (t : Z) : Z := t - t mod 1000.

(** ** Rings *)

(** [push_ring]: the oldest go while there are too many. *)
Fixpoint pop_while (fuel : nat) (ring : list SecurityEvent) : list SecurityEvent :=
  match fuel with
  | O => ring
  | S fuel => if Nat.ltb KEEP (length ring) then pop_while fuel (tl ring) else ring
  end.
Definition push_ring (ring : list SecurityEvent) (event : SecurityEvent) : list SecurityEvent :=
  pop_while (length ring + 1) (ring ++ [event]).

(** [max_by_key] of the rings' lengths: the last of the longest. *)
Fixpoint noisiest (best : option (str * nat)) (m : list (str * list SecurityEvent)) : option str :=
  match m with
  | [] => fst <$> best
  | (name, ring) :: m =>
      noisiest (match best with
        | Some (_, n) => if Nat.leb n (length ring) then Some (name, length ring) else best
        | None => Some (name, length ring)
        end) m
  end.
(** [get_mut] of a name: its oldest event goes, and an empty ring with it. *)
Fixpoint pop_agent (name : str) (m : list (str * list SecurityEvent)) : list (str * list SecurityEvent) :=
  match m with
  | [] => []
  | (k, ring) :: m =>
      if str_eqb k name then match tl ring with [] => m | ring => (k, ring) :: m end
      else (k, ring) :: pop_agent name m
  end.
Fixpoint evict (fuel : nat) (m : list (str * list SecurityEvent)) (events : nat)
  : list (str * list SecurityEvent) * nat :=
  match fuel with
  | O => (m, events)
  | S fuel =>
      if Nat.ltb KEEP events then
        match noisiest None m with
        | None => (m, events)
        | Some name => evict fuel (pop_agent name m) (events - 1)
        end
      else (m, events)
  end.
Definition agent_ring (name : str) (m : list (str * list SecurityEvent)) : list SecurityEvent := default [] (map_get name m).
Definition push_agent (r : Rings) (agent : str) (event : SecurityEvent) : Rings :=
  let ring := agent_ring agent (rg_agents r) ++ [event] in
  let events := rg_agent_events r + 1 in
  let '(ring, events) :=
    if Nat.ltb PER_AGENT (length ring) then (tl ring, events - 1) else (ring, events) in
  let '(m, events) := evict events (map_insert agent ring (rg_agents r)) events in
  mkRings (rg_seq r) (rg_unauthenticated r) m events (rg_other r).

(** ** Recording and reading *)

Definition event_fields (fields : list (str * option str)) : list (str * Value) :=
  map_of_list (map (fun kv => (kv.1, match kv.2 with Some v => VString (take MAX_FIELD_CHARS v) | None => VNull end)) fields).
Definition new_event (seq : N) (kind : str) (at_ : Z) (fields : list (str * option str)) : SecurityEvent :=
  mkEvent (lit "security." ++ kind) (lit "s" ++ show_N seq) seq (truncate_to_micros at_) (event_fields fields).
Definition event_agent (e : SecurityEvent) : str :=
  match map_get (lit "agent") (ev_fields e) with Some v => default [] (as_str v) | None => [] end.

(** [SecurityLog::record]: what happens under its lock. *)
Definition record (r : Rings) (kind : str) (at_ : Z) (fields : list (str * option str)) : Rings :=
  let seq := N.min (rg_seq r + 1) (2 ^ 64 - 1) in
  let event := new_event seq kind at_ fields in
  let r := mkRings seq (rg_unauthenticated r) (rg_agents r) (rg_agent_events r) (rg_other r) in
  if existsb (str_eqb kind) UNAUTHENTICATED
  then mkRings seq (push_ring (rg_unauthenticated r) event) (rg_agents r) (rg_agent_events r) (rg_other r)
  else if existsb (str_eqb kind) AGENT_CAUSED then push_agent r (event_agent event) event
  else mkRings seq (rg_unauthenticated r) (rg_agents r) (rg_agent_events r) (push_ring (rg_other r) event).

(** [since_after]: the later ones, oldest first. *)
Definition event_leb (x y : SecurityEvent) : bool :=
  Z.ltb (ev_at x) (ev_at y) || Z.eqb (ev_at x) (ev_at y) && N.leb (ev_seq x) (ev_seq y).
Fixpoint insert_event (x : SecurityEvent) (l : list SecurityEvent) : list SecurityEvent :=
  match l with [] => [x] | y :: l => if event_leb x y then x :: y :: l else y :: insert_event x l end.
Definition since_after (r : Rings) (when_ : Z) (after : option N) (limit : nat) : list SecurityEvent :=
  let all := rg_unauthenticated r ++ concat (map snd (rg_agents r)) ++ rg_other r in
  let later e := Z.ltb when_ (ev_at e) || Z.eqb (ev_at e) when_ && is_none_or (fun a => N.ltb a (ev_seq e)) after in
  take limit (fold_right insert_event [] (List.filter later all)).
Definition since (r : Rings) (when_ : Z) (limit : nat) : list SecurityEvent := since_after r when_ None limit.

(** ** Bounds *)

Definition recorded (events : list (str * Z * list (str * option str))) : Rings :=
  fold_left (fun r e => record r e.1.1 e.1.2 e.2) events Rings_default.

#[local] Opaque KEEP PER_AGENT.

Abbreviation rings := (list (str * list SecurityEvent)).
Definition total (m : rings) : nat := sum_list_with (fun kv => length kv.2) m.

Lemma pop_while_bounded fuel ring : length ring <= KEEP + fuel -> length (pop_while fuel ring) <= KEEP.
Proof.
  revert ring. induction fuel as [|fuel IH]; intros ring Hl; cbn [pop_while]; [lia|].
  destruct (Nat.ltb_spec KEEP (length ring)) as [Hk|]; [|lia]. apply IH. destruct ring; cbn in *; lia.
Qed.
Lemma push_ring_bounded ring e : length (push_ring ring e) <= KEEP.
Proof. unfold push_ring. apply pop_while_bounded. rewrite length_app. cbn. lia. Qed.

(** The noisiest has the longest ring. *)
Lemma noisiest_spec best m name : noisiest best m = Some name ->
  exists n, (best = Some (name, n) \/ exists ring, (name, ring) ∈ m /\ length ring = n) /\
    (forall b k, best = Some (b, k) -> k <= n) /\ forall k ring, (k, ring) ∈ m -> length ring <= n.
Proof.
  revert best. induction m as [|[k ring] m IH]; intros best; cbn [noisiest].
  - destruct best as [[b n]|]; [|done]. cbn. intros [= ->]. exists n.
    split_and!; [by left|by intros ? ? [= _ <-]|by intros ? ? ?%not_elem_of_nil].
  - intros (n & Hn & Hb & Hm)%IH. exists n. destruct best as [[b kb]|].
    + destruct (Nat.leb_spec kb (length ring)) as [Hle|Hlt].
      * pose proof (Hb _ _ eq_refl). split_and!.
        -- right. destruct Hn as [[= -> <-]|(r & ? & ?)]; [by exists ring; split; [left|]|by exists r; split; [right|]].
        -- intros ? ? [= _ <-]. lia.
        -- intros k' r' [[= -> ->]|?]%elem_of_cons; eauto.
      * pose proof (Hb _ _ eq_refl). split_and!; [|done|].
        -- destruct Hn as [?|(r & ? & ?)]; [by left|right; by exists r; split; [right|]].
        -- intros k' r' [[= -> ->]|?]%elem_of_cons; [lia|eauto].
    + pose proof (Hb _ _ eq_refl). split_and!; [|done|].
      * right. destruct Hn as [[= -> <-]|(r & ? & ?)]; [by exists ring; split; [left|]|by exists r; split; [right|]].
      * intros k' r' [[= -> ->]|?]%elem_of_cons; eauto.
Qed.
Lemma noisiest_some best m : best <> None \/ m <> [] -> noisiest best m <> None.
Proof.
  revert best. induction m as [|[k ring] m IH]; intros best H; cbn [noisiest].
  - destruct H as [H|]; [|done]. by destruct best.
  - apply IH. left. destruct best as [[b n]|]; [|done]. by destruct (Nat.leb n (length ring)).
Qed.

(** ** One agent's ring *)

Definition filled (m : rings) : Prop := Forall (fun kv => kv.2 <> [] /\ length kv.2 <= PER_AGENT) m.

Lemma pop_agent_total name m : filled m -> is_Some (map_get name m) -> total m = S (total (pop_agent name m)).
Proof.
  induction m as [|[k ring] m IH]; cbn [map_get pop_agent]; [by intros _ [? [=]]|].
  intros [[Hr _] Hm]%Forall_cons. cbn in Hr.
  unfold str_eqb. rewrite (bool_decide_ext (k = name) (name = k)) by done. case_bool_decide; cbn.
  - intros _. destruct ring as [|e [|e' ring]]; cbn; [done|lia|lia].
  - intros Hs. unfold total in *. rewrite (IH Hm Hs). cbn. lia.
Qed.
Lemma pop_agent_elem name m kv : kv ∈ pop_agent name m -> filled m -> kv.2 <> [] /\ length kv.2 <= PER_AGENT.
Proof.
  induction m as [|[k ring] m IH]; cbn [pop_agent]; [by intros ?%not_elem_of_nil|].
  intros H [[Hr Hl] Hm]%Forall_cons. cbn in Hr, Hl.
  assert (Hin : kv ∈ m -> kv.2 <> [] /\ length kv.2 <= PER_AGENT) by (intros; by apply (proj1 (Forall_forall _ _) Hm)).
  destruct (str_eqb k name).
  - destruct ring as [|e [|e' ring]]; cbn in *; [done|by apply Hin|].
    apply elem_of_cons in H as [->|?]; [|by apply Hin]. cbn. split; [done|lia].
  - apply elem_of_cons in H as [->|?]; [done|by apply IH].
Qed.
Lemma pop_agent_filled name m : filled m -> filled (pop_agent name m).
Proof. intros Hf. apply Forall_forall. intros kv Hin. by eapply pop_agent_elem. Qed.
Lemma pop_agent_above k name m : keys_above k m -> keys_above k (pop_agent name m).
Proof.
  induction 1 as [|[x ring] m Hx Hm IH]; cbn [pop_agent]; [constructor|]. cbn in Hx.
  destruct (str_eqb x name); [destruct (tl ring); [done|]|]; by constructor.
Qed.
Lemma pop_agent_sorted name m : map_sorted m -> map_sorted (pop_agent name m).
Proof.
  induction m as [|[k ring] m IH]; cbn [pop_agent]; [done|]. intros [Hk Hm].
  destruct (str_eqb k name); [destruct (tl ring); [done|by split]|]. split; [by apply pop_agent_above|auto].
Qed.
Lemma pop_agent_other name other m : other <> name -> map_get other (pop_agent name m) = map_get other m.
Proof.
  intros Hne. induction m as [|[k ring] m IH]; cbn [pop_agent map_get]; [done|].
  destruct (str_eqb k name) eqn:E.
  - apply str_eqb_true in E as ->. destruct (tl ring); cbn; unfold str_eqb; by rewrite (bool_decide_false (other = name)).
  - cbn. by rewrite IH.
Qed.

(** ** All the agents' rings *)

Record rings_ok (m : rings) (events : nat) : Prop := {
  ro_sorted : map_sorted m;
  ro_filled : filled m;
  ro_total : total m = events;
}.

Lemma map_get_noisiest m name : map_sorted m -> noisiest None m = Some name ->
  exists ring, map_get name m = Some ring /\ forall k other, (k, other) ∈ m -> length other <= length ring.
Proof.
  intros Hs (n & [?|(ring & Hin & <-)] & _ & Hm)%noisiest_spec; [done|].
  exists ring. split; [by apply map_get_sorted|done].
Qed.

Lemma log_evict_ok fuel m events : rings_ok m events -> events <= KEEP + fuel ->
  rings_ok (evict fuel m events).1 (evict fuel m events).2 /\ (evict fuel m events).2 <= KEEP.
Proof.
  revert m events. induction fuel as [|fuel IH]; intros m events [Hs Hf Ht] Hle; cbn [evict]; [by split; [|cbn; lia]|].
  destruct (Nat.ltb_spec KEEP events) as [Hk|Hk]; [|by split].
  destruct (noisiest None m) as [name|] eqn:En.
  - destruct (map_get_noisiest m name Hs En) as (ring & Hg & _).
    pose proof (pop_agent_total name m Hf ltac:(eauto)) as Hp.
    apply IH; [|lia]. split; [by apply pop_agent_sorted|by apply pop_agent_filled|lia].
  - exfalso. destruct m; [cbn in Ht; lia|]. by apply (noisiest_some None (p :: m)) in En; [|right].
Qed.

Lemma total_insert name ring m : map_sorted m ->
  total (map_insert name ring m) + length (agent_ring name m) = total m + length ring.
Proof.
  unfold agent_ring. induction m as [|[k r] m IH]; cbn [map_insert map_get]; [cbn; lia|].
  intros [Hk Hs]. destruct (str_compare name k) eqn:E; unfold str_eqb.
  - apply str_compare_eq in E as ->. rewrite bool_decide_true by done. cbn. lia.
  - rewrite bool_decide_false by (intros ->; by rewrite str_compare_refl in E).
    rewrite (map_get_above name k m Hk) by (by left). cbn. lia.
  - rewrite bool_decide_false by (intros ->; by rewrite str_compare_refl in E).
    specialize (IH Hs). unfold total in *. cbn in *. lia.
Qed.
Lemma filled_insert name ring m : filled m -> ring <> [] -> length ring <= PER_AGENT -> filled (map_insert name ring m).
Proof.
  intros Hf Hr Hl. induction Hf as [|[k r] m Hk Hm IH]; cbn [map_insert]; [by repeat constructor|].
  destruct (str_compare name k); repeat first [done | constructor].
Qed.
Lemma agent_ring_bounded name m : filled m -> length (agent_ring name m) <= PER_AGENT.
Proof.
  intros Hf. unfold agent_ring. destruct (map_get name m) as [r|] eqn:E; [|cbn; lia].
  apply map_get_elem in E. by apply (proj1 (Forall_forall _ _) Hf) in E as [_ ?].
Qed.

#[local] Transparent PER_AGENT.
(** What a push puts in the agent's ring. *)
Lemma pushed_ring (old : list SecurityEvent) e (n : nat) : length old <= PER_AGENT ->
  let p := if Nat.ltb PER_AGENT (length (old ++ [e])) then (tl (old ++ [e]), n + 1 - 1) else (old ++ [e], n + 1) in
  p.1 <> [] /\ length old <= length p.1 <= S (length old) /\ length p.1 <= PER_AGENT /\ p.2 + length old = n + length p.1.
Proof.
  intros Hl. rewrite length_app. cbn [length]. destruct (Nat.ltb_spec PER_AGENT (length old + 1)) as [Hp|Hp]; cbn [fst snd].
  - destruct old as [|x old]; cbn in *; [cbv in Hp; lia|].
    rewrite length_app. cbn. split_and!; [by destruct old|lia|lia|lia|lia].
  - rewrite length_app. cbn. split_and!; [by destruct old|lia|lia|lia|lia].
Qed.
#[local] Opaque PER_AGENT.

Lemma push_agent_eq r agent e : length (agent_ring agent (rg_agents r)) <= PER_AGENT ->
  exists ring events, ring <> [] /\ length (agent_ring agent (rg_agents r)) <= length ring <= S (length (agent_ring agent (rg_agents r))) /\
    length ring <= PER_AGENT /\
    events + length (agent_ring agent (rg_agents r)) = rg_agent_events r + length ring /\
    rg_agents (push_agent r agent e) = (evict events (map_insert agent ring (rg_agents r)) events).1 /\
    rg_agent_events (push_agent r agent e) = (evict events (map_insert agent ring (rg_agents r)) events).2.
Proof.
  intros Hl. pose proof (pushed_ring _ e (rg_agent_events r) Hl) as Hp. unfold push_agent.
  destruct (if Nat.ltb PER_AGENT _ then _ else _) as [ring events]. destruct Hp as (Hr & Hn & Hb & He).
  exists ring, events. destruct (evict _ _ _). done.
Qed.

Lemma push_agent_ok r agent e : rings_ok (rg_agents r) (rg_agent_events r) -> rg_agent_events r <= KEEP ->
  rings_ok (rg_agents (push_agent r agent e)) (rg_agent_events (push_agent r agent e)) /\
  rg_agent_events (push_agent r agent e) <= KEEP.
Proof.
  intros [Hs Hf Ht] Hk. pose proof (agent_ring_bounded agent _ Hf) as Hl.
  destruct (push_agent_eq r agent e Hl) as (ring & events & Hr & Hn & Hb & He & -> & ->).
  pose proof (total_insert agent ring _ Hs). apply log_evict_ok; [|lia].
  split; [by apply map_insert_sorted|apply filled_insert; [done|done|lia]|lia].
Qed.

(** ** Everything recorded *)

Record log_ok (r : Rings) : Prop := {
  lo_unauthenticated : length (rg_unauthenticated r) <= KEEP;
  lo_other : length (rg_other r) <= KEEP;
  lo_rings : rings_ok (rg_agents r) (rg_agent_events r);
  lo_events : rg_agent_events r <= KEEP;
}.
Lemma record_ok r kind at_ fields : log_ok r -> log_ok (record r kind at_ fields).
Proof.
  intros [Hu Ho Hr He]. unfold record. destruct (existsb _ UNAUTHENTICATED); [|destruct (existsb _ AGENT_CAUSED)].
  - split; cbn [rg_unauthenticated rg_other rg_agents rg_agent_events]; first [done | apply push_ring_bounded].
  - set (r' := mkRings _ _ _ _ _). set (e := new_event _ _ _ _).
    destruct (push_agent_ok r' (event_agent e) e Hr He) as [H1 H2].
    split; [| |exact H1|exact H2]; unfold push_agent; by repeat case_match.
  - split; cbn [rg_unauthenticated rg_other rg_agents rg_agent_events]; first [done | apply push_ring_bounded].
Qed.

Lemma recorded_ok events : log_ok (recorded events).
Proof.
  unfold recorded. assert (H : log_ok Rings_default) by (split; cbn; [lia|lia|by repeat constructor|lia]).
  revert H. generalize Rings_default. induction events as [|[[kind at_] fields] events IH]; cbn; auto using record_ok.
Qed.

(** Whatever is recorded, each ring stays within its bound, the counter is
    what the agents' rings hold together, and that is bounded too. *)
Theorem security_log_bounded events : let r := recorded events in
  length (rg_unauthenticated r) <= KEEP /\ length (rg_other r) <= KEEP /\
  (forall agent, length (agent_ring agent (rg_agents r)) <= PER_AGENT) /\
  rg_agent_events r = total (rg_agents r) /\ total (rg_agents r) <= KEEP.
Proof.
  destruct (recorded_ok events) as [Hu Ho [Hs Hf Ht] He].
  split_and!; [done|done|auto using agent_ring_bounded|done|lia].
Qed.

(** One event too many costs the noisiest one of theirs. *)
Lemma evict_one fuel m : map_sorted m -> forall events other, events <= S KEEP ->
  agent_ring other (evict fuel m events).1 <> agent_ring other m ->
  events = S KEEP /\ forall k ring, (k, ring) ∈ m -> length ring <= length (agent_ring other m).
Proof.
  intros Hs events other Hle. destruct fuel as [|fuel]; cbn [evict]; [done|].
  destruct (Nat.ltb_spec KEEP events) as [Hk|]; [|done]. destruct (noisiest None m) as [name|] eqn:En; [|done].
  assert (Hstop : evict fuel (pop_agent name m) (events - 1) = (pop_agent name m, events - 1)).
  { destruct fuel; cbn [evict]; [done|]. destruct (Nat.ltb_spec KEEP (events - 1)); [lia|done]. }
  rewrite Hstop. cbn [fst]. intros Hne. split; [lia|].
  destruct (decide (other = name)) as [->|Hn].
  - destruct (map_get_noisiest m name Hs En) as (ring & Hg & Hmax). unfold agent_ring. rewrite Hg. exact Hmax.
  - exfalso. apply Hne. unfold agent_ring. by rewrite pop_agent_other.
Qed.

Lemma agent_ring_insert other name ring m : map_sorted m ->
  agent_ring other (map_insert name ring m) = if str_eqb other name then ring else agent_ring other m.
Proof. intros Hs. unfold agent_ring. rewrite map_get_insert by done. by destruct (str_eqb other name). Qed.

(** An event of one agent leaves another's ring alone, unless all the rings
    are full together and that one is the longest of them. *)
Theorem noisiest_pays events kind at_ fields other : let r := recorded events in
  let r' := record r kind at_ fields in
  agent_ring other (rg_agents r') <> agent_ring other (rg_agents r) ->
  other = event_agent (new_event (rg_seq r') kind at_ fields) \/
  rg_agent_events r = KEEP /\
  forall agent, length (agent_ring agent (rg_agents r)) <= length (agent_ring other (rg_agents r)).
Proof.
  pose proof (recorded_ok events) as Hok. revert Hok. generalize (recorded events). intros r Hok.
  destruct Hok as [_ _ [Hs Hf Ht] He]. cbv zeta. unfold record.
  destruct (existsb _ UNAUTHENTICATED); [done|]. destruct (existsb _ AGENT_CAUSED); [|done].
  set (r' := mkRings _ _ _ _ _). set (e := new_event _ _ _ _). intros Hne.
  set (agent := event_agent e) in *. destruct (decide (other = agent)) as [->|Hd].
  { left. unfold agent, e, push_agent. by repeat case_match. }
  right. pose proof (agent_ring_bounded agent _ Hf) as Hl.
  destruct (push_agent_eq r' agent e Hl) as (ring & n & Hr & Hn & _ & Hsum & Hm & _). rewrite Hm in Hne.
  assert (Hsame : agent_ring other (map_insert agent ring (rg_agents r)) = agent_ring other (rg_agents r)).
  { rewrite agent_ring_insert by done. unfold str_eqb. by rewrite bool_decide_false. }
  cbn [rg_agents rg_agent_events r'] in *. rewrite <- Hsame in Hne.
  destruct (evict_one n _ (map_insert_sorted agent ring _ Hs) n other ltac:(lia) Hne) as [Hfull Hmax].
  split; [lia|]. rewrite Hsame in Hmax. intros a. destruct (decide (a = agent)) as [->|Ha].
  - transitivity (length ring); [lia|]. apply (Hmax agent). apply map_get_elem.
    rewrite map_get_insert by done. unfold str_eqb. by rewrite bool_decide_true.
  - unfold agent_ring at 1. destruct (map_get a (rg_agents r)) as [l|] eqn:E; [|cbn; lia].
    apply (Hmax a). apply map_get_elem. rewrite map_get_insert by done. unfold str_eqb. by rewrite bool_decide_false.
Qed.

(** ** A full log *)

Definition refused (agent : str) : str * Z * list (str * option str) :=
  (lit "credential_refused", 0%Z, [(lit "agent", Some agent)]).
(** Twenty-five agents with all the events an agent may have. *)
Definition full_log : list (str * Z * list (str * option str)) :=
  concat (map (fun i => repeat (refused [97 + N.of_nat i]%N) PER_AGENT) (seq 0 25)).

(** A first event of one more agent costs another agent its oldest. *)
Lemma noisiest_pays_witness :
  agent_ring (lit "y") (rg_agents (record (recorded full_log) (lit "credential_refused") 0 [(lit "agent", Some (lit "z"))]))
    <> agent_ring (lit "y") (rg_agents (recorded full_log)) /\
  (lit "y" = lit "z" \/ rg_agent_events (recorded full_log) = KEEP /\
    forall agent, length (agent_ring agent (rg_agents (recorded full_log)))
      <= length (agent_ring (lit "y") (rg_agents (recorded full_log)))).
Proof.
  assert (Hne : agent_ring (lit "y")
      (rg_agents (record (recorded full_log) (lit "credential_refused") 0 [(lit "agent", Some (lit "z"))]))
    <> agent_ring (lit "y") (rg_agents (recorded full_log))).
  { intros E. apply (f_equal length) in E. revert E.
    assert (Hl : length (agent_ring (lit "y") (rg_agents (record (recorded full_log) (lit "credential_refused") 0
      [(lit "agent", Some (lit "z"))]))) = 199) by (vm_compute; reflexivity).
    assert (Hr : length (agent_ring (lit "y") (rg_agents (recorded full_log))) = 200) by (vm_compute; reflexivity).
    rewrite Hl, Hr. lia. }
  split; [exact Hne|].
  destruct (noisiest_pays full_log (lit "credential_refused") 0 [(lit "agent", Some (lit "z"))] (lit "y") Hne) as [E|E]; [by left|by right].
Defined.
