(* ===== verification/RemoteMcp.v ===== *)
(** The remote MCP endpoint ([crates/broker/src/remote_mcp/mod.rs]): the
    tools it serves, their arguments, and what each tool does as the calls
    it makes on the broker's own agent API, in order, with the clock and the
    minted sessions as state. Everything outside a call, other calls of the
    endpoint included, is [Outside]. *)

From stdpp Require Import gmap.
From S2P Require Import Prelude Json Pyfmt Pool Mail Schema Policy Zones Eval TotpCode CanonicalJson F64 Transcript Envelope Names Store Pairing Accounts McpTools.
From stdpp Require Import options.

(** Third-party code: pretty JSON, query strings, what the [http] crate
    takes as a URI and as a header's value, and its reason phrases. *)
Class WebLib := {
  to_string_pretty : Value -> str;
  form_urlencode : list (str * str) -> str;
  uri_ok : str -> bool;
  header_ok : str -> bool;
  canonical_reason : N -> option str;
}.

(** ** Text *)

(** The first scalar of some bytes, or none for the longest part of one that
    is cut short; and how many bytes that is. *)
Definition utf8_first (bs : bytes) : option char * nat :=
  (match bs with
   | [] => (None, 0%nat)
   | b0 :: r0 =>
       if b0 <? 128 then (Some b0, 1%nat)
       else if in_range 0xC2 0xDF b0 then
         match r0 with
         | b1 :: _ => if in_range 128 191 b1 then (Some ((b0 - 192) * 64 + (b1 - 128)), 2%nat) else (None, 1%nat)
         | [] => (None, 1%nat)
         end
       else if in_range 0xE0 0xEF b0 then
         match r0 with
         | b1 :: r1 =>
             if in_range (if b0 =? 0xE0 then 0xA0 else 128) (if b0 =? 0xED then 0x9F else 191) b1 then
               match r1 with
               | b2 :: _ =>
                   if in_range 128 191 b2 then (Some ((b0 - 224) * 4096 + (b1 - 128) * 64 + (b2 - 128)), 3%nat)
                   else (None, 2%nat)
               | [] => (None, 2%nat)
               end
             else (None, 1%nat)
         | [] => (None, 1%nat)
         end
       else if in_range 0xF0 0xF4 b0 then
         match r0 with
         | b1 :: r1 =>
             if in_range (if b0 =? 0xF0 then 0x90 else 128) (if b0 =? 0xF4 then 0x8F else 191) b1 then
               match r1 with
               | b2 :: r2 =>
                   if in_range 128 191 b2 then
                     match r2 with
                     | b3 :: _ =>
                         if in_range 128 191 b3
                         then (Some ((b0 - 240) * 262144 + (b1 - 128) * 4096 + (b2 - 128) * 64 + (b3 - 128)), 4%nat)
                         else (None, 3%nat)
                     | [] => (None, 3%nat)
                     end
                   else (None, 2%nat)
               | [] => (None, 2%nat)
               end
             else (None, 1%nat)
         | [] => (None, 1%nat)
         end
       else (None, 1%nat)
   end)%N.
Fixpoint lossy_go (fuel : nat) (bs : bytes) : str :=
  match fuel, bs with
  | S fuel, _ :: _ => let '(c, n) := utf8_first bs in default 0xFFFD%N c :: lossy_go fuel (drop n bs)
  | _, _ => []
  end.
(** [String::from_utf8_lossy]. *)
Definition from_utf8_lossy (bs : bytes) : str := lossy_go (length bs) bs.

(** A path segment, percent-encoded. *)
Definition seg_byte (b : N) : str :=
  if is_ascii_alphanumeric b || N.eqb b (ch "-") || N.eqb b (ch ".") || N.eqb b (ch "_") || N.eqb b (ch "~")
  then [b] else [ch "%"; hex_upper_digit (b / 16); hex_upper_digit (b mod 16)].
Definition seg (text : str) : str := flat_map seg_byte (as_bytes text).

(** ** What is served *)

Definition SESSIONED : list str :=
  map lit ["request_access"; "check_a2a"; "a2a_open"; "a2a_send"; "a2a_poll"; "a2a_threads"; "a2a_accept";
    "a2a_reject"; "a2a_close"; "a2a_events"; "host_run"]%string.
Definition WAITING : list str :=
  map lit ["pending"; "llm_evaluating"; "awaiting_human"; "approved"; "provisioning"]%string.
Definition JOB_ENDED : list str := map lit ["done"; "refused"; "lost"]%string.
Definition STALE_SESSION : str := lit "unknown or closed session".
Definition MAX_SESSIONS : nat := 1000.
Definition MAX_API_BODY : N := 33554432.
Definition POLL_SLICE : N := 0x404E000000000000.
(** Half a second. *)
Definition PAUSE : Z := 500000000.

(** [RemoteMcp::new]: the tools of the policy, each once, none of them one
    that is never served. *)
Fixpoint serve (served : list ToolDef) (names : list str) : result str (list ToolDef) :=
  match names with
  | [] => Ok served
  | name :: names =>
      if existsb (str_eqb name) REMOTE_NEVER_SERVED then serve served names
      else match tool name with
           | None => Err (lit "remote_mcp.tools: no such tools: " ++ name)
           | Some def =>
               if existsb (fun d => str_eqb (td_name d) (td_name def)) served then serve served names
               else serve (served ++ [def]) names
           end
  end.
Definition RemoteMcp_new (config : RemoteMcpConfig) : result str (list ToolDef) := serve [] (rm_tools config).

(** [RemoteMcp::allows]: whether a connector's token may call a route. *)
Definition allows (served : list ToolDef) (method path : str) : bool :=
  existsb (fun t => existsb (fun r => str_eqb (ro_method r) method && route_matches (ro_path r) path)
    (api_routes (td_name t))) served.

Definition description (def : ToolDef) : str :=
  td_description def ++ (if is_none (wait_param (td_name def)) then [] else REMOTE_WAIT_NOTE).

Definition rerun_note (tool : str) : str :=
  text "This server waits at most 50s per call. If this is still pending (no decision, no new message), nothing went wrong: call "
  ++ tool ++ text " again, as many times as it takes.".

(** ** Arguments *)

Definition Args : Type := list (str * Value).
Definition Ty_debug (ty : Ty) : str :=
  match ty with
  | TStr => lit "Str" | TInt => lit "Int" | TNum => lit "Num" | TBool => lit "Bool"
  | TObj => lit "Obj" | TStrMap => lit "StrMap" | TStrList => lit "StrList"
  end.
Definition is_text (v : Value) : bool := negb (is_none (as_str v)).
Definition arg_fits (p : Param) (v : Value) : bool :=
  match v, pa_ty p with
  | VNull, _ => pa_nullable p || bool_decide (pa_default p = Null)
  | VString _, TStr | VBool _, TBool | VObject _, TObj => true
  | VNumber n, TNum => f64_finite (Number_as_f64 n)
  | VNumber n, TInt => negb (is_none (Number_as_i64 n))
  | VArray items, TStrList => forallb is_text items
  | VObject m, TStrMap => forallb (fun kv => is_text kv.2) m
  | _, _ => false
  end.
Fixpoint read_args (params : list Param) (given map : Args) : result str Args :=
  match params with
  | [] => Ok map
  | p :: params =>
      match match map_get (pa_name p) given with Some v => Some v | None => DefaultValue_value (pa_default p) end with
      | None => Err (pa_name p ++ lit ": a value is required")
      | Some v =>
          if arg_fits p v then read_args params given (map_insert (pa_name p) v map)
          else Err (pa_name p ++ lit ": not a valid " ++ Ty_debug (pa_ty p))
      end
  end.
(** [Args::new]. *)
Definition Args_new (def : ToolDef) (given : option Args) : result str Args :=
  read_args (td_params def) (default [] given) [].

Definition arg_v (a : Args) (name : string) : Value := default VNull (map_get (lit name) a).
Definition arg_opt_s (a : Args) (name : string) : option str := v ← map_get (lit name) a; as_str v.
Definition arg_s (a : Args) (name : string) : str := default [] (arg_opt_s a name).
Definition arg_f_of (a : Args) (name : str) : f64 := default 0%N (v ← map_get name a; as_f64 v).
Definition arg_f (a : Args) (name : string) : f64 := arg_f_of a (lit name).
Arguments arg_v _ _%_string.
Arguments arg_opt_s _ _%_string.
Arguments arg_s _ _%_string.
Arguments arg_f _ _%_string.
(** [filter(|s| !s.is_empty())]. *)
Definition nonblank (o : option str) : option str := match o with Some [] => None | o => o end.

(** [json!] of a float. *)
Definition json_f64 (x : f64) : Value := match Number_from_f64 x with Some n => VNumber n | None => VNull end.

(** ** Calls on the agent API *)

Record BrokerError := mkBrokerError { be_status : N; be_detail : str }.
Definition is_stale (e : BrokerError) : bool := N.eqb (be_status e) 401 && str_eqb (be_detail e) STALE_SESSION.
Definition BrokerError_text (e : BrokerError) : str :=
  to_python_default_string (json_obj
    [(lit "error", VString (be_detail e)); (lit "status_code", VNumber (PosInt (be_status e)))]).

Record Minted := mkMinted { mt_id : str; mt_last_used : Instant }.
Record ApiCall := mkCall {
  ca_method : str; ca_path : str; ca_query : list (str * str); ca_body : option Value; ca_session : option str }.
Record ApiAnswer := mkAnswer { an_status : N; an_body : bytes; an_took : N }.

(** What runs beside a call: the API (none before [set_agent_api]), the
    broker's shutdown, the wall clock of each reading of the clock, how late
    a sleep ends, and what the other calls do to the minted sessions. *)
Record Outside := mkOutside {
  ou_api : option (nat -> ApiCall -> ApiAnswer);
  ou_stopping : Z -> bool;
  ou_utc : Z -> Instant;
  ou_late : nat -> N;
  ou_others : nat -> gmap N Minted -> gmap N Minted;
}.
(** The caller: its authorization's family and its address. *)
Record McpCaller := mkMcpCaller { mc_family : N; mc_address : option str }.

(** The clock in nanoseconds, how often the task gave way to others, the
    calls made, and the sessions minted, by family. *)
Record Mcp := mkMcp {
  st_clock : Z;
  st_turn : nat;
  st_calls : list ApiCall;
  st_sessions : gmap N Minted;
}.

(** A task; none: it is still running. *)
Definition task (A : Type) : Type := Mcp -> option (result BrokerError A * Mcp).
Definition task_ret {A} (x : A) : task A := fun s => Some (Ok x, s).
Definition task_fail {A} (e : BrokerError) : task A := fun s => Some (Err e, s).
Definition task_bind {A B} (m : task A) (f : A -> task B) : task B := fun s =>
  match m s with
  | Some (Ok x, s') => f x s'
  | Some (Err e, s') => Some (Err e, s')
  | None => None
  end.
(** The result as a value, a refusal too. *)
Definition task_try {A} (m : task A) : task (result BrokerError A) := fun s =>
  match m s with Some (r, s') => Some (Ok r, s') | None => None end.
Definition task_read {A} (f : Mcp -> A) : task A := fun s => Some (Ok (f s), s).
Definition with_minted (f : gmap N Minted -> gmap N Minted) : task unit := fun s =>
  Some (Ok tt, mkMcp (st_clock s) (st_turn s) (st_calls s) (f (st_sessions s))).

Declare Scope task_scope.
Delimit Scope task_scope with task.
Notation "'let>' x ':=' m 'in' k" := (task_bind m (fun x => k))
  (at level 200, x pattern, m at level 100, k at level 200, right associativity) : task_scope.
Notation "m ';>' k" := (task_bind m (fun _ => k)) (at level 100, right associativity) : task_scope.
Open Scope task_scope.

Section api.
Context `{RustFmt, JsonRead, WebLib} (outside : Outside) (caller : McpCaller).

Definition pretty (v : Value) : str := to_string_pretty v.

(** The result of a capped call: merged into an object, around other JSON,
    or after text. *)
Definition with_rerun_note (tool out : str) : str :=
  match json_from_slice (as_bytes out) with
  | Some (VObject map) => pretty (VObject (map_insert (lit "rerun") (VString (rerun_note tool)) map))
  | Some other => pretty (json_obj [(lit "result", other); (lit "rerun", VString (rerun_note tool))])
  | None => out ++ [10; 10]%N ++ rerun_note tool
  end.

(** A number of seconds as text: Python's float for a whole one. *)
Definition num (x : f64) : str :=
  match f64_integer x with
  | Some z =>
      if Z.ltb (Z.abs z) (10 ^ 15)
      then (if N.testbit x 63 then lit "-" else []) ++ show_N (Z.abs_N z) ++ lit ".0"
      else f64_display x
  | None => f64_display x
  end.

(** The request can be made: its URI and its headers are well-formed. *)
Definition call_uri (c : ApiCall) : str :=
  match ca_query c with [] => ca_path c | q => ca_path c ++ lit "?" ++ form_urlencode q end.
Definition request_ok (c : ApiCall) : bool :=
  uri_ok (call_uri c) && is_none_or header_ok (ca_session c) && is_none_or header_ok (mc_address caller).

Definition error_detail (status : N) (body : bytes) : str :=
  let detail := match json_from_slice body with
    | Some (VObject m) =>
        match map_get (lit "detail") m with
        | Some (VString s) => s
        | Some other => value_display other
        | None => from_utf8_lossy body
        end
    | _ => from_utf8_lossy body
    end in
  match detail with [] => default [] (canonical_reason status) | _ => detail end.
Definition answer_value (a : ApiAnswer) : result BrokerError Value :=
  if N.ltb MAX_API_BODY (N.of_nat (length (an_body a))) then Err (mkBrokerError (an_status a) (lit "the answer was too large"))
  else if N.leb 400 (an_status a) then Err (mkBrokerError (an_status a) (error_detail (an_status a) (an_body a)))
  else ok_or (json_from_slice (an_body a)) (mkBrokerError (an_status a) (lit "the broker's answer was not JSON")).

(** [Api::call]. *)
Definition call (c : ApiCall) : task Value := fun s =>
  match ou_api outside with
  | None => Some (Err (mkBrokerError 503 (lit "the agent API is not available here")), s)
  | Some api =>
      if negb (request_ok c) then Some (Err (mkBrokerError 0 (lit "could not make the request")), s)
      else
        let a := api (st_turn s) c in
        Some (answer_value a,
          mkMcp (st_clock s + Z.of_N (an_took a)) (S (st_turn s)) (st_calls s ++ [c])
            (ou_others outside (st_turn s) (st_sessions s)))
  end.
Definition get (path : str) (query : list (str * str)) (session : option str) : task Value :=
  call (mkCall (lit "GET") path query None session).
Definition post (path : str) (body : option Value) (session : option str) : task Value :=
  call (mkCall (lit "POST") path [] body session).

Definition sleep (d : Z) : task unit := fun s =>
  Some (Ok tt, mkMcp (st_clock s + d + Z.of_N (ou_late outside (st_turn s))) (S (st_turn s)) (st_calls s)
    (ou_others outside (st_turn s) (st_sessions s))).

(** [Api::poll]: [fuel] turns of its loop. *)
Fixpoint poll_loop (fuel : nat) (deadline : Z) (path : str) (query : f64 -> list (str * str)) (sess : option str)
    (settled : Value -> bool) : task Value :=
  match fuel with
  | O => fun _ => None
  | S fuel =>
      let> begun := task_read st_clock in
      let left := f64_of_nanos (Z.max 0 (deadline - begun)) in
      let> out := get path (query (f64_clamp left 0 POLL_SLICE)) sess in
      let> now := task_read st_clock in
      if settled out || Z.leb deadline now || ou_stopping outside now then task_ret out
      else
        (if Z.ltb (now - begun) PAUSE then sleep (Z.min PAUSE (Z.max 0 (deadline - now))) else task_ret tt);>
        poll_loop fuel deadline path query sess settled
  end.
Definition DAY_SECS : f64 := 0x40F5180000000000.
Definition poll_nanos (total : f64) : Z := nanos_of_f64 (f64_clamp total 0 DAY_SECS).
Definition poll_fuel (total : f64) : nat := Z.to_nat (poll_nanos total / PAUSE) + 2.
Definition poll (total : f64) (path : str) (query : f64 -> list (str * str)) (sess : option str)
    (settled : Value -> bool) : task Value :=
  let> start := task_read st_clock in
  poll_loop (poll_fuel total) (start + poll_nanos total) path query sess settled.

(** ** Sessions *)

Definition lookup_minted (now : Instant) : task (option str) := fun s =>
  match st_sessions s !! mc_family caller with
  | None => Some (Ok None, s)
  | Some m =>
      Some (Ok (Some (mt_id m)), mkMcp (st_clock s) (st_turn s) (st_calls s)
        (<[mc_family caller := mkMinted (mt_id m) now]> (st_sessions s)))
  end.
(** Waiting for the lock of [mint]. *)
Definition give_way : task unit := fun s =>
  Some (Ok tt, mkMcp (st_clock s) (S (st_turn s)) (st_calls s) (ou_others outside (st_turn s) (st_sessions s))).
Definition older (x y : N * Minted) : bool := Z.ltb (mt_last_used x.2) (mt_last_used y.2).
Fixpoint oldest (best : option (N * Minted)) (l : list (N * Minted)) : option N :=
  match l with
  | [] => fst <$> best
  | x :: l => oldest (match best with Some b => if older x b then Some x else best | None => Some x end) l
  end.
Definition keep_minted (family : N) (m : Minted) (map : gmap N Minted) : gmap N Minted :=
  let map := if Nat.leb MAX_SESSIONS (size map)
             then match oldest None (map_to_list map) with Some f => delete f map | None => map end
             else map in
  <[family := m]> map.
(** [Api::minted]. *)
Definition minted : task str :=
  let> clock := task_read st_clock in
  let now := ou_utc outside clock in
  let> found := lookup_minted now in
  match found with
  | Some id => task_ret id
  | None =>
      give_way;>
      let> found := lookup_minted now in
      match found with
      | Some id => task_ret id
      | None =>
          let> out := post (lit "/v1/sessions") (Some (json_obj [(lit "label", VString (lit "web"))])) None in
          match v ← value_get out (lit "session_id"); as_str v with
          | None => task_fail (mkBrokerError 0 (lit "the broker did not return a session"))
          | Some id => with_minted (keep_minted (mc_family caller) (mkMinted id now));> task_ret id
          end
      end
  end.
Definition forgotten (id : str) (map : gmap N Minted) : gmap N Minted :=
  match map !! mc_family caller with
  | Some m => if str_eqb (mt_id m) id then delete (mc_family caller) map else map
  | None => map
  end.
Definition forget (id : str) : task unit := with_minted (forgotten id).
End api.

(** ** The tools *)

Section tools.
Context `{RustFmt, JsonRead, WebLib} (outside : Outside) (caller : McpCaller).
#[local] Notation get := (get outside caller).
#[local] Notation post := (post outside caller).
#[local] Notation poll := (poll outside caller).

(** [format!] of a route: its parts, the given ones as segments. *)
Definition under (before id after : str) : str := before ++ seg id ++ after.
Definition status_of (v : Value) : option str := x ← value_get v (lit "status"); as_str x.
Definition status_in (l : list str) (v : Value) : bool :=
  match status_of v with Some s => existsb (str_eqb s) l | None => false end.
Definition field_str (v : Value) (k : str) : option str := x ← value_get v k; as_str x.
Definition array_in (k : str) (v : Value) : bool :=
  match value_get v k with Some (VArray (_ :: _)) => true | _ => false end.
Definition opt_query (k : str) (o : option str) : list (str * str) := match nonblank o with Some v => [(k, v)] | None => [] end.

Definition request_access (a : Args) (sess : option str) : task Value :=
  let scope := match arg_v a "scope" with VNull => json_obj [] | other => other end in
  post (lit "/v1/requests") (Some (json_obj
    [(lit "platform", VString (arg_s a "platform")); (lit "capability", VString (arg_s a "capability"));
     (lit "resource", VString (arg_s a "resource")); (lit "scope", scope);
     (lit "justification", VString (arg_s a "justification"));
     (lit "requested_duration", VString (arg_s a "duration"));
     (lit "on_behalf_of_thread", arg_v a "on_behalf_of_thread")])) sess.

(** [Api::wait] and [Api::host_job]: until it is decided, until it ended. *)
Definition wait (request_id : str) (total : f64) (sess : option str) : task Value :=
  poll total (under (lit "/v1/requests/") request_id (lit "/wait")) (fun t => [(lit "timeout", num t)]) sess
    (fun out => negb (status_in WAITING out)).
Definition host_job (job_id : str) (total : f64) (sess : option str) : task Value :=
  poll total (under (lit "/v1/hostexec/jobs/") job_id []) (fun t => [(lit "wait", num t)]) sess (status_in JOB_ENDED).

Definition THREE_HUNDRED : f64 := 0x4072C00000000000.
Definition run_scope (a : Args) : list (str * Value) :=
  let scope := map_of_list [(lit "tier", VString (arg_s a "tier")); (lit "argv", arg_v a "argv");
                            (lit "timeout", arg_v a "timeout_secs")] in
  let scope := match nonblank (arg_opt_s a "cwd") with
    | Some cwd => map_insert (lit "cwd") (VString cwd) scope | None => scope end in
  let scope := match arg_v a "env" with
    | VObject (_ :: _) as env => map_insert (lit "env") env scope | _ => scope end in
  match arg_v a "stdin" with VNull => scope | stdin => map_insert (lit "stdin") stdin scope end.
(** The request it makes for the model. *)
Definition host_run_body (a : Args) : Value :=
  json_obj
    [(lit "platform", VString (lit "hostexec")); (lit "capability", VString (lit "run"));
     (lit "resource", VString (arg_s a "host")); (lit "scope", VObject (run_scope a));
     (lit "justification", VString (arg_s a "justification")); (lit "requested_duration", VString (lit "1h"));
     (lit "on_behalf_of_thread", arg_v a "on_behalf_of_thread")].
Definition host_run (a : Args) (sess : option str) : task Value :=
  let body := host_run_body a in
  let secs := arg_f a "wait_secs" in
  let> req := post (lit "/v1/requests") (Some body) sess in
  let id := default [] (field_str req (lit "id")) in
  let> req := (if existsb (str_eqb (default [] (status_of req))) WAITING && f64_ltb 0 secs
               then wait id (f64_min secs THREE_HUNDRED) sess else task_ret req) in
  let out := map_insert (lit "request") req [] in
  if str_eqb (default [] (status_of req)) (lit "granted") then
    let> job := host_job id (f64_min secs THREE_HUNDRED) sess in
    task_ret (VObject (map_insert (lit "job") job out))
  else task_ret (VObject out).

Definition mail_list (a : Args) : task Value :=
  get (under (lit "/v1/mail/") (arg_s a "grant_id") (lit "/messages"))
    ([(lit "limit", value_display (arg_v a "limit"))] ++ opt_query (lit "page") (arg_opt_s a "page")
      ++ opt_query (lit "search") (arg_opt_s a "search")) None.
Definition close_session (a : Args) : task Value :=
  let key := arg_s a "session_key" in
  let> out := task_try (post (lit "/v1/sessions/close") None (Some key)) in
  match out with
  | Ok v => forget caller key;> task_ret v
  | Err e => task_fail e
  end.
Definition a2a_poll (a : Args) (sess : option str) : task Value :=
  poll (arg_f a "wait") (under (lit "/v1/a2a/threads/") (arg_s a "thread_id") (lit "/messages"))
    (fun t => [(lit "after_seq", value_display (arg_v a "after_seq")); (lit "wait", num t)]) sess
    (fun out => array_in (lit "messages") out
       || match thread ← value_get out (lit "thread"); field_str thread (lit "state") with
          | Some s => str_eqb s (lit "closed") | None => false end).
Definition a2a_events (a : Args) (sess : option str) : task Value :=
  poll (arg_f a "wait") (lit "/v1/a2a/events")
    (fun t => [(lit "wait", num t)] ++ opt_query (lit "after") (arg_opt_s a "after")) sess
    (fun out => array_in (lit "pending_opens") out || array_in (lit "activity") out).
Definition a2a_end (verb : str) (a : Args) (sess : option str) : task Value :=
  post (under (lit "/v1/a2a/threads/") (arg_s a "thread_id") (lit "/" ++ verb))
    (Some (json_obj [(lit "reason", arg_v a "reason")])) sess.
Definition host_shell_exec (a : Args) : task Value :=
  let secs := arg_f a "wait_secs" in
  let first := f64_min secs POLL_SLICE in
  let body := map_of_list
    [(lit "argv", arg_v a "argv"); (lit "cwd", arg_v a "cwd"); (lit "stdin", arg_v a "stdin");
     (lit "timeout", arg_v a "timeout_secs"); (lit "wait", json_f64 first)] in
  let body := match arg_v a "scope_id" with
    | VString (_ :: _) as scope => map_insert (lit "scope_id") scope body | _ => body end in
  let> job := post (under (lit "/v1/hostexec/shells/") (arg_s a "grant_id") (lit "/exec")) (Some (VObject body)) None in
  let id := match value_get job (lit "job_id") with
    | Some v => as_str v
    | None => field_str job (lit "id")
    end in
  match id with
  | Some id => if f64_ltb first secs && negb (status_in JOB_ENDED job)
               then host_job id (f64_sub secs first) None else task_ret job
  | None => task_ret job
  end.
Definition host_shell_close (a : Args) : task Value :=
  let grant := under (lit "/v1/hostexec/shells/") (arg_s a "grant_id") [] in
  post (match arg_v a "scope_id" with
        | VString scope => grant ++ under (lit "/scopes/") scope (lit "/close")
        | _ => grant ++ lit "/close"
        end) None None.

(** What each tool does. *)
Definition tool_table : list (str * (Args -> option str -> task Value)) :=
  [(lit "whoami", fun a sess => get (lit "/v1/me") [] None);
   (lit "list_capabilities", fun a sess => get (lit "/v1/catalog") [] None);
   (lit "request_access", request_access);
   (lit "wait_for_decision", fun a sess => wait (arg_s a "request_id") (arg_f a "timeout_secs") None);
   (lit "check_status", fun a sess => get (under (lit "/v1/requests/") (arg_s a "request_id") []) [] None);
   (lit "retry_request", fun a sess =>
     post (under (lit "/v1/requests/") (arg_s a "request_id") (lit "/retry"))
       (Some (json_obj [(lit "justification", VString (arg_s a "justification"))])) None);
   (lit "escalate_request", fun a sess =>
     post (under (lit "/v1/requests/") (arg_s a "request_id") (lit "/escalate")) None None);
   (lit "list_grants", fun a sess => get (lit "/v1/grants") [(lit "status", arg_s a "status")] None);
   (lit "release_grant", fun a sess => post (under (lit "/v1/grants/") (arg_s a "grant_id") (lit "/release")) None None);
   (lit "mail_list", fun a sess => mail_list a);
   (lit "mail_read", fun a sess =>
     get (under (lit "/v1/mail/") (arg_s a "grant_id") [] ++ under (lit "/messages/") (arg_s a "message_id") []) [] None);
   (lit "mail_send", fun a sess =>
     post (under (lit "/v1/mail/") (arg_s a "grant_id") (lit "/send"))
       (Some (json_obj [(lit "to", arg_v a "to"); (lit "subject", arg_v a "subject"); (lit "body", arg_v a "body");
                        (lit "reply_to", arg_v a "reply_to")])) None);
   (lit "create_session", fun a sess =>
     post (lit "/v1/sessions") (Some (json_obj [(lit "label", VString (arg_s a "label"))])) None);
   (lit "close_session", fun a sess => close_session a);
   (lit "check_a2a", fun a sess =>
     get (lit "/v1/a2a/check")
       ([(lit "peer", arg_s a "peer"); (lit "direction", arg_s a "direction")] ++ opt_query (lit "topic") (arg_opt_s a "topic")) sess);
   (lit "a2a_open", fun a sess =>
     post (lit "/v1/a2a/threads")
       (Some (json_obj [(lit "to", VString (arg_s a "to")); (lit "topic", arg_v a "topic"); (lit "payload", arg_v a "payload")])) sess);
   (lit "a2a_send", fun a sess =>
     post (under (lit "/v1/a2a/threads/") (arg_s a "thread_id") (lit "/messages"))
       (Some (json_obj [(lit "payload", arg_v a "payload")])) sess);
   (lit "a2a_poll", a2a_poll);
   (lit "a2a_threads", fun a sess => get (lit "/v1/a2a/threads") (opt_query (lit "state") (arg_opt_s a "state")) sess);
   (lit "a2a_accept", fun a sess => post (under (lit "/v1/a2a/threads/") (arg_s a "thread_id") (lit "/accept")) None sess);
   (lit "a2a_reject", a2a_end (lit "reject"));
   (lit "a2a_close", a2a_end (lit "close"));
   (lit "a2a_events", a2a_events);
   (lit "wiki_search", fun a sess =>
     get (lit "/v1/wiki/search") [(lit "q", arg_s a "query"); (lit "limit", value_display (arg_v a "limit"))] None);
   (lit "wiki_read", fun a sess => get (lit "/v1/wiki/page") [(lit "path", arg_s a "path")] None);
   (lit "wiki_list", fun a sess => get (lit "/v1/wiki") [(lit "prefix", arg_s a "prefix")] None);
   (lit "wiki_write", fun a sess =>
     call outside caller (mkCall (lit "PUT") (lit "/v1/wiki/page") []
       (Some (json_obj [(lit "path", VString (arg_s a "path")); (lit "content", VString (arg_s a "content"));
                        (lit "summary", VString (arg_s a "summary")); (lit "base_sha", arg_v a "base_sha")])) None));
   (lit "wiki_delete", fun a sess =>
     post (lit "/v1/wiki/delete")
       (Some (json_obj [(lit "path", VString (arg_s a "path")); (lit "summary", VString (arg_s a "summary"));
                        (lit "base_sha", arg_v a "base_sha")])) None);
   (lit "notify_operator", fun a sess =>
     post (lit "/v1/attention")
       (Some (json_obj [(lit "text", VString (arg_s a "message")); (lit "urgency", VString (arg_s a "urgency"))])) None);
   (lit "host_run", host_run);
   (lit "host_job", fun a sess => host_job (arg_s a "job_id") (arg_f a "wait_secs") None);
   (lit "host_shell_exec", fun a sess => host_shell_exec a);
   (lit "host_shell_close", fun a sess => host_shell_close a);
   (lit "host_shell_scope", fun a sess =>
     post (under (lit "/v1/hostexec/shells/") (arg_s a "grant_id") (lit "/scopes"))
       (Some (json_obj [(lit "purpose", VString (arg_s a "purpose"))])) None)].
Definition dispatch (name : str) (a : Args) (sess : option str) : task Value :=
  match find (fun e => str_eqb e.1 name) tool_table with
  | Some e => e.2 a sess
  | None => task_fail (mkBrokerError 0 (name ++ lit " is not served here"))
  end.

(** A tool that binds to a session: the one named, or one minted, and once
    more when the broker had closed the minted one. *)
Definition run_with_session (name : str) (a : Args) : task Value :=
  if negb (existsb (str_eqb name) SESSIONED) then dispatch name a None
  else match nonblank (arg_opt_s a "session_key") with
       | Some key => dispatch name a (Some key)
       | None =>
           let> session := minted outside caller in
           let> out := task_try (dispatch name a (Some session)) in
           match out with
           | Ok v => task_ret v
           | Err e =>
               if is_stale e then
                 forget caller session;>
                 let> session := minted outside caller in
                 dispatch name a (Some session)
               else task_fail e
           end
       end.
(** [Api::run]: the tool's text, its wait capped. *)
Definition cap_wait (def : ToolDef) (a : Args) : Args * bool :=
  match wait_param (td_name def) with
  | None => (a, false)
  | Some p =>
      let asked := arg_f_of a p in
      (map_insert p (json_f64 (f64_clamp asked 0 REMOTE_MAX_WAIT_SECS)) a, f64_ltb REMOTE_MAX_WAIT_SECS asked)
  end.
Definition run (def : ToolDef) (a : Args) : task str :=
  let '(a, capped) := cap_wait def a in
  let> out := task_try (run_with_session (td_name def) a) in
  let out := match out with Ok v => pretty v | Err e => BrokerError_text e end in
  task_ret (if capped then with_rerun_note (td_name def) out else out).

(** [call_tool]: the text and whether it is an error's. *)
Definition call_tool (served : list ToolDef) (name : str) (given : option Args) : task (str * bool) :=
  match find (fun d => str_eqb (td_name d) name) served with
  | None => task_ret (lit "Unknown tool: " ++ name, true)
  | Some def =>
      match Args_new def given with
      | Err e => task_ret (lit "Error executing tool " ++ name ++ lit ": " ++ e, true)
      | Ok a => let> out := run def a in task_ret (out, false)
      end
  end.
End tools.

(** ** Keeping the minted sessions alive *)

Section keep_alive.
Context `{DateLib, UuidLib}.

(** [keep_alive]: the sessions used since then are touched, one transaction
    each; the others, and the ones the broker closed, are forgotten. *)
Definition keep_used (since : Instant) (map : gmap N Minted) : gmap N Minted :=
  filter (fun kv => since <= mt_last_used kv.2)%Z map.
Definition touch_minted (now : Instant) (id : str) (a : Accounts) : option bool * Accounts :=
  match parse_canonical id with
  | None => (None, a)
  | Some session =>
      match act_run (touch_session session now now) a with
      | (Ok ok, a') => (Some ok, a')
      | (Err _, a') => (None, a')
      end
  end.
Fixpoint touch_each (now : Instant) (live : list (N * Minted)) (map : gmap N Minted) (a : Accounts)
  : gmap N Minted * Accounts :=
  match live with
  | [] => (map, a)
  | (family, m) :: live =>
      let '(touched, a) := touch_minted now (mt_id m) a in
      let map := match touched, map !! family with
        | Some false, Some held => if str_eqb (mt_id held) (mt_id m) then delete family map else map
        | _, _ => map
        end in
      touch_each now live map a
  end.
Definition keep_alive (keep_for now : Instant) (map : gmap N Minted) (a : Accounts) : gmap N Minted * Accounts :=
  let map := keep_used (sat_plus now (- keep_for)) map in
  touch_each now (map_to_list map) map a.
End keep_alive.
