(* ===== verification/SignIn.v ===== *)
(** Signing in at the OpenID provider ([crates/broker/src/webui/oidc.rs]):
    the code flow with PKCE, the ID token checked here, and membership of
    the admin group. The provider's answers are a parameter. *)

From S2P Require Import Prelude Json Pool Mail Schema Policy Zones Eval HostTypes TotpCode F64 Transcript Envelope Hello CanonicalJson P256 Jwt Store Pairing Accounts OAuth McpTools RemoteMcp.
From stdpp Require Import options.
#[local] Set Default Proof Using "Type*".

Definition MAX_REPLY_BYTES : N := 1024 * 1024.
Definition MAX_USER_CHARS : nat := 128.

(** ** The provider, over HTTP *)

Inductive HttpRequest := HttpGet (url : str) | HttpGetBearer (url token : str) | HttpPost (url form : str).
(** A body that broke off is none. *)
Record Reply := mkReply { re_status : N; re_body : option bytes }.
(** What answers, if anything does. *)
Class Http := { http : HttpRequest -> option Reply }.

Record LoginAttempt := mkAttempt {
  la_state : str; la_nonce : str; la_verifier : str; la_redirect_uri : str; la_carry : option Value }.
Inductive SignInError := Refused (text : str) | Unreachable.
Definition sign_in_refused (text : string) : SignInError := Refused (lit text).
Arguments sign_in_refused _%_string.

Record Discovery := mkDiscovery {
  di_issuer : str; di_authorization_endpoint : str; di_token_endpoint : str; di_userinfo_endpoint : option str;
  di_jwks_uri : str }.
(** The [Deserialize] implementation serde derives for it. *)
Class DiscoverySerde := { de_discovery : Value -> option Discovery }.

(** The configured provider, and what was fetched from it. *)
Record OidcClient := mkOidc { oc_issuer : str; oc_client_id : str; oc_admin_group : str }.
Record OidcCache := mkOidcCache { ox_discovery : option Discovery; ox_jwks : option Value }.
Definition OidcClient_new (issuer client_id admin_group : str) : OidcClient :=
  mkOidc (trim_end_char (ch "/") issuer) client_id admin_group.

(** Computations that may fetch: what was fetched stays, failures included. *)
Definition fetch (A : Type) : Type := OidcCache -> result SignInError A * OidcCache.
Definition fetch_ret {A} (x : A) : fetch A := fun c => (Ok x, c).
Definition fetch_fail {A} (e : SignInError) : fetch A := fun c => (Err e, c).
Definition fetch_bind {A B} (m : fetch A) (f : A -> fetch B) : fetch B := fun c =>
  match m c with (Ok x, c) => f x c | (Err e, c) => (Err e, c) end.
Definition fetch_lift {A} (r : result SignInError A) : fetch A := fun c => (r, c).
Notation "'let?' x := m 'in' k" := (fetch_bind m (fun x => k))
  (at level 200, x name, m at level 100, k at level 200, right associativity).

Section client.
Context `{RustFmt, JsonRead, Base64, Sha256, Ring, WebLib, Http, DiscoverySerde} (client : OidcClient).

Definition read_json (r : Reply) : result SignInError Value :=
  match re_body r with
  | None => Err Unreachable
  | Some body =>
      if N.ltb MAX_REPLY_BYTES (N.of_nat (length body)) then Err Unreachable else ok_or (json_from_slice body) Unreachable
  end.
Definition send (req : HttpRequest) : result SignInError Reply := ok_or (http req) Unreachable.
Definition is_success (status : N) : bool := N.leb 200 status && N.ltb status 300.
(** A GET that must succeed, and its JSON. *)
Definition get_json (url : str) : result SignInError Value :=
  r ← send (HttpGet url); if negb (is_success (re_status r)) then Err Unreachable else read_json r.

Definition discover : fetch Discovery := fun c =>
  match ox_discovery c with
  | Some d => (Ok d, c)
  | None =>
      match (v ← get_json (oc_issuer client ++ lit "/.well-known/openid-configuration"); ok_or (de_discovery v) Unreachable) with
      | Err e => (Err e, c)
      | Ok d =>
          if negb (str_eqb (trim_end_char (ch "/") (di_issuer d)) (oc_issuer client))
          then (Err (sign_in_refused "the provider's discovery document names another issuer"), c)
          else (Ok d, mkOidcCache (Some d) (ox_jwks c))
      end
  end.
Definition keys (refresh : bool) : fetch Value := fun c =>
  match (if refresh then None else ox_jwks c) with
  | Some k => (Ok k, c)
  | None =>
      (let? d := discover in
       let? k := fetch_lift (get_json (di_jwks_uri d)) in
       fun c => (Ok k, mkOidcCache (ox_discovery c) (Some k))) c
  end.

(** [begin]; [draws] are the random state, nonce and verifier. *)
Definition begin (redirect_uri : str) (carry : option Value) (draws : option (bytes * bytes * bytes))
  : fetch (str * LoginAttempt) :=
  match draws with
  | None => fetch_fail Unreachable
  | Some (s, n, v) =>
      let state := token_urlsafe s in let nonce := token_urlsafe n in let verifier := token_urlsafe v in
      let? found := discover in
      let query := form_urlencode
        [(lit "response_type", lit "code"); (lit "client_id", oc_client_id client); (lit "redirect_uri", redirect_uri);
         (lit "scope", lit "openid profile groups"); (lit "state", state); (lit "nonce", nonce);
         (lit "code_challenge", pkce_challenge verifier); (lit "code_challenge_method", lit "S256")] in
      let sep := if elem_b (ch "?") (di_authorization_endpoint found) then [ch "&"] else [ch "?"] in
      fetch_ret (di_authorization_endpoint found ++ sep ++ query, mkAttempt state nonce verifier redirect_uri carry)
  end.

(** [(now - UNIX_EPOCH).as_seconds_f64()]. *)
Definition as_seconds_f64 (now : Instant) : f64 :=
  f64_add (f64_of_Z (Z.quot now (10 ^ 9))) (f64_div (f64_of_Z (Z.rem now (10 ^ 9))) (f64_of_Z (10 ^ 9))).
Definition issuers : list str := [oc_issuer client; oc_issuer client ++ lit "/"].
Definition token_checks (id_token : str) (jwks : Value) (now : Instant) : result IdTokenError (list (str * Value)) :=
  verify_id_token id_token jwks (oc_client_id client) issuers (as_seconds_f64 now).
(** [verify]: once more with fresh keys when the token names an unknown one. *)
Definition verify_token (id_token : str) (now : Instant) : fetch (list (str * Value)) :=
  let? jwks := keys false in
  let? outcome :=
    match token_checks id_token jwks now with
    | Err UnknownKey => let? jwks := keys true in fetch_ret (token_checks id_token jwks now)
    | outcome => fetch_ret outcome
    end in
  match outcome with
  | Ok claims => fetch_ret claims
  | Err _ => fetch_fail (sign_in_refused "the provider's ID token did not check out")
  end.

Definition who_unsaid : SignInError := sign_in_refused "the provider did not say who signed in".
Definition userinfo (found : Discovery) (access_token : str) : result SignInError (list (str * Value)) :=
  endpoint ← ok_or (di_userinfo_endpoint found) who_unsaid;
  r ← send (HttpGetBearer endpoint access_token);
  if negb (N.eqb (re_status r) 200) then Err who_unsaid
  else match read_json r with Ok (VObject m) => Ok m | _ => Err who_unsaid end.

(** A claim that is there and not null. *)
Definition present (k : str) (m : list (str * Value)) : option Value :=
  v ← map_get k m; if is_null v then None else Some v.
Definition text_or_empty (o : option Value) : str := default [] (o ≫= as_str).
Definition or_else {A} (a b : option A) : option A := match a with Some x => Some x | None => b end.

(** Who the claims name, asking userinfo for what they leave out: the
    groups and the user's name. *)
Definition who (found : Discovery) (tokens : Value) (claims : list (str * Value))
  : result SignInError (option Value * option Value) :=
  let sub := text_or_empty (map_get (lit "sub") claims) in
  let groups := present (lit "groups") claims in
  let user := present (lit "preferred_username") claims in
  if is_none groups || is_none user then
    info ← userinfo found (text_or_empty (value_get tokens (lit "access_token")));
    if negb (bool_decide (map_get (lit "sub") info ≫= as_str = Some sub)) then Err who_unsaid
    else Ok (or_else groups (map_get (lit "groups") info), or_else user (map_get (lit "preferred_username") info))
  else Ok (groups, user).
Definition user_name (user : option Value) (sub : str) : str :=
  take MAX_USER_CHARS (match user ≫= as_str with Some (c :: u) => c :: u | _ => sub end).
Definition in_group (groups : option Value) : bool :=
  match groups ≫= as_array with Some g => existsb (fun v => str_is v (oc_admin_group client)) g | None => false end.

(** The exchange of the code for tokens. *)
Definition redeem_code (found : Discovery) (attempt : LoginAttempt) (code : str) : result SignInError Value :=
  let form := form_urlencode
    [(lit "grant_type", lit "authorization_code"); (lit "code", code); (lit "redirect_uri", la_redirect_uri attempt);
     (lit "client_id", oc_client_id client); (lit "code_verifier", la_verifier attempt)] in
  r ← send (HttpPost (di_token_endpoint found) form);
  if negb (N.eqb (re_status r) 200) then Err (sign_in_refused "the provider refused the sign-in") else read_json r.

Definition identify (attempt : option LoginAttempt) (code state : str) (now : Instant) : fetch (str * option Value) :=
  match attempt with
  | Some a =>
      if negb (ct_eq (as_bytes (la_state a)) (as_bytes state)) then
        fetch_fail (sign_in_refused "this sign-in was not started here, or took too long; try again")
      else
        let? found := discover in
        let? tokens := fetch_lift (redeem_code found a code) in
        let? claims := verify_token (text_or_empty (value_get tokens (lit "id_token"))) now in
        if negb (ct_eq (as_bytes (text_or_empty (map_get (lit "nonce") claims))) (as_bytes (la_nonce a)))
        then fetch_fail (sign_in_refused "the ID token answers a different sign-in")
        else
          let? said := fetch_lift (who found tokens claims) in
          let '(groups, user) := said in
          let user := user_name user (text_or_empty (map_get (lit "sub") claims)) in
          if negb (in_group groups) then
            fetch_fail (Refused (user ++ lit " is not in the group " ++ oc_admin_group client))
          else fetch_ret (user, la_carry a)
  | None => fetch_fail (sign_in_refused "this sign-in was not started here, or took too long; try again")
  end.
End client.
