(* ===== verification/McpRuns.v ===== *)
(** What the tools of the remote endpoint do, whatever the agent API and the
    other calls do in the meantime: every call they make is on a route the
    connector's token may use, and each of them ends after a bounded number
    of calls. *)

From Stdlib Require Import Floats.SpecFloat.
From stdpp Require Import gmap.
From S2P Require Import Prelude Json Pyfmt Pool Mail Schema Policy Zones Eval TotpCode CanonicalJson F64 Transcript Envelope Names Store Pairing Accounts McpTools RemoteMcp.
From stdpp Require Import options.
#[local] Set Default Proof Using "Type*".

(** ** Routes and the paths made from them *)

(** A pattern with its holes filled, in order, by segments. *)
Fixpoint fill_segments (pattern : list str) (ids : list str) : list str :=
  match pattern with
  | [] => []
  | w :: pattern =>
      if str_eqb w HOLE then seg (hd [] ids) :: fill_segments pattern (tl ids) else w :: fill_segments pattern ids
  end.
Definition fill_route (pattern : str) (ids : list str) : str := join (lit "/") (fill_segments (split (ch "/") pattern) ids).
Definition holes (pattern : str) : nat := length (List.filter (fun w => str_eqb w HOLE) (split (ch "/") pattern)).
(** A call on one of a tool's routes, its holes filled with these ids. *)
Definition call_with (r : ApiRoute) (ids : list str) (c : ApiCall) : Prop :=
  ca_method c = ro_method r /\ ca_path c = fill_route (ro_path r) ids /\ length ids = holes (ro_path r).
(** A call on one of a tool's routes, every id in it with a source. *)
Definition on_route (src : str -> Prop) (name : str) (c : ApiCall) : Prop := exists r ids,
  r ∈ api_routes name /\ call_with r ids c /\ Forall src ids.

Lemma hex_upper_free d : hex_upper_digit d <> ch "/".
Proof. unfold hex_upper_digit. cbn. destruct (N.ltb_spec d 10); lia. Qed.
Lemma seg_free text : ~ ch "/" ∈ seg text.
Proof.
  unfold seg. intros Hin. apply list_elem_of_In, in_flat_map in Hin as (b & _ & Hin). unfold seg_byte in Hin.
  destruct (_ || _) eqn:E.
  - destruct Hin as [->|[]]. vm_compute in E. done.
  - destruct Hin as [Hin|[Hin|[Hin|[]]]]; [done| |]; by apply hex_upper_free in Hin.
Qed.
Lemma seg_nil x : seg x = [] -> x = [].
Proof.
  destruct x as [|c x]; [done|]. unfold seg, as_bytes. cbn [map concat]. rewrite flat_map_app.
  assert (Hc : utf8_char c <> []) by (unfold utf8_char; by repeat case_match).
  intros [E _]%app_eq_nil. destruct (utf8_char c) as [|b bs]; [done|].
  - cbn [flat_map] in E. unfold seg_byte in E. by destruct (_ || _).
Qed.

(** ** Matching them *)

Lemma fill_segments_free pattern ids : Forall (fun p => ~ ch "/" ∈ p) pattern ->
  Forall (fun p => ~ ch "/" ∈ p) (fill_segments pattern ids).
Proof.
  intros Hf. revert ids. induction Hf as [|w pattern Hw Hf IH]; cbn [fill_segments]; [by constructor|].
  intros ids. destruct (str_eqb w HOLE); constructor; auto using seg_free.
Qed.
Lemma fill_segments_match pattern ids : [] ∉ fill_segments pattern ids \/ hd HOLE pattern = [] /\ [] ∉ tl (fill_segments pattern ids) ->
  segments_match pattern (fill_segments pattern ids) = true.
Proof.
  assert (Hgo : forall pattern ids, [] ∉ fill_segments pattern ids -> segments_match pattern (fill_segments pattern ids) = true).
  { clear. induction pattern as [|w pattern IH]; intros ids; cbn [fill_segments segments_match]; [done|].
    destruct (str_eqb w HOLE) eqn:E; intros Hn; cbn [segments_match].
    - rewrite IH by (intros ?; apply Hn; by right). unfold segment_matches. rewrite E.
      destruct (str_eqb (seg (hd [] ids)) []) eqn:Es; [|done].
      apply str_eqb_true in Es. destruct Hn. rewrite Es. by left.
    - rewrite IH by (intros ?; apply Hn; by right). unfold segment_matches. rewrite E.
      by rewrite (proj2 (str_eqb_true w w)). }
  intros [?|[Hh Ht]]; [auto|]. destruct pattern as [|w pattern]; [done|]. cbn in Hh. subst w.
  cbn [fill_segments segments_match]. change (str_eqb [] HOLE) with false. cbn [segments_match].
  rewrite Hgo by done. done.
Qed.

(** A filled segment is empty only for an id that is. *)
Lemma fill_segments_nil pattern ids : length ids = length (List.filter (fun w => str_eqb w HOLE) pattern) ->
  [] ∉ pattern -> [] ∈ fill_segments pattern ids -> [] ∈ ids.
Proof.
  revert ids. induction pattern as [|w pattern IH]; intros ids; cbn [fill_segments List.filter]; [by intros _ _ ?%elem_of_nil|].
  intros Hl Hn. apply not_elem_of_cons in Hn as [Hw Hn]. destruct (str_eqb w HOLE).
  - destruct ids as [|x ids]; [done|]. cbn [length hd tl] in *. intros [E|Hin]%elem_of_cons.
    + symmetry in E. apply seg_nil in E as ->. by left.
    + right. apply IH; [lia|done|done].
  - intros [E|Hin]%elem_of_cons; [by destruct Hw|]. by apply IH.
Qed.

(** A call on a tool's route is allowed wherever the tool is served, unless
    an id in it is empty. *)
Lemma call_with_allowed served def r ids c : def ∈ served -> r ∈ api_routes (td_name def) -> call_with r ids c ->
  hd HOLE (split (ch "/") (ro_path r)) = [] -> [] ∉ tl (split (ch "/") (ro_path r)) ->
  allows served (ca_method c) (ca_path c) = true \/ [] ∈ ids.
Proof.
  intros Hd Hr (Hm & Hp & Hl) Habs Hfull. rewrite Hp. unfold fill_route.
  set (parts := fill_segments (split (ch "/") (ro_path r)) ids).
  assert (Hs : split (ch "/") (join (lit "/") parts) = parts).
  { apply (split_join (ch "/")); [|apply fill_segments_free, split_parts].
    unfold parts. destruct (split _ _) as [|w ps]; [by vm_compute in Habs|].
    cbn [fill_segments]. by destruct (str_eqb w HOLE). }
  destruct (decide ([] ∈ tl parts)) as [Hin|Hn].
  - right. unfold parts, holes in *. destruct (split (ch "/") (ro_path r)) as [|w ps]; [by apply elem_of_nil in Hin|].
    cbn [hd tl] in Habs, Hfull. subst w. change (str_eqb [] HOLE) with false in *. cbn [fill_segments List.filter tl] in *.
    by apply (fill_segments_nil ps).
  - left. unfold allows. apply existsb_exists. exists def. split; [by apply list_elem_of_In|].
    apply existsb_exists. exists r. split; [by apply list_elem_of_In|]. rewrite Hm.
    unfold str_eqb. rewrite bool_decide_true by done. unfold route_matches. rewrite Hs.
    apply fill_segments_match. right. split; [by apply Habs|done].
Qed.

(** ** What a task does *)

(** It ends, time has not gone back, and its calls are at most so many, each
    of this kind. *)
Definition does {A} (P : ApiCall -> Prop) (n : nat) (m : task A) : Prop := forall s, exists r s' l,
  m s = Some (r, s') /\ st_calls s' = st_calls s ++ l /\ Forall P l /\ length l <= n /\ (st_clock s <= st_clock s')%Z.

Section does.
Context (P : ApiCall -> Prop).

Lemma does_pure {A} (m : task A) n r : (forall s, exists s', m s = Some (r s, s') /\ st_calls s' = st_calls s /\
  (st_clock s <= st_clock s')%Z) -> does P n m.
Proof.
  intros H s. destruct (H s) as (s' & E & Hc & Ht). exists (r s), s', []. rewrite app_nil_r. by split_and!; [..|cbn; lia|].
Qed.
Lemma does_ret {A} (x : A) n : does P n (task_ret x).
Proof. apply (does_pure _ _ (fun _ => Ok x)). intros s. by exists s. Qed.
Lemma does_fail {A} e n : does P n (@task_fail A e).
Proof. apply (does_pure _ _ (fun _ => Err e)). intros s. by exists s. Qed.
Lemma does_read {A} (f : Mcp -> A) n : does P n (task_read f).
Proof. apply (does_pure _ _ (fun s => Ok (f s))). intros s. by exists s. Qed.
Lemma does_with_minted f n : does P n (with_minted f).
Proof. apply (does_pure _ _ (fun _ => Ok tt)). intros s. by eexists. Qed.
Lemma does_weaken {A} (m : task A) n n' : does P n m -> n <= n' -> does P n' m.
Proof. intros H Hn s. destruct (H s) as (r & s' & l & ? & ? & ? & ? & ?). exists r, s', l. split_and!; try done. lia. Qed.
Lemma does_bind {A B} (m : task A) (f : A -> task B) n k : does P n m -> (forall x, does P k (f x)) ->
  does P (n + k) (task_bind m f).
Proof.
  intros Hm Hf s. destruct (Hm s) as (r & s1 & l & E & Hl & HP & Hn & Ht). unfold task_bind. rewrite E.
  destruct r as [x|e].
  - destruct (Hf x s1) as (r & s2 & l' & E' & Hl' & HP' & Hn' & Ht'). exists r, s2, (l ++ l').
    split_and!; [done|by rewrite Hl', Hl, app_assoc|by apply Forall_app|rewrite length_app; lia|lia].
  - exists (Err e), s1, l. split_and!; try done. lia.
Qed.
Lemma does_try {A} (m : task A) n : does P n m -> does P n (task_try m).
Proof.
  intros H s. destruct (H s) as (r & s' & l & E & ?). exists (Ok r), s', l. unfold task_try. by rewrite E.
Qed.
End does.

(** ** Waits *)

(** At most fifty seconds. *)
Definition capped (x : f64) : Prop := f64_ltb REMOTE_MAX_WAIT_SECS x = false.

Lemma positive_ltb y m e x : f64_decode y = S754_finite false m e ->
  f64_ltb y x = match f64_decode x with
    | S754_infinity false => true
    | S754_finite false m' e' => Z.ltb e e' || Z.eqb e e' && Pos.ltb m m'
    | _ => false
    end.
Proof.
  intros Ey. unfold f64_ltb, SFltb. rewrite Ey. cbn. destruct (f64_decode x) as [s|[]| |[] m' e']; try done.
  destruct (Z.compare_spec e e') as [<-|Hl|Hg].
  - rewrite Z.ltb_irrefl, Z.eqb_refl. cbn. unfold Pos.ltb, Pos.compare. by destruct (PosDef.Pos.compare_cont Eq m m').
  - by apply Z.ltb_lt in Hl as ->.
  - destruct (Z.ltb_spec e e'); [lia|]. destruct (Z.eqb_spec e e'); [lia|done].
Qed.
Lemma capped_value x : capped x -> match f64_decode x with
  | S754_infinity false => False
  | S754_finite false m e => (e < -47 \/ e = -47 /\ Z.pos m <= 7036874417766400)%Z
  | _ => True
  end.
Proof.
  unfold capped. rewrite (positive_ltb _ 7036874417766400 (-47)) by (vm_compute; reflexivity).
  destruct (f64_decode x) as [s|[]| |[] m e]; try done.
  intros [He Hm]%orb_false_iff. apply Z.ltb_ge in He. apply andb_false_iff in Hm as [Hm|Hm].
  - apply Z.eqb_neq in Hm. lia.
  - apply Pos.ltb_ge, Pos2Z.pos_le_pos in Hm. destruct (Z.eq_dec e (-47)%Z) as [->|Hne]; [by right|left].
    clear Hm. lia.
Qed.
(** A capped wait is below whatever is longer. *)
Lemma capped_below hi m e x : capped x -> f64_decode hi = S754_finite false m e ->
  (-47 < e \/ e = -47 /\ 7036874417766400 <= Z.pos m)%Z -> f64_ltb hi x = false.
Proof.
  intros Hx%capped_value E He. rewrite (positive_ltb _ _ _ _ E). destruct (f64_decode x) as [s|[]| |[] m' e']; try done.
  apply orb_false_iff. split; [apply Z.ltb_ge; lia|]. apply andb_false_iff.
  destruct (Z.eqb_spec e e') as [<-|]; [right|by left].
  apply Pos.ltb_ge. change (Z.pos m' <= Z.pos m)%Z. destruct He as [He|[-> He]], Hx as [Hx|[Hx' Hx]]; try (exfalso; clear E; lia).
  by transitivity 7036874417766400%Z.
Qed.

(** The mantissa of a decoded float has at most fifty-three bits. *)
Lemma decode_mantissa x s m e : f64_decode x = S754_finite s m e -> (Z.pos m < 2 ^ 53)%Z.
Proof.
  unfold f64_decode. destruct (N.eqb _ 2047); [by destruct (N.eqb _ 0)|].
  pose proof (N.mod_lt x (2 ^ 52) ltac:(done)) as Hlt. change (2 ^ 52)%N with 4503599627370496%N in *. destruct (N.eqb _ 0).
  - destruct (x mod _)%N as [|p]; [done|]. intros [= _ <- _]. change (2 ^ 53)%Z with 9007199254740992%Z. lia.
  - destruct (4503599627370496 + x mod 4503599627370496)%N as [|p] eqn:E; [done|]. intros [= _ <- _]. change (2 ^ 53)%Z with 9007199254740992%Z. lia.
Qed.
Lemma round_half_even_le a b q : (0 < b -> 0 <= a -> a <= q * b -> round_half_even a b <= q)%Z.
Proof.
  intros Hb Ha Hq. unfold round_half_even.
  assert (Hd : (a / b <= q)%Z) by (apply Z.div_le_upper_bound; lia).
  destruct (Z.eq_dec (a / b)%Z q) as [E|?]; [|repeat case_match; lia].
  assert (Hm : (a mod b = 0)%Z) by (pose proof (Z.div_mod a b ltac:(lia)); pose proof (Z.mod_pos_bound a b Hb); nia).
  rewrite Hm. destruct (Z.compare_spec (2 * 0) b); lia.
Qed.
Lemma capped_nanos x : capped x -> (0 <= nanos_of_f64 x <= 50 * 10 ^ 9)%Z.
Proof.
  intros Hx%capped_value. unfold nanos_of_f64. destruct (f64_decode x) as [s|s| |[] m e] eqn:E; try lia.
  apply decode_mantissa in E. rewrite (proj2 (Z.leb_gt 0 e)) by lia.
  assert (Hp : (0 < 2 ^ (- e))%Z) by (apply Z.pow_pos_nonneg; lia).
  split.
  - unfold round_half_even. assert (0 <= Z.pos m * 10 ^ 9 / 2 ^ (- e))%Z by (apply Z.div_pos; lia). repeat case_match; lia.
  - apply round_half_even_le; [done|lia|]. destruct Hx as [He|[-> Hm]]; [|lia].
    assert (2 ^ 48 <= 2 ^ (- e))%Z by (apply Z.pow_le_mono_r; lia). lia.
Qed.

Lemma poll_capped total : capped total -> (0 <= poll_nanos total <= 50 * 10 ^ 9)%Z /\ poll_fuel total <= 102.
Proof.
  intros Hc. assert (Hn : (0 <= poll_nanos total <= 50 * 10 ^ 9)%Z).
  { unfold poll_nanos, f64_clamp. assert (H0 : capped 0%N) by (vm_compute; reflexivity).
    assert (Hx : capped (if f64_ltb total 0 then 0%N else total)) by (by destruct (f64_ltb total 0)).
    assert (Hd : f64_decode DAY_SECS = S754_finite false 5937362789990400 (-36)) by (vm_compute; reflexivity).
    rewrite (capped_below _ _ _ _ Hx Hd) by lia. by apply capped_nanos. }
  split; [done|]. unfold poll_fuel, PAUSE.
  assert (poll_nanos total / 500000000 <= 100)%Z by (apply Z.div_le_upper_bound; lia). lia.
Qed.

(** ** Calls, polls, sessions *)

Section tasks.
Context `{RustFmt, JsonRead, WebLib} (outside : Outside) (caller : McpCaller) (P : ApiCall -> Prop).

Lemma does_call c : P c -> does P 1 (call outside caller c).
Proof.
  intros Hc s. unfold call. destruct (ou_api outside) as [api|].
  - destruct (negb (request_ok caller c)); [|].
    + eexists _, _, []. rewrite app_nil_r. split_and!; [done..|cbn; lia|lia].
    + eexists _, _, [c]. split_and!; [done|done|by constructor|done|cbn; lia].
  - eexists _, _, []. rewrite app_nil_r. split_and!; [done..|cbn; lia|lia].
Qed.
(** What the agent API may answer a call. *)
Definition answered (c : ApiCall) (v : Value) : Prop := exists api n,
  ou_api outside = Some api /\ answer_value (api n c) = Ok v.
Lemma does_call_bind {A} c (f : Value -> task A) k : P c -> (forall v, answered c v -> does P k (f v)) ->
  does P (1 + k) (task_bind (call outside caller c) f).
Proof.
  intros Hc Hf s. unfold task_bind. destruct (does_call c Hc s) as (r & s1 & l & E & Hl & HP & Hn & Ht). rewrite E.
  destruct r as [v|e]; [|exists (Err e), s1, l; split_and!; [done..|lia|done]].
  assert (Ha : answered c v).
  { unfold call in E. destruct (ou_api outside) as [api|] eqn:Ea; [|done]. destruct (negb _); [done|].
    exists api, (st_turn s). split; [done|]. by injection E. }
  destruct (Hf v Ha s1) as (r & s2 & l' & E' & Hl' & HP' & Hn' & Ht'). exists r, s2, (l ++ l').
  split_and!; [done|by rewrite Hl', Hl, app_assoc|by apply Forall_app|rewrite length_app; lia|lia].
Qed.
Lemma does_give_way n : does P n (give_way outside).
Proof. apply (does_pure _ _ _ (fun _ => Ok tt)). intros s. by eexists. Qed.

(** Each turn that goes on costs half a second, or reaches the end. *)
Lemma does_poll_loop fuel deadline path query sess settled : (forall q, P (mkCall (lit "GET") path q None sess)) ->
  forall s, (deadline <= st_clock s + PAUSE * (Z.of_nat fuel - 1))%Z -> 1 <= fuel ->
  exists r s' l, poll_loop outside caller fuel deadline path query sess settled s = Some (r, s') /\
    st_calls s' = st_calls s ++ l /\ Forall P l /\ length l <= fuel /\ (st_clock s <= st_clock s')%Z.
Proof.
  intros HP. induction fuel as [|fuel IH]; intros s Hd Hf; [lia|]. cbn [poll_loop]. unfold task_bind at 1. cbn [task_read].
  unfold task_bind at 1.
  destruct (does_call (mkCall (lit "GET") path (query (f64_clamp (f64_of_nanos (Z.max 0 (deadline - st_clock s))) 0 POLL_SLICE)) None sess)
    ltac:(auto) s) as (r & s1 & l & E & Hl & Hp & Hn & Ht). unfold get. rewrite E.
  destruct r as [out|e]; [|exists (Err e), s1, l; split_and!; [done..|lia|done]].
  unfold task_bind at 1. cbn [task_read]. destruct (_ || ou_stopping outside (st_clock s1)) eqn:Es.
  { exists (Ok out), s1, l. split_and!; [done..|lia|done]. }
  apply orb_false_iff in Es as [[_ Hnow]%orb_false_iff _]. apply Z.leb_gt in Hnow.
  assert (Hgo : exists s2, (if Z.ltb (st_clock s1 - st_clock s) PAUSE then sleep outside (Z.min PAUSE (Z.max 0 (deadline - st_clock s1)))
      else task_ret tt) s1 = Some (Ok tt, s2) /\ st_calls s2 = st_calls s1 /\
      (st_clock s1 <= st_clock s2)%Z /\ (st_clock s + PAUSE <= st_clock s2 \/ deadline <= st_clock s2)%Z).
  { unfold PAUSE in *. destruct (Z.ltb_spec (st_clock s1 - st_clock s) 500000000).
    - eexists. split_and!; [done|done|cbn; lia|cbn; lia].
    - eexists. split_and!; [done|done|lia|lia]. }
  destruct Hgo as (s2 & E2 & Hc2 & Ht2 & Hadv). unfold task_bind at 1. rewrite E2.
  assert (1 <= fuel) by (unfold PAUSE in *; lia).
  destruct (IH s2) as (r & s3 & l' & E3 & Hl' & Hp' & Hn' & Ht'); [unfold PAUSE in *; lia|done|].
  exists r, s3, (l ++ l'). split_and!; [done|by rewrite Hl', Hc2, Hl, app_assoc|by apply Forall_app|rewrite length_app; lia|lia].
Qed.
Lemma does_poll total path query sess settled : capped total -> (forall q, P (mkCall (lit "GET") path q None sess)) ->
  does P 102 (poll outside caller total path query sess settled).
Proof.
  intros Hc HP s. destruct (poll_capped total Hc) as [Hn Hf]. unfold poll, task_bind. cbn [task_read].
  destruct (does_poll_loop (poll_fuel total) (st_clock s + poll_nanos total) path query sess settled HP s)
    as (r & s' & l & E & Hl & Hp & Hlen & Ht).
  - unfold poll_fuel, PAUSE. pose proof (Z.div_mod (poll_nanos total) 500000000 ltac:(lia)).
    pose proof (Z.mod_pos_bound (poll_nanos total) 500000000 ltac:(lia)).
    assert (0 <= poll_nanos total / 500000000)%Z by (apply Z.div_pos; lia). lia.
  - unfold poll_fuel. lia.
  - exists r, s', l. split_and!; [done..|lia|done].
Qed.

Lemma does_lookup now n : does P n (lookup_minted caller now).
Proof.
  intros s. unfold lookup_minted. destruct (st_sessions s !! mc_family caller);
    eexists _, _, []; rewrite app_nil_r; by split_and!; [..|cbn; lia|].
Qed.
Lemma does_minted : (forall b, P (mkCall (lit "POST") (lit "/v1/sessions") [] b None)) -> does P 1 (minted outside caller).
Proof.
  intros HP. unfold minted. apply (does_bind _ _ _ 0); [apply does_read|intros clock].
  apply (does_bind _ _ _ 0); [apply does_lookup|intros [id|]; [apply does_ret|]].
  apply (does_bind _ _ _ 0); [apply does_give_way|intros _].
  apply (does_bind _ _ _ 0); [apply does_lookup|intros [id|]; [apply does_ret|]].
  apply (does_bind _ _ _ 1 0); [apply does_call, HP|intros out].
  destruct (_ ≫= _); [|apply does_fail]. apply (does_bind _ _ _ 0 0); [apply does_with_minted|intros _; apply does_ret].
Qed.
End tasks.

(** ** The tools *)

Section tools.
Context `{RustFmt, JsonRead, WebLib} (outside : Outside) (caller : McpCaller).

(** The longest tool: a request, its decision and its job. *)
Definition TOOL_CALLS : nat := 205.
(** A tool's wait is capped. *)
Definition wait_capped (name : str) (a : Args) : Prop :=
  match wait_param name with Some p => capped (arg_f_of a p) | None => True end.

(** *** Where ids come from *)

(** The parameters that are ids of a path. *)
Definition ID_PARAMS : list str :=
  map lit ["request_id"; "grant_id"; "message_id"; "thread_id"; "job_id"; "scope_id"]%string.
(** A text the tool requires of the model, in this parameter. *)
Definition required_text (name p : str) : bool :=
  match tool name with
  | Some def => existsb (fun q => str_eqb (pa_name q) p && bool_decide (pa_ty q = TStr) && negb (pa_nullable q)
                                  && bool_decide (pa_default q = Required)) (td_params def)
  | None => false
  end && negb (bool_decide (wait_param name = Some p)).
(** The texts it requires are there. *)
Definition args_ok (name : str) (a : Args) : Prop := forall p, required_text name p = true ->
  exists x, map_get p a = Some (VString x).
(** An id of a path: the text of one of the tool's parameters; or, for a
    command's decision and its job, the id in the API's answer to the very
    request the tool made (empty where that answer has none). *)
Definition source (name : str) (a : Args) (x : str) : Prop :=
  (exists p, p ∈ ID_PARAMS /\ map_get p a = Some (VString x)) \/
  name = lit "host_run" /\ exists sess resp,
    answered outside (mkCall (lit "POST") (lit "/v1/requests") [] (Some (host_run_body a)) sess) resp /\
    x = default [] (field_str resp (lit "id")).

Lemma source_arg name a (p : string) : args_ok name a -> required_text name (lit p) = true -> lit p ∈ ID_PARAMS ->
  source name a (arg_s a p).
Proof.
  intros Ha Hr Hp. left. destruct (Ha _ Hr) as [x Hx]. exists (lit p). split; [done|].
  unfold arg_s, arg_opt_s. rewrite Hx. done.
Qed.

#[local] Opaque seg.

(** The call is on the [n]-th route of its tool, with these ids. *)
Ltac at_route n ids :=
  match goal with
  | |- on_route ?src ?name _ =>
      let rs := eval vm_compute in (api_routes name) in
      let r := eval vm_compute in (nth n rs SESSIONS) in
      exists r, ids; split_and!;
      [ change (api_routes name) with rs; repeat (first [by left | right])
      | split_and!; [reflexivity|unfold under; rewrite ?app_nil_r; reflexivity|vm_compute; reflexivity]
      | repeat (apply Forall_cons_2; [try (apply source_arg; [assumption|vm_compute; reflexivity|vm_compute; repeat (first [by left | right])])|]);
        try apply Forall_nil_2 ]
  end.

Lemma one_call (Q : ApiCall -> Prop) c : Q c -> does Q TOOL_CALLS (call outside caller c).
Proof. intros Hc. apply (does_weaken _ _ 1); [by apply does_call|unfold TOOL_CALLS; lia]. Qed.
Lemma one_poll (Q : ApiCall -> Prop) total path query sess settled :
  capped total -> (forall q, Q (mkCall (lit "GET") path q None sess)) ->
  does Q TOOL_CALLS (poll outside caller total path query sess settled).
Proof. intros Hc HQ. apply (does_weaken _ _ 102); [by apply does_poll|unfold TOOL_CALLS; lia]. Qed.
Lemma capped_min x hi m e : capped x -> f64_decode hi = S754_finite false m e ->
  (-47 < e \/ e = -47 /\ 7036874417766400 <= Z.pos m)%Z -> f64_min x hi = x.
Proof. intros Hx E He. unfold f64_min. by rewrite (capped_below hi m e x). Qed.

Lemma host_run_does a sess : wait_capped (lit "host_run") a ->
  does (on_route (source (lit "host_run") a) (lit "host_run")) TOOL_CALLS (host_run outside caller a sess).
Proof.
  intros Hw. change (capped (arg_f a "wait_secs")) in Hw. unfold host_run.
  assert (Hm : f64_min (arg_f a "wait_secs") THREE_HUNDRED = arg_f a "wait_secs").
  { apply (capped_min _ _ 5277655813324800 (-44)); [done|vm_compute; reflexivity|by left]. }
  apply (does_call_bind _ _ _ _ _ 204); [at_route 0 (@nil str)|intros req Hreq].
  assert (Hid : source (lit "host_run") a (default [] (field_str req (lit "id")))) by (right; eauto).
  apply (does_bind _ _ _ 102 102).
  - destruct (_ && _); [|apply does_ret]. rewrite Hm. apply does_poll; [done|].
    intros q. at_route 1 [default [] (field_str req (lit "id"))]. exact Hid.
  - intros req'. destruct (str_eqb _ _); [|apply does_ret]. rewrite Hm.
    apply (does_bind _ _ _ 102 0); [|intros job; apply does_ret]. apply does_poll; [done|].
    intros q. at_route 2 [default [] (field_str req (lit "id"))]. exact Hid.
Qed.
Lemma host_shell_exec_does a : args_ok (lit "host_shell_exec") a -> wait_capped (lit "host_shell_exec") a ->
  does (on_route (source (lit "host_shell_exec") a) (lit "host_shell_exec")) TOOL_CALLS (host_shell_exec outside caller a).
Proof.
  intros Hargs Hw. change (capped (arg_f a "wait_secs")) in Hw. unfold host_shell_exec.
  rewrite (capped_min _ POLL_SLICE 8444249301319680 (-47)) by (done || (vm_compute; reflexivity) || by right).
  apply (does_bind _ _ _ 1 204); [apply does_call; at_route 0 [arg_s a "grant_id"]|intros job].
  assert (Hr : f64_ltb (arg_f a "wait_secs") (arg_f a "wait_secs") = false).
  { unfold f64_ltb, SFltb, SFcompare. destruct (f64_decode _) as [s|[]| |[] m e]; try done; rewrite Z.compare_refl;
      change (PosDef.Pos.compare_cont Eq m m) with (Pos.compare m m); by rewrite Pos.compare_refl. }
  rewrite Hr. destruct (match value_get job _ with Some v => _ | None => _ end); apply does_ret.
Qed.
Lemma host_shell_close_does a : args_ok (lit "host_shell_close") a ->
  does (on_route (source (lit "host_shell_close") a) (lit "host_shell_close")) TOOL_CALLS (host_shell_close outside caller a).
Proof.
  intros Hargs. unfold host_shell_close. apply one_call.
  destruct (arg_v a "scope_id") as [| | |scope| |] eqn:E;
    first [at_route 1 [arg_s a "grant_id"; scope] | at_route 0 [arg_s a "grant_id"]].
  left. exists (lit "scope_id"). split; [vm_compute; repeat (first [by left | right])|].
  unfold arg_v in E. destruct (map_get _ a) as [v|]; cbn in E; congruence.
Qed.
Lemma close_session_does a src : does (on_route src (lit "close_session")) TOOL_CALLS (close_session outside caller a).
Proof.
  unfold close_session. apply (does_bind _ _ _ 205 0); [apply does_try, one_call; at_route 0 (@nil str)|].
  intros [v|e]; [|apply does_fail]. apply (does_bind _ _ _ 0 0); [apply does_with_minted|intros _; apply does_ret].
Qed.

Lemma table_does : Forall (fun e => forall a sess, args_ok e.1 a -> wait_capped e.1 a ->
    does (on_route (source e.1 a) e.1) TOOL_CALLS (e.2 a sess))
  (tool_table outside caller).
Proof.
  unfold tool_table. repeat apply Forall_cons_2; [..|by constructor]; cbn [fst snd]; intros a sess Hargs Hw.
  all: try unfold request_access; try unfold mail_list; try unfold a2a_end; try unfold wait; try unfold host_job;
    try unfold a2a_poll; try unfold a2a_events; try unfold get; try unfold post.
  all: lazymatch goal with
       | |- does _ _ (host_run _ _ _ _) => by apply host_run_does
       | |- does _ _ (host_shell_exec _ _ _) => by apply host_shell_exec_does
       | |- does _ _ (host_shell_close _ _ _) => by apply host_shell_close_does
       | |- does _ _ (close_session _ _ _) => apply close_session_does
       | |- does _ _ (poll _ _ _ _ _ _ _) => apply one_poll; [exact Hw|intros q]
       | |- does _ _ (call _ _ _) => apply one_call
       end.
  all: lazymatch goal with
       | |- on_route _ _ (mkCall _ (under _ ?x _ ++ under _ ?y _) _ _ _) => at_route 0 [x; y]
       | |- on_route _ _ (mkCall _ (under _ ?x _) _ _ _) => at_route 0 [x]
       | |- on_route _ _ _ => at_route 0 (@nil str)
       end.
Qed.

Lemma dispatch_does name a sess : args_ok name a -> wait_capped name a ->
  does (on_route (source name a) name) TOOL_CALLS (dispatch outside caller name a sess).
Proof.
  intros Hargs Hw. unfold dispatch. destruct (find _ _) as [e|] eqn:E; [|apply does_fail].
  apply find_some in E as [Hin Hn%str_eqb_true]. subst name. apply list_elem_of_In in Hin.
  exact (proj1 (Forall_forall _ _) table_does e Hin a sess Hargs Hw).
Qed.

Lemma sessioned_route src name b : existsb (str_eqb name) SESSIONED = true ->
  on_route src name (mkCall (lit "POST") (lit "/v1/sessions") [] b None).
Proof.
  intros (n & Hin & ->%str_eqb_true)%existsb_exists. exists SESSIONS, [].
  split_and!; [|split_and!; [reflexivity|reflexivity|vm_compute; reflexivity]|by constructor].
  assert (Hall : Forall (fun n => SESSIONS ∈ api_routes n) SESSIONED).
  { unfold SESSIONED. cbn [map]. repeat apply Forall_cons_2; [..|by constructor].
    all: match goal with |- _ ∈ api_routes ?n => let rs := eval vm_compute in (api_routes n) in
      change (api_routes n) with rs; repeat (first [by left | right]) end. }
  apply (proj1 (Forall_forall _ _) Hall). by apply list_elem_of_In.
Qed.

(** A session minted, the tool, and both once more. *)
Definition RUN_CALLS : nat := 412.
Lemma run_with_session_does name a : args_ok name a -> wait_capped name a ->
  does (on_route (source name a) name) RUN_CALLS (run_with_session outside caller name a).
Proof.
  intros Hargs Hw. unfold run_with_session. destruct (existsb (str_eqb name) SESSIONED) eqn:Es; cbn [negb].
  2: { apply (does_weaken _ _ TOOL_CALLS); [by apply dispatch_does|unfold TOOL_CALLS, RUN_CALLS; lia]. }
  destruct (nonblank (arg_opt_s a "session_key")) as [key|].
  { apply (does_weaken _ _ TOOL_CALLS); [by apply dispatch_does|unfold TOOL_CALLS, RUN_CALLS; lia]. }
  assert (Hmint : does (on_route (source name a) name) 1 (minted outside caller)).
  { apply does_minted. intros b. by apply sessioned_route. }
  apply (does_bind _ _ _ 1 411); [done|intros session].
  apply (does_bind _ _ _ 205 206); [by apply does_try, dispatch_does|].
  intros [v|e]; [apply does_ret|]. destruct (is_stale e); [|apply does_fail].
  apply (does_bind _ _ _ 0 206); [apply does_with_minted|intros _].
  apply (does_bind _ _ _ 1 205); [done|intros session']. by apply dispatch_does.
Qed.

Lemma read_args_sorted params given map a : map_sorted map -> read_args params given map = Ok a -> map_sorted a.
Proof.
  revert map. induction params as [|p params IH]; cbn [read_args]; intros map Hs; [by intros [= <-]|].
  destruct (match map_get (pa_name p) given with Some v => Some v | None => DefaultValue_value (pa_default p) end) as [v|]; [|done].
  destruct (arg_fits p v); [|done]. apply IH. by apply map_insert_sorted.
Qed.
Lemma cap_wait_capped def a : map_sorted a -> wait_capped (td_name def) (cap_wait def a).1.
Proof.
  intros Hs. unfold wait_capped, cap_wait. destruct (wait_param (td_name def)) as [p|]; [|done]. cbn [fst].
  unfold arg_f_of at 1. rewrite map_get_insert by done. rewrite (proj2 (str_eqb_true p p)) by done. cbn.
  assert (Hc : capped (f64_clamp (arg_f_of a p) 0 REMOTE_MAX_WAIT_SECS)).
  { unfold f64_clamp. destruct (f64_ltb REMOTE_MAX_WAIT_SECS (if f64_ltb (arg_f_of a p) 0 then 0%N else arg_f_of a p)) eqn:E; [vm_compute; reflexivity|exact E]. }
  unfold json_f64, Number_from_f64. destruct (f64_finite _); [exact Hc|vm_compute; reflexivity].
Qed.

(** *** What reading the arguments keeps *)

Lemma read_args_given params given map a k v : map_sorted map -> read_args params given map = Ok a ->
  map_get k given = Some v -> map_get k map = Some v \/ k ∈ List.map pa_name params -> map_get k a = Some v.
Proof.
  revert map. induction params as [|p params IH]; cbn [read_args List.map]; intros map Hs.
  { intros [= <-] _ [?|?%elem_of_nil]; done. }
  destruct (match map_get (pa_name p) given with Some w => Some w | None => _ end) as [w|] eqn:Ew; [|done].
  destruct (arg_fits p w); [|done]. intros Hr Hg Hor. eapply IH; [by apply map_insert_sorted|exact Hr|exact Hg|].
  rewrite map_get_insert by done. destruct (str_eqb k (pa_name p)) eqn:E.
  - apply str_eqb_true in E as ->. rewrite Hg in Ew. injection Ew as ->. by left.
  - destruct Hor as [?|[->|?]%elem_of_cons]; [by left| |by right]. by rewrite (proj2 (str_eqb_true _ _) eq_refl) in E.
Qed.
Lemma read_args_origin params given map a k v : map_sorted map -> read_args params given map = Ok a ->
  map_get k a = Some v -> map_get k map = Some v \/ map_get k given = Some v \/
    exists p, p ∈ params /\ pa_name p = k /\ DefaultValue_value (pa_default p) = Some v.
Proof.
  revert map. induction params as [|p params IH]; cbn [read_args]; intros map Hs.
  { intros [= <-]. auto. }
  destruct (match map_get (pa_name p) given with Some w => Some w | None => _ end) as [w|] eqn:Ew; [|done].
  destruct (arg_fits p w); [|done]. intros Hr Hk.
  destruct (IH _ ltac:(by apply map_insert_sorted) Hr Hk) as [Hm|[?|(q & Hq & ?)]]; [|auto|].
  - rewrite map_get_insert in Hm by done. destruct (str_eqb k (pa_name p)) eqn:E; [|auto].
    apply str_eqb_true in E as ->. injection Hm as ->. right.
    destruct (map_get (pa_name p) given); [left; congruence|right]. exists p. split; [by left|done].
  - right. right. exists q. split; [by right|done].
Qed.
Lemma read_args_required params given map a p : read_args params given map = Ok a -> p ∈ params ->
  pa_ty p = TStr -> pa_nullable p = false -> pa_default p = Required ->
  exists x, map_get (pa_name p) given = Some (VString x).
Proof.
  intros Hr Hp Ht Hn Hd. revert map Hr. induction Hp as [p params|p q params Hp IH]; cbn [read_args]; intros map.
  - rewrite Hd. cbn [DefaultValue_value]. destruct (map_get (pa_name p) given) as [v|]; [|done].
    destruct (arg_fits p v) eqn:E; [|done]. intros _. unfold arg_fits in E. rewrite Ht, Hn, Hd in E.
    destruct v; try done. eauto.
  - destruct (match map_get (pa_name q) given with Some w => Some w | None => _ end); [|done].
    destruct (arg_fits q _); [|done]. by apply IH.
Qed.

(** The texts of the capped arguments are those of the arguments. *)
Lemma cap_wait_get def a p x : map_sorted a -> map_get p (cap_wait def a).1 = Some (VString x) -> map_get p a = Some (VString x).
Proof.
  intros Hs. unfold cap_wait. destruct (wait_param _) as [w|]; cbn [fst]; [|done].
  rewrite map_get_insert by done. destruct (str_eqb p w); [|done].
  unfold json_f64. by destruct (Number_from_f64 _).
Qed.
Lemma cap_wait_keeps def a p v : map_sorted a -> wait_param (td_name def) <> Some p -> map_get p a = Some v ->
  map_get p (cap_wait def a).1 = Some v.
Proof.
  intros Hs Hp. unfold cap_wait. destruct (wait_param _) as [w|]; cbn [fst]; [|done].
  rewrite map_get_insert by done. destruct (str_eqb p w) eqn:E; [|done]. apply str_eqb_true in E as ->. done.
Qed.

(** Tools as the table has them. *)
Definition known (def : ToolDef) : Prop := tool (td_name def) = Some def.
Lemma known_served rc served def : RemoteMcp_new rc = Ok served -> def ∈ served -> known def.
Proof.
  unfold RemoteMcp_new. generalize (rm_tools rc). intros names Hs Hd.
  enough (Hg : forall acc, serve acc names = Ok served -> (forall d, d ∈ acc -> known d) -> known def)
    by (apply (Hg [] Hs); by intros ? ?%elem_of_nil).
  clear Hs. induction names as [|name names IH]; cbn [serve]; intros acc; [intros [= ->]; auto|].
  destruct (existsb _ REMOTE_NEVER_SERVED); [apply IH|]. destruct (tool name) as [d|] eqn:Et; [|done].
  destruct (existsb _ acc); [apply IH|]. intros Hs Hacc. apply (IH _ Hs).
  intros d' [?| ->%list_elem_of_singleton]%elem_of_app; [auto|]. unfold known.
  pose proof Et as Et'. unfold tool in Et'. apply find_some in Et' as [_ Hn%str_eqb_true]. by rewrite Hn.
Qed.
(** No id of a path has a text by default. *)
Lemma ids_given def p x : known def -> p ∈ td_params def -> pa_name p ∈ ID_PARAMS ->
  DefaultValue_value (pa_default p) = Some (VString x) -> False.
Proof.
  unfold known, tool. intros [Hd _]%find_some Hp Hi Hx.
  assert (Hall : forallb (fun d => forallb (fun q => negb (existsb (str_eqb (pa_name q)) ID_PARAMS)
    || match pa_default q with DStr _ => false | _ => true end) (td_params d)) TOOLS = true) by (vm_compute; reflexivity).
  rewrite forallb_forall in Hall. specialize (Hall _ Hd). rewrite forallb_elem in Hall. specialize (Hall _ Hp).
  apply orb_true_iff in Hall as [Hn|Hdef].
  - apply negb_true_iff, not_true_iff_false in Hn. apply Hn, existsb_exists. exists (pa_name p).
    split; [by apply list_elem_of_In|by apply str_eqb_true].
  - destruct (pa_default p); done.
Qed.

Lemma Args_new_ok def given a : known def -> Args_new def given = Ok a -> args_ok (td_name def) (cap_wait def a).1.
Proof.
  intros Hk Ha p Hp. unfold required_text in Hp. rewrite Hk in Hp. apply andb_true_iff in Hp as [Hp Hw].
  apply negb_true_iff, bool_decide_eq_false in Hw. apply existsb_elem in Hp as (q & Hq & Hp).
  rewrite !andb_true_iff, negb_true_iff, !bool_decide_eq_true, str_eqb_true in Hp. destruct Hp as [[[<- Ht] Hn] Hd].
  unfold Args_new in Ha. destruct (read_args_required _ _ _ _ _ Ha Hq Ht Hn Hd) as [x Hx]. exists x.
  apply cap_wait_keeps; [by eapply read_args_sorted; [|exact Ha]|done|].
  eapply read_args_given; [|exact Ha|exact Hx|right]; [done|]. apply list_elem_of_fmap. by exists q.
Qed.

(** Where the ids in the calls of a tool come from: a text the model gave
    for one of the tool's id parameters; or, for a command, what
    [source] says. *)
Definition id_source (def : ToolDef) (given : option Args) (x : str) : Prop :=
  (exists p, p ∈ ID_PARAMS /\ map_get p (default [] given) = Some (VString x)) \/
  td_name def = lit "host_run" /\ exists a sess resp, Args_new def given = Ok a /\
    answered outside (mkCall (lit "POST") (lit "/v1/requests") [] (Some (host_run_body a)) sess) resp /\
    x = default [] (field_str resp (lit "id")).
Lemma host_run_body_cap def a : td_name def = lit "host_run" -> map_sorted a ->
  host_run_body (cap_wait def a).1 = host_run_body a.
Proof.
  intros Hn Hs. unfold cap_wait. rewrite Hn. change (wait_param (lit "host_run")) with (Some (lit "wait_secs")). cbn [fst].
  generalize (json_f64 (f64_clamp (arg_f_of a (lit "wait_secs")) 0 REMOTE_MAX_WAIT_SECS)). intros w.
  unfold host_run_body, run_scope, arg_s, arg_opt_s, arg_v. rewrite !map_get_insert by done. reflexivity.
Qed.
Lemma source_given def given a x : known def -> Args_new def given = Ok a ->
  source (td_name def) (cap_wait def a).1 x -> id_source def given x.
Proof.
  intros Hk Ha. assert (Hs : map_sorted a) by (by eapply read_args_sorted; [|exact Ha]).
  intros [(p & Hp & Hx)|(Hn & sess & resp & Hans & ->)].
  - left. exists p. split; [done|]. apply cap_wait_get in Hx; [|done].
    pose proof Ha as Ha'. unfold Args_new in Ha'.
    destruct (read_args_origin _ _ [] _ _ _ ltac:(done) Ha' Hx) as [?|[?|(q & Hq & <- & Hd)]]; [done|done|].
    by destruct (ids_given def q x).
  - right. split; [done|]. exists a, sess, resp. by rewrite (host_run_body_cap def a) in Hans.
Qed.

Lemma run_does def a : map_sorted a -> args_ok (td_name def) (cap_wait def a).1 ->
  does (on_route (source (td_name def) (cap_wait def a).1) (td_name def)) RUN_CALLS (run outside caller def a).
Proof.
  intros Hs Hargs. unfold run. pose proof (cap_wait_capped def a Hs) as Hw. destruct (cap_wait def a) as [a' big]. cbn [fst] in *.
  apply (does_bind _ _ _ 412 0); [by apply does_try, run_with_session_does|intros out; apply does_ret].
Qed.
Lemma call_tool_does served name given : (forall def, def ∈ served -> known def) ->
  does (fun c => exists def, def ∈ served /\ td_name def = name /\ on_route (id_source def given) name c)
    RUN_CALLS (call_tool outside caller served name given).
Proof.
  intros Hknown. unfold call_tool. destruct (find _ _) as [def|] eqn:E; [|apply does_ret].
  apply find_some in E as [Hin Hn%str_eqb_true]. apply list_elem_of_In in Hin.
  destruct (Args_new def given) as [a|e] eqn:Ea; [|apply does_ret].
  apply (does_bind _ _ _ 412 0); [|intros out; apply does_ret]. intros s.
  destruct (run_does def a ltac:(by eapply read_args_sorted; [|exact Ea]) ltac:(by eapply Args_new_ok; auto) s)
    as (r & s' & l & Er & Hl & Hp & Hlen & Ht).
  exists r, s', l. split_and!; try done. eapply Forall_impl; [exact Hp|]. intros c (ro & ids & ? & ? & Hids).
  exists def. rewrite <- Hn. split_and!; [done..|]. exists ro, ids. split_and!; [done..|].
  eapply Forall_impl; [exact Hids|]. intros x. apply source_given; auto.
Qed.
End tools.

(** Every route of the table is absolute, with nothing empty after that. *)
Lemma routes_absolute name r : r ∈ api_routes name ->
  hd HOLE (split (ch "/") (ro_path r)) = [] /\ [] ∉ tl (split (ch "/") (ro_path r)).
Proof.
  unfold api_routes. destruct (find _ _) as [e|] eqn:E; [|by intros ?%not_elem_of_nil].
  apply find_some in E as [Hin _]. apply list_elem_of_In in Hin. intros Hr.
  assert (Hall : forallb (fun e => forallb (fun r => str_eqb (hd HOLE (split (ch "/") (ro_path r))) []
    && negb (existsb (str_eqb []) (tl (split (ch "/") (ro_path r))))) e.2) route_table = true) by (vm_compute; reflexivity).
  rewrite forallb_elem in Hall. specialize (Hall _ Hin). rewrite forallb_elem in Hall. specialize (Hall _ Hr).
  apply andb_true_iff in Hall as [->%str_eqb_true Hn]. split; [done|]. intros Hi.
  apply negb_true_iff, not_true_iff_false in Hn. apply Hn, existsb_exists. exists []. by apply list_elem_of_In in Hi.
Qed.

Section theorems.
Context `{RustFmt, JsonRead, WebLib} (outside : Outside) (caller : McpCaller).

(** C25: whatever the agent API answers, however time passes and whatever other
    calls do to the minted sessions: a call of a tool ends after at most
    [RUN_CALLS] calls on the API, and each of them is on one of the tool's
    own routes, with its holes filled by ids that are texts the model gave
    for the tool's id parameters or, for a command's decision and its job,
    the id in an answer of the API to the very request the tool makes for
    it. It is then on a route that a connector's token may use, unless one
    of those ids is empty: the model gave an empty one, or the API's answer
    to that request has none. *)
Theorem tool_calls_allowed rc served name given s : RemoteMcp_new rc = Ok served ->
  exists out s' calls, call_tool outside caller served name given s = Some (Ok out, s') /\
  st_calls s' = st_calls s ++ calls /\ length calls <= RUN_CALLS /\
  Forall (fun c => exists def r ids, def ∈ served /\ td_name def = name /\ r ∈ api_routes name /\
    call_with r ids c /\ Forall (id_source outside def given) ids /\
    (allows served (ca_method c) (ca_path c) = true \/ [] ∈ ids)) calls.
Proof.
  intros Hnew.
  destruct (call_tool_does outside caller served name given ltac:(intros def; by apply (known_served rc)) s)
    as (r & s' & l & E & Hl & Hp & Hn & _).
  assert (Hok : exists out, r = Ok out).
  { revert E. unfold call_tool. destruct (find _ _); [|by intros [= <- _]; eauto].
    destruct (Args_new _ _); [|by intros [= <- _]; eauto]. unfold task_bind at 1, run.
    destruct (cap_wait _ _) as [a' big]. unfold task_bind at 1, task_try.
    destruct (run_with_session _ _ _ _ _) as [[r' s1]|]; [|done]. by intros [= <- _]; eauto. }
  destruct Hok as [out ->]. exists out, s', l. split_and!; [done..|]. eapply Forall_impl; [exact Hp|].
  intros c (def & Hd & <- & ro & ids & Hro & Hc & Hids). destruct (routes_absolute _ _ Hro).
  exists def, ro, ids. split_and!; [done..|]. by apply (call_with_allowed served def ro).
Qed.
End theorems.

(** ** On a sample call *)

Module SampleCall.
Definition reader : JsonRead := Build_JsonRead (fun _ => Some (json_obj
  [(lit "id", VString (lit "7")); (lit "status", VString (lit "granted"))])).
Definition web : WebLib := Build_WebLib (fun _ => []) (fun _ => []) (fun _ => true) (fun _ => true) (fun _ => None).
Definition fmt : RustFmt := Build_RustFmt (fun _ => []) id (fun _ => []).
Definition outside : Outside := mkOutside (Some (fun _ _ => mkAnswer 200 [] 1)) (fun _ => false) id (fun _ => 0%N) (fun _ => id).
Definition remote : RemoteMcpConfig := mkRemoteMcp true [] [] [lit "check_status"] 0 0 0.
Definition given : Args := [(lit "request_id", VString (lit "7"))].
End SampleCall.

Lemma tool_calls_allowed_witness : exists out s' calls,
  @call_tool SampleCall.fmt SampleCall.reader SampleCall.web SampleCall.outside (mkMcpCaller 1 None)
    [tool_check_status] (lit "check_status") (Some SampleCall.given) (mkMcp 0 0 [] ∅) = Some (Ok out, s') /\
  st_calls s' = calls /\ length calls = 1 /\ Forall (fun c => ca_path c = lit "/v1/requests/7") calls.
Proof.
  destruct (@tool_calls_allowed SampleCall.fmt SampleCall.reader SampleCall.web SampleCall.outside (mkMcpCaller 1 None)
    SampleCall.remote [tool_check_status] (lit "check_status") (Some SampleCall.given) (mkMcp 0 0 [] ∅))
    as (out & s' & calls & E & Hc & _ & _); [vm_compute; reflexivity|].
  exists out, s', calls. split; [exact E|]. vm_compute in E. injection E as _ <-. cbn in Hc. rewrite <- Hc.
  split; [reflexivity|]. split; [reflexivity|]. repeat constructor.
Defined.
