(* ===== verification/Callers.v ===== *)
(** Who is calling ([crates/broker/src/auth/mod.rs], [extract.rs]): what
    turns a request into an agent, with an API key or a connector's access
    token, into the administrator, or into the caller of the remote MCP
    endpoint ([remote_mcp/mod.rs], [gate]). *)

From stdpp Require Import gmap.
From S2P Require Import Prelude Json Glob Pyfmt Lifecycle Names Durations Pool Mail Authority Routing Agents Hostexec Schema Policy Zones Eval HostTypes TotpCode F64 Transcript Envelope Hello Store ServiceRouting Pairing P256 Jwt SecretBox Accounts OAuth SecurityLog McpTools RemoteMcp.
From stdpp Require Import options.
#[local] Set Default Proof Using "Type*".

(** ** Requests *)

(** A header's value is its bytes. *)
Record Parts := mkParts {
  pt_method : str;
  pt_path : str;
  pt_authorization : option bytes;
  pt_agent_session : option bytes;
  pt_real_ip : option bytes;
  pt_peer : option str;
}.
Definition bearer_token (p : Parts) : option str :=
  value ← pt_authorization p;
  value ← header_text value;
  '(scheme, token) ← split_once (ch " ") value;
  let token := trim token in
  if str_eqb (map ascii_lower scheme) (lit "bearer") && negb (str_eqb token []) then Some token else None.

Definition client_address (p : Parts) (trust_x_real_ip : bool) : option str :=
  match if trust_x_real_ip then v ← pt_real_ip p; header_text v else None with
  | Some ip => Some (take 64 ip)
  | None => pt_peer p
  end.

Record ApiError := mkApiError { ae_status : N; ae_detail : str }.
Definition unauthorized (detail : str) : ApiError := mkApiError 401 detail.
Definition forbidden (detail : str) : ApiError := mkApiError 403 detail.
Definition unavailable (detail : str) : ApiError := mkApiError 503 detail.
Definition internal : ApiError := mkApiError 500 (lit "internal error").

(** A refusal, and the security event it records, if any: its kind and its
    fields after the client and the path. *)
Record Denied := mkDenied { dn_error : ApiError; dn_event : option (str * list (str * option str)) }.
Definition denied (e : ApiError) (kind : string) (fields : list (str * option str)) : Denied := mkDenied e (Some (lit kind, fields)).
Arguments denied _ _%_string _.
Definition silent (e : ApiError) : Denied := mkDenied e None.

Inductive AgentCredentialKind := ApiKey | OAuthConnector.
#[export] Instance AgentCredentialKind_eq_dec : EqDecision AgentCredentialKind.
Proof. solve_decision. Defined.

(** [AuthConfig] and the tools the remote endpoint serves, if it is on. *)
Record AuthConfig := mkAuthConfig {
  au_admin_token : option str;
  au_oauth_enabled : bool;
  au_trust_x_real_ip : bool;
  au_remote_mcp : option (list ToolDef);
}.

(** The extractor's [AgentCaller]: [ServiceRouting]'s is what of it the
    service reads. *)
Record Caller := mkCallerOf {
  ca_agent : AgentRow;
  ca_sess : option SessionRow;
  ca_via : AgentCredentialKind;
  ca_token_hash : option str;
}.
Definition service_caller (c : Caller) : AgentCaller := mkCaller (ca_agent c) (se_id <$> ca_sess c).

Definition TOUCH_INTERVAL : Z := seconds 20.

Section extract.
Context `{UnicodeLower, DateLib, UuidLib, Sha256, Hex, Base64} (config : AuthConfig).

Definition db_read {A} (m : act StoreError A) : act Denied A := fun a => map_err (fun _ => silent internal) (m a).
Definition deny {A} (d : Denied) : act Denied A := act_fail d.

Definition lapsed (a : AgentRow) (now : Instant) : bool :=
  match ag_lease a with Some l => Z.leb l now | None => false end.
Definition get_row (id : AgentId) : act StoreError (option AgentRow) := on_db (get_agent id).

(** A connector's access token. *)
Definition connector_agent_of (p : Parts) (token : str) (now : Instant) : act Denied AgentRow :=
  let$ id := db_read (agent_for_access (hash_secret token) now) in
  let$ agent := match id with Some id => db_read (get_row id) | None => act_ret None end in
  match agent with
  | Some a =>
      if negb (ag_disabled a) && negb (lapsed a now) && negb (bool_decide (ag_kind a = Operator)) then
        let permitted := match au_remote_mcp config with Some served => allows served (pt_method p) (pt_path p) | None => false end in
        if permitted then act_ret a
        else deny (denied (forbidden (lit "not available to a web UI connector")) "connector_route"
               [(lit "agent", Some (ag_name a)); (lit "method", Some (pt_method p))])
      else deny (denied (unauthorized (lit "invalid or expired access token")) "bad_key"
             [(lit "agent", Some (ag_name a)); (lit "reason", Some (lit "oauth token"))])
  | None =>
      deny (denied (unauthorized (lit "invalid or expired access token")) "bad_key"
        [(lit "agent", None); (lit "reason", Some (lit "oauth token"))])
  end.

(** Why a key is refused, if it is. *)
Definition key_refusal (found : option AgentRow) (parsed : ParsedKey) (now : Instant) : option str :=
  match found with
  | None => Some (lit "unknown key")
  | Some a =>
      if ag_disabled a then Some (lit "disabled")
      else if lapsed a now then Some (lit "lease expired")
      else if bool_decide (ag_kind a = Operator) then Some (lit "operator")
      else match SecretHash_parse (ag_api_key_hash a) with
           | Some stored => if api_key_verify (pk_secret parsed) stored then None else Some (lit "wrong secret")
           | None => Some (lit "wrong secret")
           end
  end.
Definition key_agent_of (token : str) (now : Instant) : act Denied AgentRow :=
  match api_key_parse token with
  | None => deny (denied (unauthorized (lit "malformed API key")) "bad_key" [(lit "reason", Some (lit "malformed"))])
  | Some parsed =>
      let$ found := db_read (by_key_id (pk_key_id parsed)) in
      match key_refusal found parsed now, found with
      | Some reason, _ =>
          deny (denied (unauthorized (lit "invalid API key")) "bad_key"
            [(lit "key_id", Some (pk_key_id parsed)); (lit "agent", ag_name <$> found); (lit "reason", Some reason)])
      | None, Some a => act_ret a
      | None, None => deny (silent (unauthorized (lit "invalid API key")))
      end
  end.

Definition stale : Denied := silent (unauthorized (lit "unknown or closed session")).
Definition session_header (p : Parts) : option bytes := match pt_agent_session p with Some [] => None | h => h end.
Definition with_session (p : Parts) (agent : AgentRow) (now : Instant) : act Denied (option SessionRow) :=
  match session_header p with
  | None => act_ret None
  | Some header =>
      match text ← header_text header; parse_canonical text with
      | None => deny stale
      | Some id =>
          let$ s := db_read (get_open (ag_id agent) id) in
          match s with
          | None => deny stale
          | Some s =>
              let$ _ := db_read (touch_session id now (sat_plus now (- TOUCH_INTERVAL))) in
              act_ret (Some s)
          end
      end
  end.

Definition is_connector_token (token : str) : bool :=
  au_oauth_enabled config && negb (is_none (strip_prefix ACCESS_PREFIX token)).
(** The transaction of [AgentCaller::from_request_parts]. *)
Definition extract (p : Parts) (now : Instant) : act Denied Caller :=
  match bearer_token p with
  | None => deny (silent (unauthorized (lit "missing bearer token")))
  | Some token =>
      let connector := is_connector_token token in
      let$ agent := (if connector then connector_agent_of p token now else key_agent_of token now) in
      let$ session := with_session p agent now in
      let$ _ := db_read (touch_seen (ag_id agent) now (sat_plus now (- TOUCH_INTERVAL))) in
      act_ret (mkCallerOf agent session (if connector then OAuthConnector else ApiKey)
        (if connector then Some (hash_secret token) else None))
  end.

(** [record] of a refusal. *)
Definition record_denied (p : Parts) (now : Instant) (d : Denied) (log : Rings) : Rings :=
  match dn_event d with
  | None => log
  | Some (kind, fields) =>
      record log kind now
        ([(lit "client", client_address p (au_trust_x_real_ip config)); (lit "path", Some (pt_path p))] ++ fields)
  end.
Definition from_request_parts (p : Parts) (now : Instant) (a : Accounts) (log : Rings)
  : result ApiError Caller * Accounts * Rings :=
  match extract p now a with
  | Ok (c, a') => (Ok c, a', log)
  | Err d => (Err (dn_error d), a, record_denied p now d log)
  end.

(** Its row is still one that may act, with the key it presented. *)
Definition agent_ok (c : Caller) (now : Instant) (row : option AgentRow) : bool :=
  match row with
  | Some a =>
      negb (ag_disabled a) && negb (lapsed a now) && negb (bool_decide (ag_kind a = Operator))
      && (bool_decide (ca_via c = OAuthConnector)
          || str_eqb (ag_key_id a) (ag_key_id (ca_agent c)) && str_eqb (ag_api_key_hash a) (ag_api_key_hash (ca_agent c)))
  | None => false
  end.
(** Its access token, if it came with one, is still live. *)
Definition token_live (c : Caller) (now : Instant) : act Denied bool :=
  match ca_token_hash c with
  | None => act_ret true
  | Some h =>
      let$ id := db_read (agent_for_access h now) in
      act_ret (bool_decide (id = Some (ag_id (ca_agent c))))
  end.
(** [AgentCaller::revalidate]: a transaction that only reads. *)
Definition revalidate (c : Caller) (now : Instant) : act Denied unit :=
  let$ row := db_read (get_row (ag_id (ca_agent c))) in
  let$ token_ok := token_live c now in
  if negb (agent_ok c now row) || negb token_ok then
    deny (silent (unauthorized match ca_via c with
      | ApiKey => lit "invalid API key"
      | OAuthConnector => lit "invalid or expired access token"
      end))
  else match ca_sess c with
       | None => act_ret tt
       | Some s =>
           let$ found := db_read (get_open (ag_id (ca_agent c)) (se_id s)) in
           match found with None => deny stale | Some _ => act_ret tt end
       end.

(** The administrator: the panel's outcome when it has one, else the token. *)
Inductive AdminIdentity := AdminToken | AdminPanel (user : str).
Definition admin_label (who : AdminIdentity) : str :=
  match who with AdminToken => lit "admin token" | AdminPanel user => user end.
Definition human_decider (who : AdminIdentity) : str :=
  match who with AdminToken => lit "admin-api" | AdminPanel user => user end.
Definition extract_admin (panel : option (result ApiError str)) (p : Parts) : result Denied AdminIdentity :=
  match panel with
  | Some (Ok user) => Ok (AdminPanel user)
  | Some (Err e) => Err (silent e)
  | None =>
      match au_admin_token config with
      | None => Err (silent (unavailable (lit "admin API disabled: ADMIN_TOKEN not configured")))
      | Some expected =>
          let presented := bearer_token p in
          if match presented with Some t => ct_eq_hashed (as_bytes t) (as_bytes expected) | None => false end
          then Ok AdminToken
          else
            let e := unauthorized (lit "invalid admin token") in
            if negb (is_none presented) || negb (is_none (pt_authorization p))
            then Err (denied e "bad_admin_token" []) else Err (silent e)
      end
  end.

(** [gate]: the caller of the remote endpoint, if its token is live. *)
Definition gate (p : Parts) (now : Instant) : act StoreError (option McpCaller) :=
  match bearer_token p with
  | None => act_ret None
  | Some token =>
      let$ row := access token now in
      match row with
      | None => act_ret None
      | Some r =>
          let$ agent := get_row (to_agent r) in
          act_ret match agent with
            | Some a => if ag_disabled a then None
                        else Some (mkMcpCaller (to_family r) (client_address p (au_trust_x_real_ip config)))
            | None => None
            end
      end
  end.
End extract.

(** [DiscordOwner::check]. *)
Definition owner_check (configured user_id : N) (name : str) : option (N * str) :=
  if negb (N.eqb configured 0) && N.eqb user_id configured then Some (user_id, name) else None.
