(* ===== verification/Panel.v ===== *)
(** The admin panel ([crates/broker/src/webui/panel.rs], [mod.rs]) and the
    broker's switches it keeps its sign-outs in
    ([crates/store/src/flags.rs]): what a signed-in session may call, when
    its cookie opens, and the pages it is signed in and out with. *)

From stdpp Require Import gmap.
From S2P Require Import Prelude Json Glob Pyfmt Pool Mail Authority Routing Agents Schema Policy Zones Eval HostTypes TotpCode F64 Transcript Envelope Hello CanonicalJson P256 Jwt Store Pairing SecretBox Accounts OAuth McpTools RemoteMcp SignIn SecurityLog Callers.
From stdpp Require Import options.
#[local] Set Default Proof Using "Type*".

(** ** The broker's flags *)

(** A row's value and when it was last written. *)
Abbreviation Flags := (gmap str (Value * Instant)) (only parsing).
Definition flag_get (key : str) (f : Flags) : option Value := fst <$> f !! key.
(** The value to change, the row made first when there is none. *)
Definition flag_get_for_update (key : str) (initial : Value) (now : Instant) (f : Flags) : Value * Flags :=
  match f !! key with
  | Some (v, _) => (v, f)
  | None => (initial, <[key := (initial, now)]> f)
  end.
Definition flag_set (key : str) (value : Value) (now : Instant) (f : Flags) : Flags := <[key := (value, now)]> f.
Definition flag_delete (key : str) (f : Flags) : bool * Flags := (negb (is_none (f !! key)), delete key f).
(** [jsonb]'s [?]: an element of an array, or a key of an object. *)
Definition jsonb_has (v : Value) (s : str) : bool :=
  match v with
  | VArray l => existsb (fun x => str_is x s) l
  | VObject m => negb (is_none (map_get s m))
  | VString t => str_eqb t s
  | _ => false
  end.
Definition flag_locked (host : str) (f : Flags) : bool :=
  match (v ← flag_get (lit "lockdown") f; value_get v (lit "hosts")) with
  | Some hosts => jsonb_has hosts (lit "*") || jsonb_has hosts host
  | None => false
  end.

(** ** The closed list *)

Definition SESSION_COOKIE : str := lit "__Host-aa_ui".
Definition LOGIN_COOKIE : str := lit "__Host-aa_ui_login".
Definition LOGIN_TTL : Z := 600.
Definition SIGNOUTS_FLAG : str := lit "panel_signouts".
Definition CSRF_HEADER : str := lit "x-csrf-token".

Definition ALLOWED : list ApiRoute :=
  [rt "GET" "/admin/agents"; rt "GET" "/admin/rules"; rt "GET" "/admin/daemons"; rt "GET" "/admin/hosts";
   rt "GET" "/admin/broker-key"; rt "GET" "/admin/projects"; rt "GET" "/admin/log/decisions";
   rt "GET" "/admin/log/commands"; rt "GET" "/admin/log/commands/{}"; rt "GET" "/admin/a2a/graph";
   rt "GET" "/admin/a2a/threads/{}"; rt "GET" "/admin/models/usage"; rt "GET" "/admin/connectors";
   rt "POST" "/admin/connectors/{}/revoke"; rt "GET" "/admin/chat/peers"; rt "GET" "/admin/chat/threads";
   rt "GET" "/admin/chat/threads/{}"; rt "POST" "/admin/chat/threads"; rt "POST" "/admin/chat/threads/{}/messages";
   rt "POST" "/admin/chat/threads/{}/close"; rt "POST" "/admin/agents"; rt "PATCH" "/admin/agents/{}/attributes";
   rt "POST" "/admin/agents/{}/rename"; rt "POST" "/admin/agents/{}/rotate-key"; rt "POST" "/admin/agents/{}/disable";
   rt "DELETE" "/admin/rules/{}"; rt "POST" "/admin/daemons/pairing-codes"; rt "DELETE" "/admin/daemons/{}"].
Definition allowed (method path : str) : bool :=
  existsb (fun r => str_eqb (ro_method r) method && route_matches (ro_path r) path) ALLOWED.

(** ** Requests and sessions *)

Record UiRequest := mkUi {
  ur_method : str; ur_path : str; ur_query : bytes; ur_authority : option str; ur_headers : Headers; ur_peer : option str }.
Definition has_header (r : UiRequest) (name : str) : bool := negb (is_none (header_get (ur_headers r) name)).
(** What the credential extractors read of it. *)
Definition parts_of (r : UiRequest) : Parts :=
  mkParts (ur_method r) (ur_path r) (header_get (ur_headers r) (lit "authorization"))
    (header_get (ur_headers r) (lit "x-agent-session")) (header_get (ur_headers r) (lit "x-real-ip")) (ur_peer r).

Record Session := mkUiSession { us_user : str; us_csrf : str; us_exp : Z; us_iat_ms : Z }.
(** What serde writes and reads: the readers are derived. *)
Definition session_value (s : Session) : Value :=
  json_obj [(lit "user", VString (us_user s)); (lit "csrf", VString (us_csrf s));
            (lit "exp", json_int (us_exp s)); (lit "iat_ms", json_int (us_iat_ms s))].
Definition attempt_value (a : LoginAttempt) : Value :=
  json_obj [(lit "state", VString (la_state a)); (lit "nonce", VString (la_nonce a));
            (lit "verifier", VString (la_verifier a)); (lit "redirect_uri", VString (la_redirect_uri a));
            (lit "carry", default VNull (la_carry a))].
Class UiSerde := { de_session : Value -> option Session; de_attempt : Value -> option LoginAttempt }.
Class UiSerdeLaws `{!UiSerde} : Prop := {
  de_session_value s : (- 2 ^ 63 <= us_exp s < 2 ^ 63)%Z -> (- 2 ^ 63 <= us_iat_ms s < 2 ^ 63)%Z ->
    de_session (session_value s) = Some s;
  de_attempt_value a : la_carry a <> Some VNull -> de_attempt (attempt_value a) = Some a;
}.

(** [Url::parse]: the host and the port that is not the scheme's own. *)
Class UrlLib := { url_authority : str -> option (str * option N) }.
(** [url::form_urlencoded::parse]. *)
Class FormLib := { form_parse : bytes -> list (str * str) }.

Record Panel := mkPanel { pn_base : str; pn_own : option str; pn_ttl : Z; pn_sealer : SecretBox; pn_sign_in : OidcClient }.

Definition str_lower : str -> str := map ascii_lower.
Definition starts_with (c : char) (s : str) : bool := match s with x :: _ => N.eqb x c | [] => false end.
(** [host], [host:port], [[v6]] and [[v6]:port], at the port's colon. *)
Definition host_port (value : str) : str * str :=
  if starts_with (ch "[") value then
    match split_once (ch "]") value with Some (a, b) => (a ++ lit "]", b) | None => (value, []) end
  else match split_once (ch ":") value with Some (a, b) => (a, ch ":" :: b) | None => (value, []) end.

(** [unix_ms]. *)
Definition unix_ms (at_ : Instant) : Z :=
  let ms := Z.quot at_ 1000000 in
  if Z.leb (- 2 ^ 63) ms && Z.ltb ms (2 ^ 63) then ms else (2 ^ 63 - 1)%Z.

(** The sign-outs, as stored. *)
Abbreviation Signouts := (gmap str Z) (only parsing).
Definition signouts_from (v : Value) : Signouts :=
  match v with
  | VObject m => list_to_map (rev (omap (fun kv => (fun t => (kv.1, t)) <$> as_i64 kv.2) m))
  | _ => ∅
  end.
Definition signouts_value (m : Signouts) : Value :=
  VObject (map_of_list (map (fun kv => (kv.1, json_int kv.2)) (map_to_list m))).

Section panel.
Context `{UrlLib, UiSerde, Base64, Ring, Aead, RustFmt, JsonRead}.

Definition authority (url : str) : option str :=
  '(host, port) ← url_authority url;
  let host := str_lower host in
  Some match port with Some p => host ++ lit ":" ++ show_N p | None => host end.
Definition Panel_new (base_url : str) (ttl_secs : Z) (sealer : SecretBox) (sign_in : OidcClient) : Panel :=
  let base := trim_end_char (ch "/") base_url in
  mkPanel base (authority base) ttl_secs sealer sign_in.
Variable p : Panel.

(** The copy in memory, from the table. *)
Definition load_signouts (f : Flags) : Signouts :=
  match flag_get SIGNOUTS_FLAG f with Some v => signouts_from v | None => ∅ end.
(** [sign_out]: the table as its transaction leaves it, and the map it writes
    over the copy in memory once that is committed. *)
Definition sign_out (user : str) (now : Instant) (f : Flags) : Flags * Signouts :=
  let at_ := unix_ms now in
  let horizon := sat_i64 (at_ - sat_i64 (pn_ttl p * 1000)) in
  let '(current, f) := flag_get_for_update SIGNOUTS_FLAG (VObject []) now f in
  let kept := filter (fun kv => Z.ltb horizon kv.2 = true) (signouts_from current) in
  let map := <[user := at_]> kept in
  (flag_set SIGNOUTS_FLAG (signouts_value map) now f, map).

Definition redirect_uri : str := pn_base p ++ lit "/ui/callback".

Definition own_name (value : str) : bool :=
  let default_port := if is_none (strip_prefix (lit "http://") (pn_base p)) then lit "443" else lit "80" in
  let '(host, port) := host_port value in
  if existsb (str_eqb host) [lit "127.0.0.1"; lit "localhost"; lit "[::1]"] then true
  else
    let normalized :=
      match strip_prefix (lit ":") port with
      | Some q => if str_eqb q default_port then host else value
      | None => value
      end in
    bool_decide (pn_own p = Some normalized).
Definition first (text : str) : str := str_lower (trim (hd [] (split (ch ",") text))).
Definition serves (r : UiRequest) : bool :=
  let host :=
    match header_get (ur_headers r) (lit "host") with
    | Some raw => first <$> header_text raw
    | None => str_lower <$> ur_authority r
    end in
  if negb (match host with Some (c :: h) => own_name (c :: h) | _ => false end) then false
  else match header_get (ur_headers r) (lit "x-forwarded-host") with
       | None => true
       | Some raw =>
           match header_text raw with
           | Some t => match first t with [] => true | value => own_name value end
           | None => false
           end
       end.

Definition open_session (cookie : str) (now : Instant) (signouts : Signouts) : option Session :=
  data ← cookie_open (pn_sealer p) KSession cookie (pn_ttl p) now;
  session ← de_session data;
  if Z.leb (us_exp session) (unix_timestamp now) then None
  else match signouts !! us_user session with
       | Some t => if Z.ltb t (us_iat_ms session) then Some session else None
       | None => Some session
       end.
Definition session (r : UiRequest) (now : Instant) (signouts : Signouts) : option Session :=
  cookie ← cookie_get (ur_headers r) SESSION_COOKIE; open_session cookie now signouts.

Definition new_session (user : str) (csrf : bytes) (now : Instant) : Session :=
  mkUiSession user (token_urlsafe csrf) (sat_i64 (unix_timestamp now + pn_ttl p)) (unix_ms now).
Definition seal_session (user : str) (csrf : option bytes) (nonce : option bytes) (now : Instant) : option str :=
  csrf ← csrf;
  cookie_seal (pn_sealer p) KSession (session_value (new_session user csrf now)) now nonce.

Definition csrf_sent (r : UiRequest) : bytes := default [] (header_get (ur_headers r) CSRF_HEADER).
Definition csrf_ok (r : UiRequest) (s : Session) : bool := ct_eq (csrf_sent r) (as_bytes (us_csrf s)).
End panel.

(** ** The administrator's session *)

Section admin.
Context `{UrlLib, UiSerde, UnicodeLower, DateLib, UuidLib, Sha256, Hex, Base64, Ring, Aead, RustFmt, JsonRead}.

Definition admin_session (panel : option Panel) (r : UiRequest) (now : Instant) (signouts : Signouts)
  : option (result ApiError str) :=
  panel ← panel;
  if has_header r (lit "authorization") || negb (serves panel r) then None
  else
    session ← session panel r now signouts;
    Some (if negb (allowed (ur_method r) (ur_path r)) then Err (forbidden (lit "not available from the admin panel"))
          else if negb (str_eqb (ur_method r) (lit "GET")) && negb (csrf_ok r session)
               then Err (forbidden (lit "missing or wrong CSRF token"))
               else Ok (us_user session)).
(** [AdminCaller::from_request_parts]: the panel's session first. *)
Definition admin_caller (config : AuthConfig) (panel : option Panel) (r : UiRequest) (now : Instant) (signouts : Signouts)
  : result Denied AdminIdentity :=
  extract_admin config (admin_session panel r now signouts) (parts_of r).
End admin.

(** ** Pages *)

Inductive UiBody := Html (text : str) | Asset (text mime : str) | UiJson (v : Value) | UiError (detail : str) | NoBody.
Record Response := mkResponse { rp_status : N; rp_location : option str; rp_cookies : list str; rp_body : UiBody }.
(** The files built into the program. *)
Class Assets := { INDEX_HTML : str; MESSAGE_HTML : str; APP_JS : str; APP_CSS : str }.

Definition escape_char (c : char) : str :=
  if N.eqb c (ch "&") then lit "&amp;" else if N.eqb c (ch "<") then lit "&lt;" else if N.eqb c (ch ">") then lit "&gt;"
  else if N.eqb c 34 then lit "&quot;" else if N.eqb c 39 then lit "&#x27;" else [c].
Definition escape_html (text : str) : str := flat_map escape_char text.

Definition not_found : Response := mkResponse 404 None [] (UiError (lit "Not Found")).
Definition refused_with (e : ApiError) : Response := mkResponse (ae_status e) None [] (UiError (ae_detail e)).
Definition see_other (location : str) : Response := mkResponse 303 (Some location) [] NoBody.
Definition with_cookie (r : Response) (c : str) : Response :=
  mkResponse (rp_status r) (rp_location r) (rp_cookies r ++ [c]) (rp_body r).

Section pages.
Context `{Assets, FormLib, UrlLib, UiSerde, UnicodeLower, RustFmt, JsonRead, Base64, Sha256, Ring, Aead, WebLib, Http, DiscoverySerde}.

Definition html (status : N) (body : str) : Response := mkResponse status None [] (Html body).
Definition message (text : str) (status : N) : Response :=
  html status (replace (lit "{{message}}") (escape_html text) MESSAGE_HTML).
Definition UNREACHABLE : str := lit "The sign-in provider could not be reached.".
Definition panel_for (panel : option Panel) (r : UiRequest) : option Panel :=
  p ← panel; if serves p r then Some p else None.
Variables (panel : option Panel) (r : UiRequest) (now : Instant) (signouts : Signouts).

Definition page : Response :=
  match panel_for panel r with
  | None => not_found
  | Some p => if is_none (session p r now signouts) then see_other (lit "/ui/login") else html 200 INDEX_HTML
  end.
(** [login], with the attempt's draws and the cookie's nonce. *)
Definition login (draws : option (bytes * bytes * bytes)) (nonce : option bytes) (c : OidcCache) : Response * OidcCache :=
  match panel_for panel r with
  | None => (not_found, c)
  | Some p =>
      match begin (pn_sign_in p) (redirect_uri p) None draws c with
      | (Ok (url, attempt), c) =>
          match cookie_seal (pn_sealer p) KLogin (attempt_value attempt) now nonce with
          | Some cookie => (with_cookie (see_other url) (cookie_set LOGIN_COOKIE cookie (lit "/") LOGIN_TTL), c)
          | None => (message UNREACHABLE 502, c)
          end
      | (Err (Refused text), c) => (message text 502, c)
      | (Err Unreachable, c) => (message UNREACHABLE 502, c)
      end
  end.
(** The last value given for a name. *)
Definition param (params : list (str * str)) (k : str) : str :=
  match find (fun kv => str_eqb kv.1 k) (rev params) with Some kv => kv.2 | None => [] end.
Definition sealed_attempt (p : Panel) : option LoginAttempt :=
  c ← cookie_get (ur_headers r) LOGIN_COOKIE;
  data ← cookie_open (pn_sealer p) KLogin c LOGIN_TTL now;
  de_attempt data.
Definition callback (csrf nonce : option bytes) (c : OidcCache) : Response * OidcCache :=
  match panel_for panel r with
  | None => (not_found, c)
  | Some p =>
      let params := form_parse (ur_query r) in
      match param params (lit "error") with
      | _ :: _ as error =>
          (message (lit "The provider refused the sign-in (" ++ take 200 error ++ lit ").") 403, c)
      | [] =>
          match identify (pn_sign_in p) (sealed_attempt p) (param params (lit "code")) (param params (lit "state")) now c with
          | (Ok (user, _), c) =>
              match seal_session p user csrf nonce now with
              | None => (message UNREACHABLE 502, c)
              | Some s =>
                  (with_cookie (with_cookie (see_other (lit "/ui/")) (cookie_set SESSION_COOKIE s (lit "/") (pn_ttl p)))
                     (cookie_delete LOGIN_COOKIE (lit "/")), c)
              end
          | (Err (Refused text), c) => (message text 403, c)
          | (Err Unreachable, c) => (message UNREACHABLE 502, c)
          end
      end
  end.
Definition session_page : Response :=
  match panel_for panel r with
  | None => not_found
  | Some p =>
      match session p r now signouts with
      | None => refused_with (unauthorized (lit "not signed in"))
      | Some s => mkResponse 200 None [] (UiJson (json_obj
          [(lit "user", VString (us_user s)); (lit "csrf", VString (us_csrf s)); (lit "expires", json_int (us_exp s))]))
      end
  end.
Definition asset (name : str) : Response :=
  if is_none (panel_for panel r) then not_found
  else if str_eqb name (lit "app.js") then mkResponse 200 None [] (Asset APP_JS (lit "text/javascript; charset=utf-8"))
  else if str_eqb name (lit "app.css") then mkResponse 200 None [] (Asset APP_CSS (lit "text/css; charset=utf-8"))
  else not_found.
(** [logout], when no other sign-out runs beside it; [up] is whether the
    database answers. *)
Definition logout (up : bool) (f : Flags) : Response * Flags * Signouts :=
  match panel_for panel r with
  | None => (not_found, f, signouts)
  | Some p =>
      let gone := with_cookie (mkResponse 204 None [] NoBody) (cookie_delete SESSION_COOKIE (lit "/")) in
      match session p r now signouts with
      | None => (gone, f, signouts)
      | Some current =>
          if negb (csrf_ok r current) then (refused_with (forbidden (lit "missing or wrong CSRF token")), f, signouts)
          else if negb up then (refused_with internal, f, signouts)
          else let '(f, signouts) := sign_out p (us_user current) now f in (gone, f, signouts)
      end
  end.
End pages.
