(* ===== verification/Samples.v ===== *)
(** The worlds of the witnesses, over the stand-ins of [SampleCrypto.v]: a
    daemon paired with a broker, a connector's life, callers, a panel. *)

From stdpp Require Import gmap.
From S2P Require Import Prelude Json Glob Pyfmt Lifecycle Names Durations Pool Mail Authority Routing Agents Hostexec Schema Policy Zones Eval HostTypes TotpCode CanonicalJson F64 Transcript Envelope Hello P256 Jwt SampleCrypto JwtFacts Store ServiceRouting Pairing SecretBox Accounts OAuth SecurityLog McpTools RemoteMcp SignIn Callers Panel.
From stdpp Require Import options.

(** ** A paired daemon *)

Definition hex_char (n : N) : char := if N.ltb n 10 then (ch "0" + n)%N else (ch "a" + (n - 10))%N.
Definition hex_nibble (c : char) : option N :=
  if is_ascii_digit c then Some (c - ch "0")%N
  else if in_range (ch "a") (ch "f") c then Some (c - ch "a" + 10)%N else None.
Fixpoint unhex (t : str) : option bytes :=
  match t with
  | [] => Some []
  | a :: b :: t => h ← hex_nibble a; l ← hex_nibble b; r ← unhex t; Some ((h * 16 + l)%N :: r)
  | _ => None
  end.
#[export] Instance sample_hex : Hex := {|
  hex_encode := fun b => flat_map (fun x => [hex_char (x / 16); hex_char (x mod 16)]) b;
  hex_decode := unhex |}.
#[export] Instance sample_hmac : HmacSha256 := {| hmac_sha256 k m := sha256 (k ++ m) |}.
#[export] Instance sample_upper : UnicodeUpper := {|
  to_uppercase := map (fun c => if is_ascii_lowercase c then (c - 32)%N else c);
  char_alphanumeric := is_ascii_alphanumeric |}.

Definition sample_config : DaemonsConfig := mkDaemonsConfig (Some sample_broker_key) 30 600 5.
(** What the daemon sends with the code of twelve zero bytes, as it is typed. *)
Definition sample_identity : Identity :=
  mkIdentity sample_id sample_daemon_key (public_key sample_broker_key).
Definition sample_pair_body : PairBody := pair_request sample_identity (lit "aaaa aaaa aaaa").
Definition sample_hello_text : str :=
  value_display (json_obj
    [(lit "type", VString (lit "hello")); (lit "role", VString (lit "host"));
     (lit "name", VString (lit "excelsior"));
     (lit "nonce", VString (hs_daemon_nonce sample_handshake)); (lit "params", VString (lit "{}"));
     (lit "sig", VString (b64url_encode (sign sample_daemon_key
        (hello_transcript sample_handshake SDaemon (lit "{}")))))]).

(** ** A connector: two clients register with a server that caps at one,
    both are authorized, and the first spends its code twice *)

Module SampleOAuth.
#[export] Existing Instance ascii_only_lower.
#[export] Existing Instance TextCalendar.calendar.

Definition server : OAuthServer := mkOAuthServer (lit "https://b") [lit "https://c/cb"] (seconds 3600) (seconds 86400) 1.
Definition body (name : str) : bytes := as_bytes (value_display (json_obj
  [(lit "redirect_uris", VArray [VString (lit "https://c/cb")]); (lit "client_name", VString name)])).
Definition empty : Accounts := mkAccounts Database_empty [] [] [].

Definition first := Eval vm_compute in register server (body (lit "one")) None [1%N] [] (seconds 10) ∅ empty.
Definition second := Eval vm_compute in register server (body (lit "two")) None [2%N] [] (seconds 11) first.1.2 first.2.

Definition verifier : str := lit "the verifier".
Definition params (id : str) : gmap str str := list_to_map
  [(lit "client_id", id); (lit "response_type", lit "code"); (lit "code_challenge", pkce_challenge verifier);
   (lit "code_challenge_method", lit "S256"); (lit "state", lit "s")].
Definition id1 : str := CLIENT_PREFIX ++ token_urlsafe [1%N].
Definition id2 : str := CLIENT_PREFIX ++ token_urlsafe [2%N].
Definition auth (id name : str) : Authorization :=
  mkAuthorization id name (lit "https://c/cb") (lit "s") (pkce_challenge verifier).
Definition auth1 : Authorization := Eval vm_compute in auth id1 (lit "one").
Definition auth2 : Authorization := Eval vm_compute in auth id2 (lit "two").
Definition blob1 : ConsentBlob := mkConsent auth1 (lit "jo") (lit "nonce").
Definition blob2 : ConsentBlob := mkConsent auth2 (lit "jo") (lit "nonce").
Definition allow : gmap str str := {[ lit "action" := lit "allow" ]}.
Definition draws1 : Draws := mkDraws 1 [1; 0; 0; 0; 0; 0]%N [7%N] 101 201 [3%N].
Definition draws2 : Draws := mkDraws 2 [2; 0; 0; 0; 0; 0]%N [8%N] 102 202 [4%N].
Definition allowed1 := Eval vm_compute in consent server (Some blob1) (lit "nonce") allow draws1 (seconds 20) second.2.
Definition allowed2 := Eval vm_compute in consent server (Some blob2) (lit "nonce") allow draws2 (seconds 21) allowed1.2.

Definition code1 : str := CODE_PREFIX ++ token_urlsafe [3%N].
Definition form : TokenForm :=
  mkTokenForm (Some (lit "authorization_code")) (Some code1) None (Some verifier) None (Some id1) None.
Definition pair_draws : PairDraws := mkPairDraws 103 104 [5%N] [6%N].
Definition exchanged1 := Eval vm_compute in exchange server form None pair_draws (seconds 30) allowed2.2.
Definition exchanged2 := Eval vm_compute in exchange server form None pair_draws (seconds 31) exchanged1.2.
Definition refresh_row : TokenRow := Eval vm_compute in
  match find (fun t => bool_decide (to_kind t = TRefresh)) (ac_tokens exchanged2.2) with
  | Some t => t
  | None => mkToken 0 TCode [] [] 0 0 0 None None None None [] 0
  end.
End SampleOAuth.

(** ** Callers *)

Module SampleCallers.
Export SampleOAuth.
#[export] Instance uuid : UuidLib := Build_UuidLib (fun s => Some (digits_value s)) show_N.

Definition secret : str := repeat (ch "A") 43.
Definition key_id : str := lit "0123456789ab".
Definition worker : AgentRow := Eval vm_compute in
  mkAgentRow 5 (lit "worker") [] key_id (hash_secret secret) None None (None, None) false None Ephemeral None None
    None None (Some (lit "claude")) None None Host None (seconds 5).
Definition accounts : Accounts := Eval vm_compute in
  match insert_session 900 5 (lit "main") (seconds 6) (put_agent worker exchanged1.2) with
  | Ok (_, a) => a
  | Err _ => empty
  end.
(** The same with the agent's key replaced. *)
Definition rotated : Accounts := Eval vm_compute in
  match set_key 5 (lit "ffffffffffff") (hash_secret (lit "other")) accounts with
  | Ok (true, a) => a
  | _ => empty
  end.
Definition remote : RemoteMcpConfig := RemoteMcpConfig_default.
Definition served : list ToolDef := Eval vm_compute in
  match RemoteMcp_new remote with Ok l => l | Err _ => [] end.
Definition config : AuthConfig := mkAuthConfig None true false (Some served).

Definition bearer (token : str) : option bytes := Some (lit "Bearer " ++ token).
Definition key_request : Parts :=
  mkParts (lit "GET") (lit "/v1/me") (bearer (lit "aa_0123456789ab_" ++ secret)) (Some (lit "900")) None None.
Definition connector_request : Parts :=
  mkParts (lit "POST") (lit "/v1/requests") (bearer (ACCESS_PREFIX ++ token_urlsafe [5%N])) None None None.

Definition key_caller : Caller := Eval vm_compute in
  match extract config key_request (seconds 40) accounts with
  | Ok (c, _) => c | Err _ => mkCallerOf worker None OAuthConnector None end.
Definition connector : Caller := Eval vm_compute in
  match extract config connector_request (seconds 40) accounts with
  | Ok (c, _) => c | Err _ => mkCallerOf worker None ApiKey None end.
Definition after_key : Accounts := Eval vm_compute in
  match extract config key_request (seconds 40) accounts with Ok (_, a) => a | Err _ => empty end.
Definition after_connector : Accounts := Eval vm_compute in
  match extract config connector_request (seconds 40) accounts with Ok (_, a) => a | Err _ => empty end.
End SampleCallers.

(** ** A panel, with libraries that satisfy their laws *)

Module SamplePanel.
(** ** A cipher that hides nothing *)

Definition sample_tag (key nonce aad plain : bytes) : bytes := take 16 (sha256 (key ++ nonce ++ aad ++ plain)).
#[export] Instance sample_aead : Aead := {|
    aead_seal key nonce aad plain :=
      if forallb (fun b => N.ltb b 256) plain then Some (plain ++ sample_tag key nonce aad plain) else None;
    aead_open key nonce aad body :=
      let plain := take (length body - 16) body in
      if bool_decide (drop (length body - 16) body = sample_tag key nonce aad plain) then Some plain else None;
  |}.
Lemma sample_tag_length key nonce aad plain : length (sample_tag key nonce aad plain) = 16.
Proof. unfold sample_tag. rewrite length_take, sha256_length. done. Qed.
#[export] Instance sample_aead_laws : AeadLaws.
Proof.
  constructor.
  - intros key nonce aad plain body. cbn [aead_seal aead_open sample_aead]. destruct (forallb _ plain); [|done].
    intros Hb. apply (inj Some) in Hb as <-. pose proof (sample_tag_length key nonce aad plain) as Ht.
    rewrite length_app, Ht. replace (length plain + 16 - 16) with (length plain) by lia.
    rewrite take_app_length, drop_app_length. by rewrite bool_decide_true.
  - intros key nonce aad aad' body plain plain'. cbn [aead_open sample_aead].
    destruct (bool_decide _); [|done]. destruct (bool_decide _); [|done]. congruence.
  - intros key nonce aad plain body. cbn [aead_seal sample_aead]. destruct (forallb _ plain) eqn:E; [|done].
    intros Hb. apply (inj Some) in Hb as <-. rewrite length_app, sample_tag_length. split; [done|].
    apply Forall_app. split.
    + apply Forall_forall. intros x Hx. rewrite forallb_forall in E. apply N.ltb_lt, E. by apply list_elem_of_In.
    + unfold sample_tag. apply Forall_take, be_bytes_bytes.
Qed.

(** ** Readers *)

Definition text_field (v : Value) (k : string) : option str := value_get v (lit k) ≫= as_str.
Arguments text_field _ _%_string.
#[export] Instance sample_ui_serde : UiSerde := {|
    de_session v :=
      user ← text_field v "user"; csrf ← text_field v "csrf";
      exp ← (value_get v (lit "exp") ≫= as_i64); iat ← (value_get v (lit "iat_ms") ≫= as_i64);
      Some (mkUiSession user csrf exp iat);
    de_attempt v :=
      state ← text_field v "state"; nonce ← text_field v "nonce"; verifier ← text_field v "verifier";
      redirect ← text_field v "redirect_uri";
      Some (mkAttempt state nonce verifier redirect
        match value_get v (lit "carry") with Some VNull => None | o => o end);
  |}.
#[export] Instance sample_ui_serde_laws : UiSerdeLaws.
Proof.
  constructor.
  - intros [user csrf exp iat] He Hi. cbn [us_exp us_iat_ms] in *. cbn [de_session sample_ui_serde].
    unfold text_field, session_value. cbn [us_user us_csrf us_exp us_iat_ms].
    change (value_get _ (lit "user")) with (Some (VString user)). change (value_get _ (lit "csrf")) with (Some (VString csrf)).
    change (value_get _ (lit "exp")) with (Some (json_int exp)). change (value_get _ (lit "iat_ms")) with (Some (json_int iat)).
    cbn [mbind option_bind as_str]. rewrite !as_i64_int by done. done.
  - intros [state nonce verifier redirect carry] Hc. cbn [de_attempt sample_ui_serde la_carry] in *.
    unfold text_field, attempt_value. cbn [la_state la_nonce la_verifier la_redirect_uri la_carry].
    change (value_get _ (lit "state")) with (Some (VString state)). change (value_get _ (lit "nonce")) with (Some (VString nonce)).
    change (value_get _ (lit "verifier")) with (Some (VString verifier)).
    change (value_get _ (lit "redirect_uri")) with (Some (VString redirect)).
    change (value_get _ (lit "carry")) with (Some (default VNull carry)).
    cbn [mbind option_bind as_str]. destruct carry as [[]|]; done.
Qed.
#[export] Instance sample_discovery : DiscoverySerde := {|
  de_discovery v :=
    auth ← text_field v "authorization_endpoint"; token ← text_field v "token_endpoint"; jwks ← text_field v "jwks_uri";
    Some (mkDiscovery (default [] (text_field v "issuer")) auth token (text_field v "userinfo_endpoint") jwks) |}.
#[export] Instance sample_url : UrlLib := {|
  url_authority u :=
    rest ← strip_prefix (lit "https://") u;
    Some (hd [] (split (ch "/") rest), None) |}.

(** ** The panel *)

Definition sample_idp : OidcClient := OidcClient_new (lit "https://id.test") (lit "panel") (lit "admins").
Definition sample_box : SecretBox := mkBox (repeat 3%N 32).
Definition sample_panel : Panel := Panel_new (lit "https://panel.test") 3600 sample_box sample_idp.
(** Noon of some day, and a minute later. *)
Definition noon : Instant := seconds 1700000000.
Definition minute_past : Instant := seconds 1700000060.
Definition sample_nonce : bytes := repeat 4%N 12.
Definition cookie_at (user : string) (now : Instant) : str :=
  default [] (seal_session sample_panel (lit user) (Some [1%N]) (Some sample_nonce) now).
Arguments cookie_at _%_string.

(** ** A signed-in request, and the provider it was signed in at *)

Definition sample_get : UiRequest :=
  mkUi (lit "GET") (lit "/admin/agents") [] None
    [(lit "host", lit "panel.test"); (lit "cookie", SESSION_COOKIE ++ lit "=" ++ cookie_at "a" noon)] None.
Definition sample_auth : AuthConfig := mkAuthConfig None false false None.

#[export] Instance sample_weblib : WebLib := {|
  to_string_pretty := value_display; form_urlencode l := concat (map fst l); uri_ok _ := true; header_ok _ := true;
  canonical_reason _ := None |}.
Definition idp_key : bytes := [5%N].
Definition idp_claims : Value := json_obj
  [(lit "iss", VString (lit "https://id.test")); (lit "aud", VString (lit "panel")); (lit "sub", VString (lit "s1"));
   (lit "iat", json_int 1700000000); (lit "exp", json_int 1700000300); (lit "nonce", VString (lit "n"));
   (lit "preferred_username", VString (lit "a")); (lit "groups", VArray [VString (lit "admins")])].
Definition part_text (v : Value) : str := b64url_encode (as_bytes (value_display v)).
Definition idp_input : str := signing_input (part_text (json_obj [(lit "alg", VString (lit "RS256"))])) (part_text idp_claims).
Definition idp_token : str := Eval vm_compute in
  idp_input ++ [ch "."] ++ b64url_encode (sha256 (idp_key ++ as_bytes idp_input)).
Definition as_reply (v : Value) : option Reply := Some (mkReply 200 (Some (as_bytes (value_display v)))).
#[export] Instance sample_provider : Http := {|
  http req :=
    match req with
    | HttpPost _ _ => as_reply (json_obj [(lit "id_token", VString idp_token)])
    | HttpGet u =>
        if str_eqb u (lit "https://id.test/keys") then
          as_reply (json_obj [(lit "keys", VArray [json_obj
            [(lit "kty", VString (lit "RSA")); (lit "n", VString (b64url_encode idp_key)); (lit "e", VString (b64url_encode [3%N]))]])])
        else as_reply (json_obj
          [(lit "issuer", VString (lit "https://id.test")); (lit "authorization_endpoint", VString (lit "https://id.test/auth"));
           (lit "token_endpoint", VString (lit "https://id.test/token")); (lit "jwks_uri", VString (lit "https://id.test/keys"))])
    | HttpGetBearer _ _ => None
    end |}.
Definition sample_attempt : LoginAttempt := mkAttempt (lit "st") (lit "n") (lit "v") (lit "https://panel.test/ui/callback") None.
Definition sample_identify : result SignInError (str * option Value) * OidcCache :=
  identify sample_idp (Some sample_attempt) (lit "code") (lit "st") noon (mkOidcCache None None).
End SamplePanel.
