(* ===== verification/HubRuns.v ===== *)
(** Everything the broker does with its daemons, interleaved: pairings, the
    kicks that follow them, hellos, registrations, heartbeats, sends and
    calls, each transaction or locked section one step. A code pairs at most
    once and is guessed at boundedly often; a connection authenticated with
    a key that was replaced is gone once the kick ran; a call is answered
    only by the daemon it went to. *)

From stdpp Require Import gmap.
From S2P Require Import Prelude Json Pool Mail Eval HostTypes TotpCode F64 Transcript Envelope Hello SampleCrypto CanonicalJson Store Pairing DaemonHub Samples.
From stdpp Require Import options.

Section runs.
Context `{RustFmt, JsonRead, Sha256, HmacSha256, Hex, UnicodeUpper, Base64, Ed25519}.
Variable config : DaemonsConfig.

(** A hello read with the generation current then; a verified one. *)
Record ReadHello := mkRead { rh_msg : HelloMsg; rh_nonce : str; rh_generation : N }.

(** The tables and the hub; the attempts whose proofs are still to be
    checked; the kicks still to be made; the hellos under way. Then what was
    done: the code of every attempt spent, the attempts that claimed their
    code, and every call answered, with who it went to and who answered. *)
Record World := mkWorld {
  hw_tables : Daemons;
  hw_hub : Hub;
  hw_attempts : list Attempt;
  hw_kicks : list ChannelId;
  hw_read : list ReadHello;
  hw_verified : list PendingHello;
  hw_begun : list N;
  hw_claimed : list Attempt;
  hw_called : list (str * ChannelId);
  hw_answered : list (str * ChannelId);
}.
Definition tables_to (w : World) (d : Daemons) : World :=
  mkWorld d (hw_hub w) (hw_attempts w) (hw_kicks w) (hw_read w) (hw_verified w) (hw_begun w) (hw_claimed w)
  (hw_called w) (hw_answered w).
Definition hub_to (w : World) (h : Hub) : World :=
  mkWorld (hw_tables w) h (hw_attempts w) (hw_kicks w) (hw_read w) (hw_verified w) (hw_begun w) (hw_claimed w)
  (hw_called w) (hw_answered w).
Definition World_new : World := mkWorld (mkDaemons [] []) Hub_new [] [] [] [] [] [] [] [].

Definition row_id_of (row : DaemonRow) : ChannelId := mkChannelId (da_role row) (da_name row).

Inductive hub_step (w : World) : World -> Prop :=
| issues id code_id source now code expires d :
  create_pairing_code config (hw_tables w) id code_id source now = Ok (code, expires, d) ->
  hub_step w (tables_to w d)
| begins body now a d :
  pair_begin config (hw_tables w) body now = (Ok a, d) ->
  hub_step w (mkWorld d (hw_hub w) (a :: hw_attempts w) (hw_kicks w) (hw_read w) (hw_verified w)
    (pc_id (at_code a) :: hw_begun w) (hw_claimed w) (hw_called w) (hw_answered w))
| begin_refused body now e d :
  pair_begin config (hw_tables w) body now = (Err e, d) -> hub_step w (tables_to w d)
| finishes a l1 l2 row_id now row d :
  hw_attempts w = l1 ++ a :: l2 -> pair_finish (hw_tables w) a row_id now = (Ok row, d) ->
  hub_step w (mkWorld d (hw_hub w) (l1 ++ l2) (at_id a :: hw_kicks w) (hw_read w) (hw_verified w)
    (hw_begun w) (a :: hw_claimed w) (hw_called w) (hw_answered w))
| finish_refused a l1 l2 row_id now e d :
  hw_attempts w = l1 ++ a :: l2 -> pair_finish (hw_tables w) a row_id now = (Err e, d) ->
  hub_step w (mkWorld d (hw_hub w) (l1 ++ l2) (hw_kicks w) (hw_read w) (hw_verified w)
    (hw_begun w) (hw_claimed w) (hw_called w) (hw_answered w))
| unpairs id now row d :
  unpair_row (hw_tables w) id now = (Some row, d) ->
  hub_step w (mkWorld d (hw_hub w) (hw_attempts w) (row_id_of row :: hw_kicks w) (hw_read w) (hw_verified w)
    (hw_begun w) (hw_claimed w) (hw_called w) (hw_answered w))
| imports row now x d :
  import_daemon (hw_tables w) row now = Ok (x, d) -> hub_step w (tables_to w d)
| kicks k reason l1 l2 :
  hw_kicks w = l1 ++ k :: l2 ->
  hub_step w (mkWorld (hw_tables w) (kick k reason (hw_hub w)) (hw_attempts w) (l1 ++ l2) (hw_read w)
    (hw_verified w) (hw_begun w) (hw_claimed w) (hw_called w) (hw_answered w))
| reads_hello text m nonce :
  parse_hello text = Some m ->
  hub_step w (mkWorld (hw_tables w) (hw_hub w) (hw_attempts w) (hw_kicks w)
    (mkRead m nonce (generation (hw_hub w) (hm_id m)) :: hw_read w)
    (hw_verified w) (hw_begun w) (hw_claimed w) (hw_called w) (hw_answered w))
| verifies r now row key vh d :
  r ∈ hw_read w -> verify_hello (hw_tables w) (rh_msg r) (rh_nonce r) now = (Some (row, key, vh), d) ->
  hub_step w (mkWorld d (hw_hub w) (hw_attempts w) (hw_kicks w) (hw_read w)
    (mkPending (mkPeer row (hm_id (rh_msg r)) key) (rh_generation r) vh :: hw_verified w)
    (hw_begun w) (hw_claimed w) (hw_called w) (hw_answered w))
| registers p c key :
  p ∈ hw_verified w -> hb_conns (hw_hub w) !! c = None ->
  hub_step w (hub_to w (register c
    (with_conns (hw_hub w) (<[c := (new_live key p).1]> (hb_conns (hw_hub w))))).2)
| unregisters c : hub_step w (hub_to w (unregister c (hw_hub w)))
| stalls c : hub_step w (hub_to w (drop_stalled c (hw_hub w)))
| sends k payload ttl now id : hub_step w (hub_to w (send k payload ttl now id (hw_hub w)).2)
| beats c body now ok h d :
  heartbeat config c body now (hw_hub w) (hw_tables w) = (ok, h, d) ->
  hub_step w (tables_to (hub_to w h) d)
| takes_slot peer : hub_step w (hub_to w (peer_slot peer (hw_hub w)).2)
| drops_slot peer : hub_step w (hub_to w (drop_slot peer (hw_hub w)))
| closes reason : hub_step w (hub_to w (close_all reason (hw_hub w)))
(** Call ids are random: a new one was not used before. *)
| calls id k :
  id ∉ map fst (hw_called w) ->
  hub_step w (mkWorld (hw_tables w) (call_begin id k (hw_hub w)) (hw_attempts w) (hw_kicks w) (hw_read w)
    (hw_verified w) (hw_begun w) (hw_claimed w) ((id, k) :: hw_called w) (hw_answered w))
| call_ends id : hub_step w (hub_to w (call_end id (hw_hub w)))
| replies c l r id h :
  hb_conns (hw_hub w) !! c = Some l -> resolve (lv_peer l) r (hw_hub w) = (Some id, h) ->
  hub_step w (mkWorld (hw_tables w) h (hw_attempts w) (hw_kicks w) (hw_read w)
    (hw_verified w) (hw_begun w) (hw_claimed w) (hw_called w) ((id, pe_id (lv_peer l)) :: hw_answered w)).

Inductive hub_runs : World -> Prop :=
| hub_start : hub_runs World_new
| hub_next w w' : hub_runs w -> hub_step w w' -> hub_runs w'.

(** ** The registry: what an operation keeps *)

(** Connections keep their peer and generation; nothing new is registered;
    no generation moves. *)
Record hub_le (h h' : Hub) : Prop := {
  le_conns c l : hb_conns h !! c = Some l ->
  exists l', hb_conns h' !! c = Some l' /\ lv_peer l' = lv_peer l /\ lv_generation l' = lv_generation l;
  le_live k c : hb_live h' !! k = Some c -> hb_live h !! k = Some c;
  le_generation : hb_generation h' = hb_generation h;
}.

Lemma hub_le_refl h : hub_le h h.
Proof. constructor; eauto. Qed.
Lemma hub_le_trans a b c : hub_le a b -> hub_le b c -> hub_le a c.
Proof.
  intros [C1 L1 G1] [C2 L2 G2]. constructor; [|auto|congruence].
  intros x l (l1 & Hl1 & ? & ?)%C1. destruct (C2 _ _ Hl1) as (l2 & ? & ? & ?).
  exists l2. split_and!; congruence.
Qed.
Lemma hub_le_conns h c l l' : hb_conns h !! c = Some l -> lv_peer l' = lv_peer l ->
  lv_generation l' = lv_generation l -> hub_le h (with_conns h (<[c := l']> (hb_conns h))).
Proof.
  intros Hc Hp Hg. constructor; cbn; [|done|done]. intros x m Hx.
  destruct (decide (x = c)) as [->|?]; [|rewrite lookup_insert_ne by done; eauto].
  rewrite lookup_insert_eq. simplify_eq. eauto.
Qed.
Lemma close_conn_le c why h : hub_le h (close_conn c why h).
Proof.
  constructor; cbn; [|done|done]. intros x l Hx. destruct (decide (x = c)) as [->|?].
  - rewrite lookup_alter_eq, Hx. cbn. eauto.
  - rewrite lookup_alter_ne by done. eauto.
Qed.
Lemma forget_le h k : hub_le h (with_live h (delete k (hb_live h))).
Proof. constructor; cbn; [eauto| |done]. by intros k' c [_ ?]%lookup_delete_Some. Qed.
Lemma forget_if_le (b : bool) h k : hub_le h (if b then with_live h (delete k (hb_live h)) else h).
Proof. destruct b; [apply forget_le|apply hub_le_refl]. Qed.

Lemma unregister_le c h : hub_le h (unregister c h).
Proof. unfold unregister. case_match; [apply forget_if_le|apply hub_le_refl]. Qed.
Lemma drop_stalled_le c h : hub_le h (drop_stalled c h).
Proof.
  unfold drop_stalled. destruct (hb_conns h !! c) as [l|] eqn:E; [|apply hub_le_refl].
  destruct (lv_stalled l); [apply hub_le_refl|].
  eapply hub_le_trans; [by apply (hub_le_conns _ _ _ (lv_with_stalled l) E)|].
  eapply hub_le_trans; [apply forget_if_le|apply close_conn_le].
Qed.
Lemma send_le k payload ttl now id h : hub_le h (send k payload ttl now id h).2.
Proof.
  unfold send, deliver. destruct (hb_live h !! k) as [c|]; [|apply hub_le_refl].
  destruct (hb_conns h !! c) as [l|] eqn:E; [|apply hub_le_refl].
  destruct (_ || _); [apply hub_le_refl|].
  destruct (seal _ _ _ _ _) as [[[]|] s]; [by apply (hub_le_conns _ _ _ (lv_with_sealer s l) E)|apply hub_le_refl].
Qed.
Lemma close_all_le reason h : hub_le h (close_all reason h).
Proof.
  unfold close_all. set (f := fun h c => close_conn c (1001%N, reason) h).
  assert (Hf : forall l h, hub_le h (fold_left f l h)).
  { induction l as [|c l IH]; intros h0; cbn; [apply hub_le_refl|].
  eapply hub_le_trans; [apply close_conn_le|apply IH]. }
  eapply hub_le_trans; [apply Hf|]. constructor; cbn; [eauto|by intros ? ? ?%lookup_empty_Some|done].
Qed.
Lemma peer_slot_le peer h : hub_le h (peer_slot peer h).2.
Proof. unfold peer_slot. case_match; constructor; cbn; eauto. Qed.
Lemma drop_slot_le peer h : hub_le h (drop_slot peer h).
Proof. unfold drop_slot. repeat case_match; constructor; cbn; eauto. Qed.
Lemma heartbeat_le c body now h d ok h' d' :
  heartbeat config c body now h d = (ok, h', d') -> hub_le h h'.
Proof.
  unfold heartbeat. destruct (hb_conns h !! c) as [l|] eqn:E; [|by intros [= <- <- <-]; apply hub_le_refl].
  destruct (too_soon _ _ _); [by intros [= <- <- <-]; apply hub_le_refl|].
  assert (Hw : hub_le h (with_conns h (<[c := lv_with_written now l]> (hb_conns h)))) by by eapply hub_le_conns.
  destruct (store_heartbeat _ _ _ _ _ _) as [[] d1]; intros [= <- <- <-]; [done|].
  eapply hub_le_trans; [exact Hw|]. exact (forget_if_le _ (with_conns h _) _).
Qed.
Lemma resolve_le peer r h : hub_le h (resolve peer r h).2.
Proof. unfold resolve. repeat case_match; constructor; cbn; eauto. Qed.

(** ** The tables: which daemon holds which key *)

(** The key a daemon is paired with. *)
Definition paired_with (d : Daemons) (k : ChannelId) (pk : PublicKey) : Prop :=
  exists row, by_name d (ci_role k) (ci_name k) = Some row /\ PublicKey_parse (da_public_key row) = Ok pk.

(** Names and keys stay, but for one daemon's. *)
Definition keys_kept (but : option ChannelId) (d d' : Daemons) : Prop :=
  forall k row, Some k <> but -> by_name d (ci_role k) (ci_name k) = Some row ->
  exists row', by_name d' (ci_role k) (ci_name k) = Some row' /\ da_public_key row' = da_public_key row.
Lemma paired_kept but d d' k pk : keys_kept but d d' -> Some k <> but -> paired_with d k pk -> paired_with d' k pk.
Proof. intros Hk Hne (row & Hb & Hp). destruct (Hk _ _ Hne Hb) as (row' & ? & E). exists row'. by rewrite E. Qed.

Lemma same_rows_kept but d d' : ds_daemons d' = ds_daemons d -> keys_kept but d d'.
Proof. intros E k row _ Hb. exists row. unfold by_name. by rewrite E. Qed.

Lemma find_map {A} (p : A -> bool) (f : A -> A) l x :
  (forall y, y ∈ l -> p (f y) = p y) -> find p l = Some x -> find p (map f l) = Some (f x).
Proof.
  intros Hp. induction l as [|y l IH]; cbn; [done|]. rewrite Hp by left.
  destruct (p y); [by intros [= ->]|]. apply IH. intros z Hz. apply Hp. by right.
Qed.
Lemma update_rows_kept d p f :
  (forall x, da_role (f x) = da_role x /\ da_name (f x) = da_name x /\ da_public_key (f x) = da_public_key x) ->
  keys_kept None d (with_daemons d (update_where p f (ds_daemons d)).1).
Proof.
  intros Hf k row _ Hb. exists (if p row then f row else row). split.
  - unfold by_name. cbn. apply (find_map _ (fun x => if p x then f x else x)); [|done].
  intros y _. destruct (p y); [|done]. by destruct (Hf y) as (-> & -> & _).
  - destruct (p row); [|done]. apply Hf.
Qed.

Lemma by_name_some d r n row : by_name d r n = Some row -> row ∈ ds_daemons d /\ da_role row = r /\ da_name row = n.
Proof.
  unfold by_name. intros E. apply find_some in E as [Hin E]. apply andb_true_iff in E as [?%bool_decide_eq_true ?%str_eqb_true].
  split; [by apply list_elem_of_In|done].
Qed.

Lemma hello_kept d id now v : keys_kept None d (store_hello d id now v).2.
Proof. unfold store_hello. by apply update_rows_kept. Qed.
Lemma heartbeat_kept d id pk st v now : keys_kept None d (store_heartbeat d id pk st v now).2.
Proof. unfold store_heartbeat. by apply update_rows_kept. Qed.

Lemma beat_kept c body now h d ok h' d' : heartbeat config c body now h d = (ok, h', d') ->
  keys_kept None d d' /\ map da_id (ds_daemons d') = map da_id (ds_daemons d).
Proof.
  assert (Hr : keys_kept None d d) by by apply same_rows_kept.
  unfold heartbeat. destruct (hb_conns h !! c) as [l|]; [|by intros [= _ _ <-]].
  destruct (too_soon _ _ _); [by intros [= _ _ <-]|].
  destruct (store_heartbeat _ _ _ _ _ _) as [b d1] eqn:E.
  assert (Hd : keys_kept None d d1 /\ map da_id (ds_daemons d1) = map da_id (ds_daemons d)).
  { split.
  - pose proof (heartbeat_kept d (pe_row (lv_peer l)) (PublicKey_to_text (pe_public_key (lv_peer l)))
      (status_of body) (status_version (status_of body)) now) as Hk. by rewrite E in Hk.
  - unfold store_heartbeat in E. cbn in E. injection E as _ <-. cbn. rewrite map_map. apply map_ext.
    intros x. by destruct (_ && _). }
  by destruct b; intros [= _ _ <-].
Qed.

Lemma find_app_some {A} (p : A -> bool) l l' x : find p l = Some x -> find p (l ++ l') = Some x.
Proof. induction l as [|y l IH]; cbn; [done|]. by destruct (p y). Qed.
Lemma insert_kept d x y d' : insert_daemon d x = Ok (y, d') -> keys_kept None d d'.
Proof.
  unfold insert_daemon. repeat case_match; try done. intros [= <- <-] k row _ Hb. exists row. split; [|done].
  by apply find_app_some.
Qed.

Lemma upsert_kept d id r n pk now row d' :
  NoDup (map da_id (ds_daemons d)) -> upsert_paired d id r n pk now = Ok (row, d') ->
  keys_kept (Some (mkChannelId r n)) d d'.
Proof.
  unfold upsert_paired. intros Hnd. destruct (by_name d r n) as [x|] eqn:Ex.
  - case_match; [done|]. intros [= <- <-] k row' Hne Hb. exists row'. split; [|done].
  pose proof (by_name_some _ _ _ _ Ex) as (Hx & Hxr & Hxn).
  pose proof (by_name_some _ _ _ _ Hb) as (Hr & Hrr & Hrn).
  unfold by_name. cbn. erewrite (find_map _ (fun y => if N.eqb (da_id y) (da_id x) then repaired pk now x else y));
    [| |exact Hb].
  + f_equal. destruct (N.eqb_spec (da_id row') (da_id x)) as [E|]; [|done].
    exfalso. apply Hne. assert (row' = x) as -> by by apply (NoDup_map_inj _ _ _ _ Hnd).
    destruct k. cbn in *. by subst.
  + intros y Hy. destruct (N.eqb_spec (da_id y) (da_id x)) as [E|]; [|done].
    by assert (y = x) as -> by by apply (NoDup_map_inj _ _ _ _ Hnd).
  - intros Hi k row' _. apply (insert_kept _ _ _ _ Hi). done.
Qed.

Lemma find_kept {A} (p q : A -> bool) l x : find p l = Some x -> q x = true -> find p (List.filter q l) = Some x.
Proof.
  intros Hf Hq. induction l as [|y l IH]; cbn in *; [done|]. destruct (p y) eqn:Ep.
  - injection Hf as ->. rewrite Hq. cbn. by rewrite Ep.
  - destruct (q y); cbn; [rewrite Ep|]; auto.
Qed.
Lemma get_daemon_some d id row : get_daemon d id = Some row -> row ∈ ds_daemons d /\ da_id row = id.
Proof.
  unfold get_daemon. intros [Hin E%N.eqb_eq]%find_some. split; [by apply list_elem_of_In|done].
Qed.
Lemma unpair_kept d id now row d' : NoDup (map da_id (ds_daemons d)) -> unpair_row d id now = (Some row, d') ->
  keys_kept (Some (row_id_of row)) d d'.
Proof.
  unfold unpair_row. intros Hnd. destruct (get_daemon d id) as [x|] eqn:Ex; [|done]. intros [= <- <-].
  intros k row' Hne Hb. exists row'. split; [|done]. unfold burn_codes. cbn. unfold by_name. cbn.
  apply find_kept; [done|]. apply negb_true_iff, N.eqb_neq. intros E.
  pose proof (get_daemon_some _ _ _ Ex) as [Hx Hxi]. pose proof (by_name_some _ _ _ _ Hb) as (Hr & Hro & Hna).
  apply Hne. assert (row' = x) as -> by (apply (NoDup_map_inj _ _ _ _ Hnd); congruence).
  destruct k; cbn in *. by subst.
Qed.


(** ** The registry's invariant *)

(** A hello or a connection of generation [g]: if its generation is still
    current, its key is the daemon's, or a kick is on its way. *)
Definition fresh (w : World) (k : ChannelId) (g : N) (pk : PublicKey) : Prop :=
  (g <= generation (hw_hub w) k)%N /\
  (g = generation (hw_hub w) k -> (generation (hw_hub w) k < MAX_U64)%N ->
  paired_with (hw_tables w) k pk \/ k ∈ hw_kicks w).

Record reg_ok (w : World) : Prop := {
  ro_ids : NoDup (map da_id (ds_daemons (hw_tables w)));
  ro_bound k : (generation (hw_hub w) k <= MAX_U64)%N;
  ro_read r : r ∈ hw_read w -> (rh_generation r <= generation (hw_hub w) (hm_id (rh_msg r)))%N;
  ro_verified p : p ∈ hw_verified w ->
  fresh w (pe_id (ph_peer p)) (ph_generation p) (pe_public_key (ph_peer p));
  ro_live k c : hb_live (hw_hub w) !! k = Some c ->
  exists l, hb_conns (hw_hub w) !! c = Some l /\ pe_id (lv_peer l) = k /\
    lv_generation l = generation (hw_hub w) k /\ fresh w k (lv_generation l) (pe_public_key (lv_peer l));
}.

Lemma generation_le h h' k : hub_le h h' -> generation h' k = generation h k.
Proof. intros [_ _ E]. unfold generation. by rewrite E. Qed.

Lemma fresh_mono but w w' k g pk :
  (forall k, generation (hw_hub w') k = generation (hw_hub w) k) -> keys_kept but (hw_tables w) (hw_tables w') ->
  (forall k, k ∈ hw_kicks w -> k ∈ hw_kicks w') -> (forall k, but = Some k -> k ∈ hw_kicks w') ->
  fresh w k g pk -> fresh w' k g pk.
Proof.
  intros Hh Hk Hi Hb [Hg Hf]. unfold fresh. rewrite Hh. split; [done|].
  intros E Hm. destruct (decide (but = Some k)) as [->|Hne]; [right; auto|].
  destruct (Hf E Hm) as [Hp|?]; [left|right; auto]. by eapply paired_kept.
Qed.

Lemma reg_ok_mono but w w' :
  hub_le (hw_hub w) (hw_hub w') -> keys_kept but (hw_tables w) (hw_tables w') ->
  (forall k, k ∈ hw_kicks w -> k ∈ hw_kicks w') -> (forall k, but = Some k -> k ∈ hw_kicks w') ->
  NoDup (map da_id (ds_daemons (hw_tables w'))) ->
  hw_read w' = hw_read w -> hw_verified w' = hw_verified w -> reg_ok w -> reg_ok w'.
Proof.
  intros Hh Hk Hi Hb Hnd Er Ev [_ Hbd Hr Hv Hl].
  assert (Hgen : forall k, generation (hw_hub w') k = generation (hw_hub w) k) by (intros; by apply generation_le).
  constructor; [done| | | |].
  - intros k. by rewrite (generation_le _ _ _ Hh).
  - intros r. rewrite Er, (generation_le _ _ _ Hh). auto.
  - intros p. rewrite Ev. intros Hp. eapply fresh_mono; eauto.
  - intros k c Hc. apply (le_live _ _ Hh) in Hc. apply Hl in Hc as (l & Hc & Hid & Hg & Hf).
  apply (le_conns _ _ Hh) in Hc as (l' & Hc & Ep & Eg). exists l'.
  rewrite Ep, Eg, (generation_le _ _ _ Hh). split_and!; [done..|]. eapply fresh_mono; eauto.
Qed.

(** The same tables and kicks; only the hub moves. *)
Lemma reg_ok_hub w h : hub_le (hw_hub w) h -> reg_ok w -> reg_ok (hub_to w h).
Proof.
  intros Hh Hw. eapply (reg_ok_mono None); try done; [by apply same_rows_kept|exact (ro_ids _ Hw)].
Qed.

Lemma insert_ids d x y d' : insert_daemon d x = Ok (y, d') ->
  NoDup (map da_id (ds_daemons d)) -> NoDup (map da_id (ds_daemons d')).
Proof.
  unfold insert_daemon. case_match; [done|]. destruct (get_daemon d (da_id x)) eqn:Eg; [done|]. cbn.
  case_match; [done|]. intros [= <- <-] Hnd. cbn. rewrite map_app. apply NoDup_app. split_and!; [done| |].
  - intros i (z & -> & Hz)%list_elem_of_fmap Hx. apply list_elem_of_singleton in Hx.
  unfold get_daemon in Eg. apply list_elem_of_In in Hz. apply (find_none _ _ Eg) in Hz.
  apply N.eqb_neq in Hz. cbn in *. congruence.
  - apply NoDup_singleton.
Qed.
Lemma map_ids f (l : list DaemonRow) : (forall x, x ∈ l -> da_id (f x) = da_id x) -> map da_id (map f l) = map da_id l.
Proof.
  intros Hf. induction l as [|x l IH]; cbn; [done|]. rewrite Hf by left. f_equal. apply IH. intros y Hy. apply Hf. by right.
Qed.
Lemma update_ids p f (l : list DaemonRow) : (forall x, da_id (f x) = da_id x) ->
  map da_id (update_where p f l).1 = map da_id l.
Proof. intros Hf. apply map_ids. intros x _. by destruct (p x). Qed.
Lemma upsert_ids d id r n pk now row d' : upsert_paired d id r n pk now = Ok (row, d') ->
  NoDup (map da_id (ds_daemons d)) -> NoDup (map da_id (ds_daemons d')).
Proof.
  unfold upsert_paired. destruct (by_name d r n) as [x|]; [|apply insert_ids]. case_match; [done|].
  intros [= <- <-]. cbn. rewrite map_ids; [done|]. intros y _. destruct (N.eqb_spec (da_id y) (da_id x)); [by cbn|done].
Qed.
Lemma filter_ids (q : DaemonRow -> bool) l : NoDup (map da_id l) -> NoDup (map da_id (List.filter q l)).
Proof.
  induction l as [|x l IH]; cbn; [done|]. intros [Hx Hl]%NoDup_cons. destruct (q x); cbn; [|auto].
  constructor; [|auto]. intros (y & E & Hy)%list_elem_of_fmap. apply Hx. apply list_elem_of_In, filter_In in Hy as [Hy _].
  rewrite E. apply list_elem_of_fmap_2. by apply list_elem_of_In.
Qed.

(** What a pairing and an unpairing do to the daemons' rows. *)
Lemma finish_ok d a row_id now row d' : pair_finish d a row_id now = (Ok row, d') ->
  verify_daemon_proof (at_hmac a) (at_id a) (at_key a) (at_proof a) = true /\
  exists d1, claim_code d (pc_id (at_code a)) now = (true, d1) /\
  upsert_paired d1 row_id (ci_role (at_id a)) (ci_name (at_id a)) (PublicKey_to_text (at_key a)) now = Ok (row, d').
Proof.
  unfold pair_finish. destruct (verify_daemon_proof _ _ _ _); [|done]. cbn [negb].
  destruct (claim_code _ _ _) as [[] d1] eqn:Ec; [|done]. cbn [negb].
  destruct (upsert_paired _ _ _ _ _ _) as [[x d2]|] eqn:Eu; [|done]. intros [= <- <-]. eauto.
Qed.
Lemma finish_err d a row_id now e d' : pair_finish d a row_id now = (Err e, d') -> d' = d.
Proof. unfold pair_finish. intros Hf. repeat case_match; congruence. Qed.
Lemma begin_rows d body now r d' : pair_begin config d body now = (r, d') -> ds_daemons d' = ds_daemons d.
Proof.
  unfold pair_begin. case_match; [|by intros [= _ <-]]. unfold spend_attempt. destruct (to_i32 _) as [m|]; cbn; [|by intros [= _ <-]].
  case_match; intros [= _ <-]; done.
Qed.
Lemma issue_rows d id ci source now code expires d' :
  create_pairing_code config d id ci source now = Ok (code, expires, d') -> ds_daemons d' = ds_daemons d.
Proof.
  unfold create_pairing_code. case_match; [done|]. intros Hc.
  destruct (sandbox_name_ok id); cbn [mbind result_bind] in Hc; [|done].
  destruct (ok_or (generate_pairing_code source) _); cbn [mbind result_bind] in Hc; [|done].
  destruct (db_failed _) as [d1|] eqn:E; cbn [mbind result_bind] in Hc; [|done]. injection Hc as _ _ <-.
  unfold db_failed, issue_code, insert_code in E. destruct (burn_codes _ _ _ _) as [d2 n] eqn:Eb.
  unfold burn_codes in Eb. injection Eb as <- _. repeat case_match; try done. by injection E as <-.
Qed.
Lemma verify_hello_ok d m bn now row key vh d' : verify_hello d m bn now = (Some (row, key, vh), d') ->
  paired_with d (hm_id m) key /\ keys_kept None d d' /\ map da_id (ds_daemons d') = map da_id (ds_daemons d) /\
  hello_verify (mkHandshake (hm_id m) bn (hm_nonce m)) key SDaemon (hm_params m) (hm_sig m) = Ok vh.
Proof.
  unfold verify_hello. destruct (by_name d _ _) as [x|] eqn:Ex; cbn; [|done].
  destruct (PublicKey_parse (da_public_key x)) as [k|] eqn:Ek; cbn; [|done].
  destruct (hello_verify _ _ _ _ _) as [v|] eqn:Ev; cbn; [|done]. intros [= <- <- <- <-].
  split_and!; [by exists x|apply (hello_kept d (da_id x) now (hello_version (hm_params m)))|apply (update_ids _ (seen now _ None)); by intros|done].
Qed.

(** ** Every step keeps it *)

Lemma kick_ok w k reason l1 l2 : hw_kicks w = l1 ++ k :: l2 -> reg_ok w ->
  reg_ok (mkWorld (hw_tables w) (kick k reason (hw_hub w)) (hw_attempts w) (l1 ++ l2) (hw_read w)
  (hw_verified w) (hw_begun w) (hw_claimed w) (hw_called w) (hw_answered w)).
Proof.
  intros Hk [Hi Hbd Hr Hv Hl]. set (h := kick k reason (hw_hub w)).
  assert (Hg : forall k', generation h k' = if decide (k' = k) then sat_add MAX_U64 (generation (hw_hub w) k) 1
                                          else generation (hw_hub w) k').
  { intros k'. unfold h, kick. destruct (hb_live (hw_hub w) !! k); unfold generation; cbn;
    (destruct (decide (k' = k)) as [->|]; [by rewrite lookup_insert_eq|by rewrite lookup_insert_ne]). }
  assert (Hf : forall k' g pk, fresh w k' g pk -> fresh (mkWorld (hw_tables w) h (hw_attempts w) (l1 ++ l2)
  (hw_read w) (hw_verified w) (hw_begun w) (hw_claimed w) (hw_called w) (hw_answered w)) k' g pk).
  { intros k' g pk [Hle Hfr]. unfold fresh. cbn [hw_hub hw_tables hw_kicks]. rewrite Hg. unfold sat_add.
  specialize (Hbd k). destruct (decide (k' = k)) as [->|Hne]; [split; lia|]. split; [done|]. intros E Hm.
  destruct (Hfr E Hm) as [?|Hin]; [by left|right]. rewrite Hk in Hin. set_solver. }
  constructor; cbn [hw_hub hw_tables hw_read hw_verified].
  - done.
  - intros k'. rewrite Hg. unfold sat_add. specialize (Hbd k'). case_decide; lia.
  - intros r Hin. rewrite Hg. specialize (Hbd k). specialize (Hr r Hin). case_decide as E; [|done]. rewrite E in Hr. unfold sat_add. lia.
  - intros p Hp. by apply Hf, Hv.
  - intros k' c. assert (hb_live h = delete k (hb_live (hw_hub w))) as ->
    by (unfold h, kick; by destruct (hb_live (hw_hub w) !! k)).
  intros [Hne Hc]%lookup_delete_Some. apply Hl in Hc as (l & Hc & Hid & Hgen & Hfr).
  assert (Hc' : exists l', hb_conns h !! c = Some l' /\ lv_peer l' = lv_peer l /\ lv_generation l' = lv_generation l).
  { unfold h, kick. destruct (hb_live (hw_hub w) !! k) as [old|]; [|eauto].
    exact (le_conns _ _ (close_conn_le old (CLOSE_REPLACED, reason) (hw_hub w)) _ _ Hc). }
  destruct Hc' as (l' & Hc' & Ep & Eg). exists l'. rewrite Ep, Eg, Hg, decide_False by done.
  split_and!; [done..|]. by apply Hf.
Qed.

Lemma register_ok w p c key : p ∈ hw_verified w -> hb_conns (hw_hub w) !! c = None -> reg_ok w ->
  reg_ok (hub_to w (register c (with_conns (hw_hub w) (<[c := (new_live key p).1]> (hb_conns (hw_hub w))))).2).
Proof.
  intros Hp Hc Hw. pose proof Hw as [Hi Hbd Hr Hv Hl].
  set (l := (new_live key p).1). set (h1 := with_conns (hw_hub w) (<[c := l]> (hb_conns (hw_hub w)))).
  assert (Hle : hub_le (hw_hub w) h1).
  { constructor; cbn; [|done|done]. intros x m Hx. exists m. rewrite lookup_insert_ne by congruence. done. }
  assert (Hlp : lv_peer l = ph_peer p /\ lv_generation l = ph_generation p).
  { unfold l, new_live. destruct (into_channel _ _). split; reflexivity. }
  assert (Hc1 : hb_conns h1 !! c = Some l) by apply lookup_insert_eq.
  unfold register. rewrite Hc1. case_match eqn:Eg.
  { apply (reg_ok_hub w); [|exact Hw]. cbn [snd]. eapply hub_le_trans; [exact Hle|apply close_conn_le]. }
  apply negb_false_iff, N.eqb_eq in Eg. set (k := pe_id (lv_peer l)) in *. cbn [snd].
  set (h2 := with_live h1 (<[k := c]> (hb_live h1))).
(* closing what was replaced changes nothing the invariant reads *)
assert (Hreg : reg_ok (hub_to w h2)).
{ assert (Hg2 : forall k', generation h2 k' = generation (hw_hub w) k') by reflexivity.
assert (Hfr2 : forall k' g pk, fresh w k' g pk -> fresh (hub_to w h2) k' g pk).
{ intros k' g pk. apply (fresh_mono None); [exact Hg2|by apply same_rows_kept|auto|discriminate]. }
constructor; cbn [hw_hub hw_tables hw_read hw_verified hub_to].
- exact Hi.
- intros k'. rewrite Hg2. apply Hbd.
- intros r Hin. rewrite Hg2. auto.
- intros q Hq. apply Hfr2. auto.
- intros k' c' Hk'. change (<[k := c]> (hb_live (hw_hub w)) !! k' = Some c') in Hk'.
  apply lookup_insert_Some in Hk' as [[<- <-]|[Hne Hk']].
  + exists l. split_and!; [exact Hc1|reflexivity|by rewrite Hg2, <- Eg|].
    apply Hfr2. destruct Hlp as [Ep ->]. unfold k. rewrite Ep. auto.
  + apply Hl in Hk' as (l' & Hl' & Hid & Hgen & Hfr). exists l'.
    split_and!; [|exact Hid|by rewrite Hg2|by apply Hfr2].
    cbn. rewrite lookup_insert_ne by congruence. exact Hl'. }
destruct (hb_live h1 !! k) as [old|]; [|exact Hreg].
apply (reg_ok_hub (hub_to w h2)); [apply close_conn_le|exact Hreg].
Qed.

Lemma reg_step_ok w w' : hub_step w w' -> reg_ok w -> reg_ok w'.
Proof.
  intros Hs Hw. pose proof (ro_ids _ Hw) as Hnd.
  destruct Hs as [id ci source now code expires d Hd|body now a d Hd|body now e d Hd|a l1 l2 ri now row d Ha Hd
  |a l1 l2 ri now e d Ha Hd|id now row d Hd|row now x d Hd|k reason l1 l2 Hk|text m nonce Hm
  |r now row key vh d Hr Hd|p c key Hp Hc|c|c|k payload ttl now id|c body now ok h d Hd|peer|peer|reason
  |id k Hid|id|c l r id h Hc Hd].
  - apply issue_rows in Hd. eapply (reg_ok_mono None); cbn; try done; [apply hub_le_refl|by apply same_rows_kept|].
  by rewrite Hd.
  - apply begin_rows in Hd. eapply (reg_ok_mono None); cbn; try done; [apply hub_le_refl|by apply same_rows_kept|].
  by rewrite Hd.
  - apply begin_rows in Hd. eapply (reg_ok_mono None); cbn; try done; [apply hub_le_refl|by apply same_rows_kept|].
  by rewrite Hd.
  - apply finish_ok in Hd as (_ & d1 & Hc & Hu).
  assert (E : ds_daemons d1 = ds_daemons (hw_tables w)) by (unfold claim_code in Hc; cbn in Hc; by injection Hc as _ <-).
  eapply (reg_ok_mono (Some (at_id a))); cbn; try done.
  + apply hub_le_refl.
  + intros k row' Hne Hb. unfold by_name in Hb. rewrite <- E in Hb.
    assert (Ha' : mkChannelId (ci_role (at_id a)) (ci_name (at_id a)) = at_id a) by by destruct (at_id a).
    apply (upsert_kept _ _ _ _ _ _ _ _ ltac:(by rewrite E) Hu) in Hb; [done|by rewrite Ha'].
  + intros k Hk. by right.
  + intros k [= <-]. by left.
  + eapply upsert_ids; [exact Hu|by rewrite E].
  - apply finish_err in Hd as ->. eapply (reg_ok_mono None); cbn; try done; [apply hub_le_refl|by apply same_rows_kept].
  - eapply (reg_ok_mono (Some (row_id_of row))); cbn; try done.
  + apply hub_le_refl.
  + by eapply unpair_kept.
  + intros k Hk. by right.
  + intros k [= <-]. by left.
  + unfold unpair_row in Hd. case_match; [|done]. injection Hd as _ <-. cbn. by apply filter_ids.
  - eapply (reg_ok_mono None); cbn; try done; [apply hub_le_refl|by eapply insert_kept|by eapply insert_ids].
  - by eapply kick_ok.
  - constructor; cbn; try apply Hw. intros r [->|Hr]%elem_of_cons; [done|by apply Hw].
  - pose proof (ro_read _ Hw _ Hr) as Hg. apply verify_hello_ok in Hd as (Hp & Hk & Hids & _).
  assert (Hm : reg_ok (tables_to w d)).
  { eapply (reg_ok_mono None); cbn; try done; [apply hub_le_refl|by rewrite Hids]. }
  constructor; try apply Hm. cbn. intros p [->|Hp']%elem_of_cons; [|by apply Hm]. cbn. split; [done|].
  intros _ _. left. by eapply (paired_kept None).
  - by apply register_ok.
  - apply reg_ok_hub; [apply unregister_le|done].
  - apply reg_ok_hub; [apply drop_stalled_le|done].
  - apply reg_ok_hub; [apply send_le|done].
  - pose proof (heartbeat_le _ _ _ _ _ _ _ _ Hd) as Hle. apply beat_kept in Hd as [Hk Hids].
  eapply (reg_ok_mono None); cbn; try done. by rewrite Hids.
  - apply reg_ok_hub; [apply peer_slot_le|done].
  - apply reg_ok_hub; [apply drop_slot_le|done].
  - apply reg_ok_hub; [apply close_all_le|done].
  - constructor; try apply Hw.
  - constructor; try apply Hw.
  - pose proof (resolve_le (lv_peer l) r (hw_hub w)) as Hle. rewrite Hd in Hle. cbn in Hle.
  eapply (reg_ok_mono None); cbn; try done. by apply same_rows_kept.
Qed.

(** ** The codes' invariant *)

Definition attempts_on (begun : list N) (id : N) : N := N.of_nat (length (List.filter (N.eqb id) begun)).

(** What an attempt works with is the code of the daemon it is for. *)
Definition attempt_ok (a : Attempt) : Prop :=
  code_of (ci_role (at_id a)) (ci_name (at_id a)) (at_code a) = true /\ from_hex (pc_key (at_code a)) = Some (at_hmac a).

Record codes_inv (codes : list PairingCodeRow) (begun : list N) (claimed : list Attempt) : Prop := {
  ci_ids : NoDup (map pc_id codes);
  ci_count c : c ∈ codes -> attempts_on begun (pc_id c) = pc_failed c /\ (pc_failed c <= dc_max_attempts config)%N;
  ci_begun i : i ∈ begun -> i ∈ map pc_id codes;
  ci_used a : a ∈ claimed -> exists c, c ∈ codes /\ pc_id c = pc_id (at_code a) /\ pc_used_at c <> None;
  ci_once : NoDup (map (fun a => pc_id (at_code a)) claimed);
  ci_single c c' : c ∈ codes -> c' ∈ codes -> pc_used_at c = None -> pc_used_at c' = None ->
  pc_role c = pc_role c' -> pc_name c = pc_name c' -> c = c';
}.
Record codes_ok (w : World) : Prop := {
  co_inv : codes_inv (ds_codes (hw_tables w)) (hw_begun w) (hw_claimed w);
  co_proofs a : a ∈ hw_claimed w ->
  attempt_ok a /\ verify_daemon_proof (at_hmac a) (at_id a) (at_key a) (at_proof a) = true;
  co_attempts a : a ∈ hw_attempts w -> attempt_ok a;
}.

(** Rows that are marked used and otherwise stay. *)
Lemma codes_mark p now codes begun claimed :
  codes_inv codes begun claimed -> codes_inv (update_where p (used now) codes).1 begun claimed.
Proof.
  intros [Hi Hc Hb Hu Ho Hs]. set (f := fun c => if p c then used now c else c).
  assert (Hid : forall c, pc_id (f c) = pc_id c) by (intros c; unfold f; by destruct (p c)).
  assert (Hids : map pc_id (map f codes) = map pc_id codes) by (rewrite map_map; by apply map_ext).
  assert (Hf : forall c, pc_failed (f c) = pc_failed c) by (intros c; unfold f; by destruct (p c)).
  assert (Hn : forall c, pc_used_at (f c) = None -> pc_used_at c = None) by (intros c; unfold f; by destruct (p c)).
  assert (Hrn : forall c, pc_role (f c) = pc_role c /\ pc_name (f c) = pc_name c)
  by (intros c; unfold f; by destruct (p c)).
  constructor; unfold update_where; cbn [fst]; fold f.
  - by rewrite Hids.
  - intros c (x & -> & Hx)%list_elem_of_fmap. rewrite Hid, Hf. auto.
  - intros i Hin. rewrite Hids. auto.
  - intros a (c & Hin & E & Hne)%Hu. exists (f c). split_and!; [by apply list_elem_of_fmap_2|by rewrite Hid|].
  intros Hx. by apply Hne, Hn.
  - done.
  - intros c c' (x & -> & Hx)%list_elem_of_fmap (y & -> & Hy)%list_elem_of_fmap Hx0%Hn Hy0%Hn Er En.
  destruct (Hrn x), (Hrn y). f_equal. apply Hs; congruence.
Qed.

Lemma codes_insert d c d' begun claimed : insert_code d c = Ok d' -> pc_failed c = 0%N ->
  codes_inv (ds_codes d) begun claimed -> codes_inv (ds_codes d') begun claimed.
Proof.
  unfold insert_code. case_match; [done|]. destruct (existsb _ _) eqn:Ex; [done|]. intros [= <-] Hz [Hi Hc Hb Hu Ho Hs].
  pose proof (proj1 (Forall_forall _ _) (proj1 (existsb_false _ _) Ex)) as Hnew. cbn in Hnew.
  assert (Hfresh : pc_id c ∉ map pc_id (ds_codes d)).
  { intros (x & E & Hx)%list_elem_of_fmap. apply Hnew, orb_false_iff in Hx as [Hx%N.eqb_neq _]. congruence. }
  constructor; cbn.
  - rewrite map_app. apply NoDup_app. split_and!; [done| |apply NoDup_singleton].
  intros i Hin ->%list_elem_of_singleton. done.
  - intros x [Hx| ->%list_elem_of_singleton]%elem_of_app; [auto|]. split; [|lia].
  rewrite Hz. unfold attempts_on. destruct (List.filter _ begun) as [|i l] eqn:E; [done|].
  exfalso. apply Hfresh, Hb. assert (Hin : In i (List.filter (N.eqb (pc_id c)) begun)) by (rewrite E; by left).
  apply filter_In in Hin as [Hin <-%N.eqb_eq]. by apply list_elem_of_In.
  - intros i Hin. rewrite map_app. apply elem_of_app. left. auto.
  - intros a (x & Hx & ? & ?)%Hu. exists x. split_and!; [apply elem_of_app; by left|done..].
  - done.
  - assert (Hn : forall x, x ∈ ds_codes d -> pc_used_at x = None -> pc_role x = pc_role c -> pc_name x = pc_name c -> False).
  { intros x Hx Hun Er En. apply Hnew, orb_false_iff in Hx as [_ Hx]. unfold code_of in Hx.
    rewrite Hun, bool_decide_true, (proj2 (str_eqb_true _ _)) in Hx by done. done. }
  intros x y [Hx| ->%list_elem_of_singleton]%elem_of_app [Hy| ->%list_elem_of_singleton]%elem_of_app; auto;
    intros; exfalso; eauto.
Qed.

Lemma codes_spend d code d' begun claimed : spend_attempt d code (dc_max_attempts config) = Ok (true, d') ->
  codes_inv (ds_codes d) begun claimed -> codes_inv (ds_codes d') (code :: begun) claimed.
Proof.
  unfold spend_attempt, to_i32. case_match; cbn [mbind result_bind]; [|done]. unfold update_where.
  set (p := fun c => _ && _ && _). intros [= Hn <-] [Hi Hc Hb Hu Ho Hs]. cbn [ds_codes with_codes]. apply Nat.eqb_eq in Hn.
  apply filter_one in Hn as (c0 & Hc0 & Hp0).
  set (f := fun c => if p c then tried c else c).
  assert (Hid : forall c, pc_id (f c) = pc_id c) by (intros c; unfold f; by destruct (p c)).
  assert (Hids : map pc_id (map f (ds_codes d)) = map pc_id (ds_codes d)) by (rewrite map_map; by apply map_ext).
  assert (Hus : forall c, pc_used_at (f c) = pc_used_at c /\ pc_role (f c) = pc_role c /\ pc_name (f c) = pc_name c)
  by (intros c; unfold f; by destruct (p c)).
  assert (Hp : forall c, p c = true <-> pc_id c = code /\ pc_used_at c = None /\ (pc_failed c < dc_max_attempts config)%N).
  { intros c. unfold p. rewrite !andb_true_iff, N.eqb_eq, N.ltb_lt. destruct (pc_used_at c); cbn; naive_solver. }
  apply Hp in Hp0 as (Hcode & Hun & Hlt).
  change (codes_inv (map f (ds_codes d)) (code :: begun) claimed). constructor.
  - by rewrite Hids.
  - intros c (x & -> & Hx)%list_elem_of_fmap. rewrite Hid. destruct (Hc x Hx) as [Ha Hm].
  unfold attempts_on in *. cbn [List.filter]. destruct (N.eqb_spec (pc_id x) code) as [E|E].
  + assert (x = c0) as -> by (apply (NoDup_map_inj _ _ _ _ Hi); congruence).
    unfold f. rewrite (proj2 (Hp c0)) by done. cbn [length tried pc_failed]. lia.
  + unfold f. destruct (p x) eqn:Ep; [by apply Hp in Ep as [? _]|]. done.
  - intros i [->|Hin]%elem_of_cons; rewrite Hids; [|auto]. rewrite <- Hcode. by apply list_elem_of_fmap_2.
  - intros a (c & Hin & E & Hne)%Hu. exists (f c). split_and!; [by apply list_elem_of_fmap_2|by rewrite Hid|].
  by destruct (Hus c) as (-> & _ & _).
  - done.
  - intros c c' (x & -> & Hx)%list_elem_of_fmap (y & -> & Hy)%list_elem_of_fmap.
  destruct (Hus x) as (-> & -> & ->), (Hus y) as (-> & -> & ->). intros. f_equal. by apply Hs.
Qed.

Lemma codes_claim d a now d' begun claimed : claim_code d (pc_id (at_code a)) now = (true, d') ->
  codes_inv (ds_codes d) begun claimed -> codes_inv (ds_codes d') begun (a :: claimed).
Proof.
  unfold claim_code. set (p := fun c => _ && _). intros Hc Hinv.
  pose proof (codes_mark p now _ _ _ Hinv) as [Hi' Hc' Hb' Hu' Ho' Hs'].
  unfold update_where in *. cbn in Hc. injection Hc as Hn <-. apply Nat.eqb_eq, filter_one in Hn as (c0 & Hc0 & Hp0).
  assert (Hp := Hp0). unfold p in Hp. apply andb_true_iff in Hp as [Hid%N.eqb_eq Hun].
  constructor; cbn [ds_codes with_codes fst] in *; try done.
  - intros b [->|Hb]%elem_of_cons; [|auto]. exists (used now c0). split_and!; [|done|done].
  apply list_elem_of_fmap. exists c0. by rewrite Hp0.
  - cbn. constructor; [|done]. intros (b & E & Hb)%list_elem_of_fmap.
  destruct (ci_used _ _ _ Hinv b Hb) as (c & Hin & Ec & Hne).
  assert (c = c0) as -> by (apply (NoDup_map_inj _ _ _ _ (ci_ids _ _ _ Hinv)); congruence).
  by destruct (pc_used_at c0).
Qed.

Lemma issue_codes d id ci source now code expires d' begun claimed :
  create_pairing_code config d id ci source now = Ok (code, expires, d') ->
  codes_inv (ds_codes d) begun claimed -> codes_inv (ds_codes d') begun claimed.
Proof.
  unfold create_pairing_code. case_match; [done|]. intros Hc Hinv.
  destruct (sandbox_name_ok id); cbn [mbind result_bind] in Hc; [|done].
  destruct (ok_or (generate_pairing_code source) _); cbn [mbind result_bind] in Hc; [|done].
  destruct (db_failed _) as [d1|] eqn:E; cbn [mbind result_bind] in Hc; [|done]. injection Hc as _ _ <-.
  unfold db_failed, issue_code in E. destruct (burn_codes _ _ _ _) as [d2 n] eqn:Eb.
  destruct (insert_code d2 _) as [d3|] eqn:Ei; [|done]. injection E as <-.
  eapply codes_insert; [exact Ei|done|]. unfold burn_codes in Eb. injection Eb as <- _. by apply codes_mark.
Qed.
Lemma newest_in rows c : newest rows = Some c -> c ∈ rows.
Proof.
  revert c. induction rows as [|x rows IH]; intros c; cbn; [done|].
  destruct (newest rows) as [y|]; [|by intros [= <-]; left].
  destruct (Z.ltb _ _); intros [= <-]; [right; auto|by left].
Qed.
Lemma begin_ok d body now a d' : pair_begin config d body now = (Ok a, d') ->
  attempt_ok a /\ spend_attempt d (pc_id (at_code a)) (dc_max_attempts config) = Ok (true, d').
Proof.
  unfold pair_begin. destruct (dc_signing_key config); cbn [mbind result_bind ok_or]; [|done].
  destruct (identity _ _) as [i|]; cbn [mbind result_bind]; [|done].
  destruct (map_err _ _) as [key|]; cbn [mbind result_bind]; [|done].
  unfold db_failed, live_code. destruct (to_i32 _) as [m|]; cbn [mbind result_bind map_err]; [|done].
  destruct (newest _) as [c|] eqn:Ec; cbn [mbind result_bind ok_or]; [|done].
  destruct (from_hex (pc_key c)) as [hm|] eqn:Eh; cbn [mbind result_bind ok_or]; [|done].
  destruct (selector_matches _ _); [|done]. cbn [at_code].
  destruct (spend_attempt _ _ _) as [[[] d1]|] eqn:Es; [|done..]. intros [= <- <-]. split; [|exact Es].
  apply newest_in, list_elem_of_In, filter_In in Ec as [_ Ec]. unfold code_live in Ec.
  rewrite !andb_true_iff in Ec. destruct Ec as [[[Hco _] _] _]. by split.
Qed.
Lemma begin_err d body now e d' begun claimed : pair_begin config d body now = (Err e, d') ->
  codes_inv (ds_codes d) begun claimed -> d' = d \/ exists c, spend_attempt d c (dc_max_attempts config) = Ok (false, d').
Proof.
  unfold pair_begin. case_match; [|by intros [= _ <-]; left].
  destruct (spend_attempt _ _ _) as [[b d1]|] eqn:E; [|by intros [= _ <-]; left].
  destruct b; [done|]. intros [= _ <-] _. right. eauto.
Qed.
Lemma filter_none {A} (p : A -> bool) l : length (List.filter p l) <> 1 -> NoDup l ->
  (forall x y, x ∈ l -> y ∈ l -> p x = true -> p y = true -> x = y) -> forall x, x ∈ l -> p x = false.
Proof.
  intros Hl Hnd Hu x Hx. destruct (p x) eqn:E; [|done]. exfalso. apply Hl. clear Hl.
  induction l as [|y l IH]; [by apply not_elem_of_nil in Hx|]. apply NoDup_cons in Hnd as [Hy Hnd].
  cbn. destruct (p y) eqn:Ey.
  - cbn. f_equal. assert (List.filter p l = []) as ->; [|done]. apply filter_nil. apply Forall_forall.
  intros z Hz. destruct (p z) eqn:Ez; [|done]. exfalso. apply Hy.
  by rewrite (Hu y z ltac:(left) ltac:(by right) Ey Ez).
  - apply elem_of_cons in Hx as [->|Hx]; [congruence|]. apply IH; [done| |done].
  intros u v Hu' Hv. apply Hu; by right.
Qed.
(** A spent attempt that found no row changed none. *)
Lemma spend_none d c d' begun claimed : spend_attempt d c (dc_max_attempts config) = Ok (false, d') ->
  codes_inv (ds_codes d) begun claimed -> codes_inv (ds_codes d') begun claimed.
Proof.
  unfold spend_attempt, to_i32. case_match; cbn [mbind result_bind]; [|done]. unfold update_where.
  set (p := fun c => _ && _ && _). intros [= Hn%Nat.eqb_neq <-] Hinv.
  assert (E : map (fun c => if p c then tried c else c) (ds_codes d) = ds_codes d).
  { rewrite <- (map_id (ds_codes d)) at 2. apply map_ext_in. intros x Hx%list_elem_of_In.
  rewrite (filter_none p (ds_codes d)); try done.
  - eapply NoDup_fmap_1, (ci_ids _ _ _ Hinv).
  - intros y z Hy Hz. unfold p. rewrite !andb_true_iff, !N.eqb_eq. intros [[E1 _] _] [[E2 _] _].
    apply (NoDup_map_inj _ _ _ _ (ci_ids _ _ _ Hinv)); congruence. }
  change (codes_inv (map (fun c => if p c then tried c else c) (ds_codes d)) begun claimed). by rewrite E.
Qed.

Lemma finish_codes d a row_id now row d' begun claimed : pair_finish d a row_id now = (Ok row, d') ->
  codes_inv (ds_codes d) begun claimed -> codes_inv (ds_codes d') begun (a :: claimed).
Proof.
  intros (_ & d1 & Hc & Hu)%finish_ok Hinv. apply (codes_claim _ _ _ _ _ _ Hc) in Hinv.
  assert (ds_codes d' = ds_codes d1) as ->; [|done].
  unfold upsert_paired, insert_daemon in Hu. repeat case_match; try done; by injection Hu as _ <-.
Qed.

Lemma codes_step_ok w w' : hub_step w w' -> codes_ok w -> codes_ok w'.
Proof.
  intros Hs [Hinv Hp Ha].
  assert (Hsame : forall d, ds_codes d = ds_codes (hw_tables w) -> codes_ok (tables_to w d)).
  { intros d E. constructor; cbn; [by rewrite E|done..]. }
  destruct Hs as [id ci source now code expires d Hd|body now a d Hd|body now e d Hd|a l1 l2 ri now row d Hat Hd
  |a l1 l2 ri now e d Hat Hd|id now row d Hd|row now x d Hd|k reason l1 l2 Hk|text m nonce Hm
  |r now row key vh d Hr Hd|p c key Hpv Hc|c|c|k payload ttl now id|c body now ok h d Hd|peer|peer|reason
  |id k Hid|id|c l r id h Hc Hd]; try (constructor; done).
  - constructor; cbn; [by eapply issue_codes|done..].
  - apply begin_ok in Hd as [Hok Hd]. constructor; cbn; [by eapply codes_spend|done|].
  intros b [->|Hb]%elem_of_cons; auto.
  - constructor; cbn; [|done..]. destruct (begin_err _ _ _ _ _ _ _ Hd Hinv) as [->|(c & Hs)]; [done|].
  by eapply spend_none.
  - constructor; cbn; [by eapply finish_codes| |].
  + intros b [->|Hb]%elem_of_cons; [|auto]. split; [|by apply finish_ok in Hd as [? _]].
    apply Ha. rewrite Hat. set_solver.
  + intros b Hb. apply Ha. rewrite Hat. set_solver.
  - apply finish_err in Hd as ->. constructor; cbn; [done..|]. intros b Hb. apply Ha. rewrite Hat. set_solver.
  - constructor; cbn; [|done..]. unfold unpair_row in Hd. case_match; [|done]. injection Hd as _ <-.
  unfold burn_codes. cbn. by apply codes_mark.
  - apply Hsame. unfold import_daemon, insert_daemon in Hd. repeat case_match; try done. by injection Hd as _ <-.
  - assert (E : ds_codes d = ds_codes (hw_tables w)).
  { unfold verify_hello in Hd. case_match; [|done]. destruct p as [[]]. by injection Hd as _ _ _ <-. }
  constructor; cbn; [by rewrite E|done..].
  - assert (E : ds_codes d = ds_codes (hw_tables w)).
  { unfold heartbeat in Hd. repeat case_match; try (by injection Hd as _ _ <-);
      injection Hd as _ _ <-; unfold store_heartbeat in *; cbn in *;
      match goal with F : (_, _) = _ |- _ => by injection F as _ <- end. }
  constructor; cbn; [by rewrite E|done..].
Qed.

(** ** Calls *)

Record calls_ok (w : World) : Prop := {
  cl_once : NoDup (map fst (hw_called w));
  cl_waiting id k : hb_calls (hw_hub w) !! id = Some k -> (id, k) ∈ hw_called w /\ id ∉ map fst (hw_answered w);
  cl_answered id k : (id, k) ∈ hw_answered w -> (id, k) ∈ hw_called w;
  cl_answered_once : NoDup (map fst (hw_answered w));
  cl_slots peer n : hb_pending (hw_hub w) !! peer = Some n -> (n <= MAX_PENDING_PER_PEER)%N;
}.

(** Operations on connections leave the calls and the slots alone. *)
Definition rest_same (h h' : Hub) : Prop := hb_calls h' = hb_calls h /\ hb_pending h' = hb_pending h.
Lemma kick_rest k reason h : rest_same h (kick k reason h).
Proof. unfold kick. by destruct (hb_live h !! k). Qed.
Lemma register_rest c h : rest_same h (register c h).2.
Proof. unfold register. by repeat case_match. Qed.
Lemma unregister_rest c h : rest_same h (unregister c h).
Proof. unfold unregister. by repeat case_match. Qed.
Lemma drop_stalled_rest c h : rest_same h (drop_stalled c h).
Proof. unfold drop_stalled. by repeat case_match. Qed.
Lemma send_rest k payload ttl now id h : rest_same h (send k payload ttl now id h).2.
Proof.
  unfold send, deliver. destruct (hb_live h !! k) as [c|]; [|done]. destruct (hb_conns h !! c); [|done].
  destruct (_ || _); [done|]. by destruct (seal _ _ _ _ _) as [[[]|] ?].
Qed.
Lemma heartbeat_rest c body now h d ok h' d' : heartbeat config c body now h d = (ok, h', d') -> rest_same h h'.
Proof.
  unfold heartbeat. destruct (hb_conns h !! c) as [l|]; [|by intros [= _ <- _]].
  destruct (too_soon _ _ _); [by intros [= _ <- _]|]. destruct (store_heartbeat _ _ _ _ _ _) as [[] ?]; [by intros [= _ <- _]|].
  destruct (is_live_conn _ _ _); by intros [= _ <- _].
Qed.
Lemma close_all_rest reason h : rest_same h (close_all reason h).
Proof.
  unfold close_all. set (f := fun h c => close_conn c (1001%N, reason) h).
  enough (Hf : forall l h, rest_same h (fold_left f l h)) by apply (Hf _ h).
  induction l as [|c l IH]; intros h0; [done|]. change (rest_same h0 (fold_left f l (f h0 c))).
  destruct (IH (f h0 c)) as [E1 E2]. by split; [rewrite E1|rewrite E2].
Qed.

Lemma calls_same w w' : rest_same (hw_hub w) (hw_hub w') -> hw_called w' = hw_called w ->
  hw_answered w' = hw_answered w -> calls_ok w -> calls_ok w'.
Proof. intros [Ec Ep] Eca Ean []. constructor; rewrite ?Ec, ?Ep, ?Eca, ?Ean; done. Qed.

Lemma calls_step_ok w w' : hub_step w w' -> calls_ok w -> calls_ok w'.
Proof.
  intros Hs Hw. pose proof Hw as [Ho Hwait Han Hao Hsl].
  destruct Hs as [id ci source now code expires d Hd|body now a d Hd|body now e d Hd|a l1 l2 ri now row d Hat Hd
  |a l1 l2 ri now e d Hat Hd|id now row d Hd|row now x d Hd|k reason l1 l2 Hk|text m nonce Hm
  |r now row key vh d Hr Hd|p c key Hpv Hc|c|c|k payload ttl now id|c body now ok h d Hd|peer|peer|reason
  |id k Hid|id|c l r id h Hc Hd]; try (by apply (calls_same w)).
  - apply (calls_same w); [apply kick_rest|done..].
  - apply (calls_same w); [|done..]. cbn [hw_hub hub_to].
  exact (register_rest c (with_conns (hw_hub w) (<[c := (new_live key p).1]> (hb_conns (hw_hub w))))).
  - apply (calls_same w); [apply unregister_rest|done..].
  - apply (calls_same w); [apply drop_stalled_rest|done..].
  - apply (calls_same w); [apply send_rest|done..].
  - apply (calls_same w); [by eapply heartbeat_rest|done..].
  - unfold peer_slot. case_match eqn:E; constructor; cbn; try done;
    (intros p n; intros [[<- <-]|[_ Hp]]%lookup_insert_Some; [|by eapply Hsl]).
  + destruct (hb_pending (hw_hub w) !! peer) as [n|] eqn:En; cbn; [by eapply Hsl|done].
  + apply N.leb_gt in E. lia.
  - unfold drop_slot. destruct (hb_pending (hw_hub w) !! peer) as [m|] eqn:Em; [|by apply (calls_same w)].
  constructor; cbn; try done. intros p n. case_match; [intros [_ ?]%lookup_delete_Some; by eapply Hsl|].
  intros [[<- <-]|[_ Hp]]%lookup_insert_Some; [|by eapply Hsl]. apply Hsl in Em. lia.
  - apply (calls_same w); [apply close_all_rest|done..].
  - constructor; cbn; try done.
  + by constructor.
  + intros i k'. intros [[<- <-]|[Hne Hi]]%lookup_insert_Some.
    * split; [by left|]. intros ([i' k0] & -> & Hin)%list_elem_of_fmap. apply Hid.
      apply Han in Hin. by apply (list_elem_of_fmap_2 fst) in Hin.
    * apply Hwait in Hi as [? ?]. split; [by right|done].
  + intros i k' Hin. right. auto.
  - constructor; cbn; try done. intros i k. intros [_ Hi]%lookup_delete_Some. auto.
  - unfold resolve in Hd. destruct (rp_call r) as [i|]; [|done]. case_bool_decide as Hb; [|done].
  injection Hd as <- <-. apply Hwait in Hb as [Hin Hnot]. constructor; cbn; try done.
  + intros j k. intros [Hne Hj]%lookup_delete_Some. apply Hwait in Hj as [? ?]. split; [done|].
    intros [?|?]%elem_of_cons; congruence.
  + intros j k [[= -> ->]|?]%elem_of_cons; [done|auto].
  + by constructor.
Qed.

(** ** What holds of every run *)

Lemma hub_runs_ok w : hub_runs w -> reg_ok w /\ codes_ok w /\ calls_ok w.
Proof.
  induction 1 as [|w w' _ (Hr & Hc & Hl) Hs].
  - split_and!.
  + constructor; cbn; try (by intros ? ?%not_elem_of_nil).
    * apply NoDup_nil_2.
    * intros k. change (default 0%N ((∅ : gmap ChannelId N) !! k) <= MAX_U64)%N. by rewrite lookup_empty.
    * by intros k c ?%lookup_empty_Some.
  + constructor; cbn; try (by intros ? ?%not_elem_of_nil).
    constructor; try apply NoDup_nil_2; try (by intros ? ?%not_elem_of_nil). by intros ? ? ?%not_elem_of_nil.
  + constructor; cbn; try apply NoDup_nil_2; try (by intros ? ? ?%lookup_empty_Some).
    by intros ? ? ?%not_elem_of_nil.
  - split_and!; [by eapply reg_step_ok|by eapply codes_step_ok|by eapply calls_step_ok].
Qed.

(** C9: once the kick that follows a re-pairing or an unpairing has run, no
    connection authenticated with another key than the daemon's is
    registered: neither one that was live nor one whose hello was under
    way. *)
Theorem replaced_keys_disconnected w k c :
  hub_runs w -> (generation (hw_hub w) k < MAX_U64)%N -> k ∉ hw_kicks w -> hb_live (hw_hub w) !! k = Some c ->
  exists l, hb_conns (hw_hub w) !! c = Some l /\ pe_id (lv_peer l) = k /\
  paired_with (hw_tables w) k (pe_public_key (lv_peer l)).
Proof.
  intros (Hr & _ & _)%hub_runs_ok Hg Hk Hl. destruct (ro_live _ Hr _ _ Hl) as (l & Hc & Hid & Eg & _ & Hf).
  exists l. split_and!; [done..|]. by destruct (Hf Eg Hg).
Qed.

(** C11: a code pairs at most one key, and only with a proof that verified under
    the code's key, for the daemon it was issued for; at most the configured
    number of proofs are ever tried against it; and at any time one code of
    a daemon at most is unused. *)
Theorem pairing_codes_spent w :
  hub_runs w ->
  NoDup (map (fun a => pc_id (at_code a)) (hw_claimed w)) /\
  (forall a, a ∈ hw_claimed w -> attempt_ok a /\
   verify_daemon_proof (at_hmac a) (at_id a) (at_key a) (at_proof a) = true) /\
  (forall id, (attempts_on (hw_begun w) id <= dc_max_attempts config)%N) /\
  (forall c c', c ∈ ds_codes (hw_tables w) -> c' ∈ ds_codes (hw_tables w) ->
   pc_used_at c = None -> pc_used_at c' = None -> pc_role c = pc_role c' -> pc_name c = pc_name c' -> c = c').
Proof.
  intros (_ & [Hinv Hp _] & _)%hub_runs_ok. split_and!; [apply Hinv|done| |apply Hinv].
  intros id. unfold attempts_on. destruct (List.filter (N.eqb id) (hw_begun w)) as [|i l] eqn:E; [cbn; lia|].
  assert (Hin : In i (List.filter (N.eqb id) (hw_begun w))) by (rewrite E; by left).
  apply filter_In in Hin as [Hin <-%N.eqb_eq]. apply list_elem_of_In, (ci_begun _ _ _ Hinv) in Hin.
  apply list_elem_of_fmap in Hin as (c & -> & Hc). destruct (ci_count _ _ _ Hinv c Hc) as [Ha Hm].
  unfold attempts_on in Ha. rewrite E in Ha. lia.
Qed.

(** A call is answered at most once, and only by the daemon it was made to. *)
Theorem calls_answered_by_callee w :
  hub_runs w ->
  NoDup (map fst (hw_answered w)) /\
  forall id k k', (id, k) ∈ hw_answered w -> (id, k') ∈ hw_called w -> k = k'.
Proof.
  intros (_ & _ & [Ho _ Han Hao _])%hub_runs_ok. split; [done|]. intros id k k' Ha Hc. apply Han in Ha.
  by assert ((id, k) = (id, k')) as [= ->] by by apply (NoDup_map_inj _ _ _ _ Ho).
Qed.
End runs.

(** ** Witnesses *)

(** A run in which the daemon pairs, its kick is carried out, and it connects
    and answers a call: each part computed once. *)
Definition sample_issued : Daemons := Eval vm_compute in
  match create_pairing_code sample_config (hw_tables World_new) sample_id 3%N (repeat 0%N 12) 1000%Z with
  | Ok (_, _, d) => d | Err _ => hw_tables World_new end.
Definition sample_expires : Instant := Eval vm_compute in (1000 + seconds 600)%Z.
Definition sample_begun : result PairingError Attempt * Daemons := Eval vm_compute in
  pair_begin sample_config sample_issued sample_pair_body 2000%Z.
Definition sample_attempt : Attempt := Eval vm_compute in
  match sample_begun.1 with
  | Ok a => a
  | Err _ => mkAttempt sample_id (public_key sample_daemon_key) (mkCode 0 RHost [] [] 0 None 0 0) [] []
  end.
Definition sample_row : DaemonRow :=
  mkDaemonRow 9 RHost (lit "excelsior") (PublicKey_to_text (public_key sample_daemon_key)) 2000 None None None 2000 2000.
Definition sample_paired : Daemons := Eval vm_compute in (pair_finish sample_begun.2 sample_attempt 9%N 2000%Z).2.
Definition sample_hub : Hub := kick sample_id (lit "re-paired") Hub_new.
Definition sample_hello : HelloMsg := Eval vm_compute in
  match parse_hello sample_hello_text with Some m => m | None => mkHelloMsg sample_id [] [] [] end.
Definition sample_peer : DaemonPeer := mkPeer 9 sample_id (public_key sample_daemon_key).
Definition sample_seen : Daemons :=
  (verify_hello sample_paired sample_hello (hs_broker_nonce sample_handshake) 3000%Z).2.
Definition sample_pending : PendingHello := mkPending sample_peer 1 sample_at_broker.
Definition sample_connected : Hub :=
  (register 7 (with_conns sample_hub (<[7%N := (new_live sample_broker_key sample_pending).1]> ∅))).2.
Definition sample_called : Hub := call_begin (lit "call") sample_id sample_connected.
Definition sample_reply : Reply := mkReply (Some (lit "call")) true [] None.
Definition sample_world : World :=
  mkWorld sample_seen (resolve sample_peer sample_reply sample_called).2 [] []
    [mkRead sample_hello (hs_broker_nonce sample_handshake) 1] [sample_pending] [3%N] [sample_attempt]
    [(lit "call", sample_id)] [(lit "call", sample_id)].

Lemma sample_issues : exists code, create_pairing_code sample_config (hw_tables World_new) sample_id 3%N (repeat 0%N 12) 1000%Z
  = Ok (code, sample_expires, sample_issued).
Proof. eexists. vm_compute. reflexivity. Qed.
Lemma sample_begins : pair_begin sample_config sample_issued sample_pair_body 2000%Z = (Ok sample_attempt, sample_begun.2).
Proof. vm_compute. reflexivity. Qed.
Lemma sample_finishes : pair_finish sample_begun.2 sample_attempt 9%N 2000%Z = (Ok sample_row, sample_paired).
Proof. vm_compute. reflexivity. Qed.
Lemma sample_reads : parse_hello sample_hello_text = Some sample_hello.
Proof. vm_compute. reflexivity. Qed.
Lemma sample_verifies :
  verify_hello sample_paired sample_hello (hs_broker_nonce sample_handshake) 3000%Z
  = (Some (9%N, public_key sample_daemon_key, sample_at_broker), sample_seen).
Proof. vm_compute. reflexivity. Qed.
Lemma sample_found : hb_conns sample_called !! 7%N = Some (new_live sample_broker_key sample_pending).1.
Proof. vm_compute. reflexivity. Qed.
Lemma sample_resolves : resolve sample_peer sample_reply sample_called
  = (Some (lit "call"), (resolve sample_peer sample_reply sample_called).2).
Proof. vm_compute. reflexivity. Qed.

Lemma sample_hub_runs : hub_runs sample_config sample_world.
Proof.
  destruct sample_issues as [code Hi].
  pose proof (hub_next _ _ _ (hub_start _) (issues _ World_new _ _ _ _ _ _ _ Hi)) as H.
  eapply hub_next in H; [|exact (begins _ (tables_to World_new sample_issued) _ _ _ _ sample_begins)].
  eapply hub_next in H; [|eapply (finishes _ _ sample_attempt [] []); [reflexivity|exact sample_finishes]].
  eapply hub_next in H; [|apply (kicks _ _ sample_id (lit "re-paired") [] []); reflexivity].
  eapply hub_next in H; [|apply (reads_hello _ _ _ _ (hs_broker_nonce sample_handshake) sample_reads)].
  eapply hub_next in H; [|eapply verifies; [left|exact sample_verifies]].
  eapply hub_next in H; [|apply (registers _ _ sample_pending 7%N sample_broker_key); [left|reflexivity]].
  eapply hub_next in H; [|apply (calls _ _ (lit "call") sample_id); apply not_elem_of_nil].
  eapply hub_next in H; [|exact (replies _ (mkWorld sample_seen sample_called [] []
    [mkRead sample_hello (hs_broker_nonce sample_handshake) 1] [sample_pending] [3%N] [sample_attempt]
    [(lit "call", sample_id)] []) 7%N _ sample_reply (lit "call") _ sample_found sample_resolves)].
  exact H.
Qed.

Lemma replaced_keys_disconnected_witness : exists l,
  hub_runs sample_config sample_world /\ hb_conns (hw_hub sample_world) !! 7%N = Some l /\
  paired_with (hw_tables sample_world) sample_id (pe_public_key (lv_peer l)).
Proof.
  destruct (replaced_keys_disconnected sample_config sample_world sample_id 7%N sample_hub_runs) as (l & Hc & _ & Hp).
  - reflexivity.
  - apply not_elem_of_nil.
  - reflexivity.
  - exists l. split_and!; [exact sample_hub_runs|exact Hc|exact Hp].
Defined.

Lemma pairing_codes_spent_witness :
  hub_runs sample_config sample_world /\ attempt_ok sample_attempt /\
  (attempts_on (hw_begun sample_world) 3 <= 5)%N.
Proof.
  destruct (pairing_codes_spent sample_config sample_world sample_hub_runs) as (_ & Hp & Hn & _).
  split_and!; [exact sample_hub_runs|apply Hp; left|apply (Hn 3%N)].
Defined.

Lemma calls_answered_by_callee_witness :
  hub_runs sample_config sample_world /\ (lit "call", sample_id) ∈ hw_answered sample_world /\
  forall k, (lit "call", k) ∈ hw_called sample_world -> sample_id = k.
Proof.
  assert (Hin : (lit "call", sample_id) ∈ hw_answered sample_world) by left.
  split_and!; [exact sample_hub_runs|exact Hin|]. intros k Hk.
  exact (proj2 (calls_answered_by_callee sample_config sample_world sample_hub_runs) _ _ _ Hin Hk).
Defined.
