(* ===== verification/OAuthRuns.v ===== *)
(** Runs of the OAuth server: registrations, authorizations, exchanges and
    revocations in any order, with a journal of what was authorized, issued
    and replayed, and of where browsers were sent. Every token descends from a
    person's approval, a code is sent only where its approval allows, codes
    and refresh tokens are spent once, one shown again in time ends its whole
    family, and registrations stay within their caps. *)

From stdpp Require Import gmap.
From S2P Require Import Prelude Json Glob Pyfmt Lifecycle Names Durations Pool Mail Authority Routing Agents Hostexec Schema Policy Zones Eval HostTypes TotpCode Transcript Envelope Hello Store ServiceRouting Pairing Accounts OAuth SampleCrypto Samples.
From stdpp Require Import options.
#[local] Set Default Proof Using "Type*".

Section runs.
Context `{DateLib, UnicodeLower, RustFmt, JsonRead, Sha256, Hex, Base64}.
Variable server : OAuthServer.

(** A person's approval: what they agreed to, what it made, and where the
    browser was then sent with which code. *)
Record Approval := mkApproval {
  ap_auth : Authorization; ap_by : str; ap_agent : AgentId; ap_family : FamilyId; ap_uri : str; ap_code : str }.
(** The code among a redirect's parameters. *)
Definition code_in (params : list (str * str)) : str :=
  default [] (snd <$> find (fun kv => str_eqb kv.1 (lit "code")) params).

(** What an exchange consumes: the kind and the hash it presents. *)
Definition consumed (form : TokenForm) : TokenKind * str :=
  if bool_decide (tf_grant_type form = Some (lit "authorization_code"))
  then (TCode, hash (default [] (tf_code form))) else (TRefresh, hash (default [] (tf_refresh_token form))).
(** The form shows this code or refresh token. *)
Definition shows (form : TokenForm) (t : TokenRow) : Prop :=
  (tf_grant_type form = Some (lit "authorization_code") /\ to_kind t = TCode /\
     to_hash t = hash (default [] (tf_code form))) \/
  (tf_grant_type form = Some (lit "refresh_token") /\ to_kind t = TRefresh /\
     to_hash t = hash (default [] (tf_refresh_token form))).
(** It shows this one in time: the token has not expired, and the client it
    was issued to shows it and authenticates. *)
Definition in_time (form : TokenForm) (basic : option (str * str)) (now : Instant) (a : Accounts) (t : TokenRow) : Prop :=
  (now < to_expires_at t)%Z /\
  exists c, authenticate form basic now a = Ok (Ok c, a) /\ cl_id c = to_client t.
(** A used token of the family is shown again, in time. *)
Definition replays (form : TokenForm) (basic : option (str * str)) (now : Instant) (a : Accounts) (f : FamilyId) : Prop :=
  exists t, t ∈ ac_tokens a /\ to_used_at t <> None /\ shows form t /\ in_time form basic now a t /\ to_family t = f.

Record World := mkWorld {
  ow_acc : Accounts;
  ow_seen : gmap str (list Instant);
  ow_authorized : list Authorization;
  ow_approved : list Approval;
  ow_issued : list TokenForm;
  ow_replayed : list FamilyId;
  ow_sent : list (str * list (str * str));
}.
Definition acc_to (w : World) (a : Accounts) : World :=
  mkWorld a (ow_seen w) (ow_authorized w) (ow_approved w) (ow_issued w) (ow_replayed w) (ow_sent w).
(** Where the consent form sent the browser, if it did. *)
Definition sent_by (r : result StoreError Consented) : list (str * list (str * str)) :=
  match r with Ok (Redirect uri params) => [(uri, params)] | _ => [] end.

Definition web_agent (db : Database) (g : AgentId) : Prop :=
  exists x, db_agents db !! g = Some x /\ ag_runtime x = Some WEB_RUNTIME.
Definition keyed (db : Database) : Prop := forall k x, db_agents db !! k = Some x -> ag_id x = k.
(** What the rest of the broker does to agents: none is deleted, and the
    trigger keeps a connector's runtime. *)
Definition agents_kept (a a' : Accounts) : Prop :=
  keyed (ac_db a') /\
  (forall g, is_bound_in a g = true -> web_agent (ac_db a) g -> web_agent (ac_db a') g) /\
  ac_clients a' = ac_clients a /\ ac_tokens a' = ac_tokens a.

Inductive oauth_step (w : World) : World -> Prop :=
| registers body address id_bytes secret_bytes now r seen a :
    register server body address id_bytes secret_bytes now (ow_seen w) (ow_acc w) = (r, seen, a) ->
    oauth_step w (mkWorld a seen (ow_authorized w) (ow_approved w) (ow_issued w) (ow_replayed w) (ow_sent w))
| authorizes params now auth a :
    check_authorize params now (ow_acc w) = Ok (Ok auth, a) ->
    oauth_step w (mkWorld (ow_acc w) (ow_seen w) (auth :: ow_authorized w) (ow_approved w) (ow_issued w) (ow_replayed w)
      (ow_sent w))
(** The sealer opens only what this server sealed; families are random. *)
| allows blob cookie form d now uri params a t :
    cb_auth blob ∈ ow_authorized w -> dr_family d ∉ map ap_family (ow_approved w) ->
    consent server (Some blob) cookie form d now (ow_acc w) = (Ok (Redirect uri params), a) ->
    ac_tokens a = ac_tokens (ow_acc w) ++ [t] ->
    oauth_step w (mkWorld a (ow_seen w) (ow_authorized w)
      (mkApproval (cb_auth blob) (cb_user blob) (to_agent t) (dr_family d) uri (code_in params) :: ow_approved w)
      (ow_issued w) (ow_replayed w) ((uri, params) :: ow_sent w))
| allows_nothing blob cookie form d now r a :
    (forall b, blob = Some b -> cb_auth b ∈ ow_authorized w) ->
    consent server blob cookie form d now (ow_acc w) = (r, a) ->
    ac_tokens a = ac_tokens (ow_acc w) ->
    oauth_step w (mkWorld a (ow_seen w) (ow_authorized w) (ow_approved w) (ow_issued w) (ow_replayed w)
      (sent_by r ++ ow_sent w))
| exchanges form basic d now p a :
    exchange server form basic d now (ow_acc w) = (Ok (Ok p), a) ->
    oauth_step w (mkWorld a (ow_seen w) (ow_authorized w) (ow_approved w) (form :: ow_issued w) (ow_replayed w) (ow_sent w))
| exchange_refused form basic d now e a replayed :
    exchange server form basic d now (ow_acc w) = (Ok (Err e), a) ->
    (forall f, f ∈ replayed <-> replays form basic now (ow_acc w) f) ->
    oauth_step w (mkWorld a (ow_seen w) (ow_authorized w) (ow_approved w) (ow_issued w) (replayed ++ ow_replayed w)
      (ow_sent w))
| revokes token now a :
    revoke token now (ow_acc w) = Ok (tt, a) -> oauth_step w (acc_to w a)
| revokes_connector id now r a :
    revoke_connector id now (ow_acc w) = Ok (r, a) -> oauth_step w (acc_to w a)
| elsewhere a : agents_kept (ow_acc w) a -> oauth_step w (acc_to w a).

Definition World_new : World := mkWorld (mkAccounts Database_empty [] [] []) ∅ [] [] [] [] [].
Inductive oauth_runs : World -> Prop :=
| oauth_start : oauth_runs World_new
| oauth_next w w' : oauth_runs w -> oauth_step w w' -> oauth_runs w'.

(** ** What holds of the tables *)

(** The approval a token descends from. *)
Definition approved_for (ap : Approval) (t : TokenRow) : Prop :=
  ap_family ap = to_family t /\ az_client_id (ap_auth ap) = to_client t /\ ap_agent ap = to_agent t /\
  to_authorized_by t = take 128 (ap_by ap) /\
  (to_kind t = TCode -> to_challenge t = Some (az_code_challenge (ap_auth ap)) /\
                        to_redirect_uri t = Some (az_redirect_uri (ap_auth ap)) /\ to_hash t = hash (ap_code ap)).
(** The exchange of an approval's code: by who knows the verifier. *)
Definition verified_by (ap : Approval) (form : TokenForm) : Prop :=
  tf_grant_type form = Some (lit "authorization_code") /\
  pkce_ok (default [] (tf_code_verifier form)) (az_code_challenge (ap_auth ap)) = true.

Record oauth_inv (authorized : list Authorization) (approved : list Approval) (issued : list TokenForm)
  (replayed : list FamilyId) (a : Accounts) : Prop := {
  oi_clients : NoDup (map cl_id (ac_clients a));
  oi_uris c u : c ∈ ac_clients a -> u ∈ cl_redirect_uris c -> redirect_ok server u = true;
  oi_web c g : c ∈ ac_clients a -> cl_agent c = Some g -> web_agent (ac_db a) g;
  oi_keyed : keyed (ac_db a);
  oi_bound t : t ∈ ac_tokens a -> exists c, c ∈ ac_clients a /\ cl_id c = to_client t /\ cl_agent c = Some (to_agent t);
  oi_hashes : NoDup (map to_hash (ac_tokens a));
  oi_approved t : t ∈ ac_tokens a -> exists ap, ap ∈ approved /\ approved_for ap t /\
    (to_kind t <> TCode -> exists form, form ∈ issued /\ verified_by ap form);
  oi_families : NoDup (map ap_family approved);
  oi_authorized az : az ∈ authorized -> redirect_ok server (az_redirect_uri az) = true;
  oi_redirects ap : ap ∈ approved -> ap_auth ap ∈ authorized /\ ap_uri ap = az_redirect_uri (ap_auth ap);
  oi_together t t' : t ∈ ac_tokens a -> t' ∈ ac_tokens a -> to_family t = to_family t' ->
    to_revoked_at t <> None -> to_revoked_at t' <> None;
  oi_used form : form ∈ issued -> exists t, t ∈ ac_tokens a /\ (to_kind t, to_hash t) = consumed form /\
    to_used_at t <> None;
  oi_once : NoDup (map consumed issued);
  oi_replayed f t : f ∈ replayed -> t ∈ ac_tokens a -> to_family t = f -> to_revoked_at t <> None;
  oi_known f : f ∈ replayed -> f ∈ map ap_family approved;
}.
#[local] Hint Resolve oi_clients oi_uris oi_web oi_keyed oi_bound oi_hashes oi_approved oi_families oi_authorized oi_redirects
  oi_together oi_used oi_once oi_replayed oi_known : oauth.

(** *** Tokens marked used or revoked *)

Record token_le (t t' : TokenRow) : Prop := {
  tl_same : (to_id t', to_kind t', to_hash t', to_client t', to_agent t', to_family t', to_expires_at t',
             to_challenge t', to_redirect_uri t', to_authorized_by t')
          = (to_id t, to_kind t, to_hash t, to_client t, to_agent t, to_family t, to_expires_at t,
             to_challenge t, to_redirect_uri t, to_authorized_by t);
  tl_used : to_used_at t <> None -> to_used_at t' <> None;
  tl_revoked : to_revoked_at t <> None -> to_revoked_at t' <> None;
}.
Lemma token_le_refl t : token_le t t.
Proof. done. Qed.
Lemma token_le_used now t : token_le t (token_used now t).
Proof. by constructor. Qed.
Lemma token_le_revoked now t : token_le t (token_revoked now t).
Proof. by constructor. Qed.
#[local] Hint Resolve token_le_refl token_le_used token_le_revoked : oauth.

Definition marked (p : TokenRow -> bool) (f : TokenRow -> TokenRow) (l : list TokenRow) : list TokenRow :=
  map (fun t => if p t then f t else t) l.
Lemma update_tokens_ok p f a n a' : update_tokens p f a = Ok (n, a') ->
  a' = with_tokens a (marked p f (ac_tokens a)) /\ n = length (List.filter p (ac_tokens a)).
Proof. unfold update_tokens, update_where. intros Hr. act_ok. Qed.

(** Whole families are revoked, or none of it. *)
Definition together (l : list TokenRow) : Prop := forall t t', t ∈ l -> t' ∈ l -> to_family t = to_family t' ->
  to_revoked_at t <> None -> to_revoked_at t' <> None.
Lemma inv_marked authorized approved issued replayed a p f : (forall t, token_le t (f t)) ->
  together (marked p f (ac_tokens a)) ->
  oauth_inv authorized approved issued replayed a ->
  oauth_inv authorized approved issued replayed (with_tokens a (marked p f (ac_tokens a))).
Proof.
  intros Hf Htog Hi. set (g := fun t => if p t then f t else t).
  assert (Hg : forall t, token_le t (g t)) by (intros t; unfold g; destruct (p t); auto with oauth).
  assert (Hh : map to_hash (map g (ac_tokens a)) = map to_hash (ac_tokens a)).
  { rewrite map_map. apply map_ext. intros t. pose proof (tl_same _ _ (Hg t)). congruence. }
  unfold marked. fold g. constructor; cbn [with_tokens ac_tokens ac_clients ac_db]; try solve [eauto with oauth].
  - intros t (x & -> & Hx)%list_elem_of_fmap. destruct (oi_bound _ _ _ _ _ Hi x Hx) as (c & Hc & E & Ea).
    pose proof (tl_same _ _ (Hg x)). exists c. split_and!; [done|congruence..].
  - rewrite Hh. eauto with oauth.
  - intros t (x & -> & Hx)%list_elem_of_fmap. destruct (oi_approved _ _ _ _ _ Hi x Hx) as (ap & Hap & (E1 & E2 & E3 & E4 & E5) & Hk).
    pose proof (tl_same _ _ (Hg x)). exists ap. split_and!; [done| |intros Hne; apply Hk; congruence].
    split_and!; [congruence..|]. intros Hc. destruct E5 as (? & ? & ?); [congruence|]. split_and!; congruence.
  - intros form (x & Hx & E & Hu)%(oi_used _ _ _ _ _ Hi). exists (g x). split_and!; [by apply list_elem_of_fmap_2| |].
    + pose proof (tl_same _ _ (Hg x)). rewrite <- E. congruence.
    + by apply (tl_used _ _ (Hg x)).
  - intros fam t Hfam (x & -> & Hx)%list_elem_of_fmap Et. apply (tl_revoked _ _ (Hg x)).
    apply (oi_replayed _ _ _ _ _ Hi fam); [done..|]. pose proof (tl_same _ _ (Hg x)). congruence.
Qed.
(** Marking used leaves what is revoked; marking families or clients revoked
    takes whole families. *)
Lemma together_used authorized approved issued replayed a p now : oauth_inv authorized approved issued replayed a ->
  together (marked p (token_used now) (ac_tokens a)).
Proof.
  intros Hi t t' (x & -> & Hx)%list_elem_of_fmap (y & -> & Hy)%list_elem_of_fmap.
  pose proof (oi_together _ _ _ _ _ Hi x y Hx Hy). by destruct (p x), (p y).
Qed.
Lemma together_revoked (sel : TokenRow -> bool) now (l : list TokenRow) : together l ->
  (forall t t', t ∈ l -> t' ∈ l -> to_family t = to_family t' -> sel t = sel t') ->
  together (marked (fun t => sel t && is_none (to_revoked_at t)) (token_revoked now) l).
Proof.
  intros Hl Hsel t t' (x & -> & Hx)%list_elem_of_fmap (y & -> & Hy)%list_elem_of_fmap. pose proof (Hl x y Hx Hy) as Hxy.
  assert (Hfam : forall z, to_family (if sel z && is_none (to_revoked_at z) then token_revoked now z else z) = to_family z)
    by (intros z; by destruct (_ && _)).
  rewrite !Hfam. intros E. rewrite (Hsel x y Hx Hy E). destruct (sel y); cbn [andb]; [|by apply Hxy].
  intros _. by destruct (to_revoked_at y) eqn:Ey; cbn [is_none]; [rewrite Ey|].
Qed.
(** A family is of one client. *)
Lemma family_client authorized approved issued replayed a t t' : oauth_inv authorized approved issued replayed a ->
  t ∈ ac_tokens a -> t' ∈ ac_tokens a -> to_family t = to_family t' -> to_client t = to_client t'.
Proof.
  intros Hi Ht Ht' E. destruct (oi_approved _ _ _ _ _ Hi t Ht) as (ap & Hap & (E1 & E2 & _) & _).
  destruct (oi_approved _ _ _ _ _ Hi t' Ht') as (ap' & Hap' & (E1' & E2' & _) & _).
  assert (ap = ap') as -> by (apply (NoDup_map_inj ap_family approved); [eauto with oauth|done..|congruence]). congruence.
Qed.

(** *** Clients *)

Record client_le (db : Database) (c c' : ClientRow) : Prop := {
  cle_same : (cl_id c', cl_redirect_uris c') = (cl_id c, cl_redirect_uris c);
  cle_bound g : cl_agent c = Some g -> cl_agent c' = Some g;
  cle_web g : cl_agent c' = Some g -> cl_agent c = Some g \/ web_agent db g;
  cle_revoked : cl_revoked c <> None -> cl_revoked c' <> None;
}.
Lemma client_le_refl db c : client_le db c c.
Proof. constructor; auto. Qed.
Lemma client_le_used db now c : client_le db c (client_used now c).
Proof. constructor; auto. Qed.
Lemma client_le_revoked db now c : client_le db c (client_revoked now c).
Proof. constructor; auto. cbn. by destruct (cl_revoked c). Qed.
Definition changed (p : ClientRow -> bool) (f : ClientRow -> ClientRow) (l : list ClientRow) : list ClientRow :=
  map (fun c => if p c then f c else c) l.
Lemma update_clients_ok p f a n a' : update_clients p f a = Ok (n, a') ->
  a' = with_clients a (changed p f (ac_clients a)) /\ n = length (List.filter p (ac_clients a)).
Proof. unfold update_clients, update_where. intros Hr. act_ok. Qed.
Lemma changed_ids db p f l : (forall c, p c = true -> client_le db c (f c)) -> map cl_id (changed p f l) = map cl_id l.
Proof.
  intros Hf. unfold changed. rewrite map_map. apply map_ext. intros c. destruct (p c) eqn:E; [|done].
  pose proof (cle_same _ _ _ (Hf c E)). congruence.
Qed.

Lemma inv_changed authorized approved issued replayed a p f : (forall c, p c = true -> client_le (ac_db a) c (f c)) ->
  oauth_inv authorized approved issued replayed a ->
  oauth_inv authorized approved issued replayed (with_clients a (changed p f (ac_clients a))).
Proof.
  intros Hf Hi. pose proof (changed_ids _ p f (ac_clients a) Hf) as Hids.
  set (g := fun c => if p c then f c else c). assert (Hg : forall c, client_le (ac_db a) c (g c)).
  { intros c. unfold g. destruct (p c) eqn:E; [auto|apply client_le_refl]. }
  unfold changed in *. fold g in Hids |- *.
  constructor; cbn [with_clients ac_tokens ac_clients ac_db]; try solve [eauto with oauth].
  - rewrite Hids. eauto with oauth.
  - intros c u (x & -> & Hx)%list_elem_of_fmap Hu. apply (oi_uris _ _ _ _ _ Hi x u Hx).
    pose proof (cle_same _ _ _ (Hg x)). congruence.
  - intros c ag (x & -> & Hx)%list_elem_of_fmap Ha. destruct (cle_web _ _ _ (Hg x) ag Ha); [|done].
    by apply (oi_web _ _ _ _ _ Hi x).
  - intros t Ht. destruct (oi_bound _ _ _ _ _ Hi t Ht) as (c & Hc & E & Ea). exists (g c).
    pose proof (cle_same _ _ _ (Hg c)). split_and!; [by apply list_elem_of_fmap_2|congruence|].
    by apply (cle_bound _ _ _ (Hg c)).
Qed.

(** Clients without tokens go. *)
Lemma inv_deleted authorized approved issued replayed a gone :
  (forall c, c ∈ ac_clients a -> gone c = true -> has_tokens a c = false) ->
  oauth_inv authorized approved issued replayed a ->
  oauth_inv authorized approved issued replayed (with_clients a (List.filter (fun c => negb (gone c)) (ac_clients a))).
Proof.
  intros Hg Hi. assert (Hin : forall c, c ∈ List.filter (fun c => negb (gone c)) (ac_clients a) <-> c ∈ ac_clients a /\ gone c = false).
  { intros c. rewrite !list_elem_of_In, filter_In, negb_true_iff. done. }
  constructor; cbn [with_clients ac_tokens ac_clients ac_db]; try solve [eauto with oauth].
  - assert (Hs : forall l, NoDup (map cl_id l) -> NoDup (map cl_id (List.filter (fun c => negb (gone c)) l))).
    { induction l as [|c l IH]; [done|]. cbn [map List.filter]. intros [Hc Hl]%NoDup_cons. destruct (gone c); cbn; [auto|].
      apply NoDup_cons. split; [|auto]. intros (x & E & Hx%list_elem_of_In%filter_In)%list_elem_of_fmap.
      apply Hc. rewrite E. apply list_elem_of_fmap_2, list_elem_of_In, Hx. }
    apply Hs. eauto with oauth.
  - intros c u [Hc _]%Hin. eauto with oauth.
  - intros c g [Hc _]%Hin. eauto with oauth.
  - intros t Ht. destruct (oi_bound _ _ _ _ _ Hi t Ht) as (c & Hc & E & Ea). exists c. split_and!; [|done..].
    apply Hin. split; [done|]. destruct (gone c) eqn:Eg; [|done]. specialize (Hg c Hc Eg).
    unfold has_tokens in Hg. apply existsb_false, Forall_forall with (x := t) in Hg; [|by apply list_elem_of_In, list_elem_of_In].
    cbv beta in Hg. by rewrite (proj2 (str_eqb_true _ _) (eq_sym E)) in Hg.
Qed.

Lemma insert_client_ok id name uris secret now a c a' : insert_client id name uris secret now a = Ok (c, a') ->
  c = mkClient id name uris secret None None None now /\ a' = with_clients a (ac_clients a ++ [c]) /\
  id ∉ map cl_id (ac_clients a).
Proof.
  unfold insert_client. intros Hr. act_ok. destruct (negb (client_checks _)); [act_ok|].
  destruct (existsb _ _) eqn:Ex; [act_ok|]. act_ok. split_and!; [done..|].
  intros (x & -> & Hx)%list_elem_of_fmap. apply existsb_false, Forall_forall with (x := x) in Ex; [|done].
  cbv beta in Ex. by rewrite (proj2 (str_eqb_true _ _) eq_refl) in Ex.
Qed.
Lemma inv_insert_client authorized approved issued replayed a id name uris secret now c a' :
  insert_client id name uris secret now a = Ok (c, a') -> (forall u, u ∈ uris -> redirect_ok server u = true) ->
  oauth_inv authorized approved issued replayed a -> oauth_inv authorized approved issued replayed a'.
Proof.
  intros (-> & -> & Hid)%insert_client_ok Hu Hi. constructor; cbn [with_clients ac_tokens ac_clients ac_db]; try solve [eauto with oauth].
  - rewrite map_app. apply NoDup_app. split_and!; [eauto with oauth| |apply NoDup_singleton].
    intros i Hin ->%list_elem_of_singleton. done.
  - intros c u [Hc| ->%list_elem_of_singleton]%elem_of_app Hin; [eauto with oauth|auto].
  - intros c g [Hc| ->%list_elem_of_singleton]%elem_of_app Hg; [eauto with oauth|done].
  - intros t Ht. destruct (oi_bound _ _ _ _ _ Hi t Ht) as (c & Hc & E). exists c. split; [apply elem_of_app; by left|done].
Qed.

(** *** New tokens *)

Lemma insert_token_ok t a t' a' : insert_token t a = Ok (t', a') ->
  t' = t /\ a' = with_tokens a (ac_tokens a ++ [t]) /\ to_hash t ∉ map to_hash (ac_tokens a).
Proof.
  unfold insert_token. intros Hr. act_ok. destruct (negb (token_checks t)); [act_ok|].
  destruct (existsb _ _) eqn:Ex; [act_ok|]. destruct (_ || _); act_ok. split_and!; [done..|].
  intros (x & E & Hx)%list_elem_of_fmap. apply existsb_false, Forall_forall with (x := x) in Ex; [|done].
  cbv beta in Ex. rewrite E, (proj2 (str_eqb_true _ _) eq_refl), orb_true_r in Ex. done.
Qed.
Lemma inv_insert_token authorized approved issued replayed a t t' a' ap : insert_token t a = Ok (t', a') ->
  (exists c, c ∈ ac_clients a /\ cl_id c = to_client t /\ cl_agent c = Some (to_agent t)) ->
  ap ∈ approved -> approved_for ap t ->
  (to_kind t <> TCode -> exists form, form ∈ issued /\ verified_by ap form) ->
  to_family t ∉ replayed -> to_revoked_at t = None ->
  (forall x, x ∈ ac_tokens a -> to_family x = to_family t -> to_revoked_at x = None) ->
  oauth_inv authorized approved issued replayed a -> oauth_inv authorized approved issued replayed a'.
Proof.
  intros (-> & -> & Hh)%insert_token_ok Hc Hap Hfor Hk Hr Hnew Hlive Hi.
  constructor; cbn [with_tokens ac_tokens ac_clients ac_db]; try solve [eauto with oauth].
  - intros x [Hx| ->%list_elem_of_singleton]%elem_of_app; [eauto with oauth|done].
  - rewrite map_app. apply NoDup_app. split_and!; [eauto with oauth| |apply NoDup_singleton].
    intros i Hin ->%list_elem_of_singleton. done.
  - intros x [Hx| ->%list_elem_of_singleton]%elem_of_app; [eauto with oauth|]. by exists ap.
  - intros x y [Hx| ->%list_elem_of_singleton]%elem_of_app [Hy| ->%list_elem_of_singleton]%elem_of_app E Hrev;
      [eauto with oauth| | |done].
    + by rewrite (Hlive x Hx E) in Hrev.
    + done.
  - intros form Hf. destruct (oi_used _ _ _ _ _ Hi form Hf) as (x & Hx & E). exists x. split; [apply elem_of_app; by left|done].
  - intros f x Hf [Hx| ->%list_elem_of_singleton]%elem_of_app E; [eauto with oauth|]. by subst.
Qed.

(** *** Agents *)

Lemma inv_db authorized approved issued replayed a db : keyed db ->
  (forall g, is_bound_in a g = true -> web_agent (ac_db a) g -> web_agent db g) ->
  oauth_inv authorized approved issued replayed a -> oauth_inv authorized approved issued replayed (with_db a db).
Proof.
  intros Hk Hw Hi. constructor; cbn [with_db ac_tokens ac_clients ac_db]; try solve [eauto with oauth].
  intros c g Hc Hg. apply Hw; [|eauto with oauth]. unfold is_bound_in. apply existsb_exists.
  exists c. split; [by apply list_elem_of_In|by apply bool_decide_eq_true].
Qed.

(** ** What the operations keep *)

(** Live clients, and those nobody authorized. *)
Definition live_clients (a : Accounts) : nat := length (List.filter client_live (ac_clients a)).
Definition open_clients (a : Accounts) : nat :=
  length (List.filter (fun c => client_live c && negb (client_bound c)) (ac_clients a)).
Record safe (a a' : Accounts) : Prop := {
  sf_live : live_clients a' <= live_clients a;
  sf_open : open_clients a' <= open_clients a;
  sf_inv authorized approved issued replayed :
    oauth_inv authorized approved issued replayed a -> oauth_inv authorized approved issued replayed a';
}.
#[local] Instance safe_preorder : PreOrder safe.
Proof. split; [by constructor|]. intros a b c [] []. constructor; [lia..|auto]. Qed.

Lemma filter_map_le {A} (p : A -> bool) (g : A -> A) l : (forall x, p (g x) = true -> p x = true) ->
  length (List.filter p (map g l)) <= length (List.filter p l).
Proof.
  intros Hg. induction l as [|x l IH]; [done|]. cbn [map List.filter].
  destruct (p (g x)) eqn:E; [rewrite (Hg x E); cbn; lia|destruct (p x); cbn; lia].
Qed.
Lemma filter_filter_le {A} (p q : A -> bool) l : length (List.filter p (List.filter q l)) <= length (List.filter p l).
Proof. induction l as [|x l IH]; [done|]. cbn [List.filter]. destruct (q x); cbn [List.filter]; destruct (p x); cbn; lia. Qed.

Lemma safe_used a p now : safe a (with_tokens a (marked p (token_used now) (ac_tokens a))).
Proof. constructor; [done..|]. intros. apply inv_marked; [auto with oauth|by eapply together_used|done]. Qed.
Lemma safe_family a f now : safe a (with_tokens a
  (marked (fun t => N.eqb (to_family t) f && is_none (to_revoked_at t)) (token_revoked now) (ac_tokens a))).
Proof.
  constructor; [done..|]. intros az ap iss rep Hi. apply inv_marked; [auto with oauth| |done].
  apply together_revoked; [intros t t'; eauto with oauth|]. by intros t t' _ _ ->.
Qed.
Lemma safe_client a id now : safe a (with_tokens a
  (marked (fun t => str_eqb (to_client t) id && is_none (to_revoked_at t)) (token_revoked now) (ac_tokens a))).
Proof.
  constructor; [done..|]. intros az ap iss rep Hi. apply inv_marked; [auto with oauth| |done].
  apply together_revoked; [intros t t'; eauto with oauth|]. intros t t' Ht Ht' E. by rewrite (family_client _ _ _ _ _ _ _ Hi Ht Ht' E).
Qed.
Lemma safe_clients a p f : (forall c, p c = true -> client_le (ac_db a) c (f c)) ->
  safe a (with_clients a (changed p f (ac_clients a))).
Proof.
  intros Hf. set (g := fun c => if p c then f c else c). assert (Hg : forall c, client_le (ac_db a) c (g c)).
  { intros c. unfold g. destruct (p c) eqn:E; [auto|apply client_le_refl]. }
  assert (Hl : forall c, client_live (g c) = true -> client_live c = true).
  { intros c. unfold client_live. pose proof (cle_revoked _ _ _ (Hg c)) as Hr. destruct (cl_revoked c); [|done].
    destruct (cl_revoked (g c)); [done|]. by destruct Hr. }
  constructor; [by apply filter_map_le| |intros; by apply inv_changed].
  apply filter_map_le. intros c [Hc Hb]%andb_true_iff. change (negb (client_bound (g c)) = true) in Hb.
  apply andb_true_iff. split; [exact (Hl c Hc)|].
  apply negb_true_iff in Hb. apply negb_true_iff. unfold client_bound in *.
  destruct (cl_agent c) as [ag|] eqn:E; [|done]. by rewrite (cle_bound _ _ _ (Hg c) ag E) in Hb.
Qed.
Lemma safe_deleted a gone : (forall c, c ∈ ac_clients a -> gone c = true -> has_tokens a c = false) ->
  safe a (with_clients a (List.filter (fun c => negb (gone c)) (ac_clients a))).
Proof. intros Hg. constructor; [apply filter_filter_le..|]. intros. by apply inv_deleted. Qed.

Lemma revoke_family_ok f now a n a' : revoke_family f now a = Ok (n, a') ->
  a' = with_tokens a (marked (fun t => N.eqb (to_family t) f && is_none (to_revoked_at t)) (token_revoked now) (ac_tokens a)).
Proof. by intros [-> _]%update_tokens_ok. Qed.
Lemma revoke_family_safe f now a n a' : revoke_family f now a = Ok (n, a') -> safe a a'.
Proof. intros ->%revoke_family_ok. apply safe_family. Qed.
Lemma revoke_safe token now a a' : revoke token now a = Ok (tt, a') -> safe a a'.
Proof.
  assert (Hk : forall kind b b', revoke_kind token now kind b = Ok (tt, b') -> safe b b').
  { unfold revoke_kind. intros kind b b' Hr. act_ok1. unfold find_live in Hm. act_ok1.
    destruct (find _ _); act_ok. by eapply revoke_family_safe. }
  unfold revoke. destruct token as [|ch0 token]; intros Hr; act_ok.
  destruct x. etransitivity; eauto.
Qed.
Lemma touch_client_safe id now a a' : touch_client id now a = Ok (tt, a') -> safe a a' /\ ac_tokens a' = ac_tokens a.
Proof.
  unfold touch_client. intros Hr. act_ok. apply update_clients_ok in Hm as [-> _]. split; [|done].
  apply safe_clients. intros. apply client_le_used.
Qed.
Lemma revoke_connector_safe id now r a a' : revoke_connector id now a = Ok (r, a') -> safe a a'.
Proof.
  unfold revoke_connector, revoke_client. intros Hr. act_ok. apply update_clients_ok in Hm0 as [-> _].
  apply update_tokens_ok in Hm1 as [-> _]. etransitivity; [|apply safe_client].
  apply safe_clients. intros. apply client_le_revoked.
Qed.

(** *** Clients and their agents *)

Lemma client_ok id now a c a' : client id now a = Ok (c, a') ->
  a' = a /\ forall x, c = Some x -> x ∈ ac_clients a /\ cl_id x = id.
Proof.
  unfold client. destruct id as [|ch0 id]; intros Hr; act_ok. unfold get_client in Hm. act_ok.
  split; [done|]. intros x. destruct (find _ _) as [y|] eqn:E; [|done]. destruct (client_current now y); [|done].
  intros [= ->]. apply find_some in E as [? E%str_eqb_true]. split; [by apply list_elem_of_In|done].
Qed.
Lemma authenticate_ok form basic now a r a' : authenticate form basic now a = Ok (r, a') ->
  a' = a /\ forall c, r = Ok c -> c ∈ ac_clients a.
Proof.
  unfold authenticate. intros Hr. act_ok. apply client_ok in Hm as [-> Hc]. split; [done|].
  intros c0. destruct x as [x|]; [|done]. destruct (Hc x eq_refl) as [? _].
  destruct (cl_secret_hash x); [destruct (_ || _)|]; congruence.
Qed.

Lemma insert_agent_ok n a x a' : keyed (ac_db a) -> insert_agent n a = Ok (x, a') ->
  x = new_row n /\ a' = put_agent x a /\ db_agents (ac_db a) !! na_id n = None.
Proof.
  unfold insert_agent, insert_row. intros Hk Hr. act_ok. destruct (negb (agent_checks _)); [act_ok|].
  destruct (existsb _ _) eqn:Ex; [act_ok|]. destruct (negb (refs_known _ _)); act_ok. split_and!; [done..|].
  match goal with |- db_agents (ac_db ?b) !! _ = None => rename b into a0 end.
  destruct (db_agents (ac_db a0) !! na_id n) as [y|] eqn:Ey; [|done]. exfalso.
  apply existsb_false, Forall_forall with (x := y) in Ex; [|apply all_rows_elem; eauto]. revert Ex. unfold rows_clash.
  rewrite (Hk _ _ Ey). by rewrite (proj2 (N.eqb_eq _ _) eq_refl).
Qed.

Lemma put_agent_safe a x : keyed (ac_db a) -> db_agents (ac_db a) !! ag_id x = None -> safe a (put_agent x a).
Proof.
  intros Hk Hn. unfold put_agent. constructor; [done..|]. intros authorized approved issued replayed Hi.
  apply inv_db; [| |done].
  - intros k y. cbn. destruct (decide (k = ag_id x)) as [->|Hne]; [rewrite lookup_insert_eq|rewrite lookup_insert_ne by done; auto].
    by intros [= ->].
  - intros g _ (y & Hy & Hw). exists y. split; [|done]. cbn. rewrite lookup_insert_ne; [done|]. congruence.
Qed.

Lemma changed_none p f l : existsb p l = false -> changed p f l = l.
Proof.
  intros Hp%existsb_false. unfold changed. induction Hp as [|c l Hc _ IH]; [done|]. cbn [map]. by rewrite Hc, IH.
Qed.
Lemma bind_client_ok id g a ok a' : bind_client id g a = Ok (ok, a') ->
  safe a a' /\ ac_tokens a' = ac_tokens a /\ ac_db a' = ac_db a /\
  (ok = true -> exists c, c ∈ ac_clients a' /\ cl_id c = id /\ cl_agent c = Some g).
Proof.
  unfold bind_client. intros Hr. act_ok1. act_ok1. destruct (_ && _) eqn:E in Hr; [act_ok|]. act_ok.
  apply update_clients_ok in Hm as [-> ->]. split_and!; [|done..|].
  - destruct (existsb _ _) eqn:Ex in E.
    + cbn in E. apply negb_false_iff, bool_decide_eq_true in E. apply safe_clients. intros c Hp.
      constructor; cbn; [done| |intros g' [= <-]; right|done].
      * intros g' Hg. unfold bindable in Hp. rewrite Hg in Hp. cbn in Hp.
        by apply andb_true_iff in Hp as [_ ->%N.eqb_eq].
      * destruct (db_agents (ac_db _) !! g) as [y|] eqn:Ey; [|done]. by exists y.
    + rewrite changed_none by done. by destruct a0.
  - intros (c & Hc & Hp)%Nat.eqb_eq%filter_one. exists (bound_to g c). split_and!; [| |done].
    + apply list_elem_of_fmap. exists c. by rewrite Hp.
    + cbn. unfold bindable in Hp. rewrite !andb_true_iff, str_eqb_true in Hp. apply Hp.
Qed.

Lemma on_db_read {E A} (f : Database -> A) a : on_db (E := E) (tx_read f) a = Ok (f (ac_db a), a).
Proof. unfold on_db, tx_read. by destruct a. Qed.
Lemma on_db_read_ok {E A} (f : Database -> A) a x a' : on_db (E := E) (tx_read f) a = Ok (x, a') -> x = f (ac_db a) /\ a' = a.
Proof. rewrite on_db_read. by intros [= <- <-]. Qed.

Lemma connector_agent_ok c label by_ d now a g a' : keyed (ac_db a) -> c ∈ ac_clients a ->
  connector_agent c label by_ d now a = Ok (Ok g, a') ->
  safe a a' /\ ac_tokens a' = ac_tokens a /\
  exists c', c' ∈ ac_clients a' /\ cl_id c' = cl_id c /\ cl_agent c' = Some (ag_id g).
Proof.
  intros Hk Hc. unfold connector_agent. intros Hr. act_ok1.
  assert (Hx : a0 = a /\ x = (id ← cl_agent c; db_agents (ac_db a) !! id)).
  { destruct (cl_agent c); [by apply on_db_read_ok in Hm as [-> ->]|by act_ok]. }
  destruct Hx as [-> ->]. clear Hm. destruct (id ← cl_agent c; _) as [x|] eqn:Ex.
  { act_ok. destruct (cl_agent c) as [id|] eqn:Ea; [|done]. cbn in Ex. split_and!; [done..|].
    exists c. split_and!; [done..|]. rewrite Ea. f_equal. symmetry. by apply Hk. }
  destruct (negb (name_ok _)); [act_ok|]. act_ok1. apply on_db_read_ok in Hm as [-> ->].
  set (name := connector_name label) in *. act_ok1. rename x into row. destruct row as [row|]; [|act_ok]. act_ok1.
  assert (Hrow : safe a a0 /\ ac_tokens a0 = ac_tokens a /\ ac_clients a0 = ac_clients a).
  { destruct (find _ _) as [y|] eqn:Ey; [by act_ok; destruct (bool_decide _)|].
    act_ok. apply insert_agent_ok in Hm1 as (-> & -> & Hn); [|done]. split_and!; [|done..]. by apply put_agent_safe. }
  destruct x; act_ok. apply bind_client_ok in Hm0 as (Hs & Ht & _ & Hb). destruct Hrow as (Hs0 & Ht0 & _).
  split_and!; [by transitivity a0|congruence|auto].
Qed.

(** ** Approvals *)

(** A code is made for the client's agent, once the person agreed. *)
Lemma approve_ok auth label by_ d now a r a' : keyed (ac_db a) ->
  approve auth label by_ d now a = Ok (Committed r, a') -> exists c g a1,
  r = Ok (CODE_PREFIX ++ token_urlsafe (dr_code d)) /\ safe a a1 /\ ac_tokens a1 = ac_tokens a /\ cl_id c = az_client_id auth /\
  (exists c', c' ∈ ac_clients a1 /\ cl_id c' = cl_id c /\ cl_agent c' = Some (ag_id g)) /\
  insert_token (code_row auth c (ag_id g) by_ d now) a1 = Ok (code_row auth c (ag_id g) by_ d now, a').
Proof.
  intros Hk. unfold approve. intros Hr. act_ok1. apply client_ok in Hm as [-> Hc]. destruct x as [c|]; [|act_ok].
  destruct (Hc c eq_refl) as [Hin Hid]. act_ok1. destruct x as [g|]; [|act_ok].
  apply connector_agent_ok in Hm as (Hs & Ht & Hb); [|done..]. destruct (ag_disabled g); [act_ok|]. act_ok.
  pose proof (insert_token_ok _ _ _ _ Hm) as (-> & _). eauto 12.
Qed.

(** ** Exchanges *)

Lemma consume_ok h kind c now a out a' : consume h kind c now a = Ok (out, a') ->
  match out with
  | Unknown => a' = a /\ find (fun t => presented h kind c now t && negb (is_none (to_used_at t))) (ac_tokens a) = None
      \/ a' = a /\ kind = TAccess
  | Replayed f _ => to_family <$> find (fun t => presented h kind c now t && negb (is_none (to_used_at t))) (ac_tokens a) = Some f /\
                    a' = with_tokens a (marked (fun t => N.eqb (to_family t) f && is_none (to_revoked_at t))
                                        (token_revoked now) (ac_tokens a))
  | Fresh row => exists t, t ∈ ac_tokens a /\ row = token_used now t /\ presented h kind c now t && is_none (to_used_at t) = true /\ to_hash t = h /\ to_kind t = kind /\
      to_used_at t = None /\ to_revoked_at t = None /\ to_client t = c /\
      a' = with_tokens a (marked (fun t => presented h kind c now t && is_none (to_used_at t)) (token_used now) (ac_tokens a))
  end.
Proof.
  unfold consume. destruct (bool_decide (kind = TAccess)) eqn:Ek.
  { apply bool_decide_eq_true in Ek. intros Hr. act_ok. by right. }
  intros Hr. act_ok1. act_ok1. destruct (find _ _) as [t|] eqn:Et in Hr.
  - act_ok. apply update_tokens_ok in Hm as [-> _]. exists t. apply find_some in Et as [Hin Hp].
    pose proof Hp as Hp'. unfold presented in Hp. rewrite !andb_true_iff, !str_eqb_true, bool_decide_eq_true in Hp.
    destruct Hp as (((((? & ?) & ?) & Hr') & _) & Hu). split_and!; try done.
    + by apply list_elem_of_In.
    + by destruct (to_used_at t).
    + by destruct (to_revoked_at t).
  - destruct (find _ _) as [t|] eqn:Eu in Hr; [|act_ok; by left]. act_ok. apply revoke_family_ok in Hm.
    by rewrite Eu.
Qed.

Lemma inv_consumed authorized approved issued replayed a form t p now :
  t ∈ ac_tokens a -> (to_kind t, to_hash t) = consumed form -> to_used_at t = None -> p t = true ->
  oauth_inv authorized approved issued replayed a ->
  oauth_inv authorized approved (form :: issued) replayed (with_tokens a (marked p (token_used now) (ac_tokens a))).
Proof.
  intros Ht Hc Hu Hp Hi.
  assert (Hm : oauth_inv authorized approved issued replayed (with_tokens a (marked p (token_used now) (ac_tokens a)))).
  { by apply safe_used. }
  constructor; try solve [eauto with oauth].
  - intros x Hx. destruct (oi_approved _ _ _ _ _ Hm x Hx) as (ap & ? & ? & Hk). exists ap. split_and!; [done..|].
    intros (f & ? & ?)%Hk. exists f. split; [by right|done].
  - intros f [->|Hf]%elem_of_cons; [|eauto with oauth]. exists (token_used now t). split_and!; [|done..].
    apply list_elem_of_fmap. exists t. by rewrite Hp.
  - cbn [map]. apply NoDup_cons. split; [|eauto with oauth].
    intros (f & E & (x & Hx & Ex & Hux)%(oi_used _ _ _ _ _ Hi))%list_elem_of_fmap.
    assert (x = t) as ->; [|congruence]. apply (NoDup_map_inj to_hash (ac_tokens a)); [eauto with oauth|done..|]. congruence.
Qed.

(** Fewer live and open clients, or as many. *)
Definition caps_le (a a' : Accounts) : Prop := live_clients a' <= live_clients a /\ open_clients a' <= open_clients a.
Lemma safe_caps a a' : safe a a' -> caps_le a a'.
Proof. by intros []. Qed.

(** What entitles a client to a pair of tokens of a family. *)
Record entitled (approved : list Approval) (issued : list TokenForm) (replayed : list FamilyId) (a : Accounts)
  (id : str) (agent : AgentId) (family : FamilyId) (by_ : str) : Prop := {
  en_bound : exists c, c ∈ ac_clients a /\ cl_id c = id /\ cl_agent c = Some agent;
  en_approval : exists ap, ap ∈ approved /\ ap_family ap = family /\ az_client_id (ap_auth ap) = id /\
    ap_agent ap = agent /\ by_ = take 128 (ap_by ap) /\ exists f, f ∈ issued /\ verified_by ap f;
  en_live : family ∉ replayed;
  en_unrevoked : forall t, t ∈ ac_tokens a -> to_family t = family -> to_revoked_at t = None;
}.
Lemma inv_issue authorized approved issued replayed a id kind token ttl c agent family by_ now t a' : kind <> TCode ->
  entitled approved issued replayed a (cl_id c) agent family by_ ->
  insert_token (issued_row id kind token ttl c agent family by_ now) a = Ok (t, a') ->
  oauth_inv authorized approved issued replayed a -> oauth_inv authorized approved issued replayed a' /\ ac_clients a' = ac_clients a.
Proof.
  intros Hk [Hb (ap & Hap & E1 & E2 & E3 & E4 & Hf) Hl Hu] Hr Hi. pose proof (insert_token_ok _ _ _ _ Hr) as (_ & Ea & _).
  split; [|by rewrite Ea]. eapply (inv_insert_token _ _ _ _ _ _ _ _ ap Hr); try done.
Qed.
Lemma pair_ok authorized approved issued replayed a c agent family by_ d now p a' :
  entitled approved issued replayed a (cl_id c) agent family by_ ->
  pair server c agent family by_ d now a = Ok (p, a') ->
  oauth_inv authorized approved issued replayed a -> oauth_inv authorized approved issued replayed a' /\ caps_le a a'.
Proof.
  intros He Hr Hi. unfold pair in Hr. act_ok1.
  pose proof Hm as Hm'. eapply inv_issue in Hm' as [Hi1 E1]; [|done|exact He|exact Hi].
  assert (He1 : entitled approved issued replayed a0 (cl_id c) agent family by_).
  { destruct He. constructor; [by rewrite E1|done..|]. apply insert_token_ok in Hm as (_ & -> & _).
    intros t [Ht| ->%list_elem_of_singleton]%elem_of_app; [by apply en_unrevoked0|done]. }
  clear Hm. act_ok1.
  eapply inv_issue in Hm as [Hi2 E2]; [|done|exact He1|exact Hi1].
  act_ok. match goal with H : touch_client _ _ _ = Ok (?x, _) |- _ => destruct x; apply touch_client_safe in H as [Hs _] end. split; [by apply Hs|].
  destruct (safe_caps _ _ Hs). unfold caps_le, live_clients, open_clients in *. rewrite <- E1, <- E2. done.
Qed.

Lemma entitled_of authorized approved issued replayed a t form a1 :
  oauth_inv authorized approved issued replayed a -> t ∈ ac_tokens a -> to_revoked_at t = None ->
  (forall ap, ap ∈ approved -> approved_for ap t -> to_kind t = TCode -> verified_by ap form) ->
  (exists p now, a1 = with_tokens a (marked p (token_used now) (ac_tokens a))) ->
  entitled approved (form :: issued) replayed a1 (to_client t) (to_agent t) (to_family t) (to_authorized_by t).
Proof.
  intros Hi Ht Hr Hf (p & now & ->). destruct (oi_approved _ _ _ _ _ Hi t Ht) as (ap & Hap & (E1 & E2 & E3 & E4 & E5) & Hk).
  constructor; [cbn [with_tokens ac_clients]; eauto with oauth| | |].
  - exists ap. split_and!; [done..|]. destruct (decide (to_kind t = TCode)) as [Ek|Ek].
    + exists form. split; [by left|]. by apply Hf.
    + destruct (Hk Ek) as (f & ? & ?). exists f. split; [by right|done].
  - intros Hrep. by apply (oi_replayed _ _ _ _ _ Hi _ _ Hrep Ht eq_refl).
  - intros x (y & -> & Hy)%list_elem_of_fmap E.
    assert (E' : to_family y = to_family t) by (by destruct (p y)).
    destruct (to_revoked_at y) as [r|] eqn:Er; [|by destruct (p y)].
    assert (Hry : to_revoked_at y <> None) by (by rewrite Er).
    by pose proof (oi_together _ _ _ _ _ Hi y t Hy Ht E' Hry).
Qed.

(** A token was just marked used for [form]: issuing from it. *)
Lemma issue_from_ok authorized approved issued replayed a c t form p0 d now r a' :
  oauth_inv authorized approved issued replayed a ->
  t ∈ ac_tokens a -> to_client t = cl_id c -> to_used_at t = None -> to_revoked_at t = None -> p0 t = true ->
  (to_kind t, to_hash t) = consumed form ->
  (forall ap, ap ∈ approved -> approved_for ap t -> to_kind t = TCode -> verified_by ap form) ->
  issue_from server c (token_used now t) d now (with_tokens a (marked p0 (token_used now) (ac_tokens a))) = Ok (r, a') ->
  caps_le a a' /\
  match r with
  | Ok _ => oauth_inv authorized approved (form :: issued) replayed a'
  | Err _ => safe a a'
  end.
Proof.
  intros Hi Ht Hcl Hu Hrev Hp Hcons Hf Hr. set (a1 := with_tokens _ _) in Hr.
  assert (Hs : safe a a1) by apply safe_used.
  unfold issue_from, agent_enabled in Hr. act_ok1. act_ok1. apply on_db_read_ok in Hm0 as [-> ->].
  injection Hm as <- <-. destruct (negb _) in Hr.
  { unfold act_ret in Hr. injection Hr as <- <-. split; [by apply safe_caps|done]. }
  act_ok1. unfold act_ret in Hr. injection Hr as <- <-.
  pose proof (entitled_of _ _ _ _ _ _ form a1 Hi Ht Hrev Hf ltac:(by exists p0, now)) as He. rewrite Hcl in He.
  cbn [token_used to_agent to_family to_authorized_by] in Hm.
  pose proof (pair_ok _ _ _ _ _ _ _ _ _ _ _ _ _ He Hm (inv_consumed _ _ _ _ _ _ _ _ _ Ht Hcons Hu Hp Hi)) as [? ?].
  split; done.
Qed.

Lemma revoked_family a f now t :
  t ∈ marked (fun t => N.eqb (to_family t) f && is_none (to_revoked_at t)) (token_revoked now) (ac_tokens a) ->
  to_family t = f -> to_revoked_at t <> None.
Proof.
  unfold marked. intros (x & -> & _)%list_elem_of_fmap. destruct (N.eqb_spec (to_family x) f) as [E|E]; cbn [andb]; [|done].
  intros _. destruct (to_revoked_at x) eqn:Er; cbn [is_none]; [by rewrite Er|done].
Qed.
Lemma inv_replayed authorized approved issued replayed fs a :
  (forall f, f ∈ fs -> (exists t, t ∈ ac_tokens a /\ to_family t = f) /\
    forall t, t ∈ ac_tokens a -> to_family t = f -> to_revoked_at t <> None) ->
  oauth_inv authorized approved issued replayed a -> oauth_inv authorized approved issued (fs ++ replayed) a.
Proof.
  intros Hfs Hi. constructor; try solve [eauto with oauth].
  - intros f t [Hf|Hf]%elem_of_app Ht E; [by apply (Hfs f Hf)|eauto with oauth].
  - intros f [Hf|Hf]%elem_of_app; [|eauto with oauth]. destruct (Hfs f Hf) as [(t & Ht & <-) _].
    destruct (oi_approved _ _ _ _ _ Hi t Ht) as (ap & Hap & (E & _) & _). rewrite <- E. by apply list_elem_of_fmap_2.
Qed.

(** One exchange, whatever it answers: a pair of tokens for a token not used
    before; or a refusal, which revokes what was replayed in time, and of a
    used token changes nothing else. *)
Definition exchanged (authorized : list Authorization) (approved : list Approval) (issued : list TokenForm)
  (replayed : list FamilyId) (form : TokenForm) (basic : option (str * str)) (now : Instant)
  (r : result Refusal TokenPair) (a a' : Accounts) : Prop :=
  caps_le a a' /\
  match r with
  | Ok _ => oauth_inv authorized approved (form :: issued) replayed a' /\
      forall t, t ∈ ac_tokens a -> shows form t -> to_used_at t = None
  | Err _ => oauth_inv authorized approved issued replayed a' /\
      (forall f, replays form basic now a f -> (exists t, t ∈ ac_tokens a' /\ to_family t = f) /\
         forall t, t ∈ ac_tokens a' -> to_family t = f -> to_revoked_at t <> None) /\
      forall t, t ∈ ac_tokens a -> shows form t -> to_used_at t <> None -> a' = a \/ in_time form basic now a t
  end.
(** A refusal that leaves everything, of a form that shows nothing used that
    is still live, or shows it late or not as its client. *)
Lemma refused_same authorized approved issued replayed form basic now e a :
  oauth_inv authorized approved issued replayed a ->
  (forall t, t ∈ ac_tokens a -> shows form t -> to_used_at t <> None -> in_time form basic now a t -> to_revoked_at t <> None) ->
  exchanged authorized approved issued replayed form basic now (Err e) a a.
Proof.
  intros Hi Hs. split; [by split|]. split_and!; [done| |by left].
  intros f (t & Ht & Hu & Hsh & Hin & <-). split; [by exists t|]. intros t' Ht' E.
  apply (oi_together _ _ _ _ _ Hi t t'); [done..|]. by apply (Hs t).
Qed.
(** What follows a consumed code or refresh token. *)
Lemma exchange_consumed authorized approved issued replayed form basic c now kind h a r a' k1 k2 k3 :
  oauth_inv authorized approved issued replayed a -> kind <> TAccess ->
  authenticate form basic now a = Ok (Ok c, a) ->
  (forall t, shows form t <-> to_kind t = kind /\ to_hash t = h) ->
  (let$ out := consume h kind (cl_id c) now in
   match out with Unknown => grant k1 | Replayed _ _ => grant k2 | Fresh row => k3 row end) a = Ok (r, a') ->
  (forall t p, t ∈ ac_tokens a -> to_client t = cl_id c -> to_used_at t = None -> to_revoked_at t = None -> to_kind t = kind ->
     to_hash t = h -> p t = true ->
     k3 (token_used now t) (with_tokens a (marked p (token_used now) (ac_tokens a))) = Ok (r, a') ->
     caps_le a a' /\
     match r with
     | Ok _ => oauth_inv authorized approved (form :: issued) replayed a'
     | Err _ => safe a a'
     end) ->
  exchanged authorized approved issued replayed form basic now r a a'.
Proof.
  intros Hi Hk Hauth Hshows Hr Hf. act_ok1. apply consume_ok in Hm.
  assert (Huniq : forall t t', t ∈ ac_tokens a -> t' ∈ ac_tokens a -> to_hash t = h -> to_hash t' = h -> t = t').
  { intros t t' Ht Ht' E E'. apply (NoDup_map_inj to_hash (ac_tokens a)); [by destruct Hi|done..|congruence]. }
  destruct x as [row|f n|].
  - destruct Hm as (t & Ht & -> & Hp & E1 & E2 & E3 & E4 & E5 & ->).
    destruct (Hf t _ Ht E5 E3 E4 E2 E1 Hp Hr) as [Hcaps Hinv]. split; [done|].
    assert (Honly : forall x, x ∈ ac_tokens a -> shows form x -> to_used_at x = None).
    { intros x Hx [_ Eh]%Hshows. by rewrite (Huniq x t Hx Ht Eh E1). }
    destruct r; [by split|]. split_and!; [by apply Hinv| |].
    + intros f (x & Hx & Hux & Hsh & _). by destruct Hux; apply Honly.
    + intros x Hx Hsh []. by apply Honly.
  - destruct Hm as [Ef ->]. unfold grant in Hr. act_ok. destruct (find _ _) as [x|] eqn:Ex; [|done].
    injection Ef as <-. apply find_some in Ex as [Hx%list_elem_of_In Hp]. unfold presented in Hp.
    rewrite !andb_true_iff, !str_eqb_true, bool_decide_eq_true, Z.ltb_lt in Hp.
    destruct Hp as (((((Eh & Ekind) & Ecl) & _) & Hexp) & _).
    split; [by apply safe_caps, safe_family|]. split_and!; [by apply safe_family| |].
    + intros f (t & Ht & _ & [_ Et]%Hshows & _ & <-). rewrite (Huniq t x Ht Hx Et Eh). split.
      * set (p := fun t => N.eqb (to_family t) (to_family x) && is_none (to_revoked_at t)).
        exists (if p x then token_revoked now x else x). split; [|by destruct (p x)].
        apply list_elem_of_fmap. by exists x.
      * intros t' Ht' E. exact (revoked_family a _ now t' Ht' E).
    + intros t Ht [_ Et]%Hshows _. right. rewrite (Huniq t x Ht Hx Et Eh). split; [done|]. by exists c.
  - destruct Hm as [[-> Hnone]|[_ ?]]; [|done]. unfold grant in Hr. act_ok. apply refused_same; [done|].
    intros t Ht [Ekind Et]%Hshows Hu [Hexp (c' & Hauth' & Ec)].
    pose proof (List.find_none _ _ Hnone t (proj1 (list_elem_of_In _ _) Ht)) as Hp. cbv beta in Hp.
    rewrite Hauth in Hauth'. injection Hauth' as <-.
    unfold presented in Hp. rewrite (proj2 (str_eqb_true _ _) Et), (bool_decide_true _ Ekind), Ec,
      (proj2 (str_eqb_true (to_client t) _) eq_refl), (proj2 (Z.ltb_lt _ _) Hexp) in Hp.
    intros Er. rewrite Er in Hp. cbn in Hp. by destruct (to_used_at t).
Qed.

Lemma exchange_in_ok authorized approved issued replayed form basic d now a r a' :
  oauth_inv authorized approved issued replayed a ->
  exchange_in server form basic d now a = Ok (r, a') ->
  exchanged authorized approved issued replayed form basic now r a a'.
Proof.
  intros Hi. unfold exchange_in. intros Hr. act_ok1. pose proof (authenticate_ok _ _ _ _ _ _ Hm) as [-> Hc].
  destruct x as [c|e].
  2: { act_ok. apply refused_same; [done|]. intros t _ _ _ [_ (c & Ha & _)]. rewrite Hm in Ha. discriminate Ha. }
  destruct (tf_grant_type form) as [g|] eqn:Eg.
  2: { act_ok. apply refused_same; [done|]. intros t _ [[E _]|[E _]] _; congruence. }
  destruct (str_eqb g (lit "authorization_code")) eqn:Ec.
  - apply str_eqb_true in Ec as ->. unfold exchange_code in Hr.
    assert (Econs : consumed form = (TCode, hash (default [] (tf_code form)))).
    { unfold consumed. by rewrite Eg, bool_decide_true. }
    eapply (exchange_consumed _ _ _ _ _ _ _ _ TCode); [done|done|exact Hm| |exact Hr|].
    { intros t. unfold shows. rewrite Eg. split; [by intros [(_ & ?)|([=] & _)]|intros ?; by left]. }
    intros t p Ht Hcl Hu Hrev Hk Hh Hp Hr1. cbv beta zeta in Hr1.
    destruct (negb (str_eqb _ _)) in Hr1.
    { unfold grant in Hr1. act_ok. split; [apply safe_caps|]; apply safe_used. }
    destruct (negb (pkce_ok _ _)) eqn:Ep in Hr1.
    { unfold grant in Hr1. act_ok. split; [apply safe_caps|]; apply safe_used. }
    apply negb_false_iff in Ep. cbn [token_used to_challenge] in Ep.
    eapply issue_from_ok in Hr1; try done.
    + by rewrite Econs, Hk, Hh.
    + intros ap _ (_ & _ & _ & _ & Hcode) Hkc. split; [done|]. destruct (Hcode Hkc) as [Ech _]. by rewrite Ech in Ep.
  - destruct (str_eqb g (lit "refresh_token")) eqn:Er.
    + apply str_eqb_true in Er as ->. unfold exchange_refresh in Hr.
      assert (Econs : consumed form = (TRefresh, hash (default [] (tf_refresh_token form)))).
      { unfold consumed. rewrite Eg, bool_decide_false; [done|]. by intros [=]. }
      eapply (exchange_consumed _ _ _ _ _ _ _ _ TRefresh); [done|done|exact Hm| |exact Hr|].
      { intros t. unfold shows. rewrite Eg. split; [by intros [([=] & _)|(_ & ?)]|intros ?; by right]. }
      intros t p Ht Hcl Hu Hrev Hk Hh Hp Hr1. eapply issue_from_ok in Hr1; try done.
      * by rewrite Econs, Hk, Hh.
      * intros ap _ _ Hkc. congruence.
    + assert (Hn : forall s, str_eqb g s = false -> Some g <> Some s).
      { intros s0 E [= ->]. by rewrite (proj2 (str_eqb_true _ _) eq_refl) in E. }
      act_ok. apply refused_same; [done|]. intros t _ [[E _]|[E _]] _; rewrite Eg in E; exfalso; [by apply (Hn _ Ec)|by apply (Hn _ Er)].
Qed.

(** ** Registration *)

Definition open_client (c : ClientRow) : bool := client_live c && negb (client_bound c).
Lemma unbound_open authorized approved issued replayed a c : oauth_inv authorized approved issued replayed a ->
  c ∈ ac_clients a -> unbound a c = open_client c.
Proof.
  intros Hi Hc. unfold unbound, open_client. rewrite (andb_comm (negb _)).
  destruct (client_live c && negb (client_bound c)) eqn:E; [|done]. cbn. apply negb_true_iff.
  apply existsb_false, Forall_forall. intros t Ht. destruct (str_eqb (to_client t) (cl_id c)) eqn:Et; [|done].
  apply str_eqb_true in Et. destruct (oi_bound _ _ _ _ _ Hi t Ht) as (c' & Hc' & Ei & Ea).
  assert (c' = c) as -> by (apply (NoDup_map_inj cl_id (ac_clients a)); [by destruct Hi|done..|congruence]).
  apply andb_true_iff in E as [_ E]. unfold client_bound in E. by rewrite Ea in E.
Qed.
Lemma insert_newer_perm x l : insert_newer x l ≡ₚ x :: l.
Proof. induction l as [|y l IH]; cbn; [done|]. destruct (newer x y); [done|]. by rewrite IH, Permutation_swap. Qed.
Lemma newest_clients_perm l : newest_clients l ≡ₚ l.
Proof. induction l as [|x l IH]; [done|]. cbn. by rewrite insert_newer_perm, IH. Qed.

Lemma NoDup_filter_ids l p : NoDup (map cl_id l) -> NoDup (List.filter p l).
Proof. intros Hl. apply NoDup_fmap_1 in Hl. apply NoDup_ListNoDup, List.NoDup_filter. by apply NoDup_ListNoDup. Qed.

Lemma evict_ok authorized approved issued replayed keep a n a' : oauth_inv authorized approved issued replayed a ->
  evict_unbound_clients keep a = Ok (n, a') -> safe a a' /\ open_clients a' <= keep.
Proof.
  intros Hi. unfold evict_unbound_clients, delete_clients. intros Hr. act_ok.
  match goal with |- safe ?b _ /\ _ => rename b into a end.
  set (gone := fun c => existsb (str_eqb (cl_id c)) (evicted keep a)).
  set (sorted := newest_clients (List.filter (unbound a) (ac_clients a))).
  assert (Hsorted : forall c, c ∈ sorted <-> c ∈ ac_clients a /\ unbound a c = true).
  { intros c. unfold sorted. rewrite newest_clients_perm, !list_elem_of_In, filter_In. done. }
  assert (Hgone : forall c, gone c = true <-> exists x, x ∈ drop keep sorted /\ cl_id x = cl_id c).
  { intros c. unfold gone, evicted. fold sorted. rewrite existsb_exists. split.
    - intros (i & Hin & E%str_eqb_true). apply list_elem_of_In, list_elem_of_fmap in Hin as (x & -> & Hx). by exists x.
    - intros (x & Hx & E). exists (cl_id x). rewrite E. split; [|by apply str_eqb_true].
      rewrite <- E. by apply list_elem_of_In, list_elem_of_fmap_2. }
  assert (Hdrop : forall x, x ∈ drop keep sorted -> x ∈ sorted).
  { intros x Hx. rewrite <- (take_drop keep sorted). apply elem_of_app. by right. }
  split.
  - apply (safe_deleted a gone). intros c Hc (x & Hx%Hdrop & E)%Hgone. apply Hsorted in Hx as [Hx Hu].
    assert (x = c) as -> by (apply (NoDup_map_inj cl_id (ac_clients a)); [by destruct Hi|done..]).
    unfold unbound in Hu. apply andb_true_iff in Hu as [_ Hu]. by apply negb_true_iff in Hu.
  - unfold open_clients. cbn [with_clients ac_clients]. fold open_client.
    transitivity (length (take keep sorted)); [|rewrite length_take; lia].
    apply submseteq_length, NoDup_submseteq.
    { apply NoDup_ListNoDup, List.NoDup_filter, NoDup_ListNoDup, NoDup_filter_ids. by destruct Hi. }
    intros c (Hc & Ho)%list_elem_of_In%filter_In. apply filter_In in Hc as [Hc%list_elem_of_In Hg].
    apply negb_true_iff in Hg. assert (Hin : c ∈ sorted) by (apply Hsorted; by rewrite (unbound_open _ _ _ _ _ _ Hi)).
    rewrite <- (take_drop keep sorted) in Hin. apply elem_of_app in Hin as [Hin|Hin]; [done|].
    fold (gone c) in Hg. assert (gone c = true) by (apply Hgone; by exists c). congruence.
Qed.

(** The caps on registrations. *)
Record capped (a : Accounts) : Prop := {
  cp_open : open_clients a <= MAX_UNBOUND_CLIENTS;
  cp_live : live_clients a <= N.to_nat (os_max_clients server) - 1 + MAX_UNBOUND_CLIENTS;
}.
Lemma capped_le a a' : caps_le a a' -> capped a -> capped a'.
Proof. intros [] []. constructor; lia. Qed.
Lemma live_split l :
  length (List.filter client_live l) = length (List.filter (fun c => client_live c && client_bound c) l)
                                       + length (List.filter (fun c => client_live c && negb (client_bound c)) l).
Proof.
  induction l as [|c l IH]; [done|]. cbn [List.filter].
  destruct (client_live c), (client_bound c); cbn [andb negb length]; lia.
Qed.

Lemma delete_unbound_safe before a n a' : delete_unbound_clients before a = Ok (n, a') -> safe a a'.
Proof.
  unfold delete_unbound_clients, delete_clients. intros Hr. act_ok. apply safe_deleted.
  intros c _ [Hu _]%andb_true_iff. unfold unbound in Hu. apply andb_true_iff in Hu as [_ Hu]. by apply negb_true_iff in Hu.
Qed.
Lemma register_tx_ok authorized approved issued replayed reg id_bytes secret_bytes now a r a' :
  (forall u, u ∈ rg_redirect_uris reg -> redirect_ok server u = true) ->
  oauth_inv authorized approved issued replayed a -> capped a ->
  register_tx server reg id_bytes secret_bytes now a = Ok (r, a') ->
  oauth_inv authorized approved issued replayed a' /\ capped a'.
Proof.
  intros Hu Hi Hc. unfold register_tx. intros Hr. act_ok1. apply delete_unbound_safe in Hm. act_ok1.
  pose proof (sf_inv _ _ Hm _ _ _ _ Hi) as Hi0. apply (evict_ok _ _ _ _ _ _ _ _ Hi0) in Hm0 as [Hs Ho].
  assert (Hs1 : safe a a1) by (by transitivity a0). pose proof (sf_inv _ _ Hs1 _ _ _ _ Hi) as Hi1.
  act_ok1. unfold count_live_bound_clients in Hm0. act_ok1.
  match goal with H : (if N.leb _ (N.of_nat ?n) then _ else _) ?b = _ |- _ => rename b into a2;
    set (bound := n) in *; destruct (N.leb_spec (os_max_clients server) (N.of_nat bound)) as [Hle|Hlt] end.
  { act_ok. split; [done|]. apply (capped_le a); [by apply safe_caps|done]. }
  act_ok. pose proof (insert_client_ok _ _ _ _ _ _ _ _ Hm0) as (Ec & Ea & _). split.
  { by eapply inv_insert_client. }
  unfold MAX_UNBOUND_CLIENTS in Ho. rewrite Ea.
  assert (Ho' : open_clients (with_clients a2 (ac_clients a2 ++ [x1])) = open_clients a2 + 1).
  { unfold open_clients. cbn [with_clients ac_clients]. rewrite List.filter_app, length_app. by rewrite Ec. }
  constructor; [rewrite Ho'; unfold MAX_UNBOUND_CLIENTS; lia|].
  unfold live_clients. rewrite live_split. fold (open_clients (with_clients a2 (ac_clients a2 ++ [x1]))).
  rewrite Ho'. cbn [with_clients ac_clients]. rewrite List.filter_app, length_app. rewrite Ec at 1. cbn [List.filter client_bound cl_agent].
  fold bound. unfold MAX_UNBOUND_CLIENTS. cbn. lia.
Qed.
Lemma client_register_ok authorized approved issued replayed body address id_bytes secret_bytes now seen a r seen' a' :
  oauth_inv authorized approved issued replayed a -> capped a ->
  register server body address id_bytes secret_bytes now seen a = (r, seen', a') ->
  oauth_inv authorized approved issued replayed a' /\ capped a'.
Proof.
  intros Hi Hc. unfold register. destruct (registration_ok server body) as [reg|e] eqn:Er; [|by intros [= <- <- <-]].
  destruct (admit_registration _ _ _) as [admitted seen1]. destruct (negb admitted); [by intros [= <- <- <-]|].
  unfold act_run. destruct (register_tx server reg id_bytes secret_bytes now a) as [[[c|e] a1]|e] eqn:Et; try by intros [= <- <- <-].
  1,2: intros [= <- <- <-]; eapply register_tx_ok; [|done|done|exact Et].
  1,2: intros u Hu; unfold registration_ok in Er; destruct (registration_from_json body) as [reg0|]; [|done];
    cbn [map_err mbind result_bind] in Er; destruct (existsb _ _) eqn:Ex in Er; [done|]; destruct (existsb _ _) in Er; [done|];
    injection Er as ->; apply existsb_false, Forall_forall with (x := u) in Ex; [|done]; by apply negb_false_iff in Ex.
Qed.

Lemma check_authorize_ok authorized approved issued replayed params now a auth a' :
  oauth_inv authorized approved issued replayed a -> check_authorize params now a = Ok (Ok auth, a') ->
  redirect_ok server (az_redirect_uri auth) = true.
Proof.
  intros Hi. unfold check_authorize. intros Hr. act_ok1. apply client_ok in Hm as [-> Hc].
  destruct x as [c|]; [|act_ok]. destruct (Hc c eq_refl) as [Hin _]. act_ok1.
  match type of Hr with (if negb (existsb ?p ?l) then _ else _) = _ => destruct (existsb p l) eqn:Eu in Hr; [|done] end.
  apply existsb_exists in Eu as (u & Hu%list_elem_of_In & Eu%str_eqb_true). cbn [negb] in Hr.
  repeat (match type of Hr with (if ?b then _ else _) = _ => destruct b; [discriminate Hr|] end).
  injection Hr as <-. cbn [az_redirect_uri]. rewrite Eu. by apply (oi_uris _ _ _ _ _ Hi c).
Qed.

(** ** Every step *)

Lemma inv_approves authorized approved issued replayed a ap : ap_auth ap ∈ authorized ->
  ap_uri ap = az_redirect_uri (ap_auth ap) ->
  ap_family ap ∉ map ap_family approved -> oauth_inv authorized approved issued replayed a ->
  oauth_inv authorized (ap :: approved) issued replayed a.
Proof.
  intros Ha Hu Hf Hi. constructor; try solve [eauto with oauth].
  - intros t Ht. destruct (oi_approved _ _ _ _ _ Hi t Ht) as (x & Hx & E). exists x. split; [by right|done].
  - cbn [map]. apply NoDup_cons. split; [done|eauto with oauth].
  - intros x [->|Hx]%elem_of_cons; [done|eauto with oauth].
  - intros f Hr. cbn [map]. right. eauto with oauth.
Qed.
Lemma inv_authorizes authorized approved issued replayed a az : redirect_ok server (az_redirect_uri az) = true ->
  oauth_inv authorized approved issued replayed a -> oauth_inv (az :: authorized) approved issued replayed a.
Proof.
  intros Hz Hi. constructor; try solve [eauto with oauth].
  - intros x [->|Hx]%elem_of_cons; [done|eauto with oauth].
  - intros ap Hap. split; [right|]; by apply (oi_redirects _ _ _ _ _ Hi).
Qed.
Lemma inv_elsewhere authorized approved issued replayed a a' : agents_kept a a' ->
  oauth_inv authorized approved issued replayed a -> oauth_inv authorized approved issued replayed a'.
Proof.
  intros (Hk & Hw & Hc & Ht) Hi. pose proof (inv_db _ _ _ _ _ _ Hk Hw Hi) as Hd.
  constructor; rewrite ?Hc, ?Ht; try solve [destruct Hd; eauto with oauth].
Qed.

Lemma approve_inv authorized approved issued replayed a auth label by_ d now r a' :
  auth ∈ authorized -> dr_family d ∉ map ap_family approved ->
  oauth_inv authorized approved issued replayed a -> approve auth label by_ d now a = Ok (Committed r, a') ->
  exists code t, r = Ok code /\ ac_tokens a' = ac_tokens a ++ [t] /\ caps_le a a' /\
    oauth_inv authorized (mkApproval auth by_ (to_agent t) (dr_family d) (az_redirect_uri auth) code :: approved)
      issued replayed a'.
Proof.
  intros Ha Hf Hi Hr. apply approve_ok in Hr as (c & g & a1 & -> & Hs & Ht & Hid & Hb & Hr); [|by destruct Hi].
  pose proof (insert_token_ok _ _ _ _ Hr) as (_ & Ea & _).
  exists (CODE_PREFIX ++ token_urlsafe (dr_code d)), (code_row auth c (ag_id g) by_ d now).
  split_and!; [done|by rewrite Ea, <- Ht|rewrite Ea; by destruct (safe_caps _ _ Hs)|].
  set (ap := mkApproval _ _ _ _ _ _).
  assert (Hi1 : oauth_inv authorized (ap :: approved) issued replayed a1) by (apply Hs; by apply inv_approves).
  eapply (inv_insert_token _ _ _ _ _ _ _ _ ap Hr); try done; [by left| |].
  - cbn. intros Hrep. by apply Hf, (oi_known _ _ _ _ _ Hi).
  - rewrite Ht. intros x Hx E. exfalso. destruct (oi_approved _ _ _ _ _ Hi x Hx) as (ap' & Hap' & (E1 & _) & _).
    apply Hf. cbn in E. rewrite <- E, <- E1. by apply list_elem_of_fmap_2.
Qed.

(** The consent form: a refusal that sends the browser back to where it is
    authorized to go, without a code; or an approval, and its code sent
    there. *)
Definition CODE : str := lit "code".
Lemma approve_closing auth label by_ d now a r a' : approve auth label by_ d now a = Ok (r, a') ->
  match r with Committed r => exists code, r = Ok code | Dropped r => exists text, r = Err text end.
Proof.
  unfold approve. intros Hr. act_ok1. destruct x as [c|]; [|act_ok; eauto].
  act_ok1. destruct x as [g|]; [|act_ok; eauto]. destruct (ag_disabled g); act_ok; eauto.
Qed.
Lemma consent_cases blob cookie form d now a r a' : consent server blob cookie form d now a = (r, a') ->
  (a' = a /\ forall uri params, r = Ok (Redirect uri params) ->
     (exists b, blob = Some b /\ uri = az_redirect_uri (cb_auth b)) /\ forall code, (CODE, code) ∉ params) \/
  exists b label code, blob = Some b /\ approve (cb_auth b) label (cb_user b) d now a = Ok (Committed (Ok code), a') /\
    exists params, r = Ok (Redirect (az_redirect_uri (cb_auth b)) params) /\ code_in params = code /\
      forall c, (CODE, c) ∈ params -> c = code.
Proof.
  unfold consent. destruct blob as [b|]; [|intros [= <- <-]; by left]. destruct (_ || _); [intros [= <- <-]; by left|].
  destruct (str_eqb _ _).
  2: { intros [= <- <-]. left. split; [done|]. intros uri params [= <- <-]. split; [by exists b|].
       intros code Hin. apply list_elem_of_In in Hin. cbn in Hin. destruct Hin as [[=]|[[=]|[[=]|[]]]]. }
  unfold act_close.
  destruct (approve _ _ _ _ _ _) as [[res a1]|e] eqn:Ea; [|intros [= <- <-]; by left].
  pose proof (approve_closing _ _ _ _ _ _ _ _ Ea) as Hres. destruct res as [res|res]; destruct Hres as [x ->]; intros [= <- <-];
    [|by left]. right. eexists b, _, x. split; [done|]. split; [exact Ea|]. eexists. split; [done|]. split; [done|].
  intros c Hin. apply list_elem_of_In in Hin. cbn in Hin. destruct Hin as [[=]|[[=]|[[=]|[]]]]; congruence.
Qed.

(** Where browsers were sent. *)
Definition sent_ok (authorized : list Authorization) (approved : list Approval) (sent : list (str * list (str * str))) : Prop :=
  forall uri params, (uri, params) ∈ sent ->
    (exists az, az ∈ authorized /\ uri = az_redirect_uri az) /\
    forall code, (CODE, code) ∈ params -> exists ap, ap ∈ approved /\ ap_code ap = code /\ ap_uri ap = uri.
Lemma sent_more authorized authorized' approved approved' sent : authorized ⊆ authorized' -> approved ⊆ approved' ->
  sent_ok authorized approved sent -> sent_ok authorized' approved' sent.
Proof.
  intros Ha Hp Hs uri params Hin. destruct (Hs uri params Hin) as [(az & ? & ?) Hc]. split; [exists az; auto|].
  intros code (ap & ? & ?)%Hc. exists ap. auto.
Qed.
Lemma sent_app authorized approved l sent : sent_ok authorized approved l -> sent_ok authorized approved sent ->
  sent_ok authorized approved (l ++ sent).
Proof. intros Hl Hs uri params [?|?]%elem_of_app; [by apply Hl|by apply Hs]. Qed.

Record world_ok (w : World) : Prop := {
  wo_inv : oauth_inv (ow_authorized w) (ow_approved w) (ow_issued w) (ow_replayed w) (ow_acc w);
  wo_capped : capped (ow_acc w);
  wo_sent : sent_ok (ow_authorized w) (ow_approved w) (ow_sent w);
}.
Lemma safe_world w a : safe (ow_acc w) a -> world_ok w -> world_ok (acc_to w a).
Proof. intros Hs [Hi Hc Hsent]. split; cbn; [by apply Hs| |done]. by eapply capped_le; [apply safe_caps|]. Qed.

Lemma oauth_step_ok w w' : oauth_step w w' -> world_ok w -> world_ok w'.
Proof.
  intros Hstep Hw. destruct (Hw) as [Hi Hc Hsent]. destruct Hstep.
  - match goal with Hr : register _ _ _ _ _ _ _ _ = _ |- _ => apply (client_register_ok _ _ _ _ _ _ _ _ _ _ _ _ _ _ Hi Hc) in Hr as [? ?] end.
    by split.
  - split; [|done|]; cbn.
    + apply inv_authorizes; [by eapply check_authorize_ok|done].
    + eapply sent_more; [| |exact Hsent]; [set_solver|done].
  - match goal with Hc0 : consent _ _ _ _ _ _ _ = _ |- _ =>
      apply consent_cases in Hc0 as [[-> _]|(b & label & code & [= <-] & Ha & params' & [= -> ->] & <- & Hcode)] end.
    + exfalso. match goal with E : ac_tokens ?x = ac_tokens ?x ++ [_] |- _ => apply (f_equal length) in E; rewrite length_app in E; cbn in E; lia end.
    + eapply approve_inv in Ha as (code & t0 & [= <-] & Et & Hcaps & Hinv); [|done..].
      match goal with E : ac_tokens a = _ ++ [t] |- _ => rewrite E in Et; apply app_inj_2 in Et as [_ [= ->]]; [|done] end.
      split; cbn; [done|by eapply capped_le|].
      apply (sent_app _ _ [_]); [|eapply sent_more; [| |exact Hsent]; [done|set_solver]].
      intros uri params [= -> ->]%list_elem_of_singleton. split; [by eexists|]. intros c ->%Hcode.
      eexists. split; [by left|done].
  - match goal with Hc0 : consent _ _ _ _ _ _ _ = _ |- _ =>
      apply consent_cases in Hc0 as [[-> Hred]|(b & label & code & -> & Ha & _)] end.
    + split; cbn; [done..|]. apply sent_app; [|done]. unfold sent_by. destruct r as [[|uri params|]|]; try by intros ? ? ?%elem_of_nil.
      intros ? ? [= -> ->]%list_elem_of_singleton. destruct (Hred _ _ eq_refl) as [(b & -> & ->) Hno]. split; [|by intros ? ?%Hno].
      eexists. split; [|done]. eauto.
    + apply approve_ok in Ha as (c & g & a1 & _ & _ & Ht & _ & _ & Hr); [|by destruct Hi].
      apply insert_token_ok in Hr as (_ & -> & _). exfalso.
      match goal with E : ac_tokens (with_tokens _ _) = _ |- _ => cbn in E; rewrite Ht in E; apply (f_equal length) in E; rewrite length_app in E; cbn in E; lia end.
  - match goal with He : exchange _ _ _ _ _ _ = _ |- _ => unfold exchange, act_run in He;
      destruct (exchange_in _ _ _ _ _ _) as [[[p0|e] a0]|e] eqn:Ex in He; try discriminate He; injection He as -> -> end.
    apply (exchange_in_ok _ _ _ _ _ _ _ _ _ _ _ Hi) in Ex as [Hcaps [Hinv _]]. split; cbn; [done|by eapply capped_le|done].
  - match goal with He : exchange _ _ _ _ _ _ = _ |- _ => unfold exchange, act_run in He;
      destruct (exchange_in _ _ _ _ _ _) as [[[p0|e0] a0]|e0] eqn:Ex in He; try discriminate He; injection He as -> -> end.
    apply (exchange_in_ok _ _ _ _ _ _ _ _ _ _ _ Hi) in Ex as [Hcaps (Hinv & Hrep & _)].
    split; cbn; [|by eapply capped_le|done]. apply inv_replayed; [|done].
    intros f Hf. apply Hrep. match goal with E : forall f, f ∈ _ <-> _ |- _ => by apply E end.
  - apply safe_world; [|done]. by eapply revoke_safe.
  - apply safe_world; [|done]. by eapply revoke_connector_safe.
  - split; cbn; [by eapply inv_elsewhere| |done]. match goal with Hk : agents_kept _ _ |- _ => destruct Hk as (_ & _ & E & _) end.
    eapply capped_le; [|exact Hc]. unfold caps_le, live_clients, open_clients. by rewrite E.
Qed.
Lemma oauth_runs_ok w : oauth_runs w -> world_ok w.
Proof.
  induction 1 as [|w w' _ IH Hs]; [|by eapply oauth_step_ok]. split; [|split; cbn; lia|by intros ? ? ?%elem_of_nil].
  constructor; cbn; try apply NoDup_nil_2; try (intros; exfalso; by eapply not_elem_of_nil).
  intros k x E. cbn in E. by rewrite lookup_empty in E.
Qed.

(** ** The claims *)

(** C33: every token of the table descends from a person's approval of an
    authorization this server checked: it is of the client and family
    approved, acts as the web agent that client is bound to, and a code is
    the one made for that approval; and no access or refresh token exists but
    after an exchange by who knew the verifier of the approval's challenge.
    And wherever the consent form sent a browser, it is a configured redirect
    and that of an authorization this server checked, and a code sent there
    is the code of an approval of exactly that redirect. *)
Theorem connector_tokens_authorized w : oauth_runs w ->
  (forall t, t ∈ ac_tokens (ow_acc w) ->
    exists ap, ap ∈ ow_approved w /\ approved_for ap t /\ ap_auth ap ∈ ow_authorized w /\
      redirect_ok server (az_redirect_uri (ap_auth ap)) = true /\
      web_agent (ac_db (ow_acc w)) (to_agent t) /\
      (exists c, c ∈ ac_clients (ow_acc w) /\ cl_id c = to_client t /\ cl_agent c = Some (to_agent t)) /\
      (to_kind t <> TCode -> exists form, form ∈ ow_issued w /\ verified_by ap form)) /\
  (forall uri params, (uri, params) ∈ ow_sent w ->
    redirect_ok server uri = true /\
    (exists az, az ∈ ow_authorized w /\ uri = az_redirect_uri az) /\
    forall code, (CODE, code) ∈ params ->
      exists ap, ap ∈ ow_approved w /\ ap_code ap = code /\ uri = az_redirect_uri (ap_auth ap)).
Proof.
  intros [Hi _ Hsent]%oauth_runs_ok. split.
  - intros t Ht. destruct (oi_approved _ _ _ _ _ Hi t Ht) as (ap & Hap & Hf & Hk).
    destruct (oi_redirects _ _ _ _ _ Hi ap Hap) as [Ha _].
    destruct (oi_bound _ _ _ _ _ Hi t Ht) as (c & Hc & E & Ea). exists ap. split_and!; eauto with oauth.
  - intros uri params Hin. destruct (Hsent uri params Hin) as [(az & Haz & ->) Hcode].
    split_and!; [eauto with oauth|eauto|]. intros code (ap & Hap & Ec & Eu)%Hcode. exists ap. split_and!; [done..|].
    rewrite <- Eu. by apply (oi_redirects _ _ _ _ _ Hi).
Qed.


(** Registrations nobody authorized never exceed their own cap, and all live
    clients together stay within one less than [max_clients] and that cap. *)
Theorem registrations_bounded w : oauth_runs w ->
  open_clients (ow_acc w) <= MAX_UNBOUND_CLIENTS /\
  live_clients (ow_acc w) <= N.to_nat (os_max_clients server) - 1 + MAX_UNBOUND_CLIENTS.
Proof. intros [_ [] _]%oauth_runs_ok. done. Qed.
End runs.

(** ** On the sample connector *)

Import SampleOAuth.

Definition sent_of {S} (r : result S Consented * Accounts) : list (str * str) :=
  match r.1 with Ok (Redirect _ p) => p | _ => [] end.
Definition approval1 : Approval := mkApproval auth1 (lit "jo") 1 201 (az_redirect_uri auth1) (code_in (sent_of allowed1)).
Definition approval2 : Approval := mkApproval auth2 (lit "jo") 2 202 (az_redirect_uri auth2) (code_in (sent_of allowed2)).
Definition sent1 : str * list (str * str) := (az_redirect_uri auth1, sent_of allowed1).
Definition sent2 : str * list (str * str) := (az_redirect_uri auth2, sent_of allowed2).
Definition last_token (a : Accounts) : TokenRow := List.last (ac_tokens a) refresh_row.
(** Before the second exchange of the first code, and after. *)
Definition once_world : World :=
  mkWorld exchanged1.2 second.1.2 [auth2; auth1] [approval2; approval1] [form] [] [sent2; sent1].
Definition sample_world : World :=
  mkWorld exchanged2.2 second.1.2 [auth2; auth1] [approval2; approval1] [form] [201%N] [sent2; sent1].
Definition used_code : TokenRow := Eval vm_compute in
  default refresh_row (find (fun t => negb (is_none (to_used_at t))) (ac_tokens exchanged1.2)).

Lemma once_oauth_runs : oauth_runs server once_world.
Proof.
  set (w1 := mkWorld first.2 first.1.2 [] [] [] [] []).
  set (w2 := mkWorld second.2 second.1.2 [] [] [] [] []).
  set (w2' := mkWorld second.2 second.1.2 [auth1] [] [] [] []).
  set (w3 := mkWorld second.2 second.1.2 [auth2; auth1] [] [] [] []).
  set (w4 := mkWorld allowed1.2 second.1.2 [auth2; auth1] [approval1] [] [] [sent1]).
  set (w5 := mkWorld allowed2.2 second.1.2 [auth2; auth1] [approval2; approval1] [] [] [sent2; sent1]).
  assert (H1 : oauth_runs server w1).
  { eapply oauth_next; [apply oauth_start|]. apply (registers server World_new (body (lit "one")) None [1%N] [] (seconds 10) first.1.1).
    vm_compute. reflexivity. }
  assert (H2 : oauth_runs server w2).
  { eapply oauth_next; [exact H1|]. apply (registers server w1 (body (lit "two")) None [2%N] [] (seconds 11) second.1.1).
    vm_compute. reflexivity. }
  assert (H3 : oauth_runs server w3).
  { apply (oauth_next server w2'); [apply (oauth_next server w2); [exact H2|]|].
    - apply (authorizes server w2 (params id1) (seconds 12) auth1 second.2). vm_compute. reflexivity.
    - apply (authorizes server w2' (params id2) (seconds 12) auth2 second.2). vm_compute. reflexivity. }
  assert (H4 : oauth_runs server w4).
  { eapply oauth_next; [exact H3|].
    apply (allows server w3 blob1 (lit "nonce") allow draws1 (seconds 20) (az_redirect_uri auth1)
             (sent_of allowed1) allowed1.2 (last_token allowed1.2)).
    - right. left.
    - apply not_elem_of_nil.
    - vm_compute. reflexivity.
    - vm_compute. reflexivity. }
  assert (H5 : oauth_runs server w5).
  { eapply oauth_next; [exact H4|].
    apply (allows server w4 blob2 (lit "nonce") allow draws2 (seconds 21) (az_redirect_uri auth2)
             (sent_of allowed2) allowed2.2 (last_token allowed2.2)).
    - left.
    - by intros ?%list_elem_of_singleton.
    - vm_compute. reflexivity.
    - vm_compute. reflexivity. }
  eapply oauth_next; [exact H5|].
  apply (exchanges server w5 form None pair_draws (seconds 30)
           (match exchanged1.1 with Ok (Ok p) => p | _ => mkTokenPair [] [] 0 end)).
  vm_compute. reflexivity.
Qed.
Lemma used_code_shown : used_code ∈ ac_tokens exchanged1.2 /\ to_used_at used_code <> None /\ shows form used_code /\
  in_time form None (seconds 31) exchanged1.2 used_code /\ to_family used_code = 201%N.
Proof.
  split_and!; [apply list_elem_of_In; vm_compute; tauto|done| | |done].
  - left. split_and!; vm_compute; reflexivity.
  - split; [vm_compute; reflexivity|].
    exists (match authenticate form None (seconds 31) exchanged1.2 with
            | Ok (Ok c, _) => c
            | _ => mkClient [] [] [] None None None None 0
            end).
    split; vm_compute; reflexivity.
Qed.
Lemma exchanged_again : exchange server form None pair_draws (seconds 31) exchanged1.2
  = (Ok (Err (match exchanged2.1 with Ok (Err e) => e | _ => TOO_MANY end)), exchanged2.2).
Proof. vm_compute. reflexivity. Qed.
Lemma sample_oauth_runs : oauth_runs server sample_world.
Proof.
  refine (oauth_next server _ _ once_oauth_runs
    (exchange_refused server once_world form None pair_draws (seconds 31) _ _ [201%N] exchanged_again _)).
  destruct used_code_shown as (Hin & Hu & Hs & Ht & Hf). intros f. rewrite list_elem_of_singleton. split.
  - intros ->. by exists used_code.
  - intros (t & Ht' & _ & Hs' & _ & <-). rewrite <- Hf. f_equal.
    apply (NoDup_map_inj to_hash (ac_tokens exchanged1.2)); [|done..|].
    + destruct (oauth_runs_ok server _ once_oauth_runs) as [[] _ _]. done.
    + destruct Hs as [(? & _ & ->)|([=] & _)], Hs' as [(_ & _ & ->)|([=] & _)]. done.
Qed.

Lemma connector_tokens_authorized_witness : refresh_row ∈ ac_tokens (ow_acc sample_world) /\
  (exists ap, ap ∈ ow_approved sample_world /\ approved_for ap refresh_row /\
    exists f, f ∈ ow_issued sample_world /\ verified_by ap f) /\
  sent1 ∈ ow_sent sample_world /\ redirect_ok server (lit "https://c/cb") = true.
Proof.
  assert (Hin : refresh_row ∈ ac_tokens (ow_acc sample_world)).
  { apply list_elem_of_In. vm_compute. tauto. }
  assert (Hsent : sent1 ∈ ow_sent sample_world) by (right; left).
  destruct (connector_tokens_authorized server sample_world sample_oauth_runs) as [Hrow Hto].
  split_and!; [exact Hin| |exact Hsent|exact (proj1 (Hto _ _ Hsent))].
  destruct (Hrow refresh_row Hin) as (ap & Hap & Hf & _ & _ & _ & _ & Hk).
  exists ap. split_and!; [exact Hap|exact Hf|]. apply Hk. discriminate.
Defined.
(** Two clients authorized where one is the cap. *)
Lemma registrations_bounded_witness :
  length (List.filter (fun c => client_live c && client_bound c) (ac_clients (ow_acc sample_world))) = 2 /\
  os_max_clients server = 1%N /\ live_clients (ow_acc sample_world) <= 0 + 20.
Proof.
  split_and!; [reflexivity|reflexivity|].
  exact (proj2 (registrations_bounded server sample_world sample_oauth_runs)).
Defined.
