(* ===== verification/CallerFacts.v ===== *)
(** What an authenticated caller is, and that a long-lived request's check
    agrees with authenticating it again. *)

From stdpp Require Import gmap.
From S2P Require Import Prelude Json Glob Pyfmt Lifecycle Names Durations Pool Mail Authority Routing Agents Hostexec Schema Policy Zones Eval HostTypes TotpCode F64 Transcript Envelope Hello Store ServiceRouting Pairing P256 Jwt SecretBox Accounts OAuth SecurityLog McpTools RemoteMcp Callers SampleCrypto Samples.
From stdpp Require Import options.
#[local] Set Default Proof Using "Type*".

(** ** The agents' table keeps its constraints *)

Section agents.
Context `{UnicodeLower, DateLib}.

(** Every row is under its id, passes the CHECKs, and clashes with no
    other. *)
Definition agents_valid (a : Accounts) : Prop := forall id x, db_agents (ac_db a) !! id = Some x ->
  ag_id x = id /\ agent_checks x = true /\ others_clash a x = false.

Lemma others_clash_false a x : others_clash a x = false <->
  forall y, y ∈ all_rows a -> ag_id y <> ag_id x -> rows_clash x y = false.
Proof.
  unfold others_clash. split.
  - intros Hf y Hy Hne. destruct (rows_clash x y) eqn:E; [|done].
    assert (Ht : existsb (fun y => negb (N.eqb (ag_id y) (ag_id x)) && rows_clash x y) (all_rows a) = true); [|congruence].
    apply existsb_exists. exists y. split; [by apply list_elem_of_In|]. rewrite E. by apply N.eqb_neq in Hne as ->.
  - intros Hall. apply not_true_is_false. intros (y & Hy & Hc)%existsb_exists. apply andb_true_iff in Hc as [Hne Hc].
    rewrite Hall in Hc; [done|by apply list_elem_of_In|by destruct (N.eqb_spec (ag_id y) (ag_id x))].
Qed.
Lemma rows_clash_sym x y : rows_clash x y = rows_clash y x.
Proof.
  unfold rows_clash, str_eqb. rewrite (N.eqb_sym (ag_id x)).
  rewrite (bool_decide_ext (ag_name x = ag_name y) (ag_name y = ag_name x)) by done.
  rewrite (bool_decide_ext (ag_key_id x = ag_key_id y) (ag_key_id y = ag_key_id x)) by done.
  rewrite (andb_comm (bool_decide (ag_kind x = Operator))). f_equal.
  destruct (fst (ag_lldap x)), (fst (ag_lldap y)); try done. by apply bool_decide_ext.
Qed.

(** A row put under its id, clashing with no other. *)
Lemma put_agent_valid a x : agents_valid a -> agent_checks x = true ->
  (forall y, y ∈ all_rows a -> ag_id y <> ag_id x -> rows_clash x y = false) -> agents_valid (put_agent x a).
Proof.
  intros Hv Hc Hn id y. cbn. intros Hy.
  assert (Hrow : forall z, z ∈ all_rows (put_agent x a) -> z = x \/ z ∈ all_rows a /\ ag_id z <> ag_id x).
  { intros z [i Hz]%all_rows_elem. cbn in Hz. destruct (decide (i = ag_id x)) as [->|Hi].
    - left. rewrite lookup_insert_eq in Hz. by injection Hz.
    - right. rewrite lookup_insert_ne in Hz by done. destruct (Hv _ _ Hz) as [E _]. split; [|by rewrite E].
      apply all_rows_elem. eauto. }
  destruct (decide (id = ag_id x)) as [->|Hid].
  - rewrite lookup_insert_eq in Hy. injection Hy as <-. split_and!; [done|done|]. apply others_clash_false.
    intros z [->|[Hz Hne]]%Hrow Hd; [done|by apply Hn].
  - rewrite lookup_insert_ne in Hy by done. destruct (Hv _ _ Hy) as (E & Hck & Hcl). split_and!; [done|done|].
    apply others_clash_false. intros z [->|[Hz _]]%Hrow Hd.
    + rewrite rows_clash_sym. apply Hn; [apply all_rows_elem; eauto|]. by rewrite E.
    + by apply (proj1 (others_clash_false a y) Hcl).
Qed.

(** Inserting a row and every update of one keep the constraints. *)
Lemma insert_row_valid x a x' a' : agents_valid a -> insert_row x a = Ok (x', a') -> agents_valid a'.
Proof.
  unfold insert_row, act_bind, act_read. intros Hv. destruct (agent_checks x) eqn:Ec; cbn; [|done].
  destruct (existsb (rows_clash x) (all_rows a)) eqn:Ecl; [done|]. destruct (refs_known a x); cbn; [|done].
  intros [= _ <-]. apply put_agent_valid; [done|done|]. intros y Hy _. destruct (rows_clash x y) eqn:E; [|done].
  assert (Ht : existsb (rows_clash x) (all_rows a) = true); [|congruence].
  apply existsb_exists. exists y. split; [by apply list_elem_of_In|done].
Qed.
Lemma write_agent_valid id ok f a b a' : agents_valid a -> (forall x, ag_id (f x) = ag_id x) ->
  write_agent id ok f a = Ok (b, a') -> agents_valid a'.
Proof.
  unfold write_agent, act_bind, act_read. intros Hv Hf. destruct (_ !! id) as [x|] eqn:Ex; [|by intros [= _ <-]].
  destruct (ok x); cbn; [|by intros [= _ <-]]. destruct (agent_checks (f x)) eqn:Ec; cbn; [|done].
  destruct (others_clash a (f x)) eqn:Ecl; [done|]. intros [= _ <-]. apply put_agent_valid; [done|done|].
  by apply others_clash_false.
Qed.

(** Rows are found by their keys. *)
Lemma by_key_id_found k a x a' : by_key_id k a = Ok (Some x, a') -> agents_valid a ->
  a' = a /\ ag_key_id x = k /\ db_agents (ac_db a) !! ag_id x = Some x.
Proof.
  unfold by_key_id, act_read. intros [= Hf <-] Hv. apply find_some in Hf as [Hin Hk%str_eqb_true].
  apply list_elem_of_In, all_rows_elem in Hin as [id Hx]. destruct (Hv _ _ Hx) as [-> _]. done.
Qed.
Lemma by_key_id_finds a x : agents_valid a -> db_agents (ac_db a) !! ag_id x = Some x ->
  by_key_id (ag_key_id x) a = Ok (Some x, a).
Proof.
  intros Hv Hx. unfold by_key_id, act_read. do 2 f_equal. f_equal.
  assert (Hin : x ∈ all_rows a) by (apply all_rows_elem; eauto).
  destruct (find _ (all_rows a)) as [y|] eqn:E.
  - apply find_some in E as [Hy Hk%str_eqb_true]. apply list_elem_of_In, all_rows_elem in Hy as [id Hy].
    destruct (Hv _ _ Hx) as (_ & _ & Hc), (Hv _ _ Hy) as (Ey & _ & _).
    destruct (decide (ag_id y = ag_id x)) as [Ei|Hne]; [rewrite <- Ey, Ei, Hx in Hy; by injection Hy as ->|].
    apply (proj1 (others_clash_false a x) Hc) in Hne; [|apply all_rows_elem; eauto].
    unfold rows_clash in Hne. rewrite <- Hk, (proj2 (str_eqb_true (ag_key_id y) (ag_key_id y))) in Hne by done.
    by rewrite !orb_true_r in Hne.
  - apply list_elem_of_In in Hin. apply (List.find_none _ _ E) in Hin. revert Hin.
    by rewrite (proj2 (str_eqb_true (ag_key_id x) (ag_key_id x))).
Qed.

(** Marking an agent seen cannot break a constraint. *)
Lemma touch_seen_ok id now unless a : agents_valid a -> exists b a', touch_seen id now unless a = Ok (b, a').
Proof.
  intros Hv. unfold touch_seen, write_agent, act_bind, act_read. destruct (_ !! id) as [x|] eqn:Ex; [|by do 2 eexists].
  destruct (seen_before _ _); cbn [negb]; [|by do 2 eexists]. destruct (Hv _ _ Ex) as (_ & Hc & Hn).
  change (agent_checks (seen_row (Some now) (ag_last_listen_at x) x)) with (agent_checks x).
  change (others_clash a (seen_row (Some now) (ag_last_listen_at x) x)) with (others_clash a x).
  rewrite Hc, Hn. by do 2 eexists.
Qed.
End agents.

(** ** Extraction *)

Section extraction.
Context `{UnicodeLower, DateLib, UuidLib, Sha256, Hex, Base64} (config : AuthConfig).

Lemma db_read_ok {A} (m : act StoreError A) a r : db_read m a = Ok r <-> m a = Ok r.
Proof. unfold db_read, map_err. destruct (m a); split; congruence. Qed.
Lemma get_row_eq id a : get_row id a = Ok (db_agents (ac_db a) !! id, a).
Proof. unfold get_row, on_db, get_agent, tx_read. by destruct a. Qed.
Lemma agent_for_access_eq h now a : agent_for_access h now a =
  Ok (to_agent <$> find (fun t => str_eqb (to_hash t) h && bool_decide (to_kind t = TAccess) && is_none (to_revoked_at t)
    && Z.ltb now (to_expires_at t) && of_live_client a t) (ac_tokens a), a).
Proof. done. Qed.

(** An agent that may act: there, enabled, within its lease, not the
    operator's row. *)
Definition may_act (now : Instant) (a : Accounts) (x : AgentRow) : Prop :=
  db_agents (ac_db a) !! ag_id x = Some x /\ ag_disabled x = false /\ lapsed x now = false /\ ag_kind x <> Operator.
(** The secret of a key is the agent's. *)
Definition key_of (token : str) (x : AgentRow) : Prop := exists k,
  api_key_parse token = Some k /\ ag_key_id x = pk_key_id k /\ SecretHash_parse (ag_api_key_hash x) = Some (ag_api_key_hash x) /\
  api_key_verify (pk_secret k) (ag_api_key_hash x) = true.

Lemma may_act_bool x now : negb (ag_disabled x) && negb (lapsed x now) && negb (bool_decide (ag_kind x = Operator)) = true <->
  ag_disabled x = false /\ lapsed x now = false /\ ag_kind x <> Operator.
Proof. rewrite !andb_true_iff, !negb_true_iff, bool_decide_eq_false. tauto. Qed.

Lemma SecretHash_parse_same h h' : SecretHash_parse h = Some h' -> h' = h.
Proof. unfold SecretHash_parse. by destruct (_ && _); intros [=]. Qed.
Lemma key_agent_of_ok token now a x a' : agents_valid a -> key_agent_of token now a = Ok (x, a') <->
  a' = a /\ may_act now a x /\ key_of token x.
Proof.
  intros Hv. unfold key_agent_of, key_of. split.
  - destruct (api_key_parse token) as [k|] eqn:Ek; [|done]. unfold act_bind.
    destruct (db_read (by_key_id _) a) as [[found a1]|] eqn:Ef; [|done]. apply db_read_ok in Ef.
    destruct (key_refusal found k now) eqn:Er; [done|]. destruct found as [y|]; [|done]. intros [= <- <-].
    apply by_key_id_found in Ef as (-> & Hk & Hx); [|done]. revert Er. unfold key_refusal.
    destruct (ag_disabled y) eqn:Ed; [done|]. destruct (lapsed y now) eqn:El; [done|].
    case_bool_decide as Eo; [done|]. destruct (SecretHash_parse _) as [h|] eqn:Eh; [|done].
    pose proof (SecretHash_parse_same _ _ Eh) as ->. destruct (api_key_verify _ _) eqn:Ev; [|done].
    intros _. split_and!; [done|by split_and!|by exists k].
  - intros (-> & (Hx & Hd & Hl & Ho) & k & -> & Hk & Hh & Hver). unfold act_bind.
    rewrite (proj2 (db_read_ok _ _ _) (eq_ind _ (fun i => by_key_id i a = _) (by_key_id_finds a x Hv Hx) _ Hk)).
    unfold key_refusal. rewrite Hd, Hl, bool_decide_false, Hh, Hver by done. done.
Qed.

(** A token of this hash is a live access token of the agent's. *)
Definition live_access (h : str) (now : Instant) (a : Accounts) (id : AgentId) : Prop :=
  agent_for_access h now a = Ok (Some id, a).
(** The remote endpoint serves a tool with this route. *)
Definition permitted (p : Parts) : Prop := exists served, au_remote_mcp config = Some served /\ allows served (pt_method p) (pt_path p) = true.
Lemma connector_agent_of_ok p token now a x a' : agents_valid a ->
  connector_agent_of config p token now a = Ok (x, a') <->
  a' = a /\ may_act now a x /\ live_access (hash_secret token) now a (ag_id x) /\ permitted p.
Proof.
  intros Hv. unfold connector_agent_of, act_bind, live_access, permitted. unfold db_read at 1, map_err.
  rewrite !agent_for_access_eq. set (found := to_agent <$> find _ _). split.
  - destruct found as [id|]; [|done]. rewrite (proj2 (db_read_ok _ _ _) (get_row_eq id a)).
    destruct (db_agents _ !! id) as [y|] eqn:Ey; [|done]. destruct (Hv _ _ Ey) as [<- _].
    destruct (_ && _) eqn:Em; [|done]. apply may_act_bool in Em as (? & ? & ?).
    destruct (au_remote_mcp config) as [served|]; [|done]. destruct (allows _ _ _) eqn:Ea; [|done].
    intros [= <- <-]. split_and!; [done|by split_and!|done|by exists served].
  - intros (-> & (Hx & Hact) & Hf & served & -> & Ha). injection Hf as ->.
    rewrite (proj2 (db_read_ok _ _ _) (get_row_eq _ a)), Hx, Ha. by rewrite (proj2 (may_act_bool _ _) Hact).
Qed.

(** The session a request names. *)
Definition names_session (p : Parts) (id : option SessionId) : Prop :=
  match session_header p with
  | None => id = None
  | Some h => exists text i, header_text h = Some text /\ parse_canonical text = Some i /\ id = Some i
  end.
Definition open_session (a : Accounts) (agent : AgentId) (s : SessionRow) : Prop := get_open agent (se_id s) a = Ok (Some s, a).

Lemma get_open_eq agent id a : exists s, get_open agent id a = Ok (s, a) /\ forall x, s = Some x -> se_id x = id.
Proof.
  eexists. split; [done|]. intros x Hx. apply find_some in Hx as [_ Hp]. rewrite !andb_true_iff in Hp.
  by destruct Hp as [[Hp%N.eqb_eq _] _].
Qed.
Lemma with_session_ok p x now a s a' : with_session p x now a = Ok (s, a') ->
  ac_db a' = ac_db a /\ names_session p (se_id <$> s) /\ forall r, s = Some r -> open_session a (ag_id x) r.
Proof.
  unfold with_session, names_session. destruct (session_header p) as [h|]; [|by intros [= <- <-]].
  destruct (header_text h) as [text|] eqn:Eh; [|done]. cbn [mbind option_bind].
  destruct (parse_canonical text) as [id|] eqn:Ep; [|done]. unfold act_bind.
  destruct (get_open_eq (ag_id x) id a) as (found & Eg & Hid). rewrite (proj2 (db_read_ok _ _ _) Eg).
  destruct found as [r|]; [|done]. specialize (Hid r eq_refl). subst id. intros [= <- <-]. cbn.
  split_and!; [done|by exists text, (se_id r)|]. by intros ? [= <-].
Qed.
Lemma with_session_some p x now a id : names_session p id ->
  (forall i, id = Some i -> exists s, get_open (ag_id x) i a = Ok (Some s, a)) ->
  exists s a', with_session p x now a = Ok (s, a') /\ ac_db a' = ac_db a /\ se_id <$> s = id.
Proof.
  unfold with_session, names_session. destruct (session_header p) as [h|]; [|intros -> _; by exists None, a].
  intros (text & i & -> & Hp & ->) Ho. cbn [mbind option_bind]. rewrite Hp. destruct (Ho i eq_refl) as [s Eg].
  destruct (get_open_eq (ag_id x) i a) as (s' & Eg' & Hid). rewrite Eg in Eg'. injection Eg' as <-.
  unfold act_bind. rewrite (proj2 (db_read_ok _ _ _) Eg). do 2 eexists. split_and!; [done|done|].
  cbn. f_equal. by apply Hid.
Qed.

Lemma extract_ok p now a c a' : agents_valid a -> extract config p now a = Ok (c, a') -> exists token,
  bearer_token p = Some token /\ may_act now a (ca_agent c) /\
  (if is_connector_token config token
   then live_access (hash_secret token) now a (ag_id (ca_agent c)) /\ permitted p
   else key_of token (ca_agent c)) /\
  ca_via c = (if is_connector_token config token then OAuthConnector else ApiKey) /\
  ca_token_hash c = (if is_connector_token config token then Some (hash_secret token) else None) /\
  names_session p (se_id <$> ca_sess c) /\
  forall s, ca_sess c = Some s -> open_session a (ag_id (ca_agent c)) s.
Proof.
  unfold extract. intros Hv. destruct (bearer_token p) as [token|]; [|done]. intros Hx.
  apply act_bind_ok in Hx as (x & a1 & Hx & Hs). apply act_bind_ok in Hs as (s & a2 & Hs & Ht).
  apply act_bind_ok in Ht as (b & a3 & _ & Hr). injection Hr as <- _. exists token. cbn.
  assert (Ha : a1 = a /\ may_act now a x /\ (if is_connector_token config token
    then live_access (hash_secret token) now a (ag_id x) /\ permitted p else key_of token x)).
  { destruct (is_connector_token config token);
      [apply connector_agent_of_ok in Hx|apply key_agent_of_ok in Hx]; done. }
  destruct Ha as (-> & Hact & Hproof). apply with_session_ok in Hs as (_ & Hn & Ho). by split_and!.
Qed.
Lemma extract_some p now a token x id : agents_valid a -> bearer_token p = Some token -> may_act now a x ->
  (if is_connector_token config token
   then live_access (hash_secret token) now a (ag_id x) /\ permitted p else key_of token x) ->
  names_session p id -> (forall i, id = Some i -> exists s, get_open (ag_id x) i a = Ok (Some s, a)) ->
  exists c a', extract config p now a = Ok (c, a') /\ ca_agent c = x /\ se_id <$> ca_sess c = id.
Proof.
  intros Hv Hb Hact Hproof Hn Ho. unfold extract. rewrite Hb. unfold act_bind.
  assert (E : (if is_connector_token config token then connector_agent_of config p token now
               else key_agent_of token now) a = Ok (x, a)).
  { destruct (is_connector_token config token); [by apply connector_agent_of_ok|by apply key_agent_of_ok]. }
  rewrite E. destruct (with_session_some p x now a id Hn Ho) as (s & a1 & -> & Hdb & Hid).
  destruct (touch_seen_ok (ag_id x) now (sat_plus now (- TOUCH_INTERVAL)) a1) as (b & a2 & Ht).
  { intros i y. rewrite Hdb. intros Hy. destruct (Hv _ _ Hy) as (? & ? & ?). split_and!; [done|done|].
    unfold others_clash, all_rows in *. by rewrite Hdb. }
  rewrite (proj2 (db_read_ok _ _ _) Ht). by do 2 eexists.
Qed.

(** C22: a request acts as an agent only with that agent's own secret, or with a
    live access token of its connector on a route the remote endpoint's
    tools use; the agent is enabled, within its lease and not the operator's
    row; and the session the request names is its own and open. *)
Theorem caller_authenticated p now a c a' : agents_valid a -> extract config p now a = Ok (c, a') ->
  may_act now a (ca_agent c) /\ names_session p (se_id <$> ca_sess c) /\
  (forall s, ca_sess c = Some s -> open_session a (ag_id (ca_agent c)) s) /\
  exists token, bearer_token p = Some token /\
    match ca_via c with
    | ApiKey => key_of token (ca_agent c)
    | OAuthConnector => live_access (hash_secret token) now a (ag_id (ca_agent c)) /\ permitted p
    end.
Proof.
  intros Hv Hx. destruct (extract_ok _ _ _ _ _ Hv Hx) as (token & Hb & Hact & Hproof & Hvia & _ & Hn & Ho).
  split_and!; [done..|]. exists token. rewrite Hvia. by destruct (is_connector_token config token).
Qed.

(** Two secrets' hashes that one secret verifies are the same text. *)
Lemma verified_same secret h h' : SecretHash_parse h = Some h -> SecretHash_parse h' = Some h' ->
  api_key_verify secret h = true -> api_key_verify secret h' = true -> h = h'.
Proof.
  assert (Ha : forall h, SecretHash_parse h = Some h -> as_bytes h = h).
  { clear. intros h. unfold SecretHash_parse. destruct (_ && _) eqn:E; [|done]. intros _.
    apply andb_true_iff in E as [_ E]. apply as_bytes_ascii. apply Forall_forall. intros c Hc.
    rewrite forallb_forall in E. apply list_elem_of_In in Hc. apply E in Hc. revert Hc.
    unfold hex_lower, is_ascii_digit, in_range, is_ascii. rewrite orb_true_iff, !andb_true_iff, !N.leb_le, N.ltb_lt.
    cbn. lia. }
  unfold api_key_verify. rewrite !ct_eq_iff. intros E1%Ha E2%Ha. congruence.
Qed.

Lemma token_live_eq c now a : exists b, token_live c now a = Ok (b, a) /\
  (b = true <-> forall h, ca_token_hash c = Some h -> live_access h now a (ag_id (ca_agent c))).
Proof.
  unfold token_live, act_bind. destruct (ca_token_hash c) as [h|]; [|exists true; by split].
  rewrite (proj2 (db_read_ok _ _ _) (agent_for_access_eq h now a)).
  eexists. split; [done|]. rewrite bool_decide_eq_true. unfold live_access. split.
  - intros E h' [= <-]. by rewrite agent_for_access_eq, E.
  - intros Hl. specialize (Hl h eq_refl). rewrite agent_for_access_eq in Hl. congruence.
Qed.
(** What the check of a long-lived request asks. *)
Lemma revalidate_ok c now a : agents_valid a -> revalidate c now a = Ok (tt, a) <->
  (exists y, may_act now a y /\ ag_id y = ag_id (ca_agent c) /\
     (ca_via c = OAuthConnector \/
      ag_key_id y = ag_key_id (ca_agent c) /\ ag_api_key_hash y = ag_api_key_hash (ca_agent c))) /\
  (forall h, ca_token_hash c = Some h -> live_access h now a (ag_id (ca_agent c))) /\
  (forall s, ca_sess c = Some s -> exists r, get_open (ag_id (ca_agent c)) (se_id s) a = Ok (Some r, a)).
Proof.
  intros Hv. unfold revalidate, act_bind. rewrite (proj2 (db_read_ok _ _ _) (get_row_eq _ a)).
  set (id := ag_id (ca_agent c)).
  destruct (token_live_eq c now a) as (b & -> & Hb). fold id in Hb.
  assert (Hrow : agent_ok c now (db_agents (ac_db a) !! id) = true <->
    exists y, may_act now a y /\ ag_id y = id /\ (ca_via c = OAuthConnector \/
      ag_key_id y = ag_key_id (ca_agent c) /\ ag_api_key_hash y = ag_api_key_hash (ca_agent c))).
  { unfold agent_ok. split.
    - destruct (_ !! id) as [y|] eqn:Ey; [|done]. destruct (Hv _ _ Ey) as [Ei _].
      intros [Hm Hk]%andb_true_iff. apply may_act_bool in Hm as (? & ? & ?). exists y. unfold may_act. rewrite Ei. split_and!; [done..|].
      apply orb_true_iff in Hk as [Hk|[E1 E2]%andb_true_iff]; [left; by apply bool_decide_eq_true in Hk|right].
      by apply str_eqb_true in E1, E2.
    - intros (y & [Hy Hm] & Ei & Hk). rewrite <- Ei, Hy. apply andb_true_iff. split; [by apply may_act_bool|].
      apply orb_true_iff. destruct Hk as [Hk|[E1 E2]]; [left; by apply bool_decide_eq_true|right].
      apply andb_true_iff. by split; apply str_eqb_true. }
  cbv beta iota. rewrite <- Hrow, <- Hb. clear Hrow Hb.
  destruct (agent_ok c now _), b; cbn [negb orb]; [|by split; [|intros (? & ? & ?)]..].
  destruct (ca_sess c) as [s|].
  - destruct (get_open_eq id (se_id s) a) as (r & Eg & _). rewrite (proj2 (db_read_ok _ _ _) Eg). destruct r as [r|].
    + split; [|done]. intros _. split_and!; [done|done|]. intros ? [= <-]. eauto.
    + split; [done|]. intros (_ & _ & Hs). destruct (Hs s eq_refl) as [r Er]. congruence.
  - split; [|done]. intros _. by split_and!.
Qed.

(** C23: a request that lives on is checked at each turn as if it authenticated
    again: the check passes exactly when the same request would still be the
    same agent's, in the same session. *)
Theorem revalidate_agrees p now0 a0 c a0' now a : agents_valid a0 -> extract config p now0 a0 = Ok (c, a0') ->
  agents_valid a ->
  revalidate c now a = Ok (tt, a) <->
  exists c' a', extract config p now a = Ok (c', a') /\ ag_id (ca_agent c') = ag_id (ca_agent c) /\
    se_id <$> ca_sess c' = se_id <$> ca_sess c.
Proof.
  intros Hv0 Hx Hv. destruct (extract_ok _ _ _ _ _ Hv0 Hx) as (token & Hb & Hact & Hproof & Hvia & Hhash & Hn & _).
  rewrite revalidate_ok by done. rewrite Hvia, Hhash. destruct (is_connector_token config token) eqn:Ec; split.
  - intros ((y & Hy & Ei & _) & Hl & Hs). destruct Hproof as [_ Hp].
    destruct (extract_some p now a token y (se_id <$> ca_sess c)) as (c' & a' & Hx' & <- & Es); [done..| | | |by eauto].
    + rewrite Ec, Ei. by auto.
    + done.
    + rewrite Ei. destruct (ca_sess c) as [s|]; [|done]. intros ? [= <-]. by apply Hs.
  - intros (c' & a' & Hx' & Ei & Es). destruct (extract_ok _ _ _ _ _ Hv Hx') as (token' & Hb' & Hact' & Hproof' & _ & _ & _ & Ho').
    rewrite Hb in Hb'. injection Hb' as <-. rewrite Ec in Hproof'. rewrite <- Ei. split_and!; [by exists (ca_agent c'); auto| |].
    + intros ? [= <-]. apply Hproof'.
    + intros s Hs. rewrite Hs in Es. destruct (ca_sess c') as [s'|] eqn:Es'; [|done]. injection Es as <-. exists s'. by apply Ho'.
  - intros ((y & Hy & Ei & [?|[Hk Hh]]) & _ & Hs); [done|]. destruct Hproof as (k & Hp & Hki & Hsh & Hver).
    destruct (extract_some p now a token y (se_id <$> ca_sess c)) as (c' & a' & Hx' & <- & Es); [done..| | | |by eauto].
    + rewrite Ec. exists k. by rewrite Hk, Hh.
    + done.
    + rewrite Ei. destruct (ca_sess c) as [s|]; [|done]. intros ? [= <-]. by apply Hs.
  - intros (c' & a' & Hx' & Ei & Es). destruct (extract_ok _ _ _ _ _ Hv Hx') as (token' & Hb' & Hact' & Hproof' & _ & _ & _ & Ho').
    rewrite Hb in Hb'. injection Hb' as <-. rewrite Ec in Hproof'. rewrite <- Ei. split_and!.
    + exists (ca_agent c'). split_and!; [done|done|right]. destruct Hproof as (k & Hp & Hki & Hsh & Hver), Hproof' as (k' & Hp' & Hki' & Hsh' & Hver').
      rewrite Hp in Hp'. injection Hp' as <-. split; [congruence|]. by apply (verified_same (pk_secret k)).
    + done.
    + intros s Hs. rewrite Hs in Es. destruct (ca_sess c') as [s'|] eqn:Es'; [|done]. injection Es as <-. exists s'. by apply Ho'.
Qed.
End extraction.

(** ** What a connector's token reaches *)

Lemma serve_names served names out : serve served names = Ok out -> forall def, def ∈ out ->
  def ∈ served \/ td_name def ∈ names /\ ~ td_name def ∈ REMOTE_NEVER_SERVED.
Proof.
  revert served. induction names as [|name names IH]; intros served; cbn [serve]; [intros [= <-]; auto|].
  assert (Hgo : forall s, serve s names = Ok out -> forall def, def ∈ out ->
    def ∈ s \/ td_name def ∈ name :: names /\ ~ td_name def ∈ REMOTE_NEVER_SERVED).
  { intros s Hs def Hd. destruct (IH s Hs def Hd) as [?|[? ?]]; [by left|right]. split; [by right|done]. }
  destruct (existsb (str_eqb name) REMOTE_NEVER_SERVED) eqn:En; [apply Hgo|].
  destruct (tool name) as [d|] eqn:Et; [|done]. destruct (existsb _ served); [apply Hgo|].
  intros Hs def Hd. destruct (Hgo _ Hs def Hd) as [Hin|?]; [|by right].
  apply elem_of_app in Hin as [?|Hin]; [by left|]. apply list_elem_of_singleton in Hin as ->. right.
  unfold tool in Et. apply find_some in Et as [_ ->%str_eqb_true]. split; [by left|].
  intros Hn. assert (Ht : existsb (str_eqb name) REMOTE_NEVER_SERVED = true); [|congruence].
  apply existsb_exists. exists name. split; [by apply list_elem_of_In|by apply str_eqb_true].
Qed.

(** The credential route's path, whatever the grant. *)
Definition credential_path (path : str) : Prop := exists id,
  split (ch "/") path = [[]; lit "v1"; lit "grants"; id; lit "credential"].
Lemma no_credential_route name r path : r ∈ api_routes name -> credential_path path -> route_matches (ro_path r) path = false.
Proof.
  unfold api_routes. destruct (find _ _) as [e|] eqn:E; [|by intros ?%not_elem_of_nil].
  apply find_some in E as [Hin _]. apply list_elem_of_In in Hin. intros Hr [id Hid]. unfold route_matches. rewrite Hid.
  assert (Hall : forall id, Forall (fun e => Forall (fun r =>
    segments_match (split (ch "/") (ro_path r)) [[]; lit "v1"; lit "grants"; id; lit "credential"] = false) e.2) route_table).
  { clear. intros id. unfold route_table. repeat apply Forall_cons_2; [..|by constructor]; cbn [snd];
      repeat apply Forall_cons_2; try by constructor.
    all: destruct id; vm_compute; reflexivity. }
  exact (proj1 (Forall_forall _ _) (proj1 (Forall_forall _ _) (Hall id) e Hin) r Hr).
Qed.

Section confined.
Context `{UnicodeLower, DateLib, UuidLib, Sha256, Hex, Base64} (config : AuthConfig).

(** C24: a connector's token reaches only routes of tools that the policy names
    and that are served to web chats at all; never the route that hands out
    a grant's credential. *)
Theorem connector_confined rc served p now a c a' : RemoteMcp_new rc = Ok served ->
  au_remote_mcp config = Some served -> agents_valid a ->
  extract config p now a = Ok (c, a') -> ca_via c = OAuthConnector ->
  ~ credential_path (pt_path p) /\
  exists name r, name ∈ rm_tools rc /\ ~ name ∈ REMOTE_NEVER_SERVED /\
    r ∈ api_routes name /\ ro_method r = pt_method p /\ route_matches (ro_path r) (pt_path p) = true.
Proof.
  intros Hnew Hserved Hv Hx Hvia.
  destruct (extract_ok _ _ _ _ _ _ Hv Hx) as (token & _ & _ & Hproof & Hv' & _).
  rewrite Hvia in Hv'. destruct (is_connector_token config token); [|done].
  destruct Hproof as (_ & served' & Es & Hal). rewrite Hserved in Es. injection Es as <-.
  unfold allows in Hal. apply existsb_exists in Hal as (def & Hd & Hal). apply list_elem_of_In in Hd.
  apply existsb_exists in Hal as (r & Hr & Hm). apply list_elem_of_In in Hr.
  apply andb_true_iff in Hm as [Hm%str_eqb_true Hp]. split.
  - intros Hc. by rewrite (no_credential_route _ _ _ Hr Hc) in Hp.
  - exists (td_name def), r. destruct (serve_names _ _ _ Hnew def Hd) as [?%not_elem_of_nil|[? ?]]; [done|]. done.
Qed.
End confined.

(** ** On the sample callers *)

Import SampleCallers.

(** The table's constraints of a concrete table, computed. *)
Lemma agents_valid_check a : forallb (fun kv => N.eqb (ag_id kv.2) kv.1 && agent_checks kv.2 && negb (others_clash a kv.2))
  (map_to_list (db_agents (ac_db a))) = true -> agents_valid a.
Proof.
  rewrite forallb_forall. intros Hall id x Hx. apply elem_of_map_to_list, list_elem_of_In, Hall in Hx. revert Hx.
  cbn. rewrite !andb_true_iff, negb_true_iff, N.eqb_eq. tauto.
Qed.
Lemma accounts_valid : agents_valid accounts.
Proof. apply agents_valid_check. vm_compute. reflexivity. Qed.
Lemma rotated_valid : agents_valid rotated.
Proof. apply agents_valid_check. vm_compute. reflexivity. Qed.
Lemma key_extracted : extract config key_request (seconds 40) accounts = Ok (key_caller, after_key).
Proof. vm_compute. reflexivity. Qed.
Lemma connector_extracted : extract config connector_request (seconds 40) accounts = Ok (connector, after_connector).
Proof. vm_compute. reflexivity. Qed.
Lemma served_new : RemoteMcp_new remote = Ok served.
Proof. vm_compute. reflexivity. Qed.

Lemma caller_authenticated_witness :
  agents_valid accounts /\ extract config key_request (seconds 40) accounts = Ok (key_caller, after_key) /\
  ca_via key_caller = ApiKey /\ names_session key_request (Some 900%N).
Proof.
  split; [exact accounts_valid|]. split; [exact key_extracted|]. split; [reflexivity|].
  exact (proj1 (proj2 (caller_authenticated config key_request (seconds 40) accounts key_caller after_key
    accounts_valid key_extracted))).
Defined.
Lemma connector_confined_witness :
  RemoteMcp_new remote = Ok served /\ agents_valid accounts /\
  extract config connector_request (seconds 40) accounts = Ok (connector, after_connector) /\
  ca_via connector = OAuthConnector /\ ~ credential_path (pt_path connector_request).
Proof.
  split; [exact served_new|]. split; [exact accounts_valid|]. split; [exact connector_extracted|]. split; [reflexivity|].
  exact (proj1 (connector_confined config remote served connector_request (seconds 40) accounts connector after_connector
    served_new eq_refl accounts_valid connector_extracted eq_refl)).
Defined.
(** The check still passes later, and fails once the key was replaced. *)
Lemma revalidate_agrees_witness :
  agents_valid accounts /\ agents_valid rotated /\
  extract config key_request (seconds 40) accounts = Ok (key_caller, after_key) /\
  revalidate key_caller (seconds 60) accounts = Ok (tt, accounts) /\
  ~ exists c' a', extract config key_request (seconds 60) rotated = Ok (c', a') /\
    ag_id (ca_agent c') = ag_id (ca_agent key_caller) /\ se_id <$> ca_sess c' = se_id <$> ca_sess key_caller.
Proof.
  split; [exact accounts_valid|]. split; [exact rotated_valid|]. split; [exact key_extracted|].
  split; [vm_compute; reflexivity|]. intros Hagain.
  apply (revalidate_agrees config key_request (seconds 40) accounts key_caller after_key (seconds 60) rotated
    accounts_valid key_extracted rotated_valid) in Hagain. vm_compute in Hagain. discriminate Hagain.
Defined.
