(* ===== verification/PanelFacts.v ===== *)
(** What the admin panel promises: who signs in is an admin by the
    provider's word, a session is void once its user signs out, across
    restarts and other people's sign-outs, and it never reaches the routes
    that decide. *)

From stdpp Require Import gmap.
From S2P Require Import Prelude Json Glob Pyfmt Pool Mail Authority Routing Agents Schema Policy Zones Eval HostTypes TotpCode F64 Transcript Envelope Hello SampleCrypto CanonicalJson P256 Jwt JwtFacts Store Pairing SecretBox Accounts OAuth McpTools RemoteMcp SignIn SecurityLog Callers Panel Samples.
From stdpp Require Import options.
Import SamplePanel.
#[local] Set Default Proof Using "Type*".

(** ** Who signs in *)

Section sign_in.
Context `{RustFmt, JsonRead, Base64, Sha256, Ring, WebLib, Http, DiscoverySerde} (client : OidcClient).

(** What the acceptance of an ID token rests on. *)
Record accepted_id (id_token : str) (jwks : Value) (now : f64) (claims : list (str * Value)) : Prop := {
  ai_claims : claims_hold claims (oc_client_id client) (issuers client) now;
  ai_signed : exists h64 p64 s64 header alg key sig,
    id_token = token_text h64 p64 s64 /\ decode_object h64 = Some header /\ decode_object p64 = Some claims /\
    map_get (lit "alg") header = Some (VString alg) /\ alg ∈ ALGORITHMS /\
    key ∈ published jwks /\ (forall a, map_get (lit "alg") key = Some a -> a = VString alg) /\
    (forall k, map_get (lit "kid") header = Some (VString k) -> map_get (lit "kid") key = Some (VString k)) /\
    b64url_decode s64 = Some sig /\ key_verifies alg key (as_bytes (signing_input h64 p64)) sig = Ok true;
}.
Lemma token_checks_ok id_token jwks now claims : token_checks client id_token jwks now = Ok claims ->
  accepted_id id_token jwks (as_seconds_f64 now) claims.
Proof.
  unfold token_checks, verify_id_token. intros Hv. destruct (N.ltb _ _); [done|].
  destruct (token_parts id_token) as [[[h64 p64] s64]|] eqn:Ep; [|done]. cbn [ok_or mbind result_bind] in Hv.
  apply token_parts_some in Ep as [-> _]. apply ok_or_bind in Hv as (header & Hh & Hv).
  apply ok_or_bind in Hv as (alg & Ha & Hv). apply result_bind_ok in Hv as (kid & Hk & Hv).
  apply ok_or_bind in Hv as (key & Hf & Hv). apply refuse_bind in Hv as [Halg Hv].
  apply ok_or_bind in Hv as (sig & Hs & Hv). apply result_bind_ok in Hv as (ok & Hok & Hv).
  apply refuse_bind in Hv as [Hver%negb_false_iff Hv]. subst ok.
  apply ok_or_bind in Hv as (cl & Hc & Hv). apply result_bind_ok in Hv as ([] & Hcl & Hv).
  injection Hv as ->. constructor.
  { apply (validate_claims_ok _ _ _ _ tt). by destruct (validate_claims _ _ _ _) as [[]|]. }
  destruct (map_get (lit "alg") header) as [v|] eqn:Eh; [|done]. cbn [mbind option_bind] in Ha.
  destruct v as [| | |a| |]; try done. cbn [as_str mbind option_bind] in Ha.
  destruct (existsb (str_eqb a) ALGORITHMS) eqn:Ea; [|done]. injection Ha as ->.
  apply existsb_elem in Ea as (y & Hy & <-%str_eqb_true).
  apply find_some in Hf as [Hin Hfit]. exists h64, p64, s64, header, alg, key, sig.
  split_and!; try done.
  - by apply list_elem_of_In.
  - intros a Ea. rewrite Ea in Halg. cbn [when_some] in Halg. apply negb_false_iff in Halg. by apply str_is_true.
  - intros k Ek. rewrite Ek in Hk. injection Hk as <-. unfold fits_kid in Hfit.
    destruct (map_get (lit "kid") key) as [w|]; [|done]. cbn [when_some] in Hfit. by apply str_is_true in Hfit as ->.
Qed.

Lemma fetch_bind_ok {A B} (m : fetch A) (f : A -> fetch B) c y c' :
  fetch_bind m f c = (Ok y, c') -> exists x c1, m c = (Ok x, c1) /\ f x c1 = (Ok y, c').
Proof. unfold fetch_bind. destruct (m c) as [[x|] c1]; [eauto|done]. Qed.
Lemma fetch_lift_ok {A} (r : result SignInError A) c y c' : fetch_lift r c = (Ok y, c') -> r = Ok y /\ c' = c.
Proof. unfold fetch_lift. by intros [= -> ->]. Qed.

(** The provider's own documents: its discovery document, fetched from under
    the configured issuer and naming it; and the keys published where that
    document says. *)
Definition discovered (d : Discovery) : Prop := exists v,
  get_json (oc_issuer client ++ lit "/.well-known/openid-configuration") = Ok v /\
  de_discovery v = Some d /\ trim_end_char (ch "/") (di_issuer d) = oc_issuer client.
Definition provider_keys (jwks : Value) : Prop := exists d, discovered d /\ get_json (di_jwks_uri d) = Ok jwks.
(** What was kept is the provider's. *)
Definition cache_ok (c : OidcCache) : Prop :=
  (forall d, ox_discovery c = Some d -> discovered d) /\ (forall k, ox_jwks c = Some k -> provider_keys k).
(** A fetch keeps it so, and what it gives has [P]. *)
Definition fetches {A} (P : A -> Prop) (m : fetch A) : Prop := forall c r c', cache_ok c -> m c = (r, c') ->
  cache_ok c' /\ forall x, r = Ok x -> P x.

Lemma fetches_bind {A B} (P : A -> Prop) (Q : B -> Prop) m (f : A -> fetch B) :
  fetches P m -> (forall x, P x -> fetches Q (f x)) -> fetches Q (fetch_bind m f).
Proof.
  intros Hm Hf c r c' Hc. unfold fetch_bind. destruct (m c) as [[x|e] c1] eqn:E; destruct (Hm _ _ _ Hc E) as [Hc1 Hx].
  - by apply Hf; [apply Hx|].
  - intros [= <- <-]. by split.
Qed.
Lemma fetches_ret {A} (P : A -> Prop) x : P x -> fetches P (fetch_ret x).
Proof. intros Hx c r c' Hc [= <- <-]. split; [done|]. by intros ? [= <-]. Qed.
Lemma fetches_fail {A} (P : A -> Prop) e : fetches P (@fetch_fail A e).
Proof. intros c r c' Hc [= <- <-]. split; [assumption|]. intros x [=]. Qed.
Lemma fetches_lift {A} (r : result SignInError A) : fetches (fun x => r = Ok x) (fetch_lift r).
Proof. intros c r' c' Hc [= <- <-]. split; [done|]. by intros ? ->. Qed.

Lemma discover_fetches : fetches discovered (discover client).
Proof.
  intros c r c' Hc. assert (Herr : forall e, r = Err e -> c' = c ->
    cache_ok c' /\ forall d, r = Ok d -> discovered d) by (intros e -> ->; split; [exact Hc|done]).
  unfold discover. destruct (ox_discovery c) as [d|] eqn:E.
  { intros [= <- <-]. split; [exact Hc|]. intros ? [= <-]. by apply Hc. }
  destruct (get_json _) as [v|e] eqn:Eg; cbn [mbind result_bind]; [|intros [= <- <-]; by eapply Herr].
  destruct (de_discovery v) as [d|] eqn:Ev; cbn [ok_or]; [|intros [= <- <-]; by eapply Herr].
  destruct (str_eqb _ (oc_issuer client)) eqn:Ei; cbn [negb]; intros [= <- <-]; [|by eapply Herr].
  apply str_eqb_true in Ei. assert (Hfound : discovered d) by (exists v; by split_and!).
  split; [split; cbn; [by intros ? [= <-]|by apply Hc]|]. by intros ? [= <-].
Qed.
Lemma keys_fetches refresh : fetches provider_keys (keys client refresh).
Proof.
  intros c r c' Hc. unfold keys. destruct (if refresh then None else ox_jwks c) as [k|] eqn:E.
  - intros [= <- <-]. split; [done|]. intros ? [= <-]. apply Hc. by destruct refresh.
  - apply (fetches_bind discovered); [apply discover_fetches| |done]. intros d Hd.
    apply (fetches_bind _ _ _ _ (fetches_lift _)). intros k Hk c1 r1 c1' [Hc1 _] [= <- <-].
    assert (Hkeys : provider_keys k) by (by exists d). split; [split; cbn; [done|by intros ? [= <-]]|]. by intros ? [= <-].
Qed.
Lemma verify_token_fetches id_token now :
  fetches (fun claims => exists jwks, token_checks client id_token jwks now = Ok claims /\ provider_keys jwks)
    (verify_token client id_token now).
Proof.
  unfold verify_token. apply (fetches_bind provider_keys); [apply keys_fetches|]. intros jwks Hk.
  apply (fetches_bind (fun o => forall claims, o = Ok claims ->
    exists jwks, token_checks client id_token jwks now = Ok claims /\ provider_keys jwks)).
  - destruct (token_checks client id_token jwks now) as [cl|[|t]] eqn:Et.
    + apply fetches_ret. intros ? [= <-]. by exists jwks.
    + apply (fetches_bind provider_keys); [apply keys_fetches|]. intros jwks' Hk'. apply fetches_ret. eauto.
    + by apply fetches_ret.
  - intros [cl|e] Ho; [apply fetches_ret; by apply Ho|apply fetches_fail].
Qed.

(** Where a claim left out of the token came from: userinfo about the same
    subject. *)
Definition said (found : Discovery) (tokens : Value) (claims : list (str * Value)) (k : str) (v : Value) : Prop :=
  present k claims = Some v \/
  present k claims = None /\ exists info, userinfo found (text_or_empty (value_get tokens (lit "access_token"))) = Ok info /\
    map_get (lit "sub") info = Some (VString (text_or_empty (map_get (lit "sub") claims))) /\ map_get k info = Some v.
Lemma who_ok found tokens claims groups user : who found tokens claims = Ok (groups, user) ->
  (forall v, groups = Some v -> said found tokens claims (lit "groups") v) /\
  (forall v, user = Some v -> said found tokens claims (lit "preferred_username") v).
Proof.
  unfold who. unfold said.
  set (g := present (lit "groups") claims). set (u := present (lit "preferred_username") claims).
  clearbody g u. destruct (is_none g || is_none u) eqn:E.
  2: { intros [= <- <-]. split; intros v Hv; by left. }
  intros (info & Hi & Hw)%result_bind_ok. destruct (negb (bool_decide _)) eqn:Es; [done|].
  apply negb_false_iff, bool_decide_eq_true in Es.
  assert (Hsub : map_get (lit "sub") info = Some (VString (text_or_empty (map_get (lit "sub") claims)))).
  { destruct (map_get (lit "sub") info) as [w|]; [|done]. cbn [mbind option_bind] in Es.
    destruct w; try done. cbn [as_str] in Es. congruence. }
  injection Hw as <- <-. split; intros v Hv; [destruct g|destruct u]; cbn [or_else] in Hv;
    (by left) || (right; split; [done|]; eauto).
Qed.
Lemma in_group_ok groups : in_group client groups = true ->
  exists g, groups = Some (VArray g) /\ VString (oc_admin_group client) ∈ g.
Proof.
  unfold in_group. destruct groups as [[]|]; try done. cbn [mbind option_bind as_array].
  intros (v & Hv & Hs%str_is_true)%existsb_elem. subst v. eauto.
Qed.

Lemma begin_fetches redirect_uri carry draws : fetches (fun _ => True) (begin client redirect_uri carry draws).
Proof.
  unfold begin. destruct draws as [[[s n] v]|]; [|apply fetches_fail]. cbv zeta.
  apply (fetches_bind discovered); [apply discover_fetches|]. intros d _. by apply fetches_ret.
Qed.

(** What a sign-in that went through rests on. *)
Record signed_in (attempt : option LoginAttempt) (code state : str) (now : Instant) (user : str) (carry : option Value)
    (a : LoginAttempt) (found : Discovery) (tokens : Value) (jwks : Value) (claims : list (str * Value)) : Prop := {
  si_attempt : attempt = Some a /\ as_bytes (la_state a) = as_bytes state /\ carry = la_carry a;
  si_found : discovered found;
  si_code : redeem_code client found a code = Ok tokens;
  si_keys : provider_keys jwks;
  si_token : accepted_id (text_or_empty (value_get tokens (lit "id_token"))) jwks (as_seconds_f64 now) claims;
  si_nonce : as_bytes (text_or_empty (map_get (lit "nonce") claims)) = as_bytes (la_nonce a);
  si_group : exists g, said found tokens claims (lit "groups") (VArray g) /\ VString (oc_admin_group client) ∈ g;
  si_user : exists name, user = user_name name (text_or_empty (map_get (lit "sub") claims)) /\
    forall v, name = Some v -> said found tokens claims (lit "preferred_username") v;
}.
Lemma identify_fetches attempt code state now :
  fetches (fun r => exists a found tokens jwks claims, signed_in attempt code state now r.1 r.2 a found tokens jwks claims)
    (identify client attempt code state now).
Proof.
  unfold identify. destruct attempt as [a|]; [|apply fetches_fail].
  destruct (ct_eq (as_bytes (la_state a)) _) eqn:Es; cbn [negb]; [|apply fetches_fail]. apply ct_eq_iff in Es.
  apply (fetches_bind discovered); [apply discover_fetches|]. intros found Hfound.
  apply (fetches_bind _ _ _ _ (fetches_lift _)). intros tokens Ht.
  apply (fetches_bind _ _ _ _ (verify_token_fetches _ _)). intros claims (jwks & Hj & Hk).
  destruct (ct_eq _ (as_bytes (la_nonce a))) eqn:En; cbn [negb]; [|apply fetches_fail]. apply ct_eq_iff in En.
  apply (fetches_bind _ _ _ _ (fetches_lift _)). intros [groups name] Hw. cbv zeta.
  destruct (in_group client groups) eqn:Eg; cbn [negb]; [|apply fetches_fail]. apply fetches_ret. cbn [fst snd].
  apply in_group_ok in Eg as (g & -> & Hg). destruct (who_ok _ _ _ _ _ Hw) as [Hgr Hu].
  exists a, found, tokens, jwks, claims. constructor; try done.
  - by apply token_checks_ok.
  - exists g. split; [by apply Hgr|done].
  - exists name. by split.
Qed.

(** The panel's client at work: from an empty cache, sign-ins begun and
    ended. *)
Inductive client_runs : OidcCache -> Prop :=
| Cl_start : client_runs (mkOidcCache None None)
| Cl_begin redirect_uri carry draws r c c' : client_runs c ->
    begin client redirect_uri carry draws c = (r, c') -> client_runs c'
| Cl_identify attempt code state now r c c' : client_runs c ->
    identify client attempt code state now c = (r, c') -> client_runs c'.
Lemma client_runs_ok c : client_runs c -> cache_ok c.
Proof.
  induction 1 as [|? ? ? ? ? ? _ IH E|? ? ? ? ? ? ? _ IH E]; [done|..].
  - by apply begin_fetches in E as [? _].
  - by apply identify_fetches in E as [? _].
Qed.

(** C26: whoever signs in to the panel came back with the state this browser
    was sent with; the code was redeemed, at the token endpoint of the
    provider's discovery document, with this attempt's verifier for an ID
    token whose signature verifies with a key the provider publishes: one of
    those fetched from where the discovery document says, which was itself
    fetched from under the configured issuer and names it (whether just now
    or for an earlier sign-in). The token is issued by the provider for the
    broker, within its time and with this attempt's nonce; and the provider
    says, in the token or to a question about the same subject, that they
    are in the admin group, and the name they sign in by. *)
Theorem sign_in_sound attempt code state now c user carry c' : client_runs c ->
  identify client attempt code state now c = (Ok (user, carry), c') ->
  exists a found tokens jwks claims, signed_in attempt code state now user carry a found tokens jwks claims.
Proof.
  intros Hc%client_runs_ok Hi. destruct (identify_fetches attempt code state now c _ _ Hc Hi) as [_ Hs].
  exact (Hs _ eq_refl).
Qed.
End sign_in.

(** ** Sessions and sign-outs *)

Lemma elem_of_middle {A} (x : A) l1 l2 : x ∈ l1 ++ x :: l2.
Proof. apply elem_of_app. right. by left. Qed.
Lemma elem_of_around {A} (x y : A) l1 l2 : y ∈ l1 ++ l2 -> y ∈ l1 ++ x :: l2.
Proof. rewrite !elem_of_app. intros [?|?]; [by left|right; by right]. Qed.

Section sessions.
Context `{UrlLib, UiSerde, !UiSerdeLaws, Base64Laws, !Ring, !Aead, !AeadLaws, JsonReadLaws} (p : Panel).

(** The instants the broker's clock shows, and the lifetimes of sessions. *)
Definition present_day (now : Instant) : Prop := (0 <= now <= MAX_INSTANT)%Z.
Definition ttl_ok : Prop := (0 < pn_ttl p < 2 ^ 40)%Z.

(** A value the panel sealed: what it is of, when, and its cookie. *)
Record Sealed := mkSealed { sl_kind : Kind; sl_data : Value; sl_at : Instant; sl_cookie : str }.
(** The panel at work: the table, the copy in memory, the clock; the
    sign-outs under way (whose clock was read, and committed ones that have
    yet to write their copy, each with how many were committed by then);
    and, for the record, every cookie sealed, every sign-out committed (the
    newest first), and how many of those the copy is from. *)
Record World := mkWorld {
  wo_flags : Flags; wo_held : Signouts; wo_now : Instant; wo_started : list (str * Instant);
  wo_pending : list (nat * Signouts); wo_sealed : list Sealed; wo_out : list (str * Z); wo_seen : nat }.
Definition world0 (now : Instant) : World := mkWorld ∅ ∅ now [] [] [] [] 0.

Definition sealed_right (x : Sealed) : Prop :=
  exists n, Forall is_byte n /\ length n = NONCE_LEN /\ cookie_fits (sl_data x) /\
    cookie_seal (pn_sealer p) (sl_kind x) (sl_data x) (sl_at x) (Some n) = Some (sl_cookie x).

Inductive panel_step : World -> World -> Prop :=
(** Time passes. *)
| P_time f h now st pe se out n now' : present_day now' -> (now <= now')%Z ->
    panel_step (mkWorld f h now st pe se out n) (mkWorld f h now' st pe se out n)
(** A session is sealed, as the callback does, which read the clock when
    the browser came back. *)
| P_session f h now st pe se out n at_ user csrf cookie :
    let s := new_session p user csrf at_ in
    (0 <= at_ <= now)%Z -> sealed_right (mkSealed KSession (session_value s) at_ cookie) ->
    panel_step (mkWorld f h now st pe se out n)
      (mkWorld f h now st pe (mkSealed KSession (session_value s) at_ cookie :: se) out n)
(** Something else is sealed under the same key. *)
| P_other f h now st pe se out n at_ kind data cookie : kind <> KSession ->
    (0 <= at_ <= now)%Z -> sealed_right (mkSealed kind data at_ cookie) ->
    panel_step (mkWorld f h now st pe se out n) (mkWorld f h now st pe (mkSealed kind data at_ cookie :: se) out n)
(** A sign-out begins: the clock is read. *)
| P_sign_out f h now st pe se out n user :
    panel_step (mkWorld f h now st pe se out n) (mkWorld f h now ((user, now) :: st) pe se out n)
(** The transaction of one of those that began commits. *)
| P_commit f h now st1 st2 pe se out n user at_ g m : sign_out p user at_ f = (g, m) ->
    panel_step (mkWorld f h now (st1 ++ (user, at_) :: st2) pe se out n)
      (mkWorld g h now (st1 ++ st2) ((S (length out), m) :: pe) se ((user, unix_ms at_) :: out) n)
(** One of those that committed writes the copy. *)
| P_copy f h now st pe1 pe2 se out n k m :
    panel_step (mkWorld f h now st (pe1 ++ (k, m) :: pe2) se out n) (mkWorld f m now st (pe1 ++ pe2) se out k)
(** One that began fails; of one that committed, the answer is lost. *)
| P_fail f h now st1 st2 pe se out n x :
    panel_step (mkWorld f h now (st1 ++ x :: st2) pe se out n) (mkWorld f h now (st1 ++ st2) pe se out n)
| P_lose f h now st pe1 pe2 se out n x :
    panel_step (mkWorld f h now st (pe1 ++ x :: pe2) se out n) (mkWorld f h now st (pe1 ++ pe2) se out n)
(** Another flag is written. *)
| P_flag f h now st pe se out n key v at_ : key <> SIGNOUTS_FLAG ->
    panel_step (mkWorld f h now st pe se out n) (mkWorld (flag_set key v at_ f) h now st pe se out n)
(** The broker starts again. *)
| P_restart f h now st pe se out n :
    panel_step (mkWorld f h now st pe se out n) (mkWorld f (load_signouts f) now [] [] se out (length out)).
Inductive panel_runs (start : Instant) : World -> Prop :=
| Pr_start : present_day start -> panel_runs start (world0 start)
| Pr_step w w' : panel_runs start w -> panel_step w w' -> panel_runs start w'.

(** *** The table and the copy agree *)

Lemma unix_ms_ok now : present_day now -> unix_ms now = (now / 1000000)%Z /\ (0 <= unix_ms now < 2 ^ 53)%Z.
Proof.
  unfold present_day, MAX_INSTANT. intros Hn. assert (E : Z.quot now 1000000 = (now / 1000000)%Z) by (apply Z.quot_div_nonneg; lia).
  assert (0 <= now / 1000000 < 2 ^ 53)%Z by (split; [apply Z.div_pos; lia|apply Z.div_lt_upper_bound; lia]).
  unfold unix_ms. rewrite E. rewrite (proj2 (Z.leb_le _ _)), (proj2 (Z.ltb_lt _ _)) by lia. cbn. lia.
Qed.

(** An object of numbers, as a map. *)
Lemma sorted_keys {V} (m : list (str * V)) : map_sorted m -> NoDup (map fst m).
Proof.
  induction m as [|[k v] m IH]; cbn; [constructor|]. intros [Hk Hm]. constructor; [|by apply IH].
  intros ([k' v'] & [= ->] & Hin)%list_elem_of_fmap. unfold keys_above in Hk. rewrite Forall_forall in Hk.
  apply Hk in Hin. cbn in Hin. by apply str_lt_irrefl in Hin.
Qed.
Lemma signouts_lookup (m : list (str * Value)) k : map_sorted m ->
  signouts_from (VObject m) !! k = (map_get k m ≫= as_i64).
Proof.
  intros Hs. cbn [signouts_from]. set (l := omap _ m).
  assert (Hl : forall kt, kt ∈ rev l <-> exists v, (kt.1, v) ∈ m /\ as_i64 v = Some kt.2).
  { intros [k' t]. rewrite list_elem_of_In, <- in_rev, <- list_elem_of_In. unfold l. rewrite list_elem_of_omap. cbn. split.
    - intros ([k'' v] & Hin & Hf). cbn in Hf. destruct (as_i64 v) as [z|] eqn:Ez; [|done]. injection Hf as -> ->. eauto.
    - intros (v & Hin & Hz). exists (k', v). split; [done|]. cbn. by rewrite Hz. }
  assert (Hnd : NoDup (map fst (rev l))).
  { rewrite map_rev, <- Permutation_rev. unfold l. clear Hl l. pose proof (sorted_keys m Hs) as Hn. clear Hs. induction m as [|[k' v] m IH]; cbn; [constructor|].
    inversion_clear Hn as [|? ? Hnot Hn']. destruct (as_i64 v) as [z|]; cbn; [constructor|]; try by apply IH.
    intros ([k'' t] & [= ->] & (kv & Hin & Hf)%list_elem_of_omap)%list_elem_of_fmap. apply Hnot.
    destruct (as_i64 kv.2); [|done]. injection Hf as <- _. apply list_elem_of_fmap. by exists kv. }
  destruct (map_get k m ≫= as_i64) as [t|] eqn:E.
  - apply elem_of_list_to_map; [done|]. apply Hl. destruct (map_get k m) as [v|] eqn:Ev; [|done].
    exists v. split; [by apply map_get_elem|done].
  - apply not_elem_of_list_to_map. intros ([k' t] & -> & Hin)%list_elem_of_fmap. apply Hl in Hin as (v & Hin & Hz). cbn in *.
    apply map_get_sorted in Hin; [|done]. rewrite Hin in E. cbn in E. congruence.
Qed.
Lemma fold_insert_absent {V} k (l m : list (str * V)) : map_sorted m -> k ∉ map fst l ->
  map_get k (fold_left (fun m kv => map_insert kv.1 kv.2 m) l m) = map_get k m.
Proof.
  revert m. induction l as [|[k' v] l IH]; intros m Hm Hk; [done|]. cbn [fold_left map fst snd] in *.
  apply not_elem_of_cons in Hk as [Hne Hk]. rewrite IH, map_get_insert by (try apply map_insert_sorted; done).
  destruct (str_eqb k k') eqn:E; [by apply str_eqb_true in E|done].
Qed.
Lemma fold_insert_present {V} k v (l m : list (str * V)) : map_sorted m -> NoDup (map fst l) -> (k, v) ∈ l ->
  map_get k (fold_left (fun m kv => map_insert kv.1 kv.2 m) l m) = Some v.
Proof.
  revert m. induction l as [|[k' v'] l IH]; intros m Hm Hn Hin; [by apply not_elem_of_nil in Hin|].
  cbn [fold_left map fst snd] in *. inversion_clear Hn as [|? ? Hnot Hn']. apply elem_of_cons in Hin as [[= <- <-]|Hin].
  - rewrite fold_insert_absent, map_get_insert by (try apply map_insert_sorted; done). by rewrite (proj2 (str_eqb_true k k)).
  - apply IH; [by apply map_insert_sorted|done..].
Qed.

Definition in_i64 (m : Signouts) : Prop := forall k t, m !! k = Some t -> (- 2 ^ 63 <= t < 2 ^ 63)%Z.
Lemma signouts_roundtrip (m : Signouts) : in_i64 m -> signouts_from (signouts_value m) = m.
Proof.
  intros Hm. apply map_eq. intros k. unfold signouts_value. rewrite signouts_lookup by apply map_of_list_sorted.
  set (l := map _ (map_to_list m)).
  assert (Hk : map fst l = map fst (map_to_list m)) by (unfold l; rewrite map_map; done).
  destruct (m !! k) as [t|] eqn:E.
  - assert (Hin : (k, json_int t) ∈ l).
    { apply list_elem_of_fmap. exists (k, t). split; [done|]. by apply elem_of_map_to_list. }
    unfold map_of_list. rewrite (fold_insert_present k (json_int t)); [|done| |done].
    + cbn [mbind option_bind]. apply as_i64_int. by eapply Hm.
    + rewrite Hk. apply NoDup_fst_map_to_list.
  - unfold map_of_list. rewrite fold_insert_absent; [done|done|]. rewrite Hk.
    intros ([k' t] & -> & Hin)%list_elem_of_fmap. apply elem_of_map_to_list in Hin. cbn in E. congruence.
Qed.
(** *** The panel at work *)

(** A user's last sign-out, of these. *)
Definition last_out (user : str) (out : list (str * Z)) : option Z := snd <$> find (fun e => str_eqb e.1 user) out.
(** The sign-outs that were committed by then. *)
Definition first_outs (n : nat) (out : list (str * Z)) : list (str * Z) := drop (length out - n) out.
(** A map holds the last sign-out of everyone, but where what it voids has
    expired. *)
Definition reflects (now : Instant) (out : list (str * Z)) (m : Signouts) : Prop := in_i64 m /\
  forall u at_, last_out u out = Some at_ -> m !! u = Some at_ \/ (at_ <= unix_ms now - pn_ttl p * 1000)%Z.

Record world_ok (w : World) : Prop := {
  wk_now : present_day (wo_now w);
  wk_table : reflects (wo_now w) (wo_out w) (load_signouts (wo_flags w));
  wk_seen : wo_seen w <= length (wo_out w);
  wk_held : reflects (wo_now w) (first_outs (wo_seen w) (wo_out w)) (wo_held w);
  wk_started : forall u at_, (u, at_) ∈ wo_started w -> (0 <= at_ <= wo_now w)%Z;
  wk_pending : forall n m, (n, m) ∈ wo_pending w ->
    n <= length (wo_out w) /\ reflects (wo_now w) (first_outs n (wo_out w)) m;
  wk_sealed : forall x, x ∈ wo_sealed w -> sealed_right x /\ (0 <= sl_at x <= wo_now w)%Z /\
    (sl_kind x = KSession -> exists user csrf, sl_data x = session_value (new_session p user csrf (sl_at x)));
}.

Lemma unix_ms_mono a b : present_day a -> present_day b -> (a <= b)%Z -> (unix_ms a <= unix_ms b)%Z.
Proof. intros [-> _]%unix_ms_ok [-> _]%unix_ms_ok Hab. by apply Z.div_le_mono. Qed.

(** What a sign-out leaves: the user's own, now, and every one that can
    still void something. *)
Lemma sign_out_ok user now f g m : present_day now -> ttl_ok -> in_i64 (load_signouts f) ->
  sign_out p user now f = (g, m) ->
  load_signouts g = m /\ in_i64 m /\ m !! user = Some (unix_ms now) /\
  forall u t, u <> user -> load_signouts f !! u = Some t ->
    m !! u = Some t \/ (t <= unix_ms now - pn_ttl p * 1000)%Z.
Proof.
  intros Hn Ht Hi. unfold ttl_ok in Ht. destruct (unix_ms_ok now Hn) as [_ Hms]. unfold sign_out.
  destruct (flag_get_for_update SIGNOUTS_FLAG (VObject []) now f) as [current f1] eqn:Ef.
  assert (Hc : signouts_from current = load_signouts f).
  { revert Ef. unfold flag_get_for_update, load_signouts, flag_get. destruct (f !! SIGNOUTS_FLAG) as [[v i]|]; by intros [= <- <-]. }
  rewrite Hc. replace (sat_i64 (unix_ms now - sat_i64 (pn_ttl p * 1000))) with (unix_ms now - pn_ttl p * 1000)%Z
    by (unfold sat_i64; lia).
  set (horizon := (unix_ms now - pn_ttl p * 1000)%Z). set (kept := filter _ (load_signouts f)).
  intros [= <- <-].
  assert (Him : in_i64 (<[user:=unix_ms now]> kept)).
  { intros k t. rewrite lookup_insert_Some. intros [[_ <-]|[_ Hk]]; [lia|].
    apply map_lookup_filter_Some in Hk as [Hk _]. by eapply Hi. }
  split_and!; [|done|by rewrite lookup_insert_eq|].
  - unfold load_signouts, flag_get, flag_set. rewrite lookup_insert_eq. by apply signouts_roundtrip.
  - intros u t Hu Hk. destruct (Z.ltb_spec horizon t) as [Hlt|Hge]; [left|by right].
    rewrite lookup_insert_ne by done. apply map_lookup_filter_Some. split; [done|]. by apply Z.ltb_lt.
Qed.

Lemma first_outs_all out : first_outs (length out) out = out.
Proof. unfold first_outs. by rewrite Nat.sub_diag. Qed.
Lemma first_outs_cons n x out : n <= length out -> first_outs n (x :: out) = first_outs n out.
Proof. intros Hn. unfold first_outs. cbn [length]. by rewrite Nat.sub_succ_l. Qed.
Lemma reflects_later a b out m : present_day a -> present_day b -> (a <= b)%Z -> reflects a out m -> reflects b out m.
Proof.
  intros Ha Hb Hab [Hi Hr]. split; [done|]. intros u at_ Hu. pose proof (unix_ms_mono _ _ Ha Hb Hab).
  destruct (Hr u at_ Hu); [by left|right; lia].
Qed.
(** A sign-out's transaction leaves the table, and its map, right. *)
Lemma sign_out_reflects user at_ now f g m out : ttl_ok -> present_day now -> (0 <= at_ <= now)%Z ->
  reflects now out (load_signouts f) -> sign_out p user at_ f = (g, m) ->
  load_signouts g = m /\ reflects now ((user, unix_ms at_) :: out) m.
Proof.
  intros Ht Hn Hat [Hi Hr] Hs. assert (Hday : present_day at_) by (unfold present_day in *; lia).
  destruct (sign_out_ok _ _ _ _ _ Hday Ht Hi Hs) as (Hl & Him & Hu & Hkeep). split; [done|]. split; [done|].
  intros u t Hlast. unfold last_out in Hlast. cbn [find fst] in Hlast. destruct (str_eqb user u) eqn:E.
  - apply str_eqb_true in E as ->. injection Hlast as <-. by left.
  - assert (Hne : u <> user) by (intros ->; by rewrite (proj2 (str_eqb_true _ _) eq_refl) in E).
    pose proof (unix_ms_mono _ _ Hday Hn ltac:(lia)). destruct (Hr u t Hlast) as [Hf|?]; [|by right].
    destruct (Hkeep u t Hne Hf); [by left|right; lia].
Qed.

Lemma panel_step_ok w w' : ttl_ok -> panel_step w w' -> world_ok w -> world_ok w'.
Proof.
  intros Ht Hs [Hn Htab Hse Hh Hst Hpe Hx].
  destruct Hs; cbn [wo_now wo_flags wo_held wo_started wo_pending wo_sealed wo_out wo_seen] in *;
    constructor; cbn [wo_now wo_flags wo_held wo_started wo_pending wo_sealed wo_out wo_seen]; try done.
  - by eapply reflects_later.
  - by eapply reflects_later.
  - intros u at_ Hin. specialize (Hst u at_ Hin). lia.
  - intros k m Hin. destruct (Hpe k m Hin). split; [done|by eapply reflects_later].
  - intros x Hin. destruct (Hx x Hin) as (? & ? & ?). split_and!; try done; lia.
  - intros x [->|Hin]%elem_of_cons; [|by apply Hx]. split_and!; [done|cbn; lia..|eauto].
  - intros x [->|Hin]%elem_of_cons; [|by apply Hx]. split_and!; [done|cbn; lia..|done].
  - intros u at_ [[= -> ->]|Hin]%elem_of_cons; [unfold present_day in Hn; lia|by eapply Hst].
  - destruct (sign_out_reflects _ _ _ _ _ _ _ Ht Hn (Hst user at_ (elem_of_middle _ _ _)) Htab ltac:(eassumption)) as [-> ?]. done.
  - cbn [length]. lia.
  - by rewrite first_outs_cons.
  - intros u t Hin. by apply (Hst u t), elem_of_around.
  - destruct (sign_out_reflects _ _ _ _ _ _ _ Ht Hn (Hst user at_ (elem_of_middle _ _ _)) Htab ltac:(eassumption)) as [_ Hm].
    intros k m' [[= -> ->]|Hin]%elem_of_cons; cbn [length].
    + split; [done|]. change (S (length out)) with (length ((user, unix_ms at_) :: out)). by rewrite first_outs_all.
    + destruct (Hpe k m' Hin). split; [lia|]. by rewrite first_outs_cons.
  - by destruct (Hpe k m (elem_of_middle _ _ _)).
  - by destruct (Hpe k m (elem_of_middle _ _ _)).
  - intros k' m' Hin. by apply Hpe, elem_of_around.
  - intros u t Hin. by apply (Hst u t), elem_of_around.
  - intros k' m' Hin. by apply Hpe, elem_of_around.
  - unfold load_signouts, flag_get, flag_set. by rewrite lookup_insert_ne.
  - by rewrite first_outs_all.
  - by intros ? ? ?%elem_of_nil.
  - by intros ? ? ?%elem_of_nil.
Qed.
Lemma panel_runs_ok start w : ttl_ok -> panel_runs start w -> world_ok w.
Proof.
  intros Ht. induction 1 as [Hd|w w' _ IH Hs]; [|by eapply panel_step_ok].
  assert (Hr : forall now, reflects now [] ∅) by (intros now; split; [intros k t Hk; by rewrite lookup_empty in Hk|done]).
  constructor; cbn; try done.
  - by intros ? ? ?%elem_of_nil.
  - by intros ? ? ?%elem_of_nil.
  - by intros x ?%elem_of_nil.
Qed.

(** C27: a sign-out reads the clock, commits the table's map and then writes
    that map over the copy that sessions are checked with; each of these is a
    step of its own, and in whatever order the steps of any number of
    sign-outs come, with sessions sealed, other cookies sealed, other switches
    written, sign-outs failing half-way and restarts between them, on a clock
    that does not go back: a cookie the broker sealed opens as a session only
    if it was sealed as one, for that user, less than a lifetime ago, and
    after that user's last sign-out among the ones the copy is from, which
    are the first [wo_seen] committed. Those are all of them after a restart,
    and whenever the copy was written last by the one committed last; a
    sign-out overtaken between its commit and its copy by one committed
    before it is not among them ([sign_outs_overtake]). *)
Theorem signed_out_void start w x now s : ttl_ok -> panel_runs start w -> x ∈ wo_sealed w ->
  present_day now -> (wo_now w <= now)%Z ->
  open_session p (sl_cookie x) now (wo_held w) = Some s ->
  sl_kind x = KSession /\ (exists csrf, s = new_session p (us_user s) csrf (sl_at x)) /\
  (unix_timestamp now < unix_timestamp (sl_at x) + pn_ttl p)%Z /\
  wo_seen w <= length (wo_out w) /\
  forall at_, last_out (us_user s) (first_outs (wo_seen w) (wo_out w)) = Some at_ -> (at_ < unix_ms (sl_at x))%Z.
Proof.
  intros Ht Hw%panel_runs_ok Hin Hday Hle Ho; [|done]. destruct (wk_sealed _ Hw x Hin) as ((n & Hn & Hl & Hf & Hs) & Hat & Hk).
  assert (Hdx : present_day (sl_at x)) by (unfold present_day in *; lia). destruct (unix_ms_ok _ Hdx) as [Ems Hms].
  assert (Hts : (0 <= unix_timestamp (sl_at x) < 2 ^ 40)%Z).
  { unfold unix_timestamp, present_day, MAX_INSTANT in *. split; [apply Z.div_pos; lia|apply Z.div_lt_upper_bound; lia]. }
  assert (Hr : (- 2 ^ 63 <= unix_timestamp (sl_at x) < 2 ^ 63)%Z) by lia.
  unfold open_session in Ho. destruct (cookie_open _ KSession _ _ _) as [data|] eqn:Ec; [|done]. cbn [mbind option_bind] in Ho.
  destruct (cookie_open_seal _ _ _ _ _ _ KSession _ _ Hn Hl Hf Hr Hs _ Ec) as (Hkind & -> & _).
  destruct (Hk (eq_sym Hkind)) as (user & csrf & Hdata). rewrite Hdata in Ho. unfold ttl_ok in Ht.
  assert (Hexp : sat_i64 (unix_timestamp (sl_at x) + pn_ttl p) = (unix_timestamp (sl_at x) + pn_ttl p)%Z) by (unfold sat_i64; lia).
  rewrite de_session_value in Ho by (cbn [us_exp us_iat_ms new_session]; rewrite ?Hexp; lia).
  cbn [mbind option_bind us_exp us_user us_iat_ms new_session] in Ho. rewrite Hexp in Ho.
  destruct (Z.leb_spec (unix_timestamp (sl_at x) + pn_ttl p) (unix_timestamp now)) as [|Hlive]; [done|].
  assert (Hs' : s = new_session p user csrf (sl_at x) /\
    forall t, wo_held w !! user = Some t -> (t < unix_ms (sl_at x))%Z).
  { destruct (wo_held w !! user) as [t|]; [|by injection Ho as <-].
    destruct (Z.ltb_spec t (unix_ms (sl_at x))); [|done]. injection Ho as <-. split; [done|]. by intros ? [= <-]. }
  destruct Hs' as [-> Hheld]. split_and!; [done|by exists csrf|done|apply Hw|]. cbn [us_user new_session]. intros at_ Hout.
  destruct (proj2 (wk_held _ Hw) _ _ Hout) as [Hu|Hold]; [by apply Hheld|].
(* An older sign-out is gone only once what it voids has expired. *)
pose proof (unix_ms_mono _ _ (wk_now _ Hw) Hday Hle) as Hmono. destruct (unix_ms_ok _ Hday) as [En _].
unfold unix_timestamp in Hlive. rewrite Ems. rewrite En in Hmono.
assert (sl_at x / 1000000000 = (sl_at x / 1000000) / 1000)%Z as E1 by (rewrite Z.div_div by lia; done).
assert (now / 1000000000 = (now / 1000000) / 1000)%Z as E2 by (rewrite Z.div_div by lia; done).
rewrite E1, E2 in Hlive. set (a := (sl_at x / 1000000)%Z) in *. set (b := (now / 1000000)%Z) in *. clearbody a b.
pose proof (Z.div_mod a 1000 ltac:(lia)). pose proof (Z.mod_pos_bound a 1000 ltac:(lia)).
pose proof (Z.div_mod b 1000 ltac:(lia)). pose proof (Z.mod_pos_bound b 1000 ltac:(lia)). lia.
Qed.
End sessions.

(** ** What a session may call *)

(** The routes that decide, arm, hold or release, or give an agent another
    standing: people use Discord, the command line or a host's code. *)
Definition reserved_routes : list ApiRoute :=
  [rt "POST" "/admin/requests/{}/decide"; rt "POST" "/admin/grants/{}/revoke"; rt "POST" "/admin/hosts/{}/arm";
   rt "POST" "/admin/hosts/{}/disarm"; rt "POST" "/admin/lockdown"; rt "POST" "/admin/unlock";
   rt "POST" "/admin/containment"; rt "POST" "/admin/containment/lift"; rt "POST" "/admin/mail/items/{}/release";
   rt "POST" "/admin/mail/items/{}/discard"; rt "POST" "/admin/agents/{}/set-kind"; rt "POST" "/admin/agents/{}/enable";
   rt "POST" "/admin/agents/{}/set-webhook"].
(** Two patterns that may match one path. *)
Fixpoint overlap (a b : list str) : bool :=
  match a, b with
  | [], [] => true
  | x :: a, y :: b => (str_eqb x y || str_eqb x HOLE || str_eqb y HOLE) && overlap a b
  | _, _ => false
  end.
Lemma overlap_sound a b path : segments_match a path = true -> segments_match b path = true -> overlap a b = true.
Proof.
  revert a b. induction path as [|h path IH]; intros [|x a] [|y b]; cbn [segments_match overlap]; try done.
  rewrite !andb_true_iff. intros [Hx Ha] [Hy Hb]. split; [|by apply IH]. unfold segment_matches in Hx, Hy.
  apply orb_true_iff in Hx as [[Hx _]%andb_true_iff|Hx]; [by rewrite Hx, orb_true_r|].
  apply orb_true_iff in Hy as [[Hy _]%andb_true_iff|Hy]; [by rewrite Hy, orb_true_r|].
  apply str_eqb_true in Hx as ->. apply str_eqb_true in Hy as ->. by rewrite (proj2 (str_eqb_true h h) eq_refl).
Qed.
Lemma allowed_unreserved method path r : allowed method path = true -> r ∈ reserved_routes -> ro_method r = method ->
  route_matches (ro_path r) path = false.
Proof.
  intros (a & Ha & [Hm%str_eqb_true Hp]%andb_true_iff)%existsb_elem Hr Hmeth.
  destruct (route_matches (ro_path r) path) eqn:E; [|done]. exfalso.
  assert (Hd : forallb (fun a => forallb (fun r => negb (str_eqb (ro_method a) (ro_method r)
    && overlap (split (ch "/") (ro_path a)) (split (ch "/") (ro_path r)))) reserved_routes) ALLOWED = true) by by vm_compute.
  rewrite forallb_forall in Hd. apply list_elem_of_In, Hd in Ha. rewrite forallb_forall in Ha.
  apply list_elem_of_In, Ha in Hr. rewrite (overlap_sound _ _ _ Hp E), andb_true_r in Hr.
  apply negb_true_iff in Hr. rewrite Hm, Hmeth in Hr. by rewrite (proj2 (str_eqb_true _ _) eq_refl) in Hr.
Qed.

Section confined.
Context `{UrlLib, UiSerde, UnicodeLower, DateLib, UuidLib, Sha256, Hex, Base64, Ring, Aead, RustFmt, JsonRead}.

(** C28: a request the admin API takes for a signed-in person's came to the
    panel's own address, without a token, with that person's live session;
    anything but a read carried the session's secret; and its route is on
    the closed list, so none of those that decide. *)
Theorem panel_confined config panel r now signouts user :
  admin_caller config panel r now signouts = Ok (AdminPanel user) ->
  (exists p s, panel = Some p /\ serves p r = true /\ session p r now signouts = Some s /\ us_user s = user /\
    (ur_method r = lit "GET" \/ csrf_sent r = as_bytes (us_csrf s))) /\
  has_header r (lit "authorization") = false /\ allowed (ur_method r) (ur_path r) = true /\
  forall route, route ∈ reserved_routes -> ro_method route = ur_method r -> route_matches (ro_path route) (ur_path r) = false.
Proof.
  unfold admin_caller, extract_admin. destruct (admin_session panel r now signouts) as [[u|e]|] eqn:E; [|done|].
  2: { intros Ha. exfalso. repeat case_match; done. }
  intros [= <-]. unfold admin_session in E. destruct panel as [p|]; [|done]. cbn [mbind option_bind] in E.
  destruct (has_header r (lit "authorization")) eqn:Eh; [done|]. destruct (serves p r) eqn:Es; [|done].
  cbn [orb negb] in E. destruct (session p r now signouts) as [s|] eqn:Esn; [|done]. cbn [mbind option_bind] in E.
  destruct (allowed (ur_method r) (ur_path r)) eqn:Ea; [|done]. cbn [negb] in E.
  destruct (str_eqb (ur_method r) (lit "GET")) eqn:Eg; cbn [negb andb] in E.
  - injection E as <-. split_and!; [|done..|].
    + exists p, s. split_and!; try done. left. by apply str_eqb_true.
    + intros route Hr Hm. by apply (allowed_unreserved (ur_method r)).
  - destruct (csrf_ok r s) eqn:Ec; [|done]. injection E as <-. split_and!; [|done..|].
    + exists p, s. split_and!; try done. right. by apply ct_eq_iff.
    + intros route Hr Hm. by apply (allowed_unreserved (ur_method r)).
Qed.
End confined.

(** ** Witnesses *)

(** Someone signs out at noon and in again a minute later; the broker
    restarts. *)
Definition sample_sealed (user : string) (at_ : Instant) : Sealed :=
  mkSealed KSession (session_value (new_session sample_panel (lit user) [1%N] at_)) at_ (cookie_at user at_).
Arguments sample_sealed _%_string.
Definition sample_new : Sealed := sample_sealed "a" minute_past.
Definition sample_out : Flags * Signouts := sign_out sample_panel (lit "a") noon ∅.
Definition sample_world : World :=
  mkWorld sample_out.1 (load_signouts sample_out.1) minute_past [] [] [sample_new] [(lit "a", unix_ms noon)] 1.
Lemma sample_sealed_right user at_ : cookie_fits (sl_data (sample_sealed user at_)) ->
  cookie_seal sample_box KSession (sl_data (sample_sealed user at_)) at_ (Some sample_nonce) = Some (cookie_at user at_) ->
  sealed_right sample_panel (sample_sealed user at_).
Proof. intros Hf Hs. exists sample_nonce. split_and!; [by repeat constructor|done..]. Qed.
Ltac sample_fits :=
  split; [|apply Nat.leb_le; vm_compute; reflexivity];
  apply json_valid_object; split; [vm_compute; by repeat constructor|];
  apply Forall_forall; intros kv Hin; apply list_elem_of_In in Hin; vm_compute in Hin;
  destruct Hin as [<-|[<-|[<-|[<-|[]]]]]; split; try (by repeat constructor); done.
Lemma sample_new_right : sealed_right sample_panel sample_new.
Proof. apply sample_sealed_right; [sample_fits|vm_compute; reflexivity]. Qed.
Lemma sample_old_right : sealed_right sample_panel (sample_sealed "b" noon).
Proof. apply sample_sealed_right; [sample_fits|vm_compute; reflexivity]. Qed.
Lemma noon_present : present_day noon /\ present_day minute_past.
Proof. by split. Qed.

Lemma sample_world_runs : panel_runs sample_panel noon sample_world.
Proof.
  eapply Pr_step; [|apply (P_restart _ sample_out.1 ∅ minute_past [] [(1, sample_out.2)] [sample_new] [(lit "a", unix_ms noon)] 0)].
  eapply Pr_step; [|apply (P_session _ _ _ _ _ _ [] _ _ minute_past (lit "a") [1%N] (cookie_at "a" minute_past));
    [split; vm_compute; discriminate|exact sample_new_right]].
  eapply Pr_step; [|apply (P_time _ _ _ noon); [by apply noon_present|vm_compute; discriminate]].
  eapply Pr_step; [|apply (P_commit _ ∅ ∅ noon [] [] [] [] [] 0 (lit "a") noon), (surjective_pairing sample_out)].
  eapply Pr_step; [|apply P_sign_out]. apply Pr_start, noon_present.
Qed.
Lemma signed_out_void_witness :
  exists s, open_session sample_panel (sl_cookie sample_new) minute_past (wo_held sample_world) = Some s /\
  (exists csrf, s = new_session sample_panel (us_user s) csrf minute_past) /\
  forall at_, last_out (us_user s) (wo_out sample_world) = Some at_ -> (at_ < unix_ms minute_past)%Z.
Proof.
  eexists. split; [vm_compute; reflexivity|].
  destruct (signed_out_void sample_panel noon sample_world sample_new minute_past
    (mkUiSession (lit "a") (token_urlsafe [1%N]) 1700003660 1700000060000)) as (_ & Hc & _ & _ & Ho);
    [by unfold ttl_ok|apply sample_world_runs|by left|by unfold present_day|by vm_compute|vm_compute; reflexivity|].
  split; [exact Hc|exact Ho].
Defined.

(** Two people sign out at once; the copy of the one committed first is
    written last. No sign-out is under way any more, and the other's session
    from before still opens, until the next sign-out or restart. *)
Definition first_outed : Flags * Signouts := sign_out sample_panel (lit "a") minute_past ∅.
Definition both_outed : Flags * Signouts := sign_out sample_panel (lit "b") minute_past first_outed.1.
Definition overtaken_world : World :=
  mkWorld both_outed.1 first_outed.2 minute_past [] [] [sample_sealed "b" noon]
    [(lit "b", unix_ms minute_past); (lit "a", unix_ms minute_past)] 1.
Lemma sign_outs_overtake : panel_runs sample_panel noon overtaken_world /\
  exists s, open_session sample_panel (cookie_at "b" noon) minute_past (wo_held overtaken_world) = Some s /\
    us_user s = lit "b" /\ (us_iat_ms s < unix_ms minute_past)%Z.
Proof.
  split; [|eexists; split; [vm_compute; reflexivity|split; vm_compute; reflexivity]].
  eapply Pr_step; [|apply (P_copy _ _ both_outed.2 _ _ [] [] _ _ 2 1 first_outed.2)].
  eapply Pr_step; [|apply (P_copy _ _ ∅ _ _ [] [(1, first_outed.2)] _ _ 0 2 both_outed.2)].
  eapply Pr_step; [|apply (P_commit _ first_outed.1 ∅ minute_past [] [] [(1, first_outed.2)] [sample_sealed "b" noon]
    [(lit "a", unix_ms minute_past)] 0 (lit "b") minute_past), (surjective_pairing both_outed)].
  eapply Pr_step; [|apply (P_commit _ ∅ ∅ minute_past [] [(lit "b", minute_past)] [] [sample_sealed "b" noon] [] 0
    (lit "a") minute_past), (surjective_pairing first_outed)].
  eapply Pr_step; [|apply P_sign_out]. eapply Pr_step; [|apply P_sign_out].
  eapply Pr_step; [|apply (P_time _ _ _ noon); [by apply noon_present|vm_compute; discriminate]].
  eapply Pr_step; [|apply (P_session _ _ _ _ _ _ [] _ _ noon (lit "b") [1%N] (cookie_at "b" noon));
    [split; vm_compute; discriminate|exact sample_old_right]].
  apply Pr_start, noon_present.
Qed.

Lemma panel_confined_witness :
  admin_caller sample_auth (Some sample_panel) sample_get minute_past ∅ = Ok (AdminPanel (lit "a")) /\
  allowed (lit "GET") (lit "/admin/agents") = true.
Proof.
  assert (E : admin_caller sample_auth (Some sample_panel) sample_get minute_past ∅ = Ok (AdminPanel (lit "a")))
    by (vm_compute; reflexivity).
  split; [exact E|]. exact (proj1 (proj2 (proj2 (panel_confined _ _ _ _ _ _ E)))).
Defined.

Lemma sample_identify_ok :
  identify sample_idp (Some sample_attempt) (lit "code") (lit "st") noon (mkOidcCache None None)
  = (Ok (lit "a", None), sample_identify.2).
Proof. vm_compute. reflexivity. Qed.
Lemma sign_in_sound_witness : exists a found tokens jwks claims,
  signed_in sample_idp (Some sample_attempt) (lit "code") (lit "st") noon (lit "a") None a found tokens jwks claims.
Proof. exact (sign_in_sound sample_idp _ _ _ _ _ _ _ _ (Cl_start sample_idp) sample_identify_ok). Defined.
