(* ===== verification/TxLogic.v ===== *)
(** Reasoning about transactions: what a successful one ends with (a
    triple), and the order its changes of requests and grants respect. *)

From stdpp Require Import gmap.
From S2P Require Import Prelude Json Glob Pyfmt Lifecycle Names Durations Pool Mail Authority Routing Agents Hostexec Schema Policy Zones Eval Store Requests Grants.
From stdpp Require Import options.

Section triples.
Context `{DateLib}.

Lemma map_err_inv {E F A} (f : E -> F) (r : result E A) a : map_err f r = Ok a -> r = Ok a.
Proof. destruct r as [x|x]; cbn; intros H'; inversion H'; by subst. Qed.

(** From a database in [P], every success of [m] ends in [Q]. *)
Definition triple {E A} (P : Database -> Prop) (m : tx E A) (Q : A -> Database -> Prop) : Prop :=
  forall db a db', P db -> m db = Ok (a, db') -> Q a db'.

Lemma triple_ret {E A} (Q : A -> Database -> Prop) a : triple (Q a) (@tx_ret _ E A a) Q.
Proof. by intros db ? ? HQ [= <- <-]. Qed.
Lemma triple_fail {E A} P Q (e : E) : triple P (@tx_fail _ E A e) Q.
Proof. by intros ? ? ? ? [=]. Qed.
Lemma triple_bind {E A B} P R Q (m : tx E A) (f : A -> tx E B) :
  triple P m R -> (forall a, triple (R a) (f a) Q) -> triple P (tx_bind m f) Q.
Proof.
  unfold triple, tx_bind. intros Hm Hf db b db' HP.
  destruct (m db) as [[a db1]|] eqn:E1; [|done]. eauto.
Qed.
Lemma triple_lift {E A} (P : Database -> Prop) (r : result E A) :
  triple P (tx_lift r) (fun a db => P db /\ r = Ok a).
Proof. unfold triple, tx_lift. by destruct r; intros ? ? ? ? [= <- <-]. Qed.
Lemma triple_read {E A} (P : Database -> Prop) (f : Database -> A) :
  triple P (@tx_read _ E A f) (fun a db => P db /\ a = f db).
Proof. by intros ? ? ? ? [= <- <-]. Qed.
Lemma triple_write {E} (P : Database -> Prop) (f : Database -> Database) :
  triple P (@tx_write _ E f) (fun _ db' => exists db, P db /\ db' = f db).
Proof. intros db ? ? HP [= <- <-]. eauto. Qed.
Lemma triple_map_err {E F A} P Q (f : E -> F) (m : tx E A) : triple P m Q -> triple P (tx_map_err f m) Q.
Proof. intros Hm db a db' HP Hr. apply map_err_inv in Hr. eauto. Qed.
Lemma triple_weaken {E A} (P P' : Database -> Prop) (Q Q' : A -> Database -> Prop) (m : tx E A) :
  (forall db, P' db -> P db) -> (forall a db, Q a db -> Q' a db) -> triple P m Q -> triple P' m Q'.
Proof. unfold triple. eauto. Qed.

(** The other way: what a success says of its parts. *)
Lemma tx_bind_ok {E A B} (m : tx E A) (f : A -> tx E B) db b db' :
  tx_bind m f db = Ok (b, db') -> exists a db1, m db = Ok (a, db1) /\ f a db1 = Ok (b, db').
Proof. unfold tx_bind. destruct (m db) as [[a db1]|]; [eauto|done]. Qed.
End triples.

(** Invert one step of a successful transaction. *)
Ltac tx_ok1 :=
  match goal with
  | H : tx_bind _ _ _ = Ok (_, _) |- _ =>
      apply tx_bind_ok in H; let a := fresh "a" in let d := fresh "db" in
      let Hm := fresh "Hm" in destruct H as (a & d & Hm & H); cbv beta in H
  | H : tx_ret _ _ = Ok (_, _) |- _ => unfold tx_ret in H; injection H as H; try subst
  | H : tx_fail _ _ = Ok (_, _) |- _ => discriminate H
  | H : tx_read _ _ = Ok (_, _) |- _ => unfold tx_read in H; injection H as H; try subst
  | H : tx_write _ _ = Ok (_, _) |- _ => unfold tx_write in H; injection H as H; try subst
  | H : tx_lift ?r _ = Ok (_, _) |- _ =>
      unfold tx_lift in H; let E := fresh "E" in destruct r eqn:E; [injection H as H; try subst | discriminate H]
  | H : tx_map_err _ _ _ = Ok (_, _) |- _ => unfold tx_map_err in H; apply map_err_inv in H
  end.
Ltac tx_ok := repeat tx_ok1; try done.

(** ** The order *)

Lemma history_app s p t q u : history s p t -> history t q u -> history s (p ++ q) u.
Proof. induction 1; [done|]. intros Hq. cbn. econstructor; eauto. Qed.
Lemma grant_history_app g p t q u :
  grant_history g p t -> grant_history t q u -> grant_history g (p ++ q) u.
Proof. induction 1; [done|]. intros Hq. cbn. econstructor; eauto. Qed.

Section order.
Context `{DateLib}.

(** What never changes of a request and of a grant. *)
Definition request_spec (r : RequestRow) :=
  (rq_id r, rq_agent r, rq_session r, rq_delegation r, rq_platform r, rq_resource r, rq_capability r,
  rq_scope r, rq_authority r, rq_duration r, rq_created_at r).
Definition grant_spec (g : GrantRow) :=
  (gr_id g, gr_request g, gr_agent g, gr_session g, gr_delegation g, gr_platform g, gr_authority g,
  gr_granted_at g, gr_created_at g).

Definition request_later (r r' : RequestRow) : Prop :=
  request_spec r' = request_spec r /\ (exists path, history (rq_status r) path (rq_status r'))
  /\ (rq_attempt r <= rq_attempt r')%N.
Definition grant_later (g g' : GrantRow) : Prop :=
  grant_spec g' = grant_spec g /\ (exists path, grant_history (gr_status g) path (gr_status g'))
  /\ (gr_expires_at g' <= gr_expires_at g)%Z.

(** Every request and grant is still there, further along its lifecycle. *)
Definition later (db db' : Database) : Prop :=
  (forall k r, db_requests db !! k = Some r -> exists r', db_requests db' !! k = Some r' /\ request_later r r')
  /\ (forall k g, db_grants db !! k = Some g -> exists g', db_grants db' !! k = Some g' /\ grant_later g g').

#[export] Instance request_later_preorder : PreOrder request_later.
Proof.
  split; [intros r; split_and!; [done|exists []; constructor|done]|].
  intros a b c (? & [p Hp] & ?) (? & [q Hq] & ?). split_and!; [congruence| |lia].
  exists (p ++ q). by eapply history_app.
Qed.
#[export] Instance grant_later_preorder : PreOrder grant_later.
Proof.
  split; [intros g; split_and!; [done|exists []; constructor|done]|].
  intros a b c (? & [p Hp] & ?) (? & [q Hq] & ?). split_and!; [congruence| |lia].
  exists (p ++ q). by eapply grant_history_app.
Qed.
#[export] Instance later_preorder : PreOrder later.
Proof.
  split.
  - intros db. split; intros k x Hx; exists x; by split.
  - intros a b c [R1 G1] [R2 G2]. split; intros k x Hx.
  + destruct (R1 _ _ Hx) as (y & Hy & L1). destruct (R2 _ _ Hy) as (z & Hz & L2).
    exists z. split; [done|by transitivity y].
  + destruct (G1 _ _ Hx) as (y & Hy & L1). destruct (G2 _ _ Hy) as (z & Hz & L2).
    exists z. split; [done|by transitivity y].
Qed.

(** Rows are stored under their own ids. *)
Definition keyed (db : Database) : Prop :=
  (forall k r, db_requests db !! k = Some r -> rq_id r = k)
  /\ (forall k g, db_grants db !! k = Some g -> gr_id g = k).

(** The same requests and grants. *)
Definition same_rows (db db' : Database) : Prop :=
  db_requests db' = db_requests db /\ db_grants db' = db_grants db.
Lemma same_rows_later db db' : same_rows db db' -> later db db'.
Proof. intros [HR HG]. unfold later. rewrite HR, HG. apply later_preorder. Qed.
Lemma same_rows_keyed db db' : same_rows db db' -> keyed db -> keyed db'.
Proof. intros [HR HG]. unfold keyed. by rewrite HR, HG. Qed.

Lemma edge_history s t : can_transition s t = true -> exists path, history s path t.
Proof. intros Hst. exists [t]. econstructor; [done|constructor]. Qed.
Lemma grant_edge_history s t : grant_can_transition s t = true -> exists path, grant_history s path t.
Proof. intros Hst. exists [t]. econstructor; [done|constructor]. Qed.

(** A row moved along. *)
Lemma later_request db k r r' :
  keyed db -> db_requests db !! k = Some r -> request_later r r' ->
  let db' := with_requests db (<[k := r']> (db_requests db)) in keyed db' /\ later db db'.
Proof.
  intros [HR HG] Hk Hl db'.
  assert (rq_id r' = k).
  { destruct Hl as (Hs & _). apply (f_equal (fun x => fst (fst (fst (fst (fst (fst (fst (fst (fst (fst x)))))))))))
    in Hs. cbn in Hs. rewrite Hs. eauto. }
  split; split; cbn.
  - intros k' x [(<- & <-)|[Hn Hx]]%lookup_insert_Some; eauto.
  - eauto.
  - intros k' x Hx. destruct (decide (k = k')) as [<-|Hn].
  + exists r'. rewrite lookup_insert_eq. split; [done|]. congruence.
  + exists x. rewrite lookup_insert_ne by done. by split.
  - intros k' x Hx. exists x. by split.
Qed.
Lemma later_grant db k g g' :
  keyed db -> db_grants db !! k = Some g -> grant_later g g' ->
  let db' := with_grants db (<[k := g']> (db_grants db)) in keyed db' /\ later db db'.
Proof.
  intros [HR HG] Hk Hl db'.
  assert (gr_id g' = k).
  { destruct Hl as (Hs & _). apply (f_equal (fun x => fst (fst (fst (fst (fst (fst (fst (fst x)))))))))
    in Hs. cbn in Hs. rewrite Hs. eauto. }
  split; split; cbn.
  - eauto.
  - intros k' x [(<- & <-)|[Hn Hx]]%lookup_insert_Some; eauto.
  - intros k' x Hx. exists x. by split.
  - intros k' x Hx. destruct (decide (k = k')) as [<-|Hn].
  + exists g'. rewrite lookup_insert_eq. split; [done|]. congruence.
  + exists x. rewrite lookup_insert_ne by done. by split.
Qed.
(** A new row. *)
Lemma later_new_request db k r :
  keyed db -> db_requests db !! k = None -> rq_id r = k ->
  let db' := with_requests db (<[k := r]> (db_requests db)) in keyed db' /\ later db db'.
Proof.
  intros [HR HG] Hk Hr db'. split; split; cbn.
  - intros k' x [(<- & <-)|[Hn Hx]]%lookup_insert_Some; eauto.
  - eauto.
  - intros k' x Hx. exists x. rewrite lookup_insert_ne by congruence. by split.
  - intros k' x Hx. exists x. by split.
Qed.
Lemma later_new_grant db k g :
  keyed db -> db_grants db !! k = None -> gr_id g = k ->
  let db' := with_grants db (<[k := g]> (db_grants db)) in keyed db' /\ later db db'.
Proof.
  intros [HR HG] Hk Hr db'. split; split; cbn.
  - eauto.
  - intros k' x [(<- & <-)|[Hn Hx]]%lookup_insert_Some; eauto.
  - intros k' x Hx. exists x. by split.
  - intros k' x Hx. exists x. rewrite lookup_insert_ne by congruence. by split.
Qed.

(** What the platforms' code may change: of a grant, its state and, for an
    alias it makes, its address; of a request, nothing. *)
Definition platform_row (g g' : GrantRow) : Prop :=
  grant_spec g' = grant_spec g /\ gr_status g' = gr_status g /\ gr_expires_at g' = gr_expires_at g
  /\ (grant_checks g = true -> grant_checks g' = true).
Definition platform_kept (db db' : Database) : Prop :=
  db_requests db' = db_requests db
  /\ (forall k g, db_grants db !! k = Some g -> exists g', db_grants db' !! k = Some g' /\ platform_row g g')
  /\ (forall k, db_grants db !! k = None -> db_grants db' !! k = None).
Lemma platform_kept_refl db : platform_kept db db.
Proof. split; [done|]. split; [|done]. intros k g Hg. exists g. by split_and!. Qed.
Lemma platform_kept_back db db' k g' :
  platform_kept db db' -> db_grants db' !! k = Some g' ->
  exists g, db_grants db !! k = Some g /\ platform_row g g'.
Proof.
  intros (_ & HG & HN) Hg'. destruct (db_grants db !! k) as [g|] eqn:Hg; [|by rewrite HN in Hg'].
  destruct (HG _ _ Hg) as (x & Hx & Hs). replace x with g' in * by congruence. eauto.
Qed.
Lemma grant_later_same g g' :
  grant_spec g' = grant_spec g -> gr_status g' = gr_status g -> (gr_expires_at g' <= gr_expires_at g)%Z -> grant_later g g'.
Proof. intros Hs Ht He. split_and!; [done|exists []; rewrite Ht; constructor|done]. Qed.
Lemma grant_later_edge g g' :
  grant_spec g' = grant_spec g -> grant_can_transition (gr_status g) (gr_status g') = true ->
  gr_expires_at g' = gr_expires_at g -> grant_later g g'.
Proof. intros Hs Ht He. split_and!; [done|by apply grant_edge_history|by rewrite He]. Qed.
Lemma platform_kept_keyed db db' : platform_kept db db' -> keyed db -> keyed db'.
Proof.
  intros Hk [KR KG]. split.
  - destruct Hk as (HR & _). by rewrite HR.
  - intros k g' Hg'. destruct (platform_kept_back _ _ _ _ Hk Hg') as (g & Hg & Hs & _).
  apply (f_equal (fun x => fst (fst (fst (fst (fst (fst (fst (fst x))))))))) in Hs. cbn in Hs. rewrite Hs. eauto.
Qed.

(** ** Transactions that only move along an order of databases *)

(** An order every write of the store but [activate] respects... *)
Record StepOrder (R : Database -> Database -> Prop) : Prop := {
  so_refl db : R db db;
  so_trans db1 db2 db3 : R db1 db2 -> R db2 db3 -> R db1 db3;
  so_same db db' : same_rows db db' -> R db db';
  so_request db k r r' : keyed db -> db_requests db !! k = Some r -> request_later r r' ->
  R db (with_requests db (<[k := r']> (db_requests db)));
  so_new_request db k r : db_requests db !! k = None -> R db (with_requests db (<[k := r]> (db_requests db)));
  so_grant db k g g' : keyed db -> db_grants db !! k = Some g -> grant_later g g' ->
  (gr_status g' = GActive -> gr_status g = GActive) ->
  R db (with_grants db (<[k := g']> (db_grants db)));
  so_new_grant db k g : db_grants db !! k = None -> gr_status g = GProvisioning ->
  R db (with_grants db (<[k := g]> (db_grants db)));
  so_platform db db' : platform_kept db db' -> R db db';
}.
(** ... and [activate] of this grant too. *)
Record ActivateOrder (R : Database -> Database -> Prop) (k : GrantId) : Prop := {
  so_activate db g g' : keyed db -> db_grants db !! k = Some g -> grant_later g g' ->
  R db (with_grants db (<[k := g']> (db_grants db)));
}.

Lemma later_StepOrder : StepOrder later.
Proof.
  split.
  - apply later_preorder.
  - apply later_preorder.
  - apply same_rows_later.
  - intros db k r r' HK Hr Hl. by eapply later_request.
  - intros db k r Hk. split; cbn; intros k' x Hx; exists x; [|done].
  rewrite lookup_insert_ne by congruence. by split.
  - intros db k g g' HK Hg Hl _. by eapply later_grant.
  - intros db k g Hk _. split; cbn; intros k' x Hx; exists x; [done|].
  rewrite lookup_insert_ne by congruence. by split.
  - intros db db' (HR & HG & _). split; [rewrite HR; intros k r Hr; by exists r|].
  intros k g Hg. destruct (HG _ _ Hg) as (x & Hx & Hs & Ht & He & _). exists x. split; [done|].
  apply grant_later_same; [done..|]. by rewrite He.
Qed.
Lemma later_ActivateOrder k : ActivateOrder later k.
Proof. split. intros db g g' HK Hg Hl. by eapply later_grant. Qed.

(** But for this one, no grant became active, and none that is had its end
    moved later. *)
Definition dormant_but (but : option GrantId) (db db' : Database) : Prop :=
  forall k g', but <> Some k -> db_grants db' !! k = Some g' -> gr_status g' = GActive ->
  exists g, db_grants db !! k = Some g /\ gr_status g = GActive /\ grant_later g g'.
Notation dormant := (dormant_but None).
Lemma dormant_StepOrder but : StepOrder (dormant_but but).
Proof.
  assert (Hkeep : forall db k g, db_grants db !! k = Some g -> gr_status g = GActive ->
  exists x, db_grants db !! k = Some x /\ gr_status x = GActive /\ grant_later x g) by (intros; by eexists).
  split.
  - intros db k g _ Hg Ha. eauto.
  - intros a b c H1' H2' k g Hb Hg Ha. destruct (H2' _ _ Hb Hg Ha) as (x & Hx & Hax & L1).
  destruct (H1' _ _ Hb Hx Hax) as (y & Hy & Hay & L2). exists y. split_and!; [done..|by transitivity x].
  - intros db db' [_ HG] k g _. rewrite HG. eauto.
  - intros db k r r' _ _ _ k' g _. cbn. eauto.
  - intros db k r _ k' g _. cbn. eauto.
  - intros db k g g' _ Hg Hl Hs k' x _. cbn. intros [(<- & <-)|[_ Hx]]%lookup_insert_Some Ha; eauto.
  - intros db k g _ Hs k' x _. cbn. intros [(<- & <-)|[_ Hx]]%lookup_insert_Some Ha; [congruence|eauto].
  - intros db db' Hp k g _ Hg Ha. destruct (platform_kept_back _ _ _ _ Hp Hg) as (x & Hx & Hsp & Hs & He & _).
  exists x. split_and!; [done|congruence|]. apply grant_later_same; [done..|]. by rewrite He.
Qed.
Lemma dormant_ActivateOrder k : ActivateOrder (dormant_but (Some k)) k.
Proof.
  split. intros db g g' _ Hg Hl k' x Hn. cbn. rewrite lookup_insert_ne by congruence. intros Hx Ha. by exists x.
Qed.
Lemma dormant_weaken but db db' : dormant db db' -> dormant_but but db db'.
Proof. intros Hd k g _. by apply Hd. Qed.

Section mono.
Context (R : Database -> Database -> Prop) (HR : StepOrder R).

Definition mono {E A} (m : tx E A) : Prop :=
  forall db a db', keyed db -> m db = Ok (a, db') -> keyed db' /\ R db db'.

Lemma mono_ret {E A} (a : A) : mono (@tx_ret _ E A a).
Proof using HR. intros db ? ? HK [= <- <-]. split; [done|by apply so_refl]. Qed.
Lemma mono_fail {E A} (e : E) : mono (@tx_fail _ E A e).
Proof using HR. by intros ? ? ? ? [=]. Qed.
Lemma mono_read {E A} (f : Database -> A) : mono (@tx_read _ E A f).
Proof using HR. intros db ? ? HK [= <- <-]. split; [done|by apply so_refl]. Qed.
Lemma mono_lift {E A} (r : result E A) : mono (tx_lift r).
Proof using HR. unfold tx_lift. destruct r; intros db ? ? HK [= <- <-]. split; [done|by apply so_refl]. Qed.
Lemma mono_map_err {E F A} (f : E -> F) (m : tx E A) : mono m -> mono (tx_map_err f m).
Proof using HR. intros Hm db a db' HK Hr. tx_ok. eauto. Qed.
Lemma mono_bind {E A B} (m : tx E A) (f : A -> tx E B) :
  mono m -> (forall a, mono (f a)) -> mono (tx_bind m f).
Proof using HR.
  intros Hm Hf db b db' HK Hr. tx_ok. destruct (Hm _ _ _ HK Hm0) as [K1 L1].
  destruct (Hf _ _ _ _ K1 Hr) as [K2 L2]. split; [done|by eapply so_trans].
Qed.
Lemma mono_write {E} (f : Database -> Database) :
  (forall db, same_rows db (f db)) -> mono (@tx_write _ E f).
Proof using HR. intros Hf db ? ? HK [= <- <-]. split; [by eapply same_rows_keyed|by apply so_same]. Qed.
End mono.
End order.

Notation dormant := (dormant_but None).

Create HintDb mono.
#[export] Hint Resolve mono_ret mono_fail mono_read mono_lift mono_map_err : mono.
#[export] Hint Resolve later_StepOrder later_ActivateOrder dormant_StepOrder dormant_ActivateOrder : mono.
(** The structure of a transaction, down to what the hints know. *)
Ltac mono1 :=
  match goal with
  | |- mono _ (tx_bind _ _) => apply mono_bind; [assumption| |intros ?]
  | |- mono _ (tx_map_err _ _) => apply mono_map_err; [assumption|]
  | |- mono _ (tx_write _) => apply mono_write; [assumption|]; intros ?; by split
  | |- mono _ (match ?x with _ => _ end) => destruct x
  | |- mono _ (let _ := _ in _) => cbv zeta
  | |- mono _ _ => solve [auto with mono nocore]
  end.
Ltac mono := repeat mono1.
