(* ===== verification/ServiceMono.v ===== *)
(** The lifecycle's transactions only move requests and grants along
    ([TxLogic.later]): every operation of the store and of the service. *)

From stdpp Require Import gmap.
From S2P Require Import Prelude Json Glob Pyfmt Lifecycle Names Durations Pool Mail Authority Routing Agents Hostexec Schema Policy Zones Eval CanonicalJson Store Requests Grants Threads ServiceRouting Provision Create Decide Review Contain TxLogic.
From stdpp Require Import options.
#[local] Set Default Proof Using "Type*".

(** ** The store *)

Section store.
Context `{DateLib, RustFmt}.

Lemma request_later_refl_status r r' :
  request_spec r' = request_spec r -> rq_status r' = rq_status r -> rq_attempt r' = rq_attempt r -> request_later r r'.
Proof. intros Hs Ht Ha. split_and!; [done|exists []; rewrite Ht; constructor|by rewrite Ha]. Qed.

Lemma update_request_later db old new u db' :
  keyed db -> db_requests db !! rq_id old = Some old -> request_later old new ->
  update_request old new db = Ok (u, db') ->
  keyed db' /\ db' = with_requests db (<[rq_id old := new]> (db_requests db)).
Proof.
  intros HK Hk Hl Hr. unfold update_request in Hr. case_match; [|done]. tx_ok.
  split_and!; [by eapply later_request|done].
Qed.

Lemma apply_changes_later ch to now r :
  can_transition (rq_status r) to = true -> request_later r (apply_changes ch to now r).
Proof.
  intros Ht. split_and!; [done|by apply edge_history|]. cbn. case_match; lia.
Qed.

(** What a transition that was not lost did. *)
Lemma transition_ok {from} (r : Request from) e `{!CanMoveTo from (target e)} now db h db' :
  transition r e now db = Ok (Ok h, db') ->
  exists row, db_requests db !! rq_id (rq_row r) = Some row /\ rq_status row = from /\
  rq_row h = apply_changes (changes e) (target e) now row /\
  request_checks (rq_row h) = true /\
  update_request row (rq_row h) db = Ok (tt, db').
Proof.
  unfold transition. intros Hr. case_match; [done|]. tx_ok.
  case_match; [|by tx_ok]. case_match; [|by tx_ok]. bools. tx_ok.
  unfold read_request in *. case_match; [done|]. inv_ok. unfold Request_new in *.
  case_match; [|done]. inv_ok. eexists. split_and!; [done|done|done| |].
  - unfold update_request in *. case_match; [|done]. by bools.
  - by match goal with Hm : update_request _ _ _ = Ok (?u, _) |- _ => destruct u end.
Qed.
(** And one that was. *)
Lemma transition_lost {from} (h0 : Request from) e `{HC : !CanMoveTo from (target e)} now db i db' :
  transition h0 e now db = Ok (Err i, db') ->
  db' = db /\ i = rq_id (rq_row h0) /\
  match db_requests db !! i with Some row => rq_status row <> from | None => True end.
Proof.
  unfold transition. intros Hr. case_match; [done|].
  apply tx_bind_ok in Hr as (u & d1 & Hl & Hr). apply tx_bind_ok in Hr as (o & d2 & Ho & Hr).
  unfold tx_lift in Hl. destruct (opt_to_i32 _); [|done]. injection Hl as _ <-. injection Ho as <- <-.
  destruct (db_requests db !! rq_id (rq_row h0)) as [row|] eqn:Hrow.
  - case_match; tx_ok. bools. split_and!; [done..|]. by rewrite Hrow.
  - tx_ok. split_and!; [done..|]. by rewrite Hrow.
Qed.
Lemma read_pending (r : RequestRow) : rq_status r = Pending -> read_request r = Ok r.
Proof. intros Hs. unfold read_request. rewrite Hs. by destruct (is_none (rq_authority r)). Qed.
Lemma Request_new_ok S (r : RequestRow) : rq_status r = S -> Request_new S r = Ok (mkHandle r).
Proof. intros Hs. unfold Request_new. by rewrite bool_decide_true. Qed.

(** What an insert leaves. *)
Lemma insert_request_ok id agent session d p resource cap scope a j secs notes now db r db' :
  insert_request id agent session d p resource cap scope a j secs notes now db = Ok (r, db') ->
  let row := rq_row r in
  rq_id row = id /\ rq_status row = Pending /\ request_checks row = true /\ rq_approved_duration row = None /\
  rq_edit row = None /\ rq_agent row = agent /\ rq_platform row = p /\ rq_authority row = a /\
  opt_ok (fun a => bool_decide (platform a = p)) a = true /\
  db_requests db !! id = None /\ db' = with_requests db (<[id := row]> (db_requests db)).
Proof.
  unfold insert_request. intros Hr. case_match eqn:Hp; [done|]. tx_ok.
  repeat (case_match; [done|]). tx_ok. 
  match goal with HE : read_request _ = Ok _ |- _ => rewrite read_pending in HE by done; injection HE as <- end.
  match goal with HE : Request_new _ _ = Ok _ |- _ => rewrite Request_new_ok in HE by done; injection HE as <- end.
  cbn [rq_row]. bools.
  split_and!; try done.
  - unfold opt_ok. destruct a; [|done]. by apply negb_false_iff in Hp.
  - by destruct (db_requests _ !! _).
Qed.
(** A compare-and-set that was not lost. *)
Lemma compare_and_set_ok id from f db g' db' :
  compare_and_set id from f db = Ok (Ok g', db') ->
  exists g, db_grants db !! id = Some g /\ gr_status g = from /\ g' = f g /\ grant_checks (f g) = true /\
  db' = with_grants db (<[gr_id g := f g]> (db_grants db)).
Proof.
  unfold compare_and_set, get_grant. intros Hr. tx_ok. case_match; [|by tx_ok]. case_match; [|by tx_ok].
  bools. tx_ok. unfold update_grant in *. case_match; [|done]. bools. tx_ok. eauto 10.
Qed.
(** And one that was. *)
Lemma compare_and_set_lost id from f db i db' :
  compare_and_set id from f db = Ok (Err i, db') ->
  db' = db /\ i = id /\ forall g, db_grants db !! id = Some g -> gr_status g <> from.
Proof.
  unfold compare_and_set, get_grant. intros Hr. apply tx_bind_ok in Hr as (o & db1 & Ho & Hr).
  injection Ho as <- <-. destruct (db_grants db !! id) as [g|] eqn:Hg; [case_match|]; bools; tx_ok.
  split_and!; [done..|]. by intros g' [= <-].
Qed.
Lemma expiring_later now g : grant_later g (expiring now g).
Proof. apply grant_later_same; [done..|]. cbn. lia. Qed.
(** What an insert leaves. *)
Lemma insert_grant_ok g db g' db' :
  insert_grant g db = Ok (g', db') ->
  exists r, g' = g /\ db' = with_grants db (<[gr_id g := g]> (db_grants db)) /\ db_grants db !! gr_id g = None /\
  gr_status g = GProvisioning /\ grant_checks g = true /\
  db_requests db !! gr_request g = Some r /\ rq_status r = Provisioning /\ rq_agent r = gr_agent g /\
  rq_platform r = gr_platform g /\
  (forall k x, db_grants db !! k = Some x -> gr_request x <> gr_request g).
Proof.
  unfold insert_grant. intros Hr. tx_ok. case_match; [done|]. case_match eqn:Hu; [done|].
  case_match eqn:Hf; [done|]. tx_ok. bools.
  destruct (db_requests db0 !! gr_request g') as [r|] eqn:Hreq; [|done]. cbn [is_provisioning] in *. bools.
  exists r. split_and!; try done.
  - by destruct (db_grants db0 !! gr_id g').
  - intros k x Hx He. match goal with HH : existsb _ _ = false |- _ => apply not_true_iff_false in HH; apply HH end.
  apply existsb_elem. exists (k, x). split; [by apply elem_of_map_to_list|]. by apply N.eqb_eq.
Qed.
End store.

(** A branch that changed nothing. *)
Ltac stays := tx_ok; split; [done|by apply so_refl].

Section store_mono.
Context `{DateLib, RustFmt} (R : Database -> Database -> Prop) (HR : StepOrder R).

Lemma update_request_mono db old new u db' :
  keyed db -> db_requests db !! rq_id old = Some old -> request_later old new ->
  update_request old new db = Ok (u, db') -> keyed db' /\ R db db'.
Proof.
  intros HK Hk Hl Hr. destruct (update_request_later _ _ _ _ _ HK Hk Hl Hr) as [K1 ->].
  split; [done|]. exact (so_request R HR _ _ _ _ HK Hk Hl).
Qed.

Lemma transition_mono {from} (r : Request from) e `{HC : !CanMoveTo from (target e)} now : mono R (transition r e now).
Proof.
  intros db a db' HK Hr. destruct a as [h|i].
  - apply transition_ok in Hr as (row & Hrow & Hst & Heq & _ & Hu).
  assert (Hid : rq_id row = rq_id (rq_row r)) by (by eapply HK).
  assert (Hl : request_later row (rq_row h)).
  { rewrite Heq. apply apply_changes_later. rewrite Hst. by apply can_transition_iff. }
  rewrite <- Hid in Hrow. by eapply update_request_mono.
  - apply transition_lost in Hr as (-> & _). split; [done|by apply so_refl].
Qed.

Lemma update_same_mono {E} id (f : RequestRow -> RequestRow) (k : RequestRow -> tx StoreError E) :
  (forall r, request_later r (f r)) -> (forall r, mono R (k r)) ->
  forall db a db', keyed db ->
  match db_requests db !! id with
  | Some r => tx_bind (update_request r (f r)) (fun _ => k r) db = Ok (a, db')
  | None => False
  end -> keyed db' /\ R db db'.
Proof.
  intros Hf Hm db a db' HK Hr. destruct (db_requests db !! id) as [r|] eqn:Hk; [|done]. tx_ok.
  assert (Hid : rq_id r = id) by (by eapply HK). subst id.
  destruct (update_request_mono _ _ _ _ _ HK Hk (Hf r) Hm0) as [K1 L1].
  destruct (Hm _ _ _ _ K1 Hr) as [K2 L2]. split; [done|by eapply so_trans].
Qed.

Lemma set_approved_edit_mono r edit now : mono R (set_approved_edit r edit now).
Proof.
  intros db a db' HK Hr. unfold set_approved_edit in Hr. case_match; [done|]. tx_ok.
  case_match eqn:Hrow; [|stays]. case_match; [|stays]. bools.
  eapply (update_same_mono _ (with_edit edit now) (fun _ => tx_ret (Ok (mkHandle (with_edit edit _ (rq_row r)))))); [..|exact HK|]; [| |rewrite Hrow; exact Hr].
  - intros x. by apply request_later_refl_status.
  - intros x. mono.
Qed.
Lemma append_note_mono id note now : mono R (append_note id note now).
Proof.
  intros db a db' HK Hr. unfold append_note in Hr. tx_ok. case_match eqn:Hrow; [|stays].
  eapply (update_same_mono _ (with_note note now) (fun _ => tx_ret true)); [..|exact HK|]; [| |rewrite Hrow; exact Hr].
  - intros x. by apply request_later_refl_status.
  - intros x. mono.
Qed.
Lemma set_discord_mono id refs : mono R (set_discord id refs).
Proof.
  intros db a db' HK Hr. unfold set_discord in Hr. tx_ok. case_match eqn:Hrow; [|stays].
  eapply (update_same_mono _ (with_discord refs) (fun _ => tx_ret true)); [..|exact HK|]; [| |rewrite Hrow; exact Hr].
  - intros x. by apply request_later_refl_status.
  - intros x. mono.
Qed.

Lemma insert_request_mono id agent session d p resource cap scope a j secs notes now :
  mono R (insert_request id agent session d p resource cap scope a j secs notes now).
Proof.
  intros db r db' HK Hr. apply insert_request_ok in Hr as (Hid & _ & _ & _ & _ & _ & _ & _ & _ & Hn & ->).
  split; [by apply later_new_request|by apply so_new_request].
Qed.
End store_mono.
#[export] Hint Resolve transition_mono set_approved_edit_mono append_note_mono set_discord_mono insert_request_mono : mono.

Section grant_mono.
Context `{DateLib, RustFmt} (R : Database -> Database -> Prop) (HR : StepOrder R).

Lemma compare_and_set_mono id from f :
  (forall g, gr_status g = from -> grant_later g (f g) /\ (gr_status (f g) = GActive -> from = GActive)) ->
  mono R (compare_and_set id from f).
Proof.
  intros Hf db a db' HK Hr. destruct a as [g'|i].
  - apply compare_and_set_ok in Hr as (g & Hg & Hs & _ & _ & ->). destruct (Hf _ Hs) as [Hl Ha].
  assert (Hid : gr_id g = id) by (by eapply HK). rewrite Hid. split; [by apply (later_grant _ _ g)|].
  eapply so_grant; [done..|]. by rewrite Hs.
  - apply compare_and_set_lost in Hr as (-> & _). split; [done|by apply so_refl].
Qed.

Lemma fail_provisioning_mono g why at_ : mono R (fail_provisioning g why at_).
Proof. apply compare_and_set_mono. intros x Hx. split; [|done]. apply grant_later_edge; [done| |done]. by rewrite Hx. Qed.
Lemma grants_end_mono id how now : mono R (grants_end id how now).
Proof.
  apply compare_and_set_mono. intros x Hx. split; [|by destruct how]. apply grant_later_edge; [done| |done].
  rewrite Hx. by destruct how.
Qed.
Lemma expire_now_mono id now : mono R (expire_now id now).
Proof.
  unfold expire_now. apply mono_bind; [done| |intros ?; mono]. apply compare_and_set_mono. intros x Hx.
  split; [apply expiring_later|by cbn; rewrite Hx].
Qed.
Lemma rename_each_mono ids new : mono R (rename_each ids new).
Proof.
  induction ids as [|id ids IH]; cbn [rename_each]; [mono|]. apply mono_bind; [done| |intros ?; mono].
  apply compare_and_set_mono. intros x Hx. split; [by apply grant_later_same|by cbn; rewrite Hx].
Qed.
#[local] Hint Resolve expire_now_mono rename_each_mono : mono.
Lemma expire_each_mono ids now : mono R (expire_each ids now).
Proof. induction ids as [|id ids IH]; cbn [expire_each]; mono. Qed.
#[local] Hint Resolve expire_each_mono : mono.
Lemma expire_now_of_agent_mono a now : mono R (expire_now_of_agent a now).
Proof. unfold expire_now_of_agent. mono. Qed.
Lemma rename_a2a_target_mono old new : mono R (rename_a2a_target old new).
Proof. unfold rename_a2a_target, active_a2a_targeting. mono. Qed.
Lemma set_provisioner_state_mono id v : mono R (set_provisioner_state id v).
Proof.
  intros db a db' HK Hr. unfold set_provisioner_state, get_grant in Hr. tx_ok.
  case_match eqn:Hg; [|stays]. case_match; [|stays]. tx_ok. unfold update_grant in *. case_match; [|done]. tx_ok.
  assert (Hid : gr_id g = id) by (by eapply HK). rewrite Hid.
  assert (Hl : grant_later g (with_state v g)) by (by apply grant_later_same).
  split; [by apply (later_grant _ _ g)|by eapply so_grant].
Qed.

Lemma insert_grant_mono g : mono R (insert_grant g).
Proof.
  intros db a db' HK Hr. apply insert_grant_ok in Hr as (r & -> & -> & Hn & Hs & _).
  split; [by apply later_new_grant|by apply so_new_grant].
Qed.

Lemma delegation_backing_mono d now : mono R (delegation_backing d now).
Proof. unfold delegation_backing, get_agent. mono. Qed.
#[local] Hint Resolve insert_grant_mono delegation_backing_mono : mono.
Lemma grants_begin_mono r n id now : mono R (grants_begin r n id now).
Proof. unfold grants_begin. mono. Qed.

Lemma activate_mono g n v (HA : ActivateOrder R (gr_id (pg_grant g))) : mono R (activate g n v).
Proof.
  unfold activate. mono. intros db o db' HK Hr. destruct o as [g'|i].
  - apply compare_and_set_ok in Hr as (x & Hx & Hs & _ & _ & ->).
  assert (Hl : grant_later x (activated v x)) by (apply grant_later_edge; [done|by rewrite Hs|done]).
  assert (Hid : gr_id x = gr_id (pg_grant g)) by (by eapply HK). rewrite Hid.
  split; [by apply (later_grant _ _ x)|by eapply so_activate].
  - apply compare_and_set_lost in Hr as (-> & _). split; [done|by apply so_refl].
Qed.
End grant_mono.
#[export] Hint Resolve activate_mono fail_provisioning_mono grants_end_mono expire_now_mono expire_now_of_agent_mono
  rename_a2a_target_mono set_provisioner_state_mono insert_grant_mono grants_begin_mono : mono.

(** ** The service *)

(** The platforms' code writes neither a request nor, of a grant, anything
    but its state and, for an alias it makes, its address. *)
Section laws.
Context `{DateLib}.

Class RegistryLaws `{!Registry} : Prop := {
  prepare_kept g now db : platform_kept db (snd (prepare g now db));
  provision_kept g now db : platform_kept db (snd (provision g now db));
  revoke_kept g now db : platform_kept db (snd (revoke g now db));
}.

End laws.

Section service_mono.
Context `{UnicodeLower, RegexLib, DateLib, RustFmt, !Registry, !RegistryLaws, UuidLib}
  (R : Database -> Database -> Prop) (HR : StepOrder R).

Lemma store_mono {A} (m : tx StoreError A) : mono R m -> mono R (store m).
Proof. by apply mono_map_err. Qed.
Lemma get_agent_mono id : mono R (get_agent id).
Proof. by apply mono_read. Qed.
Lemma get_request_mono id : mono R (get_request id).
Proof. unfold get_request. mono. Qed.
Lemma get_grant_mono id : mono R (get_grant id).
Proof. by apply mono_read. Qed.
#[local] Hint Resolve store_mono get_agent_mono get_request_mono get_grant_mono : mono.
Lemma lockdown_check_mono a now : mono R (lockdown_check a now).
Proof. unfold lockdown_check, chain. mono. Qed.
Lemma load_provisioning_mono id : mono R (load_provisioning id).
Proof. unfold load_provisioning. mono. Qed.
Lemma delegator_of_mono r : mono R (delegator_of r).
Proof. unfold delegator_of. mono. Qed.
Lemma zone_check_mono p a au r : mono R (zone_check p a au r).
Proof. unfold zone_check, agent_by_name, list_in_sandbox. mono. Qed.
Lemma saved_rules_mono p now : mono R (saved_rules p now).
Proof. unfold saved_rules, live_for. mono. Qed.
Lemma stored_gates_mono a au r x : mono R (stored_gates a au r x).
Proof. unfold stored_gates, created_for_another. mono. Qed.
#[local] Hint Resolve lockdown_check_mono load_provisioning_mono delegator_of_mono zone_check_mono saved_rules_mono
  stored_gates_mono : mono.
Lemma reroute_mono p id a d r au now : mono R (reroute p id a d r au now).
Proof. unfold reroute. mono. Qed.
Lemma resolve_mono c p t : mono R (resolve c p t).
Proof. unfold resolve. mono. Qed.
Lemma step_request_mono {from} (r : Request from) e `{!CanMoveTo from (target e)} now : mono R (step_request r e now).
Proof. unfold step_request. mono. Qed.
#[local] Hint Resolve reroute_mono resolve_mono step_request_mono : mono.

Lemma begin_provision_mono r id now : mono R (begin_provision r id now).
Proof. unfold begin_provision. mono. Qed.
Lemma fail_request_mono id why now : mono R (fail_request id why now).
Proof. unfold fail_request. mono. Qed.
Lemma grant_succeeded_mono id now : mono R (grant_succeeded id now).
Proof. unfold grant_succeeded. mono. Qed.
#[local] Hint Resolve begin_provision_mono fail_request_mono grant_succeeded_mono : mono.
Lemma fail_grant_mono g r why at_ now : mono R (fail_grant g r why at_ now).
Proof. unfold fail_grant. mono. Qed.
Lemma run_provision_mono g now : mono R (run_provision g now).
Proof.
  intros db a db' HK Hr. unfold run_provision in Hr. pose proof (provision_kept g now db) as Hp.
  destruct (provision g now db) as [out d]. injection Hr as <- <-. split; [by eapply platform_kept_keyed|by apply so_platform].
Qed.
Lemma run_revoke_mono g now : mono R (run_revoke g now).
Proof.
  intros db a db' HK Hr. unfold run_revoke in Hr. pose proof (revoke_kept g now db) as Hp.
  destruct (revoke g now db) as [out d]. injection Hr as <- <-. split; [by eapply platform_kept_keyed|by apply so_platform].
Qed.
#[local] Hint Resolve fail_grant_mono run_provision_mono run_revoke_mono : mono.
Lemma not_made_mono g r e b now : mono R (not_made g r e b now).
Proof.
  unfold not_made. destruct b; [mono|]. intros db a db' HK Hr.
  destruct (fail_grant _ _ _ _ _ db) as [[x d]|] eqn:Hf.
  - injection Hr as <- <-. by eapply fail_grant_mono.
  - injection Hr as <- <-. split; [done|by apply so_refl].
Qed.
#[local] Hint Resolve not_made_mono : mono.
Lemma finish_tx_mono (HA : forall k, ActivateOrder R k) row p now : mono R (finish_tx row p now).
Proof. unfold finish_tx. mono. Qed.
Lemma record_failure_mono row why now : mono R (record_failure row why now).
Proof. unfold record_failure. mono. Qed.
Lemma revoke_external_mono g now : mono R (revoke_external g now).
Proof. unfold revoke_external. mono. Qed.
Lemma active_grant_mono id : mono R (active_grant id).
Proof. unfold active_grant. mono. Qed.
#[local] Hint Resolve finish_tx_mono record_failure_mono revoke_external_mono active_grant_mono : mono.
Lemma revoke_tx_mono id why by_ now : mono R (revoke_tx id why by_ now).
Proof. unfold revoke_tx. mono. Qed.
Lemma expire_tx_mono id now : mono R (expire_tx id now).
Proof. unfold expire_tx. mono. Qed.
Lemma reap_tx_mono id now why : mono R (reap_tx id now why).
Proof. unfold reap_tx. mono. Qed.

Lemma draft_insert_mono d r a : mono R (draft_insert d r a).
Proof. unfold draft_insert. mono. Qed.
#[local] Hint Resolve draft_insert_mono : mono.
Lemma draft_refuse_mono d r a why : mono R (draft_refuse d r a why).
Proof. unfold draft_refuse. mono. Qed.
Lemma enter_route_mono p llm d r a de ro g : mono R (enter_route p llm d r a de ro g).
Proof. unfold enter_route. mono. Qed.
#[local] Hint Resolve draft_refuse_mono enter_route_mono : mono.
Lemma create_routed_mono p llm d a de v g : mono R (create_routed p llm d a de v g).
Proof. unfold create_routed. mono. Qed.
Lemma validate_mono a r au now :
  mono R (fun db => match validate a r au now db with Ok v => Ok (v, db) | Err e => Err e end).
Proof.
  intros db x db' HK Hr. destruct (validate a r au now db); [|done]. injection Hr as <- <-.
  split; [done|by apply so_refl].
Qed.
#[local] Hint Resolve create_routed_mono validate_mono : mono.
Lemma create_validated_mono p llm d a de g : mono R (create_validated p llm d a de g).
Proof. unfold create_validated. mono. Qed.
#[local] Hint Resolve create_validated_mono : mono.
Lemma create_mono p llm c b id g now : mono R (create p llm c b id g now).
Proof. unfold create. mono. Qed.

Lemma revalidate_mono p a r d now : mono R (revalidate p a r d now).
Proof. unfold revalidate. mono. Qed.
Lemma awaiting_mono a now : mono R (awaiting a now).
Proof.
  unfold awaiting. mono; [exact (step_request_mono r (ToAwaitingHuman None) now)..].
Qed.
Lemma insert_rule_mono r : mono R (insert_rule r).
Proof. unfold insert_rule. mono. Qed.
#[local] Hint Resolve revalidate_mono awaiting_mono insert_rule_mono : mono.
Lemma save_rule_mono r i a row e d by_ now : mono R (save_rule r i a row e d by_ now).
Proof. unfold save_rule. mono. Qed.
Lemma approve_human_mono r h a why d now : mono R (approve_human r h a why d now).
Proof.
  unfold approve_human.
  mono; exact (step_request_mono r (ToApproved (Approval_human _ why d)) now).
Qed.
#[local] Hint Resolve save_rule_mono approve_human_mono : mono.
Lemma decide_inner_mono p id w a d ri gi now : mono R (decide_inner p id w a d ri gi now).
Proof. unfold decide_inner. mono. Qed.
Lemma apply_one_mono p id r g now : mono R (apply_one p id r g now).
Proof. unfold apply_one. mono. Qed.

Lemma record_evaluation_mono id n m s : mono R (record_evaluation id n m s).
Proof. unfold record_evaluation. mono. Qed.
Lemma holding_mono a : mono R (holding a).
Proof. unfold holding, chain. mono. Qed.
#[local] Hint Resolve holding_mono : mono.
Lemma act_on_approve_mono p rd c why s g now : mono R (act_on_approve p rd c why s g now).
Proof. unfold act_on_approve. mono. Qed.
#[local] Hint Resolve record_evaluation_mono act_on_approve_mono : mono.
Lemma evaluate_record_mono p rd v g now : mono R (evaluate_record p rd v g now).
Proof. unfold evaluate_record. mono. Qed.
Lemma escalate_from_llm_mono id n now : mono R (escalate_from_llm id n now).
Proof. unfold escalate_from_llm. mono. Qed.
Lemma refuse_if_held_mono a now : mono R (refuse_if_held a now).
Proof. unfold refuse_if_held. mono. Qed.
Lemma own_denied_mono c id v : mono R (own_denied c id v).
Proof. unfold own_denied. mono. Qed.
#[local] Hint Resolve refuse_if_held_mono own_denied_mono : mono.
Lemma retry_mono p c id j now : mono R (retry p c id j now).
Proof. unfold retry. mono. Qed.
Lemma escalate_mono c id now : mono R (escalate c id now).
Proof. unfold escalate. mono. Qed.

Lemma record_entry_mono e : mono R (record_entry e).
Proof. unfold record_entry. mono. Qed.
Lemma expire_agents_mono l now : mono R (expire_agents l now).
Proof. induction l; cbn [expire_agents]; mono. Qed.
#[local] Hint Resolve record_entry_mono expire_agents_mono : mono.
Lemma record_mono e now : mono R (record e now).
Proof. unfold record. mono. Qed.
Lemma update_agent_mono id ok f : mono R (update_agent id ok f).
Proof. unfold update_agent. mono. Qed.
#[local] Hint Resolve update_agent_mono : mono.
Lemma disable_each_mono l r : mono R (disable_each l r).
Proof. induction l; cbn [disable_each]; mono. Qed.
#[local] Hint Resolve disable_each_mono : mono.
Lemma disable_tree_mono a now r : mono R (disable_tree a now r).
Proof. unfold disable_tree. mono. Qed.
End service_mono.
(** The hints, for the sections that follow: the classes are found as they
    are applied. *)
#[export] Hint Extern 1 (mono _ (fail_grant _ _ _ _ _)) => apply fail_grant_mono : mono.
#[export] Hint Extern 1 (mono _ (not_made _ _ _ _ _)) => apply not_made_mono : mono.
#[export] Hint Extern 1 (mono _ (run_provision _ _)) => apply run_provision_mono : mono.
#[export] Hint Extern 1 (mono _ (run_revoke _ _)) => apply run_revoke_mono : mono.
#[export] Hint Extern 1 (mono _ (grant_succeeded _ _)) => apply grant_succeeded_mono : mono.
#[export] Hint Extern 1 (mono _ (fail_request _ _ _)) => apply fail_request_mono : mono.
#[export] Hint Extern 1 (mono _ (activate _ _ _)) => apply activate_mono : mono.
#[export] Hint Extern 1 (mono _ (store _)) => apply store_mono : mono.
#[export] Hint Extern 1 (mono _ (load_provisioning _)) => apply load_provisioning_mono : mono.
#[export] Hint Extern 1 (mono _ (lockdown_check _ _)) => apply lockdown_check_mono : mono.

(** A concrete broker for the witnesses: one agent, one approving rule, a
    platform that always works, and a grant taken from its request to its
    end. *)

Module SampleService.
#[export] Existing Instance ascii_only_lower.
#[export] Existing Instance SamplePolicy.regex.
#[export] Existing Instance TextCalendar.calendar.
#[export] Instance fmt : RustFmt := Build_RustFmt (fun _ => []) id (fun _ => []).
#[export] Instance uuid : UuidLib := Build_UuidLib (fun _ => None) show_N.
#[export] Instance registry : Registry := {|
  enabled_platform _ := true;
  is_retired _ := false;
  validate _ resource authority _ _ := Ok (Ok (mkValidated resource authority []));
  prepare _ _ db := (Ok tt, db);
  provision _ _ db := (Made (VObject []), db);
  revoke _ _ db := (Ok tt, db);
  |}.
#[export] Instance laws : RegistryLaws.
Proof. split; intros; apply platform_kept_refl. Qed.

Definition policy : Policy := Policy_default.
Definition agent : AgentRow :=
  mkAgentRow 1 (lit "claude-app") [] (lit "key") [] None None (None, None) false None Service None None None None
  None None None Host None 0.
Definition rule : RuleRow :=
  mkRule 7 AutoApprove (lit "claude-*") None Kubernetes (lit "apps") None (Some 60%N) true (lit "jo") [] None 1.
Definition start : Database :=
  with_rules (with_agents Database_empty {[ 1%N := agent ]}) [rule].
Definition body : RequestCreate :=
  mkCreate Kubernetes (lit "view") (lit "apps") [] (lit "look at the pods") 3600 None.
Definition caller : AgentCaller := mkCaller agent None.
Definition second : Z := 1000000000.
Definition created : result ServiceError (Created * Database) :=
  create policy true caller body 100 200 (5 * second)%Z start.
Definition db1 : Database := match created with Ok (_, db) => db | Err _ => Database_empty end.
Definition db2 : Database := snd (finish_inner 200 (6 * second)%Z db1).
Definition db3 : Database := snd (expire_one 200 (70 * second)%Z db2).

(** The same request, with no rule to approve it: it waits for a person. *)
Definition asked : result ServiceError (Created * Database) :=
  create policy false caller body 100 200 (5 * second)%Z (with_rules start []).
Definition waiting : Database := match asked with Ok (_, db) => db | Err _ => Database_empty end.
Definition approval : HumanDecision := mkHumanDecision true (lit "fine") None None None None None None.
Definition decision : result ServiceError (option GrantId * Database) :=
  decide_inner policy 100 (DHuman (mkHuman (lit "jo"))) None approval 8 200 (6 * second)%Z waiting.
Definition decided : Database := match decision with Ok (_, db) => db | Err _ => Database_empty end.
(** The agent is contained while its grant is active. *)
Definition entry : ContainmentEntry :=
  mkEntry (lit "c1") (VObject [(lit "name", VString (lit "claude-app"))]) (lit "odd") [] (lit "jo") FromOperator (10 * second)%Z.
Definition contained : Database :=
  match record entry (10 * second)%Z db2 with Ok (_, db) => db | Err _ => Database_empty end.
End SampleService.
