(* ===== verification/ServiceInv.v ===== *)
(** The invariant of the lifecycle's tables: what the constraints say of
    each row, and that a request and its grant are always at matching points
    of their lifecycles. Every operation of the service keeps it. *)

From stdpp Require Import gmap.
From S2P Require Import Prelude Json Glob Pyfmt Lifecycle Names Durations Pool Mail Authority Routing Agents Hostexec Schema Policy Zones Eval CanonicalJson Store Requests Grants Threads ServiceRouting Provision Create Decide Review Contain TxLogic ServiceMono.
From stdpp Require Import options.
#[local] Set Default Proof Using "Type*".

(** The points at which a request and its grant meet. *)
Definition agree (s : RequestStatus) (t : GrantStatus) : bool :=
  match s, t with
  | Provisioning, GProvisioning => true
  | Granted, (GActive | GExpired | GRevoked) => true
  | ProvisionFailed, GProvisionFailed => true
  | _, _ => false
  end.
(** A request here has a grant; and one here has none. *)
Definition wants_grant (s : RequestStatus) : bool :=
  match s with Provisioning | Granted => true | _ => false end.
Definition early (s : RequestStatus) : bool :=
  match s with Provisioning | Granted | ProvisionFailed => false | _ => true end.

Lemma early_wants s : early s = true -> wants_grant s = false.
Proof. by destruct s. Qed.

Section invariant.
Context `{DateLib, RustFmt}.

Definition request_ok (r : RequestRow) : Prop :=
  request_checks r = true
  /\ opt_ok (fun a => bool_decide (platform a = rq_platform r)) (rq_authority r) = true
  /\ opt_ok (fun e => bool_decide (platform (ed_authority e) = rq_platform r)) (rq_edit r) = true
  /\ opt_ok (fun d => N.leb d HUMAN_MAX_DURATION_SECS) (rq_approved_duration r) = true.

(** A grant is its request's: its agent, platform and authority, and for no
    longer than was approved. *)
Definition grant_of (r : RequestRow) (g : GrantRow) : Prop :=
  rq_agent r = gr_agent g /\ rq_platform r = gr_platform g /\ platform (gr_authority g) = gr_platform g
  /\ exists d, rq_approved_duration r = Some d /\ (gr_expires_at g <= gr_granted_at g + seconds d)%Z.

(** [busy]: the request a transaction is moving, whose status and grant need
    not match until it is done. *)
Record wf (busy : option RequestId) (db : Database) : Prop := mkWf {
  wf_keyed : keyed db;
  wf_request k r : db_requests db !! k = Some r -> request_ok r;
  wf_grant k g : db_grants db !! k = Some g -> grant_checks g = true /\
  exists r, db_requests db !! gr_request g = Some r /\ grant_of r g /\
    (busy <> Some (gr_request g) -> agree (rq_status r) (gr_status g) = true);
  wf_unique k k' g g' : db_grants db !! k = Some g -> db_grants db !! k' = Some g' ->
  gr_request g = gr_request g' -> k = k';
  wf_wants k r : db_requests db !! k = Some r -> wants_grant (rq_status r) = true -> busy <> Some k ->
  exists k' g, db_grants db !! k' = Some g /\ gr_request g = k;
}.

Lemma wf_same_rows b db db' : same_rows db db' -> wf b db -> wf b db'.
Proof.
  intros Hs [K R G U W]. destruct (Hs) as [HR HG]. constructor; rewrite ?HR, ?HG; try done.
  by eapply same_rows_keyed.
Qed.
Lemma wf_weaken b db : wf None db -> wf b db.
Proof.
  intros [K R G U W]. constructor; try done.
  - intros k g Hg. destruct (G _ _ Hg) as (? & r & ? & ? & Ha). split; [done|]. exists r. split_and!; [done..|].
  intros _. by apply Ha.
  - intros k r Hr Hw _. by apply (W k r).
Qed.

Definition no_grant (db : Database) (id : RequestId) : Prop :=
  forall k g, db_grants db !! k = Some g -> gr_request g <> id.
Lemma early_no_grant b db id r :
  wf b db -> b <> Some id -> db_requests db !! id = Some r -> early (rq_status r) = true -> no_grant db id.
Proof.
  intros Hw Hb Hr He k g Hg <-. destruct (wf_grant _ _ Hw _ _ Hg) as (_ & x & Hx & _ & Ha).
  replace x with r in * by congruence. specialize (Ha Hb). by destruct (rq_status r), (gr_status g).
Qed.
(** The transaction is done with the request: it has no grant... *)
Lemma wf_settle_none id db r :
  wf (Some id) db -> db_requests db !! id = Some r -> wants_grant (rq_status r) = false -> no_grant db id -> wf None db.
Proof.
  intros [K R G U W] Hr Hn Hg. constructor; try done.
  - intros k g Hk. destruct (G _ _ Hk) as (? & x & ? & ? & Ha). split; [done|]. exists x. split_and!; [done..|].
  intros _. apply Ha. intros [= Hi]. by apply (Hg _ _ Hk).
  - intros k x Hx Hw _. apply (W k x Hx Hw). intros [= <-]. congruence.
Qed.
(** ... or they match. *)
Lemma wf_settle_some id db r k g :
  wf (Some id) db -> db_requests db !! id = Some r -> db_grants db !! k = Some g -> gr_request g = id ->
  agree (rq_status r) (gr_status g) = true -> wf None db.
Proof.
  intros [K R G U W] Hr Hg Hi Ha. constructor; try done.
  - intros k' x Hk. destruct (G _ _ Hk) as (? & y & Hy & ? & Ha'). split; [done|]. exists y. split_and!; [done..|].
  intros _. destruct (decide (gr_request x = id)) as [Hx|Hx].
  + assert (k = k') as -> by (eapply U; [done..|congruence]). congruence.
  + apply Ha'. congruence.
  - intros k' x Hx Hw _. destruct (decide (k' = id)) as [->|Hn]; [eauto|]. apply (W k' x Hx Hw). congruence.
Qed.

(** ** A request's row is replaced *)
Lemma wf_set_request b db id r r' :
  wf b db -> (b = None \/ b = Some id) -> db_requests db !! id = Some r -> request_later r r' -> request_ok r' ->
  (forall d, rq_approved_duration r = Some d -> no_grant db id \/ rq_approved_duration r' = Some d) ->
  wf (Some id) (with_requests db (<[id := r']> (db_requests db))).
Proof.
  intros Hw Hb Hr Hl Hok Hd. pose proof (later_request _ _ _ _ (wf_keyed _ _ Hw) Hr Hl) as [K' _].
  constructor; [done| | | |].
  - cbn. intros k x [(<- & <-)|[Hn Hx]]%lookup_insert_Some; [done|]. by eapply wf_request.
  - intros k g Hg. cbn in Hg. destruct (wf_grant _ _ Hw _ _ Hg) as (Hc & x & Hx & Ho & Ha). split; [done|]. cbn.
  destruct (decide (id = gr_request g)) as [->|Hn].
  + rewrite lookup_insert_eq. exists r'. split_and!; [done| |done]. replace x with r in * by congruence.
    destruct Ho as (? & ? & ? & d & Hd1 & ?). destruct Hl as (Hs & _). unfold request_spec in Hs. injection Hs as ? ? ? ? ? ? ? ? ? ?.
    split_and!; [congruence..|]. exists d. split; [|done]. destruct (Hd _ Hd1) as [Hno|?]; [|done].
    by destruct (Hno _ _ Hg).
  + rewrite lookup_insert_ne by done. exists x. split_and!; [done..|]. intros Hi. apply Ha.
    destruct Hb as [->| ->]; [done|congruence].
  - intros k k' g g'. cbn. apply (wf_unique _ _ Hw).
  - cbn. intros k x [(<- & <-)|[Hn Hx]]%lookup_insert_Some Hwant Hi; [done|].
  apply (wf_wants _ _ Hw k x Hx Hwant). destruct Hb as [->| ->]; [done|congruence].
Qed.

(** ** Transitions *)

Definition duration_ok (e : Entering) : Prop :=
  match e with ToApproved a => (ap_duration a <= HUMAN_MAX_DURATION_SECS)%N | _ => True end.
Definition approves (e : Entering) : bool := match e with ToApproved _ => true | _ => false end.

Lemma changes_duration e :
  ch_approved_duration (changes e) = match e with ToApproved a => Some (ap_duration a) | _ => None end.
Proof. by destruct e. Qed.
Lemma from_approved s e : CanMoveTo s (target e) -> approves e = true -> early s = true.
Proof.
  intros Hc He. destruct e; try discriminate He. unfold CanMoveTo in Hc. cbn in Hc.
  destruct s; try done; set_solver.
Qed.

Lemma transition_wf {from} (h0 : Request from) e `{HC : !CanMoveTo from (target e)} now b db h db' :
  let id := rq_id (rq_row h0) in
  wf b db -> (b = None \/ b = Some id /\ approves e = false) -> duration_ok e ->
  transition h0 e now db = Ok (Ok h, db') ->
  wf (Some id) db' /\ db_requests db' !! id = Some (rq_row h) /\ rq_status (rq_row h) = target e /\
  rq_id (rq_row h) = id /\ db_grants db' = db_grants db /\
  exists row, db_requests db !! id = Some row /\ rq_status row = from /\ request_later row (rq_row h) /\
  db_agents db' = db_agents db /\ db_entries db' = db_entries db.
Proof.
  intros id Hw Hb Hd Ht. apply transition_ok in Ht as (row & Hrow & Hst & Heq & Hck & Hu).
  assert (Hid : rq_id row = id) by (by eapply (wf_keyed _ _ Hw)).
  assert (Hl : request_later row (rq_row h)).
  { rewrite Heq. apply apply_changes_later. rewrite Hst. by apply can_transition_iff. }
  unfold update_request in Hu. case_match; [|done]. tx_ok. rewrite Hid in *.
  assert (Hno : early (rq_status row) = true -> b = None -> no_grant db id).
  { intros He ->. by eapply early_no_grant. }
  pose proof (wf_request _ _ Hw _ _ Hrow) as (_ & Ha & Hed & Hdu).
  split.
  { eapply wf_set_request; [done| |done|done| |].
  - destruct Hb as [?|[? _]]; auto.
  - split_and!; [done|by rewrite Heq..|]. rewrite Heq. cbn [apply_changes rq_approved_duration].
    rewrite changes_duration. destruct e; cbn in Hd |- *; try done. by apply N.leb_le.
  - intros d Hd1. rewrite Heq. cbn [apply_changes rq_approved_duration]. rewrite changes_duration.
    destruct e; cbn; try (by right). left. destruct Hb as [Hb|[_ Hb]]; [|done].
    apply Hno; [|done]. by eapply (from_approved _ (ToApproved a)). }
  cbn [with_requests db_requests db_grants db_agents db_entries]. rewrite lookup_insert_eq.
  split_and!; [done|by rewrite Heq|by rewrite Heq|done|]. eauto 10.
Qed.
(** Between points where a request has no grant, the tables stay right. *)
Lemma transition_early {from} (h0 : Request from) e `{HC : !CanMoveTo from (target e)} now db h db' :
  wf None db -> early from = true -> early (target e) = true -> duration_ok e ->
  transition h0 e now db = Ok (Ok h, db') ->
  wf None db' /\ db_requests db' !! rq_id (rq_row h0) = Some (rq_row h) /\ rq_status (rq_row h) = target e /\
  rq_id (rq_row h) = rq_id (rq_row h0).
Proof.
  intros Hw Hf Ht Hd Hr. pose proof Hr as Hr'.
  eapply transition_wf in Hr as (Hw' & Hh & Hs & Hi & Hg & row & Hrow & Hst & _); [|done|by left|done].
  split_and!; [|done..]. eapply wf_settle_none; [done|done| |].
  - rewrite Hs. by apply early_wants.
  - assert (Hn : no_grant db (rq_id (rq_row h0))) by (eapply early_no_grant; [done..|by rewrite Hst]).
  intros k g. rewrite Hg. apply Hn.
Qed.

(** ** Grants *)

Lemma wf_set_grant b db id g g' :
  wf b db -> (b = None \/ b = Some (gr_request g)) -> db_grants db !! id = Some g -> grant_later g g' ->
  grant_checks g' = true -> wf (Some (gr_request g)) (with_grants db (<[id := g']> (db_grants db))).
Proof.
  intros Hw Hb Hg Hl Hc. pose proof (later_grant _ _ _ _ (wf_keyed _ _ Hw) Hg Hl) as [K' _].
  destruct Hl as (Hs & _ & He). unfold grant_spec in Hs. injection Hs as Hgi Hgr Hga Hgs Hgd Hgp Hgau Hgra Hgca.
  constructor; [done| | | |]; cbn.
  - apply (wf_request _ _ Hw).
  - intros k x [(<- & <-)|[Hn Hx]]%lookup_insert_Some.
  + split; [done|]. destruct (wf_grant _ _ Hw _ _ Hg) as (_ & r & Hr & (Ho1 & Ho2 & Ho3 & d & Ho4 & Ho5) & _).
    rewrite Hgr. exists r. split_and!; [done| |done].
    split_and!; [congruence..|]. exists d. split; [done|]. rewrite Hgra. lia.
  + destruct (wf_grant _ _ Hw _ _ Hx) as (? & r & Hr & Ho & Ha). split; [done|]. exists r. split_and!; [done..|].
    intros Hi. apply Ha. destruct Hb as [->| ->]; [done|congruence].
  - intros k k' x x' [(<- & <-)|[Hn Hx]]%lookup_insert_Some [(<- & <-)|[Hn' Hx']]%lookup_insert_Some Hq; [done|..].
  + eapply (wf_unique _ _ Hw); [exact Hg|exact Hx'|congruence].
  + eapply (wf_unique _ _ Hw); [exact Hx|exact Hg|congruence].
  + by eapply (wf_unique _ _ Hw).
  - intros k r Hr Hwa Hi. destruct (wf_wants _ _ Hw k r Hr Hwa) as (k' & x & Hx & Hq).
  { destruct Hb as [->| ->]; [done|congruence]. }
  destruct (decide (id = k')) as [<-|Hn].
  + exists id, g'. rewrite lookup_insert_eq. split; [done|congruence].
  + exists k', x. by rewrite lookup_insert_ne.
Qed.
(** A grant that only moves among the statuses its request agrees with. *)
Lemma wf_set_grant_quiet db id g g' :
  wf None db -> db_grants db !! id = Some g -> grant_later g g' -> grant_checks g' = true ->
  (forall s, agree s (gr_status g) = true -> agree s (gr_status g') = true) ->
  wf None (with_grants db (<[id := g']> (db_grants db))).
Proof.
  intros Hw Hg Hl Hc Ha. destruct (wf_grant _ _ Hw _ _ Hg) as (_ & r & Hr & _ & Hag).
  eapply wf_settle_some.
  - eapply wf_set_grant; [exact Hw|by left|exact Hg|exact Hl|exact Hc].
  - cbn. exact Hr.
  - cbn. apply lookup_insert_eq.
  - destruct Hl as (Hs & _). unfold grant_spec in Hs. by injection Hs.
  - apply Ha, Hag. done.
Qed.
Lemma wf_compare_and_set id from f db x db' :
  (forall g, gr_status g = from -> grant_later g (f g)) ->
  (forall g s, gr_status g = from -> agree s from = true -> agree s (gr_status (f g)) = true) ->
  wf None db -> compare_and_set id from f db = Ok (x, db') -> wf None db'.
Proof.
  intros Hf Ha Hw Hr. destruct x as [g'|i].
  - apply compare_and_set_ok in Hr as (g & Hg & Hs & _ & Hc & ->).
  assert (Hid : gr_id g = id) by (by eapply (wf_keyed _ _ Hw)). rewrite Hid.
  eapply wf_set_grant_quiet; [done..| |done|]; [by apply Hf|]. intros s. rewrite Hs. by apply Ha.
  - by apply compare_and_set_lost in Hr as (-> & _).
Qed.

(** A new request, and a new grant of the request being moved. *)
Lemma wf_new_request db k r :
  wf None db -> db_requests db !! k = None -> rq_id r = k -> request_ok r -> wants_grant (rq_status r) = false ->
  wf None (with_requests db (<[k := r]> (db_requests db))).
Proof.
  intros Hw Hk Hi Hok Hn. destruct (later_new_request _ _ _ (wf_keyed _ _ Hw) Hk Hi) as [K' _].
  constructor; [done| | | |]; cbn.
  - intros k' x [(<- & <-)|[_ Hx]]%lookup_insert_Some; [done|]. by eapply wf_request.
  - intros k' g Hg. destruct (wf_grant _ _ Hw _ _ Hg) as (? & x & Hx & ? & ?). split; [done|].
  exists x. rewrite lookup_insert_ne by congruence. done.
  - apply (wf_unique _ _ Hw).
  - intros k' x [(<- & <-)|[_ Hx]]%lookup_insert_Some Hwa; [congruence|]. by apply (wf_wants _ _ Hw k' x).
Qed.
Lemma wf_new_grant db r g :
  wf (Some (gr_request g)) db -> db_grants db !! gr_id g = None -> db_requests db !! gr_request g = Some r ->
  no_grant db (gr_request g) -> grant_checks g = true -> grant_of r g -> agree (rq_status r) (gr_status g) = true ->
  wf None (with_grants db (<[gr_id g := g]> (db_grants db))).
Proof.
  intros Hw Hk Hr Hno Hc Ho Ha. destruct (later_new_grant _ _ g (wf_keyed _ _ Hw) Hk eq_refl) as [K' _].
  constructor; [done| | | |]; cbn.
  - apply (wf_request _ _ Hw).
  - intros k x [(<- & <-)|[_ Hx]]%lookup_insert_Some; [eauto 10|].
  destruct (wf_grant _ _ Hw _ _ Hx) as (? & y & Hy & ? & Hag). split; [done|]. exists y. split_and!; [done..|].
  intros _. apply Hag. intros [= He]. by apply (Hno _ _ Hx).
  - intros k k' x x' [(<- & <-)|[_ Hx]]%lookup_insert_Some [(<- & <-)|[_ Hx']]%lookup_insert_Some Hq; [done|..].
  + by destruct (Hno _ _ Hx').
  + by destruct (Hno _ _ Hx).
  + by eapply (wf_unique _ _ Hw).
  - intros k x Hx Hwa _. destruct (decide (k = gr_request g)) as [->|Hn].
  + exists (gr_id g), g. by rewrite lookup_insert_eq.
  + destruct (wf_wants _ _ Hw k x Hx Hwa) as (k' & y & Hy & <-); [congruence|].
    exists k', y. rewrite lookup_insert_ne by congruence. done.
Qed.
End invariant.
