(* ===== verification/ServiceWf.v ===== *)
(** Every operation of the service keeps the invariant of [ServiceInv.v]. *)

From stdpp Require Import gmap.
From S2P Require Import Prelude Json Glob Pyfmt Lifecycle Names Durations Pool Mail Authority Routing Agents Hostexec Schema Policy Zones Eval CanonicalJson Store Requests Grants Threads ServiceRouting Provision Create Decide Review Contain TxLogic ServiceMono ServiceInv.
From stdpp Require Import options.
#[local] Set Default Proof Using "Type*".

Section keeps.
Context `{DateLib, RustFmt}.

Definition keeps {E A} (m : tx E A) : Prop :=
  forall db a db', wf None db -> m db = Ok (a, db') -> wf None db'.

Lemma keeps_ret {E A} (a : A) : keeps (@tx_ret _ E A a).
Proof. by intros db ? ? Hw [= <- <-]. Qed.
Lemma keeps_fail {E A} (e : E) : keeps (@tx_fail _ E A e).
Proof. by intros ? ? ? ? [=]. Qed.
Lemma keeps_read {E A} (f : Database -> A) : keeps (@tx_read _ E A f).
Proof. by intros db ? ? Hw [= <- <-]. Qed.
Lemma keeps_lift {E A} (r : result E A) : keeps (tx_lift r).
Proof. unfold tx_lift. by destruct r; intros db ? ? Hw [= <- <-]. Qed.
Lemma keeps_map_err {E F A} (f : E -> F) (m : tx E A) : keeps m -> keeps (tx_map_err f m).
Proof. intros Hm db a db' Hw Hr. tx_ok. eauto. Qed.
Lemma keeps_bind {E A B} (m : tx E A) (f : A -> tx E B) :
  keeps m -> (forall a, keeps (f a)) -> keeps (tx_bind m f).
Proof. intros Hm Hf db b db' Hw Hr. tx_ok. eapply Hf; [|exact Hr]. by eapply Hm. Qed.
Lemma keeps_write {E} (f : Database -> Database) :
  (forall db, same_rows db (f db)) -> keeps (@tx_write _ E f).
Proof. intros Hf db ? ? Hw [= <- <-]. by eapply wf_same_rows. Qed.
End keeps.

Create HintDb keeps.
#[export] Hint Resolve keeps_ret keeps_fail keeps_read keeps_lift keeps_map_err : keeps.
Ltac keeps1 :=
  match goal with
  | |- keeps (tx_bind _ _) => apply keeps_bind; [|intros ?]
  | |- keeps (tx_map_err _ _) => apply keeps_map_err
  | |- keeps (tx_write _) => apply keeps_write; intros ?; by split
  | |- keeps (match ?x with _ => _ end) => destruct x
  | |- keeps (let _ := _ in _) => cbv zeta
  | |- keeps _ => solve [auto with keeps nocore]
  end.
Ltac keeps := repeat keeps1.

Section store_keeps.
Context `{DateLib, RustFmt}.

Lemma transition_early_keeps {from} (h : Request from) e `{HC : !CanMoveTo from (target e)} now :
  early from = true -> early (target e) = true -> duration_ok e -> keeps (transition h e now).
Proof.
  intros Hf Ht Hd db a db' Hw Hr. destruct a as [h'|i].
  - by eapply transition_early in Hr as (? & _).
  - by apply transition_lost in Hr as (-> & _).
Qed.
(** An update that leaves the status leaves everything right. *)
Lemma wf_same_status db id r r' :
  wf None db -> db_requests db !! id = Some r -> request_later r r' -> rq_status r' = rq_status r -> request_ok r' ->
  rq_approved_duration r' = rq_approved_duration r ->
  wf None (with_requests db (<[id := r']> (db_requests db))).
Proof.
  intros Hw Hr Hl Hs Hok Hd.
  destruct (wf_set_request None db id r r') as [K R G U W]; [done|by left|done..| |].
  { intros d Hd1. right. congruence. }
  constructor; [done..| |done|].
  - intros k g Hg. destruct (G _ _ Hg) as (? & x & Hx & ? & _). split; [done|]. exists x. split_and!; [done..|].
  intros _. cbn in Hg, Hx. destruct (wf_grant _ _ Hw _ _ Hg) as (_ & y & Hy & _ & Ha).
  specialize (Ha ltac:(done)). destruct (decide (id = gr_request g)) as [->|Hn].
  + rewrite lookup_insert_eq in Hx. injection Hx as <-. replace y with r in * by congruence. by rewrite Hs.
  + rewrite lookup_insert_ne in Hx by done. congruence.
  - cbn. intros k x Hx Hwa _. destruct (decide (id = k)) as [<-|Hn].
  + rewrite lookup_insert_eq in Hx. injection Hx as <-. rewrite Hs in Hwa. by apply (wf_wants _ _ Hw id r).
  + rewrite lookup_insert_ne in Hx by done. by apply (wf_wants _ _ Hw k x).
Qed.
Lemma wf_update_same db id r r' u db' :
  wf None db -> db_requests db !! id = Some r -> request_spec r' = request_spec r -> rq_attempt r' = rq_attempt r ->
  rq_status r' = rq_status r -> rq_approved_duration r' = rq_approved_duration r ->
  opt_ok (fun e => bool_decide (platform (ed_authority e) = rq_platform r)) (rq_edit r') = true ->
  update_request r r' db = Ok (u, db') -> wf None db'.
Proof.
  intros Hw Hr Hs Ha Ht Hd He Hu. unfold update_request in Hu. case_match; [|done]. bools. tx_ok.
  assert (Hid : rq_id r = id) by (by eapply (wf_keyed _ _ Hw)). rewrite Hid.
  eapply wf_same_status; [done|done| |done| |done].
  - by apply request_later_refl_status.
  - pose proof (wf_request _ _ Hw _ _ Hr) as (_ & Hau & _ & Hdu). pose proof Hs as Hs'.
  unfold request_spec in Hs'. injection Hs' as ? ? ? ? Hp ? ? ? Hq ? ?. split_and!; [done|by rewrite Hp, Hq|by rewrite Hp|by rewrite Hd].
Qed.

Lemma set_approved_edit_wf r edit now db x db' :
  wf None db -> (forall row, db_requests db !! rq_id (rq_row r) = Some row -> rq_platform row = rq_platform (rq_row r)) ->
  set_approved_edit r edit now db = Ok (x, db') ->
  wf None db' /\ match x with
               | Ok h => rq_id (rq_row h) = rq_id (rq_row r) /\ rq_delegation (rq_row h) = rq_delegation (rq_row r)
               | Err _ => True
               end.
Proof.
  intros Hw Hp Hr. unfold set_approved_edit in Hr. case_match eqn:Hpl; [done|].
  apply tx_bind_ok in Hr as (o & d & Ho & Hr). injection Ho as <- <-.
  destruct (db_requests db !! rq_id (rq_row r)) as [row|] eqn:Hrow; [|by tx_ok].
  case_match; [|by tx_ok]. bools. tx_ok. split; [|done].
  eapply wf_update_same; [..|exact Hm]; try done. cbn. apply bool_decide_eq_true.
  rewrite Hpl. symmetry. by apply Hp.
Qed.
Lemma append_note_keeps id note now : keeps (append_note id note now).
Proof.
  intros db a db' Hw Hr. unfold append_note in Hr. apply tx_bind_ok in Hr as (o & d & Ho & Hr). injection Ho as <- <-.
  destruct (db_requests db !! id) as [row|] eqn:Hrow; [|by tx_ok]. tx_ok.
  eapply wf_update_same; [..|exact Hm]; try done. by pose proof (wf_request _ _ Hw _ _ Hrow) as (_ & _ & ? & _).
Qed.
Lemma set_discord_keeps id refs : keeps (set_discord id refs).
Proof.
  intros db a db' Hw Hr. unfold set_discord in Hr. apply tx_bind_ok in Hr as (o & d & Ho & Hr). injection Ho as <- <-.
  destruct (db_requests db !! id) as [row|] eqn:Hrow; [|by tx_ok]. tx_ok.
  eapply wf_update_same; [..|exact Hm]; try done. by pose proof (wf_request _ _ Hw _ _ Hrow) as (_ & _ & ? & _).
Qed.
Lemma insert_request_wf id agent session d p resource cap scope a j secs notes now db r db' :
  wf None db -> insert_request id agent session d p resource cap scope a j secs notes now db = Ok (r, db') ->
  wf None db' /\ db_requests db' !! id = Some (rq_row r) /\ rq_id (rq_row r) = id.
Proof.
  intros Hw Hr. apply insert_request_ok in Hr as (Hid & Hs & Hc & Hd & He & Ha & Hp & Hau & Hok & Hn & ->).
  split_and!; [|cbn; apply lookup_insert_eq|done].
  apply wf_new_request; [done..| |by rewrite Hs]. split_and!; [done|by rewrite Hau, Hp|by rewrite He|by rewrite Hd].
Qed.

(** ** Grants that only end or move earlier *)
Lemma grants_end_keeps id how now : keeps (grants_end id how now).
Proof.
  intros db a db' Hw Hr. eapply wf_compare_and_set; [| |exact Hw|exact Hr].
  - intros g Hg. apply grant_later_edge; [done| |done]. rewrite Hg. by destruct how.
  - intros g s _ Ha. by destruct how, s.
Qed.
Lemma expire_now_keeps id now : keeps (expire_now id now).
Proof.
  unfold expire_now. apply keeps_bind; [|intros ?; keeps]. intros db a db' Hw Hr.
  eapply wf_compare_and_set; [| |exact Hw|exact Hr].
  - intros g _. apply expiring_later.
  - intros g s Hg Ha. cbn. by rewrite Hg.
Qed.
#[local] Hint Resolve expire_now_keeps : keeps.
Lemma expire_each_keeps ids now : keeps (expire_each ids now).
Proof. induction ids as [|id ids IH]; cbn [expire_each]; keeps. Qed.
#[local] Hint Resolve expire_each_keeps : keeps.
Lemma expire_now_of_agent_keeps a now : keeps (expire_now_of_agent a now).
Proof. unfold expire_now_of_agent. keeps. Qed.
Lemma rename_each_keeps ids new : keeps (rename_each ids new).
Proof.
  induction ids as [|id ids IH]; cbn [rename_each]; [keeps|]. apply keeps_bind; [|intros ?; keeps].
  intros db a db' Hw Hr. eapply wf_compare_and_set; [| |exact Hw|exact Hr].
  - intros g _. by apply grant_later_same.
  - intros g s Hg Ha. cbn. by rewrite Hg.
Qed.
#[local] Hint Resolve rename_each_keeps : keeps.
Lemma rename_a2a_target_keeps old new : keeps (rename_a2a_target old new).
Proof. unfold rename_a2a_target, active_a2a_targeting. keeps. Qed.
Lemma set_provisioner_state_keeps id v : keeps (set_provisioner_state id v).
Proof.
  intros db a db' Hw Hr. unfold set_provisioner_state, get_grant in Hr.
  apply tx_bind_ok in Hr as (o & d & Ho & Hr). injection Ho as <- <-.
  destruct (db_grants db !! id) as [g|] eqn:Hg; [|by tx_ok]. case_match; [|by tx_ok]. tx_ok.
  unfold update_grant in *. case_match; [|done]. bools. tx_ok.
  assert (Hid : gr_id g = id) by (by eapply (wf_keyed _ _ Hw)). rewrite Hid.
  eapply wf_set_grant_quiet; [done..| |done|done]. by apply grant_later_same.
Qed.
End store_keeps.
#[export] Hint Resolve append_note_keeps set_discord_keeps grants_end_keeps expire_now_keeps
  expire_now_of_agent_keeps rename_a2a_target_keeps set_provisioner_state_keeps : keeps.

(** ** Reads *)

Section reads.
Context `{DateLib, RustFmt}.

Lemma lockdown_check_same a now db x db' :
  lockdown_check a now db = Ok (x, db') ->
  db' = db /\ match x with
            | Ok n => db_agents db !! a = Some (nh_agent n) /\ held_in_db db a now = None
            | Err h => held_in_db db a now = Some h
            end.
Proof using .
  unfold lockdown_check, get_agent, chain, held_in_db. intros Hr.
  apply tx_bind_ok in Hr as (row & d & Hrow & Hr). injection Hrow as <- <-.
  apply tx_bind_ok in Hr as (all & d & Hall & Hr). injection Hall as <- <-.
  destruct (db_agents db !! a) as [row|] eqn:Ha; apply tx_bind_ok in Hr as (c & d & Hc & Hr); injection Hc as <- <-.
  - destruct (held _ _ _ _) eqn:Hh; by injection Hr as <- <-.
  - by injection Hr as <- <-.
Qed.

Definition status_of (a : AnyRequest) : RequestStatus :=
  match a with
  | IsPending _ => Pending | IsLlmEvaluating _ => LlmEvaluating | IsLlmDenied _ => LlmDenied
  | IsAwaitingHuman _ => AwaitingHuman | IsApproved _ => Approved | IsProvisioning _ => Provisioning
  | IsGranted _ => Granted | IsProvisionFailed _ => ProvisionFailed | IsDenied _ => Denied
  end.
Lemma from_row_ok row a : AnyRequest_from_row row = Ok a -> into_row a = row /\ status_of a = rq_status row.
Proof using .
  unfold AnyRequest_from_row, Request_new.
  destruct (rq_status row) eqn:Hs; rewrite bool_decide_true by done; cbn; by intros [= <-].
Qed.
Lemma get_request_ok id db o db' :
  get_request id db = Ok (o, db') ->
  db' = db /\ match o with
            | Some a => db_requests db !! id = Some (into_row a) /\ status_of a = rq_status (into_row a)
            | None => db_requests db !! id = None
            end.
Proof using .
  unfold get_request, any. intros Hr. apply tx_bind_ok in Hr as (row & d & Hrow & Hr). injection Hrow as <- <-.
  unfold tx_lift in Hr. destruct (db_requests db !! id) as [row|]; [|by injection Hr as <- <-].
  destruct (_ ≫= _) as [o'|] eqn:He; [|done]. injection Hr as <- <-. split; [done|].
  inv_ok. unfold read_request in *. case_match; [done|]. inv_ok.
  match goal with HF : AnyRequest_from_row _ = Ok _ |- _ => apply from_row_ok in HF as [-> ->] end. done.
Qed.

Lemma store_keeps {A} (m : tx StoreError A) : keeps m -> keeps (store m).
Proof. apply keeps_map_err. Qed.
Lemma get_request_keeps id : keeps (get_request id).
Proof. unfold get_request. keeps. Qed.
Lemma get_agent_keeps id : keeps (get_agent id).
Proof. apply keeps_read. Qed.
Lemma lockdown_check_keeps a now : keeps (lockdown_check a now).
Proof. intros db x db' Hw Hr. by apply lockdown_check_same in Hr as [-> _]. Qed.
Lemma load_provisioning_ok id db x db' :
  load_provisioning id db = Ok (x, db') ->
  db' = db /\ match x with
            | Some p => db_grants db !! id = Some (pg_grant p) /\ gr_status (pg_grant p) = GProvisioning
            | None => forall g, db_grants db !! id = Some g -> gr_status g <> GProvisioning
            end.
Proof using .
  unfold load_provisioning, get_grant. intros Hr. apply tx_bind_ok in Hr as (o & d & Ho & Hr). injection Ho as <- <-.
  injection Hr as <- <-. split; [done|]. destruct (db_grants db !! id) as [g|] eqn:Hg; [|done].
  destruct (bool_decide _) eqn:Hb; bools; [done|]. by intros g' [= <-].
Qed.
Lemma active_grant_ok id db x db' :
  active_grant id db = Ok (x, db') ->
  db' = db /\ match x with
            | Some g => db_grants db !! id = Some g /\ gr_status g = GActive
            | None => forall g, db_grants db !! id = Some g -> gr_status g <> GActive
            end.
Proof using .
  unfold active_grant, store, get_grant. intros Hr. apply tx_bind_ok in Hr as (o & d & Ho & Hr).
  unfold tx_map_err in Ho. apply map_err_inv in Ho. injection Ho as <- <-.
  injection Hr as <- <-. split; [done|]. destruct (db_grants db !! id) as [g|] eqn:Hg; [|done].
  destruct (bool_decide _) eqn:Hb; bools; [done|]. by intros g' [= <-].
Qed.
Lemma active_grant_keeps id : keeps (active_grant id).
Proof. intros db x db' Hw Hr. by apply active_grant_ok in Hr as [-> _]. Qed.
Lemma tx_run_wf {E A} (m : tx E A) db : keeps m -> wf None db -> wf None (snd (tx_run m db)).
Proof. intros Hm Hw. unfold tx_run. destruct (m db) as [[a d]|] eqn:Hr; [by eapply Hm|done]. Qed.

End reads.
#[export] Hint Resolve store_keeps get_request_keeps get_agent_keeps lockdown_check_keeps active_grant_keeps : keeps.

(** ** Provisioning *)

Section provision_keeps.
Context `{UnicodeLower, RegexLib, DateLib, RustFmt, !Registry, !RegistryLaws, UuidLib}.

Lemma step_request_ok {from} (r : Request from) e `{!CanMoveTo from (target e)} now db h db' :
  step_request r e now db = Ok (h, db') -> transition r e now db = Ok (Ok h, db').
Proof using .
  unfold step_request, store. intros Hr. tx_ok. case_match; [|by tx_ok]. tx_ok.
Qed.
Lemma step_request_early_keeps {from} (h : Request from) e `{!CanMoveTo from (target e)} now :
  early from = true -> early (target e) = true -> duration_ok e -> keeps (step_request h e now).
Proof. intros Hf Ht Hd db a db' Hw Hr. apply step_request_ok in Hr. by eapply transition_early in Hr as (? & _). Qed.

(** What [begin] reads: nothing changes. *)
Lemma delegation_backing_same d now db x db' : delegation_backing d now db = Ok (x, db') -> db' = db.
Proof using .
  unfold delegation_backing, get_agent. intros Hr.
  repeat first [tx_ok1 | case_match]; done.
Qed.
Lemma grants_begin_ok r n id now db x db' :
  grants_begin r n id now db = Ok (x, db') ->
  let row := rq_row r in
  ag_id (nh_agent n) = rq_agent row /\
  match x with
  | Err _ => db' = db
  | Ok p => exists au d backing,
    final_authority row = Some au /\ rq_approved_duration row = Some d /\
    insert_grant (pg_grant p) db = Ok (pg_grant p, db') /\
    (match rq_delegation row with
     | Some a => delegation_backing a now db = Ok (Ok backing, db) | None => backing = None end) /\
    pg_grant p = mkGrant id (rq_id row) (rq_agent row) (rq_session row) (rq_delegation row) (rq_platform row)
      (final_resource row) au now (min_expiry (now + seconds d)%Z backing) GProvisioning (VObject []) None None now
  end.
Proof using .
  unfold grants_begin. intros Hr. apply tx_bind_ok in Hr as (u & d0 & Hv & Hr).
  unfold NotHeld_verify, tx_lift in Hv. destruct (N.eqb (ag_id (nh_agent n)) _) eqn:Ha; [|done].
  injection Hv as <- <-. bools. split; [done|].
  destruct (final_authority (rq_row r)) as [au|]; [|done].
  destruct (rq_approved_duration (rq_row r)) as [d|]; [|done].
  destruct (checked_add now (seconds d)) as [t|] eqn:Hca; [|done].
  unfold checked_add in Hca. destruct (_ <=? _)%Z; [|done]. injection Hca as <-.
  apply tx_bind_ok in Hr as (a0 & db0 & Hm0 & Hr).
  assert (Hb : db0 = db /\ match rq_delegation (rq_row r) with
  | Some a => delegation_backing a now db = Ok (a0, db) | None => a0 = Ok None end).
  { destruct (rq_delegation (rq_row r)); [|by tx_ok]. pose proof (delegation_backing_same _ _ _ _ _ Hm0) as ->. done. }
  destruct Hb as [-> Hb]. destruct a0 as [backing|]; tx_ok.
  pose proof Hm as Hi. apply insert_grant_ok in Hi as (rr & -> & -> & _).
  eexists _, _, backing. split_and!; [done..| | |done]; [done|]. destruct (rq_delegation (rq_row r)); [done|]. by injection Hb.
Qed.

Lemma min_expiry_le e b : (min_expiry e b <= e)%Z.
Proof using . destruct b; cbn; lia. Qed.

(** A grant inserted for the request being moved. *)
Lemma begin_settles db r n id now x db' :
  wf (Some (rq_id (rq_row r))) db -> db_requests db !! rq_id (rq_row r) = Some (rq_row r) ->
  no_grant db (rq_id (rq_row r)) -> grants_begin r n id now db = Ok (Ok x, db') -> wf None db'.
Proof.
  intros Hw Hrow Hno Hr. apply grants_begin_ok in Hr as (_ & au & d & backing & Hau & Hd & Hi & _ & Hx).
  apply insert_grant_ok in Hi as (row & _ & -> & Hn & Hs & Hc & Hreq & Hst & Ha & Hp & _).
  rewrite Hx in Hreq. cbn in Hreq. replace row with (rq_row r) in * by congruence.
  pose proof (wf_request _ _ Hw _ _ Hrow) as (_ & Ho1 & Ho2 & _).
  eapply (wf_new_grant _ (rq_row r)); rewrite ?Hx; cbn; try done; [by rewrite Hx in Hn|by rewrite Hx in Hc|..].
  - split_and!; [done..| |].
  + unfold final_authority in Hau. destruct (rq_edit (rq_row r)); unfold opt_ok in *.
    * injection Hau as <-. by bools.
    * rewrite Hau in Ho1. by bools.
  + exists d. split; [done|]. apply min_expiry_le.
  - by rewrite Hst.
Qed.

Lemma begin_provision_keeps r id now : keeps (begin_provision r id now).
Proof.
  intros db x db' Hw Hr. unfold begin_provision, store in Hr.
  apply tx_bind_ok in Hr as (h & d1 & H1' & Hr). apply step_request_ok in H1'.
  eapply transition_wf in H1' as (Hw1 & Hrow & Hst & Hid & Hg & row & Hrow0 & Hst0 & _); [|done|by left|done].
  assert (Hno : no_grant d1 (rq_id (rq_row r))).
  { intros k g. rewrite Hg. eapply early_no_grant; [exact Hw|done|exact Hrow0|by rewrite Hst0]. }
  apply tx_bind_ok in Hr as (check & d2 & H2' & Hr). unfold tx_map_err in H2'. apply map_err_inv in H2'.
  apply lockdown_check_same in H2' as [-> _]. rewrite <- Hid in *.
  assert (Hfail : forall why k d', step_request h (ToProvisionFailed why) now d1 = Ok (k, d') -> wf None d').
  { intros why k d' Hf. apply step_request_ok in Hf.
  eapply transition_wf in Hf as (Hw2 & Hrow2 & Hst2 & Hid2 & Hg2 & _); [|done|by right|done].
  eapply wf_settle_none; [done|done|by rewrite Hst2|]. intros k' g. rewrite Hg2. apply Hno. }
  destruct check as [n|held]; [|tx_ok; eauto].
  apply tx_bind_ok in Hr as (b & d2 & H2' & Hr). unfold tx_map_err in H2'. apply map_err_inv in H2'.
  destruct b as [p|refused].
  - tx_ok. by eapply begin_settles.
  - apply grants_begin_ok in H2' as [_ ->]. tx_ok. eauto.
Qed.

(** ** A grant and its request, one after the other *)

Lemma cas_busy id from f db g' db' :
  wf None db -> (forall g, gr_status g = from -> grant_later g (f g)) ->
  compare_and_set id from f db = Ok (Ok g', db') ->
  exists g r, db_grants db !! id = Some g /\ gr_status g = from /\ g' = f g /\
  db_requests db !! gr_request g = Some r /\ agree (rq_status r) from = true /\
  db_requests db' = db_requests db /\ db_grants db' !! id = Some g' /\ gr_request g' = gr_request g /\
  wf (Some (gr_request g)) db'.
Proof.
  intros Hw Hf Hr. apply compare_and_set_ok in Hr as (g & Hg & Hs & -> & Hc & ->).
  assert (Hid : gr_id g = id) by (by eapply (wf_keyed _ _ Hw)). rewrite Hid.
  destruct (wf_grant _ _ Hw _ _ Hg) as (_ & r & Hreq & _ & Ha). specialize (Ha ltac:(done)).
  exists g, r. rewrite <- Hs. split_and!; try done.
  - cbn. apply lookup_insert_eq.
  - destruct (Hf _ Hs) as (Hsp & _). unfold grant_spec in Hsp. by injection Hsp.
  - eapply wf_set_grant; [done|by left|done|by apply Hf|done].
Qed.

(** The request follows its grant. *)
Lemma follow_done (e : Entering) `{HC : !CanMoveTo Provisioning (target e)} (r : Request Provisioning) now db k g h db' :
  approves e = false -> duration_ok e -> agree (target e) (gr_status g) = true ->
  wf (Some (rq_id (rq_row r))) db -> db_grants db !! k = Some g -> gr_request g = rq_id (rq_row r) ->
  step_request r e now db = Ok (h, db') -> wf None db'.
Proof.
  intros Hap Hd Ha Hw Hg Hq Hr. apply step_request_ok in Hr.
  eapply transition_wf in Hr as (Hw2 & Hrow2 & Hst2 & Hid2 & Hg2 & _); [|done|by right|done].
  eapply (wf_settle_some _ _ (rq_row h) k g); [done|done|by rewrite Hg2|done|by rewrite Hst2].
Qed.
Lemma fail_request_done id why now db k g r u db' :
  wf (Some id) db -> db_requests db !! id = Some r -> rq_status r = Provisioning -> db_grants db !! k = Some g ->
  gr_request g = id -> gr_status g = GProvisionFailed -> fail_request id why now db = Ok (u, db') -> wf None db'.
Proof.
  intros Hw Hreq Hs Hg Hq Hgs Hr. unfold fail_request, store in Hr.
  apply tx_bind_ok in Hr as (o & d & Ho & Hr). unfold tx_map_err in Ho. apply map_err_inv, get_request_ok in Ho as [-> Ho].
  destruct o as [a|]; [|congruence]. destruct Ho as [Ho1 Ho2].
  assert (Hs' : status_of a = Provisioning) by congruence.
  assert (Hid : rq_id (into_row a) = id) by (by eapply (wf_keyed _ _ Hw)).
  destruct a as [| | | | |h| | |]; try discriminate Hs'. tx_ok. cbn in Hid.
  eapply (follow_done (ToProvisionFailed why)); [done|done| |by rewrite Hid|done|by rewrite Hid|exact Hm].
  by rewrite Hgs.
Qed.
Lemma grant_succeeded_done id now db k g r u db' :
  wf (Some id) db -> db_requests db !! id = Some r -> rq_status r = Provisioning -> db_grants db !! k = Some g ->
  gr_request g = id -> gr_status g = GActive -> grant_succeeded id now db = Ok (u, db') -> wf None db'.
Proof.
  intros Hw Hreq Hs Hg Hq Hgs Hr. unfold grant_succeeded, store in Hr.
  apply tx_bind_ok in Hr as (o & d & Ho & Hr). unfold tx_map_err in Ho. apply map_err_inv, get_request_ok in Ho as [-> Ho].
  destruct o as [a|]; [|congruence]. destruct Ho as [Ho1 Ho2].
  assert (Hs' : status_of a = Provisioning) by congruence.
  assert (Hid : rq_id (into_row a) = id) by (by eapply (wf_keyed _ _ Hw)).
  destruct a as [| | | | |h| | |]; try discriminate Hs'. tx_ok. cbn in Hid.
  eapply (follow_done ToGranted); [done|done| |by rewrite Hid|done|by rewrite Hid|exact Hm].
  by rewrite Hgs.
Qed.
Lemma fail_request_other id why now db u db' :
  (forall r, db_requests db !! id = Some r -> rq_status r <> Provisioning) ->
  fail_request id why now db = Ok (u, db') -> db' = db.
Proof.
  intros Hs Hr. unfold fail_request, store in Hr.
  apply tx_bind_ok in Hr as (o & d & Ho & Hr). unfold tx_map_err in Ho. apply map_err_inv, get_request_ok in Ho as [-> Ho].
  destruct o as [a|]; [|by tx_ok]. destruct Ho as [Ho1 Ho2]. specialize (Hs _ Ho1).
  destruct a; cbn in Ho2, Hs; try (by tx_ok).
Qed.

(** The grant at [k] is the one of this request. *)
Definition grant_at (db : Database) (k : GrantId) (id : RequestId) : Prop :=
  exists g, db_grants db !! k = Some g /\ gr_request g = id.

Lemma fail_provisioning_then p why at_ id why' now db x u d1 db' :
  wf None db -> grant_at db (gr_id (pg_grant p)) id ->
  fail_provisioning p why at_ db = Ok (x, d1) -> fail_request id why' now d1 = Ok (u, db') -> wf None db'.
Proof.
  intros Hw (g & Hg & Hq) H1' H2'. unfold fail_provisioning in H1'. destruct x as [g'|i].
  - apply cas_busy in H1' as (g0 & r & Hg0 & Hs & -> & Hreq & Ha & HR & Hg1 & Hq1 & Hw1); [|done|].
  + replace g0 with g in * by congruence. rewrite Hq in *.
    eapply fail_request_done; [exact Hw1| | |exact Hg1|by rewrite Hq1|done|exact H2'].
    * rewrite HR. exact Hreq.
    * by destruct (rq_status r).
  + intros g1 Hs1. apply grant_later_edge; [done| |done]. by rewrite Hs1.
  - apply compare_and_set_lost in H1' as (-> & _ & Hne). specialize (Hne _ Hg).
  apply fail_request_other in H2' as ->; [done|]. intros r Hr Hs.
  destruct (wf_wants _ _ Hw id r Hr) as (k & g' & Hg' & Hq'); [by rewrite Hs|done|].
  assert (k = gr_id (pg_grant p)) as -> by (eapply (wf_unique _ _ Hw); [done..|congruence]).
  replace g' with g in * by congruence.
  destruct (wf_grant _ _ Hw _ _ Hg) as (_ & r' & Hr' & _ & Ha). specialize (Ha ltac:(done)).
  replace r' with r in * by congruence. rewrite Hs in Ha. by destruct (gr_status g).
Qed.
Lemma fail_grant_wf p id why at_ now db u db' :
  wf None db -> grant_at db (gr_id (pg_grant p)) id -> fail_grant p id why at_ now db = Ok (u, db') -> wf None db'.
Proof. intros Hw Hg Hr. unfold fail_grant, store in Hr. tx_ok. by eapply fail_provisioning_then. Qed.

(** ** The platform *)

Lemma wf_platform b db db' : platform_kept db db' -> wf b db -> wf b db'.
Proof.
  intros Hp [K R G U W]. pose proof (platform_kept_keyed _ _ Hp K) as K'. destruct Hp as (HR & HG & HN).
  assert (Hback : forall k g', db_grants db' !! k = Some g' ->
  exists g, db_grants db !! k = Some g /\ platform_row g g').
  { intros k g' Hg'. destruct (db_grants db !! k) as [g|] eqn:Hg; [|by rewrite HN in Hg'].
  destruct (HG _ _ Hg) as (x & Hx & Hrow). replace x with g' in * by congruence. eauto. }
  constructor; [done| | | |]; rewrite ?HR; [done|..].
  - intros k g' Hg'. destruct (Hback _ _ Hg') as (g & Hg & Hs & Ht & He & Hc).
  unfold grant_spec in Hs. injection Hs as ? ? ? ? ? ? ? ? ?.
  destruct (G _ _ Hg) as (Hck & r & Hr & (Ho1 & Ho2 & Ho3 & d & Ho4 & Ho5) & Ha). split; [auto|].
  exists r. split_and!; [congruence| |rewrite Ht; intros; apply Ha; congruence].
  split_and!; [congruence..|]. exists d. split; [done|]. congruence.
  - intros k k' x x' Hx Hx' Hq. destruct (Hback _ _ Hx) as (y & Hy & Hs & _). destruct (Hback _ _ Hx') as (y' & Hy' & Hs' & _).
  unfold grant_spec in Hs, Hs'. injection Hs as ? ? ? ? ? ? ? ? ?. injection Hs' as ? ? ? ? ? ? ? ? ?.
  eapply U; [exact Hy|exact Hy'|congruence].
  - intros k r Hr Hwa Hb. destruct (W k r Hr Hwa Hb) as (k' & g & Hg & Hq). destruct (HG _ _ Hg) as (x & Hx & Hs & _).
  unfold grant_spec in Hs. injection Hs as ? ? ? ? ? ? ? ? ?. exists k', x. split; [done|congruence].
Qed.
Lemma grant_at_platform db db' k id : platform_kept db db' -> grant_at db k id -> grant_at db' k id.
Proof.
  intros (_ & HG & _) (g & Hg & <-). destruct (HG _ _ Hg) as (x & Hx & Hs & _). exists x. split; [done|].
  unfold grant_spec in Hs. by injection Hs.
Qed.
Lemma run_revoke_keeps g now : keeps (run_revoke g now).
Proof.
  intros db a db' Hw Hr. unfold run_revoke in Hr. pose proof (revoke_kept g now db) as Hp.
  destruct (revoke g now db) as [out d]. injection Hr as <- <-. by eapply wf_platform.
Qed.
End provision_keeps.

(** ** Phase two, and the ends of grants *)

Section finish_keeps.
Context `{UnicodeLower, RegexLib, DateLib, RustFmt, !Registry, !RegistryLaws, UuidLib}.

#[local] Hint Resolve run_revoke_keeps : keeps.
Lemma revoke_external_keeps g now : keeps (revoke_external g now).
Proof. unfold revoke_external. keeps. Qed.
#[local] Hint Resolve revoke_external_keeps : keeps.
Lemma revoke_tx_keeps id why by_ now : keeps (revoke_tx id why by_ now).
Proof. unfold revoke_tx. keeps. Qed.
Lemma expire_tx_keeps id now : keeps (expire_tx id now).
Proof. unfold expire_tx. keeps. Qed.

(** Platform code run on the grant leaves it in its place. *)
Lemma run_revoke_ok g now db x db' : run_revoke g now db = Ok (x, db') -> platform_kept db db'.
Proof.
  intros Hr. unfold run_revoke in Hr. pose proof (revoke_kept g now db) as Hp.
  destruct (revoke g now db) as [out d]. by injection Hr as <- <-.
Qed.
Lemma run_provision_ok g now db x db' : run_provision g now db = Ok (x, db') -> platform_kept db db'.
Proof.
  intros Hr. unfold run_provision in Hr. pose proof (provision_kept g now db) as Hp.
  destruct (provision g now db) as [out d]. by injection Hr as <- <-.
Qed.
Lemma revoke_external_ok g now db x db' : revoke_external g now db = Ok (x, db') -> platform_kept db db'.
Proof.
  unfold revoke_external. intros Hr. case_match; [|case_match; [|done]].
  - apply tx_bind_ok in Hr as (o & d & Ho & Hr). apply run_revoke_ok in Ho. case_match; by tx_ok.
  - tx_ok. apply platform_kept_refl.
Qed.

Lemma not_made_wf p id e b now db x db' :
  wf None db -> grant_at db (gr_id (pg_grant p)) id -> not_made p id e b now db = Ok (x, db') -> wf None db'.
Proof.
  intros Hw Hg Hr. unfold not_made in Hr. destruct b; [by tx_ok|].
  destruct (fail_grant _ _ _ _ _ db) as [[u d]|] eqn:Hf; injection Hr as <- <-; [|done]. by eapply fail_grant_wf.
Qed.
Lemma made_wf p n state id now db x d1 u db' :
  wf None db -> grant_at db (gr_id (pg_grant p)) id ->
  activate p n state db = Ok (Ok x, d1) -> grant_succeeded id now d1 = Ok (u, db') -> wf None db'.
Proof.
  intros Hw (g & Hg & Hq) H1' H2'. unfold activate in H1'. tx_ok.
  apply cas_busy in H1' as (g0 & r & Hg0 & Hs & -> & Hreq & Ha & HR & Hg1 & Hq1 & Hw1); [|done|].
  - replace g0 with g in * by congruence.
  eapply grant_succeeded_done; [exact Hw1| | |exact Hg1|done|done|exact H2'].
  + rewrite HR. exact Hreq.
  + by destruct (rq_status r).
  - intros g1 Hs1. apply grant_later_edge; [done| |done]. by rewrite Hs1.
Qed.
(** The row read before the locks is of the grant's own request. *)
Lemma finish_tx_wf row prepared now db x db' :
  wf None db -> (forall g, db_grants db !! gr_id row = Some g -> gr_request g = gr_request row) ->
  finish_tx row prepared now db = Ok (x, db') -> wf None db'.
Proof.
  intros Hw Hsame Hr. unfold finish_tx, store in Hr.
  apply tx_bind_ok in Hr as (held & d & Hh & Hr). unfold tx_map_err in Hh. apply map_err_inv, lockdown_check_same in Hh as [-> Hh].
  apply tx_bind_ok in Hr as (o & d & Ho & Hr). unfold tx_map_err in Ho. apply map_err_inv, load_provisioning_ok in Ho as [-> Ho].
  destruct o as [p|]; [|by tx_ok]. destruct Ho as [Hp Hps].
  assert (Hid : gr_id (pg_grant p) = gr_id row) by (by eapply (wf_keyed _ _ Hw)).
  assert (Hat : grant_at db (gr_id (pg_grant p)) (gr_request row)) by (exists (pg_grant p); rewrite Hid; auto).
  destruct held as [n|h]; [|tx_ok; by eapply fail_grant_wf].
  destruct (negb _); [tx_ok; by eapply fail_grant_wf|].
  destruct prepared as [|e]; [|by eapply not_made_wf].
  apply tx_bind_ok in Hr as (out & d & Hout & Hr). apply run_provision_ok in Hout as Hk.
  assert (Hw1 : wf None d) by (by eapply wf_platform).
  assert (Hat1 : grant_at d (gr_id (pg_grant p)) (gr_request row)) by (by eapply grant_at_platform).
  destruct out as [state|e b|].
  - apply tx_bind_ok in Hr as (act & d2 & Ha & Hr). unfold tx_map_err in Ha. apply map_err_inv in Ha. destruct act as [g'|i].
  + tx_ok. by eapply made_wf.
  + unfold activate in Ha. apply tx_bind_ok in Ha as (u & d3 & Hv & Ha). tx_ok. apply compare_and_set_lost in Ha as (-> & _). by eapply run_revoke_keeps.
  - by eapply not_made_wf.
  - apply tx_bind_ok in Hr as (un & d2 & Hun & Hr). apply run_revoke_ok in Hun as Hk2.
  assert (Hw2 : wf None d2) by (by eapply wf_platform).
  assert (Hat2 : grant_at d2 (gr_id (pg_grant p)) (gr_request row)) by (by eapply grant_at_platform).
  destruct un; [|by tx_ok]. tx_ok. by eapply fail_grant_wf.
Qed.
Lemma record_failure_wf row why now db x db' :
  wf None db -> grant_at db (gr_id row) (gr_request row) -> record_failure row why now db = Ok (x, db') -> wf None db'.
Proof.
  intros Hw Hat Hr. unfold record_failure, store in Hr.
  apply tx_bind_ok in Hr as (o & d0 & Ho & Hr).
  unfold tx_map_err in Ho. apply map_err_inv, load_provisioning_ok in Ho as [-> Ho].
  apply tx_bind_ok in Hr as (u & d & Hu & Hr). apply tx_bind_ok in Hr as (u2 & d2 & Hf & Hr).
  injection Hr as _ <-. destruct o as [p|].
  - tx_ok. destruct Ho as [Hp _]. assert (Hid : gr_id (pg_grant p) = gr_id row) by (by eapply (wf_keyed _ _ Hw)).
  eapply (fail_provisioning_then p); [exact Hw| |done|done]. by rewrite Hid.
  - injection Hu as _ <-. destruct Hat as (g & Hg & Hq). specialize (Ho _ Hg).
  apply fail_request_other in Hf as ->; [done|]. intros r Hrr Hs.
  destruct (wf_wants _ _ Hw _ r Hrr) as (k & g' & Hg' & Hq'); [by rewrite Hs|done|].
  assert (k = gr_id row) as -> by (eapply (wf_unique _ _ Hw); [done..|congruence]).
  destruct (wf_grant _ _ Hw _ _ Hg) as (_ & r' & Hr' & _ & Ha). specialize (Ha ltac:(done)).
  rewrite Hq in Hr'. replace r' with r in * by congruence. rewrite Hs in Ha. by destruct (gr_status g).
Qed.
Lemma reap_tx_keeps id now why : keeps (reap_tx id now why).
Proof.
  intros db x db' Hw Hr. unfold reap_tx, store in Hr.
  apply tx_bind_ok in Hr as (o & d & Ho & Hr). unfold tx_map_err in Ho. apply map_err_inv, load_provisioning_ok in Ho as [-> Ho].
  destruct o as [p|]; [|by tx_ok]. destruct Ho as [Hp _].
  assert (Hid : gr_id (pg_grant p) = id) by (by eapply (wf_keyed _ _ Hw)).
  apply tx_bind_ok in Hr as (ext & d & He & Hr). apply revoke_external_ok in He as Hk.
  assert (Hw1 : wf None d) by (by eapply wf_platform).
  assert (Hat1 : grant_at d (gr_id (pg_grant p)) (gr_request (pg_grant p))).
  { eapply grant_at_platform; [done|]. exists (pg_grant p). by rewrite Hid. }
  apply tx_bind_ok in Hr as (f & d2 & Hf & Hr). unfold tx_map_err in Hf. apply map_err_inv in Hf.
  destruct f as [g'|i].
  - tx_ok. by eapply fail_provisioning_then.
  - tx_ok. unfold fail_provisioning in Hf. by apply compare_and_set_lost in Hf as (-> & _).
Qed.

Lemma grant_at_later db db' k id : later db db' -> grant_at db k id -> grant_at db' k id.
Proof.
  intros [_ HG] (g & Hg & <-). destruct (HG _ _ Hg) as (x & Hx & Hs & _). exists x. split; [done|].
  unfold grant_spec in Hs. by injection Hs.
Qed.
(** A transaction that is committed or dropped. *)
Lemma tx_close_wf {A} (m : tx ServiceError (Closing A)) db : keeps m -> wf None db -> wf None (snd (tx_close m db)).
Proof. intros Hm Hw. unfold tx_close. destruct (m db) as [[[a|a] d]|] eqn:Hr; [by eapply Hm|done..]. Qed.
Lemma revoke_grant_wf id why by_ now db : wf None db -> wf None (snd (revoke_grant id why by_ now db)).
Proof.
  intros Hw. unfold revoke_grant. destruct (active_grant id db) as [[[g|] d]|]; [|done..].
  destruct (revoke_external g now db) as [[e d']|]; [|cbn; apply tx_run_wf; [apply expire_now_keeps|done]].
  apply tx_close_wf; [apply revoke_tx_keeps|done].
Qed.
Lemma expire_one_wf id now db : wf None db -> wf None (snd (expire_one id now db)).
Proof. intros Hw. apply tx_close_wf; [apply expire_tx_keeps|done]. Qed.
Lemma reap_one_wf id now why db : wf None db -> wf None (snd (reap_one id now why db)).
Proof. intros Hw. apply tx_close_wf; [apply reap_tx_keeps|done]. Qed.
Lemma revoke_if_held_wf id now now' db : wf None db -> wf None (snd (revoke_if_held id now now' db)).
Proof.
  intros Hw. unfold revoke_if_held. destruct (db_grants db !! id) as [g|]; [|done]. case_match; [done|].
  case_match; [|done]. pose proof (revoke_grant_wf id (Held_text h) (lit "containment") now' db Hw) as Hr.
  destruct (revoke_grant _ _ _ _ db) as [[x|[]] d]; cbn in *; try done.
  all: apply tx_run_wf; [apply expire_now_keeps|done].
Qed.
Lemma finish_inner_wf id now db : wf None db -> wf None (snd (finish_inner id now db)).
Proof.
  intros Hw. unfold finish_inner. destruct (db_grants db !! id) as [row|] eqn:Hrow; [|done]. case_match; [done|].
  set (start := if enabled_platform (gr_platform row) then prepare row now db else (Ok tt, db)).
  assert (Hk : platform_kept db (snd start)).
  { unfold start. case_match; [apply prepare_kept|apply platform_kept_refl]. }
  destruct start as [prepared d]. cbn in Hk.
  assert (Hw1 : wf None d) by (by eapply wf_platform).
  assert (Hid : gr_id row = id) by (by eapply (wf_keyed _ _ Hw)).
  assert (Hat : grant_at d (gr_id row) (gr_request row)).
  { eapply grant_at_platform; [done|]. exists row. by rewrite Hid. }
  assert (Hsame : forall g, db_grants d !! gr_id row = Some g -> gr_request g = gr_request row).
  { intros g Hg. destruct Hat as (g' & Hg' & <-). congruence. }
  assert (Hrec : forall why d', wf None d' -> later d d' -> wf None (snd (tx_close (record_failure row why now) d'))).
  { intros why d' Hw' Hl. unfold tx_close. destruct (record_failure _ _ _ d') as [[[a|a] d3]|] eqn:Hrf; cbn; try done.
  eapply record_failure_wf; [done| |done]. by eapply grant_at_later. }
  unfold tx_close at 1. destruct (finish_tx row prepared now d) as [[[f|f] d2]|] eqn:Hf; [| |done].
  - pose proof (finish_tx_wf _ _ _ _ _ _ Hw1 Hsame Hf) as Hw2.
  destruct f; [done|]. apply Hrec; [done|]. by eapply (finish_tx_mono later later_StepOrder later_ActivateOrder); [apply Hw1|].
  - by destruct f; [|apply Hrec].
Qed.
Lemma finish_provision_wf id n1 n2 n3 db : wf None db -> wf None (finish_provision id n1 n2 n3 db).
Proof. intros Hw. apply revoke_if_held_wf, finish_inner_wf, Hw. Qed.
End finish_keeps.

(** ** Creating, deciding, reviewing, containing *)

Section operation_keeps.
Context `{UnicodeLower, RegexLib, DateLib, RustFmt, !Registry, !RegistryLaws, UuidLib}.
#[local] Hint Extern 1 (keeps (begin_provision _ _ _)) => apply begin_provision_keeps : keeps.

Lemma clamp_duration_range n : (1 <= clamp_duration n <= MAX_DURATION_SECS)%Z.
Proof.
  unfold clamp_duration, from_secs. assert (HM : (MAX_DURATION_SECS = 31536000)%Z) by reflexivity.
  rewrite HM. change (Z.to_N 31536000) with 31536000%N.
  destruct (_ <=? 0)%Z eqn:E0; [lia|]. destruct (_ && _); lia.
Qed.
Lemma policy_cap_le p n m : (policy_cap p (clamp_duration n) m <= MAX_DURATION_SECS)%Z.
Proof.
  pose proof (clamp_duration_range n). unfold policy_cap, cap_duration. destruct m; lia.
Qed.
Lemma cap_ok p n m : (Z.to_N (policy_cap p (clamp_duration n) m) <= HUMAN_MAX_DURATION_SECS)%N.
Proof. unfold HUMAN_MAX_DURATION_SECS. pose proof (policy_cap_le p n m). lia. Qed.
Lemma human_duration_ok p r d : (human_duration p r d <= HUMAN_MAX_DURATION_SECS)%N.
Proof. unfold human_duration. lia. Qed.
Lemma reviewed_ok p n m x s : (Z.to_N (reviewed_duration (policy_cap p (clamp_duration n) m) x s) <= HUMAN_MAX_DURATION_SECS)%N.
Proof.
  unfold HUMAN_MAX_DURATION_SECS. pose proof (policy_cap_le p n m). unfold reviewed_duration.
  destruct s as [s|]; [case_match|]; lia.
Qed.

Lemma zone_check_keeps p a au r : keeps (zone_check p a au r).
Proof. unfold zone_check, agent_by_name, list_in_sandbox. keeps. Qed.
Lemma saved_rules_keeps p now : keeps (saved_rules p now).
Proof. unfold saved_rules, live_for. keeps. Qed.
Lemma stored_gates_keeps a au r x : keeps (stored_gates a au r x).
Proof. unfold stored_gates, created_for_another. keeps. Qed.
Lemma delegator_of_keeps r : keeps (delegator_of r).
Proof. unfold delegator_of. keeps. Qed.
#[local] Hint Resolve zone_check_keeps saved_rules_keeps stored_gates_keeps delegator_of_keeps : keeps.
Lemma reroute_keeps p id a d r au now : keeps (reroute p id a d r au now).
Proof. unfold reroute. keeps. Qed.
Lemma resolve_keeps c p t : keeps (resolve c p t).
Proof. unfold resolve. keeps. Qed.
Lemma validate_keeps a r au now :
  keeps (fun db => match validate a r au now db with Ok v => Ok (v, db) | Err e => Err e end).
Proof. intros db x db' Hw Hr. destruct (validate a r au now db); [|done]. by injection Hr as <- <-. Qed.
Lemma insert_request_keeps id agent session d p resource cap scope a j secs notes now :
  keeps (insert_request id agent session d p resource cap scope a j secs notes now).
Proof. intros db x db' Hw Hr. by apply insert_request_wf in Hr as (? & _). Qed.
Lemma early_step {from} (h : Request from) e `{HC : !CanMoveTo from (target e)} now :
  early from && early (target e) = true -> duration_ok e -> keeps (step_request h e now).
Proof. intros [Hf Ht]%andb_true_iff Hd. by apply step_request_early_keeps. Qed.
#[local] Hint Resolve reroute_keeps resolve_keeps validate_keeps insert_request_keeps : keeps.
#[local] Hint Extern 1 (keeps (step_request _ _ _)) =>
  apply early_step; [reflexivity|first [exact I | apply cap_ok | apply human_duration_ok | apply reviewed_ok]] : keeps.

Lemma draft_insert_keeps d r a : keeps (draft_insert d r a).
Proof. unfold draft_insert. keeps. Qed.
#[local] Hint Resolve draft_insert_keeps : keeps.
Lemma draft_refuse_keeps d r a why : keeps (draft_refuse d r a why).
Proof. unfold draft_refuse. keeps. Qed.
Lemma enter_route_keeps p llm d r a de ro g : keeps (enter_route p llm d r a de ro g).
Proof. unfold enter_route. keeps. Qed.
#[local] Hint Resolve draft_refuse_keeps enter_route_keeps : keeps.
Lemma create_routed_keeps p llm d a de v g : keeps (create_routed p llm d a de v g).
Proof. unfold create_routed. keeps. Qed.
#[local] Hint Resolve create_routed_keeps : keeps.
Lemma create_validated_keeps p llm d a de g : keeps (create_validated p llm d a de g).
Proof. unfold create_validated. keeps. Qed.
#[local] Hint Resolve create_validated_keeps : keeps.
Lemma create_keeps p llm c b id g now : keeps (create p llm c b id g now).
Proof. unfold create. keeps. Qed.

(** *** Decisions *)
Lemma revalidate_keeps p a r d now : keeps (revalidate p a r d now).
Proof. unfold revalidate. keeps. Qed.
Lemma awaiting_keeps a now : keeps (awaiting a now).
Proof. unfold awaiting. keeps; exact (early_step r (ToAwaitingHuman None) now eq_refl I). Qed.
Lemma insert_rule_keeps r : keeps (insert_rule r).
Proof. unfold insert_rule. keeps. Qed.
#[local] Hint Resolve revalidate_keeps awaiting_keeps insert_rule_keeps : keeps.
Lemma save_rule_keeps r i a row e d by_ now : keeps (save_rule r i a row e d by_ now).
Proof. unfold save_rule. keeps. Qed.
#[local] Hint Resolve save_rule_keeps : keeps.
Lemma approve_human_wf r h at_ why d now db x db' :
  wf None db -> (d <= HUMAN_MAX_DURATION_SECS)%N -> approve_human r h at_ why d now db = Ok (x, db') ->
  wf None db' /\ db_requests db' !! rq_id (rq_row x) = Some (rq_row x).
Proof.
  intros Hw Hd Hr.
  assert (Hs : forall ap, duration_ok (ToApproved (Approval_human ap why d))) by done.
  assert (Hstep : forall ap, step_request r (ToApproved (Approval_human ap why d)) now db = Ok (x, db') ->
  wf None db' /\ db_requests db' !! rq_id (rq_row x) = Some (rq_row x)).
  { intros ap Ha. apply step_request_ok in Ha.
  eapply transition_early in Ha as (? & Hx & _ & Hid); [|done..|apply Hs].
  split; [done|]. rewrite <- Hid in Hx. exact Hx. }
  unfold approve_human in Hr. destruct at_ as [ap|]; [case_match; [|done]|]; by eapply Hstep.
Qed.
Lemma approve_edit_keeps r h at_ why d edit g now :
  (d <= HUMAN_MAX_DURATION_SECS)%N ->
  keeps (let! approved := approve_human r h at_ why d now in
       let! edited := store (set_approved_edit approved edit now) in
       match edited with
       | Err _ => tx_fail (Transition CONCURRENT)
       | Ok approved => begin_provision approved g now
       end).
Proof.
  intros Hd db x db' Hw Hr. apply tx_bind_ok in Hr as (ap & d1 & Ha & Hr).
  apply approve_human_wf in Ha as [Hw1 Hrow]; [|done..].
  apply tx_bind_ok in Hr as (ed & d2 & He & Hr). unfold store, tx_map_err in He. apply map_err_inv in He.
  apply set_approved_edit_wf in He as [Hw2 _]; [|done|].
  - destruct ed; [|done]. by eapply begin_provision_keeps.
  - intros row Hrow'. by replace row with (rq_row ap) by congruence.
Qed.
Lemma decide_inner_keeps p id w a d ri gi now : keeps (decide_inner p id w a d ri gi now).
Proof.
  unfold decide_inner. repeat first [apply approve_edit_keeps, human_duration_ok | keeps1].
Qed.
Lemma apply_one_keeps p id r g now : keeps (apply_one p id r g now).
Proof. unfold apply_one. keeps. Qed.

(** *** The reviewer *)
Lemma record_evaluation_keeps id n m s : keeps (record_evaluation id n m s).
Proof. unfold record_evaluation. keeps. Qed.
Lemma holding_keeps a : keeps (holding a).
Proof. unfold holding, chain. keeps. Qed.
#[local] Hint Resolve record_evaluation_keeps holding_keeps : keeps.
Lemma act_on_approve_keeps p rd c why s g now : keeps (act_on_approve p rd c why s g now).
Proof. unfold act_on_approve. keeps. Qed.
#[local] Hint Resolve act_on_approve_keeps : keeps.
Lemma evaluate_record_keeps p rd v g now : keeps (evaluate_record p rd v g now).
Proof. unfold evaluate_record. keeps. Qed.
Lemma transition_keeps {from} (h : Request from) e `{HC : !CanMoveTo from (target e)} now :
  early from && early (target e) = true -> duration_ok e -> keeps (transition h e now).
Proof. intros [Hf Ht]%andb_true_iff Hd. by apply transition_early_keeps. Qed.
#[local] Hint Extern 1 (keeps (transition _ _ _)) => apply transition_keeps; [reflexivity|exact I] : keeps.
Lemma escalate_from_llm_keeps id n now : keeps (escalate_from_llm id n now).
Proof. unfold escalate_from_llm. keeps. Qed.
Lemma refuse_if_held_keeps a now : keeps (refuse_if_held a now).
Proof. unfold refuse_if_held. keeps. Qed.
Lemma own_denied_keeps c id v : keeps (own_denied c id v).
Proof. unfold own_denied. keeps. Qed.
#[local] Hint Resolve refuse_if_held_keeps own_denied_keeps : keeps.
Lemma retry_keeps p c id j now : keeps (retry p c id j now).
Proof. unfold retry. keeps. Qed.
Lemma escalate_keeps c id now : keeps (escalate c id now).
Proof. unfold escalate. keeps. Qed.

(** *** Containment *)
Lemma record_entry_keeps e : keeps (record_entry e).
Proof. unfold record_entry. keeps. Qed.
Lemma expire_agents_keeps l now : keeps (expire_agents l now).
Proof. induction l; cbn [expire_agents]; keeps. Qed.
#[local] Hint Resolve record_entry_keeps expire_agents_keeps : keeps.
Lemma record_keeps e now : keeps (record e now).
Proof. unfold record. keeps. Qed.
Lemma update_agent_keeps id ok f : keeps (update_agent id ok f).
Proof. unfold update_agent. keeps. Qed.
#[local] Hint Resolve update_agent_keeps : keeps.
Lemma disable_each_keeps l r : keeps (disable_each l r).
Proof. induction l; cbn [disable_each]; keeps. Qed.
#[local] Hint Resolve disable_each_keeps : keeps.
Lemma disable_tree_keeps a now r : keeps (disable_tree a now r).
Proof. unfold disable_tree. keeps. Qed.
End operation_keeps.
