(* ===== verification/ServiceRuns.v ===== *)
(** Runs of the request lifecycle: every transaction the service commits, in
    any order and any number, and what holds of all of them.

    A step is one committed transaction (or one call of a function that
    commits several), at any instant, with any arguments: the interleaving
    of the broker's tasks. *)

From stdpp Require Import gmap.
From S2P Require Import Prelude Json Glob Pyfmt Lifecycle Names Durations Pool Mail Authority Routing Agents Hostexec Schema Policy Zones Eval CanonicalJson Store Requests Grants Threads ServiceRouting Provision Create Decide Review Contain TxLogic ServiceMono ServiceInv ServiceWf.
From stdpp Require Import options.
#[local] Set Default Proof Using "Type*".

Section runs.
Context `{UnicodeLower, RegexLib, DateLib, RustFmt, !Registry, !RegistryLaws, UuidLib}.
Variable policy : Policy.

Inductive service_step (db : Database) : Database -> Prop :=
| step_create llm caller body id g now c db' :
create policy llm caller body id g now db = Ok (c, db') -> service_step db db'
| step_decide id who attested d rule g now x db' :
decide_inner policy id who attested d rule g now db = Ok (x, db') -> service_step db db'
| step_window id rule g now :
service_step db (snd (tx_close (apply_one policy id rule g now) db))
| step_review rd verdict g now x db' :
evaluate_record policy rd verdict g now db = Ok (x, db') -> service_step db db'
| step_escalate_llm id note now x db' :
escalate_from_llm id note now db = Ok (x, db') -> service_step db db'
| step_retry caller id j now x db' :
retry policy caller id j now db = Ok (x, db') -> service_step db db'
| step_escalate caller id now x db' :
escalate caller id now db = Ok (x, db') -> service_step db db'
| step_finish id now : service_step db (snd (finish_inner id now db))
| step_revoke id why by_ now : service_step db (snd (revoke_grant id why by_ now db))
| step_expire id now : service_step db (snd (expire_one id now db))
| step_reap id now why : service_step db (snd (reap_one id now why db))
| step_expire_now id now x db' : expire_now id now db = Ok (x, db') -> service_step db db'
| step_contain e now x db' : record e now db = Ok (x, db') -> service_step db db'
| step_disable a now why x db' : disable_tree a now why db = Ok (x, db') -> service_step db db'
| step_rename old new x db' : rename_a2a_target old new db = Ok (x, db') -> service_step db db'
| step_state id v x db' : set_provisioner_state id v db = Ok (x, db') -> service_step db db'
| step_note id note now x db' : append_note id note now db = Ok (x, db') -> service_step db db'
| step_discord id refs x db' : set_discord id refs db = Ok (x, db') -> service_step db db'
(** What the rest of the broker writes: agents, threads, rules, lifts. *)
| step_rest db' : same_rows db db' -> service_step db db'.

Definition runs : Database -> Database -> Prop := rtc service_step.
Definition reachable (db : Database) : Prop := runs Database_empty db.

Lemma wf_empty : wf None Database_empty.
Proof. by constructor; cbn; [split|..]; intros *; rewrite ?lookup_empty. Qed.

Lemma step_wf db db' : wf None db -> service_step db db' -> wf None db'.
Proof.
  intros Hw. destruct 1 as
  [?????? c d Hr|??????? x d Hr|id r g now|???? x d Hr|??? x d Hr|???? x d Hr|??? x d Hr|id now|id w b now|id now
  |id now w|?? x d Hr|?? x d Hr|??? x d Hr|?? x d Hr|?? x d Hr|??? x d Hr|?? x d Hr|d Hr].
  - by eapply create_keeps.
  - by eapply decide_inner_keeps.
  - apply tx_close_wf; [apply apply_one_keeps|done].
  - by eapply evaluate_record_keeps.
  - by eapply escalate_from_llm_keeps.
  - by eapply retry_keeps.
  - by eapply escalate_keeps.
  - by apply finish_inner_wf.
  - by apply revoke_grant_wf.
  - by apply expire_one_wf.
  - by apply reap_one_wf.
  - by eapply expire_now_keeps.
  - by eapply record_keeps.
  - by eapply disable_tree_keeps.
  - by eapply rename_a2a_target_keeps.
  - by eapply set_provisioner_state_keeps.
  - by eapply append_note_keeps.
  - by eapply set_discord_keeps.
  - by eapply wf_same_rows.
Qed.

(** *** The orders *)
Section orders.
Context (R : Database -> Database -> Prop) (HR : StepOrder R).

Lemma mono_ok {E A} (m : tx E A) db a db' : mono R m -> keyed db -> m db = Ok (a, db') -> R db db'.
Proof. intros Hm HK Hr. by destruct (Hm _ _ _ HK Hr). Qed.
Lemma tx_close_moves {A} (m : tx ServiceError (Closing A)) db : mono R m -> keyed db -> R db (snd (tx_close m db)).
Proof.
  intros Hm HK. unfold tx_close.
  destruct (m db) as [[[a|a] d]|] eqn:Hr; cbn; [by eapply mono_ok|by apply so_refl..].
Qed.
Lemma tx_run_moves {E A} (m : tx E A) db : mono R m -> keyed db -> R db (snd (tx_run m db)).
Proof.
  intros Hm HK. unfold tx_run. destruct (m db) as [[a d]|] eqn:Hr; cbn; [by eapply mono_ok|by apply so_refl].
Qed.
Lemma revoke_grant_moves id why by_ now db : keyed db -> R db (snd (revoke_grant id why by_ now db)).
Proof.
  intros HK. unfold revoke_grant. destruct (active_grant id db) as [[[g|] d]|]; [|by apply so_refl..].
  destruct (revoke_external g now db) as [[e d']|]; [|cbn; apply tx_run_moves; [by apply expire_now_mono|done]].
  apply tx_close_moves; [by apply revoke_tx_mono|done].
Qed.
(** What a finish does before the grant's own transaction, and all of it
    when that is no activation. *)
Lemma finish_inner_moves (HA : forall k, ActivateOrder R k) id now db : keyed db -> R db (snd (finish_inner id now db)).
Proof.
  intros HK. unfold finish_inner. destruct (db_grants db !! id) as [row|]; [|by apply so_refl].
  case_match; [by apply so_refl|].
  set (start := if enabled_platform (gr_platform row) then prepare row now db else (Ok tt, db)).
  assert (Hk : platform_kept db (snd start)).
  { unfold start. case_match; [apply prepare_kept|apply platform_kept_refl]. }
  destruct start as [prepared d]. cbn in Hk. pose proof (platform_kept_keyed _ _ Hk HK) as HK1.
  apply (so_platform R HR) in Hk. eapply so_trans; [done|exact Hk|]. unfold tx_close at 1.
  destruct (finish_tx row prepared now d) as [[[f|f] d2]|] eqn:Hf; [| |by apply so_refl].
  - destruct (finish_tx_mono R HR HA _ _ _ _ _ _ HK1 Hf) as [HK2 L2]. destruct f; [done|].
  eapply so_trans; [done|exact L2|]. apply tx_close_moves; [by apply record_failure_mono|done].
  - destruct f; [by apply so_refl|]. apply tx_close_moves; [by apply record_failure_mono|done].
Qed.

(** Every step but a finish moves along any such order. *)
Lemma step_moves db db' : keyed db -> service_step db db' ->
  R db db' \/ exists id now, db' = snd (finish_inner id now db).
Proof.
  intros HK. destruct 1 as
  [?????? c d Hr|??????? x d Hr|id r g now|???? x d Hr|??? x d Hr|???? x d Hr|??? x d Hr|id now|id w b now|id now
  |id now w|?? x d Hr|?? x d Hr|??? x d Hr|?? x d Hr|?? x d Hr|??? x d Hr|?? x d Hr|d Hr];
  [left|left|left|left|left|left|left|by right; eauto|left..].
  - eapply mono_ok; [by apply create_mono|done..].
  - eapply mono_ok; [by apply decide_inner_mono|done..].
  - apply tx_close_moves; [by apply apply_one_mono|done].
  - eapply mono_ok; [by apply evaluate_record_mono|done..].
  - eapply mono_ok; [by apply escalate_from_llm_mono|done..].
  - eapply mono_ok; [by apply retry_mono|done..].
  - eapply mono_ok; [by apply escalate_mono|done..].
  - by apply revoke_grant_moves.
  - apply tx_close_moves; [by apply expire_tx_mono|done].
  - apply tx_close_moves; [by apply reap_tx_mono|done].
  - eapply mono_ok; [by apply expire_now_mono|done..].
  - eapply mono_ok; [by apply record_mono|done..].
  - eapply mono_ok; [by apply disable_tree_mono|done..].
  - eapply mono_ok; [by apply rename_a2a_target_mono|done..].
  - eapply mono_ok; [by apply set_provisioner_state_mono|done..].
  - eapply mono_ok; [by apply append_note_mono|done..].
  - eapply mono_ok; [by apply set_discord_mono|done..].
  - by apply so_same.
Qed.
End orders.

Lemma step_later db db' : keyed db -> service_step db db' -> later db db'.
Proof.
  intros HK Hs. destruct (step_moves later later_StepOrder _ _ HK Hs) as [?|(id & now & ->)]; [done|].
  apply finish_inner_moves; [apply later_StepOrder|apply later_ActivateOrder|done].
Qed.
Lemma runs_later db db' : wf None db -> runs db db' -> wf None db' /\ later db db'.
Proof.
  intros Hw Hr. induction Hr as [db|a b c Hs _ IH]; [done|].
  pose proof (step_wf _ _ Hw Hs) as Hw1. destruct (IH Hw1) as [? ?].
  split; [done|]. etransitivity; [apply step_later; [apply Hw|done]|done].
Qed.

(** *** Properties *)

(** C12: whatever the service commits, in any order, every stored
    request satisfies the table's constraints, its authority is of its
    platform, and what was approved is at most a year; every grant is of a
    stored request, with that request's agent and platform, alone for it, no
    longer than was approved, and at the matching point of its lifecycle; and
    a request being provisioned or granted has a grant. *)
Theorem tables_well_formed db : reachable db -> wf None db.
Proof. intros Hr. by apply (runs_later _ _ wf_empty Hr). Qed.

(** C5: the service refines the two state machines: between any two
    databases of a run every request has moved along the allowed transitions
    only, keeping what it asked for, and every grant along its own, keeping
    whose it is and what it gives, its end never moved later. *)
Theorem service_refines_lifecycle db db' :
  reachable db -> runs db db' ->
  (forall id r, db_requests db !! id = Some r -> exists r', db_requests db' !! id = Some r' /\
   request_spec r' = request_spec r /\ exists path, history (rq_status r) path (rq_status r')) /\
  (forall id g, db_grants db !! id = Some g -> exists g', db_grants db' !! id = Some g' /\
   grant_spec g' = grant_spec g /\ (exists path, grant_history (gr_status g) path (gr_status g')) /\
   (gr_expires_at g' <= gr_expires_at g)%Z).
Proof.
  intros Hr Hs. pose proof (proj1 (runs_later _ _ wf_empty Hr)) as Hw.
  destruct (runs_later _ _ Hw Hs) as [_ [HR HG]]. split.
  - intros id r Hid. destruct (HR _ _ Hid) as (r' & ? & ? & ? & _). eauto 10.
  - intros id g Hid. destruct (HG _ _ Hid) as (g' & ? & ? & ? & ?). eauto 10.
Qed.

(** No grant outlives what was approved, nor a year: its end is at
    most the approved duration after it was given. *)
Theorem grant_length_bounded db id g :
  reachable db -> db_grants db !! id = Some g ->
  exists r d, db_requests db !! gr_request g = Some r /\ rq_approved_duration r = Some d /\
  (gr_expires_at g <= gr_granted_at g + seconds d)%Z /\ (d <= HUMAN_MAX_DURATION_SECS)%N.
Proof.
  intros Hr Hg. pose proof (proj1 (runs_later _ _ wf_empty Hr)) as Hw.
  destruct (wf_grant _ _ Hw _ _ Hg) as (_ & r & Hreq & (_ & _ & _ & d & Hd & He) & _).
  exists r, d. split_and!; [done..|]. pose proof (wf_request _ _ Hw _ _ Hreq) as (_ & _ & _ & Hok).
  rewrite Hd in Hok. by apply N.leb_le.
Qed.
End runs.

(** ** On the concrete broker *)

Import SampleService.

Lemma created_ok : exists c, created = Ok (c, db1).
Proof.
  assert (Ho : is_ok created = true) by (vm_compute; reflexivity).
  unfold db1. destruct created as [[c db]|e]; [by exists c|done].
Qed.
Lemma start_reach : reachable policy start.
Proof. apply rtc_once, step_rest. by split. Qed.
Lemma asked_ok : exists c, asked = Ok (c, waiting).
Proof.
  assert (Ho : is_ok asked = true) by (vm_compute; reflexivity).
  unfold waiting. destruct asked as [[c db]|e]; [by exists c|done].
Qed.
Lemma waiting_reach : reachable policy waiting.
Proof.
  eapply rtc_r; [apply rtc_once, step_rest|destruct asked_ok as [c Hc]; by eapply step_create]. by split.
Qed.
Lemma db1_reach : reachable policy db1.
Proof. eapply rtc_r; [apply start_reach|]. destruct created_ok as [c Hc]. by eapply step_create. Qed.
Lemma db2_reach : reachable policy db2.
Proof. eapply rtc_r; [apply db1_reach|]. apply step_finish. Qed.
Lemma db3_runs : runs policy db1 db3.
Proof. eapply rtc_r; [apply rtc_once, step_finish|apply step_expire]. Qed.

Lemma tables_well_formed_witness : reachable policy db2 /\ wf None db2.
Proof. split; [exact db2_reach|exact (tables_well_formed policy db2 db2_reach)]. Defined.
Lemma service_refines_lifecycle_witness :
  exists r r', db_requests db1 !! 100%N = Some r /\ rq_status r = Provisioning /\
    db_requests db3 !! 100%N = Some r' /\ rq_status r' = Granted /\ exists path, history (rq_status r) path (rq_status r').
Proof.
  destruct (db_requests db1 !! 100%N) as [r|] eqn:Hr; [|exfalso; vm_compute in Hr; discriminate].
  destruct (proj1 (service_refines_lifecycle policy db1 db3 db1_reach db3_runs) _ _ Hr) as (r' & Hr' & _ & Hp).
  exists r, r'. split_and!; [done| |done| |done].
  - enough (Hs : (rq_status <$> db_requests db1 !! 100%N) = Some Provisioning) by (rewrite Hr in Hs; by injection Hs).
    vm_compute. reflexivity.
  - enough (Hs : (rq_status <$> db_requests db3 !! 100%N) = Some Granted) by (rewrite Hr' in Hs; by injection Hs).
    vm_compute. reflexivity.
Defined.
Lemma grant_length_bounded_witness :
  exists g r d, db_grants db2 !! 200%N = Some g /\ gr_status g = GActive /\
    db_requests db2 !! gr_request g = Some r /\ rq_approved_duration r = Some d /\
    (gr_expires_at g <= gr_granted_at g + seconds d)%Z /\ (d <= HUMAN_MAX_DURATION_SECS)%N.
Proof.
  destruct (db_grants db2 !! 200%N) as [g|] eqn:Hg; [|exfalso; vm_compute in Hg; discriminate].
  destruct (grant_length_bounded policy db2 200 g db2_reach Hg) as (r & d & Hr).
  exists g, r, d. split; [done|]. split; [|exact Hr].
  enough (Hs : (gr_status <$> db_grants db2 !! 200%N) = Some GActive) by (rewrite Hg in Hs; by injection Hs).
  vm_compute. reflexivity.
Defined.
