(* ===== verification/ServiceFacts.v ===== *)
(** What the service promises of grants: when one becomes active, when its
    credential is issued, and that containment and the scheduler end it. *)

From stdpp Require Import gmap.
From S2P Require Import Prelude Json Glob Pyfmt Lifecycle Names Durations Pool Mail Authority Routing Agents Hostexec Schema Policy Zones Eval CanonicalJson Store Requests Grants Threads ServiceRouting Provision Create Decide Review Contain TxLogic ServiceMono ServiceInv ServiceWf ServiceRuns.
From stdpp Require Import options.
#[local] Set Default Proof Using "Type*".

(** ** Reading the checks *)

Section checks.
Context `{DateLib, RustFmt}.

Lemma lockdown_check_run a now db :
  lockdown_check a now db =
  Ok (match held_in_db db a now, db_agents db !! a with
      | Some h, _ => Err h
      | None, None => Err UnknownAgent
      | None, Some row => Ok (mkNotHeld row)
      end, db).
Proof.
  unfold lockdown_check, held_in_db, get_agent, chain, tx_bind, tx_read, tx_ret. cbn.
  destruct (db_agents db !! a) as [row|]; cbn; [|done]. by case_match.
Qed.
Lemma held_none_known db a now : held_in_db db a now = None -> exists row, db_agents db !! a = Some row.
Proof. unfold held_in_db. destruct (db_agents db !! a); [eauto|done]. Qed.
Lemma lockdown_check_ok a now db n db' :
  lockdown_check a now db = Ok (Ok n, db') ->
  db' = db /\ held_in_db db a now = None /\ db_agents db !! a = Some (nh_agent n).
Proof.
  rewrite lockdown_check_run. destruct (held_in_db db a now) eqn:Hh; [done|].
  destruct (db_agents db !! a) as [row|] eqn:Ha; [|done]. by intros [= <- <-].
Qed.

(** Agents are stored under their own ids. *)
Definition agents_keyed (db : Database) : Prop := forall k a, db_agents db !! k = Some a -> ag_id a = k.

(** The delegation of a grant still stands. *)
Definition delegation_stands (db : Database) (now : Instant) (g : GrantRow) : Prop :=
  forall d, gr_delegation g = Some d ->
  exists t, db_threads db !! thread_id d = Some t /\ th_state t = ThreadOpen /\
    match th_grant t with
    | Some b => exists backing, db_grants db !! b = Some backing /\ gr_status backing = GActive
                                /\ (now < gr_expires_at backing)%Z
    | None => exists o, db_agents db !! th_initiator t = Some o /\ ag_kind o = Operator
    end.
Lemma active_past_exact now g x :
  active_past now g = Some x <-> g = Some x /\ gr_status x = GActive /\ (now < gr_expires_at x)%Z.
Proof.
  unfold active_past. destruct g as [y|]; [|naive_solver]. case_match; bools.
  - split; [intros [= <-]; split_and!; [done..|lia]|by intros ([= <-] & _)].
  - split; [done|]. intros ([= <-] & Ha & Hn).
  apply andb_false_iff in H1 as [Hb|Hb]; bools; [done|lia].
Qed.
Lemma thread_backs_exact now db thread :
  thread_backs now db thread = true <->
  exists t, db_threads db !! thread = Some t /\ th_state t = ThreadOpen /\
  match th_grant t with
  | Some b => exists backing, db_grants db !! b = Some backing /\ gr_status backing = GActive
                              /\ (now < gr_expires_at backing)%Z
  | None => exists o, db_agents db !! th_initiator t = Some o /\ ag_kind o = Operator
  end.
Proof.
  unfold thread_backs, is_open. destruct (db_threads db !! thread) as [t|]; [|naive_solver].
  rewrite andb_true_iff, bool_decide_eq_true. split.
  - intros [Ho Hb]. exists t. split_and!; [done..|]. destruct (th_grant t) as [b|].
  + destruct (active_past now (db_grants db !! b)) as [x|] eqn:Hx; [|done]. apply active_past_exact in Hx. eauto.
  + destruct (db_agents db !! th_initiator t) as [o|]; [|done]. bools. eauto.
  - intros (t' & [= <-] & Ho & Hb). split; [done|]. destruct (th_grant t) as [b|].
  + destruct Hb as (x & Hx & Hl). assert (Hp : active_past now (db_grants db !! b) = Some x) by (by apply active_past_exact).
    by rewrite Hp.
  + destruct Hb as (o & -> & Hk). by apply bool_decide_eq_true.
Qed.
End checks.

(** ** Issuing *)

Section issuing.
Context `{DateLib, RustFmt}.

(** C6: a credential is issued for exactly the caller's own grant that is active
    and not past its end, while the caller is not held, and, for a delegated
    grant, while its thread is open and backed by an active grant that is not
    past its own end, or by the operator. *)
Theorem issuable_exact agent id now db issued db' :
  agents_keyed db ->
  issuable agent id now db = Ok (Ok issued, db') <->
  db' = db /\ db_grants db !! id = Some (ig_grant issued) /\
  gr_agent (ig_grant issued) = agent /\ gr_status (ig_grant issued) = GActive /\
  (now < gr_expires_at (ig_grant issued))%Z /\
  held_in_db db agent now = None /\ delegation_stands db now (ig_grant issued).
Proof.
  intros HK. unfold issuable, grant_get_owned, get_grant.
  unfold tx_bind, tx_read, tx_ret, tx_lift.
  destruct (db_grants db !! id) as [g|] eqn:Hg; [|naive_solver].
  destruct (N.eqb_spec (gr_agent g) agent) as [<-|Hn]; [|naive_solver].
  rewrite lockdown_check_run. destruct (held_in_db db (gr_agent g) now) eqn:Hh; [naive_solver|].
  destruct (held_none_known _ _ _ Hh) as [row Hrow]. rewrite Hrow. unfold NotHeld_verify. cbn [nh_agent].
  rewrite (HK _ _ Hrow), N.eqb_refl, Hg, N.eqb_refl.
  assert (Hback : match gr_delegation g with Some d => thread_backs now db (thread_id d) | None => true end = true
  <-> delegation_stands db now g).
  { unfold delegation_stands. destruct (gr_delegation g) as [d|]; [|naive_solver].
  rewrite thread_backs_exact. split; [by intros ? ? [= <-]|auto]. }
  assert (Hlive : is_live g now = true <-> gr_status g = GActive /\ (now < gr_expires_at g)%Z).
  { unfold is_live. rewrite andb_true_iff, bool_decide_eq_true. by rewrite Z.ltb_lt. }
  destruct (match gr_delegation g with Some _ => _ | None => _ end); cbn.
  - destruct (is_live g now); cbn.
  + split; [intros [= <- <-]; cbn; split_and!; try done; by apply Hlive || by apply Hback|].
    intros (-> & [= ->] & _). by destruct issued.
  + split; [done|]. intros (_ & [= ->] & _ & Ha & Hn & _). by discriminate (proj2 Hlive (conj Ha Hn)).
  - split; [done|]. intros (_ & [= ->] & _ & _ & _ & _ & Hl). by apply Hback in Hl.
Qed.
End issuing.

#[local] Set Default Proof Using "Type*".

(** ** Activation *)

Section activation.
Context `{UnicodeLower, RegexLib, DateLib, RustFmt, !Registry, !RegistryLaws, UuidLib}.

(** The finishing transaction activates its own grant only, and only of an
    agent it found not held. *)
Lemma finish_tx_activates row prepared now db f db' :
  keyed db -> finish_tx row prepared now db = Ok (f, db') ->
  dormant db db' \/ held_in_db db (gr_agent row) now = None /\ dormant_but (Some (gr_id row)) db db'.
Proof.
  intros HK Hr. unfold finish_tx, store in Hr.
  apply tx_bind_ok in Hr as (h & d1 & Hl & Hr). unfold tx_map_err in Hl. apply map_err_inv in Hl.
  rewrite lockdown_check_run in Hl. injection Hl as <- <-.
  apply tx_bind_ok in Hr as (o & d2 & Ho & Hr). unfold tx_map_err in Ho. apply map_err_inv, load_provisioning_ok in Ho as [-> Ho].
  destruct o as [grant|]; [|left; tx_ok; apply (so_refl _ (dormant_StepOrder None))].
  destruct Ho as [Ho _].
  assert (Hid : gr_id (pg_grant grant) = gr_id row) by (by eapply HK).
  assert (HR := dormant_StepOrder). revert Hr.
  destruct (held_in_db db (gr_agent row) now) as [why|] eqn:Hh.
  - intros Hr. left. pose proof (HR None) as HR0. eapply mono_ok; [exact HR0| |exact HK|exact Hr]. mono.
  - intros Hr. right. split; [done|]. pose proof (HR (Some (gr_id row))) as HR1.
  assert (HA : ActivateOrder (dormant_but (Some (gr_id row))) (gr_id (pg_grant grant))).
  { rewrite Hid. apply dormant_ActivateOrder. }
  eapply mono_ok; [exact HR1| |exact HK|exact Hr]. mono.
Qed.
Lemma finish_inner_activates id now db :
  wf None db ->
  dormant db (snd (finish_inner id now db)) \/
  exists row, db_grants db !! id = Some row /\ gr_status row = GProvisioning /\
  held_in_db (snd (if enabled_platform (gr_platform row) then prepare row now db else (Ok tt, db)))
    (gr_agent row) now = None /\
  dormant_but (Some id) db (snd (finish_inner id now db)).
Proof.
  intros Hw. pose proof (wf_keyed _ _ Hw) as HK. unfold finish_inner.
  destruct (db_grants db !! id) as [row|] eqn:Hrow; [|left; apply (so_refl _ (dormant_StepOrder None))].
  case_match; [left; apply (so_refl _ (dormant_StepOrder None))|]. bools.
  set (start := if enabled_platform (gr_platform row) then prepare row now db else (Ok tt, db)).
  assert (Hk : platform_kept db (snd start)).
  { unfold start. case_match; [apply prepare_kept|apply platform_kept_refl]. }
  assert (Hid : gr_id row = id) by (by eapply HK).
  destruct start as [prepared d] eqn:Hstart. unfold start in Hstart. cbn in Hk |- *. pose proof (platform_kept_keyed _ _ Hk HK) as HK1.
  assert (Hrec : forall but why d', keyed d' ->
  dormant_but but d' (snd (tx_close (record_failure row why now) d'))).
  { intros but why d' HK'. assert (HR := dormant_StepOrder but). apply tx_close_moves; [done| |done].
  by apply record_failure_mono. }
  assert (Hsplit : forall but d2, dormant_but but d d2 -> keyed d2 -> forall why,
  dormant_but but db (snd (tx_close (record_failure row why now) d2)) /\ dormant_but but db d2).
  { intros but d2 Hd HK2 why. assert (HR := dormant_StepOrder but). apply (so_platform _ HR) in Hk.
  split; [|by eapply so_trans]. eapply so_trans; [done|exact Hk|]. eapply so_trans; [done|exact Hd|]. by apply Hrec. }
  assert (Hall : forall but d2 f, dormant_but but d d2 -> keyed d2 ->
  dormant_but but db (snd (match f with
                           | Finish => (Ok tt, d2)
                           | Record_failure why => tx_close (record_failure row why now) d2
                           end))).
  { intros but d2 f Hd HK2. destruct f as [|why]; [exact (proj2 (Hsplit but d2 Hd HK2 []))|exact (proj1 (Hsplit but d2 Hd HK2 why))]. }
  assert (Hrefl : forall but, dormant_but but d d) by (intros but; apply (so_refl _ (dormant_StepOrder but))).
  pose proof (eq_refl (tx_close (finish_tx row prepared now) d)) as Hc. unfold tx_close at 2 in Hc.
  rewrite Hc. clear Hc. destruct (finish_tx row prepared now d) as [[[f|f] d2]|] eqn:Hf.
  - destruct (finish_tx_mono _ later_StepOrder later_ActivateOrder _ _ _ _ _ _ HK1 Hf) as [HK2 _].
  destruct (finish_tx_activates _ _ _ _ _ _ HK1 Hf) as [Hd|[Hn Hd]]; [left; by apply Hall|right].
  exists row. rewrite Hid in Hd. split_and!; [done..|by rewrite Hstart|by apply Hall].
  - left. by apply Hall.
  - left. exact (proj2 (Hsplit None d (Hrefl None) HK1 [])).
Qed.

(** C1: a grant only ever becomes active when its finish reads, with nothing in
    between, that its agent is not held: in any step of any run that makes
    one active, that step is the finish of this very grant, which was being
    provisioned, and the agent was neither disabled nor contained in the
    database the finish read. *)
Theorem activation_checks_containment policy db db' id g' :
  reachable policy db -> service_step policy db db' ->
  db_grants db' !! id = Some g' -> gr_status g' = GActive ->
  (forall g, db_grants db !! id = Some g -> gr_status g <> GActive) ->
  exists row now, db_grants db !! id = Some row /\ gr_status row = GProvisioning /\
  db' = snd (finish_inner id now db) /\
  held_in_db (snd (if enabled_platform (gr_platform row) then prepare row now db else (Ok tt, db)))
    (gr_agent row) now = None.
Proof.
  intros Hr Hs Hg Ha Hno. pose proof (proj1 (runs_later policy _ _ wf_empty Hr)) as Hw.
  assert (Hcontra : forall but, but <> Some id -> ~ dormant_but but db db').
  { intros but Hb Hd. destruct (Hd _ _ Hb Hg Ha) as (g & Hg1 & Ha1 & _). by eapply Hno. }
  destruct (step_moves policy _ (dormant_StepOrder None) _ _ (wf_keyed _ _ Hw) Hs) as [Hd|(k & now & ->)].
  { by destruct (Hcontra None). }
  destruct (finish_inner_activates k now db Hw) as [Hd|(row & Hrow & Hst & Hheld & Hd)]; [by destruct (Hcontra None)|].
  destruct (decide (k = id)) as [->|Hn]; [|destruct (Hcontra (Some k)); [congruence|done]]. by exists row, now.
Qed.
End activation.

#[local] Set Default Proof Using "Type*".

(** ** Containment ends what it holds *)

Section ending.
Context `{DateLib, RustFmt}.

Lemma elem_of_insert_id x y l : x ∈ insert_id y l <-> x = y \/ x ∈ l.
Proof.
  induction l as [|z l IH]; cbn; [set_solver|]. case_match; rewrite ?elem_of_cons, ?IH; set_solver.
Qed.
Lemma elem_of_sorted_ids x l : x ∈ fold_right insert_id [] l <-> x ∈ l.
Proof. induction l as [|y l IH]; cbn; [done|]. rewrite elem_of_insert_id, IH. set_solver. Qed.
Lemma elem_of_active_of_agent agent db k :
  keyed db ->
  k ∈ active_of_agent agent db <-> exists g, db_grants db !! k = Some g /\ gr_agent g = agent /\ gr_status g = GActive.
Proof.
  intros [_ HK]. unfold active_of_agent. rewrite elem_of_sorted_ids, list_elem_of_fmap.
  setoid_rewrite elem_of_grants_where. setoid_rewrite andb_true_iff. setoid_rewrite N.eqb_eq.
  setoid_rewrite bool_decide_eq_true. split.
  - intros (g & -> & [? ?] & k' & Hk'). rewrite (HK _ _ Hk'). eauto.
  - intros (g & Hg & ? & ?). exists g. rewrite (HK _ _ Hg). eauto 10.
Qed.

(** From a database the order [dormant] led to: no later end, no new one. *)
Definition over (k : GrantId) (now : Instant) (db : Database) : Prop :=
  forall g, db_grants db !! k = Some g -> gr_status g = GActive -> (gr_expires_at g <= now)%Z.
Lemma over_dormant k now db db' : dormant db db' -> over k now db -> over k now db'.
Proof.
  intros Hd Ho g' Hg' Ha. destruct (Hd _ _ ltac:(done) Hg' Ha) as (g & Hg & Hga & _ & _ & He).
  specialize (Ho _ Hg Hga). lia.
Qed.
Lemma expire_now_over id now db b d : keyed db -> expire_now id now db = Ok (b, d) -> over id now d.
Proof.
  intros HK Hr. unfold expire_now in Hr. apply tx_bind_ok in Hr as (o & d1 & Ho & Hr). injection Hr as _ <-.
  destruct o as [g'|i].
  - apply compare_and_set_ok in Ho as (g & Hg & Hs & -> & _ & ->). rewrite (proj2 HK _ _ Hg).
  intros x. cbn. rewrite lookup_insert_eq. intros [= <-] _. cbn. lia.
  - apply compare_and_set_lost in Ho as (-> & _ & Hn). intros g Hg Ha. by destruct (Hn _ Hg).
Qed.
Lemma expire_each_over ids now db n d k :
  keyed db -> expire_each ids now db = Ok (n, d) -> k ∈ ids -> over k now d.
Proof.
  assert (HR := dormant_StepOrder None). revert db n. induction ids as [|id ids IH]; intros db n HK Hr Hk; [set_solver|].
  cbn [expire_each] in Hr. apply tx_bind_ok in Hr as (b & d1 & Hb & Hr). apply tx_bind_ok in Hr as (m & d2 & Hm & Hr).
  injection Hr as _ <-. destruct (expire_now_mono _ HR _ _ _ _ _ HK Hb) as [HK1 _].
  apply elem_of_cons in Hk as [->|Hk]; [|by eapply IH].
  destruct (expire_each_mono _ HR _ _ _ _ _ HK1 Hm) as [_ L2]. eapply over_dormant; [exact L2|].
  exact (expire_now_over _ _ _ _ _ HK Hb).
Qed.
Lemma expire_now_of_agent_over a now db n d k g :
  keyed db -> expire_now_of_agent a now db = Ok (n, d) -> db_grants d !! k = Some g -> gr_agent g = a -> over k now d.
Proof.
  intros HK Hr Hg Ha x Hx Hs. replace x with g in * by congruence.
  unfold expire_now_of_agent in Hr. apply tx_bind_ok in Hr as (ids & d1 & Hi & Hr). injection Hi as <- <-.
  destruct (expire_each_mono _ (dormant_StepOrder None) _ _ _ _ _ HK Hr) as [_ Hd].
  destruct (Hd _ _ ltac:(done) Hg Hs) as (y & Hy & Hya & Hsp & _).
  eapply expire_each_over; [exact HK|exact Hr| |exact Hg|exact Hs].
  apply elem_of_active_of_agent; [done|]. exists y. split_and!; [done| |done].
  unfold grant_spec in Hsp. injection Hsp. congruence.
Qed.
End ending.

Section containing.
Context `{UnicodeLower, RegexLib, DateLib, RustFmt, !Registry, !RegistryLaws, UuidLib}.

Lemma expire_agents_over l now db u d k g :
  keyed db -> expire_agents l now db = Ok (u, d) -> db_grants d !! k = Some g -> gr_agent g ∈ l -> over k now d.
Proof.
  assert (HR := dormant_StepOrder None). revert db u. induction l as [|a l IH]; intros db u HK Hr Hg Hin; [set_solver|].
  cbn [expire_agents] in Hr. apply tx_bind_ok in Hr as (n & d1 & Hn & Hr).
  destruct (expire_now_of_agent_mono _ HR _ _ _ _ _ HK Hn) as [HK1 _].
  apply elem_of_cons in Hin as [Ha|Hin]; [|by eapply IH].
  destruct (expire_agents_mono _ HR _ _ _ _ _ HK1 Hr) as [_ Hd].
  intros x Hx Hs. destruct (Hd _ _ ltac:(done) Hx Hs) as (y & Hy & Hya & Hsp & _ & He).
  replace x with g in * by congruence.
  assert (Hag : gr_agent y = a) by (unfold grant_spec in Hsp; injection Hsp; congruence).
  pose proof (expire_now_of_agent_over _ _ _ _ _ _ _ HK Hn Hy Hag _ Hy Hya). lia.
Qed.
Lemma over_runs policy k now db db' g :
  wf None db -> runs policy db db' -> db_grants db !! k = Some g -> gr_status g = GActive -> over k now db ->
  forall g' t, db_grants db' !! k = Some g' -> (now <= t)%Z -> is_live g' t = false.
Proof.
  intros Hw Hr Hg Ha Ho g' t Hg' Ht. destruct (runs_later policy _ _ Hw Hr) as [_ [_ HG]].
  destruct (HG _ _ Hg) as (x & Hx & _ & _ & He). replace x with g' in * by congruence.
  specialize (Ho _ Hg Ha). unfold is_live. apply andb_false_iff. right. apply Z.ltb_ge. lia.
Qed.

Lemma record_entry_ok e db entry d :
  record_entry e db = Ok (Ok entry, d) -> entry = e /\ same_rows db d /\ db_agents d = db_agents db.
Proof.
  unfold record_entry. intros Hr. destruct (Containment.parse _); [|by tx_ok].
  apply tx_bind_ok in Hr as (all & d1 & Ha & Hr). injection Ha as <- <-. destruct (existsb _ _); [by tx_ok|].
  apply tx_bind_ok in Hr as (u & d2 & Hw & Hr). injection Hw as _ <-. by injection Hr as <- <-.
Qed.

(** C3: recording an entry ends, in its own transaction, every active grant of
    every agent it holds, itself or through what minted it: from that instant
    on none of them is live again, whatever the service does after, whether
    or not the platform undoes it. *)
Theorem contained_grants_end policy e now db r d a k g db' g' t :
  reachable policy db -> record e now db = Ok (r, d) ->
  db_agents db !! ag_id a = Some a -> ag_kind a <> Operator -> Containment.holds (ce_match e) (with_chain db a) = true ->
  db_grants d !! k = Some g -> gr_agent g = ag_id a -> gr_status g = GActive ->
  runs policy d db' -> db_grants db' !! k = Some g' -> (now <= t)%Z ->
  is_live g' t = false.
Proof.
  intros Hreach Hr Ha Hkind Hholds Hg Hga Hst Hruns Hg' Ht.
  pose proof (proj1 (runs_later policy _ _ wf_empty Hreach)) as Hw.
  assert (Hwd : wf None d) by (by eapply record_keeps).
  unfold record in Hr. apply tx_bind_ok in Hr as (rec & d1 & Hrec & Hr). unfold tx_map_err in Hrec. apply map_err_inv in Hrec.
  destruct rec as [entry|why]; [|by tx_ok].
  apply tx_bind_ok in Hr as (held & d2 & Hh & Hr). injection Hh as <- <-.
  apply tx_bind_ok in Hr as (u & d3 & He & Hr). unfold tx_map_err in He. apply map_err_inv in He. injection Hr as _ ->.
  destruct (record_entry_ok _ _ _ _ Hrec) as (-> & Hsame & Hagents).
  eapply over_runs; [exact Hwd|exact Hruns|exact Hg|exact Hst| |exact Hg'|exact Ht].
  eapply expire_agents_over; [|exact He|exact Hg|].
  { eapply same_rows_keyed; [exact Hsame|apply Hw]. }
  rewrite Hga. unfold held_by. apply list_elem_of_fmap. exists a. split; [done|].
  rewrite list_elem_of_In, filter_In, <- list_elem_of_In. unfold all_agents, with_chain in *. rewrite Hagents. split.
  - apply list_elem_of_fmap. exists (ag_id a, a). split; [done|]. by apply elem_of_map_to_list.
  - rewrite Hholds, bool_decide_eq_false_2; done.
Qed.
End containing.

#[local] Set Default Proof Using "Type*".

(** ** The scheduler ends what is past its end *)

Section scheduler.
Context `{UnicodeLower, RegexLib, DateLib, RustFmt, !Registry, !RegistryLaws, UuidLib}.

(** The platforms' code can undo every grant: those it is configured for
    answer, and the others were retired. *)
Definition platforms_work : Prop :=
  (forall g now db, enabled_platform (gr_platform g) = true -> fst (revoke g now db) = Ok tt)
  /\ (forall p, enabled_platform p = false -> is_retired p = true).

Lemma compare_and_set_run id from f db g :
  db_grants db !! id = Some g -> gr_status g = from -> grant_checks (f g) = true -> grant_guard g (f g) = true ->
  compare_and_set id from f db = Ok (Ok (f g), with_grants db (<[gr_id g := f g]> (db_grants db))).
Proof.
  intros Hg Hs Hc Hgu. unfold compare_and_set, get_grant, tx_bind, tx_read. rewrite Hg, Hs.
  rewrite bool_decide_eq_true_2 by done. unfold update_grant. by rewrite Hc, Hgu.
Qed.
Lemma grants_end_run id how now db g :
  wf None db -> db_grants db !! id = Some g -> gr_status g = GActive ->
  exists db', grants_end id how now db = Ok (Ok (ended_by how now g), db') /\
  db_grants db' !! id = Some (ended_by how now g).
Proof.
  intros Hw Hg Hs. pose proof (proj1 (wf_grant _ _ Hw _ _ Hg)) as Hc. pose proof (proj2 (wf_keyed _ _ Hw) _ _ Hg) as Hid.
  eexists. split; [apply compare_and_set_run; [done..| |]|].
  - unfold grant_checks in *. apply andb_true_iff in Hc as [Hc _]. cbn [ended_by with_status gr_resource gr_state gr_revoked_at].
  rewrite Hc. by rewrite orb_true_r.
  - unfold grant_guard. rewrite Hs. cbn. rewrite Z.leb_refl. by destruct how.
  - cbn. by rewrite Hid, lookup_insert_eq.
Qed.
Lemma revoke_external_run g now db :
  platforms_work -> exists b db', revoke_external g now db = Ok (b, db') /\ platform_kept db db'.
Proof.
  intros [Hrev Hret]. unfold revoke_external. destruct (enabled_platform (gr_platform g)) eqn:He.
  - unfold tx_bind, run_revoke. pose proof (revoke_kept g now db) as Hk. pose proof (Hrev g now db He) as Ho.
  destruct (revoke g now db) as [out d]. cbn in *. subst out. by exists true, d.
  - rewrite (Hret _ He). exists false, db. split; [done|apply platform_kept_refl].
Qed.

Definition has_ended (k : GrantId) (db : Database) : Prop :=
  exists g, db_grants db !! k = Some g /\ ended (gr_status g) = true.
Lemma history_ended s p t : grant_history s p t -> ended s = true -> ended t = true.
Proof. induction 1 as [|s t p u Hst _ IH]; [done|]. intros Hs. apply IH. by destruct s, t. Qed.
Lemma has_ended_later k db db' : later db db' -> has_ended k db -> has_ended k db'.
Proof.
  intros [_ HG] (g & Hg & He). destruct (HG _ _ Hg) as (g' & Hg' & _ & [p Hp] & _). exists g'. split; [done|].
  by eapply history_ended.
Qed.
(** A grant past its end is ended at its turn. *)
Lemma expire_one_ends k now db g :
  platforms_work -> wf None db -> db_grants db !! k = Some g -> gr_status g = GActive -> (gr_expires_at g <= now)%Z ->
  has_ended k (snd (expire_one k now db)).
Proof.
  intros Hp Hw Hg Hs He. unfold expire_one, tx_close, expire_tx.
  assert (Hag : active_grant k db = Ok (Some g, db)).
  { unfold active_grant, store, tx_map_err, tx_bind, get_grant, tx_read. cbn. rewrite Hg. cbn.
  by rewrite bool_decide_eq_true_2. }
  unfold tx_bind at 1. rewrite Hag. replace (Z.ltb now (gr_expires_at g)) with false by (symmetry; apply Z.ltb_ge; lia).
  destruct (revoke_external_run g now db Hp) as (b & d & Hr & Hk). unfold tx_bind at 1. rewrite Hr.
  destruct (proj1 (proj2 Hk) _ _ Hg) as (g1 & Hg1 & _ & Hs1 & _).
  destruct (grants_end_run k (if b then EndExpired else EndRevoked RETIRED) now d g1) as (d' & Hend & Hrow);
  [by eapply wf_platform|done|congruence|].
  unfold tx_bind, store, tx_map_err. rewrite Hend. cbn. eexists. split; [exact Hrow|]. by destruct b.
Qed.

(** Past its end, or ended: stable. *)
Definition spent (now : Instant) (k : GrantId) (db : Database) : Prop :=
  exists g, db_grants db !! k = Some g /\
  (gr_status g = GActive /\ (gr_expires_at g <= now)%Z \/ ended (gr_status g) = true).
Lemma spent_later now k db db' : later db db' -> spent now k db -> spent now k db'.
Proof.
  intros Hl (g & Hg & [[Hs He]|He]).
  - destruct (proj2 Hl _ _ Hg) as (g' & Hg' & _ & [p Hp] & He'). exists g'. split; [done|].
  rewrite Hs in Hp. inversion Hp as [|? t ? ? Hst Hrest]; subst; [left; split; [done|lia]|right].
  eapply history_ended; [exact Hrest|by destruct t].
  - destruct (has_ended_later k _ _ Hl) as (g' & Hg' & He'); [by exists g|]. exists g'. auto.
Qed.
Lemma expire_one_later k now db : keyed db -> later db (snd (expire_one k now db)).
Proof.
  intros HK. apply (tx_close_moves later later_StepOrder (expire_tx k now) db); [|done].
  apply expire_tx_mono, later_StepOrder.
Qed.
Lemma expire_one_spent now at_ k db :
  platforms_work -> wf None db -> (now <= at_)%Z -> spent now k db -> has_ended k (snd (expire_one k at_ db)).
Proof.
  intros Hp Hw Hat (g & Hg & [[Hs He]|He]).
  - eapply expire_one_ends; [done..|lia].
  - eapply has_ended_later; [apply expire_one_later, Hw|by exists g].
Qed.
Lemma each_spent now at_ count ids db :
  platforms_work -> wf None db -> (forall id, now <= at_ id)%Z ->
  let db' := snd (each (fun id db => let '(r, db) := expire_one id (at_ id) db in (count r, db)) ids db) in
  later db db' /\ forall k, k ∈ ids -> spent now k db -> has_ended k db'.
Proof.
  intros Hp Hw Hat. revert db Hw. induction ids as [|id ids IH]; intros db Hw; cbn [each]; [split; [done|set_solver]|].
  pose proof (expire_one_wf id (at_ id) db Hw) as Hw1.
  pose proof (expire_one_later id (at_ id) db (wf_keyed _ _ Hw)) as Hl.
  pose proof (expire_one_spent now (at_ id) id db Hp Hw (Hat id)) as Hid.
  destruct (expire_one id (at_ id) db) as [r d]. cbn [snd] in *. specialize (IH d Hw1).
  destruct (each _ ids d) as [n d2]. cbn [snd] in *. destruct IH as [Hl2 IH]. split; [by etransitivity|].
  intros k [->|Hk]%elem_of_cons Hs; [|eapply IH; [done|by eapply spent_later]].
  eapply has_ended_later; [exact Hl2|by apply Hid].
Qed.

(** C19: the scheduler's pass ends every grant that is past its end, if the
    platforms answer: whatever the order, and whatever else it ends on the
    way. *)
Theorem due_grants_end policy now at_ db k g :
  platforms_work -> reachable policy db -> (forall id, now <= at_ id)%Z ->
  db_grants db !! k = Some g -> gr_status g = GActive -> (gr_expires_at g <= now)%Z ->
  exists g', db_grants (snd (expire_due_grants now at_ db)) !! k = Some g' /\ ended (gr_status g') = true.
Proof.
  intros Hp Hreach Hat Hg Hs He. pose proof (proj1 (runs_later policy _ _ wf_empty Hreach)) as Hw.
  unfold expire_due_grants, due, tx_read.
  pose proof (each_spent now at_ (fun r => match r with Ok (Some _) => true | _ => false end)
  (map gr_id (order_by Z.leb gr_expires_at (grants_where
    (fun g => bool_decide (gr_status g = GActive) && Z.leb (gr_expires_at g) now) db))) db Hp Hw Hat) as [_ Hend].
  apply Hend; [|exists g; auto]. apply list_elem_of_fmap. exists g. split; [by rewrite (proj2 (wf_keyed _ _ Hw) _ _ Hg)|].
  apply elem_of_order_by, elem_of_grants_where. split; [|eauto].
  rewrite bool_decide_eq_true_2 by done. by apply Z.leb_le.
Qed.
End scheduler.

(** ** On the concrete broker *)

Import SampleService.

(** A field of a row that is there. *)
Lemma field_of {K A B} `{Countable K} (m : gmap K A) k (f : A -> B) b :
  f <$> m !! k = Some b -> exists a, m !! k = Some a /\ f a = b.
Proof. intros Hf. destruct (m !! k) as [a|]; [|done]. injection Hf as <-. eauto. Qed.
Lemma db2_grant : exists g, db_grants db2 !! 200%N = Some g /\
  (gr_agent g, gr_status g, gr_expires_at g) = (1%N, GActive, (65 * second)%Z).
Proof. apply field_of. vm_compute. reflexivity. Qed.

Lemma issuable_exact_witness :
  agents_keyed db2 /\ exists issued, issuable 1 200 (7 * second)%Z db2 = Ok (Ok issued, db2).
Proof.
  assert (HK : agents_keyed db2).
  { intros k a Hk. assert (Hm : db_agents db2 = {[ 1%N := agent ]}) by (vm_compute; reflexivity).
    rewrite Hm in Hk. apply lookup_singleton_Some in Hk as [<- <-]. reflexivity. }
  split; [exact HK|]. destruct db2_grant as (g & Hg & [= Ha Hs He]). exists (mkIssuable g).
  apply (issuable_exact 1 200 (7 * second)%Z db2 (mkIssuable g) db2 HK). cbn [ig_grant]. rewrite Ha, Hs, He.
  split_and!; [reflexivity|exact Hg|reflexivity..| |].
  - vm_compute. reflexivity.
  - intros d Hd. exfalso. assert (Hn : (gr_delegation <$> db_grants db2 !! 200%N) = Some None) by (vm_compute; reflexivity).
    rewrite Hg in Hn. cbn in Hn. congruence.
Defined.

Lemma activation_checks_containment_witness :
  exists row now, db_grants db1 !! 200%N = Some row /\ gr_status row = GProvisioning /\
    db2 = snd (finish_inner 200 now db1) /\ held_in_db db1 (gr_agent row) now = None.
Proof.
  destruct db2_grant as (g & Hg & [= _ Hs _]).
  apply (activation_checks_containment policy db1 db2 200 g db1_reach); [apply step_finish|exact Hg|exact Hs|].
  intros x Hx Ha. assert (Hn : (gr_status <$> db_grants db1 !! 200%N) = Some GProvisioning) by (vm_compute; reflexivity).
  rewrite Hx in Hn. cbn in Hn. congruence.
Defined.

Lemma contained_grants_end_witness :
  exists g, db_grants contained !! 200%N = Some g /\ gr_status g = GActive /\ is_live g (10 * second)%Z = false.
Proof.
  destruct (field_of (db_grants contained) 200%N (fun g => (gr_agent g, gr_status g)) (1%N, GActive)) as (g & Hg & [= Ha Hs]);
    [vm_compute; reflexivity|]. exists g. split; [exact Hg|]. split; [exact Hs|].
  destruct (record entry (10 * second)%Z db2) as [[r d]|] eqn:Hr;
    [|exfalso; assert (Ho : is_ok (record entry (10 * second)%Z db2) = true) by (vm_compute; reflexivity); by rewrite Hr in Ho].
  assert (Hd : contained = d) by (unfold contained; by rewrite Hr). rewrite Hd in Hg.
  apply (contained_grants_end policy entry (10 * second)%Z db2 r d agent 200 g d g).
  - exact db2_reach.
  - exact Hr.
  - vm_compute. reflexivity.
  - discriminate.
  - vm_compute. reflexivity.
  - exact Hg.
  - exact Ha.
  - exact Hs.
  - apply rtc_refl.
  - exact Hg.
  - reflexivity.
Defined.

Lemma due_grants_end_witness :
  exists g', db_grants (snd (expire_due_grants (70 * second)%Z (fun _ => 71 * second)%Z db2)) !! 200%N = Some g' /\
    ended (gr_status g') = true.
Proof.
  destruct db2_grant as (g & Hg & [= _ Hs He]).
  apply (due_grants_end policy (70 * second)%Z (fun _ => 71 * second)%Z db2 200 g); [by split|exact db2_reach| |exact Hg|exact Hs|].
  - intros _. vm_compute. discriminate.
  - rewrite He. vm_compute. discriminate.
Defined.
