(* ===== verification/DecideFacts.v ===== *)
(** What the service promises of decisions: a request is decided once, the
    database's guards are the state machines, a delegated grant stays within
    what backs it, and the gate is passed with a code or at the desk. *)

From stdpp Require Import gmap.
From S2P Require Import Prelude Json Glob Pyfmt Lifecycle Names Durations Pool Mail Authority Routing Agents Hostexec Schema Policy Zones Eval CanonicalJson Store Requests Grants Threads ServiceRouting Provision Create Decide Review Contain TxLogic ServiceMono ServiceInv ServiceWf ServiceRuns ServiceFacts.
From stdpp Require Import options.
#[local] Set Default Proof Using "Type*".

(** ** A request is decided once *)

Section decided.
Context `{UnicodeLower, RegexLib, DateLib, RustFmt, !Registry, !RegistryLaws, UuidLib}.

Definition settled (s : RequestStatus) : bool :=
  match s with Provisioning | Granted | ProvisionFailed | Denied => true | _ => false end.
Definition settled_at (id : RequestId) (db : Database) : Prop :=
  exists r, db_requests db !! id = Some r /\ settled (rq_status r) = true.
Lemma settled_history s p t : history s p t -> settled s = true -> settled t = true.
Proof. induction 1 as [|s t p u Hst _ IH]; [done|]. intros Hs. apply IH. by destruct s, t. Qed.
Lemma settled_later id db db' : later db db' -> settled_at id db -> settled_at id db'.
Proof.
  intros [HR _] (r & Hr & Hs). destruct (HR _ _ Hr) as (r' & Hr' & _ & [p Hp] & _).
  exists r'. split; [done|]. by eapply settled_history.
Qed.

(** A request that is found is read. *)
Lemma get_request_run db id r :
  wf None db -> db_requests db !! id = Some r ->
  exists a, get_request id db = Ok (Some a, db) /\ into_row a = r /\ status_of a = rq_status r.
Proof.
  intros Hw Hr. pose proof (wf_request _ _ Hw _ _ Hr) as (Hc & _).
  assert (Hread : read_request r = Ok r).
  { unfold request_checks in Hc. do 3 apply andb_true_iff in Hc as [Hc _]. apply andb_true_iff in Hc as [_ Hc].
  clear Hw. unfold read_request. rewrite <- (negb_involutive (is_none (rq_authority r))).
  destruct (negb (is_none (rq_authority r))); cbn [negb orb andb] in *; [reflexivity|]. rewrite Hc. reflexivity. }
  clear Hc.
  unfold get_request, any, tx_bind, tx_read, tx_lift. rewrite Hr, Hread. cbn [mbind result_bind].
  unfold AnyRequest_from_row. destruct (rq_status r) eqn:Hs; rewrite (Request_new_ok _ _ Hs); cbn; eauto.
Qed.

Lemma transition_at {from} (h0 : Request from) e `{HC : !CanMoveTo from (target e)} now db h db' :
  keyed db -> transition h0 e now db = Ok (Ok h, db') ->
  db_requests db' !! rq_id (rq_row h0) = Some (rq_row h) /\ rq_status (rq_row h) = target e /\
  rq_id (rq_row h) = rq_id (rq_row h0).
Proof.
  intros HK Hr. apply transition_ok in Hr as (row & Hrow & Hst & Heq & _ & Hu).
  assert (Hid : rq_id row = rq_id (rq_row h0)) by (by eapply HK).
  unfold update_request in Hu. case_match; [|done]. tx_ok. rewrite Hid. cbn. rewrite lookup_insert_eq.
  split_and!; [done|by rewrite Heq|by rewrite Heq].
Qed.

Lemma later_ok {E A} (m : tx E A) db a db' : keyed db -> m db = Ok (a, db') -> mono later m -> keyed db' /\ later db db'.
Proof. intros HK Hr Hm. by eapply Hm. Qed.

(** Phase one leaves a request settled, however it ends. *)
Lemma begin_provision_settles r id now db x db' :
  keyed db -> begin_provision r id now db = Ok (x, db') -> settled_at (rq_id (rq_row r)) db'.
Proof.
  intros HK Hr. assert (HR := later_StepOrder). unfold begin_provision in Hr.
  apply tx_bind_ok in Hr as (h & d1 & Hs & Hr). apply step_request_ok in Hs.
  destruct (transition_mono _ HR _ _ _ _ _ _ HK Hs) as [HK1 _].
  apply (transition_at _ _ _ _ _ _ HK) in Hs as (Hrow & Hst & _).
  eapply settled_later; [|exists (rq_row h); split; [exact Hrow|by rewrite Hst]].
  eapply later_ok; [exact HK1|exact Hr|].
  pose proof (step_request_mono _ HR h) as Hf.
  mono; try apply (Hf (ToProvisionFailed _)). all: by apply store_mono, grants_begin_mono.
Qed.

Lemma step_request_at {from} (r : Request from) e `{HC : !CanMoveTo from (target e)} now db h db' :
  keyed db -> step_request r e now db = Ok (h, db') ->
  db_requests db' !! rq_id (rq_row r) = Some (rq_row h) /\ rq_status (rq_row h) = target e /\
  rq_id (rq_row h) = rq_id (rq_row r).
Proof. intros HK Hs. apply step_request_ok in Hs. by eapply transition_at. Qed.
Lemma awaiting_id loaded now db r db' :
  keyed db -> awaiting loaded now db = Ok (r, db') -> rq_id (rq_row r) = rq_id (into_row loaded).
Proof.
  intros HK Hr. unfold awaiting in Hr.
  destruct loaded as [h|h|h|h|h|h|h|h|h]; try (by tx_ok);
  exact (proj2 (proj2 (step_request_at h (ToAwaitingHuman None) now db r db' HK Hr))).
Qed.
Lemma approve_human_id r h at_ why d now db x db' :
  keyed db -> approve_human r h at_ why d now db = Ok (x, db') -> rq_id (rq_row x) = rq_id (rq_row r).
Proof.
  intros HK Hr. assert (Hs : forall ap, step_request r (ToApproved (Approval_human ap why d)) now db = Ok (x, db') ->
  rq_id (rq_row x) = rq_id (rq_row r)).
  { intros ap Ha. exact (proj2 (proj2 (step_request_at r (ToApproved (Approval_human ap why d)) now db x db' HK Ha))). }
  unfold approve_human in Hr. destruct at_ as [ap|]; [case_match; [|done]|]; eauto.
Qed.
Lemma set_approved_edit_id r edit now db h db' :
  set_approved_edit r edit now db = Ok (Ok h, db') -> rq_id (rq_row h) = rq_id (rq_row r).
Proof.
  unfold set_approved_edit. intros Hr. destruct (negb _); [done|].
  apply tx_bind_ok in Hr as (o & d & Ho & Hr). destruct o as [row|]; [|by tx_ok]. destruct (bool_decide _); by tx_ok.
Qed.

(** A decision that commits settles its request. *)
Lemma decide_inner_settles policy id who at_ d ri gi now db x db' :
  wf None db -> decide_inner policy id who at_ d ri gi now db = Ok (x, db') -> settled_at id db'.
Proof.
  intros Hw Hr. assert (HR := later_StepOrder). pose proof (wf_keyed _ _ Hw) as HK. unfold decide_inner, store in Hr.
  apply tx_bind_ok in Hr as (o & d0 & Ho & Hr). unfold tx_map_err in Ho. apply map_err_inv, get_request_ok in Ho as [-> Ho].
  destruct o as [loaded|]; [|by tx_ok]. destruct Ho as [Ho _]. pose proof (proj1 HK _ _ Ho) as Hid.
  apply tx_bind_ok in Hr as (r & d1 & Hr1 & Hr). pose proof (awaiting_id _ _ _ _ _ HK Hr1) as Hid1.
  destruct (awaiting_mono _ HR _ _ _ _ _ HK Hr1) as [HK1 _]. rewrite Hid in Hid1. clear Hr1.
  apply tx_bind_ok in Hr as (a & d2 & Ha & Hr). unfold tx_map_err in Ha. apply map_err_inv in Ha. injection Ha as <- <-.
  destruct (db_agents d1 !! _) as [agent|]; [|by tx_ok].
  apply tx_bind_ok in Hr as (edit & d2 & He & Hr).
  assert (HK2 : keyed d2).
  { eapply later_ok; [exact HK1|exact He|]. mono. by apply revalidate_mono. }
  apply tx_bind_ok in Hr as (u & d3 & Hu & Hr).
  assert (HK3 : keyed d3).
  { eapply later_ok; [exact HK2|exact Hu|]. mono. by apply save_rule_mono. }
  clear He Hu.
  assert (Hdeny : forall u d4, step_request r (ToDenied ByHuman (Some (decider_label who)) (hd_reason d)) now d3 = Ok (u, d4) ->
  settled_at id d4).
  { intros h d4 Hs.
  destruct (step_request_at r (ToDenied ByHuman (Some (decider_label who)) (hd_reason d)) now d3 h d4 HK3 Hs) as (Hrow & Hst & _).
  rewrite Hid1 in Hrow. exists (rq_row h). split; [done|by rewrite Hst]. }
  destruct (match who with DHuman h => _ | _ => None end) as [human|]; [destruct edit as [edit|]|]; try (tx_ok; by eauto).
  apply tx_bind_ok in Hr as (ap & d4 & Hap & Hr). pose proof (approve_human_id _ _ _ _ _ _ _ _ _ HK3 Hap) as Hid2.
  destruct (approve_human_mono _ HR _ _ _ _ _ _ _ _ _ HK3 Hap) as [HK4 _].
  apply tx_bind_ok in Hr as (ed & d5 & Hed & Hr). unfold tx_map_err in Hed. apply map_err_inv in Hed.
  destruct (set_approved_edit_mono _ HR _ _ _ _ _ _ HK4 Hed) as [HK5 _]. destruct ed as [h|]; [|by tx_ok].
  apply set_approved_edit_id in Hed. rewrite <- Hid1, <- Hid2, <- Hed. by eapply begin_provision_settles.
Qed.

(** C10: of two decisions of one request, by anyone, in any run, the first to
    commit is the only one: a decision of a request that was decided is
    refused as already resolved, and changes nothing. *)
Theorem decided_once policy id who at_ d ri gi now db x db1 db2 who' at' d' ri' gi' now' :
  reachable policy db -> decide_inner policy id who at_ d ri gi now db = Ok (x, db1) -> runs policy db1 db2 ->
  exists s, settled s = true /\ decide_inner policy id who' at' d' ri' gi' now' db2 = Err (resolved s).
Proof.
  intros Hreach Hr Hruns. pose proof (proj1 (runs_later policy _ _ wf_empty Hreach)) as Hw.
  pose proof (decide_inner_settles _ _ _ _ _ _ _ _ _ _ _ Hw Hr) as Hset.
  assert (Hw1 : wf None db1) by (by eapply decide_inner_keeps).
  destruct (runs_later policy _ _ Hw1 Hruns) as [Hw2 Hl]. destruct (settled_later _ _ _ Hl Hset) as (r & Hrow & Hs).
  exists (rq_status r). split; [done|].
  destruct (get_request_run _ _ _ Hw2 Hrow) as (a & Hget & Hrowa & Hsta).
  unfold decide_inner, store, tx_bind, tx_map_err. rewrite Hget. cbn [map_err].
  rewrite <- Hrowa in *. destruct a; cbn [status_of] in Hsta; rewrite <- Hsta in Hs; try discriminate Hs; unfold awaiting, tx_fail; cbn [into_row] in *; by rewrite <- Hsta.
Qed.
End decided.

#[local] Set Default Proof Using "Type*".

(** ** The guards, the delegations and the gate *)

Section guards.
Context `{DateLib}.

(** The database's guards are the two state machines: the triggers let an
    update of a row's status through exactly when the code's table has the
    transition, or the status stays. *)
Theorem guards_agree :
  (forall old new, request_guard old new = true <->
   (rq_attempt old <= rq_attempt new)%N /\
   (rq_status new = rq_status old \/ can_transition (rq_status old) (rq_status new) = true)) /\
  (forall old new, grant_guard old new = true <->
   (gr_expires_at new <= gr_expires_at old)%Z /\
   (gr_status new = gr_status old \/ grant_can_transition (gr_status old) (gr_status new) = true)).
Proof.
  split; intros old new.
  - unfold request_guard. rewrite andb_true_iff, orb_true_iff, bool_decide_eq_true, N.leb_le.
  assert (He : forall s t, existsb (fun '(x, ts) => bool_decide (s = x) && existsb (fun y => bool_decide (t = y)) ts)
    GUARD_EDGES = can_transition s t) by (by intros [] []). by rewrite He.
  - unfold grant_guard. rewrite andb_true_iff, orb_true_iff, bool_decide_eq_true, Z.leb_le.
  assert (He : forall s t, existsb (fun '(x, ts) => bool_decide (s = x) && existsb (fun y => bool_decide (t = y)) ts)
    GRANT_EDGES = grant_can_transition s t) by (by intros [] []). by rewrite He.
Qed.

End guards.

Section delegation.
Context `{UnicodeLower, RegexLib, DateLib, RustFmt, !Registry, UuidLib}.

(** C20: a grant begins for at most what was approved, and a delegated one never
    outlives what backs it: its thread is open, its delegator is not
    disabled, and its end is no later than that of the active grant behind
    the thread; only the operator's own threads have none. *)
Theorem grant_begins_within r n id now db p db' :
  grants_begin r n id now db = Ok (Ok p, db') ->
  gr_status (pg_grant p) = GProvisioning /\
  (exists secs, rq_approved_duration (rq_row r) = Some secs /\
   (gr_expires_at (pg_grant p) <= now + seconds secs)%Z) /\
  forall d, gr_delegation (pg_grant p) = Some d ->
  exists t delegator, db_threads db !! thread_id d = Some t /\ th_state t = ThreadOpen /\
    db_agents db !! delegator_agent_id d = Some delegator /\ ag_disabled delegator = false /\
    match th_grant t with
    | Some b => exists backing, db_grants db !! b = Some backing /\ gr_status backing = GActive /\
        (now < gr_expires_at backing)%Z /\ (gr_expires_at (pg_grant p) <= gr_expires_at backing)%Z
    | None => ag_kind delegator = Operator /\ th_initiator t = delegator_agent_id d
    end.
Proof.
  intros Hr. apply grants_begin_ok in Hr as (_ & au & secs & backing & _ & Hsecs & _ & Hback & Hp). rewrite Hp.
  cbn [gr_status gr_expires_at gr_delegation]. split_and!; [done|exists secs; split; [done|apply min_expiry_le]|].
  intros d Hd. rewrite Hd in Hback. unfold delegation_backing, get_agent in Hback.
  apply tx_bind_ok in Hback as (ot & d1 & Ho & Hback). injection Ho as <- <-.
  apply tx_bind_ok in Hback as (oa & d2 & Ho & Hback). injection Ho as <- <-.
  destruct (db_threads db !! thread_id d) as [t|]; [|by tx_ok].
  destruct (db_agents db !! delegator_agent_id d) as [a|]; [|by tx_ok].
  destruct (ag_disabled a) eqn:Hdis; [by tx_ok|]. exists t, a. destruct (th_grant t) as [b|] eqn:Hb.
  - apply tx_bind_ok in Hback as (x & d3 & Hx & Hback). injection Hx as <- <-.
  destruct (active_past now (db_grants db !! b)) as [y|] eqn:Hy; [|by tx_ok]. apply active_past_exact in Hy as (? & ? & ?).
  unfold is_open in Hback. destruct (bool_decide (th_state t = ThreadOpen)) eqn:Ho; [|by tx_ok]. bools.
  injection Hback as <-. split_and!; [done..|]. exists y. split_and!; [done..|]. unfold min_expiry. lia.
  - unfold is_open in Hback. destruct (bool_decide (ag_kind a = Operator)) eqn:Hk; [|by tx_ok]. cbn [negb] in Hback.
  destruct (bool_decide (th_state t = ThreadOpen)) eqn:Ho; [|by tx_ok].
  destruct (N.eqb_spec (th_initiator t) (delegator_agent_id d)); [|by tx_ok]. bools. by split_and!.
Qed.

(** A person's approval passes the gate only for a request that waits, for a
    shell only with a code or at the desk of its host, and where the platform
    has a gate and the agent is not held, only when the gate agrees. *)
Theorem gate_passed gated answer id d now db :
  run_gate gated answer id d now db = Ok tt ->
  exists r, db_requests db !! id = Some r /\ is_human_decidable (rq_status r) = true /\
  (is_shell (rq_authority r) = true -> desk_host d = Some (rq_resource r) \/ no_code (totp d) = false) /\
  (rq_platform r = Hostexec -> gated Hostexec = true) /\
  (gated (rq_platform r) = true -> held_in_db db (rq_agent r) now = None ->
     exists a, db_agents db !! rq_agent r = Some a /\ answer r a d = Ok tt).
Proof.
  unfold run_gate. destruct (gate_needed gated id d now db) as [[asked d']|e] eqn:Hg; [|done].
  intros Hr. unfold gate_needed, store in Hg.
  apply tx_bind_ok in Hg as (o & d1 & Ho & Hg). unfold tx_map_err in Ho. apply map_err_inv, get_request_ok in Ho as [-> Ho].
  destruct o as [x|]; [|by tx_ok]. destruct Ho as [Ho _]. exists (into_row x). split; [done|].
  set (r := into_row x) in *. destruct (is_human_decidable (rq_status r)); [|by tx_ok]. cbn [negb] in Hg.
  destruct (is_shell (rq_authority r) && _ && no_code (totp d)) eqn:Hshell; [by tx_ok|].
  split; [done|]. split.
  { intros Hs. rewrite Hs in Hshell. cbn [andb] in Hshell. apply andb_false_iff in Hshell as [Hdesk|Hcode]; [left|by right].
  by bools. }
  destruct (gated (rq_platform r)) eqn:Hgated; cbn [negb] in Hg.
  - split; [congruence|]. intros _ Hheld.
  apply tx_bind_ok in Hg as (c & d1 & Hc & Hg). unfold tx_map_err in Hc. apply map_err_inv in Hc.
  rewrite lockdown_check_run, Hheld in Hc. destruct (db_agents db !! rq_agent r) as [a|] eqn:Ha;
    [|by destruct (held_none_known _ _ _ Hheld); congruence]. injection Hc as <- <-.
  apply tx_bind_ok in Hg as (oa & d1 & Hoa & Hg). injection Hoa as <- <-. rewrite Ha in Hg. injection Hg as <- <-.
  exists a. split; [done|]. by apply map_err_inv in Hr.
  - case_bool_decide as Hp; [by tx_ok|]. split; [done|]. by intros [=].
Qed.
End delegation.

(** ** On the concrete broker *)

Import SampleService.

Lemma decision_ok : exists x, decision = Ok (x, decided).
Proof.
  assert (Ho : is_ok decision = true) by (vm_compute; reflexivity).
  unfold decided. destruct decision as [[c db]|e]; [by exists c|done].
Qed.
Lemma decided_once_witness :
  exists s, settled s = true /\
    decide_inner policy 100 (DHuman (mkHuman (lit "jo"))) None approval 9 201 (7 * second)%Z decided = Err (resolved s).
Proof.
  destruct decision_ok as [x Hx].
  exact (decided_once policy 100 (DHuman (mkHuman (lit "jo"))) None approval 8 200 (6 * second)%Z waiting x decided decided
    (DHuman (mkHuman (lit "jo"))) None approval 9 201 (7 * second)%Z waiting_reach Hx (rtc_refl _ _)).
Defined.

Lemma grant_begins_within_witness :
  exists r p db', grants_begin r (mkNotHeld agent) 201 (6 * second)%Z (with_grants db1 ∅) = Ok (Ok p, db') /\
    gr_status (pg_grant p) = GProvisioning.
Proof.
  destruct (ServiceFacts.field_of (db_requests db1) 100%N rq_status Provisioning) as (row & Hrow & Hs); [vm_compute; reflexivity|].
  exists (mkHandle row).
  assert (Ho : match db_requests db1 !! 100%N with
               | Some row => match grants_begin (mkHandle row) (mkNotHeld agent) 201 (6 * second)%Z (with_grants db1 ∅) with
                             | Ok (Ok _, _) => true | _ => false end
               | None => false end = true) by (vm_compute; reflexivity).
  rewrite Hrow in Ho.
  destruct (grants_begin (mkHandle row) (mkNotHeld agent) 201 (6 * second)%Z (with_grants db1 ∅)) as [[[p|] d]|] eqn:Hb;
    [|discriminate Ho..].
  exists p, d. split; [reflexivity|exact (proj1 (grant_begins_within _ _ _ _ _ _ _ Hb))].
Defined.

Lemma gate_passed_witness :
  exists r, db_requests waiting !! 100%N = Some r /\ is_human_decidable (rq_status r) = true.
Proof.
  assert (Hg : run_gate (fun _ => true) (fun _ _ _ => Ok tt) 100 approval (6 * second)%Z waiting = Ok tt) by (vm_compute; reflexivity).
  destruct (gate_passed _ _ _ _ _ _ Hg) as (r & Hr & Hd & _). exists r. split; assumption.
Defined.
