(* ===== verification/ThreadRuns.v ===== *)
(** Runs of the a2a threads: a thread's messages are numbered from one
    without a gap, between its two parties, and a closed thread stays as it
    is. *)

From stdpp Require Import gmap.
From S2P Require Import Prelude Json Glob Pyfmt Lifecycle Names Durations Pool Mail Authority Routing Agents Hostexec Schema Policy Zones Eval Store Requests Grants Threads TxLogic ServiceMono.
From stdpp Require Import options.
#[local] Set Default Proof Using "Type*".

Section threads.
Context `{DateLib, RustFmt}.

Definition of_thread (id : ThreadId) (l : list MessageRow) : list MessageRow :=
  List.filter (fun m => N.eqb (me_thread m) id) l.
Definition numbers (n : N) : list N := map N.of_nat (seq 1 (N.to_nat n)).
Definition between_parties (t : ThreadRow) (m : MessageRow) : Prop :=
  me_sender m <> me_recipient m /\ party t (me_sender m) = true /\ party t (me_recipient m) = true.

(** What holds of the threads and their messages. *)
Record threads_ok (db : Database) : Prop := {
  to_keyed k t : db_threads db !! k = Some t -> th_id t = k;
  to_checked k t : db_threads db !! k = Some t -> thread_checks t = true;
  to_numbered k t : db_threads db !! k = Some t -> map me_seq (of_thread k (db_messages db)) = numbers (th_last_seq t);
  to_parties k t m : db_threads db !! k = Some t -> m ∈ of_thread k (db_messages db) -> between_parties t m;
  to_known m : m ∈ db_messages db -> is_Some (db_threads db !! me_thread m);
}.
(** A thread keeps its parties and its messages; once closed, all of it. *)
Definition thread_later (t t' : ThreadRow) : Prop :=
  th_id t' = th_id t /\ th_initiator t' = th_initiator t /\ th_responder t' = th_responder t /\ th_grant t' = th_grant t
  /\ (th_last_seq t <= th_last_seq t')%N /\ (th_state t = ThreadClosed -> t' = t).
Definition threads_later (db db' : Database) : Prop :=
  (forall k t, db_threads db !! k = Some t -> exists t', db_threads db' !! k = Some t' /\ thread_later t t')
  /\ exists more, db_messages db' = db_messages db ++ more.

#[export] Instance thread_later_preorder : PreOrder thread_later.
Proof.
  split; [intros t; by split_and!|]. intros a b c (? & ? & ? & ? & ? & Hc) (? & ? & ? & ? & ? & Hc').
  split_and!; [congruence..|lia|]. intros Ha. specialize (Hc Ha). subst b. auto.
Qed.
#[export] Instance threads_later_preorder : PreOrder threads_later.
Proof.
  split.
  - intros db. split; [|exists []; by rewrite app_nil_r]. intros k t Ht. exists t. by split.
  - intros a b c [T1 [m1 M1]] [T2 [m2 M2]]. split.
  + intros k t Ht. destruct (T1 _ _ Ht) as (x & Hx & L1). destruct (T2 _ _ Hx) as (y & Hy & L2).
    exists y. split; [done|by transitivity x].
  + exists (m1 ++ m2). by rewrite M2, M1, app_assoc.
Qed.

Lemma of_thread_app id l l' : of_thread id (l ++ l') = of_thread id l ++ of_thread id l'.
Proof. apply List.filter_app. Qed.
Lemma elem_of_of_thread id l m : m ∈ of_thread id l <-> m ∈ l /\ me_thread m = id.
Proof. unfold of_thread. rewrite list_elem_of_In, filter_In, <- list_elem_of_In, N.eqb_eq. done. Qed.
Lemma numbers_succ n : numbers (n + 1) = numbers n ++ [(n + 1)%N].
Proof.
  unfold numbers. replace (N.to_nat (n + 1)) with (S (N.to_nat n)) by lia.
  rewrite seq_S, map_app. cbn. do 2 f_equal. lia.
Qed.

Lemma same_threads_ok db db' :
  db_threads db' = db_threads db -> db_messages db' = db_messages db -> threads_ok db -> threads_ok db'.
Proof. intros HT HM [K C N P U]. by constructor; rewrite ?HT, ?HM. Qed.

(** A row is replaced by a later one with as many messages. *)
Lemma set_thread_ok db k t t' :
  threads_ok db -> db_threads db !! k = Some t -> thread_checks t' = true -> thread_later t t' ->
  th_last_seq t' = th_last_seq t ->
  let db' := with_threads db (<[k := t']> (db_threads db)) in threads_ok db' /\ threads_later db db'.
Proof.
  intros [K C N P U] Ht Hc Hl Hs db'. destruct (Hl) as (Hid & Hi & Hr & _).
  split; [constructor; cbn|split; cbn; [|exists []; by rewrite app_nil_r]].
  - intros k' x [(<- & <-)|[_ Hx]]%lookup_insert_Some; [rewrite Hid|]; eauto.
  - intros k' x [(<- & <-)|[_ Hx]]%lookup_insert_Some; eauto.
  - intros k' x [(<- & <-)|[_ Hx]]%lookup_insert_Some; [rewrite Hs|]; eauto.
  - intros k' x m [(<- & <-)|[_ Hx]]%lookup_insert_Some Hm; [|eauto].
  destruct (P _ _ _ Ht Hm) as (? & ? & ?). unfold between_parties, party in *. by rewrite Hi, Hr.
  - intros m Hm. destruct (decide (k = me_thread m)) as [<-|Hn]; [by rewrite lookup_insert_eq|].
  rewrite lookup_insert_ne by done. eauto.
  - intros k' x Hx. destruct (decide (k = k')) as [<-|Hn].
  + rewrite lookup_insert_eq. exists t'. split; [done|]. by replace x with t by congruence.
  + rewrite lookup_insert_ne by done. exists x. by split.
Qed.
(** A message is the next of its thread. *)
Lemma add_message_ok db t m :
  threads_ok db -> db_threads db !! me_thread m = Some t -> me_seq m = (th_last_seq t + 1)%N -> between_parties t m ->
  forall t', thread_checks t' = true -> thread_later t t' -> th_last_seq t' = (th_last_seq t + 1)%N ->
  let db' := with_messages (with_threads db (<[me_thread m := t']> (db_threads db))) (db_messages db ++ [m]) in
  threads_ok db' /\ threads_later db db'.
Proof.
  intros [K C N P U] Ht Hm Hb t' Hc Hl Hs db'. destruct (Hl) as (Hid & Hi & Hr & _).
  assert (Hb' : forall x, between_parties t x -> between_parties t' x).
  { intros x. unfold between_parties, party. by rewrite Hi, Hr. }
  assert (Hother : forall k', me_thread m <> k' -> of_thread k' (db_messages db ++ [m]) = of_thread k' (db_messages db)).
  { intros k' Hn. rewrite of_thread_app. cbn. rewrite (proj2 (N.eqb_neq _ _) Hn). by rewrite app_nil_r. }
  assert (Hsame : of_thread (me_thread m) (db_messages db ++ [m]) = of_thread (me_thread m) (db_messages db) ++ [m]).
  { rewrite of_thread_app. cbn. by rewrite N.eqb_refl. }
  assert (HT : db_threads db' = <[me_thread m := t']> (db_threads db)) by done.
  assert (HM : db_messages db' = db_messages db ++ [m]) by done.
  clearbody db'. split; [constructor; rewrite ?HT, ?HM|split; rewrite ?HT, ?HM; [|by exists [m]]].
  - intros k' x [(<- & <-)|[_ Hx]]%lookup_insert_Some; [rewrite Hid|]; eauto.
  - intros k' x [(<- & <-)|[_ Hx]]%lookup_insert_Some; eauto.
  - intros k' x [(<- & <-)|[Hn Hx]]%lookup_insert_Some.
  + by rewrite Hsame, map_app, (N _ _ Ht), Hs, numbers_succ, <- Hm.
  + rewrite Hother by done. eauto.
  - intros k' x y [(<- & <-)|[Hn Hx]]%lookup_insert_Some.
  + rewrite Hsame, elem_of_app, list_elem_of_singleton. intros [Hy| ->]; apply Hb'; eauto.
  + rewrite Hother by done. eauto.
  - intros x [Hx|Hx%list_elem_of_singleton]%elem_of_app; [|subst x; by rewrite lookup_insert_eq].
  destruct (decide (me_thread m = me_thread x)) as [->|Hn]; [by rewrite lookup_insert_eq|].
  rewrite lookup_insert_ne by done. eauto.
  - intros k' x Hx. destruct (decide (me_thread m = k')) as [<-|Hn].
  + rewrite lookup_insert_eq. exists t'. split; [done|]. by replace x with t by congruence.
  + rewrite lookup_insert_ne by done. exists x. by split.
Qed.
(** The first message opens its thread. *)
Lemma new_thread_ok db t m :
  threads_ok db -> db_threads db !! me_thread m = None -> th_id t = me_thread m -> thread_checks t = true ->
  th_last_seq t = 1%N -> me_seq m = 1%N -> between_parties t m ->
  let db' := with_messages (with_threads db (<[me_thread m := t]> (db_threads db))) (db_messages db ++ [m]) in
  threads_ok db' /\ threads_later db db'.
Proof.
  intros [K C N P U] Ht Hid Hc Hs Hm Hb db'.
  assert (Hnone : of_thread (me_thread m) (db_messages db) = []).
  { destruct (of_thread (me_thread m) (db_messages db)) as [|x l] eqn:He; [done|].
  assert (Hx : x ∈ of_thread (me_thread m) (db_messages db)) by (rewrite He; set_solver).
  apply elem_of_of_thread in Hx as [Hx Hk]. destruct (U _ Hx) as [y Hy]. congruence. }
  assert (Hother : forall k', me_thread m <> k' -> of_thread k' (db_messages db ++ [m]) = of_thread k' (db_messages db)).
  { intros k' Hn. rewrite of_thread_app. cbn. rewrite (proj2 (N.eqb_neq _ _) Hn). by rewrite app_nil_r. }
  assert (Hsame : of_thread (me_thread m) (db_messages db ++ [m]) = [m]).
  { rewrite of_thread_app, Hnone. cbn. by rewrite N.eqb_refl. }
  assert (HT : db_threads db' = <[me_thread m := t]> (db_threads db)) by done.
  assert (HM : db_messages db' = db_messages db ++ [m]) by done.
  clearbody db'. split; [constructor; rewrite ?HT, ?HM|split; rewrite ?HT, ?HM; [|by exists [m]]].
  - intros k' x [(<- & <-)|[_ Hx]]%lookup_insert_Some; eauto.
  - intros k' x [(<- & <-)|[_ Hx]]%lookup_insert_Some; eauto.
  - intros k' x [(<- & <-)|[Hn Hx]]%lookup_insert_Some; [by rewrite Hsame, Hs; cbn; rewrite Hm|].
  rewrite Hother by done. eauto.
  - intros k' x y [(<- & <-)|[Hn Hx]]%lookup_insert_Some.
  + rewrite Hsame, list_elem_of_singleton. by intros ->.
  + rewrite Hother by done. eauto.
  - intros x [Hx|Hx%list_elem_of_singleton]%elem_of_app; [|subst x; by rewrite lookup_insert_eq].
  destruct (decide (me_thread m = me_thread x)) as [->|Hn]; [by rewrite lookup_insert_eq|].
  rewrite lookup_insert_ne by done. eauto.
  - intros k' x Hx. exists x. rewrite lookup_insert_ne by congruence. by split.
Qed.
End threads.

#[local] Set Default Proof Using "Type*".


(** ** The operations *)

Section operations.
Context `{DateLib, RustFmt}.

Definition thread_moves {A} (m : tx StoreError A) : Prop :=
  forall db a db', threads_ok db -> m db = Ok (a, db') -> threads_ok db' /\ threads_later db db'.

Lemma update_thread_ok old new db u db' :
  update_thread old new db = Ok (u, db') ->
  thread_checks new = true /\ db' = with_threads db (<[th_id old := new]> (db_threads db)).
Proof. unfold update_thread. intros Hr. destruct (_ && _) eqn:Hc; [|by tx_ok]. bools. by tx_ok. Qed.
Lemma insert_message_ok m db m' db' :
  insert_message m db = Ok (m', db') ->
  m' = m /\ me_sender m <> me_recipient m /\ db' = with_messages db (db_messages db ++ [m]).
Proof.
  unfold insert_message, tx_lift. intros Hr.
  apply tx_bind_ok in Hr as (all & d & Ha & Hr). injection Ha as <- <-.
  apply tx_bind_ok in Hr as (t & d & Ht & Hr). injection Ht as <- <-.
  apply tx_bind_ok in Hr as (i & d & Hi & Hr). destruct (to_i32 _); [|done]. injection Hi as <- <-.
  destruct (negb (message_guard _ _)); [by tx_ok|]. destruct (is_none _); [by tx_ok|].
  destruct (negb _ || _) eqn:Hc; [by tx_ok|]. destruct (existsb _ _); [by tx_ok|].
  apply tx_bind_ok in Hr as (u & d & Hw & Hr). injection Hw as _ <-. injection Hr as <- <-.
  apply orb_false_iff in Hc as [_ Hc]. by apply N.eqb_neq in Hc.
Qed.

Lemma stay_moves db : threads_ok db -> threads_ok db /\ threads_later db db.
Proof. by split. Qed.

Lemma close_moves id reason by_ note now : thread_moves (close id reason by_ note now).
Proof.
  intros db a db' Hok Hr. unfold close in Hr. apply tx_bind_ok in Hr as (o & d & Ho & Hr). injection Ho as <- <-.
  destruct (db_threads db !! id) as [t|] eqn:Ht; [|tx_ok; by apply stay_moves].
  destruct (not_closed t) eqn:Hn; [|tx_ok; by apply stay_moves].
  apply tx_bind_ok in Hr as (u & d & Hu & Hr). injection Hr as _ <-. apply update_thread_ok in Hu as [Hc ->].
  rewrite (to_keyed _ Hok _ _ Ht). apply (set_thread_ok db id t); [done..| |done].
  unfold not_closed in Hn. bools. by split_and!.
Qed.
Lemma close_each_moves ids reason by_ note now : thread_moves (close_each ids reason by_ note now).
Proof.
  induction ids as [|id ids IH]; intros db a db' Hok Hr; cbn [close_each] in Hr; [tx_ok; by apply stay_moves|].
  apply tx_bind_ok in Hr as (t & d1 & Ht & Hr). apply tx_bind_ok in Hr as (rest & d2 & Hrest & Hr). injection Hr as _ <-.
  apply close_moves in Ht as [Hok1 L1]; [|done]. apply IH in Hrest as [Hok2 L2]; [|done].
  split; [done|by etransitivity].
Qed.
Lemma close_where_moves which reason by_ note now : thread_moves (close_where which reason by_ note now).
Proof.
  intros db a db' Hok Hr. unfold close_where in Hr. apply tx_bind_ok in Hr as (ids & d & Hi & Hr). injection Hi as _ <-.
  by eapply close_each_moves.
Qed.
Lemma accept_moves clear id session now : thread_moves (accept clear id session now).
Proof.
  intros db a db' Hok Hr. unfold accept in Hr. apply tx_bind_ok in Hr as (o & d & Ho & Hr). injection Ho as <- <-.
  destruct (db_threads db !! id) as [t|] eqn:Ht; [|tx_ok; by apply stay_moves].
  apply tx_bind_ok in Hr as (u & d & Hv & Hr). unfold tx_lift in Hv. destruct (PairClear_verify _ _ _); [|done]. injection Hv as _ <-.
  case_bool_decide as Hs; [|tx_ok; by apply stay_moves].
  apply tx_bind_ok in Hr as (u' & d & Hu & Hr). injection Hr as _ <-. apply update_thread_ok in Hu as [Hc ->].
  rewrite (to_keyed _ Hok _ _ Ht). apply (set_thread_ok db id t); [done..| |done]. split_and!; [done..|]. congruence.
Qed.

Lemma peer_is_party t me : party t me = true -> party t (peer_of t me) = true.
Proof. unfold party, peer_of. intros Hp. case_match; rewrite N.eqb_refl; [by rewrite orb_true_r|done]. Qed.
Lemma append_moves clear n : thread_moves (append clear n).
Proof.
  intros db a db' Hok Hr. unfold append in Hr. apply tx_bind_ok in Hr as (o & d & Ho & Hr). injection Ho as <- <-.
  destruct (db_threads db !! nm_thread n) as [t|] eqn:Ht; [|tx_ok; by apply stay_moves].
  destruct (party t (nm_sender n)) eqn:Hp; cbn [negb] in Hr; [|tx_ok; by apply stay_moves].
  apply tx_bind_ok in Hr as (u & d & Hv & Hr). unfold tx_lift in Hv. destruct (PairClear_verify _ _ _); [|done]. injection Hv as _ <-.
  apply tx_bind_ok in Hr as (live & d & Hl & Hr).
  assert (Hd : d = db) by (destruct (th_grant t); [unfold lock_backing_grant in Hl; by injection Hl|by tx_ok]). subst d.
  destruct live; cbn [negb] in Hr; [|tx_ok; by apply stay_moves].
  unfold is_open in Hr. case_bool_decide as Hs; cbn [negb] in Hr; [|tx_ok; by apply stay_moves].
  apply tx_bind_ok in Hr as (u' & d & Hu & Hr). apply update_thread_ok in Hu as [Hc ->].
  apply tx_bind_ok in Hr as (m & d & Hm & Hr). apply insert_message_ok in Hm as (_ & Hne & ->). injection Hr as _ <-.
  rewrite (to_keyed _ Hok _ _ Ht).
  eapply (add_message_ok db t (mkMessage (nm_id n) (nm_thread n) (th_last_seq t + 1) (nm_sender n)
  (nm_session n) (peer_of t (nm_sender n)) (th_grant t) (nm_payload n) (nm_now n))); [done..| |exact Hc| |done].
  - split_and!; [done..|]. by apply peer_is_party.
  - split_and!; [done..| |]; [cbn; lia|congruence].
Qed.
Lemma open_thread_moves clear n : thread_moves (open_thread clear n).
Proof.
  intros db a db' Hok Hr. unfold open_thread in Hr.
  apply tx_bind_ok in Hr as (u & d & Hv & Hr). unfold tx_lift in Hv. destruct (PairClear_verify _ _ _); [|done]. injection Hv as _ <-.
  apply tx_bind_ok in Hr as (live & d & Hl & Hr). injection Hl as _ <-.
  destruct live; cbn [negb] in Hr; [|tx_ok; by apply stay_moves].
  apply tx_bind_ok in Hr as (x & d & Hx & Hr). injection Hx as <- <-.
  destruct (thread_checks (opened n)) eqn:Hc; cbn [negb] in Hr; [|by tx_ok].
  destruct (db_threads db !! nt_id n) as [t|] eqn:Ht; cbn [is_none negb] in Hr; [by tx_ok|].
  destruct (_ || _); [by tx_ok|].
  apply tx_bind_ok in Hr as (u' & d & Hu & Hr). injection Hu as _ <-.
  apply tx_bind_ok in Hr as (m & d & Hm & Hr). apply insert_message_ok in Hm as (_ & Hne & ->). injection Hr as _ <-.
  eapply (new_thread_ok db (opened n) (mkMessage (nt_message n) (nt_id n) 1 (nt_initiator n) (nt_initiator_session n)
  (nt_responder n) (nt_grant n) (nt_payload n) (nt_now n))); try done.
  split_and!; [done|..]; unfold party; cbn; rewrite N.eqb_refl; [done|by rewrite orb_true_r].
Qed.

(** Everything the broker does to threads, and what it does besides. *)
Inductive thread_step (db : Database) : Database -> Prop :=
| step_open clear n x db' : open_thread clear n db = Ok (x, db') -> thread_step db db'
| step_accept clear id session now x db' : accept clear id session now db = Ok (x, db') -> thread_step db db'
| step_append clear n x db' : append clear n db = Ok (x, db') -> thread_step db db'
| step_close id reason by_ note now x db' : close id reason by_ note now db = Ok (x, db') -> thread_step db db'
| step_close_where which reason by_ note now x db' :
close_where which reason by_ note now db = Ok (x, db') -> thread_step db db'
| step_other db' : db_threads db' = db_threads db -> db_messages db' = db_messages db -> thread_step db db'.

Lemma thread_step_moves db db' : threads_ok db -> thread_step db db' -> threads_ok db' /\ threads_later db db'.
Proof.
  intros Hok Hs. destruct Hs as [? ? ? d Hr|? ? ? ? ? d Hr|? ? ? d Hr|? ? ? ? ? ? d Hr|? ? ? ? ? ? d Hr|d HT HM].
  - by eapply open_thread_moves.
  - by eapply accept_moves.
  - by eapply append_moves.
  - by eapply close_moves.
  - by eapply close_where_moves.
  - split; [by eapply same_threads_ok|]. split; rewrite ?HT, ?HM; [|exists []; by rewrite app_nil_r].
  intros k t Ht. by exists t.
Qed.
Lemma thread_runs_ok db db' : threads_ok db -> rtc thread_step db db' -> threads_ok db' /\ threads_later db db'.
Proof.
  intros Hok Hr. induction Hr as [db|a b c Hs _ IH]; [by split|].
  destruct (thread_step_moves _ _ Hok Hs) as [Hok1 L1]. destruct (IH Hok1) as [? ?]. split; [done|by etransitivity].
Qed.
Lemma threads_ok_empty : threads_ok Database_empty.
Proof. constructor; cbn; intros *; rewrite ?lookup_empty; by try intros ?%elem_of_nil. Qed.

(** C37: whatever happens, in any order, the messages of a thread are numbered
    from one, in the order they were stored and without a gap, up to the
    thread's own count; each is from one of its two parties to the other. *)
Theorem thread_messages_numbered db id t :
  rtc thread_step Database_empty db -> db_threads db !! id = Some t ->
  map me_seq (of_thread id (db_messages db)) = numbers (th_last_seq t) /\
  forall m, m ∈ of_thread id (db_messages db) ->
  (me_sender m = th_initiator t /\ me_recipient m = th_responder t) \/
  (me_sender m = th_responder t /\ me_recipient m = th_initiator t).
Proof.
  intros Hr Ht. destruct (thread_runs_ok _ _ threads_ok_empty Hr) as [Hok _].
  split; [by apply to_numbered|]. intros m Hm. destruct (to_parties _ Hok _ _ _ Ht Hm) as (Hne & Hs & Hrec).
  unfold party in *. rewrite orb_true_iff, !N.eqb_eq in Hs, Hrec. destruct Hs, Hrec; auto; congruence.
Qed.

(** A closed thread is final: it stays exactly as it was closed, and no
    message is added to it. *)
Theorem closed_thread_final db db' id t :
  rtc thread_step Database_empty db -> rtc thread_step db db' ->
  db_threads db !! id = Some t -> th_state t = ThreadClosed ->
  db_threads db' !! id = Some t /\ of_thread id (db_messages db') = of_thread id (db_messages db).
Proof.
  intros Hr Hr' Ht Hc. destruct (thread_runs_ok _ _ threads_ok_empty Hr) as [Hok _].
  destruct (thread_runs_ok _ _ Hok Hr') as [Hok' [HT [more HM]]].
  destruct (HT _ _ Ht) as (t' & Ht' & _ & _ & _ & _ & _ & Hfin). specialize (Hfin Hc). subst t'. split; [done|].
  pose proof (to_numbered _ Hok _ _ Ht) as H1'. pose proof (to_numbered _ Hok' _ _ Ht') as H2'.
  rewrite HM, of_thread_app in H2' |- *. rewrite map_app, H1' in H2'.
  assert (Hl : map me_seq (of_thread id more) = []) by (apply (app_inv_head (numbers (th_last_seq t))); by rewrite app_nil_r).
  apply map_eq_nil in Hl. by rewrite Hl, app_nil_r.
Qed.
End operations.

(** ** On a concrete thread *)

Module SampleThread.
Import SampleService.
Definition peer : AgentRow :=
  mkAgentRow 2 (lit "helper") [] (lit "key2") [] None None (None, None) false None Service None None None None
  None None None Host None 0.
Definition clear : PairClear := mkPairClear agent peer.
Definition two_agents : Database := with_agents Database_empty {[ 1%N := agent; 2%N := peer ]}.
Definition db_of {A} (r : result StoreError (A * Database)) : Database :=
  match r with Ok (_, db) => db | Err _ => Database_empty end.
(** Opened, accepted, answered, closed. *)
Definition at_open := open_thread clear (mkNewThread 5 50 1 None 2 None None (lit "hello") 0) two_agents.
Definition at_accept := accept clear 5 None 1 (db_of at_open).
Definition at_answer := append clear (mkNewMessage 5 51 2 None (lit "hi") 2) (db_of at_accept).
Definition at_close := close 5 Closed (Some 1%N) None 3 (db_of at_answer).
Definition at_late := append clear (mkNewMessage 5 52 2 None (lit "still there?") 4) (db_of at_close).
End SampleThread.
Import SampleService SampleThread.

Lemma db_of_ok {A} (r : result StoreError (A * Database)) : is_ok r = true -> exists x, r = Ok (x, db_of r).
Proof. destruct r as [[x db]|]; [by exists x|done]. Qed.
Lemma closed_reach : rtc thread_step Database_empty (db_of at_close).
Proof.
  eapply rtc_l; [by apply (step_other _ two_agents)|].
  eapply rtc_l; [destruct (db_of_ok at_open) as [x Hx]; [vm_compute; reflexivity|]; eapply step_open; exact Hx|].
  eapply rtc_l; [destruct (db_of_ok at_accept) as [x Hx]; [vm_compute; reflexivity|]; eapply step_accept; exact Hx|].
  eapply rtc_l; [destruct (db_of_ok at_answer) as [x Hx]; [vm_compute; reflexivity|]; eapply step_append; exact Hx|].
  apply rtc_once. destruct (db_of_ok at_close) as [x Hx]; [vm_compute; reflexivity|]. eapply step_close; exact Hx.
Qed.
Lemma closed_thread : exists t, db_threads (db_of at_close) !! 5%N = Some t /\ th_state t = ThreadClosed /\ th_last_seq t = 2%N.
Proof.
  destruct (db_threads (db_of at_close) !! 5%N) as [t|] eqn:Ht; [|exfalso; vm_compute in Ht; discriminate].
  assert (Hs : ((fun t => (th_state t, th_last_seq t)) <$> db_threads (db_of at_close) !! 5%N) = Some (ThreadClosed, 2%N))
    by (vm_compute; reflexivity).
  rewrite Ht in Hs. injection Hs as Hs Hl. by exists t.
Qed.
Lemma thread_messages_numbered_witness : map me_seq (of_thread 5 (db_messages (db_of at_close))) = [1%N; 2%N].
Proof.
  destruct closed_thread as (t & Ht & _ & Hl).
  rewrite (proj1 (thread_messages_numbered _ 5 t closed_reach Ht)), Hl. reflexivity.
Defined.
Lemma closed_thread_final_witness :
  of_thread 5 (db_messages (db_of at_late)) = of_thread 5 (db_messages (db_of at_close)).
Proof.
  destruct closed_thread as (t & Ht & Hc & _).
  assert (Hr : rtc thread_step (db_of at_close) (db_of at_late)).
  { apply rtc_once. destruct (db_of_ok at_late) as [x Hx]; [vm_compute; reflexivity|]. eapply step_append; exact Hx. }
  exact (proj2 (closed_thread_final _ _ 5 t closed_reach Hr Ht Hc)).
Defined.
